(* ===== verification/_CoqProject ===== *)
-Q . S2P
Prelude.v
Bytes.v
Constants.v
ChannelLabel.v
Crypto.v
Proto.v
Cpace.v
X25519.v
Ratchet.v
RatchetKeys.v
RatchetChain.v
RatchetSession.v
WireFrames.v
PqMessageKey.v
Merkle.v
ChunkCrypto.v
RoomPolicy.v
MlKem.v
MlKemWasm.v
PqRecord.v
PqMachine.v
PqInvariant.v
PqSafety.v
PqSnapshot.v
PqProtocol.v
Handshake.v
HandshakeConfirm.v
HandshakeRun.v
PqRecovery.v
PqFrame.v
PqRuntime.v
PqRuntimeInv.v
PqCheckpoint.v
Metadata.v
SessionMessage.v
Session.v
SessionDelivery.v
SessionSnapshot.v
Wordlist.v
RoomInvite.v
RoomInviteCodec.v
RoomPins.v
FrameQueue.v
FrameQueueInv.v
FrameQueueSafety.v
RatchetWrap.v
RatchetRows.v
RatchetVault.v
RatchetGuard.v
EdgePersist.v
EdgeReceive.v
EdgeRace.v
MessageTypes.v
ReceiveStore.v
ReceiveLayout.v
ReceiveFile.v
Receive.v
InboundFrames.v
Staging.v
Acks.v
SendPass.v
Sending.v
SendPeers.v
Mutex.v
Leases.v
CoverCell.v
CoverGeometry.v
CoverScheduler.v
CoverInvariant.v
CoverTiming.v
CoverRuntime.v
CoverTransfer.v
Concrete.v
Witnesses.v
CoverWitnesses.v
SessionWitnesses.v
ReceiveWitnesses.v
RoomWitnesses.v
InboundWitnesses.v
SendWitnesses.v
