(* ===== verification/Prelude.v ===== *)
(** * p2party-js: a verification development

    p2party-js connects the peers of a room over WebRTC data channels and
    encrypts every message end to end.  This library models the core of that
    program (the TypeScript under [src/src/], with the C functions the TypeScript
    calls where they are part of the sources) as executable Rocq functions, from
    the handshake to the file that a receiver has on disk, and proves the
    properties that make it correct.

    ** The program and how its parts interact

    Two peers of a room hold one edge.  A handshake ([handshakeCore.ts]) over an
    untrusted channel (identities with cross signatures, CPace for rooms with a
    PIN, X25519 and ML-KEM, key confirmation) gives both ends a root secret; a
    Double Ratchet ([ratchet.ts]) started from it gives a fresh key per message.
    Beside it a post-quantum healing machine ([pqHealing.ts]) exchanges OFFER,
    ADVANCE and ACK records: one end offers an ML-KEM public key, the other
    encapsulates to it, and both move to the root of the next epoch.  The records
    travel in encrypted control frames ([pqHealingFrame.ts]) of the size of a
    chunk frame.  The key of a message is the ratchet key combined with the
    current healing root ([pqMessageKey.ts]).  A message is cut into chunks; the
    hash of every chunk is a leaf of a Merkle tree ([merkle.ts], [merkle.c]), each
    chunk carries its proof, and chunk and proof are sealed together
    ([messageChunkCrypto.ts], [pake_ratchet.c]) in a frame with a public header
    ([chunkFrame.ts]).  The room policy ([roomPolicy.ts]) is hashed into the
    handshake transcript.  In a room with scheduled cover the frames do not leave
    when they are ready: a scheduler ([coverScheduler.ts]) per edge opens a fixed
    number of lanes at every cycle boundary and hands one uniform cell over per
    slot of a fixed grid, a message chunk, a receipt, a cancellation or a dummy
    ([coverCell.ts], [coverRuntime.ts], [coverTransfer.ts]).

    Around this core the program sends and receives.  [handleSendMessage.ts] cuts
    a message into cells ([splitToChunks.ts]), opens a channel for each peer,
    steps the ratchet once, sends the cells and then those that are missing until
    the receiver confirms ([reconcile.ts], [handleReadReceipt.ts]), and can be
    cancelled ([transferAbort.ts]).  At the other end the frames of a channel wait
    in queues ([handleMessageQueueing.ts]), are routed ([handleOpenChannel.ts]),
    decrypted and written with the state of the edge in one transaction
    ([handleReceiveMessage.ts], [ratchetPersist.ts]), and stored by the database
    worker, which assembles the file ([db.worker.ts]) and keeps the secrets of an
    edge wrapped ([ratchetWrap.ts]).  Gates, inboxes and mutexes
    ([ratchetGate.ts], [handleHandshake.ts], [mutex.ts], [negotiationLock.ts])
    order what happens on one edge.  A room is entered with an invite
    ([roomInvite.ts]) and, if it has one, a PIN whose attempts are counted
    ([roomPinAttempts.ts], [roomPinVault.ts]).  [session.ts] offers the same
    cryptography to callers with a transport of their own.

    ** Files

    - [Prelude]: the [result] type for code that throws, the method monad [M]
      (state passing in which a throw keeps earlier mutations), their tactics
      and lemmas.  [Bytes]: [Uint8Array], [DataView], big-endian integers,
      hexadecimal strings.  [Constants]: sizes of the protocol.  [ChannelLabel]:
      [channelLabel.ts] and the hexadecimal functions of [uint8array.ts].
    - [Crypto]: the WebAssembly module as the class [LibCrypto], [hkdf.ts], and
      the classes of laws [HkdfTotal] and [AeadCorrect].  [X25519]: [x25519.ts]
      and [x3dh.ts], with the laws [DhCommutes] and [DhTotal].
    - [Proto]: interactive programs that send, receive and throw, and what it
      means to run one against a sequence of frames or against another program.
      [Cpace]: [cpace.ts].  [Handshake]: [performHandshakeCore] of
      [handshakeCore.ts] as such a program, with [identityCrossSig.ts] and the
      [verify] of [ed25519.ts].  [HandshakeConfirm]: what the confirmed
      transcript binds.  [HandshakeRun]: two honest ends.
    - [Ratchet]: every function of [ratchet.ts] over the record [RatchetState].
      [RatchetKeys]: the skipped-key map.  [RatchetChain]: one chain, out of
      order.  [RatchetSession]: the state invariant, persistence, DH steps.
    - [WireFrames]: [chunkFrame.ts], [receiptFrame.ts], [frameType.ts].
    - [PqMessageKey]: [pqMessageKey.ts].
    - [Merkle]: [merkle.ts], [leafHash.ts] and [merkle.c], the C loops on their
      in-place array of blocks; SHA-512 is the class [Sha512].
    - [ChunkCrypto]: [messageChunkCrypto.ts] and [receive_message_with_key] of
      [pake_ratchet.c], over the live ratchet and the per-message key cache.
    - [RoomPolicy]: [roomPolicy.ts].
    - [MlKem]: the suites and the backend interface of [mlkem.ts] as a class
      with its laws.  [MlKemWasm]: [WasmMlKemBackend], which implements it over
      an explicit heap, and the proof that it satisfies those laws.
    - [PqRecord]: the codecs of [pqHealing.ts].  [PqMachine]: the fields of
      [PqHealingMachine] and one definition per method, the asynchronous ones
      cut at their [await] into a start and a resume half.  [PqInvariant]: what
      every method does, its atomicity, the machine invariant.  [PqSafety]: a
      step relation in which calls, replies of the backend and [destroy]
      interleave.  [PqSnapshot]: checkpoints.  [PqProtocol]: two machines over
      a channel that loses, delays, reorders and replays.  [PqRecovery]:
      progress.  [PqFrame]: [pqHealingFrame.ts].
    - [CoverCell]: [coverCell.ts].  [CoverGeometry]: the schedule and its grid of
      slots.  [CoverScheduler]: the class of [coverScheduler.ts], one definition
      per method over a store of jobs, cycles, the timer and the suspended sends,
      and [step], which runs one API call, timer callback or resumed promise.
      [CoverInvariant]: weakest preconditions of methods and the job invariant.
      [CoverTiming]: the invariant of timer, cycle and sends over all runs.
      [CoverRuntime]: [coverRuntime.ts].  [CoverTransfer]: [coverTransfer.ts] and
      the send table of [coverEdge.ts].
    - [PqRuntime]: the controller of [pqHealingRuntime.ts] around the machine.
      [PqRuntimeInv]: its invariant, clones and duplicates.  [PqCheckpoint]:
      writer and reader of its checkpoints.
    - [Metadata]: [metadata.ts].  [SessionMessage], [Session]: [session.ts].
      [SessionDelivery]: one session to another, and replays.
      [SessionSnapshot]: snapshots, and how the store of skipped keys grows.
    - [EdgePersist]: the transactions of [ratchetPersist.ts] over a store of
      connections and [Map]s, cut at their awaits.  [EdgeReceive]: what a durable
      receive leaves behind.  [EdgeRace]: a frame that meets a healing
      transition.
    - [MessageTypes]: [messageTypes.ts].  [ReceiveStore]: the worker's side of a
      received transfer.  [ReceiveLayout]: its layout check.  [ReceiveFile]: the
      assembled file.  [Receive]: [handleReceiveMessage.ts],
      [receiveMessageKeyLifetime.ts], [receiptToken.ts], and the receipt.
    - [RatchetWrap]: [ratchetWrap.ts] and the rows of the worker.  [RatchetRows]:
      its encodings.  [RatchetVault]: wrapped rows.  [RatchetGuard]: the rollback
      guard.
    - [Wordlist], [RoomInvite], [RoomInviteCodec]: [roomInvite.ts].  [RoomPins]:
      [roomPinAttempts.ts], [roomPinVault.ts], and the bounds on guessing.
    - [FrameQueue]: the queues of [handleMessageQueueing.ts].  [FrameQueueInv],
      [FrameQueueSafety]: every reachable state of them.  [InboundFrames]: the
      channel handlers of [handleOpenChannel.ts] and [processMessage].
    - [Mutex]: [mutex.ts], [negotiationLock.ts].  [Leases]: [ratchetGate.ts] and
      the inbox of [handleHandshake.ts].
    - [Staging]: [splitToChunks.ts] and the random draws and the shuffle of
      [cryptography/utils.ts].  [Acks]: [reconcile.ts], [handleReadReceipt.ts],
      [transferAbort.ts].  [SendPass], [Sending], [SendPeers]:
      [handleSendMessage.ts], one pass, one peer, all peers.
    - [Concrete]: an executable stand-in for the module and the backend that
      satisfies all the laws.  [Witnesses], [CoverWitnesses], [SessionWitnesses],
      [ReceiveWitnesses], [RoomWitnesses], [InboundWitnesses], [SendWitnesses]:
      every theorem with hypotheses applied at a concrete input.

    ** What the theorems show

    - Healing.  Whatever the channel does, ends that reach the same epoch hold
      the same root ([PqProtocol.healing_roots_agree]); from every reachable
      state a finite schedule brings both ends back to idle
      ([PqRecovery.healing_recovers]) and a fresh exchange completes
      ([healing_exchange_completes]).  Every reachable machine satisfies its
      invariant under all interleavings ([reachable_machine_invariant]), epoch
      and counters move in lockstep, an offer is accepted at most once, a call
      that throws changes nothing ([failed_call_is_atomic]), and checkpoints
      restore the machine they were taken of.  Records and control frames round
      trip, decode canonically, and are refused when a header field differs.
    - Handshake.  Two honest ends that agree on policy and PIN complete
      ([HandshakeRun.handshake_completes]) and hold the same secrets; when one
      end accepts a proof that the other made, both have seen the same five
      frames and hold the same root, or an HMAC collision is exhibited
      ([HandshakeConfirm.key_confirmation]).  The CPace generator binds PIN,
      channel and session ([Cpace.cpace_generator_binds]).
    - Ratchet.  The messages of a chain are decrypted in any order of arrival
      ([out_of_order_delivery]), a key is given out once
      ([message_key_used_once]), a DH step brings both ends to one root and
      chain, the skipped keys stay bounded, persistence is faithful.
    - Messages.  A message sealed chunk by chunk is delivered in any order
      ([ChunkCrypto.message_delivered]); a frame that does not authenticate
      leaves ratchet and cache alone; an accepted chunk is one of the chunks
      behind the Merkle root, or one of the blocks hashed for that root collides
      with one of the blocks hashed to check the chunk
      ([ChunkCrypto.accepted_chunk_is_genuine]).  Merkle proofs verify and are
      sound in the same sense ([Merkle.merkle_proof_sound]).
    - Key encodings ([message_key_info_injective], [frame_key_info_injective]),
      wire frames and room policies: injective, canonical, round trips.
    - Cover traffic.  For every sequence of calls, timer callbacks and answers of
      the environment: cells leave only in their slots, on the grid of the room
      policy, never twice in a slot ([CoverTiming.cover_sends_on_schedule],
      [CoverGeometry.slots_on_uniform_grid]); no job is lost, duplicated or
      settled twice ([cover_jobs_accounted]); a running scheduler always has a
      next step ([cover_never_stalls]).  The replay window refines an unbounded
      record ([CoverRuntime.replay_window_refines]) and a cell is delivered once;
      what opens is canonical and bound to edge, direction and epoch; an accepted
      room policy always gives a valid schedule.  Two examples in [CoverTiming]
      and [CoverTransfer.admitted_transfer_cancel_throws] show behaviour the
      comments of the code rule out.
    - Healing runtime and sessions.  The runtime keeps its invariant and answers a
      frame it has seen with the response it gave; checkpoints and snapshots are
      read back as they were written and are bound to their edge
      ([checkpoint_roundtrip], [session_snapshot_roundtrip]).  A session's
      [decrypt] gives back what [encrypt] sealed, in any order of the frames
      ([SessionDelivery.session_delivers]), and leaves the session alone when it
      throws ([session_atomic]); a message that was delivered is accepted again
      ([replayed_message_accepted]).
    - Receiving.  A message is recoverable from the row written with it
      ([EdgeReceive.received_message_recoverable]); the store, in any order of
      chunks and through failures of OPFS, assembles the file that was sent
      ([ReceiveFile.received_file_is_sent]), counts a chunk once, and reports
      completion only when the file is covered; a receipt is sent only for a
      chunk that is stored ([Receive.receipt_means_stored]).  A first
      commit that fails, of the last, shorter chunk, always puts the later chunks
      at wrong places in the file ([aborted_commit_corrupts_file]), and a
      frame that arrives during a transition can lose its key
      ([late_frame_key_lost]).
    - Inbound frames.  The queues drain from every reachable state
      ([FrameQueueSafety.queues_drain]), their budgets are exact, a released
      channel is silent; a frame that is let in is answered by one receipt frame
      when the channel is open and the room not covered
      ([InboundFrames.every_frame_answered]); [replay_ignores_cover] shows the
      receipt replay outside the schedule of a covered room.
    - Order on an edge.  The mutex is a waiting line
      ([Mutex.mutex_refines_line]), the registry gives one critical section per
      room and peer ([Mutex.one_critical_section]); a lease that was replaced
      does nothing ([stale_lease_inert]), an inbox hands frames over in order.
    - Rows at rest.  A worker's own write is read back
      ([RatchetGuard.own_write_reloads]), no older row is accepted
      ([RatchetGuard.row_never_rolled_back]), fields of two rows do not mix.
    - Rooms.  An invite has one capability in all its spellings
      ([RoomInviteCodec.invite_spellings]); guesses at a PIN are bounded
      by the window of the room and the handshakes in flight at a time
      ([RoomPins.pin_guesses_bounded]), except those that break off after the
      responder's confirmation ([RoomPins.broken_guess_not_counted]).
    - Sending.  The cells of a message carry its bytes, in order
      ([Staging.split_cuts_message]), and the cut ends for every draw
      ([Staging.split_completes]).  A pass puts each missing chunk on the wire
      once, in a frame the receiver opens ([SendPass.pass_sends_message]); what
      counts as acknowledged is stored at a receiver, unless the inputs of the
      receipt's token or of the chunk's leaf collide ([Acks.ack_means_stored]).
      A send that ends has wiped its message keys and, if it had one, closed its
      channel ([Sending.send_cleans_up]), the fan-out gives every peer one outcome
      ([SendPeers.fanout_settles]), and [handleSendMessage] finishes its transfer
      and drops what it staged, whatever others do to the registry and the stores
      at its awaits ([SendPeers.message_settles]); a cancellation
      reaches the transfers it names ([Acks.cancel_hits_one]).  The exceptions
      are stated there and in [Sending.resume_drops_context] and
      [SendPeers.scheduled_key_dies_early].
    - Memory.  The ML-KEM calls leave no block allocated and no secret in a
      freed block, on every path; the backend meets its interface.

    ** Modelling choices

    Integers are [Z]; u64 fields are written with their range checks and u8 and
    u32 conversions with their modulus.  JavaScript numbers are used where the
    source checks [MAX_SAFE_INTEGER]; elsewhere a number that the source adds or
    multiplies without a check is exact below 2^53, which the counters of the
    ratchet (refused beyond it by the frame codec) and the slot times of a
    realistic schedule ([CoverGeometry.slotAt]) stay under.  Randomness and answers of awaited calls
    are arguments.  A buffer wiped after it was replaced is not observable and
    has no counterpart; a wiped buffer that a caller still holds has one
    ([combinePqMessageKey], [wipePqHealingSnapshot], the freed heap blocks).
    Checks that an untyped value has the right JavaScript shape are the types of
    the model.

    The cover scheduler runs against an oracle: the n-th call to the environment
    (clock, lane factory, lane close, observer) gets the n-th answer, and
    producers and the transport answer through events, in any order.  Times are
    integers of milliseconds; theorems on time assume a finite clock, those on
    order a clock that does not run backwards.  An observer that is notified of a
    settled job may enqueue further jobs; other calls from inside an observer are
    not modelled.

    Loops: [skip_loop] runs [until - Nr] times, the iterations of the source's
    [while]; [evict] recurses on the map; the Merkle loops run on fuel
    [LEAVES_LEN], which is enough because the number of nodes halves
    ([root_loop_spec], [proof_loop] in [merkle_proof_verifies]), so no theorem
    is conditional on fuel.  A drain of a queue calls itself at most once before
    it waits ([drain 1]); that nothing queued is left without a drain is part of
    their invariant.  The loops of the sender follow the list of worlds the sender will
    see, one world per await, with one turn more than there are worlds; a run
    that outlives its list is [still_waiting], the pending promise.  The rounds of
    [reconcile_loop] have the bound [RECONCILE_TURNS], enough for the bounded
    retries on a bounded number of resumed channels: [send_cleans_up] proves that
    no run exceeds it.  Draws that reject ([randomNumberInRange], [uniformInt])
    follow the list of what is drawn; that one of the draws is accepted is a
    hypothesis of [split_completes], the only one of this kind.

    Hypotheses on code outside the sources (libsodium, mlkem-native, the
    allocator, WebCrypto) are the classes named above: calls answer (HKDF for
    outputs of at most 255 blocks, encapsulation to keys that key generation has
    made, as ML-KEM rejects others), the AEAD and the KEM invert, X25519 commutes,
    SHA-512 has one meaning and length 64, [malloc] returns fresh blocks; that a
    heap has room for the blocks of a call is a hypothesis on that heap.  No
    hypothesis assumes collision resistance: where SHA-512 could collide the
    conclusion names the two lists of blocks that were hashed, [collides sent
    checked], one of the first against one of the second.

    ** Not modelled

    The public functions of [index.ts] and the store, which dispatch to what is
    modelled; the glue around it that calls the browser: WebRTC offers, answers
    and candidates ([handleConnectToPeer.ts], [api/webrtc/]), the handlers of
    [handleOpenChannel.ts] that start a handshake or dispatch the state of a
    channel, the timers of [pqHealingOrchestrator.ts], the construction of a
    session; the WebSocket signaling; the reducers ([roomSlice.ts] and its
    neighbours), of which the models keep the fields they read; the parts of
    [db.worker.ts] that store rooms, blacklists and send queues; loading the
    WebAssembly module, and the vendored or generated code. *)

From stdpp Require Export base tactics option list strings.
From Stdlib Require Export ZArith Lia.

#[global] Set Default Goal Selector "!".

(** ** Exceptions as values

    A JavaScript function that may [throw] returns [result E A]. *)

Inductive result (E A : Type) : Type :=
  | Ok (a : A)
  | Err (e : E).
Arguments Ok {E A} a.
Arguments Err {E A} e.

#[export] Instance result_ret {E} : MRet (result E) := fun A a => Ok a.
#[export] Instance result_bind {E} : MBind (result E) := fun A B f r =>
  match r with Ok a => f a | Err e => Err e end.
#[export] Instance result_fmap {E} : FMap (result E) := fun A B f r =>
  match r with Ok a => Ok (f a) | Err e => Err e end.

(** [if (!b) throw e]. *)
Definition require {E} (b : bool) (e : E) : result E unit :=
  if b then Ok tt else Err e.

Definition is_ok {E A} (r : result E A) : bool :=
  match r with Ok _ => true | Err _ => false end.

(** Map the error of a callee into the error type of its caller. *)
Definition map_err {E F A} (f : E -> F) (r : result E A) : result F A :=
  match r with Ok a => Ok a | Err e => Err (f e) end.

(** ** Methods: state passing with exceptions

    A method of an object with mutable fields [S].  A throw keeps the mutations
    made before it, as in JavaScript. *)

Definition M (S E A : Type) : Type := S -> result E A * S.

#[export] Instance M_ret {S E} : MRet (M S E) := fun A a s => (Ok a, s).
#[export] Instance M_bind {S E} : MBind (M S E) := fun A B f m s =>
  match m s with
  | (Ok a, s') => f a s'
  | (Err e, s') => (Err e, s')
  end.

Definition mthrow {S E A} (e : E) : M S E A := fun s => (Err e, s).
Definition get_this {S E} : M S E S := fun s => (Ok s, s).
Definition set_this {S E} (s : S) : M S E unit := fun _ => (Ok tt, s).
Definition modify_this {S E} (f : S -> S) : M S E unit := fun s => (Ok tt, f s).
(** Run a function that only reads and may throw. *)
Definition lift {S E A} (r : result E A) : M S E A := fun s => (r, s).
Definition mrequire {S E} (b : bool) (e : E) : M S E unit := lift (require b e).

(** ** Automation *)

(** Evaluate the monad operations that are applied to a visible value. *)
Ltac monad_simpl :=
  unfold mthrow, get_this, set_this, modify_this, mrequire, lift in *;
  cbn [mbind mret fmap result_ret result_bind result_fmap M_ret M_bind
       require map_err fst snd] in *.

(** Split a chain of guards: every [if]/[match] of a hypothesis or of the goal
    is destructed, impossible branches are closed. *)
Ltac guard_step :=
  match goal with
  | H : Ok _ = Ok _ |- _ => injection H as H; try subst
  | H : Err _ = Ok _ |- _ => discriminate H
  | H : Ok _ = Err _ |- _ => discriminate H
  | H : Err _ = Err _ |- _ => injection H as H; try subst
  | H : (_, _) = (_, _) |- _ => injection H as ? H; try subst
  | H : require ?b _ = Ok _ |- _ =>
      unfold require in H; destruct b eqn:?; [|discriminate H]
  | H : context [match ?x with _ => _ end] |- _ => destruct x eqn:?
  end.

Ltac guards := repeat (monad_simpl; guard_step; try discriminate; try done).

Lemma require_ok {E} (b : bool) (e : E) : require b e = Ok tt <-> b = true.
Proof. destruct b; cbn; split; congruence. Qed.

Lemma map_err_ok {E F A} (f : E -> F) (r : result E A) a : map_err f r = Ok a -> r = Ok a.
Proof. destruct r; cbn; congruence. Qed.

Lemma result_bind_ok {E A B} (r : result E A) (f : A -> result E B) b :
  (r ≫= f) = Ok b <-> exists a, r = Ok a /\ f a = Ok b.
Proof. destruct r; cbn; naive_solver. Qed.

Lemma M_bind_ok {S E A B} (m : M S E A) (f : A -> M S E B) s b s' :
  (m ≫= f) s = (Ok b, s') <->
  exists a s1, m s = (Ok a, s1) /\ f a s1 = (Ok b, s').
Proof.
  unfold mbind, M_bind. destruct (m s) as [[a|e] s1]; naive_solver.
Qed.

Lemma Ok_inj {E A} (a b : A) : @Ok E A a = Ok b -> a = b.
Proof. by intros [= ->]. Qed.

(** Invert a chain of binds that returned: one equation per bound call, named
    [E], [E0], ... in their order; the values of unit calls disappear. *)
Ltac binds H :=
  cbv beta zeta in H;
  lazymatch type of H with
  | (_ ≫= _) = Ok _ =>
      let x := fresh "x" in let E := fresh "E" in
      apply result_bind_ok in H as (x & E & H);
      lazymatch type of x with unit => destruct x | _ => idtac end;
      binds H
  | Ok _ = Ok _ => apply Ok_inj in H
  | _ => idtac
  end.

(** ** Read-only and atomic methods

    [readonly c]: [c] never changes the object.  [atomic c]: a throw leaves the
    object as it was. *)

Definition readonly {S E A} (c : M S E A) : Prop := forall s, snd (c s) = s.
Definition atomic {S E A} (c : M S E A) : Prop :=
  forall s e s', c s = (Err e, s') -> s' = s.
Definition no_throw {S E A} (c : M S E A) : Prop :=
  forall s e s', c s <> (Err e, s').

Section Atomic.
Context {S E A B : Type}.
Implicit Types (c : M S E A) (f : A -> M S E B).

Lemma readonly_ret a : readonly (mret a : M S E A).
Proof. done. Qed.
Lemma readonly_throw e : readonly (mthrow e : M S E A).
Proof. done. Qed.
Lemma readonly_get : readonly (get_this : M S E S).
Proof. done. Qed.
Lemma readonly_lift r : readonly (lift r : M S E A).
Proof. done. Qed.
Lemma readonly_bind c f :
  readonly c -> (forall a, readonly (f a)) -> readonly (c ≫= f).
Proof.
  intros Hc Hf s. unfold mbind, M_bind. specialize (Hc s).
  destruct (c s) as [[a|e] s1]; cbn in *; subst; [apply Hf|done].
Qed.
Lemma readonly_atomic c : readonly c -> atomic c.
Proof. intros Hc s e s' H. specialize (Hc s). by rewrite H in Hc. Qed.
Lemma atomic_set s0 : atomic (set_this s0 : M S E unit).
Proof. done. Qed.
Lemma atomic_modify g : atomic (modify_this g : M S E unit).
Proof. done. Qed.
Lemma atomic_bind c f :
  readonly c -> (forall a, atomic (f a)) -> atomic (c ≫= f).
Proof.
  intros Hc Hf s e s'. unfold mbind, M_bind. specialize (Hc s).
  destruct (c s) as [[a|e1] s1]; cbn in *; subst; [apply Hf|naive_solver].
Qed.
Lemma atomic_bind_no_throw c f :
  atomic c -> (forall a, no_throw (f a)) -> atomic (c ≫= f).
Proof.
  intros Hc Hf s e s'. unfold mbind, M_bind.
  destruct (c s) as [[a|e1] s1] eqn:Hs; [intros H; by apply Hf in H|].
  intros [= -> ->]. by eapply Hc.
Qed.
Lemma no_throw_ret a : no_throw (mret a : M S E A).
Proof. done. Qed.
End Atomic.

Create HintDb method.
#[export] Hint Resolve readonly_ret readonly_throw readonly_get readonly_lift
  readonly_bind atomic_set atomic_modify no_throw_ret : method.
#[export] Hint Resolve readonly_atomic atomic_bind_no_throw atomic_bind | 5 : method.

(** ** Preserved state predicates

    [preserves P c]: [c] keeps [P], whether it returns or throws. *)

Definition preserves {S E A} (P : S -> Prop) (c : M S E A) : Prop :=
  forall s, P s -> P (snd (c s)).

Section Preserves.
Context {S E A B : Type} (P : S -> Prop).
Implicit Types (c : M S E A) (f : A -> M S E B).

Lemma preserves_readonly c : readonly c -> preserves P c.
Proof. intros Hc s Hs. by rewrite Hc. Qed.
Lemma preserves_modify (g : S -> S) :
  (forall s, P s -> P (g s)) -> preserves P (modify_this g : M S E unit).
Proof. intros Hg s Hs. by apply Hg. Qed.
Lemma preserves_bind c f :
  preserves P c -> (forall a, preserves P (f a)) -> preserves P (c ≫= f).
Proof.
  intros Hc Hf s Hs. unfold mbind, M_bind. specialize (Hc s Hs).
  destruct (c s) as [[a|e] s1]; cbn in *; [by apply Hf|done].
Qed.
(** The continuation may use that [this] is the current object. *)
Lemma preserves_get (f : S -> M S E B) :
  (forall s, P s -> P (snd (f s s))) -> preserves P (get_this ≫= f).
Proof. intros Hf s Hs. by apply Hf. Qed.
Lemma preserves_run c s r s' : preserves P c -> P s -> c s = (r, s') -> P s'.
Proof. intros Hc Hs Heq. specialize (Hc s Hs). by rewrite Heq in Hc. Qed.
End Preserves.

(** ** Sorting

    [Array.prototype.sort] with a comparison function, a stable sort. *)

Section Sort.
Context {A : Type} (compare : A -> A -> Z).
Fixpoint insert_sorted (x : A) (l : list A) : list A :=
  match l with
  | [] => [x]
  | y :: l' => if (compare x y <=? 0)%Z then x :: l else y :: insert_sorted x l'
  end.
Definition array_sort (l : list A) : list A := foldr insert_sorted [] l.

Lemma insert_sorted_perm x l : insert_sorted x l ≡ₚ x :: l.
Proof.
  induction l as [|y l IH]; [done|]. cbn. case_match; [done|].
  rewrite IH. apply Permutation_swap.
Qed.
Lemma array_sort_perm l : array_sort l ≡ₚ l.
Proof. induction l as [|x l IH]; [done|]. cbn. by rewrite insert_sorted_perm, IH. Qed.
End Sort.

Lemma mrequire_ok {S E} (b : bool) (e : E) (s s' : S) u :
  mrequire b e s = (Ok u, s') -> b = true /\ s' = s.
Proof. unfold mrequire, lift. intros H. injection H as H <-. destruct u. by apply require_ok in H. Qed.

(** Invert a chain of method calls that returned. *)
Ltac mbind_hook E := idtac.
Ltac mbinds H :=
  cbv beta zeta in H;
  lazymatch type of H with
  | (_ ≫= _) _ = (Ok _, _) =>
      let x := fresh "x" in let s := fresh "s" in let E := fresh "E" in
      apply M_bind_ok in H as (x & s & E & H);
      first
        [ lazymatch type of E with
          | get_this _ = _ =>
              let E1 := fresh in let E2 := fresh in
              injection E as E1 E2; subst x s
          | lift _ _ = _ =>
              let E2 := fresh in
              injection E as E E2; subst s
          | modify_this _ _ = _ => injection E as _ E; subst s
          | set_this _ _ = _ => injection E as _ E; subst s
          end
        | mbind_hook E ];
      try lazymatch type of x with unit => destruct x end;
      mbinds H
  | mret _ _ = (Ok _, _) => first [injection H as H ? | injection H as H; try subst]
  | modify_this _ _ = (Ok _, _) => first [injection H as _ H | injection H as H]; try subst
  | lift _ _ = (Ok _, _) => injection H as H ?
  | mthrow _ _ = (Ok _, _) => discriminate H
  | _ => idtac
  end.
