(* ===== verification/Bytes.v ===== *)
(** * Byte buffers: [Uint8Array], [DataView] and hexadecimal strings

    A [Uint8Array] is a [list byte]; indices and lengths are JavaScript
    integers, kept as [Z].  [byte_of] is the modulo-256 conversion an element
    assignment performs.  [bset] is [TypedArray.prototype.set], [slice] is
    [slice]/[subarray], [get_u64]/[put_u64] are [DataView.getBigUint64] and
    [setBigUint64] in big-endian order.  Writes out of range would throw a
    [RangeError] in JavaScript; the encoders of the development only write in
    range, which their length lemmas show. *)

From Stdlib Require Import Strings.Byte NArith.
From S2P Require Import Prelude.

Local Open Scope Z_scope.

Abbreviation bytes := (list byte).

#[export] Instance byte_eq_decision : EqDecision byte := Byte.byte_eq_dec.
#[export] Instance result_eq_decision {E A} `{EqDecision E, EqDecision A} :
  EqDecision (result E A).
Proof. solve_decision. Defined.

(** ** Elements *)

Definition u8 (b : byte) : Z := Z.of_N (Byte.to_N b).
Definition byte_of (z : Z) : byte :=
  match Byte.of_N (Z.to_N (z mod 256)) with Some b => b | None => x00 end.

Lemma u8_range b : 0 <= u8 b < 256.
Proof. unfold u8. pose proof (Byte.to_N_bounded b). lia. Qed.

Lemma u8_byte_of z : u8 (byte_of z) = z mod 256.
Proof.
  unfold u8, byte_of. pose proof (Z.mod_pos_bound z 256 ltac:(lia)).
  destruct (Byte.of_N (Z.to_N (z mod 256))) as [b|] eqn:Hb.
  - apply Byte.to_of_N in Hb. rewrite Hb. lia.
  - apply Byte.of_N_None_iff in Hb. lia.
Qed.

Lemma byte_of_u8 b : byte_of (u8 b) = b.
Proof.
  unfold byte_of, u8. pose proof (Byte.to_N_bounded b).
  rewrite Z.mod_small by lia. rewrite N2Z.id, Byte.of_to_N. done.
Qed.

Lemma u8_inj a b : u8 a = u8 b -> a = b.
Proof. intros H. by rewrite <- (byte_of_u8 a), H, byte_of_u8. Qed.

(** ** Buffers *)

Definition blen {A} (l : list A) : Z := Z.of_nat (length l).
Definition zeros (n : Z) : bytes := replicate (Z.to_nat n) x00.

(** [a[i]], [None] standing for [undefined]. *)
Definition at_ (l : bytes) (i : Z) : option Z := u8 <$> l !! Z.to_nat i.

Definition slice {A} (l : list A) (a b : Z) : list A :=
  take (Z.to_nat (b - a)) (drop (Z.to_nat a) l).
Definition slice_from {A} (l : list A) (a : Z) : list A := drop (Z.to_nat a) l.

Definition bset (buf : bytes) (off : Z) (data : bytes) : bytes :=
  take (Z.to_nat off) buf ++ data ++ drop (Z.to_nat off + length data) buf.

(** ** Big-endian integers *)

Fixpoint be_encode (n : nat) (z : Z) : bytes :=
  match n with
  | O => []
  | S k => byte_of (Z.shiftr z (8 * Z.of_nat k)) :: be_encode k z
  end.

Arguments be_encode : simpl never.

Definition be_decode (l : bytes) : Z :=
  fold_left (fun acc b => acc * 256 + u8 b) l 0.

Definition MAX_U64 : Z := Z.shiftl 1 64 - 1.
Definition MAX_SAFE_INTEGER : Z := 2 ^ 53 - 1.

Definition put_u64 (buf : bytes) (off v : Z) : bytes :=
  bset buf off (be_encode 8 v).
Definition get_u64 (buf : bytes) (off : Z) : Z := be_decode (slice buf off (off + 8)).
Definition put_u32 (buf : bytes) (off v : Z) : bytes :=
  bset buf off (be_encode 4 v).
Definition get_u32 (buf : bytes) (off : Z) : Z := be_decode (slice buf off (off + 4)).

Definition is_u64 (v : Z) : bool := (0 <=? v) && (v <=? MAX_U64).

(** [new TextEncoder().encode(s)] on the ASCII labels of the program. *)
Definition text (s : string) : bytes := String.list_byte_of_string s.

(** ** Comparison without early exit

    [bytesEqual] accumulates [difference |= left[i] ^ right[i]]. *)

Definition xor_difference (left right : bytes) : Z :=
  fold_left (fun d p => Z.lor d (Z.lxor (u8 p.1) (u8 p.2))) (zip left right) 0.

Definition bytesEqual (left right : bytes) : bool :=
  if blen left =? blen right then xor_difference left right =? 0 else false.

(** [difference |= buffer[i]], used for all-zero padding checks. *)
Definition or_all (l : bytes) : Z := fold_left (fun d b => Z.lor d (u8 b)) l 0.

(** ** Lemmas on buffers *)

Lemma blen_nonneg {A} (l : list A) : 0 <= blen l.
Proof. unfold blen. lia. Qed.

Lemma blen_app {A} (l k : list A) : blen (l ++ k) = blen l + blen k.
Proof. unfold blen. rewrite length_app. lia. Qed.

Lemma blen_zeros n : 0 <= n -> blen (zeros n) = n.
Proof. intros. unfold blen, zeros. rewrite length_replicate. lia. Qed.

Lemma be_encode_S n z :
  be_encode (S n) z = byte_of (Z.shiftr z (8 * Z.of_nat n)) :: be_encode n z.
Proof. done. Qed.

Lemma length_be_encode n z : length (be_encode n z) = n.
Proof. induction n; [done|]. rewrite be_encode_S. cbn. by f_equal. Qed.

Lemma blen_bset buf off d :
  0 <= off -> off + blen d <= blen buf -> blen (bset buf off d) = blen buf.
Proof.
  unfold blen, bset. intros.
  rewrite !length_app, length_take, length_drop. lia.
Qed.

Lemma blen_slice {A} (l : list A) a b :
  0 <= a <= b -> b <= blen l -> blen (slice l a b) = b - a.
Proof. unfold blen, slice. intros. rewrite length_take, length_drop. lia. Qed.

Lemma blen_slice_from {A} (l : list A) a :
  0 <= a <= blen l -> blen (slice_from l a) = blen l - a.
Proof. unfold blen, slice_from. intros. rewrite length_drop. lia. Qed.

Lemma slice_app_split {A} (l : list A) a b :
  0 <= a <= b -> take (Z.to_nat b) l = take (Z.to_nat a) l ++ slice l a b.
Proof.
  intros. unfold slice. rewrite take_drop_commute.
  replace (Z.to_nat a + Z.to_nat (b - a))%nat with (Z.to_nat b) by lia.
  rewrite <- (take_drop (Z.to_nat a) (take (Z.to_nat b) l)) at 1.
  by rewrite take_take, Nat.min_l by lia.
Qed.

Lemma slice_all {A} (l : list A) b : b = blen l -> slice l 0 b = l.
Proof.
  intros ->. unfold slice, blen. rewrite Z.sub_0_r, Nat2Z.id.
  change (Z.to_nat 0) with 0%nat. rewrite drop_0. by apply take_ge.
Qed.

(** Elementwise description of the buffer operations, from which the
    reading-after-writing lemmas follow. *)
Lemma lookup_slice {A} (l : list A) a b i :
  0 <= a -> slice l a b !! i =
    if decide (Z.of_nat i < b - a) then l !! (Z.to_nat a + i)%nat else None.
Proof.
  intros. unfold slice. case_decide.
  - rewrite lookup_take_lt by lia. by rewrite lookup_drop.
  - apply lookup_take_ge. lia.
Qed.

Lemma lookup_bset buf off d i :
  0 <= off -> off + blen d <= blen buf ->
  bset buf off d !! i =
    if decide (off <= Z.of_nat i < off + blen d)
    then d !! (i - Z.to_nat off)%nat else buf !! i.
Proof.
  unfold bset, blen. intros. case_decide.
  - rewrite lookup_app_r by (rewrite length_take; lia).
    rewrite lookup_app_l by (rewrite length_take; lia).
    rewrite length_take. f_equal. lia.
  - destruct (decide (Z.of_nat i < off)).
    + rewrite lookup_app_l by (rewrite length_take; lia).
      rewrite lookup_take_lt by lia. done.
    + rewrite lookup_app_r, length_take by (rewrite length_take; lia).
      rewrite lookup_app_r by lia. rewrite lookup_drop. f_equal. lia.
Qed.

Lemma slice_bset_same buf off d b :
  0 <= off -> off + blen d <= blen buf -> b = off + blen d ->
  slice (bset buf off d) off b = d.
Proof.
  intros ?? ->. apply list_eq. intros i.
  rewrite lookup_slice by lia. rewrite lookup_bset by lia.
  unfold blen in *. repeat case_decide; try lia.
  - f_equal. lia.
  - symmetry. apply lookup_ge_None. lia.
Qed.

Lemma slice_bset_other buf off d a b :
  0 <= off -> off + blen d <= blen buf -> 0 <= a ->
  b <= off \/ off + blen d <= a ->
  slice (bset buf off d) a b = slice buf a b.
Proof.
  intros. apply list_eq. intros i. rewrite !lookup_slice by lia.
  case_decide; [|done]. rewrite lookup_bset by lia. case_decide; [lia|done].
Qed.

Lemma slice_from_slice {A} (l : list A) a : 0 <= a ->
  slice_from l a = slice l a (Z.max a (blen l)).
Proof.
  intros. unfold slice_from, slice, blen.
  rewrite take_ge; [done|]. rewrite length_drop. lia.
Qed.

Lemma slice_zeros n a b : 0 <= a <= b -> b <= n ->
  slice (zeros n) a b = zeros (b - a).
Proof.
  intros. unfold slice, zeros. rewrite drop_replicate, take_replicate.
  f_equal. lia.
Qed.

Lemma slice_slice {A} (l : list A) a b c d :
  0 <= a -> 0 <= c -> a + d <= b ->
  slice (slice l a b) c d = slice l (a + c) (a + d).
Proof.
  intros. apply list_eq. intros i. rewrite !lookup_slice by lia.
  repeat case_decide; try lia; try done. f_equal. lia.
Qed.

Lemma at_slice l i : 0 <= i -> at_ l i = u8 <$> head (slice l i (i + 1)).
Proof.
  intros. unfold at_. rewrite <- (Nat.add_0_r (Z.to_nat i)) at 1.
  rewrite head_lookup, lookup_slice by lia. case_decide; [done|lia].
Qed.

Lemma at_bset_same buf i z :
  0 <= i < blen buf -> at_ (bset buf i [byte_of z]) i = Some (z mod 256).
Proof.
  intros. rewrite at_slice by lia.
  rewrite slice_bset_same by (unfold blen in *; cbn; lia).
  cbn. by rewrite u8_byte_of.
Qed.

Lemma at_bset_other buf off d i :
  0 <= off -> off + blen d <= blen buf -> 0 <= i ->
  i < off \/ off + blen d <= i -> at_ (bset buf off d) i = at_ buf i.
Proof.
  intros. rewrite !at_slice by lia. by rewrite slice_bset_other by lia.
Qed.

(** ** Lemmas on big-endian integers *)

Lemma be_decode_app l k :
  be_decode (l ++ k) = be_decode l * 256 ^ blen k + be_decode k.
Proof.
  unfold be_decode. rewrite fold_left_app.
  generalize (fold_left (fun acc b => acc * 256 + u8 b) l 0). intros z.
  cut (forall z w, fold_left (fun acc b => acc * 256 + u8 b) k (z * 1 + w)
         = z * 256 ^ blen k + fold_left (fun acc b => acc * 256 + u8 b) k w).
  { intros H. specialize (H z 0). by rewrite Z.mul_1_r, Z.add_0_r in H. }
  clear. intros z w. rewrite Z.mul_1_r. revert z w.
  induction k as [|b k IH]; intros z w; cbn [fold_left].
  - change (256 ^ blen []) with 1. lia.
  - replace ((z + w) * 256 + u8 b) with (z * 256 + (w * 256 + u8 b)) by ring.
    rewrite IH. unfold blen. cbn [length]. rewrite Nat2Z.inj_succ, Z.pow_succ_r by lia.
    ring.
Qed.

Lemma be_decode_range l : 0 <= be_decode l < 256 ^ blen l.
Proof.
  induction l as [|b l IH] using rev_ind; [done|].
  rewrite be_decode_app, blen_app. change (blen [b]) with 1.
  rewrite Z.pow_1_r, Z.pow_add_r by (pose proof (blen_nonneg l); lia).
  rewrite Z.pow_1_r. change (be_decode [b]) with (u8 b).
  pose proof (u8_range b). nia.
Qed.

Lemma be_decode_encode n z : be_decode (be_encode n z) = z mod 256 ^ Z.of_nat n.
Proof.
  induction n as [|n IH]; [by rewrite Z.mod_1_r|].
  rewrite be_encode_S. change (byte_of ?x :: ?l) with ([byte_of x] ++ l).
  rewrite be_decode_app, IH. unfold blen. rewrite length_be_encode.
  change (be_decode [?b]) with (u8 b). rewrite u8_byte_of, Z.shiftr_div_pow2 by lia.
  change 256 with (2 ^ 8). rewrite <- !Z.pow_mul_r by lia.
  rewrite Nat2Z.inj_succ. replace (8 * Z.succ (Z.of_nat n)) with (8 * Z.of_nat n + 8) by lia.
  assert (0 < 2 ^ (8 * Z.of_nat n)) by (apply Z.pow_pos_nonneg; lia).
  rewrite Z.pow_add_r, Z.rem_mul_r by lia. lia.
Qed.

Lemma be_decode_inj l k : length l = length k -> be_decode l = be_decode k -> l = k.
Proof.
  revert k. induction l as [|b l IH] using rev_ind; intros k Hlen Hdec.
  - by destruct k.
  - destruct k as [|c k _] using rev_ind; [rewrite length_app in Hlen; cbn in Hlen; lia|].
    rewrite !length_app in Hlen. cbn in Hlen.
    rewrite !be_decode_app in Hdec. change (blen [_]) with 1 in Hdec.
    change (be_decode [b]) with (u8 b) in Hdec. change (be_decode [c]) with (u8 c) in Hdec.
    pose proof (u8_range b). pose proof (u8_range c).
    rewrite (IH k), (u8_inj b c); [done|lia..].
Qed.

Lemma be_encode_decode l : be_encode (length l) (be_decode l) = l.
Proof.
  apply be_decode_inj; [apply length_be_encode|].
  rewrite be_decode_encode. apply Z.mod_small, be_decode_range.
Qed.

Lemma is_u64_spec v : is_u64 v = true <-> 0 <= v <= MAX_U64.
Proof. unfold is_u64. rewrite andb_true_iff, !Z.leb_le. done. Qed.

Lemma MAX_U64_eq : MAX_U64 = 256 ^ 8 - 1.
Proof. reflexivity. Qed.

Lemma be_decode_u64 v : 0 <= v <= MAX_U64 -> be_decode (be_encode 8 v) = v.
Proof. intros. rewrite be_decode_encode. apply Z.mod_small. rewrite MAX_U64_eq in *. lia. Qed.

Lemma get_u64_range buf off : 0 <= off -> off + 8 <= blen buf ->
  0 <= get_u64 buf off <= MAX_U64.
Proof.
  intros. unfold get_u64. pose proof (be_decode_range (slice buf off (off + 8))) as Hr.
  rewrite blen_slice in Hr by lia. replace (off + 8 - off) with 8 in Hr by lia.
  rewrite MAX_U64_eq. lia.
Qed.

Lemma blen_put_u64 buf off v :
  0 <= off -> off + 8 <= blen buf -> blen (put_u64 buf off v) = blen buf.
Proof.
  intros. apply blen_bset; [lia|]. unfold blen at 1. rewrite length_be_encode. lia.
Qed.

Lemma get_put_u64_same buf off v :
  0 <= off -> off + 8 <= blen buf -> 0 <= v <= MAX_U64 ->
  get_u64 (put_u64 buf off v) off = v.
Proof.
  intros. unfold get_u64, put_u64.
  rewrite slice_bset_same; [by apply be_decode_u64|lia|..];
    unfold blen at 1; rewrite length_be_encode; lia.
Qed.

(** ** Lemmas on comparison *)

Lemma lor_fold_zero {A} (f : A -> Z) l d :
  fold_left (fun d x => Z.lor d (f x)) l d = 0 <-> d = 0 /\ Forall (fun x => f x = 0) l.
Proof.
  revert d. induction l as [|x l IH]; intros d; cbn [fold_left].
  - split; [done|by intros [? _]].
  - rewrite IH, Z.lor_eq_0_iff, Forall_cons. tauto.
Qed.

Lemma or_all_zero l : or_all l = 0 <-> l = zeros (blen l).
Proof.
  unfold or_all. rewrite (lor_fold_zero u8). unfold zeros, blen. rewrite Nat2Z.id.
  split.
  - intros [_ H]. induction H as [|b l Hb _ IH]; [done|]. cbn. f_equal; [|done].
    by apply u8_inj.
  - intros Hl. split; [done|]. rewrite Hl. apply Forall_replicate. done.
Qed.

Lemma bytesEqual_spec left right : bytesEqual left right = true <-> left = right.
Proof.
  unfold bytesEqual, blen. destruct (Z.eqb_spec (Z.of_nat (length left)) (Z.of_nat (length right)))
    as [Hlen|Hlen]; [|split; [done|intros ->; lia]].
  rewrite Z.eqb_eq. unfold xor_difference.
  rewrite (lor_fold_zero (fun p => Z.lxor (u8 p.1) (u8 p.2))).
  assert (length left = length right) as Hl by lia. clear Hlen.
  split.
  - intros [_ H]. revert right Hl H.
    induction left as [|a l IH]; intros [|b r] Hl H; try done.
    cbn in H. apply Forall_cons in H as [Hx H]. cbn in Hl. f_equal; [|apply IH; auto].
    by apply u8_inj, Z.lxor_eq.
  - intros ->. split; [done|]. clear. induction right; cbn; constructor; auto.
    cbn. apply Z.lxor_nilpotent.
Qed.

Lemma bytesEqual_refl l : bytesEqual l l = true.
Proof. by apply bytesEqual_spec. Qed.

Lemma bytesEqual_false left right : bytesEqual left right = false <-> left <> right.
Proof.
  rewrite <- bytesEqual_spec. destruct (bytesEqual left right); split; congruence.
Qed.

(** ** Sequential writes

    Every encoder of the program allocates a zeroed buffer and fills it at
    increasing offsets.  [bset_append] turns such a chain of writes into a
    concatenation; the [slice_app] lemmas read the fields back. *)

Lemma bset_append pre n off d :
  off = blen pre -> blen d <= n ->
  bset (pre ++ zeros n) off d = (pre ++ d) ++ zeros (n - blen d).
Proof.
  intros -> Hn. unfold bset, blen, zeros in *. rewrite Nat2Z.id.
  rewrite take_app_length, drop_app_ge by lia.
  replace (length pre + length d - length pre)%nat with (length d) by lia.
  rewrite drop_replicate, <- app_assoc. do 3 f_equal. lia.
Qed.

(** A write over old contents. *)
Lemma bset_over pre old off d :
  off = blen pre -> bset (pre ++ old) off d = pre ++ d ++ slice_from old (blen d).
Proof.
  intros ->. unfold bset, blen, slice_from. rewrite !Nat2Z.id, take_app_length, drop_app_ge by lia.
  do 3 f_equal. lia.
Qed.

Lemma bset_zeros n d : blen d <= n -> bset (zeros n) 0 d = d ++ zeros (n - blen d).
Proof. intros. by rewrite <- (app_nil_l (zeros n)), bset_append. Qed.

Lemma zeros_0 n : n = 0 -> zeros n = [].
Proof. by intros ->. Qed.

Lemma bset_skip pre n m off d :
  off = blen pre + m -> 0 <= m -> m + blen d <= n ->
  bset (pre ++ zeros n) off d = ((pre ++ zeros m) ++ d) ++ zeros (n - m - blen d).
Proof.
  intros. replace (zeros n) with (zeros m ++ zeros (n - m)).
  - rewrite app_assoc. rewrite bset_append; [done|..].
    + rewrite blen_app, blen_zeros by lia. lia.
    + lia.
  - unfold zeros. rewrite <- replicate_add. f_equal. pose proof (blen_nonneg d). lia.
Qed.

Lemma slice_app_r {A} (l k : list A) a b :
  blen l <= a -> slice (l ++ k) a b = slice k (a - blen l) (b - blen l).
Proof.
  unfold slice, blen. intros. rewrite drop_app_ge by lia. f_equal; [lia|].
  f_equal. lia.
Qed.

Lemma slice_app_l {A} (l k : list A) a b :
  a = 0 -> b = blen l -> slice (l ++ k) a b = l.
Proof.
  intros -> ->. unfold slice, blen. rewrite Z.sub_0_r, Nat2Z.id.
  change (Z.to_nat 0) with 0%nat. rewrite drop_0. apply take_app_length.
Qed.

Lemma slice_app_in {A} (l k : list A) a b :
  0 <= a <= b -> b <= blen l -> slice (l ++ k) a b = slice l a b.
Proof.
  unfold slice, blen. intros. rewrite drop_app_le, take_app_le; [done|rewrite length_drop|]; lia.
Qed.

Lemma slice_from_app {A} (l k : list A) a :
  a = blen l -> slice_from (l ++ k) a = k.
Proof. intros ->. unfold slice_from, blen. rewrite Nat2Z.id. apply drop_app_length. Qed.

Lemma at_app_r (l k : bytes) i : blen l <= i -> at_ (l ++ k) i = at_ k (i - blen l).
Proof.
  unfold at_, blen. intros. rewrite lookup_app_r by lia. do 2 f_equal. lia.
Qed.

Lemma at_app_l (l k : bytes) i : 0 <= i < blen l -> at_ (l ++ k) i = at_ l i.
Proof. unfold at_, blen. intros. by rewrite lookup_app_l by lia. Qed.

(** A buffer is the concatenation of its consecutive slices. *)
Lemma slice_split {A} (l : list A) a m b :
  0 <= a <= m -> m <= b -> slice l a b = slice l a m ++ slice l m b.
Proof.
  intros. unfold slice.
  replace (drop (Z.to_nat m) l) with (drop (Z.to_nat (m - a)) (drop (Z.to_nat a) l)).
  - rewrite take_take_drop. f_equal. lia.
  - rewrite drop_drop. f_equal. lia.
Qed.

Lemma slice_to_end {A} (l : list A) a b :
  0 <= a -> blen l <= b -> slice l a b = slice_from l a.
Proof.
  intros. unfold slice, slice_from, blen in *. apply take_ge. rewrite length_drop. lia.
Qed.

(** A one-byte slice is the byte at its index. *)
Lemma slice_one l i z : 0 <= i -> at_ l i = Some z -> slice l i (i + 1) = [byte_of z].
Proof.
  intros ? H. unfold at_ in H. apply fmap_Some in H as (b & Hb & ->).
  apply list_eq. intros j. rewrite lookup_slice by lia. rewrite byte_of_u8.
  case_decide.
  - replace (Z.to_nat i + j)%nat with (Z.to_nat i) by lia. rewrite Hb.
    by replace j with 0%nat by lia.
  - symmetry. apply lookup_ge_None. cbn. lia.
Qed.

Lemma slice_u64 l off : 0 <= off -> off + 8 <= blen l ->
  slice l off (off + 8) = be_encode 8 (get_u64 l off).
Proof.
  intros. unfold get_u64. rewrite <- (be_encode_decode (slice l off (off + 8))) at 1.
  f_equal. pose proof (blen_slice l off (off + 8)) as Hl. unfold blen in *. lia.
Qed.

(** ** Automation: lengths and field reads *)

Create HintDb bytes.
#[export] Hint Resolve blen_nonneg u8_range bytesEqual_refl : bytes.

Lemma blen_be_encode n z : blen (be_encode n z) = Z.of_nat n.
Proof. unfold blen. by rewrite length_be_encode. Qed.

Lemma blen_cons {A} (x : A) l : blen (x :: l) = 1 + blen l.
Proof. unfold blen. cbn [length]. lia. Qed.

Lemma blen_nil {A} : blen (@nil A) = 0.
Proof. done. Qed.

Create Rewrite HintDb blen.
#[export] Hint Rewrite @blen_app @blen_cons @blen_nil blen_be_encode : blen.
#[export] Hint Rewrite blen_zeros blen_bset blen_put_u64 @blen_slice
  @blen_slice_from using lia : blen.

Ltac blen := autorewrite with blen in *; try lia.

(** Close an equation between concatenations that differ only in the length
    expressions of their zero padding. *)
Ltac same_zeros :=
  rewrite <- ?app_assoc; cbn [app]; rewrite <- ?app_assoc;
  repeat match goal with
  | |- context [zeros ?a] =>
      match goal with
      | |- context [zeros ?b] =>
          assert_fails (constr_eq a b); replace (zeros a) with (zeros b) by (f_equal; lia)
      end
  end;
  try done.
