(* ===== verification/Constants.v ===== *)
(** * Protocol constants ([src/src/utils/constants.ts], [cryptography/interfaces.ts])

    The sizes are written as the source writes them, as sums of their parts,
    and the geometry lemma checks that they fit together. *)

From S2P Require Import Prelude Bytes.
Local Open Scope Z_scope.

Definition crypto_auth_hmacsha512_BYTES : Z := 64.
Definition crypto_hash_sha512_BYTES : Z := 64.
Definition crypto_aead_chacha20poly1305_ietf_KEYBYTES : Z := 32.
Definition crypto_aead_chacha20poly1305_ietf_NPUBBYTES : Z := 12.
Definition crypto_aead_chacha20poly1305_ietf_ABYTES : Z := 16.

Definition MESSAGE_LEN : Z := 64 * 1024.
Definition MAX_MESSAGE_SIZE : Z := 10 * 1024 * 1024 * 1024.
Definition MAX_BUFFERED_AMOUNT : Z := 16 * MESSAGE_LEN.
Definition NAME_LEN : Z := 256.
Definition METADATA_LEN : Z :=
  8 + 1 + crypto_hash_sha512_BYTES + 8 + 8 + NAME_LEN + 8 + 8 + 8.
Definition PROOF_LEN : Z := 4 + 48 * (crypto_hash_sha512_BYTES + 1).
Definition CHUNK_START : Z := METADATA_LEN + PROOF_LEN.
Definition CHUNK_PLAINTEXT_LEN : Z := 65405.
Definition CHUNK_LEN : Z := CHUNK_PLAINTEXT_LEN - CHUNK_START.
Definition CHUNK_SIZE_FLOOR : Z := MESSAGE_LEN - CHUNK_LEN.
Definition DECRYPTED_LEN : Z := CHUNK_PLAINTEXT_LEN.

Definition PROTOCOL_VERSION : Z := 4.
Definition FRAME_TYPE_LEN : Z := 1.
Definition FRAME_TYPE_HANDSHAKE : Z := 1.
Definition FRAME_TYPE_CHUNK : Z := 2.
Definition FRAME_TYPE_RECEIPT : Z := 3.
Definition FRAME_TYPE_COVER : Z := 4.
Definition FRAME_TYPE_PQ_CONTROL : Z := 5.
Definition RECEIPT_TOKEN_LEN : Z := crypto_hash_sha512_BYTES.
Definition WIRE_RECEIPT_FRAME_LEN : Z := FRAME_TYPE_LEN + RECEIPT_TOKEN_LEN.

Definition RATCHET_DHPUB_LEN : Z := 32.
Definition RATCHET_N_LEN : Z := 8.
Definition RATCHET_PN_LEN : Z := 8.
Definition PQ_EPOCH_LEN : Z := 8.
Definition RATCHET_NONCE_LEN : Z := 12.
Definition CHUNK_AAD_HEADER_LEN : Z :=
  FRAME_TYPE_LEN + RATCHET_DHPUB_LEN + RATCHET_N_LEN + RATCHET_PN_LEN + PQ_EPOCH_LEN.
Definition CHUNK_HEADER_LEN : Z :=
  RATCHET_DHPUB_LEN + RATCHET_N_LEN + RATCHET_PN_LEN + PQ_EPOCH_LEN + RATCHET_NONCE_LEN.
Definition MESSAGE_START : Z := FRAME_TYPE_LEN + CHUNK_HEADER_LEN.
Definition WIRE_CHUNK_FRAME_LEN : Z :=
  MESSAGE_START + DECRYPTED_LEN + crypto_aead_chacha20poly1305_ietf_ABYTES.

(** The three authenticated bootstrap suites. *)
Inductive RatchetRootSuite := MLKEM512 | MLKEM768 | MLKEM1024.
#[export] Instance RatchetRootSuite_eq_dec : EqDecision RatchetRootSuite.
Proof. solve_decision. Defined.

Definition root_suite_string (s : RatchetRootSuite) : string :=
  match s with
  | MLKEM512 => "hybrid-3dh-mlkem512-cpace21-v4"
  | MLKEM768 => "hybrid-3dh-mlkem768-cpace21-v4"
  | MLKEM1024 => "hybrid-3dh-mlkem1024-cpace21-v4"
  end.
Definition RATCHET_ROOT_SUITES : list RatchetRootSuite := [MLKEM512; MLKEM768; MLKEM1024].
Definition RATCHET_ROOT_SUITE : RatchetRootSuite := MLKEM768.
Definition isRatchetRootSuite (value : string) : bool :=
  bool_decide (value ∈ root_suite_string <$> RATCHET_ROOT_SUITES).

Definition MAX_SKIP : Z := 512.
Definition MAX_SKIP_SESSION : Z := 2000.
Definition MAX_RETRANSMITS : Z := 5.
Definition MAX_RESUME_ATTEMPTS : Z := 3.

(** Every data cell fills the uniform wire frame exactly: clear header,
    metadata, Merkle proof, chunk payload and AEAD tag. *)
Lemma chunk_geometry :
  WIRE_CHUNK_FRAME_LEN = 65490 /\ MESSAGE_START = 69 /\ CHUNK_AAD_HEADER_LEN = 57 /\
  MESSAGE_START + METADATA_LEN + PROOF_LEN + CHUNK_LEN
    + crypto_aead_chacha20poly1305_ietf_ABYTES = WIRE_CHUNK_FRAME_LEN /\
  0 < CHUNK_LEN /\ WIRE_CHUNK_FRAME_LEN < MESSAGE_LEN /\ WIRE_RECEIPT_FRAME_LEN = 65.
Proof. repeat split. Qed.
