(* ===== verification/ChannelLabel.v ===== *)
(** * Hexadecimal strings and channel labels
      ([src/src/utils/uint8array.ts], [src/src/utils/channelLabel.ts])

    The label of a message's data channel is the hexadecimal form of the
    channel name, padded to 32 bytes, a tilde, and the hexadecimal Merkle root.
    A JavaScript string is the list of its character codes, which are ASCII
    here; the channel name is its UTF-8 encoding, on which [TextDecoder] inverts
    [TextEncoder]. *)

From Stdlib Require Import Strings.Byte.
From S2P Require Import Prelude Bytes Constants.
Local Open Scope Z_scope.

Inductive LabelError :=
  | no_hex_characters | non_hex_character | name_length | root_not_canonical | root_length
  | label_components | label_not_canonical | label_name_length | label_root_length.

(** ** Hexadecimal *)

Definition HEX : bytes := text "0123456789abcdef".
Definition hex_digit (v : Z) : byte := default Byte.x00 (HEX !! Z.to_nat v).

Definition uint8ArrayToHex (array : bytes) : bytes :=
  mjoin ((fun b => [hex_digit (Z.shiftr (u8 b) 4); hex_digit (Z.land (u8 b) 15)]) <$> array).

(** The value of a character under [/[0-9a-f]/i], as [parseInt(_, 16)] reads it. *)
Definition hex_value (c : byte) : option Z :=
  let v := u8 c in
  if (48 <=? v) && (v <=? 57) then Some (v - 48)
  else if (97 <=? v) && (v <=? 102) then Some (v - 87)
  else if (65 <=? v) && (v <=? 70) then Some (v - 55)
  else None.
(** [/[0-9a-f]/], without the flag. *)
Definition is_lower_hex (c : byte) : bool :=
  let v := u8 c in ((48 <=? v) && (v <=? 57)) || ((97 <=? v) && (v <=? 102)).

Fixpoint hex_pairs (s : bytes) : bytes :=
  match s with
  | a :: b :: s' =>
      byte_of (16 * default 0 (hex_value a) + default 0 (hex_value b)) :: hex_pairs s'
  | _ => []
  end.

(** [hexString.replace(/^0x/, "")]. *)
Definition strip_0x (s : bytes) : bytes :=
  match s with
  | a :: b :: s' => if (u8 a =? 48) && (u8 b =? 120) then s' else s
  | _ => s
  end.

Definition hexToUint8Array (hexString : bytes) : result LabelError bytes :=
  let s := strip_0x hexString in
  require (negb (blen s =? 0)) no_hex_characters;;
  require (forallb (fun c => bool_decide (is_Some (hex_value c))) s) non_hex_character;;
  let s := if negb (blen s mod 2 =? 0) then byte_of 48 :: s else s in
  Ok (hex_pairs s).

(** ** Labels *)

Definition LABEL_ELEMENTS : Z := 2.
Definition LABEL_SERIALIZED_LEN : Z := 32 + 64.
Definition LABEL_STRING_LEN : Z := LABEL_SERIALIZED_LEN * 2 + 1.
Definition LABEL_ELEMENTS_SEPARATOR : byte := byte_of 126.

(** A [string | Uint8Array] argument. *)
Inductive RootArg := RootHex (s : bytes) | RootBytes (b : bytes).

Definition compileChannelMessageLabel (channelLabel : bytes) (merkleRoot : RootArg)
    : result LabelError bytes :=
  let nameBytes := channelLabel in
  require (negb ((blen nameBytes <=? 0) || (32 <? blen nameBytes))) name_length;;
  match merkleRoot with
  | RootHex s => require ((blen s =? 128) && forallb is_lower_hex s) root_not_canonical
  | RootBytes b => require (blen b =? crypto_hash_sha512_BYTES) root_length
  end;;
  let namePadded := bset (zeros 32) 0 (slice nameBytes 0 (Z.min 32 (blen nameBytes))) in
  Ok (uint8ArrayToHex namePadded ++ [LABEL_ELEMENTS_SEPARATOR]
      ++ match merkleRoot with RootHex s => s | RootBytes b => uint8ArrayToHex b end).

(** [String.prototype.split] on a one-character separator. *)
Fixpoint split_on (sep : byte) (s : bytes) : list bytes :=
  match s with
  | [] => [[]]
  | c :: s' =>
      let rest := split_on sep s' in
      if bool_decide (c = sep) then [] :: rest
      else match rest with w :: ws => (c :: w) :: ws | [] => [[c]] end
  end.

(** [.replace(/\0+$/, "")]. *)
Fixpoint strip_nuls (s : bytes) : bytes :=
  match s with
  | [] => []
  | c :: s' =>
      match strip_nuls s' with
      | [] => if u8 c =? 0 then [] else [c]
      | r => c :: r
      end
  end.

Record DecompiledLabel := { dl_channelLabel : bytes; dl_merkleRootHex : bytes; dl_merkleRoot : bytes }.

(** [/^[0-9a-f]{64}~[0-9a-f]{128}$/]. *)
Definition label_pattern (label : bytes) : bool :=
  (blen label =? 193) && forallb is_lower_hex (slice label 0 64)
  && bool_decide (at_ label 64 = Some 126) && forallb is_lower_hex (slice_from label 65).

Definition decompileChannelMessageLabel (label : bytes) : result LabelError DecompiledLabel :=
  match split_on LABEL_ELEMENTS_SEPARATOR label with
  | [_] => Ok {| dl_channelLabel := label; dl_merkleRootHex := []; dl_merkleRoot := [] |}
  | split =>
      require (negb (negb (blen split =? LABEL_ELEMENTS) || negb (blen label =? LABEL_STRING_LEN)))
        label_components;;
      require (label_pattern label) label_not_canonical;;
      let s0 := default [] (split !! 0%nat) in
      let s1 := default [] (split !! 1%nat) in
      name ← hexToUint8Array s0;
      require (blen name =? 32) label_name_length;;
      root ← hexToUint8Array s1;
      require (blen root =? crypto_hash_sha512_BYTES) label_root_length;;
      Ok {| dl_channelLabel := strip_nuls name; dl_merkleRootHex := s1; dl_merkleRoot := root |}
  end.

(** ** Hexadecimal round trip *)

Lemma lower_digit_value v : 0 <= v < 16 ->
  hex_value (hex_digit v) = Some v /\ is_lower_hex (hex_digit v) = true.
Proof.
  intros Hv. assert (v ∈ (Z.of_nat <$> seq 0 16)) as Hin.
  { apply list_elem_of_fmap. exists (Z.to_nat v). split; [lia|]. apply elem_of_seq. lia. }
  revert v Hv Hin. cbn. intros v _ Hin.
  repeat (apply elem_of_cons in Hin as [->|Hin]; [done|]). by apply elem_of_nil in Hin.
Qed.

Lemma nibbles b : 0 <= Z.shiftr (u8 b) 4 < 16 /\ 0 <= Z.land (u8 b) 15 < 16 /\
  16 * Z.shiftr (u8 b) 4 + Z.land (u8 b) 15 = u8 b.
Proof.
  pose proof (u8_range b). rewrite Z.shiftr_div_pow2 by lia.
  change 15 with (Z.ones 4). rewrite Z.land_ones by lia. change (2 ^ 4) with 16.
  pose proof (Z.div_mod (u8 b) 16 ltac:(lia)). pose proof (Z.mod_pos_bound (u8 b) 16 ltac:(lia)).
  split_and!; lia.
Qed.

Lemma uint8ArrayToHex_cons b a : uint8ArrayToHex (b :: a) =
  hex_digit (Z.shiftr (u8 b) 4) :: hex_digit (Z.land (u8 b) 15) :: uint8ArrayToHex a.
Proof. done. Qed.
Lemma uint8ArrayToHex_app a b : uint8ArrayToHex (a ++ b) = uint8ArrayToHex a ++ uint8ArrayToHex b.
Proof. unfold uint8ArrayToHex. by rewrite fmap_app, join_app. Qed.

Lemma blen_hex a : blen (uint8ArrayToHex a) = 2 * blen a.
Proof. induction a as [|b a IH]; [done|]. rewrite uint8ArrayToHex_cons. unfold blen in *. cbn [length]. lia. Qed.

Lemma hex_lower a : forallb is_lower_hex (uint8ArrayToHex a) = true.
Proof.
  induction a as [|b a IH]; [done|]. rewrite uint8ArrayToHex_cons. cbn [forallb].
  destruct (nibbles b) as (H1 & H2 & _).
  by rewrite (proj2 (lower_digit_value _ H1)), (proj2 (lower_digit_value _ H2)), IH.
Qed.

Lemma hex_pairs_hex a : hex_pairs (uint8ArrayToHex a) = a.
Proof.
  induction a as [|b a IH]; [done|]. rewrite uint8ArrayToHex_cons. cbn [hex_pairs].
  destruct (nibbles b) as (H1 & H2 & H3).
  rewrite (proj1 (lower_digit_value _ H1)), (proj1 (lower_digit_value _ H2)). cbn [from_option]. unfold id.
  by rewrite H3, byte_of_u8, IH.
Qed.

Lemma lower_hex_value c : is_lower_hex c = true -> is_Some (hex_value c) /\ u8 c <> 120 /\ u8 c <> 126.
Proof.
  unfold is_lower_hex, hex_value. rewrite orb_true_iff, !andb_true_iff, !Z.leb_le. intros Hc.
  split; [|lia]. destruct ((48 <=? u8 c) && (u8 c <=? 57)) eqn:E; [by eexists|].
  apply andb_false_iff in E. rewrite !Z.leb_gt in E.
  destruct ((97 <=? u8 c) && (u8 c <=? 102)) eqn:E2; [by eexists|].
  apply andb_false_iff in E2. rewrite !Z.leb_gt in E2. lia.
Qed.

(** Canonical hexadecimal of even length decodes without any rewriting. *)
Lemma hexToUint8Array_lower s : forallb is_lower_hex s = true -> 0 < blen s -> blen s mod 2 = 0 ->
  hexToUint8Array s = Ok (hex_pairs s).
Proof.
  intros Hs Hl He. unfold hexToUint8Array.
  assert (strip_0x s = s) as ->.
  { destruct s as [|a [|b s]]; try done. cbn [strip_0x forallb] in *.
    apply andb_true_iff in Hs as [_ [Hb _]%andb_true_iff].
    apply lower_hex_value in Hb as (_ & Hb & _). destruct (Z.eqb_spec (u8 b) 120); [done|].
    by rewrite andb_false_r. }
  rewrite (proj2 (Z.eqb_neq (blen s) 0)) by lia. cbn [negb require mbind result_bind].
  assert (forallb (fun c => bool_decide (is_Some (hex_value c))) s = true) as ->.
  { rewrite forallb_forall in Hs |- *. intros c Hc. apply bool_decide_eq_true. by apply lower_hex_value, Hs. }
  cbn [require mbind result_bind]. by rewrite He, Z.eqb_refl.
Qed.

Lemma hexToUint8Array_hex a : 0 < blen a -> hexToUint8Array (uint8ArrayToHex a) = Ok a.
Proof.
  intros Ha. rewrite hexToUint8Array_lower; [by rewrite hex_pairs_hex|apply hex_lower|rewrite blen_hex; lia|].
  rewrite blen_hex, Z.mul_comm. apply Z.mod_mul. lia.
Qed.

(** ** Labels round trip *)

Lemma split_on_none sep s : (forall c, c ∈ s -> c <> sep) -> split_on sep s = [s].
Proof.
  induction s as [|c s IH]; intros Hs; [done|]. cbn.
  rewrite IH by (intros; apply Hs; by right). rewrite bool_decide_false; [done|]. apply Hs. by left.
Qed.
Lemma split_on_app sep a b : (forall c, c ∈ a -> c <> sep) ->
  split_on sep (a ++ [sep] ++ b) = a :: split_on sep b.
Proof.
  induction a as [|c a IH]; intros Ha; cbn.
  - by rewrite bool_decide_true.
  - cbn in IH. rewrite IH by (intros; apply Ha; by right). rewrite bool_decide_false; [done|].
    apply Ha. by left.
Qed.
(** Splitting loses nothing. *)
Fixpoint join_on (sep : byte) (ws : list bytes) : bytes :=
  match ws with [] => [] | [w] => w | w :: ws' => w ++ [sep] ++ join_on sep ws' end.
Lemma split_on_nonempty sep s : split_on sep s <> [].
Proof. destruct s as [|c s]; [done|]. cbn. case_bool_decide; [done|]. by destruct (split_on sep s). Qed.
Lemma join_split sep s : join_on sep (split_on sep s) = s.
Proof.
  induction s as [|c s IH]; [done|]. cbn [split_on]. pose proof (split_on_nonempty sep s) as Hne.
  case_bool_decide as Hc.
  - subst c. cbn [join_on]. destruct (split_on sep s) as [|w ws] eqn:Hs; [done|]. cbn in IH |- *. by rewrite IH.
  - destruct (split_on sep s) as [|w ws] eqn:Hs; [done|]. destruct ws; cbn in IH |- *; by rewrite IH.
Qed.

Lemma lower_no_sep s : forallb is_lower_hex s = true ->
  forall c, c ∈ s -> c <> LABEL_ELEMENTS_SEPARATOR.
Proof.
  rewrite forallb_forall. intros Hs c Hc ->. apply list_elem_of_In, Hs in Hc.
  apply lower_hex_value in Hc as (_ & _ & Hc). by apply Hc.
Qed.

(** A name that does not end in NUL, padded with NULs, is recovered. *)
Lemma strip_nuls_zeros n : strip_nuls (zeros n) = [].
Proof. unfold zeros. induction (Z.to_nat n) as [|m IH]; [done|]. cbn. by rewrite IH. Qed.
Lemma strip_nuls_pad name n : (name = [] \/ exists c, last name = Some c /\ u8 c <> 0) ->
  strip_nuls (name ++ zeros n) = name.
Proof.
  induction name as [|c name IH]; intros Hl; [apply strip_nuls_zeros|]. cbn.
  destruct Hl as [|(z & Hz & Hn)]; [done|]. destruct name as [|d name].
  - cbn [app] in *. rewrite strip_nuls_zeros. cbn in Hz. injection Hz as ->.
    by rewrite (proj2 (Z.eqb_neq _ _) Hn).
  - rewrite IH; [done|]. right. by exists z.
Qed.

Definition root_bytes (merkleRoot : RootArg) : bytes :=
  match merkleRoot with RootHex s => hex_pairs s | RootBytes b => b end.
Definition root_hex (merkleRoot : RootArg) : bytes :=
  match merkleRoot with RootHex s => s | RootBytes b => uint8ArrayToHex b end.

Lemma compile_ok name root label : compileChannelMessageLabel name root = Ok label ->
  0 < blen name <= 32 /\ forallb is_lower_hex (root_hex root) = true /\ blen (root_hex root) = 128 /\
  (match root with RootBytes b => blen b = 64 | _ => True end) /\
  label = uint8ArrayToHex (name ++ zeros (32 - blen name)) ++ [LABEL_ELEMENTS_SEPARATOR] ++ root_hex root.
Proof.
  unfold compileChannelMessageLabel. intros H. binds H. apply require_ok, negb_true_iff, orb_false_iff in E as [E1 E2].
  apply Z.leb_gt in E1. apply Z.ltb_ge in E2.
  assert (bset (zeros 32) 0 (slice name 0 (Z.min 32 (blen name))) = name ++ zeros (32 - blen name)) as Hp.
  { rewrite Z.min_r by lia. rewrite slice_all by done. by apply bset_zeros. }
  rewrite Hp in H. subst label.
  destruct root as [s|b]; cbn [root_hex]; apply require_ok in E0.
  - apply andb_true_iff in E0 as [E0 E0']. apply Z.eqb_eq in E0. by split_and!.
  - apply Z.eqb_eq in E0. rewrite blen_hex, E0. split_and!; try done. apply hex_lower.
Qed.

Lemma hex_label_pattern padded r : blen padded = 32 -> blen r = 128 -> forallb is_lower_hex r = true ->
  label_pattern (uint8ArrayToHex padded ++ [LABEL_ELEMENTS_SEPARATOR] ++ r) = true.
Proof.
  intros Hp Hr Hlow. assert (blen (uint8ArrayToHex padded) = 64) as Hh by (rewrite blen_hex; lia).
  unfold label_pattern. rewrite blen_app, Hh, blen_app, Hr. rewrite slice_app_l, hex_lower by lia.
  rewrite app_assoc, slice_from_app, Hlow by (rewrite blen_app, Hh; done).
  rewrite bool_decide_true; [done|]. unfold at_. rewrite <- app_assoc, lookup_app_r by (unfold blen in Hh; lia).
  replace (Z.to_nat 64 - length (uint8ArrayToHex padded))%nat with 0%nat by (unfold blen in Hh; lia). done.
Qed.

(** The shape of every label. *)
Lemma label_shape padded root : blen padded = 32 -> blen root = 64 ->
  label_pattern (uint8ArrayToHex padded ++ [LABEL_ELEMENTS_SEPARATOR] ++ uint8ArrayToHex root) = true.
Proof. intros Hp Hr. apply hex_label_pattern; [done|rewrite blen_hex; lia|apply hex_lower]. Qed.

(** Channel labels round trip: a label compiled for a name that does not end
    in a NUL byte has the constant length and the canonical shape of every lane
    label, and decompiling it gives back the name, the Merkle root and its
    hexadecimal form. *)
Theorem label_roundtrip name root label c :
  compileChannelMessageLabel name root = Ok label -> last name = Some c -> u8 c <> 0 ->
  blen label = LABEL_STRING_LEN /\ label_pattern label = true /\
  decompileChannelMessageLabel label =
    Ok {| dl_channelLabel := name; dl_merkleRootHex := root_hex root; dl_merkleRoot := root_bytes root |}.
Proof.
  intros (Hn & Hlow & Hr & Hb & ->)%compile_ok Hlast Hc.
  set (padded := name ++ zeros (32 - blen name)).
  assert (blen padded = 32) as Hp by (unfold padded; blen).
  assert (blen (uint8ArrayToHex padded) = 64) as Hh by (rewrite blen_hex; lia).
  pose proof (hex_lower padded) as Hl.
  set (label := uint8ArrayToHex padded ++ _).
  assert (label_pattern label = true) as Hpat by (by apply hex_label_pattern).
  assert (blen label = 193) as Hlen by (unfold label_pattern in Hpat; by apply andb_true_iff in Hpat as
    [[[Hlen%Z.eqb_eq _]%andb_true_iff _]%andb_true_iff _]).
  split; [done|]. split; [done|]. unfold decompileChannelMessageLabel.
  assert (split_on LABEL_ELEMENTS_SEPARATOR label = [uint8ArrayToHex padded; root_hex root]) as ->.
  { unfold label. rewrite split_on_app by (by apply lower_no_sep).
    by rewrite split_on_none by (by apply lower_no_sep). }
  rewrite Hlen, Hpat. cbn [negb orb require mbind result_bind blen length].
  change (default [] ([uint8ArrayToHex padded; root_hex root] !! 0%nat)) with (uint8ArrayToHex padded).
  change (default [] ([uint8ArrayToHex padded; root_hex root] !! 1%nat)) with (root_hex root).
  cbv beta zeta. change (require _ label_components) with (@Ok LabelError unit tt).
  cbn [mbind result_bind]. rewrite hexToUint8Array_hex by lia. cbn [mbind result_bind].
  rewrite Hp. cbn [Z.eqb Pos.eqb require mbind result_bind].
  rewrite hexToUint8Array_lower by (rewrite ?Hr; done). cbn [mbind result_bind].
  assert (hex_pairs (root_hex root) = root_bytes root /\ blen (root_bytes root) = 64) as [-> ->].
  { destruct root as [s|b]; cbn in *; [split; [done|]|by rewrite hex_pairs_hex].
    assert (forall m (s : bytes), length s = (2 * m)%nat -> length (hex_pairs s) = m) as Hlp.
    { induction m as [|m IH]; intros [|x [|y s']] Hs; cbn in Hs |- *; try lia. rewrite IH; lia. }
    unfold blen in *. rewrite (Hlp 64%nat); lia. }
  cbn. f_equal. f_equal. apply strip_nuls_pad. right. by exists c.
Qed.
