(* ===== verification/Crypto.v ===== *)
(** * The cryptographic module ([LibCrypto]) and the HKDF wrappers

    The WebAssembly module is generated by the build from libsodium and
    mlkem-native and is not part of the sources: it is the class [LibCrypto],
    a record of the calls the TypeScript makes.  A call returns its status code
    and the contents of its output region.  [hkdfExtract] and [hkdfExpand]
    translate [src/src/cryptography/hkdf.ts]: a non-zero status throws, a zero
    status returns the output region, whose length is the allocated one. *)

From S2P Require Import Prelude Bytes Constants.
Local Open Scope Z_scope.

(** Errors thrown by the wrappers around the module. *)
Inductive CryptoError :=
  | HkdfExtractFailed | HkdfExpandFailed | KeypairFailed | DhFailed | RangeError.
#[export] Instance CryptoError_eq_dec : EqDecision CryptoError.
Proof. solve_decision. Defined.

Class LibCrypto := {
  (** salt, ikm *)
  _hkdf_sha512_extract : bytes -> bytes -> Z * bytes;
  (** outLen, prk, info *)
  _hkdf_sha512_expand : Z -> bytes -> bytes -> Z * bytes;
  (** plaintext, key, nonce, aad *)
  _encrypt_chachapoly_symmetric : bytes -> bytes -> bytes -> bytes -> Z * bytes;
  (** ciphertext, key, nonce, aad *)
  _decrypt_chachapoly_symmetric : bytes -> bytes -> bytes -> bytes -> Z * bytes;
  (** the entropy it draws; status, public key, secret key *)
  _x25519_keypair : bytes -> Z * (bytes * bytes);
  (** secret key, public key *)
  _x25519_dh : bytes -> bytes -> Z * bytes;
}.

(** The view of [n] bytes that the caller copies out of the module's memory. *)
Definition region (n : Z) (l : bytes) : bytes := resize (Z.to_nat n) Byte.x00 l.

Lemma blen_region n l : 0 <= n -> blen (region n l) = n.
Proof. intros. unfold blen, region. rewrite length_resize. lia. Qed.

Lemma region_id n l : n = blen l -> region n l = l.
Proof. intros ->. unfold region, blen. rewrite Nat2Z.id. apply resize_all. Qed.
#[export] Hint Rewrite blen_region using lia : blen.

Section Hkdf.
Context {C : LibCrypto}.

Definition hkdfExtract (salt ikm : bytes) : result CryptoError bytes :=
  let '(r, prk) := _hkdf_sha512_extract salt ikm in
  if negb (r =? 0) then Err HkdfExtractFailed
  else Ok (region crypto_auth_hmacsha512_BYTES prk).

(** [set] throws when the key is longer than its 64-byte region; callers pass
    the 64 bytes of [hkdfExtract]. *)
Definition hkdfExpand (prk info : bytes) (outLen : Z) : result CryptoError bytes :=
  require (blen prk <=? crypto_auth_hmacsha512_BYTES) RangeError;;
  let '(r, okm) := _hkdf_sha512_expand outLen (region crypto_auth_hmacsha512_BYTES prk) info in
  if negb (r =? 0) then Err HkdfExpandFailed
  else Ok (region outLen okm).

Lemma hkdfExpand_length prk info n okm :
  0 <= n -> hkdfExpand prk info n = Ok okm -> blen okm = n.
Proof.
  unfold hkdfExpand. intros Hn H. binds H. destruct (_hkdf_sha512_expand _ _ _) as [r o].
  destruct (r =? 0); [|discriminate H]. injection H as <-. by apply blen_region.
Qed.

Lemma hkdfExtract_length salt ikm prk :
  hkdfExtract salt ikm = Ok prk -> blen prk = crypto_auth_hmacsha512_BYTES.
Proof.
  unfold hkdfExtract. intros H. destruct (_hkdf_sha512_extract salt ikm) as [r o].
  destruct (r =? 0); [|discriminate H]. injection H as <-.
  by apply blen_region.
Qed.
End Hkdf.

(** A module whose HKDF succeeds for every output of at most 255 blocks of 64 bytes
    (RFC 5869): what a caller relies on when it expects an operation to return
    rather than to throw. *)
Class HkdfTotal (C : LibCrypto) : Prop := {
  hkdf_extract_total salt ikm : fst (_hkdf_sha512_extract salt ikm) = 0;
  hkdf_expand_total n prk info : n <= 255 * 64 -> fst (_hkdf_sha512_expand n prk info) = 0;
}.

Lemma hkdfExtract_total `{HkdfTotal} salt ikm : exists prk, hkdfExtract salt ikm = Ok prk.
Proof.
  unfold hkdfExtract. pose proof (hkdf_extract_total salt ikm) as Hr.
  destruct (_hkdf_sha512_extract salt ikm) as [r o]. cbn in Hr. subst r. by eexists.
Qed.

(** Extract then expand, as every caller composes them. *)
Lemma hkdf_total `{HkdfTotal} salt ikm info n : n <= 255 * 64 -> exists prk okm,
  hkdfExtract salt ikm = Ok prk /\ hkdfExpand prk info n = Ok okm.
Proof.
  intros Hn. destruct (hkdfExtract_total salt ikm) as (prk & Hx). exists prk. pose proof (hkdfExtract_length _ _ _ Hx) as Hl.
  unfold hkdfExpand. rewrite Hl. cbn [require mbind result_bind Z.leb Z.compare].
  pose proof (hkdf_expand_total n (region crypto_auth_hmacsha512_BYTES prk) info Hn) as Hr.
  destruct (_hkdf_sha512_expand _ _ _) as [r o]. cbn in Hr. subst r. by eexists.
Qed.

(** What the frame layers rely on: decryption with the same key, nonce and
    associated data undoes encryption. *)
Class AeadCorrect (C : LibCrypto) : Prop := {
  decrypt_encrypt pt key nonce aad c :
    _encrypt_chachapoly_symmetric pt key nonce aad = (0, c) ->
    exists p,
      _decrypt_chachapoly_symmetric
        (region (blen pt + crypto_aead_chacha20poly1305_ietf_ABYTES) c) key nonce aad = (0, p) /\
      region (blen pt) p = pt;
}.
