(* ===== verification/Proto.v ===== *)
(** * Interactive code: functions that await a transport

    An [async] function that sends and receives over a [HandshakeTransport]
    ([src/src/handlers/handshakeCore.ts]) is a tree of its interactions: [Send]
    and [Recv] wait for the transport, whose promise may reject ([false],
    [None]).  [exec] runs one end against a list of transport events; [lstep] is
    the asynchronous composition of two ends over two queues.  The schedule does
    not matter: if one schedule ends with both functions settled and the queues
    empty, every schedule can be completed to the same end ([link_confluent]). *)

From stdpp Require Import relations.
From S2P Require Import Prelude Bytes.
Local Open Scope Z_scope.

Inductive proto (E A : Type) : Type :=
  | Done (r : result E A)
  | Send (frame : bytes) (k : bool -> proto E A)
  | Recv (k : option bytes -> proto E A).
Arguments Done {E A} r.
Arguments Send {E A} frame k.
Arguments Recv {E A} k.

#[export] Instance proto_ret {E} : MRet (proto E) := fun A a => Done (Ok a).
#[export] Instance proto_bind {E} : MBind (proto E) := fun A B f =>
  fix go (p : proto E A) : proto E B :=
    match p with
    | Done (Ok a) => f a
    | Done (Err e) => Done (Err e)
    | Send frame k => Send frame (fun sent => go (k sent))
    | Recv k => Recv (fun frame => go (k frame))
    end.

(** Events of the transport, seen from one end. *)
Inductive event := Out (frame : bytes) | In (frame : bytes).

Fixpoint exec {E A} (evs : list event) (p : proto E A) : option (proto E A) :=
  match evs, p with
  | [], _ => Some p
  | Out frame :: evs', Send frame' k =>
      if bytesEqual frame frame' then exec evs' (k true) else None
  | In frame :: evs', Recv k => exec evs' (k (Some frame))
  | _, _ => None
  end.

(** [p] resolves with [r] after exactly these events. *)
Definition resolves {E A} (evs : list event) (p : proto E A) (r : result E A) : Prop :=
  exec evs p = Some (Done r).

(** ** Lemmas: running one end *)

Lemma resolves_done {E A} evs (r r' : result E A) : resolves evs (Done r) r' <-> evs = [] /\ r = r'.
Proof.
  unfold resolves. destruct evs as [|[|] ?]; cbn; (split; [|intros [? ?]]); try done.
  - by intros [= ->].
  - by subst.
Qed.

Lemma resolves_send {E A} evs frame (k : bool -> proto E A) r :
  resolves evs (Send frame k) r <-> exists evs', evs = Out frame :: evs' /\ resolves evs' (k true) r.
Proof.
  unfold resolves. destruct evs as [|[f|f] evs']; cbn.
  - split; [done|by intros (? & ? & _)].
  - destruct (bytesEqual f frame) eqn:Hb; (split; [|intros (evs'' & [= -> ->] & H)]); try done.
    + apply bytesEqual_spec in Hb as ->. intros H. by exists evs'.
    + by rewrite bytesEqual_refl in Hb.
  - split; [done|by intros (? & ? & _)].
Qed.

Lemma resolves_recv {E A} evs (k : option bytes -> proto E A) r :
  resolves evs (Recv k) r <-> exists frame evs', evs = In frame :: evs' /\ resolves evs' (k (Some frame)) r.
Proof.
  unfold resolves. destruct evs as [|[f|f] evs']; cbn.
  1,2: split; [done|by intros (? & ? & ? & _)].
  split; [by exists f, evs'|by intros (? & ? & [= -> ->] & ?)].
Qed.

(** A composed function returns when its parts do, one after the other. *)
Lemma resolves_bind {E A B} (p : proto E A) (f : A -> proto E B) b : forall evs,
  resolves evs (p ≫= f) (Ok b) <->
  exists evs1 evs2 a, evs = evs1 ++ evs2 /\ resolves evs1 p (Ok a) /\ resolves evs2 (f a) (Ok b).
Proof.
  induction p as [[a|e]|frame k IH|k IH]; intros evs.
  - split.
    + intros H. exists [], evs, a. split_and!; [done|by apply resolves_done|done].
    + intros (evs1 & evs2 & a' & -> & [-> [= ->]]%resolves_done & H). done.
  - split.
    + by intros [_ H]%resolves_done.
    + by intros (evs1 & evs2 & a' & -> & [_ H]%resolves_done & _).
  - change (Send frame k ≫= f) with (Send frame (fun sent => k sent ≫= f)). rewrite resolves_send. split.
    + intros (evs' & -> & (evs1 & evs2 & a & -> & H1 & H2)%IH).
      exists (Out frame :: evs1), evs2, a. split_and!; [done| |done]. apply resolves_send. by exists evs1.
    + intros (evs1 & evs2 & a & -> & (evs' & -> & H1)%resolves_send & H2).
      exists (evs' ++ evs2). split; [done|]. apply IH. by exists evs', evs2, a.
  - change (Recv k ≫= f) with (Recv (fun frame => k frame ≫= f)). rewrite resolves_recv. split.
    + intros (frame & evs' & -> & (evs1 & evs2 & a & -> & H1 & H2)%IH).
      exists (In frame :: evs1), evs2, a. split_and!; [done| |done]. apply resolves_recv. by exists frame, evs1.
    + intros (evs1 & evs2 & a & -> & (frame & evs' & -> & H1)%resolves_recv & H2).
      exists frame, (evs' ++ evs2). split; [done|]. apply IH. by exists evs', evs2, a.
Qed.

(** ** Two ends *)

Section Link.
Context {E A : Type}.

(** The two functions and the frames under way from left to right and back. *)
Record link := Link { l_left : proto E A; l_right : proto E A; l_to : list bytes; l_from : list bytes }.

Inductive lstep : link -> link -> Prop :=
  | left_sends frame k q to from :
      lstep (Link (Send frame k) q to from) (Link (k true) q (to ++ [frame]) from)
  | left_receives frame k q to from :
      lstep (Link (Recv k) q to (frame :: from)) (Link (k (Some frame)) q to from)
  | right_sends p frame k to from :
      lstep (Link p (Send frame k) to from) (Link p (k true) to (from ++ [frame]))
  | right_receives p frame k to from :
      lstep (Link p (Recv k) (frame :: to) from) (Link p (k (Some frame)) to from).

Lemma lstep_diamond x y z : lstep x y -> lstep x z -> y = z \/ exists w, lstep y w /\ lstep z w.
Proof.
  intros H1 H2. destruct H1; inversion H2; subst; try (by left); right; eexists; (split; constructor).
Qed.

Definition quiescent (x : link) : Prop := forall y, ~ lstep x y.

(** Whatever has been scheduled so far, the end can still be reached. *)
Lemma link_confluent x y z : rtc lstep x z -> quiescent z -> rtc lstep x y -> rtc lstep y z.
Proof.
  intros Hz Hs Hy. revert z Hz Hs. induction Hy as [|x x1 y Hx Hy IH]; intros z Hz Hs; [done|].
  apply IH; [|done]. clear IH Hy y. revert x1 Hx.
  induction Hz as [x|x x2 z Hx2 Hz IHz]; intros x1 Hx; [by apply Hs in Hx|].
  destruct (lstep_diamond _ _ _ Hx Hx2) as [->|(w & Hw1 & Hw2)]; [done|].
  eapply rtc_l; [exact Hw1|]. by apply IHz.
Qed.

(** A conversation: the frames in order, [true] for left to right. *)
Definition left_events (c : list (bool * bytes)) : list event :=
  map (fun '(d, frame) => if d : bool then Out frame else In frame) c.
Definition right_events (c : list (bool * bytes)) : list event :=
  map (fun '(d, frame) => if d : bool then In frame else Out frame) c.

Lemma exec_out frame evs (p p' : proto E A) : exec (Out frame :: evs) p = Some p' ->
  exists k, p = Send frame k /\ exec evs (k true) = Some p'.
Proof.
  destruct p as [|f k|k]; try done. cbn. destruct (bytesEqual frame f) eqn:Hb; [|done].
  apply bytesEqual_spec in Hb as ->. intros H. by exists k.
Qed.

Lemma exec_in frame evs (p p' : proto E A) : exec (In frame :: evs) p = Some p' ->
  exists k, p = Recv k /\ exec evs (k (Some frame)) = Some p'.
Proof. destruct p as [|f k|k]; try done. intros H. by exists k. Qed.

Lemma conversation_runs c : forall p q p' q',
  exec (left_events c) p = Some p' -> exec (right_events c) q = Some q' ->
  rtc lstep (Link p q [] []) (Link p' q' [] []).
Proof.
  induction c as [|[[|] frame] c IH]; intros p q p' q' Hp Hq.
  - cbn in Hp, Hq. simplify_eq. done.
  - apply exec_out in Hp as (k & -> & Hp). apply exec_in in Hq as (k' & -> & Hq).
    eapply rtc_l; [apply left_sends|]. eapply rtc_l; [apply right_receives|]. by apply IH.
  - apply exec_in in Hp as (k & -> & Hp). apply exec_out in Hq as (k' & -> & Hq).
    eapply rtc_l; [apply right_sends|]. eapply rtc_l; [apply left_receives|]. by apply IH.
Qed.

Lemma done_quiescent (r r' : result E A) : quiescent (Link (Done r) (Done r') [] []).
Proof. intros y H. inversion H. Qed.
End Link.
Arguments link : clear implicits.
