(* ===== verification/Cpace.v ===== *)
(** * CPace ([src/src/cryptography/cpace.ts])

    The password-authenticated exchange of a room with a PIN: length-prefixed
    transcripts, the generator, the shares and the session key.  The streaming
    SHA-512 and the Ristretto255 operations of the module are the class
    [CpaceModule]; a status other than 0 throws. *)

From Stdlib Require Import String.
From S2P Require Import Prelude Bytes Constants Crypto.
Local Open Scope Z_scope.
Local Open Scope list_scope.

Definition crypto_core_ristretto255_BYTES : Z := 32.
Definition crypto_core_ristretto255_HASHBYTES : Z := 64.
Definition crypto_core_ristretto255_SCALARBYTES : Z := 32.
Definition CPACE_RISTRETTO255_DSI : string := "CPaceRistretto255".
Definition CPACE_RISTRETTO255_ISK_DSI : string := "CPaceRistretto255_ISK".
Definition CPACE_DSI_BYTES : bytes := text CPACE_RISTRETTO255_DSI.
Definition CPACE_ISK_DSI_BYTES : bytes := text CPACE_RISTRETTO255_ISK_DSI.
Definition SHA512_INPUT_BLOCK_BYTES : Z := 128.
Definition EMPTY : bytes := [].

Class CpaceModule := {
  sha512_state : Type;
  _sha512_init : Z * sha512_state;
  _sha512_update : sha512_state -> bytes -> Z * sha512_state;
  _sha512_final : sha512_state -> Z * bytes;
  _cpace_ristretto255_from_hash : bytes -> bytes;
  (** scalar, point *)
  _cpace_ristretto255_scalarmult : bytes -> bytes -> Z * bytes;
  (** the entropy it draws *)
  _cpace_ristretto255_scalar_random : bytes -> bytes;
}.

Inductive CpaceError :=
  | CpaceBadLength | InvalidFieldLength | Sha512Failed | ShareIsIdentity | PeerShareInvalid
  | CpaceRangeError.

Definition assertLength (value : bytes) (expected : Z) : result CpaceError unit :=
  require (blen value =? expected) CpaceBadLength.

(** The [do]-[while] loop; eight turns cover the safe integers. *)
Fixpoint length_loop (fuel : nat) (remaining : Z) : bytes :=
  match fuel with
  | O => []
  | S fuel' =>
      let byte := remaining mod 128 in
      let remaining := remaining / 128 in
      let byte := if negb (remaining =? 0) then Z.lor byte 128 else byte in
      byte_of byte :: (if negb (remaining =? 0) then length_loop fuel' remaining else [])
  end.
Definition encodeCpaceLength (length : Z) : result CpaceError bytes :=
  require ((0 <=? length) && (length <=? MAX_SAFE_INTEGER)) InvalidFieldLength;;
  Ok (length_loop 8 length).

Section Cpace.
Context {P : CpaceModule}.

Definition sha512Update (state : sha512_state) (data : bytes) : result CpaceError sha512_state :=
  if blen data =? 0 then Ok state
  else
    let '(r, state') := _sha512_update state data in
    if negb (r =? 0) then Err Sha512Failed else Ok state'.

Definition sha512UpdateLvField (state : sha512_state) (data : bytes) : result CpaceError sha512_state :=
  len ← encodeCpaceLength (blen data);
  state ← sha512Update state len;
  sha512Update state data.

Fixpoint sha512UpdateLvFields (state : sha512_state) (parts : list bytes) :
  result CpaceError sha512_state :=
  match parts with
  | [] => Ok state
  | part :: parts' => state ← sha512UpdateLvField state part; sha512UpdateLvFields state parts'
  end.

Definition sha512Init : result CpaceError sha512_state :=
  let '(r, state) := _sha512_init in
  if negb (r =? 0) then Err Sha512Failed else Ok state.
Definition sha512Final (state : sha512_state) : result CpaceError bytes :=
  let '(r, out) := _sha512_final state in
  if negb (r =? 0) then Err Sha512Failed else Ok (region crypto_hash_sha512_BYTES out).

Definition sha512LvConcat (parts : list bytes) : result CpaceError bytes :=
  state ← sha512Init;
  state ← sha512UpdateLvFields state parts;
  sha512Final state.

Definition deriveGenerator (pin sid channelInput : bytes) : result CpaceError bytes :=
  lenDsi ← encodeCpaceLength (blen CPACE_DSI_BYTES);
  lenPin ← encodeCpaceLength (blen pin);
  let lenZpad := Z.max 0 (SHA512_INPUT_BLOCK_BYTES - 1 - (blen lenDsi + blen CPACE_DSI_BYTES)
                          - (blen lenPin + blen pin)) in
  h ← sha512LvConcat [CPACE_DSI_BYTES; pin; zeros lenZpad; channelInput; sid];
  Ok (region crypto_core_ristretto255_BYTES (_cpace_ristretto255_from_hash h)).

(** The private scalar [y] and the share [Y]. *)
Definition cpaceStart (generator entropy : bytes) : result CpaceError (bytes * bytes) :=
  assertLength generator crypto_core_ristretto255_BYTES;;
  let y := region crypto_core_ristretto255_SCALARBYTES (_cpace_ristretto255_scalar_random entropy) in
  let '(r, share) := _cpace_ristretto255_scalarmult y generator in
  if negb (r =? 0) then Err ShareIsIdentity
  else Ok (y, region crypto_core_ristretto255_BYTES share).

Record CpaceFinishParams := {
  cf_y : bytes;
  cf_peerShare : bytes;
  cf_sid : bytes;
  cf_initiatorShare : bytes;
  cf_responderShare : bytes;
  cf_initiatorAssociatedData : bytes;
  cf_responderAssociatedData : bytes;
}.

Definition cpaceFinish (params : CpaceFinishParams) : result CpaceError bytes :=
  assertLength (cf_y params) crypto_core_ristretto255_SCALARBYTES;;
  assertLength (cf_peerShare params) crypto_core_ristretto255_BYTES;;
  assertLength (cf_initiatorShare params) crypto_core_ristretto255_BYTES;;
  assertLength (cf_responderShare params) crypto_core_ristretto255_BYTES;;
  let '(r, k) := _cpace_ristretto255_scalarmult (cf_y params) (cf_peerShare params) in
  if negb (r =? 0) then Err PeerShareInvalid
  else
    let k := region crypto_core_ristretto255_BYTES k in
    state ← sha512Init;
    state ← sha512UpdateLvField state CPACE_ISK_DSI_BYTES;
    state ← sha512UpdateLvField state (cf_sid params);
    len ← encodeCpaceLength crypto_core_ristretto255_BYTES;
    state ← sha512Update state len;
    '(r, state) ← Ok (_sha512_update state k);
    if negb (r =? 0) then Err Sha512Failed
    else
      state ← sha512UpdateLvFields state
        [cf_initiatorShare params; cf_initiatorAssociatedData params;
         cf_responderShare params; cf_responderAssociatedData params];
      sha512Final state.
End Cpace.

(** ** Lemmas: transcripts *)

Lemma lor_128 x : 0 <= x < 128 -> Z.lor x 128 = x + 128.
Proof.
  intros Hx. assert (forallb (fun n => Z.lor (Z.of_nat n) 128 =? Z.of_nat n + 128) (seq 0 128) = true)
    as H by reflexivity.
  rewrite forallb_forall in H. specialize (H (Z.to_nat x)).
  rewrite Z2Nat.id in H by lia. apply Z.eqb_eq, H, in_seq. lia.
Qed.

(** The value of a digit with its continuation bit. *)
Definition length_digit (n : Z) : Z := n mod 128 + (if n / 128 =? 0 then 0 else 128).

Lemma length_loop_S fuel n : 0 <= n ->
  length_loop (S fuel) n =
    byte_of (length_digit n) :: (if n / 128 =? 0 then [] else length_loop fuel (n / 128)).
Proof.
  intros Hn. pose proof (Z.mod_pos_bound n 128 ltac:(lia)). cbn [length_loop]. unfold length_digit.
  destruct (n / 128 =? 0); cbn [negb]; [by rewrite Z.add_0_r|]. by rewrite lor_128.
Qed.

(** Lengths are encoded without a common prefix. *)
Lemma length_loop_inj fuel : forall n m x y,
  0 <= n < 128 ^ Z.of_nat fuel -> 0 <= m < 128 ^ Z.of_nat fuel ->
  length_loop fuel n ++ x = length_loop fuel m ++ y -> n = m /\ x = y.
Proof.
  induction fuel as [|fuel IH]; intros n m x y Hn Hm H; [cbn in *; split; [lia|done]|].
  rewrite Nat2Z.inj_succ, Z.pow_succ_r in Hn, Hm by lia. rewrite !length_loop_S in H by lia.
  injection H as Hd H. apply (f_equal u8) in Hd. rewrite !u8_byte_of in Hd. unfold length_digit in Hd.
  pose proof (Z.div_mod n 128 ltac:(lia)). pose proof (Z.mod_pos_bound n 128 ltac:(lia)).
  pose proof (Z.div_mod m 128 ltac:(lia)). pose proof (Z.mod_pos_bound m 128 ltac:(lia)).
  rewrite (Z.mod_small (n mod 128 + _)) in Hd by (destruct (n / 128 =? 0); lia).
  rewrite (Z.mod_small (m mod 128 + _)) in Hd by (destruct (m / 128 =? 0); lia).
  destruct (Z.eqb_spec (n / 128) 0), (Z.eqb_spec (m / 128) 0); [split; [lia|done]|lia|lia|].
  apply IH in H as [Hq ->]; [split; [lia|done]|lia..].
Qed.

Definition field_safe (f : bytes) : Prop := blen f <= MAX_SAFE_INTEGER.

Lemma safe_128 f : field_safe f -> 0 <= blen f < 128 ^ Z.of_nat 8.
Proof. unfold field_safe. pose proof (blen_nonneg f). change (128 ^ Z.of_nat 8) with (2 ^ 56). unfold MAX_SAFE_INTEGER. lia. Qed.

Lemma encodeCpaceLength_ok f : field_safe f -> encodeCpaceLength (blen f) = Ok (length_loop 8 (blen f)).
Proof.
  intros Hf. unfold encodeCpaceLength. pose proof (blen_nonneg f). unfold field_safe in Hf.
  by rewrite (proj2 (Z.leb_le 0 _)), (proj2 (Z.leb_le _ _)).
Qed.

(** [lv_cat] of the CPace draft. *)
Definition lv (f : bytes) : bytes := length_loop 8 (blen f) ++ f.
Definition lv_cat (parts : list bytes) : bytes := concat (map lv parts).

Lemma app_same_length {A} (a b x y : list A) : blen a = blen b -> a ++ x = b ++ y -> a = b /\ x = y.
Proof. unfold blen. intros Hl. apply app_inj_1. lia. Qed.

Lemma lv_inj f g x y : field_safe f -> field_safe g -> lv f ++ x = lv g ++ y -> f = g /\ x = y.
Proof.
  intros Hf Hg H. unfold lv in H. rewrite <- !app_assoc in H.
  apply length_loop_inj in H as [Hl H]; [|by apply safe_128..]. by apply app_same_length.
Qed.

Lemma lv_cat_inj l : forall l', Forall field_safe l -> Forall field_safe l' -> length l = length l' ->
  lv_cat l = lv_cat l' -> l = l'.
Proof.
  induction l as [|f l IH]; intros [|g l'] Hl Hl' Hlen H; try done.
  inversion Hl; inversion Hl'; subst. apply lv_inj in H as [-> H]; [|done..].
  f_equal. apply IH; try done. by injection Hlen.
Qed.

(** ** The hash of a transcript *)

(** The streaming interface computes SHA-512 of what it absorbed. *)
Class Sha512Streaming (P : CpaceModule) := {
  absorbed : bytes -> sha512_state;
  sha512 : bytes -> bytes;
  init_absorbed : _sha512_init = (0, absorbed []);
  update_absorbed x y : _sha512_update (absorbed x) y = (0, absorbed (x ++ y));
  final_absorbed x : _sha512_final (absorbed x) = (0, sha512 x);
}.

Section Transcript.
Context {P : CpaceModule} `{!Sha512Streaming P}.

Lemma sha512Update_absorbed x y : sha512Update (absorbed x) y = Ok (absorbed (x ++ y)).
Proof.
  unfold sha512Update. destruct (Z.eqb_spec (blen y) 0) as [Hy|_].
  - destruct y; [by rewrite app_nil_r|]. unfold blen in Hy. cbn in Hy. lia.
  - by rewrite update_absorbed.
Qed.

Lemma sha512UpdateLvField_absorbed x f : field_safe f ->
  sha512UpdateLvField (absorbed x) f = Ok (absorbed (x ++ lv f)).
Proof.
  intros Hf. unfold sha512UpdateLvField. rewrite encodeCpaceLength_ok by done. cbn [mbind result_bind].
  rewrite sha512Update_absorbed. cbn [mbind result_bind]. rewrite sha512Update_absorbed.
  unfold lv. by rewrite app_assoc.
Qed.

Lemma sha512UpdateLvFields_absorbed parts : forall x, Forall field_safe parts ->
  sha512UpdateLvFields (absorbed x) parts = Ok (absorbed (x ++ lv_cat parts)).
Proof.
  induction parts as [|f parts IH]; intros x Hp; [by rewrite app_nil_r|].
  apply Forall_cons in Hp as [Hf Hp]. cbn [sha512UpdateLvFields].
  rewrite sha512UpdateLvField_absorbed by done. cbn [mbind result_bind]. rewrite IH by done.
  unfold lv_cat. cbn [map concat]. by rewrite app_assoc.
Qed.

Lemma sha512LvConcat_spec parts : Forall field_safe parts ->
  sha512LvConcat parts = Ok (region crypto_hash_sha512_BYTES (sha512 (lv_cat parts))).
Proof.
  intros Hp. unfold sha512LvConcat, sha512Init. rewrite init_absorbed. cbn [mbind result_bind negb Z.eqb].
  rewrite sha512UpdateLvFields_absorbed by done. cbn [mbind result_bind].
  unfold sha512Final. by rewrite final_absorbed.
Qed.

(** ** The generator *)

Definition zpad (pin : bytes) : Z :=
  Z.max 0 (SHA512_INPUT_BLOCK_BYTES - 1 - (1 + blen CPACE_DSI_BYTES)
           - (blen (length_loop 8 (blen pin)) + blen pin)).
Definition generator_string (pin sid channelInput : bytes) : bytes :=
  lv_cat [CPACE_DSI_BYTES; pin; zeros (zpad pin); channelInput; sid].
Definition generator_of (s : bytes) : bytes :=
  region crypto_core_ristretto255_BYTES
    (_cpace_ristretto255_from_hash (region crypto_hash_sha512_BYTES (sha512 s))).

Lemma safe_zpad pin : field_safe (zeros (zpad pin)).
Proof.
  pose proof (blen_nonneg pin). pose proof (blen_nonneg (length_loop 8 (blen pin))).
  unfold field_safe, zpad, MAX_SAFE_INTEGER. rewrite blen_zeros by lia.
  change (blen CPACE_DSI_BYTES) with 17. change SHA512_INPUT_BLOCK_BYTES with 128. lia.
Qed.

Lemma safe_DSI : field_safe CPACE_DSI_BYTES.
Proof. done. Qed.

Lemma deriveGenerator_spec pin sid ci : field_safe pin -> field_safe sid -> field_safe ci ->
  deriveGenerator pin sid ci = Ok (generator_of (generator_string pin sid ci)).
Proof.
  intros Hp Hs Hc. unfold deriveGenerator. rewrite !encodeCpaceLength_ok by done.
  cbn [mbind result_bind]. change (blen (length_loop 8 (blen CPACE_DSI_BYTES))) with 1.
  fold (zpad pin). rewrite sha512LvConcat_spec; [done|].
  repeat constructor; try done. apply safe_zpad.
Qed.

Lemma generator_string_inj pin sid ci pin' sid' ci' :
  Forall field_safe [pin; sid; ci; pin'; sid'; ci'] ->
  generator_string pin sid ci = generator_string pin' sid' ci' -> pin = pin' /\ sid = sid' /\ ci = ci'.
Proof.
  rewrite !Forall_cons. intros (H1 & H2 & H3 & H4 & H5 & H6 & _) H.
  apply lv_cat_inj in H; [by injection H as -> _ -> ->|..]; try done;
    repeat constructor; auto using safe_zpad, safe_DSI.
Qed.

(** The prefix of the draft: a short PIN fills the first block of SHA-512. *)
Lemma generator_block pin : blen pin <= 108 ->
  blen (lv_cat [CPACE_DSI_BYTES; pin; zeros (zpad pin)]) = SHA512_INPUT_BLOCK_BYTES.
Proof.
  intros Hp. pose proof (blen_nonneg pin). unfold lv_cat, lv, zpad. cbn [map concat].
  assert (forall n, 0 <= n < 128 -> blen (length_loop 8 n) = 1) as H1.
  { intros n Hn. rewrite length_loop_S by lia. by rewrite Z.div_small. }
  change SHA512_INPUT_BLOCK_BYTES with 128.
  assert (blen CPACE_DSI_BYTES = 17) as Hd by done.
  set (p3 := zeros _). assert (blen p3 = 108 - blen pin) as H3
    by (unfold p3; rewrite blen_zeros, (H1 (blen pin)) by lia; lia).
  rewrite app_nil_r, !blen_app, !H1 by lia. lia.
Qed.

(** ** Both sides compute one session key *)

(** Scalar multiplication in a group of prime order: a random scalar and a
    generator made by hashing give a share that is not the identity, and the
    two ways around give the same point. *)
Definition random_scalar (e : bytes) : bytes :=
  region crypto_core_ristretto255_SCALARBYTES (_cpace_ristretto255_scalar_random e).
Class CpaceGroup : Prop := {
  share_answers s e : exists Y, _cpace_ristretto255_scalarmult (random_scalar e) (generator_of s) = (0, Y);
  shared_point s e e' Y Y' :
    _cpace_ristretto255_scalarmult (random_scalar e) (generator_of s) = (0, Y) ->
    _cpace_ristretto255_scalarmult (random_scalar e') (generator_of s) = (0, Y') ->
    exists k, _cpace_ristretto255_scalarmult (random_scalar e) (region 32 Y') = (0, k) /\
              _cpace_ristretto255_scalarmult (random_scalar e') (region 32 Y) = (0, k);
}.

Lemma blen_generator s : blen (generator_of s) = 32.
Proof. by apply blen_region. Qed.

Context `{!CpaceGroup}.

Lemma cpaceStart_ok s e : exists Y,
  cpaceStart (generator_of s) e = Ok (random_scalar e, region 32 Y) /\
  _cpace_ristretto255_scalarmult (random_scalar e) (generator_of s) = (0, Y).
Proof.
  destruct (share_answers s e) as (Y & HY). exists Y. split; [|done].
  unfold cpaceStart, assertLength. rewrite blen_generator. cbn [Z.eqb require mbind result_bind].
  fold (random_scalar e). by rewrite HY.
Qed.

(** The session key of a shared point. *)
Definition isk (sid k initiatorShare responderShare : bytes) : bytes :=
  region crypto_hash_sha512_BYTES (sha512
    (lv_cat [CPACE_ISK_DSI_BYTES; sid; region 32 k; initiatorShare; EMPTY; responderShare; EMPTY])).

Lemma cpaceFinish_ok e Y k sid Yi Yr : blen sid = 32 -> blen Yi = 32 -> blen Yr = 32 ->
  _cpace_ristretto255_scalarmult (random_scalar e) (region 32 Y) = (0, k) ->
  cpaceFinish {| cf_y := random_scalar e; cf_peerShare := region 32 Y; cf_sid := sid;
    cf_initiatorShare := Yi; cf_responderShare := Yr;
    cf_initiatorAssociatedData := EMPTY; cf_responderAssociatedData := EMPTY |} = Ok (isk sid k Yi Yr).
Proof.
  intros Hs Hi Hr Hk.
  assert (forall l, blen l = 32 -> field_safe l) as H32 by (intros l Hl; unfold field_safe; rewrite Hl; done).
  assert (blen (random_scalar e) = 32) as He by (by apply blen_region).
  unfold cpaceFinish, assertLength.
  cbn [cf_y cf_peerShare cf_sid cf_initiatorShare cf_responderShare cf_initiatorAssociatedData
       cf_responderAssociatedData].
  rewrite He, Hi, Hr, (blen_region 32 Y) by done. cbn [Z.eqb Pos.eqb require mbind result_bind].
  change (crypto_core_ristretto255_SCALARBYTES) with 32. change crypto_core_ristretto255_BYTES with 32.
  cbn [Z.eqb Pos.eqb require mbind result_bind]. rewrite Hk. cbn [negb Z.eqb].
  unfold sha512Init. rewrite init_absorbed. cbn [mbind result_bind negb Z.eqb].
  rewrite !sha512UpdateLvField_absorbed by (done || auto). cbn [mbind result_bind].
  rewrite sha512UpdateLvField_absorbed by auto. cbn [mbind result_bind].
  change (encodeCpaceLength 32) with (Ok (E := CpaceError) (length_loop 8 32)). cbn [mbind result_bind].
  rewrite sha512Update_absorbed. cbn [mbind result_bind]. rewrite update_absorbed. cbn [mbind result_bind negb Z.eqb].
  rewrite sha512UpdateLvFields_absorbed by (repeat constructor; auto; done).
  cbn [mbind result_bind]. unfold sha512Final. rewrite final_absorbed. cbn [negb Z.eqb].
  unfold isk. do 3 f_equal. unfold lv_cat. cbn [map concat].
  assert (lv (region 32 k) = length_loop 8 32 ++ region 32 k) as -> by (unfold lv; by rewrite blen_region).
  by rewrite !app_assoc.
Qed.

(** The generator of a CPace session is the hash of the length-prefixed
    transcript of the draft, whose first fields fill one SHA-512 block when the
    PIN has at most 108 bytes; and this transcript determines the PIN, the
    session id and the channel input: two different triples never hash the same
    string. *)
Theorem cpace_generator_binds pin sid ci : field_safe pin -> field_safe sid -> field_safe ci ->
  deriveGenerator pin sid ci = Ok (generator_of (generator_string pin sid ci)) /\
  (blen pin <= 108 ->
   blen (lv_cat [CPACE_DSI_BYTES; pin; zeros (zpad pin)]) = SHA512_INPUT_BLOCK_BYTES) /\
  (forall pin' sid' ci', field_safe pin' -> field_safe sid' -> field_safe ci' ->
   generator_string pin sid ci = generator_string pin' sid' ci' ->
   pin = pin' /\ sid = sid' /\ ci = ci').
Proof.
  intros Hp Hs Hc. split_and!; [by apply deriveGenerator_spec|apply generator_block|].
  intros pin' sid' ci' Hp' Hs' Hc'. apply generator_string_inj. by repeat constructor.
Qed.
End Transcript.
