(* ===== verification/X25519.v ===== *)
(** * X25519 and the three-DH secret

    [src/src/cryptography/x25519.ts] (wrappers around the module's key
    generation and scalar multiplication) and [src/src/cryptography/x3dh.ts]
    (the root seed of a handshake without a PIN). *)

From S2P Require Import Prelude Bytes Constants Crypto.
Local Open Scope Z_scope.

Definition crypto_scalarmult_curve25519_BYTES : Z := 32.
Definition crypto_scalarmult_curve25519_SCALARBYTES : Z := 32.

Record X25519KeyPair := { x_publicKey : bytes; x_secretKey : bytes }.

Section X25519.
Context {C : LibCrypto}.

(** [entropy] is what the module draws. *)
Definition x25519Keypair (entropy : bytes) : result CryptoError X25519KeyPair :=
  let '(r, (pk, sk)) := _x25519_keypair entropy in
  if negb (r =? 0) then Err KeypairFailed
  else Ok {| x_publicKey := region crypto_scalarmult_curve25519_BYTES pk;
             x_secretKey := region crypto_scalarmult_curve25519_SCALARBYTES sk |}.

(** [set] throws when a key is longer than its region.  Callers pass 32-byte
    keys, which fill the regions exactly. *)
Definition x25519Dh (secretKey publicKey : bytes) : result CryptoError bytes :=
  require (blen secretKey <=? crypto_scalarmult_curve25519_SCALARBYTES) RangeError;;
  require (blen publicKey <=? crypto_scalarmult_curve25519_BYTES) RangeError;;
  let '(r, sh) := _x25519_dh (region crypto_scalarmult_curve25519_SCALARBYTES secretKey)
                    (region crypto_scalarmult_curve25519_BYTES publicKey) in
  if r =? 0 then Ok (region crypto_scalarmult_curve25519_BYTES sh) else Err DhFailed.

Lemma x25519Keypair_length e kp : x25519Keypair e = Ok kp ->
  blen (x_publicKey kp) = 32 /\ blen (x_secretKey kp) = 32.
Proof.
  unfold x25519Keypair. destruct (_x25519_keypair e) as [r [pk sk]].
  destruct (r =? 0); [|done]. intros [= <-]. cbn. split; by apply blen_region.
Qed.

Lemma x25519Dh_length sk pk sh : x25519Dh sk pk = Ok sh -> blen sh = 32.
Proof.
  unfold x25519Dh. intros H. binds H. destruct (_x25519_dh _ _) as [r s].
  destruct (r =? 0); [|done]. apply Ok_inj in H. subst. by apply blen_region.
Qed.

(** ** The three-DH secret *)

Definition THREE_DH_INFO : bytes := text "p2party-interactive-3dh-v2".
Definition THREE_DH_SALT : bytes := zeros 64.

Definition deriveInteractive3dhSecret (idSelfSec idPeerPub ephSelfSec ephPeerPub : bytes)
    (amInitiator : bool) : result CryptoError bytes :=
  dh3 ← x25519Dh ephSelfSec ephPeerPub;
  '(dh1, dh2) ←
    (if amInitiator then
       dh1 ← x25519Dh idSelfSec ephPeerPub;
       dh2 ← x25519Dh ephSelfSec idPeerPub;
       Ok (dh1, dh2)
     else
       dh1 ← x25519Dh ephSelfSec idPeerPub;
       dh2 ← x25519Dh idSelfSec ephPeerPub;
       Ok (dh1, dh2));
  let ikm := bset (bset (bset (zeros 96) 0 dh1) 32 dh2) 64 dh3 in
  prk ← hkdfExtract THREE_DH_SALT ikm;
  hkdfExpand prk THREE_DH_INFO 32.
End X25519.

(** What the protocols rely on: Diffie-Hellman commutes on generated pairs. *)
Class DhCommutes (C : LibCrypto) : Prop := {
  dh_commutes e1 e2 kp1 kp2 :
    x25519Keypair e1 = Ok kp1 -> x25519Keypair e2 = Ok kp2 ->
    x25519Dh (x_secretKey kp1) (x_publicKey kp2) = x25519Dh (x_secretKey kp2) (x_publicKey kp1);
}.

(** A module whose key generation and scalar multiplication answer on generated
    keys (X25519 only rejects low-order points). *)
Class DhTotal (C : LibCrypto) : Prop := {
  keypair_total e : exists kp, x25519Keypair e = Ok kp;
  dh_total e1 e2 kp1 kp2 :
    x25519Keypair e1 = Ok kp1 -> x25519Keypair e2 = Ok kp2 ->
    exists sh, x25519Dh (x_secretKey kp1) (x_publicKey kp2) = Ok sh;
}.

Section Agreement.
Context {C : LibCrypto} `{!DhCommutes C}.

(** The two sides of a handshake without a PIN, each with its own
    identity and ephemeral pair and the peer's public keys, derive the same
    three-DH secret (or both throw), whichever of them initiates. *)
Theorem three_dh_agrees ea ia eb ib idA ephA idB ephB :
  x25519Keypair ia = Ok idA -> x25519Keypair ea = Ok ephA ->
  x25519Keypair ib = Ok idB -> x25519Keypair eb = Ok ephB ->
  deriveInteractive3dhSecret (x_secretKey idA) (x_publicKey idB)
    (x_secretKey ephA) (x_publicKey ephB) true =
  deriveInteractive3dhSecret (x_secretKey idB) (x_publicKey idA)
    (x_secretKey ephB) (x_publicKey ephA) false.
Proof.
  intros H1 H2 H3 H4. unfold deriveInteractive3dhSecret.
  by rewrite (dh_commutes _ _ _ _ H2 H4), (dh_commutes _ _ _ _ H1 H4), (dh_commutes _ _ _ _ H2 H3).
Qed.
End Agreement.
