(* ===== verification/Ratchet.v ===== *)
(** * The Double Ratchet ([src/src/cryptography/ratchet.ts])

    [RatchetState] with its counters, chain keys and the insertion-ordered
    [Map] of skipped message keys; every function of the file as a method over
    it (a throw keeps the assignments made before it, as in the source).  The
    skipped keys are stored under the string keys the source builds,
    [toHex(dhPub):N]; buffers that are wiped once they have been replaced have
    no counterpart. *)

From Stdlib Require Import Ascii String DecimalString DecimalN DecimalNat.
From S2P Require Import Prelude Bytes Constants Crypto X25519.
Local Open Scope Z_scope.
Local Open Scope list_scope.

Definition KDF_RK_LABEL : string := "p2party-rk-v1".
Definition KDF_CK_LABEL : string := "p2party-ck-v1".
Definition KDF_MK_LABEL : string := "p2party-mk-v1".
Definition RK_INFO : bytes := text KDF_RK_LABEL.
Definition CK_INFO : bytes := text KDF_CK_LABEL.
Definition MK_INFO : bytes := text KDF_MK_LABEL.

(** ** String keys *)

Definition hex_digit (n : Z) : ascii :=
  nth (Z.to_nat n) (list_ascii_of_string "0123456789abcdef") "0"%char.
Definition hex_value (c : ascii) : Z :=
  let n := Z.of_nat (nat_of_ascii c) in if n <? 58 then n - 48 else n - 87.

Fixpoint toHex (u8s : bytes) : string :=
  match u8s with
  | [] => EmptyString
  | b :: rest =>
      String (hex_digit (Z.shiftr (u8 b) 4))
        (String (hex_digit (Z.land (u8 b) 15)) (toHex rest))
  end.
Fixpoint fromHex (hex : string) : bytes :=
  match hex with
  | String hi (String lo rest) => byte_of (16 * hex_value hi + hex_value lo) :: fromHex rest
  | _ => []
  end.

(** [String(n)] and [Number(s)] on the decimal digits of a counter. *)
Definition decimal (n : Z) : string := NilZero.string_of_uint (N.to_uint (Z.to_N n)).
Definition Number (s : string) : option Z :=
  (fun u => Z.of_N (N.of_uint u)) <$> NilZero.uint_of_string s.

Definition skip_key (dhPub : bytes) (n : Z) : string :=
  toHex dhPub +:+ String ":" (decimal n).

(** Split at the last occurrence of [:] ([lastIndexOf]). *)
Fixpoint split_last_colon (k : string) : option (string * string) :=
  match k with
  | EmptyString => None
  | String c rest =>
      match split_last_colon rest with
      | Some (pre, post) => Some (String c pre, post)
      | None => if Ascii.eqb c ":" then Some (EmptyString, rest) else None
      end
  end.

(** ** The insertion-ordered [Map] *)

Definition skipped_map : Type := list (string * bytes).

Fixpoint map_get (k : string) (m : skipped_map) : option bytes :=
  match m with
  | [] => None
  | (k', v) :: m' => if decide (k = k') then Some v else map_get k m'
  end.
Fixpoint map_delete (k : string) (m : skipped_map) : skipped_map :=
  match m with
  | [] => []
  | (k', v) :: m' => if decide (k = k') then m' else (k', v) :: map_delete k m'
  end.
(** [set] keeps the position of a key that is present. *)
Fixpoint map_set (k : string) (v : bytes) (m : skipped_map) : skipped_map :=
  match m with
  | [] => [(k, v)]
  | (k', v') :: m' => if decide (k = k') then (k', v) :: m' else (k', v') :: map_set k v m'
  end.

(** ** State *)

Record RatchetState := {
  rootSuite : RatchetRootSuite;
  rootKey : bytes;
  sendingChainKey : option bytes;
  receivingChainKey : option bytes;
  dhSelfPub : bytes;
  dhSelfSec : bytes;
  dhRemotePub : option bytes;
  Ns : Z;
  Nr : Z;
  PN : Z;
  skipped : skipped_map;
}.

Record RatchetHeader := { h_dhPub : bytes; h_N : Z; h_PN : Z }.

Inductive RatchetError :=
  | InitiatorRequiresRemote
  | NoSendingChain
  | MaxSkipExceeded
  | InvalidInitiatorKey
  | NotPristine
  | InvalidHeader
  | AlreadyConsumed
  | NullChainKey (** a [TypeError]: [kdfCk(null)] *)
  | NullRemotePub (** a [TypeError]: [toHex(null)] *)
  | RootSuiteMismatch
  | CryptoThrow (e : CryptoError).
#[export] Instance RatchetError_eq_dec : EqDecision RatchetError.
Proof. solve_decision. Defined.

Abbreviation rmethod A := (M RatchetState RatchetError A).

(** Field assignments. *)
Definition set_receiving (ck : bytes) (nr : Z) (sk : skipped_map) (s : RatchetState) : RatchetState :=
  {| rootSuite := rootSuite s; rootKey := rootKey s; sendingChainKey := sendingChainKey s;
     receivingChainKey := Some ck; dhSelfPub := dhSelfPub s; dhSelfSec := dhSelfSec s;
     dhRemotePub := dhRemotePub s; Ns := Ns s; Nr := nr; PN := PN s; skipped := sk |}.
Definition set_sending (ck : bytes) (ns : Z) (s : RatchetState) : RatchetState :=
  {| rootSuite := rootSuite s; rootKey := rootKey s; sendingChainKey := Some ck;
     receivingChainKey := receivingChainKey s; dhSelfPub := dhSelfPub s; dhSelfSec := dhSelfSec s;
     dhRemotePub := dhRemotePub s; Ns := ns; Nr := Nr s; PN := PN s; skipped := skipped s |}.
Definition set_skipped (sk : skipped_map) (s : RatchetState) : RatchetState :=
  {| rootSuite := rootSuite s; rootKey := rootKey s; sendingChainKey := sendingChainKey s;
     receivingChainKey := receivingChainKey s; dhSelfPub := dhSelfPub s; dhSelfSec := dhSelfSec s;
     dhRemotePub := dhRemotePub s; Ns := Ns s; Nr := Nr s; PN := PN s; skipped := sk |}.
Definition set_root (rk : bytes) (s : RatchetState) : RatchetState :=
  {| rootSuite := rootSuite s; rootKey := rk; sendingChainKey := sendingChainKey s;
     receivingChainKey := receivingChainKey s; dhSelfPub := dhSelfPub s; dhSelfSec := dhSelfSec s;
     dhRemotePub := dhRemotePub s; Ns := Ns s; Nr := Nr s; PN := PN s; skipped := skipped s |}.
Definition set_self (kp : X25519KeyPair) (s : RatchetState) : RatchetState :=
  {| rootSuite := rootSuite s; rootKey := rootKey s; sendingChainKey := sendingChainKey s;
     receivingChainKey := receivingChainKey s; dhSelfPub := x_publicKey kp;
     dhSelfSec := x_secretKey kp; dhRemotePub := dhRemotePub s; Ns := Ns s; Nr := Nr s;
     PN := PN s; skipped := skipped s |}.
(** The assignments at the head of [dhRatchet]. *)
Definition set_remote (pub : bytes) (s : RatchetState) : RatchetState :=
  {| rootSuite := rootSuite s; rootKey := rootKey s; sendingChainKey := sendingChainKey s;
     receivingChainKey := receivingChainKey s; dhSelfPub := dhSelfPub s; dhSelfSec := dhSelfSec s;
     dhRemotePub := Some pub; Ns := 0; Nr := 0; PN := Ns s; skipped := skipped s |}.

Section Ratchet.
Context {C : LibCrypto}.

Definition rlift {A} (r : result CryptoError A) : rmethod A := lift (map_err CryptoThrow r).

(** ** Key derivation *)

Definition kdfRk (root dhOut : bytes) : result CryptoError (bytes * bytes) :=
  prk ← hkdfExtract root dhOut;
  okm ← hkdfExpand prk RK_INFO 64;
  Ok (slice okm 0 32, slice okm 32 64).

(** Next chain key and message key. *)
Definition kdfCk (chainKey : bytes) : result CryptoError (bytes * bytes) :=
  mkFull ← hkdfExtract chainKey MK_INFO;
  ckFull ← hkdfExtract chainKey CK_INFO;
  Ok (slice ckFull 0 32, slice mkFull 0 32).

(** ** Construction *)

(** [entropy] is drawn by the key generation. *)
Definition initRatchet (rootSeed : bytes) (amInitiator : bool) (remoteDhPub : option bytes)
    (suite : RatchetRootSuite) (entropy : bytes) : result RatchetError RatchetState :=
  kp ← map_err CryptoThrow (x25519Keypair entropy);
  let state := {| rootSuite := suite; rootKey := rootSeed; sendingChainKey := None;
                  receivingChainKey := None; dhSelfPub := x_publicKey kp;
                  dhSelfSec := x_secretKey kp; dhRemotePub := None;
                  Ns := 0; Nr := 0; PN := 0; skipped := [] |} in
  if amInitiator then
    match remoteDhPub with
    | None => Err InitiatorRequiresRemote
    | Some pub =>
        dhOut ← map_err CryptoThrow (x25519Dh (dhSelfSec state) pub);
        '(rk, ck) ← map_err CryptoThrow (kdfRk (rootKey state) dhOut);
        Ok {| rootSuite := suite; rootKey := rk; sendingChainKey := Some ck;
              receivingChainKey := None; dhSelfPub := dhSelfPub state;
              dhSelfSec := dhSelfSec state; dhRemotePub := Some pub;
              Ns := 0; Nr := 0; PN := 0; skipped := [] |}
    end
  else Ok state.

(** ** Sending *)

Definition ratchetEncrypt : rmethod (bytes * RatchetHeader) :=
  state ← get_this;
  match sendingChainKey state with
  | None => mthrow NoSendingChain
  | Some sck =>
      '(chainKey, messageKey) ← rlift (kdfCk sck);
      let header := {| h_dhPub := dhSelfPub state; h_N := Ns state; h_PN := PN state |} in
      modify_this (set_sending chainKey (Ns state + 1));;
      mret (messageKey, header)
  end.

(** ** Receiving *)

Definition trySkipped (header : RatchetHeader) : rmethod (option bytes) :=
  state ← get_this;
  let key := skip_key (h_dhPub header) (h_N header) in
  match map_get key (skipped state) with
  | Some mk => modify_this (set_skipped (map_delete key (skipped state)));; mret (Some mk)
  | None => mret None
  end.

(** The [while] loop, [until - Nr] iterations. *)
Fixpoint skip_loop (n : nat) : rmethod unit :=
  match n with
  | O => mret tt
  | S n' =>
      state ← get_this;
      match receivingChainKey state with
      | None => mthrow NullChainKey
      | Some rck =>
          '(chainKey, messageKey) ← rlift (kdfCk rck);
          modify_this (set_receiving chainKey (Nr state) (skipped state));;
          match dhRemotePub state with
          | None => mthrow NullRemotePub
          | Some pub =>
              modify_this (set_receiving chainKey (Nr state + 1)
                (map_set (skip_key pub (Nr state)) messageKey (skipped state)));;
              skip_loop n'
          end
      end
  end.

(** The eviction loop: the oldest entries go first. *)
Fixpoint evict (m : skipped_map) : skipped_map :=
  if blen m <=? MAX_SKIP_SESSION then m
  else match m with [] => [] | _ :: m' => evict m' end.

Definition skipMessageKeys (until : Z) : rmethod unit :=
  state ← get_this;
  mrequire (negb (Nr state + MAX_SKIP <? until)) MaxSkipExceeded;;
  match receivingChainKey state with
  | None => mret tt
  | Some _ =>
      skip_loop (Z.to_nat (until - Nr state));;
      modify_this (fun s => set_skipped (evict (skipped s)) s)
  end.

(** [dhRatchet] after the counters and the remote key are assigned. *)
Definition dh_step_keys (header : RatchetHeader) (entropy : bytes) : rmethod unit :=
  state ← get_this;
  dhOut ← rlift (x25519Dh (dhSelfSec state) (h_dhPub header));
  '(rk, ck) ← rlift (kdfRk (rootKey state) dhOut);
  modify_this (fun s => set_receiving ck (Nr s) (skipped s) (set_root rk s));;
  kp ← rlift (x25519Keypair entropy);
  modify_this (set_self kp);;
  dhOut2 ← rlift (x25519Dh (x_secretKey kp) (h_dhPub header));
  '(rk2, ck2) ← rlift (kdfRk rk dhOut2);
  modify_this (fun s => set_sending ck2 (Ns s) (set_root rk2 s)).

Definition dhRatchet (header : RatchetHeader) (entropy : bytes) : rmethod unit :=
  modify_this (set_remote (h_dhPub header));;
  dh_step_keys header entropy.

Definition primeResponderRatchet (initiatorDhPub entropy : bytes) : rmethod unit :=
  mrequire (blen initiatorDhPub =? RATCHET_DHPUB_LEN) InvalidInitiatorKey;;
  state ← get_this;
  mrequire (negb (bool_decide (is_Some (sendingChainKey state)))
            && negb (bool_decide (is_Some (receivingChainKey state)))
            && negb (bool_decide (is_Some (dhRemotePub state)))
            && (Ns state =? 0) && (Nr state =? 0) && (PN state =? 0)
            && (blen (skipped state) =? 0)) NotPristine;;
  dhRatchet {| h_dhPub := initiatorDhPub; h_N := 0; h_PN := 0 |} entropy.

Definition isNewDh (state : RatchetState) (header : RatchetHeader) : bool :=
  match dhRemotePub state with
  | None => true
  | Some pub => negb (bytesEqual (h_dhPub header) pub)
  end.

(** The tail of [ratchetDecrypt], after a possible DH step. *)
Definition receive_in_chain (n : Z) : rmethod bytes :=
  state ← get_this;
  mrequire (negb (n <? Nr state)) AlreadyConsumed;;
  skipMessageKeys n;;
  state ← get_this;
  match receivingChainKey state with
  | None => mthrow NullChainKey
  | Some rck =>
      '(chainKey, messageKey) ← rlift (kdfCk rck);
      modify_this (set_receiving chainKey (Nr state + 1) (skipped state));;
      mret messageKey
  end.

(** [entropy] is drawn if a DH step happens. *)
Definition ratchetDecrypt (header : RatchetHeader) (entropy : bytes) : rmethod bytes :=
  mrequire ((0 <=? h_N header) && (0 <=? h_PN header)) InvalidHeader;;
  found ← trySkipped header;
  match found with
  | Some mk => mret mk
  | None =>
      state ← get_this;
      (if isNewDh state header then
         skipMessageKeys (h_PN header);; dhRatchet header entropy
       else mret tt);;
      receive_in_chain (h_N header)
  end.
End Ratchet.

(** ** Persistence *)

Record SkippedMessageKey := { sk_dhPub : bytes; sk_n : option Z; sk_messageKey : bytes }.
Record RatchetSessionSecrets := {
  ss_rootSuite : RatchetRootSuite;
  ss_rootKey : bytes;
  ss_sendingChainKey : option bytes;
  ss_receivingChainKey : option bytes;
  ss_dhSelfPub : bytes;
  ss_dhSelfSec : bytes;
  ss_dhRemotePub : option bytes;
  ss_Ns : Z;
  ss_Nr : Z;
  ss_PN : Z;
  ss_skippedMessageKeys : list SkippedMessageKey;
}.

(** [lastIndexOf] gives -1 for a key without a colon: [slice(0, -1)] drops the
    last character and [slice(0)] keeps everything.  No such key is ever built;
    [sk_n = None] is [NaN]. *)
Definition flatten_entry (e : string * bytes) : SkippedMessageKey :=
  match split_last_colon e.1 with
  | Some (pre, post) =>
      {| sk_dhPub := fromHex pre; sk_n := Number post; sk_messageKey := e.2 |}
  | None =>
      {| sk_dhPub := fromHex (String.substring 0 (String.length e.1 - 1) e.1);
         sk_n := Number e.1; sk_messageKey := e.2 |}
  end.

Definition serializeRatchet (state : RatchetState) : RatchetSessionSecrets :=
  {| ss_rootSuite := rootSuite state; ss_rootKey := rootKey state;
     ss_sendingChainKey := sendingChainKey state;
     ss_receivingChainKey := receivingChainKey state;
     ss_dhSelfPub := dhSelfPub state; ss_dhSelfSec := dhSelfSec state;
     ss_dhRemotePub := dhRemotePub state;
     ss_Ns := Ns state; ss_Nr := Nr state; ss_PN := PN state;
     ss_skippedMessageKeys := map flatten_entry (skipped state) |}.

(** The key of a [NaN] counter prints as the text [NaN]. *)
Definition entry_key (e : SkippedMessageKey) : string :=
  match sk_n e with
  | Some n => skip_key (sk_dhPub e) n
  | None => toHex (sk_dhPub e) +:+ ":NaN"
  end.

Definition deserializeRatchet (s : RatchetSessionSecrets) : RatchetState :=
  {| rootSuite := ss_rootSuite s; rootKey := ss_rootKey s;
     sendingChainKey := ss_sendingChainKey s;
     receivingChainKey := ss_receivingChainKey s;
     dhSelfPub := ss_dhSelfPub s; dhSelfSec := ss_dhSelfSec s;
     dhRemotePub := ss_dhRemotePub s;
     Ns := ss_Ns s; Nr := ss_Nr s; PN := ss_PN s;
     skipped := fold_left (fun m e => map_set (entry_key e) (sk_messageKey e) m)
                  (ss_skippedMessageKeys s) [] |}.

Definition cloneRatchet (state : RatchetState) : RatchetState :=
  deserializeRatchet (serializeRatchet state).

Definition wipe (l : bytes) : bytes := zeros (blen l).

Definition wipeRatchet (state : RatchetState) : RatchetState :=
  {| rootSuite := rootSuite state; rootKey := wipe (rootKey state);
     sendingChainKey := wipe <$> sendingChainKey state;
     receivingChainKey := wipe <$> receivingChainKey state;
     dhSelfPub := dhSelfPub state; dhSelfSec := wipe (dhSelfSec state);
     dhRemotePub := dhRemotePub state;
     Ns := Ns state; Nr := Nr state; PN := PN state;
     skipped := (fun e => (e.1, wipe e.2)) <$> skipped state |}.

(** [live] and [next] are distinct objects; the fields of [next] move into
    [live]. *)
Definition adoptRatchet (next : RatchetState) : rmethod unit :=
  live ← get_this;
  mrequire (bool_decide (rootSuite live = rootSuite next)) RootSuiteMismatch;;
  modify_this wipeRatchet;;
  set_this next.
