(* ===== verification/RatchetKeys.v ===== *)
(** * The skipped-key map of the ratchet

    The string keys are injective and parse back ([skip_key_split],
    [skip_key_inj]); the insertion-ordered map behaves as a map
    ([map_get_*]); eviction keeps the newest entries. *)

From Stdlib Require Import Ascii String DecimalString DecimalPos DecimalN.
From stdpp Require Import sets.
From S2P Require Import Prelude Bytes Constants Crypto X25519 Ratchet.
Local Open Scope Z_scope.
Local Open Scope list_scope.

(** ** Hexadecimal and decimal *)

Lemma hex_digit_value n : 0 <= n < 16 -> hex_value (hex_digit n) = n.
Proof.
  intros Hn. assert (n ∈ seqZ 0 16) as Hin by (apply elem_of_seqZ; lia).
  clear Hn. revert n Hin. apply list.Forall_forall. vm_compute. repeat constructor.
Qed.

Lemma fromHex_toHex l : fromHex (toHex l) = l.
Proof.
  induction l as [|b l IH]; [done|]. cbn [toHex fromHex]. rewrite IH. f_equal.
  pose proof (u8_range b) as Hb.
  rewrite Z.shiftr_div_pow2 by lia. change 15 with (Z.ones 4). rewrite Z.land_ones by lia.
  change (2 ^ 4) with 16.
  rewrite !hex_digit_value by (split; [|]; try apply Z.mod_pos_bound; try apply Z.div_pos;
    try apply Z.div_lt_upper_bound; lia).
  rewrite <- Z.div_mod by lia. apply byte_of_u8.
Qed.

Lemma Number_decimal n : 0 <= n -> Number (decimal n) = Some n.
Proof.
  intros Hn. unfold Number, decimal.
  rewrite NilZero.usu.
  - cbn [fmap option_fmap option_map]. rewrite DecimalN.Unsigned.of_to. f_equal. lia.
  - destruct (Z.to_N n); [done|]. apply DecimalPos.Unsigned.to_uint_nonnil.
Qed.

Definition colon_free (s : string) : Prop := split_last_colon s = None.

Lemma colon_free_cons c s : colon_free (String c s) <-> c <> ":"%char /\ colon_free s.
Proof.
  unfold colon_free. cbn. destruct (split_last_colon s) as [[? ?]|]; [naive_solver|].
  destruct (Ascii.eqb_spec c ":"); naive_solver.
Qed.

Lemma uint_colon_free d : colon_free (NilEmpty.string_of_uint d).
Proof. induction d; cbn; rewrite ?colon_free_cons; try done; split; done. Qed.

Lemma decimal_colon_free n : colon_free (decimal n).
Proof.
  unfold decimal. destruct (N.to_uint _) eqn:Hu; try apply (uint_colon_free (_ _)).
  done.
Qed.

Lemma split_colon pre post : colon_free post ->
  split_last_colon (pre +:+ String ":" post) = Some (pre, post).
Proof.
  unfold colon_free. intros Hp. induction pre as [|c pre IH]; simpl.
  - by rewrite Hp.
  - by rewrite IH.
Qed.

Lemma skip_key_split pub n : 0 <= n ->
  split_last_colon (skip_key pub n) = Some (toHex pub, decimal n).
Proof. intros. apply split_colon, decimal_colon_free. Qed.

Lemma skip_key_inj pub pub' n n' : 0 <= n -> 0 <= n' ->
  skip_key pub n = skip_key pub' n' -> pub = pub' /\ n = n'.
Proof.
  intros Hn Hn' H. apply (f_equal split_last_colon) in H.
  rewrite !skip_key_split in H by done. injection H as H1 H2.
  apply (f_equal fromHex) in H1. rewrite !fromHex_toHex in H1.
  apply (f_equal Number) in H2. rewrite !Number_decimal in H2 by done. by simplify_eq.
Qed.

(** ** The map *)

Implicit Types (m : skipped_map) (k : string).

Definition keys m : list string := m.*1.

Lemma map_get_set_same k v m : map_get k (map_set k v m) = Some v.
Proof. induction m as [|[k' v'] m IH]; cbn; repeat (case_decide; cbn); congruence. Qed.
Lemma map_get_set_other k k' v m : k <> k' -> map_get k (map_set k' v m) = map_get k m.
Proof. intros. induction m as [|[k1 v1] m IH]; cbn; repeat (case_decide; cbn); congruence. Qed.
Lemma map_get_None k m : map_get k m = None <-> k ∉ keys m.
Proof.
  unfold keys. induction m as [|[k1 v1] m IH]; cbn; [set_solver|].
  case_decide; [set_solver|]. rewrite IH. set_solver.
Qed.
Lemma map_get_elem k v m : map_get k m = Some v -> k ∈ keys m.
Proof. intros H. destruct (decide (k ∈ keys m)) as [|Hn]; [done|]. apply map_get_None in Hn. congruence. Qed.
Lemma map_get_delete_other k k' m : k <> k' -> map_get k (map_delete k' m) = map_get k m.
Proof. intros. induction m as [|[k1 v1] m IH]; cbn; repeat (case_decide; cbn); congruence. Qed.

Lemma keys_delete_sub k m : keys (map_delete k m) ⊆ keys m.
Proof. unfold keys. induction m as [|[k1 v1] m IH]; cbn; [done|]. case_decide; set_solver. Qed.
Lemma NoDup_delete k m : NoDup (keys m) -> NoDup (keys (map_delete k m)).
Proof.
  induction m as [|[k1 v1] m IH]; cbn; [done|]. intros [Hn Hm]%NoDup_cons.
  case_decide; [done|]. cbn. apply NoDup_cons. split; [|auto].
  intros ?. by apply Hn, (keys_delete_sub k).
Qed.
Lemma map_get_delete_same k m : NoDup (keys m) -> map_get k (map_delete k m) = None.
Proof.
  induction m as [|[k1 v1] m IH]; cbn; [done|]. intros [Hn Hm]%NoDup_cons.
  case_decide; [subst; by apply map_get_None|]. cbn. rewrite decide_False by done. auto.
Qed.
Lemma length_map_delete k m : (length (map_delete k m) <= length m)%nat.
Proof. induction m as [|[k1 v1] m IH]; cbn; [done|]. case_decide; cbn; lia. Qed.

(** A new key goes to the end. *)
Lemma map_set_fresh k v m : k ∉ keys m -> map_set k v m = m ++ [(k, v)].
Proof.
  unfold keys. induction m as [|[k1 v1] m IH]; cbn; [done|]. intros Hn.
  rewrite decide_False by set_solver. rewrite IH by set_solver. done.
Qed.
Lemma keys_map_set k v m :
  keys (map_set k v m) = if decide (k ∈ keys m) then keys m else keys m ++ [k].
Proof.
  unfold keys. induction m as [|[k1 v1] m IH]; cbn; [done|].
  destruct (decide (k = k1)) as [->|Hk]; [rewrite decide_True; [done|by left]|]. cbn. rewrite IH.
  destruct (decide (k ∈ m.*1)) as [Hin|Hin].
  - by rewrite decide_True by (by right).
  - rewrite decide_False; [done|]. by intros [?|?]%elem_of_cons.
Qed.
Lemma NoDup_set k v m : NoDup (keys m) -> NoDup (keys (map_set k v m)).
Proof.
  intros Hm. rewrite keys_map_set. case_decide as Hk; [done|].
  apply NoDup_app. split_and!; [done|set_solver|apply NoDup_singleton].
Qed.
Lemma length_map_set k v m : (length (map_set k v m) <= S (length m))%nat.
Proof. induction m as [|[k1 v1] m IH]; cbn; [done|]. case_decide; cbn; lia. Qed.
Lemma elem_of_keys_set k k' v m : k ∈ keys (map_set k' v m) -> k = k' \/ k ∈ keys m.
Proof. rewrite keys_map_set. case_decide; set_solver. Qed.

(** ** Eviction *)

Lemma evict_bound m : blen (evict m) <= MAX_SKIP_SESSION.
Proof.
  induction m as [|e m IH]; cbn [evict]; case_match eqn:Hb; try done;
    apply Z.leb_le in Hb || idtac; done.
Qed.
Lemma evict_small m : blen m <= MAX_SKIP_SESSION -> evict m = m.
Proof. intros H. destruct m; cbn [evict]; by rewrite (proj2 (Z.leb_le _ _) H). Qed.
(** What is kept is a tail of the insertion order: the newest entries. *)
Lemma evict_suffix m : exists old, m = old ++ evict m.
Proof.
  induction m as [|e m [old IH]]; cbn [evict]; case_match; try (by exists []).
  exists (e :: old). by rewrite IH at 1.
Qed.
Lemma evict_exact m : MAX_SKIP_SESSION <= blen m -> blen (evict m) = MAX_SKIP_SESSION.
Proof.
  induction m as [|e m IH]; cbn [evict]; intros Hl; [done|].
  destruct (Z.leb_spec (blen (e :: m)) MAX_SKIP_SESSION); [lia|]. apply IH.
  rewrite blen_cons in *. lia.
Qed.

Lemma NoDup_evict m : NoDup (keys m) -> NoDup (keys (evict m)).
Proof.
  destruct (evict_suffix m) as [old Hm]. rewrite Hm at 1. unfold keys.
  rewrite fmap_app. by intros (_ & _ & ?)%NoDup_app.
Qed.
Lemma keys_evict m k : k ∈ keys (evict m) -> k ∈ keys m.
Proof.
  destruct (evict_suffix m) as [old Hm]. rewrite Hm at 2. unfold keys. rewrite fmap_app. set_solver.
Qed.
Lemma map_get_app k m m' : k ∉ keys m -> map_get k (m ++ m') = map_get k m'.
Proof.
  unfold keys. induction m as [|[k1 v1] m IH]; cbn; [done|]. intros Hn.
  rewrite decide_False by set_solver. apply IH. set_solver.
Qed.
Lemma map_get_evict k v m : NoDup (keys m) -> map_get k (evict m) = Some v -> map_get k m = Some v.
Proof.
  intros Hd Hg. destruct (evict_suffix m) as [old Hm]. rewrite Hm, map_get_app; [done|].
  rewrite Hm in Hd. unfold keys in *. rewrite fmap_app in Hd.
  apply NoDup_app in Hd as (_ & Hd & _). apply map_get_elem in Hg. intros Hin. by apply (Hd k).
Qed.
