(* ===== verification/RatchetChain.v ===== *)
(** * One chain of the Double Ratchet

    The sender's keys as a function of the chain's first key ([chain],
    [message_key]), and that the receiver derives exactly these keys, each at
    most once, in whatever order the messages of the chain arrive. *)

From Stdlib Require Import String.
From stdpp Require Import sets.
From S2P Require Import Prelude Bytes Constants Crypto X25519 Ratchet RatchetKeys.
Local Open Scope Z_scope.
Local Open Scope list_scope.

Section Chain.
Context {C : LibCrypto} `{!HkdfTotal C}.
Implicit Types (s : RatchetState) (ck pub : bytes) (n : Z).

(** ** The keys of a chain *)

Definition next_chain_key ck : bytes :=
  match kdfCk ck with Ok (c, _) => c | Err _ => [] end.
Definition message_key ck : bytes :=
  match kdfCk ck with Ok (_, m) => m | Err _ => [] end.

Lemma kdfCk_total ck : kdfCk ck = Ok (next_chain_key ck, message_key ck).
Proof.
  unfold next_chain_key, message_key, kdfCk.
  destruct (hkdfExtract_total ck MK_INFO) as (mk & ->).
  by destruct (hkdfExtract_total ck CK_INFO) as (nk & ->).
Qed.

(** The chain key after [n] messages, and the key of message [n]. *)
Definition chain ck n : bytes := Nat.iter (Z.to_nat n) next_chain_key ck.
Definition nth_key ck n : bytes := message_key (chain ck n).

Lemma chain_0 ck : chain ck 0 = ck.
Proof. done. Qed.
Lemma chain_succ ck n : 0 <= n -> chain ck (n + 1) = next_chain_key (chain ck n).
Proof. intros. unfold chain. by rewrite Z2Nat.inj_add, Nat.add_1_r by lia. Qed.

Lemma rlift_kdfCk ck s : rlift (kdfCk ck) s = (Ok (next_chain_key ck, message_key ck), s).
Proof. unfold rlift. by rewrite kdfCk_total. Qed.

(** ** The sender *)

Definition sending_on ck pub s : Prop :=
  dhSelfPub s = pub /\ 0 <= Ns s /\ sendingChainKey s = Some (chain ck (Ns s)).

Lemma encrypt_spec ck pub s : sending_on ck pub s ->
  exists s', ratchetEncrypt s =
    (Ok (nth_key ck (Ns s), {| h_dhPub := pub; h_N := Ns s; h_PN := PN s |}), s') /\
    sending_on ck pub s' /\ s' = set_sending (chain ck (Ns s + 1)) (Ns s + 1) s.
Proof.
  intros (Hpub & Hns & Hck). unfold ratchetEncrypt, mbind, M_bind, get_this.
  rewrite Hck, rlift_kdfCk. cbn. rewrite <- chain_succ by done.
  eexists. split; [by rewrite Hpub|]. split; [|done]. split_and!; cbn; [done|lia|done].
Qed.

(** ** The receiver *)

(** The skipped entries of [pub] are keys of the chain that starts at [ck],
    below [bound]. *)
Definition stored_ok ck pub bound (m : skipped_map) : Prop :=
  forall n mk, 0 <= n -> map_get (skip_key pub n) m = Some mk -> n < bound /\ mk = nth_key ck n.

Record receiving_from ck pub s : Prop := {
  rf_remote : dhRemotePub s = Some pub;
  rf_nr : 0 <= Nr s;
  rf_chain : receivingChainKey s = Some (chain ck (Nr s));
  rf_stored : stored_ok ck pub (Nr s) (skipped s);
  rf_nodup : NoDup (keys (skipped s));
  rf_size : blen (skipped s) <= MAX_SKIP_SESSION;
}.

(** What the loop stores. *)
Fixpoint stash ck pub (from : Z) (n : nat) (m : skipped_map) : skipped_map :=
  match n with
  | O => m
  | S n' => stash ck pub (from + 1) n' (map_set (skip_key pub from) (nth_key ck from) m)
  end.

Lemma set_receiving_idem ck1 n1 m1 ck2 n2 m2 s :
  set_receiving ck1 n1 m1 (set_receiving ck2 n2 m2 s) = set_receiving ck1 n1 m1 s.
Proof. done. Qed.
Lemma set_skipped_receiving m ck n m1 s :
  set_skipped m (set_receiving ck n m1 s) = set_receiving ck n m s.
Proof. done. Qed.
Lemma set_receiving_self s ck : receivingChainKey s = Some ck ->
  set_receiving ck (Nr s) (skipped s) s = s.
Proof. destruct s. cbn. by intros ->. Qed.

Lemma skip_loop_spec ck pub (n : nat) : forall s, dhRemotePub s = Some pub -> 0 <= Nr s ->
  receivingChainKey s = Some (chain ck (Nr s)) ->
  skip_loop n s = (Ok tt, set_receiving (chain ck (Nr s + Z.of_nat n)) (Nr s + Z.of_nat n)
                    (stash ck pub (Nr s) n (skipped s)) s).
Proof.
  induction n as [|n IH]; intros s Hr Hn Hck.
  - cbn. rewrite !Z.add_0_r. by rewrite set_receiving_self.
  - cbn [skip_loop]. unfold mbind, M_bind, get_this. rewrite Hck, rlift_kdfCk.
    unfold modify_this. rewrite Hr, set_receiving_idem, <- chain_succ by done.
    rewrite IH; [|done|cbn; lia|done]. cbn [Nr skipped set_receiving stash].
    by rewrite Nat2Z.inj_succ, <- Z.add_1_l, Z.add_assoc, set_receiving_idem.
Qed.

Lemma length_stash ck pub (n : nat) : forall from m,
  blen (stash ck pub from n m) <= blen m + Z.of_nat n.
Proof.
  induction n as [|n IH]; intros from m; cbn [stash]; [lia|].
  specialize (IH (from + 1) (map_set (skip_key pub from) (nth_key ck from) m)).
  pose proof (length_map_set (skip_key pub from) (nth_key ck from) m). unfold blen in *. lia.
Qed.
Lemma NoDup_stash ck pub (n : nat) : forall from m,
  NoDup (keys m) -> NoDup (keys (stash ck pub from n m)).
Proof. induction n as [|n IH]; intros from m Hm; cbn [stash]; [done|]. by apply IH, NoDup_set. Qed.

(** The loop stores the keys of its range and keeps every other entry. *)
Lemma stash_other ck pub (n : nat) : forall from m k,
  (forall i, from <= i < from + Z.of_nat n -> k <> skip_key pub i) ->
  map_get k (stash ck pub from n m) = map_get k m.
Proof.
  induction n as [|n IH]; intros from m k Hk; cbn [stash]; [done|].
  rewrite IH by (intros; apply Hk; lia). apply map_get_set_other, Hk. lia.
Qed.
Lemma stash_in ck pub (n : nat) : forall from m i, 0 <= from ->
  from <= i < from + Z.of_nat n ->
  map_get (skip_key pub i) (stash ck pub from n m) = Some (nth_key ck i).
Proof.
  induction n as [|n IH]; intros from m i Hf Hi; cbn [stash]; [lia|].
  destruct (decide (i = from)) as [->|Hne]; [|apply IH; lia].
  rewrite stash_other; [apply map_get_set_same|].
  intros j Hj Heq. apply skip_key_inj in Heq; lia.
Qed.
Lemma stored_stash ck pub (n : nat) from m : 0 <= from -> stored_ok ck pub from m ->
  stored_ok ck pub (from + Z.of_nat n) (stash ck pub from n m).
Proof.
  intros Hf Hm i mk Hi Hg.
  destruct (decide (from <= i < from + Z.of_nat n)) as [Hin|Hout].
  - rewrite stash_in in Hg by done. simplify_eq. split; [lia|done].
  - rewrite stash_other in Hg by (intros j Hj Heq; apply skip_key_inj in Heq; lia).
    apply Hm in Hg as [? ?]; [|done]. split; [lia|done].
Qed.

Lemma receiving_evict ck pub bound m :
  NoDup (keys m) -> stored_ok ck pub bound m -> stored_ok ck pub bound (evict m).
Proof. intros Hd Hm n mk Hn Hg. by apply map_get_evict in Hg; [apply Hm|]. Qed.

(** Skipping ahead within the chain. *)
Lemma skipMessageKeys_spec ck pub s until : receiving_from ck pub s ->
  Nr s <= until <= Nr s + MAX_SKIP ->
  skipMessageKeys until s = (Ok tt,
    set_receiving (chain ck until) until
      (evict (stash ck pub (Nr s) (Z.to_nat (until - Nr s)) (skipped s))) s).
Proof.
  intros Hs Hu. unfold skipMessageKeys, mbind, M_bind, get_this, mrequire, lift.
  rewrite (proj2 (Z.ltb_ge _ _)) by lia. cbn [negb require]. rewrite (rf_chain _ _ _ Hs).
  erewrite skip_loop_spec by apply Hs. unfold modify_this.
  rewrite set_skipped_receiving. by rewrite Z2Nat.id, Zplus_minus by lia.
Qed.

Definition after_receive ck pub s n : RatchetState :=
  set_receiving (chain ck (n + 1)) (n + 1)
    (evict (stash ck pub (Nr s) (Z.to_nat (n - Nr s)) (skipped s))) s.

Lemma receive_spec ck pub s n : receiving_from ck pub s -> Nr s <= n <= Nr s + MAX_SKIP ->
  receive_in_chain n s = (Ok (nth_key ck n), after_receive ck pub s n).
Proof.
  intros Hs Hn. pose proof (rf_nr _ _ _ Hs). unfold receive_in_chain, mbind, M_bind, get_this, mrequire, lift.
  rewrite (proj2 (Z.ltb_ge _ _)) by lia. cbn [negb require].
  rewrite (skipMessageKeys_spec ck pub) by done. cbn [receivingChainKey set_receiving].
  rewrite rlift_kdfCk. unfold modify_this, mret, M_ret, nth_key. do 2 f_equal.
  rewrite <- chain_succ by lia. done.
Qed.

Lemma after_receive_ok ck pub s n : receiving_from ck pub s -> Nr s <= n ->
  receiving_from ck pub (after_receive ck pub s n).
Proof.
  intros Hs Hn. pose proof (rf_nr _ _ _ Hs). unfold after_receive. split; cbn; try done.
  - apply Hs.
  - lia.
  - pose proof (stored_stash ck pub (Z.to_nat (n - Nr s)) (Nr s) (skipped s) ltac:(done)
      (rf_stored _ _ _ Hs)) as Hst.
    rewrite Z2Nat.id, Zplus_minus in Hst by lia.
    apply receiving_evict in Hst; [|by apply NoDup_stash, Hs].
    intros i mk Hi Hg. apply Hst in Hg as [? ?]; [|done]. split; [lia|done].
  - by apply NoDup_evict, NoDup_stash, Hs.
  - apply evict_bound.
Qed.

Lemma not_new_dh ck pub s h : receiving_from ck pub s -> h_dhPub h = pub -> isNewDh s h = false.
Proof. intros Hs Hh. unfold isNewDh. by rewrite (rf_remote _ _ _ Hs), Hh, bytesEqual_refl. Qed.

(** ** [ratchetDecrypt] on a message of the current chain, every branch *)

Definition current_header pub n pn : RatchetHeader := {| h_dhPub := pub; h_N := n; h_PN := pn |}.

Definition consume pub n s : RatchetState :=
  set_skipped (map_delete (skip_key pub n) (skipped s)) s.

Lemma decrypt_current ck pub s n pn e : receiving_from ck pub s -> 0 <= n -> 0 <= pn ->
  ratchetDecrypt (current_header pub n pn) e s =
    match map_get (skip_key pub n) (skipped s) with
    | Some mk => (Ok mk, consume pub n s)
    | None => receive_in_chain n s
    end.
Proof.
  intros Hs Hn Hp. unfold ratchetDecrypt, mbind, M_bind, mrequire, lift, require. cbn [h_N h_PN current_header].
  rewrite (proj2 (Z.leb_le _ _) Hn), (proj2 (Z.leb_le _ _) Hp). cbn [andb].
  unfold trySkipped, mbind, M_bind, get_this. cbn [h_dhPub h_N current_header].
  destruct (map_get _ _) as [mk|]; [done|]. cbn.
  by rewrite (not_new_dh ck pub).
Qed.

Lemma consume_ok ck pub s n : receiving_from ck pub s -> 0 <= n ->
  receiving_from ck pub (consume pub n s).
Proof.
  intros [] Hn. split; cbn; try done.
  - intros i mk Hi Hg. destruct (decide (i = n)) as [->|Hne].
    + by rewrite map_get_delete_same in Hg.
    + rewrite map_get_delete_other in Hg; [by apply rf_stored0|].
      intros Heq. apply skip_key_inj in Heq; lia.
  - by apply NoDup_delete.
  - pose proof (length_map_delete (skip_key pub n) (skipped s)). unfold blen in *. lia.
Qed.

Lemma receive_consumed s n : n < Nr s -> receive_in_chain n s = (Err AlreadyConsumed, s).
Proof.
  intros Hn. unfold receive_in_chain, mbind, M_bind, get_this, mrequire, lift.
  by rewrite (proj2 (Z.ltb_lt _ _) Hn).
Qed.
Lemma receive_too_far s n : 0 <= Nr s -> Nr s + MAX_SKIP < n ->
  receive_in_chain n s = (Err MaxSkipExceeded, s).
Proof.
  intros H0 Hn. assert (MAX_SKIP = 512) by done.
  unfold receive_in_chain, skipMessageKeys, mbind, M_bind, get_this, mrequire, lift.
  rewrite (proj2 (Z.ltb_ge n (Nr s))) by lia. cbn [negb require].
  by rewrite (proj2 (Z.ltb_lt _ _) Hn).
Qed.

(** Message [n] has been used up: it is neither ahead nor stored. *)
Definition consumed pub n s : Prop :=
  n < Nr s /\ map_get (skip_key pub n) (skipped s) = None.

Lemma receive_consumes ck pub s n : receiving_from ck pub s -> Nr s <= n ->
  consumed pub n (after_receive ck pub s n).
Proof.
  intros Hs Hn. pose proof (rf_nr _ _ _ Hs). split; cbn; [lia|].
  pose proof (stored_stash ck pub (Z.to_nat (n - Nr s)) (Nr s) (skipped s) ltac:(done)
    (rf_stored _ _ _ Hs)) as Hst.
  rewrite Z2Nat.id, Zplus_minus in Hst by lia.
  apply receiving_evict in Hst; [|by apply NoDup_stash, Hs].
  destruct (map_get _ _) as [mk|] eqn:Hg; [|done]. apply Hst in Hg as [? _]; lia.
Qed.

Lemma consume_consumes ck pub s n mk : receiving_from ck pub s -> 0 <= n ->
  map_get (skip_key pub n) (skipped s) = Some mk -> consumed pub n (consume pub n s).
Proof.
  intros Hs Hn Hg. apply (rf_stored _ _ _ Hs) in Hg as [? _]; [|done].
  split; cbn; [done|]. by apply map_get_delete_same, Hs.
Qed.

(** Every outcome on a message of the current chain. *)
Inductive outcome ck pub n s : result RatchetError bytes * RatchetState -> Prop :=
  | out_key s' : receiving_from ck pub s' -> consumed pub n s' ->
      map_get (skip_key pub n) (skipped s) = Some (nth_key ck n) \/ Nr s <= n <= Nr s + MAX_SKIP ->
      outcome ck pub n s (Ok (nth_key ck n), s')
  | out_consumed : consumed pub n s -> outcome ck pub n s (Err AlreadyConsumed, s)
  | out_too_far : Nr s + MAX_SKIP < n -> outcome ck pub n s (Err MaxSkipExceeded, s).

Lemma decrypt_outcome ck pub s n pn e : receiving_from ck pub s -> 0 <= n -> 0 <= pn ->
  outcome ck pub n s (ratchetDecrypt (current_header pub n pn) e s).
Proof.
  intros Hs Hn Hp. rewrite (decrypt_current ck) by done.
  destruct (map_get _ _) as [mk|] eqn:Hg.
  - pose proof Hg as [_ ->]%(rf_stored _ _ _ Hs); [|done].
    apply out_key; [by apply consume_ok|by eapply consume_consumes|by left].
  - destruct (Z.lt_ge_cases n (Nr s)); [rewrite receive_consumed by done; by constructor|].
    destruct (Z.lt_ge_cases (Nr s + MAX_SKIP) n).
    + rewrite receive_too_far; [by constructor|apply Hs|done].
    + rewrite (receive_spec ck pub) by done.
      apply out_key; [by apply after_receive_ok|by apply receive_consumes|by right].
Qed.

(** A message used up stays used up. *)
Lemma consumed_kept ck pub s n i pn e s' r : receiving_from ck pub s -> 0 <= n -> 0 <= i ->
  0 <= pn -> consumed pub i s ->
  ratchetDecrypt (current_header pub n pn) e s = (r, s') -> consumed pub i s'.
Proof.
  intros Hs Hn Hi Hp [Hlt Hg] H. rewrite (decrypt_current ck) in H by done.
  destruct (map_get (skip_key pub n) _) as [mk|] eqn:Hgn.
  - injection H as <- <-. split; cbn; [done|].
    destruct (decide (i = n)) as [->|Hne]; [by apply map_get_delete_same, Hs|].
    rewrite map_get_delete_other; [done|]. intros Heq. apply skip_key_inj in Heq; lia.
  - destruct (Z.lt_ge_cases n (Nr s)); [rewrite receive_consumed in H by done; by injection H as _ <-|].
    destruct (Z.lt_ge_cases (Nr s + MAX_SKIP) n).
    { rewrite receive_too_far in H; [by injection H as _ <-|apply Hs|done]. }
    rewrite (receive_spec ck pub) in H by done. injection H as _ <-. split; cbn; [lia|].
    destruct (map_get _ (evict _)) as [mk|] eqn:Hge; [|done].
    apply map_get_evict in Hge; [|by apply NoDup_stash, Hs].
    rewrite stash_other in Hge; [congruence|].
    intros j Hj Heq. apply skip_key_inj in Heq; lia.
Qed.

(** *** Sequences of deliveries *)

(** The results of decrypting the headers in order, whatever each returns. *)
Fixpoint deliver (e : bytes) (hs : list RatchetHeader) s :
  list (result RatchetError bytes) * RatchetState :=
  match hs with
  | [] => ([], s)
  | h :: hs' =>
      let '(r, s1) := ratchetDecrypt h e s in
      let '(rs, s2) := deliver e hs' s1 in (r :: rs, s2)
  end.

Definition of_chain pub (h : RatchetHeader) : Prop :=
  h_dhPub h = pub /\ 0 <= h_N h /\ 0 <= h_PN h.

Lemma of_chain_header pub h : of_chain pub h -> h = current_header pub (h_N h) (h_PN h).
Proof. destruct h. by intros (<- & _). Qed.

Lemma outcome_receiving ck pub n s r s' : receiving_from ck pub s ->
  outcome ck pub n s (r, s') -> receiving_from ck pub s'.
Proof. intros Hs H. by inversion H; subst. Qed.

Lemma deliver_consumed ck pub e hs : forall s i, receiving_from ck pub s ->
  Forall (of_chain pub) hs -> 0 <= i -> consumed pub i s ->
  forall j h, hs !! j = Some h -> h_N h = i ->
  (deliver e hs s).1 !! j = Some (Err AlreadyConsumed).
Proof.
  induction hs as [|h0 hs IH]; intros s i Hs Hc Hi Hcons j h Hj Hn; [done|].
  apply Forall_cons in Hc as [Hh Hc]. cbn [deliver].
  destruct (ratchetDecrypt h0 e s) as [r s1] eqn:Hd.
  destruct (deliver e hs s1) as [rs s2] eqn:Hds. pose proof Hh as (_ & HN & HP).
  rewrite (of_chain_header _ _ Hh) in Hd.
  pose proof (decrypt_outcome ck pub s _ _ e Hs HN HP) as Ho. rewrite Hd in Ho.
  pose proof (outcome_receiving _ _ _ _ _ _ Hs Ho) as Hs1.
  pose proof (consumed_kept ck pub s _ i _ e _ _ Hs HN Hi HP Hcons Hd) as Hc1.
  destruct j as [|j]; cbn in Hj |- *.
  - injection Hj as <-. rewrite Hn in Ho. f_equal. destruct Hcons as [Hlt Hg].
    inversion Ho as [s'' _ _ [Hbad|Hbad]| |Hbad]; subst; try done; try (congruence || lia).
    assert (MAX_SKIP = 512) by done. lia.
  - change rs with (rs, s2).1. rewrite <- Hds. by apply (IH s1 i Hs1 Hc Hi Hc1 j h).
Qed.

(** *** Complete delivery *)

(** Every message below [Nr] that has not been delivered is stored. *)
Definition complete ck pub (done_ : list Z) s : Prop :=
  forall n, 0 <= n < Nr s -> n ∉ done_ -> map_get (skip_key pub n) (skipped s) = Some (nth_key ck n).

Lemma decrypt_complete ck pub s done_ base n pn e : receiving_from ck pub s ->
  complete ck pub done_ s -> 0 <= n <= MAX_SKIP -> 0 <= pn -> n ∉ done_ ->
  blen (skipped s) <= base + Nr s -> base + MAX_SKIP <= MAX_SKIP_SESSION ->
  exists s', ratchetDecrypt (current_header pub n pn) e s = (Ok (nth_key ck n), s') /\
    receiving_from ck pub s' /\ complete ck pub (n :: done_) s' /\
    blen (skipped s') <= base + Nr s'.
Proof.
  intros Hs Hcom Hn Hp Hnew Hsz Hb. pose proof (rf_nr _ _ _ Hs).
  pose proof (decrypt_outcome ck pub s n pn e Hs ltac:(lia) Hp) as Ho.
  rewrite (decrypt_current ck) in * by (done || lia).
  destruct (Z.lt_ge_cases n (Nr s)) as [Hlt|Hge].
  - rewrite (Hcom n) in * by (done || lia). eexists. split; [done|].
    split; [by apply consume_ok; [|lia]|]. split; cbn.
    + intros i Hi Hni. cbn in *. rewrite map_get_delete_other; [apply Hcom; [done|set_solver]|].
      intros Heq. apply skip_key_inj in Heq; [|lia..]. set_solver.
    + pose proof (length_map_delete (skip_key pub n) (skipped s)). unfold blen in *. lia.
  - destruct (map_get (skip_key pub n) _) as [mk|] eqn:Hg.
    { apply (rf_stored _ _ _ Hs) in Hg as [? _]; lia. }
    rewrite (receive_spec ck pub) by (done || lia).
    pose proof (length_stash ck pub (Z.to_nat (n - Nr s)) (Nr s) (skipped s)) as Hlen.
    rewrite Z2Nat.id in Hlen by lia.
    eexists. split; [done|]. split; [by apply after_receive_ok|]. unfold after_receive, complete.
    rewrite evict_small by lia. cbn. split; [|lia].
    intros i Hi Hni. destruct (Z.lt_ge_cases i (Nr s)).
    + rewrite stash_other; [apply Hcom; [lia|set_solver]|].
      intros j Hj Heq. apply skip_key_inj in Heq; lia.
    + apply stash_in; [done|]. assert (i <> n) by set_solver. lia.
Qed.

Lemma deliver_complete ck pub base e hs : forall s done_, receiving_from ck pub s ->
  complete ck pub done_ s -> blen (skipped s) <= base + Nr s ->
  base + MAX_SKIP <= MAX_SKIP_SESSION ->
  Forall (of_chain pub) hs -> Forall (fun h => h_N h <= MAX_SKIP /\ h_N h ∉ done_) hs ->
  NoDup (h_N <$> hs) ->
  (deliver e hs s).1 = (fun h => Ok (nth_key ck (h_N h))) <$> hs.
Proof.
  induction hs as [|h hs IH]; intros s done_ Hs Hcom Hsz Hb Hc Hw Hd; [done|].
  apply Forall_cons in Hc as [Hh Hc]. apply Forall_cons in Hw as [[Hw1 Hw2] Hw].
  cbn in Hd. apply NoDup_cons in Hd as [Hnin Hd]. pose proof Hh as (_ & HN & HP).
  destruct (decrypt_complete ck pub s done_ base (h_N h) (h_PN h) e)
    as (s1 & Hdec & Hs1 & Hcom1 & Hsz1); try done.
  cbn [deliver]. rewrite (of_chain_header _ _ Hh) at 1. rewrite Hdec.
  destruct (deliver e hs s1) as [rs s2] eqn:Hds. cbn. f_equal.
  change rs with (rs, s2).1. rewrite <- Hds. eapply IH; try done.
  apply Forall_forall. intros h' Hh'. rewrite Forall_forall in Hw.
  destruct (Hw h' Hh') as [? ?]. split; [done|].
  apply not_elem_of_cons. split; [|done]. intros Heq. apply Hnin. rewrite <- Heq.
  by apply list_elem_of_fmap_2.
Qed.

(** *** The sender sends [k] messages *)

Fixpoint send_n (k : nat) : rmethod (list (bytes * RatchetHeader)) :=
  match k with
  | O => mret []
  | S k' => x ← ratchetEncrypt; rest ← send_n k'; mret (x :: rest)
  end.

Lemma send_n_spec ck pub k : forall s, sending_on ck pub s -> 0 <= PN s ->
  exists sent s', send_n k s = (Ok sent, s') /\ sending_on ck pub s' /\
    length sent = k /\
    Forall (fun x => of_chain pub x.2 /\ x.1 = nth_key ck (h_N x.2) /\
                     Ns s <= h_N x.2 < Ns s + Z.of_nat k) sent.
Proof.
  induction k as [|k IH]; intros s Hs Hpn; [by exists [], s|].
  destruct (encrypt_spec ck pub s Hs) as (s1 & H1 & Hs1 & Heq). pose proof Hs as (_ & Hns & _).
  destruct (IH s1 Hs1) as (sent & s2 & H2 & Hs2 & Hlen & Hf); [by subst s1|].
  eexists _, s2. cbn [send_n]. unfold mbind, M_bind. rewrite H1, H2. split; [done|].
  split; [done|]. split; [by cbn; rewrite Hlen|]. apply Forall_cons. split.
  - cbn. split; [by split|]. split; [done|lia].
  - eapply Forall_impl; [done|]. intros x (? & ? & Hx). subst s1. cbn in Hx. split_and!; done || lia.
Qed.

Definition fresh_receiver ck pub s : Prop :=
  dhRemotePub s = Some pub /\ Nr s = 0 /\ receivingChainKey s = Some ck /\
  NoDup (keys (skipped s)) /\ blen (skipped s) + MAX_SKIP <= MAX_SKIP_SESSION /\
  forall n, 0 <= n -> map_get (skip_key pub n) (skipped s) = None.

Lemma fresh_receiving ck pub s : fresh_receiver ck pub s ->
  receiving_from ck pub s /\ complete ck pub [] s.
Proof.
  intros (Hr & Hn & Hck & Hd & Hsz & Hg). assert (MAX_SKIP = 512) by done. split.
  - split; [done|lia|by rewrite Hn|..].
    + intros n mk ? Hgn. rewrite Hg in Hgn; done.
    + done.
    + lia.
  - intros n ? _. lia.
Qed.

(** ** Theorems *)

(** [ratchetDecrypt] on any message of the current receiving chain,
    every branch: it returns the sender's key of that message exactly when
    the key is stored or at most [MAX_SKIP] ahead, and then the message is
    used up; otherwise it throws "already consumed" or "MAX_SKIP exceeded"
    and leaves the state as it was. *)
Theorem decrypt_current_chain ck pub s n pn e :
  receiving_from ck pub s -> 0 <= n -> 0 <= pn ->
  outcome ck pub n s (ratchetDecrypt (current_header pub n pn) e s).
Proof. apply decrypt_outcome. Qed.

(** C35. A message key is handed out at most once: in any sequence of
    deliveries on the current chain, with replays and losses in any order,
    once a message has decrypted, every later delivery of it throws
    "already consumed". *)
Theorem message_key_used_once ck pub s e h hs j h' :
  receiving_from ck pub s -> of_chain pub h -> Forall (of_chain pub) hs ->
  is_ok (ratchetDecrypt h e s).1 = true ->
  hs !! j = Some h' -> h_N h' = h_N h ->
  (deliver e (h :: hs) s).1 !! S j = Some (Err AlreadyConsumed).
Proof.
  intros Hs Hh Hhs Hok Hj HN. pose proof Hh as (_ & H0 & HP). cbn [deliver].
  rewrite (of_chain_header _ _ Hh) in Hok |- *. cbn [h_N current_header] in HN.
  destruct (ratchetDecrypt _ e s) as [r s1] eqn:Hd.
  pose proof (decrypt_outcome ck pub s _ _ e Hs H0 HP) as Ho. rewrite Hd in Ho.
  destruct (deliver e hs s1) as [rs s2] eqn:Hds. cbn.
  change rs with (rs, s2).1. rewrite <- Hds.
  inversion Ho as [s3 Hs1 Hcons _| |]; subst; try done.
  by apply (deliver_consumed ck pub e hs s1 (h_N h) Hs1 Hhs H0 Hcons j h').
Qed.

(** C34. Out-of-order delivery: the sender sends up to [MAX_SKIP + 1] messages
    on one chain; whichever of them arrive, in whatever order, each without
    duplicates, the receiver derives for each exactly the key the sender
    used. *)
Theorem out_of_order_delivery ck pub s r k sent s' arrived e :
  sending_on ck pub s -> Ns s = 0 -> 0 <= PN s -> Z.of_nat k <= MAX_SKIP + 1 ->
  send_n k s = (Ok sent, s') ->
  fresh_receiver ck pub r -> arrived ⊆ sent -> NoDup (h_N <$> arrived.*2) ->
  (deliver e (arrived.*2) r).1 = Ok <$> arrived.*1.
Proof.
  intros Hs Hns Hpn Hk Hsend Hr Hsub Hd.
  destruct (send_n_spec ck pub k s Hs Hpn) as (sent' & s'' & Hsend' & _ & _ & Hf).
  rewrite Hsend in Hsend'. injection Hsend' as <- <-. rewrite Forall_forall in Hf.
  destruct (fresh_receiving _ _ _ Hr) as [Hrf Hcom]. destruct Hr as (_ & Hn0 & _ & _ & Hsz & _).
  rewrite (deliver_complete ck pub (blen (skipped r)) e (arrived.*2) r []); try done.
  - rewrite <- !list_fmap_compose. apply list_fmap_ext. intros i x Hx. cbn. f_equal.
    apply list_elem_of_lookup_2, Hsub, Hf in Hx as (_ & -> & _). done.
  - lia.
  - apply Forall_fmap, Forall_forall. intros x Hx. by apply Hsub, Hf in Hx as (? & _).
  - apply Forall_fmap, Forall_forall. intros x Hx. apply Hsub, Hf in Hx as (_ & _ & Hx).
    cbn. split; [lia|set_solver].
Qed.
End Chain.
