(* ===== verification/RatchetSession.v ===== *)
(** * Sessions of the Double Ratchet

    The invariant of a ratchet state under every call, returning or throwing
    ([ratchet_inv]); persistence is faithful; a DH step brings the two ends to
    the same chain and root ([paired]), from the handshake bootstrap on. *)

From Stdlib Require Import String.
From stdpp Require Import sets.
From S2P Require Import Prelude Bytes Constants Crypto X25519 Ratchet RatchetKeys RatchetChain.
Local Open Scope Z_scope.
Local Open Scope list_scope.

Section Invariant.
Context {C : LibCrypto} `{!HkdfTotal C}.
Implicit Types (s : RatchetState) (m : skipped_map).

Definition canonical_keys m : Prop := forall k, k ∈ keys m -> exists pub n, 0 <= n /\ k = skip_key pub n.

(** Everything but the bound on the skipped keys, which the loop exceeds
    until it evicts. *)
Record pre_inv s : Prop := {
  pi_nodup : NoDup (keys (skipped s));
  pi_keys : canonical_keys (skipped s);
  pi_ns : 0 <= Ns s;
  pi_nr : 0 <= Nr s;
  pi_pn : 0 <= PN s;
  pi_remote : is_Some (receivingChainKey s) -> is_Some (dhRemotePub s);
}.
Definition ratchet_inv s : Prop := pre_inv s /\ blen (skipped s) <= MAX_SKIP_SESSION.

Lemma canonical_set pub n v m : 0 <= n -> canonical_keys m ->
  canonical_keys (map_set (skip_key pub n) v m).
Proof. intros Hn Hm k [->|Hk]%elem_of_keys_set; [eauto|by apply Hm]. Qed.
Lemma canonical_delete k m : canonical_keys m -> canonical_keys (map_delete k m).
Proof. intros Hm k' Hk'. apply Hm, (keys_delete_sub k _ _ Hk'). Qed.
Lemma canonical_evict m : canonical_keys m -> canonical_keys (evict m).
Proof. intros Hm k Hk. by apply Hm, keys_evict. Qed.

(** No key of [pub] is stored. *)
Definition unknown pub m : Prop := forall n, 0 <= n -> skip_key pub n ∉ keys m.
Lemma unknown_set pub pub' n v m : 0 <= n -> pub <> pub' -> unknown pub m ->
  unknown pub (map_set (skip_key pub' n) v m).
Proof.
  intros Hn Hne Hm i Hi [Heq|Hin]%elem_of_keys_set; [|by apply (Hm i)].
  apply skip_key_inj in Heq; naive_solver.
Qed.

Lemma skip_loop_pre (n : nat) : forall s, pre_inv s -> is_Some (receivingChainKey s) ->
  exists ck m, skip_loop n s = (Ok tt, set_receiving ck (Nr s + Z.of_nat n) m s) /\
    NoDup (keys m) /\ canonical_keys m /\
    forall pub, dhRemotePub s <> Some pub -> unknown pub (skipped s) -> unknown pub m.
Proof.
  induction n as [|n IH]; intros s Hs [ck Hck].
  - exists ck, (skipped s). cbn. rewrite Z.add_0_r, set_receiving_self by done.
    split; [done|]. split_and!; try apply Hs. auto.
  - cbn [skip_loop]. unfold mbind, M_bind, get_this. rewrite Hck, rlift_kdfCk.
    unfold modify_this. destruct (pi_remote s Hs) as [pub Hpub]; [by eexists|]. rewrite Hpub.
    rewrite set_receiving_idem.
    destruct (IH (set_receiving (next_chain_key ck) (Nr s + 1)
      (map_set (skip_key pub (Nr s)) (message_key ck) (skipped s)) s)) as (ck' & m' & Heq & Hnd & Hcan & Hunk).
    + destruct Hs. split; cbn; try done; [by apply NoDup_set|by apply canonical_set|lia].
    + by eexists.
    + exists ck', m'. rewrite Heq, set_receiving_idem. cbn [Nr set_receiving]. split; [do 2 f_equal; lia|].
      split_and!; [done|done|]. intros pub' Hne Hu. apply Hunk; [cbn; congruence|].
      apply unknown_set; [apply Hs|naive_solver|done].
Qed.

(** The part of the state that skipping leaves alone. *)
Lemma skipMessageKeys_cases u s : ratchet_inv s ->
  skipMessageKeys u s = (Err MaxSkipExceeded, s) \/
  (u <= Nr s + MAX_SKIP /\ receivingChainKey s = None /\ skipMessageKeys u s = (Ok tt, s)) \/
  exists ck m, u <= Nr s + MAX_SKIP /\ is_Some (receivingChainKey s) /\
    skipMessageKeys u s = (Ok tt, set_receiving ck (Z.max (Nr s) u) m s) /\
    NoDup (keys m) /\ canonical_keys m /\ blen m <= MAX_SKIP_SESSION /\
    forall pub, dhRemotePub s <> Some pub -> unknown pub (skipped s) -> unknown pub m.
Proof.
  intros [Hs Hsz]. unfold skipMessageKeys, mbind, M_bind, get_this, mrequire, lift.
  destruct (Z.ltb_spec (Nr s + MAX_SKIP) u) as [Hu|Hu]; cbn [negb require]; [by left|right].
  destruct (receivingChainKey s) as [rck|] eqn:Hck; [|by left]. right.
  destruct (skip_loop_pre (Z.to_nat (u - Nr s)) s Hs) as (ck & m & -> & Hnd & Hcan & Hunk); [by eexists|].
  exists ck, (evict m). split; [done|]. split; [by eexists|]. unfold modify_this. rewrite set_skipped_receiving.
  split; [do 2 f_equal; lia|]. split_and!.
  - by apply NoDup_evict.
  - by apply canonical_evict.
  - apply evict_bound.
  - intros pub Hne Hun n Hn Hin%keys_evict. by apply (Hunk pub Hne Hun n).
Qed.

Lemma skipMessageKeys_inv u : preserves ratchet_inv (skipMessageKeys u).
Proof.
  intros s Hs. destruct (skipMessageKeys_cases u s Hs)
    as [->|[(_ & _ & ->)|(ck & m & _ & Hck & -> & ? & ? & ? & _)]]; [done..|].
  destruct Hs as [[] Hsz]. split; [split; cbn; try done; [lia|auto]|done].
Qed.

Lemma rlift_preserves {A} P (r : result CryptoError A) : preserves P (rlift r).
Proof. by apply preserves_readonly. Qed.

(** Once the remote key is assigned, the rest of a DH step keeps it. *)
Definition inv_remote s : Prop := ratchet_inv s /\ is_Some (dhRemotePub s).

Lemma inv_remote_update (g : RatchetState -> RatchetState) :
  (forall s, skipped (g s) = skipped s /\ Ns (g s) = Ns s /\ Nr (g s) = Nr s /\
     PN (g s) = PN s /\ dhRemotePub (g s) = dhRemotePub s) ->
  forall s, inv_remote s -> inv_remote (g s).
Proof.
  intros Hg s [[[] ?] Hs]. destruct (Hg s) as (H1 & H2 & H3 & H4 & H5).
  split; [split; [split|]|]; rewrite ?H1, ?H2, ?H3, ?H4, ?H5; auto.
Qed.

Lemma dh_step_keys_inv h e : preserves inv_remote (dh_step_keys h e).
Proof.
  unfold dh_step_keys.
  repeat first
    [ apply preserves_bind; [apply rlift_preserves|first [intros [? ?]|intros ?]]
    | apply preserves_bind; [apply preserves_modify; by apply inv_remote_update|intros _]
    | apply preserves_bind; [apply preserves_readonly, readonly_get|intros ?]
    | apply preserves_modify; by apply inv_remote_update ].
Qed.

Lemma dhRatchet_inv h e : preserves ratchet_inv (dhRatchet h e).
Proof.
  intros s Hs. change (ratchet_inv (snd (dh_step_keys h e (set_remote (h_dhPub h) s)))).
  apply dh_step_keys_inv. destruct Hs as [[] ?]. split; [|by eexists].
  split; [|done]. by split; cbn.
Qed.

Lemma receive_in_chain_inv n : preserves ratchet_inv (receive_in_chain n).
Proof.
  unfold receive_in_chain. apply preserves_get. intros s Hs.
  assert (preserves ratchet_inv (skipMessageKeys n;; state ← get_this;
    match receivingChainKey state with
    | None => mthrow NullChainKey
    | Some rck => '(ck, mk) ← rlift (kdfCk rck);
        modify_this (set_receiving ck (Nr state + 1) (skipped state));; mret mk
    end)) as Hp.
  { apply preserves_bind; [apply skipMessageKeys_inv|intros _]. apply preserves_get.
    intros s1 Hs1. destruct (receivingChainKey s1) as [rck|] eqn:Hck; [|done].
    unfold mbind, M_bind. rewrite rlift_kdfCk. cbn. destruct Hs1 as [[] ?].
    split; [split; cbn; try done; [lia|]|done]. intros _. apply pi_remote0. by eexists. }
  unfold mbind at 1, M_bind at 1, mrequire, lift, require.
  destruct (negb _); [by apply Hp|done].
Qed.

Lemma trySkipped_inv h : preserves ratchet_inv (trySkipped h).
Proof.
  apply preserves_get. intros s Hs. cbv zeta.
  destruct (map_get (skip_key (h_dhPub h) (h_N h)) (skipped s)); [|done]. cbn.
  destruct Hs as [[] Hsz]. split; [split; cbn; try done|cbn].
  - by apply NoDup_delete.
  - by apply canonical_delete.
  - pose proof (length_map_delete (skip_key (h_dhPub h) (h_N h)) (skipped s)).
    unfold mbind, M_bind, modify_this. cbn. unfold blen in *. lia.
Qed.

Lemma ratchetDecrypt_inv h e : preserves ratchet_inv (ratchetDecrypt h e).
Proof.
  unfold ratchetDecrypt. apply preserves_bind; [by apply preserves_readonly|intros _].
  apply preserves_bind; [apply trySkipped_inv|intros [mk|]]; [by apply preserves_readonly|].
  apply preserves_bind; [apply preserves_readonly, readonly_get|intros s].
  apply preserves_bind; [|intros _; apply receive_in_chain_inv].
  destruct (isNewDh s h); [|by apply preserves_readonly].
  apply preserves_bind; [apply skipMessageKeys_inv|intros _; apply dhRatchet_inv].
Qed.

Lemma ratchetEncrypt_inv : preserves ratchet_inv ratchetEncrypt.
Proof.
  apply preserves_get. intros s Hs. destruct (sendingChainKey s); [|done].
  unfold mbind, M_bind. rewrite rlift_kdfCk. cbn. destruct Hs as [[] ?].
  split; [split; cbn; try done; lia|done].
Qed.

Lemma primeResponder_inv pub e : preserves ratchet_inv (primeResponderRatchet pub e).
Proof.
  unfold primeResponderRatchet. apply preserves_bind; [by apply preserves_readonly|intros _].
  apply preserves_bind; [apply preserves_readonly, readonly_get|intros s].
  apply preserves_bind; [by apply preserves_readonly|intros _]. apply dhRatchet_inv.
Qed.

Lemma initRatchet_inv seed am remote suite e s :
  initRatchet seed am remote suite e = Ok s -> ratchet_inv s.
Proof.
  unfold initRatchet. intros H. binds H.
  destruct am; [destruct remote as [pub|]; [|done]|].
  - binds H. destruct x1 as [rk ck]. apply Ok_inj in H. subst s. split; [|done].
    split; cbn; first [done|apply NoDup_nil_2|by intros ? ?%elem_of_nil|by eexists].
  - apply Ok_inj in H. subst s. split; [|done].
    split; cbn; first [done|apply NoDup_nil_2|by intros ? ?%elem_of_nil|by intros [? ?]].
Qed.

(** *** Persistence *)

Lemma flatten_key k v m : canonical_keys m -> k ∈ keys m ->
  entry_key (flatten_entry (k, v)) = k /\ sk_messageKey (flatten_entry (k, v)) = v.
Proof.
  intros Hm Hk. apply Hm in Hk as (pub & n & Hn & ->). unfold flatten_entry. cbn [fst snd].
  rewrite skip_key_split by done. unfold entry_key. cbn. by rewrite fromHex_toHex, Number_decimal.
Qed.

Lemma rebuild m : NoDup (keys m) -> canonical_keys m ->
  fold_left (fun acc e => map_set (entry_key e) (sk_messageKey e) acc) (map flatten_entry m) [] = m.
Proof.
  intros Hd Hc. assert (forall acc, NoDup (keys (acc ++ m)) ->
    fold_left (fun acc e => map_set (entry_key e) (sk_messageKey e) acc) (map flatten_entry m) acc
      = acc ++ m) as H; [|by apply H].
  clear Hd. induction m as [|[k v] m IH]; intros acc Hd; cbn [map fold_left]; [by rewrite app_nil_r|].
  destruct (flatten_key k v _ Hc) as [-> ->]; [by left|].
  unfold keys in Hd. rewrite fmap_app in Hd. pose proof Hd as Hd'.
  rewrite map_set_fresh.
  - rewrite IH; [by rewrite <- app_assoc|intros k' Hk'; apply Hc; by right|].
    unfold keys. by rewrite <- app_assoc, fmap_app.
  - apply NoDup_app in Hd as (_ & Hd & _). intros Hin. apply (Hd k Hin). by left.
Qed.

Lemma clone_inv s : ratchet_inv s -> cloneRatchet s = s.
Proof.
  intros [[] _]. unfold cloneRatchet, deserializeRatchet, serializeRatchet. cbn.
  rewrite rebuild by done. by destruct s.
Qed.

(** ** Any sequence of calls *)

Inductive rcall :=
  | call_encrypt
  | call_decrypt (header : RatchetHeader) (entropy : bytes)
  | call_prime (initiatorDhPub entropy : bytes).

Definition run_rcall (c : rcall) : rmethod unit :=
  match c with
  | call_encrypt => _ ← ratchetEncrypt; mret tt
  | call_decrypt h e => _ ← ratchetDecrypt h e; mret tt
  | call_prime pub e => primeResponderRatchet pub e
  end.

(** The state after a list of calls, each of which returns or throws. *)
Fixpoint after_calls (cs : list rcall) s : RatchetState :=
  match cs with
  | [] => s
  | c :: cs' => after_calls cs' (snd (run_rcall c s))
  end.

Lemma run_rcall_inv c : preserves ratchet_inv (run_rcall c).
Proof.
  destruct c; cbn.
  - apply preserves_bind; [apply ratchetEncrypt_inv|]. intros ?. by apply preserves_readonly.
  - apply preserves_bind; [apply ratchetDecrypt_inv|]. intros ?. by apply preserves_readonly.
  - apply primeResponder_inv.
Qed.

Lemma after_calls_inv cs : forall s, ratchet_inv s -> ratchet_inv (after_calls cs s).
Proof. induction cs; cbn; [done|]. intros s Hs. by apply IHcs, run_rcall_inv. Qed.

(** Whatever headers a peer sends and whatever calls are made, in any
    order, returning or throwing, the ratchet never holds more than
    [MAX_SKIP_SESSION] skipped message keys, its counters stay non-negative
    and no skipped key is stored twice. *)
Theorem skipped_keys_bounded seed am remote suite e s cs :
  initRatchet seed am remote suite e = Ok s ->
  let s' := after_calls cs s in
  blen (skipped s') <= MAX_SKIP_SESSION /\ NoDup (keys (skipped s')) /\
  0 <= Ns s' /\ 0 <= Nr s' /\ 0 <= PN s'.
Proof. intros H%initRatchet_inv. by apply (after_calls_inv cs) in H as [[] ?]. Qed.

(** Persistence is faithful: serialising any state a session can reach
    and reading it back, through the text keys of the skipped map, gives that
    state, with the order in which skipped keys will be evicted. *)
Theorem persisted_ratchet_faithful seed am remote suite e s cs :
  initRatchet seed am remote suite e = Ok s ->
  deserializeRatchet (serializeRatchet (after_calls cs s)) = after_calls cs s.
Proof. intros H%initRatchet_inv. by apply clone_inv, after_calls_inv. Qed.
End Invariant.

(** ** A DH step brings both ends to the same chain *)

Section Pairing.
Context {C : LibCrypto} `{!HkdfTotal C, !DhCommutes C, !DhTotal C}.
Implicit Types (a b s : RatchetState) (ck : bytes).

Lemma kdfRk_total root dh : exists rk ck, kdfRk root dh = Ok (rk, ck).
Proof.
  unfold kdfRk. destruct (hkdf_total root dh RK_INFO 64 ltac:(done)) as (prk & okm & -> & Hx).
  cbn [mbind result_bind]. rewrite Hx. cbn. eauto.
Qed.

Definition own_key s : Prop := exists e kp, x25519Keypair e = Ok kp /\
  dhSelfPub s = x_publicKey kp /\ dhSelfSec s = x_secretKey kp.

(** [a] made the last DH step, against [b]'s current key: its root and the
    chain it sends on come from [b]'s root. *)
Record paired a b ck : Prop := {
  pa_key : own_key a;
  pa_peer : own_key b;
  pa_remote : dhRemotePub a = Some (dhSelfPub b);
  pa_root : exists dh, x25519Dh (dhSelfSec a) (dhSelfPub b) = Ok dh /\
              kdfRk (rootKey b) dh = Ok (rootKey a, ck);
  pa_sending : sending_on ck (dhSelfPub a) a;
}.

Lemma own_dh a b : own_key a -> own_key b ->
  exists dh, x25519Dh (dhSelfSec a) (dhSelfPub b) = Ok dh /\
    x25519Dh (dhSelfSec b) (dhSelfPub a) = Ok dh.
Proof.
  intros (e1 & k1 & H1 & -> & ->) (e2 & k2 & H2 & -> & ->).
  destruct (dh_total _ _ _ _ H1 H2) as (dh & Hdh). exists dh. split; [done|].
  by rewrite <- (dh_commutes _ _ _ _ H1 H2).
Qed.

(** Sending keeps the pairing. *)
Lemma paired_encrypt a b ck x a' : paired a b ck -> ratchetEncrypt a = (Ok x, a') -> paired a' b ck.
Proof.
  intros [Hk Hk' Hr Hroot Hs] H. destruct (encrypt_spec _ _ _ Hs) as (a1 & H1 & Hs1 & Heq).
  rewrite H1 in H. injection H as _ <-. subst a1. by split.
Qed.

(** What [dhRatchet] computes against the key of a peer. *)
Lemma dh_step_spec a b h e ck : paired a b ck -> h_dhPub h = dhSelfPub a ->
  exists b' ck', dhRatchet h e b = (Ok tt, b') /\
    dhRemotePub b' = Some (dhSelfPub a) /\ Nr b' = 0 /\ Ns b' = 0 /\ PN b' = Ns b /\
    receivingChainKey b' = Some ck /\ skipped b' = skipped b /\ paired b' a ck'.
Proof.
  intros [Hka Hkb _ (dh & Hdh & Hrk) _] Hh.
  destruct (own_dh b a Hkb Hka) as (dh' & Hdh1 & Hdh2). assert (dh' = dh) as -> by congruence.
  destruct (keypair_total e) as (kp & Hkp). destruct Hka as (e1 & k1 & Hk1 & Hp1 & Hs1).
  destruct (dh_total _ _ _ _ Hkp Hk1) as (dh2 & Hdh3).
  destruct (kdfRk_total (rootKey a) dh2) as (rk2 & ck2 & Hrk2).
  rewrite Hp1 in *. unfold dhRatchet, dh_step_keys, mbind, M_bind, modify_this, get_this, rlift, lift.
  cbn [dhSelfSec rootKey set_remote set_receiving set_root set_self]. rewrite Hh, Hdh1.
  cbn [map_err]. rewrite Hrk. cbn [map_err]. rewrite Hkp. cbn [map_err]. rewrite Hdh3.
  cbn [map_err]. rewrite Hrk2. cbn [map_err]. eexists _, ck2. split; [done|].
  cbn. split_and!; try done. split; cbn.
  - by exists e, kp.
  - by exists e1, k1.
  - by rewrite Hp1.
  - exists dh2. by rewrite Hp1.
  - split_and!; done.
Qed.

Lemma stepped_receiver ck pub s : dhRemotePub s = Some pub -> Nr s = 0 ->
  receivingChainKey s = Some ck -> NoDup (keys (skipped s)) ->
  blen (skipped s) <= MAX_SKIP_SESSION -> unknown pub (skipped s) -> receiving_from ck pub s.
Proof.
  intros Hr Hn Hck Hd Hsz Hu. split; [done|lia|by rewrite Hn| |done|done].
  intros n mk H0 Hg%map_get_elem. by destruct (Hu n H0).
Qed.

Lemma new_dh pub s h : dhRemotePub s <> Some pub -> h_dhPub h = pub -> isNewDh s h = true.
Proof.
  intros Hne Hh. unfold isNewDh. destruct (dhRemotePub s) as [p|] eqn:Hp; [|done].
  apply negb_true_iff, bytesEqual_false. congruence.
Qed.

(** The skip before a DH step does not touch what the pairing depends on. *)
Lemma skip_then_paired a b ck pn : paired a b ck -> ratchet_inv b ->
  dhRemotePub b <> Some (dhSelfPub a) -> unknown (dhSelfPub a) (skipped b) ->
  pn <= Nr b + MAX_SKIP ->
  exists b1, skipMessageKeys pn b = (Ok tt, b1) /\ paired a b1 ck /\ ratchet_inv b1 /\
    Ns b1 = Ns b /\ unknown (dhSelfPub a) (skipped b1).
Proof.
  intros Hp Hi Hne Hu Hpn. pose proof (skipMessageKeys_inv pn b Hi) as Hi1.
  destruct (skipMessageKeys_cases pn b Hi)
    as [Hbad|[(_ & _ & Heq)|(rck & m & _ & _ & Heq & _ & _ & _ & Hm)]].
  - exfalso. revert Hbad. unfold skipMessageKeys, mbind, M_bind, get_this, mrequire, lift.
    rewrite (proj2 (Z.ltb_ge _ _)) by lia. cbn. destruct (receivingChainKey b) eqn:Hck; [|done].
    destruct (skip_loop_pre (Z.to_nat (pn - Nr b)) b) as (? & ? & -> & _); [apply Hi|by eexists|done].
  - exists b. by rewrite Heq.
  - rewrite Heq in Hi1. eexists. split; [exact Heq|]. split; [by destruct Hp|].
    split; [done|]. split; [done|]. cbn. auto.
Qed.

(** A DH step agrees: when [a] made the last step against [b]'s key, the
    first message of [a]'s new chain that reaches [b] (skipping at most
    [MAX_SKIP] messages of either chain) decrypts to the key [a] used; [b]
    is then on [a]'s chain for the rest of it, and [a] and [b] have changed
    roles, so the next reply of [b] agrees in the same way. *)
Theorem dh_step_agrees a b ck h e :
  paired a b ck -> ratchet_inv b -> of_chain (dhSelfPub a) h ->
  h_N h <= MAX_SKIP -> h_PN h <= Nr b + MAX_SKIP ->
  dhRemotePub b <> Some (dhSelfPub a) -> unknown (dhSelfPub a) (skipped b) ->
  exists b' ck', ratchetDecrypt h e b = (Ok (nth_key ck (h_N h)), b') /\
    receiving_from ck (dhSelfPub a) b' /\ consumed (dhSelfPub a) (h_N h) b' /\
    paired b' a ck' /\ Ns b' = 0 /\ PN b' = Ns b.
Proof.
  intros Hp Hi (Hh & HN & HP) Hw Hpn Hne Hu.
  destruct (skip_then_paired a b ck (h_PN h) Hp Hi Hne Hu Hpn) as (b1 & Hsk & Hp1 & Hi1 & HNs & Hu1).
  destruct (dh_step_spec a b1 h e ck Hp1 Hh) as (b2 & ck' & Hdh & Hr & Hn0 & Hs0 & HPN & Hck & Hskp & Hp2).
  assert (receiving_from ck (dhSelfPub a) b2) as Hrf.
  { apply stepped_receiver; rewrite ?Hskp; try done; apply Hi1. }
  pose proof (receive_spec ck (dhSelfPub a) b2 (h_N h) Hrf ltac:(lia)) as Hrec.
  exists (after_receive ck (dhSelfPub a) b2 (h_N h)), ck'. split_and!.
  - unfold ratchetDecrypt, mbind, M_bind, mrequire, lift, require.
    rewrite (proj2 (Z.leb_le _ _) HN), (proj2 (Z.leb_le _ _) HP). cbn [andb].
    unfold trySkipped, mbind, M_bind, get_this. rewrite Hh.
    rewrite (proj2 (map_get_None _ _) (Hu (h_N h) HN)). unfold mret, M_ret.
    rewrite (new_dh _ _ _ Hne Hh), Hsk, Hdh. done.
  - apply after_receive_ok; [done|lia].
  - apply receive_consumes; [done|lia].
  - destruct Hp2. by split.
  - done.
  - cbn. congruence.
Qed.

(** Bootstrap: the responder creates its ratchet, the initiator creates
    its own from the same seed against the responder's key, the responder is
    primed with the initiator's key.  All three calls return, the responder
    is a fresh receiver on exactly the chain the initiator sends on, and the
    responder's own sending chain is paired with the initiator: both can
    send first. *)
Theorem bootstrap_agrees seed suite e1 e2 e3 :
  exists b0 a b ck ck',
    initRatchet seed false None suite e1 = Ok b0 /\
    initRatchet seed true (Some (dhSelfPub b0)) suite e2 = Ok a /\
    primeResponderRatchet (dhSelfPub a) e3 b0 = (Ok tt, b) /\
    sending_on ck (dhSelfPub a) a /\ Ns a = 0 /\ fresh_receiver ck (dhSelfPub a) b /\
    paired b a ck' /\ Ns b = 0.
Proof.
  destruct (keypair_total e1) as (k1 & H1). destruct (keypair_total e2) as (k2 & H2).
  destruct (dh_total _ _ _ _ H2 H1) as (dh & Hdh).
  destruct (kdfRk_total seed dh) as (rk & ck & Hrk).
  destruct (initRatchet seed false None suite e1) as [b0|] eqn:Hb0.
  2: { unfold initRatchet in Hb0. by rewrite H1 in Hb0. }
  pose proof Hb0 as Hib. unfold initRatchet in Hb0. rewrite H1 in Hb0. apply Ok_inj in Hb0.
  destruct (initRatchet seed true (Some (dhSelfPub b0)) suite e2) as [a|] eqn:Ha.
  2: { unfold initRatchet in Ha. rewrite H2 in Ha. cbn [map_err mbind result_bind] in Ha.
       subst b0. cbn [dhSelfPub dhSelfSec] in Ha. rewrite Hdh in Ha.
       cbn [map_err mbind result_bind rootKey] in Ha. by rewrite Hrk in Ha. }
  pose proof Ha as Hia. unfold initRatchet in Ha. rewrite H2 in Ha.
  cbn [map_err mbind result_bind] in Ha. rewrite <- Hb0 in Ha. cbn [dhSelfPub dhSelfSec] in Ha. rewrite Hdh in Ha.
  cbn [map_err mbind result_bind rootKey] in Ha. rewrite Hrk in Ha. apply Ok_inj in Ha.
  assert (paired a b0 ck) as Hp.
  { subst a b0. split; cbn; [by exists e2, k2|by exists e1, k1|done|by exists dh|by split_and!]. }
  destruct (dh_step_spec a b0 {| h_dhPub := dhSelfPub a; h_N := 0; h_PN := 0 |} e3 ck Hp)
    as (b & ck' & Hd & Hr & Hn & Hs & HP & Hck & Hsk & Hp'); [done|].
  exists b0, a, b, ck, ck'. split_and!; try done.
  - unfold primeResponderRatchet, mbind, M_bind, mrequire, lift, get_this.
    assert (blen (dhSelfPub a) = RATCHET_DHPUB_LEN) as ->
      by (subst a; apply (x25519Keypair_length _ _ H2)).
    rewrite <- Hb0. cbn -[dhRatchet]. by rewrite Hb0.
  - apply Hp.
  - by subst a.
  - split_and!; try done.
    + rewrite Hsk. subst b0. apply NoDup_nil_2.
    + rewrite Hsk. by subst b0.
    + intros n Hn0. rewrite Hsk. by subst b0.
Qed.
End Pairing.
