(* ===== verification/WireFrames.v ===== *)
(** * Wire frames

    The codecs of the protocol-v4 data channel: the chunk frame header
    ([src/src/handlers/chunkFrame.ts]), receipts
    ([src/src/handlers/receiptFrame.ts]) and the classification by the leading
    tag ([src/src/handlers/frameType.ts]). *)

From S2P Require Import Prelude Bytes Constants Crypto X25519 Ratchet.
Local Open Scope Z_scope.

(** ** The 69-byte public header shared by chunk and control cells *)

Definition cell_header (type_ : Z) (id : bytes) (n pn epoch : Z) (nonce : bytes) : bytes :=
  [byte_of type_] ++ id ++ be_encode 8 n ++ be_encode 8 pn ++ be_encode 8 epoch ++ nonce.

Lemma blen_cell_header t id n pn e nonce : blen id = 32 -> blen nonce = 12 ->
  blen (cell_header t id n pn e nonce) = 69.
Proof. intros. unfold cell_header. blen. Qed.
#[export] Hint Rewrite blen_cell_header using done : blen.

(** The writes of the encoders, in their order. *)
Lemma cell_writes t id n pn e nonce : blen id = 32 -> blen nonce = 12 ->
  bset (put_u64 (put_u64 (put_u64 (bset (bset (zeros 69) 0 [byte_of t]) 1 id) 33 n) 41 pn) 49 e)
    57 nonce = cell_header t id n pn e nonce.
Proof.
  intros Hi Hn. unfold put_u64, cell_header.
  rewrite bset_zeros by blen. repeat rewrite bset_append by blen.
  rewrite zeros_0 by blen. by rewrite app_nil_r, <- !app_assoc.
Qed.

Lemma cell_fields t id n pn e nonce rest : blen id = 32 -> blen nonce = 12 -> 0 <= t < 256 ->
  0 <= n <= MAX_U64 -> 0 <= pn <= MAX_U64 -> 0 <= e <= MAX_U64 ->
  let frame := cell_header t id n pn e nonce ++ rest in
  at_ frame 0 = Some t /\ slice frame 1 33 = id /\ get_u64 frame 33 = n /\
  get_u64 frame 41 = pn /\ get_u64 frame 49 = e /\ slice frame 57 69 = nonce /\
  slice_from frame 69 = rest /\ slice frame 0 69 = cell_header t id n pn e nonce.
Proof.
  intros Hi Hc Ht Hn Hp He frame. subst frame.
  assert (slice (cell_header t id n pn e nonce ++ rest) 0 69 = cell_header t id n pn e nonce) as H0
    by (apply slice_app_l; [done|by rewrite blen_cell_header]).
  assert (slice_from (cell_header t id n pn e nonce ++ rest) 69 = rest) as H1
    by (apply slice_from_app; by rewrite blen_cell_header).
  split_and!; try done; unfold cell_header, get_u64; rewrite <- ?app_assoc.
  - transitivity (Some (u8 (byte_of t))); [done|]. by rewrite u8_byte_of, Z.mod_small.
  - rewrite slice_app_r by blen. apply slice_app_l; blen.
  - do 2 rewrite slice_app_r by blen. rewrite slice_app_l by blen. by apply be_decode_u64.
  - do 3 rewrite slice_app_r by blen. rewrite slice_app_l by blen. by apply be_decode_u64.
  - do 4 rewrite slice_app_r by blen. rewrite slice_app_l by blen. by apply be_decode_u64.
  - do 5 rewrite slice_app_r by blen. by rewrite slice_app_l by blen.
Qed.

(** Every long enough frame starts with such a header. *)
Lemma cell_split frame t : 69 <= blen frame -> at_ frame 0 = Some t ->
  frame = cell_header t (slice frame 1 33) (get_u64 frame 33) (get_u64 frame 41)
            (get_u64 frame 49) (slice frame 57 69) ++ slice_from frame 69.
Proof.
  intros Hl Ht. unfold cell_header.
  rewrite <- (slice_one frame 0 t), <- !slice_u64 by (done || lia).
  rewrite <- (slice_to_end frame 69 (blen frame)) by lia.
  rewrite <- !app_assoc.
  rewrite <- (slice_split frame 57 69), <- (slice_split frame 49 57), <- (slice_split frame 41 49),
    <- (slice_split frame 33 41), <- (slice_split frame 1 33), <- (slice_split frame 0 1) by lia.
  symmetry. by apply slice_all.
Qed.

(** ** Chunk frames *)

Definition DHPUB_OFF : Z := FRAME_TYPE_LEN.
Definition N_OFF : Z := DHPUB_OFF + RATCHET_DHPUB_LEN.
Definition PN_OFF : Z := N_OFF + RATCHET_N_LEN.
Definition PQ_EPOCH_OFF : Z := PN_OFF + RATCHET_PN_LEN.
Definition NONCE_OFF : Z := PQ_EPOCH_OFF + PQ_EPOCH_LEN.
Definition CHUNK_FRAME_HEADER_LEN : Z := FRAME_TYPE_LEN + CHUNK_HEADER_LEN.

Inductive FrameError :=
  | CounterOutOfRange | EpochOutOfRange | BadDhPub | BadNonce | FrameTooShort | NotChunk
  | BadToken.
#[export] Instance FrameError_eq_dec : EqDecision FrameError.
Proof. solve_decision. Defined.

Definition writeU64BE (out : bytes) (offset value : Z) : result FrameError bytes :=
  require ((0 <=? value) && (value <=? MAX_SAFE_INTEGER)) CounterOutOfRange;;
  Ok (put_u64 out offset value).
Definition readU64BE (buf : bytes) (offset : Z) : result FrameError Z :=
  let v := get_u64 buf offset in
  require (negb (MAX_SAFE_INTEGER <? v)) CounterOutOfRange;; Ok v.
Definition writeEpochU64BE (out : bytes) (offset value : Z) : result FrameError bytes :=
  require (is_u64 value) EpochOutOfRange;; Ok (put_u64 out offset value).
Definition readEpochU64BE (buf : bytes) (offset : Z) : Z := get_u64 buf offset.

Definition packChunkFrameHeader (header : RatchetHeader) (nonce : bytes) (pqEpoch : Z) :
  result FrameError bytes :=
  require (blen (h_dhPub header) =? RATCHET_DHPUB_LEN) BadDhPub;;
  require (blen nonce =? RATCHET_NONCE_LEN) BadNonce;;
  let out := zeros CHUNK_FRAME_HEADER_LEN in
  let out := bset out 0 [byte_of FRAME_TYPE_CHUNK] in
  let out := bset out DHPUB_OFF (h_dhPub header) in
  out ← writeU64BE out N_OFF (h_N header);
  out ← writeU64BE out PN_OFF (h_PN header);
  out ← writeEpochU64BE out PQ_EPOCH_OFF pqEpoch;
  Ok (bset out NONCE_OFF nonce).

Record ParsedChunkFrame := {
  pf_header : RatchetHeader;
  pf_pqEpoch : Z;
  pf_nonce : bytes;
  pf_ciphertext : bytes;
}.

Definition parseChunkFrameHeader (frame : bytes) : result FrameError ParsedChunkFrame :=
  require (negb (blen frame <? CHUNK_FRAME_HEADER_LEN)) FrameTooShort;;
  require (bool_decide (at_ frame 0 = Some FRAME_TYPE_CHUNK)) NotChunk;;
  n ← readU64BE frame N_OFF;
  pn ← readU64BE frame PN_OFF;
  Ok {| pf_header := {| h_dhPub := slice frame DHPUB_OFF (DHPUB_OFF + RATCHET_DHPUB_LEN);
                        h_N := n; h_PN := pn |};
        pf_pqEpoch := readEpochU64BE frame PQ_EPOCH_OFF;
        pf_nonce := slice frame NONCE_OFF (NONCE_OFF + RATCHET_NONCE_LEN);
        pf_ciphertext := slice_from frame CHUNK_FRAME_HEADER_LEN |}.

(** Header fields that fit the wire. *)
Definition encodable (h : RatchetHeader) (nonce : bytes) (e : Z) : Prop :=
  blen (h_dhPub h) = 32 /\ blen nonce = 12 /\ 0 <= h_N h <= MAX_SAFE_INTEGER /\
  0 <= h_PN h <= MAX_SAFE_INTEGER /\ 0 <= e <= MAX_U64.

Lemma MAX_SAFE_u64 : MAX_SAFE_INTEGER <= MAX_U64.
Proof. by vm_compute. Qed.

Lemma packChunk_iff h nonce e out :
  packChunkFrameHeader h nonce e = Ok out <->
  encodable h nonce e /\ out = cell_header FRAME_TYPE_CHUNK (h_dhPub h) (h_N h) (h_PN h) e nonce.
Proof.
  unfold packChunkFrameHeader, writeU64BE, writeEpochU64BE, encodable. split.
  - intros H. binds H. binds E1. binds E2. binds E3.
    rewrite require_ok in E, E0, E4, E5, E6.
    rewrite andb_true_iff, !Z.leb_le in E4, E5. rewrite is_u64_spec in E6.
    apply Z.eqb_eq in E, E0. split; [done|]. subst. by apply cell_writes.
  - intros ((Hd & Hn & HN & HP & He) & ->).
    rewrite (proj2 (require_ok (blen (h_dhPub h) =? _) _)) by (by apply Z.eqb_eq).
    rewrite (proj2 (require_ok (blen nonce =? _) _)) by (by apply Z.eqb_eq).
    rewrite !(proj2 (require_ok (_ && _) _)) by (rewrite andb_true_iff, !Z.leb_le; lia).
    rewrite (proj2 (require_ok (is_u64 e) _)) by (by apply is_u64_spec).
    cbn [mbind result_bind]. f_equal. by apply cell_writes.
Qed.

Lemma parseChunk_iff frame p :
  parseChunkFrameHeader frame = Ok p <->
  encodable (pf_header p) (pf_nonce p) (pf_pqEpoch p) /\
  frame = cell_header FRAME_TYPE_CHUNK (h_dhPub (pf_header p)) (h_N (pf_header p))
            (h_PN (pf_header p)) (pf_pqEpoch p) (pf_nonce p) ++ pf_ciphertext p.
Proof.
  pose proof MAX_SAFE_u64. unfold parseChunkFrameHeader, readU64BE. split.
  - intros H0. binds H0. binds E1. binds E2. rewrite require_ok in E, E0, E3, E4.
    apply negb_true_iff, Z.ltb_ge in E, E3, E4. apply bool_decide_eq_true in E0.
    change CHUNK_FRAME_HEADER_LEN with 69 in E. subst. cbn.
    pose proof (get_u64_range frame 33). pose proof (get_u64_range frame 41).
    pose proof (get_u64_range frame 49). split.
    + unfold encodable. cbn. change (DHPUB_OFF + RATCHET_DHPUB_LEN) with 33.
      change (NONCE_OFF + RATCHET_NONCE_LEN) with 69. change DHPUB_OFF with 1.
      change NONCE_OFF with 57. change N_OFF with 33 in *. change PN_OFF with 41 in *.
      change PQ_EPOCH_OFF with 49. unfold readEpochU64BE. blen.
    + by apply cell_split.
  - intros ((Hd & Hn & HN & HP & He) & ->).
    destruct (cell_fields FRAME_TYPE_CHUNK (h_dhPub (pf_header p)) (h_N (pf_header p))
      (h_PN (pf_header p)) (pf_pqEpoch p) (pf_nonce p) (pf_ciphertext p))
      as (H1 & H2 & H3 & H4 & H5 & H6 & H7 & _); try done; try lia.
    rewrite (proj2 (require_ok (negb (blen _ <? _)) _)).
    2: { apply negb_true_iff, Z.ltb_ge. blen. pose proof (blen_nonneg (pf_ciphertext p)).
         change CHUNK_FRAME_HEADER_LEN with 69. lia. }
    rewrite H1. unfold readEpochU64BE. change N_OFF with 33. change PN_OFF with 41.
    change PQ_EPOCH_OFF with 49. rewrite H3, H4, H5.
    rewrite bool_decide_true by done. cbn [mbind result_bind].
    rewrite !(proj2 (require_ok (negb _) _)) by (apply negb_true_iff, Z.ltb_ge; lia).
    cbn [mbind result_bind require]. f_equal.
    change (DHPUB_OFF + RATCHET_DHPUB_LEN) with 33. change DHPUB_OFF with 1.
    change (NONCE_OFF + RATCHET_NONCE_LEN) with 69. change NONCE_OFF with 57.
    change CHUNK_FRAME_HEADER_LEN with 69. rewrite H2, H6, H7.
    by destruct p as [[] ? ? ?].
Qed.

(** ** Receipts *)

Definition encodeReceiptFrame (token : bytes) : result FrameError bytes :=
  require (blen token =? RECEIPT_TOKEN_LEN) BadToken;;
  let frame := zeros WIRE_RECEIPT_FRAME_LEN in
  let frame := bset frame 0 [byte_of FRAME_TYPE_RECEIPT] in
  Ok (bset frame 1 token).
Definition decodeReceiptFrame (frame : bytes) : option bytes :=
  if (blen frame =? WIRE_RECEIPT_FRAME_LEN) && bool_decide (at_ frame 0 = Some FRAME_TYPE_RECEIPT)
  then Some (slice_from frame 1) else None.

(** ** Classification *)

Record ClassifiedFrame := { cf_type : Z; cf_payload : bytes }.

Definition classifyFrame (data : bytes) : ClassifiedFrame :=
  let candidate :=
    if FRAME_TYPE_LEN <=? blen data then default (-1) (at_ data 0) else -1 in
  let type_ :=
    if (candidate =? FRAME_TYPE_RECEIPT) && negb (blen data =? WIRE_RECEIPT_FRAME_LEN)
    then -1 else candidate in
  {| cf_type := type_;
     cf_payload := if type_ =? -1 then slice_from data (blen data)
                   else slice_from data FRAME_TYPE_LEN |}.

Lemma encodeReceipt_ok token : blen token = RECEIPT_TOKEN_LEN ->
  encodeReceiptFrame token = Ok (byte_of FRAME_TYPE_RECEIPT :: token).
Proof.
  intros Ht. unfold encodeReceiptFrame. rewrite (proj2 (require_ok _ _)) by (by apply Z.eqb_eq).
  cbn [mbind result_bind]. f_equal. change WIRE_RECEIPT_FRAME_LEN with 65.
  change RECEIPT_TOKEN_LEN with 64 in Ht.
  rewrite bset_zeros by blen. rewrite bset_append by blen. rewrite zeros_0 by blen.
  by rewrite app_nil_r.
Qed.

(** ** Theorems *)

(** Chunk frames round trip: a header packs exactly when its key, nonce and
    counters fit the wire (32 and 12 bytes, counters up to 2^53 - 1, epoch up to
    2^64 - 1), and parsing the packed header followed by any ciphertext returns
    that header, epoch, nonce and ciphertext. *)
Theorem chunk_frame_roundtrip h nonce e ciphertext :
  (is_ok (packChunkFrameHeader h nonce e) = true <-> encodable h nonce e) /\
  forall out, packChunkFrameHeader h nonce e = Ok out ->
    parseChunkFrameHeader (out ++ ciphertext) =
      Ok {| pf_header := h; pf_pqEpoch := e; pf_nonce := nonce; pf_ciphertext := ciphertext |}.
Proof.
  split; [split|].
  - destruct (packChunkFrameHeader h nonce e) as [out|] eqn:H; [|done].
    by apply packChunk_iff in H as [? _].
  - intros H. by rewrite (proj2 (packChunk_iff h nonce e _) (conj H eq_refl)).
  - intros out [H ->]%packChunk_iff. by apply parseChunk_iff.
Qed.

(** Chunk frames are canonical: whatever bytes a peer sends, if they parse,
    packing the parsed fields gives back exactly those bytes, and the counters
    are safe integers. *)
Theorem chunk_frame_canonical frame p :
  parseChunkFrameHeader frame = Ok p ->
  exists out, packChunkFrameHeader (pf_header p) (pf_nonce p) (pf_pqEpoch p) = Ok out /\
    frame = out ++ pf_ciphertext p /\
    0 <= h_N (pf_header p) <= MAX_SAFE_INTEGER /\ 0 <= h_PN (pf_header p) <= MAX_SAFE_INTEGER.
Proof.
  intros [H ->]%parseChunk_iff. eexists. split; [by apply packChunk_iff|].
  split; [done|]. by destruct H as (_ & _ & ? & ? & _).
Qed.

(** Receipts: the encoder accepts exactly 64-byte tokens; a frame decodes
    to a token exactly when it is the encoding of that token, and exactly the
    frames that decode are classified as receipts. *)
Theorem receipt_frame_canonical frame token :
  (decodeReceiptFrame frame = Some token <-> encodeReceiptFrame token = Ok frame) /\
  (is_Some (decodeReceiptFrame frame) <-> cf_type (classifyFrame frame) = FRAME_TYPE_RECEIPT).
Proof.
  unfold decodeReceiptFrame. split; [split|].
  - intros H. destruct (_ && _) eqn:Hc; [|done]. apply andb_true_iff in Hc as [Hl Ht].
    apply Z.eqb_eq in Hl. apply bool_decide_eq_true in Ht. injection H as <-.
    change WIRE_RECEIPT_FRAME_LEN with 65 in Hl.
    rewrite encodeReceipt_ok by (blen; change RECEIPT_TOKEN_LEN with 64; lia). f_equal.
    change (byte_of FRAME_TYPE_RECEIPT :: slice_from frame 1)
      with ([byte_of FRAME_TYPE_RECEIPT] ++ slice_from frame 1).
    rewrite <- (slice_one frame 0), <- (slice_to_end frame 1 (blen frame)) by (done || lia).
    rewrite <- slice_split by lia. by apply slice_all.
  - intros H. pose proof H as H'. unfold encodeReceiptFrame in H. binds H.
    apply require_ok, Z.eqb_eq in E. rewrite encodeReceipt_ok in H' by done. apply Ok_inj in H'.
    rewrite <- H'. change RECEIPT_TOKEN_LEN with 64 in E.
    rewrite (proj2 (Z.eqb_eq _ _)) by (blen; change WIRE_RECEIPT_FRAME_LEN with 65; lia).
    done.
  - unfold classifyFrame. cbn [cf_type]. change FRAME_TYPE_LEN with 1.
    change WIRE_RECEIPT_FRAME_LEN with 65.
    destruct (Z.eqb_spec (blen frame) 65) as [Hl|Hl]; cbn [andb negb].
    + rewrite (proj2 (Z.leb_le _ _)) by lia. rewrite andb_false_r.
      destruct (at_ frame 0) as [z|]; cbn.
      * case_bool_decide; split; naive_solver.
      * split; [by intros []|done].
    + rewrite andb_true_r. split; [by intros []|].
      destruct (Z.eqb_spec (if 1 <=? blen frame then default (-1) (at_ frame 0) else -1)
        FRAME_TYPE_RECEIPT); done.
Qed.
