(* ===== verification/PqMessageKey.v ===== *)
(** * Message keys bound to the post-quantum epoch
      ([src/src/cryptography/pqMessageKey.ts])

    A chunk key combines one classical ratchet key with the current healing
    root.  The HKDF info encodes the suite, the edge, the epoch and the ratchet
    header.  [combinePqMessageKey] consumes its key argument: the model returns
    the contents of that buffer after the call next to the outcome. *)

From Stdlib Require Import String.
From S2P Require Import Prelude Bytes Constants Crypto X25519 Ratchet.
Local Open Scope Z_scope.
Local Open Scope list_scope.

Record PqMessageKeyContext := {
  ctx_rootKey : bytes;
  ctx_binding : bytes;
  ctx_rootSuite : string;
  ctx_epoch : Z;
}.

Definition PQ_MESSAGE_KEY_BYTES : Z := crypto_aead_chacha20poly1305_ietf_KEYBYTES.
Definition PQ_MESSAGE_KEY_ROOT_BYTES : Z := 32.
Definition PQ_MESSAGE_KEY_BINDING_BYTES : Z := 32.
Definition DOMAIN : bytes := text "p2party/pq-message-key/v1" ++ [byte_of 0].

Inductive PqKeyError :=
  | BadLength | CounterRange | EpochRange | UnsupportedRootSuite | SuiteTooLong | AliasedRoot
  | KeyCrypto (e : CryptoError).

Definition keyRequireBytes (value : bytes) (length : Z) : result PqKeyError unit :=
  require (blen value =? length) BadLength.
Definition requireCounter (value : Z) : result PqKeyError unit :=
  require ((value <=? MAX_SAFE_INTEGER) && (0 <=? value)) CounterRange.
Definition requireEpoch (value : Z) : result PqKeyError unit := require (is_u64 value) EpochRange.

(** [viewsOverlap] of two views: their buffers' identities, offsets, lengths. *)
Record view := { v_buffer : Z; v_byteOffset : Z; v_byteLength : Z }.
Definition viewsOverlap (a b : view) : bool :=
  (v_buffer a =? v_buffer b)
  && (v_byteOffset a <? v_byteOffset b + v_byteLength b)
  && (v_byteOffset b <? v_byteOffset a + v_byteLength a).

Definition put_u16 (buf : bytes) (off v : Z) : bytes := bset buf off (be_encode 2 v).

Definition encodeInfo (context : PqMessageKeyContext) (header : RatchetHeader) :
  result PqKeyError bytes :=
  require (isRatchetRootSuite (ctx_rootSuite context)) UnsupportedRootSuite;;
  keyRequireBytes (ctx_rootKey context) PQ_MESSAGE_KEY_ROOT_BYTES;;
  keyRequireBytes (ctx_binding context) PQ_MESSAGE_KEY_BINDING_BYTES;;
  requireEpoch (ctx_epoch context);;
  keyRequireBytes (h_dhPub header) RATCHET_DHPUB_LEN;;
  requireCounter (h_N header);;
  requireCounter (h_PN header);;
  let suite := text (ctx_rootSuite context) in
  require (negb (0xffff <? blen suite)) SuiteTooLong;;
  let length := blen DOMAIN + 2 + blen suite + PQ_MESSAGE_KEY_BINDING_BYTES + 8 + 1
                + RATCHET_DHPUB_LEN + 8 + 8 in
  let info := zeros length in
  let offset := 0 in
  let info := bset info offset DOMAIN in
  let offset := offset + blen DOMAIN in
  let info := put_u16 info offset (blen suite) in
  let offset := offset + 2 in
  let info := bset info offset suite in
  let offset := offset + blen suite in
  let info := bset info offset (ctx_binding context) in
  let offset := offset + PQ_MESSAGE_KEY_BINDING_BYTES in
  let info := put_u64 info offset (ctx_epoch context) in
  let offset := offset + 8 in
  let info := bset info offset [byte_of FRAME_TYPE_CHUNK] in
  let offset := offset + 1 in
  let info := bset info offset (h_dhPub header) in
  let offset := offset + RATCHET_DHPUB_LEN in
  let info := put_u64 info offset (h_N header) in
  let offset := offset + 8 in
  Ok (put_u64 info offset (h_PN header)).

Section Combine.
Context {C : LibCrypto}.

Definition derive_message_key (classicalMessageKey : bytes) (context : PqMessageKeyContext)
    (header : RatchetHeader) : result PqKeyError bytes :=
  keyRequireBytes classicalMessageKey PQ_MESSAGE_KEY_BYTES;;
  info ← encodeInfo context header;
  prk ← map_err KeyCrypto (hkdfExtract (ctx_rootKey context) classicalMessageKey);
  map_err KeyCrypto (hkdfExpand prk info PQ_MESSAGE_KEY_BYTES).

(** The [try] block and its [finally]: the outcome and the consumed buffer. *)
Definition combine_owned (classicalMessageKey : bytes) (context : PqMessageKeyContext)
    (header : RatchetHeader) : result PqKeyError bytes * bytes :=
  (derive_message_key classicalMessageKey context header, zeros (blen classicalMessageKey)).

(** [key_view] and [root_view] are the memory of the key and of the live root. *)
Definition combinePqMessageKey (key_view root_view : view) (classicalMessageKey : bytes)
    (context : PqMessageKeyContext) (header : RatchetHeader) :
  result PqKeyError bytes * bytes :=
  if viewsOverlap key_view root_view then (Err AliasedRoot, classicalMessageKey)
  else combine_owned classicalMessageKey context header.
End Combine.

(** ** Lemmas *)

Definition fits (c : PqMessageKeyContext) (h : RatchetHeader) : Prop :=
  isRatchetRootSuite (ctx_rootSuite c) = true /\ blen (ctx_rootKey c) = 32 /\
  blen (ctx_binding c) = 32 /\ 0 <= ctx_epoch c <= MAX_U64 /\ blen (h_dhPub h) = 32 /\
  0 <= h_N h <= MAX_SAFE_INTEGER /\ 0 <= h_PN h <= MAX_SAFE_INTEGER.

Definition info_bytes (c : PqMessageKeyContext) (h : RatchetHeader) : bytes :=
  let suite := text (ctx_rootSuite c) in
  DOMAIN ++ be_encode 2 (blen suite) ++ suite ++ ctx_binding c ++ be_encode 8 (ctx_epoch c)
  ++ [byte_of FRAME_TYPE_CHUNK] ++ h_dhPub h ++ be_encode 8 (h_N h) ++ be_encode 8 (h_PN h).

(** The three suite names are short. *)
Lemma suite_length s : isRatchetRootSuite s = true -> 30 <= blen (text s) <= 31.
Proof.
  unfold isRatchetRootSuite. rewrite bool_decide_eq_true. cbn.
  intros [->|[->|[->|[]%elem_of_nil]%elem_of_cons]%elem_of_cons]%elem_of_cons; vm_compute; done.
Qed.

Lemma info_writes c h : fits c h ->
  let suite := text (ctx_rootSuite c) in
  let info := bset (zeros (blen DOMAIN + 2 + blen suite + 32 + 8 + 1 + 32 + 8 + 8)) 0 DOMAIN in
  let o := 0 + blen DOMAIN in let info := put_u16 info o (blen suite) in
  let o := o + 2 in let info := bset info o suite in
  let o := o + blen suite in let info := bset info o (ctx_binding c) in
  let o := o + 32 in let info := put_u64 info o (ctx_epoch c) in
  let o := o + 8 in let info := bset info o [byte_of FRAME_TYPE_CHUNK] in
  let o := o + 1 in let info := bset info o (h_dhPub h) in
  let o := o + 32 in let info := put_u64 info o (h_N h) in
  let o := o + 8 in put_u64 info o (h_PN h) = info_bytes c h.
Proof.
  intros (Hs & _ & Hb & _ & Hd & _). cbv zeta. pose proof (suite_length _ Hs) as Hl.
  assert (blen DOMAIN = 26) as HD by done.
  unfold put_u16, put_u64, info_bytes. rewrite bset_zeros by blen.
  repeat rewrite bset_append by blen.
  match goal with |- _ ++ zeros ?k = _ => rewrite (zeros_0 k) by blen end.
  by rewrite app_nil_r, <- !app_assoc.
Qed.

Lemma encodeInfo_iff c h info : encodeInfo c h = Ok info <-> fits c h /\ info = info_bytes c h.
Proof.
  split.
  - intros H. unfold encodeInfo in H. binds H. unfold keyRequireBytes, requireEpoch, requireCounter in *.
    rewrite require_ok in E, E0, E1, E2, E3, E4, E5. apply Z.eqb_eq in E0, E1, E3.
    rewrite is_u64_spec in E2. rewrite andb_true_iff, !Z.leb_le in E4, E5.
    assert (fits c h) as Hf by (unfold fits; split_and!; done || lia).
    split; [done|]. rewrite <- H. by apply info_writes.
  - intros [Hf ->]. pose proof Hf as (Hs & Hr & Hb & He & Hd & HN & HP).
    unfold encodeInfo, keyRequireBytes, requireEpoch, requireCounter.
    change PQ_MESSAGE_KEY_ROOT_BYTES with 32. change PQ_MESSAGE_KEY_BINDING_BYTES with 32.
    change RATCHET_DHPUB_LEN with 32.
    rewrite Hs, (proj2 (Z.eqb_eq _ _) Hr), (proj2 (Z.eqb_eq _ _) Hb), (proj2 (Z.eqb_eq _ _) Hd).
    rewrite (proj2 (is_u64_spec _) He), !(proj2 (Z.leb_le _ _)) by lia.
    pose proof (suite_length _ Hs). rewrite (proj2 (Z.ltb_ge _ _)) by lia.
    cbn [mbind result_bind require andb negb]. f_equal. by apply info_writes.
Qed.

Lemma text_inj s s' : text s = text s' -> s = s'.
Proof.
  unfold text. intros H. rewrite <- (string_of_list_byte_of_string s), H.
  apply string_of_list_byte_of_string.
Qed.

Lemma app_split {A} (l l' k k' : list A) : blen l = blen l' -> l ++ k = l' ++ k' -> l = l' /\ k = k'.
Proof. intros Hl. apply app_inj_1. unfold blen in Hl. lia. Qed.

Lemma derive_message_key_length {C : LibCrypto} key c h k :
  derive_message_key key c h = Ok k -> blen k = PQ_MESSAGE_KEY_BYTES.
Proof.
  intros H. unfold derive_message_key in H. binds H. destruct (hkdfExpand _ _ _) eqn:Hx; [|done].
  apply Ok_inj in H. subst k. by apply hkdfExpand_length in Hx.
Qed.

Lemma derive_message_key_spec {C : LibCrypto} `{!HkdfTotal C} key c h :
  (is_ok (derive_message_key key c h) = true <-> blen key = PQ_MESSAGE_KEY_BYTES /\ fits c h) /\
  (forall k, derive_message_key key c h = Ok k -> blen k = PQ_MESSAGE_KEY_BYTES).
Proof.
  split; [|apply derive_message_key_length]. unfold derive_message_key. split.
  - destruct (keyRequireBytes key _) as [[]|] eqn:Hk; [|done].
    apply require_ok, Z.eqb_eq in Hk. cbn [mbind result_bind].
    destruct (encodeInfo c h) as [info|] eqn:Hi; [|done]. by apply encodeInfo_iff in Hi as [? _].
  - intros [Hk Hf]. unfold keyRequireBytes. rewrite (proj2 (Z.eqb_eq _ _) Hk). cbn [require mbind result_bind].
    rewrite (proj2 (encodeInfo_iff c h _) (conj Hf eq_refl)). cbn [mbind result_bind].
    destruct (hkdf_total (ctx_rootKey c) key (info_bytes c h) PQ_MESSAGE_KEY_BYTES ltac:(done)) as (prk & okm & -> & Hx).
    cbn [map_err mbind result_bind]. by rewrite Hx.
Qed.

(** ** Theorems *)

(** The HKDF info of a message key determines the suite, the edge binding,
    the epoch and the ratchet header: two chunk keys are derived under the same
    info only for the same message of the same edge and epoch. *)
Theorem message_key_info_injective c c' h h' info :
  encodeInfo c h = Ok info -> encodeInfo c' h' = Ok info ->
  ctx_rootSuite c = ctx_rootSuite c' /\ ctx_binding c = ctx_binding c' /\
  ctx_epoch c = ctx_epoch c' /\ h = h'.
Proof.
  intros [Hf ->]%encodeInfo_iff [Hf' H]%encodeInfo_iff.
  destruct Hf as (Hs & _ & Hb & He & Hd & HN & HP). destruct Hf' as (Hs' & _ & Hb' & He' & Hd' & HN' & HP').
  pose proof (suite_length _ Hs). pose proof (suite_length _ Hs').
  assert (MAX_SAFE_INTEGER <= MAX_U64) by (by vm_compute).
  unfold info_bytes in H. apply app_split in H as [_ H]; [|done].
  apply app_split in H as [K0 H]; [|by rewrite !blen_be_encode].
  apply (f_equal be_decode) in K0. rewrite !be_decode_encode, !Z.mod_small in K0 by lia.
  apply app_split in H as [K1 H]; [|done]. apply text_inj in K1.
  apply app_split in H as [K2 H]; [|congruence].
  apply app_split in H as [K3 H]; [|by rewrite !blen_be_encode].
  apply app_split in H as [_ H]; [|done]. apply app_split in H as [K4 H]; [|congruence].
  apply app_split in H as [K5 K6]; [|by rewrite !blen_be_encode].
  apply (f_equal be_decode) in K3, K5, K6. rewrite !be_decode_u64 in K3, K5, K6 by lia.
  split_and!; try done. destruct h, h'. cbn in *. congruence.
Qed.

(** Consuming a classical key: if it shares memory with the live root the
    call is refused before anything is touched; otherwise its buffer is zeroed
    on every path, success or throw, and with an HKDF that answers the call
    returns exactly on 32-byte keys and fitting contexts, with a 32-byte key. *)
Theorem combine_consumes_key {C : LibCrypto} `{!HkdfTotal C} kv rv key c h :
  let '(r, after) := combinePqMessageKey kv rv key c h in
  (viewsOverlap kv rv = true -> r = Err AliasedRoot /\ after = key) /\
  (viewsOverlap kv rv = false ->
   after = zeros (blen key) /\
   (is_ok r = true <-> blen key = PQ_MESSAGE_KEY_BYTES /\ fits c h) /\
   (forall k, r = Ok k -> blen k = PQ_MESSAGE_KEY_BYTES)).
Proof.
  unfold combinePqMessageKey. destruct (viewsOverlap kv rv); [done|]. cbn [combine_owned].
  split; [done|]. intros _. split; [done|]. apply derive_message_key_spec.
Qed.
