(* ===== verification/Merkle.v ===== *)
(** * Merkle trees of message chunks

    [src/src/cryptography/merkle.ts] and [src/src/utils/leafHash.ts], with the
    C functions of [src/src/cryptography/merkle.c] that they call.  The C code
    hashes the levels of the tree in place in one array of 64-byte blocks; the
    model keeps that array, the two indices of its inner loop and its order of
    reads and writes.  SHA-512 comes from libsodium and from WebCrypto, which
    are not part of the sources: it is the class [Sha512].

    The [while] loops run on fuel: [leaves] at least halves (rounding up) in a
    turn, so [LEAVES_LEN] turns are enough ([root_loop_spec]).  The [unsigned]
    block counts do not wrap: 2^32 blocks of 64 bytes do not fit the module's
    memory. *)

From stdpp Require Import sets.
From S2P Require Import Prelude Bytes Constants Crypto.
Local Open Scope Z_scope.

(** [crypto_hash_sha512]: status and digest; [crypto.subtle.digest]. *)
Class Sha512 := {
  crypto_hash_sha512 : bytes -> Z * bytes;
  subtle_digest_sha512 : bytes -> bytes;
}.

(** What the code relies on: libsodium's hash always returns 0 and is the same
    function as WebCrypto's, with 64-byte digests. *)
Class Sha512Correct (HS : Sha512) : Prop := {
  sha512_agree x : crypto_hash_sha512 x = (0, subtle_digest_sha512 x);
  sha512_length x : blen (subtle_digest_sha512 x) = crypto_hash_sha512_BYTES;
}.

Inductive MerkleError :=
  | HashesNotPassed | NoLeaves | ElementNotInTree | BadProofLength | BadPosition
  | AllocFailed | HashFailed | LeafHashFailed | SingleArtifact | MerkleRangeError | Unexpected.

Definition MERKLE_NODE_DOMAIN : Z := 1.
Definition MERKLE_LEAF_DOMAIN : Z := 0.
Definition ARTIFACT_BYTES : Z := crypto_hash_sha512_BYTES + 1.

(** The 64-byte blocks of a buffer. *)
Fixpoint blocks (n : nat) (l : bytes) : list bytes :=
  match n with
  | O => []
  | S n' => slice l 0 crypto_hash_sha512_BYTES :: blocks n' (slice_from l crypto_hash_sha512_BYTES)
  end.

Notation "'block' arr i" := (nth i%nat arr []) (at level 10, arr at level 9, i at level 9).

Section Merkle.
Context {HS : Sha512}.

(** ** merkle.c *)

Definition hash_node (left right : bytes) : Z * bytes :=
  let '(res, out) := crypto_hash_sha512 (byte_of MERKLE_NODE_DOMAIN :: left ++ right) in
  (res, region crypto_hash_sha512_BYTES out).

(** The [for] loop of one level, [n] turns left. *)
Fixpoint root_level (n i j leaves : nat) (arr : list bytes) : option (list bytes) :=
  match n with
  | O => Some arr
  | S n' =>
      if Nat.odd leaves && (i + 1 =? leaves)%nat then
        root_level n' (i + 2) (j + 1) leaves (<[j := block arr i]> arr)
      else
        let '(res, h) := hash_node (block arr i) (block arr (i + 1)) in
        if negb (res =? 0) then None
        else root_level n' (i + 2) (j + 1) leaves (<[j := h]> arr)
  end.

(** The [while] loop. *)
Fixpoint root_loop (fuel leaves : nat) (arr : list bytes) : option (list bytes) :=
  if (leaves <=? 1)%nat then Some arr
  else match fuel with
       | O => None
       | S fuel' =>
           arr' ← root_level ((leaves + 1) / 2) 0 0 leaves arr;
           root_loop fuel' ((leaves + 1) / 2) arr'
       end.

Definition get_merkle_root (leaves_hashed : list bytes) : Z * bytes :=
  let LEAVES_LEN := length leaves_hashed in
  match root_loop LEAVES_LEN LEAVES_LEN leaves_hashed with
  | None => (-2, [])
  | Some arr => (0, block arr 0)
  end.

(** One level of [get_merkle_proof]: the array, the artifacts written so far
    and [element_of_interest]. *)
Fixpoint proof_level (n i j leaves : nat) (arr : list bytes) (proof : bytes) (element : nat) :
  option (list bytes * bytes * nat) :=
  match n with
  | O => Some (arr, proof, element)
  | S n' =>
      if Nat.odd leaves && (i + 1 =? leaves)%nat then
        proof_level n' (i + 2) (j + 1) leaves (<[j := block arr i]> arr) proof
          (if (i =? element)%nat then j else element)
      else
        let '(proof', element') :=
          if (i =? element)%nat then (proof ++ block arr (i + 1) ++ [byte_of 1], j)
          else if (i + 1 =? element)%nat then (proof ++ block arr i ++ [byte_of 0], j)
          else (proof, element) in
        let '(res, h) := hash_node (block arr i) (block arr (i + 1)) in
        if negb (res =? 0) then None
        else proof_level n' (i + 2) (j + 1) leaves (<[j := h]> arr) proof' element'
  end.

Fixpoint proof_loop (fuel leaves : nat) (arr : list bytes) (proof : bytes) (element : nat) :
  option bytes :=
  if (leaves <=? 1)%nat then Some proof
  else match fuel with
       | O => None
       | S fuel' =>
           '(arr', proof', element') ← proof_level ((leaves + 1) / 2) 0 0 leaves arr proof element;
           proof_loop fuel' ((leaves + 1) / 2) arr' proof' element'
       end.

(** The length of the proof in bytes, or a negative code. *)
Definition get_merkle_proof (leaves_hashed : list bytes) (element_hash : bytes) : Z * bytes :=
  let LEAVES_LEN := length leaves_hashed in
  match list_find (fun h => h = element_hash) leaves_hashed with
  | None => (-1, [])
  | Some (index, _) =>
      match proof_loop LEAVES_LEN LEAVES_LEN leaves_hashed [] index with
      | None => (-3, [])
      | Some proof => (blen proof, proof)
      end
  end.

(** Artifact [i] of a proof; the loops below walk the artifacts in order. *)
Definition artifact (proof : bytes) : bytes := slice proof 0 crypto_hash_sha512_BYTES.
Definition position (proof : bytes) : Z := default 0 (at_ proof crypto_hash_sha512_BYTES).
Definition next_artifact (proof : bytes) : bytes := slice_from proof ARTIFACT_BYTES.

Fixpoint fold_proof (n : nat) (root proof : bytes) (bad_position bad_hash : Z) : Z * bytes :=
  match n with
  | O => (0, root)
  | S n' =>
      if negb (position proof =? 0) && negb (position proof =? 1) then (bad_position, root)
      else
        let '(res, h) := if position proof =? 0 then hash_node (artifact proof) root
                         else hash_node root (artifact proof) in
        if negb (res =? 0) then (bad_hash, h)
        else fold_proof n' h (next_artifact proof) bad_position bad_hash
  end.

Definition get_merkle_root_from_proof (PROOF_ARTIFACTS_LEN : nat) (element_hash proof : bytes) :
  Z * bytes :=
  if (PROOF_ARTIFACTS_LEN =? 1)%nat && bytesEqual (artifact proof) element_hash
  then (0, element_hash)
  else fold_proof PROOF_ARTIFACTS_LEN element_hash proof (-2) (-3).

Definition verify_merkle_proof (PROOF_ARTIFACTS_LEN : nat) (element_hash root proof : bytes) : Z :=
  if (PROOF_ARTIFACTS_LEN =? 1)%nat && bytesEqual root element_hash then 0
  else
    let '(code, folded) := fold_proof PROOF_ARTIFACTS_LEN element_hash proof (-3) (-4) in
    if negb (code =? 0) then code else if bytesEqual folded root then 0 else 1.

(** ** leafHash.ts *)

Definition hashMerkleLeafWasm (chunk : bytes) : result MerkleError bytes :=
  let '(res, out) := crypto_hash_sha512 (byte_of MERKLE_LEAF_DOMAIN :: chunk) in
  if negb (res =? 0) then Err LeafHashFailed else Ok (region crypto_hash_sha512_BYTES out).

Definition hashMerkleLeaf (chunk : bytes) : bytes :=
  subtle_digest_sha512 (byte_of MERKLE_LEAF_DOMAIN :: chunk).

(** ** merkle.ts *)

Definition tree_blocks (treeHashes : bytes) : list bytes :=
  blocks (Z.to_nat (blen treeHashes / crypto_hash_sha512_BYTES)) treeHashes.

Definition getMerkleRoot (treeHashes : bytes) : result MerkleError bytes :=
  require (blen treeHashes mod crypto_hash_sha512_BYTES =? 0) HashesNotPassed;;
  let treeLen := blen treeHashes / crypto_hash_sha512_BYTES in
  if treeLen =? 0 then Err NoLeaves
  else if treeLen =? 1 then Ok treeHashes
  else
    let '(result, rootWasm) := get_merkle_root (tree_blocks treeHashes) in
    if result =? 0 then Ok rootWasm
    else if result =? -1 then Err AllocFailed
    else if result =? -2 then Err HashFailed
    else Err Unexpected.

(** [proofArray]: [fixedLen] random bytes, then the length and the proof
    written over their front.  The view and [set] throw when they do not fit. *)
Definition fixed_proof (fixedLen : Z) (noise proof : bytes) : result MerkleError bytes :=
  require (4 <=? fixedLen) MerkleRangeError;;
  let proofArray := put_u32 (region fixedLen noise) 0 (blen proof) in
  require (4 + blen proof <=? fixedLen) MerkleRangeError;;
  Ok (bset proofArray 4 proof).

(** [proofFixedLen] is 0 when the argument is absent, as both are falsy. *)
Definition getMerkleProof (treeHashes elementHash : bytes) (proofFixedLen : Z) (noise : bytes) :
  result MerkleError bytes :=
  require (blen treeHashes mod crypto_hash_sha512_BYTES =? 0) HashesNotPassed;;
  let treeLen := blen treeHashes / crypto_hash_sha512_BYTES in
  if treeLen =? 0 then Err NoLeaves
  else if treeLen =? 1 then
    require (blen elementHash <=? ARTIFACT_BYTES) MerkleRangeError;;
    let proof := bset (zeros ARTIFACT_BYTES) 0 elementHash in
    if negb (proofFixedLen =? 0) then fixed_proof proofFixedLen noise proof else Ok proof
  else
    require (blen elementHash <=? crypto_hash_sha512_BYTES) MerkleRangeError;;
    let '(result, proof) := get_merkle_proof (tree_blocks treeHashes) elementHash in
    if result =? -1 then Err ElementNotInTree
    else if result =? -2 then Err AllocFailed
    else if result =? -3 then Err HashFailed
    else if 0 <? result then
      if negb (proofFixedLen =? 0) && (result <=? proofFixedLen)
      then fixed_proof proofFixedLen noise (slice proof 0 result)
      else Ok (slice proof 0 result)
    else Err Unexpected.

Definition getMerkleRootFromProof (item proof : bytes) : result MerkleError bytes :=
  require (blen proof mod ARTIFACT_BYTES =? 0) BadProofLength;;
  let proofArtifactsLen := blen proof / ARTIFACT_BYTES in
  let '(result, rootArray) :=
    get_merkle_root_from_proof (Z.to_nat proofArtifactsLen) (hashMerkleLeaf item) proof in
  if result =? 0 then Ok rootArray
  else if result =? -1 then Err AllocFailed
  else if result =? -2 then Err BadPosition
  else if result =? -3 then Err HashFailed
  else Err Unexpected.

Definition verifyMerkleProof (item root proof : bytes) : result MerkleError bool :=
  require (blen proof mod ARTIFACT_BYTES =? 0) BadProofLength;;
  let proofArtifactsLen := blen proof / ARTIFACT_BYTES in
  elementHash ← hashMerkleLeafWasm item;
  require (blen root <=? crypto_hash_sha512_BYTES) MerkleRangeError;;
  let result := verify_merkle_proof (Z.to_nat proofArtifactsLen) elementHash
                  (region crypto_hash_sha512_BYTES root) proof in
  if result =? 0 then Ok true
  else if result =? 1 then Ok false
  else if result =? -1 then Err SingleArtifact
  else if result =? -2 then Err AllocFailed
  else if result =? -3 then Err BadPosition
  else if result =? -4 then Err HashFailed
  else Err Unexpected.
End Merkle.

(** ** The tree that the array holds *)

Section Levels.
Context {HS : Sha512} `{!Sha512Correct HS}.
Implicit Types (l arr : list bytes) (x y h : bytes) (e i j n : nat).

Definition node (left right : bytes) : bytes :=
  subtle_digest_sha512 (byte_of MERKLE_NODE_DOMAIN :: left ++ right).

Lemma hash_node_ok x y : hash_node x y = (0, node x y).
Proof.
  unfold hash_node. rewrite sha512_agree. f_equal. apply region_id. symmetry. apply sha512_length.
Qed.

(** The next level of the tree. *)
Fixpoint pair_up l : list bytes :=
  match l with
  | x :: y :: l' => node x y :: pair_up l'
  | _ => l
  end.

(** Induction two elements at a time. *)
Lemma pairs_ind {A} (P : list A -> Prop) :
  P [] -> (forall a : A, P [a]) -> (forall (a b : A) k, P k -> P (a :: b :: k)) -> forall k : list A, P k.
Proof.
  intros H0 H1 H2 l. enough (P l /\ forall a : A, P (a :: l)) by tauto.
  induction l as [|y l [IH IH']]; auto.
Qed.

Lemma length_pair_up l : length (pair_up l) = ((length l + 1) / 2)%nat.
Proof.
  induction l as [|x|x y l IH] using pairs_ind; [done|done|]. cbn [pair_up length]. rewrite IH.
  replace (S (S (length l)) + 1)%nat with (length l + 1 + 1 * 2)%nat by lia.
  rewrite Nat.div_add by lia. lia.
Qed.

(** What is left of a level, from block [i] on. *)
Definition rest leaves i arr : list bytes := take (leaves - i) (drop i arr).

Lemma rest_insert leaves i j h arr : (j < i)%nat -> rest leaves i (<[j := h]> arr) = rest leaves i arr.
Proof. intros. unfold rest. by rewrite drop_insert_lt. Qed.

Lemma rest_cons leaves i arr x l : (leaves <= length arr)%nat -> rest leaves i arr = x :: l ->
  (i < leaves)%nat /\ block arr i = x /\ rest leaves (i + 1) arr = l.
Proof.
  unfold rest. intros Hl H. assert (i < leaves)%nat as Hi.
  { destruct (decide (i < leaves)%nat); [done|]. by replace (leaves - i)%nat with 0%nat in H by lia. }
  destruct (drop i arr) as [|y d] eqn:Hd; [by rewrite take_nil in H|].
  pose proof (lookup_drop arr i 0) as Hy. rewrite Hd, Nat.add_0_r in Hy. cbn in Hy. symmetry in Hy.
  replace (leaves - i)%nat with (S (leaves - (i + 1))) in H by lia.
  cbn [take] in H. injection H as -> H. split; [done|]. split; [by apply nth_lookup_Some|].
  rewrite <- H. f_equal. rewrite <- drop_drop, Hd. done.
Qed.

Lemma rest_nil leaves i arr : (leaves <= length arr)%nat -> rest leaves i arr = [] -> (leaves <= i)%nat.
Proof.
  unfold rest. intros Hl H%(f_equal length). rewrite length_take, length_drop in H. cbn in H. lia.
Qed.

Lemma rest_0 leaves arr : rest leaves 0 arr = take leaves arr.
Proof. unfold rest. by rewrite Nat.sub_0_r, drop_0. Qed.

Lemma div2_SS n : ((n + 2) / 2 = S (n / 2))%nat.
Proof. replace (n + 2)%nat with (n + 1 * 2)%nat by lia. rewrite Nat.div_add by lia. lia. Qed.

(** The lone last block of an odd level. *)
Lemma lone_cond leaves i j : i = (2 * j)%nat -> (i + 1 = leaves)%nat ->
  Nat.odd leaves && (i + 1 =? leaves)%nat = true.
Proof.
  intros -> <-. rewrite Nat.eqb_refl, andb_true_r. apply Nat.odd_spec. by exists j.
Qed.

Lemma take_insert_next j h arr : (j < length arr)%nat -> take (j + 1) (<[j := h]> arr) = take j arr ++ [h].
Proof.
  intros. rewrite Nat.add_1_r, (take_S_r _ _ h) by (by apply list_lookup_insert_eq). f_equal. by apply take_insert_ge.
Qed.

(** A turn of the loop on a pair of blocks. *)
Lemma pair_turn leaves i j arr x y l :
  rest leaves i arr = x :: y :: l -> (leaves <= length arr)%nat -> i = (2 * j)%nat ->
  block arr i = x /\ block arr (i + 1) = y /\ (i + 1 < leaves)%nat /\
  Nat.odd leaves && (i + 1 =? leaves)%nat = false /\
  rest leaves (i + 2) (<[j := node x y]> arr) = l /\
  take (j + 1) (<[j := node x y]> arr) = take j arr ++ [node x y].
Proof.
  intros Hr Hla Hij. apply rest_cons in Hr as (Hi & Hx & Hr); [|done].
  apply rest_cons in Hr as (Hi1 & Hy & Hr); [|done]. split_and!; [done..| | |].
  - by rewrite (proj2 (Nat.eqb_neq (i + 1) leaves)), andb_false_r by lia.
  - rewrite rest_insert by lia. by rewrite <- Hr, <- Nat.add_assoc.
  - apply take_insert_next. lia.
Qed.

(** The number of turns of the loop. *)
Lemma turns_pair n (k : nat) : S n = ((S (S k) + 1) / 2)%nat -> n = ((k + 1) / 2)%nat.
Proof.
  replace (S (S k) + 1)%nat with (k + 1 + 2)%nat by lia. rewrite div2_SS. lia.
Qed.
Lemma turns_0 l : 0%nat = ((length l + 1) / 2)%nat -> l = [].
Proof.
  destruct l as [|x l]; [done|]. cbn [length].
  replace (S (length l) + 1)%nat with (length l + 2)%nat by lia. rewrite div2_SS. lia.
Qed.

(** The in-place loop computes the next level at the front of the array. *)
Lemma root_level_spec n : forall l i j leaves arr,
  rest leaves i arr = l -> i = (2 * j)%nat -> (leaves <= length arr)%nat ->
  n = ((length l + 1) / 2)%nat ->
  exists arr', root_level n i j leaves arr = Some arr' /\ length arr' = length arr /\
    take (j + n) arr' = take j arr ++ pair_up l.
Proof.
  induction n as [|n IH]; intros l i j leaves arr Hr Hij Hla Hn; cbn [root_level].
  - apply turns_0 in Hn as ->. exists arr. by rewrite Nat.add_0_r, app_nil_r.
  - destruct l as [|x [|y l]]; [done| |].
    + apply rest_cons in Hr as (Hi & -> & Hr%rest_nil); [|done|done].
      injection Hn as ->. rewrite (lone_cond leaves i j) by lia. cbn [root_level].
      exists (<[j := x]> arr). rewrite length_insert, take_insert_next by lia. done.
    + apply pair_turn with (j := j) in Hr as (-> & -> & Hi & -> & Hr & Ht); [|done|done].
      rewrite hash_node_ok. cbn [Z.eqb negb].
      destruct (IH l (i + 2)%nat (j + 1)%nat leaves (<[j := node x y]> arr)) as (arr' & Hl & Hlen & Ht');
        [done|lia|by rewrite length_insert|by apply turns_pair in Hn|].
      exists arr'. split; [exact Hl|]. rewrite length_insert in Hlen. split; [done|].
      replace (j + S n)%nat with (j + 1 + n)%nat by lia. by rewrite Ht', Ht, <- app_assoc.
Qed.

(** The artifact that block [e] of a level contributes to a proof. *)
Fixpoint sib l e : bytes :=
  match l, e with
  | x :: y :: _, 0%nat => y ++ [byte_of 1]
  | x :: y :: _, 1%nat => x ++ [byte_of 0]
  | _ :: _ :: l', S (S e') => sib l' e'
  | _, _ => []
  end.

Lemma proof_level_spec n : forall l i j leaves arr p e,
  rest leaves i arr = l -> i = (2 * j)%nat -> (leaves <= length arr)%nat -> (e < leaves)%nat ->
  n = ((length l + 1) / 2)%nat ->
  exists arr', length arr' = length arr /\ take (j + n) arr' = take j arr ++ pair_up l /\
    proof_level n i j leaves arr p e =
      Some (arr', p ++ (if (i <=? e)%nat then sib l (e - i) else []),
            if (i <=? e)%nat then (j + (e - i) / 2)%nat else e).
Proof.
  induction n as [|n IH]; intros l i j leaves arr p e Hr Hij Hla He Hn; cbn [proof_level].
  - apply turns_0 in Hn as ->. exists arr. rewrite Nat.add_0_r, app_nil_r. split; [done|]. split; [done|].
    apply rest_nil in Hr; [|done]. rewrite (proj2 (Nat.leb_gt i e)) by lia. by rewrite app_nil_r.
  - destruct l as [|x [|y l]]; [done| |].
    + apply rest_cons in Hr as (Hi & -> & Hr%rest_nil); [|done|done].
      injection Hn as ->. rewrite (lone_cond leaves i j) by lia. cbn [proof_level].
      exists (<[j := x]> arr). rewrite length_insert, take_insert_next by lia.
      split; [done|]. split; [done|]. destruct (Nat.eqb_spec i e) as [->|Hne].
      * rewrite Nat.leb_refl, Nat.sub_diag. cbn. by rewrite Nat.add_0_r, app_nil_r.
      * rewrite (proj2 (Nat.leb_gt i e)) by lia. by rewrite app_nil_r.
    + apply pair_turn with (j := j) in Hr as (-> & -> & Hi & -> & Hr & Ht); [|done|done].
      rewrite hash_node_ok. cbn [Z.eqb negb].
      destruct (IH l (i + 2)%nat (j + 1)%nat leaves (<[j := node x y]> arr)
        (if (i =? e)%nat then p ++ y ++ [byte_of 1] else if (i + 1 =? e)%nat then p ++ x ++ [byte_of 0] else p)
        (if (i =? e)%nat || (i + 1 =? e)%nat then j else e)) as (arr' & Hlen & Ht' & Hp);
        [done|lia|by rewrite length_insert|destruct (_ || _); lia|by apply turns_pair in Hn|].
      exists arr'. rewrite length_insert in Hlen. split; [done|]. split.
      { replace (j + S n)%nat with (j + 1 + n)%nat by lia. by rewrite Ht', Ht, <- app_assoc. }
      destruct (Nat.eqb_spec i e) as [->|Hne]; [|destruct (Nat.eqb_spec (i + 1) e) as [<-|Hne1]];
        cbn [orb] in Hp; rewrite Hp; clear Hp IH.
      * rewrite (proj2 (Nat.leb_gt (e + 2) j)), Nat.leb_refl, Nat.sub_diag by lia.
        cbn [sib]. by rewrite app_nil_r, Nat.add_0_r.
      * rewrite (proj2 (Nat.leb_gt (i + 2) j)), (proj2 (Nat.leb_le i (i + 1))) by lia.
        replace (i + 1 - i)%nat with 1%nat by lia. cbn [sib]. by rewrite app_nil_r, Nat.add_0_r.
      * destruct (Nat.leb_spec i e) as [Hie|Hie]; [|by rewrite (proj2 (Nat.leb_gt (i + 2) e)) by lia].
        rewrite (proj2 (Nat.leb_le (i + 2) e)) by lia.
        replace (e - i)%nat with (S (S (e - (i + 2)))) by lia. cbn [sib].
        replace (S (S (e - (i + 2)))) with (e - (i + 2) + 2)%nat by lia. rewrite div2_SS.
        do 2 f_equal; lia.
Qed.

(** ** Roots and paths *)

(** [reduces l r]: the levels above [l] end in the root [r]. *)
Inductive reduces : list bytes -> bytes -> Prop :=
  | reduces_one x : reduces [x] x
  | reduces_up l r : (2 <= length l)%nat -> reduces (pair_up l) r -> reduces l r.

(** [path l e p]: the artifacts of block [e] on its way to the root. *)
Inductive path : list bytes -> nat -> bytes -> Prop :=
  | path_one x : path [x] 0 []
  | path_up l e p : (2 <= length l)%nat -> path (pair_up l) (e / 2) p -> path l e (sib l e ++ p).

(** A level shrinks. *)
Lemma half_bounds n : (2 <= n)%nat -> (1 <= (n + 1) / 2 /\ (n + 1) / 2 < n)%nat.
Proof.
  intros. split; [apply Nat.div_le_lower_bound; lia|apply Nat.Div0.div_lt_upper_bound; lia].
Qed.

Lemma root_loop_spec fuel : forall leaves arr,
  (leaves <= fuel)%nat -> (1 <= leaves <= length arr)%nat ->
  exists arr', root_loop fuel leaves arr = Some arr' /\ reduces (take leaves arr) (block arr' 0).
Proof.
  induction fuel as [|fuel IH]; intros leaves arr Hf [H1 Hl]; [lia|]. cbn [root_loop].
  destruct (Nat.leb_spec leaves 1) as [Hle|Hgt].
  - exists arr. split; [done|]. assert (leaves = 1%nat) as -> by lia.
    destruct arr as [|x arr]; [cbn in Hl; lia|]. cbn. rewrite take_0. constructor.
  - destruct (half_bounds leaves) as [Hh1 Hh2]; [lia|].
    assert (length (take leaves arr) = leaves) as Hlen by (rewrite length_take; lia).
    destruct (root_level_spec ((leaves + 1) / 2) (take leaves arr) 0 0 leaves arr)
      as (arr1 & -> & Hl1 & Ht); [apply rest_0|done|done|by rewrite Hlen|].
    cbn [mbind option_bind]. destruct (IH ((leaves + 1) / 2)%nat arr1) as (arr' & -> & Hr); [lia|lia|].
    exists arr'. split; [done|]. cbn [Nat.add take app] in Ht. rewrite Ht in Hr.
    constructor; [lia|done].
Qed.

Lemma proof_loop_spec fuel : forall leaves arr p e,
  (leaves <= fuel)%nat -> (e < leaves <= length arr)%nat ->
  exists p', proof_loop fuel leaves arr p e = Some (p ++ p') /\ path (take leaves arr) e p'.
Proof.
  induction fuel as [|fuel IH]; intros leaves arr p e Hf [H1 Hl]; [lia|]. cbn [proof_loop].
  destruct (Nat.leb_spec leaves 1) as [Hle|Hgt].
  - exists []. rewrite app_nil_r. split; [done|]. assert (leaves = 1%nat /\ e = 0%nat) as [-> ->] by lia.
    destruct arr as [|x arr]; [cbn in Hl; lia|]. cbn. rewrite take_0. constructor.
  - destruct (half_bounds leaves) as [Hh1 Hh2]; [lia|].
    assert (length (take leaves arr) = leaves) as Hlen by (rewrite length_take; lia).
    destruct (proof_level_spec ((leaves + 1) / 2) (take leaves arr) 0 0 leaves arr p e)
      as (arr1 & Hl1 & Ht & ->); [apply rest_0|done|done|done|by rewrite Hlen|].
    cbn [mbind option_bind Nat.leb Nat.add take app] in *. rewrite Nat.sub_0_r.
    destruct (IH ((leaves + 1) / 2)%nat arr1 (p ++ sib (take leaves arr) e) (e / 2)%nat)
      as (p' & -> & Hp); [lia|split; [apply Nat.Div0.div_lt_upper_bound; pose proof (Nat.div_mod (leaves + 1) 2);
        pose proof (Nat.mod_upper_bound (leaves + 1) 2); lia|lia]|].
    exists (sib (take leaves arr) e ++ p'). rewrite <- app_assoc. split; [done|].
    rewrite Ht in Hp. by constructor; [lia|].
Qed.

Lemma reduces_fun l r r' : reduces l r -> reduces l r' -> r = r'.
Proof.
  intros H. revert r'. induction H as [x|l r Hl _ IH]; intros r' H'; inversion H'; subst; cbn in *; try lia; auto.
Qed.

(** One step of a path: the sibling is on one of the two sides, or the block
    is promoted. *)
Lemma sib_step l : forall e x, l !! e = Some x -> Forall (fun h => blen h = 64) l ->
  exists x', pair_up l !! (e / 2)%nat = Some x' /\
    ((sib l e = [] /\ x' = x) \/
     exists s b, sib l e = s ++ [byte_of b] /\ blen s = 64 /\
       (b = 0 /\ x' = node s x \/ b = 1 /\ x' = node x s)).
Proof.
  induction l as [|y|y z l IH] using pairs_ind; intros e x He Hb.
  - done.
  - destruct e; [|done]. injection He as ->. exists x. eauto.
  - apply Forall_cons in Hb as [Hy Hb]. apply Forall_cons in Hb as [Hz Hb].
    destruct e as [|[|e]].
    + injection He as ->. exists (node x z). split; [done|]. right. exists z, 1. eauto.
    + injection He as ->. exists (node y x). split; [done|]. right. exists y, 0. eauto.
    + replace (S (S e)) with (e + 2)%nat by lia. rewrite div2_SS, (Nat.add_comm e 2).
      cbn [Nat.add sib pair_up lookup list_lookup]. by apply IH.
Qed.

Lemma Forall_pair_up l : Forall (fun h => blen h = 64) l -> Forall (fun h => blen h = 64) (pair_up l).
Proof.
  induction l as [|y|y z l IH] using pairs_ind; [done|done|]. intros [_ [_ Hb]%Forall_cons]%Forall_cons.
  constructor; [apply sha512_length|auto].
Qed.

Lemma reduces_length l r : reduces l r -> Forall (fun h => blen h = 64) l -> blen r = 64.
Proof.
  induction 1 as [x|l r Hl _ IH]; intros Hb; [by inversion Hb|]. by apply IH, Forall_pair_up.
Qed.

(** Folding a path gives the root. *)
Lemma fold_path l e p : path l e p -> forall x r bp bh,
  l !! e = Some x -> reduces l r -> Forall (fun h => blen h = 64) l ->
  exists n, blen p = 65 * Z.of_nat n /\ fold_proof n x p bp bh = (0, r) /\
    (forall k, (length l <= 2 ^ k)%nat -> (n <= k)%nat).
Proof.
  induction 1 as [y|l e p Hl Hp IH]; intros x r bp bh He Hr Hb.
  - injection He as ->. exists 0%nat. inversion Hr; subst; [|cbn in *; lia]. split_and!; [done..|lia].
  - assert (reduces (pair_up l) r) as Hr' by (inversion Hr; subst; [cbn in Hl; lia|done]).
    destruct (sib_step l e x He Hb) as (x' & Hx' & Hs).
    destruct (IH x' r bp bh Hx' Hr' (Forall_pair_up _ Hb)) as (n & Hn & Hf & Hk).
    assert (forall k, (length l <= 2 ^ k)%nat -> exists k', k = S k' /\ (n <= k')%nat) as Hk'.
    { intros [|k] Hlk; [cbn in Hlk; lia|]. exists k. split; [done|]. apply Hk. rewrite length_pair_up.
      cbn [Nat.pow] in Hlk. apply Nat.lt_succ_r, Nat.Div0.div_lt_upper_bound. lia. }
    destruct Hs as [[-> ->]|(s & b & -> & Hsb & Hside)].
    + exists n. cbn [app]. split_and!; [done..|]. intros k (k' & -> & ?)%Hk'. lia.
    + exists (S n). split; [rewrite !blen_app, blen_cons, blen_nil, Hsb, Hn; lia|]. split.
      2:{ intros k (k' & -> & ?)%Hk'. lia. }
      assert (artifact ((s ++ [byte_of b]) ++ p) = s) as Ha.
      { unfold artifact. rewrite <- app_assoc. by apply slice_app_l. }
      assert (next_artifact ((s ++ [byte_of b]) ++ p) = p) as Hn'.
      { unfold next_artifact. apply slice_from_app. rewrite blen_app, blen_cons, blen_nil, Hsb. done. }
      assert (position ((s ++ [byte_of b]) ++ p) = b) as Hpos.
      { unfold position. rewrite <- app_assoc, at_app_r by (by rewrite Hsb). rewrite Hsb.
        destruct Hside as [[-> _]|[-> _]]; done. }
      cbn [fold_proof]. rewrite Ha, Hn', Hpos.
      destruct Hside as [[-> ->]|[-> ->]]; cbn [Z.eqb negb andb];
        rewrite hash_node_ok; cbn [Z.eqb negb]; done.
Qed.

(** Bytes after the artifacts do not matter. *)
Lemma fold_proof_app n : forall x p t bp bh, blen p = 65 * Z.of_nat n ->
  fold_proof n x (p ++ t) bp bh = fold_proof n x p bp bh.
Proof.
  induction n as [|n IH]; intros x p t bp bh Hp; [done|]. cbn [fold_proof].
  assert (position (p ++ t) = position p) as -> by (unfold position; by rewrite at_app_l by
    (change crypto_hash_sha512_BYTES with 64; lia)).
  assert (artifact (p ++ t) = artifact p) as ->.
  { unfold artifact, slice. cbn [Z.to_nat]. rewrite !drop_0, take_app_le; [done|]. unfold blen in Hp.
    change (Z.to_nat (crypto_hash_sha512_BYTES - 0)) with 64%nat. lia. }
  assert (next_artifact (p ++ t) = next_artifact p ++ t) as ->.
  { unfold next_artifact, slice_from. rewrite drop_app_le; [done|]. unfold blen in Hp.
    change (Z.to_nat ARTIFACT_BYTES) with 65%nat. lia. }
  destruct (negb _ && negb _); [done|]. destruct (if position p =? 0 then _ else _) as [res h].
  destruct (negb _); [done|]. apply IH. unfold next_artifact. change ARTIFACT_BYTES with 65. rewrite blen_slice_from by lia. lia.
Qed.

Lemma verify_app n x root p t : blen p = 65 * Z.of_nat n ->
  verify_merkle_proof n x root (p ++ t) = verify_merkle_proof n x root p.
Proof. intros Hp. unfold verify_merkle_proof. by rewrite fold_proof_app. Qed.

(** A block of a tree with several leaves has a sibling somewhere. *)
Lemma path_nonempty l e p : path l e p -> (2 <= length l)%nat -> (e < length l)%nat -> p <> [].
Proof.
  induction 1 as [y|l e p Hl Hp IH]; intros Hlen He; [cbn in Hlen; lia|]. clear Hlen.
  destruct (decide (length l = 2)%nat) as [H2|H2].
  - destruct l as [|x [|y [|z l]]]; try done. destruct e as [|[|e]]; [| |cbn in He; lia];
      cbn [sib]; intros [Hs%app_eq_nil _]%app_eq_nil; by destruct Hs.
  - intros [_ ->]%app_eq_nil. apply IH; [| |done]; rewrite length_pair_up.
    + apply Nat.div_le_lower_bound; lia.
    + apply Nat.Div0.div_lt_upper_bound. pose proof (Nat.div_mod (length l + 1) 2).
      pose proof (Nat.mod_upper_bound (length l + 1) 2). lia.
Qed.
End Levels.

(** ** The tree of a message *)

Section Tree.
Context {HS : Sha512} `{!Sha512Correct HS}.
Implicit Types (chunks : list bytes) (c item root proof : bytes).

(** The hashes that the sender collects while it splits a message. *)
Definition tree_of chunks : bytes := concat (hashMerkleLeaf <$> chunks).

Lemma leaves_length chunks : Forall (fun h => blen h = 64) (hashMerkleLeaf <$> chunks).
Proof. apply Forall_fmap, Forall_true. intros c. apply sha512_length. Qed.

Lemma blen_concat (ls : list bytes) : Forall (fun h => blen h = 64) ls -> blen (concat ls) = 64 * blen ls.
Proof. induction 1; [done|]. cbn [concat]. rewrite blen_app, blen_cons. lia. Qed.

Lemma blocks_concat (ls : list bytes) : Forall (fun h => blen h = 64) ls ->
  blocks (length ls) (concat ls) = ls.
Proof.
  induction 1 as [|h ls Hh _ IH]; [done|]. cbn [length blocks concat].
  change crypto_hash_sha512_BYTES with 64. rewrite slice_app_l by done.
  by rewrite slice_from_app, IH by done.
Qed.

Lemma tree_facts chunks :
  blen (tree_of chunks) mod crypto_hash_sha512_BYTES = 0 /\
  blen (tree_of chunks) / crypto_hash_sha512_BYTES = blen chunks /\
  tree_blocks (tree_of chunks) = hashMerkleLeaf <$> chunks.
Proof.
  assert (blen (tree_of chunks) = blen chunks * 64) as Hb.
  { unfold tree_of. rewrite blen_concat by apply leaves_length. unfold blen. rewrite length_fmap. lia. }
  unfold tree_blocks. change crypto_hash_sha512_BYTES with 64. rewrite Hb, Z.mod_mul, Z.div_mul by done.
  split_and!; [done..|]. unfold blen, tree_of. rewrite Nat2Z.id, <- (length_fmap hashMerkleLeaf).
  apply blocks_concat, leaves_length.
Qed.

Lemma getMerkleRoot_spec chunks : chunks <> [] ->
  exists root, getMerkleRoot (tree_of chunks) = Ok root /\ reduces (hashMerkleLeaf <$> chunks) root.
Proof.
  intros Hne. destruct (tree_facts chunks) as (Hm & Hd & Hb). unfold getMerkleRoot.
  rewrite Hm, Hd, Hb. cbn [Z.eqb require mbind result_bind].
  destruct chunks as [|c [|c' chunks]]; [done| |].
  - exists (hashMerkleLeaf c). unfold tree_of. cbn. rewrite app_nil_r. split; [done|constructor].
  - set (l := hashMerkleLeaf <$> _). assert (blen (c :: c' :: chunks) = blen l) as ->
      by (unfold blen, l; by rewrite length_fmap).
    rewrite (proj2 (Z.eqb_neq _ 0)), (proj2 (Z.eqb_neq _ 1)) by (unfold blen, l; cbn; lia).
    unfold get_merkle_root.
    destruct (root_loop_spec (length l) (length l) l) as (arr & -> & Hr); [lia|unfold l; cbn; lia|].
    exists (block arr 0). split; [done|]. by rewrite take_ge in Hr by lia.
Qed.

(** What [getMerkleProof] returns for a chunk of the message: [n] artifacts that
    verify, in the plain and in the fixed-length format. *)
Definition good_proof chunks c root proof (n : nat) : Prop :=
  getMerkleProof (tree_of chunks) (hashMerkleLeaf c) 0 [] = Ok proof /\
  blen proof = 65 * Z.of_nat n /\ (1 <= n)%nat /\
  verify_merkle_proof n (hashMerkleLeaf c) root proof = 0 /\
  (forall k, (length chunks <= 2 ^ k)%nat -> (n <= Nat.max k 1)%nat) /\
  (forall fixedLen noise, fixedLen <> 0 -> blen proof <= fixedLen ->
     getMerkleProof (tree_of chunks) (hashMerkleLeaf c) fixedLen noise =
     fixed_proof fixedLen noise proof).

Lemma proof_single c : good_proof [c] c (hashMerkleLeaf c) (hashMerkleLeaf c ++ [byte_of 0]) 1.
Proof.
  destruct (tree_facts [c]) as (Hm & Hd & _).
  assert (blen (hashMerkleLeaf c) = 64) as Hlc by apply sha512_length.
  unfold good_proof, getMerkleProof. rewrite Hm, Hd. change (blen [c]) with 1.
  cbn [Z.eqb require mbind result_bind]. rewrite Hlc. cbn [Z.leb Z.compare require mbind result_bind].
  rewrite bset_zeros by (rewrite Hlc; done). rewrite Hlc. cbn [negb].
  split_and!; [done|rewrite blen_app, Hlc; done|lia| |lia|].
  - unfold verify_merkle_proof. by rewrite bytesEqual_refl.
  - intros fixedLen noise Hf _. by rewrite (proj2 (Z.eqb_neq fixedLen 0)).
Qed.

(** The artifacts that the C code writes for a chunk. *)
Lemma get_merkle_proof_ok chunks c root : c ∈ chunks -> (2 <= length chunks)%nat ->
  reduces (hashMerkleLeaf <$> chunks) root ->
  exists p n, get_merkle_proof (hashMerkleLeaf <$> chunks) (hashMerkleLeaf c) = (blen p, p) /\
    blen p = 65 * Z.of_nat n /\ (1 <= n)%nat /\
    fold_proof n (hashMerkleLeaf c) p (-3) (-4) = (0, root) /\
    (forall k, (length chunks <= 2 ^ k)%nat -> (n <= k)%nat).
Proof.
  intros Hc H2 Hr. set (l := hashMerkleLeaf <$> chunks) in *.
  assert (length l = length chunks) as Hlen by apply length_fmap. unfold get_merkle_proof.
  destruct (list_find _ l) as [[e h]|] eqn:Hfind.
  2:{ apply list_find_None in Hfind. rewrite Forall_forall in Hfind.
      destruct (Hfind (hashMerkleLeaf c)); [|done]. by apply list_elem_of_fmap_2. }
  apply list_find_Some in Hfind as (He & -> & _). pose proof (lookup_lt_Some _ _ _ He) as Hlt.
  destruct (proof_loop_spec (length l) (length l) l [] e) as (p & -> & Hp); [lia|lia|].
  rewrite take_ge in Hp by lia. cbn [app].
  destruct (fold_path l e p Hp _ _ (-3) (-4) He Hr (leaves_length chunks)) as (n & Hn & Hf & Hk).
  exists p, n. split; [done|]. split; [done|]. rewrite <- Hlen. split; [|done].
  destruct n; [|lia]. destruct p; [|rewrite blen_cons in Hn; pose proof (blen_nonneg p); lia].
  by apply path_nonempty in Hp; [|lia|].
Qed.

Lemma proof_several chunks c root : c ∈ chunks -> (2 <= length chunks)%nat ->
  reduces (hashMerkleLeaf <$> chunks) root -> exists proof n, good_proof chunks c root proof n.
Proof.
  intros Hc H2 Hr. destruct (tree_facts chunks) as (Hm & Hd & Hb).
  destruct (get_merkle_proof_ok chunks c root Hc H2 Hr) as (p & n & Hg & Hn & Hn1 & Hf & Hk).
  exists p, n. unfold good_proof, getMerkleProof. rewrite Hm, Hd, Hb, Hg. cbn [Z.eqb require mbind result_bind].
  rewrite (proj2 (Z.eqb_neq (blen chunks) 0)), (proj2 (Z.eqb_neq (blen chunks) 1)) by (unfold blen; lia).
  rewrite (sha512_length _ : blen (hashMerkleLeaf c) = 64). cbn [Z.leb Z.compare require mbind result_bind].
  rewrite !(proj2 (Z.eqb_neq (blen p) _)), (proj2 (Z.ltb_lt 0 (blen p))) by lia.
  cbn [negb andb]. rewrite slice_all by done. split_and!; [done..| | |].
  - unfold verify_merkle_proof. destruct (_ && _); [done|]. rewrite Hf. cbn [Z.eqb negb].
    by rewrite bytesEqual_refl.
  - intros k Hlk. specialize (Hk k Hlk). lia.
  - intros fixedLen noise Hf0 Hfl.
    by rewrite (proj2 (Z.eqb_neq fixedLen 0)), (proj2 (Z.leb_le _ fixedLen)).
Qed.

Lemma getMerkleProof_spec chunks c root : c ∈ chunks -> reduces (hashMerkleLeaf <$> chunks) root ->
  exists proof n, good_proof chunks c root proof n.
Proof.
  intros Hc Hr. destruct (decide (2 <= length chunks)%nat) as [H2|H2]; [by apply proof_several|].
  destruct chunks as [|c' [|]]; [by apply elem_of_nil in Hc| |cbn in H2; lia].
  apply list_elem_of_singleton in Hc as <-. inversion Hr; subst; [|cbn in *; lia].
  eexists _, _. apply proof_single.
Qed.

(** ** Soundness: a proof that verifies is a proof of a chunk *)

(** A collision is named by its inputs: one among [sent], one among [checked]. *)
Definition collides (sent checked : list bytes) : Prop :=
  Exists (fun x => Exists (fun y => x <> y /\ subtle_digest_sha512 x = subtle_digest_sha512 y) checked) sent.
#[export] Instance collides_dec sent checked : Decision (collides sent checked).
Proof. unfold collides. apply _. Defined.

(** What is hashed: for a leaf and a node, for all levels above [l], by the sender
    of a message and by the verifier of a proof. *)
Definition leaf_input c : bytes := byte_of MERKLE_LEAF_DOMAIN :: c.
Definition node_input (x y : bytes) : bytes := byte_of MERKLE_NODE_DOMAIN :: x ++ y.
Fixpoint level_inputs (l : list bytes) : list bytes :=
  match l with x :: y :: l' => node_input x y :: level_inputs l' | _ => [] end.
Fixpoint tree_inputs (levels : nat) (l : list bytes) : list bytes :=
  match levels with O => [] | S n => level_inputs l ++ tree_inputs n (pair_up l) end.
Definition message_inputs chunks : list bytes :=
  (leaf_input <$> chunks) ++ tree_inputs (length chunks) (hashMerkleLeaf <$> chunks).
Fixpoint proof_inputs (n : nat) (x proof : bytes) : list bytes :=
  match n with
  | O => []
  | S n => let i := if position proof =? 0 then node_input (artifact proof) x else node_input x (artifact proof) in
           i :: proof_inputs n (subtle_digest_sha512 i) (next_artifact proof)
  end.
Definition item_inputs (n : nat) item proof : list bytes := leaf_input item :: proof_inputs n (hashMerkleLeaf item) proof.

Lemma collides_intro sent checked x y : x ∈ sent -> y ∈ checked -> subtle_digest_sha512 x = subtle_digest_sha512 y ->
  x = y \/ collides sent checked.
Proof.
  intros Hx Hy H. destruct (decide (x = y)) as [->|Hne]; [by left|right].
  apply Exists_exists. exists x. split; [done|]. apply Exists_exists. by exists y.
Qed.
Lemma collides_mono sent sent' checked checked' : sent ⊆ sent' -> checked ⊆ checked' ->
  collides sent checked -> collides sent' checked'.
Proof.
  unfold collides. rewrite !Exists_exists. intros Hs Hc (x & Hx & (y & Hy & H)%Exists_exists).
  exists x. split; [by apply Hs|]. apply Exists_exists. exists y. by split; [apply Hc|].
Qed.

Inductive mtree := Lf (h : bytes) | Nd (l r : mtree).

Fixpoint thash (t : mtree) : bytes :=
  match t with Lf h => h | Nd l r => node (thash l) (thash r) end.
Fixpoint fringe (t : mtree) : list bytes :=
  match t with Lf h => [h] | Nd l r => fringe l ++ fringe r end.
Fixpoint tpair (ts : list mtree) : list mtree :=
  match ts with a :: b :: ts' => Nd a b :: tpair ts' | _ => ts end.

Fixpoint inner_inputs (t : mtree) : list bytes :=
  match t with Lf _ => [] | Nd l r => node_input (thash l) (thash r) :: inner_inputs l ++ inner_inputs r end.

Lemma thash_tpair ts : thash <$> tpair ts = pair_up (thash <$> ts).
Proof. induction ts as [|a|a b ts IH] using pairs_ind; [done|done|]. csimpl. by f_equal. Qed.
Lemma fringe_tpair ts : concat (fringe <$> tpair ts) = concat (fringe <$> ts).
Proof.
  induction ts as [|a|a b ts IH] using pairs_ind; [done|done|]. csimpl. by rewrite IH, app_assoc.
Qed.
Lemma inputs_tpair ts : concat (inner_inputs <$> tpair ts) ⊆ concat (inner_inputs <$> ts) ++ level_inputs (thash <$> ts).
Proof. induction ts as [|a|a b ts IH] using pairs_ind; [done|csimpl; set_solver|]. csimpl. set_solver. Qed.

Lemma reduces_tree l r : reduces l r -> forall ts n, l = thash <$> ts -> (length l <= n)%nat ->
  exists t, thash t = r /\ fringe t = concat (fringe <$> ts) /\ inner_inputs t ⊆ concat (inner_inputs <$> ts) ++ tree_inputs n l.
Proof.
  induction 1 as [x|l r Hl _ IH]; intros ts n Hts Hn.
  - destruct ts as [|t [|]]; try done. injection Hts as ->. exists t. csimpl. rewrite !app_nil_r.
    split_and!; [done..|]. set_solver.
  - subst l. destruct n as [|n]; [lia|]. pose proof (half_bounds _ Hl).
    destruct (IH (tpair ts) n) as (t & Ht & Hf & Hi); [by rewrite thash_tpair|rewrite length_pair_up; lia|].
    exists t. rewrite fringe_tpair in Hf. split_and!; [done..|]. pose proof (inputs_tpair ts). cbn [tree_inputs]. set_solver.
Qed.

Inductive sub (t : mtree) : mtree -> Prop :=
  | sub_refl : sub t t
  | sub_left l r : sub t (Nd l r) -> sub t l
  | sub_right l r : sub t (Nd l r) -> sub t r.

Lemma sub_fringe t u : sub t u -> fringe u ⊆ fringe t.
Proof. induction 1; cbn in *; set_solver. Qed.

Lemma sub_inputs t u : sub t u -> inner_inputs u ⊆ inner_inputs t.
Proof. induction 1; cbn in *; set_solver. Qed.

(** The leaves of [t] are those of chunks, and [sent] are inputs behind it. *)
Record tree_over chunks sent t : Prop := {
  to_leaf h : h ∈ fringe t -> exists c, c ∈ chunks /\ h = hashMerkleLeaf c /\ leaf_input c ∈ sent;
  to_inner : inner_inputs t ⊆ sent }.

Lemma blen_thash chunks sent t : tree_over chunks sent t -> blen (thash t) = 64.
Proof.
  destruct t as [h|l r]; intros Hl; [|apply sha512_length].
  destruct (to_leaf _ _ _ Hl h) as (c & _ & -> & _); [by apply list_elem_of_singleton|]. apply sha512_length.
Qed.
Lemma sub_over chunks sent t u : tree_over chunks sent t -> sub t u -> tree_over chunks sent u.
Proof.
  intros [Hl Hi] Hs. pose proof (sub_fringe _ _ Hs) as Hf. pose proof (sub_inputs _ _ Hs). split; [|set_solver].
  intros h Hh. by apply Hl, Hf.
Qed.

(** A node of the tree determines its children: leaves and nodes are hashed in
    different domains. *)
Lemma node_inv chunks sent t u x y : tree_over chunks sent t -> sub t u -> thash u = node x y ->
  blen x = 64 -> collides sent [node_input x y] \/ exists l r, sub t l /\ sub t r /\ thash l = x /\ thash r = y.
Proof.
  intros Hl Hs Hu Hx. pose proof (sub_over _ _ _ _ Hl Hs) as [Hlu Hiu]. destruct u as [h|l r].
  - destruct (Hlu h) as (c & _ & Hc & Hin); [by apply list_elem_of_singleton|]. cbn in Hu. rewrite Hc in Hu. clear Hc.
    destruct (collides_intro sent [node_input x y] (leaf_input c) (node_input x y)) as [Heq|]; [done|by left|exact Hu|discriminate Heq|by left].
  - cbn in Hu, Hiu. destruct (collides_intro sent [node_input x y] (node_input (thash l) (thash r)) (node_input x y)) as [Heq|Hc];
      [set_solver|by left|exact Hu| |by left]. right. exists l, r.
    assert (sub t l) as Hsl by eauto using sub.
    pose proof (blen_thash _ _ _ (sub_over _ _ _ _ Hl Hsl)) as Hll.
    injection Heq as Heq. apply app_inj_1 in Heq as [? ?]; [|unfold blen in *; lia].
    split_and!; eauto using sub.
Qed.

(** Every value that folds to the root is a hash of the tree. *)
Lemma fold_in_tree chunks sent t bp bh n : tree_over chunks sent t -> forall x p,
  blen x = 64 -> blen p = 65 * Z.of_nat n -> fold_proof n x p bp bh = (0, thash t) -> bp <> 0 -> bh <> 0 ->
  collides sent (proof_inputs n x p) \/ exists u, sub t u /\ thash u = x.
Proof.
  intros Hl. induction n as [|n IH]; intros x p Hx Hp Hf Hbp Hbh; cbn [fold_proof proof_inputs] in Hf |- *.
  - injection Hf as ->. right. eauto using sub.
  - destruct (negb _ && negb _); [congruence|].
    assert (blen (artifact p) = 64) as Ha by (unfold artifact; change crypto_hash_sha512_BYTES with 64; rewrite blen_slice; lia).
    assert (blen (next_artifact p) = 65 * Z.of_nat n) as Hn.
    { unfold next_artifact. change ARTIFACT_BYTES with 65. rewrite blen_slice_from by lia. lia. }
    cbv zeta. destruct (position p =? 0); rewrite hash_node_ok in Hf; cbn [Z.eqb negb] in Hf;
      apply IH in Hf as [Hc|(u & Hu & Hh)]; try done; try apply sha512_length;
      try (left; eapply collides_mono; [| |exact Hc]; [done|set_solver]);
      (eapply node_inv in Hh as [Hc|(l & r & Hsl & Hsr & Hhl & Hhr)];
        [left; eapply collides_mono; [| |exact Hc]; [done|set_solver]| |done..]); right; eauto.
Qed.

(** ** Theorems *)

(** A good proof verifies through the TypeScript wrapper. *)
Lemma good_proof_verifies chunks c root proof n :
  reduces (hashMerkleLeaf <$> chunks) root -> good_proof chunks c root proof n ->
  verifyMerkleProof c root proof = Ok true.
Proof.
  intros Hr (_ & Hn & _ & Hv & _). pose proof (reduces_length _ _ Hr (leaves_length chunks)) as Hl.
  unfold verifyMerkleProof, hashMerkleLeafWasm. rewrite Hn, (Z.mul_comm 65), Z.mod_mul, Z.div_mul by done.
  rewrite sha512_agree, Nat2Z.id. cbn [Z.eqb negb require mbind result_bind].
  rewrite Hl. cbn [Z.leb Z.compare require mbind result_bind].
  rewrite !region_id by (rewrite ?Hl, ?sha512_length; done).
  change (subtle_digest_sha512 _) with (hashMerkleLeaf c). by rewrite Hv.
Qed.

(** Every chunk can be proved: for every chunk of a non-empty message the
    root and the chunk's proof are computed, the proof verifies against the
    root, and up to 2^48 chunks it fits the fixed-size proof field of a frame. *)
Theorem merkle_proof_verifies chunks c : c ∈ chunks ->
  exists root proof,
    getMerkleRoot (tree_of chunks) = Ok root /\
    getMerkleProof (tree_of chunks) (hashMerkleLeaf c) 0 [] = Ok proof /\
    verifyMerkleProof c root proof = Ok true /\
    (blen chunks <= 2 ^ 48 -> 4 + blen proof <= PROOF_LEN).
Proof.
  intros Hc. destruct (getMerkleRoot_spec chunks) as (root & Hroot & Hr);
    [intros ->; by apply elem_of_nil in Hc|].
  destruct (getMerkleProof_spec chunks c root Hc Hr) as (proof & n & Hg).
  exists root, proof. split; [done|]. split; [apply Hg|]. split; [by eapply good_proof_verifies|].
  destruct Hg as (_ & Hn & _ & _ & Hk & _).
  intros Hlen. assert (n <= 48)%nat as Hn48.
  { etrans; [apply (Hk 48%nat)|lia]. apply Nat2Z.inj_le. rewrite Nat2Z.inj_pow. done. }
  change PROOF_LEN with 3124. lia.
Qed.

Lemma in_concat_elem (x : bytes) (ls : list (list bytes)) : x ∈ concat ls <-> exists l, l ∈ ls /\ x ∈ l.
Proof. rewrite list_elem_of_In, in_concat. by setoid_rewrite list_elem_of_In. Qed.

(** The tree of a message has the leaf hashes of its chunks as leaves. *)
Lemma message_tree chunks root : reduces (hashMerkleLeaf <$> chunks) root ->
  exists t, thash t = root /\ tree_over chunks (message_inputs chunks) t.
Proof.
  intros Hr. destruct (reduces_tree _ _ Hr ((fun c => Lf (hashMerkleLeaf c)) <$> chunks) (length chunks)) as (t & Ht & Hf & Hi).
  { by rewrite <- list_fmap_compose. } { by rewrite length_fmap. }
  exists t. split; [done|]. rewrite <- !list_fmap_compose in *. split.
  - intros h Hh. rewrite Hf in Hh. apply in_concat_elem in Hh as (l & Hin & Hh).
    apply list_elem_of_fmap in Hin as (c & -> & Hc). apply list_elem_of_singleton in Hh as ->. exists c.
    split_and!; [done..|]. unfold message_inputs. apply elem_of_app. left. by apply list_elem_of_fmap_2.
  - etrans; [exact Hi|]. unfold message_inputs. intros x [Hx|Hx]%elem_of_app; [|apply elem_of_app; by right].
    apply in_concat_elem in Hx as (l & (c & -> & _)%list_elem_of_fmap & Hx). by apply elem_of_nil in Hx.
Qed.

(** What a verified proof says about the hashes. *)
Lemma verify_ok chunks sent t x proof n : tree_over chunks sent t -> blen x = 64 ->
  blen proof = 65 * Z.of_nat n -> verify_merkle_proof n x (thash t) proof = 0 ->
  collides sent (proof_inputs n x proof) \/ exists u, sub t u /\ thash u = x.
Proof.
  intros Hl Hx Hp Hv. unfold verify_merkle_proof in Hv. destruct (_ && _) eqn:Hone.
  - apply andb_true_iff in Hone as [_ <-%bytesEqual_spec]. right. eauto using sub.
  - destruct (fold_proof _ _ _ _ _) as [code folded] eqn:Hf.
    destruct (Z.eqb_spec code 0) as [->|]; cbn [negb] in Hv; [|done].
    destruct (bytesEqual folded (thash t)) eqn:Hb; [|done]. apply bytesEqual_spec in Hb as ->.
    by eapply fold_in_tree in Hf.
Qed.

(** A leaf whose proof verifies is the leaf of a chunk. *)
Lemma verified_leaf chunks item root proof n :
  getMerkleRoot (tree_of chunks) = Ok root -> blen proof = 65 * Z.of_nat n ->
  verify_merkle_proof n (hashMerkleLeaf item) root proof = 0 ->
  item ∈ chunks \/ collides (message_inputs chunks) (item_inputs n item proof).
Proof.
  intros Hroot Hp Hv. destruct (decide (chunks = [])) as [->|Hne]; [done|].
  destruct (getMerkleRoot_spec chunks Hne) as (root' & Hroot' & Hr).
  rewrite Hroot in Hroot'. apply Ok_inj in Hroot' as <-.
  destruct (message_tree chunks root Hr) as (t & <- & Hl).
  eapply verify_ok in Hv as [Hc|(u & Hs & Hu)]; [right| |done|apply sha512_length|done].
  { eapply collides_mono; [| |exact Hc]; [done|unfold item_inputs; set_solver]. }
  destruct (sub_over _ _ _ _ Hl Hs) as [Hlu Hiu]. destruct u as [h|l r].
  - destruct (Hlu h) as (c & Hc & -> & Hin); [by apply list_elem_of_singleton|]. cbn in Hu.
    destruct (collides_intro (message_inputs chunks) (item_inputs n item proof) (leaf_input c) (leaf_input item)) as [Heq|];
      [done|by left|exact Hu| |by right]. injection Heq as ->. by left.
  - destruct (collides_intro (message_inputs chunks) (item_inputs n item proof) (node_input (thash l) (thash r)) (leaf_input item)) as [Heq|];
      [apply Hiu; by left|by left|exact Hu|discriminate Heq|by right].
Qed.

Lemma blen_root chunks root : getMerkleRoot (tree_of chunks) = Ok root -> blen root = 64.
Proof.
  intros H. destruct (decide (chunks = [])) as [->|Hne]; [done|].
  destruct (getMerkleRoot_spec chunks Hne) as (root' & H' & Hr). rewrite H in H'. apply Ok_inj in H' as <-.
  apply (reduces_length _ _ Hr), leaves_length.
Qed.

(** C37. Only chunks can be proved: a proof of any item that verifies against
    the root of a message is a proof of a chunk of that message, or one of the
    blocks that were hashed to make the root and one of those that are hashed to
    check this proof are different and have the same SHA-512 digest. *)
Theorem merkle_proof_sound chunks item root proof :
  getMerkleRoot (tree_of chunks) = Ok root -> verifyMerkleProof item root proof = Ok true ->
  item ∈ chunks \/
  collides (message_inputs chunks) (item_inputs (Z.to_nat (blen proof / ARTIFACT_BYTES)) item proof).
Proof.
  intros Hroot Hv. pose proof (blen_root _ _ Hroot) as Hl. pose proof (blen_nonneg proof).
  unfold verifyMerkleProof, hashMerkleLeafWasm in Hv. rewrite sha512_agree in Hv. cbn [Z.eqb negb] in Hv.
  binds Hv. apply Ok_inj in E0. apply require_ok, Z.eqb_eq in E. change ARTIFACT_BYTES with 65 in *.
  rewrite region_id in E0, Hv by (rewrite ?sha512_length, ?Hl; done). subst x.
  destruct (verify_merkle_proof _ _ _ _ =? 0) eqn:Hz; [|repeat case_match; done].
  apply Z.eqb_eq in Hz. change ARTIFACT_BYTES with 65. eapply verified_leaf; [exact Hroot| |exact Hz].
  rewrite Z2Nat.id by (by apply Z.div_pos). pose proof (Z.div_mod (blen proof) 65). lia.
Qed.

Lemma twin_proof c : getMerkleProof (tree_of [c; c]) (hashMerkleLeaf c) 0 [] = Ok (hashMerkleLeaf c ++ [byte_of 1]).
Proof.
  destruct (tree_facts [c; c]) as (Hm & Hd & Hb). unfold getMerkleProof. rewrite Hm, Hd, Hb.
  assert (blen (hashMerkleLeaf c) = 64) as Hl by apply sha512_length.
  cbn [Z.eqb require mbind result_bind]. change (blen [c; c]) with 2. cbn [Z.eqb]. rewrite Hl.
  cbn [Z.leb Z.compare require mbind result_bind]. unfold get_merkle_proof.
  cbn [fmap list_fmap list_find length]. rewrite decide_True by done.
  cbn [proof_loop Nat.leb Nat.add Nat.div]. cbn -[hash_node hashMerkleLeaf byte_of Z.eqb blen slice].
  rewrite hash_node_ok. cbn -[hash_node hashMerkleLeaf byte_of Z.eqb blen slice].
  cbn [Z.eqb negb mbind option_bind].
  assert (blen (hashMerkleLeaf c ++ [byte_of 1]) = 65) as Hp by (by rewrite blen_app, Hl).
  rewrite Hp. cbn [Z.eqb Z.ltb Z.compare]. f_equal. by apply slice_all.
Qed.

(** The two-chunk message whose chunks are equal: [getMerkleRootFromProof]
    takes the one-artifact proof for that of a single-leaf tree and returns
    the leaf instead of the root of the message. *)
Theorem twin_chunks_root_from_proof c : exists root proof,
  getMerkleRoot (tree_of [c; c]) = Ok root /\
  getMerkleProof (tree_of [c; c]) (hashMerkleLeaf c) 0 [] = Ok proof /\
  verifyMerkleProof c root proof = Ok true /\
  getMerkleRootFromProof c proof = Ok (hashMerkleLeaf c) /\
  (root = hashMerkleLeaf c -> collides (message_inputs [c; c]) (message_inputs [c; c])).
Proof.
  destruct (getMerkleRoot_spec [c; c]) as (root & Hroot & Hr); [done|].
  destruct (getMerkleProof_spec [c; c] c root) as (proof & n & Hg); [set_solver|done|].
  exists root, proof. split; [done|]. split; [apply Hg|]. split; [by eapply good_proof_verifies|]. split.
  - destruct Hg as (Hp & _). rewrite twin_proof in Hp. apply Ok_inj in Hp as <-.
    assert (blen (hashMerkleLeaf c) = 64) as Hl by apply sha512_length.
    unfold getMerkleRootFromProof. rewrite blen_app, Hl.
    change ((64 + blen [byte_of 1]) mod ARTIFACT_BYTES =? 0) with true.
    change (Z.to_nat ((64 + blen [byte_of 1]) / ARTIFACT_BYTES)) with 1%nat.
    unfold get_merkle_root_from_proof, artifact. rewrite slice_app_l by done. by rewrite bytesEqual_refl.
  - intros ->. assert (node (hashMerkleLeaf c) (hashMerkleLeaf c) = hashMerkleLeaf c) as Heq.
    { eapply reduces_fun; [|exact Hr]. apply reduces_up; [done|]. apply reduces_one. }
    destruct (collides_intro (message_inputs [c; c]) (message_inputs [c; c])
      (node_input (hashMerkleLeaf c) (hashMerkleLeaf c)) (leaf_input c)) as [Hx|Hx];
      [unfold message_inputs; cbn; set_solver|unfold message_inputs; cbn; set_solver|exact Heq|discriminate Hx|done].
Qed.
End Tree.
