(* ===== verification/ChunkCrypto.v ===== *)
(** * Sealing and receiving message chunks

    [src/src/handlers/messageChunkCrypto.ts] with the C function
    [receive_message_with_key] of [src/src/cryptography/pake_ratchet.c].  A
    sender seals each chunk of a message under the message's key; the receiver
    steps a clone of its ratchet on the first chunk that arrives, keeps the key
    in a cache for the others, and adopts the clone only when the AEAD
    authenticated the frame.

    The live objects are the ratchet and the cache ([receiver]).  The C code
    calls libsodium's AEAD decryption directly; [decrypt_chachapoly_symmetric],
    which the module exports, is the same call, and stands for it here. *)

From Stdlib Require Import String.
From S2P Require Import Prelude Bytes Constants Crypto X25519 Ratchet RatchetKeys RatchetChain.
From S2P Require Import RatchetSession WireFrames PqMessageKey Merkle.
Local Open Scope Z_scope.
Local Open Scope list_scope.

Definition AEAD_KEY_LEN : Z := crypto_aead_chacha20poly1305_ietf_KEYBYTES.
Definition AEAD_NONCE_LEN : Z := crypto_aead_chacha20poly1305_ietf_NPUBBYTES.
Definition AEAD_TAG_LEN : Z := crypto_aead_chacha20poly1305_ietf_ABYTES.
Definition AAD_LEN : Z := crypto_hash_sha512_BYTES + CHUNK_AAD_HEADER_LEN.

Inductive ChunkError :=
  | BadMerkleRoot | IncompleteHeader | CacheEpochRange | AeadEncryptFailed | ChunkRangeError
  | ChunkFrameError (e : FrameError) | ChunkKeyError (e : PqKeyError)
  | ChunkRatchetError (e : RatchetError).

Definition messageCacheKey (dhPub : bytes) (N : Z) (pqEpoch : option Z) : result ChunkError string :=
  let prefix := skip_key dhPub N in
  match pqEpoch with
  | None => Ok prefix
  | Some e =>
      require (is_u64 e) CacheEpochRange;;
      Ok (prefix +:+ ":" +:+ decimal e)
  end.

Definition buildAad (merkleRoot frameHeader : bytes) : result ChunkError bytes :=
  require (negb (blen frameHeader <? CHUNK_AAD_HEADER_LEN)) IncompleteHeader;;
  let aad := zeros AAD_LEN in
  let aad := bset aad 0 merkleRoot in
  Ok (bset aad crypto_hash_sha512_BYTES (slice frameHeader 0 CHUNK_AAD_HEADER_LEN)).

Record DecryptedChunk := { decrypted : option bytes; chunk_ok : bool; stateAdvanced : bool }.
Definition dropped : DecryptedChunk :=
  {| decrypted := None; chunk_ok := false; stateAdvanced := false |}.

Record receiver := { ratchet : RatchetState; cache : skipped_map }.

(** A resolver may throw; [Ok None] is [null]. *)
Definition PqMessageKeyContextResolver : Type := Z -> result unit (option PqMessageKeyContext).

Definition resolvedContextMatches (context : PqMessageKeyContext) (epoch : Z)
    (suite : RatchetRootSuite) : bool :=
  (ctx_epoch context =? epoch)
  && bool_decide (ctx_rootSuite context = root_suite_string suite)
  && (blen (ctx_rootKey context) =? PQ_MESSAGE_KEY_ROOT_BYTES)
  && (blen (ctx_binding context) =? PQ_MESSAGE_KEY_BINDING_BYTES).

Section Chunk.
Context {C : LibCrypto} {HS : Sha512}.

(** [set] throws when the key or the nonce is longer than its region. *)
Definition chunkAeadSeal (key nonce data aad : bytes) : result ChunkError bytes :=
  require (blen key <=? AEAD_KEY_LEN) ChunkRangeError;;
  require (blen nonce <=? AEAD_NONCE_LEN) ChunkRangeError;;
  let '(r, out) := _encrypt_chachapoly_symmetric data (region AEAD_KEY_LEN key)
                     (region AEAD_NONCE_LEN nonce) aad in
  if r =? 0 then Ok (region (blen data + AEAD_TAG_LEN) out) else Err AeadEncryptFailed.

(** ** pake_ratchet.c: status and decrypted buffer *)

Definition receive_message_with_key (message merkle_root message_key : bytes) : Z * bytes :=
  let aad := merkle_root ++ slice message 0 CHUNK_AAD_HEADER_LEN in
  let nonce := slice message CHUNK_AAD_HEADER_LEN (CHUNK_AAD_HEADER_LEN + AEAD_NONCE_LEN) in
  let '(d, plaintext) := _decrypt_chachapoly_symmetric
      (slice message MESSAGE_START (MESSAGE_START + (DECRYPTED_LEN + AEAD_TAG_LEN)))
      message_key nonce aad in
  if negb (d =? 0) then (-2, [])
  else
    let decrypted := region DECRYPTED_LEN plaintext in
    let proofLen := get_u32 decrypted METADATA_LEN in
    if negb (proofLen mod (crypto_hash_sha512_BYTES + 1) =? 0) || (PROOF_LEN <? proofLen)
    then (-3, decrypted)
    else
      let proofArtifactsLen := proofLen / (crypto_hash_sha512_BYTES + 1) in
      let '(h, out) := crypto_hash_sha512
          (byte_of MERKLE_LEAF_DOMAIN :: slice decrypted (METADATA_LEN + PROOF_LEN) DECRYPTED_LEN) in
      if negb (h =? 0) then (-5, decrypted)
      else
        let leaf := region crypto_hash_sha512_BYTES out in
        let vmp := verify_merkle_proof (Z.to_nat proofArtifactsLen) leaf merkle_root
                     (slice_from decrypted (METADATA_LEN + 4)) in
        if negb (vmp =? 0) then (-6, decrypted)
        else (0, bset decrypted METADATA_LEN leaf).

(** ** messageChunkCrypto.ts *)

Definition receiveWithKey (frame merkleRoot key : bytes) : result ChunkError (Z * option bytes) :=
  let msg := bset (zeros MESSAGE_LEN) 0 (slice frame 0 (Z.min (blen frame) MESSAGE_LEN)) in
  require (blen merkleRoot <=? crypto_hash_sha512_BYTES) ChunkRangeError;;
  require (blen key <=? AEAD_KEY_LEN) ChunkRangeError;;
  let '(code, dec) := receive_message_with_key msg (region crypto_hash_sha512_BYTES merkleRoot)
                        (region AEAD_KEY_LEN key) in
  Ok (code, if code =? 0 then Some dec else None).

(** [nonce] is [randomNonce()].  The combiner gets a fresh copy of the key,
    which overlaps nothing. *)
Definition sealChunk (messageKey : bytes) (header : RatchetHeader) (chunk merkleRoot : bytes)
    (pqContext : option PqMessageKeyContext) (nonce : bytes) : result ChunkError bytes :=
  require (blen merkleRoot =? crypto_hash_sha512_BYTES) BadMerkleRoot;;
  frameHeader ← map_err ChunkFrameError
    (packChunkFrameHeader header nonce (from_option ctx_epoch 0 pqContext));
  aad ← buildAad merkleRoot frameHeader;
  aeadKey ← match pqContext with
            | Some context => map_err ChunkKeyError (fst (combine_owned messageKey context header))
            | None => Ok messageKey
            end;
  ciphertext ← chunkAeadSeal aeadKey nonce chunk aad;
  Ok (bset (bset (zeros (blen frameHeader + blen ciphertext)) 0 frameHeader)
        (blen frameHeader) ciphertext).

(** The context the frame's epoch resolves to; [None] drops the frame. *)
Definition resolve_context (resolver : option PqMessageKeyContextResolver) (pqEpoch : Z)
    (suite : RatchetRootSuite) : option (option PqMessageKeyContext) :=
  match resolver with
  | Some resolve =>
      match resolve pqEpoch with
      | Err _ | Ok None => None
      | Ok (Some context) =>
          if resolvedContextMatches context pqEpoch suite then Some (Some context) else None
      end
  | None => if negb (pqEpoch =? 0) then None else Some None
  end.

(** The key of the message on a clone: the key, or a throw, and the clone. *)
Definition derive_on_clone (clone : RatchetState) (header : RatchetHeader) (entropy : bytes)
    (pqContext : option PqMessageKeyContext) : option bytes * RatchetState :=
  match ratchetDecrypt header entropy clone with
  | (Err _, clone') => (None, clone')
  | (Ok messageKey, clone') =>
      (match pqContext with
       | None => Some messageKey
       | Some context =>
           match fst (combine_owned messageKey context header) with
           | Ok key => Some key
           | Err _ => None
           end
       end, clone')
  end.

(** [entropy] is drawn if the ratchet makes a DH step. *)
Definition decryptMessageChunk (frame merkleRoot : bytes)
    (resolver : option PqMessageKeyContextResolver) (entropy : bytes) :
  M receiver ChunkError DecryptedChunk :=
  mrequire (blen merkleRoot =? crypto_hash_sha512_BYTES) BadMerkleRoot;;
  parsed ← lift (map_err ChunkFrameError (parseChunkFrameHeader frame));
  this ← get_this;
  match resolve_context resolver (pf_pqEpoch parsed) (rootSuite (ratchet this)) with
  | None => mret dropped
  | Some pqContext =>
      cacheK ← lift (messageCacheKey (h_dhPub (pf_header parsed)) (h_N (pf_header parsed))
                       (match resolver with Some _ => Some (pf_pqEpoch parsed) | None => None end));
      match map_get cacheK (cache this) with
      | Some cached =>
          '(code, dec) ← lift (receiveWithKey frame merkleRoot cached);
          mret {| decrypted := if code =? 0 then dec else None; chunk_ok := code =? 0;
                  stateAdvanced := false |}
      | None =>
          let clone := cloneRatchet (ratchet this) in
          match derive_on_clone clone (pf_header parsed) entropy pqContext with
          | (None, _) => mret dropped
          | (Some messageKey, clone') =>
              '(code, dec) ← lift (receiveWithKey frame merkleRoot messageKey);
              if code =? -2 then mret dropped
              else
                match adoptRatchet clone' (ratchet this) with
                | (Err e, live) =>
                    set_this {| ratchet := live; cache := cache this |};;
                    mthrow (ChunkRatchetError e)
                | (Ok _, live) =>
                    set_this {| ratchet := live; cache := map_set cacheK messageKey (cache this) |};;
                    mret {| decrypted := if code =? 0 then dec else None; chunk_ok := code =? 0;
                            stateAdvanced := true |}
                end
          end
      end
  end.
End Chunk.

(** ** Lemmas: the ratchet keeps its suite *)

Ltac keeps :=
  repeat first
    [ apply preserves_bind; [|first [intros [? ?]|intros ?]]
    | apply preserves_modify; by intros
    | apply preserves_readonly; by intros ?
    | case_match ].

Section Suite.
Context {C : LibCrypto}.

Definition suite_is (x : RatchetRootSuite) (s : RatchetState) : Prop := rootSuite s = x.

Lemma skip_loop_suite x n : preserves (suite_is x) (skip_loop n).
Proof. induction n as [|n IH]; cbn [skip_loop]; keeps; apply IH. Qed.

Lemma skipMessageKeys_suite x u : preserves (suite_is x) (skipMessageKeys u).
Proof. unfold skipMessageKeys. keeps. apply skip_loop_suite. Qed.

Lemma dhRatchet_suite x h e : preserves (suite_is x) (dhRatchet h e).
Proof. unfold dhRatchet, dh_step_keys. keeps. Qed.

Lemma ratchetDecrypt_suite h e s k s' : ratchetDecrypt h e s = (Ok k, s') -> rootSuite s' = rootSuite s.
Proof.
  intros H. apply (preserves_run (suite_is (rootSuite s)) (ratchetDecrypt h e) s (Ok k) s'); [|done|exact H].
  unfold ratchetDecrypt, trySkipped, receive_in_chain. keeps;
    first [apply skip_loop_suite|apply skipMessageKeys_suite|apply dhRatchet_suite].
Qed.
End Suite.

(** ** Lemmas: what a call changes *)

Section Rollback.
Context {C : LibCrypto} `{!HkdfTotal C} {HS : Sha512}.
Implicit Types (st : receiver) (frame root e : bytes) (resolver : option PqMessageKeyContextResolver).

(** The frame authenticated: the ratchet took the step that its header asks
    for, and the key is cached. *)
Definition committed frame root resolver e st (r : result ChunkError DecryptedChunk) st' : Prop :=
  exists p ctx key code dec k,
    parseChunkFrameHeader frame = Ok p /\
    resolve_context resolver (pf_pqEpoch p) (rootSuite (ratchet st)) = Some ctx /\
    derive_on_clone (ratchet st) (pf_header p) e ctx = (Some key, ratchet st') /\
    receiveWithKey frame root key = Ok (code, dec) /\ code <> -2 /\
    cache st' = map_set k key (cache st) /\
    r = Ok {| decrypted := dec; chunk_ok := code =? 0; stateAdvanced := true |}.

Lemma receiveWithKey_dec frame root key code dec : receiveWithKey frame root key = Ok (code, dec) ->
  (if code =? 0 then dec else None) = dec.
Proof.
  unfold receiveWithKey. intros H. binds H. destruct (receive_message_with_key _ _ _) as [c d].
  apply Ok_inj in H. injection H as -> <-. by destruct (code =? 0).
Qed.

Lemma adopt_same_suite s s' : rootSuite s' = rootSuite s -> adoptRatchet s' s = (Ok tt, s').
Proof.
  intros H. unfold adoptRatchet, mbind, M_bind, mrequire, lift, get_this.
  by rewrite bool_decide_eq_true_2 by done.
Qed.

Lemma derive_suite s h e ctx key s' : derive_on_clone s h e ctx = (Some key, s') -> rootSuite s' = rootSuite s.
Proof.
  unfold derive_on_clone. destruct (ratchetDecrypt h e s) as [[mk|er] s1] eqn:Hd; [|done].
  intros [= _ <-]. by eapply ratchetDecrypt_suite.
Qed.

Lemma decrypt_cases frame root resolver e st r st' : ratchet_inv (ratchet st) ->
  decryptMessageChunk frame root resolver e st = (r, st') ->
  (st' = st /\ forall d, r = Ok d -> stateAdvanced d = false) \/
  committed frame root resolver e st r st'.
Proof.
  intros Hi H. cbv beta iota zeta delta [decryptMessageChunk mrequire require lift get_this set_this
    mret M_ret mbind M_bind map_err] in H.
  destruct (blen root =? _); [|by injection H as <- <-; left].
  destruct (parseChunkFrameHeader frame) as [p|er] eqn:Hp; [|by injection H as <- <-; left].
  destruct (resolve_context _ _ _) as [ctx|] eqn:Hc; [|by injection H as <- <-; left; naive_solver].
  destruct (messageCacheKey _ _ _) as [k|er]; [|by injection H as <- <-; left].
  destruct (map_get k (cache st)) as [key|].
  - destruct (receiveWithKey frame root key) as [[code dec]|er]; injection H as <- <-; left; naive_solver.
  - rewrite (clone_inv _ Hi) in H.
    destruct (derive_on_clone _ _ _ _) as [[key|] s'] eqn:Hd; [|by injection H as <- <-; left; naive_solver].
    destruct (receiveWithKey frame root key) as [[code dec]|er] eqn:Hw; [|by injection H as <- <-; left].
    destruct (Z.eqb_spec code (-2)); [by injection H as <- <-; left; naive_solver|].
    rewrite adopt_same_suite in H by (by eapply derive_suite).
    injection H as <- <-. right. exists p, ctx, key, code, dec, k.
    rewrite (receiveWithKey_dec _ _ _ _ _ Hw). by split_and!.
Qed.

Lemma derive_inv r h e ctx key r' : ratchet_inv r -> derive_on_clone r h e ctx = (Some key, r') -> ratchet_inv r'.
Proof.
  unfold derive_on_clone. intros Hi. destruct (ratchetDecrypt h e r) as [[mk|er] r1] eqn:Hd; [|done].
  intros [= _ <-]. eapply preserves_run; [apply ratchetDecrypt_inv|done|done].
Qed.

(** One frame keeps the invariant and the suite. *)
Lemma frame_keeps frame root resolver e st r st' : ratchet_inv (ratchet st) ->
  decryptMessageChunk frame root resolver e st = (r, st') ->
  ratchet_inv (ratchet st') /\ rootSuite (ratchet st') = rootSuite (ratchet st).
Proof.
  intros Hi H. destruct (decrypt_cases _ _ _ _ _ _ _ Hi H) as [[-> _]|(p & ctx & key & code & dec & k & _ & _ & Hd & _)]; [done|].
  split; [by eapply derive_inv|by eapply derive_suite].
Qed.

(** A chunk is reported good only when the C function returned 0 on it. *)
Lemma ok_source frame root resolver e st d st' :
  decryptMessageChunk frame root resolver e st = (Ok d, st') -> chunk_ok d = true ->
  exists key, receiveWithKey frame root key = Ok (0, decrypted d).
Proof.
  intros H Hok. cbv beta iota zeta delta [decryptMessageChunk mrequire require lift get_this set_this
    mret M_ret mbind M_bind map_err mthrow] in H.
  destruct (blen root =? _); [|done]. destruct (parseChunkFrameHeader frame) as [p|]; [|done].
  destruct (resolve_context _ _ _) as [ctx|]; [|by injection H as <- <-].
  destruct (messageCacheKey _ _ _) as [k|]; [|done]. destruct (map_get k (cache st)) as [key|].
  - destruct (receiveWithKey frame root key) as [[code dec]|] eqn:Hw; [|done]. injection H as <- <-.
    cbn in Hok |- *. exists key. apply Z.eqb_eq in Hok as ->. exact Hw.
  - destruct (derive_on_clone _ _ _ _) as [[key|] s']; [|by injection H as <- <-].
    destruct (receiveWithKey frame root key) as [[code dec]|] eqn:Hw; [|done].
    destruct (code =? -2); [by injection H as <- <-|].
    destruct (adoptRatchet _ _) as [[] live]; [|done]. injection H as <- <-.
    cbn in Hok |- *. exists key. apply Z.eqb_eq in Hok as ->. exact Hw.
Qed.
End Rollback.

(** ** Lemmas: sealing and receiving *)

Section Roundtrip.
Context {C : LibCrypto} `{!AeadCorrect C} {HS : Sha512} `{!Sha512Correct HS}.

Lemma buildAad_ok root hd : blen root = 64 -> blen hd = 69 ->
  buildAad root hd = Ok (root ++ slice hd 0 57).
Proof.
  intros Hr Hh. unfold buildAad. rewrite Hh. change AAD_LEN with 121. change CHUNK_AAD_HEADER_LEN with 57.
  cbn [Z.ltb Z.compare negb require mbind result_bind]. rewrite bset_zeros by lia.
  change crypto_hash_sha512_BYTES with 64. rewrite bset_append by blen. f_equal.
  rewrite zeros_0 by blen. by rewrite app_nil_r.
Qed.

(** The plaintext of a chunk frame: metadata, length-prefixed proof padded to
    its field, chunk. *)
Record plain := { pl_metadata : bytes; pl_proof : bytes; pl_pad : bytes; pl_chunk : bytes }.
Definition plain_bytes (p : plain) : bytes :=
  pl_metadata p ++ (be_encode 4 (blen (pl_proof p)) ++ pl_proof p ++ pl_pad p) ++ pl_chunk p.
Definition plain_ok (p : plain) (n : nat) : Prop :=
  blen (pl_metadata p) = METADATA_LEN /\ blen (pl_proof p) = 65 * Z.of_nat n /\ (n <= 48)%nat /\
  4 + blen (pl_proof p) + blen (pl_pad p) = PROOF_LEN /\ blen (pl_chunk p) = CHUNK_LEN.

Lemma plain_fields p n : plain_ok p n ->
  blen (plain_bytes p) = DECRYPTED_LEN /\
  get_u32 (plain_bytes p) METADATA_LEN = 65 * Z.of_nat n /\
  slice (plain_bytes p) (METADATA_LEN + PROOF_LEN) DECRYPTED_LEN = pl_chunk p /\
  slice_from (plain_bytes p) (METADATA_LEN + 4) = pl_proof p ++ pl_pad p ++ pl_chunk p.
Proof.
  intros (Hm & Hp & Hn & Hf & Hc). change PROOF_LEN with 3124 in *. change METADATA_LEN with 369 in *.
  change CHUNK_LEN with 61912 in *. change DECRYPTED_LEN with 65405. unfold plain_bytes, get_u32.
  split_and!.
  - blen.
  - rewrite slice_app_r by lia. rewrite <- !app_assoc, slice_app_l by blen.
    rewrite be_decode_encode, Z.mod_small; [done|]. change (256 ^ Z.of_nat 4) with 4294967296. lia.
  - rewrite slice_app_r by lia. rewrite slice_app_r by blen. rewrite slice_to_end by blen.
    replace (_ - _ - _) with 0 by blen. done.
  - rewrite <- !app_assoc, app_assoc. apply slice_from_app. blen.
Qed.

(** The C function on a plaintext whose proof verifies. *)
Lemma receive_plain message root key plaintext p n :
  _decrypt_chachapoly_symmetric
    (slice message MESSAGE_START (MESSAGE_START + (DECRYPTED_LEN + AEAD_TAG_LEN))) key
    (slice message CHUNK_AAD_HEADER_LEN (CHUNK_AAD_HEADER_LEN + AEAD_NONCE_LEN))
    (root ++ slice message 0 CHUNK_AAD_HEADER_LEN) = (0, plaintext) ->
  region DECRYPTED_LEN plaintext = plain_bytes p -> plain_ok p n ->
  verify_merkle_proof n (hashMerkleLeaf (pl_chunk p)) root (pl_proof p) = 0 ->
  receive_message_with_key message root key =
    (0, bset (plain_bytes p) METADATA_LEN (hashMerkleLeaf (pl_chunk p))).
Proof.
  intros Hd Hr Hok Hv. destruct (plain_fields p n Hok) as (Hl & Hu & Hc & Hf).
  destruct Hok as (_ & Hp & Hn & _). unfold receive_message_with_key.
  rewrite Hd, Hr, Hu, Hc, Hf. cbn [Z.eqb negb]. change (crypto_hash_sha512_BYTES + 1) with 65.
  rewrite (Z.mul_comm 65), Z.mod_mul, Z.div_mul, Nat2Z.id by done.
  change PROOF_LEN with 3124. rewrite (proj2 (Z.ltb_ge 3124 _)) by lia. cbn [Z.eqb negb orb].
  rewrite sha512_agree, region_id by (by rewrite sha512_length). cbn [Z.eqb negb].
  change (subtle_digest_sha512 _) with (hashMerkleLeaf (pl_chunk p)).
  rewrite verify_app by done. by rewrite Hv.
Qed.

(** A sealed frame: its header, then the ciphertext that decrypts to the chunk
    under the associated data that the receiver rebuilds. *)
Lemma sealed_receive key nonce root hd pt p n ct :
  blen key = 32 -> blen nonce = 12 -> blen root = 64 -> blen hd = 69 -> slice hd 57 69 = nonce ->
  pt = plain_bytes p -> plain_ok p n ->
  verify_merkle_proof n (hashMerkleLeaf (pl_chunk p)) root (pl_proof p) = 0 ->
  chunkAeadSeal key nonce pt (root ++ slice hd 0 57) = Ok ct ->
  receiveWithKey (hd ++ ct) root key =
    Ok (0, Some (bset pt METADATA_LEN (hashMerkleLeaf (pl_chunk p)))).
Proof.
  intros Hk Hno Hr Hh Hs -> Hok Hv Hseal. destruct (plain_fields p n Hok) as (Hl & _).
  unfold chunkAeadSeal in Hseal. rewrite Hk, Hno in Hseal. cbn [Z.leb Z.compare require mbind result_bind] in Hseal.
  rewrite !region_id in Hseal by done.
  destruct (_encrypt_chachapoly_symmetric _ _ _ _) as [r out] eqn:He.
  destruct (Z.eqb_spec r 0) as [->|]; [|done]. apply Ok_inj in Hseal. subst ct.
  destruct (decrypt_encrypt _ _ _ _ _ He) as (plaintext & Hd & Hp). rewrite Hl in *.
  set (ct := region _ out) in *.
  assert (blen ct = 65421) as Hct by (unfold ct; by apply blen_region).
  unfold receiveWithKey. rewrite Hr, Hk. cbn [Z.leb Z.compare require mbind result_bind].
  rewrite !region_id by done. rewrite blen_app, Hh, Hct. change (Z.min (69 + 65421) MESSAGE_LEN) with 65490.
  rewrite (slice_all (hd ++ ct)) by blen. rewrite bset_zeros by (change MESSAGE_LEN with 65536; blen).
  change (MESSAGE_LEN - blen (hd ++ ct)) with (65536 - blen (hd ++ ct)).
  rewrite (receive_plain _ root key plaintext p n); [done| |done|done|done].
  rewrite <- Hd. change MESSAGE_START with 69. change CHUNK_AAD_HEADER_LEN with 57.
  change AEAD_NONCE_LEN with 12. change (69 + (DECRYPTED_LEN + AEAD_TAG_LEN)) with 65490.
  rewrite <- app_assoc, slice_app_r, Hh by lia. rewrite slice_app_l by lia.
  rewrite !slice_app_in by lia. change (57 + 12) with 69. by rewrite Hs.
Qed.

(** What [receive_message_with_key] decrypts, for a message and for a frame; and
    what is hashed to check the proof in it. *)
Definition opened_cell (message merkle_root message_key : bytes) : bytes :=
  region DECRYPTED_LEN (snd (_decrypt_chachapoly_symmetric
    (slice message MESSAGE_START (MESSAGE_START + (DECRYPTED_LEN + AEAD_TAG_LEN))) message_key
    (slice message CHUNK_AAD_HEADER_LEN (CHUNK_AAD_HEADER_LEN + AEAD_NONCE_LEN))
    (merkle_root ++ slice message 0 CHUNK_AAD_HEADER_LEN))).
Definition frame_cell (frame root key : bytes) : bytes :=
  opened_cell (bset (zeros MESSAGE_LEN) 0 (slice frame 0 (Z.min (blen frame) MESSAGE_LEN)))
    (region crypto_hash_sha512_BYTES root) (region AEAD_KEY_LEN key).
Definition cell_inputs (cell : bytes) : list bytes :=
  let proofLen := get_u32 cell METADATA_LEN in
  item_inputs (Z.to_nat (proofLen / ARTIFACT_BYTES)) (slice cell CHUNK_START DECRYPTED_LEN)
    (slice cell (METADATA_LEN + 4) (METADATA_LEN + 4 + proofLen)).

(** What the C function accepts carries a chunk of the message. *)
Lemma received_member chunks root message key dec :
  getMerkleRoot (tree_of chunks) = Ok root ->
  receive_message_with_key message root key = (0, dec) ->
  slice dec CHUNK_START DECRYPTED_LEN ∈ chunks \/
  collides (message_inputs chunks) (cell_inputs (opened_cell message root key)).
Proof.
  intros Hroot H. unfold cell_inputs, opened_cell. unfold receive_message_with_key in H. destruct (_decrypt_chachapoly_symmetric _ _ _ _) as [d pt].
  destruct (negb (d =? 0)); [done|]. cbv zeta in H |- *. cbn [snd]. set (m := region DECRYPTED_LEN pt) in *.
  assert (blen m = 65405) as Hm by (by apply blen_region).
  set (proofLen := get_u32 m METADATA_LEN) in *. destruct (_ || _) eqn:Hb; [done|].
  apply orb_false_iff in Hb as [Hmod%negb_false_iff%Z.eqb_eq Hle%Z.ltb_ge].
  rewrite sha512_agree in H. cbn [Z.eqb negb] in H. rewrite region_id in H by (by rewrite sha512_length).
  destruct (Z.eqb_spec (verify_merkle_proof (Z.to_nat (proofLen / (crypto_hash_sha512_BYTES + 1)))
    (subtle_digest_sha512 (byte_of MERKLE_LEAF_DOMAIN :: slice m (METADATA_LEN + PROOF_LEN) DECRYPTED_LEN)) root
    (slice_from m (METADATA_LEN + 4))) 0) as [Hv|]; cbn [negb] in H; [|done].
  injection H as <-. change (METADATA_LEN + PROOF_LEN) with CHUNK_START in Hv.
  change (crypto_hash_sha512_BYTES + 1) with 65 in *. change PROOF_LEN with 3124 in *.
  assert (0 <= proofLen) as H0 by (unfold proofLen, get_u32; apply be_decode_range).
  change METADATA_LEN with 369 in *. change CHUNK_START with 3493 in *.
  rewrite slice_bset_other by (rewrite ?sha512_length, ?Hm; change crypto_hash_sha512_BYTES with 64; lia).
  assert (slice_from m 373 = slice m 373 (373 + proofLen) ++ slice_from m (373 + proofLen)) as Hs.
  { rewrite <- (slice_to_end m 373 65405), <- (slice_to_end m (373 + proofLen) 65405) by lia.
    by apply slice_split; lia. }
  change (369 + 4) with 373 in Hv. rewrite Hs in Hv.
  assert (blen (slice m 373 (373 + proofLen)) = 65 * Z.of_nat (Z.to_nat (proofLen / 65))) as Hpl.
  { rewrite blen_slice by lia. rewrite Z2Nat.id by (by apply Z.div_pos). pose proof (Z.div_mod proofLen 65). lia. }
  rewrite verify_app in Hv by done. by eapply verified_leaf in Hv.
Qed.

(** Over the proof region it writes the leaf of that chunk. *)
Lemma received_leaf root message key dec : receive_message_with_key message root key = (0, dec) ->
  slice dec METADATA_LEN (METADATA_LEN + crypto_hash_sha512_BYTES) = hashMerkleLeaf (slice dec CHUNK_START DECRYPTED_LEN).
Proof.
  intros H. unfold receive_message_with_key in H. destruct (_decrypt_chachapoly_symmetric _ _ _ _) as [d pt].
  destruct (negb (d =? 0)); [done|]. cbv zeta in H. set (m := region DECRYPTED_LEN pt) in *.
  assert (blen m = 65405) as Hm by (by apply blen_region).
  destruct (_ || _); [done|]. rewrite sha512_agree in H. cbn [Z.eqb negb] in H.
  rewrite region_id in H by (by rewrite sha512_length).
  destruct (negb (_ =? 0)); [done|]. injection H as <-. unfold hashMerkleLeaf.
  change crypto_hash_sha512_BYTES with 64. change METADATA_LEN with 369 in *.
  change CHUNK_START with 3493. change (369 + PROOF_LEN) with 3493. change DECRYPTED_LEN with 65405.
  rewrite slice_bset_same by (rewrite ?sha512_length, ?Hm; change crypto_hash_sha512_BYTES with 64; lia).
  rewrite slice_bset_other by (rewrite ?sha512_length, ?Hm; change crypto_hash_sha512_BYTES with 64; lia). done.
Qed.

(** A frame that opens with some key. *)
Lemma opened_member chunks root frame key dec : getMerkleRoot (tree_of chunks) = Ok root ->
  receiveWithKey frame root key = Ok (0, dec) ->
  exists pt, dec = Some pt /\ (slice pt CHUNK_START DECRYPTED_LEN ∈ chunks \/
    collides (message_inputs chunks) (cell_inputs (frame_cell frame root key))).
Proof.
  intros Hroot Hw. pose proof (blen_root _ _ Hroot) as Hl. unfold receiveWithKey in Hw. binds Hw.
  unfold frame_cell. rewrite (region_id _ root) in Hw |- * by done.
  destruct (receive_message_with_key _ _ _) as [code pt] eqn:Hr. apply Ok_inj in Hw. injection Hw as -> <-.
  exists pt. split; [done|]. by eapply received_member.
Qed.
Lemma opened_leaf root frame key pt : receiveWithKey frame root key = Ok (0, Some pt) ->
  slice pt METADATA_LEN (METADATA_LEN + crypto_hash_sha512_BYTES) = hashMerkleLeaf (slice pt CHUNK_START DECRYPTED_LEN).
Proof.
  unfold receiveWithKey. intros Hw. binds Hw.
  destruct (receive_message_with_key _ _ _) as [code dec] eqn:Hr. apply Ok_inj in Hw. injection Hw as -> Hd. injection Hd as <-.
  by eapply received_leaf.
Qed.

(** The key of a chunk, on both sides. *)
Definition chunk_key (mk : bytes) (h : RatchetHeader) (ctx : option PqMessageKeyContext) :
  result PqKeyError bytes :=
  match ctx with Some context => derive_message_key mk context h | None => Ok mk end.

Lemma sealChunk_ok mk h pt root ctx nonce frame : sealChunk mk h pt root ctx nonce = Ok frame ->
  exists key ct, blen root = 64 /\ encodable h nonce (from_option ctx_epoch 0 ctx) /\
    chunk_key mk h ctx = Ok key /\
    let hd := cell_header FRAME_TYPE_CHUNK (h_dhPub h) (h_N h) (h_PN h) (from_option ctx_epoch 0 ctx) nonce in
    blen hd = 69 /\ slice hd 57 69 = nonce /\
    chunkAeadSeal key nonce pt (root ++ slice hd 0 57) = Ok ct /\ frame = hd ++ ct.
Proof.
  intros H. unfold sealChunk in H. binds H. apply require_ok, Z.eqb_eq in E.
  destruct (packChunkFrameHeader _ _ _) as [hd|] eqn:Hhd; [|done]. apply Ok_inj in E0. subst x.
  apply packChunk_iff in Hhd as [Hen Hhd]. pose proof Hen as (Hd & Hn & _ & _ & _).
  assert (blen hd = 69) as Hl by (rewrite Hhd; by apply blen_cell_header).
  rewrite buildAad_ok in E1 by done. apply Ok_inj in E1. subst x0.
  exists x1, x2. split; [done|]. split; [done|]. split.
  { destruct ctx as [context|]; cbn in E2 |- *; [destruct (derive_message_key _ _ _); [|done]|];
      by apply Ok_inj in E2 as ->. }
  cbv zeta. rewrite <- Hhd. split_and!; [done| |done|].
  - rewrite Hhd. unfold cell_header. rewrite !app_assoc, slice_app_r by blen.
    rewrite slice_to_end by blen. replace (_ - _) with 0 by blen. done.
  - rewrite <- H. pose proof (blen_nonneg x2). rewrite bset_zeros by lia. rewrite bset_append by lia.
    rewrite zeros_0 by lia. by rewrite app_nil_r.
Qed.
End Roundtrip.

(** ** Delivery of a message *)

Section Delivery.
Context {C : LibCrypto} `{!AeadCorrect C, !HkdfTotal C} {HS : Sha512} `{!Sha512Correct HS}.

(** A chunk on the wire: what the sender put into the frame. *)
Record sent_chunk := {
  sc_chunk : bytes; sc_metadata : bytes; sc_noise : bytes; sc_field : bytes; sc_nonce : bytes;
  sc_frame : bytes;
}.
Definition sc_plaintext (f : sent_chunk) : bytes := sc_metadata f ++ sc_field f ++ sc_chunk f.

(** [f] is a frame of the message [chunks], sealed under the message key. *)
Definition sealed_of (chunks : list bytes) (root mk : bytes) (h : RatchetHeader)
    (ctx : option PqMessageKeyContext) (f : sent_chunk) : Prop :=
  sc_chunk f ∈ chunks /\ blen (sc_chunk f) = CHUNK_LEN /\ blen (sc_metadata f) = METADATA_LEN /\
  getMerkleProof (tree_of chunks) (hashMerkleLeaf (sc_chunk f)) PROOF_LEN (sc_noise f) =
    Ok (sc_field f) /\
  sealChunk mk h (sc_plaintext f) root ctx (sc_nonce f) = Ok (sc_frame f).

(** What the receiver hands on: the plaintext with the leaf hash, the future
    receipt, in front of the proof field. *)
Definition opened (f : sent_chunk) : bytes :=
  bset (sc_plaintext f) METADATA_LEN (hashMerkleLeaf (sc_chunk f)).

Lemma fixed_proof_ok fixedLen noise proof field : fixed_proof fixedLen noise proof = Ok field ->
  exists pad, field = be_encode 4 (blen proof) ++ proof ++ pad /\ 4 + blen proof + blen pad = fixedLen.
Proof.
  intros H. unfold fixed_proof in H. binds H. rewrite require_ok, Z.leb_le in E, E0.
  pose proof (blen_nonneg proof). exists (slice_from (region fixedLen noise) (4 + blen proof)).
  split; [|rewrite blen_slice_from, blen_region by (rewrite ?blen_region; lia); lia].
  rewrite <- H. unfold put_u32. rewrite (bset_over [] (region fixedLen noise) 0) by done. cbn [app].
  rewrite bset_over by blen. do 2 f_equal. unfold slice_from, blen. rewrite length_be_encode, drop_drop.
  f_equal. lia.
Qed.

Lemma sealed_plain chunks root mk h ctx f : blen chunks <= 2 ^ 48 ->
  getMerkleRoot (tree_of chunks) = Ok root -> sealed_of chunks root mk h ctx f ->
  exists p n, plain_ok p n /\ plain_bytes p = sc_plaintext f /\ pl_chunk p = sc_chunk f /\
    verify_merkle_proof n (hashMerkleLeaf (pl_chunk p)) root (pl_proof p) = 0.
Proof.
  intros Hn Hroot (Hin & Hc & Hm & Hf & _).
  destruct (getMerkleRoot_spec chunks) as (root' & Hroot' & Hr); [intros ->; by apply elem_of_nil in Hin|].
  rewrite Hroot in Hroot'. apply Ok_inj in Hroot' as <-.
  destruct (getMerkleProof_spec chunks _ root Hin Hr) as (proof & n & _ & Hp & Hn1 & Hv & Hk & Hfix).
  assert (n <= 48)%nat as Hn48.
  { etrans; [apply (Hk 48%nat)|lia]. apply Nat2Z.inj_le. rewrite Nat2Z.inj_pow. exact Hn. }
  change PROOF_LEN with 3124 in *. rewrite Hfix in Hf by lia.
  apply fixed_proof_ok in Hf as (pad & Hf & Hl).
  exists {| pl_metadata := sc_metadata f; pl_proof := proof; pl_pad := pad; pl_chunk := sc_chunk f |}, n.
  unfold plain_ok, plain_bytes, sc_plaintext. cbn [pl_metadata pl_proof pl_pad pl_chunk].
  rewrite Hf. by split_and!.
Qed.

(** The wire side of a sealed chunk. *)
Lemma sealed_frame chunks root mk h ctx f : blen chunks <= 2 ^ 48 -> blen mk = 32 ->
  getMerkleRoot (tree_of chunks) = Ok root -> sealed_of chunks root mk h ctx f ->
  exists key, chunk_key mk h ctx = Ok key /\ blen root = 64 /\
    receiveWithKey (sc_frame f) root key = Ok (0, Some (opened f)) /\
    exists p, parseChunkFrameHeader (sc_frame f) = Ok p /\ pf_header p = h /\
      pf_pqEpoch p = from_option ctx_epoch 0 ctx.
Proof.
  intros Hn Hmk Hroot Hs. destruct (sealed_plain _ _ _ _ _ _ Hn Hroot Hs) as (p & n & Hok & Hp & Hc & Hv).
  destruct Hs as (_ & _ & _ & _ & Hseal).
  apply sealChunk_ok in Hseal as (key & ct & Hr & Hen & Hkey & Hh & Hno & Hse & ->).
  exists key. split; [done|]. split; [done|].
  assert (blen key = 32) as Hkl.
  { destruct ctx as [context|]; cbn in Hkey; [by apply derive_message_key_length in Hkey|].
    apply Ok_inj in Hkey. congruence. }
  split.
  - rewrite (sealed_receive key (sc_nonce f) root _ (sc_plaintext f) p n ct); try done.
    + unfold opened. by rewrite Hc.
    + apply Hen.
  - eexists. split; [apply parseChunk_iff|].
    + instantiate (1 := {| pf_header := h; pf_pqEpoch := _; pf_nonce := _; pf_ciphertext := _ |}).
      cbn [pf_header pf_pqEpoch pf_nonce pf_ciphertext]. split; [exact Hen|reflexivity].
    + done.
Qed.

(** The frames of a message, in the order they arrive. *)
Fixpoint receive_all (frames : list bytes) (root : bytes)
    (resolver : option PqMessageKeyContextResolver) (e : bytes) (st : receiver) :
  list (result ChunkError DecryptedChunk) * receiver :=
  match frames with
  | [] => ([], st)
  | frame :: frames' =>
      let '(r, st1) := decryptMessageChunk frame root resolver e st in
      let '(rs, st2) := receive_all frames' root resolver e st1 in
      (r :: rs, st2)
  end.

Definition cache_epoch (resolver : option PqMessageKeyContextResolver) (e : Z) : option Z :=
  match resolver with Some _ => Some e | None => None end.

Definition delivered (f : sent_chunk) (advanced : bool) : DecryptedChunk :=
  {| decrypted := Some (opened f); chunk_ok := true; stateAdvanced := advanced |}.

Section Message.
Context (chunks : list bytes) (root mk : bytes) (h : RatchetHeader)
  (ctx : option PqMessageKeyContext) (resolver : option PqMessageKeyContextResolver)
  (suite : RatchetRootSuite) (k : string) (e key : bytes).
Hypothesis (Hn : blen chunks <= 2 ^ 48) (Hmk : blen mk = 32)
  (Hroot : getMerkleRoot (tree_of chunks) = Ok root)
  (Hctx : resolve_context resolver (from_option ctx_epoch 0 ctx) suite = Some ctx)
  (Hk : messageCacheKey (h_dhPub h) (h_N h) (cache_epoch resolver (from_option ctx_epoch 0 ctx)) = Ok k)
  (Hkey : chunk_key mk h ctx = Ok key).

(** The first chunk that arrives steps the ratchet. *)
Lemma deliver_first f st s' : sealed_of chunks root mk h ctx f -> ratchet_inv (ratchet st) ->
  rootSuite (ratchet st) = suite -> map_get k (cache st) = None ->
  ratchetDecrypt h e (ratchet st) = (Ok mk, s') ->
  decryptMessageChunk (sc_frame f) root resolver e st =
    (Ok (delivered f true), {| ratchet := s'; cache := map_set k key (cache st) |}).
Proof.
  intros Hs Hi Hsu Hc Hd. destruct (sealed_frame _ _ _ _ _ _ Hn Hmk Hroot Hs) as (key' & Hk' & Hr & Hw & p & Hp & Hh & He).
  rewrite Hkey in Hk'. apply Ok_inj in Hk' as <-.
  cbv beta iota zeta delta [decryptMessageChunk mrequire require lift get_this set_this
    mret M_ret mbind M_bind map_err].
  rewrite Hr, Hp, He, Hsu, Hctx, Hh. cbn [Z.eqb]. change (64 =? crypto_hash_sha512_BYTES) with true. cbv iota.
  unfold cache_epoch in Hk. rewrite Hk, Hc, (clone_inv _ Hi).
  assert (derive_on_clone (ratchet st) h e ctx = (Some key, s')) as ->.
  { unfold derive_on_clone. rewrite Hd. destruct ctx as [context|]; cbn in Hkey |- *.
    - by rewrite Hkey.
    - apply Ok_inj in Hkey. by rewrite Hkey. }
  rewrite Hw. cbn [Z.eqb]. rewrite adopt_same_suite by (by eapply ratchetDecrypt_suite). done.
Qed.

(** The others use the cached key. *)
Lemma deliver_next f st : sealed_of chunks root mk h ctx f -> rootSuite (ratchet st) = suite ->
  map_get k (cache st) = Some key ->
  decryptMessageChunk (sc_frame f) root resolver e st = (Ok (delivered f false), st).
Proof.
  intros Hs Hsu Hc. destruct (sealed_frame _ _ _ _ _ _ Hn Hmk Hroot Hs) as (key' & Hk' & Hr & Hw & p & Hp & Hh & He).
  rewrite Hkey in Hk'. apply Ok_inj in Hk' as <-.
  cbv beta iota zeta delta [decryptMessageChunk mrequire require lift get_this set_this
    mret M_ret mbind M_bind map_err].
  rewrite Hr, Hp, He, Hsu, Hctx, Hh. change (64 =? crypto_hash_sha512_BYTES) with true. cbv iota.
  unfold cache_epoch in Hk. rewrite Hk, Hc, Hw. done.
Qed.

Lemma deliver_rest fs : forall st, Forall (sealed_of chunks root mk h ctx) fs ->
  rootSuite (ratchet st) = suite -> map_get k (cache st) = Some key ->
  receive_all (sc_frame <$> fs) root resolver e st = ((fun f => Ok (delivered f false)) <$> fs, st).
Proof.
  induction fs as [|f fs IH]; intros st Hs Hsu Hc; [done|]. inversion_clear Hs.
  cbn [fmap list_fmap receive_all]. rewrite deliver_next by done.
  change (list_fmap _ _ sc_frame fs) with (sc_frame <$> fs). by rewrite IH.
Qed.
End Message.

(** ** Theorems *)

(** A message is delivered: take any non-empty selection of its chunks, in
    any order and with repetitions, sealed by the sender under the message key
    that the receiver's ratchet derives for the header.  Every frame decrypts
    to its metadata, leaf hash and chunk, the ratchet takes exactly the one
    step of that header and the key is cached. *)
Theorem message_delivered chunks root mk h ctx resolver k e st s' f fs :
  blen chunks <= 2 ^ 48 -> blen mk = 32 -> getMerkleRoot (tree_of chunks) = Ok root ->
  Forall (sealed_of chunks root mk h ctx) (f :: fs) ->
  resolve_context resolver (from_option ctx_epoch 0 ctx) (rootSuite (ratchet st)) = Some ctx ->
  messageCacheKey (h_dhPub h) (h_N h) (cache_epoch resolver (from_option ctx_epoch 0 ctx)) = Ok k ->
  ratchet_inv (ratchet st) -> map_get k (cache st) = None ->
  ratchetDecrypt h e (ratchet st) = (Ok mk, s') ->
  exists key, chunk_key mk h ctx = Ok key /\
    receive_all (sc_frame <$> f :: fs) root resolver e st =
      (Ok (delivered f true) :: ((fun g => Ok (delivered g false)) <$> fs),
       {| ratchet := s'; cache := map_set k key (cache st) |}).
Proof.
  intros Hn Hmk Hroot [Hf Hfs]%Forall_cons Hctx Hk Hi Hc Hd.
  destruct (sealed_frame _ _ _ _ _ _ Hn Hmk Hroot Hf) as (key & Hkey & _). exists key. split; [done|].
  cbn [fmap list_fmap receive_all].
  rewrite (deliver_first chunks root mk h ctx resolver (rootSuite (ratchet st)) k e key Hn Hmk Hroot Hctx Hk Hkey
    f st s') by done.
  change (list_fmap _ _ sc_frame fs) with (sc_frame <$> fs).
  rewrite (deliver_rest chunks root mk h ctx resolver (rootSuite (ratchet st)) k e key); try done.
  - by eapply ratchetDecrypt_suite.
  - apply map_get_set_same.
Qed.

(** Forged, replayed or undecodable frames change nothing: whatever bytes
    arrive, either the ratchet and the cache are exactly what they were and no
    advance is reported, or the frame authenticated under the key of the step
    that its header asks for, and exactly that step was adopted. *)
Theorem unauthenticated_frame_rolls_back frame root resolver e st :
  ratchet_inv (ratchet st) ->
  let '(r, st') := decryptMessageChunk frame root resolver e st in
  (st' = st /\ forall d, r = Ok d -> stateAdvanced d = false) \/
  committed frame root resolver e st r st'.
Proof.
  intros Hi. destruct (decryptMessageChunk frame root resolver e st) as [r st'] eqn:H.
  by apply decrypt_cases.
Qed.

(** C33. Only chunks of the message are accepted: whoever made the frame, and
    whatever key opened it, a chunk that is reported good against the root of
    a message is one of its chunks, or one of the blocks that were hashed to make
    the root and one of those that are hashed to check the proof in this frame
    are different and have the same SHA-512 digest. *)
Theorem accepted_chunk_is_genuine chunks root frame resolver e st d st' :
  getMerkleRoot (tree_of chunks) = Ok root ->
  decryptMessageChunk frame root resolver e st = (Ok d, st') -> chunk_ok d = true ->
  exists pt key, decrypted d = Some pt /\ receiveWithKey frame root key = Ok (0, Some pt) /\
    (slice pt CHUNK_START DECRYPTED_LEN ∈ chunks \/
     collides (message_inputs chunks) (cell_inputs (frame_cell frame root key))).
Proof.
  intros Hroot H Hok. destruct (ok_source _ _ _ _ _ _ _ H Hok) as (key & Hw).
  destruct (opened_member _ _ _ _ _ Hroot Hw) as (pt & Hd & Hm). exists pt, key. by rewrite <- Hd.
Qed.
End Delivery.
