(* ===== verification/RoomPolicy.v ===== *)
(** * Room policies ([src/src/roomPolicy.ts])

    The non-secret policy of a room, its validation and its fixed-width
    encoding, whose hash is part of the handshake transcript.  The modes are
    enumerations, so the source's checks that an untyped value is a plain record
    with known strings have no counterpart.  The quotient
    [cadence / (lanes * frames) < 25] is the comparison
    [cadence < 25 * (lanes * frames)]: with the ranges checked just before it,
    the rounding of the division cannot change the outcome. *)

From S2P Require Import Prelude Bytes Constants.
Local Open Scope Z_scope.

Inductive RoomAuthMode := nopin | pin.
Inductive RoomPqMode := hybrid_mlkem512 | hybrid_mlkem768 | hybrid_mlkem1024.
Inductive RoomRendezvousMode := legacy_signaling | opaque_token | blind_meeting_point.
Inductive RoomCoverMode := immediate | scheduled.

Definition roomPqModeToParameterSet (mode : RoomPqMode) : Z :=
  match mode with hybrid_mlkem512 => 512 | hybrid_mlkem768 => 768 | hybrid_mlkem1024 => 1024 end.
Definition roomPqModeToRootSuite (mode : RoomPqMode) : RatchetRootSuite :=
  match mode with
  | hybrid_mlkem512 => MLKEM512 | hybrid_mlkem768 => MLKEM768 | hybrid_mlkem1024 => MLKEM1024
  end.
Definition rootSuiteToRoomPqMode (suite : RatchetRootSuite) : RoomPqMode :=
  match suite with
  | MLKEM512 => hybrid_mlkem512 | MLKEM768 => hybrid_mlkem768 | MLKEM1024 => hybrid_mlkem1024
  end.

Record RoomPolicyV1 := {
  version : Z;
  revision : Z;
  wireVersion : Z;
  authMode : RoomAuthMode;
  pqMode : RoomPqMode;
  rendezvousMode : RoomRendezvousMode;
  coverMode : RoomCoverMode;
  coverCadenceMs : Z;
  coverLanes : Z;
  coverFramesPerCell : Z;
  coverDurationEpochs : Z;
}.

Definition ROOM_POLICY_V1_ENCODED_LEN : Z := 32.
Definition MIN_COVER_CADENCE_MS : Z := 1000.
Definition MAX_COVER_CADENCE_MS : Z := 3600000.
Definition MAX_COVER_LANES : Z := 16.
Definition MAX_COVER_FRAMES_PER_CELL : Z := 1024.
Definition MIN_COVER_SLOT_MS : Z := 25.

Definition POLICY_MAGIC : bytes := byte_of <$> [0x50; 0x32; 0x52; 0x50].
Definition POLICY_FORMAT_VERSION : Z := 1.
Definition RESERVED_START : Z := 24.
Definition POLICY_HASH_DOMAIN : bytes := text "p2party/room-policy/v1" ++ [byte_of 0].

Definition AUTH_MODE_TO_BYTE (m : RoomAuthMode) : Z := match m with nopin => 0 | pin => 1 end.
Definition PQ_MODE_TO_BYTE (m : RoomPqMode) : Z :=
  match m with hybrid_mlkem768 => 1 | hybrid_mlkem512 => 2 | hybrid_mlkem1024 => 3 end.
Definition RENDEZVOUS_MODE_TO_BYTE (m : RoomRendezvousMode) : Z :=
  match m with legacy_signaling => 0 | opaque_token => 1 | blind_meeting_point => 2 end.
Definition COVER_MODE_TO_BYTE (m : RoomCoverMode) : Z :=
  match m with immediate => 0 | scheduled => 1 end.

Inductive PolicyError :=
  | BadAuthMode | BadPqMode | BadRendezvousMode | BadCoverMode
  | BadVersion | BadWireVersion | OutOfRange | ImmediateFields
  | BadCadence | BadLanes | BadFrames | SlotTooShort | BadDuration
  | BadEncodedLength | BadMagic | BadReserved.

Definition byteToAuthMode (value : Z) : result PolicyError RoomAuthMode :=
  if value =? 0 then Ok nopin else if value =? 1 then Ok pin else Err BadAuthMode.
Definition byteToPqMode (value : Z) : result PolicyError RoomPqMode :=
  if value =? 1 then Ok hybrid_mlkem768 else if value =? 2 then Ok hybrid_mlkem512
  else if value =? 3 then Ok hybrid_mlkem1024 else Err BadPqMode.
Definition byteToRendezvousMode (value : Z) : result PolicyError RoomRendezvousMode :=
  if value =? 0 then Ok legacy_signaling else if value =? 1 then Ok opaque_token
  else if value =? 2 then Ok blind_meeting_point else Err BadRendezvousMode.
Definition byteToCoverMode (value : Z) : result PolicyError RoomCoverMode :=
  if value =? 0 then Ok immediate else if value =? 1 then Ok scheduled else Err BadCoverMode.

Definition assertUnsignedInteger (value max : Z) : result PolicyError unit :=
  require ((0 <=? value) && (value <=? max)) OutOfRange.

Definition validateRoomPolicyV1 (policy : RoomPolicyV1) : result PolicyError unit :=
  require (version policy =? POLICY_FORMAT_VERSION) BadVersion;;
  require (wireVersion policy =? PROTOCOL_VERSION) BadWireVersion;;
  assertUnsignedInteger (revision policy) 0xffffffff;;
  assertUnsignedInteger (coverCadenceMs policy) 0xffffffff;;
  assertUnsignedInteger (coverLanes policy) 0xffff;;
  assertUnsignedInteger (coverFramesPerCell policy) 0xffff;;
  assertUnsignedInteger (coverDurationEpochs policy) 0xffff;;
  match coverMode policy with
  | immediate =>
      require ((coverCadenceMs policy =? 0) && (coverLanes policy =? 0)
               && (coverFramesPerCell policy =? 0) && (coverDurationEpochs policy =? 0))
        ImmediateFields
  | scheduled =>
      require (negb ((coverCadenceMs policy <? MIN_COVER_CADENCE_MS)
                     || (MAX_COVER_CADENCE_MS <? coverCadenceMs policy))) BadCadence;;
      require (negb ((coverLanes policy <? 1) || (MAX_COVER_LANES <? coverLanes policy))) BadLanes;;
      require (negb ((coverFramesPerCell policy <? 1)
                     || (MAX_COVER_FRAMES_PER_CELL <? coverFramesPerCell policy))) BadFrames;;
      require (negb (coverCadenceMs policy
                     <? MIN_COVER_SLOT_MS * (coverLanes policy * coverFramesPerCell policy)))
        SlotTooShort;;
      require (negb (coverDurationEpochs policy <? 1)) BadDuration
  end.

Definition put_be (n : nat) (buf : bytes) (off v : Z) : bytes := bset buf off (be_encode n v).
Definition get_be (n : Z) (buf : bytes) (off : Z) : Z := be_decode (slice buf off (off + n)).

Definition encodeRoomPolicyV1 (policy : RoomPolicyV1) : result PolicyError bytes :=
  validateRoomPolicyV1 policy;;
  let encoded := zeros ROOM_POLICY_V1_ENCODED_LEN in
  let encoded := bset encoded 0 POLICY_MAGIC in
  let encoded := bset encoded 4 [byte_of POLICY_FORMAT_VERSION] in
  let encoded := bset encoded 5 [byte_of (wireVersion policy)] in
  let encoded := bset encoded 6 [byte_of (AUTH_MODE_TO_BYTE (authMode policy))] in
  let encoded := bset encoded 7 [byte_of (PQ_MODE_TO_BYTE (pqMode policy))] in
  let encoded := bset encoded 8 [byte_of (RENDEZVOUS_MODE_TO_BYTE (rendezvousMode policy))] in
  let encoded := bset encoded 9 [byte_of (COVER_MODE_TO_BYTE (coverMode policy))] in
  let encoded := put_be 4 encoded 10 (revision policy) in
  let encoded := put_be 4 encoded 14 (coverCadenceMs policy) in
  let encoded := put_be 2 encoded 18 (coverLanes policy) in
  let encoded := put_be 2 encoded 20 (coverFramesPerCell policy) in
  Ok (put_be 2 encoded 22 (coverDurationEpochs policy)).

Definition byte_at (encoded : bytes) (i : Z) : Z := default (-1) (at_ encoded i).

Definition decodeRoomPolicyV1 (encoded : bytes) : result PolicyError RoomPolicyV1 :=
  require (blen encoded =? ROOM_POLICY_V1_ENCODED_LEN) BadEncodedLength;;
  require (bool_decide (slice encoded 0 4 = POLICY_MAGIC)) BadMagic;;
  require (forallb (fun b => u8 b =? 0) (slice_from encoded RESERVED_START)) BadReserved;;
  auth ← byteToAuthMode (byte_at encoded 6);
  pq ← byteToPqMode (byte_at encoded 7);
  rendezvous ← byteToRendezvousMode (byte_at encoded 8);
  cover ← byteToCoverMode (byte_at encoded 9);
  let policy := {|
    version := byte_at encoded 4; wireVersion := byte_at encoded 5;
    authMode := auth; pqMode := pq; rendezvousMode := rendezvous; coverMode := cover;
    revision := get_be 4 encoded 10; coverCadenceMs := get_be 4 encoded 14;
    coverLanes := get_be 2 encoded 18; coverFramesPerCell := get_be 2 encoded 20;
    coverDurationEpochs := get_be 2 encoded 22 |} in
  validateRoomPolicyV1 policy;;
  Ok policy.

Definition canonicalizeRoomPolicyV1 (policy : RoomPolicyV1) : result PolicyError RoomPolicyV1 :=
  encoded ← encodeRoomPolicyV1 policy; decodeRoomPolicyV1 encoded.

Definition roomPoliciesEqualV1 (left right : RoomPolicyV1) : result PolicyError bool :=
  a ← encodeRoomPolicyV1 left;
  b ← encodeRoomPolicyV1 right;
  Ok (xor_difference a b =? 0).

(** The input of SHA-256. *)
Definition policyHashInput (policy : RoomPolicyV1) : result PolicyError bytes :=
  encoded ← encodeRoomPolicyV1 policy;
  let input := zeros (blen POLICY_HASH_DOMAIN + blen encoded) in
  let input := bset input 0 POLICY_HASH_DOMAIN in
  Ok (bset input (blen POLICY_HASH_DOMAIN) encoded).

Definition DEFAULT_ROOM_POLICY_V1 : RoomPolicyV1 := {|
  version := 1; revision := 0; wireVersion := 4; authMode := nopin; pqMode := hybrid_mlkem768;
  rendezvousMode := legacy_signaling; coverMode := immediate; coverCadenceMs := 0;
  coverLanes := 0; coverFramesPerCell := 0; coverDurationEpochs := 0 |}.

(** ** Lemmas *)

Definition policy_bytes (p : RoomPolicyV1) : bytes :=
  POLICY_MAGIC ++ [byte_of 1; byte_of (wireVersion p); byte_of (AUTH_MODE_TO_BYTE (authMode p));
    byte_of (PQ_MODE_TO_BYTE (pqMode p)); byte_of (RENDEZVOUS_MODE_TO_BYTE (rendezvousMode p));
    byte_of (COVER_MODE_TO_BYTE (coverMode p))]
  ++ be_encode 4 (revision p) ++ be_encode 4 (coverCadenceMs p) ++ be_encode 2 (coverLanes p)
  ++ be_encode 2 (coverFramesPerCell p) ++ be_encode 2 (coverDurationEpochs p) ++ zeros 8.

Lemma encodePolicy_ok p :
  validateRoomPolicyV1 p = Ok tt -> encodeRoomPolicyV1 p = Ok (policy_bytes p).
Proof.
  intros Hv. unfold encodeRoomPolicyV1. rewrite Hv. reflexivity.
Qed.

Lemma validate_inv p : validateRoomPolicyV1 p = Ok tt ->
  version p = 1 /\ wireVersion p = 4 /\ 0 <= revision p < 2 ^ 32 /\ 0 <= coverCadenceMs p < 2 ^ 32 /\
  0 <= coverLanes p < 2 ^ 16 /\ 0 <= coverFramesPerCell p < 2 ^ 16 /\
  0 <= coverDurationEpochs p < 2 ^ 16.
Proof.
  intros H. unfold validateRoomPolicyV1, assertUnsignedInteger in H. binds H.
  rewrite require_ok in E, E0, E1, E2, E3, E4, E5. apply Z.eqb_eq in E, E0.
  rewrite andb_true_iff, !Z.leb_le in E1, E2, E3, E4, E5.
  change POLICY_FORMAT_VERSION with 1 in E. change PROTOCOL_VERSION with 4 in E0. lia.
Qed.

Lemma blen_policy_bytes p : blen (policy_bytes p) = 32.
Proof. unfold policy_bytes. assert (blen POLICY_MAGIC = 4) by done. blen. Qed.

Lemma be_decode_small n z : 0 <= z < 256 ^ Z.of_nat n -> be_decode (be_encode n z) = z.
Proof. intros. rewrite be_decode_encode. by apply Z.mod_small. Qed.

(** The numeric fields read back. *)
Lemma policy_numbers p : validateRoomPolicyV1 p = Ok tt ->
  get_be 4 (policy_bytes p) 10 = revision p /\ get_be 4 (policy_bytes p) 14 = coverCadenceMs p /\
  get_be 2 (policy_bytes p) 18 = coverLanes p /\ get_be 2 (policy_bytes p) 20 = coverFramesPerCell p /\
  get_be 2 (policy_bytes p) 22 = coverDurationEpochs p /\
  slice_from (policy_bytes p) RESERVED_START = zeros 8.
Proof.
  intros (_ & _ & Hr & Hc & Hl & Hf & Hd)%validate_inv. unfold get_be, policy_bytes.
  assert (blen POLICY_MAGIC = 4) by done.
  split_and!.
  - do 2 rewrite slice_app_r by blen. rewrite slice_app_l by blen. by apply be_decode_small.
  - do 3 rewrite slice_app_r by blen. rewrite slice_app_l by blen. by apply be_decode_small.
  - do 4 rewrite slice_app_r by blen. rewrite slice_app_l by blen. by apply be_decode_small.
  - do 5 rewrite slice_app_r by blen. rewrite slice_app_l by blen. by apply be_decode_small.
  - do 6 rewrite slice_app_r by blen. rewrite slice_app_l by blen. by apply be_decode_small.
  - rewrite <- (slice_to_end _ RESERVED_START 32) by (change RESERVED_START with 24; blen).
    change RESERVED_START with 24. do 7 rewrite slice_app_r by blen.
    apply slice_all. blen.
Qed.

(** The one-byte fields read back. *)
Lemma policy_tags p : validateRoomPolicyV1 p = Ok tt ->
  byte_at (policy_bytes p) 4 = version p /\ byte_at (policy_bytes p) 5 = wireVersion p /\
  byteToAuthMode (byte_at (policy_bytes p) 6) = Ok (authMode p) /\
  byteToPqMode (byte_at (policy_bytes p) 7) = Ok (pqMode p) /\
  byteToRendezvousMode (byte_at (policy_bytes p) 8) = Ok (rendezvousMode p) /\
  byteToCoverMode (byte_at (policy_bytes p) 9) = Ok (coverMode p).
Proof.
  intros (Hv & Hw & _)%validate_inv. rewrite Hv, Hw. unfold byte_at, policy_bytes. rewrite Hw.
  split_and!; try reflexivity.
  - by destruct (authMode p).
  - by destruct (pqMode p).
  - by destruct (rendezvousMode p).
  - by destruct (coverMode p).
Qed.

Lemma decodePolicy_ok p :
  validateRoomPolicyV1 p = Ok tt -> decodeRoomPolicyV1 (policy_bytes p) = Ok p.
Proof.
  intros Hv. destruct (policy_numbers p Hv) as (H1 & H2 & H3 & H4 & H5 & H6).
  destruct (policy_tags p Hv) as (T1 & T2 & T3 & T4 & T5 & T6).
  unfold decodeRoomPolicyV1. rewrite blen_policy_bytes, H6.
  rewrite bool_decide_true by (by apply slice_app_l). cbn [mbind result_bind].
  change (forallb (λ b, u8 b =? 0) (zeros 8)) with true. cbn [mbind result_bind require].
  rewrite T3, T4, T5, T6. cbn [mbind result_bind]. rewrite T1, T2, H1, H2, H3, H4, H5.
  destruct p. cbn in *. by rewrite Hv.
Qed.

Lemma byteToAuthMode_inv v m : byteToAuthMode v = Ok m -> v = AUTH_MODE_TO_BYTE m.
Proof. unfold byteToAuthMode. intros. repeat case_match; simplify_eq; cbn; lia. Qed.
Lemma byteToPqMode_inv v m : byteToPqMode v = Ok m -> v = PQ_MODE_TO_BYTE m.
Proof. unfold byteToPqMode. intros. repeat case_match; simplify_eq; cbn; lia. Qed.
Lemma byteToRendezvousMode_inv v m : byteToRendezvousMode v = Ok m -> v = RENDEZVOUS_MODE_TO_BYTE m.
Proof. unfold byteToRendezvousMode. intros. repeat case_match; simplify_eq; cbn; lia. Qed.
Lemma byteToCoverMode_inv v m : byteToCoverMode v = Ok m -> v = COVER_MODE_TO_BYTE m.
Proof. unfold byteToCoverMode. intros. repeat case_match; simplify_eq; cbn; lia. Qed.

Lemma slice_byte_at l i v : 0 <= i < blen l -> byte_at l i = v -> slice l i (i + 1) = [byte_of v].
Proof.
  intros Hi <-. unfold byte_at, at_ in *. apply slice_one; [lia|]. unfold at_.
  destruct (l !! Z.to_nat i) eqn:Hl; [done|]. apply lookup_ge_None in Hl. unfold blen in Hi. lia.
Qed.

Lemma slice_get_be l (n : nat) k off : k = Z.of_nat n -> 0 <= off -> off + k <= blen l ->
  slice l off (off + k) = be_encode n (get_be k l off).
Proof.
  intros -> Ho Hn. unfold get_be. rewrite <- (be_encode_decode (slice l off (off + Z.of_nat n))) at 1.
  f_equal. pose proof (blen_slice l off (off + Z.of_nat n)) as Hl. unfold blen in *. lia.
Qed.

Lemma forallb_zero l : forallb (fun b => u8 b =? 0) l = true -> l = zeros (blen l).
Proof.
  intros H. apply or_all_zero. rewrite forallb_forall in H. unfold or_all.
  apply lor_fold_zero. split; [done|]. apply list.Forall_forall. intros b Hb.
  apply Z.eqb_eq, H. by apply list_elem_of_In.
Qed.

(** Whatever decodes is the encoding of what it decodes to. *)
Lemma decodePolicy_inv encoded p : decodeRoomPolicyV1 encoded = Ok p ->
  validateRoomPolicyV1 p = Ok tt /\ encoded = policy_bytes p.
Proof.
  intros H. unfold decodeRoomPolicyV1 in H. binds H. rewrite require_ok in E, E0, E1.
  apply Z.eqb_eq in E. apply bool_decide_eq_true in E0. apply forallb_zero in E1.
  change ROOM_POLICY_V1_ENCODED_LEN with 32 in E. change RESERVED_START with 24 in E1.
  apply byteToAuthMode_inv in E2. apply byteToPqMode_inv in E3.
  apply byteToRendezvousMode_inv in E4. apply byteToCoverMode_inv in E5.
  pose proof E6 as (Hv & Hw & _)%validate_inv. cbn in Hv, Hw. subst p. split; [done|].
  rewrite blen_slice_from in E1 by lia. rewrite E in E1. change (32 - 24) with 8 in E1.
  unfold policy_bytes. cbn [revision coverCadenceMs coverLanes coverFramesPerCell
    coverDurationEpochs wireVersion authMode pqMode rendezvousMode coverMode].
  rewrite Hw, <- E1, <- E0.
  rewrite <- (slice_to_end encoded 24 32) by lia.
  rewrite <- (slice_get_be encoded 4 4 10), <- (slice_get_be encoded 4 4 14),
    <- (slice_get_be encoded 2 2 18), <- (slice_get_be encoded 2 2 20), <- (slice_get_be encoded 2 2 22) by lia.
  change [byte_of 1; byte_of 4; byte_of (AUTH_MODE_TO_BYTE x); byte_of (PQ_MODE_TO_BYTE x0);
    byte_of (RENDEZVOUS_MODE_TO_BYTE x1); byte_of (COVER_MODE_TO_BYTE x2)]
    with ([byte_of 1] ++ [byte_of 4] ++ [byte_of (AUTH_MODE_TO_BYTE x)] ++ [byte_of (PQ_MODE_TO_BYTE x0)]
      ++ [byte_of (RENDEZVOUS_MODE_TO_BYTE x1)] ++ [byte_of (COVER_MODE_TO_BYTE x2)]).
  rewrite <- (slice_byte_at encoded 4 1), <- (slice_byte_at encoded 5 4), <- (slice_byte_at encoded 6 _ ltac:(lia) E2),
    <- (slice_byte_at encoded 7 _ ltac:(lia) E3), <- (slice_byte_at encoded 8 _ ltac:(lia) E4),
    <- (slice_byte_at encoded 9 _ ltac:(lia) E5) by (done || lia).
  change (22 + 2) with 24. change (20 + 2) with 22. change (18 + 2) with 20.
  change (14 + 4) with 18. change (10 + 4) with 14. change (9 + 1) with 10. change (8 + 1) with 9.
  change (7 + 1) with 8. change (6 + 1) with 7. change (5 + 1) with 6. change (4 + 1) with 5.
  rewrite <- !app_assoc.
  rewrite <- (slice_split encoded 22 24), <- (slice_split encoded 20 22),
    <- (slice_split encoded 18 20), <- (slice_split encoded 14 18), <- (slice_split encoded 10 14),
    <- (slice_split encoded 9 10), <- (slice_split encoded 8 9), <- (slice_split encoded 7 8),
    <- (slice_split encoded 6 7), <- (slice_split encoded 5 6), <- (slice_split encoded 4 5),
    <- (slice_split encoded 0 4) by lia.
  symmetry. by apply slice_all.
Qed.

Lemma xor_difference_refl a : xor_difference a a = 0.
Proof.
  pose proof (bytesEqual_refl a) as H. unfold bytesEqual in H.
  rewrite Z.eqb_refl in H. by apply Z.eqb_eq in H.
Qed.

(** ** Theorems *)

(** Policies round trip: exactly the valid policies encode, to 32 bytes, and
    decode back to themselves. *)
Theorem room_policy_roundtrip p :
  (is_ok (encodeRoomPolicyV1 p) = true <-> validateRoomPolicyV1 p = Ok tt) /\
  forall encoded, encodeRoomPolicyV1 p = Ok encoded ->
    blen encoded = ROOM_POLICY_V1_ENCODED_LEN /\ decodeRoomPolicyV1 encoded = Ok p.
Proof.
  split; [split|].
  - unfold encodeRoomPolicyV1. destruct (validateRoomPolicyV1 p) as [[]|]; done.
  - intros Hv. by rewrite encodePolicy_ok.
  - intros encoded H. assert (validateRoomPolicyV1 p = Ok tt) as Hv
      by (unfold encodeRoomPolicyV1 in H; by destruct (validateRoomPolicyV1 p) as [[]|]).
    rewrite encodePolicy_ok in H by done. apply Ok_inj in H as <-.
    split; [apply blen_policy_bytes|by apply decodePolicy_ok].
Qed.

(** The encoding is canonical: any 32 bytes that decode are exactly the
    encoding of the policy they decode to, so equal policies have equal
    transcript hashes inputs and different bytes mean different policies. *)
Theorem room_policy_canonical encoded p :
  decodeRoomPolicyV1 encoded = Ok p -> encodeRoomPolicyV1 p = Ok encoded.
Proof. intros [Hv ->]%decodePolicy_inv. by apply encodePolicy_ok. Qed.

(** Comparing policies through their encodings is equality: on valid
    policies [roomPoliciesEqualV1] returns, and returns true exactly when they
    are the same policy. *)
Theorem room_policies_equal_spec p q :
  validateRoomPolicyV1 p = Ok tt -> validateRoomPolicyV1 q = Ok tt ->
  exists b, roomPoliciesEqualV1 p q = Ok b /\ (b = true <-> p = q).
Proof.
  intros Hp Hq. unfold roomPoliciesEqualV1. rewrite !encodePolicy_ok by done. cbn [mbind result_bind].
  eexists. split; [done|]. split.
  - intros H. assert (bytesEqual (policy_bytes p) (policy_bytes q) = true) as He%bytesEqual_spec.
    { unfold bytesEqual. by rewrite !blen_policy_bytes. }
    apply decodePolicy_ok in Hp, Hq. congruence.
  - intros ->. by rewrite xor_difference_refl.
Qed.
