(* ===== verification/MlKem.v ===== *)
(** * ML-KEM suites and backends ([src/src/cryptography/mlkem.ts])

    The suite descriptors, their lookup, and the interface of a backend: the
    class [MlKemBackend] states what the callers use of it, [MlKemCorrect] and
    [MlKemTotal] what they rely on.  [MlKemWasm] implements it. *)

From S2P Require Import Prelude Bytes.
Local Open Scope Z_scope.

Definition ML_KEM_512_PUBLIC_KEY_BYTES : Z := 800.
Definition ML_KEM_512_SECRET_KEY_BYTES : Z := 1632.
Definition ML_KEM_512_CIPHERTEXT_BYTES : Z := 768.
Definition ML_KEM_768_PUBLIC_KEY_BYTES : Z := 1184.
Definition ML_KEM_768_SECRET_KEY_BYTES : Z := 2400.
Definition ML_KEM_768_CIPHERTEXT_BYTES : Z := 1088.
Definition ML_KEM_1024_PUBLIC_KEY_BYTES : Z := 1568.
Definition ML_KEM_1024_SECRET_KEY_BYTES : Z := 3168.
Definition ML_KEM_1024_CIPHERTEXT_BYTES : Z := 1568.
Definition ML_KEM_SHARED_SECRET_BYTES : Z := 32.
Definition ML_KEM_KEYPAIR_RANDOM_BYTES : Z := 64.
Definition ML_KEM_ENCAPS_RANDOM_BYTES : Z := 32.

Record WasmExports := { keypair : string; encaps : string; decaps : string }.

Record MlKemSuiteDescriptor := {
  parameterSet : Z;
  standardName : string;
  publicKeyBytes : Z;
  secretKeyBytes : Z;
  ciphertextBytes : Z;
  sharedSecretBytes : Z;
  keyPairRandomBytes : Z;
  encapsRandomBytes : Z;
  wasmExports : WasmExports;
}.

Definition ML_KEM_512_SUITE : MlKemSuiteDescriptor := {|
  parameterSet := 512;
  standardName := "ML-KEM-512";
  publicKeyBytes := ML_KEM_512_PUBLIC_KEY_BYTES;
  secretKeyBytes := ML_KEM_512_SECRET_KEY_BYTES;
  ciphertextBytes := ML_KEM_512_CIPHERTEXT_BYTES;
  sharedSecretBytes := ML_KEM_SHARED_SECRET_BYTES;
  keyPairRandomBytes := ML_KEM_KEYPAIR_RANDOM_BYTES;
  encapsRandomBytes := ML_KEM_ENCAPS_RANDOM_BYTES;
  wasmExports := {| keypair := "_mlkem512_keypair"; encaps := "_mlkem512_encaps";
                    decaps := "_mlkem512_decaps" |};
|}.

Definition ML_KEM_768_SUITE : MlKemSuiteDescriptor := {|
  parameterSet := 768;
  standardName := "ML-KEM-768";
  publicKeyBytes := ML_KEM_768_PUBLIC_KEY_BYTES;
  secretKeyBytes := ML_KEM_768_SECRET_KEY_BYTES;
  ciphertextBytes := ML_KEM_768_CIPHERTEXT_BYTES;
  sharedSecretBytes := ML_KEM_SHARED_SECRET_BYTES;
  keyPairRandomBytes := ML_KEM_KEYPAIR_RANDOM_BYTES;
  encapsRandomBytes := ML_KEM_ENCAPS_RANDOM_BYTES;
  wasmExports := {| keypair := "_mlkem768_keypair"; encaps := "_mlkem768_encaps";
                    decaps := "_mlkem768_decaps" |};
|}.

Definition ML_KEM_1024_SUITE : MlKemSuiteDescriptor := {|
  parameterSet := 1024;
  standardName := "ML-KEM-1024";
  publicKeyBytes := ML_KEM_1024_PUBLIC_KEY_BYTES;
  secretKeyBytes := ML_KEM_1024_SECRET_KEY_BYTES;
  ciphertextBytes := ML_KEM_1024_CIPHERTEXT_BYTES;
  sharedSecretBytes := ML_KEM_SHARED_SECRET_BYTES;
  keyPairRandomBytes := ML_KEM_KEYPAIR_RANDOM_BYTES;
  encapsRandomBytes := ML_KEM_ENCAPS_RANDOM_BYTES;
  wasmExports := {| keypair := "_mlkem1024_keypair"; encaps := "_mlkem1024_encaps";
                    decaps := "_mlkem1024_decaps" |};
|}.

(** [None] is the [RangeError] for an unsupported parameter set. *)
Definition getMlKemSuite (ps : Z) : option MlKemSuiteDescriptor :=
  if ps =? 512 then Some ML_KEM_512_SUITE
  else if ps =? 768 then Some ML_KEM_768_SUITE
  else if ps =? 1024 then Some ML_KEM_1024_SUITE
  else None.

(** A key pair as the backend returns it; [destroy] zeroes the secret key. *)
Record MlKemKeyPair := { kp_public : bytes; kp_secret : bytes }.

(** ** The backend

    Each asynchronous call draws fresh randomness: the [coins] argument is the
    entropy the TypeScript supplies.  [None] is a rejected promise. *)
Class MlKemBackend := {
  backend_suite : MlKemSuiteDescriptor;
  generateKeyPair : bytes -> option MlKemKeyPair;
  encapsulate : bytes -> bytes -> option (bytes * bytes);
  decapsulate : bytes -> bytes -> option bytes;
}.

(** FIPS 203 correctness, as the healing exchange relies on it: decapsulating
    a ciphertext made for the public key of a generated pair gives the shared
    secret of the encapsulation. *)
Class MlKemCorrect (B : MlKemBackend) : Prop := {
  decapsulate_encapsulate coins kp coins' ct ss :
    generateKeyPair coins = Some kp ->
    encapsulate coins' (kp_public kp) = Some (ct, ss) ->
    decapsulate ct (kp_secret kp) = Some ss;
}.

(** A backend that answers: with coins of the suite's sizes key generation, and
    encapsulation to a generated public key, resolve with outputs of the suite's
    sizes. *)
Class MlKemTotal (B : MlKemBackend) : Prop := {
  generateKeyPair_total coins :
    blen coins = keyPairRandomBytes backend_suite ->
    exists kp, generateKeyPair coins = Some kp /\
      blen (kp_public kp) = publicKeyBytes backend_suite /\
      blen (kp_secret kp) = secretKeyBytes backend_suite;
  encapsulate_total coins' kp coins :
    generateKeyPair coins' = Some kp -> blen coins = encapsRandomBytes backend_suite ->
    exists ct ss, encapsulate coins (kp_public kp) = Some (ct, ss) /\
      blen ct = ciphertextBytes backend_suite /\ blen ss = sharedSecretBytes backend_suite;
}.
