(* ===== verification/MlKemWasm.v ===== *)
(** * The WebAssembly ML-KEM backend

    [WasmMlKemBackend] of [src/src/cryptography/mlkem.ts], with
    [fillRandomBytesInto] ([src/src/cryptography/random.ts]) and [zeroFree]
    ([src/src/utils/zeroFree.ts]), over an explicit WebAssembly heap: the live
    allocations with their contents, and the contents of every block at the
    moment it went back to the allocator.  The allocator and the exports of
    mlkem-native are the class [WasmModule].

    Every method allocates its blocks one after the other, works on them, and
    frees in its [finally] those that were allocated, in the same order; this
    shape is [with_regions]. *)

From stdpp Require Import gmap.
From S2P Require Import Prelude Bytes Crypto MlKem.
Local Open Scope Z_scope.

Record heap := { live : gmap Z bytes; returned : list bytes }.

Class WasmModule := {
  (** A pointer, or 0, for the live blocks and a length. *)
  _malloc : gmap Z bytes -> Z -> Z;
  (** What a fresh block holds. *)
  stale : gmap Z bytes -> Z -> bytes;
  (** [typeof candidate[name] === "function"] *)
  is_export : string -> bool;
  (** The exports by name: the input blocks, then status and output blocks. *)
  call_keypair : string -> bytes -> Z * (bytes * bytes);
  call_encaps : string -> bytes -> bytes -> Z * (bytes * bytes);
  call_decaps : string -> bytes -> bytes -> Z * bytes;
}.

(** What C promises of [malloc]. *)
Class MallocFresh (W : WasmModule) : Prop := {
  malloc_fresh m n : _malloc m n <> 0 -> m !! _malloc m n = None;
}.

Inductive KemError :=
  | KemRangeError | KemAllocFailed | KemRandomUnavailable | KemFailed (status : Z)
  | KemExportsMissing (names : list string) | KemNotCanonical.

Section Wasm.
Context {W : WasmModule}.
Abbreviation hmethod := (M heap KemError).

(** ** Blocks *)

Definition requireExactBytes (value : bytes) (expectedLength : Z) : result KemError unit :=
  require (blen value =? expectedLength) KemRangeError.

Definition checkedMalloc (length : Z) : hmethod Z := fun h =>
  let pointer := _malloc (live h) length in
  if pointer =? 0 then (Err KemAllocFailed, h)
  else (Ok pointer,
        {| live := <[pointer := region length (stale (live h) pointer)]> (live h);
           returned := returned h |}).

(** [heapView]: write and read a block. *)
Definition heap_write (pointer : Z) (data : bytes) : hmethod unit :=
  modify_this (fun h => {| live := <[pointer := data]> (live h); returned := returned h |}).
Definition heap_read (pointer : Z) : hmethod bytes :=
  h ← get_this; mret (default [] (live h !! pointer)).

Definition publicFree (pointer : Z) (h : heap) : heap :=
  {| live := delete pointer (live h); returned := returned h ++ [default [] (live h !! pointer)] |}.
Definition zeroFree (pointer length : Z) (h : heap) : heap :=
  publicFree pointer (snd (heap_write pointer (zeros length) h)).

(** A block: its length and whether it holds secrets. *)
Record block_spec := { b_length : Z; b_secret : bool }.
Definition pub (n : Z) : block_spec := {| b_length := n; b_secret := false |}.
Definition sec (n : Z) : block_spec := {| b_length := n; b_secret := true |}.

Fixpoint mallocs (specs : list block_spec) (h : heap) : list Z * bool * heap :=
  match specs with
  | [] => ([], true, h)
  | b :: specs' =>
      match checkedMalloc (b_length b) h with
      | (Err _, h') => ([], false, h')
      | (Ok p, h') => let '(ps, ok, h'') := mallocs specs' h' in (p :: ps, ok, h'')
      end
  end.

Fixpoint release (ps : list Z) (specs : list block_spec) (h : heap) : heap :=
  match ps, specs with
  | p :: ps', b :: specs' =>
      release ps' specs' (if b_secret b then zeroFree p (b_length b) h else publicFree p h)
  | _, _ => h
  end.

Definition with_regions {A} (specs : list block_spec) (body : list Z -> hmethod A) : hmethod A :=
  fun h =>
    let '(ps, ok, h1) := mallocs specs h in
    let '(r, h2) := if ok then body ps h1 else (Err KemAllocFailed, h1) in
    (r, release ps specs h2).

(** [random] is what the Web Crypto filler draws, [None] when it throws. *)
Definition fillRandomBytesInto (pointer length : Z) (random : option bytes) : hmethod unit :=
  match random with
  | None => mthrow KemRandomUnavailable
  | Some temporary => heap_write pointer (region length temporary)
  end.

(** ** The methods *)

Definition body_generateKeyPair (suite : MlKemSuiteDescriptor) (random : option bytes)
    (ps : list Z) : hmethod MlKemKeyPair :=
  match ps with
  | [publicKeyPtr; secretKeyPtr; coinsPtr] =>
      fillRandomBytesInto coinsPtr (keyPairRandomBytes suite) random;;
      coins ← heap_read coinsPtr;
      let '(result, (pk, sk)) := call_keypair (keypair (wasmExports suite)) coins in
      heap_write publicKeyPtr (region (publicKeyBytes suite) pk);;
      heap_write secretKeyPtr (region (secretKeyBytes suite) sk);;
      (if negb (result =? 0) then mthrow (KemFailed result)
       else
         publicKey ← heap_read publicKeyPtr;
         secretKey ← heap_read secretKeyPtr;
         mret {| kp_public := publicKey; kp_secret := secretKey |})
  | _ => mthrow KemAllocFailed
  end.

Definition wasm_generateKeyPair (suite : MlKemSuiteDescriptor) (random : option bytes) :
  hmethod MlKemKeyPair :=
  with_regions [pub (publicKeyBytes suite); sec (secretKeyBytes suite); sec (keyPairRandomBytes suite)]
    (body_generateKeyPair suite random).

Definition body_encapsulate (suite : MlKemSuiteDescriptor) (publicKey : bytes)
    (random : option bytes) (ps : list Z) : hmethod (bytes * bytes) :=
  match ps with
  | [ciphertextPtr; sharedSecretPtr; publicKeyPtr; coinsPtr] =>
      heap_write publicKeyPtr publicKey;;
      fillRandomBytesInto coinsPtr (encapsRandomBytes suite) random;;
      pk ← heap_read publicKeyPtr;
      coins ← heap_read coinsPtr;
      let '(result, (ct, ss)) := call_encaps (encaps (wasmExports suite)) pk coins in
      heap_write ciphertextPtr (region (ciphertextBytes suite) ct);;
      heap_write sharedSecretPtr (region (sharedSecretBytes suite) ss);;
      (if negb (result =? 0) then mthrow (KemFailed result)
       else
         ciphertext ← heap_read ciphertextPtr;
         sharedSecret ← heap_read sharedSecretPtr;
         mret (ciphertext, sharedSecret))
  | _ => mthrow KemAllocFailed
  end.

Definition wasm_encapsulate (suite : MlKemSuiteDescriptor) (publicKey : bytes)
    (random : option bytes) : hmethod (bytes * bytes) :=
  lift (requireExactBytes publicKey (publicKeyBytes suite));;
  with_regions [pub (ciphertextBytes suite); sec (sharedSecretBytes suite);
                pub (publicKeyBytes suite); sec (encapsRandomBytes suite)]
    (body_encapsulate suite publicKey random).

Definition body_decapsulate (suite : MlKemSuiteDescriptor) (ciphertext secretKey : bytes)
    (ps : list Z) : hmethod bytes :=
  match ps with
  | [sharedSecretPtr; ciphertextPtr; secretKeyPtr] =>
      heap_write ciphertextPtr ciphertext;;
      heap_write secretKeyPtr secretKey;;
      ct ← heap_read ciphertextPtr;
      sk ← heap_read secretKeyPtr;
      let '(result, ss) := call_decaps (decaps (wasmExports suite)) ct sk in
      heap_write sharedSecretPtr (region (sharedSecretBytes suite) ss);;
      (if negb (result =? 0) then mthrow (KemFailed result) else heap_read sharedSecretPtr)
  | _ => mthrow KemAllocFailed
  end.

Definition wasm_decapsulate (suite : MlKemSuiteDescriptor) (ciphertext secretKey : bytes) :
  hmethod bytes :=
  lift (requireExactBytes ciphertext (ciphertextBytes suite));;
  lift (requireExactBytes secretKey (secretKeyBytes suite));;
  with_regions [sec (sharedSecretBytes suite); pub (ciphertextBytes suite); sec (secretKeyBytes suite)]
    (body_decapsulate suite ciphertext secretKey).

(** ** The factory *)

Definition requireMlKemExports (suite : MlKemSuiteDescriptor) : result KemError unit :=
  let names := wasmExports suite in
  let missing := filter (fun name => is_export name = false)
                   [keypair names; encaps names; decaps names] in
  require (bool_decide (missing = [])) (KemExportsMissing missing).

(** [canonical_object]: [suite === getMlKemSuite(suite.parameterSet)].  The
    heap [h] is what the calls find; they leave its live blocks as they are,
    so every call finds the same. *)
Definition wasm_backend (suite : MlKemSuiteDescriptor) (h : heap) : MlKemBackend := {|
  backend_suite := suite;
  generateKeyPair coins :=
    match fst (wasm_generateKeyPair suite (Some coins) h) with Ok kp => Some kp | Err _ => None end;
  encapsulate coins pk :=
    match fst (wasm_encapsulate suite pk (Some coins) h) with Ok r => Some r | Err _ => None end;
  decapsulate ct sk :=
    match fst (wasm_decapsulate suite ct sk h) with Ok r => Some r | Err _ => None end;
|}.

Definition createMlKemBackend (suite : MlKemSuiteDescriptor) (canonical_object : bool) (h : heap) :
  result KemError MlKemBackend :=
  match getMlKemSuite (parameterSet suite) with
  | None => Err KemRangeError
  | Some canonicalSuite =>
      require canonical_object KemNotCanonical;;
      requireMlKemExports canonicalSuite;;
      Ok (wasm_backend canonicalSuite h)
  end.
End Wasm.

(** ** Lemmas: what a call leaves on the heap *)

Section Heap.
Context {W : WasmModule} `{!MallocFresh W}.
Implicit Types (h : heap) (ps : list Z) (specs : list block_spec).

(** [h'] differs from [h] only in the contents of the blocks [ps]. *)
Definition touches ps h h' : Prop :=
  returned h' = returned h /\ forall p, p ∉ ps -> live h' !! p = live h !! p.

Lemma touches_write ps h0 p data : p ∈ ps -> preserves (touches ps h0) (heap_write p data).
Proof.
  intros Hp. apply preserves_modify. intros h [Hr Hl]. split; [done|]. intros q Hq. cbn.
  rewrite lookup_insert_ne by (intros ->; contradiction). by apply Hl.
Qed.

Lemma touches_read ps h0 p : preserves (touches ps h0) (heap_read p).
Proof. by apply preserves_readonly. Qed.

Lemma touches_fill ps h0 p n random : p ∈ ps -> preserves (touches ps h0) (fillRandomBytesInto p n random).
Proof. destruct random; [apply touches_write|intros _; by apply preserves_readonly]. Qed.

Ltac in_blocks := repeat first [apply list_elem_of_here | apply list_elem_of_further].
Ltac touching :=
  repeat first
    [ apply preserves_bind; [|intros ?]
    | apply touches_write; in_blocks
    | apply touches_fill; in_blocks
    | apply touches_read
    | by apply preserves_readonly
    | case_match ].

Lemma body_generateKeyPair_touches suite random ps h0 :
  preserves (touches ps h0) (body_generateKeyPair suite random ps).
Proof. destruct ps as [|? [|? [|? []]]]; cbn [body_generateKeyPair]; touching. Qed.

Lemma body_encapsulate_touches suite pk random ps h0 :
  preserves (touches ps h0) (body_encapsulate suite pk random ps).
Proof. destruct ps as [|? [|? [|? [|? []]]]]; cbn [body_encapsulate]; touching. Qed.

Lemma body_decapsulate_touches suite ct sk ps h0 :
  preserves (touches ps h0) (body_decapsulate suite ct sk ps).
Proof. destruct ps as [|? [|? [|? []]]]; cbn [body_decapsulate]; touching. Qed.

Lemma mallocs_spec specs : forall h ps ok h1, mallocs specs h = (ps, ok, h1) ->
  NoDup ps /\ (forall p, p ∈ ps -> live h !! p = None) /\ touches ps h h1 /\
  (length ps <= length specs)%nat /\ (ok = true -> length ps = length specs).
Proof.
  induction specs as [|b specs IH]; intros h ps ok h1 H; cbn [mallocs] in H.
  - injection H as <- <- <-. split_and!; [apply NoDup_nil_2|by intros p Hp%elem_of_nil|done..].
  - unfold checkedMalloc in H. destruct (Z.eqb_spec (_malloc (live h) (b_length b)) 0) as [Hz|Hz].
    { injection H as <- <- <-. split_and!; [apply NoDup_nil_2|by intros p Hp%elem_of_nil|done|cbn; lia|done]. }
    pose proof (malloc_fresh _ _ Hz) as Hfr. set (p := _malloc (live h) (b_length b)) in *.
    destruct (mallocs specs _) as [[ps' ok'] h2] eqn:Hm. injection H as <- <- <-.
    destruct (IH _ _ _ _ Hm) as (Hnd & Hnone & [Hr Hl] & Hlen & Hok). cbn [live returned] in *.
    assert (p ∉ ps') as Hnp by (intros Hp%Hnone; by rewrite lookup_insert_eq in Hp).
    split_and!; [by constructor| |split; [done|]|cbn; lia|cbn; intros ->%Hok; done].
    + intros q [->|Hq]%elem_of_cons; [done|]. pose proof (Hnone q Hq) as Hn.
      rewrite lookup_insert_ne in Hn; [done|congruence].
    + intros q [Hqp Hq]%not_elem_of_cons. rewrite Hl by done. by apply lookup_insert_ne.
Qed.

(** What goes back: the secret blocks are zeroed. *)
Definition wiped (b : block_spec) (contents : bytes) : Prop :=
  b_secret b = true -> contents = zeros (b_length b).

Lemma release_spec specs : forall ps h, NoDup ps -> (length ps <= length specs)%nat ->
  (forall p, p ∉ ps -> live (release ps specs h) !! p = live h !! p) /\
  (forall p, p ∈ ps -> live (release ps specs h) !! p = None) /\
  exists rel, returned (release ps specs h) = returned h ++ rel /\
    Forall2 wiped (take (length ps) specs) rel.
Proof.
  induction specs as [|b specs IH]; intros ps h Hnd Hlen; (destruct ps as [|p ps]; [|cbn in Hlen]).
  1,3: split_and!; [done|by intros p Hp%elem_of_nil|exists []; by rewrite app_nil_r].
  1: lia.
  apply NoDup_cons in Hnd as [Hp Hnd]. cbn [release].
  set (h1 := if b_secret b then _ else _).
  assert (live h1 !! p = None /\ (forall q, q <> p -> live h1 !! q = live h !! q)) as [H1 H2].
  { unfold h1. destruct (b_secret b); cbn; (split; [apply lookup_delete_eq|]); intros q Hq;
      rewrite lookup_delete_ne by done; [by rewrite lookup_insert_ne|done]. }
  assert (exists c, returned h1 = returned h ++ [c] /\ wiped b c) as (c & Hc & Hw).
  { unfold h1. destruct (b_secret b) eqn:Hb; eexists; (split; [done|]); intros Hs; [|congruence].
    cbn. by rewrite lookup_insert_eq. }
  destruct (IH ps h1 Hnd ltac:(lia)) as (Ha & Hb & rel & Hr & Hf). split_and!.
  - intros q [Hqp Hq]%not_elem_of_cons. rewrite Ha by done. by apply H2.
  - intros q [->|Hq]%elem_of_cons; [by rewrite Ha|by apply Hb].
  - exists (c :: rel). rewrite Hr, Hc, <- app_assoc. split; [done|]. by constructor.
Qed.

(** No block stays allocated and no secret goes back in the clear. *)
Definition clean specs h h' : Prop :=
  live h' = live h /\
  exists k rel, returned h' = returned h ++ rel /\ Forall2 wiped (take k specs) rel.

Lemma with_regions_clean {A} specs (body : list Z -> M heap KemError A) h :
  (forall ps h0, preserves (touches ps h0) (body ps)) -> clean specs h (snd (with_regions specs body h)).
Proof.
  intros Hb. unfold with_regions. destruct (mallocs specs h) as [[ps ok] h1] eqn:Hm.
  destruct (mallocs_spec _ _ _ _ _ Hm) as (Hnd & Hnone & [Hr1 Hl1] & Hlen & _).
  set (run := if ok then body ps h1 else (Err KemAllocFailed, h1)).
  assert (touches ps h1 (snd run)) as [Hr2 Hl2].
  { unfold run. destruct ok; [by apply Hb|done]. }
  destruct run as [r h2]. cbn [snd] in *.
  destruct (release_spec specs ps h2 Hnd Hlen) as (Hl3 & Hl3' & rel & Hr3 & Hf). split.
  - apply map_eq. intros p. destruct (decide (p ∈ ps)) as [Hp|Hp].
    + by rewrite Hl3', Hnone.
    + by rewrite Hl3, Hl2, Hl1.
  - exists (length ps), rel. split; [congruence|done].
Qed.

Lemma clean_id specs h : clean specs h h.
Proof. split; [done|]. exists 0%nat, []. rewrite app_nil_r. split; [done|constructor]. Qed.

(** ** What a call answers *)

(** The heap [h] has room for the blocks of a call, each allocated after the others. *)
Definition allocates specs h : Prop := snd (fst (mallocs specs h)) = true.
(** It has room for the blocks of each of the three calls. *)
Definition has_room (suite : MlKemSuiteDescriptor) h : Prop :=
  allocates [pub (publicKeyBytes suite); sec (secretKeyBytes suite); sec (keyPairRandomBytes suite)] h /\
  allocates [pub (ciphertextBytes suite); sec (sharedSecretBytes suite);
             pub (publicKeyBytes suite); sec (encapsRandomBytes suite)] h /\
  allocates [sec (sharedSecretBytes suite); pub (ciphertextBytes suite); sec (secretKeyBytes suite)] h.
#[export] Instance has_room_dec suite h : Decision (has_room suite h).
Proof. unfold has_room, allocates. apply _. Defined.

(** When every allocation succeeds, a call is its body on distinct blocks. *)
Lemma with_regions_run {A} specs (body : list Z -> M heap KemError A) h : allocates specs h ->
  exists ps h1, NoDup ps /\ length ps = length specs /\
    fst (with_regions specs body h) = fst (body ps h1).
Proof.
  unfold allocates, with_regions. intros Hok.
  destruct (mallocs specs h) as [[ps ok] h1] eqn:Hm. cbn in Hok. subst ok.
  destruct (mallocs_spec _ _ _ _ _ Hm) as (Hnd & _ & _ & _ & Hlen).
  exists ps, h1. split_and!; [done|by apply Hlen|]. by destruct (body ps h1).
Qed.

(** The status of an export decides between its outputs and a throw. *)
Definition answer {A} (status : Z) (a : A) : result KemError A :=
  if status =? 0 then Ok a else Err (KemFailed status).

Ltac distinct H :=
  repeat match goal with
  | H : NoDup (_ :: _) |- _ => apply NoDup_cons in H as [?%not_elem_of_cons H]
  | H : _ /\ _ |- _ => destruct H
  | H : _ ∉ _ :: _ |- _ => apply not_elem_of_cons in H
  end.
Ltac opens :=
  cbv beta iota zeta delta [body_generateKeyPair body_encapsulate body_decapsulate
    fillRandomBytesInto heap_write heap_read get_this modify_this lift mbind M_bind mret M_ret
    mthrow negb]; cbn [live returned fst snd default].
Ltac reads :=
  repeat first [rewrite lookup_insert_eq | rewrite lookup_insert_ne by congruence].

Lemma generateKeyPair_answer suite coins h : has_room suite h ->
  fst (wasm_generateKeyPair suite (Some coins) h) =
    let '(status, (pk, sk)) := call_keypair (keypair (wasmExports suite))
                                 (region (keyPairRandomBytes suite) coins) in
    answer status {| kp_public := region (publicKeyBytes suite) pk;
                     kp_secret := region (secretKeyBytes suite) sk |}.
Proof.
  intros (Hma & _ & _). unfold wasm_generateKeyPair.
  edestruct (with_regions_run (A := MlKemKeyPair)) as (ps & h1 & Hnd & Hlen & ->); [done|].
  destruct ps as [|p [|s [|c []]]]; try discriminate Hlen. distinct Hnd. opens. reads. opens.
  destruct (call_keypair _ _) as [r [pk sk]]. opens. unfold answer.
  destruct (r =? 0); opens; [|done]. by reads.
Qed.

Lemma encapsulate_answer suite pk coins h :
  has_room suite h -> blen pk = publicKeyBytes suite ->
  fst (wasm_encapsulate suite pk (Some coins) h) =
    let '(status, (ct, ss)) := call_encaps (encaps (wasmExports suite)) pk
                                 (region (encapsRandomBytes suite) coins) in
    answer status (region (ciphertextBytes suite) ct, region (sharedSecretBytes suite) ss).
Proof.
  intros (_ & Hma & _) Hpk. unfold wasm_encapsulate, requireExactBytes. rewrite Hpk, Z.eqb_refl.
  cbv beta iota zeta delta [require lift mbind M_bind].
  edestruct (with_regions_run (A := (bytes * bytes)%type)) as (ps & h1 & Hnd & Hlen & ->); [done|].
  destruct ps as [|p [|s [|q [|c []]]]]; try discriminate Hlen. distinct Hnd. opens. reads. opens.
  destruct (call_encaps _ _ _) as [r [ct ss]]. opens. unfold answer.
  destruct (r =? 0); opens; [|done]. by reads.
Qed.

Lemma decapsulate_answer suite ct sk h :
  has_room suite h -> blen ct = ciphertextBytes suite -> blen sk = secretKeyBytes suite ->
  fst (wasm_decapsulate suite ct sk h) =
    let '(status, ss) := call_decaps (decaps (wasmExports suite)) ct sk in
    answer status (region (sharedSecretBytes suite) ss).
Proof.
  intros (_ & _ & Hma) Hct Hsk. unfold wasm_decapsulate, requireExactBytes.
  rewrite Hct, Hsk, !Z.eqb_refl. cbv beta iota zeta delta [require lift mbind M_bind].
  edestruct (with_regions_run (A := bytes)) as (ps & h1 & Hnd & Hlen & ->); [done|].
  destruct ps as [|s [|p [|k []]]]; try discriminate Hlen. distinct Hnd. opens. reads. opens.
  destruct (call_decaps _ _ _) as [r ss]. opens. unfold answer.
  destruct (r =? 0); opens; [|done]. by reads.
Qed.

(** ** The backend *)

(** mlkem-native, for the exports a suite names: key generation from coins of the
    suite's size returns 0 and fills its outputs, encapsulation does to a public
    key that key generation has made (any other may fail the modulus check of
    FIPS 203), and decapsulation inverts it (up to its negligible failure rate). *)
Class MlKemNative (suite : MlKemSuiteDescriptor) : Prop := {
  native_keypair coins : blen coins = keyPairRandomBytes suite ->
    exists pk sk, call_keypair (keypair (wasmExports suite)) coins = (0, (pk, sk)) /\
      blen pk = publicKeyBytes suite /\ blen sk = secretKeyBytes suite;
  native_encaps coins' pk sk coins : call_keypair (keypair (wasmExports suite)) coins' = (0, (pk, sk)) ->
    blen coins = encapsRandomBytes suite ->
    exists ct ss, call_encaps (encaps (wasmExports suite)) pk coins = (0, (ct, ss)) /\
      blen ct = ciphertextBytes suite /\ blen ss = sharedSecretBytes suite;
  native_decaps coins pk sk coins' ct ss :
    call_keypair (keypair (wasmExports suite)) coins = (0, (pk, sk)) ->
    call_encaps (encaps (wasmExports suite)) pk coins' = (0, (ct, ss)) ->
    call_decaps (decaps (wasmExports suite)) ct sk = (0, ss);
}.

(** The sizes of a suite are buffer lengths. *)
Definition buffer_sizes (suite : MlKemSuiteDescriptor) : Prop :=
  0 <= publicKeyBytes suite /\ 0 <= secretKeyBytes suite /\ 0 <= ciphertextBytes suite /\
  0 <= sharedSecretBytes suite /\ 0 <= keyPairRandomBytes suite /\ 0 <= encapsRandomBytes suite.

Lemma exported_suite_sizes n suite : getMlKemSuite n = Some suite -> buffer_sizes suite.
Proof. unfold getMlKemSuite. intros H. repeat case_match; simplify_eq; by vm_compute. Qed.

Lemma createMlKemBackend_Ok suite canonical_object h B :
  createMlKemBackend suite canonical_object h = Ok B ->
  exists canonical, getMlKemSuite (parameterSet suite) = Some canonical /\
    canonical_object = true /\ B = wasm_backend canonical h.
Proof.
  unfold createMlKemBackend. destruct (getMlKemSuite _) as [canonical|]; [|done]. intros H.
  binds H. destruct canonical_object; [|done]. subst B. by exists canonical.
Qed.

Section Backend.
Context (suite : MlKemSuiteDescriptor) (h : heap) `{!MlKemNative suite}.
Hypothesis Hma : has_room suite h.
Hypothesis Hsz : buffer_sizes suite.

Lemma keypair_native coins : exists pk sk,
  call_keypair (keypair (wasmExports suite)) (region (keyPairRandomBytes suite) coins) = (0, (pk, sk)) /\
  fst (wasm_generateKeyPair suite (Some coins) h) = Ok {| kp_public := pk; kp_secret := sk |} /\
  blen pk = publicKeyBytes suite /\ blen sk = secretKeyBytes suite.
Proof.
  destruct (native_keypair (region (keyPairRandomBytes suite) coins)) as (pk & sk & Hc & Hp & Hs).
  { apply blen_region, Hsz. }
  exists pk, sk. split_and!; [done| |done..]. rewrite generateKeyPair_answer by done.
  by rewrite Hc, !region_id.
Qed.

Lemma encaps_native coins' sk coins pk : call_keypair (keypair (wasmExports suite)) coins' = (0, (pk, sk)) ->
  blen pk = publicKeyBytes suite -> exists ct ss,
  call_encaps (encaps (wasmExports suite)) pk (region (encapsRandomBytes suite) coins) = (0, (ct, ss)) /\
  fst (wasm_encapsulate suite pk (Some coins) h) = Ok (ct, ss) /\
  blen ct = ciphertextBytes suite /\ blen ss = sharedSecretBytes suite.
Proof.
  intros Hkey Hpk.
  destruct (native_encaps _ _ _ (region (encapsRandomBytes suite) coins) Hkey) as (ct & ss & Hc & Hp & Hs).
  { apply blen_region, Hsz. }
  exists ct, ss. split_and!; [done| |done..]. rewrite encapsulate_answer by done.
  by rewrite Hc, !region_id.
Qed.

Lemma wasm_backend_laws : MlKemCorrect (wasm_backend suite h) /\ MlKemTotal (wasm_backend suite h).
Proof.
  split; split; cbn [generateKeyPair encapsulate decapsulate backend_suite wasm_backend].
  - intros coins kp coins' ct ss Hk He.
    destruct (keypair_native coins) as (pk & sk & Hck & Hwk & Hpk & Hsk).
    rewrite Hwk in Hk. injection Hk as <-. cbn [kp_public kp_secret] in *.
    destruct (encaps_native _ _ coins' pk Hck Hpk) as (ct' & ss' & Hce & Hwe & Hct & Hss).
    rewrite Hwe in He. injection He as <- <-.
    rewrite decapsulate_answer by done. rewrite (native_decaps _ _ _ _ _ _ Hck Hce).
    unfold answer. by rewrite region_id.
  - intros coins _. destruct (keypair_native coins) as (pk & sk & _ & -> & Hpk & Hsk). by eexists.
  - intros coins' kp coins Hk _. destruct (keypair_native coins') as (pk & sk & Hck & Hwk & Hpk & _).
    rewrite Hwk in Hk. injection Hk as <-. cbn [kp_public].
    destruct (encaps_native _ _ coins pk Hck Hpk) as (ct & ss & _ & -> & Hct & Hss). by eexists _, _.
Qed.
End Backend.

(** Whatever a call of the WebAssembly backend does (an allocation fails
    half-way, the random source throws, the export returns an error, the call
    succeeds), it leaves the heap's live blocks as it found them, and every
    secret block (secret keys, coins, shared secrets) is all zero at the moment
    it goes back to the allocator. *)
Theorem kem_calls_leave_no_trace suite pk ct sk random h :
  clean [pub (publicKeyBytes suite); sec (secretKeyBytes suite); sec (keyPairRandomBytes suite)]
    h (snd (wasm_generateKeyPair suite random h)) /\
  clean [pub (ciphertextBytes suite); sec (sharedSecretBytes suite);
         pub (publicKeyBytes suite); sec (encapsRandomBytes suite)]
    h (snd (wasm_encapsulate suite pk random h)) /\
  clean [sec (sharedSecretBytes suite); pub (ciphertextBytes suite); sec (secretKeyBytes suite)]
    h (snd (wasm_decapsulate suite ct sk h)).
Proof.
  unfold wasm_encapsulate, wasm_decapsulate, requireExactBytes, require.
  split_and!; repeat case_match; cbv beta iota delta [lift mbind M_bind]; try apply clean_id;
    apply with_regions_clean.
  - apply body_generateKeyPair_touches.
  - apply body_encapsulate_touches.
  - apply body_decapsulate_touches.
Qed.

(** The backend that [createMlKemBackend] returns implements the interface
    the healing machine is written against: the pointers it passes are distinct,
    so the copies in and out of the heap deliver exactly what mlkem-native
    computed; on a heap with room for the blocks of a call, key generation and
    encapsulation to a generated key resolve with outputs of the suite's sizes,
    and decapsulation gives the shared secret of the encapsulation. *)
Theorem wasm_backend_correct suite canonical_object h B :
  (forall canonical, getMlKemSuite (parameterSet suite) = Some canonical ->
     MlKemNative canonical /\ has_room canonical h) ->
  createMlKemBackend suite canonical_object h = Ok B ->
  MlKemCorrect B /\ MlKemTotal B.
Proof.
  intros Hn (canonical & Hg & _ & ->)%createMlKemBackend_Ok. destruct (Hn _ Hg).
  apply wasm_backend_laws; [done..|by eapply exported_suite_sizes].
Qed.
End Heap.
