(* ===== verification/PqRecord.v ===== *)
(** * The sparse post-quantum healing records ([src/src/cryptography/pqHealing.ts])

    OFFER, ADVANCE and ACK: their byte layouts, encoders and decoders, with
    every check of the source in its order.  Values of type [unknown] in the
    source are typed here; the checks that a value has the expected JavaScript
    shape have no counterpart. *)

From S2P Require Import Prelude Bytes MlKem Crypto.
Local Open Scope Z_scope.

Definition PQ_HEALING_BINDING_BYTES : Z := 32.
Definition PQ_HEALING_ROOT_BYTES : Z := 32.
Definition PQ_HEALING_RECORD_HEADER_BYTES : Z := 64.
Definition PQ_HEALING_ACK_BYTES : Z := 64.

Definition MAGIC : bytes := byte_of <$> [0x50; 0x32; 0x51; 0x48].
Definition FORMAT_VERSION : Z := 1.
Definition OFFER_TYPE : Z := 1.
Definition ADVANCE_TYPE : Z := 2.
Definition ACK_TYPE : Z := 3.
Definition RESERVED_FLAGS : Z := 0.

Definition MAGIC_OFFSET : Z := 0.
Definition VERSION_OFFSET : Z := 4.
Definition TYPE_OFFSET : Z := 5.
Definition SUITE_OFFSET : Z := 6.
Definition FLAGS_OFFSET : Z := 7.
Definition BINDING_OFFSET : Z := 8.
Definition COUNTER_OFFSET : Z := 40.
Definition FROM_EPOCH_OFFSET : Z := 48.
Definition TO_EPOCH_OFFSET : Z := 56.
Definition ACK_EPOCH_OFFSET : Z := 48.
Definition ACK_RESERVED_OFFSET : Z := 56.

(** ** Errors *)

Inductive PqHealingErrorCode :=
  | binding_mismatch | counter_gap | destroyed_error | epoch_gap | fork
  | invalid_record | invalid_state | overflow | replay | suite_mismatch | wrong_turn.
#[export] Instance PqHealingErrorCode_eq_dec : EqDecision PqHealingErrorCode.
Proof. solve_decision. Defined.

(** What a call can throw: a [PqHealingError] with its code, the [RangeError]
    of an unsupported parameter set, or an error of the module or backend. *)
Inductive PqError :=
  | PqHealingError (code : PqHealingErrorCode)
  | UnsupportedParameterSet
  | CryptoFailure (e : CryptoError)
  | BackendRejected.
#[export] Instance PqError_eq_dec : EqDecision PqError.
Proof. solve_decision. Defined.

Abbreviation pq A := (result PqError A).
Definition fail {A} (code : PqHealingErrorCode) : pq A := Err (PqHealingError code).
(** [if (!ok) fail(code, ...)]. *)
Definition check (ok : bool) (code : PqHealingErrorCode) : pq unit :=
  require ok (PqHealingError code).

(** ** Decoded records *)

Record DecodedHeader := { senderCounter : Z; fromEpoch : Z; toEpoch : Z }.
#[export] Instance DecodedHeader_eq_dec : EqDecision DecodedHeader.
Proof. solve_decision. Defined.

Record DecodedOffer := {
  offer_header : DecodedHeader;
  offer_bytes : bytes;
  publicKey : bytes;
}.
#[export] Instance DecodedOffer_eq_dec : EqDecision DecodedOffer.
Proof. solve_decision. Defined.

Record DecodedAdvance := {
  advance_header : DecodedHeader;
  advance_bytes : bytes;
  advance_offer : DecodedOffer;
  ciphertext : bytes;
}.
#[export] Instance DecodedAdvance_eq_dec : EqDecision DecodedAdvance.
Proof. solve_decision. Defined.

Record PqHealingAdvanceAcknowledgement := { ack_epoch : Z; advanceCounter : Z }.
#[export] Instance ack_eq_dec : EqDecision PqHealingAdvanceAcknowledgement.
Proof. solve_decision. Defined.

(** ** Checks *)

Definition requireBytes (value : bytes) (expectedLength : Z) : pq unit :=
  check (blen value =? expectedLength) invalid_record.
Definition requireU64 (value : Z) : pq unit := check (is_u64 value) overflow.
Definition requireIncrementableU64 (value : Z) : pq unit :=
  requireU64 value;; check (negb (value =? MAX_U64)) overflow.
Definition requireAcknowledgement (a : PqHealingAdvanceAcknowledgement) :
  pq PqHealingAdvanceAcknowledgement :=
  requireU64 (ack_epoch a);; requireU64 (advanceCounter a);; Ok a.

Definition parameterSetToTag (ps : Z) : pq Z :=
  if ps =? 768 then Ok 1 else if ps =? 512 then Ok 2 else if ps =? 1024 then Ok 3
  else fail suite_mismatch.
Definition tagToParameterSet (tag : Z) : pq Z :=
  if tag =? 1 then Ok 768 else if tag =? 2 then Ok 512 else if tag =? 3 then Ok 1024
  else fail invalid_record.

Definition assertCanonicalSuite (suite : MlKemSuiteDescriptor) : pq unit :=
  match getMlKemSuite (parameterSet suite) with
  | None => Err UnsupportedParameterSet
  | Some canonical =>
      check (bool_decide (standardName suite = standardName canonical)
             && (publicKeyBytes suite =? publicKeyBytes canonical)
             && (secretKeyBytes suite =? secretKeyBytes canonical)
             && (ciphertextBytes suite =? ciphertextBytes canonical)
             && (sharedSecretBytes suite =? sharedSecretBytes canonical)
             && (keyPairRandomBytes suite =? keyPairRandomBytes canonical)
             && (encapsRandomBytes suite =? encapsRandomBytes canonical))
        suite_mismatch
  end.

Definition assertSameSuite (selected backend : MlKemSuiteDescriptor) : pq unit :=
  assertCanonicalSuite selected;;
  assertCanonicalSuite backend;;
  check ((parameterSet selected =? parameterSet backend)
         && (publicKeyBytes selected =? publicKeyBytes backend)
         && (secretKeyBytes selected =? secretKeyBytes backend)
         && (ciphertextBytes selected =? ciphertextBytes backend))
    suite_mismatch.

Definition offerLength (suite : MlKemSuiteDescriptor) : Z :=
  PQ_HEALING_RECORD_HEADER_BYTES + publicKeyBytes suite.
Definition advanceLength (suite : MlKemSuiteDescriptor) : Z :=
  PQ_HEALING_RECORD_HEADER_BYTES + offerLength suite + ciphertextBytes suite.
Definition getPqHealingRecordLengths (suite : MlKemSuiteDescriptor) : pq (Z * Z) :=
  assertCanonicalSuite suite;; Ok (offerLength suite, advanceLength suite).

(** ** ACK *)

Definition encodePqHealingAck (acknowledgement : PqHealingAdvanceAcknowledgement)
    (suite : MlKemSuiteDescriptor) (binding : bytes) : pq bytes :=
  assertCanonicalSuite suite;;
  requireBytes binding PQ_HEALING_BINDING_BYTES;;
  ack ← requireAcknowledgement acknowledgement;
  tag ← parameterSetToTag (parameterSet suite);
  let record := zeros PQ_HEALING_ACK_BYTES in
  let record := bset record MAGIC_OFFSET MAGIC in
  let record := bset record VERSION_OFFSET [byte_of FORMAT_VERSION] in
  let record := bset record TYPE_OFFSET [byte_of ACK_TYPE] in
  let record := bset record SUITE_OFFSET [byte_of tag] in
  let record := bset record FLAGS_OFFSET [byte_of RESERVED_FLAGS] in
  let record := bset record BINDING_OFFSET binding in
  let record := put_u64 record COUNTER_OFFSET (advanceCounter ack) in
  let record := put_u64 record ACK_EPOCH_OFFSET (ack_epoch ack) in
  Ok record.

Definition decodePqHealingAck (record : bytes) (suite : MlKemSuiteDescriptor)
    (binding : bytes) : pq PqHealingAdvanceAcknowledgement :=
  assertCanonicalSuite suite;;
  requireBytes binding PQ_HEALING_BINDING_BYTES;;
  requireBytes record PQ_HEALING_ACK_BYTES;;
  check (bytesEqual (slice record MAGIC_OFFSET VERSION_OFFSET) MAGIC) invalid_record;;
  check (bool_decide (at_ record VERSION_OFFSET = Some FORMAT_VERSION)) invalid_record;;
  check (bool_decide (at_ record TYPE_OFFSET = Some ACK_TYPE)) invalid_record;;
  check (bool_decide (at_ record FLAGS_OFFSET = Some RESERVED_FLAGS)) invalid_record;;
  recordParameterSet ← tagToParameterSet (default (-1) (at_ record SUITE_OFFSET));
  check (recordParameterSet =? parameterSet suite) suite_mismatch;;
  check (bytesEqual
           (slice record BINDING_OFFSET (BINDING_OFFSET + PQ_HEALING_BINDING_BYTES))
           binding) binding_mismatch;;
  check (get_u64 record ACK_RESERVED_OFFSET =? 0) invalid_record;;
  Ok {| advanceCounter := get_u64 record COUNTER_OFFSET;
        ack_epoch := get_u64 record ACK_EPOCH_OFFSET |}.

(** ** OFFER and ADVANCE *)

Definition encodeHeader (type_ : Z) (suite : MlKemSuiteDescriptor) (binding : bytes)
    (counter from to totalLength : Z) : pq bytes :=
  requireBytes binding PQ_HEALING_BINDING_BYTES;;
  requireU64 counter;; requireU64 from;; requireU64 to;;
  check (negb ((from =? MAX_U64) || negb (to =? from + 1))) invalid_record;;
  tag ← parameterSetToTag (parameterSet suite);
  let record := zeros totalLength in
  let record := bset record MAGIC_OFFSET MAGIC in
  let record := bset record VERSION_OFFSET [byte_of FORMAT_VERSION] in
  let record := bset record TYPE_OFFSET [byte_of type_] in
  let record := bset record SUITE_OFFSET [byte_of tag] in
  let record := bset record FLAGS_OFFSET [byte_of RESERVED_FLAGS] in
  let record := bset record BINDING_OFFSET binding in
  let record := put_u64 record COUNTER_OFFSET counter in
  let record := put_u64 record FROM_EPOCH_OFFSET from in
  let record := put_u64 record TO_EPOCH_OFFSET to in
  Ok record.

Definition decodeHeader (record : bytes) (expectedType : Z)
    (suite : MlKemSuiteDescriptor) (binding : option bytes) : pq DecodedHeader :=
  check (negb (blen record <? PQ_HEALING_RECORD_HEADER_BYTES)) invalid_record;;
  check (bytesEqual (slice record MAGIC_OFFSET VERSION_OFFSET) MAGIC) invalid_record;;
  check (bool_decide (at_ record VERSION_OFFSET = Some FORMAT_VERSION)) invalid_record;;
  check (bool_decide (at_ record TYPE_OFFSET = Some expectedType)) invalid_record;;
  check (bool_decide (at_ record FLAGS_OFFSET = Some RESERVED_FLAGS)) invalid_record;;
  recordParameterSet ← tagToParameterSet (default (-1) (at_ record SUITE_OFFSET));
  check (recordParameterSet =? parameterSet suite) suite_mismatch;;
  let recordBinding :=
    slice record BINDING_OFFSET (BINDING_OFFSET + PQ_HEALING_BINDING_BYTES) in
  check (match binding with None => true | Some b => bytesEqual recordBinding b end)
    binding_mismatch;;
  let counter := get_u64 record COUNTER_OFFSET in
  let from := get_u64 record FROM_EPOCH_OFFSET in
  let to := get_u64 record TO_EPOCH_OFFSET in
  check (negb ((from =? MAX_U64) || negb (to =? from + 1))) invalid_record;;
  Ok {| senderCounter := counter; fromEpoch := from; toEpoch := to |}.

Definition decodeOffer (record : bytes) (suite : MlKemSuiteDescriptor)
    (binding : option bytes) : pq DecodedOffer :=
  header ← decodeHeader record OFFER_TYPE suite binding;
  check (blen record =? offerLength suite) invalid_record;;
  Ok {| offer_header := header; offer_bytes := record;
        publicKey := slice_from record PQ_HEALING_RECORD_HEADER_BYTES |}.

Definition decodeAdvance (record : bytes) (suite : MlKemSuiteDescriptor)
    (binding : option bytes) : pq DecodedAdvance :=
  header ← decodeHeader record ADVANCE_TYPE suite binding;
  check (blen record =? advanceLength suite) invalid_record;;
  let nestedOfferLength := offerLength suite in
  let offerBytes := slice record PQ_HEALING_RECORD_HEADER_BYTES
                      (PQ_HEALING_RECORD_HEADER_BYTES + nestedOfferLength) in
  offer ← decodeOffer offerBytes suite binding;
  check (negb (negb (fromEpoch (offer_header offer) =? fromEpoch header)
               || negb (toEpoch (offer_header offer) =? toEpoch header))) fork;;
  Ok {| advance_header := header; advance_bytes := record; advance_offer := offer;
        ciphertext :=
          slice_from record (PQ_HEALING_RECORD_HEADER_BYTES + nestedOfferLength) |}.

Definition encodeOffer (suite : MlKemSuiteDescriptor) (binding : bytes)
    (counter from : Z) (pk : bytes) : pq bytes :=
  requireBytes pk (publicKeyBytes suite);;
  record ← encodeHeader OFFER_TYPE suite binding counter from (from + 1) (offerLength suite);
  Ok (bset record PQ_HEALING_RECORD_HEADER_BYTES pk).

Definition encodeAdvance (suite : MlKemSuiteDescriptor) (binding : bytes)
    (counter : Z) (offer : DecodedOffer) (ct : bytes) : pq bytes :=
  requireBytes ct (ciphertextBytes suite);;
  record ← encodeHeader ADVANCE_TYPE suite binding counter
             (fromEpoch (offer_header offer)) (toEpoch (offer_header offer))
             (advanceLength suite);
  let record := bset record PQ_HEALING_RECORD_HEADER_BYTES (offer_bytes offer) in
  Ok (bset record (PQ_HEALING_RECORD_HEADER_BYTES + blen (offer_bytes offer)) ct).

(** ** Inspection without state *)

Record PqHealingOfferRecord := {
  or_parameterSet : Z; or_binding : bytes; or_senderCounter : Z;
  or_fromEpoch : Z; or_toEpoch : Z; or_publicKey : bytes;
}.
Record PqHealingAdvanceRecord := {
  ar_parameterSet : Z; ar_binding : bytes; ar_senderCounter : Z;
  ar_fromEpoch : Z; ar_toEpoch : Z; ar_offerBytes : bytes;
  ar_offer : PqHealingOfferRecord; ar_ciphertext : bytes;
}.
Inductive PqHealingRecord :=
  | OfferRecord (r : PqHealingOfferRecord)
  | AdvanceRecord (r : PqHealingAdvanceRecord).

Definition record_binding (record : bytes) : bytes :=
  slice record BINDING_OFFSET (BINDING_OFFSET + PQ_HEALING_BINDING_BYTES).

Definition inspect_offer (suite : MlKemSuiteDescriptor) (o : DecodedOffer) :
  PqHealingOfferRecord := {|
    or_parameterSet := parameterSet suite;
    or_binding := record_binding (offer_bytes o);
    or_senderCounter := senderCounter (offer_header o);
    or_fromEpoch := fromEpoch (offer_header o);
    or_toEpoch := toEpoch (offer_header o);
    or_publicKey := publicKey o |}.

Definition inspectPqHealingRecord (record : bytes) (suite : MlKemSuiteDescriptor) :
  pq PqHealingRecord :=
  assertCanonicalSuite suite;;
  check (negb (blen record <? PQ_HEALING_RECORD_HEADER_BYTES)) invalid_record;;
  if bool_decide (at_ record TYPE_OFFSET = Some OFFER_TYPE) then
    offer ← decodeOffer record suite None;
    Ok (OfferRecord (inspect_offer suite offer))
  else if bool_decide (at_ record TYPE_OFFSET = Some ADVANCE_TYPE) then
    advance ← decodeAdvance record suite None;
    Ok (AdvanceRecord {|
      ar_parameterSet := parameterSet suite;
      ar_binding := record_binding (advance_bytes advance);
      ar_senderCounter := senderCounter (advance_header advance);
      ar_fromEpoch := fromEpoch (advance_header advance);
      ar_toEpoch := toEpoch (advance_header advance);
      ar_offerBytes := offer_bytes (advance_offer advance);
      ar_offer := inspect_offer suite (advance_offer advance);
      ar_ciphertext := ciphertext advance |})
  else fail invalid_record.

(** ** Lemmas: suites and checks *)

Definition canonical (suite : MlKemSuiteDescriptor) : Prop :=
  assertCanonicalSuite suite = Ok tt.

Lemma check_ok b c : check b c = Ok tt <-> b = true.
Proof. apply require_ok. Qed.

Lemma requireBytes_ok l n : requireBytes l n = Ok tt <-> blen l = n.
Proof. unfold requireBytes. rewrite check_ok. apply Z.eqb_eq. Qed.

Lemma requireU64_ok v : requireU64 v = Ok tt <-> 0 <= v <= MAX_U64.
Proof. unfold requireU64. rewrite check_ok. apply is_u64_spec. Qed.

Lemma requireIncrementableU64_ok v :
  requireIncrementableU64 v = Ok tt <-> 0 <= v < MAX_U64.
Proof.
  unfold requireIncrementableU64, requireU64, check, require.
  pose proof (is_u64_spec v). destruct (is_u64 v); cbn.
  - destruct (Z.eqb_spec v MAX_U64); cbn; naive_solver lia.
  - naive_solver lia.
Qed.

(** The guard [from === MAX_U64 || to !== from + 1], negated. *)
Lemma epoch_step_ok from to :
  check (negb ((from =? MAX_U64) || negb (to =? from + 1))) invalid_record = Ok tt <->
  from <> MAX_U64 /\ to = from + 1.
Proof.
  rewrite check_ok, negb_true_iff, orb_false_iff, negb_false_iff, Z.eqb_neq, Z.eqb_eq. done.
Qed.

Lemma canonical_cases suite : canonical suite ->
  (parameterSet suite = 512 /\ publicKeyBytes suite = 800
     /\ secretKeyBytes suite = 1632 /\ ciphertextBytes suite = 768) \/
  (parameterSet suite = 768 /\ publicKeyBytes suite = 1184
     /\ secretKeyBytes suite = 2400 /\ ciphertextBytes suite = 1088) \/
  (parameterSet suite = 1024 /\ publicKeyBytes suite = 1568
     /\ secretKeyBytes suite = 3168 /\ ciphertextBytes suite = 1568).
Proof.
  unfold canonical, assertCanonicalSuite, getMlKemSuite.
  destruct (Z.eqb_spec (parameterSet suite) 512);
    [|destruct (Z.eqb_spec (parameterSet suite) 768);
      [|destruct (Z.eqb_spec (parameterSet suite) 1024); [|done]]];
    rewrite check_ok, !andb_true_iff, !Z.eqb_eq; cbn; intros H; tauto.
Qed.

Lemma canonical_sizes suite : canonical suite ->
  0 < publicKeyBytes suite /\ 0 < ciphertextBytes suite /\ 0 < secretKeyBytes suite.
Proof. intros H. apply canonical_cases in H. lia. Qed.

Lemma canonical_tag suite : canonical suite ->
  exists tag, parameterSetToTag (parameterSet suite) = Ok tag /\ 1 <= tag <= 3.
Proof.
  intros H. apply canonical_cases in H as [(-> & _)|[(-> & _)|(-> & _)]];
    eexists; (split; [reflexivity|lia]).
Qed.

Lemma tag_roundtrip ps tag :
  parameterSetToTag ps = Ok tag <-> tagToParameterSet tag = Ok ps.
Proof.
  unfold parameterSetToTag, tagToParameterSet, fail. split; intros.
  - repeat case_match; simplify_eq; try lia;
      repeat match goal with H : (_ =? _) = _ |- _ => apply Z.eqb_eq in H || apply Z.eqb_neq in H end;
      subst; done.
  - repeat case_match; simplify_eq; try lia;
      repeat match goal with H : (_ =? _) = _ |- _ => apply Z.eqb_eq in H || apply Z.eqb_neq in H end;
      subst; done.
Qed.

Lemma tag_range ps tag : parameterSetToTag ps = Ok tag -> 1 <= tag <= 3.
Proof. unfold parameterSetToTag, fail. intros. repeat case_match; simplify_eq; lia. Qed.

(** ** Lemmas: the record header as a concatenation *)

Definition headerBytes (type_ tag : Z) (binding : bytes) (x y z : Z) : bytes :=
  MAGIC ++ [byte_of FORMAT_VERSION; byte_of type_; byte_of tag; byte_of RESERVED_FLAGS]
  ++ binding ++ be_encode 8 x ++ be_encode 8 y ++ be_encode 8 z.

Lemma blen_MAGIC : blen MAGIC = 4.
Proof. reflexivity. Qed.
#[export] Hint Rewrite blen_MAGIC : blen.

Lemma blen_headerBytes type_ tag binding x y z :
  blen binding = PQ_HEALING_BINDING_BYTES ->
  blen (headerBytes type_ tag binding x y z) = PQ_HEALING_RECORD_HEADER_BYTES.
Proof.
  unfold headerBytes, PQ_HEALING_BINDING_BYTES, PQ_HEALING_RECORD_HEADER_BYTES.
  intros. blen.
Qed.
#[export] Hint Rewrite blen_headerBytes using done : blen.

(** The writes of [encodeHeader] and [encodePqHealingAck], in their order. *)
Lemma header_writes n type_ tag binding x y :
  blen binding = PQ_HEALING_BINDING_BYTES -> PQ_HEALING_RECORD_HEADER_BYTES <= n ->
  let record := bset (zeros n) MAGIC_OFFSET MAGIC in
  let record := bset record VERSION_OFFSET [byte_of FORMAT_VERSION] in
  let record := bset record TYPE_OFFSET [byte_of type_] in
  let record := bset record SUITE_OFFSET [byte_of tag] in
  let record := bset record FLAGS_OFFSET [byte_of RESERVED_FLAGS] in
  let record := bset record BINDING_OFFSET binding in
  let record := put_u64 record COUNTER_OFFSET x in
  put_u64 record FROM_EPOCH_OFFSET y =
    (MAGIC ++ [byte_of FORMAT_VERSION; byte_of type_; byte_of tag; byte_of RESERVED_FLAGS]
     ++ binding ++ be_encode 8 x ++ be_encode 8 y) ++ zeros (n - 56).
Proof.
  unfold PQ_HEALING_RECORD_HEADER_BYTES, PQ_HEALING_BINDING_BYTES, put_u64,
    MAGIC_OFFSET, VERSION_OFFSET, TYPE_OFFSET, SUITE_OFFSET, FLAGS_OFFSET,
    BINDING_OFFSET, COUNTER_OFFSET, FROM_EPOCH_OFFSET. intros Hb Hn. cbv zeta.
  rewrite bset_zeros by blen. repeat rewrite bset_append by blen.
  blen. same_zeros.
Qed.

Lemma encodeHeader_ok type_ suite binding x y z n tag :
  blen binding = PQ_HEALING_BINDING_BYTES -> PQ_HEALING_RECORD_HEADER_BYTES <= n ->
  0 <= x <= MAX_U64 -> 0 <= y < MAX_U64 -> z = y + 1 ->
  parameterSetToTag (parameterSet suite) = Ok tag ->
  encodeHeader type_ suite binding x y z n =
    Ok (headerBytes type_ tag binding x y z ++ zeros (n - PQ_HEALING_RECORD_HEADER_BYTES)).
Proof.
  intros Hb Hn Hx Hy -> Htag. unfold encodeHeader.
  rewrite (proj2 (requireBytes_ok _ _) Hb).
  rewrite !(proj2 (requireU64_ok _)) by lia.
  rewrite (proj2 (epoch_step_ok _ _)) by lia. rewrite Htag.
  cbn [mbind result_bind]. f_equal.
  rewrite (header_writes n type_ tag binding x y) by done.
  unfold put_u64, TO_EPOCH_OFFSET, headerBytes, PQ_HEALING_RECORD_HEADER_BYTES,
    PQ_HEALING_BINDING_BYTES in *.
  rewrite bset_append by blen. blen. same_zeros.
Qed.

(** Reading the fields of a record that starts with a header. *)
Lemma header_fields type_ tag binding x y z rest :
  blen binding = PQ_HEALING_BINDING_BYTES -> 0 <= type_ < 256 -> 0 <= tag < 256 ->
  0 <= x <= MAX_U64 -> 0 <= y <= MAX_U64 -> 0 <= z <= MAX_U64 ->
  let record := headerBytes type_ tag binding x y z ++ rest in
  slice record MAGIC_OFFSET VERSION_OFFSET = MAGIC /\
  at_ record VERSION_OFFSET = Some FORMAT_VERSION /\
  at_ record TYPE_OFFSET = Some type_ /\
  at_ record SUITE_OFFSET = Some tag /\
  at_ record FLAGS_OFFSET = Some RESERVED_FLAGS /\
  record_binding record = binding /\
  get_u64 record COUNTER_OFFSET = x /\
  get_u64 record FROM_EPOCH_OFFSET = y /\
  get_u64 record TO_EPOCH_OFFSET = z.
Proof.
  intros Hb Ht Hg Hx Hy Hz record. subst record. unfold headerBytes, record_binding, get_u64,
    MAGIC_OFFSET, VERSION_OFFSET, TYPE_OFFSET, SUITE_OFFSET, FLAGS_OFFSET,
    BINDING_OFFSET, COUNTER_OFFSET, FROM_EPOCH_OFFSET, TO_EPOCH_OFFSET,
    PQ_HEALING_BINDING_BYTES in *.
  rewrite <- !app_assoc.
  assert (forall a b, 8 <= a -> slice (MAGIC ++ [byte_of FORMAT_VERSION; byte_of type_; byte_of tag;
      byte_of RESERVED_FLAGS] ++ binding ++ be_encode 8 x ++ be_encode 8 y ++ be_encode 8 z ++ rest)
      a b = slice (binding ++ be_encode 8 x ++ be_encode 8 y ++ be_encode 8 z ++ rest) (a - 8) (b - 8))
    as Hs.
  { intros a b ?. rewrite app_assoc, slice_app_r by blen. f_equal; blen. }
  assert (forall v, 0 <= v <= MAX_U64 -> be_decode (be_encode 8 v) = v) by apply be_decode_u64.
  split_and!.
  - by apply slice_app_l.
  - done.
  - transitivity (Some (u8 (byte_of type_))); [done|]. by rewrite u8_byte_of, Z.mod_small.
  - transitivity (Some (u8 (byte_of tag))); [done|]. by rewrite u8_byte_of, Z.mod_small.
  - done.
  - rewrite Hs by lia. by apply slice_app_l.
  - rewrite Hs, (slice_app_r binding) by blen. rewrite Hb. by rewrite slice_app_l by blen; auto.
  - rewrite Hs, (slice_app_r binding) by blen. rewrite Hb.
    rewrite slice_app_r by blen. rewrite slice_app_l by blen; auto.
  - rewrite Hs, (slice_app_r binding) by blen. rewrite Hb.
    do 2 rewrite slice_app_r by blen. by rewrite slice_app_l by blen; auto.
Qed.

(** A record with the fixed header fields starts with a header. *)
Lemma header_split record type_ tag :
  PQ_HEALING_RECORD_HEADER_BYTES <= blen record ->
  slice record MAGIC_OFFSET VERSION_OFFSET = MAGIC ->
  at_ record VERSION_OFFSET = Some FORMAT_VERSION ->
  at_ record TYPE_OFFSET = Some type_ ->
  at_ record SUITE_OFFSET = Some tag ->
  at_ record FLAGS_OFFSET = Some RESERVED_FLAGS ->
  record = headerBytes type_ tag (record_binding record) (get_u64 record COUNTER_OFFSET)
             (get_u64 record FROM_EPOCH_OFFSET) (get_u64 record TO_EPOCH_OFFSET)
           ++ slice_from record PQ_HEALING_RECORD_HEADER_BYTES.
Proof.
  unfold PQ_HEALING_RECORD_HEADER_BYTES, record_binding, PQ_HEALING_BINDING_BYTES,
    MAGIC_OFFSET, VERSION_OFFSET, TYPE_OFFSET, SUITE_OFFSET, FLAGS_OFFSET, BINDING_OFFSET,
    COUNTER_OFFSET, FROM_EPOCH_OFFSET, TO_EPOCH_OFFSET, headerBytes.
  intros Hlen Hm Hv Ht Hs Hf.
  rewrite <- (slice_all record (blen record)) at 1 by done.
  rewrite (slice_split record 0 4), Hm by lia.
  rewrite (slice_split record 4 (4 + 1)), (slice_one _ 4 _ ltac:(lia) Hv) by lia.
  change (4 + 1) with 5. rewrite (slice_split record 5 (5 + 1)), (slice_one _ 5 _ ltac:(lia) Ht) by lia.
  change (5 + 1) with 6. rewrite (slice_split record 6 (6 + 1)), (slice_one _ 6 _ ltac:(lia) Hs) by lia.
  change (6 + 1) with 7. rewrite (slice_split record 7 (7 + 1)), (slice_one _ 7 _ ltac:(lia) Hf) by lia.
  change (7 + 1) with 8. rewrite (slice_split record 8 (8 + 32)) by lia.
  change (8 + 32) with 40. rewrite (slice_split record 40 (40 + 8)), (slice_u64 _ 40) by lia.
  change (40 + 8) with 48. rewrite (slice_split record 48 (48 + 8)), (slice_u64 _ 48) by lia.
  change (48 + 8) with 56. rewrite (slice_split record 56 (56 + 8)), (slice_u64 _ 56) by lia.
  change (56 + 8) with 64. rewrite (slice_to_end record 64) by lia.
  rewrite <- !app_assoc. done.
Qed.

Lemma decodeHeader_inv record ty suite binding h :
  decodeHeader record ty suite binding = Ok h ->
  PQ_HEALING_RECORD_HEADER_BYTES <= blen record /\
  (forall b, binding = Some b -> record_binding record = b) /\
  0 <= senderCounter h <= MAX_U64 /\ 0 <= fromEpoch h < MAX_U64 /\
  toEpoch h = fromEpoch h + 1 /\
  exists tag, parameterSetToTag (parameterSet suite) = Ok tag /\
    record = headerBytes ty tag (record_binding record) (senderCounter h) (fromEpoch h)
               (toEpoch h) ++ slice_from record PQ_HEALING_RECORD_HEADER_BYTES.
Proof.
  unfold decodeHeader. intros H. binds H. subst h. cbn.
  rewrite check_ok in E, E0, E1, E2, E3, E5, E6. apply epoch_step_ok in E7 as [Hm Hs].
  apply negb_true_iff, Z.ltb_ge in E. rewrite bytesEqual_spec in E0.
  apply bool_decide_eq_true in E1, E2, E3. apply Z.eqb_eq in E5. subst x.
  destruct (at_ record SUITE_OFFSET) as [tag|] eqn:Htag; [|done]. cbn in E4.
  assert (64 <= blen record) by done.
  pose proof (get_u64_range record COUNTER_OFFSET) as H1.
  pose proof (get_u64_range record FROM_EPOCH_OFFSET) as H2.
  unfold COUNTER_OFFSET, FROM_EPOCH_OFFSET in H1, H2.
  split_and!; try (unfold COUNTER_OFFSET, FROM_EPOCH_OFFSET in *; lia).
  - intros b ->. by apply bytesEqual_spec.
  - exists tag. split; [by apply tag_roundtrip|]. by apply header_split.
Qed.

Lemma decodeHeader_ok ty suite binding h rest b tag :
  0 <= ty < 256 -> blen b = PQ_HEALING_BINDING_BYTES ->
  (forall b', binding = Some b' -> b' = b) ->
  0 <= senderCounter h <= MAX_U64 -> 0 <= fromEpoch h < MAX_U64 ->
  toEpoch h = fromEpoch h + 1 -> parameterSetToTag (parameterSet suite) = Ok tag ->
  decodeHeader (headerBytes ty tag b (senderCounter h) (fromEpoch h) (toEpoch h) ++ rest)
    ty suite binding = Ok h.
Proof.
  intros Hty Hb Hbind Hc Hf Ht Htag. pose proof (tag_range _ _ Htag).
  destruct (header_fields ty tag b (senderCounter h) (fromEpoch h) (toEpoch h) rest)
    as (F1 & F2 & F3 & F4 & F5 & F6 & F7 & F8 & F9); [done|lia..|].
  unfold decodeHeader. rewrite F1, F2, F3, F4, F5, F7, F8, F9, bytesEqual_refl.
  fold (record_binding (headerBytes ty tag b (senderCounter h) (fromEpoch h) (toEpoch h) ++ rest)).
  rewrite F6, !bool_decide_eq_true_2 by done. change (default (-1) (Some tag)) with tag.
  rewrite (proj1 (tag_roundtrip _ _) Htag). cbn [mbind result_bind]. rewrite Z.eqb_refl.
  replace (blen _ <? _) with false
    by (symmetry; apply Z.ltb_ge; blen; pose proof (blen_nonneg rest); lia).
  rewrite (proj2 (epoch_step_ok _ _)) by lia.
  assert (match binding with None => true | Some b' => bytesEqual b b' end = true) as ->.
  { destruct binding as [b'|]; [|done]. rewrite (Hbind b') by done. apply bytesEqual_refl. }
  cbn. by destruct h.
Qed.

(** ** Theorems: the codecs are canonical *)

Section Codec.
Context (suite : MlKemSuiteDescriptor) (Hsuite : canonical suite).
Context (binding : bytes) (Hbinding : blen binding = PQ_HEALING_BINDING_BYTES).

Lemma encodeOffer_ok counter from pk tag :
  0 <= counter <= MAX_U64 -> 0 <= from < MAX_U64 -> blen pk = publicKeyBytes suite ->
  parameterSetToTag (parameterSet suite) = Ok tag ->
  encodeOffer suite binding counter from pk =
    Ok (headerBytes OFFER_TYPE tag binding counter from (from + 1) ++ pk).
Proof.
  intros Hc Hf Hpk Htag. pose proof (canonical_sizes suite Hsuite).
  unfold encodeOffer. rewrite (proj2 (requireBytes_ok _ _) Hpk).
  unfold offerLength, PQ_HEALING_RECORD_HEADER_BYTES.
  rewrite (encodeHeader_ok _ _ _ _ _ _ _ tag) by (unfold PQ_HEALING_RECORD_HEADER_BYTES; done || lia).
  cbn [mbind result_bind]. f_equal. unfold PQ_HEALING_RECORD_HEADER_BYTES.
  rewrite bset_append by (blen; unfold PQ_HEALING_RECORD_HEADER_BYTES; lia).
  rewrite zeros_0 by lia. by rewrite app_nil_r.
Qed.

Lemma encodeOffer_inv counter from pk record :
  encodeOffer suite binding counter from pk = Ok record ->
  0 <= counter <= MAX_U64 /\ 0 <= from < MAX_U64 /\ blen pk = publicKeyBytes suite.
Proof.
  unfold encodeOffer, encodeHeader. intros H. binds H. binds E0.
  rewrite requireBytes_ok in E. rewrite requireU64_ok in E2, E3, E4.
  apply epoch_step_ok in E5. lia.
Qed.

(** The decoder accepts exactly the encoder's output, and reads back what
    was encoded: there is one representation per offer. *)
Lemma decodeOffer_iff record o :
  decodeOffer record suite (Some binding) = Ok o <->
  encodeOffer suite binding (senderCounter (offer_header o)) (fromEpoch (offer_header o))
    (publicKey o) = Ok record /\
  toEpoch (offer_header o) = fromEpoch (offer_header o) + 1 /\ offer_bytes o = record.
Proof.
  destruct (canonical_tag suite Hsuite) as (tag & Htag & Htr).
  pose proof (canonical_sizes suite Hsuite). split.
  - intros H0. unfold decodeOffer in H0. binds H0. subst o. cbn.
    apply decodeHeader_inv in E as (Hlen & Hbind & Hc & Hf & Ht & tag' & Htag' & Hrec).
    assert (tag' = tag) as -> by congruence. rewrite (Hbind binding) in Hrec by done.
    apply check_ok, Z.eqb_eq in E0. split_and!; [|done..].
    rewrite (encodeOffer_ok _ _ _ tag);
      [rewrite <- Ht; by rewrite <- Hrec|done|done| |done].
    rewrite blen_slice_from by (unfold PQ_HEALING_RECORD_HEADER_BYTES in *; lia).
    rewrite E0. unfold offerLength. lia.
  - intros (Henc & Ht & Hb). destruct o as [h ob pk]. cbn in *. subst ob.
    pose proof (encodeOffer_inv _ _ _ _ Henc) as (Hc & Hf & Hpk).
    rewrite (encodeOffer_ok _ _ _ tag) in Henc by done. apply Ok_inj in Henc as <-.
    unfold decodeOffer. rewrite <- Ht. rewrite decodeHeader_ok; try done.
    + cbn [mbind result_bind]. unfold offerLength.
      rewrite (proj2 (check_ok _ _)).
      * cbn [mbind result_bind]. do 2 f_equal. by rewrite slice_from_app by blen.
      * apply Z.eqb_eq. blen.
    + by intros ? [= ->].
Qed.
Lemma decodeOffer_length record o b :
  decodeOffer record suite b = Ok o ->
  blen record = offerLength suite /\ offer_bytes o = record
  /\ publicKey o = slice_from record PQ_HEALING_RECORD_HEADER_BYTES
  /\ 0 <= senderCounter (offer_header o) <= MAX_U64
  /\ 0 <= fromEpoch (offer_header o) < MAX_U64
  /\ toEpoch (offer_header o) = fromEpoch (offer_header o) + 1.
Proof using.
  unfold decodeOffer. intros H. binds H. apply check_ok, Z.eqb_eq in E0.
  apply decodeHeader_inv in E as (_ & _ & ? & ? & ? & _). by subst o.
Qed.

Lemma encodeAdvance_ok counter offer ct tag :
  0 <= counter <= MAX_U64 -> 0 <= fromEpoch (offer_header offer) < MAX_U64 ->
  toEpoch (offer_header offer) = fromEpoch (offer_header offer) + 1 ->
  blen (offer_bytes offer) = offerLength suite -> blen ct = ciphertextBytes suite ->
  parameterSetToTag (parameterSet suite) = Ok tag ->
  encodeAdvance suite binding counter offer ct =
    Ok (headerBytes ADVANCE_TYPE tag binding counter (fromEpoch (offer_header offer))
          (toEpoch (offer_header offer)) ++ offer_bytes offer ++ ct).
Proof.
  intros Hc Hf Ht Hob Hct Htag. pose proof (canonical_sizes suite Hsuite).
  unfold encodeAdvance. rewrite (proj2 (requireBytes_ok _ _) Hct).
  unfold advanceLength, offerLength, PQ_HEALING_RECORD_HEADER_BYTES in *.
  rewrite (encodeHeader_ok _ _ _ _ _ _ _ tag) by (unfold PQ_HEALING_RECORD_HEADER_BYTES; done || lia).
  cbn [mbind result_bind]. f_equal. unfold PQ_HEALING_RECORD_HEADER_BYTES.
  rewrite bset_append by (blen; unfold PQ_HEALING_RECORD_HEADER_BYTES; lia).
  rewrite bset_append by (blen; unfold PQ_HEALING_RECORD_HEADER_BYTES; lia).
  rewrite zeros_0 by lia. by rewrite app_nil_r, <- app_assoc.
Qed.

Lemma encodeAdvance_inv counter offer ct record :
  encodeAdvance suite binding counter offer ct = Ok record ->
  0 <= counter <= MAX_U64 /\ blen ct = ciphertextBytes suite.
Proof.
  unfold encodeAdvance, encodeHeader. intros H. binds H. binds E0.
  rewrite requireBytes_ok in E. rewrite requireU64_ok in E2. lia.
Qed.

Lemma advance_epochs_ok (a b : DecodedHeader) :
  check (negb (negb (fromEpoch a =? fromEpoch b) || negb (toEpoch a =? toEpoch b))) fork = Ok tt <->
  fromEpoch a = fromEpoch b /\ toEpoch a = toEpoch b.
Proof using.
  rewrite check_ok, negb_true_iff, orb_false_iff, !negb_false_iff, !Z.eqb_eq. done.
Qed.

Lemma decodeAdvance_iff record a :
  decodeAdvance record suite (Some binding) = Ok a <->
  encodeAdvance suite binding (senderCounter (advance_header a)) (advance_offer a)
    (ciphertext a) = Ok record /\
  decodeOffer (offer_bytes (advance_offer a)) suite (Some binding) = Ok (advance_offer a) /\
  fromEpoch (advance_header a) = fromEpoch (offer_header (advance_offer a)) /\
  toEpoch (advance_header a) = toEpoch (offer_header (advance_offer a)) /\
  advance_bytes a = record.
Proof.
  destruct (canonical_tag suite Hsuite) as (tag & Htag & Htr).
  pose proof (canonical_sizes suite Hsuite). split.
  - intros H0. unfold decodeAdvance in H0. binds H0. subst a. cbn.
    apply advance_epochs_ok in E2 as [Hfe Hte]. apply check_ok, Z.eqb_eq in E0.
    apply decodeHeader_inv in E as (Hlen & Hbind & Hc & Hf & Ht & tag' & Htag' & Hrec).
    assert (tag' = tag) as -> by congruence. rewrite (Hbind binding) in Hrec by done.
    destruct (decodeOffer_length _ _ _ E1) as (Hol & Hob & _).
    rewrite Hob. split_and!; [|done..].
    rewrite (encodeAdvance_ok _ _ _ tag); try lia; try done.
    + rewrite Hob, Hfe, Hte. rewrite Hrec at 3. do 2 f_equal.
      unfold advanceLength in E0. unfold offerLength, PQ_HEALING_RECORD_HEADER_BYTES in *.
      rewrite <- (slice_to_end record 64 (blen record)) by lia.
      rewrite (slice_split record 64 (64 + (64 + publicKeyBytes suite)) (blen record)) by lia.
      by rewrite (slice_to_end record (64 + (64 + publicKeyBytes suite)) (blen record)) by lia.
    + by rewrite Hob.
    + unfold advanceLength in E0. unfold offerLength, PQ_HEALING_RECORD_HEADER_BYTES in *.
      rewrite blen_slice_from by lia. lia.
  - intros (Henc & Hdec & Hfe & Hte & Hb). destruct a as [h ab o ct]. cbn in *. subst ab.
    destruct (decodeOffer_length _ _ _ Hdec) as (Hol & _ & _ & _ & Hf & Ht).
    pose proof (encodeAdvance_inv _ _ _ _ Henc) as (Hc & Hct).
    rewrite (encodeAdvance_ok _ _ _ tag) in Henc by done. apply Ok_inj in Henc as <-.
    unfold decodeAdvance. rewrite <- Hfe, <- Hte. rewrite decodeHeader_ok; try done; try lia;
      [|by intros ? [= ->]].
    cbn [mbind result_bind].
    rewrite (proj2 (check_ok _ _)); cycle 1.
    { apply Z.eqb_eq. unfold advanceLength. blen. }
    rewrite slice_app_r by blen. rewrite slice_app_l by (blen).
    cbn [mbind result_bind]. rewrite Hdec. cbn [mbind result_bind].
    rewrite (proj2 (advance_epochs_ok _ _)) by done.
    cbn [mbind result_bind]. do 2 f_equal.
    rewrite app_assoc, slice_from_app by blen. done.
Qed.

Lemma encodePqHealingAck_ok a tag :
  0 <= ack_epoch a <= MAX_U64 -> 0 <= advanceCounter a <= MAX_U64 ->
  parameterSetToTag (parameterSet suite) = Ok tag ->
  encodePqHealingAck a suite binding =
    Ok (headerBytes ACK_TYPE tag binding (advanceCounter a) (ack_epoch a) 0).
Proof.
  intros He Hc Htag. unfold encodePqHealingAck, requireAcknowledgement.
  rewrite Hsuite, (proj2 (requireBytes_ok _ _) Hbinding), !(proj2 (requireU64_ok _)) by done.
  cbn [mbind result_bind]. rewrite Htag. cbn [mbind result_bind]. f_equal.
  change ACK_EPOCH_OFFSET with FROM_EPOCH_OFFSET. rewrite header_writes by done.
  unfold headerBytes. same_zeros.
Qed.

Lemma encodePqHealingAck_inv a record :
  encodePqHealingAck a suite binding = Ok record ->
  0 <= ack_epoch a <= MAX_U64 /\ 0 <= advanceCounter a <= MAX_U64.
Proof.
  unfold encodePqHealingAck, requireAcknowledgement. intros H. binds H. binds E1.
  by rewrite requireU64_ok in E3, E4.
Qed.

Lemma decodePqHealingAck_iff record a :
  decodePqHealingAck record suite binding = Ok a <->
  encodePqHealingAck a suite binding = Ok record.
Proof.
  destruct (canonical_tag suite Hsuite) as (tag & Htag & Htr). split.
  - intros H. unfold decodePqHealingAck in H. binds H. subst a.
    rewrite requireBytes_ok in E1. rewrite check_ok in E2, E3, E4, E5, E7, E8, E9.
    apply Z.eqb_eq in E7, E9. subst x. apply bytesEqual_spec in E2, E8.
    apply bool_decide_eq_true in E3, E4, E5.
    destruct (at_ record SUITE_OFFSET) as [tag'|] eqn:Ht; [|done].
    apply tag_roundtrip in E6. assert (tag' = tag) as -> by (cbn in E6; congruence).
    pose proof (header_split record ACK_TYPE tag ltac:(by rewrite E1) E2 E3 E4 Ht E5) as Hrec.
    change TO_EPOCH_OFFSET with ACK_RESERVED_OFFSET in Hrec. rewrite E9 in Hrec.
    unfold PQ_HEALING_ACK_BYTES in E1.
    rewrite (encodePqHealingAck_ok _ tag); [..|done]; cbn [ack_epoch advanceCounter];
      [|apply get_u64_range; unfold ACK_EPOCH_OFFSET, COUNTER_OFFSET; lia..].
    rewrite Hrec at 3. unfold record_binding. rewrite E8.
    unfold slice_from. rewrite drop_ge by (unfold blen, PQ_HEALING_RECORD_HEADER_BYTES in *; lia).
    by rewrite app_nil_r.
  - intros Henc. pose proof (encodePqHealingAck_inv _ _ Henc) as [He Hc].
    rewrite (encodePqHealingAck_ok _ tag) in Henc by done. apply Ok_inj in Henc as <-.
    destruct (header_fields ACK_TYPE tag binding (advanceCounter a) (ack_epoch a) 0 [])
      as (F1 & F2 & F3 & F4 & F5 & F6 & F7 & F8 & F9); [done|unfold ACK_TYPE; lia..|done|].
    rewrite !app_nil_r in *. unfold record_binding in F6.
    unfold decodePqHealingAck. change ACK_EPOCH_OFFSET with FROM_EPOCH_OFFSET.
    change ACK_RESERVED_OFFSET with TO_EPOCH_OFFSET.
    rewrite Hsuite, !(proj2 (requireBytes_ok _ _)) by (done || by rewrite blen_headerBytes).
    rewrite F1, F2, F3, F4, F5, F6, F7, F8, F9, !bytesEqual_refl, !bool_decide_eq_true_2 by done.
    change (default (-1) (Some tag)) with tag. rewrite (proj1 (tag_roundtrip _ _) Htag).
    cbn [mbind result_bind]. rewrite !Z.eqb_refl. by destruct a.
Qed.
End Codec.

(** ** Theorems *)

(** OFFER records are canonical: for a canonical suite and a 32-byte
    binding, the decoder accepts exactly the encodings, and returns the fields
    that were encoded.  So every accepted byte string has one meaning and every
    offer has one encoding. *)
Theorem offer_codec_canonical suite binding record o :
  canonical suite -> blen binding = PQ_HEALING_BINDING_BYTES ->
  decodeOffer record suite (Some binding) = Ok o <->
  encodeOffer suite binding (senderCounter (offer_header o)) (fromEpoch (offer_header o))
    (publicKey o) = Ok record /\
  toEpoch (offer_header o) = fromEpoch (offer_header o) + 1 /\ offer_bytes o = record.
Proof. intros. by apply decodeOffer_iff. Qed.

(** ADVANCE records are canonical: the decoder accepts exactly the encodings
    of an answer to a well-formed nested OFFER of the same edge and epochs, and
    returns the offer and the ciphertext that were encoded. *)
Theorem advance_codec_canonical suite binding record a :
  canonical suite -> blen binding = PQ_HEALING_BINDING_BYTES ->
  decodeAdvance record suite (Some binding) = Ok a <->
  encodeAdvance suite binding (senderCounter (advance_header a)) (advance_offer a)
    (ciphertext a) = Ok record /\
  decodeOffer (offer_bytes (advance_offer a)) suite (Some binding) = Ok (advance_offer a) /\
  fromEpoch (advance_header a) = fromEpoch (offer_header (advance_offer a)) /\
  toEpoch (advance_header a) = toEpoch (offer_header (advance_offer a)) /\
  advance_bytes a = record.
Proof. intros. by apply decodeAdvance_iff. Qed.

(** Acknowledgements round trip and are canonical: decoding gives back
    exactly the acknowledgement whose encoding the record is. *)
Theorem ack_codec_canonical suite binding record a :
  canonical suite -> blen binding = PQ_HEALING_BINDING_BYTES ->
  decodePqHealingAck record suite binding = Ok a <->
  encodePqHealingAck a suite binding = Ok record.
Proof. intros. by apply decodePqHealingAck_iff. Qed.
