(* ===== verification/PqMachine.v ===== *)
(** * The post-quantum healing machine ([PqHealingMachine] of
      [src/src/cryptography/pqHealing.ts])

    One machine per authenticated peer edge.  Its private fields are the record
    [machine]; every public method is a definition in the method monad [M].  An
    asynchronous method is split at its [await]: the part before it sets the
    [busy] flag and returns what the JavaScript closure captures, the part after
    it receives the backend's answer ([None] for a rejected promise) and always
    clears the flag, as the [finally] block does.

    Key buffers that the source wipes with [fill(0)] after replacing them are
    not observable any more and have no counterpart; buffers that stay in a
    field after being wiped are zeroed here too. *)

From S2P Require Import Prelude Bytes Crypto MlKem PqRecord.
Local Open Scope Z_scope.

Inductive PqHealingTurn := local | remote.
#[export] Instance PqHealingTurn_eq_dec : EqDecision PqHealingTurn.
Proof. solve_decision. Defined.

#[export] Instance MlKemKeyPair_eq_dec : EqDecision MlKemKeyPair.
Proof. solve_decision. Defined.

Inductive InternalPhase :=
  | Idle
  | OutboundOffer (dispatched : bool) (offer : DecodedOffer) (keyPair : MlKemKeyPair)
  | InboundOffer (offer : DecodedOffer)
  | OutboundAdvancePrepared (offer : DecodedOffer) (advance : DecodedAdvance) (nextRoot : bytes)
  | OutboundAdvanceAwaitingAck (offer : DecodedOffer) (advance : DecodedAdvance)
  | InboundAdvancePrepared (offer : DecodedOffer) (advance : DecodedAdvance)
      (keyPair : MlKemKeyPair) (nextRoot : bytes)
  | InboundAdvanceAwaitingAckDispatch (advance : DecodedAdvance).
#[export] Instance InternalPhase_eq_dec : EqDecision InternalPhase.
Proof. solve_decision. Defined.

Inductive PqHealingPhase :=
  | idle | outbound_offer_prepared | outbound_offer_dispatched | inbound_offer
  | outbound_advance_prepared | outbound_advance_awaiting_ack
  | inbound_advance_prepared | inbound_advance_awaiting_ack_dispatch | destroyed_phase.
#[export] Instance PqHealingPhase_eq_dec : EqDecision PqHealingPhase.
Proof. solve_decision. Defined.

Definition phaseName (phase : InternalPhase) : PqHealingPhase :=
  match phase with
  | Idle => idle
  | OutboundOffer dispatched _ _ =>
      if dispatched then outbound_offer_dispatched else outbound_offer_prepared
  | InboundOffer _ => inbound_offer
  | OutboundAdvancePrepared _ _ _ => outbound_advance_prepared
  | OutboundAdvanceAwaitingAck _ _ => outbound_advance_awaiting_ack
  | InboundAdvancePrepared _ _ _ _ => inbound_advance_prepared
  | InboundAdvanceAwaitingAckDispatch _ => inbound_advance_awaiting_ack_dispatch
  end.

Record machine := Machine {
  m_suite : MlKemSuiteDescriptor;
  m_binding : bytes;
  m_rootKey : bytes;
  m_epoch : Z;
  m_localCounter : Z;
  m_remoteCounter : Z;
  m_nextOfferer : PqHealingTurn;
  m_phase : InternalPhase;
  m_lastInboundOffer : option DecodedOffer;
  m_lastInboundAdvance : option DecodedAdvance;
  m_busy : bool;
  m_destroyed : bool;
}.

Abbreviation method A := (M machine PqError A).
Definition throw {A} (code : PqHealingErrorCode) : method A := mthrow (PqHealingError code).
Definition guard (ok : bool) (code : PqHealingErrorCode) : method unit := lift (check ok code).

(** Field assignments. *)
Definition set_phase (p : InternalPhase) (m : machine) : machine :=
  Machine (m_suite m) (m_binding m) (m_rootKey m) (m_epoch m) (m_localCounter m)
    (m_remoteCounter m) (m_nextOfferer m) p (m_lastInboundOffer m)
    (m_lastInboundAdvance m) (m_busy m) (m_destroyed m).
Definition set_busy (b : bool) (m : machine) : machine :=
  Machine (m_suite m) (m_binding m) (m_rootKey m) (m_epoch m) (m_localCounter m)
    (m_remoteCounter m) (m_nextOfferer m) (m_phase m) (m_lastInboundOffer m)
    (m_lastInboundAdvance m) b (m_destroyed m).

(** The body of a [try] whose [finally] block runs [f]. *)
Definition finally {S E A} (body : M S E A) (f : S -> S) : M S E A :=
  fun s => let '(r, s') := body s in (r, f s').
(** A [finally] block that is only reached here when the body throws. *)
Definition on_throw {S E A} (body : M S E A) (f : S -> S) : M S E A :=
  fun s => match body s with (Err e, s') => (Err e, f s') | r => r end.

(** [keyPair.destroy()]. *)
Definition destroyKeyPair (kp : MlKemKeyPair) : MlKemKeyPair :=
  {| kp_public := kp_public kp; kp_secret := zeros (blen (kp_secret kp)) |}.

(** ** Private checks *)

Definition assertActive : method unit :=
  this ← get_this; guard (negb (m_destroyed this)) destroyed_error.
Definition assertSynchronous : method unit :=
  assertActive;; this ← get_this; guard (negb (m_busy this)) invalid_state.
Definition beginAsyncOperation : method unit :=
  assertSynchronous;; modify_this (set_busy true).
Definition endAsyncOperation : machine -> machine := set_busy false.

Definition assertCanStartExchange : method unit :=
  this ← get_this;
  lift (requireIncrementableU64 (m_epoch this));;
  lift (requireIncrementableU64 (m_localCounter this));;
  lift (requireIncrementableU64 (m_remoteCounter this)).

Definition requireExpectedCounter (counter : Z) : method unit :=
  this ← get_this;
  guard (negb (counter <? m_remoteCounter this)) replay;;
  guard (negb (m_remoteCounter this <? counter)) counter_gap.
Definition requireExpectedEpoch (from : Z) : method unit :=
  this ← get_this;
  guard (negb (from <? m_epoch this)) replay;;
  guard (negb (m_epoch this <? from)) epoch_gap.

Definition sameSlot (left right : DecodedHeader) : bool :=
  (senderCounter left =? senderCounter right)
  && (fromEpoch left =? fromEpoch right) && (toEpoch left =? toEpoch right).
Definition sameOfferSlot (left right : DecodedOffer) : bool :=
  sameSlot (offer_header left) (offer_header right).
Definition sameAdvanceSlot (left right : DecodedAdvance) : bool :=
  sameSlot (advance_header left) (advance_header right).

Definition knownOffer (this : machine) : option DecodedOffer :=
  match m_phase this with
  | InboundOffer offer | OutboundAdvancePrepared offer _ _
  | OutboundAdvanceAwaitingAck offer _ => Some offer
  | _ => m_lastInboundOffer this
  end.
Definition rejectKnownOfferReplayOrFork (offer : DecodedOffer) : method unit :=
  this ← get_this;
  match knownOffer this with
  | None => mret tt
  | Some known =>
      if negb (sameOfferSlot offer known) then mret tt
      else if bytesEqual (offer_bytes offer) (offer_bytes known) then throw replay
      else throw fork
  end.

Definition knownAdvance (this : machine) : option DecodedAdvance :=
  match m_phase this with
  | InboundAdvancePrepared _ advance _ _
  | InboundAdvanceAwaitingAckDispatch advance => Some advance
  | _ => m_lastInboundAdvance this
  end.
Definition rejectKnownAdvanceReplayOrFork (advance : DecodedAdvance) : method unit :=
  this ← get_this;
  match knownAdvance this with
  | None => mret tt
  | Some known =>
      if negb (sameAdvanceSlot advance known) then mret tt
      else if bytesEqual (advance_bytes advance) (advance_bytes known) then throw replay
      else throw fork
  end.

(** ** Key derivation *)

Definition KDF_DOMAIN : bytes := text "p2party/pq-healing/root/v1" ++ [byte_of 0].

Section Machine.
Context {C : LibCrypto} {B : MlKemBackend}.

Definition deriveNextRoot (currentRoot sharedSecret advanceRecord : bytes) : pq bytes :=
  requireBytes currentRoot PQ_HEALING_ROOT_BYTES;;
  prk ← map_err CryptoFailure (hkdfExtract currentRoot sharedSecret);
  map_err CryptoFailure (hkdfExpand prk (KDF_DOMAIN ++ advanceRecord) PQ_HEALING_ROOT_BYTES).

(** ** Construction *)

Definition new_machine (suite : MlKemSuiteDescriptor) (binding rootKey : bytes)
    (nextOfferer : PqHealingTurn) (epoch localCounter remoteCounter : Z) : pq machine :=
  assertSameSuite suite backend_suite;;
  requireBytes binding PQ_HEALING_BINDING_BYTES;;
  requireBytes rootKey PQ_HEALING_ROOT_BYTES;;
  requireU64 epoch;; requireU64 localCounter;; requireU64 remoteCounter;;
  Ok (Machine suite binding rootKey epoch localCounter remoteCounter nextOfferer
        Idle None None false false).

(** ** Observers *)

Definition phase_ (this : machine) : PqHealingPhase :=
  if m_destroyed this then destroyed_phase else phaseName (m_phase this).
Definition trafficBlocked (this : machine) : bool :=
  m_destroyed this || negb (bool_decide (m_phase this = Idle)).
Definition epoch : method Z := assertActive;; this ← get_this; mret (m_epoch this).
Definition localCounter : method Z :=
  assertActive;; this ← get_this; mret (m_localCounter this).
Definition remoteCounter : method Z :=
  assertActive;; this ← get_this; mret (m_remoteCounter this).
Definition nextOfferer : method PqHealingTurn :=
  assertActive;; this ← get_this; mret (m_nextOfferer this).
Definition copyRootKey : method bytes :=
  assertActive;; this ← get_this; mret (m_rootKey this).

Definition copyPendingOutboundRecord : method bytes :=
  assertSynchronous;; this ← get_this;
  match m_phase this with
  | OutboundOffer _ offer _ => mret (offer_bytes offer)
  | OutboundAdvancePrepared _ advance _
  | OutboundAdvanceAwaitingAck _ advance => mret (advance_bytes advance)
  | _ => throw invalid_state
  end.

(** ** Offering side *)

Definition prepareOffer_start : method unit :=
  beginAsyncOperation;;
  on_throw
    (this ← get_this;
     guard (bool_decide (m_phase this = Idle)) invalid_state;;
     guard (bool_decide (m_nextOfferer this = local)) wrong_turn;;
     assertCanStartExchange) endAsyncOperation.

Definition prepareOffer_resume (answer : option MlKemKeyPair) : method bytes :=
  finally
    (match answer with
     | None => mthrow BackendRejected
     | Some keyPair =>
         assertActive;;
         this ← get_this;
         lift (requireBytes (kp_public keyPair) (publicKeyBytes (m_suite this)));;
         lift (requireBytes (kp_secret keyPair) (secretKeyBytes (m_suite this)));;
         record ← lift (encodeOffer (m_suite this) (m_binding this)
                          (m_localCounter this) (m_epoch this) (kp_public keyPair));
         offer ← lift (decodeOffer record (m_suite this) (Some (m_binding this)));
         modify_this (set_phase (OutboundOffer false offer keyPair));;
         mret record
     end) endAsyncOperation.

(** The method run to completion with nothing interleaved. *)
Definition prepareOffer (coins : bytes) : method bytes :=
  prepareOffer_start;; prepareOffer_resume (generateKeyPair coins).

Definition markOfferDispatched : method unit :=
  assertSynchronous;; this ← get_this;
  match m_phase this with
  | OutboundOffer dispatched offer keyPair =>
      guard (negb dispatched) invalid_state;;
      modify_this (set_phase (OutboundOffer true offer keyPair))
  | _ => throw invalid_state
  end.

Definition abortUnsentOffer : method unit :=
  assertSynchronous;; this ← get_this;
  match m_phase this with
  | OutboundOffer false _ _ => modify_this (set_phase Idle)
  | _ => throw invalid_state
  end.

(** ** Answering side *)

Definition acceptAuthenticatedOffer (record : bytes) : method unit :=
  assertSynchronous;; this ← get_this;
  offer ← lift (decodeOffer record (m_suite this) (Some (m_binding this)));
  rejectKnownOfferReplayOrFork offer;;
  guard (bool_decide (m_phase this = Idle)) invalid_state;;
  guard (bool_decide (m_nextOfferer this = remote)) wrong_turn;;
  requireExpectedCounter (senderCounter (offer_header offer));;
  requireExpectedEpoch (fromEpoch (offer_header offer));;
  assertCanStartExchange;;
  modify_this (set_phase (InboundOffer offer)).

(** Returns the captured offer, whose public key is encapsulated to. *)
Definition prepareAdvance_start : method DecodedOffer :=
  beginAsyncOperation;;
  on_throw
    (this ← get_this;
     match m_phase this with
     | InboundOffer offer =>
         lift (requireIncrementableU64 (m_localCounter this));; mret offer
     | _ => throw invalid_state
     end) endAsyncOperation.

Definition prepareAdvance_resume (offer : DecodedOffer) (answer : option (bytes * bytes)) :
  method bytes :=
  finally
    (match answer with
     | None => mthrow BackendRejected
     | Some (ct, sharedSecret) =>
         assertActive;;
         this ← get_this;
         lift (requireBytes ct (ciphertextBytes (m_suite this)));;
         lift (requireBytes sharedSecret (sharedSecretBytes (m_suite this)));;
         record ← lift (encodeAdvance (m_suite this) (m_binding this)
                          (m_localCounter this) offer ct);
         advance ← lift (decodeAdvance record (m_suite this) (Some (m_binding this)));
         nextRoot ← lift (deriveNextRoot (m_rootKey this) sharedSecret record);
         modify_this (set_phase (OutboundAdvancePrepared offer advance nextRoot));;
         mret record
     end) endAsyncOperation.

Definition prepareAdvance (coins : bytes) : method bytes :=
  offer ← prepareAdvance_start;
  prepareAdvance_resume offer (encapsulate coins (publicKey offer)).

Definition commitPreparedAdvance : method bytes :=
  assertSynchronous;; this ← get_this;
  match m_phase this with
  | OutboundAdvancePrepared offer advance nextRoot =>
      lift (requireBytes nextRoot PQ_HEALING_ROOT_BYTES);;
      set_this (Machine (m_suite this) (m_binding this) nextRoot
        (toEpoch (advance_header advance))
        (m_localCounter this + 1) (m_remoteCounter this + 1) local
        (OutboundAdvanceAwaitingAck offer advance) (Some offer)
        (m_lastInboundAdvance this) (m_busy this) (m_destroyed this));;
      mret (advance_bytes advance)
  | _ => throw invalid_state
  end.

Definition acceptAuthenticatedAdvanceAcknowledgement
    (acknowledgement : PqHealingAdvanceAcknowledgement) : method unit :=
  assertSynchronous;;
  ack ← lift (requireAcknowledgement acknowledgement);
  this ← get_this;
  match m_phase this with
  | OutboundAdvanceAwaitingAck _ advance =>
      guard ((ack_epoch ack =? m_epoch this)
             && (advanceCounter ack =? senderCounter (advance_header advance))) invalid_record;;
      modify_this (set_phase Idle)
  | _ => throw invalid_state
  end.

(** ** The offerer receives the ADVANCE *)

(** Returns the captured advance, offer and key pair. *)
Definition acceptAuthenticatedAdvance_start (record : bytes) :
  method (DecodedAdvance * DecodedOffer * MlKemKeyPair) :=
  beginAsyncOperation;;
  on_throw
    (this ← get_this;
     advance ← lift (decodeAdvance record (m_suite this) (Some (m_binding this)));
     rejectKnownAdvanceReplayOrFork advance;;
     match m_phase this with
     | OutboundOffer true offer keyPair =>
         requireExpectedCounter (senderCounter (advance_header advance));;
         requireExpectedEpoch (fromEpoch (advance_header advance));;
         guard (bytesEqual (offer_bytes (advance_offer advance)) (offer_bytes offer)) fork;;
         mret (advance, offer, keyPair)
     | _ => throw invalid_state
     end) endAsyncOperation.

Definition acceptAuthenticatedAdvance_resume
    (captured : DecodedAdvance * DecodedOffer * MlKemKeyPair) (answer : option bytes) :
  method unit :=
  let '(advance, offer, keyPair) := captured in
  finally
    (match answer with
     | None => mthrow BackendRejected
     | Some sharedSecret =>
         assertActive;;
         this ← get_this;
         lift (requireBytes sharedSecret (sharedSecretBytes (m_suite this)));;
         nextRoot ← lift (deriveNextRoot (m_rootKey this) sharedSecret (advance_bytes advance));
         modify_this (set_phase (InboundAdvancePrepared offer advance keyPair nextRoot))
     end) endAsyncOperation.

Definition acceptAuthenticatedAdvance (record : bytes) : method unit :=
  captured ← acceptAuthenticatedAdvance_start record;
  acceptAuthenticatedAdvance_resume captured
    (decapsulate (ciphertext captured.1.1) (kp_secret captured.2)).

Definition commitAcceptedAdvance : method PqHealingAdvanceAcknowledgement :=
  assertSynchronous;; this ← get_this;
  match m_phase this with
  | InboundAdvancePrepared offer advance keyPair nextRoot =>
      modify_this (set_phase
        (InboundAdvancePrepared offer advance (destroyKeyPair keyPair) nextRoot));;
      lift (requireBytes nextRoot PQ_HEALING_ROOT_BYTES);;
      set_this (Machine (m_suite this) (m_binding this) nextRoot
        (toEpoch (advance_header advance))
        (m_localCounter this + 1) (m_remoteCounter this + 1) remote
        (InboundAdvanceAwaitingAckDispatch advance) (m_lastInboundOffer this)
        (Some advance) (m_busy this) (m_destroyed this));;
      mret {| ack_epoch := toEpoch (advance_header advance);
              advanceCounter := senderCounter (advance_header advance) |}
  | _ => throw invalid_state
  end.

Definition markAdvanceAcknowledgementDispatched
    (acknowledgement : PqHealingAdvanceAcknowledgement) : method unit :=
  assertSynchronous;;
  ack ← lift (requireAcknowledgement acknowledgement);
  this ← get_this;
  match m_phase this with
  | InboundAdvanceAwaitingAckDispatch advance =>
      guard ((ack_epoch ack =? m_epoch this)
             && (advanceCounter ack =? senderCounter (advance_header advance))) invalid_record;;
      modify_this (set_phase Idle)
  | _ => throw invalid_state
  end.

(** ** Teardown and adoption *)

Definition destroy (this : machine) : machine :=
  if m_destroyed this then this
  else Machine (m_suite this) (zeros (blen (m_binding this))) (zeros (blen (m_rootKey this)))
         (m_epoch this) (m_localCounter this) (m_remoteCounter this) (m_nextOfferer this)
         Idle None None (m_busy this) true.

(** [same] is the identity test [next === this].  Returns the outcome and
    both objects. *)
Definition adopt (same : bool) (this next : machine) :
  result PqError unit * (machine * machine) :=
  let checks : pq unit :=
    fst (assertSynchronous this);; fst (assertSynchronous next);;
    check (negb same) invalid_state;;
    check ((parameterSet (m_suite this) =? parameterSet (m_suite next))
           && bytesEqual (m_binding this) (m_binding next)) invalid_state in
  match checks with
  | Err e => (Err e, (this, next))
  | Ok tt =>
      (Ok tt,
       (Machine (m_suite this) (m_binding this) (m_rootKey next) (m_epoch next)
          (m_localCounter next) (m_remoteCounter next) (m_nextOfferer next)
          (m_phase next) (m_lastInboundOffer next) (m_lastInboundAdvance next)
          (m_busy this) (m_destroyed this),
        Machine (m_suite next) (zeros (blen (m_binding next))) (zeros PQ_HEALING_ROOT_BYTES)
          (m_epoch next) (m_localCounter next) (m_remoteCounter next) (m_nextOfferer next)
          Idle None None (m_busy next) true))
  end.
End Machine.
