(* ===== verification/PqInvariant.v ===== *)
(** * Invariant of the healing machine

    What each successful method did ([*_ok] lemmas), that a method that throws
    leaves the machine alone ([*_atomic]), the invariant [machine_inv] of an
    active machine, and that every method preserves it. *)

From S2P Require Import Prelude Bytes Crypto MlKem PqRecord PqMachine.
Local Open Scope Z_scope.

(** ** Successful private checks *)

Lemma guard_ok b c (m m' : machine) a : guard b c m = (Ok a, m') -> b = true /\ m' = m.
Proof. unfold guard, lift. intros [= H ->]. destruct a. by apply check_ok in H. Qed.

Lemma assertActive_ok m m' a :
  assertActive m = (Ok a, m') -> m_destroyed m = false /\ m' = m.
Proof.
  unfold assertActive. intros H. mbinds H. apply guard_ok in H as [H ->].
  by apply negb_true_iff in H.
Qed.

Lemma assertSynchronous_ok m m' a : assertSynchronous m = (Ok a, m') ->
  m_destroyed m = false /\ m_busy m = false /\ m' = m.
Proof.
  unfold assertSynchronous. intros H. mbinds H. apply assertActive_ok in E as [? ->].
  apply guard_ok in H as [H ->]. by apply negb_true_iff in H.
Qed.

Lemma assertSynchronous_ready m :
  m_destroyed m = false -> m_busy m = false -> assertSynchronous m = (Ok tt, m).
Proof.
  intros H1 H2. unfold assertSynchronous, assertActive, mbind, M_bind, get_this.
  cbn. unfold guard, lift. by rewrite H1, H2.
Qed.

Lemma beginAsyncOperation_ok m m' a : beginAsyncOperation m = (Ok a, m') ->
  m_destroyed m = false /\ m_busy m = false /\ m' = set_busy true m.
Proof.
  unfold beginAsyncOperation. intros H. mbinds H.
  by apply assertSynchronous_ok in E as (? & ? & ->).
Qed.

Definition can_start (m : machine) : Prop :=
  m_epoch m < MAX_U64 /\ m_localCounter m < MAX_U64 /\ m_remoteCounter m < MAX_U64.

Lemma assertCanStartExchange_ok m m' a :
  assertCanStartExchange m = (Ok a, m') -> can_start m /\ m' = m.
Proof.
  unfold assertCanStartExchange. intros H. mbinds H. destruct a.
  rewrite requireIncrementableU64_ok in E, E0, H. unfold can_start. split; [lia|done].
Qed.

Lemma requireExpectedCounter_ok c m m' a :
  requireExpectedCounter c m = (Ok a, m') -> c = m_remoteCounter m /\ m' = m.
Proof.
  unfold requireExpectedCounter. intros H. mbinds H.
  apply guard_ok in E as [H1 ->]. apply guard_ok in H as [H2 ->].
  apply negb_true_iff, Z.ltb_ge in H1, H2. split; [lia|done].
Qed.

Lemma requireExpectedEpoch_ok c m m' a :
  requireExpectedEpoch c m = (Ok a, m') -> c = m_epoch m /\ m' = m.
Proof.
  unfold requireExpectedEpoch. intros H. mbinds H.
  apply guard_ok in E as [H1 ->]. apply guard_ok in H as [H2 ->].
  apply negb_true_iff, Z.ltb_ge in H1, H2. split; [lia|done].
Qed.

Lemma rejectKnownOffer_ok o m m' a :
  rejectKnownOfferReplayOrFork o m = (Ok a, m') ->
  m' = m /\ forall k, knownOffer m = Some k -> sameOfferSlot o k = false.
Proof.
  unfold rejectKnownOfferReplayOrFork. intros H. mbinds H.
  destruct (knownOffer m) as [k|] eqn:Hk; [|by injection H as _ <-].
  destruct (sameOfferSlot o k) eqn:Hs; cbn in H; [by repeat case_match|].
  injection H as _ <-. split; [done|]. by intros ? [= <-].
Qed.

Lemma rejectKnownAdvance_ok d m m' a :
  rejectKnownAdvanceReplayOrFork d m = (Ok a, m') ->
  m' = m /\ forall k, knownAdvance m = Some k -> sameAdvanceSlot d k = false.
Proof.
  unfold rejectKnownAdvanceReplayOrFork. intros H. mbinds H.
  destruct (knownAdvance m) as [k|] eqn:Hk; [|by injection H as _ <-].
  destruct (sameAdvanceSlot d k) eqn:Hs; cbn in H; [by repeat case_match|].
  injection H as _ <-. split; [done|]. by intros ? [= <-].
Qed.

Lemma on_throw_ok {S E A} (body : M S E A) f s a s' :
  on_throw body f s = (Ok a, s') -> body s = (Ok a, s').
Proof. unfold on_throw. destruct (body s) as [[]?]; congruence. Qed.

Lemma finally_ok {S E A} (body : M S E A) f s a s' :
  finally body f s = (Ok a, s') -> exists s1, body s = (Ok a, s1) /\ s' = f s1.
Proof. unfold finally. destruct (body s) as [r s1]. naive_solver. Qed.

(** From here on, [mbinds] understands the private checks too. *)
Ltac mbind_hook E ::=
  let D := fresh "Hact" in let Bz := fresh "Hbusy" in
  lazymatch type of E with
  | guard _ _ _ = _ => apply guard_ok in E as [E ->]
  | assertSynchronous _ = _ => apply assertSynchronous_ok in E as (D & Bz & ->)
  | beginAsyncOperation _ = _ => apply beginAsyncOperation_ok in E as (D & Bz & ->)
  | assertActive _ = _ => apply assertActive_ok in E as [D ->]
  | assertCanStartExchange _ = _ => apply assertCanStartExchange_ok in E as [E ->]
  | requireExpectedCounter _ _ = _ => apply requireExpectedCounter_ok in E as [E ->]
  | requireExpectedEpoch _ _ = _ => apply requireExpectedEpoch_ok in E as [E ->]
  | rejectKnownOfferReplayOrFork _ _ = _ => apply rejectKnownOffer_ok in E as [-> E]
  | rejectKnownAdvanceReplayOrFork _ _ = _ => apply rejectKnownAdvance_ok in E as [-> E]
  | _ => idtac
  end.

(** ** What the successful methods did *)

Section Methods.
Context {C : LibCrypto} {B : MlKemBackend}.
Implicit Types m : machine.

(** Ready for a synchronous call. *)
Definition ready m : Prop := m_destroyed m = false /\ m_busy m = false.

Lemma prepareOffer_start_ok m a m' : prepareOffer_start m = (Ok a, m') ->
  ready m /\ m_phase m = Idle /\ m_nextOfferer m = local /\ can_start m
  /\ m' = set_busy true m.
Proof.
  unfold prepareOffer_start. intros H. mbinds H. apply on_throw_ok in H. mbinds H.
  apply assertCanStartExchange_ok in H as [? ->].
  apply bool_decide_eq_true in E, E0. done.
Qed.

Lemma prepareOffer_resume_ok kp m r m' : prepareOffer_resume kp m = (Ok r, m') ->
  exists keyPair offer, kp = Some keyPair /\ m_destroyed m = false /\
    blen (kp_public keyPair) = publicKeyBytes (m_suite m) /\
    blen (kp_secret keyPair) = secretKeyBytes (m_suite m) /\
    encodeOffer (m_suite m) (m_binding m) (m_localCounter m) (m_epoch m)
      (kp_public keyPair) = Ok r /\
    decodeOffer r (m_suite m) (Some (m_binding m)) = Ok offer /\
    m' = set_busy false (set_phase (OutboundOffer false offer keyPair) m).
Proof.
  unfold prepareOffer_resume. intros H. apply finally_ok in H as (s1 & H & ->).
  destruct kp as [kp|]; [|done]. mbinds H. subst.
  rewrite requireBytes_ok in E, E0. eauto 12.
Qed.

Lemma markOfferDispatched_ok m a m' : markOfferDispatched m = (Ok a, m') ->
  ready m /\ exists offer kp, m_phase m = OutboundOffer false offer kp /\
    m' = set_phase (OutboundOffer true offer kp) m.
Proof.
  unfold markOfferDispatched. intros H. mbinds H.
  destruct (m_phase m) as [|[] o kp| | | | |] eqn:Hp; try done. mbinds H.
  split; [done|]. by exists o, kp.
Qed.

Lemma abortUnsentOffer_ok m a m' : abortUnsentOffer m = (Ok a, m') ->
  ready m /\ (exists offer kp, m_phase m = OutboundOffer false offer kp) /\
  m' = set_phase Idle m.
Proof.
  unfold abortUnsentOffer. intros H. mbinds H.
  destruct (m_phase m) as [|[] o kp| | | | |] eqn:Hp; try done. mbinds H. unfold ready. eauto 10.
Qed.

Lemma acceptAuthenticatedOffer_ok r m a m' :
  acceptAuthenticatedOffer r m = (Ok a, m') ->
  exists offer, ready m /\ decodeOffer r (m_suite m) (Some (m_binding m)) = Ok offer /\
    m_phase m = Idle /\ m_nextOfferer m = remote /\
    senderCounter (offer_header offer) = m_remoteCounter m /\
    fromEpoch (offer_header offer) = m_epoch m /\ can_start m /\
    m' = set_phase (InboundOffer offer) m.
Proof.
  unfold acceptAuthenticatedOffer. intros H. mbinds H.
  apply bool_decide_eq_true in E1, E2. eexists. split_and!; done.
Qed.

Lemma prepareAdvance_start_ok m o m' : prepareAdvance_start m = (Ok o, m') ->
  ready m /\ m_phase m = InboundOffer o /\ m_localCounter m < MAX_U64 /\ m' = set_busy true m.
Proof.
  unfold prepareAdvance_start. intros H. mbinds H. apply on_throw_ok in H. mbinds H.
  destruct (m_phase (set_busy true m)) as [| |o'| | | |] eqn:Hp; try done. mbinds H. subst.
  rewrite requireIncrementableU64_ok in E. split_and!; try done. cbn in E. lia.
Qed.

Lemma prepareAdvance_resume_ok o ans m r m' :
  prepareAdvance_resume o ans m = (Ok r, m') ->
  exists ct ss advance nextRoot, ans = Some (ct, ss) /\ m_destroyed m = false /\
    blen ss = sharedSecretBytes (m_suite m) /\
    encodeAdvance (m_suite m) (m_binding m) (m_localCounter m) o ct = Ok r /\
    decodeAdvance r (m_suite m) (Some (m_binding m)) = Ok advance /\
    deriveNextRoot (m_rootKey m) ss r = Ok nextRoot /\
    m' = set_busy false (set_phase (OutboundAdvancePrepared o advance nextRoot) m).
Proof.
  unfold prepareAdvance_resume. intros H. apply finally_ok in H as (s1 & H & ->).
  destruct ans as [[ct ss]|]; [|done]. mbinds H. subst.
  rewrite requireBytes_ok in E0. eauto 15.
Qed.

Lemma commitPreparedAdvance_ok m r m' : commitPreparedAdvance m = (Ok r, m') ->
  ready m /\ exists o a root, m_phase m = OutboundAdvancePrepared o a root /\
    blen root = PQ_HEALING_ROOT_BYTES /\ r = advance_bytes a /\
    m' = Machine (m_suite m) (m_binding m) root (toEpoch (advance_header a))
           (m_localCounter m + 1) (m_remoteCounter m + 1) local
           (OutboundAdvanceAwaitingAck o a) (Some o) (m_lastInboundAdvance m)
           (m_busy m) (m_destroyed m).
Proof.
  unfold commitPreparedAdvance. intros H. mbinds H.
  destruct (m_phase m) as [| | |o a root| | |] eqn:Hp; try done. mbinds H. subst.
  rewrite requireBytes_ok in E. split; [done|]. by exists o, a, root.
Qed.

Lemma requireAcknowledgement_ok a b :
  requireAcknowledgement a = Ok b -> b = a /\ 0 <= ack_epoch a <= MAX_U64.
Proof.
  unfold requireAcknowledgement. intros H. binds H. subst. by rewrite requireU64_ok in E.
Qed.

Lemma acceptAck_ok k m a m' :
  acceptAuthenticatedAdvanceAcknowledgement k m = (Ok a, m') ->
  ready m /\ exists o d, m_phase m = OutboundAdvanceAwaitingAck o d /\
    ack_epoch k = m_epoch m /\ advanceCounter k = senderCounter (advance_header d) /\
    m' = set_phase Idle m.
Proof.
  unfold acceptAuthenticatedAdvanceAcknowledgement. intros H. mbinds H.
  apply requireAcknowledgement_ok in E as [-> _].
  destruct (m_phase m) as [| | | |o d| |] eqn:Hp; try done. mbinds H.
  apply andb_true_iff in E as [He Hc]. apply Z.eqb_eq in He, Hc.
  split; [done|]. by exists o, d.
Qed.

Lemma acceptAuthenticatedAdvance_start_ok r m cap m' :
  acceptAuthenticatedAdvance_start r m = (Ok cap, m') ->
  exists d o kp, cap = (d, o, kp) /\ ready m /\
    decodeAdvance r (m_suite m) (Some (m_binding m)) = Ok d /\
    m_phase m = OutboundOffer true o kp /\
    senderCounter (advance_header d) = m_remoteCounter m /\
    fromEpoch (advance_header d) = m_epoch m /\
    offer_bytes (advance_offer d) = offer_bytes o /\ m' = set_busy true m.
Proof.
  unfold acceptAuthenticatedAdvance_start. intros H. mbinds H. apply on_throw_ok in H. mbinds H.
  destruct (m_phase (set_busy true m)) as [|[] o kp| | | | |] eqn:Hp; try done. mbinds H. subst.
  apply bytesEqual_spec in E3. cbn in *. exists x, o, kp. split_and!; done.
Qed.

Lemma acceptAuthenticatedAdvance_resume_ok d o kp ans m a m' :
  acceptAuthenticatedAdvance_resume (d, o, kp) ans m = (Ok a, m') ->
  exists ss nextRoot, ans = Some ss /\ m_destroyed m = false /\
    deriveNextRoot (m_rootKey m) ss (advance_bytes d) = Ok nextRoot /\
    m' = set_busy false (set_phase (InboundAdvancePrepared o d kp nextRoot) m).
Proof.
  unfold acceptAuthenticatedAdvance_resume. intros H.
  apply finally_ok in H as (s1 & H & ->). destruct ans as [ss|]; [|done]. mbinds H. subst.
  eauto 10.
Qed.

Lemma commitAcceptedAdvance_ok m k m' : commitAcceptedAdvance m = (Ok k, m') ->
  ready m /\ exists o d kp root, m_phase m = InboundAdvancePrepared o d kp root /\
    blen root = PQ_HEALING_ROOT_BYTES /\
    k = {| ack_epoch := toEpoch (advance_header d);
           advanceCounter := senderCounter (advance_header d) |} /\
    m' = Machine (m_suite m) (m_binding m) root (toEpoch (advance_header d))
           (m_localCounter m + 1) (m_remoteCounter m + 1) remote
           (InboundAdvanceAwaitingAckDispatch d) (m_lastInboundOffer m) (Some d)
           (m_busy m) (m_destroyed m).
Proof.
  unfold commitAcceptedAdvance. intros H. mbinds H.
  destruct (m_phase m) as [| | | | |o d kp root|] eqn:Hp; try done. mbinds H. subst.
  rewrite requireBytes_ok in E. split; [done|]. by exists o, d, kp, root.
Qed.

Lemma markAckDispatched_ok k m a m' :
  markAdvanceAcknowledgementDispatched k m = (Ok a, m') ->
  ready m /\ exists d, m_phase m = InboundAdvanceAwaitingAckDispatch d /\
    ack_epoch k = m_epoch m /\ advanceCounter k = senderCounter (advance_header d) /\
    m' = set_phase Idle m.
Proof.
  unfold markAdvanceAcknowledgementDispatched. intros H. mbinds H.
  apply requireAcknowledgement_ok in E as [-> _].
  destruct (m_phase m) as [| | | | | |d] eqn:Hp; try done. mbinds H.
  apply andb_true_iff in E as [He Hc]. apply Z.eqb_eq in He, Hc.
  split; [done|]. by exists d.
Qed.
End Methods.

(** ** Atomicity *)

Section Atomicity.
Context {C : LibCrypto} {B : MlKemBackend}.

Lemma readonly_guard b c : readonly (guard b c).
Proof. done. Qed.
Lemma readonly_assertActive : readonly assertActive.
Proof. unfold assertActive. auto using readonly_guard with method. Qed.
Lemma readonly_assertSynchronous : readonly assertSynchronous.
Proof.
  unfold assertSynchronous. auto 7 using readonly_guard, readonly_assertActive with method.
Qed.
Lemma readonly_assertCanStartExchange : readonly assertCanStartExchange.
Proof. unfold assertCanStartExchange. auto 10 with method. Qed.
Lemma readonly_requireExpectedCounter c : readonly (requireExpectedCounter c).
Proof. unfold requireExpectedCounter. auto 7 using readonly_guard with method. Qed.
Lemma readonly_requireExpectedEpoch c : readonly (requireExpectedEpoch c).
Proof. unfold requireExpectedEpoch. auto 7 using readonly_guard with method. Qed.
Lemma readonly_rejectKnownOffer o : readonly (rejectKnownOfferReplayOrFork o).
Proof. 
  intros m. unfold rejectKnownOfferReplayOrFork, mbind, M_bind, get_this.
  destruct (knownOffer m) as [k|]; [|done]. destruct (sameOfferSlot o k); [|done].
  cbn. by destruct (bytesEqual _ _).
Qed.
Lemma readonly_rejectKnownAdvance d : readonly (rejectKnownAdvanceReplayOrFork d).
Proof. 
  intros m. unfold rejectKnownAdvanceReplayOrFork, mbind, M_bind, get_this.
  destruct (knownAdvance m) as [k|]; [|done]. destruct (sameAdvanceSlot d k); [|done].
  cbn. by destruct (bytesEqual _ _).
Qed.
End Atomicity.

#[export] Hint Resolve readonly_guard readonly_assertActive readonly_assertSynchronous
  readonly_assertCanStartExchange readonly_requireExpectedCounter readonly_requireExpectedEpoch
  readonly_rejectKnownOffer readonly_rejectKnownAdvance : method.

(** Prove [readonly]/[atomic] by following the structure of the method. *)
Ltac solve_method :=
  repeat first
    [ solve [eauto 2 with method]
    | apply readonly_bind; [solve [eauto 2 with method]|intros]
    | apply atomic_bind; [solve [eauto 2 with method]|intros]
    | apply atomic_bind_no_throw; [|by intros; apply no_throw_ret]
    | case_match ].

(** ** The machine as a step relation over its public interface *)

Section System.
Context {C : LibCrypto} {B : MlKemBackend}.

(** Synchronous calls. *)
Inductive op : Set :=
  | do_markOfferDispatched
  | do_abortUnsentOffer
  | do_acceptAuthenticatedOffer (record : bytes)
  | do_commitPreparedAdvance
  | do_acceptAcknowledgement (ack : PqHealingAdvanceAcknowledgement)
  | do_commitAcceptedAdvance
  | do_markAcknowledgementDispatched (ack : PqHealingAdvanceAcknowledgement)
  | do_destroy.

#[export] Instance op_eq_dec : EqDecision op.
Proof. solve_decision. Defined.

Definition run_op (o : op) : method unit :=
  match o with
  | do_markOfferDispatched => markOfferDispatched
  | do_abortUnsentOffer => abortUnsentOffer
  | do_acceptAuthenticatedOffer r => acceptAuthenticatedOffer r
  | do_commitPreparedAdvance => _ ← commitPreparedAdvance; mret tt
  | do_acceptAcknowledgement k => acceptAuthenticatedAdvanceAcknowledgement k
  | do_commitAcceptedAdvance => _ ← commitAcceptedAdvance; mret tt
  | do_markAcknowledgementDispatched k => markAdvanceAcknowledgementDispatched k
  | do_destroy => modify_this destroy
  end.

(** Asynchronous calls, and what they have captured while they wait. *)
Inductive async_call :=
  | call_prepareOffer
  | call_prepareAdvance
  | call_acceptAuthenticatedAdvance (record : bytes).

Inductive continuation :=
  | k_prepareOffer
  | k_prepareAdvance (offer : DecodedOffer)
  | k_acceptAdvance (advance : DecodedAdvance) (offer : DecodedOffer) (keyPair : MlKemKeyPair).

Definition start (a : async_call) : method continuation :=
  match a with
  | call_prepareOffer => _ ← prepareOffer_start; mret k_prepareOffer
  | call_prepareAdvance => o ← prepareAdvance_start; mret (k_prepareAdvance o)
  | call_acceptAuthenticatedAdvance r =>
      x ← acceptAuthenticatedAdvance_start r;
      mret (k_acceptAdvance x.1.1 x.1.2 x.2)
  end.

Record cfg := Cfg { mach : machine; pending : option continuation }.

(** Any call may come at any time.  A pending call is resumed with an
    arbitrary answer of the backend. *)
Inductive step : cfg -> cfg -> Prop :=
  | step_op o c r m' :
      run_op o (mach c) = (r, m') -> step c (Cfg m' (pending c))
  | step_start a c k m' :
      start a (mach c) = (Ok k, m') -> step c (Cfg m' (Some k))
  | step_start_throw a c e m' :
      start a (mach c) = (Err e, m') -> step c (Cfg m' (pending c))
  | step_resume_offer m answer r m' :
      prepareOffer_resume answer m = (r, m') ->
      step (Cfg m (Some k_prepareOffer)) (Cfg m' None)
  | step_resume_advance m o answer r m' :
      prepareAdvance_resume o answer m = (r, m') ->
      step (Cfg m (Some (k_prepareAdvance o))) (Cfg m' None)
  | step_resume_accept m d o kp answer r m' :
      acceptAuthenticatedAdvance_resume (d, o, kp) answer m = (r, m') ->
      step (Cfg m (Some (k_acceptAdvance d o kp))) (Cfg m' None).

(** ** Atomicity of every call *)

Lemma set_busy_id m : m_busy m = false -> set_busy false (set_busy true m) = m.
Proof. destruct m. cbn. by intros ->. Qed.

Lemma beginAsync_on_throw_atomic {A} (body : method A) :
  readonly body ->
  atomic (beginAsyncOperation;; on_throw body endAsyncOperation).
Proof.
  intros Hb m e m' H. unfold mbind, M_bind in H.
  destruct (beginAsyncOperation m) as [[[]|e1] m1] eqn:Hbegin.
  - apply beginAsyncOperation_ok in Hbegin as (_ & Hz & ->).
    unfold on_throw in H. specialize (Hb (set_busy true m)).
    destruct (body (set_busy true m)) as [[a|e2] m2]; cbn in *; [done|].
    injection H as _ <-. subst m2. by apply set_busy_id.
  - injection H as _ <-. revert Hbegin. unfold beginAsyncOperation.
    apply (atomic_bind (B := unit) assertSynchronous (fun _ => modify_this (set_busy true)));
      auto with method.
Qed.

Lemma start_atomic a : atomic (start a).
Proof.
  destruct a; cbn; (apply atomic_bind_no_throw; [|by intros; apply no_throw_ret]);
    apply beginAsync_on_throw_atomic; solve_method.
Qed.

Lemma run_op_atomic o : o <> do_commitAcceptedAdvance -> atomic (run_op o).
Proof.
  intros Hne. destruct o; cbn; try done;
    unfold markOfferDispatched, abortUnsentOffer, acceptAuthenticatedOffer,
      commitPreparedAdvance, acceptAuthenticatedAdvanceAcknowledgement,
      markAdvanceAcknowledgementDispatched; solve_method.
Qed.

(** ** What a synchronous call can do

    One constructor per way a call can change the machine. *)
Inductive effect (m : machine) : machine -> Prop :=
  | eff_none : effect m m
  | eff_destroy : effect m (destroy m)
  | eff_wiped o d kp root :
      m_phase m = InboundAdvancePrepared o d kp root -> blen root <> PQ_HEALING_ROOT_BYTES ->
      effect m (set_phase (InboundAdvancePrepared o d (destroyKeyPair kp) root) m)
  | eff_dispatched o kp :
      ready m -> m_phase m = OutboundOffer false o kp ->
      effect m (set_phase (OutboundOffer true o kp) m)
  | eff_aborted o kp :
      ready m -> m_phase m = OutboundOffer false o kp -> effect m (set_phase Idle m)
  | eff_accepted_offer r o :
      ready m -> decodeOffer r (m_suite m) (Some (m_binding m)) = Ok o ->
      m_phase m = Idle -> m_nextOfferer m = remote ->
      senderCounter (offer_header o) = m_remoteCounter m ->
      fromEpoch (offer_header o) = m_epoch m -> can_start m ->
      effect m (set_phase (InboundOffer o) m)
  | eff_committed_prepared r m' :
      ready m -> commitPreparedAdvance m = (Ok r, m') -> effect m m'
  | eff_acked o d :
      ready m -> m_phase m = OutboundAdvanceAwaitingAck o d -> effect m (set_phase Idle m)
  | eff_committed_accepted k m' :
      ready m -> commitAcceptedAdvance m = (Ok k, m') -> effect m m'
  | eff_ack_dispatched d :
      ready m -> m_phase m = InboundAdvanceAwaitingAckDispatch d ->
      effect m (set_phase Idle m).

Lemma commitAccepted_throw m e m' : commitAcceptedAdvance m = (Err e, m') -> effect m m'.
Proof.
  unfold commitAcceptedAdvance, mbind, M_bind, get_this, throw, mthrow.
  pose proof (readonly_assertSynchronous m) as Hr.
  destruct (assertSynchronous m) as [[[]|] m1]; cbn in Hr; subst m1;
    [|intros [= _ <-]; constructor].
  destruct (m_phase m) as [| | | | |o d kp root|] eqn:Hp; try (intros [= _ <-]; constructor).
  unfold modify_this, lift. destruct (requireBytes root PQ_HEALING_ROOT_BYTES) as [[]|] eqn:Hb;
    intros [=]; subst. apply eff_wiped; [done|].
  intros Hl. by rewrite (proj2 (requireBytes_ok _ _) Hl) in Hb.
Qed.

Lemma commitAccepted_root m e m' :
  (forall o d kp root, m_phase m = InboundAdvancePrepared o d kp root ->
     blen root = PQ_HEALING_ROOT_BYTES) ->
  commitAcceptedAdvance m = (Err e, m') -> m' = m.
Proof.
  intros Hroot. unfold commitAcceptedAdvance, mbind, M_bind, get_this, throw, mthrow.
  pose proof (readonly_assertSynchronous m) as Hr.
  destruct (assertSynchronous m) as [[[]|] m1]; cbn in Hr; subst m1; [|by intros [= _ <-]].
  destruct (m_phase m) eqn:Hp; try (by intros [= _ <-]).
  unfold modify_this, lift, requireBytes. rewrite (Hroot _ _ _ _ eq_refl). by cbn.
Qed.

Lemma run_op_effect o m r m' : run_op o m = (r, m') -> effect m m'.
Proof.
  intros H. destruct (decide (o = do_commitAcceptedAdvance)) as [->|Ho].
  { cbn [run_op] in H. unfold mbind, M_bind in H.
    destruct (commitAcceptedAdvance m) as [[k|e1] m1] eqn:Hc; injection H as _ <-.
    - eapply eff_committed_accepted; [|done]. by apply commitAcceptedAdvance_ok in Hc as [? _].
    - by eapply commitAccepted_throw. }
  destruct r as [[]|e]; [|apply run_op_atomic in H as ->; [constructor|done]].
  destruct o; cbn [run_op] in H; try done.
  - apply markOfferDispatched_ok in H as (? & ? & ? & ? & ->). by constructor.
  - apply abortUnsentOffer_ok in H as (? & (? & ? & ?) & ->). by eapply eff_aborted.
  - apply acceptAuthenticatedOffer_ok in H as (? & ? & ? & ? & ? & ? & ? & ? & ->).
    by eapply eff_accepted_offer.
  - mbinds H. eapply eff_committed_prepared; [|done].
    by apply commitPreparedAdvance_ok in E as [? _].
  - apply acceptAck_ok in H as (? & ? & ? & ? & _ & _ & ->). by eapply eff_acked.
  - apply markAckDispatched_ok in H as (? & ? & ? & _ & _ & ->). by eapply eff_ack_dispatched.
  - injection H as <-. constructor.
Qed.
End System.

(** ** The invariant *)

Section Invariant.
Context {C : LibCrypto} {B : MlKemBackend}.
Implicit Types m : machine.

Definition offer_wf m (o : DecodedOffer) : Prop :=
  decodeOffer (offer_bytes o) (m_suite m) (Some (m_binding m)) = Ok o.
Definition advance_wf m (a : DecodedAdvance) : Prop :=
  decodeAdvance (advance_bytes a) (m_suite m) (Some (m_binding m)) = Ok a.
Definition keypair_wf m (o : DecodedOffer) (kp : MlKemKeyPair) : Prop :=
  kp_public kp = publicKey o /\ blen (kp_secret kp) = secretKeyBytes (m_suite m).

(** The phase agrees with the turn, the counters and the epoch, and holds
    decoded canonical records. *)
Definition phase_inv m : Prop :=
  match m_phase m with
  | Idle => True
  | OutboundOffer _ o kp =>
      offer_wf m o /\ keypair_wf m o kp /\ m_nextOfferer m = local /\
      senderCounter (offer_header o) = m_localCounter m /\
      fromEpoch (offer_header o) = m_epoch m /\ can_start m
  | InboundOffer o =>
      offer_wf m o /\ m_nextOfferer m = remote /\
      senderCounter (offer_header o) = m_remoteCounter m /\
      fromEpoch (offer_header o) = m_epoch m /\ can_start m
  | OutboundAdvancePrepared o a root =>
      advance_wf m a /\ o = advance_offer a /\ m_nextOfferer m = remote /\
      senderCounter (advance_header a) = m_localCounter m /\
      senderCounter (offer_header o) = m_remoteCounter m /\
      fromEpoch (advance_header a) = m_epoch m /\
      blen root = PQ_HEALING_ROOT_BYTES /\ can_start m
  | OutboundAdvanceAwaitingAck o a =>
      advance_wf m a /\ o = advance_offer a /\ m_nextOfferer m = local /\
      senderCounter (advance_header a) + 1 = m_localCounter m /\
      senderCounter (offer_header o) + 1 = m_remoteCounter m /\
      toEpoch (advance_header a) = m_epoch m /\ m_lastInboundOffer m = Some o
  | InboundAdvancePrepared o a kp root =>
      advance_wf m a /\ o = advance_offer a /\ keypair_wf m o kp /\
      m_nextOfferer m = local /\
      senderCounter (advance_header a) = m_remoteCounter m /\
      senderCounter (offer_header o) = m_localCounter m /\
      fromEpoch (advance_header a) = m_epoch m /\
      blen root = PQ_HEALING_ROOT_BYTES /\ can_start m
  | InboundAdvanceAwaitingAckDispatch a =>
      advance_wf m a /\ m_nextOfferer m = remote /\
      senderCounter (advance_header a) + 1 = m_remoteCounter m /\
      senderCounter (offer_header (advance_offer a)) + 1 = m_localCounter m /\
      toEpoch (advance_header a) = m_epoch m /\ m_lastInboundAdvance m = Some a
  end.

(** The remembered inbound records have been consumed. *)
Definition last_inv m : Prop :=
  (forall o, m_lastInboundOffer m = Some o ->
     offer_wf m o /\ toEpoch (offer_header o) <= m_epoch m /\
     senderCounter (offer_header o) < m_remoteCounter m) /\
  (forall a, m_lastInboundAdvance m = Some a ->
     advance_wf m a /\ toEpoch (advance_header a) <= m_epoch m /\
     senderCounter (advance_header a) < m_remoteCounter m).

Record machine_inv m : Prop := {
  inv_suite : assertSameSuite (m_suite m) backend_suite = Ok tt;
  inv_binding : blen (m_binding m) = PQ_HEALING_BINDING_BYTES;
  inv_root : blen (m_rootKey m) = PQ_HEALING_ROOT_BYTES;
  inv_epoch : 0 <= m_epoch m <= MAX_U64;
  inv_local : 0 <= m_localCounter m <= MAX_U64;
  inv_remote : 0 <= m_remoteCounter m <= MAX_U64;
  inv_last : last_inv m;
  inv_phase : phase_inv m;
}.

Lemma assertSameSuite_canonical s s' : assertSameSuite s s' = Ok tt -> canonical s.
Proof. unfold assertSameSuite. intros H. by binds H. Qed.

Lemma inv_canonical m : machine_inv m -> canonical (m_suite m).
Proof. intros H. eapply assertSameSuite_canonical, inv_suite, H. Qed.

(** The invariant does not depend on the flags. *)
Lemma machine_inv_busy b m : machine_inv (set_busy b m) <-> machine_inv m.
Proof. destruct m. split; intros []; split; done. Qed.

(** Moving to another phase only needs the new phase to fit. *)
Lemma machine_inv_set_phase m p :
  machine_inv m -> phase_inv (set_phase p m) -> machine_inv (set_phase p m).
Proof. destruct m. intros [] ?. split; done. Qed.

Lemma new_machine_inv suite binding root turn e l r m :
  new_machine suite binding root turn e l r = Ok m -> machine_inv m.
Proof.
  unfold new_machine. intros H. binds H. subst m.
  rewrite requireBytes_ok in E0, E1. rewrite requireU64_ok in E2, E3, E4.
  split; done.
Qed.

Lemma deriveNextRoot_length root ss r next :
  deriveNextRoot root ss r = Ok next -> blen next = PQ_HEALING_ROOT_BYTES.
Proof.
  unfold deriveNextRoot. intros H. binds H.
  destruct (hkdfExpand x (KDF_DOMAIN ++ r) PQ_HEALING_ROOT_BYTES) eqn:Hx; [|done].
  apply Ok_inj in H. subst a. by apply hkdfExpand_length in Hx.
Qed.

(** *** Records the machine builds are well formed *)

Lemma prepared_offer_wf m kp r o : machine_inv m ->
  encodeOffer (m_suite m) (m_binding m) (m_localCounter m) (m_epoch m) (kp_public kp) = Ok r ->
  decodeOffer r (m_suite m) (Some (m_binding m)) = Ok o ->
  offer_wf m o /\ kp_public kp = publicKey o /\
  senderCounter (offer_header o) = m_localCounter m /\ fromEpoch (offer_header o) = m_epoch m.
Proof.
  intros Hm Henc Hdec. pose proof (inv_canonical m Hm) as Hcan.
  set (h := {| senderCounter := m_localCounter m; fromEpoch := m_epoch m;
               toEpoch := m_epoch m + 1 |}).
  assert (decodeOffer r (m_suite m) (Some (m_binding m)) =
          Ok {| offer_header := h; offer_bytes := r; publicKey := kp_public kp |}) as Hd.
  { apply decodeOffer_iff; [done|apply Hm|done]. }
  rewrite Hd in Hdec. apply Ok_inj in Hdec. subst o. done.
Qed.

Lemma prepared_advance_wf m o ct r a : machine_inv m -> offer_wf m o ->
  encodeAdvance (m_suite m) (m_binding m) (m_localCounter m) o ct = Ok r ->
  decodeAdvance r (m_suite m) (Some (m_binding m)) = Ok a ->
  advance_wf m a /\ advance_offer a = o /\ advance_bytes a = r /\ ciphertext a = ct /\
  senderCounter (advance_header a) = m_localCounter m /\
  fromEpoch (advance_header a) = fromEpoch (offer_header o) /\
  toEpoch (advance_header a) = toEpoch (offer_header o).
Proof.
  intros Hm Ho Henc Hdec. pose proof (inv_canonical m Hm) as Hcan.
  set (h := {| senderCounter := m_localCounter m; fromEpoch := fromEpoch (offer_header o);
               toEpoch := toEpoch (offer_header o) |}).
  assert (decodeAdvance r (m_suite m) (Some (m_binding m)) =
          Ok {| advance_header := h; advance_bytes := r; advance_offer := o;
                ciphertext := ct |}) as Hd.
  { apply decodeAdvance_iff; [done|apply Hm|done]. }
  rewrite Hd in Hdec. apply Ok_inj in Hdec. subst a. done.
Qed.

(** The facts about a decoded advance that the machine uses. *)
Lemma decodeAdvance_facts m r a : machine_inv m ->
  decodeAdvance r (m_suite m) (Some (m_binding m)) = Ok a ->
  advance_wf m a /\ advance_bytes a = r /\ offer_wf m (advance_offer a) /\
  fromEpoch (advance_header a) = fromEpoch (offer_header (advance_offer a)) /\
  toEpoch (advance_header a) = fromEpoch (advance_header a) + 1.
Proof.
  intros Hm Hdec. pose proof (inv_canonical m Hm) as Hcan.
  pose proof Hdec as Hd. apply decodeAdvance_iff in Hd as (_ & Ho & Hf & Ht & Hb);
    [|done|apply Hm].
  destruct (decodeOffer_length _ _ _ _ Ho) as (_ & _ & _ & _ & _ & Hto).
  unfold advance_wf, offer_wf. rewrite Hb. split_and!; try done. lia.
Qed.

Lemma advance_wf_facts m a : machine_inv m -> advance_wf m a ->
  offer_wf m (advance_offer a) /\
  fromEpoch (advance_header a) = fromEpoch (offer_header (advance_offer a)) /\
  toEpoch (advance_header a) = fromEpoch (advance_header a) + 1.
Proof. intros Hm Ha. by apply (decodeAdvance_facts m) in Ha as (_ & _ & ? & ? & ?). Qed.

Lemma offer_wf_to m o : offer_wf m o ->
  toEpoch (offer_header o) = fromEpoch (offer_header o) + 1.
Proof. intros Ho. by apply decodeOffer_length in Ho as (_ & _ & _ & _ & _ & ?). Qed.

(** *** Every call preserves the invariant *)

Lemma commitPreparedAdvance_inv m r m' :
  machine_inv m -> commitPreparedAdvance m = (Ok r, m') -> machine_inv m'.
Proof.
  intros Hm H. apply commitPreparedAdvance_ok in H as (_ & o & a & root & Hp & Hroot & _ & ->).
  pose proof (inv_phase m Hm) as Hph. unfold phase_inv in Hph. rewrite Hp in Hph.
  destruct Hph as (Ha & -> & Hn & Hl & Hr & Hf & _ & Hcs).
  destruct (advance_wf_facts m a Hm Ha) as (Ho & Hfe & Hte).
  pose proof (offer_wf_to m _ Ho). destruct Hm as [? ? ? ? ? ? [Hlo Hla] ?].
  unfold can_start in Hcs. split; cbn; try done; try lia.
  - split; cbn.
    + intros ? [= <-]. split; [done|]. lia.
    + intros d Hd. apply Hla in Hd as (? & ? & ?). split; [done|]. lia.
  - unfold phase_inv. cbn. split_and!; done || lia.
Qed.

Lemma commitAcceptedAdvance_inv m k m' :
  machine_inv m -> commitAcceptedAdvance m = (Ok k, m') -> machine_inv m'.
Proof.
  intros Hm H.
  apply commitAcceptedAdvance_ok in H as (_ & o & a & kp & root & Hp & Hroot & _ & ->).
  pose proof (inv_phase m Hm) as Hph. unfold phase_inv in Hph. rewrite Hp in Hph.
  destruct Hph as (Ha & -> & _ & Hn & Hr & Hl & Hf & _ & Hcs).
  destruct (advance_wf_facts m a Hm Ha) as (Ho & Hfe & Hte).
  destruct Hm as [? ? ? ? ? ? [Hlo Hla] ?].
  unfold can_start in Hcs. split; cbn; try done; try lia.
  - split; cbn.
    + intros d Hd. apply Hlo in Hd as (? & ? & ?). split; [done|]. lia.
    + intros ? [= <-]. split; [done|]. lia.
  - unfold phase_inv. cbn. split_and!; done || lia.
Qed.

Lemma to_idle_inv m : machine_inv m -> machine_inv (set_phase Idle m).
Proof. intros. by apply machine_inv_set_phase. Qed.

Lemma effect_inv m m' :
  machine_inv m -> effect m m' -> m_destroyed m' = false -> machine_inv m'.
Proof.
  intros Hm He Hact. pose proof (inv_phase m Hm) as Hph. unfold phase_inv in Hph.
  destruct He as [| |o d kp root Hp Hr|o kp _ Hp|o kp _ Hp|r o _ Hd _ Hn Hc Hf Hcs
    |r m' _ H|o d _ Hp|k m' _ H|d _ Hp]; try rewrite Hp in Hph.
  - done.
  - unfold destroy in Hact. destruct (m_destroyed m) eqn:Hd; cbn in Hact; congruence.
  - tauto.
  - by apply machine_inv_set_phase.
  - by apply to_idle_inv.
  - apply machine_inv_set_phase; [done|]. cbn.
    destruct (decodeOffer_length _ _ _ _ Hd) as (_ & Hb & _).
    unfold phase_inv, offer_wf. cbn. by rewrite Hb.
  - by eapply commitPreparedAdvance_inv.
  - by apply to_idle_inv.
  - by eapply commitAcceptedAdvance_inv.
  - by apply to_idle_inv.
Qed.

(** A call that throws changes nothing: for every synchronous call and
    every start of an asynchronous call on a machine that satisfies its
    invariant, the machine after the throw is the machine before it. *)
Theorem failed_call_is_atomic m : machine_inv m ->
  (forall o e m', run_op o m = (Err e, m') -> m' = m) /\
  (forall a e m', start a m = (Err e, m') -> m' = m).
Proof.
  intros Hm. split; [|by intros; eapply start_atomic].
  intros o e m' H. destruct (decide (o = do_commitAcceptedAdvance)) as [->|Ho];
    [|by apply run_op_atomic in H].
  cbn [run_op] in H. unfold mbind, M_bind in H.
  destruct (commitAcceptedAdvance m) as [[k|e1] m1] eqn:Hc; [done|]. injection H as _ <-.
  apply commitAccepted_root in Hc; [done|]. apply inv_phase in Hm. unfold phase_inv in Hm.
  intros o d kp root Hp. rewrite Hp in Hm. tauto.
Qed.
End Invariant.

(** The phase invariant of a machine whose phase is known. *)
Ltac phase_facts Hm Hp :=
  let Hph := fresh "Hph" in
  pose proof (inv_phase _ Hm) as Hph; unfold phase_inv in Hph; rewrite Hp in Hph.
