(* ===== verification/PqSafety.v ===== *)
(** * Safety of one healing machine under arbitrary interleavings

    Reachable configurations of the step relation: calls in any order, replies
    of the backend at any time, [destroy] while a call is in flight. *)

From S2P Require Import Prelude Bytes Crypto MlKem PqRecord PqMachine PqInvariant.
From stdpp Require Import relations.
Local Open Scope Z_scope.

Section Safety.
Context {C : LibCrypto} {B : MlKemBackend}.
Implicit Types (m : machine) (c : cfg).

(** What a pending call captured is still what the machine holds. *)
Definition captured (k : continuation) m : Prop :=
  match k with
  | k_prepareOffer => m_phase m = Idle /\ m_nextOfferer m = local /\ can_start m
  | k_prepareAdvance o => m_phase m = InboundOffer o
  | k_acceptAdvance d o kp =>
      m_phase m = OutboundOffer true o kp /\ advance_wf m d /\ o = advance_offer d /\
      senderCounter (advance_header d) = m_remoteCounter m /\
      fromEpoch (advance_header d) = m_epoch m
  end.

Definition cfg_inv c : Prop :=
  (m_destroyed (mach c) = false -> machine_inv (mach c)) /\
  match pending c with
  | None => m_busy (mach c) = false
  | Some k => m_busy (mach c) = true /\
              (m_destroyed (mach c) = false -> captured k (mach c))
  end.

(** *** Calls on a machine that is busy or destroyed *)

Lemma sync_not_ready {A} (f : unit -> method A) m r m' :
  ~ ready m -> (assertSynchronous ≫= f) m = (r, m') -> m' = m /\ is_ok r = false.
Proof.
  intros Hn. unfold mbind, M_bind. pose proof (readonly_assertSynchronous m) as Hr.
  destruct (assertSynchronous m) as [[[]|] m1] eqn:H; cbn in Hr; subst m1.
  - apply assertSynchronous_ok in H. unfold ready in Hn. tauto.
  - by intros [= <- <-].
Qed.

Lemma run_op_not_ready o m r m' :
  ~ ready m -> o <> do_destroy -> run_op o m = (r, m') -> m' = m /\ is_ok r = false.
Proof.
  intros Hn Hd H. destruct o; cbn [run_op] in H; try done;
    try (by eapply sync_not_ready in H).
  all: unfold mbind at 1, M_bind at 1 in H.
  all: match type of H with context [match ?x with _ => _ end] => destruct x as [[?|?] m1] eqn:Hx end.
  all: eapply sync_not_ready in Hx as [-> Hx]; try done.
  all: by injection H as <- <-.
Qed.

Lemma start_not_ready a m r m' :
  ~ ready m -> start a m = (r, m') -> m' = m /\ is_ok r = false.
Proof.
  intros Hn H. destruct r as [k|e]; [|split; [by eapply start_atomic|done]].
  exfalso. apply Hn. destruct a; cbn [start] in H; mbinds H.
  - by apply prepareOffer_start_ok in E as [? _].
  - by apply prepareAdvance_start_ok in E as [? _].
  - by apply acceptAuthenticatedAdvance_start_ok in E as (? & ? & ? & _ & ? & _).
Qed.

Lemma destroy_destroyed m : m_destroyed (destroy m) = true.
Proof. unfold destroy. by destruct (m_destroyed m) eqn:?. Qed.
Lemma destroy_busy m : m_busy (destroy m) = m_busy m.
Proof. unfold destroy. by destruct (m_destroyed m). Qed.

Lemma effect_flags m m' : effect m m' -> m_busy m' = m_busy m /\
  (m_destroyed m' = m_destroyed m \/ m_destroyed m' = true).
Proof.
  destruct 1 as [| | | | | |r m' _ H| |k m' _ H|]; try (split; [done|by left]).
  - split; [apply destroy_busy|right; apply destroy_destroyed].
  - apply commitPreparedAdvance_ok in H as (_ & ? & ? & ? & _ & _ & _ & ->). cbn. auto.
  - apply commitAcceptedAdvance_ok in H as (_ & ? & ? & ? & ? & _ & _ & _ & ->). cbn. auto.
Qed.

(** *** Asynchronous calls *)

Lemma start_inv a m k m' : machine_inv m -> start a m = (Ok k, m') ->
  ready m /\ m' = set_busy true m /\ captured k m.
Proof.
  intros Hm H. destruct a; cbn [start] in H; mbinds H; subst.
  - apply prepareOffer_start_ok in E as (? & ? & ? & ? & ->). done.
  - apply prepareAdvance_start_ok in E as (? & ? & _ & ->). done.
  - apply acceptAuthenticatedAdvance_start_ok in E
      as (d & o & kp & -> & Hr & Hdec & Hp & Hc & Hf & Ho & ->). cbn.
    destruct (decodeAdvance_facts m _ _ Hm Hdec) as (Hwf & _ & Hwo & _).
    split_and!; try done.
    pose proof (inv_phase m Hm) as Hph. unfold phase_inv in Hph. rewrite Hp in Hph.
    destruct Hph as (Hwo' & _). unfold offer_wf in *. rewrite Ho in Hwo. congruence.
Qed.

Lemma start_ready a m r m' : start a m = (Ok r, m') -> ready m.
Proof.
  intros H. destruct a; cbn [start] in H; mbinds H.
  - by apply prepareOffer_start_ok in E as [? _].
  - by apply prepareAdvance_start_ok in E as [? _].
  - by apply acceptAuthenticatedAdvance_start_ok in E as (? & ? & ? & _ & ? & _).
Qed.

Lemma finally_throw {A} (body : method A) m e m' :
  readonly body \/ (forall m m' e, body m = (Err e, m') -> m' = m) ->
  finally body endAsyncOperation m = (Err e, m') -> m' = set_busy false m.
Proof.
  intros Hb. unfold finally. destruct (body m) as [r m1] eqn:H. intros [= -> <-].
  destruct Hb as [Hb|Hb].
  - specialize (Hb m). by rewrite H in Hb; cbn in Hb; subst.
  - by rewrite (Hb _ _ _ H).
Qed.

Lemma resume_offer_throw ans m e m' :
  prepareOffer_resume ans m = (Err e, m') -> m' = set_busy false m.
Proof.
  apply finally_throw. right. intros n n' e'. destruct ans as [kp|]; [|by intros [= _ <-]].
  apply (fun H => H : atomic _). solve_method.
Qed.
Lemma resume_advance_throw o ans m e m' :
  prepareAdvance_resume o ans m = (Err e, m') -> m' = set_busy false m.
Proof.
  apply finally_throw. right. intros n n' e'. destruct ans as [[ct ss]|]; [|by intros [= _ <-]].
  apply (fun H => H : atomic _). solve_method.
Qed.
Lemma resume_accept_throw cap ans m e m' :
  acceptAuthenticatedAdvance_resume cap ans m = (Err e, m') -> m' = set_busy false m.
Proof.
  destruct cap as [[d o] kp]. apply finally_throw. right. intros n n' e'.
  destruct ans as [ss|]; [|by intros [= _ <-]].
  apply (fun H => H : atomic _). solve_method.
Qed.

(** What a resumed call does to an active machine. *)
Lemma resume_offer_inv ans m r m' : machine_inv m -> captured k_prepareOffer m ->
  prepareOffer_resume ans m = (r, m') ->
  machine_inv m' /\ m_busy m' = false /\ m_destroyed m' = m_destroyed m.
Proof.
  intros Hm (Hp & Hn & Hcs) H. destruct r as [r|e].
  - apply prepareOffer_resume_ok in H as (kp & o & -> & Hd & Hpk & Hsk & Henc & Hdec & ->).
    split; [|done]. apply machine_inv_busy, machine_inv_set_phase; [done|].
    destruct (prepared_offer_wf m kp r o Hm Henc Hdec) as (? & ? & ? & ?).
    unfold phase_inv, keypair_wf. cbn. done.
  - apply resume_offer_throw in H as ->. split; [|done]. by apply machine_inv_busy.
Qed.

Lemma resume_advance_inv o ans m r m' : machine_inv m -> captured (k_prepareAdvance o) m ->
  prepareAdvance_resume o ans m = (r, m') ->
  machine_inv m' /\ m_busy m' = false /\ m_destroyed m' = m_destroyed m.
Proof.
  intros Hm Hp H. cbn in Hp. destruct r as [r|e].
  - apply prepareAdvance_resume_ok in H as (ct & ss & a & root & -> & Hd & _ & Henc & Hdec & Hroot & ->).
    split; [|done]. apply machine_inv_busy, machine_inv_set_phase; [done|].
    pose proof (inv_phase m Hm) as Hph. unfold phase_inv in Hph. rewrite Hp in Hph.
    destruct Hph as (Ho & Hn & Hc & Hf & Hcs).
    destruct (prepared_advance_wf m o ct r a Hm Ho Henc Hdec) as (? & ? & ? & ? & ? & ? & ?).
    apply deriveNextRoot_length in Hroot. unfold phase_inv. cbn.
    split_and!; try done. cbn. lia.
  - apply resume_advance_throw in H as ->. split; [|done]. by apply machine_inv_busy.
Qed.

Lemma resume_accept_inv d o kp ans m r m' :
  machine_inv m -> captured (k_acceptAdvance d o kp) m ->
  acceptAuthenticatedAdvance_resume (d, o, kp) ans m = (r, m') ->
  machine_inv m' /\ m_busy m' = false /\ m_destroyed m' = m_destroyed m.
Proof.
  intros Hm (Hp & Hd & Ho & Hc & Hf) H. destruct r as [[]|e].
  - apply acceptAuthenticatedAdvance_resume_ok in H as (ss & root & -> & Hds & Hroot & ->).
    split; [|done]. apply machine_inv_busy, machine_inv_set_phase; [done|].
    pose proof (inv_phase m Hm) as Hph. unfold phase_inv in Hph. rewrite Hp in Hph.
    destruct Hph as (_ & Hkp & Hn & Hlc & _ & Hcs). apply deriveNextRoot_length in Hroot.
    unfold phase_inv. cbn. by split_and!.
  - apply resume_accept_throw in H as ->. split; [|done]. by apply machine_inv_busy.
Qed.

(** On a destroyed machine a resumed call only clears the flag. *)
Lemma resume_destroyed {A} (body : method A) m r m' :
  m_destroyed m = true ->
  finally (assertActive;; body) endAsyncOperation m = (r, m') -> m' = set_busy false m.
Proof.
  intros Hd. unfold finally, mbind, M_bind. pose proof (readonly_assertActive m) as Hr.
  destruct (assertActive m) as [[[]|] m1] eqn:H; cbn in Hr; subst m1.
  - apply assertActive_ok in H. destruct H. congruence.
  - by intros [= _ <-].
Qed.

Lemma resume_offer_destroyed ans m r m' : m_destroyed m = true ->
  prepareOffer_resume ans m = (r, m') -> m' = set_busy false m.
Proof. intros Hd. destruct ans; [by apply resume_destroyed|]. by intros [= _ <-]. Qed.
Lemma resume_advance_destroyed o ans m r m' : m_destroyed m = true ->
  prepareAdvance_resume o ans m = (r, m') -> m' = set_busy false m.
Proof. intros Hd. destruct ans as [[]|]; [by apply resume_destroyed|]. by intros [= _ <-]. Qed.
Lemma resume_accept_destroyed cap ans m r m' : m_destroyed m = true ->
  acceptAuthenticatedAdvance_resume cap ans m = (r, m') -> m' = set_busy false m.
Proof.
  intros Hd. destruct cap as [[d o] kp], ans; [by apply resume_destroyed|]. by intros [= _ <-].
Qed.

Lemma cfg_inv_run_op o c r m' :
  cfg_inv c -> run_op o (mach c) = (r, m') -> cfg_inv (Cfg m' (pending c)).
Proof.
  intros [Hm Hk] H. pose proof (run_op_effect _ _ _ _ H) as He.
  destruct (effect_flags _ _ He) as [Hb Hd]. unfold cfg_inv. cbn. rewrite Hb. split.
  - intros Hact. eapply effect_inv; [|done..]. apply Hm. destruct Hd; congruence.
  - destruct (pending c) as [k|]; [|done]. destruct Hk as [Hbusy Hk]. split; [done|].
    intros Hact. assert (m_destroyed (mach c) = false) by (destruct Hd; congruence).
    destruct (decide (o = do_destroy)) as [->|Hne].
    { injection H as _ <-. by rewrite destroy_destroyed in Hact. }
    apply run_op_not_ready in H as [-> _]; [auto| |done].
    unfold ready. rewrite Hbusy. naive_solver.
Qed.

Lemma step_inv c c' : cfg_inv c -> step c c' -> cfg_inv c'.
Proof.
  intros Hc Hs. destruct Hs as
    [o c r m' H|a c k m' H|a c e m' H|m ans r m' H|m o ans r m' H|m d o kp ans r m' H].
  - by eapply cfg_inv_run_op.
  - pose proof (start_ready _ _ _ _ H) as [Hd Hb]. destruct Hc as [Hm _].
    apply start_inv in H as (_ & -> & Hk); [|by apply Hm].
    split; cbn; [|by destruct k]. intros _. apply machine_inv_busy, Hm, Hd.
  - apply start_atomic in H as ->. by destruct c.
  - destruct Hc as [Hm [Hb Hk]]. cbn [mach] in Hm, Hb, Hk. destruct (m_destroyed m) eqn:Hd.
    + apply resume_offer_destroyed in H as ->; [|done]. split; cbn; congruence.
    + apply resume_offer_inv in H as (? & ? & ?); [by split|by apply Hm|by apply Hk].
  - destruct Hc as [Hm [Hb Hk]]. cbn [mach] in Hm, Hb, Hk. destruct (m_destroyed m) eqn:Hd.
    + apply resume_advance_destroyed in H as ->; [|done]. split; cbn; congruence.
    + eapply resume_advance_inv in H as (? & ? & ?); [by split|by apply Hm|by apply Hk].
  - destruct Hc as [Hm [Hb Hk]]. cbn [mach] in Hm, Hb, Hk. destruct (m_destroyed m) eqn:Hd.
    + apply resume_accept_destroyed in H as ->; [|done]. split; cbn; congruence.
    + eapply resume_accept_inv in H as (? & ? & ?); [by split|by apply Hm|by apply Hk].
Qed.

Definition initial c : Prop :=
  pending c = None /\
  exists suite binding root turn e l r, new_machine suite binding root turn e l r = Ok (mach c).
Definition reachable c : Prop := exists c0, initial c0 /\ rtc step c0 c.

Lemma initial_inv c : initial c -> cfg_inv c.
Proof.
  intros [Hp (suite & b & root & t & e & l & r & H)]. split.
  - intros _. by eapply new_machine_inv.
  - rewrite Hp. unfold new_machine in H. binds H. by rewrite <- H.
Qed.

Lemma rtc_inv c c' : cfg_inv c -> rtc step c c' -> cfg_inv c'.
Proof. intros Hc. induction 1; eauto using step_inv. Qed.

Lemma reachable_inv c : reachable c -> cfg_inv c.
Proof. intros (c0 & H0 & Hs). eapply rtc_inv; eauto using initial_inv. Qed.

(** ** Progress is in lockstep *)

(** [k] exchanges were committed between [m] and [m']. *)
Definition advanced_by (k : Z) m m' : Prop :=
  m_epoch m' = m_epoch m + k /\ m_localCounter m' = m_localCounter m + k /\
  m_remoteCounter m' = m_remoteCounter m + k.

Lemma advanced_by_0 m m' : m_epoch m' = m_epoch m ->
  m_localCounter m' = m_localCounter m -> m_remoteCounter m' = m_remoteCounter m ->
  advanced_by 0 m m'.
Proof. unfold advanced_by. lia. Qed.

Lemma effect_progress m m' : (m_destroyed m = false -> machine_inv m) -> effect m m' ->
  exists k, 0 <= k <= 1 /\ advanced_by k m m'.
Proof.
  intros Hm He.
  destruct He as [| | | | | |r m' [Hd _] H| |k m' [Hd _] H|];
    try (exists 0; split; [lia|by apply advanced_by_0]).
  - exists 0. split; [lia|]. unfold destroy.
    destruct (m_destroyed m); by apply advanced_by_0.
  - specialize (Hm Hd). pose proof (inv_phase m Hm) as Hph. unfold phase_inv in Hph.
    apply commitPreparedAdvance_ok in H as (_ & o & a & root & Hp & _ & _ & ->).
    rewrite Hp in Hph. destruct Hph as (Ha & _ & _ & _ & _ & Hf & _).
    apply (advance_wf_facts m a Hm) in Ha as (_ & _ & Ht).
    exists 1. unfold advanced_by. cbn. lia.
  - specialize (Hm Hd). pose proof (inv_phase m Hm) as Hph. unfold phase_inv in Hph.
    apply commitAcceptedAdvance_ok in H as (_ & o & a & kp & root & Hp & _ & _ & ->).
    rewrite Hp in Hph. destruct Hph as (Ha & _ & _ & _ & _ & _ & Hf & _).
    apply (advance_wf_facts m a Hm) in Ha as (_ & _ & Ht).
    exists 1. unfold advanced_by. cbn. lia.
Qed.

(** A resumed call never moves the counters. *)
Lemma resume_progress c c' : step c c' ->
  is_Some (pending c) -> pending c' = None -> advanced_by 0 (mach c) (mach c').
Proof.
  intros Hs Hk Hk'. destruct Hs as
    [o c r m' H|a c k m' H|a c e m' H|m ans r m' H|m o ans r m' H|m d o kp ans r m' H]; cbn [pending mach] in *.
  - rewrite Hk' in Hk. by destruct Hk.
  - done.
  - rewrite Hk' in Hk. by destruct Hk.
  - destruct r; [apply prepareOffer_resume_ok in H as (? & ? & _ & _ & _ & _ & _ & _ & ->)
                |apply resume_offer_throw in H as ->]; by apply advanced_by_0.
  - destruct r; [apply prepareAdvance_resume_ok in H as (? & ? & ? & ? & _ & _ & _ & _ & _ & _ & ->)
                |apply resume_advance_throw in H as ->]; by apply advanced_by_0.
  - destruct r; [apply acceptAuthenticatedAdvance_resume_ok in H as (? & ? & _ & _ & _ & ->)
                |apply resume_accept_throw in H as ->]; by apply advanced_by_0.
Qed.

Lemma step_progress c c' : cfg_inv c -> step c c' ->
  exists k, 0 <= k <= 1 /\ advanced_by k (mach c) (mach c').
Proof.
  intros [Hm Hk] Hs. pose proof Hs as Hs'. destruct Hs as
    [o c r m' H|a c k m' H|a c e m' H|m ans r m' H|m o ans r m' H|m d o kp ans r m' H].
  - apply run_op_effect in H. by apply effect_progress.
  - pose proof (start_ready _ _ _ _ H) as [Hd _]. apply start_inv in H as (_ & -> & _); [|by apply Hm].
    exists 0. split; [lia|by apply advanced_by_0].
  - apply start_atomic in H as ->. exists 0. split; [lia|by apply advanced_by_0].
  - exists 0. split; [lia|]. by apply resume_progress in Hs'.
  - exists 0. split; [lia|]. by apply resume_progress in Hs'.
  - exists 0. split; [lia|]. by apply resume_progress in Hs'.
Qed.

Lemma rtc_progress c c' : cfg_inv c -> rtc step c c' ->
  exists n, 0 <= n /\ advanced_by n (mach c) (mach c').
Proof.
  intros Hc Hs. revert Hc. induction Hs as [c|c c1 c2 H1 _ IH]; intros Hc.
  - exists 0. split; [lia|by apply advanced_by_0].
  - destruct (step_progress _ _ Hc H1) as (k & Hk & H).
    destruct (IH (step_inv _ _ Hc H1)) as (n & Hn & H').
    exists (k + n). unfold advanced_by in *. lia.
Qed.

(** ** An offer is accepted at most once *)

(** The slot [n] of the remote sender is used up, or its offer is being
    answered. *)
Definition slot_taken (n : Z) c : Prop :=
  m_destroyed (mach c) = true \/ n < m_remoteCounter (mach c) \/
  (n = m_remoteCounter (mach c) /\
   match m_phase (mach c) with
   | InboundOffer _ | OutboundAdvancePrepared _ _ _ => True
   | _ => False
   end).

Lemma slot_taken_effect n c m' : cfg_inv c -> slot_taken n c ->
  effect (mach c) m' -> slot_taken n (Cfg m' (pending c)).
Proof.
  intros [Hm _] Hn He. pose proof (effect_flags _ _ He) as [_ Hfl].
  pose proof (effect_progress _ _ Hm He) as (k & Hk & _ & _ & Hr).
  unfold slot_taken in *. cbn [mach].
  destruct Hn as [Hd|[Hn|[Hn Hp]]].
  - left. destruct Hfl; congruence.
  - right; left. lia.
  - destruct He as [| |o d kp root Hp'|o kp _ Hp'|o kp _ Hp'|r o _ _ Hp'|r m' _ H|o d _ Hp'
      |k' m' _ H|d _ Hp']; try (by rewrite Hp' in Hp); auto.
    + left. apply destroy_destroyed.
    + apply commitPreparedAdvance_ok in H as (_ & ? & ? & ? & _ & _ & _ & ->).
      right; left. cbn. lia.
    + apply commitAcceptedAdvance_ok in H as (_ & ? & ? & ? & ? & Hp' & _).
      by rewrite Hp' in Hp.
Qed.

Lemma slot_taken_step n c c' :
  cfg_inv c -> slot_taken n c -> step c c' -> slot_taken n c'.
Proof.
  intros Hc Hn Hs. pose proof Hs as Hs'. destruct Hs as
    [o c r m' H|a c k m' H|a c e m' H|m ans r m' H|m o ans r m' H|m d o kp ans r m' H].
  - apply run_op_effect in H. by apply slot_taken_effect.
  - pose proof (start_ready _ _ _ _ H) as [Hd _]. destruct Hc as [Hm _].
    apply start_inv in H as (_ & -> & _); [|by apply Hm]. done.
  - apply start_atomic in H as ->. done.
  - apply resume_progress in Hs' as (_ & _ & Hr); [|done..]. cbn [mach] in Hr.
    destruct Hc as [_ [_ Hk]]. unfold slot_taken in *. cbn [mach pending] in *.
    destruct (m_destroyed m) eqn:Hd; [apply resume_offer_destroyed in H as ->; auto|].
    destruct Hn as [?|[?|[? Hp]]]; [done|right; left; lia|].
    destruct (Hk eq_refl) as [Hp' _]. by rewrite Hp' in Hp.
  - apply resume_progress in Hs' as (_ & _ & Hr); [|done..]. cbn [mach] in Hr.
    destruct Hc as [_ [_ Hk]]. unfold slot_taken in *. cbn [mach pending] in *.
    destruct (m_destroyed m) eqn:Hd; [apply resume_advance_destroyed in H as ->; auto|].
    destruct Hn as [?|[?|[? Hp]]]; [done|right; left; lia|]. right; right. split; [lia|].
    destruct r; [apply prepareAdvance_resume_ok in H as (? & ? & ? & ? & _ & _ & _ & _ & _ & _ & ->)
                |apply resume_advance_throw in H as ->]; done.
  - apply resume_progress in Hs' as (_ & _ & Hr); [|done..]. cbn [mach] in Hr.
    destruct Hc as [_ [_ Hk]]. unfold slot_taken in *. cbn [mach pending] in *.
    destruct (m_destroyed m) eqn:Hd; [apply resume_accept_destroyed in H as ->; auto|].
    destruct Hn as [?|[?|[? Hp]]]; [done|right; left; lia|].
    destruct (Hk eq_refl) as [Hp' _]. by rewrite Hp' in Hp.
Qed.

Lemma slot_taken_rtc n c c' :
  cfg_inv c -> slot_taken n c -> rtc step c c' -> slot_taken n c'.
Proof.
  intros Hc Hn Hs. revert Hc Hn. induction Hs; eauto using slot_taken_step, step_inv.
Qed.

Lemma slot_taken_rejects r o c a m' :
  slot_taken (senderCounter (offer_header o)) c ->
  decodeOffer r (m_suite (mach c)) (Some (m_binding (mach c))) = Ok o ->
  acceptAuthenticatedOffer r (mach c) <> (Ok a, m').
Proof.
  intros Hn Hdec H.
  apply acceptAuthenticatedOffer_ok in H as (o' & [Hd _] & Hdec' & Hp & _ & Hc & _).
  assert (o' = o) as -> by congruence. unfold slot_taken in Hn. rewrite Hp in Hn.
  destruct Hn as [Hn|[Hn|[_ []]]]; [congruence|lia].
Qed.

(** The suite never changes, the binding only by [destroy]. *)
Definition same_edge m m' : Prop :=
  m_suite m' = m_suite m /\ m_binding m' = m_binding m /\ m_destroyed m = false.

Lemma effect_edge m m' : effect m m' -> m_destroyed m' = false -> same_edge m m'.
Proof.
  destruct 1 as [| | | | | |r m' _ H| |k m' _ H|]; intros Hact; try done.
  - by rewrite destroy_destroyed in Hact.
  - by apply commitPreparedAdvance_ok in H as ([? _] & ? & ? & ? & _ & _ & _ & ->).
  - by apply commitAcceptedAdvance_ok in H as ([? _] & ? & ? & ? & ? & _ & _ & _ & ->).
Qed.

Lemma step_edge c c' : cfg_inv c -> step c c' ->
  m_destroyed (mach c') = false -> same_edge (mach c) (mach c').
Proof.
  intros [Hm _] Hs Hact. destruct Hs as
    [o c r m' H|a c k m' H|a c e m' H|m ans r m' H|m o ans r m' H|m d o kp ans r m' H];
    cbn [mach] in *.
  - apply run_op_effect in H. by apply effect_edge.
  - pose proof (start_ready _ _ _ _ H) as [Hd _]. by apply start_inv in H as (_ & -> & _); [|apply Hm].
  - by apply start_atomic in H as ->.
  - destruct r; [apply prepareOffer_resume_ok in H as (? & ? & _ & _ & _ & _ & _ & _ & ->)
                |apply resume_offer_throw in H as ->]; done.
  - destruct r; [apply prepareAdvance_resume_ok in H as (? & ? & ? & ? & _ & _ & _ & _ & _ & _ & ->)
                |apply resume_advance_throw in H as ->]; done.
  - destruct r; [apply acceptAuthenticatedAdvance_resume_ok in H as (? & ? & _ & _ & _ & ->)
                |apply resume_accept_throw in H as ->]; done.
Qed.

Lemma rtc_edge c c' : cfg_inv c -> rtc step c c' ->
  m_destroyed (mach c') = false -> same_edge (mach c) (mach c').
Proof.
  intros Hc Hs. revert Hc. induction Hs as [c|c c1 c2 H1 _ IH]; intros Hc Hact; [done|].
  destruct (IH (step_inv _ _ Hc H1) Hact) as (Hs & Hb & Hd).
  destruct (step_edge _ _ Hc H1 Hd) as (? & ? & ?). unfold same_edge. split_and!; congruence.
Qed.

(** ** Theorems *)

(** C36. Every reachable configuration satisfies the machine invariant: an
    active machine has a canonical suite, 32-byte binding and root, 64-bit
    counters and a phase that agrees with its turn, counters and epoch; and a
    machine is busy exactly while an asynchronous call is pending, whose
    captured data is still current.  This holds for calls in any order, any
    answers of the backend and [destroy] at any time. *)
Theorem reachable_machine_invariant c : reachable c -> cfg_inv c.
Proof. apply reachable_inv. Qed.

(** Epoch and counters advance in lockstep: between any two configurations
    of a run the epoch, the local and the remote counter have grown by the
    same number of committed exchanges. *)
Theorem epoch_counters_lockstep c c' : reachable c -> rtc step c c' ->
  exists n, 0 <= n /\ advanced_by n (mach c) (mach c').
Proof. intros Hc. by apply rtc_progress, reachable_inv. Qed.

(** An OFFER is accepted at most once: after a record was accepted, the
    same record, or any other OFFER for the same sender counter, is rejected
    in every later configuration, whatever happened in between. *)
Theorem offer_accepted_at_most_once c r o a m1 c2 r2 o2 b m2 :
  reachable c ->
  decodeOffer r (m_suite (mach c)) (Some (m_binding (mach c))) = Ok o ->
  acceptAuthenticatedOffer r (mach c) = (Ok a, m1) ->
  rtc step (Cfg m1 (pending c)) c2 ->
  decodeOffer r2 (m_suite (mach c2)) (Some (m_binding (mach c2))) = Ok o2 ->
  senderCounter (offer_header o2) = senderCounter (offer_header o) ->
  acceptAuthenticatedOffer r2 (mach c2) <> (Ok b, m2).
Proof.
  intros Hreach Hd H Hs Hd2 Hslot. apply reachable_inv in Hreach as Hc.
  assert (cfg_inv (Cfg m1 (pending c))) as Hc1
    by (by apply (cfg_inv_run_op (do_acceptAuthenticatedOffer r)) in H).
  apply acceptAuthenticatedOffer_ok in H as (o' & _ & Hd' & _ & _ & Hn & _ & _ & ->).
  assert (o' = o) as -> by congruence.
  apply (slot_taken_rejects _ o2); [|done]. rewrite Hslot.
  eapply slot_taken_rtc; [done| |done]. right; right. by rewrite Hn.
Qed.
End Safety.
