(* ===== verification/PqSnapshot.v ===== *)
(** * Checkpoints of the healing machine ([snapshot], [restore], [clone],
      [wipePqHealingSnapshot] of [src/src/cryptography/pqHealing.ts])

    A snapshot holds the public records as bytes; restoring decodes them again
    and re-validates the relation between phase, turn, counters and epoch. *)

From S2P Require Import Prelude Bytes Crypto MlKem PqRecord PqMachine PqInvariant.
Local Open Scope Z_scope.

Definition PQ_HEALING_SNAPSHOT_FORMAT_VERSION : Z := 1.

Inductive PqHealingSnapshotPhase :=
  | snap_idle
  | snap_outbound_offer (dispatched : bool) (offer secretKey : bytes)
  | snap_inbound_offer (offer : bytes)
  | snap_outbound_advance_prepared (advance nextRoot : bytes)
  | snap_outbound_advance_awaiting_ack (advance : bytes)
  | snap_inbound_advance_prepared (advance secretKey nextRoot : bytes)
  | snap_inbound_advance_awaiting_ack_dispatch (advance : bytes).

Record PqHealingSnapshot := {
  s_formatVersion : Z;
  s_parameterSet : Z;
  s_binding : bytes;
  s_rootKey : bytes;
  s_epoch : Z;
  s_localCounter : Z;
  s_remoteCounter : Z;
  s_nextOfferer : PqHealingTurn;
  s_phase : PqHealingSnapshotPhase;
  s_lastInboundOffer : option bytes;
  s_lastInboundAdvance : option bytes;
}.

Definition snapshotPhase (phase : InternalPhase) : PqHealingSnapshotPhase :=
  match phase with
  | Idle => snap_idle
  | OutboundOffer dispatched offer keyPair =>
      snap_outbound_offer dispatched (offer_bytes offer) (kp_secret keyPair)
  | InboundOffer offer => snap_inbound_offer (offer_bytes offer)
  | OutboundAdvancePrepared _ advance nextRoot =>
      snap_outbound_advance_prepared (advance_bytes advance) nextRoot
  | OutboundAdvanceAwaitingAck _ advance =>
      snap_outbound_advance_awaiting_ack (advance_bytes advance)
  | InboundAdvancePrepared _ advance keyPair nextRoot =>
      snap_inbound_advance_prepared (advance_bytes advance) (kp_secret keyPair) nextRoot
  | InboundAdvanceAwaitingAckDispatch advance =>
      snap_inbound_advance_awaiting_ack_dispatch (advance_bytes advance)
  end.

Definition snapshot : method PqHealingSnapshot :=
  assertSynchronous;; this ← get_this;
  mret {| s_formatVersion := PQ_HEALING_SNAPSHOT_FORMAT_VERSION;
          s_parameterSet := parameterSet (m_suite this);
          s_binding := m_binding this;
          s_rootKey := m_rootKey this;
          s_epoch := m_epoch this;
          s_localCounter := m_localCounter this;
          s_remoteCounter := m_remoteCounter this;
          s_nextOfferer := m_nextOfferer this;
          s_phase := snapshotPhase (m_phase this);
          s_lastInboundOffer := offer_bytes <$> m_lastInboundOffer this;
          s_lastInboundAdvance := advance_bytes <$> m_lastInboundAdvance this |}.

(** ** Restoring *)

Definition makeOwnedKeyPair (pk sk : bytes) : MlKemKeyPair :=
  {| kp_public := pk; kp_secret := sk |}.

Definition decodeSnapshotPhase (value : PqHealingSnapshotPhase)
    (suite : MlKemSuiteDescriptor) (binding : bytes) : pq InternalPhase :=
  match value with
  | snap_idle => Ok Idle
  | snap_outbound_offer dispatched o sk =>
      requireBytes o (offerLength suite);;
      offer ← decodeOffer o suite (Some binding);
      requireBytes sk (secretKeyBytes suite);;
      Ok (OutboundOffer dispatched offer (makeOwnedKeyPair (publicKey offer) sk))
  | snap_inbound_offer o =>
      requireBytes o (offerLength suite);;
      offer ← decodeOffer o suite (Some binding);
      Ok (InboundOffer offer)
  | snap_outbound_advance_prepared a root =>
      requireBytes a (advanceLength suite);;
      advance ← decodeAdvance a suite (Some binding);
      requireBytes root PQ_HEALING_ROOT_BYTES;;
      Ok (OutboundAdvancePrepared (advance_offer advance) advance root)
  | snap_outbound_advance_awaiting_ack a =>
      requireBytes a (advanceLength suite);;
      advance ← decodeAdvance a suite (Some binding);
      Ok (OutboundAdvanceAwaitingAck (advance_offer advance) advance)
  | snap_inbound_advance_prepared a sk root =>
      requireBytes a (advanceLength suite);;
      advance ← decodeAdvance a suite (Some binding);
      requireBytes sk (secretKeyBytes suite);;
      requireBytes root PQ_HEALING_ROOT_BYTES;;
      Ok (InboundAdvancePrepared (advance_offer advance) advance
            (makeOwnedKeyPair (publicKey (advance_offer advance)) sk) root)
  | snap_inbound_advance_awaiting_ack_dispatch a =>
      requireBytes a (advanceLength suite);;
      advance ← decodeAdvance a suite (Some binding);
      Ok (InboundAdvanceAwaitingAckDispatch advance)
  end.

Record ValidatedPqHealingSnapshot := {
  v_rootKey : bytes;
  v_epoch : Z;
  v_localCounter : Z;
  v_remoteCounter : Z;
  v_nextOfferer : PqHealingTurn;
  v_phase : InternalPhase;
  v_lastInboundOffer : option DecodedOffer;
  v_lastInboundAdvance : option DecodedAdvance;
}.

Definition snapshotInvariant (condition : bool) : pq unit := check condition invalid_record.

Definition validateSnapshotState (state : ValidatedPqHealingSnapshot) : pq unit :=
  let epoch := v_epoch state in
  let localCounter := v_localCounter state in
  let remoteCounter := v_remoteCounter state in
  let turn := v_nextOfferer state in
  match v_lastInboundOffer state with
  | None => Ok tt
  | Some o =>
      snapshotInvariant (toEpoch (offer_header o) <=? epoch);;
      snapshotInvariant (senderCounter (offer_header o) <? remoteCounter)
  end;;
  match v_lastInboundAdvance state with
  | None => Ok tt
  | Some a =>
      snapshotInvariant (toEpoch (advance_header a) <=? epoch);;
      snapshotInvariant (senderCounter (advance_header a) <? remoteCounter)
  end;;
  match v_phase state with
  | Idle => Ok tt
  | OutboundOffer _ offer _ =>
      snapshotInvariant (bool_decide (turn = local)
        && (senderCounter (offer_header offer) =? localCounter)
        && (fromEpoch (offer_header offer) =? epoch))
  | InboundOffer offer =>
      snapshotInvariant (bool_decide (turn = remote)
        && (senderCounter (offer_header offer) =? remoteCounter)
        && (fromEpoch (offer_header offer) =? epoch))
  | OutboundAdvancePrepared offer advance _ =>
      snapshotInvariant (bool_decide (turn = remote)
        && (senderCounter (advance_header advance) =? localCounter)
        && (senderCounter (offer_header offer) =? remoteCounter)
        && (fromEpoch (advance_header advance) =? epoch))
  | OutboundAdvanceAwaitingAck offer advance =>
      snapshotInvariant (bool_decide (turn = local)
        && (senderCounter (advance_header advance) + 1 =? localCounter)
        && (senderCounter (offer_header offer) + 1 =? remoteCounter)
        && (toEpoch (advance_header advance) =? epoch));;
      snapshotInvariant
        match v_lastInboundOffer state with
        | None => false
        | Some o => bytesEqual (offer_bytes o) (offer_bytes offer)
        end
  | InboundAdvancePrepared offer advance _ _ =>
      snapshotInvariant (bool_decide (turn = local)
        && (senderCounter (advance_header advance) =? remoteCounter)
        && (senderCounter (offer_header offer) =? localCounter)
        && (fromEpoch (advance_header advance) =? epoch))
  | InboundAdvanceAwaitingAckDispatch advance =>
      snapshotInvariant (bool_decide (turn = remote)
        && (senderCounter (advance_header advance) + 1 =? remoteCounter)
        && (senderCounter (offer_header (advance_offer advance)) + 1 =? localCounter)
        && (toEpoch (advance_header advance) =? epoch));;
      snapshotInvariant
        match v_lastInboundAdvance state with
        | None => false
        | Some a => bytesEqual (advance_bytes a) (advance_bytes advance)
        end
  end.

Section Restore.
Context {B : MlKemBackend}.

Definition decodeLastOffer (o : option bytes) (suite : MlKemSuiteDescriptor)
    (binding : bytes) : pq (option DecodedOffer) :=
  match o with
  | None => Ok None
  | Some r =>
      requireBytes r (offerLength suite);;
      x ← decodeOffer r suite (Some binding); Ok (Some x)
  end.
Definition decodeLastAdvance (a : option bytes) (suite : MlKemSuiteDescriptor)
    (binding : bytes) : pq (option DecodedAdvance) :=
  match a with
  | None => Ok None
  | Some r =>
      requireBytes r (advanceLength suite);;
      x ← decodeAdvance r suite (Some binding); Ok (Some x)
  end.

Definition decodePqHealingSnapshot (record : PqHealingSnapshot)
    (suite : MlKemSuiteDescriptor) (binding : bytes) : pq ValidatedPqHealingSnapshot :=
  assertSameSuite suite backend_suite;;
  requireBytes binding PQ_HEALING_BINDING_BYTES;;
  check (s_formatVersion record =? PQ_HEALING_SNAPSHOT_FORMAT_VERSION) invalid_record;;
  check (s_parameterSet record =? parameterSet suite) suite_mismatch;;
  requireBytes (s_binding record) PQ_HEALING_BINDING_BYTES;;
  check (bytesEqual (s_binding record) binding) binding_mismatch;;
  requireBytes (s_rootKey record) PQ_HEALING_ROOT_BYTES;;
  requireU64 (s_epoch record);;
  requireU64 (s_localCounter record);;
  requireU64 (s_remoteCounter record);;
  phase ← decodeSnapshotPhase (s_phase record) suite binding;
  lastInboundOffer ← decodeLastOffer (s_lastInboundOffer record) suite binding;
  lastInboundAdvance ← decodeLastAdvance (s_lastInboundAdvance record) suite binding;
  let state := {|
    v_rootKey := s_rootKey record;
    v_epoch := s_epoch record;
    v_localCounter := s_localCounter record;
    v_remoteCounter := s_remoteCounter record;
    v_nextOfferer := s_nextOfferer record;
    v_phase := phase;
    v_lastInboundOffer := lastInboundOffer;
    v_lastInboundAdvance := lastInboundAdvance |} in
  validateSnapshotState state;;
  Ok state.

Definition restore (snap : PqHealingSnapshot) (suite : MlKemSuiteDescriptor)
    (binding : bytes) : pq machine :=
  state ← decodePqHealingSnapshot snap suite binding;
  fresh ← new_machine suite binding (v_rootKey state) (v_nextOfferer state)
            (v_epoch state) (v_localCounter state) (v_remoteCounter state);
  Ok (Machine (m_suite fresh) (m_binding fresh) (m_rootKey fresh) (m_epoch fresh)
        (m_localCounter fresh) (m_remoteCounter fresh) (m_nextOfferer fresh)
        (v_phase state) (v_lastInboundOffer state) (v_lastInboundAdvance state)
        (m_busy fresh) (m_destroyed fresh)).

Definition clone : method machine :=
  snap ← snapshot;
  this ← get_this;
  lift (restore snap (m_suite this) (m_binding this)).
End Restore.

Definition fill0 (l : bytes) : bytes := zeros (blen l).

Definition wipePqHealingSnapshot (s : PqHealingSnapshot) : PqHealingSnapshot := {|
  s_formatVersion := s_formatVersion s;
  s_parameterSet := s_parameterSet s;
  s_binding := fill0 (s_binding s);
  s_rootKey := fill0 (s_rootKey s);
  s_epoch := s_epoch s;
  s_localCounter := s_localCounter s;
  s_remoteCounter := s_remoteCounter s;
  s_nextOfferer := s_nextOfferer s;
  s_phase :=
    match s_phase s with
    | snap_idle => snap_idle
    | snap_outbound_offer d offer sk => snap_outbound_offer d (fill0 offer) (fill0 sk)
    | snap_inbound_offer offer => snap_inbound_offer (fill0 offer)
    | snap_outbound_advance_prepared a root =>
        snap_outbound_advance_prepared (fill0 a) (fill0 root)
    | snap_outbound_advance_awaiting_ack a => snap_outbound_advance_awaiting_ack (fill0 a)
    | snap_inbound_advance_awaiting_ack_dispatch a =>
        snap_inbound_advance_awaiting_ack_dispatch (fill0 a)
    | snap_inbound_advance_prepared a sk root =>
        snap_inbound_advance_prepared (fill0 a) (fill0 sk) (fill0 root)
    end;
  s_lastInboundOffer := fill0 <$> s_lastInboundOffer s;
  s_lastInboundAdvance := fill0 <$> s_lastInboundAdvance s |}.

(** ** Theorems *)

Section Roundtrip.
Context {C : LibCrypto} {B : MlKemBackend}.
Implicit Types m : machine.

Lemma decodeAdvance_length r suite b a :
  decodeAdvance r suite b = Ok a -> blen r = advanceLength suite /\ advance_bytes a = r.
Proof.
  unfold decodeAdvance. intros H. binds H. apply check_ok, Z.eqb_eq in E0. by subst a.
Qed.

Lemma decodeSnapshotPhase_ok m : machine_inv m ->
  decodeSnapshotPhase (snapshotPhase (m_phase m)) (m_suite m) (m_binding m) = Ok (m_phase m).
Proof.
  intros Hm. pose proof (inv_phase m Hm) as Hph. unfold phase_inv in Hph.
  assert (forall o, offer_wf m o -> requireBytes (offer_bytes o) (offerLength (m_suite m)) = Ok tt)
    as HO by (intros o Ho; apply requireBytes_ok; by apply decodeOffer_length in Ho as [? _]).
  assert (forall a, advance_wf m a -> requireBytes (advance_bytes a) (advanceLength (m_suite m)) = Ok tt)
    as HA by (intros a Ha; apply requireBytes_ok; by apply decodeAdvance_length in Ha as [? _]).
  unfold keypair_wf, offer_wf, advance_wf in *.
  destruct (m_phase m) as [|d o kp|o|o a root|o a|o a kp root|a] eqn:Hp; cbn [snapshotPhase decodeSnapshotPhase].
  - done.
  - destruct Hph as (Ho & [Hpk Hsk] & _). rewrite HO, Ho by done. cbn.
    rewrite (proj2 (requireBytes_ok _ _) Hsk). cbn. rewrite <- Hpk. by destruct kp.
  - destruct Hph as (Ho & _). by rewrite HO, Ho.
  - destruct Hph as (Ha & -> & _ & _ & _ & _ & Hr & _). rewrite HA, Ha by done. cbn.
    by rewrite (proj2 (requireBytes_ok _ _) Hr).
  - destruct Hph as (Ha & -> & _). by rewrite HA, Ha.
  - destruct Hph as (Ha & -> & [Hpk Hsk] & _ & _ & _ & _ & Hr & _). rewrite HA, Ha by done. cbn.
    rewrite (proj2 (requireBytes_ok _ _) Hsk), (proj2 (requireBytes_ok _ _) Hr). cbn.
    rewrite <- Hpk. by destruct kp.
  - destruct Hph as (Ha & _). by rewrite HA, Ha.
Qed.

Lemma decodeLast_ok m : machine_inv m ->
  decodeLastOffer (offer_bytes <$> m_lastInboundOffer m) (m_suite m) (m_binding m)
    = Ok (m_lastInboundOffer m) /\
  decodeLastAdvance (advance_bytes <$> m_lastInboundAdvance m) (m_suite m) (m_binding m)
    = Ok (m_lastInboundAdvance m).
Proof.
  intros Hm. destruct (inv_last m Hm) as [Ho Ha]. split.
  - destruct (m_lastInboundOffer m) as [o|]; [|done]. destruct (Ho o eq_refl) as [Hw _]. cbn.
    destruct (decodeOffer_length _ _ _ _ Hw) as [Hl _].
    rewrite (proj2 (requireBytes_ok _ _) Hl). unfold offer_wf in Hw. cbn. by rewrite Hw.
  - destruct (m_lastInboundAdvance m) as [a|]; [|done]. destruct (Ha a eq_refl) as [Hw _]. cbn.
    destruct (decodeAdvance_length _ _ _ _ Hw) as [Hl _].
    rewrite (proj2 (requireBytes_ok _ _) Hl). unfold advance_wf in Hw. cbn. by rewrite Hw.
Qed.

Definition validated_of m : ValidatedPqHealingSnapshot := {|
  v_rootKey := m_rootKey m; v_epoch := m_epoch m; v_localCounter := m_localCounter m;
  v_remoteCounter := m_remoteCounter m; v_nextOfferer := m_nextOfferer m;
  v_phase := m_phase m; v_lastInboundOffer := m_lastInboundOffer m;
  v_lastInboundAdvance := m_lastInboundAdvance m |}.

Lemma andb4 a b c d : a = true -> b = true -> c = true -> d = true -> a && b && c && d = true.
Proof. by intros -> -> -> ->. Qed.

Lemma validate_ok m : machine_inv m -> validateSnapshotState (validated_of m) = Ok tt.
Proof.
  intros Hm. destruct (inv_last m Hm) as [Ho Ha]. pose proof (inv_phase m Hm) as Hph.
  unfold phase_inv in Hph. unfold validateSnapshotState, snapshotInvariant. cbn.
  assert (match m_lastInboundOffer m with
          | None => Ok tt
          | Some o => check (toEpoch (offer_header o) <=? m_epoch m) invalid_record;;
              check (senderCounter (offer_header o) <? m_remoteCounter m) invalid_record
          end = Ok tt) as ->.
  { destruct (m_lastInboundOffer m) as [o|]; [|done]. destruct (Ho o eq_refl) as (_ & H1 & H2).
    apply Z.leb_le in H1. apply Z.ltb_lt in H2. by rewrite H1, H2. }
  assert (match m_lastInboundAdvance m with
          | None => Ok tt
          | Some o => check (toEpoch (advance_header o) <=? m_epoch m) invalid_record;;
              check (senderCounter (advance_header o) <? m_remoteCounter m) invalid_record
          end = Ok tt) as ->.
  { destruct (m_lastInboundAdvance m) as [o|]; [|done]. destruct (Ha o eq_refl) as (_ & H1 & H2).
    apply Z.leb_le in H1. apply Z.ltb_lt in H2. by rewrite H1, H2. }
  cbn. destruct (m_phase m) as [|d o kp|o|o a root|o a|o a kp root|a];
    rewrite ?check_ok.
  - done.
  - rewrite !andb_true_iff, bool_decide_eq_true, !Z.eqb_eq. tauto.
  - rewrite !andb_true_iff, bool_decide_eq_true, !Z.eqb_eq. tauto.
  - apply andb4; rewrite ?bool_decide_eq_true, ?Z.eqb_eq; tauto.
  - destruct Hph as (_ & _ & ? & ? & ? & ? & ->). rewrite bytesEqual_refl.
    apply result_bind_ok. exists tt. split; [|done].
    apply check_ok, andb4; rewrite ?bool_decide_eq_true, ?Z.eqb_eq; done.
  - destruct Hph as (_ & _ & _ & ? & ? & ? & ? & _).
    apply andb4; rewrite ?bool_decide_eq_true, ?Z.eqb_eq; done.
  - destruct Hph as (_ & ? & ? & ? & ? & ->). rewrite bytesEqual_refl.
    apply result_bind_ok. exists tt. split; [|done].
    apply check_ok, andb4; rewrite ?bool_decide_eq_true, ?Z.eqb_eq; done.
Qed.

Lemma new_machine_ok suite b root turn e l r :
  assertSameSuite suite backend_suite = Ok tt -> blen b = PQ_HEALING_BINDING_BYTES ->
  blen root = PQ_HEALING_ROOT_BYTES -> 0 <= e <= MAX_U64 -> 0 <= l <= MAX_U64 ->
  0 <= r <= MAX_U64 ->
  new_machine suite b root turn e l r = Ok (Machine suite b root e l r turn Idle None None false false).
Proof.
  intros Hs Hb Hr He Hl Hrc. unfold new_machine. rewrite Hs. cbn.
  rewrite (proj2 (requireBytes_ok _ _) Hb), (proj2 (requireBytes_ok _ _) Hr). cbn.
  by rewrite !(proj2 (requireU64_ok _)).
Qed.

Lemma decodePqHealingSnapshot_ok m snap : machine_inv m -> snapshot m = (Ok snap, m) ->
  decodePqHealingSnapshot snap (m_suite m) (m_binding m) = Ok (validated_of m).
Proof.
  intros Hm H. unfold snapshot in H. mbinds H.
  unfold decodePqHealingSnapshot. rewrite (inv_suite m Hm). cbn.
  rewrite !(proj2 (requireBytes_ok _ _) (inv_binding m Hm)), (proj2 (requireBytes_ok _ _) (inv_root m Hm)),
    Z.eqb_refl, bytesEqual_refl. cbn.
  rewrite (proj2 (requireU64_ok _) (inv_epoch m Hm)), (proj2 (requireU64_ok _) (inv_local m Hm)),
    (proj2 (requireU64_ok _) (inv_remote m Hm)). cbn.
  rewrite (decodeSnapshotPhase_ok m Hm). cbn [mbind result_bind].
  destruct (decodeLast_ok m Hm) as [H1 H2]. rewrite H1. cbn [mbind result_bind].
  rewrite H2. cbn [mbind result_bind].
  change ((validateSnapshotState (validated_of m);; Ok (validated_of m)) = Ok (validated_of m)).
  by rewrite (validate_ok m Hm).
Qed.

Lemma restore_snapshot m snap : machine_inv m -> ready m -> snapshot m = (Ok snap, m) ->
  restore snap (m_suite m) (m_binding m) = Ok m.
Proof.
  intros Hm [Hd Hb] Hs. unfold restore. rewrite (decodePqHealingSnapshot_ok m snap Hm Hs). cbn.
  rewrite new_machine_ok; [|apply Hm..]. cbn. destruct m; cbn in *. by subst.
Qed.

Lemma clone_ready m : machine_inv m -> ready m -> clone m = (Ok m, m).
Proof.
  intros Hm Hr. destruct (snapshot m) as [[snap|e] m'] eqn:Hs; cycle 1.
  { unfold snapshot, mbind, M_bind in Hs. by rewrite assertSynchronous_ready in Hs by apply Hr. }
  assert (m' = m) as -> by (unfold snapshot in Hs; by mbinds Hs).
  unfold clone, mbind, M_bind. rewrite Hs. unfold get_this, lift.
  by rewrite (restore_snapshot m snap Hm Hr Hs).
Qed.

(** Cloning, that is restoring a machine from its own snapshot, succeeds on
    every machine that satisfies its invariant and is not busy, in every phase
    of the exchange, and gives an equal machine. *)
Theorem clone_is_identity m : machine_inv m -> ready m -> clone m = (Ok m, m).
Proof. apply clone_ready. Qed.

Lemma decodeSnapshotPhase_inv s suite b p :
  decodeSnapshotPhase s suite b = Ok p -> snapshotPhase p = s.
Proof.
  intros H. destruct s; cbn [decodeSnapshotPhase] in H; binds H; subst p; cbn; try done;
    try match goal with
    | E : decodeOffer _ _ _ = Ok _ |- _ =>
        destruct (decodeOffer_length _ _ _ _ E) as (_ & -> & _)
    | E : decodeAdvance _ _ _ = Ok _ |- _ =>
        destruct (decodeAdvance_length _ _ _ _ E) as (_ & ->)
    end; done.
Qed.

(** A machine is only restored from a snapshot of the same suite and the
    same authenticated edge, and the restored machine snapshots back to
    exactly the snapshot it came from. *)
Theorem restore_is_faithful snap suite binding m :
  restore snap suite binding = Ok m ->
  s_parameterSet snap = parameterSet suite /\ s_binding snap = binding /\
  snapshot m = (Ok snap, m).
Proof.
  unfold restore, decodePqHealingSnapshot, new_machine. intros H. binds H. binds E. binds E0.
  subst x x0 m. cbn in *. rewrite check_ok in E3, E4, E6. apply Z.eqb_eq in E3, E4.
  apply bytesEqual_spec in E6. split_and!; [done..|].
  apply decodeSnapshotPhase_inv in E11.
  assert (offer_bytes <$> x2 = s_lastInboundOffer snap) as H1.
  { unfold decodeLastOffer in E12. destruct (s_lastInboundOffer snap); [|by simplify_eq].
    binds E12. subst x2. cbn. f_equal. by match goal with E : decodeOffer _ _ _ = Ok _ |- _ => apply decodeOffer_length in E as (_ & ? & _) end. }
  assert (advance_bytes <$> x3 = s_lastInboundAdvance snap) as H2.
  { unfold decodeLastAdvance in E13. destruct (s_lastInboundAdvance snap); [|by simplify_eq].
    binds E13. subst x3. cbn. f_equal. by match goal with E : decodeAdvance _ _ _ = Ok _ |- _ => apply decodeAdvance_length in E as (_ & ?) end. }
  unfold snapshot, mbind, M_bind, get_this. rewrite assertSynchronous_ready by done.
  cbn. rewrite E11, H1, H2, <- E4. unfold mret, M_ret. destruct snap; cbn in *. by subst.
Qed.
End Roundtrip.
