(* ===== verification/PqProtocol.v ===== *)
(** * Two healing machines over an unreliable channel

    The two ends of one edge.  Every record an end has dispatched stays
    available to its peer for ever: the channel may lose, delay, reorder and
    replay, and the frame layer ([PqFrame]) excludes forgery.  The invariant
    [linked] relates the two machines at every point of an exchange; it gives
    agreement on the epoch roots and recovery from every reachable state. *)

From S2P Require Import Prelude Bytes Crypto MlKem PqRecord PqMachine PqInvariant PqSafety.
From stdpp Require Import relations.
Local Open Scope Z_scope.

Inductive msg :=
  | MOffer (record : bytes)
  | MAdvance (record : bytes)
  | MAck (acknowledgement : PqHealingAdvanceAcknowledgement).

(** One end: its machine and everything it has dispatched. *)
Record node := Node { nm : machine; nsent : list msg }.

Section Protocol.
Context {C : LibCrypto} {B : MlKemBackend}.
Implicit Types (m : machine) (x y p q : node).

(** One call of [x] that returned, in the order the runtime makes them: an
    OFFER is marked before it leaves, an ADVANCE leaves when it has been
    committed, an ACK when the accepted ADVANCE has. *)
Inductive act (x y : node) : node -> Prop :=
  | act_prepareOffer coins r m' :
      prepareOffer coins (nm x) = (Ok r, m') -> act x y (Node m' (nsent x))
  | act_abortUnsentOffer m' :
      abortUnsentOffer (nm x) = (Ok tt, m') -> act x y (Node m' (nsent x))
  | act_dispatchOffer r m1 m' :
      copyPendingOutboundRecord (nm x) = (Ok r, m1) ->
      markOfferDispatched m1 = (Ok tt, m') -> act x y (Node m' (MOffer r :: nsent x))
  | act_acceptOffer r m' :
      MOffer r ∈ nsent y ->
      acceptAuthenticatedOffer r (nm x) = (Ok tt, m') -> act x y (Node m' (nsent x))
  | act_prepareAdvance coins r m' :
      prepareAdvance coins (nm x) = (Ok r, m') -> act x y (Node m' (nsent x))
  | act_commitPreparedAdvance r m' :
      commitPreparedAdvance (nm x) = (Ok r, m') -> act x y (Node m' (MAdvance r :: nsent x))
  | act_acceptAdvance r m' :
      MAdvance r ∈ nsent y ->
      acceptAuthenticatedAdvance r (nm x) = (Ok tt, m') -> act x y (Node m' (nsent x))
  | act_commitAcceptedAdvance k m' :
      commitAcceptedAdvance (nm x) = (Ok k, m') -> act x y (Node m' (MAck k :: nsent x))
  | act_markAckDispatched k m' :
      markAdvanceAcknowledgementDispatched k (nm x) = (Ok tt, m') ->
      act x y (Node m' (nsent x))
  | act_acceptAck k m' :
      MAck k ∈ nsent y ->
      acceptAuthenticatedAdvanceAcknowledgement k (nm x) = (Ok tt, m') ->
      act x y (Node m' (nsent x)).

Inductive wstep : node * node -> node * node -> Prop :=
  | wstep_l x y x' : act x y x' -> wstep (x, y) (x', y)
  | wstep_r x y y' : act y x y' -> wstep (x, y) (x, y').

(** ** Calls run to completion *)

Lemma set_phase_unbusy m ph : m_busy m = false ->
  set_busy false (set_phase ph (set_busy true m)) = set_phase ph m.
Proof. destruct m. cbn. by intros ->. Qed.

Lemma prepareOffer_ok coins m r m' : prepareOffer coins m = (Ok r, m') ->
  exists kp o, ready m /\ m_phase m = Idle /\ m_nextOfferer m = local /\ can_start m /\
    generateKeyPair coins = Some kp /\
    blen (kp_secret kp) = secretKeyBytes (m_suite m) /\
    encodeOffer (m_suite m) (m_binding m) (m_localCounter m) (m_epoch m)
      (kp_public kp) = Ok r /\
    decodeOffer r (m_suite m) (Some (m_binding m)) = Ok o /\
    m' = set_phase (OutboundOffer false o kp) m.
Proof.
  unfold prepareOffer. intros H. mbinds H.
  apply prepareOffer_start_ok in E as (Hr & ? & ? & ? & ->).
  apply prepareOffer_resume_ok in H as (kp & o & Hg & _ & _ & ? & ? & ? & ->).
  rewrite set_phase_unbusy by apply Hr. eauto 12.
Qed.

Lemma prepareAdvance_ok coins m r m' : prepareAdvance coins m = (Ok r, m') ->
  exists o ct ss a root, ready m /\ m_phase m = InboundOffer o /\
    encapsulate coins (publicKey o) = Some (ct, ss) /\
    blen ss = sharedSecretBytes (m_suite m) /\
    encodeAdvance (m_suite m) (m_binding m) (m_localCounter m) o ct = Ok r /\
    decodeAdvance r (m_suite m) (Some (m_binding m)) = Ok a /\
    deriveNextRoot (m_rootKey m) ss r = Ok root /\
    m' = set_phase (OutboundAdvancePrepared o a root) m.
Proof.
  unfold prepareAdvance. intros H. mbinds H.
  apply prepareAdvance_start_ok in E as (Hr & ? & _ & ->).
  apply prepareAdvance_resume_ok in H as (ct & ss & a & root & ? & _ & ? & ? & ? & ? & ->).
  rewrite set_phase_unbusy by apply Hr. eexists _, ct, ss, a, root. eauto 12.
Qed.

Lemma acceptAdvance_ok r m m' : acceptAuthenticatedAdvance r m = (Ok tt, m') ->
  exists d o kp ss root, ready m /\
    decodeAdvance r (m_suite m) (Some (m_binding m)) = Ok d /\
    m_phase m = OutboundOffer true o kp /\
    senderCounter (advance_header d) = m_remoteCounter m /\
    fromEpoch (advance_header d) = m_epoch m /\
    offer_bytes (advance_offer d) = offer_bytes o /\
    decapsulate (ciphertext d) (kp_secret kp) = Some ss /\
    deriveNextRoot (m_rootKey m) ss (advance_bytes d) = Ok root /\
    m' = set_phase (InboundAdvancePrepared o d kp root) m.
Proof.
  unfold acceptAuthenticatedAdvance. intros H. mbinds H.
  apply acceptAuthenticatedAdvance_start_ok in E
    as (d & o & kp & -> & Hr & ? & ? & ? & ? & ? & ->).
  apply acceptAuthenticatedAdvance_resume_ok in H as (ss & root & ? & _ & ? & ->).
  rewrite set_phase_unbusy by apply Hr. exists d, o, kp, ss, root. eauto 12.
Qed.

Lemma copyPending_offer m r m1 a m' :
  copyPendingOutboundRecord m = (Ok r, m1) -> markOfferDispatched m1 = (Ok a, m') ->
  ready m /\ exists o kp, m_phase m = OutboundOffer false o kp /\ r = offer_bytes o /\
    m' = set_phase (OutboundOffer true o kp) m.
Proof.
  unfold copyPendingOutboundRecord. intros H Hd. mbinds H.
  assert (m1 = m) as -> by (destruct (m_phase m); by inversion H).
  apply markOfferDispatched_ok in Hd as (Hr & o & kp & Hp & ->). rewrite Hp in H.
  injection H as <-. split; [done|]. by exists o, kp.
Qed.

(** ** The invariant of one end *)

Definition generated (kp : MlKemKeyPair) : Prop := exists coins, generateKeyPair coins = Some kp.

Definition phase_keys m : Prop :=
  match m_phase m with
  | OutboundOffer _ _ kp | InboundAdvancePrepared _ _ kp _ => generated kp
  | _ => True
  end.

(** An OFFER with the current counter is the one being offered. *)
Definition current_offer m (o : DecodedOffer) : Prop :=
  exists kp, m_phase m = OutboundOffer true o kp \/
    exists a root, m_phase m = InboundAdvancePrepared o a kp root.

(** What the dispatched records say about the machine. *)
Definition sent_inv m (s : msg) : Prop :=
  match s with
  | MOffer r => exists o,
      decodeOffer r (m_suite m) (Some (m_binding m)) = Ok o /\
      senderCounter (offer_header o) <= m_localCounter m /\
      (senderCounter (offer_header o) = m_localCounter m -> current_offer m o)
  | MAdvance r => exists d,
      decodeAdvance r (m_suite m) (Some (m_binding m)) = Ok d /\
      senderCounter (advance_header d) < m_localCounter m /\
      (forall o a, m_phase m = OutboundAdvanceAwaitingAck o a ->
         senderCounter (advance_header d) + 1 = m_localCounter m -> d = a)
  | MAck k => ack_epoch k <= m_epoch m
  end.

(** The records in flight have been dispatched. *)
Definition outbox_inv (x : node) : Prop :=
  match m_phase (nm x) with
  | OutboundOffer true o _ | InboundAdvancePrepared o _ _ _ => MOffer (offer_bytes o) ∈ nsent x
  | OutboundAdvanceAwaitingAck _ a => MAdvance (advance_bytes a) ∈ nsent x
  | InboundAdvanceAwaitingAckDispatch d =>
      MAck {| ack_epoch := toEpoch (advance_header d);
              advanceCounter := senderCounter (advance_header d) |} ∈ nsent x
  | _ => True
  end.

Record node_inv x : Prop := {
  ni_machine : machine_inv (nm x);
  ni_ready : ready (nm x);
  ni_keys : phase_keys (nm x);
  ni_sent s : s ∈ nsent x -> sent_inv (nm x) s;
  ni_outbox : outbox_inv x;
}.

(** A change of phase that keeps the counters. *)
Lemma sent_inv_phase m ph s :
  (forall o, current_offer m o -> current_offer (set_phase ph m) o) ->
  (forall o a, ph <> OutboundAdvanceAwaitingAck o a) ->
  sent_inv m s -> sent_inv (set_phase ph m) s.
Proof.
  intros Hc Ha. destruct s; cbn.
  - intros (o & ? & ? & ?). exists o. eauto.
  - intros (d & ? & ? & _). exists d. split_and!; try done. intros o a Hp. by edestruct Ha.
  - done.
Qed.

Lemma node_inv_phase x ph : node_inv x ->
  machine_inv (set_phase ph (nm x)) -> phase_keys (set_phase ph (nm x)) ->
  (forall o, current_offer (nm x) o -> current_offer (set_phase ph (nm x)) o) ->
  (forall o a, ph <> OutboundAdvanceAwaitingAck o a) ->
  outbox_inv (Node (set_phase ph (nm x)) (nsent x)) ->
  node_inv (Node (set_phase ph (nm x)) (nsent x)).
Proof.
  intros Hx ? ? ? ? ?. split; try done.
  - apply Hx.
  - intros s Hs. by apply sent_inv_phase, Hx.
Qed.

(** A change of phase from one in which no OFFER is current. *)
Lemma no_current_offer m : (forall b o kp, m_phase m <> OutboundOffer b o kp) ->
  (forall o a kp root, m_phase m <> InboundAdvancePrepared o a kp root) ->
  forall o, ~ current_offer m o.
Proof. intros H1 H2 o (kp & [H|(a & root & H)]); naive_solver. Qed.

(** The counters moved on: nothing sent before is current. *)
Lemma sent_inv_commit m m' s : same_edge m m' -> m_epoch m <= m_epoch m' ->
  m_localCounter m' = m_localCounter m + 1 -> sent_inv m s -> sent_inv m' s.
Proof.
  intros (Hs & Hb & _) He Hl. destruct s; cbn; rewrite ?Hs, ?Hb.
  - intros (o & ? & ? & _). exists o. split_and!; [done|lia|lia].
  - intros (d & ? & ? & _). exists d. split_and!; [done|lia|]. lia.
  - lia.
Qed.

Ltac no_current := intros ? []%no_current_offer; congruence.
Ltac phase_of Hx Hp := phase_facts (ni_machine _ Hx) Hp.

Lemma act_idle_inv x : node_inv x ->
  (forall b o kp, m_phase (nm x) = OutboundOffer b o kp -> b = false) ->
  (forall o a kp root, m_phase (nm x) <> InboundAdvancePrepared o a kp root) ->
  node_inv (Node (set_phase Idle (nm x)) (nsent x)).
Proof.
  intros Hx H1 H2. apply node_inv_phase; try done.
  - apply to_idle_inv, Hx.
  - intros o (kp & [H|(a & root & H)]); [by apply H1 in H|by apply H2 in H].
Qed.

Lemma prepareOffer_node x coins r m' : node_inv x ->
  prepareOffer coins (nm x) = (Ok r, m') -> node_inv (Node m' (nsent x)).
Proof.
  intros Hx H. apply prepareOffer_ok in H as (kp & o & _ & Hp & Hn & Hcs & Hg & Hsk & He & Hd & ->).
  destruct (prepared_offer_wf _ _ _ _ (ni_machine _ Hx) He Hd) as (? & ? & ? & ?).
  apply node_inv_phase; try done.
  - apply machine_inv_set_phase; [apply Hx|]. unfold phase_inv, keypair_wf. cbn. by split_and!.
  - by exists coins.
  - no_current.
Qed.

Lemma dispatchOffer_node x r m1 m' : node_inv x ->
  copyPendingOutboundRecord (nm x) = (Ok r, m1) -> markOfferDispatched m1 = (Ok tt, m') ->
  node_inv (Node m' (MOffer r :: nsent x)).
Proof.
  intros Hx Hc Hd. destruct (copyPending_offer _ _ _ _ _ Hc Hd) as (Hr & o & kp & Hp & -> & ->).
  phase_of Hx Hp. destruct Hph as (Ho & Hkp & Hn & Hl & Hf & Hcs).
  pose proof (ni_keys _ Hx) as Hk. unfold phase_keys in Hk. rewrite Hp in Hk.
  split; try done; cbn.
  - apply machine_inv_set_phase; [apply Hx|done].
  - intros s [->|Hs]%elem_of_cons.
    + exists o. split_and!; [done|cbn;lia|]. intros _. exists kp. by left.
    + apply sent_inv_phase; [|done|by apply Hx].
      intros o' (kp' & [H|(a & root & H)]); congruence.
  - unfold outbox_inv. cbn. set_solver.
Qed.

Lemma acceptOffer_node x r m' : node_inv x ->
  acceptAuthenticatedOffer r (nm x) = (Ok tt, m') -> node_inv (Node m' (nsent x)).
Proof.
  intros Hx H. apply acceptAuthenticatedOffer_ok in H as (o & Hr & Hd & Hp & Hn & Hc & Hf & Hcs & ->).
  apply node_inv_phase; try done; [|no_current].
  eapply effect_inv; [apply Hx|by eapply eff_accepted_offer|apply Hr].
Qed.

Lemma prepareAdvance_node x coins r m' : node_inv x ->
  prepareAdvance coins (nm x) = (Ok r, m') -> node_inv (Node m' (nsent x)).
Proof.
  intros Hx H. apply prepareAdvance_ok in H
    as (o & ct & ss & a & root & Hr & Hp & _ & _ & He & Hd & Hroot & ->).
  phase_of Hx Hp. destruct Hph as (Ho & Hn & Hc & Hf & Hcs).
  destruct (prepared_advance_wf _ _ _ _ _ (ni_machine _ Hx) Ho He Hd) as (? & ? & ? & ? & ? & ? & ?).
  apply deriveNextRoot_length in Hroot.
  apply node_inv_phase; try done; [|no_current].
  apply machine_inv_set_phase; [apply Hx|]. unfold phase_inv. cbn. split_and!; done || lia.
Qed.

Lemma commitPrepared_node x r m' : node_inv x ->
  commitPreparedAdvance (nm x) = (Ok r, m') -> node_inv (Node m' (MAdvance r :: nsent x)).
Proof.
  intros Hx H. pose proof (commitPreparedAdvance_inv _ _ _ (ni_machine _ Hx) H) as Hm'.
  apply commitPreparedAdvance_ok in H as (Hr & o & a & root & Hp & _ & -> & Heq).
  phase_of Hx Hp. destruct Hph as (Ha & -> & Hn & Hl & _ & Hf & _).
  destruct (advance_wf_facts _ _ (ni_machine _ Hx) Ha) as (_ & _ & Ht).
  split; try done; cbn; subst m'; try done.
  - intros s [->|Hs]%elem_of_cons.
    + exists a. cbn. split_and!; [done|lia|]. by intros ? ? [= _ <-].
    + eapply sent_inv_commit; [..|by apply Hx]; cbn; [split_and!; try done; apply Hr|lia|done].
  - unfold outbox_inv. cbn. set_solver.
Qed.

Lemma acceptAdvance_node x r m' : node_inv x ->
  acceptAuthenticatedAdvance r (nm x) = (Ok tt, m') -> node_inv (Node m' (nsent x)).
Proof.
  intros Hx H. apply acceptAdvance_ok in H
    as (d & o & kp & ss & root & Hr & Hd & Hp & Hc & Hf & Hob & Hss & Hroot & ->).
  phase_of Hx Hp. destruct Hph as (Hwo' & Hkp & Hn & Hl & _ & Hcs).
  destruct (decodeAdvance_facts _ _ _ (ni_machine _ Hx) Hd) as (Hwf & _ & Hwo & _).
  assert (o = advance_offer d) as -> by (unfold offer_wf in *; congruence).
  pose proof (ni_keys _ Hx) as Hk. unfold phase_keys in Hk. rewrite Hp in Hk.
  pose proof (ni_outbox _ Hx) as Hob'. unfold outbox_inv in Hob'. rewrite Hp in Hob'.
  apply deriveNextRoot_length in Hroot. apply node_inv_phase; try done.
  - apply machine_inv_set_phase; [apply Hx|]. unfold phase_inv. cbn. by split_and!.
  - intros o (kp' & [H|(a & root' & H)]); [|congruence].
    exists kp. right. exists d, root. cbn. congruence.
Qed.

Lemma commitAccepted_node x k m' : node_inv x ->
  commitAcceptedAdvance (nm x) = (Ok k, m') -> node_inv (Node m' (MAck k :: nsent x)).
Proof.
  intros Hx H. pose proof (commitAcceptedAdvance_inv _ _ _ (ni_machine _ Hx) H) as Hm'.
  apply commitAcceptedAdvance_ok in H as (Hr & o & a & kp & root & Hp & _ & -> & Heq).
  phase_of Hx Hp. destruct Hph as (Ha & -> & _ & Hn & _ & _ & Hf & _).
  destruct (advance_wf_facts _ _ (ni_machine _ Hx) Ha) as (_ & _ & Ht).
  split; try done; cbn; subst m'; try done.
  - intros s [->|Hs]%elem_of_cons; [cbn; lia|].
    eapply sent_inv_commit; [..|by apply Hx]; cbn; [split_and!; try done; apply Hr|lia|done].
  - unfold outbox_inv. cbn. set_solver.
Qed.

Lemma act_node_inv x y x' : node_inv x -> act x y x' -> node_inv x'.
Proof.
  intros Hx Ha. destruct Ha as [coins r m' H|m' H|r m1 m' Hc H|r m' Hin H|coins r m' H
    |r m' H|r m' Hin H|k m' H|k m' H|k m' Hin H].
  - by eapply prepareOffer_node.
  - apply abortUnsentOffer_ok in H as (_ & (o & kp & Hp) & ->). apply act_idle_inv; [done|congruence..].
  - by eapply dispatchOffer_node.
  - by eapply acceptOffer_node.
  - by eapply prepareAdvance_node.
  - by eapply commitPrepared_node.
  - by eapply acceptAdvance_node.
  - by eapply commitAccepted_node.
  - apply markAckDispatched_ok in H as (_ & d & Hp & _ & _ & ->). apply act_idle_inv; [done|congruence..].
  - apply acceptAck_ok in H as (_ & o & d & Hp & _ & _ & ->). apply act_idle_inv; [done|congruence..].
Qed.

(** ** How the two ends are related *)

Definition ack_of (a : DecodedAdvance) : PqHealingAdvanceAcknowledgement :=
  {| ack_epoch := toEpoch (advance_header a);
     advanceCounter := senderCounter (advance_header a) |}.

(** [next] is the root that the ADVANCE [a] answering [o] leads to. *)
Definition leads_to (suite : MlKemSuiteDescriptor) (root : bytes) (o : DecodedOffer)
    (a : DecodedAdvance) (next : bytes) : Prop :=
  exists coins ss, encapsulate coins (publicKey o) = Some (ciphertext a, ss) /\
    blen ss = sharedSecretBytes suite /\
    deriveNextRoot root ss (advance_bytes a) = Ok next.

(** Both ends are in the same epoch; [p] offers next. *)
Record synced p q : Prop := {
  sy_p : m_nextOfferer (nm p) = local;
  sy_q : m_nextOfferer (nm q) = remote;
  sy_epoch : m_epoch (nm p) = m_epoch (nm q);
  sy_root : m_rootKey (nm p) = m_rootKey (nm q);
  sy_pq : m_localCounter (nm p) = m_remoteCounter (nm q);
  sy_qp : m_remoteCounter (nm p) = m_localCounter (nm q);
  sy_phase :
    match m_phase (nm q) with
    | InboundOffer o => exists kp, m_phase (nm p) = OutboundOffer true o kp
    | OutboundAdvancePrepared o a root =>
        (exists kp, m_phase (nm p) = OutboundOffer true o kp) /\
        leads_to (m_suite (nm q)) (m_rootKey (nm q)) o a root
    | _ =>
        match m_phase (nm p) with
        | InboundAdvancePrepared _ _ _ _ => False
        | OutboundAdvanceAwaitingAck _ a => MAck (ack_of a) ∈ nsent q
        | _ => True
        end
    end;
}.

(** The answerer [q] has committed the next epoch, the offerer [p] has not. *)
Record half p q : Prop := {
  ha_epoch : m_epoch (nm q) = m_epoch (nm p) + 1;
  ha_qp : m_localCounter (nm q) = m_remoteCounter (nm p) + 1;
  ha_pq : m_remoteCounter (nm q) = m_localCounter (nm p) + 1;
  ha_phase : exists o a kp, m_phase (nm q) = OutboundAdvanceAwaitingAck o a /\
    leads_to (m_suite (nm q)) (m_rootKey (nm p)) o a (m_rootKey (nm q)) /\
    (m_phase (nm p) = OutboundOffer true o kp \/
     m_phase (nm p) = InboundAdvancePrepared o a kp (m_rootKey (nm q)));
}.

Definition same_config p q : Prop :=
  m_suite (nm q) = m_suite (nm p) /\ m_binding (nm q) = m_binding (nm p).

Definition related p q : Prop := synced p q \/ half p q.
Definition linked x y : Prop := related x y \/ related y x.

Record world_inv x y : Prop := {
  wi_l : node_inv x;
  wi_r : node_inv y;
  wi_config : same_config x y;
  wi_linked : linked x y;
}.

Lemma world_inv_sym x y : world_inv x y -> world_inv y x.
Proof. intros [? ? [? ?] [?|?]]; split; try done; [by right|by left]. Qed.

Lemma act_config x y x' : act x y x' ->
  m_suite (nm x') = m_suite (nm x) /\ m_binding (nm x') = m_binding (nm x).
Proof.
  destruct 1 as [coins r m' H|m' H|r m1 m' Hc H|r m' Hin H|coins r m' H
    |r m' H|r m' Hin H|k m' H|k m' H|k m' Hin H]; cbn.
  - by apply prepareOffer_ok in H as (? & ? & ? & ? & ? & ? & ? & ? & ? & ? & ->).
  - by apply abortUnsentOffer_ok in H as (? & ? & ->).
  - by destruct (copyPending_offer _ _ _ _ _ Hc H) as (? & ? & ? & ? & ? & ->).
  - by apply acceptAuthenticatedOffer_ok in H as (? & ? & ? & ? & ? & ? & ? & ? & ->).
  - by apply prepareAdvance_ok in H as (? & ? & ? & ? & ? & ? & ? & ? & ? & ? & ? & ? & ->).
  - by apply commitPreparedAdvance_ok in H as (? & ? & ? & ? & ? & ? & ? & ->).
  - by apply acceptAdvance_ok in H as (? & ? & ? & ? & ? & ? & ? & ? & ? & ? & ? & ? & ? & ->).
  - by apply commitAcceptedAdvance_ok in H as (? & ? & ? & ? & ? & ? & ? & ? & ->).
  - by apply markAckDispatched_ok in H as (? & ? & ? & ? & ? & ->).
  - by apply acceptAck_ok in H as (? & ? & ? & ? & ? & ? & ->).
Qed.

(** *** The end that offers next acts *)

Lemma synced_p p q p' : node_inv p -> node_inv q -> same_config p q ->
  synced p q -> act p q p' -> synced p' q.
Proof.
  intros Hp Hq Hc Hs Ha. pose proof (sy_phase _ _ Hs) as Hph.
  destruct Hs as [Hn ? ? ? ? Hqp _].
  destruct Ha as [coins r m' H|m' H|r m1 m' Hcp H|r m' Hin H|coins r m' H
    |r m' H|r m' Hin H|k m' H|k m' H|k m' Hin H].
  - apply prepareOffer_ok in H as (kp & o & _ & Hi & _ & _ & _ & _ & _ & _ & ->).
    rewrite Hi in Hph. split; try done. cbn. by destruct (m_phase (nm q)); destruct_and?; naive_solver.
  - apply abortUnsentOffer_ok in H as (_ & (o & kp & Hi) & ->).
    rewrite Hi in Hph. split; try done. cbn. by destruct (m_phase (nm q)); destruct_and?; naive_solver.
  - destruct (copyPending_offer _ _ _ _ _ Hcp H) as (_ & o & kp & Hi & _ & ->).
    rewrite Hi in Hph. split; try done. cbn. by destruct (m_phase (nm q)); destruct_and?; naive_solver.
  - apply acceptAuthenticatedOffer_ok in H as (? & _ & _ & _ & Hn' & _). congruence.
  - apply prepareAdvance_ok in H as (o & ct & ss & a & root & _ & Hi & _).
    phase_of Hp Hi. destruct Hph0 as (_ & Hn' & _). congruence.
  - apply commitPreparedAdvance_ok in H as (_ & o & a & root & Hi & _).
    phase_of Hp Hi. destruct Hph0 as (_ & _ & Hn' & _). congruence.
  - apply acceptAdvance_ok in H as (d & o & kp & ss & root & _ & Hd & _ & Hcnt & _).
    apply (ni_sent _ Hq) in Hin as (d' & Hd' & Hlt & _). destruct Hc as [Hc1 Hc2].
    rewrite Hc1, Hc2 in Hd'. assert (d' = d) as -> by congruence. lia.
  - apply commitAcceptedAdvance_ok in H as (_ & o & a & kp & root & Hi & _).
    rewrite Hi in Hph. by destruct (m_phase (nm q)); destruct_and?; naive_solver.
  - apply markAckDispatched_ok in H as (_ & d & Hi & _).
    phase_of Hp Hi. destruct Hph0 as (_ & Hn' & _). congruence.
  - apply acceptAck_ok in H as (_ & o & d & Hi & _ & _ & ->).
    rewrite Hi in Hph. split; try done. cbn. by destruct (m_phase (nm q)); destruct_and?; naive_solver.
Qed.

(** *** The other end acts *)

Lemma synced_q p q q' : node_inv p -> node_inv q -> same_config p q ->
  synced p q -> act q p q' -> related p q'.
Proof.
  intros Hp Hq Hc Hs Ha. pose proof (sy_phase _ _ Hs) as Hph.
  destruct Hs as [? Hn ? Hroot Hpq ? _].
  destruct Ha as [coins r m' H|m' H|r m1 m' Hcp H|r m' Hin H|coins r m' H
    |r m' H|r m' Hin H|k m' H|k m' H|k m' Hin H].
  - apply prepareOffer_ok in H as (kp & o & _ & _ & Hn' & _). congruence.
  - apply abortUnsentOffer_ok in H as (_ & (o & kp & Hi) & _).
    phase_of Hq Hi. destruct Hph0 as (_ & _ & Hn' & _). congruence.
  - destruct (copyPending_offer _ _ _ _ _ Hcp H) as (_ & o & kp & Hi & _ & _).
    phase_of Hq Hi. destruct Hph0 as (_ & _ & Hn' & _). congruence.
  - apply acceptAuthenticatedOffer_ok in H as (o & _ & Hd & Hi & _ & Hcnt & _ & _ & ->).
    apply (ni_sent _ Hp) in Hin as (o' & Hd' & _ & Hcur). destruct Hc as [Hc1 Hc2].
    rewrite Hc1, Hc2 in Hd. assert (o' = o) as -> by congruence.
    rewrite Hi in Hph. left. split; try done. cbn.
    destruct Hcur as (kp & [Hcur|(a & root & Hcur)]); [lia|by exists kp|by rewrite Hcur in Hph].
  - apply prepareAdvance_ok in H as (o & ct & ss & a & root & _ & Hi & Hss & Hlen & He & Hd & Hnext & ->).
    rewrite Hi in Hph. phase_of Hq Hi. destruct Hph0 as (Ho & _).
    destruct (prepared_advance_wf _ _ _ _ _ (ni_machine _ Hq) Ho He Hd) as (_ & _ & Hb & Hct & _).
    left. split; try done. cbn. split; [done|]. exists coins, ss. by rewrite Hb, Hct.
  - apply commitPreparedAdvance_ok in H as (_ & o & a & root & Hi & _ & _ & ->).
    rewrite Hi in Hph. destruct Hph as ((kp & Hpp) & Hlead). phase_of Hq Hi.
    destruct Hph as (Ha & _ & _ & _ & _ & Hf & _).
    destruct (advance_wf_facts _ _ (ni_machine _ Hq) Ha) as (_ & _ & Ht).
    right. split; cbn; [lia|lia|lia|]. exists o, a, kp. rewrite Hroot. auto.
  - apply acceptAdvance_ok in H as (d & o & kp & ss & root & _ & _ & Hi & _).
    phase_of Hq Hi. destruct Hph0 as (_ & _ & Hn' & _). congruence.
  - apply commitAcceptedAdvance_ok in H as (_ & o & a & kp & root & Hi & _).
    phase_of Hq Hi. destruct Hph0 as (_ & _ & _ & Hn' & _). congruence.
  - apply markAckDispatched_ok in H as (_ & d & Hi & _ & _ & ->).
    rewrite Hi in Hph. left. by split.
  - apply acceptAck_ok in H as (_ & o & d & Hi & _).
    phase_of Hq Hi. destruct Hph0 as (_ & _ & Hn' & _). congruence.
Qed.

(** *** The offerer catches up *)

Lemma half_p `{!MlKemCorrect B} p q p' : node_inv p -> node_inv q -> same_config p q ->
  half p q -> act p q p' -> half p' q \/ synced q p'.
Proof.
  intros Hp Hq Hc [He Hqp Hpq (o & a & kp & Hi & Hlead & Hpp)] Ha.
  destruct Ha as [coins r m' H|m' H|r m1 m' Hcp H|r m' Hin H|coins r m' H
    |r m' H|r m' Hin H|k m' H|k m' H|k m' Hin H].
  - apply prepareOffer_ok in H as (? & ? & _ & ? & _). destruct Hpp; congruence.
  - apply abortUnsentOffer_ok in H as (_ & (? & ? & ?) & _). destruct Hpp; congruence.
  - destruct (copyPending_offer _ _ _ _ _ Hcp H) as (_ & ? & ? & ? & _). destruct Hpp; congruence.
  - apply acceptAuthenticatedOffer_ok in H as (? & _ & _ & ? & _). destruct Hpp; congruence.
  - apply prepareAdvance_ok in H as (? & ? & ? & ? & ? & _ & ? & _). destruct Hpp; congruence.
  - apply commitPreparedAdvance_ok in H as (_ & ? & ? & ? & ? & _). destruct Hpp; congruence.
  - apply acceptAdvance_ok in H as (d & o' & kp' & ss & root & _ & Hd & Hpp' & Hcnt & _ & _ & Hss & Hroot & ->).
    destruct Hpp as [Hpp|Hpp]; [|congruence].
    assert (o' = o) as -> by congruence. assert (kp' = kp) as -> by congruence.
    apply (ni_sent _ Hq) in Hin as (d' & Hd' & _ & Hlast). destruct Hc as [Hc1 Hc2].
    rewrite Hc1, Hc2 in Hd'. assert (d' = d) as -> by congruence.
    rewrite (Hlast _ _ Hi) in * by lia.
    left. split; cbn; try done. exists o, a, kp. split_and!; try done. right. f_equal.
    destruct Hlead as (coins & ss' & Hen & _ & Hder).
    phase_of Hp Hpp. destruct Hph as (_ & [Hpk _] & _).
    pose proof (ni_keys _ Hp) as Hk. unfold phase_keys in Hk. rewrite Hpp in Hk.
    destruct Hk as (coins' & Hk). rewrite <- Hpk in Hen.
    rewrite (decapsulate_encapsulate _ _ _ _ _ Hk Hen) in Hss.
    assert (ss' = ss) as -> by congruence. congruence.
  - apply commitAcceptedAdvance_ok in H as (_ & o' & a' & kp' & root & Hpp' & _ & -> & ->).
    destruct Hpp as [Hpp|Hpp]; [congruence|]. rewrite Hpp in Hpp'. injection Hpp' as <- <- <- <-.
    phase_of Hq Hi. phase_of Hp Hpp. right.
    destruct Hph as (Ha & _ & Hn & _ & _ & Ht & _). destruct Hph0 as (Ha' & _ & _ & _ & _ & _ & Hf & _).
    destruct (advance_wf_facts _ _ (ni_machine _ Hp) Ha') as (_ & _ & Ht').
    split; cbn; try done; try lia. rewrite Hi. set_solver.
  - apply markAckDispatched_ok in H as (_ & ? & ? & _). destruct Hpp; congruence.
  - apply acceptAck_ok in H as (_ & ? & ? & ? & _). destruct Hpp; congruence.
Qed.

Lemma half_q p q q' : node_inv p -> half p q -> act q p q' -> False.
Proof.
  intros Hp [He Hqp Hpq (o & a & kp & Hi & _ & _)] Ha.
  destruct Ha as [coins r m' H|m' H|r m1 m' Hcp H|r m' Hin H|coins r m' H
    |r m' H|r m' Hin H|k m' H|k m' H|k m' Hin H].
  - apply prepareOffer_ok in H as (? & ? & _ & ? & _). congruence.
  - apply abortUnsentOffer_ok in H as (_ & (? & ? & ?) & _). congruence.
  - destruct (copyPending_offer _ _ _ _ _ Hcp H) as (_ & ? & ? & ? & _). congruence.
  - apply acceptAuthenticatedOffer_ok in H as (? & _ & _ & ? & _). congruence.
  - apply prepareAdvance_ok in H as (? & ? & ? & ? & ? & _ & ? & _). congruence.
  - apply commitPreparedAdvance_ok in H as (_ & ? & ? & ? & ? & _). congruence.
  - apply acceptAdvance_ok in H as (? & ? & ? & ? & ? & _ & _ & ? & _). congruence.
  - apply commitAcceptedAdvance_ok in H as (_ & ? & ? & ? & ? & ? & _). congruence.
  - apply markAckDispatched_ok in H as (_ & ? & ? & _). congruence.
  - apply acceptAck_ok in H as (_ & ? & ? & _ & Hk & _).
    apply (ni_sent _ Hp) in Hin. cbn in Hin. lia.
Qed.

Lemma act_world_inv `{!MlKemCorrect B} x y x' :
  world_inv x y -> act x y x' -> world_inv x' y.
Proof.
  intros [Hx Hy [Hs Hb] Hl] Ha. destruct (act_config _ _ _ Ha) as [Hs' Hb'].
  split; [exact (act_node_inv _ _ _ Hx Ha)|done|split; congruence|].
  assert (same_config x y) as Hc by (by split). assert (same_config y x) as Hc' by (by split).
  destruct Hl as [[Hl|Hl]|[Hl|Hl]].
  - left. left. exact (synced_p _ _ _ Hx Hy Hc Hl Ha).
  - destruct (half_p _ _ _ Hx Hy Hc Hl Ha); [left; by right|right; by left].
  - right. exact (synced_q _ _ _ Hy Hx Hc' Hl Ha).
  - by destruct (half_q _ _ _ Hy Hl Ha).
Qed.

Lemma wstep_inv `{!MlKemCorrect B} w w' :
  world_inv w.1 w.2 -> wstep w w' -> world_inv w'.1 w'.2.
Proof.
  intros Hw Hs. destruct Hs; cbn in *; [by eapply act_world_inv|].
  by eapply world_inv_sym, act_world_inv; [apply world_inv_sym|].
Qed.

(** Both ends start a session idle, from the same handshake: the same suite,
    binding, root and epoch, opposite turns and crossed counters. *)
Definition winitial (w : node * node) : Prop :=
  exists suite binding root e l r mx my,
    new_machine suite binding root local e l r = Ok mx /\
    new_machine suite binding root remote e r l = Ok my /\
    (w = (Node mx [], Node my []) \/ w = (Node my [], Node mx [])).
Definition wreachable (w : node * node) : Prop := exists w0, winitial w0 /\ rtc wstep w0 w.

Lemma new_machine_fields suite binding root t e l r m :
  new_machine suite binding root t e l r = Ok m ->
  m = Machine suite binding root e l r t Idle None None false false.
Proof. unfold new_machine. intros H. by binds H. Qed.

Lemma new_node_inv suite binding root t e l r m :
  new_machine suite binding root t e l r = Ok m -> node_inv (Node m []).
Proof.
  intros H. pose proof (new_machine_inv _ _ _ _ _ _ _ _ H) as Hm.
  apply new_machine_fields in H as ->. split; try done. cbn. set_solver.
Qed.

Lemma winitial_inv w : winitial w -> world_inv w.1 w.2.
Proof.
  intros (suite & b & root & e & l & r & mx & my & Hx & Hy & Hw).
  assert (world_inv (Node mx []) (Node my [])) as Hi.
  { split; [by eapply new_node_inv..| |].
    - apply new_machine_fields in Hx as ->. by apply new_machine_fields in Hy as ->.
    - left. left. apply new_machine_fields in Hx as ->. apply new_machine_fields in Hy as ->. by split. }
  destruct Hw as [-> | ->]; [done|by apply world_inv_sym].
Qed.

Lemma wreachable_inv `{!MlKemCorrect B} w : wreachable w -> world_inv w.1 w.2.
Proof.
  intros (w0 & H0 & Hs). apply winitial_inv in H0.
  induction Hs; eauto using wstep_inv.
Qed.

Lemma related_agreement p q : related p q ->
  m_epoch (nm p) <= m_epoch (nm q) <= m_epoch (nm p) + 1 /\
  (m_epoch (nm p) = m_epoch (nm q) -> m_rootKey (nm p) = m_rootKey (nm q)) /\
  (trafficBlocked (nm p) = false \/ trafficBlocked (nm q) = false ->
   m_epoch (nm p) = m_epoch (nm q)).
Proof.
  intros [[]|[He _ _ (o & a & kp & Hq & _ & Hp)]]; [split_and!; done || lia|].
  split_and!; [lia|lia|lia|]. unfold trafficBlocked. rewrite Hq.
  destruct Hp as [-> | ->]; intros [[_ H]%orb_false_iff|[_ H]%orb_false_iff];
    rewrite negb_false_iff, bool_decide_eq_true in H; done.
Qed.

Lemma linked_agreement x y : linked x y ->
  Z.abs (m_epoch (nm x) - m_epoch (nm y)) <= 1 /\
  (m_epoch (nm x) = m_epoch (nm y) -> m_rootKey (nm x) = m_rootKey (nm y)) /\
  (trafficBlocked (nm x) = false \/ trafficBlocked (nm y) = false ->
   m_epoch (nm x) = m_epoch (nm y)).
Proof.
  intros [H|H]; apply related_agreement in H as (? & H1 & H2); split_and!; try lia; try done.
  - intros He. by rewrite H1.
  - intros Hb. symmetry. apply H2. tauto.
Qed.

(** C1. Two ends that start from one handshake and exchange records over a
    channel that loses, delays, reorders and replays: at every moment their
    epochs differ by at most one, in the same epoch they hold the same root,
    and whenever one of them lets application traffic through they are in the
    same epoch on the same root. *)
Theorem healing_roots_agree `{!MlKemCorrect B} x y :
  wreachable (x, y) ->
  Z.abs (m_epoch (nm x) - m_epoch (nm y)) <= 1 /\
  (m_epoch (nm x) = m_epoch (nm y) -> m_rootKey (nm x) = m_rootKey (nm y)) /\
  (trafficBlocked (nm x) = false \/ trafficBlocked (nm y) = false ->
   m_epoch (nm x) = m_epoch (nm y) /\ m_rootKey (nm x) = m_rootKey (nm y)).
Proof.
  intros Hw. apply wreachable_inv, wi_linked, linked_agreement in Hw as (? & Hr & Ht).
  split_and!; auto.
Qed.
End Protocol.
