(* ===== verification/Handshake.v ===== *)
(** * The handshake ([src/src/handlers/handshakeCore.ts])

    [performHandshakeCore] as an interactive function over its transport
    ([Proto]): the HELLO exchange, the hybrid root secret (interactive 3DH and
    ML-KEM, with CPace in rooms with a PIN), the bootstrap of the healing
    machine, and the three chained key confirmations around the bootstrap of the
    Double Ratchet.  Also [identityCrossSig.ts], [verify] of [ed25519.ts] and the
    helpers of [uint8array.ts].

    Randomness is drawn by the function; the record [HandshakeEntropy] holds the
    draws.  The secrets that the [finally] block wipes are local and are not
    returned; [initRatchet] copies the root secret, so wiping the ratchet's copy
    does not touch the secret that keys the confirmations.  [h] is the
    WebAssembly heap the ML-KEM backend works on. *)

From Stdlib Require Import String.
From S2P Require Import Prelude Bytes Constants Crypto Proto Cpace X25519 Ratchet RoomPolicy.
From S2P Require Import MlKem MlKemWasm PqRecord PqMachine.
Local Open Scope Z_scope.
Local Open Scope list_scope.

(** The module's Ed25519 verification (message, public key, signature) and
    WebCrypto's SHA-256. *)
Class IdentityModule := {
  _verify : bytes -> bytes -> bytes -> Z;
  subtle_digest_sha256 : bytes -> bytes;
}.

Definition crypto_sign_ed25519_BYTES : Z := 64.
Definition crypto_sign_ed25519_PUBLICKEYBYTES : Z := 32.
Definition PQ_TAG : bytes := [byte_of 1].
Definition IDENTITY_CROSS_SIGN_DOMAIN_BYTES : bytes := text "p2party-x25519-idsig-v1".

Inductive HandshakeError :=
  | HsTransport | HsBackend (e : KemError) | HsKem | HsCrypto (e : CryptoError) | HsCpace (e : CpaceError)
  | HsRatchet (e : RatchetError) | HsRange | HsPinRequired | HsNoScalar | HsHmacFailed
  | MalformedHello | HelloPublicKeyNotZero | HelloCiphertextMissing | HelloPublicKeyMissing
  | HelloCiphertextNotZero | CrossSignatureInvalid | MalformedConfirm | KeyConfirmationFailed
  | MalformedFinish | FinalConfirmationFailed.

(** ** Helpers *)

Definition concatUint8Arrays (arrays : list bytes) : bytes := concat arrays.
Definition uint8ArraysAreEqual (array1 array2 : bytes) : bool := bytesEqual array1 array2.
Definition allZero (b : bytes) : bool := or_all b =? 0.

Definition identityCrossSignMessage (x25519Pub : bytes) : bytes :=
  let msg := zeros (blen IDENTITY_CROSS_SIGN_DOMAIN_BYTES + blen x25519Pub) in
  bset (bset msg 0 IDENTITY_CROSS_SIGN_DOMAIN_BYTES) (blen IDENTITY_CROSS_SIGN_DOMAIN_BYTES) x25519Pub.

Definition pqTranscriptTag (mode : RoomPqMode) : bytes :=
  match mode with
  | hybrid_mlkem768 => PQ_TAG
  | hybrid_mlkem512 => [byte_of 2]
  | hybrid_mlkem1024 => [byte_of 3]
  end.

Record ChannelInputParams := {
  ci_channelId : bytes; ci_ikInitiator : bytes; ci_ikResponder : bytes;
  ci_fpInitiator : bytes; ci_fpResponder : bytes; ci_pqMode : RoomPqMode;
}.
Definition buildChannelInput (p : ChannelInputParams) : bytes :=
  concat [ci_channelId p; ci_ikInitiator p; ci_ikResponder p; ci_fpInitiator p; ci_fpResponder p;
          pqTranscriptTag (ci_pqMode p)].

Definition HS_STEP_HELLO : Z := 1.
Definition HS_STEP_CONFIRM : Z := 2.
Definition HS_STEP_FINISH : Z := 3.
Definition HS_KC_DOMAIN : bytes := text "p2party-v4-hs-kc-transcript-v4".
Definition HS_KC_RESPONDER_DOMAIN : bytes := text "p2party-v4-hs-kc-responder-v4".
Definition HS_KC_INITIATOR_DOMAIN : bytes := text "p2party-v4-hs-kc-initiator-ratchet-dh-v4".
Definition HS_KC_RESPONDER_FINISH_DOMAIN : bytes := text "p2party-v4-hs-kc-responder-finish-v4".
Definition hybridKdfDomain (mode : RoomAuthMode) (parameterSet : Z) : bytes :=
  match mode with
  | pin => text "p2party-v4-hybrid-root-cpace21-3dh-ml-kem-" ++ text (decimal parameterSet) ++ text "-v4"
  | nopin => text "p2party-v4-hybrid-root-3dh-ml-kem-" ++ text (decimal parameterSet) ++ text "-v4"
  end.
Definition HS_HYBRID_KDF_SALT : bytes := zeros 64.
Definition PQ_HEALING_ROOT_SALT : bytes := text "p2party-v4-pq-healing-extract-v1".
Definition PQ_HEALING_ROOT_INFO : bytes := text "p2party-v4-pq-healing-root-v1".
Definition PQ_HEALING_BINDING_DOMAIN : bytes := text "p2party-v4-pq-healing-binding-v1" ++ [byte_of 0].

Definition DH_LEN : Z := 32.
Definition SID_LEN : Z := 32.
Definition EK_LEN : Z := 32.
Definition Y_LEN : Z := 32.
Definition MAC_LEN : Z := 64.
Definition X25519_ID_PUB_LEN : Z := 32.
Definition IDENTITY_SIG_LEN : Z := 64.
Definition HELLO_SID_OFF : Z := 1.
Definition HELLO_EK_OFF : Z := HELLO_SID_OFF + SID_LEN.
Definition HELLO_Y_OFF : Z := HELLO_EK_OFF + EK_LEN.
Definition HELLO_X25519_ID_PUB_OFF : Z := HELLO_Y_OFF + Y_LEN.
Definition HELLO_IDENTITY_SIG_OFF : Z := HELLO_X25519_ID_PUB_OFF + X25519_ID_PUB_LEN.
Definition HELLO_ML_KEM_PUBLIC_KEY_OFF : Z := HELLO_IDENTITY_SIG_OFF + IDENTITY_SIG_LEN.
Definition CONFIRM_LEN : Z := 1 + DH_LEN + MAC_LEN.
Definition FINISH_LEN : Z := 1 + MAC_LEN.

Record HelloLayout := {
  hl_suite : MlKemSuiteDescriptor; hl_publicKeyOffset : Z; hl_ciphertextOffset : Z; hl_length : Z;
}.
(** The parameter sets of the room modes all have a suite. *)
Definition pq_suite (mode : RoomPqMode) : MlKemSuiteDescriptor :=
  match mode with
  | hybrid_mlkem512 => ML_KEM_512_SUITE
  | hybrid_mlkem768 => ML_KEM_768_SUITE
  | hybrid_mlkem1024 => ML_KEM_1024_SUITE
  end.
Definition helloLayout (pqMode : RoomPqMode) : HelloLayout :=
  let suite := default (pq_suite pqMode) (getMlKemSuite (roomPqModeToParameterSet pqMode)) in
  let ciphertextOffset := HELLO_ML_KEM_PUBLIC_KEY_OFF + publicKeyBytes suite in
  {| hl_suite := suite; hl_publicKeyOffset := HELLO_ML_KEM_PUBLIC_KEY_OFF;
     hl_ciphertextOffset := ciphertextOffset;
     hl_length := ciphertextOffset + ciphertextBytes suite |}.

Definition isHandshakePayloadForStep (payload : bytes) (step : Z) (pqMode : RoomPqMode) : bool :=
  if step =? HS_STEP_HELLO then
    (blen payload =? hl_length (helloLayout pqMode)) && bool_decide (at_ payload 0 = Some HS_STEP_HELLO)
  else if step =? HS_STEP_CONFIRM then
    (blen payload =? CONFIRM_LEN) && bool_decide (at_ payload 0 = Some HS_STEP_CONFIRM)
  else (blen payload =? FINISH_LEN) && bool_decide (at_ payload 0 = Some HS_STEP_FINISH).

(** The fields of a HELLO. *)
Record Hello := {
  he_sid : bytes; he_ek : bytes; he_y : bytes; he_x25519Pub : bytes; he_crossSig : bytes;
  he_mlKemPublicKey : bytes; he_mlKemCiphertext : bytes;
}.

Definition packHello (layout : HelloLayout) (hello : Hello) : bytes :=
  let out := bset (zeros (hl_length layout)) 0 [byte_of HS_STEP_HELLO] in
  let out := bset out HELLO_SID_OFF (he_sid hello) in
  let out := bset out HELLO_EK_OFF (he_ek hello) in
  let out := bset out HELLO_Y_OFF (he_y hello) in
  let out := bset out HELLO_X25519_ID_PUB_OFF (he_x25519Pub hello) in
  let out := bset out HELLO_IDENTITY_SIG_OFF (he_crossSig hello) in
  let out := bset out (hl_publicKeyOffset layout) (he_mlKemPublicKey hello) in
  bset out (hl_ciphertextOffset layout) (he_mlKemCiphertext hello).

Definition parseHello (layout : HelloLayout) (peerHello : bytes) : result HandshakeError Hello :=
  require ((blen peerHello =? hl_length layout) && bool_decide (at_ peerHello 0 = Some HS_STEP_HELLO))
    MalformedHello;;
  Ok {| he_sid := slice peerHello HELLO_SID_OFF (HELLO_SID_OFF + SID_LEN);
        he_ek := slice peerHello HELLO_EK_OFF (HELLO_EK_OFF + EK_LEN);
        he_y := slice peerHello HELLO_Y_OFF (HELLO_Y_OFF + Y_LEN);
        he_x25519Pub := slice peerHello HELLO_X25519_ID_PUB_OFF
                          (HELLO_X25519_ID_PUB_OFF + X25519_ID_PUB_LEN);
        he_crossSig := slice peerHello HELLO_IDENTITY_SIG_OFF (HELLO_IDENTITY_SIG_OFF + IDENTITY_SIG_LEN);
        he_mlKemPublicKey := slice peerHello (hl_publicKeyOffset layout)
                               (hl_publicKeyOffset layout + publicKeyBytes (hl_suite layout));
        he_mlKemCiphertext := slice peerHello (hl_ciphertextOffset layout)
                                (hl_ciphertextOffset layout + ciphertextBytes (hl_suite layout)) |}.

(** Only the field of the peer's role is used; the other is zero. *)
Definition checkHelloRole (amInitiator : bool) (peer : Hello) : result HandshakeError unit :=
  if amInitiator then
    require (allZero (he_mlKemPublicKey peer)) HelloPublicKeyNotZero;;
    require (negb (allZero (he_mlKemCiphertext peer))) HelloCiphertextMissing
  else
    require (negb (allZero (he_mlKemPublicKey peer))) HelloPublicKeyMissing;;
    require (allZero (he_mlKemCiphertext peer)) HelloCiphertextNotZero.

Definition packConfirm (dhPub mac : bytes) : bytes :=
  bset (bset (bset (zeros CONFIRM_LEN) 0 [byte_of HS_STEP_CONFIRM]) 1 dhPub) (1 + DH_LEN) mac.
Definition parseConfirm (peerConfirm : bytes) : result HandshakeError (bytes * bytes) :=
  require ((blen peerConfirm =? CONFIRM_LEN) && bool_decide (at_ peerConfirm 0 = Some HS_STEP_CONFIRM))
    MalformedConfirm;;
  Ok (slice peerConfirm 1 (1 + DH_LEN), slice peerConfirm (1 + DH_LEN) (1 + DH_LEN + MAC_LEN)).

Definition packFinish (mac : bytes) : bytes :=
  bset (bset (zeros FINISH_LEN) 0 [byte_of HS_STEP_FINISH]) 1 mac.
Definition parseFinish (peerFinish : bytes) : result HandshakeError bytes :=
  require ((blen peerFinish =? FINISH_LEN) && bool_decide (at_ peerFinish 0 = Some HS_STEP_FINISH))
    MalformedFinish;;
  Ok (slice peerFinish 1 (1 + MAC_LEN)).

(** ** Parameters, draws and result *)

Record HandshakeCoreParams := {
  hp_mode : RoomAuthMode;
  hp_pqMode : RoomPqMode;
  hp_pin : option bytes;
  hp_channelInput : bytes;
  hp_amInitiator : bool;
  hp_idSelfSec : bytes;
  hp_selfIdentityX25519Pub : bytes;
  hp_selfIdentityCrossSignature : bytes;
  hp_peerIdentityEd25519Pub : bytes;
}.

Record HandshakeEntropy := {
  en_sid : bytes; en_ek : bytes; en_kem : bytes; en_scalar : bytes; en_ratchet : bytes; en_prime : bytes;
}.

Record PqHealingBootstrap := { pb_rootKey : bytes; pb_binding : bytes; pb_nextOfferer : PqHealingTurn }.
Record HandshakeResult := {
  hr_state : RatchetState; hr_secret : bytes; hr_pqHealing : PqHealingBootstrap;
}.

(** The two HELLOs in role order, with the channel input. *)
Record Transcript := { t_I : Hello; t_R : Hello; t_channelInput : bytes }.

Definition transcript (amInitiator : bool) (self peer : Hello) (channelInput : bytes) : Transcript :=
  {| t_I := if amInitiator then self else peer; t_R := if amInitiator then peer else self;
     t_channelInput := channelInput |}.

Definition buildConfirmationInput (t : Transcript) (roleDomain dhPubR : bytes) (dhPubI : option bytes)
    (priorProofs : list bytes) : bytes :=
  let I := t_I t in
  let R := t_R t in
  concatUint8Arrays
    ([HS_KC_DOMAIN; roleDomain; he_sid I; he_sid R; he_ek I; he_ek R; he_y I; he_y R;
      he_x25519Pub I; he_crossSig I; he_x25519Pub R; he_crossSig R;
      he_mlKemPublicKey I; he_mlKemCiphertext I; he_mlKemPublicKey R; he_mlKemCiphertext R; dhPubR]
     ++ match dhPubI with Some dh => [dh] | None => [] end ++ priorProofs ++ [t_channelInput t]).

Definition hybridInfo (mode : RoomAuthMode) (suite : MlKemSuiteDescriptor) (t : Transcript) : bytes :=
  concatUint8Arrays
    [hybridKdfDomain mode (parameterSet suite); t_channelInput t;
     he_x25519Pub (t_I t); he_crossSig (t_I t); he_x25519Pub (t_R t); he_crossSig (t_R t);
     he_mlKemPublicKey (t_I t); he_mlKemCiphertext (t_R t)].

Definition pqBindingInput (t : Transcript) : bytes :=
  concatUint8Arrays
    [PQ_HEALING_BINDING_DOMAIN; t_channelInput t; he_sid (t_I t); he_sid (t_R t);
     he_ek (t_I t); he_ek (t_R t); he_x25519Pub (t_I t); he_crossSig (t_I t);
     he_x25519Pub (t_R t); he_crossSig (t_R t); he_mlKemPublicKey (t_I t); he_mlKemCiphertext (t_R t)].

Section Handshake.
Context {C : LibCrypto} {P : CpaceModule} {W : WasmModule} {D : IdentityModule}.
Abbreviation hs := (proto HandshakeError).

Definition wait {A} (r : result HandshakeError A) : hs A := Done r.

(** [await transport.send(bytes)] and [await transport.recv()]. *)
Definition send (frame : bytes) : hs unit :=
  Send frame (fun sent => if sent then mret tt else Done (Err HsTransport)).
Definition recv : hs bytes :=
  Recv (fun frame => match frame with Some f => mret f | None => Done (Err HsTransport) end).

Definition verify (message signature publicKey : bytes) : result HandshakeError bool :=
  require (blen signature <=? crypto_sign_ed25519_BYTES) HsRange;;
  require (blen publicKey <=? crypto_sign_ed25519_PUBLICKEYBYTES) HsRange;;
  Ok (_verify message (region crypto_sign_ed25519_PUBLICKEYBYTES publicKey)
        (region crypto_sign_ed25519_BYTES signature) =? 0).
Definition verifyIdentityCrossSig (x25519Pub crossSig ed25519Pub : bytes) : result HandshakeError bool :=
  verify (identityCrossSignMessage x25519Pub) crossSig ed25519Pub.

Definition hmacSha512 (key msg : bytes) : result HandshakeError bytes :=
  let '(r, out) := _hkdf_sha512_extract key msg in
  if negb (r =? 0) then Err HsHmacFailed else Ok (region MAC_LEN out).

(** ** R1: the HELLOs and the secrets *)

(** The scalar and the share; [None] without a PIN. *)
Definition startCpace (p : HandshakeCoreParams) (sidForG entropy : bytes) :
  result HandshakeError (option (bytes * bytes)) :=
  match hp_mode p with
  | nopin => Ok None
  | pin =>
      match hp_pin p with
      | None => Err HsPinRequired
      | Some thePin =>
          map_err HsCpace
            (G ← deriveGenerator thePin sidForG (hp_channelInput p);
             started ← cpaceStart G entropy;
             Ok (Some started))
      end
  end.

Definition cpace_share (started : option (bytes * bytes)) : bytes :=
  match started with Some (_, Y) => Y | None => zeros Y_LEN end.

Definition selfHello (p : HandshakeCoreParams) (sid ek Y mlKemPublicKey mlKemCiphertext : bytes) : Hello :=
  {| he_sid := sid; he_ek := ek; he_y := Y; he_x25519Pub := hp_selfIdentityX25519Pub p;
     he_crossSig := hp_selfIdentityCrossSignature p; he_mlKemPublicKey := mlKemPublicKey;
     he_mlKemCiphertext := mlKemCiphertext |}.

(** Parse the peer's HELLO, check its role fields and its identity. *)
Definition acceptHello (p : HandshakeCoreParams) (layout : HelloLayout) (peerHello : bytes) :
  result HandshakeError Hello :=
  peer ← parseHello layout peerHello;
  checkHelloRole (hp_amInitiator p) peer;;
  signed ← verifyIdentityCrossSig (he_x25519Pub peer) (he_crossSig peer) (hp_peerIdentityEd25519Pub p);
  require signed CrossSignatureInvalid;;
  Ok peer.

(** [field.set(value)] on a fresh buffer of [length] bytes. *)
Definition set_field (length : Z) (value : bytes) : result HandshakeError bytes :=
  require (blen value <=? length) HsRange;; Ok (bset (zeros length) 0 value).

Definition await_kem {A} (r : option A) : result HandshakeError A :=
  match r with Some a => Ok a | None => Err HsKem end.

(** CPace, in rooms with a PIN. *)
Definition pakeSecretOf (p : HandshakeCoreParams) (started : option (bytes * bytes)) (peer : Hello)
    (t : Transcript) : result HandshakeError bytes :=
  match hp_mode p with
  | nopin => Ok []
  | pin =>
      match started with
      | None => Err HsNoScalar
      | Some (y, _) =>
          map_err HsCpace (cpaceFinish
            {| cf_y := y; cf_peerShare := he_y peer; cf_sid := he_sid (t_I t);
               cf_initiatorShare := he_y (t_I t); cf_responderShare := he_y (t_R t);
               cf_initiatorAssociatedData := EMPTY; cf_responderAssociatedData := EMPTY |})
      end
  end.

(** The hybrid root and the healing bootstrap, from the component secrets. *)
Definition hybridSecrets (mode : RoomAuthMode) (suite : MlKemSuiteDescriptor) (t : Transcript)
    (pakeSecret identitySecret sharedSecret : bytes) (amInitiator : bool) :
  result HandshakeError (bytes * PqHealingBootstrap) :=
  let hybridIkm := concatUint8Arrays (match mode with
                     | pin => [pakeSecret; identitySecret; sharedSecret]
                     | nopin => [identitySecret; sharedSecret]
                     end) in
  hybridPrk ← map_err HsCrypto (hkdfExtract HS_HYBRID_KDF_SALT hybridIkm);
  secret ← map_err HsCrypto (hkdfExpand hybridPrk (hybridInfo mode suite t) 32);
  let pqHealingBinding := subtle_digest_sha256 (pqBindingInput t) in
  pqHealingPrk ← map_err HsCrypto (hkdfExtract PQ_HEALING_ROOT_SALT secret);
  pqHealingRoot ← map_err HsCrypto
    (hkdfExpand pqHealingPrk (concatUint8Arrays [PQ_HEALING_ROOT_INFO; pqHealingBinding]) 32);
  Ok (secret,
      {| pb_rootKey := pqHealingRoot; pb_binding := pqHealingBinding;
         pb_nextOfferer := if amInitiator then local else remote |}).

Definition deriveSecrets (p : HandshakeCoreParams) (suite : MlKemSuiteDescriptor) (ek : X25519KeyPair)
    (started : option (bytes * bytes)) (sharedSecret : bytes) (self peer : Hello) :
  result HandshakeError (Transcript * bytes * PqHealingBootstrap) :=
  identitySecret ← map_err HsCrypto
    (deriveInteractive3dhSecret (hp_idSelfSec p) (he_x25519Pub peer) (x_secretKey ek) (he_ek peer)
       (hp_amInitiator p));
  let t := transcript (hp_amInitiator p) self peer (hp_channelInput p) in
  pakeSecret ← pakeSecretOf p started peer t;
  '(secret, pqHealing) ← hybridSecrets (hp_mode p) suite t pakeSecret identitySecret sharedSecret
                           (hp_amInitiator p);
  Ok (t, secret, pqHealing).

(** ** R2, R3: the chained confirmations *)

Definition confirmResponder (rootSuite : RatchetRootSuite) (e : HandshakeEntropy) (t : Transcript)
    (secret : bytes) : hs RatchetState :=
  state ← wait (map_err HsRatchet (initRatchet secret false None rootSuite (en_ratchet e)));
  let dhPubR := dhSelfPub state in
  macR ← wait (hmacSha512 secret (buildConfirmationInput t HS_KC_RESPONDER_DOMAIN dhPubR None []));
  send (packConfirm dhPubR macR);;
  peerConfirm ← recv;
  '(dhPubI, macI) ← wait (parseConfirm peerConfirm);
  expectI ← wait (hmacSha512 secret
    (buildConfirmationInput t HS_KC_INITIATOR_DOMAIN dhPubR (Some dhPubI) [macR]));
  wait (require (uint8ArraysAreEqual macI expectI) KeyConfirmationFailed);;
  let '(primed, state) := primeResponderRatchet dhPubI (en_prime e) state in
  wait (map_err HsRatchet primed);;
  macFinish ← wait (hmacSha512 secret
    (buildConfirmationInput t HS_KC_RESPONDER_FINISH_DOMAIN dhPubR (Some dhPubI) [macR; macI]));
  send (packFinish macFinish);;
  mret state.

Definition confirmInitiator (rootSuite : RatchetRootSuite) (e : HandshakeEntropy) (t : Transcript)
    (secret : bytes) : hs RatchetState :=
  peerConfirm ← recv;
  '(dhPubR, macR) ← wait (parseConfirm peerConfirm);
  state ← wait (map_err HsRatchet (initRatchet secret true (Some dhPubR) rootSuite (en_ratchet e)));
  let dhPubI := dhSelfPub state in
  macI ← wait (hmacSha512 secret
    (buildConfirmationInput t HS_KC_INITIATOR_DOMAIN dhPubR (Some dhPubI) [macR]));
  send (packConfirm dhPubI macI);;
  expectR ← wait (hmacSha512 secret (buildConfirmationInput t HS_KC_RESPONDER_DOMAIN dhPubR None []));
  wait (require (uint8ArraysAreEqual macR expectR) KeyConfirmationFailed);;
  peerFinish ← recv;
  finish ← wait (parseFinish peerFinish);
  expectFinish ← wait (hmacSha512 secret
    (buildConfirmationInput t HS_KC_RESPONDER_FINISH_DOMAIN dhPubR (Some dhPubI) [macR; macI]));
  wait (require (uint8ArraysAreEqual finish expectFinish) FinalConfirmationFailed);;
  mret state.

(** ** The handshake *)

(** The initiator's half of R1: send first. *)
Definition helloInitiator (p : HandshakeCoreParams) (e : HandshakeEntropy) (layout : HelloLayout)
    (mlKem : MlKemBackend) (sid : bytes) (ek : X25519KeyPair) :
  hs (Hello * Hello * option (bytes * bytes) * bytes) :=
  let suite := hl_suite layout in
  keyPair ← wait (await_kem (generateKeyPair (en_kem e)));
  publicKeySelf ← wait (set_field (publicKeyBytes suite) (kp_public keyPair));
  started ← wait (startCpace p sid (en_scalar e));
  let self := selfHello p sid (x_publicKey ek) (cpace_share started) publicKeySelf
                (zeros (ciphertextBytes suite)) in
  send (packHello layout self);;
  peerHello ← recv;
  peer ← wait (acceptHello p layout peerHello);
  sharedSecret ← wait (await_kem (decapsulate (he_mlKemCiphertext peer) (kp_secret keyPair)));
  mret (self, peer, started, sharedSecret).

(** The responder's half: receive, encapsulate, reply. *)
Definition helloResponder (p : HandshakeCoreParams) (e : HandshakeEntropy) (layout : HelloLayout)
    (mlKem : MlKemBackend) (sid : bytes) (ek : X25519KeyPair) :
  hs (Hello * Hello * option (bytes * bytes) * bytes) :=
  let suite := hl_suite layout in
  peerHello ← recv;
  peer ← wait (acceptHello p layout peerHello);
  '(ciphertext, sharedSecret) ← wait (await_kem (encapsulate (en_kem e) (he_mlKemPublicKey peer)));
  ciphertextSelf ← wait (set_field (ciphertextBytes suite) ciphertext);
  started ← wait (startCpace p (he_sid peer) (en_scalar e));
  let self := selfHello p sid (x_publicKey ek) (cpace_share started) (zeros (publicKeyBytes suite))
                ciphertextSelf in
  send (packHello layout self);;
  mret (self, peer, started, sharedSecret).

Definition performHandshakeCore (h : heap) (p : HandshakeCoreParams) (e : HandshakeEntropy) :
  hs HandshakeResult :=
  let layout := helloLayout (hp_pqMode p) in
  mlKem ← wait (map_err HsBackend (createMlKemBackend (hl_suite layout) true h));
  let rootSuite := roomPqModeToRootSuite (hp_pqMode p) in
  let sidSelf := region SID_LEN (en_sid e) in
  ek ← wait (map_err HsCrypto (x25519Keypair (en_ek e)));
  '(self, peer, started, sharedSecret) ←
    (if hp_amInitiator p then helloInitiator p e layout mlKem sidSelf ek
     else helloResponder p e layout mlKem sidSelf ek);
  '(t, secret, pqHealing) ← wait (deriveSecrets p (hl_suite layout) ek started sharedSecret self peer);
  state ← (if hp_amInitiator p then confirmInitiator rootSuite e t secret
           else confirmResponder rootSuite e t secret);
  mret {| hr_state := state; hr_secret := secret; hr_pqHealing := pqHealing |}.
End Handshake.

(** ** Lemmas: one end over its transport *)

Section Settling.
Context {A B : Type}.
Implicit Types (f : A -> proto HandshakeError B) (b : B).

Lemma wait_bind (r : result HandshakeError A) f evs b :
  resolves evs (wait r ≫= f) (Ok b) <-> exists a, r = Ok a /\ resolves evs (f a) (Ok b).
Proof.
  unfold wait. destruct r as [a|e]; (split; [intros H|intros (a' & [= <-] & H)]).
  - by exists a.
  - done.
  - by apply resolves_done in H as [_ H].
Qed.

Lemma send_bind frame (f : unit -> proto HandshakeError B) evs b :
  resolves evs (send frame ≫= f) (Ok b) <->
  exists evs', evs = Out frame :: evs' /\ resolves evs' (f tt) (Ok b).
Proof. unfold send. apply resolves_send. Qed.

Lemma recv_bind (f : bytes -> proto HandshakeError B) evs b :
  resolves evs (recv ≫= f) (Ok b) <->
  exists frame evs', evs = In frame :: evs' /\ resolves evs' (f frame) (Ok b).
Proof. unfold recv. apply resolves_recv. Qed.

Lemma ret_resolves b' evs b : resolves evs (mret b' : proto HandshakeError B) (Ok b) <-> evs = [] /\ b' = b.
Proof. unfold mret, proto_ret. rewrite resolves_done. split; intros [-> H]; split; congruence. Qed.
End Settling.

(** Invert a run that returned, one await at a time. *)
Ltac unsettle H :=
  repeat first
    [ apply wait_bind in H as (? & ? & H)
    | apply send_bind in H as (? & -> & H)
    | apply recv_bind in H as (? & ? & -> & H)
    | apply ret_resolves in H as [-> H]
    | match type of H with resolves _ (let '(_, _) := ?x in _) _ => destruct x as [? ?] eqn:? end ].

(** Run a function whose parts return. *)
Ltac settle :=
  repeat first
    [ apply wait_bind; eexists; split; [eassumption|]
    | apply send_bind; eexists; split; [reflexivity|]
    | apply recv_bind; eexists _, _; split; [reflexivity|]
    | apply ret_resolves; split; reflexivity
    | progress cbv beta iota ].

Section Confirmation.
Context {C : LibCrypto} {P : CpaceModule} {W : WasmModule} {D : IdentityModule}.
Implicit Types (t : Transcript) (secret dhPubR dhPubI macR macI : bytes).

(** The three proofs of a handshake with this transcript and these keys. *)
Definition proof_R t secret dhPubR : result HandshakeError bytes :=
  hmacSha512 secret (buildConfirmationInput t HS_KC_RESPONDER_DOMAIN dhPubR None []).
Definition proof_I t secret dhPubR dhPubI macR : result HandshakeError bytes :=
  hmacSha512 secret (buildConfirmationInput t HS_KC_INITIATOR_DOMAIN dhPubR (Some dhPubI) [macR]).
Definition proof_F t secret dhPubR dhPubI macR macI : result HandshakeError bytes :=
  hmacSha512 secret
    (buildConfirmationInput t HS_KC_RESPONDER_FINISH_DOMAIN dhPubR (Some dhPubI) [macR; macI]).

Lemma equal_require (a b : bytes) (e : HandshakeError) u :
  require (uint8ArraysAreEqual a b) e = Ok u <-> a = b.
Proof.
  destruct u. unfold uint8ArraysAreEqual. rewrite require_ok. apply bytesEqual_spec.
Qed.

Lemma confirmInitiator_resolves suite e t secret evs state :
  resolves evs (confirmInitiator suite e t secret) (Ok state) <->
  exists cR fR dhPubR macR macI macF,
    evs = [In cR; Out (packConfirm (dhSelfPub state) macI); In fR] /\
    parseConfirm cR = Ok (dhPubR, macR) /\
    initRatchet secret true (Some dhPubR) suite (en_ratchet e) = Ok state /\
    proof_I t secret dhPubR (dhSelfPub state) macR = Ok macI /\
    proof_R t secret dhPubR = Ok macR /\
    parseFinish fR = Ok macF /\
    proof_F t secret dhPubR (dhSelfPub state) macR macI = Ok macF.
Proof.
  unfold confirmInitiator. split.
  - intros H. unsettle H.
    match goal with H : map_err HsRatchet ?r = Ok _ |- _ => destruct r eqn:?; [|discriminate H] end.
    repeat match goal with H : require (uint8ArraysAreEqual _ _) _ = Ok _ |- _ =>
      apply equal_require in H end.
    cbn in *. simplify_eq. eexists _, _, _, _, _, _. by split_and!.
  - intros (cR & fR & dhPubR & macR & macI & macF & -> & Hc & Hs & HI & HR & Hf & HF).
    apply recv_bind. eexists _, _. split; [done|]. settle.
    apply wait_bind. eexists. split; [by rewrite Hs|]. settle.
    apply wait_bind. exists tt. split; [by apply equal_require|]. settle.
    apply wait_bind. exists tt. split; [by apply equal_require|]. settle.
Qed.

Lemma confirmResponder_resolves suite e t secret evs state :
  resolves evs (confirmResponder suite e t secret) (Ok state) <->
  exists cI dhPubI macR macI macF s0,
    evs = [Out (packConfirm (dhSelfPub s0) macR); In cI; Out (packFinish macF)] /\
    initRatchet secret false None suite (en_ratchet e) = Ok s0 /\
    proof_R t secret (dhSelfPub s0) = Ok macR /\
    parseConfirm cI = Ok (dhPubI, macI) /\
    proof_I t secret (dhSelfPub s0) dhPubI macR = Ok macI /\
    primeResponderRatchet dhPubI (en_prime e) s0 = (Ok tt, state) /\
    proof_F t secret (dhSelfPub s0) dhPubI macR macI = Ok macF.
Proof.
  unfold confirmResponder. split.
  - intros H. unsettle H.
    repeat match goal with H : map_err HsRatchet ?r = Ok _ |- _ =>
      destruct r eqn:?; [|discriminate H]; apply Ok_inj in H end.
    repeat match goal with H : require (uint8ArraysAreEqual _ _) _ = Ok _ |- _ =>
      apply equal_require in H end.
    repeat match goal with u : unit |- _ => destruct u end.
    simplify_eq. eexists _, _, _, _, _, _. by split_and!.
  - intros (cI & dhPubI & macR & macI & macF & s0 & -> & Hs & HR & Hc & HI & Hp & HF).
    apply wait_bind. eexists. split; [by rewrite Hs|]. settle.
    apply wait_bind. exists tt. split; [by apply equal_require|]. rewrite Hp.
    apply wait_bind. eexists. split; [done|]. settle.
Qed.

Lemma helloInitiator_resolves p e layout mlKem sid ek evs self peer started ss :
  resolves evs (helloInitiator p e layout mlKem sid ek) (Ok (self, peer, started, ss)) <->
  exists kp pk frame,
    evs = [Out (packHello layout self); In frame] /\
    generateKeyPair (en_kem e) = Some kp /\
    set_field (publicKeyBytes (hl_suite layout)) (kp_public kp) = Ok pk /\
    startCpace p sid (en_scalar e) = Ok started /\
    self = selfHello p sid (x_publicKey ek) (cpace_share started) pk
             (zeros (ciphertextBytes (hl_suite layout))) /\
    acceptHello p layout frame = Ok peer /\
    decapsulate (he_mlKemCiphertext peer) (kp_secret kp) = Some ss.
Proof.
  unfold helloInitiator. split.
  - intros H. unsettle H. unfold await_kem in *. repeat case_match; simplify_eq.
    eexists _, _, _. by split_and!.
  - intros (kp & pk & frame & -> & Hk & Hpk & Hs & -> & Ha & Hd).
    apply wait_bind. exists kp. split; [by rewrite Hk|]. settle.
    apply wait_bind. exists ss. split; [by rewrite Hd|]. settle.
Qed.

Lemma helloResponder_resolves p e layout mlKem sid ek evs self peer started ss :
  resolves evs (helloResponder p e layout mlKem sid ek) (Ok (self, peer, started, ss)) <->
  exists frame ct ctf,
    evs = [In frame; Out (packHello layout self)] /\
    acceptHello p layout frame = Ok peer /\
    encapsulate (en_kem e) (he_mlKemPublicKey peer) = Some (ct, ss) /\
    set_field (ciphertextBytes (hl_suite layout)) ct = Ok ctf /\
    startCpace p (he_sid peer) (en_scalar e) = Ok started /\
    self = selfHello p sid (x_publicKey ek) (cpace_share started)
             (zeros (publicKeyBytes (hl_suite layout))) ctf.
Proof.
  unfold helloResponder. split.
  - intros H. unsettle H. unfold await_kem in *. repeat case_match; simplify_eq.
    eexists _, _, _. by split_and!.
  - intros (frame & ct & ctf & -> & Ha & He & Hc & Hs & ->).
    apply recv_bind. eexists _, _. split; [done|]. settle.
    apply wait_bind. exists (ct, ss). split; [by rewrite He|]. settle.
Qed.
End Confirmation.
