(* ===== verification/HandshakeConfirm.v ===== *)
(** * Key confirmation

    The frames of the handshake are canonical, the confirmation input determines
    the transcript, and the three inputs never meet ([confirmation_input_inj],
    [confirmation_roles]).  Hence two ends that both return, on whatever frames
    the network showed them, agree on every frame and on the secret, unless a
    confirmation one of them accepted was made by a third party or two HMAC
    inputs collide ([key_confirmation]). *)

From Stdlib Require Import String.
From S2P Require Import Prelude Bytes Constants Crypto Proto Cpace X25519 Ratchet RoomPolicy.
From S2P Require Import MlKem MlKemWasm PqRecord PqMachine Handshake.
Local Open Scope Z_scope.
Local Open Scope list_scope.

(** ** Frames *)

(** Fields of the sizes the frames carry. *)
Record hello_ok (suite : MlKemSuiteDescriptor) (x : Hello) : Prop := {
  ok_sid : blen (he_sid x) = 32;
  ok_ek : blen (he_ek x) = 32;
  ok_y : blen (he_y x) = 32;
  ok_pub : blen (he_x25519Pub x) = 32;
  ok_sig : blen (he_crossSig x) = 64;
  ok_pk : blen (he_mlKemPublicKey x) = publicKeyBytes suite;
  ok_ct : blen (he_mlKemCiphertext x) = ciphertextBytes suite;
}.

Definition hello_bytes (x : Hello) : bytes :=
  [byte_of HS_STEP_HELLO] ++ he_sid x ++ he_ek x ++ he_y x ++ he_x25519Pub x ++ he_crossSig x ++
  he_mlKemPublicKey x ++ he_mlKemCiphertext x.

Lemma layout_suite mode : hl_suite (helloLayout mode) = pq_suite mode.
Proof. by destruct mode. Qed.

Lemma layout_numbers mode : let l := helloLayout mode in
  hl_publicKeyOffset l = 193 /\ hl_ciphertextOffset l = 193 + publicKeyBytes (hl_suite l) /\
  hl_length l = 193 + publicKeyBytes (hl_suite l) + ciphertextBytes (hl_suite l) /\
  0 < publicKeyBytes (hl_suite l) /\ 0 < ciphertextBytes (hl_suite l).
Proof. by destruct mode. Qed.

Ltac hello_offsets :=
  change HELLO_SID_OFF with 1 in *; change HELLO_EK_OFF with 33 in *; change HELLO_Y_OFF with 65 in *;
  change HELLO_X25519_ID_PUB_OFF with 97 in *; change HELLO_IDENTITY_SIG_OFF with 129 in *;
  change SID_LEN with 32 in *; change EK_LEN with 32 in *; change Y_LEN with 32 in *;
  change X25519_ID_PUB_LEN with 32 in *; change IDENTITY_SIG_LEN with 64 in *.

Lemma packHello_bytes mode x : hello_ok (hl_suite (helloLayout mode)) x ->
  packHello (helloLayout mode) x = hello_bytes x.
Proof.
  intros []. destruct (layout_numbers mode) as (E1 & E2 & E3 & H4 & H5). cbv zeta in *.
  unfold packHello, hello_bytes. rewrite E1, E2, E3. hello_offsets. rewrite bset_zeros by blen.
  repeat rewrite bset_append by blen. rewrite zeros_0 by blen. by rewrite app_nil_r, <- !app_assoc.
Qed.

Lemma blen_hello_bytes mode x : hello_ok (hl_suite (helloLayout mode)) x ->
  blen (hello_bytes x) = hl_length (helloLayout mode).
Proof.
  intros []. destruct (layout_numbers mode) as (_ & _ & -> & _). unfold hello_bytes. blen.
Qed.

Lemma parseHello_pack mode x : hello_ok (hl_suite (helloLayout mode)) x ->
  parseHello (helloLayout mode) (hello_bytes x) = Ok x.
Proof.
  intros Hx. pose proof (blen_hello_bytes mode x Hx) as Hl. destruct Hx.
  unfold parseHello. rewrite Hl, Z.eqb_refl. change (at_ (hello_bytes x) 0) with (Some HS_STEP_HELLO).
  rewrite bool_decide_true by done. cbn [andb require mbind result_bind].
  destruct (layout_numbers mode) as (E1 & E2 & E3 & H4 & H5). cbv zeta in *.
  rewrite E1, E2. hello_offsets. unfold hello_bytes.
  destruct x as [sid ek y pub sig pk ct]; cbn [he_sid he_ek he_y he_x25519Pub he_crossSig
    he_mlKemPublicKey he_mlKemCiphertext] in *. do 2 f_equal.
  - do 1 rewrite slice_app_r by blen. by rewrite slice_app_l by blen.
  - do 2 rewrite slice_app_r by blen. by rewrite slice_app_l by blen.
  - do 3 rewrite slice_app_r by blen. by rewrite slice_app_l by blen.
  - do 4 rewrite slice_app_r by blen. by rewrite slice_app_l by blen.
  - do 5 rewrite slice_app_r by blen. by rewrite slice_app_l by blen.
  - do 6 rewrite slice_app_r by blen. by rewrite slice_app_l by blen.
  - do 7 rewrite slice_app_r by blen. rewrite slice_to_end by blen.
    unfold slice_from. by replace (Z.to_nat _) with 0%nat by blen.
Qed.

Lemma parseHello_inv mode frame x : parseHello (helloLayout mode) frame = Ok x ->
  hello_ok (hl_suite (helloLayout mode)) x /\ frame = hello_bytes x.
Proof.
  intros H. unfold parseHello in H. binds H. subst x.
  rewrite require_ok, andb_true_iff, Z.eqb_eq, bool_decide_eq_true in E. destruct E as [Hl Ht].
  destruct (layout_numbers mode) as (E1 & E2 & E3 & H4 & H5). cbv zeta in *. rewrite E3 in Hl.
  rewrite E1, E2. hello_offsets. split.
  - split; cbn [he_sid he_ek he_y he_x25519Pub he_crossSig he_mlKemPublicKey he_mlKemCiphertext]; blen.
  - unfold hello_bytes.
    cbn [he_sid he_ek he_y he_x25519Pub he_crossSig he_mlKemPublicKey he_mlKemCiphertext].
    rewrite <- (slice_one frame 0 HS_STEP_HELLO) by done.
    set (n := publicKeyBytes _) in *. set (k := ciphertextBytes _) in *.
    rewrite <- (slice_split frame 193 (193 + n)), <- (slice_split frame 129 (129 + 64)),
      <- (slice_split frame 97 (97 + 32)), <- (slice_split frame 65 (65 + 32)),
      <- (slice_split frame 33 (33 + 32)), <- (slice_split frame 1 (1 + 32)),
      <- (slice_split frame 0 (0 + 1)) by lia.
    symmetry. apply slice_all. lia.
Qed.

Definition confirm_bytes (dhPub mac : bytes) : bytes := [byte_of HS_STEP_CONFIRM] ++ dhPub ++ mac.
Definition finish_bytes (mac : bytes) : bytes := [byte_of HS_STEP_FINISH] ++ mac.

Lemma packConfirm_bytes dhPub mac : blen dhPub = 32 -> blen mac = 64 ->
  packConfirm dhPub mac = confirm_bytes dhPub mac.
Proof.
  intros Hd Hm. unfold packConfirm, confirm_bytes. change CONFIRM_LEN with 97. change DH_LEN with 32.
  rewrite bset_zeros by blen. repeat rewrite bset_append by blen. rewrite zeros_0 by blen.
  by rewrite app_nil_r.
Qed.

Lemma packFinish_bytes mac : blen mac = 64 -> packFinish mac = finish_bytes mac.
Proof.
  intros Hm. unfold packFinish, finish_bytes. change FINISH_LEN with 65.
  rewrite bset_zeros by blen. rewrite bset_append by blen. rewrite zeros_0 by blen.
  by rewrite app_nil_r.
Qed.

Lemma parseConfirm_pack dhPub mac : blen dhPub = 32 -> blen mac = 64 ->
  parseConfirm (confirm_bytes dhPub mac) = Ok (dhPub, mac).
Proof.
  intros Hd Hm. unfold parseConfirm, confirm_bytes. change CONFIRM_LEN with 97. change DH_LEN with 32.
  change MAC_LEN with 64. rewrite !blen_app, Hd, Hm.
  change (at_ _ 0) with (Some HS_STEP_CONFIRM). rewrite bool_decide_true by done.
  cbn [andb require mbind result_bind]. change (blen [byte_of HS_STEP_CONFIRM] + (32 + 64) =? 97) with true.
  cbn [andb require mbind result_bind]. do 2 f_equal.
  - rewrite slice_app_r by blen. by rewrite slice_app_l by blen.
  - do 2 rewrite slice_app_r by blen. rewrite slice_to_end by blen.
    unfold slice_from. by replace (Z.to_nat _) with 0%nat by blen.
Qed.

Lemma parseFinish_pack mac : blen mac = 64 -> parseFinish (finish_bytes mac) = Ok mac.
Proof.
  intros Hm. unfold parseFinish, finish_bytes. change FINISH_LEN with 65. change MAC_LEN with 64.
  rewrite !blen_app, Hm. change (at_ _ 0) with (Some HS_STEP_FINISH). rewrite bool_decide_true by done.
  change (blen [byte_of HS_STEP_FINISH] + 64 =? 65) with true. cbn [andb require mbind result_bind].
  f_equal. rewrite slice_app_r by blen. rewrite slice_to_end by blen.
  unfold slice_from. by replace (Z.to_nat _) with 0%nat by blen.
Qed.

Lemma parseConfirm_inv frame dhPub mac : parseConfirm frame = Ok (dhPub, mac) ->
  blen dhPub = 32 /\ blen mac = 64 /\ frame = confirm_bytes dhPub mac.
Proof.
  intros H. unfold parseConfirm in H. binds H. injection H as <- <-.
  rewrite require_ok, andb_true_iff, Z.eqb_eq, bool_decide_eq_true in E. destruct E as [Hl Ht].
  change CONFIRM_LEN with 97 in Hl. change (1 + DH_LEN) with 33. change (33 + MAC_LEN) with 97.
  split_and!; [blen..|]. unfold confirm_bytes. rewrite <- (slice_one frame 0 HS_STEP_CONFIRM) by done.
  rewrite <- (slice_split frame 1 33), <- (slice_split frame 0 (0 + 1)) by lia.
  symmetry. apply slice_all. lia.
Qed.

Lemma parseFinish_inv frame mac : parseFinish frame = Ok mac ->
  blen mac = 64 /\ frame = finish_bytes mac.
Proof.
  intros H. unfold parseFinish in H. binds H. subst mac.
  rewrite require_ok, andb_true_iff, Z.eqb_eq, bool_decide_eq_true in E. destruct E as [Hl Ht].
  change FINISH_LEN with 65 in Hl. change (1 + MAC_LEN) with 65.
  split; [blen|]. unfold finish_bytes. rewrite <- (slice_one frame 0 HS_STEP_FINISH) by done.
  rewrite <- (slice_split frame 0 (0 + 1)) by lia. symmetry. apply slice_all. lia.
Qed.

(** ** The confirmation input determines what it confirms *)

Definition same_length (a b : bytes) : Prop := blen a = blen b.

Lemma concat_inj_tail l : forall l' x y, Forall2 same_length l l' ->
  concat l ++ x = concat l' ++ y -> l = l' /\ x = y.
Proof.
  induction l as [|a l IH]; intros l' x y Hl H; inversion Hl; subst; [done|].
  cbn [concat] in H. rewrite <- !app_assoc in H. apply app_same_length in H as [-> H]; [|done].
  apply IH in H as [-> ->]; done.
Qed.

Definition transcript_ok (suite : MlKemSuiteDescriptor) (t : Transcript) : Prop :=
  hello_ok suite (t_I t) /\ hello_ok suite (t_R t).

(** The fixed-width fields of the input, and its variable tail. *)
Definition confirmation_fields (t : Transcript) (dhPubR : bytes) (rest : list bytes) : list bytes :=
  [he_sid (t_I t); he_sid (t_R t); he_ek (t_I t); he_ek (t_R t); he_y (t_I t); he_y (t_R t);
   he_x25519Pub (t_I t); he_crossSig (t_I t); he_x25519Pub (t_R t); he_crossSig (t_R t);
   he_mlKemPublicKey (t_I t); he_mlKemCiphertext (t_I t);
   he_mlKemPublicKey (t_R t); he_mlKemCiphertext (t_R t); dhPubR] ++ rest.

Lemma confirmation_input_eq t role dhPubR dhPubI proofs :
  buildConfirmationInput t role dhPubR dhPubI proofs =
    (HS_KC_DOMAIN ++ role) ++
    concat (confirmation_fields t dhPubR
              (match dhPubI with Some dh => [dh] | None => [] end ++ proofs)) ++ t_channelInput t.
Proof.
  unfold buildConfirmationInput, concatUint8Arrays, confirmation_fields. cbv zeta.
  rewrite !concat_app. cbn [concat]. by rewrite <- !app_assoc, app_nil_r.
Qed.

Lemma transcript_eq t t' : t_I t = t_I t' -> t_R t = t_R t' -> t_channelInput t = t_channelInput t' -> t = t'.
Proof. destruct t, t'; cbn. congruence. Qed.
Lemma hello_eq x y : he_sid x = he_sid y -> he_ek x = he_ek y -> he_y x = he_y y ->
  he_x25519Pub x = he_x25519Pub y -> he_crossSig x = he_crossSig y ->
  he_mlKemPublicKey x = he_mlKemPublicKey y -> he_mlKemCiphertext x = he_mlKemCiphertext y -> x = y.
Proof. destruct x, y; cbn. congruence. Qed.

Lemma confirmation_input_inj suite t t' role dhR dhR' dhI dhI' proofs proofs' :
  transcript_ok suite t -> transcript_ok suite t' -> blen dhR = 32 -> blen dhR' = 32 ->
  Forall2 same_length (match dhI with Some dh => [dh] | None => [] end ++ proofs)
    (match dhI' with Some dh => [dh] | None => [] end ++ proofs') ->
  buildConfirmationInput t role dhR dhI proofs = buildConfirmationInput t' role dhR' dhI' proofs' ->
  t = t' /\ dhR = dhR' /\
  match dhI with Some dh => [dh] | None => [] end ++ proofs =
    match dhI' with Some dh => [dh] | None => [] end ++ proofs'.
Proof.
  intros [[] []] [[] []] Hr Hr' Hrest H. rewrite !confirmation_input_eq in H.
  apply app_inv_head in H. apply concat_inj_tail in H as [H Hci].
  - unfold confirmation_fields in H. injection H. intros. split_and!; [|assumption..].
    apply transcript_eq; [apply hello_eq; assumption..|assumption].
  - unfold confirmation_fields. apply Forall2_app; [|done].
    repeat (apply Forall2_cons; split; [unfold same_length; etransitivity; [eassumption|symmetry; eassumption]|]). apply Forall2_nil_2.
Qed.

(** The roles never share an input: no proof can be reflected as another. *)
Lemma confirmation_roles t t' dhR dhR' dhI dhI' proofs proofs' role role' :
  role ∈ [HS_KC_RESPONDER_DOMAIN; HS_KC_INITIATOR_DOMAIN; HS_KC_RESPONDER_FINISH_DOMAIN] ->
  role' ∈ [HS_KC_RESPONDER_DOMAIN; HS_KC_INITIATOR_DOMAIN; HS_KC_RESPONDER_FINISH_DOMAIN] ->
  buildConfirmationInput t role dhR dhI proofs = buildConfirmationInput t' role' dhR' dhI' proofs' ->
  role = role'.
Proof.
  intros Hr Hr' H. rewrite !confirmation_input_eq, <- !app_assoc in H. apply app_inv_head in H.
  assert (forall i, at_ (role ++ concat (confirmation_fields t dhR (match dhI with Some dh => [dh] | None => [] end ++ proofs)) ++ t_channelInput t) i
    = at_ (role' ++ concat (confirmation_fields t' dhR' (match dhI' with Some dh => [dh] | None => [] end ++ proofs')) ++ t_channelInput t') i) as Hat
    by (intros i; by rewrite H).
  clear H. pose proof (Hat 17) as H17. pose proof (Hat 27) as H27. clear Hat.
  repeat (apply elem_of_cons in Hr as [->|Hr]; [|]); try (by apply elem_of_nil in Hr);
  repeat (apply elem_of_cons in Hr' as [->|Hr']; [|]); try (by apply elem_of_nil in Hr');
    first [reflexivity | discriminate H17 | discriminate H27].
Qed.

(** ** What each end has seen when it returns *)

(** The ratchet keys and the three proofs of a run. *)
Record Proofs := { v_dhPubR : bytes; v_dhPubI : bytes; v_macR : bytes; v_macI : bytes; v_macF : bytes }.

(** The frames of a handshake, [true] from the initiator. *)
Definition conversation (t : Transcript) (v : Proofs) : list (bool * bytes) :=
  [(true, hello_bytes (t_I t)); (false, hello_bytes (t_R t));
   (false, confirm_bytes (v_dhPubR v) (v_macR v)); (true, confirm_bytes (v_dhPubI v) (v_macI v));
   (false, finish_bytes (v_macF v))].

(** Callers pass the identity with its cross-signature. *)
Definition params_ok (p : HandshakeCoreParams) : Prop :=
  blen (hp_selfIdentityX25519Pub p) = 32 /\ blen (hp_selfIdentityCrossSignature p) = 64.

Section KeyConfirmation.
Context {C : LibCrypto} {P : CpaceModule} {W : WasmModule} {D : IdentityModule}.

Definition healing_of (t : Transcript) (secret rootKey binding : bytes) : Prop :=
  binding = subtle_digest_sha256 (pqBindingInput t) /\
  exists prk, hkdfExtract PQ_HEALING_ROOT_SALT secret = Ok prk /\
    hkdfExpand prk (concatUint8Arrays [PQ_HEALING_ROOT_INFO; binding]) 32 = Ok rootKey.

(** The result [r] of an end whose transcript is [t] and whose proofs are [v]. *)
Record confirmed (p : HandshakeCoreParams) (t : Transcript) (v : Proofs) (r : HandshakeResult) : Prop := {
  co_transcript : transcript_ok (pq_suite (hp_pqMode p)) t;
  co_channel : t_channelInput t = hp_channelInput p;
  co_secret : blen (hr_secret r) = 32;
  co_dhPubR : blen (v_dhPubR v) = 32;
  co_dhPubI : blen (v_dhPubI v) = 32;
  co_macR : blen (v_macR v) = 64;
  co_macI : blen (v_macI v) = 64;
  co_R : proof_R t (hr_secret r) (v_dhPubR v) = Ok (v_macR v);
  co_I : proof_I t (hr_secret r) (v_dhPubR v) (v_dhPubI v) (v_macR v) = Ok (v_macI v);
  co_F : proof_F t (hr_secret r) (v_dhPubR v) (v_dhPubI v) (v_macR v) (v_macI v) = Ok (v_macF v);
  co_healing : healing_of t (hr_secret r) (pb_rootKey (hr_pqHealing r)) (pb_binding (hr_pqHealing r));
  co_turn : pb_nextOfferer (hr_pqHealing r) = if hp_amInitiator p then local else remote;
}.

Lemma hmac_length key msg mac : hmacSha512 key msg = Ok mac -> blen mac = 64.
Proof.
  unfold hmacSha512. destruct (_hkdf_sha512_extract key msg) as [r out].
  destruct (r =? 0); [|done]. intros [= <-]. by apply blen_region.
Qed.

Lemma set_field_length n value field : 0 <= n -> set_field n value = Ok field -> blen field = n.
Proof.
  intros Hn H. unfold set_field in H. binds H. rewrite require_ok, Z.leb_le in E. subst field.
  pose proof (blen_nonneg value). rewrite bset_zeros by lia. blen.
Qed.

Lemma cpace_share_length p sid e started :
  startCpace p sid e = Ok started -> blen (cpace_share started) = 32.
Proof.
  intros H. unfold startCpace in H. destruct (hp_mode p); [injection H as <-; by apply blen_zeros|].
  destruct (hp_pin p) as [thePin|]; [|done].
  destruct (deriveGenerator _ _ _) as [G|]; [|done]. cbn [mbind result_bind] in H.
  destruct (cpaceStart G e) as [[y Y]|] eqn:Hs; [|done]. cbn [mbind result_bind map_err] in H.
  injection H as <-. cbn [cpace_share]. unfold cpaceStart in Hs. binds Hs.
  destruct (_cpace_ristretto255_scalarmult _ _) as [st share]. destruct (st =? 0); [|done].
  cbn [negb] in Hs. injection Hs as <- <-. by apply blen_region.
Qed.

Lemma initRatchet_pub seed role remote suite e s :
  initRatchet seed role remote suite e = Ok s -> blen (dhSelfPub s) = 32.
Proof.
  intros H. unfold initRatchet in H. destruct (x25519Keypair e) as [kp|] eqn:Hk; [|done].
  apply x25519Keypair_length in Hk as [Hk _]. cbn [map_err mbind result_bind] in H.
  destruct role; [|by injection H as <-]. destruct remote as [pub|]; [|done].
  destruct (x25519Dh _ _); [|done]. cbn [map_err mbind result_bind] in H.
  destruct (kdfRk _ _) as [[rk ck]|]; [|done]. cbn [map_err mbind result_bind] in H. by injection H as <-.
Qed.

Lemma acceptHello_inv p mode frame peer : acceptHello p (helloLayout mode) frame = Ok peer ->
  hello_ok (pq_suite mode) peer /\ frame = hello_bytes peer.
Proof.
  intros H. unfold acceptHello in H. binds H. subst. rewrite <- layout_suite. by apply parseHello_inv.
Qed.

Lemma selfHello_ok p suite sid ek Y pk ct : params_ok p -> blen sid = 32 -> blen ek = 32 -> blen Y = 32 ->
  blen pk = publicKeyBytes suite -> blen ct = ciphertextBytes suite ->
  hello_ok suite (selfHello p sid ek Y pk ct).
Proof. intros [] **. by split. Qed.

Lemma deriveSecrets_inv p suite ek started ss self peer t secret pb :
  deriveSecrets p suite ek started ss self peer = Ok (t, secret, pb) ->
  t = transcript (hp_amInitiator p) self peer (hp_channelInput p) /\ blen secret = 32 /\
  healing_of t secret (pb_rootKey pb) (pb_binding pb) /\
  pb_nextOfferer pb = if hp_amInitiator p then local else remote.
Proof.
  intros H. unfold deriveSecrets in H. binds H. destruct x1 as [secret' pb']. injection H as <- <- <-.
  unfold hybridSecrets in E1. binds E1. injection E1 as <- <-.
  apply map_err_ok in E3, E4, E5. cbn [pb_rootKey pb_binding pb_nextOfferer]. split_and!; [done|by eapply hkdfExpand_length|split; [done|]|done].
  by eexists.
Qed.

Lemma suite_lengths mode : 0 <= publicKeyBytes (pq_suite mode) /\ 0 <= ciphertextBytes (pq_suite mode).
Proof. by destruct mode. Qed.

Lemma core_resolves h p e evs r : resolves evs (performHandshakeCore h p e) (Ok r) <->
  exists mlKem ek self peer started ss t secret pb evs1 evs2,
    createMlKemBackend (pq_suite (hp_pqMode p)) true h = Ok mlKem /\
    x25519Keypair (en_ek e) = Ok ek /\
    evs = evs1 ++ evs2 /\
    resolves evs1
      (if hp_amInitiator p
       then helloInitiator p e (helloLayout (hp_pqMode p)) mlKem (region SID_LEN (en_sid e)) ek
       else helloResponder p e (helloLayout (hp_pqMode p)) mlKem (region SID_LEN (en_sid e)) ek)
      (Ok (self, peer, started, ss)) /\
    deriveSecrets p (pq_suite (hp_pqMode p)) ek started ss self peer = Ok (t, secret, pb) /\
    resolves evs2
      (if hp_amInitiator p
       then confirmInitiator (roomPqModeToRootSuite (hp_pqMode p)) e t secret
       else confirmResponder (roomPqModeToRootSuite (hp_pqMode p)) e t secret) (Ok (hr_state r)) /\
    hr_secret r = secret /\ hr_pqHealing r = pb.
Proof.
  unfold performHandshakeCore. rewrite layout_suite. split.
  - intros H. unsettle H. repeat match goal with H : map_err _ _ = Ok _ |- _ => apply map_err_ok in H end.
    apply resolves_bind in H as (evs1 & evs2 & [[[self peer] started] ss] & -> & Hhello & H). unsettle H.
    apply resolves_bind in H as (evs3 & evs4 & state & -> & Hconf & H). unsettle H.
    subst r. eexists _, _, _, _, _, _, _, _, _, _, _.
    rewrite app_nil_r. by split_and!.
  - intros (mlKem & ek & self & peer & started & ss & t & secret & pb & evs1 & evs2 & Hb & Hek & -> &
      H1 & Hd & H2 & Hs & Hp).
    apply wait_bind. exists mlKem. split; [by rewrite Hb|]. apply wait_bind. exists ek.
    split; [by rewrite Hek|]. apply resolves_bind. eexists evs1, evs2, _. split_and!; [done|exact H1|].
    cbv beta iota. apply wait_bind. eexists. split; [exact Hd|]. cbv beta iota.
    apply resolves_bind. eexists evs2, [], _. split_and!; [by rewrite app_nil_r|exact H2|].
    apply ret_resolves. split; [done|]. destruct r. cbn in *. congruence.
Qed.

Lemma blen_sid e : blen (region SID_LEN (en_sid e)) = 32.
Proof. by apply blen_region. Qed.

Ltac hello_self Hek :=
  apply selfHello_ok; [done|apply blen_sid|apply (x25519Keypair_length _ _ Hek)
    |by eapply cpace_share_length|..].

(** What the initiator's frames were, and what it returned. *)
Lemma initiator_view h p e evs r : params_ok p -> hp_amInitiator p = true ->
  resolves evs (performHandshakeCore h p e) (Ok r) ->
  exists t v, evs = left_events (conversation t v) /\ confirmed p t v r /\
    v_dhPubI v = dhSelfPub (hr_state r) /\
    initRatchet (hr_secret r) true (Some (v_dhPubR v)) (roomPqModeToRootSuite (hp_pqMode p))
      (en_ratchet e) = Ok (hr_state r).
Proof.
  intros Hp Ha. rewrite core_resolves, Ha.
  intros (mlKem & ek & self & peer & started & ss & t & secret & pb & evs1 & evs2 & Hb & Hek & -> &
    Hh & Hd & Hc & <- & Hpb).
  apply helloInitiator_resolves in Hh as (kp & pk & frame & -> & Hk & Hpk & Hst & Hself & Hacc & Hdec).
  apply confirmInitiator_resolves in Hc
    as (cR & fR & dhPubR & macR & macI & macF & -> & Hcon & Hinit & HI & HR & Hfin & HF).
  apply deriveSecrets_inv in Hd as (-> & Hsec & Hheal & Hturn). rewrite Ha in *.
  apply acceptHello_inv in Hacc as [Hpeer ->]. destruct (suite_lengths (hp_pqMode p)) as [Hn1 Hn2].
  rewrite layout_suite in Hpk, Hself. assert (hello_ok (pq_suite (hp_pqMode p)) self) as Hok.
  { rewrite Hself. hello_self Hek; [by eapply set_field_length|by apply blen_zeros]. }
  apply parseConfirm_inv in Hcon as (HdR & HmR & ->). apply parseFinish_inv in Hfin as [HmF ->].
  exists (transcript true self peer (hp_channelInput p)),
    {| v_dhPubR := dhPubR; v_dhPubI := dhSelfPub (hr_state r); v_macR := macR; v_macI := macI; v_macF := macF |}.
  pose proof (initRatchet_pub _ _ _ _ _ _ Hinit) as HdI. pose proof (hmac_length _ _ _ HI) as HmI.
  rewrite packHello_bytes by (by rewrite layout_suite). rewrite packConfirm_bytes by done.
  split_and!; [done| |done..]. split; cbn; rewrite ?Hpb, ?Ha; done.
Qed.

(** The responder's side. *)
Lemma responder_view h p e evs r : params_ok p -> hp_amInitiator p = false ->
  resolves evs (performHandshakeCore h p e) (Ok r) ->
  exists t v s0, evs = right_events (conversation t v) /\ confirmed p t v r /\
    v_dhPubR v = dhSelfPub s0 /\
    initRatchet (hr_secret r) false None (roomPqModeToRootSuite (hp_pqMode p)) (en_ratchet e) = Ok s0 /\
    primeResponderRatchet (v_dhPubI v) (en_prime e) s0 = (Ok tt, hr_state r).
Proof.
  intros Hp Ha. rewrite core_resolves, Ha.
  intros (mlKem & ek & self & peer & started & ss & t & secret & pb & evs1 & evs2 & Hb & Hek & -> &
    Hh & Hd & Hc & <- & Hpb).
  apply helloResponder_resolves in Hh as (frame & ct & ctf & -> & Hacc & Henc & Hct & Hst & Hself).
  apply confirmResponder_resolves in Hc
    as (cI & dhPubI & macR & macI & macF & s0 & -> & Hinit & HR & Hcon & HI & Hprime & HF).
  apply deriveSecrets_inv in Hd as (-> & Hsec & Hheal & Hturn). rewrite Ha in *.
  apply acceptHello_inv in Hacc as [Hpeer ->]. destruct (suite_lengths (hp_pqMode p)) as [Hn1 Hn2].
  rewrite layout_suite in Hct, Hself. assert (hello_ok (pq_suite (hp_pqMode p)) self) as Hok.
  { rewrite Hself. hello_self Hek; [by apply blen_zeros|by eapply set_field_length]. }
  apply parseConfirm_inv in Hcon as (HdI & HmI & ->).
  exists (transcript false self peer (hp_channelInput p)),
    {| v_dhPubR := dhSelfPub s0; v_dhPubI := dhPubI; v_macR := macR; v_macI := macI; v_macF := macF |}, s0.
  pose proof (initRatchet_pub _ _ _ _ _ _ Hinit) as HdR. pose proof (hmac_length _ _ _ HR) as HmR.
  pose proof (hmac_length _ _ _ HF) as HmF.
  rewrite packHello_bytes by (by rewrite layout_suite). rewrite packConfirm_bytes, packFinish_bytes by done.
  split_and!; [done| |done..]. split; cbn; rewrite ?Hpb, ?Ha; done.
Qed.

(** ** Agreement *)

(** Two different inputs of HMAC, under keys of the secret's size, with one tag. *)
Definition hmac_collision : Prop :=
  exists k m k' m' mac, blen k = 32 /\ blen k' = 32 /\ (k, m) <> (k', m') /\
    hmacSha512 k m = Ok mac /\ hmacSha512 k' m' = Ok mac.

Lemma hmac_agree k m k' m' mac : blen k = 32 -> blen k' = 32 ->
  hmacSha512 k m = Ok mac -> hmacSha512 k' m' = Ok mac -> hmac_collision \/ k = k' /\ m = m'.
Proof.
  intros Hk Hk' H H'. destruct (decide ((k, m) = (k', m'))) as [[= -> ->]|Hne]; [by right|].
  left. by exists k, m, k', m', mac.
Qed.

(** What two established ends share. *)
Definition agreement (rI rR : HandshakeResult) : Prop :=
  hr_secret rI = hr_secret rR /\
  pb_rootKey (hr_pqHealing rI) = pb_rootKey (hr_pqHealing rR) /\
  pb_binding (hr_pqHealing rI) = pb_binding (hr_pqHealing rR) /\
  pb_nextOfferer (hr_pqHealing rI) = local /\ pb_nextOfferer (hr_pqHealing rR) = remote.

Lemma healing_of_fun t secret r b r' b' : healing_of t secret r b -> healing_of t secret r' b' ->
  r = r' /\ b = b'.
Proof. intros [-> (prk & H1 & H2)] [-> (prk' & H1' & H2')]. split; [congruence|done]. Qed.

Lemma confirmed_macI pI pR t t' v v' r r' : hp_pqMode pI = hp_pqMode pR ->
  confirmed pI t v r -> confirmed pR t' v' r' -> v_macI v = v_macI v' ->
  hmac_collision \/ t = t' /\ v = v' /\ hr_secret r = hr_secret r'.
Proof.
  intros Hm [] [] He. rewrite <- He in *. rewrite <- Hm in *.
  destruct (hmac_agree _ _ _ _ _ co_secret0 co_secret1 co_I0 co_I1) as [|[Hs Hi]]; [by left|].
  apply (confirmation_input_inj (pq_suite (hp_pqMode pI))) in Hi as (-> & HdR & Hrest);
    [|try done..|by repeat (apply Forall2_cons; split; [unfold same_length; congruence|])].
  right. injection Hrest as HdI HmR. split_and!; [done| |done].
  assert (v_macF v = v_macF v') as HmF by congruence. destruct v, v'. cbn in *. congruence.
Qed.

Lemma confirmed_macF pI pR t t' v v' r r' : hp_pqMode pI = hp_pqMode pR ->
  confirmed pI t v r -> confirmed pR t' v' r' -> v_macF v = v_macF v' ->
  hmac_collision \/ t = t' /\ v = v' /\ hr_secret r = hr_secret r'.
Proof.
  intros Hm [] [] He. rewrite <- He in *. rewrite <- Hm in *.
  destruct (hmac_agree _ _ _ _ _ co_secret0 co_secret1 co_F0 co_F1) as [|[Hs Hi]]; [by left|].
  apply (confirmation_input_inj (pq_suite (hp_pqMode pI))) in Hi as (-> & HdR & Hrest);
    [|try done..|by repeat (apply Forall2_cons; split; [unfold same_length; congruence|])].
  right. injection Hrest as HdI HmR HmI. split_and!; [done| |done].
  destruct v, v'. cbn in *. congruence.
Qed.

(** C30. Key confirmation.  An initiator and a responder return from the
    handshake, each after the frames the network chose to show it.  If the proof
    that the responder accepted is one the initiator made, or the final proof
    that the initiator accepted is one the responder made, then either two
    different HMAC inputs have one tag, or both ends have sent and received
    exactly the same five frames under the same channel input, and they share
    the root secret, the healing root and the healing binding, with opposite
    turns to offer first. *)
Theorem key_confirmation hI pI eI evsI rI hR pR eR evsR rR :
  params_ok pI -> params_ok pR -> hp_pqMode pI = hp_pqMode pR ->
  hp_amInitiator pI = true -> hp_amInitiator pR = false ->
  resolves evsI (performHandshakeCore hI pI eI) (Ok rI) ->
  resolves evsR (performHandshakeCore hR pR eR) (Ok rR) ->
  exists tI vI tR vR,
    evsI = left_events (conversation tI vI) /\ evsR = right_events (conversation tR vR) /\
    (v_macI vI = v_macI vR \/ v_macF vI = v_macF vR ->
     hmac_collision \/
     conversation tI vI = conversation tR vR /\ hp_channelInput pI = hp_channelInput pR /\
     agreement rI rR).
Proof.
  intros HpI HpR Hm HaI HaR HI HR.
  apply initiator_view in HI as (tI & vI & HeI & HcI & _); [|done..].
  apply responder_view in HR as (tR & vR & s0 & HeR & HcR & _); [|done..].
  exists tI, vI, tR, vR. split_and!; [done..|]. intros Hmac.
  assert (hmac_collision \/ tI = tR /\ vI = vR /\ hr_secret rI = hr_secret rR) as [Hc|(-> & -> & Hs)]
    by (destruct Hmac; eauto using confirmed_macI, confirmed_macF); [by left|right].
  destruct HcI, HcR. rewrite Hs in *.
  destruct (healing_of_fun _ _ _ _ _ _ co_healing0 co_healing1) as [Hr Hb].
  split_and!; [done|congruence|]. rewrite HaI in *. rewrite HaR in *. by split_and!.
Qed.
End KeyConfirmation.
