(* ===== verification/HandshakeRun.v ===== *)
(** * A handshake between honest ends

    When both ends have the same room parameters and each other's cross-signed
    identities, and the module answers, the two functions return under every
    schedule of the asynchronous transport, with linked ratchets and healing
    machines ([handshake_completes]). *)

From stdpp Require Import relations.
From S2P Require Import Prelude Bytes Constants Crypto Proto Cpace X25519 Ratchet RatchetKeys RatchetChain.
From S2P Require Import RatchetSession RoomPolicy MlKem MlKemWasm PqRecord PqMachine PqSafety PqProtocol.
From S2P Require Import Handshake HandshakeConfirm.
Local Open Scope Z_scope.

Section Run.
Context {C : LibCrypto} {P : CpaceModule} {W : WasmModule} {D : IdentityModule}.
Context `{!HkdfTotal C, !DhCommutes C, !DhTotal C, !Sha512Streaming P, !CpaceGroup, !MallocFresh W}.

(** Ends of one edge: the same room, and each knows a cross-signature of the
    other's identity. *)
Record honest_pair (pI pR : HandshakeCoreParams) (idI idR : X25519KeyPair) : Prop := {
  hn_mode : hp_mode pI = hp_mode pR;
  hn_pq : hp_pqMode pI = hp_pqMode pR;
  hn_pin : hp_pin pI = hp_pin pR;
  hn_channel : hp_channelInput pI = hp_channelInput pR;
  hn_roleI : hp_amInitiator pI = true;
  hn_roleR : hp_amInitiator pR = false;
  hn_idI : exists e, x25519Keypair e = Ok idI;
  hn_idR : exists e, x25519Keypair e = Ok idR;
  hn_secI : hp_idSelfSec pI = x_secretKey idI;
  hn_secR : hp_idSelfSec pR = x_secretKey idR;
  hn_pubI : hp_selfIdentityX25519Pub pI = x_publicKey idI;
  hn_pubR : hp_selfIdentityX25519Pub pR = x_publicKey idR;
  hn_okI : params_ok pI;
  hn_okR : params_ok pR;
  hn_sigI : verifyIdentityCrossSig (x_publicKey idI) (hp_selfIdentityCrossSignature pI)
              (hp_peerIdentityEd25519Pub pR) = Ok true;
  hn_sigR : verifyIdentityCrossSig (x_publicKey idR) (hp_selfIdentityCrossSignature pR)
              (hp_peerIdentityEd25519Pub pI) = Ok true;
  hn_pinned : hp_mode pI = pin -> exists w, hp_pin pI = Some w /\ field_safe w;
  hn_safe : field_safe (hp_channelInput pI);
}.

(** ** The component secrets *)

Lemma three_dh_total idI idR ekI ekR :
  (exists e, x25519Keypair e = Ok idI) -> (exists e, x25519Keypair e = Ok idR) ->
  (exists e, x25519Keypair e = Ok ekI) -> (exists e, x25519Keypair e = Ok ekR) ->
  exists s,
    deriveInteractive3dhSecret (x_secretKey idI) (x_publicKey idR) (x_secretKey ekI) (x_publicKey ekR) true = Ok s /\
    deriveInteractive3dhSecret (x_secretKey idR) (x_publicKey idI) (x_secretKey ekR) (x_publicKey ekI) false = Ok s.
Proof.
  intros (a & Ha) (b & Hb) (c & Hc) (d & Hd).
  rewrite <- (three_dh_agrees c a d b) by done.
  unfold deriveInteractive3dhSecret.
  destruct (dh_total _ _ _ _ Hc Hd) as (s1 & ->). destruct (dh_total _ _ _ _ Ha Hd) as (s2 & H2).
  destruct (dh_total _ _ _ _ Hc Hb) as (s3 & H3). cbn [mbind result_bind]. rewrite H2.
  cbn [mbind result_bind]. rewrite H3. cbn [mbind result_bind].
  destruct (hkdf_total THREE_DH_SALT (bset (bset (bset (zeros 96) 0 s2) 32 s3) 64 s1) THREE_DH_INFO 32 ltac:(done))
    as (prk & okm & -> & Ho). by exists okm.
Qed.

Lemma hybridSecrets_total mode suite t pake ids ss : exists secret root, forall role,
  hybridSecrets mode suite t pake ids ss role =
    Ok (secret, {| pb_rootKey := root; pb_binding := subtle_digest_sha256 (pqBindingInput t);
                   pb_nextOfferer := if role : bool then local else remote |}).
Proof.
  pose (ikm := concatUint8Arrays (match mode with pin => [pake; ids; ss] | nopin => [ids; ss] end)).
  destruct (hkdf_total HS_HYBRID_KDF_SALT ikm (hybridInfo mode suite t) 32 ltac:(done)) as (prk & secret & Hx & Hs).
  set (b := subtle_digest_sha256 (pqBindingInput t)).
  destruct (hkdf_total PQ_HEALING_ROOT_SALT secret (concatUint8Arrays [PQ_HEALING_ROOT_INFO; b]) 32 ltac:(done))
    as (prk' & root & Hx' & Hr).
  exists secret, root. intros role. unfold hybridSecrets. cbv zeta. fold ikm b. rewrite Hx. cbn [map_err mbind result_bind]. rewrite Hs.
  cbn [map_err mbind result_bind]. rewrite Hx'. cbn [map_err mbind result_bind]. by rewrite Hr.
Qed.

(** Both ends start CPace on the initiator's session id and finish alike. *)
Lemma cpace_pair pI pR idI idR sid eI eR : honest_pair pI pR idI idR -> blen sid = 32 ->
  exists stI stR,
    startCpace pI sid eI = Ok stI /\ startCpace pR sid eR = Ok stR /\
    forall peerI peerR t, he_y peerI = cpace_share stR -> he_y peerR = cpace_share stI ->
      he_sid (t_I t) = sid -> he_y (t_I t) = cpace_share stI -> he_y (t_R t) = cpace_share stR ->
      exists k, pakeSecretOf pI stI peerI t = Ok k /\ pakeSecretOf pR stR peerR t = Ok k.
Proof.
  intros [] Hsid. unfold startCpace, pakeSecretOf. rewrite <- hn_mode0, <- hn_pin0, <- hn_channel0.
  destruct (hp_mode pI).
  { exists None, None. split_and!; [done..|]. intros. by exists []. }
  destruct (hn_pinned0 eq_refl) as (w & -> & Hw).
  assert (field_safe sid) as Hss by (unfold field_safe; by rewrite Hsid).
  rewrite deriveGenerator_spec by done. cbn [mbind result_bind].
  set (s := generator_string w sid (hp_channelInput pI)).
  destruct (cpaceStart_ok s eI) as (YI & -> & HI). destruct (cpaceStart_ok s eR) as (YR & -> & HR).
  destruct (shared_point _ _ _ _ _ HI HR) as (k & HkI & HkR).
  eexists _, _. split_and!; [done..|]. cbn [cpace_share]. intros peerI peerR t -> -> Hs HyI HyR.
  rewrite Hs, HyI, HyR. exists (isk sid k (region 32 YI) (region 32 YR)).
  split; (erewrite cpaceFinish_ok; [done|done|by apply blen_region..|done]).
Qed.

(** ** The messages *)

Lemma acceptHello_ok p mode x : hello_ok (pq_suite mode) x ->
  checkHelloRole (hp_amInitiator p) x = Ok tt ->
  verifyIdentityCrossSig (he_x25519Pub x) (he_crossSig x) (hp_peerIdentityEd25519Pub p) = Ok true ->
  acceptHello p (helloLayout mode) (hello_bytes x) = Ok x.
Proof.
  intros Hx Hr Hv. unfold acceptHello. rewrite parseHello_pack by (by rewrite layout_suite).
  cbn [mbind result_bind]. rewrite Hr. cbn [mbind result_bind]. by rewrite Hv.
Qed.

Lemma allZero_zeros n : allZero (zeros n) = true.
Proof. unfold allZero. apply Z.eqb_eq, or_all_zero. by unfold zeros, blen; rewrite length_replicate, Nat2Z.id. Qed.

Lemma hmac_total key msg : exists mac, hmacSha512 key msg = Ok mac /\ blen mac = 64.
Proof.
  unfold hmacSha512. pose proof (hkdf_extract_total key msg) as Hr.
  destruct (_hkdf_sha512_extract key msg) as [r out]. cbn in Hr. subst r. eexists. split; [done|].
  by apply blen_region.
Qed.

Lemma set_field_id n value : n = blen value -> set_field n value = Ok value.
Proof.
  intros ->. unfold set_field. rewrite (proj2 (Z.leb_le _ _)) by lia. cbn [require mbind result_bind].
  rewrite bset_zeros by lia. rewrite zeros_0 by lia. by rewrite app_nil_r.
Qed.

(** ** The two confirmations *)

Lemma confirmations suite eI eR t secret : exists v sI sR ck ck',
  resolves [In (confirm_bytes (v_dhPubR v) (v_macR v)); Out (confirm_bytes (v_dhPubI v) (v_macI v));
           In (finish_bytes (v_macF v))] (confirmInitiator suite eI t secret) (Ok sI) /\
  resolves [Out (confirm_bytes (v_dhPubR v) (v_macR v)); In (confirm_bytes (v_dhPubI v) (v_macI v));
           Out (finish_bytes (v_macF v))] (confirmResponder suite eR t secret) (Ok sR) /\
  sending_on ck (dhSelfPub sI) sI /\ Ns sI = 0 /\ fresh_receiver ck (dhSelfPub sI) sR /\
  paired sR sI ck' /\ Ns sR = 0.
Proof.
  destruct (bootstrap_agrees secret suite (en_ratchet eR) (en_ratchet eI) (en_prime eR))
    as (s0 & sI & sR & ck & ck' & H0 & HsI & Hprime & Hrest).
  pose proof (initRatchet_pub _ _ _ _ _ _ H0) as Hd0. pose proof (initRatchet_pub _ _ _ _ _ _ HsI) as HdI.
  destruct (hmac_total secret (buildConfirmationInput t HS_KC_RESPONDER_DOMAIN (dhSelfPub s0) None []))
    as (macR & HR & HlR).
  destruct (hmac_total secret (buildConfirmationInput t HS_KC_INITIATOR_DOMAIN (dhSelfPub s0)
    (Some (dhSelfPub sI)) [macR])) as (macI & HI & HlI).
  destruct (hmac_total secret (buildConfirmationInput t HS_KC_RESPONDER_FINISH_DOMAIN (dhSelfPub s0)
    (Some (dhSelfPub sI)) [macR; macI])) as (macF & HF & HlF).
  exists {| v_dhPubR := dhSelfPub s0; v_dhPubI := dhSelfPub sI; v_macR := macR; v_macI := macI; v_macF := macF |},
    sI, sR, ck, ck'. cbn [v_dhPubR v_dhPubI v_macR v_macI v_macF]. split_and!; try apply Hrest.
  - apply confirmInitiator_resolves. eexists _, _, (dhSelfPub s0), macR, macI, macF.
    rewrite packConfirm_bytes by done. split_and!; try done.
    + by apply parseConfirm_pack.
    + by apply parseFinish_pack.
  - apply confirmResponder_resolves. eexists _, (dhSelfPub sI), macR, macI, macF, s0.
    rewrite packConfirm_bytes, packFinish_bytes by done. split_and!; try done. by apply parseConfirm_pack.
Qed.

(** ** The run *)

(** mlkem-native for the suite of the room: on these coins key generation,
    encapsulation to the key it made and decapsulation return 0 with outputs of
    the suite's sizes and one shared secret (FIPS 203); the public key and the
    ciphertext are not all zero, which both peers refuse; and each end's heap has
    room for the blocks of a call. *)
Record kem_ready (suite : MlKemSuiteDescriptor) (hI hR : heap) (eI eR : HandshakeEntropy) : Prop := {
  kr_exports : requireMlKemExports suite = Ok tt;
  kr_room_I : has_room suite hI;
  kr_room_R : has_room suite hR;
  kr_calls : exists pk sk ct ss,
    call_keypair (keypair (wasmExports suite)) (region (keyPairRandomBytes suite) (en_kem eI)) = (0, (pk, sk)) /\
    call_encaps (encaps (wasmExports suite)) pk (region (encapsRandomBytes suite) (en_kem eR)) = (0, (ct, ss)) /\
    call_decaps (decaps (wasmExports suite)) ct sk = (0, ss) /\
    blen pk = publicKeyBytes suite /\ blen sk = secretKeyBytes suite /\
    blen ct = ciphertextBytes suite /\ blen ss = sharedSecretBytes suite /\
    allZero pk = false /\ allZero ct = false;
}.

Lemma backend_created mode h : requireMlKemExports (pq_suite mode) = Ok tt ->
  createMlKemBackend (pq_suite mode) true h = Ok (wasm_backend (pq_suite mode) h).
Proof. intros Hx. unfold createMlKemBackend. destruct mode; cbn in *; by rewrite Hx. Qed.

Lemma pq_suite_sizes mode : buffer_sizes (pq_suite mode).
Proof. by destruct mode. Qed.

(** The KEM part of the HELLOs, each end on its own heap. *)
Lemma kem_exchange mode hI hR eI eR : kem_ready (pq_suite mode) hI hR eI eR ->
  exists pk sk ct ss,
    generateKeyPair (MlKemBackend := wasm_backend (pq_suite mode) hI) (en_kem eI) =
      Some {| kp_public := pk; kp_secret := sk |} /\
    encapsulate (MlKemBackend := wasm_backend (pq_suite mode) hR) (en_kem eR) pk = Some (ct, ss) /\
    decapsulate (MlKemBackend := wasm_backend (pq_suite mode) hI) ct sk = Some ss /\
    blen pk = publicKeyBytes (pq_suite mode) /\ blen ct = ciphertextBytes (pq_suite mode) /\
    allZero pk = false /\ allZero ct = false.
Proof.
  intros [_ HI HR (pk & sk & ct & ss & Hck & Hce & Hcd & Hpk & Hsk & Hct & Hss & Hzp & Hzc)].
  exists pk, sk, ct, ss. cbn [generateKeyPair encapsulate decapsulate wasm_backend].
  rewrite generateKeyPair_answer, encapsulate_answer, decapsulate_answer, Hck, Hce, Hcd by done.
  unfold answer. cbn [Z.eqb]. by rewrite !region_id.
Qed.

(** Two results that fit together: the same secrets, ratchets of which either
    end can send first, and healing machines at the two ends of one edge. *)
Definition linked_ends (suite : MlKemSuiteDescriptor) (rI rR : HandshakeResult) : Prop :=
  agreement rI rR /\
  (exists ck ck', sending_on ck (dhSelfPub (hr_state rI)) (hr_state rI) /\ Ns (hr_state rI) = 0 /\
     fresh_receiver ck (dhSelfPub (hr_state rI)) (hr_state rR) /\
     paired (hr_state rR) (hr_state rI) ck' /\ Ns (hr_state rR) = 0) /\
  (forall B : MlKemBackend, backend_suite = suite -> exists mI mR,
     new_machine suite (pb_binding (hr_pqHealing rI)) (pb_rootKey (hr_pqHealing rI))
       (pb_nextOfferer (hr_pqHealing rI)) 0 0 0 = Ok mI /\
     new_machine suite (pb_binding (hr_pqHealing rR)) (pb_rootKey (hr_pqHealing rR))
       (pb_nextOfferer (hr_pqHealing rR)) 0 0 0 = Ok mR /\
     winitial (Node mI [], Node mR [])).

Lemma machines_start mode b root : blen b = 32 -> blen root = 32 ->
  forall B : MlKemBackend, backend_suite = pq_suite mode -> exists mI mR,
    new_machine (pq_suite mode) b root local 0 0 0 = Ok mI /\
    new_machine (pq_suite mode) b root remote 0 0 0 = Ok mR /\ winitial (Node mI [], Node mR []).
Proof.
  intros Hb Hr B HB.
  assert (forall turn, exists m, new_machine (pq_suite mode) b root turn 0 0 0 = Ok m) as Hm.
  { intros turn. unfold new_machine, requireBytes. rewrite Hb, Hr, HB. destruct mode; by eexists. }
  destruct (Hm local) as (mI & HI), (Hm remote) as (mR & HR). exists mI, mR. split_and!; [done..|].
  exists (pq_suite mode), b, root, 0, 0, 0, mI, mR. by split_and!; [..|left].
Qed.

Lemma deriveSecrets_ok p suite ek started ss self peer ids pake secret root t :
  deriveInteractive3dhSecret (hp_idSelfSec p) (he_x25519Pub peer) (x_secretKey ek) (he_ek peer)
    (hp_amInitiator p) = Ok ids ->
  t = transcript (hp_amInitiator p) self peer (hp_channelInput p) ->
  pakeSecretOf p started peer t = Ok pake ->
  (forall role, hybridSecrets (hp_mode p) suite t pake ids ss role =
     Ok (secret, {| pb_rootKey := root; pb_binding := subtle_digest_sha256 (pqBindingInput t);
                    pb_nextOfferer := if role : bool then local else remote |})) ->
  deriveSecrets p suite ek started ss self peer =
    Ok (t, secret, {| pb_rootKey := root; pb_binding := subtle_digest_sha256 (pqBindingInput t);
                      pb_nextOfferer := if hp_amInitiator p then local else remote |}).
Proof.
  intros Hi -> Hp Hh. unfold deriveSecrets. rewrite Hi. cbn [map_err mbind result_bind]. cbv zeta.
  rewrite Hp. cbn [mbind result_bind]. by rewrite Hh.
Qed.

(** The HELLO phase of both ends, with the secrets that come out of it. *)
Lemma hellos pI pR idI idR eI eR hI hR : honest_pair pI pR idI idR ->
  kem_ready (pq_suite (hp_pqMode pI)) hI hR eI eR ->
  let suite := pq_suite (hp_pqMode pI) in
  let layout := helloLayout (hp_pqMode pI) in
  exists ekI ekR I R stI stR ss secret root t,
    x25519Keypair (en_ek eI) = Ok ekI /\ x25519Keypair (en_ek eR) = Ok ekR /\
    t = transcript true I R (hp_channelInput pI) /\ blen secret = 32 /\ blen root = 32 /\
    resolves [Out (hello_bytes I); In (hello_bytes R)]
      (helloInitiator pI eI layout (wasm_backend suite hI) (region SID_LEN (en_sid eI)) ekI)
      (Ok (I, R, stI, ss)) /\
    resolves [In (hello_bytes I); Out (hello_bytes R)]
      (helloResponder pR eR layout (wasm_backend suite hR) (region SID_LEN (en_sid eR)) ekR)
      (Ok (R, I, stR, ss)) /\
    deriveSecrets pI suite ekI stI ss I R =
      Ok (t, secret, {| pb_rootKey := root; pb_binding := subtle_digest_sha256 (pqBindingInput t);
                        pb_nextOfferer := local |}) /\
    deriveSecrets pR suite ekR stR ss R I =
      Ok (t, secret, {| pb_rootKey := root; pb_binding := subtle_digest_sha256 (pqBindingInput t);
                        pb_nextOfferer := remote |}).
Proof.
  intros Hh Hk suite layout. subst layout.
  destruct (keypair_total (en_ek eI)) as (ekI & HekI). destruct (keypair_total (en_ek eR)) as (ekR & HekR).
  destruct (kem_exchange (hp_pqMode pI) hI hR eI eR Hk)
    as (pk & sk & ct & ss & Hgen & Henc & Hdec & Hpk & Hct & Hzpk & Hzct).
  fold suite in Hgen, Henc, Hdec, Hpk, Hct.
  pose (sid := region SID_LEN (en_sid eI)).
  destruct (cpace_pair pI pR idI idR sid (en_scalar eI) (en_scalar eR) Hh (blen_sid eI))
    as (stI & stR & HstI & HstR & Hpake).
  pose (I := selfHello pI sid (x_publicKey ekI) (cpace_share stI) pk (zeros (ciphertextBytes suite))).
  pose (R := selfHello pR (region SID_LEN (en_sid eR)) (x_publicKey ekR) (cpace_share stR)
               (zeros (publicKeyBytes suite)) ct).
  pose (t := transcript true I R (hp_channelInput pI)).
  destruct (suite_lengths (hp_pqMode pI)) as [Hn1 Hn2].
  destruct Hh.
  assert (hello_ok suite I) as HI.
  { apply selfHello_ok; [done|apply blen_sid|apply (x25519Keypair_length _ _ HekI)
      |by eapply cpace_share_length|done|by apply blen_zeros]. }
  assert (hello_ok suite R) as HR.
  { apply selfHello_ok; [done|apply blen_sid|apply (x25519Keypair_length _ _ HekR)
      |by eapply cpace_share_length|by apply blen_zeros|done]. }
  destruct (three_dh_total idI idR ekI ekR) as (ids & HdI & HdR); [eauto..|].
  destruct (Hpake R I t) as (k & HkI & HkR); [done..|].
  destruct (hybridSecrets_total (hp_mode pI) suite t k ids ss) as (secret & root & Hyb).
  exists ekI, ekR, I, R, stI, stR, ss, secret, root, t.
  assert (blen secret = 32 /\ blen root = 32) as [Hls Hlr].
  { specialize (Hyb true). unfold hybridSecrets in Hyb. binds Hyb. injection Hyb as -> ->.
    apply map_err_ok in E0, E2. split; by eapply hkdfExpand_length. }
  split_and!; try done.
  - apply helloInitiator_resolves. eexists _, pk, (hello_bytes R).
    rewrite packHello_bytes by (by rewrite layout_suite). rewrite layout_suite. split_and!; try done.
    + by apply set_field_id.
    + apply acceptHello_ok; [done|..].
      * rewrite hn_roleI0. cbn. by rewrite allZero_zeros, Hzct.
      * cbn. by rewrite hn_pubR0.
  - apply helloResponder_resolves. eexists (hello_bytes I), ct, ct.
    rewrite packHello_bytes by (by rewrite layout_suite). rewrite layout_suite. split_and!; try done.
    + apply acceptHello_ok; [done|..].
      * rewrite hn_roleR0. cbn. by rewrite allZero_zeros, Hzpk.
      * cbn. by rewrite hn_pubI0.
    + by apply set_field_id.
  - erewrite deriveSecrets_ok; [by rewrite hn_roleI0|..|exact Hyb].
    + rewrite hn_secI0, hn_roleI0. cbn. rewrite hn_pubR0. exact HdI.
    + by rewrite hn_roleI0.
    + exact HkI.
  - erewrite deriveSecrets_ok; [by rewrite hn_roleR0|..|rewrite <- hn_mode0; exact Hyb].
    + rewrite hn_secR0, hn_roleR0. cbn. rewrite hn_pubI0. exact HdR.
    + rewrite hn_roleR0, <- hn_channel0. done.
    + exact HkR.
Qed.

(** One run of both ends, frame by frame. *)
Lemma honest_runs pI pR idI idR eI eR hI hR :
  honest_pair pI pR idI idR -> kem_ready (pq_suite (hp_pqMode pI)) hI hR eI eR ->
  (forall x, blen (subtle_digest_sha256 x) = 32) ->
  exists rI rR t v, linked_ends (pq_suite (hp_pqMode pI)) rI rR /\
    resolves (left_events (conversation t v)) (performHandshakeCore hI pI eI) (Ok rI) /\
    resolves (right_events (conversation t v)) (performHandshakeCore hR pR eR) (Ok rR).
Proof.
  intros Hh Hk H256.
  destruct (hellos pI pR idI idR eI eR hI hR Hh Hk)
    as (ekI & ekR & I & R & stI & stR & ss & secret & root & t & HekI & HekR & Ht & Hls & Hlr & HhI & HhR & HdI & HdR).
  destruct Hh. destruct (confirmations (roomPqModeToRootSuite (hp_pqMode pI)) eI eR t secret)
    as (v & sI & sR & ck & ck' & HcI & HcR & Hlink).
  exists {| hr_state := sI; hr_secret := secret; hr_pqHealing := {| pb_rootKey := root;
    pb_binding := subtle_digest_sha256 (pqBindingInput t); pb_nextOfferer := local |} |}.
  exists {| hr_state := sR; hr_secret := secret; hr_pqHealing := {| pb_rootKey := root;
    pb_binding := subtle_digest_sha256 (pqBindingInput t); pb_nextOfferer := remote |} |}, t, v.
  split; [split; [done|split; [by exists ck, ck'|apply machines_start; [apply H256|done]]]|].
  split; apply core_resolves; rewrite ?hn_roleI0, ?hn_roleR0, <- ?hn_pq0.
  - eexists _, ekI, I, R, stI, ss, t, secret, _, _, _.
    split_and!; [apply backend_created, Hk|done| |exact HhI|exact HdI|exact HcI|done|done]. by subst t.
  - eexists _, ekR, R, I, stR, ss, t, secret, _, _, _.
    split_and!; [apply backend_created, Hk|done| |exact HhR|exact HdR|exact HcR|done|done]. by subst t.
Qed.

(** C29. Two honest ends of an edge, with or without a PIN, run the handshake
    over an asynchronous transport that keeps the order of frames.  Whatever
    the schedule has done so far, the run can be completed, and it always ends
    with both functions returned and no frame under way.  The results fit
    together: one root secret, one healing root and binding with opposite turns,
    ratchets in which the initiator's sending chain is the responder's receiving
    chain and the responder's sending chain is paired with the initiator, and
    two healing machines that start as the ends of one edge. *)
Theorem handshake_completes pI pR idI idR eI eR hI hR :
  honest_pair pI pR idI idR -> kem_ready (pq_suite (hp_pqMode pI)) hI hR eI eR ->
  (forall x, blen (subtle_digest_sha256 x) = 32) ->
  exists rI rR,
    linked_ends (pq_suite (hp_pqMode pI)) rI rR /\
    forall y, rtc lstep (Link (performHandshakeCore hI pI eI) (performHandshakeCore hR pR eR) [] []) y ->
      rtc lstep y (Link (Done (Ok rI)) (Done (Ok rR)) [] []).
Proof.
  intros Hh Hk H256. destruct (honest_runs _ _ _ _ _ _ hI hR Hh Hk H256) as (rI & rR & t & v & Hl & HI & HR).
  exists rI, rR. split; [done|]. intros y Hy. eapply link_confluent; [|apply done_quiescent|exact Hy].
  by apply (conversation_runs (conversation t v)).
Qed.
End Run.
