(* ===== verification/PqRecovery.v ===== *)
(** * Progress of the healing exchange

    When the backend and the HKDF answer, every call whose guards hold returns
    ([*_runs]); from every reachable state of two linked ends a finite schedule
    of calls brings both ends back to idle on one root, and a fresh exchange
    moves both ends to the next epoch. *)

From stdpp Require Import relations.
From S2P Require Import Prelude Bytes Crypto MlKem PqRecord PqMachine PqInvariant PqSafety.
From S2P Require Import PqProtocol.
Local Open Scope Z_scope.

Ltac phase_of Hx Hp := phase_facts (ni_machine _ Hx) Hp.

Section Recovery.
Context {C : LibCrypto} {B : MlKemBackend} `{!HkdfTotal C, !MlKemCorrect B, !MlKemTotal B}.
Implicit Types (m : machine) (x y p q : node).

(** ** Calls that return *)

Lemma lift_ok {A} (r : pq A) a m : r = Ok a -> lift r m = (Ok a, m).
Proof. by intros ->. Qed.
Lemma guard_true b c m : b = true -> guard b c m = (Ok tt, m).
Proof. by intros ->. Qed.
Lemma sync_runs {A} (f : unit -> method A) m :
  ready m -> (assertSynchronous ≫= f) m = f tt m.
Proof. intros [? ?]. unfold mbind, M_bind. by rewrite assertSynchronous_ready. Qed.
Lemma bind_runs {A D} (c : method A) (f : A -> method D) m a m' :
  c m = (Ok a, m') -> (c ≫= f) m = f a m'.
Proof. unfold mbind, M_bind. by intros ->. Qed.

Lemma can_start_runs m : machine_inv m -> can_start m -> assertCanStartExchange m = (Ok tt, m).
Proof.
  intros [? ? ? ? ? ? _ _] (? & ? & ?). unfold assertCanStartExchange, mbind, M_bind, get_this.
  unfold lift. by rewrite !(proj2 (requireIncrementableU64_ok _)) by lia.
Qed.

Lemma expected_counter_runs m c : c = m_remoteCounter m ->
  requireExpectedCounter c m = (Ok tt, m).
Proof.
  intros ->. unfold requireExpectedCounter, mbind, M_bind, get_this, guard, lift.
  by rewrite Z.ltb_irrefl.
Qed.
Lemma expected_epoch_runs m c : c = m_epoch m -> requireExpectedEpoch c m = (Ok tt, m).
Proof.
  intros ->. unfold requireExpectedEpoch, mbind, M_bind, get_this, guard, lift.
  by rewrite Z.ltb_irrefl.
Qed.

(** A record with the expected counter is never taken for a known one. *)
Lemma fresh_offer_runs m o : machine_inv m -> m_phase m = Idle ->
  senderCounter (offer_header o) = m_remoteCounter m ->
  rejectKnownOfferReplayOrFork o m = (Ok tt, m).
Proof.
  intros Hm Hp Hc. unfold rejectKnownOfferReplayOrFork, mbind, M_bind, get_this, knownOffer.
  rewrite Hp. destruct (m_lastInboundOffer m) as [k|] eqn:Hk; [|done].
  destruct (inv_last m Hm) as [Hlo _]. apply Hlo in Hk as (_ & _ & Hk).
  unfold sameOfferSlot, sameSlot. by rewrite (proj2 (Z.eqb_neq _ _)) by lia.
Qed.
Lemma fresh_advance_runs m d o kp : machine_inv m -> m_phase m = OutboundOffer true o kp ->
  senderCounter (advance_header d) = m_remoteCounter m ->
  rejectKnownAdvanceReplayOrFork d m = (Ok tt, m).
Proof.
  intros Hm Hp Hc. unfold rejectKnownAdvanceReplayOrFork, mbind, M_bind, get_this, knownAdvance.
  rewrite Hp. destruct (m_lastInboundAdvance m) as [k|] eqn:Hk; [|done].
  destruct (inv_last m Hm) as [_ Hla]. apply Hla in Hk as (_ & _ & Hk).
  unfold sameAdvanceSlot, sameSlot. by rewrite (proj2 (Z.eqb_neq _ _)) by lia.
Qed.

Lemma deriveNextRoot_runs root ss r : blen root = PQ_HEALING_ROOT_BYTES ->
  exists next, deriveNextRoot root ss r = Ok next.
Proof.
  intros Hr. unfold deriveNextRoot. rewrite (proj2 (requireBytes_ok _ _) Hr).
  destruct (hkdf_total root ss (KDF_DOMAIN ++ r) PQ_HEALING_ROOT_BYTES ltac:(done)) as (prk & next & -> & Hx).
  cbn [mbind result_bind map_err]. rewrite Hx. eauto.
Qed.

(** The sizes of the machine's suite are those of its backend. *)
Lemma suite_sizes m : machine_inv m ->
  publicKeyBytes (m_suite m) = publicKeyBytes backend_suite /\
  secretKeyBytes (m_suite m) = secretKeyBytes backend_suite /\
  ciphertextBytes (m_suite m) = ciphertextBytes backend_suite /\
  sharedSecretBytes (m_suite m) = sharedSecretBytes backend_suite.
Proof.
  intros Hm. pose proof (inv_suite m Hm) as H. unfold assertSameSuite in H. binds H.
  rewrite check_ok, !andb_true_iff, !Z.eqb_eq in H. destruct H as (((Hps & ?) & ?) & ?).
  split_and!; try done.
  unfold assertCanonicalSuite in E, E0. rewrite <- Hps in E0.
  destruct (getMlKemSuite (parameterSet (m_suite m))) as [c|]; [|done].
  rewrite check_ok, !andb_true_iff, !Z.eqb_eq in E, E0. destruct_and!. congruence.
Qed.

Lemma abort_runs m o kp : ready m -> m_phase m = OutboundOffer false o kp ->
  abortUnsentOffer m = (Ok tt, set_phase Idle m).
Proof.
  intros Hr Hp. unfold abortUnsentOffer. rewrite sync_runs by done.
  unfold mbind, M_bind, get_this. by rewrite Hp.
Qed.

Lemma dispatch_runs m o kp : ready m -> m_phase m = OutboundOffer false o kp ->
  copyPendingOutboundRecord m = (Ok (offer_bytes o), m) /\
  markOfferDispatched m = (Ok tt, set_phase (OutboundOffer true o kp) m).
Proof.
  intros Hr Hp. unfold copyPendingOutboundRecord, markOfferDispatched. rewrite !sync_runs by done.
  unfold mbind, M_bind, get_this. by rewrite Hp.
Qed.

Lemma acceptOffer_runs m r o : machine_inv m -> ready m -> m_phase m = Idle ->
  m_nextOfferer m = remote -> decodeOffer r (m_suite m) (Some (m_binding m)) = Ok o ->
  senderCounter (offer_header o) = m_remoteCounter m -> fromEpoch (offer_header o) = m_epoch m ->
  can_start m -> acceptAuthenticatedOffer r m = (Ok tt, set_phase (InboundOffer o) m).
Proof.
  intros Hm Hr Hp Hn Hd Hc Hf Hcs. unfold acceptAuthenticatedOffer. rewrite sync_runs by done.
  erewrite bind_runs by done. erewrite bind_runs by (by apply lift_ok).
  erewrite bind_runs by (by apply fresh_offer_runs).
  rewrite Hp, Hn. erewrite bind_runs by (by apply guard_true, bool_decide_eq_true).
  erewrite bind_runs by (by apply guard_true, bool_decide_eq_true).
  erewrite bind_runs by (by apply expected_counter_runs).
  erewrite bind_runs by (by apply expected_epoch_runs).
  by erewrite bind_runs by (by apply can_start_runs).
Qed.

Lemma begin_runs {A} (f : unit -> method A) m : ready m ->
  (beginAsyncOperation ≫= f) m = f tt (set_busy true m).
Proof.
  intros Hr. unfold beginAsyncOperation. apply bind_runs. by rewrite sync_runs.
Qed.
Lemma on_throw_runs {A} (body : method A) f m a m' :
  body m = (Ok a, m') -> on_throw body f m = (Ok a, m').
Proof. unfold on_throw. by intros ->. Qed.
Lemma finally_runs {A} (body : method A) f m a m' :
  body m = (Ok a, m') -> finally body f m = (Ok a, f m').
Proof. unfold finally. by intros ->. Qed.
Lemma active_runs {A} (f : unit -> method A) m : m_destroyed m = false ->
  (assertActive ≫= f) m = f tt m.
Proof.
  intros Hd. unfold mbind, M_bind, assertActive, mbind, M_bind, get_this, guard, lift.
  by rewrite Hd.
Qed.

Lemma prepareOffer_runs m coins : machine_inv m -> ready m -> m_phase m = Idle ->
  m_nextOfferer m = local -> can_start m -> blen coins = keyPairRandomBytes backend_suite ->
  exists o kp, prepareOffer coins m =
    (Ok (offer_bytes o), set_phase (OutboundOffer false o kp) m).
Proof.
  intros Hm Hr Hp Hn Hcs Hco. destruct (suite_sizes m Hm) as (Hpk & Hsk & _).
  destruct (generateKeyPair_total _ Hco) as (kp & Hg & Hkp & Hks).
  destruct (canonical_tag _ (inv_canonical m Hm)) as (tag & Htag & _).
  assert (0 <= m_epoch m < MAX_U64) as He by (destruct Hm, Hcs; lia).
  pose proof (encodeOffer_ok (m_suite m) (inv_canonical m Hm) (m_binding m) (inv_binding m Hm)
    (m_localCounter m) (m_epoch m) (kp_public kp) tag (inv_local m Hm) He
    ltac:(congruence) Htag) as Henc.
  set (r := headerBytes _ _ _ _ _ _ ++ _) in Henc.
  set (o := {| offer_header := {| senderCounter := m_localCounter m; fromEpoch := m_epoch m;
                 toEpoch := m_epoch m + 1 |}; offer_bytes := r; publicKey := kp_public kp |}).
  assert (decodeOffer r (m_suite m) (Some (m_binding m)) = Ok o) as Hd.
  { apply decodeOffer_iff; [by apply inv_canonical|apply Hm|done]. }
  exists o, kp. unfold prepareOffer. rewrite Hg.
  erewrite bind_runs; [|unfold prepareOffer_start; rewrite begin_runs by done; apply on_throw_runs].
  2: { erewrite bind_runs by done. cbn [set_busy m_phase m_nextOfferer]. rewrite Hp, Hn.
       erewrite bind_runs by (by apply guard_true, bool_decide_eq_true).
       erewrite bind_runs by (by apply guard_true, bool_decide_eq_true).
       apply can_start_runs; [by apply machine_inv_busy|done]. }
  unfold prepareOffer_resume. erewrite finally_runs; [|rewrite active_runs by apply Hr].
  2: { erewrite bind_runs by done. cbn [set_busy m_suite m_binding m_localCounter m_epoch].
       erewrite bind_runs by (apply lift_ok, requireBytes_ok; congruence).
       erewrite bind_runs by (apply lift_ok, requireBytes_ok; congruence).
       erewrite bind_runs by (by apply lift_ok). by erewrite bind_runs by (by apply lift_ok). }
  f_equal. apply set_phase_unbusy, Hr.
Qed.

(** The key offered is one the backend of the offerer has generated. *)
Definition generated_offer (o : DecodedOffer) : Prop := exists kp, generated kp /\ kp_public kp = publicKey o.

Lemma offered_key x b o kp : node_inv x -> m_phase (nm x) = OutboundOffer b o kp -> generated_offer o.
Proof.
  intros Hx Hp. pose proof (ni_keys _ Hx) as Hk. unfold phase_keys in Hk. rewrite Hp in Hk.
  phase_of Hx Hp. exists kp. split; [done|]. by destruct Hph as (_ & [Hpk _] & _).
Qed.

Lemma prepareAdvance_runs m coins o : machine_inv m -> ready m -> generated_offer o ->
  m_phase m = InboundOffer o -> blen coins = encapsRandomBytes backend_suite ->
  exists a root, prepareAdvance coins m =
    (Ok (advance_bytes a), set_phase (OutboundAdvancePrepared o a root) m).
Proof.
  intros Hm Hr (kp & (coins' & Hk) & Hkp) Hp Hco. destruct (suite_sizes m Hm) as (_ & _ & Hct & Hss).
  pose proof (inv_phase m Hm) as Hph. unfold phase_inv in Hph. rewrite Hp in Hph.
  destruct Hph as (Ho & _ & _ & Hf & Hcs).
  pose proof (canonical_sizes _ (inv_canonical m Hm)).
  destruct (decodeOffer_length _ _ _ _ Ho) as (Hlen & _ & _ & _ & Hfr & Hto).
  destruct (encapsulate_total coins' kp coins) as (ct & ss & Hen & Hctl & Hssl); [done|done|]. rewrite Hkp in Hen.
  destruct (canonical_tag _ (inv_canonical m Hm)) as (tag & Htag & _).
  pose proof (encodeAdvance_ok (m_suite m) (inv_canonical m Hm) (m_binding m) (inv_binding m Hm)
    (m_localCounter m) o ct tag (inv_local m Hm) Hfr Hto Hlen
    ltac:(congruence) Htag) as Henc.
  set (r := headerBytes _ _ _ _ _ _ ++ _) in Henc.
  set (a := {| advance_header := {| senderCounter := m_localCounter m;
                 fromEpoch := fromEpoch (offer_header o); toEpoch := toEpoch (offer_header o) |};
               advance_bytes := r; advance_offer := o; ciphertext := ct |}).
  assert (decodeAdvance r (m_suite m) (Some (m_binding m)) = Ok a) as Hd.
  { apply decodeAdvance_iff; [by apply inv_canonical|apply Hm|done]. }
  destruct (deriveNextRoot_runs (m_rootKey m) ss r (inv_root m Hm)) as (root & Hroot).
  exists a, root. unfold prepareAdvance.
  erewrite bind_runs; [|unfold prepareAdvance_start; rewrite begin_runs by done; apply on_throw_runs].
  2: { erewrite bind_runs by done. cbn [set_busy m_phase m_localCounter]. rewrite Hp.
       by erewrite bind_runs by
         (apply lift_ok, requireIncrementableU64_ok; destruct Hm, Hcs; lia). }
  unfold prepareAdvance_resume. rewrite Hen.
  erewrite finally_runs; [|rewrite active_runs by apply Hr].
  2: { erewrite bind_runs by done. cbn [set_busy m_suite m_binding m_localCounter m_rootKey].
       erewrite bind_runs by (apply lift_ok, requireBytes_ok; congruence).
       erewrite bind_runs by (apply lift_ok, requireBytes_ok; congruence).
       erewrite bind_runs by (by apply lift_ok). erewrite bind_runs by (by apply lift_ok).
       by erewrite bind_runs by (by apply lift_ok). }
  f_equal. apply set_phase_unbusy, Hr.
Qed.

Lemma commitPrepared_runs m o a root : machine_inv m -> ready m ->
  m_phase m = OutboundAdvancePrepared o a root ->
  exists m', commitPreparedAdvance m = (Ok (advance_bytes a), m') /\
    m_phase m' = OutboundAdvanceAwaitingAck o a.
Proof.
  intros Hm Hr Hp. pose proof (inv_phase m Hm) as Hph. unfold phase_inv in Hph. rewrite Hp in Hph.
  destruct Hph as (_ & _ & _ & _ & _ & _ & Hroot & _).
  unfold commitPreparedAdvance. rewrite sync_runs by done.
  erewrite bind_runs by done. rewrite Hp.
  erewrite bind_runs by (by apply lift_ok, requireBytes_ok). by eexists.
Qed.

Lemma acceptAdvance_runs m r d o kp ss : machine_inv m -> ready m ->
  m_phase m = OutboundOffer true o kp -> decodeAdvance r (m_suite m) (Some (m_binding m)) = Ok d ->
  senderCounter (advance_header d) = m_remoteCounter m ->
  fromEpoch (advance_header d) = m_epoch m ->
  offer_bytes (advance_offer d) = offer_bytes o ->
  decapsulate (ciphertext d) (kp_secret kp) = Some ss ->
  blen ss = sharedSecretBytes (m_suite m) ->
  exists root, acceptAuthenticatedAdvance r m =
    (Ok tt, set_phase (InboundAdvancePrepared o d kp root) m).
Proof.
  intros Hm Hr Hp Hd Hc Hf Ho Hss Hlen.
  destruct (deriveNextRoot_runs (m_rootKey m) ss (advance_bytes d) (inv_root m Hm)) as (root & Hroot).
  exists root. unfold acceptAuthenticatedAdvance.
  erewrite bind_runs;
    [|unfold acceptAuthenticatedAdvance_start; rewrite begin_runs by done; apply on_throw_runs].
  2: { erewrite bind_runs by done. cbn [set_busy m_suite m_binding m_phase].
       erewrite bind_runs by (by apply lift_ok).
       erewrite bind_runs by (eapply fresh_advance_runs; [by apply machine_inv_busy|done..]).
       rewrite Hp. erewrite bind_runs by (by apply expected_counter_runs).
       erewrite bind_runs by (by apply expected_epoch_runs).
       by erewrite bind_runs by (by apply guard_true, bytesEqual_spec). }
  cbn [fst snd]. rewrite Hss. unfold acceptAuthenticatedAdvance_resume.
  erewrite finally_runs; [|rewrite active_runs by apply Hr].
  2: { erewrite bind_runs by done. cbn [set_busy m_suite m_rootKey].
       erewrite bind_runs by (by apply lift_ok, requireBytes_ok).
       by erewrite bind_runs by (by apply lift_ok). }
  f_equal. apply set_phase_unbusy, Hr.
Qed.

Lemma commitAccepted_runs m o a kp root : machine_inv m -> ready m ->
  m_phase m = InboundAdvancePrepared o a kp root ->
  exists m', commitAcceptedAdvance m = (Ok (ack_of a), m') /\
    m_phase m' = InboundAdvanceAwaitingAckDispatch a.
Proof.
  intros Hm Hr Hp. pose proof (inv_phase m Hm) as Hph. unfold phase_inv in Hph. rewrite Hp in Hph.
  destruct Hph as (_ & _ & _ & _ & _ & _ & _ & Hroot & _).
  unfold commitAcceptedAdvance. rewrite sync_runs by done.
  erewrite bind_runs by done. rewrite Hp. erewrite bind_runs by done.
  erewrite bind_runs by (by apply lift_ok, requireBytes_ok). by eexists.
Qed.

(** The acknowledgement of a well-formed ADVANCE fits in 64 bits. *)
Lemma ack_of_valid m a : machine_inv m -> advance_wf m a -> toEpoch (advance_header a) = m_epoch m ->
  requireAcknowledgement (ack_of a) = Ok (ack_of a).
Proof.
  intros Hm Ha Ht. pose proof Ha as Hd. unfold advance_wf in Hd.
  apply decodeAdvance_iff in Hd as (He & _); [|by apply inv_canonical|apply Hm].
  apply encodeAdvance_inv in He as (Hc & _).
  unfold requireAcknowledgement, ack_of. cbn [ack_epoch advanceCounter]. destruct Hm.
  by rewrite !(proj2 (requireU64_ok _)) by lia.
Qed.

Lemma markAck_runs m a : machine_inv m -> ready m ->
  m_phase m = InboundAdvanceAwaitingAckDispatch a ->
  markAdvanceAcknowledgementDispatched (ack_of a) m = (Ok tt, set_phase Idle m).
Proof.
  intros Hm Hr Hp. pose proof (inv_phase m Hm) as Hph. unfold phase_inv in Hph. rewrite Hp in Hph.
  destruct Hph as (Ha & _ & _ & _ & Ht & _).
  unfold markAdvanceAcknowledgementDispatched. rewrite sync_runs by done.
  erewrite bind_runs by (by eapply lift_ok, ack_of_valid). erewrite bind_runs by done. rewrite Hp.
  by erewrite bind_runs by (apply guard_true; cbn; rewrite Ht, !Z.eqb_refl; done).
Qed.

Lemma acceptAck_runs m o a : machine_inv m -> ready m ->
  m_phase m = OutboundAdvanceAwaitingAck o a ->
  acceptAuthenticatedAdvanceAcknowledgement (ack_of a) m = (Ok tt, set_phase Idle m).
Proof.
  intros Hm Hr Hp. pose proof (inv_phase m Hm) as Hph. unfold phase_inv in Hph. rewrite Hp in Hph.
  destruct Hph as (Ha & _ & _ & _ & _ & Ht & _).
  unfold acceptAuthenticatedAdvanceAcknowledgement. rewrite sync_runs by done.
  erewrite bind_runs by (by eapply lift_ok, ack_of_valid). erewrite bind_runs by done. rewrite Hp.
  by erewrite bind_runs by (apply guard_true; cbn; rewrite Ht, !Z.eqb_refl; done).
Qed.

(** ** Recovery *)

Definition settled (w : node * node) : Prop :=
  m_phase (nm w.1) = Idle /\ m_phase (nm w.2) = Idle.
Definition settles x y : Prop := exists w', rtc wstep (x, y) w' /\ settled w'.

Lemma settles_sym x y : settles x y -> settles y x.
Proof.
  intros (w' & Hs & Hd). remember (x, y) as w eqn:Hw. revert x y Hw.
  induction Hs as [w|w w1 w2 H1 _ IH]; intros x y ->.
  - exists (y, x). split; [done|]. unfold settled in *. naive_solver.
  - destruct w1 as [x1 y1]. destruct (IH Hd x1 y1 eq_refl) as (w' & Hs' & Hd').
    exists w'. split; [|done]. eapply rtc_l; [|done].
    inversion H1; subst; by constructor.
Qed.

Lemma settles_l x y x' : act x y x' -> settles x' y -> settles x y.
Proof. intros Ha (w' & ? & ?). exists w'. split; [|done]. eapply rtc_l; [by constructor|done]. Qed.
Lemma settles_r x y y' : act y x y' -> settles x y' -> settles x y.
Proof. intros Ha (w' & ? & ?). exists w'. split; [|done]. eapply rtc_l; [by constructor|done]. Qed.

(** The turns tell the orientation. *)
Lemma turns_synced p q : world_inv p q -> m_nextOfferer (nm p) = local ->
  m_nextOfferer (nm q) = remote -> synced p q.
Proof.
  intros [Hp Hq _ [[H|H]|[H|H]]] Hl Hr; [done| | |].
  - destruct H as [_ _ _ (o & a & kp & Hi & _)]. phase_of Hq Hi.
    destruct Hph as (_ & _ & Hn & _). congruence.
  - destruct H. congruence.
  - destruct H as [_ _ _ (o & a & kp & Hi & _ & Hi')].
    destruct Hi' as [Hi'|Hi']; phase_of Hq Hi'; destruct_and!; congruence.
Qed.

(** The answerer is idle and nothing has been dispatched to it. *)
Lemma settles_idle p q : world_inv p q -> synced p q -> m_phase (nm q) = Idle ->
  (forall o kp, m_phase (nm p) <> OutboundOffer true o kp) -> settles p q.
Proof.
  intros Hw Hs Hq Hno. pose proof (ni_ready _ (wi_l _ _ Hw)) as Hr.
  pose proof (ni_machine _ (wi_l _ _ Hw)) as Hm.
  pose proof (sy_phase _ _ Hs) as Hph. rewrite Hq in Hph.
  pose proof (sy_p _ _ Hs) as Hn. pose proof (inv_phase _ Hm) as Hpi. unfold phase_inv in Hpi.
  revert Hph Hpi Hno.
  destruct (m_phase (nm p)) as [|[] o kp|o|o a root|o a|o a kp root|a] eqn:Hp; intros Hph Hpi Hno;
    try (by destruct_and?; congruence).
  - exists (p, q). by split.
  - eapply settles_l; [by eapply act_abortUnsentOffer, abort_runs|].
    eexists. by split.
  - eapply settles_l; [by eapply (act_acceptAck _ _ _ _ Hph), acceptAck_runs|].
    eexists. by split.
  - done.
Qed.

(** The answerer has committed: the offerer catches up. *)
Lemma settles_half_prepared p q o a kp root : world_inv p q -> half p q ->
  m_phase (nm p) = InboundAdvancePrepared o a kp root -> settles p q.
Proof.
  intros Hw Hh Hp. pose proof (ni_ready _ (wi_l _ _ Hw)) as Hr.
  pose proof (ni_machine _ (wi_l _ _ Hw)) as Hm.
  destruct (commitAccepted_runs _ _ _ _ _ Hm Hr Hp) as (m1 & H1 & Hp1).
  pose proof (act_commitAcceptedAdvance p q _ _ H1) as Ha.
  pose proof (act_world_inv _ _ _ Hw Ha) as Hw1. apply (settles_l _ _ _ Ha).
  set (p1 := Node m1 _) in *.
  pose proof (markAck_runs _ _ (ni_machine _ (wi_l _ _ Hw1)) (ni_ready _ (wi_l _ _ Hw1)) Hp1) as H2.
  pose proof (act_markAckDispatched p1 q _ _ H2) as Ha2.
  pose proof (act_world_inv _ _ _ Hw1 Ha2) as Hw2. apply (settles_l _ _ _ Ha2).
  destruct Hh as [_ _ _ (? & ? & ? & Hq & _)]. apply settles_sym, settles_idle.
  - by apply world_inv_sym.
  - apply turns_synced; [by apply world_inv_sym| |].
    + phase_of (wi_r _ _ Hw2) Hq. by destruct Hph as (_ & _ & ? & _).
    + apply commitAcceptedAdvance_ok in H1 as (_ & ? & ? & ? & ? & _ & _ & _ & ->). done.
  - done.
  - intros. congruence.
Qed.

Lemma settles_half p q o kp : world_inv p q -> half p q ->
  m_phase (nm p) = OutboundOffer true o kp -> settles p q.
Proof.
  intros Hw Hh Hp. pose proof Hh as [He Hqp Hpq (o' & a & kp' & Hq & Hlead & Hp')].
  destruct Hp' as [Hp'|Hp']; [|congruence].
  assert (o' = o) as -> by congruence. assert (kp' = kp) as -> by congruence.
  destruct Hw as [Hpi Hqi Hc Hl] eqn:HW. clear HW. destruct Hc as [Hc1 Hc2].
  phase_of Hqi Hq. destruct Hph as (Ha & -> & _ & Hcnt & _ & Ht & _).
  destruct (advance_wf_facts _ _ (ni_machine _ Hqi) Ha) as (_ & _ & Hte).
  phase_of Hpi Hp. destruct Hph as (_ & [Hpk _] & Hn & _).
  pose proof (ni_keys _ Hpi) as Hk. unfold phase_keys in Hk. rewrite Hp in Hk.
  destruct Hk as (coins' & Hk). destruct Hlead as (coins & ss & Hen & Hlen & Hder).
  rewrite <- Hpk in Hen. pose proof (decapsulate_encapsulate _ _ _ _ _ Hk Hen) as Hss.
  unfold advance_wf in Ha. rewrite Hc1, Hc2 in Ha. rewrite Hc1 in Hlen.
  pose proof (ni_outbox _ Hqi) as Hout. unfold outbox_inv in Hout. rewrite Hq in Hout.
  destruct (acceptAdvance_runs (nm p) (advance_bytes a) a (advance_offer a) kp ss) as (root & H1);
    try done; try apply Hpi; try lia.
  pose proof (act_acceptAdvance p q _ _ Hout H1) as Hact. apply (settles_l _ _ _ Hact).
  pose proof (act_world_inv _ _ _ Hw Hact) as Hw1.
  eapply settles_half_prepared; [done| |done].
  destruct (half_p _ _ _ Hpi Hqi (conj Hc1 Hc2) Hh Hact) as [|Hbad]; [done|].
  apply sy_q in Hbad. cbn in Hbad. congruence.
Qed.

Lemma settles_answering p q o a root : world_inv p q -> synced p q ->
  m_phase (nm q) = OutboundAdvancePrepared o a root -> settles p q.
Proof.
  intros Hw Hs Hq. pose proof (ni_ready _ (wi_r _ _ Hw)) as Hr.
  pose proof (ni_machine _ (wi_r _ _ Hw)) as Hm.
  pose proof (sy_phase _ _ Hs) as Hph. rewrite Hq in Hph. destruct Hph as ((kp & Hp) & _).
  destruct (commitPrepared_runs _ _ _ _ Hm Hr Hq) as (m1 & H1 & Hq1).
  pose proof (act_commitPreparedAdvance q p _ _ H1) as Ha. apply (settles_r _ _ _ Ha).
  pose proof (act_world_inv _ _ _ (world_inv_sym _ _ Hw) Ha) as Hw1%world_inv_sym.
  eapply settles_half; [done| |done].
  destruct (synced_q _ _ _ (wi_l _ _ Hw) (wi_r _ _ Hw) (wi_config _ _ Hw) Hs Ha) as [Hbad|]; [|done].
  apply sy_q in Hbad. cbn in Hbad.
  apply commitPreparedAdvance_ok in H1 as (_ & ? & ? & ? & _ & _ & _ & ->). done.
Qed.

(** Entropy of the sizes that the backend asks for. *)
Lemma backend_coins m : machine_inv m ->
  blen (zeros (keyPairRandomBytes backend_suite)) = keyPairRandomBytes backend_suite /\
  blen (zeros (encapsRandomBytes backend_suite)) = encapsRandomBytes backend_suite.
Proof.
  intros Hm. pose proof (inv_suite m Hm) as H. unfold assertSameSuite in H. binds H.
  unfold assertCanonicalSuite in E0.
  assert (forall s c, getMlKemSuite s = Some c ->
    keyPairRandomBytes c = 64 /\ encapsRandomBytes c = 32) as Hc
    by (intros s c; unfold getMlKemSuite; intros; repeat case_match; by simplify_eq).
  destruct (getMlKemSuite _) as [c|] eqn:Hg; [|done]. apply Hc in Hg as [Hg1 Hg2].
  rewrite check_ok, !andb_true_iff, !Z.eqb_eq in E0. destruct_and!.
  split; apply blen_zeros; lia.
Qed.

Lemma settles_accepted p q o : world_inv p q -> synced p q ->
  m_phase (nm q) = InboundOffer o -> settles p q.
Proof.
  intros Hw Hs Hq. pose proof (ni_ready _ (wi_r _ _ Hw)) as Hr.
  pose proof (ni_machine _ (wi_r _ _ Hw)) as Hm. destruct (backend_coins _ Hm) as [_ Hco].
  pose proof (sy_phase _ _ Hs) as Hph. rewrite Hq in Hph. destruct Hph as (kp & Hp).
  destruct (prepareAdvance_runs _ _ _ Hm Hr (offered_key _ _ _ _ (wi_l _ _ Hw) Hp) Hq Hco) as (a & root & H1).
  pose proof (act_prepareAdvance q p _ _ _ H1) as Ha. apply (settles_r _ _ _ Ha).
  pose proof (act_world_inv _ _ _ (world_inv_sym _ _ Hw) Ha) as Hw1%world_inv_sym.
  eapply settles_answering; [done| |done].
  apply turns_synced; [done|apply Hs|]. cbn. apply Hs.
Qed.

Lemma settles_offered p q o kp : world_inv p q -> synced p q ->
  m_phase (nm p) = OutboundOffer true o kp -> m_phase (nm q) = Idle -> settles p q.
Proof.
  intros Hw Hs Hp Hq. pose proof (ni_ready _ (wi_r _ _ Hw)) as Hr.
  pose proof (ni_machine _ (wi_r _ _ Hw)) as Hm. destruct (wi_config _ _ Hw) as [Hc1 Hc2].
  phase_of (wi_l _ _ Hw) Hp. destruct Hph as (Ho & _ & _ & Hl & Hf & Hcs).
  pose proof (ni_outbox _ (wi_l _ _ Hw)) as Hout. unfold outbox_inv in Hout. rewrite Hp in Hout.
  pose proof Hs as [Hnp Hnq He _ Hpq Hqp _].
  assert (acceptAuthenticatedOffer (offer_bytes o) (nm q) =
          (Ok tt, set_phase (InboundOffer o) (nm q))) as H1.
  { apply acceptOffer_runs; try done; [by rewrite Hc1, Hc2|congruence|congruence|].
    unfold can_start in *. lia. }
  pose proof (act_acceptOffer q p _ _ Hout H1) as Ha. apply (settles_r _ _ _ Ha).
  pose proof (act_world_inv _ _ _ (world_inv_sym _ _ Hw) Ha) as Hw1%world_inv_sym.
  eapply settles_accepted; [done| |done]. by apply turns_synced.
Qed.

Lemma settles_synced_idle p q : world_inv p q -> synced p q -> m_phase (nm q) = Idle ->
  settles p q.
Proof.
  intros Hw Hs Hq. destruct (m_phase (nm p)) as [|[] o kp| | | | |] eqn:Hp.
  2: by eapply settles_offered.
  all: apply settles_idle; [done..|]; congruence.
Qed.

Lemma settles_related p q : world_inv p q -> related p q -> settles p q.
Proof.
  intros Hw [Hs|Hh].
  - pose proof (ni_ready _ (wi_r _ _ Hw)) as Hr. pose proof (ni_machine _ (wi_r _ _ Hw)) as Hm.
    pose proof (sy_q _ _ Hs) as Hn. pose proof (inv_phase _ Hm) as Hpi. unfold phase_inv in Hpi.
    destruct (m_phase (nm q)) as [|b o kp|o|o a root|o a|o a kp root|a] eqn:Hq;
      try (by destruct_and?; congruence).
    + by apply settles_synced_idle.
    + by eapply settles_accepted.
    + by eapply settles_answering.
    + pose proof (act_markAckDispatched q p _ _ (markAck_runs _ _ Hm Hr Hq)) as Ha.
      apply (settles_r _ _ _ Ha).
      pose proof (act_world_inv _ _ _ (world_inv_sym _ _ Hw) Ha) as Hw1%world_inv_sym.
      apply settles_synced_idle; [done| |done]. by apply turns_synced; [|apply Hs|].
  - destruct (ha_phase _ _ Hh) as (o & a & kp & _ & _ & [Hp|Hp]);
      [by eapply settles_half|by eapply settles_half_prepared].
Qed.

Lemma world_settles x y : world_inv x y -> settles x y.
Proof.
  intros Hw. destruct (wi_linked _ _ Hw) as [H|H]; [by apply settles_related|].
  by apply settles_sym, settles_related; [apply world_inv_sym|].
Qed.

(** ** One complete exchange *)

Definition run {A} (c : method A) (m : machine) : pq (A * machine) :=
  match c m with (Ok a, m') => Ok (a, m') | (Err e, _) => Err e end.

Definition exchange (coins coins' : bytes) (p q : machine) : pq (machine * machine) :=
  '(offer, p) ← run (prepareOffer coins) p;
  '(_, p) ← run markOfferDispatched p;
  '(_, q) ← run (acceptAuthenticatedOffer offer) q;
  '(_, q) ← run (prepareAdvance coins') q;
  '(advance, q) ← run commitPreparedAdvance q;
  '(_, p) ← run (acceptAuthenticatedAdvance advance) p;
  '(ack, p) ← run commitAcceptedAdvance p;
  '(_, p) ← run (markAdvanceAcknowledgementDispatched ack) p;
  '(_, q) ← run (acceptAuthenticatedAdvanceAcknowledgement ack) q;
  Ok (p, q).

Lemma run_bind {A D} (c : method A) (f : A * machine -> pq D) m a m' :
  c m = (Ok a, m') -> (run c m ≫= f) = f (a, m').
Proof. unfold run. by intros ->. Qed.

(** The offer half: the answerer ends with a committed ADVANCE. *)
Lemma exchange_offer x y coins coins' : world_inv x y -> synced x y ->
  m_phase (nm x) = Idle -> m_phase (nm y) = Idle -> can_start (nm x) ->
  blen coins = keyPairRandomBytes backend_suite ->
  blen coins' = encapsRandomBytes backend_suite ->
  exists x' y' a o kp, world_inv x' y' /\ half x' y' /\
    m_phase (nm x') = OutboundOffer true o kp /\
    m_phase (nm y') = OutboundAdvanceAwaitingAck o a /\
    m_rootKey (nm x') = m_rootKey (nm x) /\ m_epoch (nm x') = m_epoch (nm x) /\
    exchange coins coins' (nm x) (nm y) =
      ('(_, p) ← run (acceptAuthenticatedAdvance (advance_bytes a)) (nm x');
       '(ack, p) ← run commitAcceptedAdvance p;
       '(_, p) ← run (markAdvanceAcknowledgementDispatched ack) p;
       '(_, q) ← run (acceptAuthenticatedAdvanceAcknowledgement ack) (nm y');
       Ok (p, q)).
Proof.
  intros Hw Hs Hx Hy Hcs Hco Hco'.
  destruct (prepareOffer_runs (nm x) coins) as (o & kp & H1);
    [apply Hw|apply Hw|done|apply Hs|done|done|].
  pose proof (act_prepareOffer x y _ _ _ H1) as Ha1.
  pose proof (act_world_inv _ _ _ Hw Ha1) as Hw1. set (x1 := Node _ _) in Ha1, Hw1.
  destruct (dispatch_runs (nm x1) o kp) as [H2 H2']; [apply Hw1|done|].
  pose proof (act_dispatchOffer x1 y _ _ _ H2 H2') as Ha2.
  pose proof (act_world_inv _ _ _ Hw1 Ha2) as Hw2. set (x2 := Node _ _) in Ha2, Hw2.
  pose proof (synced_p _ _ _ (wi_l _ _ Hw) (wi_r _ _ Hw) (wi_config _ _ Hw) Hs Ha1) as Hs1.
  pose proof (synced_p _ _ _ (wi_l _ _ Hw1) (wi_r _ _ Hw1) (wi_config _ _ Hw1) Hs1 Ha2) as Hs2.
  phase_of (wi_l _ _ Hw1) (eq_refl : m_phase (nm x1) = OutboundOffer false o kp).
  destruct Hph as (Ho & _ & _ & Hl & Hf & Hcs1). destruct (wi_config _ _ Hw1) as [Hc1 Hc2].
  pose proof Hs1 as [_ Hnq He _ Hpq Hqp _].
  assert (acceptAuthenticatedOffer (offer_bytes o) (nm y) =
          (Ok tt, set_phase (InboundOffer o) (nm y))) as H3.
  { apply acceptOffer_runs; [apply Hw|apply Hw|done|done| | | |].
    - by rewrite Hc1, Hc2.
    - congruence.
    - congruence.
    - unfold can_start in *. lia. }
  assert (MOffer (offer_bytes o) ∈ nsent x2) as Hin by (cbn; set_solver).
  pose proof (act_acceptOffer y x2 _ _ Hin H3) as Ha3.
  pose proof (act_world_inv _ _ _ (world_inv_sym _ _ Hw2) Ha3) as Hw3. set (y1 := Node _ _) in Ha3, Hw3.
  destruct (prepareAdvance_runs (nm y1) coins' o) as (a & root & H4);
    [apply Hw3|apply Hw3|exact (offered_key x1 false o kp (wi_l _ _ Hw1) eq_refl)|done|done|].
  pose proof (act_prepareAdvance y1 x2 _ _ _ H4) as Ha4.
  pose proof (act_world_inv _ _ _ Hw3 Ha4) as Hw4. set (y2 := Node _ _) in Ha4, Hw4.
  destruct (commitPrepared_runs (nm y2) o a root) as (m5 & H5 & Hp5); [apply Hw4|apply Hw4|done|].
  pose proof (act_commitPreparedAdvance y2 x2 _ _ H5) as Ha5.
  pose proof (act_world_inv _ _ _ Hw4 Ha5) as Hw5%world_inv_sym. set (y3 := Node _ _) in Ha5, Hw5.
  exists x2, y3, a, o, kp. split_and!; try done.
  - destruct (wi_linked _ _ Hw5) as [[Hb|?]|[Hb|Hb]]; [|done| |].
    + apply sy_q in Hb. apply commitPreparedAdvance_ok in H5 as (_ & ? & ? & ? & _ & _ & _ & ->). done.
    + apply sy_q in Hb. cbn in Hb. destruct Hs. congruence.
    + destruct (ha_phase _ _ Hb) as (? & ? & ? & Hb' & _). done.
  - unfold exchange. rewrite (run_bind _ _ _ _ _ H1), (run_bind _ _ _ _ _ H2').
    rewrite (run_bind _ _ _ _ _ H3), (run_bind _ _ _ _ _ H4), (run_bind _ _ _ _ _ H5). done.
Qed.

(** The offerer accepts the committed ADVANCE of its peer. *)
Lemma accept_committed p q o a kp : world_inv p q -> half p q ->
  m_phase (nm p) = OutboundOffer true o kp -> m_phase (nm q) = OutboundAdvanceAwaitingAck o a ->
  acceptAuthenticatedAdvance (advance_bytes a) (nm p) =
    (Ok tt, set_phase (InboundAdvancePrepared o a kp (m_rootKey (nm q))) (nm p)).
Proof.
  intros Hw Hh Hp Hq. pose proof Hh as [He Hqp _ (o' & a' & kp' & Hq' & Hlead & Hp')].
  destruct Hp' as [Hp'|Hp']; [|congruence]. assert (o' = o) as -> by congruence.
  assert (a' = a) as -> by congruence. assert (kp' = kp) as -> by congruence. clear Hq' Hp'.
  destruct (wi_config _ _ Hw) as [Hc1 Hc2]. phase_of (wi_r _ _ Hw) Hq.
  destruct Hph as (Ha & -> & _ & Hcnt & _ & Ht & _).
  destruct (advance_wf_facts _ _ (ni_machine _ (wi_r _ _ Hw)) Ha) as (_ & _ & Hte).
  phase_of (wi_l _ _ Hw) Hp. destruct Hph as (_ & [Hpk _] & Hn & _).
  pose proof (ni_keys _ (wi_l _ _ Hw)) as Hk. unfold phase_keys in Hk. rewrite Hp in Hk.
  destruct Hk as (coins' & Hk). destruct Hlead as (coins & ss & Hen & Hlen & Hder).
  rewrite <- Hpk in Hen. pose proof (decapsulate_encapsulate _ _ _ _ _ Hk Hen) as Hss.
  unfold advance_wf in Ha. rewrite Hc1, Hc2 in Ha. rewrite Hc1 in Hlen.
  destruct (acceptAdvance_runs (nm p) (advance_bytes a) a (advance_offer a) kp ss) as (root & H1);
    try done; try apply Hw; try lia.
  rewrite H1. do 3 f_equal.
  apply acceptAdvance_ok in H1 as (? & ? & ? & ss' & root' & _ & Hd' & Hp1 & _ & _ & _ & Hs' & Hder' & Heq).
  assert (x = a) as -> by congruence. apply (f_equal m_phase) in Heq. cbn in Heq. congruence.
Qed.

Lemma exchange_advance x y o a kp : world_inv x y -> half x y ->
  m_phase (nm x) = OutboundOffer true o kp -> m_phase (nm y) = OutboundAdvanceAwaitingAck o a ->
  exists (p' q' : machine), m_phase p' = Idle /\ m_phase q' = Idle /\
    m_nextOfferer p' = remote /\ m_nextOfferer q' = local /\
    m_epoch p' = m_epoch (nm x) + 1 /\ m_epoch q' = m_epoch (nm x) + 1 /\
    m_rootKey p' = m_rootKey (nm y) /\ m_rootKey q' = m_rootKey (nm y) /\
    ('(_, p) ← run (acceptAuthenticatedAdvance (advance_bytes a)) (nm x);
     '(ack, p) ← run commitAcceptedAdvance p;
     '(_, p) ← run (markAdvanceAcknowledgementDispatched ack) p;
     '(_, q) ← run (acceptAuthenticatedAdvanceAcknowledgement ack) (nm y);
     Ok (p, q)) = Ok (p', q').
Proof.
  intros Hw Hh Hx Hy. pose proof (accept_committed _ _ _ _ _ Hw Hh Hx Hy) as H1.
  pose proof (ni_outbox _ (wi_r _ _ Hw)) as Hout. unfold outbox_inv in Hout. rewrite Hy in Hout.
  pose proof (act_acceptAdvance x y _ _ Hout H1) as Ha1.
  pose proof (act_world_inv _ _ _ Hw Ha1) as Hw1. set (x1 := Node _ _) in Ha1, Hw1.
  destruct (commitAccepted_runs (nm x1) o a kp (m_rootKey (nm y))) as (m2 & H2 & Hp2);
    [apply Hw1|apply Hw1|done|].
  pose proof (act_commitAcceptedAdvance x1 y _ _ H2) as Ha2.
  pose proof (act_world_inv _ _ _ Hw1 Ha2) as Hw2. set (x2 := Node _ _) in Ha2, Hw2.
  pose proof (markAck_runs (nm x2) a (ni_machine _ (wi_l _ _ Hw2)) (ni_ready _ (wi_l _ _ Hw2)) Hp2) as H3.
  pose proof (acceptAck_runs (nm y) o a (ni_machine _ (wi_r _ _ Hw)) (ni_ready _ (wi_r _ _ Hw)) Hy) as H4.
  exists (set_phase Idle m2), (set_phase Idle (nm y)).
  pose proof (ha_epoch _ _ Hh) as He. phase_of (wi_r _ _ Hw) Hy.
  destruct Hph as (Ha & _ & Hn & _ & _ & Ht & _).
  assert (m_nextOfferer m2 = remote /\ m_epoch m2 = m_epoch (nm y) /\ m_rootKey m2 = m_rootKey (nm y))
    as (? & ? & ?).
  { apply commitAcceptedAdvance_ok in H2 as (_ & o' & a' & ? & root' & Hp1 & _ & _ & ->). cbn in *.
    simplify_eq. done. }
  split_and!; cbn; try done; try lia.
  rewrite (run_bind _ _ _ _ _ H1), (run_bind _ _ _ _ _ H2), (run_bind _ _ _ _ _ H3).
  by rewrite (run_bind _ _ _ _ _ H4).
Qed.

(** ** Theorems *)

(** C2. No deadlock: when the backend and the HKDF answer, from every state
    that two ends can reach, including after losses and replays, some finite
    schedule of their calls brings both back to idle, in the same epoch and
    on the same root. *)
Theorem healing_recovers x y : wreachable (x, y) ->
  exists x' y', rtc wstep (x, y) (x', y') /\
    settled (x', y') /\
    m_epoch (nm x') = m_epoch (nm y') /\ m_rootKey (nm x') = m_rootKey (nm y').
Proof.
  intros Hw. pose proof (wreachable_inv _ Hw) as Hi.
  destruct (world_settles _ _ Hi) as ([x' y'] & Hs & Hx & Hy). cbn in Hx, Hy.
  exists x', y'. unfold settled. cbn [fst snd]. destruct Hw as (w0 & H0 & Hs0).
  assert (wreachable (x', y')) as Hw' by (exists w0; split; [done|by etrans]).
  apply wreachable_inv, wi_linked in Hw'. cbn in Hw'.
  destruct Hw' as [[[]|[_ _ _ (? & ? & ? & ? & _)]]|[[]|[_ _ _ (? & ? & ? & ? & _)]]];
    [done|congruence|done|congruence].
Qed.

(** From two idle ends in one epoch, the offering end's turn, one
    exchange run in order returns and leaves both ends idle, in the next
    epoch, with the turn passed on and one root, which is derived from the
    old one. *)
Theorem healing_exchange_completes x y coins coins' : wreachable (x, y) ->
  m_phase (nm x) = Idle -> m_phase (nm y) = Idle -> m_nextOfferer (nm x) = local ->
  can_start (nm x) -> blen coins = keyPairRandomBytes backend_suite ->
  blen coins' = encapsRandomBytes backend_suite ->
  exists (p q : machine), exchange coins coins' (nm x) (nm y) = Ok (p, q) /\
    m_phase p = Idle /\ m_phase q = Idle /\
    m_nextOfferer p = remote /\ m_nextOfferer q = local /\
    m_epoch p = m_epoch (nm x) + 1 /\ m_epoch q = m_epoch (nm x) + 1 /\
    m_rootKey p = m_rootKey q /\
    exists ss advance, deriveNextRoot (m_rootKey (nm x)) ss advance = Ok (m_rootKey p).
Proof.
  intros Hr Hx Hy Hn Hcs Hco Hco'. apply wreachable_inv in Hr as Hw. cbn in Hw.
  assert (synced x y) as Hs.
  { destruct (wi_linked _ _ Hw) as [[?|Hb]|[Hb|Hb]]; [done| | |].
    - destruct (ha_phase _ _ Hb) as (? & ? & ? & ? & _). congruence.
    - apply sy_q in Hb. congruence.
    - destruct (ha_phase _ _ Hb) as (? & ? & ? & ? & _). congruence. }
  destruct (exchange_offer x y coins coins') as (x' & y' & a & o & kp & Hw' & Hh & Hx' & Hy' & Hro & Hep & Heq);
    try done.
  destruct (exchange_advance x' y' o a kp) as (p & q & ? & ? & ? & ? & ? & ? & Hp & Hq & Heq'); try done.
  exists p, q. rewrite Heq, Heq', Hp, Hq, <- Hep. split_and!; try done.
  destruct (ha_phase _ _ Hh) as (? & a' & ? & _ & (coins1 & ss & _ & _ & Hder) & _).
  exists ss, (advance_bytes a'). by rewrite <- Hro.
Qed.
End Recovery.
