(* ===== verification/PqFrame.v ===== *)
(** * Authenticated control frames ([src/src/cryptography/pqHealingFrame.ts])

    Healing records travel in cells of the size of a chunk frame:
    [type | binding | counter | reserved | epoch | nonce] in the clear and
    authenticated, then [length | record | zero padding] encrypted.  Allocation
    and release of module memory have no counterpart; the random nonce is an
    argument. *)

From S2P Require Import Prelude Bytes Constants Crypto MlKem PqRecord X25519 Ratchet WireFrames.
Local Open Scope Z_scope.

Definition CONTROL_ID_OFFSET : Z := FRAME_TYPE_LEN.
Definition CTRL_COUNTER_OFFSET : Z := CONTROL_ID_OFFSET + RATCHET_DHPUB_LEN.
Definition RESERVED_OFFSET : Z := CTRL_COUNTER_OFFSET + RATCHET_N_LEN.
Definition EPOCH_OFFSET : Z := RESERVED_OFFSET + RATCHET_PN_LEN.
Definition NONCE_OFFSET : Z := EPOCH_OFFSET + PQ_EPOCH_LEN.
Definition PQ_CONTROL_FRAME_HEADER_BYTES : Z :=
  FRAME_TYPE_LEN + RATCHET_DHPUB_LEN + RATCHET_N_LEN + RATCHET_PN_LEN + PQ_EPOCH_LEN
  + RATCHET_NONCE_LEN.
Definition PQ_CONTROL_FRAME_PLAINTEXT_BYTES : Z :=
  WIRE_CHUNK_FRAME_LEN - PQ_CONTROL_FRAME_HEADER_BYTES - crypto_aead_chacha20poly1305_ietf_ABYTES.
Definition RECORD_LENGTH_BYTES : Z := 4.
Definition KEY_DOMAIN : bytes := text "p2party/pq-control-frame/key/v1" ++ [byte_of 0].

Inductive PqControlFrameErrorCode :=
  | authentication_failed | frame_binding_mismatch | epoch_mismatch | invalid_direction
  | invalid_frame | invalid_padding | record_mismatch.
Inductive ControlError :=
  | PqControlFrameError (code : PqControlFrameErrorCode)
  | HealingThrow (e : PqError)
  | CryptoModule (e : CryptoError)
  | UnsupportedSuite.
#[export] Instance PqControlFrameErrorCode_eq_dec : EqDecision PqControlFrameErrorCode.
Proof. solve_decision. Defined.

Abbreviation ctl A := (result ControlError A).
Definition cfail {A} (code : PqControlFrameErrorCode) : ctl A := Err (PqControlFrameError code).
Definition ccheck (ok : bool) (code : PqControlFrameErrorCode) : ctl unit :=
  require ok (PqControlFrameError code).

Definition frameRequireBytes (value : bytes) (length : Z) : ctl unit :=
  ccheck (blen value =? length) invalid_frame.
Definition frameRequireU64 (value : Z) : ctl unit := ccheck (is_u64 value) invalid_frame.

Definition directionTag (direction : string) : ctl Z :=
  if bool_decide (direction = "initiator-to-responder"%string) then Ok 1
  else if bool_decide (direction = "responder-to-initiator"%string) then Ok 2
  else cfail invalid_direction.

Definition suiteTag (suite : MlKemSuiteDescriptor) : ctl Z :=
  match getMlKemSuite (parameterSet suite) with
  | None => Err UnsupportedSuite
  | Some canonical =>
      ccheck (bool_decide (standardName suite = standardName canonical)
              && (publicKeyBytes suite =? publicKeyBytes canonical)
              && (secretKeyBytes suite =? secretKeyBytes canonical)
              && (ciphertextBytes suite =? ciphertextBytes canonical)
              && (sharedSecretBytes suite =? sharedSecretBytes canonical)
              && (keyPairRandomBytes suite =? keyPairRandomBytes canonical)
              && (encapsRandomBytes suite =? encapsRandomBytes canonical)) invalid_frame;;
      if parameterSet suite =? 768 then Ok 1
      else if parameterSet suite =? 512 then Ok 2
      else if parameterSet suite =? 1024 then Ok 3
      else cfail invalid_frame
  end.

Definition encodeU64 (value : Z) : bytes := put_u64 (zeros 8) 0 value.

(** The writes into the HKDF info buffer. *)
Definition frameKeyInfo (suite_tag direction_tag : Z) (binding epochBytes : bytes) : bytes :=
  let info := zeros (blen KEY_DOMAIN + 1 + 1 + blen binding + blen epochBytes) in
  let info := bset info 0 KEY_DOMAIN in
  let info := bset info (blen KEY_DOMAIN) [byte_of suite_tag] in
  let info := bset info (blen KEY_DOMAIN + 1) [byte_of direction_tag] in
  let info := bset info (blen KEY_DOMAIN + 2) binding in
  bset info (blen KEY_DOMAIN + 2 + blen binding) epochBytes.

Record InspectedControlRecord := { icr_counter : Z; icr_keyEpoch : Z }.

Definition inspectControlRecord (record : bytes) (suite : MlKemSuiteDescriptor)
    (binding : bytes) : ctl InspectedControlRecord :=
  if blen record =? PQ_HEALING_ACK_BYTES then
    ack ← map_err HealingThrow (decodePqHealingAck record suite binding);
    Ok {| icr_counter := advanceCounter ack; icr_keyEpoch := ack_epoch ack |}
  else
    inspected ← map_err HealingThrow (inspectPqHealingRecord record suite);
    let '(recordBinding, counter, from) :=
      match inspected with
      | OfferRecord r => (or_binding r, or_senderCounter r, or_fromEpoch r)
      | AdvanceRecord r => (ar_binding r, ar_senderCounter r, ar_fromEpoch r)
      end in
    ccheck (bytesEqual recordBinding binding) frame_binding_mismatch;;
    Ok {| icr_counter := counter; icr_keyEpoch := from |}.

Section Frame.
Context {C : LibCrypto}.

Definition deriveFrameKey (suite : MlKemSuiteDescriptor) (rootKey binding : bytes)
    (direction : string) (keyEpoch : Z) : ctl bytes :=
  frameRequireBytes rootKey PQ_HEALING_ROOT_BYTES;;
  frameRequireBytes binding PQ_HEALING_BINDING_BYTES;;
  frameRequireU64 keyEpoch;;
  let epochBytes := encodeU64 keyEpoch in
  st ← suiteTag suite;
  dt ← directionTag direction;
  prk ← map_err CryptoModule (hkdfExtract rootKey binding);
  map_err CryptoModule
    (hkdfExpand prk (frameKeyInfo st dt binding epochBytes)
       crypto_aead_chacha20poly1305_ietf_KEYBYTES).

Definition aeadSeal (key nonce plaintext aad : bytes) : ctl bytes :=
  let outputLength := blen plaintext + crypto_aead_chacha20poly1305_ietf_ABYTES in
  let '(r, output) := _encrypt_chachapoly_symmetric plaintext key nonce aad in
  if negb (r =? 0) then cfail invalid_frame else Ok (region outputLength output).

Definition aeadOpen (key nonce ciphertext aad : bytes) : ctl bytes :=
  let plaintextLength := blen ciphertext - crypto_aead_chacha20poly1305_ietf_ABYTES in
  let '(r, plaintext) := _decrypt_chachapoly_symmetric ciphertext key nonce aad in
  if negb (r =? 0) then cfail authentication_failed else Ok (region plaintextLength plaintext).

(** [nonce] is [randomNonce()]. *)
Definition sealPqControlFrame (suite : MlKemSuiteDescriptor) (rootKey binding : bytes)
    (direction : string) (keyEpoch : Z) (record nonce : bytes) : ctl bytes :=
  frameRequireBytes binding PQ_HEALING_BINDING_BYTES;;
  frameRequireU64 keyEpoch;;
  inspected ← inspectControlRecord record suite binding;
  ccheck (icr_keyEpoch inspected =? keyEpoch) epoch_mismatch;;
  ccheck (negb (PQ_CONTROL_FRAME_PLAINTEXT_BYTES - RECORD_LENGTH_BYTES <? blen record))
    invalid_frame;;
  let header := zeros PQ_CONTROL_FRAME_HEADER_BYTES in
  let header := bset header 0 [byte_of FRAME_TYPE_PQ_CONTROL] in
  let header := bset header CONTROL_ID_OFFSET binding in
  let header := put_u64 header CTRL_COUNTER_OFFSET (icr_counter inspected) in
  let header := put_u64 header EPOCH_OFFSET keyEpoch in
  let header := bset header NONCE_OFFSET nonce in
  let plaintext := zeros PQ_CONTROL_FRAME_PLAINTEXT_BYTES in
  let plaintext := put_u32 plaintext 0 (blen record) in
  let plaintext := bset plaintext RECORD_LENGTH_BYTES record in
  key ← deriveFrameKey suite rootKey binding direction keyEpoch;
  ciphertext ← aeadSeal key nonce plaintext header;
  let frame := zeros WIRE_CHUNK_FRAME_LEN in
  let frame := bset frame 0 header in
  Ok (bset frame PQ_CONTROL_FRAME_HEADER_BYTES ciphertext).

(** The checks on the decrypted plaintext. *)
Definition unpadRecord (plaintext : bytes) : ctl bytes :=
  let recordLength := get_u32 plaintext 0 in
  ccheck (negb ((recordLength =? 0)
                || (PQ_CONTROL_FRAME_PLAINTEXT_BYTES - RECORD_LENGTH_BYTES <? recordLength)))
    invalid_padding;;
  let paddingOffset := RECORD_LENGTH_BYTES + recordLength in
  ccheck (or_all (slice_from plaintext paddingOffset) =? 0) invalid_padding;;
  Ok (slice plaintext RECORD_LENGTH_BYTES paddingOffset).

Definition openPqControlFrame (suite : MlKemSuiteDescriptor) (rootKey binding : bytes)
    (direction : string) (keyEpoch : Z) (frame : bytes) : ctl bytes :=
  frameRequireBytes frame WIRE_CHUNK_FRAME_LEN;;
  frameRequireBytes binding PQ_HEALING_BINDING_BYTES;;
  frameRequireU64 keyEpoch;;
  ccheck (bool_decide (at_ frame 0 = Some FRAME_TYPE_PQ_CONTROL)) invalid_frame;;
  ccheck (bytesEqual (slice frame CONTROL_ID_OFFSET (CONTROL_ID_OFFSET + RATCHET_DHPUB_LEN))
            binding) frame_binding_mismatch;;
  let header := slice frame 0 PQ_CONTROL_FRAME_HEADER_BYTES in
  let headerCounter := get_u64 frame CTRL_COUNTER_OFFSET in
  ccheck (get_u64 frame RESERVED_OFFSET =? 0) invalid_frame;;
  ccheck (get_u64 frame EPOCH_OFFSET =? keyEpoch) epoch_mismatch;;
  let nonce := slice frame NONCE_OFFSET (NONCE_OFFSET + RATCHET_NONCE_LEN) in
  let ciphertext := slice_from frame PQ_CONTROL_FRAME_HEADER_BYTES in
  key ← deriveFrameKey suite rootKey binding direction keyEpoch;
  plaintext ← aeadOpen key nonce ciphertext header;
  record ← unpadRecord plaintext;
  inspected ← inspectControlRecord record suite binding;
  ccheck (icr_keyEpoch inspected =? keyEpoch) epoch_mismatch;;
  ccheck (icr_counter inspected =? headerCounter) record_mismatch;;
  Ok record.
End Frame.

(** ** Lemmas *)

Lemma ccheck_ok b c : ccheck b c = Ok tt <-> b = true.
Proof. apply require_ok. Qed.
Lemma frameRequireBytes_ok l n : frameRequireBytes l n = Ok tt <-> blen l = n.
Proof. unfold frameRequireBytes. by rewrite ccheck_ok, Z.eqb_eq. Qed.
Lemma frameRequireU64_ok v : frameRequireU64 v = Ok tt <-> 0 <= v <= MAX_U64.
Proof. unfold frameRequireU64. by rewrite ccheck_ok, is_u64_spec. Qed.

Lemma put_u32_zeros n v : 4 <= n -> put_u32 (zeros n) 0 v = be_encode 4 v ++ zeros (n - 4).
Proof. intros. unfold put_u32. rewrite bset_zeros; blen. same_zeros. Qed.

Lemma be_decode_u32 v : 0 <= v < 2 ^ 32 -> be_decode (be_encode 4 v) = v.
Proof. intros. rewrite be_decode_encode. by apply Z.mod_small. Qed.

(** The plaintext of a record, and that unpadding inverts it. *)
Definition padded (record : bytes) : bytes :=
  be_encode 4 (blen record) ++ record
  ++ zeros (PQ_CONTROL_FRAME_PLAINTEXT_BYTES - 4 - blen record).

Lemma plaintext_writes record :
  blen record <= PQ_CONTROL_FRAME_PLAINTEXT_BYTES - RECORD_LENGTH_BYTES ->
  bset (put_u32 (zeros PQ_CONTROL_FRAME_PLAINTEXT_BYTES) 0 (blen record)) RECORD_LENGTH_BYTES record
  = padded record.
Proof.
  change PQ_CONTROL_FRAME_PLAINTEXT_BYTES with 65405. change RECORD_LENGTH_BYTES with 4. intros.
  rewrite put_u32_zeros by lia. rewrite bset_append by blen. unfold padded.
  by rewrite <- app_assoc.
Qed.

Lemma blen_padded record : blen record <= PQ_CONTROL_FRAME_PLAINTEXT_BYTES - RECORD_LENGTH_BYTES ->
  blen (padded record) = PQ_CONTROL_FRAME_PLAINTEXT_BYTES.
Proof.
  unfold padded. change PQ_CONTROL_FRAME_PLAINTEXT_BYTES with 65405.
  change RECORD_LENGTH_BYTES with 4. intros. blen.
Qed.

Lemma unpad_padded record :
  0 < blen record <= PQ_CONTROL_FRAME_PLAINTEXT_BYTES - RECORD_LENGTH_BYTES ->
  unpadRecord (padded record) = Ok record.
Proof.
  unfold unpadRecord, padded, get_u32. change PQ_CONTROL_FRAME_PLAINTEXT_BYTES with 65405.
  change RECORD_LENGTH_BYTES with 4. intros Hr.
  rewrite (slice_app_l _ _ 0 (0 + 4)) by blen. rewrite be_decode_u32 by lia.
  rewrite (proj2 (ccheck_ok (negb _) _)).
  2: { apply negb_true_iff, orb_false_iff. rewrite Z.eqb_neq, Z.ltb_ge. lia. }
  cbn [mbind result_bind]. rewrite app_assoc, slice_from_app by blen.
  rewrite (proj2 (ccheck_ok _ _)) by (apply Z.eqb_eq, or_all_zero; by rewrite blen_zeros by lia).
  cbn [mbind result_bind]. f_equal. rewrite <- app_assoc.
  rewrite slice_app_r by blen. apply slice_app_l; blen.
Qed.

(** What unpadding accepts is exactly the padded form of what it returns. *)
Lemma unpad_inv plaintext record : blen plaintext = PQ_CONTROL_FRAME_PLAINTEXT_BYTES ->
  unpadRecord plaintext = Ok record ->
  plaintext = padded record /\ 0 < blen record <= PQ_CONTROL_FRAME_PLAINTEXT_BYTES - RECORD_LENGTH_BYTES.
Proof.
  unfold unpadRecord, padded. change PQ_CONTROL_FRAME_PLAINTEXT_BYTES with 65405.
  change RECORD_LENGTH_BYTES with 4. intros Hl H. binds H. rewrite ccheck_ok in E, E0.
  apply negb_true_iff, orb_false_iff in E as [Hz Hm]. apply Z.eqb_neq in Hz. apply Z.ltb_ge in Hm.
  apply Z.eqb_eq, or_all_zero in E0. set (n := get_u32 plaintext 0) in *.
  assert (0 <= n) as Hn by (unfold n, get_u32; apply be_decode_range).
  assert (blen record = n) as Hr by (subst record; blen).
  rewrite Hr. split; [|lia].
  assert (be_encode 4 n = slice plaintext 0 4) as ->.
  { symmetry. rewrite <- (be_encode_decode (slice plaintext 0 4)) at 1. unfold n, get_u32.
    change (0 + 4) with 4. f_equal.
    pose proof (blen_slice plaintext 0 4) as Hs. unfold blen in *. lia. }
  rewrite <- H, (app_assoc (slice plaintext 0 4)), <- slice_split by lia.
  rewrite blen_slice_from in E0 by lia. rewrite Hl in E0.
  replace (65405 - 4 - n) with (65405 - (4 + n)) by lia. rewrite <- E0.
  rewrite <- (slice_to_end plaintext (4 + n) 65405), <- slice_split by lia.
  symmetry. by apply slice_all.
Qed.

(** The record that was inspected is not empty and fits its counters. *)
Lemma inspect_bounds record suite binding i :
  inspectControlRecord record suite binding = Ok i ->
  0 < blen record /\ 0 <= icr_counter i <= MAX_U64 /\ 0 <= icr_keyEpoch i <= MAX_U64.
Proof.
  unfold inspectControlRecord. destruct (Z.eqb_spec (blen record) PQ_HEALING_ACK_BYTES) as [Hl|Hl].
  - change PQ_HEALING_ACK_BYTES with 64 in Hl. intros H. binds H. subst i. cbn.
    destruct (decodePqHealingAck record suite binding) as [a|] eqn:Hd; [|done].
    apply Ok_inj in E. subst x. unfold decodePqHealingAck in Hd. binds Hd. subst a. cbn.
    pose proof (get_u64_range record COUNTER_OFFSET). pose proof (get_u64_range record ACK_EPOCH_OFFSET).
    change COUNTER_OFFSET with 40 in *. change ACK_EPOCH_OFFSET with 48 in *. lia.
  - clear Hl. intros H. binds H.
    destruct (inspectPqHealingRecord record suite) as [r|] eqn:Hi; [|done].
    apply Ok_inj in E. subst x. unfold inspectPqHealingRecord in Hi. binds Hi.
    apply check_ok, negb_true_iff, Z.ltb_ge in E0.
    change PQ_HEALING_RECORD_HEADER_BYTES with 64 in E0. split; [lia|].
    case_bool_decide; [|case_bool_decide; [|done]].
    + binds Hi. subst r. cbn in H. binds H. subst i. cbn.
      apply decodeOffer_length in E1 as (_ & _ & _ & ? & ? & _). lia.
    + binds Hi. subst r. cbn in H. binds H. subst i. cbn.
      unfold decodeAdvance in E1. binds E1. apply Ok_inj in E1 || subst x. cbn.
      unfold decodeHeader in E3. binds E3. subst. cbn.
      pose proof (get_u64_range record COUNTER_OFFSET).
      pose proof (get_u64_range record FROM_EPOCH_OFFSET).
      change COUNTER_OFFSET with 40 in *. change FROM_EPOCH_OFFSET with 48 in *. lia.
Qed.

(** The header writes skip the reserved field, which stays zero. *)
Lemma control_header_writes t binding counter epoch nonce :
  blen binding = 32 -> blen nonce = 12 ->
  bset (put_u64 (put_u64 (bset (bset (zeros 69) 0 [byte_of t]) 1 binding) 33 counter) 49 epoch)
    57 nonce = cell_header t binding counter 0 epoch nonce.
Proof.
  intros Hb Hn. unfold put_u64, cell_header.
  rewrite bset_zeros by blen. do 2 rewrite bset_append by blen.
  rewrite (bset_skip _ _ 8) by blen. rewrite bset_append by blen.
  match goal with |- _ ++ zeros ?k = _ => rewrite (zeros_0 k) by blen end.
  by rewrite app_nil_r, <- !app_assoc.
Qed.

Lemma frame_writes header ciphertext : blen header = 69 ->
  blen ciphertext = WIRE_CHUNK_FRAME_LEN - 69 ->
  bset (bset (zeros WIRE_CHUNK_FRAME_LEN) 0 header) 69 ciphertext = header ++ ciphertext.
Proof.
  change WIRE_CHUNK_FRAME_LEN with 65490. intros. rewrite bset_zeros by blen.
  rewrite bset_append by blen. rewrite zeros_0 by lia. by rewrite app_nil_r.
Qed.

Section FrameProofs.
Context {C : LibCrypto}.
Implicit Types (suite : MlKemSuiteDescriptor) (binding record nonce frame : bytes).

Lemma aeadSeal_ok key nonce pt aad c : aeadSeal key nonce pt aad = Ok c ->
  exists o, _encrypt_chachapoly_symmetric pt key nonce aad = (0, o) /\
    c = region (blen pt + crypto_aead_chacha20poly1305_ietf_ABYTES) o.
Proof.
  unfold aeadSeal. destruct (_encrypt_chachapoly_symmetric _ _ _ _) as [r o].
  destruct (Z.eqb_spec r 0) as [->|]; [|done]. intros [= <-]. by exists o.
Qed.

Lemma aeadOpen_seal `{!AeadCorrect C} key nonce pt aad c :
  aeadSeal key nonce pt aad = Ok c -> aeadOpen key nonce c aad = Ok pt.
Proof.
  intros (o & He & ->)%aeadSeal_ok. pose proof (blen_nonneg pt).
  change crypto_aead_chacha20poly1305_ietf_ABYTES with 16 in *.
  destruct (decrypt_encrypt _ _ _ _ _ He) as (p & Hd & Hp). unfold aeadOpen.
  change crypto_aead_chacha20poly1305_ietf_ABYTES with 16 in *. rewrite Hd. cbn [Z.eqb negb].
  f_equal. rewrite blen_region by lia. rewrite <- Hp at 2. f_equal. lia.
Qed.

(** What a sealed frame is. *)
Lemma seal_ok suite root binding dir epoch record nonce frame : blen nonce = RATCHET_NONCE_LEN ->
  sealPqControlFrame suite root binding dir epoch record nonce = Ok frame ->
  exists i key ct,
    blen binding = 32 /\ 0 <= epoch <= MAX_U64 /\
    inspectControlRecord record suite binding = Ok i /\ icr_keyEpoch i = epoch /\
    0 < blen record <= PQ_CONTROL_FRAME_PLAINTEXT_BYTES - RECORD_LENGTH_BYTES /\
    deriveFrameKey suite root binding dir epoch = Ok key /\
    let header := cell_header FRAME_TYPE_PQ_CONTROL binding (icr_counter i) 0 epoch nonce in
    aeadSeal key nonce (padded record) header = Ok ct /\
    blen ct = WIRE_CHUNK_FRAME_LEN - 69 /\ frame = header ++ ct.
Proof.
  intros Hn H. unfold sealPqControlFrame in H. binds H.
  rewrite frameRequireBytes_ok in E. rewrite frameRequireU64_ok in E0.
  rewrite ccheck_ok in E2, E3. apply Z.eqb_eq in E2. apply negb_true_iff, Z.ltb_ge in E3.
  pose proof (inspect_bounds _ _ _ _ E1) as (Hpos & _).
  change CONTROL_ID_OFFSET with 1 in *. change CTRL_COUNTER_OFFSET with 33 in *.
  change EPOCH_OFFSET with 49 in *. change NONCE_OFFSET with 57 in *.
  change PQ_CONTROL_FRAME_HEADER_BYTES with 69 in *.
  change PQ_HEALING_BINDING_BYTES with 32 in E. change RATCHET_NONCE_LEN with 12 in Hn.
  rewrite control_header_writes in E5, H by done. rewrite plaintext_writes in E5 by done.
  assert (blen x1 = WIRE_CHUNK_FRAME_LEN - 69) as Hct.
  { apply aeadSeal_ok in E5 as (o & _ & ->). rewrite blen_padded by done.
    by apply blen_region. }
  rewrite frame_writes in H by (done || by apply blen_cell_header).
  exists x, x0, x1. split_and!; try done; lia.
Qed.

(** Sealing then opening: a frame sealed for an edge, direction and epoch
    has the uniform wire size, and the peer that opens it with the same
    suite, root, binding, direction and epoch gets exactly the record. *)
Theorem control_frame_roundtrip `{!AeadCorrect C} suite root binding dir epoch record nonce frame :
  blen nonce = RATCHET_NONCE_LEN ->
  sealPqControlFrame suite root binding dir epoch record nonce = Ok frame ->
  blen frame = WIRE_CHUNK_FRAME_LEN /\
  openPqControlFrame suite root binding dir epoch frame = Ok record.
Proof.
  intros Hn H. destruct (seal_ok _ _ _ _ _ _ _ _ Hn H)
    as (i & key & ct & Hb & He & Hi & Hie & Hr & Hk & Hseal & Hct & ->).
  pose proof (inspect_bounds _ _ _ _ Hi) as (_ & Hic & _).
  destruct (cell_fields FRAME_TYPE_PQ_CONTROL binding (icr_counter i) 0 epoch nonce ct)
    as (H1 & H2 & H3 & H4 & H5 & H6 & H7 & H8); try done.
  assert (blen (cell_header FRAME_TYPE_PQ_CONTROL binding (icr_counter i) 0 epoch nonce ++ ct)
          = WIRE_CHUNK_FRAME_LEN) as Hl.
  { rewrite blen_app, blen_cell_header by done. lia. }
  split; [done|]. unfold openPqControlFrame.
  rewrite (proj2 (frameRequireBytes_ok _ _) Hl), (proj2 (frameRequireBytes_ok binding PQ_HEALING_BINDING_BYTES) Hb).
  rewrite (proj2 (frameRequireU64_ok _) He). cbn [mbind result_bind].
  change (CONTROL_ID_OFFSET + RATCHET_DHPUB_LEN) with 33. change CONTROL_ID_OFFSET with 1.
  change CTRL_COUNTER_OFFSET with 33. change RESERVED_OFFSET with 41. change EPOCH_OFFSET with 49.
  change (NONCE_OFFSET + RATCHET_NONCE_LEN) with 69. change NONCE_OFFSET with 57.
  change PQ_CONTROL_FRAME_HEADER_BYTES with 69.
  rewrite H1, H2, H3, H4, H5, H6, H7, H8, bytesEqual_refl, Z.eqb_refl. cbn [mbind result_bind].
  rewrite bool_decide_true by done. cbn [mbind result_bind ccheck require Z.eqb].
  rewrite Hk. cbn [mbind result_bind]. rewrite (aeadOpen_seal _ _ _ _ _ Hseal).
  cbn [mbind result_bind]. rewrite unpad_padded by done. cbn [mbind result_bind].
  rewrite Hi. cbn [mbind result_bind]. by rewrite Hie, !Z.eqb_refl.
Qed.

(** What opening accepts: a frame that opens has the wire size, names this
    edge and this epoch, has a zero reserved field and canonical zero padding,
    and its record decodes for this suite and edge with exactly the epoch and
    the counter that the clear header shows. *)
Theorem control_frame_open_sound suite root binding dir epoch frame record :
  openPqControlFrame suite root binding dir epoch frame = Ok record ->
  exists key nonce plaintext ct,
    frame = cell_header FRAME_TYPE_PQ_CONTROL binding (get_u64 frame CTRL_COUNTER_OFFSET) 0
              epoch nonce ++ ct /\
    blen frame = WIRE_CHUNK_FRAME_LEN /\
    deriveFrameKey suite root binding dir epoch = Ok key /\
    aeadOpen key nonce ct (slice frame 0 PQ_CONTROL_FRAME_HEADER_BYTES) = Ok plaintext /\
    plaintext = padded record /\
    inspectControlRecord record suite binding =
      Ok {| icr_counter := get_u64 frame CTRL_COUNTER_OFFSET; icr_keyEpoch := epoch |}.
Proof.
  intros H. unfold openPqControlFrame in H. binds H.
  rewrite frameRequireBytes_ok in E, E0. rewrite frameRequireU64_ok in E1.
  rewrite ccheck_ok in E2, E3, E4, E5, E10, E11. apply bool_decide_eq_true in E2.
  apply bytesEqual_spec in E3. apply Z.eqb_eq in E4, E5, E10, E11.
  change (CONTROL_ID_OFFSET + RATCHET_DHPUB_LEN) with 33 in *. change CONTROL_ID_OFFSET with 1 in *.
  change CTRL_COUNTER_OFFSET with 33 in *. change RESERVED_OFFSET with 41 in *.
  change EPOCH_OFFSET with 49 in *. change (NONCE_OFFSET + RATCHET_NONCE_LEN) with 69 in *.
  change NONCE_OFFSET with 57 in *. change PQ_CONTROL_FRAME_HEADER_BYTES with 69 in *.
  change WIRE_CHUNK_FRAME_LEN with 65490 in *.
  pose proof (cell_split frame FRAME_TYPE_PQ_CONTROL) as Hsplit.
  rewrite E3, E4, E5 in Hsplit.
  assert (blen x0 = PQ_CONTROL_FRAME_PLAINTEXT_BYTES) as Hpt.
  { unfold aeadOpen in E7. destruct (_decrypt_chachapoly_symmetric _ _ _ _) as [r p].
    destruct (negb (r =? 0)); [done|]. apply Ok_inj in E7. subst x0.
    rewrite blen_region; rewrite blen_slice_from by lia; rewrite E; done. }
  apply unpad_inv in E8 as [-> _]; [|done]. subst record.
  exists x, (slice frame 57 69), (padded x1), (slice_from frame 69). split_and!; try done.
  - apply Hsplit; [lia|done].
  - rewrite E9. destruct x2. cbn in *. congruence.
Qed.

(** Frames whose clear header does not fit are refused before any key is
    derived, with the code of the first check that fails. *)
Lemma open_header_error suite root binding dir epoch frame code :
  blen frame = WIRE_CHUNK_FRAME_LEN -> blen binding = PQ_HEALING_BINDING_BYTES ->
  0 <= epoch <= MAX_U64 ->
  (at_ frame 0 <> Some FRAME_TYPE_PQ_CONTROL /\ code = invalid_frame \/
   at_ frame 0 = Some FRAME_TYPE_PQ_CONTROL /\ slice frame 1 33 <> binding /\
     code = frame_binding_mismatch \/
   at_ frame 0 = Some FRAME_TYPE_PQ_CONTROL /\ slice frame 1 33 = binding /\
     get_u64 frame 41 <> 0 /\ code = invalid_frame \/
   at_ frame 0 = Some FRAME_TYPE_PQ_CONTROL /\ slice frame 1 33 = binding /\
     get_u64 frame 41 = 0 /\ get_u64 frame 49 <> epoch /\ code = epoch_mismatch) ->
  openPqControlFrame suite root binding dir epoch frame = Err (PqControlFrameError code).
Proof.
  intros Hl Hb He Hc. unfold openPqControlFrame.
  rewrite (proj2 (frameRequireBytes_ok _ _) Hl), (proj2 (frameRequireBytes_ok binding _) Hb).
  rewrite (proj2 (frameRequireU64_ok _) He). cbn [mbind result_bind].
  change (CONTROL_ID_OFFSET + RATCHET_DHPUB_LEN) with 33. change CONTROL_ID_OFFSET with 1.
  change RESERVED_OFFSET with 41. change EPOCH_OFFSET with 49.
  destruct Hc as [(H1 & ->)|[(H1 & H2 & ->)|[(H1 & H2 & H3 & ->)|(H1 & H2 & H3 & H4 & ->)]]].
  - by rewrite bool_decide_false.
  - rewrite bool_decide_true by done. by rewrite (proj2 (bytesEqual_false _ _) H2).
  - rewrite bool_decide_true by done. rewrite (proj2 (bytesEqual_spec _ _) H2).
    by rewrite (proj2 (Z.eqb_neq _ _) H3).
  - rewrite bool_decide_true by done. rewrite (proj2 (bytesEqual_spec _ _) H2), H3.
    by rewrite (proj2 (Z.eqb_neq _ _) H4).
Qed.

(** A frame for another type of cell, another edge, with a dirty reserved
    field or for another epoch is refused with its own error code, whatever
    the module's cryptography answers. *)
Theorem control_frame_header_refused suite root binding dir epoch frame :
  blen frame = WIRE_CHUNK_FRAME_LEN -> blen binding = PQ_HEALING_BINDING_BYTES ->
  0 <= epoch <= MAX_U64 ->
  (at_ frame 0 <> Some FRAME_TYPE_PQ_CONTROL ->
   openPqControlFrame suite root binding dir epoch frame = cfail invalid_frame) /\
  (at_ frame 0 = Some FRAME_TYPE_PQ_CONTROL -> slice frame 1 33 <> binding ->
   openPqControlFrame suite root binding dir epoch frame = cfail frame_binding_mismatch) /\
  (at_ frame 0 = Some FRAME_TYPE_PQ_CONTROL -> slice frame 1 33 = binding ->
   get_u64 frame 41 = 0 -> get_u64 frame 49 <> epoch ->
   openPqControlFrame suite root binding dir epoch frame = cfail epoch_mismatch).
Proof. intros. split_and!; intros; apply open_header_error; tauto. Qed.
End FrameProofs.

(** ** Domain separation of the frame keys *)

Lemma frameKeyInfo_eq st dt binding epochBytes :
  frameKeyInfo st dt binding epochBytes =
  KEY_DOMAIN ++ [byte_of st; byte_of dt] ++ binding ++ epochBytes.
Proof.
  unfold frameKeyInfo. pose proof (blen_nonneg binding). pose proof (blen_nonneg epochBytes).
  assert (blen KEY_DOMAIN = 32) as Hd by done.
  rewrite bset_zeros by blen. repeat rewrite bset_append by blen.
  rewrite zeros_0 by blen. rewrite app_nil_r, <- !app_assoc. done.
Qed.

Lemma encodeU64_eq v : encodeU64 v = be_encode 8 v.
Proof. unfold encodeU64, put_u64. rewrite bset_zeros by blen. rewrite zeros_0 by blen. apply app_nil_r. Qed.

Lemma directionTag_range d t : directionTag d = Ok t ->
  (t = 1 /\ d = "initiator-to-responder"%string) \/ (t = 2 /\ d = "responder-to-initiator"%string).
Proof. unfold directionTag, cfail. intros. repeat case_bool_decide; simplify_eq; auto. Qed.
Lemma suiteTag_inj s s' t : suiteTag s = Ok t -> suiteTag s' = Ok t ->
  parameterSet s = parameterSet s' /\ 1 <= t <= 3.
Proof.
  assert (forall u, suiteTag u = Ok t ->
    t = 1 /\ parameterSet u = 768 \/ t = 2 /\ parameterSet u = 512 \/ t = 3 /\ parameterSet u = 1024) as H.
  { intros u Hu. unfold suiteTag in Hu. destruct (getMlKemSuite _); [|done]. binds Hu.
    destruct (Z.eqb_spec (parameterSet u) 768); [apply Ok_inj in Hu; lia|].
    destruct (Z.eqb_spec (parameterSet u) 512); [apply Ok_inj in Hu; lia|].
    destruct (Z.eqb_spec (parameterSet u) 1024); [apply Ok_inj in Hu; lia|done]. }
  intros H1%H H2%H. lia.
Qed.

(** Domain separation: the HKDF info of a frame key determines the
    parameter set, the direction, the edge binding and the epoch, so frames of
    different edges, directions, suites or epochs never share an info string. *)
Theorem frame_key_info_injective s s' d d' b b' e e' st st' dt dt' :
  suiteTag s = Ok st -> suiteTag s' = Ok st' -> directionTag d = Ok dt -> directionTag d' = Ok dt' ->
  blen b = PQ_HEALING_BINDING_BYTES -> blen b' = PQ_HEALING_BINDING_BYTES ->
  0 <= e <= MAX_U64 -> 0 <= e' <= MAX_U64 ->
  frameKeyInfo st dt b (encodeU64 e) = frameKeyInfo st' dt' b' (encodeU64 e') ->
  parameterSet s = parameterSet s' /\ d = d' /\ b = b' /\ e = e'.
Proof.
  intros Hs Hs' Hd Hd' Hb Hb' He He' H. rewrite !frameKeyInfo_eq, !encodeU64_eq in H.
  apply app_inv_head in H. injection H as H1 H2 H3.
  apply app_inj_1 in H3 as [-> H3]; [|unfold blen in *; lia].
  apply (f_equal be_decode) in H3. rewrite !be_decode_u64 in H3 by done.
  apply (f_equal u8) in H1, H2. rewrite !u8_byte_of in H1, H2.
  destruct (suiteTag_inj _ _ _ Hs Hs) as [_ ?]. destruct (suiteTag_inj _ _ _ Hs' Hs') as [_ ?].
  rewrite !Z.mod_small in H1 by lia. subst st'.
  destruct (suiteTag_inj _ _ _ Hs Hs') as [? _].
  apply directionTag_range in Hd, Hd'.
  destruct Hd as [[-> ->]|[-> ->]], Hd' as [[-> ->]|[-> ->]]; done.
Qed.
