(* ===== verification/PqRuntime.v ===== *)
(** * The healing runtime of one edge ([SparsePqHealingState] of
      [src/src/handlers/pqHealingRuntime.ts])

    The controller around the healing machine: it seals every record into a
    control frame, keeps the one frame that waits for an answer with its retry
    budget, remembers the last inbound frame with the response to resend, and
    hands out the root for message keys.

    A runtime under mutation is the private clone of one transaction, so its
    asynchronous methods run without other calls in between: they call the
    machine's methods run to completion.  [coins] and [nonce] are what the
    random generator returned for the backend and the frame. *)

From Stdlib Require Import String.
From S2P Require Import Prelude Bytes Constants Crypto PqMessageKey RoomPolicy MlKem PqRecord PqMachine.
From S2P Require Import PqInvariant PqSnapshot PqProtocol WireFrames PqFrame.
Local Open Scope Z_scope.
Local Open Scope list_scope.

Definition PQ_HEAL_AFTER_MESSAGES : Z := 64.
Definition PQ_HEAL_AFTER_MS : Z := 24 * 60 * 60 * 1000.
Definition PQ_HEAL_RETRY_MS : Z := 5000.
Definition PQ_HEAL_MAX_RETRIES : Z := 8.

Inductive PqHealingOutboxKind := kind_offer | kind_advance.
#[export] Instance PqHealingOutboxKind_eq_dec : EqDecision PqHealingOutboxKind.
Proof. solve_decision. Defined.

Record PqHealingOutbox := {
  ob_kind : PqHealingOutboxKind; ob_frame : bytes; ob_attempts : Z; ob_nextRetryAt : Z }.
Record PqHealingControlResult := { cr_dispatch : option bytes; cr_changed : bool }.

Inductive RuntimeFailure :=
  | state_destroyed | mode_disagrees | wrong_length | unsafe_uint | message_overflow
  | not_due | no_outbox | budget_exhausted | unexpected_ack | unexpected_advance
  | adopt_self | adopt_other_edge | outbox_disagrees | offer_cache_unmatched
  | ack_cache_unpaired | caches_exclusive
  | u8_range | u16_range | u32_range | counter_range | over_budget | empty_field
  | bad_checkpoint_length | truncated | field_over_budget | trailing_bytes | field_missing
  | unknown_phase | unknown_suite | invalid_turn | bad_outbox | too_many_keys | bad_cache_key
  | bad_magic | bad_version | suite_disagrees | wrong_direction | reserved_not_zero
  | counters_unsafe | other_edge.
Inductive RuntimeThrow :=
  | RuntimeError (what : RuntimeFailure)
  | HealingFailure (e : PqError)
  | FrameFailure (e : ControlError).
#[export] Instance RuntimeFailure_eq_dec : EqDecision RuntimeFailure.
Proof. solve_decision. Defined.

#[export] Instance RoomPqMode_eq_dec : EqDecision RoomPqMode.
Proof. solve_decision. Defined.

(** The fields that never change. *)
Record EdgeConfig := {
  e_pqMode : RoomPqMode; e_rootSuite : RatchetRootSuite; e_suite : MlKemSuiteDescriptor;
  e_binding : bytes; e_outboundDirection : string; e_inboundDirection : string }.

(** [activeReceiveKeys]: a JavaScript [Map], in insertion order. *)
Record SparsePqHealingState := Sparse {
  st_edge : EdgeConfig;
  st_machine : machine;
  st_messageRoot : bytes;
  st_outbox : option PqHealingOutbox;
  st_lastInboundOfferFrame : option bytes;
  st_lastInboundAdvanceFrame : option bytes;
  st_cachedAckFrame : option bytes;
  st_activeReceiveKeys : list (string * bytes);
  st_messagesSinceHealing : Z;
  st_lastHealedAt : Z;
  st_destroyed : bool;
}.

Abbreviation rt A := (M SparsePqHealingState RuntimeThrow A).
Definition rfail {A} (w : RuntimeFailure) : rt A := mthrow (RuntimeError w).
Definition rcheck (ok : bool) (w : RuntimeFailure) : rt unit := mrequire ok (RuntimeError w).

(** ** Field assignments *)

Definition set_machine (m : machine) (s : SparsePqHealingState) : SparsePqHealingState :=
  Sparse (st_edge s) m (st_messageRoot s) (st_outbox s) (st_lastInboundOfferFrame s)
    (st_lastInboundAdvanceFrame s) (st_cachedAckFrame s) (st_activeReceiveKeys s)
    (st_messagesSinceHealing s) (st_lastHealedAt s) (st_destroyed s).
Definition set_outbox (o : option PqHealingOutbox) (s : SparsePqHealingState) : SparsePqHealingState :=
  Sparse (st_edge s) (st_machine s) (st_messageRoot s) o (st_lastInboundOfferFrame s)
    (st_lastInboundAdvanceFrame s) (st_cachedAckFrame s) (st_activeReceiveKeys s)
    (st_messagesSinceHealing s) (st_lastHealedAt s) (st_destroyed s).
(** The three fields of the duplicate cache. *)
Definition set_cache (offer advance ack : option bytes) (s : SparsePqHealingState)
    : SparsePqHealingState :=
  Sparse (st_edge s) (st_machine s) (st_messageRoot s) (st_outbox s) offer advance ack
    (st_activeReceiveKeys s) (st_messagesSinceHealing s) (st_lastHealedAt s) (st_destroyed s).
Definition set_messageRoot (root : bytes) (s : SparsePqHealingState) : SparsePqHealingState :=
  Sparse (st_edge s) (st_machine s) root (st_outbox s) (st_lastInboundOfferFrame s)
    (st_lastInboundAdvanceFrame s) (st_cachedAckFrame s) (st_activeReceiveKeys s)
    (st_messagesSinceHealing s) (st_lastHealedAt s) (st_destroyed s).
Definition set_healing (messages healedAt : Z) (s : SparsePqHealingState) : SparsePqHealingState :=
  Sparse (st_edge s) (st_machine s) (st_messageRoot s) (st_outbox s) (st_lastInboundOfferFrame s)
    (st_lastInboundAdvanceFrame s) (st_cachedAckFrame s) (st_activeReceiveKeys s)
    messages healedAt (st_destroyed s).
Definition set_keys (keys : list (string * bytes)) (s : SparsePqHealingState) : SparsePqHealingState :=
  Sparse (st_edge s) (st_machine s) (st_messageRoot s) (st_outbox s) (st_lastInboundOfferFrame s)
    (st_lastInboundAdvanceFrame s) (st_cachedAckFrame s) keys
    (st_messagesSinceHealing s) (st_lastHealedAt s) (st_destroyed s).

Definition assertLive : rt unit :=
  this ← get_this; rcheck (negb (st_destroyed this)) state_destroyed.
Definition isSafeUint (value : Z) : bool := (0 <=? value) && (value <=? MAX_SAFE_INTEGER).
Definition requireSafeUint (value : Z) : rt unit := rcheck (isSafeUint value) unsafe_uint.

(** A call of a method of [this.#machine]. *)
Definition on_machine {A} (c : method A) : rt A := fun s =>
  let '(r, m) := c (st_machine s) in (map_err HealingFailure r, set_machine m s).
Definition on_frame {A} (r : ctl A) : rt A := lift (map_err FrameFailure r).
Definition on_healing {A} (r : pq A) : rt A := lift (map_err HealingFailure r).

Definition clearDuplicateCache : rt unit := modify_this (set_cache None None None).
Definition directions (amInitiator : bool) : string * string :=
  if amInitiator then ("initiator-to-responder", "responder-to-initiator")
  else ("responder-to-initiator", "initiator-to-responder").

Section Runtime.
Context {C : LibCrypto} {B : MlKemBackend}.

Definition refreshMessageRoot : rt unit :=
  next ← on_machine copyRootKey; modify_this (set_messageRoot next).

(** The constructor; [now] is [options.now ?? Date.now()]. *)
Definition new_runtime (pqMode : RoomPqMode) (rootSuite : RatchetRootSuite) (binding rootKey : bytes)
    (turn : PqHealingTurn) (amInitiator : bool) (now : Z)
    : result RuntimeThrow SparsePqHealingState :=
  let suite := getMlKemSuite (roomPqModeToParameterSet pqMode) in
  require (bool_decide (roomPqModeToRootSuite pqMode = rootSuite)) (RuntimeError mode_disagrees);;
  require (blen binding =? 32) (RuntimeError wrong_length);;
  require (blen rootKey =? 32) (RuntimeError wrong_length);;
  suite ← match suite with Some s => Ok s | None => Err (RuntimeError unknown_suite) end;
  m ← map_err HealingFailure (new_machine suite binding rootKey turn 0 0 0);
  require (isSafeUint now) (RuntimeError unsafe_uint);;
  let '(out, inb) := directions amInitiator in
  Ok (Sparse {| e_pqMode := pqMode; e_rootSuite := rootSuite; e_suite := suite; e_binding := binding;
                e_outboundDirection := out; e_inboundDirection := inb |}
        m (m_rootKey m) None None None None [] 0 now false).

(** ** Observers *)

Definition rt_trafficBlocked (this : SparsePqHealingState) : bool :=
  st_destroyed this || trafficBlocked (st_machine this).

Definition currentMessageContext : rt PqMessageKeyContext :=
  assertLive;;
  e ← on_machine epoch;
  this ← get_this;
  mret {| ctx_rootKey := st_messageRoot this; ctx_binding := e_binding (st_edge this);
          ctx_rootSuite := root_suite_string (e_rootSuite (st_edge this)); ctx_epoch := e |}.
Definition resolveMessageContext (wanted : Z) : rt (option PqMessageKeyContext) :=
  assertLive;;
  e ← on_machine epoch;
  if wanted =? e then context ← currentMessageContext; mret (Some context) else mret None.

Definition noteApplicationMessage : rt unit :=
  assertLive;;
  this ← get_this;
  rcheck (negb (MAX_SAFE_INTEGER <=? st_messagesSinceHealing this)) message_overflow;;
  modify_this (set_healing (st_messagesSinceHealing this + 1) (st_lastHealedAt this)).

Definition healingDue (now : Z) : rt bool :=
  assertLive;; requireSafeUint now;;
  this ← get_this;
  if trafficBlocked (st_machine this) then mret false else
  turn ← on_machine nextOfferer;
  mret (bool_decide (turn = local)
        && ((PQ_HEAL_AFTER_MESSAGES <=? st_messagesSinceHealing this)
            || (PQ_HEAL_AFTER_MS <=? now - st_lastHealedAt this))).

Definition copyPendingFrame : rt (option bytes) :=
  assertLive;; this ← get_this; mret (ob_frame <$> st_outbox this).
Definition pendingRetryAt : rt (option Z) :=
  assertLive;; this ← get_this; mret (ob_nextRetryAt <$> st_outbox this).
Definition pendingAttempts : rt Z :=
  assertLive;; this ← get_this; mret (default 0 (ob_attempts <$> st_outbox this)).

Definition markPendingDispatched (now : Z) : rt unit :=
  assertLive;;
  this ← get_this;
  match st_outbox this with
  | None => rfail no_outbox
  | Some outbox =>
      requireSafeUint now;;
      rcheck (negb (PQ_HEAL_MAX_RETRIES <=? ob_attempts outbox)) budget_exhausted;;
      modify_this (set_outbox (Some
        {| ob_kind := ob_kind outbox; ob_frame := ob_frame outbox;
           ob_attempts := ob_attempts outbox + 1; ob_nextRetryAt := now + PQ_HEAL_RETRY_MS |}))
  end.

(** ** Healing *)

(** [this.#outbox = { kind, frame, attempts: 0, nextRetryAt: now }]. *)
Definition new_outbox (kind : PqHealingOutboxKind) (frame : bytes) (now : Z) : option PqHealingOutbox :=
  Some {| ob_kind := kind; ob_frame := frame; ob_attempts := 0; ob_nextRetryAt := now |}.

(** [sealPqControlFrame] with the fields of the runtime. *)
Definition sealRecord (rootKey : bytes) (keyEpoch : Z) (record nonce : bytes) : rt bytes :=
  this ← get_this;
  on_frame (sealPqControlFrame (e_suite (st_edge this)) rootKey (e_binding (st_edge this))
              (e_outboundDirection (st_edge this)) keyEpoch record nonce).

Definition prepareHealingOffer (coins nonce : bytes) (now : Z) : rt bytes :=
  assertLive;;
  due ← healingDue now;
  rcheck due not_due;;
  record ← on_machine (prepareOffer coins);
  root ← on_machine copyRootKey;
  e ← on_machine epoch;
  frame ← sealRecord root e record nonce;
  on_machine markOfferDispatched;;
  modify_this (set_outbox (new_outbox kind_offer frame now));;
  clearDuplicateCache;;
  mret frame.

(** The exact duplicate of the last inbound frame, with its response. *)
Definition duplicateResponse (frame : bytes) (this : SparsePqHealingState) : option bytes :=
  let of_offer :=
    match st_lastInboundOfferFrame this, st_outbox this with
    | Some last, Some outbox =>
        if bool_decide (ob_kind outbox = kind_advance) && bytesEqual frame last
        then Some (ob_frame outbox) else None
    | _, _ => None
    end in
  match of_offer with
  | Some response => Some response
  | None =>
      match st_lastInboundAdvanceFrame this, st_cachedAckFrame this with
      | Some last, Some ack => if bytesEqual frame last then Some ack else None
      | _, _ => None
      end
  end.

Definition outboxKind (this : SparsePqHealingState) : option PqHealingOutboxKind :=
  ob_kind <$> st_outbox this.

(** The three branches of [acceptControlFrame] after the frame has opened. *)
Definition acceptAckRecord (record : bytes) (now : Z) : rt PqHealingControlResult :=
  this ← get_this;
  rcheck (bool_decide (outboxKind this = Some kind_advance)) unexpected_ack;;
  acknowledgement ← on_healing (decodePqHealingAck record (e_suite (st_edge this)) (e_binding (st_edge this)));
  on_machine (acceptAuthenticatedAdvanceAcknowledgement acknowledgement);;
  modify_this (set_outbox None);;
  clearDuplicateCache;;
  modify_this (set_healing 0 now);;
  refreshMessageRoot;;
  mret {| cr_dispatch := None; cr_changed := true |}.

Definition answerOfferRecord (frame root record : bytes) (now : Z) (coins nonce : bytes)
    : rt PqHealingControlResult :=
  on_machine (acceptAuthenticatedOffer record);;
  advance ← on_machine (prepareAdvance coins);
  e ← on_machine epoch;
  sealedAdvance ← sealRecord root e advance nonce;
  on_machine commitPreparedAdvance;;
  modify_this (set_outbox (new_outbox kind_advance sealedAdvance now));;
  modify_this (set_cache (Some frame) None None);;
  refreshMessageRoot;;
  mret {| cr_dispatch := Some sealedAdvance; cr_changed := true |}.

Definition acceptAdvanceRecord (frame record : bytes) (now : Z) (nonce : bytes)
    : rt PqHealingControlResult :=
  this ← get_this;
  rcheck (bool_decide (outboxKind this = Some kind_offer)) unexpected_advance;;
  on_machine (acceptAuthenticatedAdvance record);;
  acknowledgement ← on_machine commitAcceptedAdvance;
  ackRecord ← on_healing (encodePqHealingAck acknowledgement (e_suite (st_edge this)) (e_binding (st_edge this)));
  nextRoot ← on_machine copyRootKey;
  ackFrame ← sealRecord nextRoot (ack_epoch acknowledgement) ackRecord nonce;
  on_machine (markAdvanceAcknowledgementDispatched acknowledgement);;
  modify_this (set_outbox None);;
  modify_this (set_cache None (Some frame) (Some ackFrame));;
  modify_this (set_healing 0 now);;
  refreshMessageRoot;;
  mret {| cr_dispatch := Some ackFrame; cr_changed := true |}.

(** [record] has opened under [root]. *)
Definition processRecord (frame root record : bytes) (now : Z) (coins nonce : bytes)
    : rt PqHealingControlResult :=
  if blen record =? PQ_HEALING_ACK_BYTES then acceptAckRecord record now else
  this ← get_this;
  inspected ← on_healing (inspectPqHealingRecord record (e_suite (st_edge this)));
  match inspected with
  | OfferRecord _ => answerOfferRecord frame root record now coins nonce
  | AdvanceRecord _ => acceptAdvanceRecord frame record now nonce
  end.

Definition acceptControlFrame (frame : bytes) (now : Z) (coins nonce : bytes)
    : rt PqHealingControlResult :=
  assertLive;;
  rcheck (blen frame =? WIRE_CHUNK_FRAME_LEN) wrong_length;;
  requireSafeUint now;;
  this ← get_this;
  match duplicateResponse frame this with
  | Some response => mret {| cr_dispatch := Some response; cr_changed := false |}
  | None =>
      root ← on_machine copyRootKey;
      e ← on_machine epoch;
      record ← on_frame (openPqControlFrame (e_suite (st_edge this)) root (e_binding (st_edge this))
                           (e_inboundDirection (st_edge this)) e frame);
      processRecord frame root record now coins nonce
  end.

(** ** Copies, adoption, teardown *)

Definition amInitiator_of (edge : EdgeConfig) : bool :=
  bool_decide (e_outboundDirection edge = "initiator-to-responder"%string).

Definition clone_runtime : rt SparsePqHealingState :=
  assertLive;;
  root ← on_machine copyRootKey;
  turn ← on_machine nextOfferer;
  this ← get_this;
  let edge := st_edge this in
  fresh ← lift (new_runtime (e_pqMode edge) (e_rootSuite edge) (e_binding edge) root turn
                  (amInitiator_of edge) (st_lastHealedAt this));
  m ← on_machine clone;
  mret (Sparse (st_edge fresh) m (st_messageRoot this) (st_outbox this)
          (st_lastInboundOfferFrame this) (st_lastInboundAdvanceFrame this) (st_cachedAckFrame this)
          (st_activeReceiveKeys this) (st_messagesSinceHealing this) (st_lastHealedAt this) false).

(** [same] is [next === this]; the runtimes share one module. *)
Definition adopt_runtime (same : bool) (this next : SparsePqHealingState)
    : result RuntimeThrow unit * (SparsePqHealingState * SparsePqHealingState) :=
  let a := st_edge this in
  let b := st_edge next in
  let checks : result RuntimeThrow unit :=
    require (negb (st_destroyed this)) (RuntimeError state_destroyed);;
    require (negb (st_destroyed next)) (RuntimeError state_destroyed);;
    require (negb same) (RuntimeError adopt_self);;
    require (bool_decide (e_pqMode b = e_pqMode a) && bool_decide (e_rootSuite b = e_rootSuite a)
             && bool_decide (e_outboundDirection b = e_outboundDirection a)
             && bytesEqual (e_binding b) (e_binding a)) (RuntimeError adopt_other_edge) in
  match checks with
  | Err e => (Err e, (this, next))
  | Ok tt =>
      (Ok tt,
       (Sparse a (st_machine next) (st_messageRoot next) (st_outbox next)
          (st_lastInboundOfferFrame next) (st_lastInboundAdvanceFrame next) (st_cachedAckFrame next)
          (st_activeReceiveKeys next) (st_messagesSinceHealing next) (st_lastHealedAt next)
          (st_destroyed this),
        Sparse {| e_pqMode := e_pqMode b; e_rootSuite := e_rootSuite b; e_suite := e_suite b;
                  e_binding := zeros (blen (e_binding b));
                  e_outboundDirection := e_outboundDirection b; e_inboundDirection := e_inboundDirection b |}
          (st_machine next) (zeros 32) None None None None [] (st_messagesSinceHealing next)
          (st_lastHealedAt next) true))
  end.

Definition destroy_runtime (this : SparsePqHealingState) : SparsePqHealingState :=
  if st_destroyed this then this else
  let edge := st_edge this in
  Sparse {| e_pqMode := e_pqMode edge; e_rootSuite := e_rootSuite edge; e_suite := e_suite edge;
            e_binding := zeros (blen (e_binding edge));
            e_outboundDirection := e_outboundDirection edge; e_inboundDirection := e_inboundDirection edge |}
    (destroy (st_machine this)) (zeros (blen (st_messageRoot this))) None None None None []
    (st_messagesSinceHealing this) (st_lastHealedAt this) true.

(** ** Coherence of phase, outbox and caches *)

Definition validateCheckpointCoherence (this : SparsePqHealingState) : result RuntimeThrow unit :=
  let phase := phase_ (st_machine this) in
  let kind := outboxKind this in
  require (negb ((bool_decide (phase = outbound_offer_dispatched) && negb (bool_decide (kind = Some kind_offer)))
     || (bool_decide (phase = outbound_advance_awaiting_ack) && negb (bool_decide (kind = Some kind_advance)))
     || (bool_decide (kind = Some kind_offer) && negb (bool_decide (phase = outbound_offer_dispatched)))
     || (bool_decide (kind = Some kind_advance) && negb (bool_decide (phase = outbound_advance_awaiting_ack)))))
    (RuntimeError outbox_disagrees);;
  require (negb (negb (bool_decide (st_lastInboundOfferFrame this = None))
                 && negb (bool_decide (kind = Some kind_advance)))) (RuntimeError offer_cache_unmatched);;
  require (bool_decide (bool_decide (st_lastInboundAdvanceFrame this = None)
                        = bool_decide (st_cachedAckFrame this = None))) (RuntimeError ack_cache_unpaired);;
  require (negb (negb (bool_decide (st_lastInboundOfferFrame this = None))
                 && negb (bool_decide (st_lastInboundAdvanceFrame this = None))))
    (RuntimeError caches_exclusive).
End Runtime.

(** ** What the successful methods did *)

Lemma rcheck_ok b w (s s' : SparsePqHealingState) a : rcheck b w s = (Ok a, s') -> b = true /\ s' = s.
Proof. unfold rcheck, mrequire, lift. intros [= H ->]. destruct a. by apply require_ok in H. Qed.

Lemma assertLive_ok s s' a : assertLive s = (Ok a, s') -> st_destroyed s = false /\ s' = s.
Proof.
  unfold assertLive. intros H. mbinds H. apply rcheck_ok in H as [H ->]. by apply negb_true_iff in H.
Qed.

Lemma requireSafeUint_ok v s s' a : requireSafeUint v s = (Ok a, s') ->
  0 <= v <= MAX_SAFE_INTEGER /\ s' = s.
Proof.
  unfold requireSafeUint, isSafeUint. intros [[?%Z.leb_le ?%Z.leb_le]%andb_true_iff ->]%rcheck_ok. done.
Qed.

Lemma on_machine_ok {A} (c : method A) s a s' : on_machine c s = (Ok a, s') ->
  exists m, c (st_machine s) = (Ok a, m) /\ s' = set_machine m s.
Proof.
  unfold on_machine. destruct (c (st_machine s)) as [r m]. intros [= H%map_err_ok <-]. exists m. by subst r.
Qed.

Lemma on_machine_runs {A} (c : method A) s a m :
  c (st_machine s) = (Ok a, m) -> on_machine c s = (Ok a, set_machine m s).
Proof. unfold on_machine. by intros ->. Qed.

Lemma on_frame_ok {A} (r : ctl A) s a s' : on_frame r s = (Ok a, s') -> r = Ok a /\ s' = s.
Proof. unfold on_frame, lift. by intros [= H%map_err_ok ->]. Qed.
Lemma on_healing_ok {A} (r : pq A) s a s' : on_healing r s = (Ok a, s') -> r = Ok a /\ s' = s.
Proof. unfold on_healing, lift. by intros [= H%map_err_ok ->]. Qed.

Lemma set_machine_same s : set_machine (st_machine s) s = s.
Proof. by destruct s. Qed.

Lemma set_machine_twice m m' s : set_machine m (set_machine m' s) = set_machine m s.
Proof. done. Qed.

Lemma copyRootKey_ok m r m' : copyRootKey m = (Ok r, m') -> r = m_rootKey m /\ m' = m.
Proof. unfold copyRootKey. intros H. by mbinds H. Qed.
Lemma epoch_ok m r m' : epoch m = (Ok r, m') -> r = m_epoch m /\ m' = m.
Proof. unfold epoch. intros H. by mbinds H. Qed.
Lemma nextOfferer_ok m r m' : nextOfferer m = (Ok r, m') -> r = m_nextOfferer m /\ m' = m.
Proof. unfold nextOfferer. intros H. by mbinds H. Qed.

Lemma active_reads m : m_destroyed m = false ->
  copyRootKey m = (Ok (m_rootKey m), m) /\ epoch m = (Ok (m_epoch m), m) /\
  nextOfferer m = (Ok (m_nextOfferer m), m).
Proof.
  intros H. unfold copyRootKey, epoch, nextOfferer, assertActive, mbind, M_bind, get_this.
  cbn. unfold guard, lift. by rewrite H.
Qed.

(** From here on, [mbinds] understands the private checks of the runtime. *)
Ltac mbind_hook E ::=
  lazymatch type of E with
  | rcheck _ _ _ = _ => apply rcheck_ok in E as [E ->]
  | assertLive _ = _ => apply assertLive_ok in E as [E ->]
  | requireSafeUint _ _ = _ => apply requireSafeUint_ok in E as [E ->]
  | on_machine copyRootKey _ = _ =>
      let m := fresh "m" in apply on_machine_ok in E as (m & [-> ->]%copyRootKey_ok & ->);
      rewrite set_machine_same in *
  | on_machine epoch _ = _ =>
      let m := fresh "m" in apply on_machine_ok in E as (m & [-> ->]%epoch_ok & ->);
      rewrite set_machine_same in *
  | on_machine nextOfferer _ = _ =>
      let m := fresh "m" in apply on_machine_ok in E as (m & [-> ->]%nextOfferer_ok & ->);
      rewrite set_machine_same in *
  | on_machine _ _ = _ => let m := fresh "m" in apply on_machine_ok in E as (m & E & ->)
  | on_frame _ _ = _ => apply on_frame_ok in E as [E ->]
  | on_healing _ _ = _ => apply on_healing_ok in E as [E ->]
  | _ => idtac
  end.

Section Methods.
Context {C : LibCrypto} {B : MlKemBackend}.
Implicit Types s : SparsePqHealingState.

Lemma refresh_ok s a s' : refreshMessageRoot s = (Ok a, s') ->
  s' = set_messageRoot (m_rootKey (st_machine s)) s.
Proof. unfold refreshMessageRoot. intros H. by mbinds H. Qed.

Lemma sealRecord_ok root e record nonce s f s' : sealRecord root e record nonce s = (Ok f, s') ->
  sealPqControlFrame (e_suite (st_edge s)) root (e_binding (st_edge s))
    (e_outboundDirection (st_edge s)) e record nonce = Ok f /\ s' = s.
Proof. unfold sealRecord. intros H. mbinds H. by apply on_frame_ok in H. Qed.

Lemma healingDue_ok now s b s' : healingDue now s = (Ok b, s') ->
  st_destroyed s = false /\ 0 <= now <= MAX_SAFE_INTEGER /\ s' = s /\
  (b = true <-> trafficBlocked (st_machine s) = false /\ m_nextOfferer (st_machine s) = local /\
     (PQ_HEAL_AFTER_MESSAGES <= st_messagesSinceHealing s \/ PQ_HEAL_AFTER_MS <= now - st_lastHealedAt s)).
Proof.
  unfold healingDue. intros H. mbinds H. destruct (trafficBlocked (st_machine s)) eqn:Ht.
  { injection H as <- <-. split_and!; try done || lia. }
  mbinds H. subst b. split_and!; try done || lia.
  rewrite andb_true_iff, bool_decide_eq_true, orb_true_iff, !Z.leb_le. tauto.
Qed.

Ltac seals :=
  repeat match goal with
  | H : sealRecord _ _ _ _ _ = (Ok _, _) |- _ => apply sealRecord_ok in H as [H ->]
  | H : refreshMessageRoot _ = (Ok _, _) |- _ => apply refresh_ok in H
  end; subst; cbn in *; rewrite ?set_machine_twice in *.

(** A healing offer: the machine prepares and dispatches an OFFER, whose frame
    is sealed under the root of the current epoch and becomes the outbox. *)
Lemma prepareHealingOffer_ok coins nonce now s f s' :
  prepareHealingOffer coins nonce now s = (Ok f, s') ->
  exists r m1 m2, st_destroyed s = false /\ 0 <= now <= MAX_SAFE_INTEGER /\
    prepareOffer coins (st_machine s) = (Ok r, m1) /\ markOfferDispatched m1 = (Ok tt, m2) /\
    sealPqControlFrame (e_suite (st_edge s)) (m_rootKey m1) (e_binding (st_edge s))
      (e_outboundDirection (st_edge s)) (m_epoch m1) r nonce = Ok f /\
    s' = set_cache None None None (set_outbox (new_outbox kind_offer f now) (set_machine m2 s)).
Proof.
  unfold prepareHealingOffer, clearDuplicateCache. intros H. mbinds H.
  apply healingDue_ok in E0 as (_ & Hn & -> & _). subst.
  seals.
  eexists _, _, _. split_and!; try done; lia.
Qed.

(** What [acceptControlFrame] did with a fresh frame, by the kind of record. *)
Inductive processed (s : SparsePqHealingState) (frame record : bytes) (now : Z) (coins nonce : bytes) :
    option bytes -> SparsePqHealingState -> Prop :=
  | proc_ack k m : outboxKind s = Some kind_advance ->
      decodePqHealingAck record (e_suite (st_edge s)) (e_binding (st_edge s)) = Ok k ->
      acceptAuthenticatedAdvanceAcknowledgement k (st_machine s) = (Ok tt, m) ->
      processed s frame record now coins nonce None
        (set_messageRoot (m_rootKey m) (set_healing 0 now (set_cache None None None
           (set_outbox None (set_machine m s)))))
  | proc_offer m1 a m2 m3 r f : acceptAuthenticatedOffer record (st_machine s) = (Ok tt, m1) ->
      prepareAdvance coins m1 = (Ok a, m2) -> commitPreparedAdvance m2 = (Ok r, m3) ->
      sealPqControlFrame (e_suite (st_edge s)) (m_rootKey (st_machine s)) (e_binding (st_edge s))
        (e_outboundDirection (st_edge s)) (m_epoch m2) a nonce = Ok f ->
      processed s frame record now coins nonce (Some f)
        (set_messageRoot (m_rootKey m3) (set_cache (Some frame) None None
           (set_outbox (new_outbox kind_advance f now) (set_machine m3 s))))
  | proc_advance m1 k m2 ar f m3 : outboxKind s = Some kind_offer ->
      acceptAuthenticatedAdvance record (st_machine s) = (Ok tt, m1) ->
      commitAcceptedAdvance m1 = (Ok k, m2) ->
      encodePqHealingAck k (e_suite (st_edge s)) (e_binding (st_edge s)) = Ok ar ->
      sealPqControlFrame (e_suite (st_edge s)) (m_rootKey m2) (e_binding (st_edge s))
        (e_outboundDirection (st_edge s)) (ack_epoch k) ar nonce = Ok f ->
      markAdvanceAcknowledgementDispatched k m2 = (Ok tt, m3) ->
      processed s frame record now coins nonce (Some f)
        (set_messageRoot (m_rootKey m3) (set_healing 0 now (set_cache None (Some frame) (Some f)
           (set_outbox None (set_machine m3 s))))).

Lemma acceptAckRecord_ok record now s res s' frame coins nonce :
  acceptAckRecord record now s = (Ok res, s') ->
  cr_changed res = true /\ processed s frame record now coins nonce (cr_dispatch res) s'.
Proof.
  unfold acceptAckRecord, clearDuplicateCache. intros H. mbinds H.
  apply bool_decide_eq_true in E. seals. split; [done|].
  by eapply proc_ack.
Qed.

Lemma answerOfferRecord_ok frame record now coins nonce s res s' :
  answerOfferRecord frame (m_rootKey (st_machine s)) record now coins nonce s = (Ok res, s') ->
  cr_changed res = true /\ processed s frame record now coins nonce (cr_dispatch res) s'.
Proof.
  unfold answerOfferRecord. intros H. mbinds H. seals. split; [done|]. by eapply proc_offer.
Qed.

Lemma acceptAdvanceRecord_ok frame record now coins nonce s res s' :
  acceptAdvanceRecord frame record now nonce s = (Ok res, s') ->
  cr_changed res = true /\ processed s frame record now coins nonce (cr_dispatch res) s'.
Proof.
  unfold acceptAdvanceRecord. intros H. mbinds H. apply bool_decide_eq_true in E. seals. split; [done|].
  by eapply proc_advance.
Qed.

Lemma acceptControlFrame_ok frame now coins nonce s res s' :
  acceptControlFrame frame now coins nonce s = (Ok res, s') ->
  st_destroyed s = false /\ blen frame = WIRE_CHUNK_FRAME_LEN /\ 0 <= now <= MAX_SAFE_INTEGER /\
  match duplicateResponse frame s with
  | Some response => res = {| cr_dispatch := Some response; cr_changed := false |} /\ s' = s
  | None => exists record,
      openPqControlFrame (e_suite (st_edge s)) (m_rootKey (st_machine s)) (e_binding (st_edge s))
        (e_inboundDirection (st_edge s)) (m_epoch (st_machine s)) frame = Ok record /\
      cr_changed res = true /\ processed s frame record now coins nonce (cr_dispatch res) s'
  end.
Proof.
  unfold acceptControlFrame. intros H. mbinds H. apply Z.eqb_eq in E0. split_and!; try done; try lia.
  destruct (duplicateResponse frame s); mbinds H.
  { by subst. }
  subst. eexists. split; [eassumption|]. unfold processRecord in H.
  destruct (_ =? _); [by eapply acceptAckRecord_ok|]. mbinds H.
  destruct x0; [by eapply answerOfferRecord_ok|by eapply acceptAdvanceRecord_ok].
Qed.

(** ** The invariant between transactions *)

(** The direction and the suites come from one authenticated edge. *)
Definition edge_ok (edge : EdgeConfig) : Prop :=
  roomPqModeToRootSuite (e_pqMode edge) = e_rootSuite edge /\
  getMlKemSuite (roomPqModeToParameterSet (e_pqMode edge)) = Some (e_suite edge) /\
  exists b, directions b = (e_outboundDirection edge, e_inboundDirection edge).

(** What waits in the outbox is what the phase waits for. *)
Definition coherent s : Prop :=
  match m_phase (st_machine s) with
  | Idle => outboxKind s = None
  | OutboundOffer true _ _ => outboxKind s = Some kind_offer
  | OutboundAdvanceAwaitingAck _ _ => outboxKind s = Some kind_advance
  | _ => False
  end /\
  (st_lastInboundOfferFrame s <> None -> outboxKind s = Some kind_advance) /\
  (st_lastInboundAdvanceFrame s = None <-> st_cachedAckFrame s = None) /\
  (st_lastInboundOfferFrame s = None \/ st_lastInboundAdvanceFrame s = None).

Definition frame_sized (f : bytes) : Prop := blen f = WIRE_CHUNK_FRAME_LEN.
Definition frames_sized (o : option bytes) : Prop := forall f, o = Some f -> frame_sized f.
Definition outbox_ok (o : option PqHealingOutbox) : Prop :=
  forall b, o = Some b -> frame_sized (ob_frame b) /\ 0 <= ob_attempts b <= PQ_HEAL_MAX_RETRIES /\
    0 <= ob_nextRetryAt b <= MAX_SAFE_INTEGER.

Record runtime_inv s : Prop := {
  ri_live : st_destroyed s = false;
  ri_edge : edge_ok (st_edge s);
  ri_machine : machine_inv (st_machine s);
  ri_ready : ready (st_machine s);
  ri_suite : m_suite (st_machine s) = e_suite (st_edge s);
  ri_binding : m_binding (st_machine s) = e_binding (st_edge s);
  ri_root : st_messageRoot s = m_rootKey (st_machine s);
  ri_coherent : coherent s;
  ri_outbox : outbox_ok (st_outbox s);
  ri_offer : frames_sized (st_lastInboundOfferFrame s);
  ri_advance : frames_sized (st_lastInboundAdvanceFrame s);
  ri_ack : frames_sized (st_cachedAckFrame s);
  ri_messages : 0 <= st_messagesSinceHealing s <= MAX_SAFE_INTEGER;
  ri_healed : 0 <= st_lastHealedAt s <= MAX_SAFE_INTEGER;
}.

Lemma seal_size suite root binding dir e record nonce f : blen nonce = RATCHET_NONCE_LEN ->
  sealPqControlFrame suite root binding dir e record nonce = Ok f -> frame_sized f.
Proof.
  intros Hn (i & key & ct & Hb & _ & _ & _ & _ & _ & _ & Hl & ->)%seal_ok; [|done].
  unfold frame_sized. rewrite blen_app, Hl, blen_cell_header by done. lia.
Qed.

(** ** The machine across one transaction *)

Implicit Types m : machine.

Definition same_machine_edge m m' : Prop := m_suite m' = m_suite m /\ m_binding m' = m_binding m.

Lemma offer_machine coins m r m1 m2 : machine_inv m ->
  prepareOffer coins m = (Ok r, m1) -> markOfferDispatched m1 = (Ok tt, m2) ->
  m_rootKey m1 = m_rootKey m /\ m_epoch m1 = m_epoch m /\
  machine_inv m2 /\ ready m2 /\ same_machine_edge m m2 /\ m_rootKey m2 = m_rootKey m /\
  exists o kp, m_phase m2 = OutboundOffer true o kp.
Proof.
  intros Hm (kp & o & Hr & _ & Hn & Hcs & _ & Hsk & He & Hd & ->)%prepareOffer_ok.
  destruct (prepared_offer_wf _ _ _ _ Hm He Hd) as (? & ? & ? & ?).
  intros (_ & o' & kp' & [= <- <-] & ->)%markOfferDispatched_ok.
  split_and!; try done; [|by exists o, kp].
  change (machine_inv (set_phase (OutboundOffer true o kp) m)).
  apply machine_inv_set_phase; [done|]. unfold phase_inv, keypair_wf. cbn. by split_and!.
Qed.

Lemma answer_machine coins record m a r m1 m2 m3 : machine_inv m ->
  acceptAuthenticatedOffer record m = (Ok tt, m1) -> prepareAdvance coins m1 = (Ok a, m2) ->
  commitPreparedAdvance m2 = (Ok r, m3) ->
  m_epoch m2 = m_epoch m /\ machine_inv m3 /\ ready m3 /\ same_machine_edge m m3 /\ r = a /\
  exists o d, m_phase m3 = OutboundAdvanceAwaitingAck o d.
Proof.
  intros Hm (o & Hr & Hd & Hp & Hn & Hc & Hf & Hcs & ->)%acceptAuthenticatedOffer_ok.
  assert (machine_inv (set_phase (InboundOffer o) m)) as Hm1.
  { eapply effect_inv; [done|by eapply eff_accepted_offer|apply Hr]. }
  intros (o1 & ct & ss & d & root & Hr1 & Hp1 & _ & _ & He & Hd1 & Hroot & ->)%prepareAdvance_ok.
  phase_facts Hm1 Hp1. destruct Hph as (Ho & Hn1 & Hc1 & Hf1 & Hcs1).
  destruct (prepared_advance_wf _ _ _ _ _ Hm1 Ho He Hd1) as (? & ? & ? & ? & ? & ? & ?).
  apply deriveNextRoot_length in Hroot.
  intros Hco. pose proof Hco as (_ & o2 & d2 & root2 & [= <- <- <-] & _ & -> & Hm3)%commitPreparedAdvance_ok.
  assert (ready m3 /\ same_machine_edge m m3 /\
    exists o d, m_phase m3 = OutboundAdvanceAwaitingAck o d) as (? & ? & ?)
    by (subst m3; destruct Hr; split_and!; by eauto).
  split_and!; try done.
  eapply commitPreparedAdvance_inv; [|exact Hco]. apply machine_inv_set_phase; [done|].
  unfold phase_inv. cbn in *. split_and!; done || lia.
Qed.

Lemma accept_machine record m m1 k m2 m3 : machine_inv m ->
  acceptAuthenticatedAdvance record m = (Ok tt, m1) -> commitAcceptedAdvance m1 = (Ok k, m2) ->
  markAdvanceAcknowledgementDispatched k m2 = (Ok tt, m3) ->
  machine_inv m3 /\ ready m3 /\ same_machine_edge m m3 /\ m_rootKey m3 = m_rootKey m2 /\
  m_phase m3 = Idle.
Proof.
  intros Hm (d & o & kp & ss & root & Hr & Hd & Hp & Hc & Hf & Hob & _ & Hroot & ->)%acceptAdvance_ok.
  phase_facts Hm Hp. destruct Hph as (Hwo' & Hkp & Hn & Hl & _ & Hcs).
  destruct (decodeAdvance_facts _ _ _ Hm Hd) as (Hwf & _ & Hwo & _).
  assert (o = advance_offer d) as -> by (unfold offer_wf in *; congruence).
  apply deriveNextRoot_length in Hroot.
  assert (machine_inv (set_phase (InboundAdvancePrepared (advance_offer d) d kp root) m)) as Hm1
    by (apply machine_inv_set_phase; [done|]; unfold phase_inv; cbn; by split_and!).
  intros Hco. pose proof (commitAcceptedAdvance_inv _ _ _ Hm1 Hco) as Hm2.
  apply commitAcceptedAdvance_ok in Hco as (_ & o1 & d1 & kp1 & root1 & _ & _ & _ & ->).
  intros (_ & d2 & _ & _ & _ & ->)%markAckDispatched_ok.
  split_and!; try done. by apply to_idle_inv.
Qed.

Lemma ack_machine k m m' : machine_inv m ->
  acceptAuthenticatedAdvanceAcknowledgement k m = (Ok tt, m') ->
  machine_inv m' /\ ready m' /\ same_machine_edge m m' /\ m_phase m' = Idle.
Proof.
  intros Hm (Hr & o & d & _ & _ & _ & ->)%acceptAck_ok. split_and!; try done. by apply to_idle_inv.
Qed.
End Methods.
