(* ===== verification/PqRuntimeInv.v ===== *)
(** * Invariant and duplicate handling of the healing runtime

    Every operation of [SparsePqHealingState] that returns keeps
    [runtime_inv], cloning gives an equal runtime, and what the runtime does
    with a control frame it has seen before. *)

From Stdlib Require Import String.
From S2P Require Import Prelude Bytes Constants Crypto PqMessageKey RoomPolicy MlKem PqRecord PqMachine.
From S2P Require Import PqInvariant PqSnapshot PqProtocol WireFrames PqFrame PqRuntime.
From stdpp Require Import relations.
Local Open Scope Z_scope.
Local Open Scope list_scope.

Section Invariant.
Context {C : LibCrypto} {B : MlKemBackend}.
Implicit Types (s : SparsePqHealingState) (m : machine).

(** The clock leaves room for the next retry deadline. *)
Definition clock_ok (now : Z) : Prop := 0 <= now /\ now + PQ_HEAL_RETRY_MS <= MAX_SAFE_INTEGER.

Lemma new_runtime_inv mode suite binding root turn b now s :
  new_runtime mode suite binding root turn b now = Ok s -> runtime_inv s.
Proof.
  unfold new_runtime. intros H. binds H. destruct (directions b) as [out inb] eqn:Hd.
  destruct (getMlKemSuite _) as [su|] eqn:Hs; [|done]. apply Ok_inj in H, E2. subst x s.
  apply require_ok in E, E0, E1, E4. apply bool_decide_eq_true in E. apply map_err_ok in E3.
  pose proof (new_machine_inv _ _ _ _ _ _ _ _ E3) as Hm.
  apply new_machine_fields in E3 as ->. unfold isSafeUint in E4.
  apply andb_true_iff in E4 as [?%Z.leb_le ?%Z.leb_le].
  split; cbn; try done.
  - split_and!; [done|done|by exists b].
  - unfold coherent. cbn. split_and!; try done. by left.
Qed.

Lemma inv_set_healing s n now : runtime_inv s -> 0 <= n <= MAX_SAFE_INTEGER ->
  0 <= now <= MAX_SAFE_INTEGER -> runtime_inv (set_healing n now s).
Proof. intros [] ? ?. by split. Qed.

(** A new machine with matching outbox and caches. *)
Lemma inv_exchange s m o a b c : runtime_inv s ->
  machine_inv m -> ready m -> same_machine_edge (st_machine s) m ->
  coherent (set_cache a b c (set_outbox o (set_machine m s))) -> outbox_ok o ->
  frames_sized a -> frames_sized b -> frames_sized c ->
  runtime_inv (set_messageRoot (m_rootKey m) (set_cache a b c (set_outbox o (set_machine m s)))).
Proof.
  intros [] ? ? [H1 H2] ? ? ? ? ?. split; cbn; try done; congruence.
Qed.

Lemma new_outbox_ok kind f now : frame_sized f -> 0 <= now <= MAX_SAFE_INTEGER ->
  outbox_ok (new_outbox kind f now).
Proof. intros ? ? b [= <-]. cbn. change PQ_HEAL_MAX_RETRIES with 8. split_and!; done || lia. Qed.

Lemma frames_none : frames_sized None.
Proof. done. Qed.
Lemma frames_some f : frame_sized f -> frames_sized (Some f).
Proof. intros ? ? [= <-]. done. Qed.
Lemma outbox_none : outbox_ok None.
Proof. done. Qed.
Hint Resolve frames_none frames_some outbox_none new_outbox_ok : core.

Lemma prepareHealingOffer_inv coins nonce now s f s' : runtime_inv s -> blen nonce = RATCHET_NONCE_LEN ->
  prepareHealingOffer coins nonce now s = (Ok f, s') -> runtime_inv s'.
Proof.
  intros Hs Hn (r & m1 & m2 & _ & Hnow & H1 & H2 & Hseal & ->)%prepareHealingOffer_ok.
  destruct (offer_machine _ _ _ _ _ (ri_machine _ Hs) H1 H2) as (_ & _ & Hm & Hr & He & Hroot & o & kp & Hp).
  apply seal_size in Hseal; [|done].
  pose proof (inv_exchange s m2 (new_outbox kind_offer f now) None None None Hs Hm Hr He) as Hi.
  assert (set_messageRoot (m_rootKey m2) (set_cache None None None (set_outbox (new_outbox kind_offer f now) (set_machine m2 s)))
    = set_cache None None None (set_outbox (new_outbox kind_offer f now) (set_machine m2 s))) as Heq.
  { unfold set_messageRoot. cbn. by rewrite Hroot, <- (ri_root _ Hs). }
  rewrite Heq in Hi. apply Hi; auto. unfold coherent. cbn. rewrite Hp. split_and!; try done. by left.
Qed.

Lemma processed_inv s frame record now coins nonce d s' : runtime_inv s ->
  blen nonce = RATCHET_NONCE_LEN -> frame_sized frame -> 0 <= now <= MAX_SAFE_INTEGER ->
  processed s frame record now coins nonce d s' -> runtime_inv s'.
Proof.
  intros Hs Hn Hf Hnow. destruct 1 as [k m Hk Hd Ha|m1 a m2 m3 r f H1 H2 H3 Hseal
    |m1 k m2 ar f m3 Hk H1 H2 Har Hseal H3].
  - destruct (ack_machine _ _ _ (ri_machine _ Hs) Ha) as (Hm & Hr & He & Hp).
    apply (inv_exchange (set_healing 0 now s) m None None None None); auto.
    { apply inv_set_healing; [done| |done]. unfold MAX_SAFE_INTEGER. lia. }
    unfold coherent. cbn. rewrite Hp. split_and!; try done. by left.
  - destruct (answer_machine _ _ _ _ _ _ _ _ (ri_machine _ Hs) H1 H2 H3)
      as (_ & Hm & Hr & He & _ & o & d & Hp).
    apply seal_size in Hseal; [|done]. apply inv_exchange; auto.
    unfold coherent. cbn. rewrite Hp. split_and!; try done. by right.
  - destruct (accept_machine _ _ _ _ _ _ (ri_machine _ Hs) H1 H2 H3) as (Hm & Hr & He & _ & Hp).
    apply seal_size in Hseal; [|done].
    apply (inv_exchange (set_healing 0 now s) m3 None None (Some frame) (Some f)); auto.
    { apply inv_set_healing; [done| |done]. unfold MAX_SAFE_INTEGER. lia. }
    unfold coherent. cbn. rewrite Hp. split_and!; try done. by left.
Qed.

Lemma acceptControlFrame_inv frame now coins nonce s res s' : runtime_inv s ->
  blen nonce = RATCHET_NONCE_LEN ->
  acceptControlFrame frame now coins nonce s = (Ok res, s') -> runtime_inv s'.
Proof.
  intros Hs Hn (_ & Hf & Hnow & H)%acceptControlFrame_ok.
  destruct (duplicateResponse frame s); [by destruct H as [_ ->]|].
  destruct H as (record & _ & _ & H). by eapply processed_inv.
Qed.

Lemma markPendingDispatched_ok now s a s' : markPendingDispatched now s = (Ok a, s') ->
  exists o, st_outbox s = Some o /\ 0 <= now /\ ob_attempts o < PQ_HEAL_MAX_RETRIES /\
    s' = set_outbox (Some {| ob_kind := ob_kind o; ob_frame := ob_frame o;
           ob_attempts := ob_attempts o + 1; ob_nextRetryAt := now + PQ_HEAL_RETRY_MS |}) s.
Proof.
  unfold markPendingDispatched. intros H. mbinds H. destruct (st_outbox s) as [o|] eqn:Ho; [|done].
  mbinds H. apply negb_true_iff, Z.leb_gt in E1. exists o. split_and!; done || lia.
Qed.

Lemma markPendingDispatched_inv now s a s' : runtime_inv s -> clock_ok now ->
  markPendingDispatched now s = (Ok a, s') -> runtime_inv s'.
Proof.
  intros Hs [Hn Hn'] (o & Ho & _ & Ha & ->)%markPendingDispatched_ok.
  destruct Hs as [? ? ? ? ? ? ? Hc Hob ? ? ? ? ?]. destruct (Hob _ Ho) as (? & ? & ?).
  split; cbn; try done.
  - unfold coherent, outboxKind in *. rewrite Ho in Hc. exact Hc.
  - intros b [= <-]. cbn. change PQ_HEAL_RETRY_MS with 5000 in *. split_and!; done || lia.
Qed.

Lemma noteApplicationMessage_inv s a s' : runtime_inv s ->
  noteApplicationMessage s = (Ok a, s') -> runtime_inv s'.
Proof.
  unfold noteApplicationMessage. intros Hs H. mbinds H. apply negb_true_iff, Z.leb_gt in E0.
  pose proof (ri_messages _ Hs). pose proof (ri_healed _ Hs). apply inv_set_healing; [done|lia..].
Qed.

(** A message counted; the runtime that results. *)
Definition counted (pq : SparsePqHealingState) : SparsePqHealingState :=
  set_healing (st_messagesSinceHealing pq + 1) (st_lastHealedAt pq) pq.

Lemma note_runs pq : st_destroyed pq = false -> st_messagesSinceHealing pq < MAX_SAFE_INTEGER ->
  noteApplicationMessage pq = (Ok tt, counted pq).
Proof.
  intros Hl Hn. unfold noteApplicationMessage, assertLive, rcheck, mrequire, mbind, M_bind, get_this, lift.
  rewrite Hl. cbn [negb require]. by rewrite (proj2 (Z.leb_gt _ _) Hn).
Qed.

Lemma inv_set_keys pq keys : runtime_inv pq -> runtime_inv (set_keys keys pq).
Proof. intros []. by split. Qed.

Lemma counted_inv pq : runtime_inv pq -> st_messagesSinceHealing pq < MAX_SAFE_INTEGER -> runtime_inv (counted pq).
Proof.
  intros Hi Hc. apply inv_set_healing; [done| |apply Hi]. split; [|lia].
  assert (0 <= st_messagesSinceHealing pq) by apply Hi. lia.
Qed.

Lemma context_runs pq : runtime_inv pq -> exists ctx, currentMessageContext pq = (Ok ctx, pq) /\
  ctx_rootKey ctx = m_rootKey (st_machine pq) /\ ctx_binding ctx = e_binding (st_edge pq) /\
  ctx_rootSuite ctx = root_suite_string (e_rootSuite (st_edge pq)) /\ ctx_epoch ctx = m_epoch (st_machine pq).
Proof.
  intros Hi. eexists. split.
  - unfold currentMessageContext, assertLive, rcheck, mrequire, mbind, M_bind, get_this, lift.
    rewrite (ri_live _ Hi). cbn [negb require].
    destruct (active_reads _ (proj1 (ri_ready _ Hi))) as (_ & H2 & _).
    rewrite (on_machine_runs _ _ _ _ H2), set_machine_same. reflexivity.
  - cbn. by rewrite (ri_root _ Hi).
Qed.

(** The coherence check of the code decides [coherent]. *)
Lemma coherent_valid s : runtime_inv s -> validateCheckpointCoherence s = Ok tt.
Proof.
  intros Hs. destruct (ri_coherent _ Hs) as (Hp & Ho & Ha & Hx). destruct (ri_ready _ Hs) as [Hd _].
  unfold validateCheckpointCoherence, phase_. rewrite Hd.
  destruct (m_phase (st_machine s)) as [|[]| | | | |]; try done; rewrite Hp in Ho |- *; cbn [phaseName];
    repeat (apply result_bind_ok; exists tt; split); apply require_ok; try done;
    destruct (st_lastInboundOfferFrame s) as [|] eqn:E1, (st_lastInboundAdvanceFrame s) as [|] eqn:E2,
      (st_cachedAckFrame s) as [|] eqn:E3; cbn; try done; naive_solver.
Qed.

(** ** Copies *)

Lemma directions_initiator b edge : directions b = (e_outboundDirection edge, e_inboundDirection edge) ->
  amInitiator_of edge = b.
Proof. unfold amInitiator_of, directions. by destruct b; intros [= <- _]. Qed.

Lemma new_runtime_runs edge root turn b now : edge_ok edge ->
  directions b = (e_outboundDirection edge, e_inboundDirection edge) ->
  assertSameSuite (e_suite edge) backend_suite = Ok tt -> blen (e_binding edge) = 32 ->
  blen root = 32 -> 0 <= now <= MAX_SAFE_INTEGER ->
  exists m, new_runtime (e_pqMode edge) (e_rootSuite edge) (e_binding edge) root turn b now
    = Ok (Sparse edge m root None None None None [] 0 now false).
Proof.
  intros (Hr & Hs & _) Hd Hsu Hb Hro Hn. unfold new_runtime. rewrite Hs, Hd.
  rewrite bool_decide_true by done. rewrite Hb, Hro, !Z.eqb_refl. cbn [require mbind result_bind].
  rewrite new_machine_ok by (done || (unfold MAX_U64; lia)). cbn [map_err mbind result_bind].
  assert (isSafeUint now = true) as -> by (apply andb_true_iff; rewrite !Z.leb_le; lia).
  cbn. eexists. destruct edge. reflexivity.
Qed.

(** A clone is an equal runtime. *)
Lemma clone_runtime_runs s : runtime_inv s -> clone_runtime s = (Ok s, s).
Proof.
  intros Hs. destruct (ri_edge _ Hs) as (? & ? & b & Hb). destruct (ri_ready _ Hs) as [Hd Hbu].
  unfold clone_runtime, assertLive, rcheck, mrequire, mbind, M_bind, get_this.
  rewrite (ri_live _ Hs). cbn [negb require lift].
  destruct (active_reads _ Hd) as (H1 & _ & H3).
  rewrite (on_machine_runs _ _ _ _ H1), set_machine_same.
  rewrite (on_machine_runs _ _ _ _ H3), set_machine_same. unfold lift.
  rewrite (directions_initiator b) by done.
  destruct (new_runtime_runs (st_edge s) (m_rootKey (st_machine s)) (m_nextOfferer (st_machine s)) b
    (st_lastHealedAt s)) as [fresh ->]; try done.
  - apply Hs.
  - rewrite <- (ri_suite _ Hs). apply Hs.
  - rewrite <- (ri_binding _ Hs). apply Hs.
  - apply Hs.
  - apply Hs.
  - cbn [st_edge]. rewrite (on_machine_runs _ _ (st_machine s) (st_machine s)).
    + rewrite set_machine_same. unfold mret, M_ret. pose proof (ri_live _ Hs). destruct s. cbn in *. by subst.
    + pose proof (clone_ready (st_machine s) (ri_machine _ Hs) (conj Hd Hbu)) as Hc. exact Hc.
Qed.

(** Adopting a runtime of the same edge installs all of it. *)
Lemma adopt_runs this next : runtime_inv this -> runtime_inv next -> st_edge next = st_edge this ->
  fst (adopt_runtime false this next) = Ok tt /\ fst (snd (adopt_runtime false this next)) = next.
Proof.
  intros Ht Hn He. unfold adopt_runtime. rewrite (ri_live _ Ht), (ri_live _ Hn), He.
  rewrite !bool_decide_true, bytesEqual_refl by done. cbn. split; [done|].
  pose proof (ri_live _ Hn). destruct next. cbn in *. congruence.
Qed.

(** ** Frames seen before *)

Lemma not_duplicate s frame : st_lastInboundOfferFrame s = None -> st_lastInboundAdvanceFrame s = None ->
  duplicateResponse frame s = None.
Proof. unfold duplicateResponse. by intros -> ->. Qed.

Lemma duplicate_advance s frame f : st_lastInboundOfferFrame s = None ->
  st_lastInboundAdvanceFrame s = Some frame -> st_cachedAckFrame s = Some f ->
  duplicateResponse frame s = Some f.
Proof. unfold duplicateResponse. intros -> -> ->. by rewrite bytesEqual_refl. Qed.

Lemma duplicate_runs s frame now coins nonce response : st_destroyed s = false ->
  frame_sized frame -> 0 <= now <= MAX_SAFE_INTEGER -> duplicateResponse frame s = Some response ->
  acceptControlFrame frame now coins nonce s =
    (Ok {| cr_dispatch := Some response; cr_changed := false |}, s).
Proof.
  intros Hl Hf Hn Hd. unfold acceptControlFrame, assertLive, requireSafeUint, rcheck, mrequire.
  unfold mbind, M_bind, get_this. rewrite Hl. cbn [negb require]. unfold lift. rewrite Hf, Z.eqb_refl.
  cbn [require]. assert (isSafeUint now = true) as -> by (apply andb_true_iff; rewrite !Z.leb_le; lia).
  cbn [require]. by rewrite Hd.
Qed.

Lemma fresh_runs s frame now coins nonce : st_destroyed s = false ->
  m_destroyed (st_machine s) = false ->
  frame_sized frame -> 0 <= now <= MAX_SAFE_INTEGER -> duplicateResponse frame s = None ->
  acceptControlFrame frame now coins nonce s =
    match openPqControlFrame (e_suite (st_edge s)) (m_rootKey (st_machine s)) (e_binding (st_edge s))
            (e_inboundDirection (st_edge s)) (m_epoch (st_machine s)) frame with
    | Err e => (Err (FrameFailure e), s)
    | Ok record => processRecord frame (m_rootKey (st_machine s)) record now coins nonce s
    end.
Proof.
  intros Hl Hm Hf Hn Hd. unfold acceptControlFrame, assertLive, requireSafeUint, rcheck, mrequire.
  unfold mbind, M_bind, get_this. rewrite Hl. cbn [negb require]. unfold lift. rewrite Hf, Z.eqb_refl.
  cbn [require]. assert (isSafeUint now = true) as -> by (apply andb_true_iff; rewrite !Z.leb_le; lia).
  cbn [require]. rewrite Hd. destruct (active_reads _ Hm) as (H1 & H2 & _).
  rewrite (on_machine_runs _ _ _ _ H1), set_machine_same, (on_machine_runs _ _ _ _ H2), set_machine_same.
  unfold on_frame, lift. by destruct (openPqControlFrame _ _ _ _ _ _).
Qed.

(** What a processed frame leaves in the duplicate cache. *)
Lemma processed_duplicate s frame record now coins nonce f s' :
  processed s frame record now coins nonce (Some f) s' -> duplicateResponse frame s' = Some f.
Proof.
  remember (Some f) as d eqn:Hd. destruct 1; simplify_eq.
  - unfold duplicateResponse. cbn. by rewrite bytesEqual_refl.
  - by apply duplicate_advance.
Qed.

Lemma mark_keeps_duplicate s a s' now frame f : markPendingDispatched now s = (Ok a, s') ->
  duplicateResponse frame s = Some f -> duplicateResponse frame s' = Some f.
Proof.
  intros (o & Ho & _ & _ & ->)%markPendingDispatched_ok. unfold duplicateResponse. cbn. by rewrite Ho.
Qed.

(** ** Every reachable runtime *)

(** One call of the runtime that returned.  The last two are the transaction of
    the orchestrator: a clone is made, and adopted by the live runtime. *)
Inductive rt_step s : SparsePqHealingState -> Prop :=
  | rs_offer coins nonce now f s' : blen nonce = RATCHET_NONCE_LEN ->
      prepareHealingOffer coins nonce now s = (Ok f, s') -> rt_step s s'
  | rs_accept frame coins nonce now res s' : blen nonce = RATCHET_NONCE_LEN ->
      acceptControlFrame frame now coins nonce s = (Ok res, s') -> rt_step s s'
  | rs_dispatched now a s' : clock_ok now -> markPendingDispatched now s = (Ok a, s') -> rt_step s s'
  | rs_message a s' : noteApplicationMessage s = (Ok a, s') -> rt_step s s'
  | rs_clone a s' : clone_runtime s = (Ok a, s') -> rt_step s a
  | rs_adopt live next : runtime_inv live -> st_edge live = st_edge s ->
      adopt_runtime false live s = (Ok tt, next) -> rt_step s (fst next).
Definition rt_reachable s : Prop := exists mode suite binding root turn b now s0,
  new_runtime mode suite binding root turn b now = Ok s0 /\ rtc rt_step s0 s.

Lemma rt_step_inv s s' : runtime_inv s -> rt_step s s' -> runtime_inv s'.
Proof.
  intros Hs. destruct 1 as [|? ? ? ? ? ? ? H|? ? ? ? H|? ? H|a s' H|live next Hl He H].
  - by eapply prepareHealingOffer_inv.
  - by eapply acceptControlFrame_inv.
  - by eapply markPendingDispatched_inv.
  - by eapply noteApplicationMessage_inv.
  - rewrite clone_runtime_runs in H by done. by injection H as <- <-.
  - destruct (adopt_runs live s Hl Hs (eq_sym He)) as [_ Ha]. rewrite H in Ha. cbn in Ha. by rewrite Ha.
Qed.

Lemma rt_reachable_inv s : rt_reachable s -> runtime_inv s.
Proof.
  intros (mode & suite & b & root & t & i & now & s0 & H0 & Hs). apply new_runtime_inv in H0.
  induction Hs; eauto using rt_step_inv.
Qed.

(** Phase, outbox and caches never disagree.  Whatever sequence of calls
    returned since construction, including the clone-and-adopt transactions: the
    runtime waits for an answer exactly when the matching sealed frame is in its
    outbox, no half-made exchange is left between calls, its coherence check
    accepts it, and message keys are derived under the machine's current root. *)
Theorem runtime_stays_coherent s : rt_reachable s ->
  runtime_inv s /\ validateCheckpointCoherence s = Ok tt /\
  (m_phase (st_machine s) = Idle <-> st_outbox s = None) /\
  currentMessageContext s = (Ok {| ctx_rootKey := m_rootKey (st_machine s);
    ctx_binding := m_binding (st_machine s); ctx_rootSuite := root_suite_string (e_rootSuite (st_edge s));
    ctx_epoch := m_epoch (st_machine s) |}, s).
Proof.
  intros Hs%rt_reachable_inv. split_and!; [done| | |].
  - by apply coherent_valid.
  - destruct (ri_coherent _ Hs) as (H & _). unfold outboxKind in H.
    destruct (m_phase (st_machine s)) as [|[]| | | | |], (st_outbox s); cbn in H; done.
  - unfold currentMessageContext, assertLive, rcheck, mrequire, mbind, M_bind, get_this.
    rewrite (ri_live _ Hs). cbn [negb require]. unfold lift.
    destruct (active_reads _ (proj1 (ri_ready _ Hs))) as (_ & H2 & _).
    rewrite (on_machine_runs _ _ _ _ H2), set_machine_same.
    by rewrite (ri_root _ Hs), (ri_binding _ Hs).
Qed.

(** An exact duplicate of the control frame answered last gets exactly the
    answer that was made for it, also after the answer has been counted as
    dispatched, and changes nothing: a retransmission cannot fork the exchange. *)
Theorem duplicate_frame_resends s frame now coins nonce f s1 s2 : runtime_inv s ->
  acceptControlFrame frame now coins nonce s = (Ok {| cr_dispatch := Some f; cr_changed := true |}, s1) ->
  blen nonce = RATCHET_NONCE_LEN ->
  (s2 = s1 \/ exists t a, markPendingDispatched t s1 = (Ok a, s2)) ->
  forall now' coins' nonce', 0 <= now' <= MAX_SAFE_INTEGER ->
  acceptControlFrame frame now' coins' nonce' s2 =
    (Ok {| cr_dispatch := Some f; cr_changed := false |}, s2).
Proof.
  intros Hs Ha Hn H2 now' coins' nonce' Hnow.
  pose proof (acceptControlFrame_inv _ _ _ _ _ _ _ Hs Hn Ha) as Hs1.
  apply acceptControlFrame_ok in Ha as (_ & Hf & _ & Ha).
  destruct (duplicateResponse frame s); [by destruct Ha|].
  destruct Ha as (record & _ & _ & Hp%processed_duplicate).
  assert (duplicateResponse frame s2 = Some f /\ st_destroyed s2 = false) as [Hd Hl].
  { pose proof (ri_live _ Hs1). destruct H2 as [->|(t & a & Hm)]; [done|].
    split; [by eapply mark_keeps_duplicate|]. by apply markPendingDispatched_ok in Hm as (o & _ & _ & _ & ->). }
  by apply duplicate_runs.
Qed.

(** The acknowledgement is the one frame whose duplicate is not recognised:
    the cache is cleared when it is accepted, so the same frame opens again and
    is refused as unexpected.  The peer resends it for every duplicate of our
    ADVANCE, and our ADVANCE is retransmitted until the first acknowledgement
    arrives. *)
Theorem duplicate_ack_refused s frame now coins nonce s1 : runtime_inv s ->
  acceptControlFrame frame now coins nonce s = (Ok {| cr_dispatch := None; cr_changed := true |}, s1) ->
  forall now' coins' nonce', 0 <= now' <= MAX_SAFE_INTEGER ->
  acceptControlFrame frame now' coins' nonce' s1 = (Err (RuntimeError unexpected_ack), s1).
Proof.
  intros Hs Ha now' coins' nonce' Hnow. apply acceptControlFrame_ok in Ha as (_ & Hf & _ & Ha).
  destruct (duplicateResponse frame s); [by destruct Ha|]. destruct Ha as (record & Ho & _ & Hp).
  cbn [cr_dispatch] in Hp. remember None as d eqn:Hd. destruct Hp as [k m Hk Hdec Hm| |]; [|done..].
  apply acceptAck_ok in Hm as (Hr & o & a & _ & _ & _ & ->).
  assert (blen record = PQ_HEALING_ACK_BYTES) as Hl.
  { unfold decodePqHealingAck in Hdec. binds Hdec. by apply requireBytes_ok in E1. }
  set (s1 := set_messageRoot _ _). rewrite fresh_runs by (done || apply Hr || apply Hs).
  assert (openPqControlFrame (e_suite (st_edge s1)) (m_rootKey (st_machine s1)) (e_binding (st_edge s1))
    (e_inboundDirection (st_edge s1)) (m_epoch (st_machine s1)) frame = Ok record) as -> by exact Ho.
  unfold processRecord. rewrite Hl, Z.eqb_refl. done.
Qed.
End Invariant.
