(* ===== verification/PqCheckpoint.v ===== *)
(** * Checkpoints of the healing runtime ([serialize], [restore],
      [readCheckpointBinding] of [src/src/handlers/pqHealingRuntime.ts])

    A checkpoint is one byte string, written field by field under a budget of
    256 KiB and read back by a reader that refuses whatever a writer would not
    have produced.  The writer's state is the concatenation of its parts, the
    reader's state what is left to read.

    Cache keys are strings.  The pattern they must match is ASCII, so their UTF-8
    bytes are their characters, in the same order, for every key that is written,
    and a key read back that is not ASCII is refused (by the decoder or by the
    pattern: one error here). *)

From Stdlib Require Import String Strings.Byte.
From S2P Require Import Prelude Bytes Constants ChannelLabel Crypto PqMessageKey RoomPolicy MlKem PqRecord.
From S2P Require Import PqMachine PqInvariant PqSnapshot PqProtocol WireFrames PqFrame PqRuntime PqRuntimeInv.
Local Open Scope Z_scope.
Local Open Scope list_scope.

(** "P2EDGE4\0". *)
Definition EDGE_MAGIC : bytes := [x50; x32; x45; x44; x47; x45; x34; x00].
Definition EDGE_FORMAT_VERSION : Z := 1.
Definition MAX_EDGE_STATE_BYTES : Z := 256 * 1024.
Definition MAX_ACTIVE_RECEIVE_KEYS : Z := Z.min MAX_SKIP_SESSION 256.
Definition MAX_CACHE_KEY_BYTES : Z := 160.

(** [/^[0-9a-f]{64}:[0-9]+:[0-9]+$/]. *)
Definition is_digit (c : byte) : bool := (48 <=? u8 c) && (u8 c <=? 57).
Definition digits (s : bytes) : bool := (0 <? blen s) && forallb is_digit s.
Definition CANONICAL_CACHE_KEY (key : string) : bool :=
  match split_on x3a (text key) with
  | [h; a; b] => (blen h =? 64) && forallb is_lower_hex h && digits a && digits b
  | _ => false
  end.

Definition suiteTag (parameterSet : Z) : result RuntimeThrow Z :=
  if parameterSet =? 512 then Ok 1 else if parameterSet =? 768 then Ok 2
  else if parameterSet =? 1024 then Ok 3 else Err (RuntimeError unknown_suite).
Definition tagSuite (tag : Z) : result RuntimeThrow Z :=
  if tag =? 1 then Ok 512 else if tag =? 2 then Ok 768
  else if tag =? 3 then Ok 1024 else Err (RuntimeError unknown_suite).
Definition turnTag (turn : PqHealingTurn) : Z := match turn with local => 1 | remote => 2 end.
Definition tagTurn (tag : Z) : result RuntimeThrow PqHealingTurn :=
  if tag =? 1 then Ok local else if tag =? 2 then Ok remote else Err (RuntimeError invalid_turn).
Definition phaseTag (phase : PqHealingSnapshotPhase) : Z :=
  match phase with
  | snap_idle => 0
  | snap_outbound_offer false _ _ => 1
  | snap_outbound_offer true _ _ => 2
  | snap_inbound_offer _ => 3
  | snap_outbound_advance_prepared _ _ => 4
  | snap_outbound_advance_awaiting_ack _ => 5
  | snap_inbound_advance_prepared _ _ _ => 6
  | snap_inbound_advance_awaiting_ack_dispatch _ => 7
  end.

(** ** [ByteWriter] *)

Abbreviation writer A := (M bytes RuntimeThrow A).

Definition write_bytes (value : bytes) : writer unit :=
  modify_this (fun parts => parts ++ value);;
  parts ← get_this;
  mrequire (negb (MAX_EDGE_STATE_BYTES <? blen parts)) (RuntimeError over_budget).
Definition write_u8 (value : Z) : writer unit :=
  mrequire ((0 <=? value) && (value <=? 0xff)) (RuntimeError u8_range);;
  write_bytes [byte_of value].
Definition write_u16 (value : Z) : writer unit :=
  mrequire ((0 <=? value) && (value <=? 0xffff)) (RuntimeError u16_range);;
  write_bytes (be_encode 2 value).
Definition write_u32 (value : Z) : writer unit :=
  mrequire ((0 <=? value) && (value <=? 0xffffffff)) (RuntimeError u32_range);;
  write_bytes (be_encode 4 value).
Definition write_u64 (value : Z) : writer unit :=
  mrequire ((0 <=? value) && (value <=? MAX_U64)) (RuntimeError counter_range);;
  write_bytes (be_encode 8 value).
Definition write_sized (value : option bytes) : writer unit :=
  match value with
  | None => write_u32 0
  | Some v =>
      mrequire (negb (blen v =? 0)) (RuntimeError empty_field);;
      write_u32 (blen v);;
      write_bytes v
  end.

(** [new ByteWriter()], the calls on it, [finish()]. *)
Definition written (w : writer unit) : result RuntimeThrow bytes :=
  match w [] with (Ok tt, parts) => Ok parts | (Err e, _) => Err e end.

(** ** [ByteReader] *)

Abbreviation reader A := (M bytes RuntimeThrow A).

Definition read_take (length : Z) : reader bytes :=
  rest ← get_this;
  mrequire (negb ((length <? 0) || (blen rest <? length))) (RuntimeError truncated);;
  set_this (slice_from rest length);;
  mret (slice rest 0 length).
Definition read_u8 : reader Z := b ← read_take 1; mret (be_decode b).
Definition read_u16 : reader Z := b ← read_take 2; mret (be_decode b).
Definition read_u32 : reader Z := b ← read_take 4; mret (be_decode b).
Definition read_u64 : reader Z := b ← read_take 8; mret (be_decode b).
Definition read_sized (maximum : Z) : reader (option bytes) :=
  length ← read_u32;
  if length =? 0 then mret None else
  mrequire (negb (maximum <? length)) (RuntimeError field_over_budget);;
  v ← read_take length; mret (Some v).
Definition read_finish : reader unit :=
  rest ← get_this; mrequire (blen rest =? 0) (RuntimeError trailing_bytes).
(** [new ByteReader(value)] and the calls on it. *)
Definition read_all {A} (r : reader A) (value : bytes) : result RuntimeThrow A :=
  require (negb ((blen value =? 0) || (MAX_EDGE_STATE_BYTES <? blen value))) (RuntimeError bad_checkpoint_length);;
  fst (r value).

(** ** Phases *)

Definition writePhase (phase : PqHealingSnapshotPhase) : writer unit :=
  write_u8 (phaseTag phase);;
  match phase with
  | snap_idle => mret tt
  | snap_outbound_offer _ offer secretKey => write_sized (Some offer);; write_sized (Some secretKey)
  | snap_inbound_offer offer => write_sized (Some offer)
  | snap_outbound_advance_prepared advance nextRoot =>
      write_sized (Some advance);; write_sized (Some nextRoot)
  | snap_outbound_advance_awaiting_ack advance
  | snap_inbound_advance_awaiting_ack_dispatch advance => write_sized (Some advance)
  | snap_inbound_advance_prepared advance secretKey nextRoot =>
      write_sized (Some advance);; write_sized (Some secretKey);; write_sized (Some nextRoot)
  end.

Definition requiredSized (maximum : Z) : reader bytes :=
  v ← read_sized maximum;
  match v with Some v => mret v | None => mthrow (RuntimeError field_missing) end.

Definition readPhase (suite : MlKemSuiteDescriptor) : reader PqHealingSnapshotPhase :=
  let offerMaximum := 64 + publicKeyBytes suite in
  let advanceMaximum := 64 + offerMaximum + ciphertextBytes suite in
  tag ← read_u8;
  match tag with
  | 0 => mret snap_idle
  | 1 =>
      offer ← requiredSized offerMaximum; secretKey ← requiredSized (secretKeyBytes suite);
      mret (snap_outbound_offer false offer secretKey)
  | 2 =>
      offer ← requiredSized offerMaximum; secretKey ← requiredSized (secretKeyBytes suite);
      mret (snap_outbound_offer true offer secretKey)
  | 3 => offer ← requiredSized offerMaximum; mret (snap_inbound_offer offer)
  | 4 =>
      advance ← requiredSized advanceMaximum; nextRoot ← requiredSized 32;
      mret (snap_outbound_advance_prepared advance nextRoot)
  | 5 => advance ← requiredSized advanceMaximum; mret (snap_outbound_advance_awaiting_ack advance)
  | 6 =>
      advance ← requiredSized advanceMaximum; secretKey ← requiredSized (secretKeyBytes suite);
      nextRoot ← requiredSized 32;
      mret (snap_inbound_advance_prepared advance secretKey nextRoot)
  | 7 =>
      advance ← requiredSized advanceMaximum;
      mret (snap_inbound_advance_awaiting_ack_dispatch advance)
  | _ => mthrow (RuntimeError unknown_phase)
  end.

(** ** The outbox *)

Definition writeOutbox (outbox : option PqHealingOutbox) : writer unit :=
  match outbox with
  | None => write_u8 0
  | Some o =>
      write_u8 (if bool_decide (ob_kind o = kind_offer) then 1 else 2);;
      write_u8 (ob_attempts o);;
      write_u64 (ob_nextRetryAt o);;
      write_sized (Some (ob_frame o))
  end.

Definition readOutbox : reader (option PqHealingOutbox) :=
  tag ← read_u8;
  if tag =? 0 then mret None else
  mrequire ((tag =? 1) || (tag =? 2)) (RuntimeError bad_outbox);;
  attempts ← read_u8;
  mrequire (negb (PQ_HEAL_MAX_RETRIES <? attempts)) (RuntimeError bad_outbox);;
  nextRetryAt ← read_u64;
  mrequire (negb (MAX_SAFE_INTEGER <? nextRetryAt)) (RuntimeError bad_outbox);;
  frame ← requiredSized WIRE_CHUNK_FRAME_LEN;
  mrequire (blen frame =? WIRE_CHUNK_FRAME_LEN) (RuntimeError wrong_length);;
  mret (Some {| ob_kind := if tag =? 1 then kind_offer else kind_advance; ob_frame := frame;
                ob_attempts := attempts; ob_nextRetryAt := nextRetryAt |}).

(** ** Active receive keys *)

Fixpoint bytes_ltb (l r : bytes) : bool :=
  match l, r with
  | _, [] => false
  | [], _ :: _ => true
  | a :: l', b :: r' => if u8 a =? u8 b then bytes_ltb l' r' else u8 a <? u8 b
  end.
Definition key_order (l r : string * bytes) : Z :=
  if bytes_ltb (text l.1) (text r.1) then -1 else if bytes_ltb (text r.1) (text l.1) then 1 else 0.

Fixpoint writeKeyEntries (entries : list (string * bytes)) : writer unit :=
  match entries with
  | [] => mret tt
  | (cacheKey, messageKey) :: rest =>
      mrequire (CANONICAL_CACHE_KEY cacheKey) (RuntimeError bad_cache_key);;
      let encodedKey := text cacheKey in
      mrequire (negb ((blen encodedKey =? 0) || (MAX_CACHE_KEY_BYTES <? blen encodedKey)))
        (RuntimeError bad_cache_key);;
      mrequire (blen messageKey =? 32) (RuntimeError wrong_length);;
      write_u16 (blen encodedKey);;
      write_bytes encodedKey;;
      write_bytes messageKey;;
      writeKeyEntries rest
  end.
Definition writeActiveKeys (keys : list (string * bytes)) : writer unit :=
  mrequire (negb (MAX_ACTIVE_RECEIVE_KEYS <? blen keys)) (RuntimeError too_many_keys);;
  write_u16 (blen keys);;
  writeKeyEntries (array_sort key_order keys).

(** [textDecoder.decode]: a leading byte order mark is dropped. *)
Definition decode_text (encoded : bytes) : string :=
  String.string_of_list_byte
    match encoded with xef :: xbb :: xbf :: rest => rest | _ => encoded end.

(** [result] is the map filled so far, in insertion order. *)
Fixpoint readKeyEntries (count : nat) (result : list (string * bytes)) : reader (list (string * bytes)) :=
  match count with
  | O => mret result
  | S count' =>
      keyLength ← read_u16;
      mrequire (negb ((keyLength =? 0) || (MAX_CACHE_KEY_BYTES <? keyLength))) (RuntimeError bad_cache_key);;
      encoded ← read_take keyLength;
      let key := decode_text encoded in
      mrequire (negb ((Z.of_nat (String.length key) =? 0) || negb (CANONICAL_CACHE_KEY key)
                      || bool_decide (key ∈ result.*1))) (RuntimeError bad_cache_key);;
      value ← read_take 32;
      readKeyEntries count' (result ++ [(key, value)])
  end.
Definition readActiveKeys : reader (list (string * bytes)) :=
  count ← read_u16;
  mrequire (negb (MAX_ACTIVE_RECEIVE_KEYS <? count)) (RuntimeError too_many_keys);;
  readKeyEntries (Z.to_nat count) [].

(** ** The checkpoint *)

(** The fields of a checkpoint, as one [reader] of [restore] finds them. *)
Record CheckpointFields := {
  cp_lastHealedAt : Z; cp_messagesSinceHealing : Z; cp_snapshot : PqHealingSnapshot;
  cp_outbox : option PqHealingOutbox; cp_lastOfferFrame : option bytes;
  cp_lastAdvanceFrame : option bytes; cp_cachedAckFrame : option bytes;
  cp_activeKeys : list (string * bytes) }.

Definition writeState (this : SparsePqHealingState) (snap : PqHealingSnapshot)
    (activeReceiveKeys : list (string * bytes)) : writer unit :=
  write_bytes EDGE_MAGIC;;
  write_u8 EDGE_FORMAT_VERSION;;
  tag ← lift (suiteTag (parameterSet (e_suite (st_edge this))));
  write_u8 tag;;
  write_u8 (if amInitiator_of (st_edge this) then 1 else 2);;
  write_u8 0;;
  write_u64 (st_lastHealedAt this);;
  write_u64 (st_messagesSinceHealing this);;
  write_bytes (s_binding snap);;
  write_bytes (s_rootKey snap);;
  write_u64 (s_epoch snap);;
  write_u64 (s_localCounter snap);;
  write_u64 (s_remoteCounter snap);;
  write_u8 (turnTag (s_nextOfferer snap));;
  writePhase (s_phase snap);;
  write_sized (s_lastInboundOffer snap);;
  write_sized (s_lastInboundAdvance snap);;
  writeOutbox (st_outbox this);;
  write_sized (st_lastInboundOfferFrame this);;
  write_sized (st_lastInboundAdvanceFrame this);;
  write_sized (st_cachedAckFrame this);;
  writeActiveKeys activeReceiveKeys.

Definition serialize (activeReceiveKeys : list (string * bytes)) : rt bytes :=
  assertLive;;
  snap ← on_machine snapshot;
  this ← get_this;
  lift (written (writeState this snap activeReceiveKeys)).

Definition readCheckpointBinding (value : bytes) : result RuntimeThrow bytes :=
  let bindingOffset := blen EDGE_MAGIC + 1 + 1 + 1 + 1 + 8 + 8 in
  require (negb (blen value <? bindingOffset + 32)) (RuntimeError truncated);;
  Ok (slice value bindingOffset (bindingOffset + 32)).

Definition frame_length_ok (frame : option bytes) : bool :=
  match frame with Some f => blen f =? WIRE_CHUNK_FRAME_LEN | None => true end.

Definition readState (pqMode : RoomPqMode) (rootSuite : RatchetRootSuite) (wantedBinding : bytes)
    (amInitiator : bool) : reader CheckpointFields :=
  magic ← read_take (blen EDGE_MAGIC);
  mrequire (bytesEqual magic EDGE_MAGIC) (RuntimeError bad_magic);;
  version ← read_u8;
  mrequire (version =? EDGE_FORMAT_VERSION) (RuntimeError bad_version);;
  tag ← read_u8;
  ps ← lift (tagSuite tag);
  mrequire (ps =? roomPqModeToParameterSet pqMode) (RuntimeError suite_disagrees);;
  mrequire (bool_decide (roomPqModeToRootSuite pqMode = rootSuite)) (RuntimeError mode_disagrees);;
  directionTag ← read_u8;
  mrequire (directionTag =? (if amInitiator then 1 else 2)) (RuntimeError wrong_direction);;
  reserved ← read_u8;
  mrequire (reserved =? 0) (RuntimeError reserved_not_zero);;
  lastHealedAt ← read_u64;
  messagesSinceHealing ← read_u64;
  mrequire (negb ((MAX_SAFE_INTEGER <? lastHealedAt) || (MAX_SAFE_INTEGER <? messagesSinceHealing)))
    (RuntimeError counters_unsafe);;
  binding ← read_take 32;
  mrequire (bytesEqual binding wantedBinding) (RuntimeError other_edge);;
  rootKey ← read_take 32;
  suite ← lift (match getMlKemSuite ps with Some s => Ok s | None => Err (RuntimeError unknown_suite) end);
  epoch ← read_u64;
  localCounter ← read_u64;
  remoteCounter ← read_u64;
  turn ← read_u8;
  nextOfferer ← lift (tagTurn turn);
  phase ← readPhase suite;
  lastInboundOffer ← read_sized (8 * 1024);
  lastInboundAdvance ← read_sized (8 * 1024);
  outbox ← readOutbox;
  lastOfferFrame ← read_sized WIRE_CHUNK_FRAME_LEN;
  lastAdvanceFrame ← read_sized WIRE_CHUNK_FRAME_LEN;
  cachedAckFrame ← read_sized WIRE_CHUNK_FRAME_LEN;
  mrequire (frame_length_ok lastOfferFrame && frame_length_ok lastAdvanceFrame
            && frame_length_ok cachedAckFrame) (RuntimeError wrong_length);;
  activeKeys ← readActiveKeys;
  read_finish;;
  mret {| cp_lastHealedAt := lastHealedAt; cp_messagesSinceHealing := messagesSinceHealing;
          cp_snapshot := {| s_formatVersion := 1; s_parameterSet := ps; s_binding := binding;
            s_rootKey := rootKey; s_epoch := epoch; s_localCounter := localCounter;
            s_remoteCounter := remoteCounter; s_nextOfferer := nextOfferer; s_phase := phase;
            s_lastInboundOffer := lastInboundOffer; s_lastInboundAdvance := lastInboundAdvance |};
          cp_outbox := outbox; cp_lastOfferFrame := lastOfferFrame;
          cp_lastAdvanceFrame := lastAdvanceFrame; cp_cachedAckFrame := cachedAckFrame;
          cp_activeKeys := activeKeys |}.

Section Restore.
Context {C : LibCrypto} {B : MlKemBackend}.

(** [restore] after the reader has finished. *)
Definition restoreFields (cp : CheckpointFields) (pqMode : RoomPqMode) (rootSuite : RatchetRootSuite)
    (binding : bytes) (amInitiator : bool) : result RuntimeThrow SparsePqHealingState :=
  suite ← match getMlKemSuite (s_parameterSet (cp_snapshot cp)) with
          | Some s => Ok s | None => Err (RuntimeError unknown_suite) end;
  m ← map_err HealingFailure (restore (cp_snapshot cp) suite binding);
  root ← map_err HealingFailure (fst (copyRootKey m));
  turn ← map_err HealingFailure (fst (nextOfferer m));
  fresh ← new_runtime pqMode rootSuite binding root turn amInitiator (cp_lastHealedAt cp);
  let restored := Sparse (st_edge fresh) m root (cp_outbox cp) (cp_lastOfferFrame cp)
    (cp_lastAdvanceFrame cp) (cp_cachedAckFrame cp) (cp_activeKeys cp)
    (cp_messagesSinceHealing cp) (st_lastHealedAt fresh) false in
  validateCheckpointCoherence restored;;
  Ok restored.

Definition restore_runtime (value : bytes) (pqMode : RoomPqMode) (rootSuite : RatchetRootSuite)
    (binding : bytes) (amInitiator : bool) : result RuntimeThrow SparsePqHealingState :=
  require (blen binding =? 32) (RuntimeError wrong_length);;
  cp ← read_all (readState pqMode rootSuite binding amInitiator) value;
  restoreFields cp pqMode rootSuite binding amInitiator.
End Restore.

(** ** Writing and reading back

    [fits w enc]: as long as the budget lasts, [w] appends [enc].
    [reads r v enc]: [r] consumes exactly [enc] and returns [v]. *)

Definition fits (w : writer unit) (enc : bytes) : Prop :=
  forall out, blen out + blen enc <= MAX_EDGE_STATE_BYTES -> w out = (Ok tt, out ++ enc).
Definition reads {A} (r : reader A) (v : A) (enc : bytes) : Prop :=
  forall rest, r (enc ++ rest) = (Ok v, rest).

Lemma fits_bytes v : fits (write_bytes v) v.
Proof.
  intros out H. unfold write_bytes, mbind, M_bind, modify_this, get_this, mrequire, lift.
  rewrite blen_app. assert ((MAX_EDGE_STATE_BYTES <? blen out + blen v) = false) as -> by lia. done.
Qed.
Lemma fits_bind w1 w2 e1 e2 : fits w1 e1 -> fits w2 e2 -> fits (w1;; w2) (e1 ++ e2).
Proof.
  intros H1 H2 out H. rewrite blen_app in H. pose proof (blen_nonneg e2).
  unfold mbind, M_bind. rewrite H1 by lia. rewrite app_assoc. apply H2. rewrite blen_app. lia.
Qed.
Lemma fits_require b e w enc : b = true -> fits w enc -> fits (mrequire b e;; w) enc.
Proof. intros -> H out Ho. by apply H. Qed.
Lemma fits_lift {A} (r : result RuntimeThrow A) a (w : A -> writer unit) enc :
  r = Ok a -> fits (w a) enc -> fits (x ← lift r; w x) enc.
Proof. intros -> H out Ho. by apply H. Qed.
Lemma fits_ret : fits (mret tt) [].
Proof. intros out _. by rewrite app_nil_r. Qed.
Lemma fits_u8 v : 0 <= v <= 255 -> fits (write_u8 v) (be_encode 1 v).
Proof.
  intros H. apply fits_require; [lia|]. unfold be_encode. rewrite Z.shiftr_0_r. apply fits_bytes.
Qed.
Lemma fits_u16 v : 0 <= v <= 65535 -> fits (write_u16 v) (be_encode 2 v).
Proof. intros H. apply fits_require; [lia|]. apply fits_bytes. Qed.
Lemma fits_u32 v : 0 <= v <= 4294967295 -> fits (write_u32 v) (be_encode 4 v).
Proof. intros H. apply fits_require; [lia|]. apply fits_bytes. Qed.
Lemma fits_u64 v : 0 <= v <= MAX_U64 -> fits (write_u64 v) (be_encode 8 v).
Proof. intros H. apply fits_require; [lia|]. apply fits_bytes. Qed.

Lemma reads_bind {A D} (r : reader A) (f : A -> reader D) a d e1 e2 :
  reads r a e1 -> reads (f a) d e2 -> reads (r ≫= f) d (e1 ++ e2).
Proof. intros H1 H2 rest. unfold mbind, M_bind. rewrite <- app_assoc, H1. apply H2. Qed.
Lemma reads_require {A} b e (r : reader A) a enc : b = true -> reads r a enc -> reads (mrequire b e;; r) a enc.
Proof. intros -> H rest. apply H. Qed.
Lemma reads_lift {A D} (r : result RuntimeThrow A) a (f : A -> reader D) d enc :
  r = Ok a -> reads (f a) d enc -> reads (x ← lift r; f x) d enc.
Proof. intros -> H rest. apply H. Qed.
Lemma reads_ret {A} (a : A) : reads (mret a) a [].
Proof. done. Qed.
(** The last read of a reader, which then returns. *)
Lemma reads_fmap {A D} (r : reader A) (f : A -> D) a enc :
  reads r a enc -> reads (x ← r; mret (f x)) (f a) enc.
Proof. intros H. rewrite <- (app_nil_r enc). eapply reads_bind; [done|]. apply reads_ret. Qed.
Lemma reads_take v n : blen v = n -> reads (read_take n) v v.
Proof.
  intros <- rest. unfold read_take, mbind, M_bind, get_this, mrequire, lift, set_this.
  pose proof (blen_nonneg v). pose proof (blen_nonneg rest). rewrite blen_app.
  assert (((blen v <? 0) || (blen v + blen rest <? blen v)) = false) as -> by lia.
  cbn. unfold mret, M_ret. by rewrite slice_app_l, slice_from_app by done.
Qed.
Lemma reads_int n v : 0 <= v < 256 ^ Z.of_nat n ->
  reads (b ← read_take (Z.of_nat n); mret (be_decode b)) v (be_encode n v).
Proof.
  intros H. replace v with (be_decode (be_encode n v)) at 1.
  - apply reads_fmap, reads_take, blen_be_encode.
  - rewrite be_decode_encode. by apply Z.mod_small.
Qed.
Lemma reads_u8 v : 0 <= v <= 255 -> reads read_u8 v (be_encode 1 v).
Proof. intros. apply (reads_int 1). lia. Qed.
Lemma reads_u16 v : 0 <= v <= 65535 -> reads read_u16 v (be_encode 2 v).
Proof. intros. apply (reads_int 2). lia. Qed.
Lemma reads_u32 v : 0 <= v <= 4294967295 -> reads read_u32 v (be_encode 4 v).
Proof. intros. apply (reads_int 4). lia. Qed.
Lemma reads_u64 v : 0 <= v <= MAX_U64 -> reads read_u64 v (be_encode 8 v).
Proof. intros. rewrite MAX_U64_eq in *. apply (reads_int 8). lia. Qed.

(** *** Optional fields and phases *)

Definition enc_sized (o : option bytes) : bytes :=
  match o with None => be_encode 4 0 | Some v => be_encode 4 (blen v) ++ v end.
Definition sized_ok (maximum : Z) (o : option bytes) : Prop :=
  maximum <= 4294967295 /\ forall v, o = Some v -> 0 < blen v <= maximum.

Lemma sized_some maximum v : maximum <= 4294967295 -> 0 < blen v <= maximum -> sized_ok maximum (Some v).
Proof. intros ? ?. split; [done|]. by intros ? [= <-]. Qed.
Lemma sized_mono n k o : n <= k <= 4294967295 -> sized_ok n o -> sized_ok k o.
Proof. intros ? [_ H]. split; [lia|]. intros v Hv%H. lia. Qed.
Lemma fits_sized maximum o : sized_ok maximum o -> fits (write_sized o) (enc_sized o).
Proof.
  intros [Hm H]. destruct o as [v|]; [|by apply fits_u32]. specialize (H v eq_refl).
  apply fits_require; [lia|]. apply fits_bind; [apply fits_u32; lia|apply fits_bytes].
Qed.
Lemma reads_sized maximum o : sized_ok maximum o -> reads (read_sized maximum) o (enc_sized o).
Proof.
  intros [Hm H]. unfold read_sized, enc_sized. destruct o as [v|].
  - specialize (H v eq_refl). eapply reads_bind; [apply reads_u32; lia|].
    assert ((blen v =? 0) = false) as -> by lia. apply reads_require; [lia|].
    apply (reads_fmap _ Some), reads_take. done.
  - rewrite <- (app_nil_r (be_encode 4 0)). eapply reads_bind; [by apply reads_u32|]. apply reads_ret.
Qed.
Lemma reads_required maximum v : maximum <= 4294967295 -> 0 < blen v <= maximum ->
  reads (requiredSized maximum) v (enc_sized (Some v)).
Proof.
  intros Hm Hv. rewrite <- (app_nil_r (enc_sized _)). unfold requiredSized.
  eapply reads_bind; [apply reads_sized; by apply sized_some|]. apply reads_ret.
Qed.
Lemma blen_enc_sized maximum o : 0 <= maximum -> sized_ok maximum o -> 4 <= blen (enc_sized o) <= 4 + maximum.
Proof.
  intros Hn [_ H]. unfold enc_sized. destruct o as [v|]; [specialize (H v eq_refl)|]; autorewrite with blen; lia.
Qed.

Definition enc_phase (phase : PqHealingSnapshotPhase) : bytes :=
  be_encode 1 (phaseTag phase) ++
  match phase with
  | snap_idle => []
  | snap_outbound_offer _ offer secretKey => enc_sized (Some offer) ++ enc_sized (Some secretKey)
  | snap_inbound_offer offer => enc_sized (Some offer)
  | snap_outbound_advance_prepared advance nextRoot =>
      enc_sized (Some advance) ++ enc_sized (Some nextRoot)
  | snap_outbound_advance_awaiting_ack advance
  | snap_inbound_advance_awaiting_ack_dispatch advance => enc_sized (Some advance)
  | snap_inbound_advance_prepared advance secretKey nextRoot =>
      enc_sized (Some advance) ++ enc_sized (Some secretKey) ++ enc_sized (Some nextRoot)
  end.

(** The sizes a phase may have for [suite]. *)
Definition phase_sized (suite : MlKemSuiteDescriptor) (phase : PqHealingSnapshotPhase) : Prop :=
  let offer_ok o := 0 < blen o <= 64 + publicKeyBytes suite in
  let advance_ok a := 0 < blen a <= 64 + (64 + publicKeyBytes suite) + ciphertextBytes suite in
  let secret_ok k := 0 < blen k <= secretKeyBytes suite in
  let root_ok r := 0 < blen r <= 32 in
  match phase with
  | snap_idle => True
  | snap_outbound_offer _ offer secretKey => offer_ok offer /\ secret_ok secretKey
  | snap_inbound_offer offer => offer_ok offer
  | snap_outbound_advance_prepared advance nextRoot => advance_ok advance /\ root_ok nextRoot
  | snap_outbound_advance_awaiting_ack advance
  | snap_inbound_advance_awaiting_ack_dispatch advance => advance_ok advance
  | snap_inbound_advance_prepared advance secretKey nextRoot =>
      advance_ok advance /\ secret_ok secretKey /\ root_ok nextRoot
  end.

Definition suite_bounded (suite : MlKemSuiteDescriptor) : Prop :=
  0 < publicKeyBytes suite <= 1568 /\ 0 < ciphertextBytes suite <= 1568 /\ 0 < secretKeyBytes suite <= 3168.

Create HintDb checkpoint.
#[local] Hint Resolve fits_bind fits_bytes fits_u8 fits_u16 fits_u32 fits_u64 fits_ret : checkpoint.

Lemma phaseTag_range p : 0 <= phaseTag p <= 255.
Proof. destruct p as [|[]| | | | |]; cbn; lia. Qed.

Ltac fits_sizes :=
  first [ solve [apply (fits_sized 5000), sized_some; lia] | apply fits_ret
        | apply fits_bind; fits_sizes ].

Lemma fits_phase suite p : suite_bounded suite -> phase_sized suite p -> fits (writePhase p) (enc_phase p).
Proof.
  intros Hs Hp. unfold writePhase, enc_phase. unfold suite_bounded in Hs.
  apply fits_bind; [apply fits_u8, phaseTag_range|].
  destruct p; cbn in Hp; fits_sizes.
Qed.

Lemma reads_phase suite p : suite_bounded suite -> phase_sized suite p ->
  reads (readPhase suite) p (enc_phase p).
Proof.
  intros Hs Hp. unfold readPhase, enc_phase. unfold suite_bounded in Hs.
  eapply reads_bind; [apply reads_u8, phaseTag_range|].
  destruct p as [|[]| | | | |]; cbn [phaseTag]; cbn in Hp;
    try (apply (reads_fmap (requiredSized _)), reads_required; lia); [apply reads_ret|..];
    (eapply reads_bind; [apply reads_required; lia|]);
    try (apply (reads_fmap (requiredSized _)), reads_required; lia).
  eapply reads_bind; [apply reads_required; lia|].
  apply (reads_fmap (requiredSized _)), reads_required; lia.
Qed.

Lemma blen_enc_phase suite p : suite_bounded suite -> phase_sized suite p -> blen (enc_phase p) <= 6500.
Proof.
  intros Hs Hp. unfold enc_phase, suite_bounded in *. autorewrite with blen.
  destruct p; cbn in Hp |- *; autorewrite with blen; lia.
Qed.

(** *** The outbox *)

Definition enc_outbox (outbox : option PqHealingOutbox) : bytes :=
  match outbox with
  | None => be_encode 1 0
  | Some o =>
      be_encode 1 (if bool_decide (ob_kind o = kind_offer) then 1 else 2) ++ be_encode 1 (ob_attempts o)
      ++ be_encode 8 (ob_nextRetryAt o) ++ enc_sized (Some (ob_frame o))
  end.

Lemma frame_sized_ok f : frame_sized f -> 0 < blen f <= WIRE_CHUNK_FRAME_LEN.
Proof. unfold frame_sized. intros ->. by vm_compute. Qed.
Lemma frames_sized_ok o : frames_sized o -> sized_ok WIRE_CHUNK_FRAME_LEN o.
Proof. intros H. split; [by vm_compute|]. intros v Hv. by apply frame_sized_ok, H. Qed.
Lemma safe_u64 v : 0 <= v <= MAX_SAFE_INTEGER -> 0 <= v <= MAX_U64.
Proof. rewrite MAX_U64_eq. unfold MAX_SAFE_INTEGER. lia. Qed.

Lemma fits_outbox o : outbox_ok o -> fits (writeOutbox o) (enc_outbox o).
Proof.
  intros H. destruct o as [o|]; [|by apply fits_u8]. destruct (H o eq_refl) as (Hf & Ha & Hr).
  change PQ_HEAL_MAX_RETRIES with 8 in Ha. unfold writeOutbox, enc_outbox.
  apply fits_bind; [|apply fits_bind; [|apply fits_bind]].
  - apply fits_u8. case_bool_decide; lia.
  - apply fits_u8. lia.
  - by apply fits_u64, safe_u64.
  - eapply fits_sized, sized_some; [|by apply frame_sized_ok]. by vm_compute.
Qed.
Lemma reads_outbox o : outbox_ok o -> reads readOutbox o (enc_outbox o).
Proof.
  intros H. unfold readOutbox, enc_outbox. destruct o as [o|].
  - destruct (H o eq_refl) as (Hf & Ha & Hr). change PQ_HEAL_MAX_RETRIES with 8 in *.
    eapply reads_bind; [apply reads_u8; case_bool_decide; lia|].
    assert (((if bool_decide (ob_kind o = kind_offer) then 1 else 2) =? 0) = false) as ->
      by (case_bool_decide; done).
    apply reads_require; [by case_bool_decide|]. eapply reads_bind; [apply reads_u8; lia|].
    apply reads_require; [lia|]. eapply reads_bind; [by apply reads_u64, safe_u64|].
    apply reads_require; [lia|]. rewrite <- (app_nil_r (enc_sized _)).
    eapply reads_bind; [apply reads_required; [by vm_compute|by apply frame_sized_ok]|].
    apply reads_require; [by apply Z.eqb_eq|]. replace (Some o) with
      (Some {| ob_kind := if (if bool_decide (ob_kind o = kind_offer) then 1 else 2) =? 1 then kind_offer else kind_advance;
               ob_frame := ob_frame o; ob_attempts := ob_attempts o; ob_nextRetryAt := ob_nextRetryAt o |});
      [apply reads_ret|].
    destruct o as [[] ? ? ?]; done.
  - rewrite <- (app_nil_r (be_encode 1 0)). eapply reads_bind; [by apply reads_u8|]. apply reads_ret.
Qed.
Lemma blen_enc_outbox o : outbox_ok o ->
  blen (enc_outbox o) <= match o with Some _ => 14 + WIRE_CHUNK_FRAME_LEN | None => 1 end.
Proof.
  intros H. destruct o as [o|]; unfold enc_outbox, enc_sized; autorewrite with blen; [|lia].
  destruct (H o eq_refl) as (-> & _). lia.
Qed.

(** *** Active receive keys *)

Definition entry_ok (entry : string * bytes) : Prop :=
  CANONICAL_CACHE_KEY entry.1 = true /\ blen (text entry.1) <= MAX_CACHE_KEY_BYTES /\ blen entry.2 = 32.
(** The map of keys a checkpoint may hold. *)
Definition keys_ok (keys : list (string * bytes)) : Prop :=
  blen keys <= MAX_ACTIVE_RECEIVE_KEYS /\ Forall entry_ok keys /\ NoDup keys.*1.

Definition enc_entry (entry : string * bytes) : bytes :=
  be_encode 2 (blen (text entry.1)) ++ text entry.1 ++ entry.2.
Definition enc_entries (entries : list (string * bytes)) : bytes := mjoin (enc_entry <$> entries).

Lemma canonical_hex key : CANONICAL_CACHE_KEY key = true ->
  exists c rest, text key = c :: rest /\ is_lower_hex c = true.
Proof.
  unfold CANONICAL_CACHE_KEY. intros H. pose proof (join_split x3a (text key)) as Hj.
  destruct (split_on x3a (text key)) as [|h [|a [|b []]]]; try done.
  apply andb_true_iff in H as [[[Hl Hh]%andb_true_iff _]%andb_true_iff _].
  destruct h as [|c h]; [done|]. cbn in Hh, Hj. apply andb_true_iff in Hh as [Hc _].
  by exists c, (h ++ [x3a] ++ a ++ [x3a] ++ b).
Qed.
Lemma blen_text key : blen (text key) = Z.of_nat (String.length key).
Proof.
  unfold blen, text. f_equal. induction key as [|c key IH]; [done|]. cbn. by f_equal.
Qed.
Lemma canonical_text key : CANONICAL_CACHE_KEY key = true -> decode_text (text key) = key /\ 0 < blen (text key).
Proof.
  intros H. destruct (canonical_hex _ H) as (c & rest & Hk & Hc). split.
  - unfold decode_text. rewrite <- (String.string_of_list_byte_of_string key) at 2. fold (text key).
    f_equal. rewrite Hk. by destruct c.
  - rewrite Hk, blen_cons. pose proof (blen_nonneg rest). lia.
Qed.

Lemma fits_entries entries : Forall entry_ok entries -> fits (writeKeyEntries entries) (enc_entries entries).
Proof.
  induction 1 as [|[k v] entries (Hc & Hl & Hv) _ IH]; [apply fits_ret|]. cbn [fst snd] in Hc, Hl, Hv.
  destruct (canonical_text _ Hc) as [_ Hp]. unfold MAX_CACHE_KEY_BYTES in Hl.
  cbn [writeKeyEntries enc_entries fmap list_fmap mjoin list_join]. cbv zeta. unfold enc_entry.
  rewrite <- !app_assoc. cbn [fst snd].
  apply fits_require; [done|]. apply fits_require; [unfold MAX_CACHE_KEY_BYTES; lia|].
  apply fits_require; [lia|].
  apply fits_bind; [apply fits_u16; lia|]. apply fits_bind; [apply fits_bytes|].
  apply fits_bind; [apply fits_bytes|done].
Qed.

Lemma reads_entries entries acc : Forall entry_ok entries -> NoDup (acc ++ entries).*1 ->
  reads (readKeyEntries (length entries) acc) (acc ++ entries) (enc_entries entries).
Proof.
  intros H. revert acc. induction H as [|[k v] entries (Hc & Hl & Hv) _ IH]; intros acc Hnd.
  { rewrite app_nil_r. apply reads_ret. }
  cbn [fst snd] in Hc, Hl, Hv. destruct (canonical_text _ Hc) as [Ht Hp]. unfold MAX_CACHE_KEY_BYTES in Hl.
  cbn [readKeyEntries length enc_entries fmap list_fmap mjoin list_join]. unfold enc_entry.
  rewrite <- !app_assoc. cbn [fst snd].
  eapply reads_bind; [apply reads_u16; lia|]. apply reads_require; [unfold MAX_CACHE_KEY_BYTES; lia|].
  eapply reads_bind; [by apply reads_take|]. cbv zeta. rewrite Ht.
  apply reads_require.
  { rewrite Hc, bool_decide_false; [|].
    - assert ((Z.of_nat (String.length k) =? 0) = false) as -> by (rewrite blen_text in Hp; lia). done.
    - rewrite fmap_app in Hnd. apply NoDup_app in Hnd as (_ & Hd & _).
      intros Hin. apply (Hd _ Hin). cbn. by left. }
  eapply reads_bind; [by apply reads_take|].
  replace (acc ++ (k, v) :: entries) with ((acc ++ [(k, v)]) ++ entries) by by rewrite <- app_assoc.
  apply IH. by rewrite <- app_assoc.
Qed.

Lemma blen_enc_entries entries : Forall entry_ok entries -> blen (enc_entries entries) <= 194 * blen entries.
Proof.
  induction 1 as [|[k v] entries (Hc & Hl & Hv) _ IH]; [done|].
  unfold MAX_CACHE_KEY_BYTES in Hl. cbn [fst snd] in *.
  change (enc_entries ((k, v) :: entries)) with (enc_entry (k, v) ++ enc_entries entries).
  unfold enc_entry. cbn [fst snd]. autorewrite with blen. lia.
Qed.

Lemma keys_ok_sorted keys : keys_ok keys -> keys_ok (array_sort key_order keys).
Proof.
  intros (Hl & Hf & Hn). pose proof (array_sort_perm key_order keys) as Hp. split_and!.
  - unfold blen in *. by rewrite Hp.
  - by rewrite Hp.
  - by rewrite Hp.
Qed.

Definition enc_keys (keys : list (string * bytes)) : bytes :=
  be_encode 2 (blen keys) ++ enc_entries (array_sort key_order keys).

Lemma blen_sorted keys : blen (array_sort key_order keys) = blen keys.
Proof. unfold blen. by rewrite array_sort_perm. Qed.
Lemma max_keys : MAX_ACTIVE_RECEIVE_KEYS = 256.
Proof. done. Qed.
Lemma fits_keys keys : keys_ok keys -> fits (writeActiveKeys keys) (enc_keys keys).
Proof.
  intros Hk. destruct (keys_ok_sorted _ Hk) as (_ & Hf & _). destruct Hk as (Hl & _).
  rewrite max_keys in Hl. pose proof (blen_nonneg keys).
  apply fits_require; [rewrite max_keys; lia|].
  apply fits_bind; [apply fits_u16; lia|by apply fits_entries].
Qed.
Lemma reads_keys keys : keys_ok keys -> reads readActiveKeys (array_sort key_order keys) (enc_keys keys).
Proof.
  intros Hk. destruct (keys_ok_sorted _ Hk) as (_ & Hf & Hn). destruct Hk as (Hl & _).
  rewrite max_keys in Hl. pose proof (blen_nonneg keys). unfold readActiveKeys, enc_keys.
  eapply reads_bind; [apply reads_u16; lia|]. apply reads_require; [rewrite max_keys; lia|].
  rewrite <- blen_sorted. unfold blen. rewrite Nat2Z.id. by apply (reads_entries _ []).
Qed.
Lemma blen_enc_keys keys : keys_ok keys -> blen (enc_keys keys) <= 2 + 194 * 256.
Proof.
  intros Hk. destruct (keys_ok_sorted _ Hk) as (Hl & Hf & _). apply blen_enc_entries in Hf.
  rewrite max_keys in Hl. unfold enc_keys. autorewrite with blen. lia.
Qed.

(** ** The whole checkpoint *)

Definition enc_snapshot (snap : PqHealingSnapshot) : bytes :=
  be_encode 8 (s_epoch snap) ++ be_encode 8 (s_localCounter snap) ++ be_encode 8 (s_remoteCounter snap)
  ++ be_encode 1 (turnTag (s_nextOfferer snap)) ++ enc_phase (s_phase snap)
  ++ enc_sized (s_lastInboundOffer snap) ++ enc_sized (s_lastInboundAdvance snap).
Definition enc_state (tag : Z) (s : SparsePqHealingState) (snap : PqHealingSnapshot)
    (keys : list (string * bytes)) : bytes :=
  EDGE_MAGIC ++ be_encode 1 EDGE_FORMAT_VERSION ++ be_encode 1 tag
  ++ be_encode 1 (if amInitiator_of (st_edge s) then 1 else 2) ++ be_encode 1 0
  ++ be_encode 8 (st_lastHealedAt s) ++ be_encode 8 (st_messagesSinceHealing s)
  ++ s_binding snap ++ s_rootKey snap ++ enc_snapshot snap ++ enc_outbox (st_outbox s)
  ++ enc_sized (st_lastInboundOfferFrame s) ++ enc_sized (st_lastInboundAdvanceFrame s)
  ++ enc_sized (st_cachedAckFrame s) ++ enc_keys keys.

(** What the writer needs of a snapshot for [suite]. *)
Record snapshot_sized (suite : MlKemSuiteDescriptor) (snap : PqHealingSnapshot) : Prop := {
  ss_suite : suite_bounded suite;
  ss_binding : blen (s_binding snap) = 32;
  ss_root : blen (s_rootKey snap) = 32;
  ss_epoch : 0 <= s_epoch snap <= MAX_U64;
  ss_local : 0 <= s_localCounter snap <= MAX_U64;
  ss_remote : 0 <= s_remoteCounter snap <= MAX_U64;
  ss_phase : phase_sized suite (s_phase snap);
  ss_offer : sized_ok 1632 (s_lastInboundOffer snap);
  ss_advance : sized_ok 3264 (s_lastInboundAdvance snap);
}.

Lemma turnTag_range turn : 0 <= turnTag turn <= 255.
Proof. by destruct turn. Qed.
Lemma tag_turn turn : tagTurn (turnTag turn) = Ok turn.
Proof. by destruct turn. Qed.

Lemma suite_of_tag ps suite : getMlKemSuite ps = Some suite ->
  parameterSet suite = ps /\ suite_bounded suite /\
  exists tag, suiteTag ps = Ok tag /\ tagSuite tag = Ok ps /\ 1 <= tag <= 3.
Proof.
  unfold getMlKemSuite, suiteTag. intros H.
  destruct (ps =? 512) eqn:H1; [|destruct (ps =? 768) eqn:H2; [|destruct (ps =? 1024) eqn:H3; [|done]]];
    injection H as <-; (split; [symmetry; by apply Z.eqb_eq|]); (split; [by split_and!|]);
    eexists; (split; [done|]); (split; [|done]); cbn; f_equal; symmetry; by apply Z.eqb_eq.
Qed.

Section Encoding.
Context {C : LibCrypto} {B : MlKemBackend}.
Implicit Types (s : SparsePqHealingState) (m : machine).

Lemma offer_sized m o : offer_wf m o -> blen (offer_bytes o) = 64 + publicKeyBytes (m_suite m).
Proof. intros [H _]%decodeOffer_length. done. Qed.
Lemma advance_sized m a : advance_wf m a ->
  blen (advance_bytes a) = 64 + (64 + publicKeyBytes (m_suite m)) + ciphertextBytes (m_suite m).
Proof. intros [H _]%decodeAdvance_length. done. Qed.

Lemma snapshot_phase_sized m : machine_inv m -> suite_bounded (m_suite m) ->
  phase_sized (m_suite m) (snapshotPhase (m_phase m)).
Proof.
  intros Hm Hs. pose proof (inv_phase m Hm) as Hp. unfold phase_inv, keypair_wf in Hp.
  unfold suite_bounded in Hs. change PQ_HEALING_ROOT_BYTES with 32 in Hp.
  destruct (m_phase m) as [|d o kp|o|o a root|o a|o a kp root|a]; cbn; [done|..];
    repeat match goal with
    | H : _ /\ _ |- _ => destruct H
    | H : offer_wf _ _ |- _ => apply offer_sized in H
    | H : advance_wf _ _ |- _ => apply advance_sized in H
    end; lia.
Qed.

Lemma snapshot_runs m : ready m -> exists snap, snapshot m = (Ok snap, m) /\
  s_formatVersion snap = 1 /\ s_parameterSet snap = parameterSet (m_suite m) /\
  s_binding snap = m_binding m /\ s_rootKey snap = m_rootKey m /\
  s_epoch snap = m_epoch m /\ s_localCounter snap = m_localCounter m /\
  s_remoteCounter snap = m_remoteCounter m /\ s_phase snap = snapshotPhase (m_phase m) /\
  s_lastInboundOffer snap = offer_bytes <$> m_lastInboundOffer m /\
  s_lastInboundAdvance snap = advance_bytes <$> m_lastInboundAdvance m.
Proof.
  intros Hr. eexists. split.
  - unfold snapshot, mbind, M_bind, get_this. rewrite assertSynchronous_ready by apply Hr. reflexivity.
  - by split_and!.
Qed.

Lemma snapshot_is_sized m snap : machine_inv m -> ready m -> suite_bounded (m_suite m) ->
  snapshot m = (Ok snap, m) -> snapshot_sized (m_suite m) snap.
Proof.
  intros Hm Hr Hs Hsn. destruct (snapshot_runs m Hr) as (x & Hx & H).
  rewrite Hsn in Hx. injection Hx as <-.
  destruct H as (_ & _ & Hb & Hk & He & Hl & Hrc & Hp & Ho & Ha).
  destruct (inv_last m Hm) as [Hlo Hla]. unfold suite_bounded in Hs.
  split; rewrite ?Hb, ?Hk, ?He, ?Hl, ?Hrc, ?Hp, ?Ho, ?Ha; try apply Hm.
  - done.
  - by apply snapshot_phase_sized.
  - split; [done|]. intros v (o & Hw & ->)%fmap_Some. apply Hlo in Hw as (Hw%offer_sized & _). lia.
  - split; [done|]. intros v (a & Hw & ->)%fmap_Some. apply Hla in Hw as (Hw%advance_sized & _). lia.
Qed.

(** *** The fields, written and read *)

Lemma fits_snapshot suite snap (w : writer unit) enc : snapshot_sized suite snap -> fits w enc ->
  fits (write_u64 (s_epoch snap);; write_u64 (s_localCounter snap);; write_u64 (s_remoteCounter snap);;
        write_u8 (turnTag (s_nextOfferer snap));; writePhase (s_phase snap);;
        write_sized (s_lastInboundOffer snap);; write_sized (s_lastInboundAdvance snap);; w)
    (enc_snapshot snap ++ enc).
Proof.
  intros [] Hw. unfold enc_snapshot. rewrite <- !app_assoc.
  do 3 (apply fits_bind; [by apply fits_u64|]).
  apply fits_bind; [apply fits_u8, turnTag_range|]. apply fits_bind; [by eapply fits_phase|].
  do 2 (apply fits_bind; [by eapply fits_sized|]). done.
Qed.

Lemma fits_state s suite snap keys tag : runtime_inv s -> e_suite (st_edge s) = suite ->
  snapshot_sized suite snap -> keys_ok keys -> suiteTag (parameterSet suite) = Ok tag -> 1 <= tag <= 3 ->
  fits (writeState s snap keys) (enc_state tag s snap keys).
Proof.
  intros Hs He Hsn Hk Ht Hr. unfold writeState, enc_state. rewrite He.
  apply fits_bind; [apply fits_bytes|]. apply fits_bind; [by apply fits_u8|].
  eapply fits_lift; [exact Ht|]. apply fits_bind; [apply fits_u8; lia|].
  apply fits_bind; [apply fits_u8; by destruct (amInitiator_of _)|]. apply fits_bind; [by apply fits_u8|].
  apply fits_bind; [apply fits_u64, safe_u64, Hs|]. apply fits_bind; [apply fits_u64, safe_u64, Hs|].
  do 2 (apply fits_bind; [apply fits_bytes|]).
  eapply fits_snapshot; [done|]. apply fits_bind; [apply fits_outbox, Hs|].
  do 3 (apply fits_bind; [apply (fits_sized WIRE_CHUNK_FRAME_LEN), frames_sized_ok, Hs|]).
  by apply fits_keys.
Qed.

(** The largest checkpoint keeps within the budget: at most three frames, since
    the two duplicate caches exclude each other. *)
Lemma blen_enc_state s suite snap keys tag : runtime_inv s -> snapshot_sized suite snap -> keys_ok keys ->
  blen (enc_state tag s snap keys) <= MAX_EDGE_STATE_BYTES.
Proof.
  intros Hs Hsn Hk. pose proof (blen_enc_outbox _ (ri_outbox _ Hs)) as H1.
  pose proof (blen_enc_keys _ Hk) as H2. pose proof (blen_enc_phase _ _ (ss_suite _ _ Hsn) (ss_phase _ _ Hsn)) as H3.
  pose proof (blen_enc_sized 1632 _ ltac:(lia) (ss_offer _ _ Hsn)) as H4.
  pose proof (blen_enc_sized 3264 _ ltac:(lia) (ss_advance _ _ Hsn)) as H5.
  destruct (ri_coherent _ Hs) as (_ & _ & Hpair & Hx).
  assert (forall o, frames_sized o -> blen (enc_sized o) <= match o with None => 4 | Some _ => 65494 end) as HF.
  { intros o Ho. unfold enc_sized. destruct o as [f|]; autorewrite with blen; [|lia].
    rewrite (Ho f eq_refl). by vm_compute. }
  pose proof (HF _ (ri_offer _ Hs)). pose proof (HF _ (ri_advance _ Hs)). pose proof (HF _ (ri_ack _ Hs)).
  change WIRE_CHUNK_FRAME_LEN with 65490 in H1. unfold MAX_EDGE_STATE_BYTES.
  unfold enc_state, enc_snapshot. autorewrite with blen. rewrite (ss_binding _ _ Hsn), (ss_root _ _ Hsn).
  change (blen EDGE_MAGIC) with 8.
  destruct (st_outbox s), (st_lastInboundOfferFrame s), (st_lastInboundAdvanceFrame s), (st_cachedAckFrame s);
    try lia; destruct Hx; try done; try lia.
Qed.
End Encoding.

(** [ends r v enc]: [r] reads [enc] to its end and returns [v]. *)
Definition ends {A} (r : reader A) (v : A) (enc : bytes) : Prop := r enc = (Ok v, []).

Lemma ends_bind {A D} (r : reader A) (f : A -> reader D) a d e1 e2 :
  reads r a e1 -> ends (f a) d e2 -> ends (r ≫= f) d (e1 ++ e2).
Proof. intros H1 H2. unfold ends, mbind, M_bind. rewrite H1. apply H2. Qed.
Lemma ends_require {A} b e (r : reader A) a enc : b = true -> ends r a enc -> ends (mrequire b e;; r) a enc.
Proof. by intros ->. Qed.
Lemma ends_lift {A D} (r : result RuntimeThrow A) a (f : A -> reader D) d enc :
  r = Ok a -> ends (f a) d enc -> ends (x ← lift r; f x) d enc.
Proof. by intros ->. Qed.

Section Roundtrip.
Context {C : LibCrypto} {B : MlKemBackend}.
Implicit Types (s : SparsePqHealingState) (m : machine).

Definition fields_of s (snap : PqHealingSnapshot) (keys : list (string * bytes)) : CheckpointFields :=
  {| cp_lastHealedAt := st_lastHealedAt s; cp_messagesSinceHealing := st_messagesSinceHealing s;
     cp_snapshot := snap; cp_outbox := st_outbox s; cp_lastOfferFrame := st_lastInboundOfferFrame s;
     cp_lastAdvanceFrame := st_lastInboundAdvanceFrame s; cp_cachedAckFrame := st_cachedAckFrame s;
     cp_activeKeys := array_sort key_order keys |}.

Lemma frames_length_ok o : frames_sized o -> frame_length_ok o = true.
Proof. intros H. destruct o as [f|]; [|done]. by apply Z.eqb_eq, H. Qed.

Lemma reads_state s suite snap keys tag : runtime_inv s -> e_suite (st_edge s) = suite ->
  snapshot_sized suite snap -> keys_ok keys -> s_formatVersion snap = 1 ->
  s_parameterSet snap = parameterSet suite -> s_binding snap = e_binding (st_edge s) ->
  suiteTag (parameterSet suite) = Ok tag -> tagSuite tag = Ok (parameterSet suite) -> 1 <= tag <= 3 ->
  parameterSet suite = roomPqModeToParameterSet (e_pqMode (st_edge s)) ->
  ends (readState (e_pqMode (st_edge s)) (e_rootSuite (st_edge s)) (e_binding (st_edge s)) (amInitiator_of (st_edge s)))
    (fields_of s snap keys) (enc_state tag s snap keys).
Proof.
  intros Hs He Hsn Hk Hv Hps Hb Ht Htag Hr Hmode.
  destruct (ri_edge _ Hs) as (Hroot & Hgs & _). pose proof Hsn as [Hsb Hbl Hrl Hep Hlo Hre Hph Hof Had].
  pose proof (ri_messages _ Hs). pose proof (ri_healed _ Hs).
  unfold readState, enc_state, enc_snapshot. rewrite <- !app_assoc.
  eapply ends_bind; [by apply reads_take|]. apply ends_require; [done|].
  eapply ends_bind; [by apply reads_u8|]. apply ends_require; [done|].
  eapply ends_bind; [apply reads_u8; lia|]. eapply ends_lift; [exact Htag|].
  apply ends_require; [by apply Z.eqb_eq|]. apply ends_require; [by apply bool_decide_eq_true|].
  eapply ends_bind; [apply reads_u8; by destruct (amInitiator_of _)|]. apply ends_require; [apply Z.eqb_refl|].
  eapply ends_bind; [by apply reads_u8|]. apply ends_require; [done|].
  do 2 (eapply ends_bind; [by apply reads_u64, safe_u64|]). apply ends_require; [lia|].
  eapply ends_bind; [by apply reads_take|]. apply ends_require; [rewrite Hb; apply bytesEqual_refl|].
  eapply ends_bind; [by apply reads_take|].
  eapply ends_lift; [rewrite Hmode, Hgs; reflexivity|]. rewrite He.
  do 3 (eapply ends_bind; [by apply reads_u64|]). eapply ends_bind; [apply reads_u8, turnTag_range|].
  eapply ends_lift; [apply tag_turn|]. eapply ends_bind; [by apply reads_phase|].
  do 2 (eapply ends_bind; [eapply reads_sized, sized_mono; [|done]; done|]).
  eapply ends_bind; [apply reads_outbox, Hs|].
  do 3 (eapply ends_bind; [apply reads_sized, frames_sized_ok, Hs|]).
  apply ends_require; [by rewrite !frames_length_ok by apply Hs|].
  rewrite <- (app_nil_r (enc_keys keys)). eapply ends_bind; [by apply reads_keys|].
  unfold ends, fields_of. rewrite <- Hps, <- Hv. by destruct snap.
Qed.

Lemma encode_runs s keys : runtime_inv s -> keys_ok keys ->
  exists tag snap, snapshot (st_machine s) = (Ok snap, st_machine s) /\
    serialize keys s = (Ok (enc_state tag s snap keys), s) /\
    blen (enc_state tag s snap keys) <= MAX_EDGE_STATE_BYTES /\
    s_binding snap = e_binding (st_edge s) /\
    s_parameterSet snap = roomPqModeToParameterSet (e_pqMode (st_edge s)) /\
    tagSuite tag = Ok (roomPqModeToParameterSet (e_pqMode (st_edge s))) /\ 1 <= tag <= 3 /\
    ends (readState (e_pqMode (st_edge s)) (e_rootSuite (st_edge s)) (e_binding (st_edge s)) (amInitiator_of (st_edge s)))
      (fields_of s snap keys) (enc_state tag s snap keys).
Proof.
  intros Hs Hk. destruct (ri_edge _ Hs) as (_ & Hgs & _). pose proof (ri_suite _ Hs) as Hsu.
  destruct (suite_of_tag _ _ Hgs) as (Hps & Hsb & tag & Ht & Htag & Hr).
  destruct (snapshot_runs _ (ri_ready _ Hs)) as (snap & Hsnap & Hv & Hpar & Hb & _).
  pose proof (snapshot_is_sized _ _ (ri_machine _ Hs) (ri_ready _ Hs) ltac:(by rewrite Hsu) Hsnap) as Hsz.
  rewrite Hsu in Hsz, Hpar. rewrite (ri_binding _ Hs) in Hb. rewrite <- Hps in Ht, Htag.
  pose proof (fits_state s _ snap keys tag Hs eq_refl Hsz Hk Ht Hr) as Hf.
  pose proof (blen_enc_state s _ snap keys tag Hs Hsz Hk) as Hl.
  exists tag, snap. rewrite <- Hps. split_and!; try done; try lia.
  - unfold serialize, assertLive, rcheck, mrequire, mbind, M_bind, get_this. rewrite (ri_live _ Hs).
    cbn [negb require]. unfold lift. rewrite (on_machine_runs _ _ _ _ Hsnap), set_machine_same.
    unfold written. by rewrite Hf.
  - apply (reads_state s (e_suite (st_edge s))); done || (split; lia).
Qed.

Lemma restore_fields_runs s snap keys : runtime_inv s -> snapshot (st_machine s) = (Ok snap, st_machine s) ->
  s_parameterSet snap = roomPqModeToParameterSet (e_pqMode (st_edge s)) ->
  restoreFields (fields_of s snap keys) (e_pqMode (st_edge s)) (e_rootSuite (st_edge s))
    (e_binding (st_edge s)) (amInitiator_of (st_edge s)) = Ok (set_keys (array_sort key_order keys) s).
Proof.
  intros Hs Hsnap Hps. pose proof (ri_edge _ Hs) as (Hrs & Hgs & b & Hd).
  unfold restoreFields. cbn [cp_snapshot fields_of]. rewrite Hps, Hgs. cbn [mbind result_bind].
  pose proof (restore_snapshot _ _ (ri_machine _ Hs) (ri_ready _ Hs) Hsnap) as Hm.
  rewrite (ri_suite _ Hs), (ri_binding _ Hs) in Hm. rewrite Hm. cbn [map_err mbind result_bind].
  destruct (active_reads _ (proj1 (ri_ready _ Hs))) as (H1 & _ & H3). rewrite H1, H3.
  cbn [fst map_err mbind result_bind]. rewrite (directions_initiator b) by done.
  destruct (new_runtime_runs (st_edge s) (m_rootKey (st_machine s)) (m_nextOfferer (st_machine s)) b
    (st_lastHealedAt s)) as [fresh Hfresh]; try done.
  - apply Hs.
  - rewrite <- (ri_suite _ Hs). apply Hs.
  - rewrite <- (ri_binding _ Hs). apply Hs.
  - apply Hs.
  - apply Hs.
  - cbn [cp_lastHealedAt fields_of]. rewrite Hfresh. cbn [mbind result_bind].
    pose proof (coherent_valid s Hs) as Hc. pose proof (ri_live _ Hs) as Hl. pose proof (ri_root _ Hs) as Hr.
    destruct s as [e m r o a b' c k n h d]. cbn [st_destroyed st_messageRoot st_machine] in Hl, Hr. subst d r.
    match goal with |- (validateCheckpointCoherence ?r;; _) = _ =>
      assert (validateCheckpointCoherence r = Ok tt) as -> by exact Hc end.
    done.
Qed.

(** Saving and restoring a runtime. *)
Lemma checkpoint_saved s keys : runtime_inv s -> keys_ok keys ->
  exists out, serialize keys s = (Ok out, s) /\ 0 < blen out <= MAX_EDGE_STATE_BYTES /\
    readCheckpointBinding out = Ok (e_binding (st_edge s)) /\
    restore_runtime out (e_pqMode (st_edge s)) (e_rootSuite (st_edge s)) (e_binding (st_edge s))
      (amInitiator_of (st_edge s)) = Ok (set_keys (array_sort key_order keys) s).
Proof.
  intros Hs Hk. destruct (encode_runs s keys Hs Hk) as (tag & snap & Hsnap & Hser & Hl & Hb & Hps & _ & _ & Hread).
  pose proof (ri_edge _ Hs) as (Hrs & Hgs & b & Hd).
  assert (blen (e_binding (st_edge s)) = 32) as Hbl by (rewrite <- (ri_binding _ Hs); apply Hs).
  assert (60 <= blen (enc_state tag s snap keys)) as Hp.
  { unfold enc_state. autorewrite with blen. rewrite Hb, Hbl. change (blen EDGE_MAGIC) with 8.
    repeat match goal with |- context [blen ?l] => lazymatch goal with _ : 0 <= blen l |- _ => fail | _ => pose proof (blen_nonneg l) end end.
    lia. }
  eexists. split; [exact Hser|]. split_and!; [lia|done| |].
  - unfold readCheckpointBinding. change (blen EDGE_MAGIC + 1 + 1 + 1 + 1 + 8 + 8) with 28.
    assert ((blen (enc_state tag s snap keys) <? 28 + 32) = false) as -> by lia. cbn [negb require mbind result_bind].
    f_equal. unfold enc_state. rewrite Hb.
    do 7 (rewrite slice_app_r by (rewrite ?blen_be_encode; by vm_compute)).
    apply slice_app_l; rewrite ?blen_be_encode; [done|]. by rewrite Hbl.
  - unfold restore_runtime. rewrite Hbl. cbn [Z.eqb require mbind result_bind].
    unfold read_all. assert (((blen (enc_state tag s snap keys) =? 0) || (MAX_EDGE_STATE_BYTES <? blen (enc_state tag s snap keys))) = false) as -> by lia.
    cbn [negb require mbind result_bind]. rewrite Hread. cbn [fst].
    apply restore_fields_runs; done.
Qed.

(** A checkpoint restores to the runtime it was taken from.  Serialising
    never exceeds the 256 KiB budget, whatever the suite, the phase, the cached
    frames and up to 256 receive keys of the caller, leaves the runtime alone,
    and restoring with the edge's own mode, suite, binding and role gives the
    same runtime, holding the receive keys in canonical order; the binding can
    be read back without restoring. *)
Theorem checkpoint_roundtrip s keys : runtime_inv s -> keys_ok keys ->
  exists out, serialize keys s = (Ok out, s) /\ 0 < blen out <= MAX_EDGE_STATE_BYTES /\
    readCheckpointBinding out = Ok (e_binding (st_edge s)) /\
    restore_runtime out (e_pqMode (st_edge s)) (e_rootSuite (st_edge s)) (e_binding (st_edge s))
      (amInitiator_of (st_edge s)) = Ok (set_keys (array_sort key_order keys) s).
Proof. apply checkpoint_saved. Qed.

(** Reading on from a field that is known. *)
Lemma reads_inv {A D} (r : reader A) (f : A -> reader D) a e rest d :
  reads r a e -> fst ((r ≫= f) (e ++ rest)) = Ok d -> fst (f a rest) = Ok d.
Proof. intros H. unfold mbind, M_bind. by rewrite H. Qed.
Lemma require_inv {D} c e (r : reader D) x d :
  fst ((mrequire c e;; r) x) = Ok d -> c = true /\ fst (r x) = Ok d.
Proof. destruct c; [done|]. cbn. discriminate. Qed.
Lemma lift_inv {A D} (r : result RuntimeThrow A) (f : A -> reader D) x d :
  fst ((a ← lift r; f a) x) = Ok d -> exists a, r = Ok a /\ fst (f a x) = Ok d.
Proof. destruct r as [a|]; [by exists a|]. cbn. discriminate. Qed.

(** A checkpoint only restores on the edge and in the role it was taken
    for: with any other room mode, root suite, binding or direction it is
    refused, so one edge's state can never be loaded for another. *)
Theorem checkpoint_bound_to_edge s keys out mode suite binding b s1 : runtime_inv s -> keys_ok keys ->
  serialize keys s = (Ok out, s) -> restore_runtime out mode suite binding b = Ok s1 ->
  mode = e_pqMode (st_edge s) /\ suite = e_rootSuite (st_edge s) /\ binding = e_binding (st_edge s) /\
  b = amInitiator_of (st_edge s).
Proof.
  intros Hs Hk Hser H. destruct (encode_runs s keys Hs Hk) as (tag & snap & Hsnap & Hser' & Hl & Hb & Hps & Htag & Ht & _).
  rewrite Hser in Hser'. injection Hser' as ->. clear Hser.
  unfold restore_runtime in H. binds H. clear H. unfold read_all in E0. binds E0. clear E1.
  unfold readState, enc_state in E0. pose proof (ri_healed _ Hs). pose proof (ri_messages _ Hs).
  apply reads_inv with (a := EDGE_MAGIC) in E0; [|by apply reads_take]. apply require_inv in E0 as [_ E0].
  apply reads_inv with (a := EDGE_FORMAT_VERSION) in E0; [|by apply reads_u8]. apply require_inv in E0 as [_ E0].
  apply reads_inv with (a := tag) in E0; [|apply reads_u8; lia].
  apply lift_inv in E0 as (ps & Hps' & E0). rewrite Htag in Hps'. injection Hps' as <-.
  apply require_inv in E0 as [Hmode%Z.eqb_eq E0]. apply require_inv in E0 as [Hsuite%bool_decide_eq_true E0].
  apply reads_inv with (a := if amInitiator_of (st_edge s) then 1 else 2) in E0;
    [|apply reads_u8; by destruct (amInitiator_of _)]. apply require_inv in E0 as [Hdir%Z.eqb_eq E0].
  apply reads_inv with (a := 0) in E0; [|by apply reads_u8]. apply require_inv in E0 as [_ E0].
  apply reads_inv with (a := st_lastHealedAt s) in E0; [|by apply reads_u64, safe_u64].
  apply reads_inv with (a := st_messagesSinceHealing s) in E0; [|by apply reads_u64, safe_u64].
  apply require_inv in E0 as [_ E0].
  apply reads_inv with (a := s_binding snap) in E0;
    [|apply reads_take; rewrite Hb, <- (ri_binding _ Hs); apply Hs].
  apply require_inv in E0 as [Hbind%bytesEqual_spec _].
  assert (mode = e_pqMode (st_edge s)) as -> by (by destruct mode, (e_pqMode (st_edge s))).
  destruct (ri_edge _ Hs) as (Hroot & _). split_and!; [done|congruence|congruence|].
  by destruct b, (amInitiator_of (st_edge s)).
Qed.
End Roundtrip.
