(* ===== verification/Metadata.v ===== *)
(** * Chunk metadata ([src/src/utils/metadata.ts])

    Every chunk of a message carries 369 bytes of metadata: a schema version, a
    type, the hash, size, date and name of the message, and the range and index
    of the chunk.  A name is a JavaScript string, here the list of its code
    points; it is encoded as UTF-8 and cut at 256 bytes.

    What the language provides is modelled as it specifies it: the decoder of
    [TextDecoder] with its replacement character, [Number] of a 64-bit integer
    (round to nearest, ties to even), and the range of [Date]. *)

From Stdlib Require Import Strings.Byte.
From S2P Require Import Prelude Bytes Constants.
Local Open Scope Z_scope.
Local Open Scope list_scope.

Inductive MetadataError :=
  | metadata_range | metadata_length | bad_schema | bad_message_type | bad_hash
  | bad_total_size | bad_timestamp | bad_index | bad_chunk_range.

(** [md_date] is [date.getTime()], [None] standing for [NaN]. *)
Record Metadata := {
  md_schemaVersion : Z; md_messageType : Z; md_hash : bytes; md_totalSize : Z;
  md_date : option Z; md_name : list Z; md_chunkStartIndex : Z; md_chunkEndIndex : Z;
  md_chunkIndex : Z }.

(** ** Numbers and dates *)

(** [Number(v)] for [0 <= v < 2^64]: the nearest double. *)
Definition Number_of_u64 (v : Z) : Z :=
  let e := Z.log2 v - 52 in
  if e <=? 0 then v else
  let m := Z.shiftr v e in
  let r := v - Z.shiftl m e in
  let half := Z.shiftl 1 (e - 1) in
  Z.shiftl (if (r <? half) || ((r =? half) && Z.even m) then m else m + 1) e.

Definition MAX_TIME : Z := 8640000000000000.
(** [new Date(t).getTime()]. *)
Definition new_Date (t : Z) : option Z := if Z.abs t <=? MAX_TIME then Some t else None.

Definition isSafeInteger (v : Z) : bool := Z.abs v <=? MAX_SAFE_INTEGER.

(** ** UTF-8 *)

Definition is_scalar (c : Z) : bool :=
  (0 <=? c) && (c <=? 0x10ffff) && negb ((0xd800 <=? c) && (c <=? 0xdfff)).

Definition utf8_char (c : Z) : bytes :=
  if c <? 0x80 then [byte_of c]
  else if c <? 0x800 then [byte_of (0xc0 + c / 64); byte_of (0x80 + c mod 64)]
  else if c <? 0x10000 then
    [byte_of (0xe0 + c / 4096); byte_of (0x80 + c / 64 mod 64); byte_of (0x80 + c mod 64)]
  else [byte_of (0xf0 + c / 262144); byte_of (0x80 + c / 4096 mod 64);
        byte_of (0x80 + c / 64 mod 64); byte_of (0x80 + c mod 64)].
(** [new TextEncoder().encode(s)]. *)
Definition utf8_encode (s : list Z) : bytes := mjoin (utf8_char <$> s).

Definition REPLACEMENT : Z := 0xfffd.

(** Bytes still needed, the code point so far and the bounds of the next byte. *)
Record utf8_state := { us_needed : nat; us_point : Z; us_lower : Z; us_upper : Z }.
Definition utf8_start : utf8_state :=
  {| us_needed := 0; us_point := 0; us_lower := 0x80; us_upper := 0xbf |}.

(** A byte where a character may start. *)
Definition utf8_lead (b : Z) : list Z * utf8_state :=
  if b <=? 0x7f then ([b], utf8_start)
  else if (0xc2 <=? b) && (b <=? 0xdf) then
    ([], {| us_needed := 1; us_point := b - 0xc0; us_lower := 0x80; us_upper := 0xbf |})
  else if (0xe0 <=? b) && (b <=? 0xef) then
    ([], {| us_needed := 2; us_point := b - 0xe0;
            us_lower := if b =? 0xe0 then 0xa0 else 0x80; us_upper := if b =? 0xed then 0x9f else 0xbf |})
  else if (0xf0 <=? b) && (b <=? 0xf4) then
    ([], {| us_needed := 3; us_point := b - 0xf0;
            us_lower := if b =? 0xf0 then 0x90 else 0x80; us_upper := if b =? 0xf4 then 0x8f else 0xbf |})
  else ([REPLACEMENT], utf8_start).

Fixpoint utf8_loop (s : utf8_state) (l : bytes) : list Z :=
  match l with
  | [] => match us_needed s with O => [] | S _ => [REPLACEMENT] end
  | b :: l' =>
      let v := u8 b in
      match us_needed s with
      | O => let '(out, s') := utf8_lead v in out ++ utf8_loop s' l'
      | S needed =>
          if (us_lower s <=? v) && (v <=? us_upper s) then
            let point := us_point s * 64 + (v - 0x80) in
            match needed with
            | O => point :: utf8_loop utf8_start l'
            | S _ => utf8_loop {| us_needed := needed; us_point := point;
                                  us_lower := 0x80; us_upper := 0xbf |} l'
            end
          else let '(out, s') := utf8_lead v in REPLACEMENT :: out ++ utf8_loop s' l'
      end
  end.
(** [new TextDecoder().decode(l)]: a leading byte order mark is dropped. *)
Definition utf8_decode (l : bytes) : list Z :=
  match utf8_loop utf8_start l with 0xfeff :: s => s | s => s end.

(** ** Names *)

(** [.replace(/\0+$/, "")]. *)
Fixpoint strip_trailing (s : list Z) : list Z :=
  match s with
  | [] => []
  | c :: s' => match strip_trailing s' with
               | [] => if c =? 0 then [] else [c]
               | s'' => c :: s''
               end
  end.
(** Path separators and the characters unsafe in shells and HTML. *)
Definition is_dangerous (c : Z) : bool :=
  bool_decide (c ∈ [0x2f; 0x5c; 0x3c; 0x3e; 0x3a; 0x22; 0x27; 0x7c; 0x3f; 0x2a]).
Definition is_control (c : Z) : bool := ((0 <=? c) && (c <=? 0x1f)) || (c =? 0x7f).
Definition sanitize (s : list Z) : list Z :=
  List.filter (fun c => negb (is_control c)) ((fun c => if is_dangerous c then 0x5f else c) <$> s).

(** ** The 369 bytes *)

Definition serializeMetadata (metadata : Metadata) : result MetadataError bytes :=
  let buffer := put_u64 (zeros METADATA_LEN) 0 (md_schemaVersion metadata) in
  let buffer := bset buffer 8 [byte_of (md_messageType metadata)] in
  require (9 + blen (md_hash metadata) <=? METADATA_LEN) metadata_range;;
  let buffer := bset buffer 9 (md_hash metadata) in
  let buffer := put_u64 buffer 73 (md_totalSize metadata) in
  match md_date metadata with
  | None => Err metadata_range
  | Some date =>
      let buffer := put_u64 buffer 81 date in
      let nameBytes := utf8_encode (md_name metadata) in
      let namePadded := bset (zeros 256) 0 (slice nameBytes 0 (Z.min 256 (blen nameBytes))) in
      let buffer := bset buffer 89 namePadded in
      let buffer := put_u64 buffer 345 (md_chunkStartIndex metadata) in
      let buffer := put_u64 buffer 353 (md_chunkEndIndex metadata) in
      Ok (put_u64 buffer 361 (md_chunkIndex metadata))
  end.

Definition deserializeMetadata (buffer : bytes) : result MetadataError Metadata :=
  require (blen buffer =? METADATA_LEN) metadata_length;;
  Ok {| md_schemaVersion := Number_of_u64 (get_u64 buffer 0);
        md_messageType := default 0 (at_ buffer 8);
        md_hash := slice buffer 9 73;
        md_totalSize := Number_of_u64 (get_u64 buffer 73);
        md_date := new_Date (Number_of_u64 (get_u64 buffer 81));
        md_name := sanitize (strip_trailing (utf8_decode (slice buffer 89 345)));
        md_chunkStartIndex := Number_of_u64 (get_u64 buffer 345);
        md_chunkEndIndex := Number_of_u64 (get_u64 buffer 353);
        md_chunkIndex := Number_of_u64 (get_u64 buffer 361) |}.

Definition assertMetadataV1 (metadata : Metadata) : result MetadataError unit :=
  require (md_schemaVersion metadata =? 1) bad_schema;;
  require (isSafeInteger (md_messageType metadata) && negb (md_messageType metadata <? 1)
           && negb (64 <? md_messageType metadata)) bad_message_type;;
  require (blen (md_hash metadata) =? crypto_hash_sha512_BYTES) bad_hash;;
  require (isSafeInteger (md_totalSize metadata) && negb (md_totalSize metadata <? 1)
           && negb (MAX_MESSAGE_SIZE <? md_totalSize metadata)) bad_total_size;;
  require (match md_date metadata with Some t => isSafeInteger t | None => false end) bad_timestamp;;
  require (forallb (fun value => isSafeInteger value && negb (value <? 0))
    [md_chunkStartIndex metadata; md_chunkEndIndex metadata; md_chunkIndex metadata]) bad_index;;
  require (negb (md_chunkEndIndex metadata <? md_chunkStartIndex metadata)) bad_chunk_range.

(** ** Lemmas *)

Lemma u8_char z : 0 <= z <= 255 -> u8 (byte_of z) = z.
Proof. intros. rewrite u8_byte_of. apply Z.mod_small. lia. Qed.

Lemma utf8_continue s n p lo hi b rest : s = {| us_needed := S n; us_point := p; us_lower := lo; us_upper := hi |} ->
  0 <= b <= 255 -> lo <= b <= hi ->
  utf8_loop s (byte_of b :: rest) =
    match n with
    | O => (p * 64 + (b - 0x80)) :: utf8_loop utf8_start rest
    | S _ => utf8_loop {| us_needed := n; us_point := p * 64 + (b - 0x80); us_lower := 0x80; us_upper := 0xbf |} rest
    end.
Proof.
  intros -> Hb Hr. cbn [utf8_loop us_needed us_lower us_upper us_point]. rewrite u8_char by done.
  rewrite (proj2 (Z.leb_le lo b)), (proj2 (Z.leb_le b hi)) by lia. done.
Qed.

Lemma utf8_first b rest : 0 <= b <= 255 ->
  utf8_loop utf8_start (byte_of b :: rest) = fst (utf8_lead b) ++ utf8_loop (snd (utf8_lead b)) rest.
Proof. intros Hb. cbn [utf8_loop us_needed utf8_start]. rewrite u8_char by done. by destruct (utf8_lead b). Qed.

Lemma utf8_lead2 b : 0xc2 <= b <= 0xdf ->
  utf8_lead b = ([], {| us_needed := 1; us_point := b - 0xc0; us_lower := 0x80; us_upper := 0xbf |}).
Proof.
  intros. unfold utf8_lead. rewrite (proj2 (Z.leb_gt b 0x7f)) by lia.
  by rewrite (proj2 (Z.leb_le 0xc2 b)), (proj2 (Z.leb_le b 0xdf)) by lia.
Qed.
Lemma utf8_lead3 b : 0xe0 <= b <= 0xef ->
  utf8_lead b = ([], {| us_needed := 2; us_point := b - 0xe0;
    us_lower := if b =? 0xe0 then 0xa0 else 0x80; us_upper := if b =? 0xed then 0x9f else 0xbf |}).
Proof.
  intros. unfold utf8_lead. rewrite (proj2 (Z.leb_gt b 0x7f)), (proj2 (Z.leb_gt b 0xdf)), andb_false_r by lia.
  by rewrite (proj2 (Z.leb_le 0xe0 b)), (proj2 (Z.leb_le b 0xef)) by lia.
Qed.
Lemma utf8_lead4 b : 0xf0 <= b <= 0xf4 ->
  utf8_lead b = ([], {| us_needed := 3; us_point := b - 0xf0;
    us_lower := if b =? 0xf0 then 0x90 else 0x80; us_upper := if b =? 0xf4 then 0x8f else 0xbf |}).
Proof.
  intros. unfold utf8_lead. rewrite (proj2 (Z.leb_gt b 0x7f)), (proj2 (Z.leb_gt b 0xdf)), andb_false_r by lia.
  rewrite (proj2 (Z.leb_gt b 0xef)), andb_false_r by lia.
  by rewrite (proj2 (Z.leb_le 0xf0 b)), (proj2 (Z.leb_le b 0xf4)) by lia.
Qed.

(** Arithmetic with division by constants. *)
#[local] Ltac Zify.zify_post_hook ::= Z.to_euclidean_division_equations.

(** A character decodes to its code point, whatever follows. *)
Lemma utf8_char_decodes c rest : is_scalar c = true ->
  utf8_loop utf8_start (utf8_char c ++ rest) = c :: utf8_loop utf8_start rest.
Proof.
  unfold is_scalar. rewrite !andb_true_iff, negb_true_iff, andb_false_iff, !Z.leb_le, !Z.leb_gt. intros [[H0 H1] Hs].
  unfold utf8_char. destruct (Z.ltb_spec c 0x80).
  { cbn [app]. rewrite utf8_first by lia. unfold utf8_lead. by rewrite (proj2 (Z.leb_le c 0x7f)) by lia. }
  destruct (Z.ltb_spec c 0x800).
  { cbn [app]. rewrite utf8_first, utf8_lead2 by lia. cbn [fst snd app].
    erewrite utf8_continue by (reflexivity || lia). f_equal. lia. }
  assert (0 <= c mod 64 < 64 /\ 0 <= c / 64 mod 64 < 64 /\ 0 <= c / 4096 mod 64 < 64) as (? & ? & ?)
    by (split_and!; apply Z.mod_pos_bound; lia).
  destruct (Z.ltb_spec c 0x10000).
  { assert (c = 4096 * (c / 4096) + 64 * (c / 64 mod 64) + c mod 64) as Hc by lia.
    assert (0 <= c / 4096 <= 15) by lia.
    set (q1 := c mod 64) in *. set (q2 := c / 64 mod 64) in *. clearbody q1 q2.
    set (q3 := c / 4096) in *. clearbody q3. cbn [app]. rewrite utf8_first, utf8_lead3 by lia. cbn [fst snd app].
    erewrite utf8_continue; [|reflexivity|lia|].
    2: { destruct (Z.eqb_spec (0xe0 + q3) 0xe0), (Z.eqb_spec (0xe0 + q3) 0xed); lia. }
    cbv iota. erewrite utf8_continue; [|reflexivity|lia|lia]. cbv iota. f_equal. lia. }
  assert (c = 262144 * (c / 262144) + 4096 * (c / 4096 mod 64) + 64 * (c / 64 mod 64) + c mod 64) as Hc by lia.
  assert (0 <= c / 262144 <= 4) by lia.
  set (q1 := c mod 64) in *. set (q2 := c / 64 mod 64) in *. set (q3 := c / 4096 mod 64) in *.
  set (q4 := c / 262144) in *. clearbody q1 q2 q3 q4. cbn [app]. rewrite utf8_first, utf8_lead4 by lia. cbn [fst snd app].
  erewrite utf8_continue; [|reflexivity|lia|].
  2: { destruct (Z.eqb_spec (0xf0 + q4) 0xf0), (Z.eqb_spec (0xf0 + q4) 0xf4); lia. }
  cbv iota. erewrite utf8_continue; [|reflexivity|lia|lia].
  cbv iota. erewrite utf8_continue; [|reflexivity|lia|lia]. cbv iota. f_equal. lia.
Qed.

Lemma utf8_decodes s rest : forallb is_scalar s = true ->
  utf8_loop utf8_start (utf8_encode s ++ rest) = s ++ utf8_loop utf8_start rest.
Proof.
  induction s as [|c s IH]; [done|]. cbn [forallb]. intros [Hc Hs]%andb_true_iff.
  change (utf8_encode (c :: s)) with (utf8_char c ++ utf8_encode s).
  by rewrite <- app_assoc, utf8_char_decodes, IH.
Qed.
Lemma utf8_zeros (n : nat) : utf8_loop utf8_start (replicate n x00) = replicate n 0.
Proof. induction n as [|n IH]; [done|]. cbn. by rewrite <- IH. Qed.

Lemma strip_zeros s n : Forall (fun c => c <> 0) s -> strip_trailing (s ++ replicate n 0) = s.
Proof.
  induction 1 as [|c s Hc _ IH].
  - induction n as [|n IH]; [done|]. cbn. cbn in IH. by rewrite IH.
  - cbn [app strip_trailing]. rewrite IH. apply Z.eqb_neq in Hc. destruct s; [by rewrite Hc|done].
Qed.

(** A name that a file may be stored under. *)
Record name_ok (s : list Z) : Prop := {
  nm_scalar : forallb is_scalar s = true;
  nm_safe : forallb (fun c => negb (is_dangerous c) && negb (is_control c)) s = true;
  nm_length : blen (utf8_encode s) <= 256;
  nm_no_mark : head s <> Some 0xfeff;
}.

Lemma sanitize_ok s : forallb (fun c => negb (is_dangerous c) && negb (is_control c)) s = true -> sanitize s = s.
Proof.
  induction s as [|c s IH]; [done|]. cbn [forallb]. intros [[Hd Hc]%andb_true_iff Hs]%andb_true_iff.
  apply negb_true_iff in Hd. unfold sanitize. cbn [fmap list_fmap List.filter]. rewrite Hd, Hc.
  f_equal. by apply IH.
Qed.

Lemma name_survives s n : name_ok s -> sanitize (strip_trailing (utf8_decode (utf8_encode s ++ replicate n x00))) = s.
Proof.
  intros [Hsc Hsafe _ Hm]. unfold utf8_decode. rewrite utf8_decodes, utf8_zeros by done.
  assert (match s ++ replicate n 0 with 0xfeff :: s' => s' | s' => s' end = s ++ replicate n 0) as ->.
  { destruct s as [|c s]; [by destruct n|]. cbn [app]. cbn in Hm.
    destruct (decide (c = 0xfeff)) as [->|Hne]; [done|]. repeat (case_match; try done). }
  rewrite strip_zeros; [by apply sanitize_ok|].
  apply Forall_forall. intros c Hc ->. apply list_elem_of_In in Hc.
  apply forallb_forall with (x := 0) in Hsafe; [|done]. done.
Qed.

Lemma number_exact v : 0 <= v <= MAX_SAFE_INTEGER -> Number_of_u64 v = v.
Proof.
  intros H. unfold Number_of_u64. destruct (Z.leb_spec (Z.log2 v - 52) 0); [done|].
  assert (53 <= Z.log2 v) as Hl by lia. pose proof (Z.log2_spec v). unfold MAX_SAFE_INTEGER in H.
  assert (v <> 0) by (intros ->; done). assert (2 ^ 53 <= 2 ^ Z.log2 v) by (apply Z.pow_le_mono_r; lia). lia.
Qed.

Lemma number_large v : 2 ^ 63 <= v < 2 ^ 64 -> 2 ^ 63 <= Number_of_u64 v.
Proof.
  intros H. unfold Number_of_u64. assert (Z.log2 v = 63) as -> by (apply Z.log2_unique; lia).
  change (63 - 52) with 11. cbn [Z.leb Z.compare]. rewrite Z.shiftr_div_pow2, !Z.shiftl_mul_pow2 by lia.
  case_match; lia.
Qed.

(** ** The layout *)

Definition metadata_bytes (m : Metadata) (date : Z) : bytes :=
  be_encode 8 (md_schemaVersion m) ++ [byte_of (md_messageType m)] ++ md_hash m
  ++ be_encode 8 (md_totalSize m) ++ be_encode 8 date
  ++ (utf8_encode (md_name m) ++ zeros (256 - blen (utf8_encode (md_name m))))
  ++ be_encode 8 (md_chunkStartIndex m) ++ be_encode 8 (md_chunkEndIndex m)
  ++ be_encode 8 (md_chunkIndex m).

Lemma serialize_layout m date : md_date m = Some date -> blen (md_hash m) = 64 ->
  blen (utf8_encode (md_name m)) <= 256 -> serializeMetadata m = Ok (metadata_bytes m date).
Proof.
  intros Hd Hh Hn. unfold serializeMetadata. change METADATA_LEN with 369. rewrite Hh, Hd.
  change (9 + 64 <=? 369) with true. cbn [require mbind result_bind]. f_equal.
  pose proof (blen_nonneg (utf8_encode (md_name m))).
  rewrite Z.min_r by lia. rewrite slice_all by done. rewrite (bset_zeros 256) by lia.
  unfold put_u64, metadata_bytes. rewrite bset_zeros by blen.
  repeat (rewrite bset_append by blen).
  match goal with |- _ ++ zeros ?n = _ => rewrite (zeros_0 n) by blen end. by rewrite app_nil_r, <- !app_assoc.
Qed.

Lemma metadata_fields m date : blen (md_hash m) = 64 -> blen (utf8_encode (md_name m)) <= 256 ->
  blen (metadata_bytes m date) = METADATA_LEN /\
  get_u64 (metadata_bytes m date) 0 = md_schemaVersion m mod 256 ^ 8 /\
  at_ (metadata_bytes m date) 8 = Some (md_messageType m mod 256) /\
  slice (metadata_bytes m date) 9 73 = md_hash m /\
  get_u64 (metadata_bytes m date) 73 = md_totalSize m mod 256 ^ 8 /\
  get_u64 (metadata_bytes m date) 81 = date mod 256 ^ 8 /\
  slice (metadata_bytes m date) 89 345 =
    utf8_encode (md_name m) ++ zeros (256 - blen (utf8_encode (md_name m))) /\
  get_u64 (metadata_bytes m date) 345 = md_chunkStartIndex m mod 256 ^ 8 /\
  get_u64 (metadata_bytes m date) 353 = md_chunkEndIndex m mod 256 ^ 8 /\
  get_u64 (metadata_bytes m date) 361 = md_chunkIndex m mod 256 ^ 8.
Proof.
  intros Hh Hn. change METADATA_LEN with 369.
  pose proof (blen_nonneg (utf8_encode (md_name m))). unfold metadata_bytes, get_u64.
  split_and!.
  - blen.
  - rewrite slice_app_l by blen. apply be_decode_encode.
  - rewrite at_app_r by blen. rewrite at_app_l by blen. rewrite blen_be_encode.
    transitivity (Some (u8 (byte_of (md_messageType m)))); [done|]. by rewrite u8_byte_of.
  - do 2 rewrite slice_app_r by blen. apply slice_app_l; blen.
  - do 3 rewrite slice_app_r by blen. rewrite slice_app_l by blen. apply be_decode_encode.
  - do 4 rewrite slice_app_r by blen. rewrite slice_app_l by blen. apply be_decode_encode.
  - do 5 rewrite slice_app_r by blen. apply slice_app_l; blen.
  - do 6 rewrite slice_app_r by blen. rewrite slice_app_l by blen. apply be_decode_encode.
  - do 7 rewrite slice_app_r by blen. rewrite slice_app_l by blen. apply be_decode_encode.
  - rewrite <- (app_nil_r (be_encode 8 (md_chunkIndex m))).
    do 8 rewrite slice_app_r by blen. rewrite slice_app_l by blen. apply be_decode_encode.
Qed.

(** What a sender puts into the metadata of a chunk. *)
Record metadata_ok (m : Metadata) : Prop := {
  mo_version : 0 <= md_schemaVersion m <= MAX_SAFE_INTEGER;
  mo_type : 0 <= md_messageType m <= 255;
  mo_hash : blen (md_hash m) = 64;
  mo_size : 0 <= md_totalSize m <= MAX_SAFE_INTEGER;
  mo_date : exists date, md_date m = Some date /\ 0 <= date <= MAX_TIME;
  mo_name : name_ok (md_name m);
  mo_start : 0 <= md_chunkStartIndex m <= MAX_SAFE_INTEGER;
  mo_end : 0 <= md_chunkEndIndex m <= MAX_SAFE_INTEGER;
  mo_index : 0 <= md_chunkIndex m <= MAX_SAFE_INTEGER;
}.

Lemma safe_mod v : 0 <= v <= MAX_SAFE_INTEGER -> Number_of_u64 (v mod 256 ^ 8) = v.
Proof. intros H. rewrite Z.mod_small; [by apply number_exact|]. unfold MAX_SAFE_INTEGER in H. lia. Qed.

Lemma metadata_survives m : metadata_ok m -> exists b, serializeMetadata m = Ok b /\
  blen b = METADATA_LEN /\ deserializeMetadata b = Ok m.
Proof.
  intros [Hv Ht Hh Hs (date & Hd & Hr) Hn H1 H2 H3].
  exists (metadata_bytes m date). split; [apply serialize_layout; try done; apply Hn|].
  destruct (metadata_fields m date Hh (nm_length _ Hn)) as (Hl & F1 & F2 & F3 & F4 & F5 & F6 & F7 & F8 & F9).
  split; [done|]. unfold deserializeMetadata. rewrite Hl, Z.eqb_refl. cbn [require mbind result_bind].
  rewrite F1, F2, F3, F4, F5, F6, F7, F8, F9. rewrite !safe_mod by (done || (unfold MAX_TIME, MAX_SAFE_INTEGER in *; lia)).
  unfold new_Date. rewrite (proj2 (Z.leb_le (Z.abs date) MAX_TIME)) by lia.
  unfold zeros. rewrite name_survives by done. cbn [default]. rewrite Z.mod_small by lia.
  destruct m. cbn in *. by subst.
Qed.

Lemma parses b : blen b = METADATA_LEN -> exists m, deserializeMetadata b = Ok m /\
  md_name m = sanitize (strip_trailing (utf8_decode (slice b 89 345))) /\
  md_date m = new_Date (Number_of_u64 (get_u64 b 81)).
Proof. intros Hb. unfold deserializeMetadata. rewrite Hb. eexists. split; [reflexivity|done]. Qed.

(** Whatever the name - one that is too long is cut - the numbers are read back. *)
Lemma numbers_survive m date : md_date m = Some date -> blen (md_hash m) = 64 ->
  0 <= md_totalSize m <= MAX_SAFE_INTEGER -> 0 <= md_chunkStartIndex m <= MAX_SAFE_INTEGER ->
  0 <= md_chunkEndIndex m <= MAX_SAFE_INTEGER -> 0 <= md_chunkIndex m <= MAX_SAFE_INTEGER ->
  exists b m', serializeMetadata m = Ok b /\ blen b = METADATA_LEN /\ deserializeMetadata b = Ok m' /\
    md_totalSize m' = md_totalSize m /\ md_chunkStartIndex m' = md_chunkStartIndex m /\
    md_chunkEndIndex m' = md_chunkEndIndex m /\ md_chunkIndex m' = md_chunkIndex m.
Proof.
  intros Hd Hh Ht Hs He Hi.
  set (P := bset (zeros 256) 0 (slice (utf8_encode (md_name m)) 0 (Z.min 256 (blen (utf8_encode (md_name m)))))).
  assert (blen P = 256) as HP.
  { subst P. pose proof (blen_nonneg (utf8_encode (md_name m))). rewrite blen_bset; [by rewrite blen_zeros|lia|].
    rewrite blen_slice, blen_zeros by lia. lia. }
  set (b := be_encode 8 (md_schemaVersion m) ++ [byte_of (md_messageType m)] ++ md_hash m
    ++ be_encode 8 (md_totalSize m) ++ be_encode 8 date ++ P ++ be_encode 8 (md_chunkStartIndex m)
    ++ be_encode 8 (md_chunkEndIndex m) ++ be_encode 8 (md_chunkIndex m)).
  assert (serializeMetadata m = Ok b) as Hb.
  { unfold serializeMetadata. change METADATA_LEN with 369. rewrite Hh, Hd. change (9 + 64 <=? 369) with true.
    cbn [require mbind result_bind]. fold P. clearbody P. f_equal. subst b. unfold put_u64. rewrite bset_zeros by blen.
    repeat (rewrite bset_append by blen).
    match goal with |- _ ++ zeros ?n = _ => rewrite (zeros_0 n) by blen end. by rewrite app_nil_r, <- !app_assoc. }
  assert (blen b = 369) as Hl by (subst b; blen).
  eexists b, _. split; [exact Hb|]. split; [exact Hl|]. split; [unfold deserializeMetadata; rewrite Hl; reflexivity|].
  cbn [md_totalSize md_chunkStartIndex md_chunkEndIndex md_chunkIndex]. clearbody P. subst b. unfold get_u64. split_and!.
  - do 3 rewrite slice_app_r by blen. rewrite slice_app_l by blen. rewrite be_decode_encode. by apply safe_mod.
  - do 6 rewrite slice_app_r by blen. rewrite slice_app_l by blen. rewrite be_decode_encode. by apply safe_mod.
  - do 7 rewrite slice_app_r by blen. rewrite slice_app_l by blen. rewrite be_decode_encode. by apply safe_mod.
  - rewrite <- (app_nil_r (be_encode 8 (md_chunkIndex m))).
    do 8 rewrite slice_app_r by blen. rewrite slice_app_l by blen. rewrite be_decode_encode. by apply safe_mod.
Qed.

Lemma dateless_refused m u : md_date m = None -> assertMetadataV1 m <> Ok u.
Proof. intros Hd H. unfold assertMetadataV1 in H. rewrite Hd in H. binds H. discriminate E3. Qed.

(** ** Theorems *)

(** Metadata survives the wire: whatever a sender puts into it, with sizes
    and indices that are safe integers, a date from 1970 on and a name without
    separators and control characters that fits its 256 bytes, in any script,
    the receiver reads back exactly that. *)
Theorem metadata_roundtrip m : metadata_ok m -> exists b, serializeMetadata m = Ok b /\
  blen b = METADATA_LEN /\ deserializeMetadata b = Ok m.
Proof. apply metadata_survives. Qed.

(** Whatever 369 bytes a peer authenticates, they parse, and the name they
    yield holds no path separator, no character unsafe in a shell or in HTML and
    no control character. *)
Theorem parsed_name_is_safe b : blen b = METADATA_LEN -> exists m, deserializeMetadata b = Ok m /\
  forallb (fun c => negb (is_dangerous c) && negb (is_control c)) (md_name m) = true.
Proof.
  intros Hb. destruct (parses b Hb) as (m & Hm & Hn & _). exists m. split; [done|]. rewrite Hn.
  generalize (strip_trailing (utf8_decode (slice b 89 345))). intros s. unfold sanitize.
  apply forallb_forall. intros c [Hc Hk]%filter_In. rewrite Hk, andb_true_r.
  apply in_map_iff in Hc as (d & <- & _). destruct (is_dangerous d) eqn:Hd; [done|by rewrite Hd].
Qed.

(** The date is written as a signed integer and read as an unsigned one: a
    date before 1970, which [Date] and the serializer accept, always fails the
    receiver's validation. *)
Theorem date_before_1970_refused m date : blen (md_hash m) = 64 -> blen (utf8_encode (md_name m)) <= 256 ->
  md_date m = Some date -> - MAX_TIME <= date < 0 ->
  exists b m', serializeMetadata m = Ok b /\ deserializeMetadata b = Ok m' /\
    md_date m' = None /\ forall u, assertMetadataV1 m' <> Ok u.
Proof.
  intros Hh Hn Hd Hr. destruct (metadata_fields m date Hh Hn) as (Hl & _ & _ & _ & _ & F5 & _).
  destruct (parses _ Hl) as (m' & Hm & _ & Hdate). exists (metadata_bytes m date), m'.
  assert (md_date m' = None) as Hnone.
  { rewrite Hdate, F5. assert (date mod 256 ^ 8 = date + 256 ^ 8) as -> by (unfold MAX_TIME in *; lia).
    unfold new_Date. pose proof (number_large (date + 256 ^ 8)).
    rewrite (proj2 (Z.leb_gt _ _)); [done|]. unfold MAX_TIME in *. lia. }
  split; [by apply serialize_layout|]. split; [done|]. split; [done|].
  intros u. by apply dateless_refused.
Qed.
