(* ===== verification/SessionMessage.v ===== *)
(** * Messages of a session ([prepareMessage], [validateAndJoinRecords] of
      [src/src/session.ts])

    A plaintext is cut into fixed-size chunks padded with random bytes; each
    chunk travels with its metadata and its Merkle proof.  The receiver checks
    that the records it decrypted are exactly the chunks of one message and
    joins them.

    [fill i] and [noise i] are the random bytes of chunk [i] and of its proof
    field. *)

From Stdlib Require Import String.
From S2P Require Import Prelude Bytes Constants Crypto Ratchet PqRuntime Merkle Metadata WireFrames PqMessageKey ChunkCrypto.
Local Open Scope Z_scope.
Local Open Scope list_scope.

Inductive SessionFailure :=
  | session_destroyed | healing_in_progress | no_sending_chain | no_frames | frame_length | root_length
  | protocol_version | mixed_headers | duplicate_nonce | authentication_failed
  | unsafe_metadata | frame_set | unsupported_metadata | inconsistent_metadata | chunk_range
  | chunk_length | duplicate_chunk | missing_chunk | hash_mismatch
  | snapshot_field | snapshot_remote_key | too_many_skipped | checkpoint_length | skipped_field
  | snapshot_truncated | snapshot_magic | snapshot_version | snapshot_flags | snapshot_suite
  | counter_range_ | duplicate_skipped | trailing_snapshot | snapshot_overflow.
Inductive SessionThrow :=
  | SessionError (what : SessionFailure)
  | SessionRatchet (e : RatchetError)
  | SessionRuntime (e : RuntimeThrow)
  | SessionChunk (e : ChunkError)
  | SessionMerkle (e : MerkleError)
  | SessionMetadata (e : MetadataError).

(** "p2party-session". *)
Definition SESSION_METADATA_NAME : list Z :=
  [112; 50; 112; 97; 114; 116; 121; 45; 115; 101; 115; 115; 105; 111; 110].
Definition MessageType_Unknown : Z := 64.

Record PreparedMessage := { pm_root : bytes; pm_chunks : list bytes; pm_plaintexts : list bytes }.
Record DecryptedRecord := { dr_metadata : Metadata; dr_chunk : bytes }.

(** [Math.max(1, Math.ceil(totalSize / CHUNK_LEN))]. *)
Definition chunk_count (totalSize : Z) : Z := Z.max 1 ((totalSize + CHUNK_LEN - 1) / CHUNK_LEN).
(** [Math.min(CHUNK_LEN, Math.max(0, totalSize - index * CHUNK_LEN))]. *)
Definition useful_length (totalSize index : Z) : Z :=
  Z.min CHUNK_LEN (Z.max 0 (totalSize - index * CHUNK_LEN)).

(** [for (const x of l) out.push(await f(x))]. *)
Fixpoint for_push {E A B} (f : A -> result E B) (l : list A) : result E (list B) :=
  match l with
  | [] => Ok []
  | x :: l' => y ← f x; ys ← for_push f l'; Ok (y :: ys)
  end.

Section Prepare.
Context {HS : Sha512}.

Definition message_chunk (plaintext : bytes) (fill : Z -> bytes) (index : Z) : bytes :=
  let start := index * CHUNK_LEN in
  let usefulLength := useful_length (blen plaintext) index in
  bset (region CHUNK_LEN (fill index)) 0 (slice plaintext start (start + usefulLength)).

Definition message_metadata (contentHash : bytes) (totalSize index : Z) : Metadata :=
  {| md_schemaVersion := 1; md_messageType := MessageType_Unknown; md_hash := contentHash;
     md_totalSize := totalSize; md_date := Some 0; md_name := SESSION_METADATA_NAME;
     md_chunkStartIndex := 0; md_chunkEndIndex := useful_length totalSize index;
     md_chunkIndex := index |}.

Definition prepareMessage (plaintext : bytes) (fill noise : Z -> bytes)
    : result SessionThrow PreparedMessage :=
  let totalSize := blen plaintext in
  let indices := seqZ 0 (chunk_count totalSize) in
  let chunks := message_chunk plaintext fill <$> indices in
  let contentHash := subtle_digest_sha512 plaintext in
  leafHashes ← for_push (fun chunk => map_err SessionMerkle (hashMerkleLeafWasm chunk)) chunks;
  let leaves := mjoin leafHashes in
  root ← map_err SessionMerkle (getMerkleRoot leaves);
  plaintexts ← for_push (fun index =>
    let chunk := message_chunk plaintext fill index in
    leaf ← map_err SessionMerkle (hashMerkleLeafWasm chunk);
    proof ← map_err SessionMerkle (getMerkleProof leaves leaf PROOF_LEN (noise index));
    metadata ← map_err SessionMetadata (serializeMetadata (message_metadata contentHash totalSize index));
    let chunkPlaintext := bset (zeros DECRYPTED_LEN) 0 metadata in
    let chunkPlaintext := bset chunkPlaintext METADATA_LEN proof in
    Ok (bset chunkPlaintext (METADATA_LEN + PROOF_LEN) chunk)) indices;
  Ok {| pm_root := root; pm_chunks := chunks; pm_plaintexts := plaintexts |}.

(** ** Joining *)

Definition isSafeUint (v : Z) : bool := isSafeInteger v && negb (v <? 0).
Definition requireSafeUint (v : Z) : result SessionThrow unit :=
  require (isSafeUint v) (SessionError unsafe_metadata).

Definition check_record (first metadata : Metadata) (expectedChunks : Z) (seen : list Z)
    : result SessionThrow unit :=
  requireSafeUint (md_chunkIndex metadata);;
  requireSafeUint (md_chunkStartIndex metadata);;
  requireSafeUint (md_chunkEndIndex metadata);;
  requireSafeUint (md_totalSize metadata);;
  require ((md_schemaVersion metadata =? 1) && (md_messageType metadata =? MessageType_Unknown)
           && bool_decide (md_name metadata = SESSION_METADATA_NAME)
           && bool_decide (md_date metadata = Some 0)) (SessionError unsupported_metadata);;
  require ((md_totalSize metadata =? md_totalSize first) && bytesEqual (md_hash metadata) (md_hash first))
    (SessionError inconsistent_metadata);;
  require (negb ((expectedChunks <=? md_chunkIndex metadata) || negb (md_chunkStartIndex metadata =? 0)))
    (SessionError chunk_range);;
  require (md_chunkEndIndex metadata =? useful_length (md_totalSize first) (md_chunkIndex metadata))
    (SessionError chunk_length);;
  require (negb (bool_decide (md_chunkIndex metadata ∈ seen))) (SessionError duplicate_chunk).

(** The loop over the records; [byIndex] is the map filled so far. *)
Fixpoint index_records (first : Metadata) (expectedChunks : Z) (byIndex : list (Z * DecryptedRecord))
    (records : list DecryptedRecord) : result SessionThrow (list (Z * DecryptedRecord)) :=
  match records with
  | [] => Ok byIndex
  | record :: rest =>
      check_record first (dr_metadata record) expectedChunks byIndex.*1;;
      index_records first expectedChunks (byIndex ++ [(md_chunkIndex (dr_metadata record), record)]) rest
  end.

Definition get_record (byIndex : list (Z * DecryptedRecord)) (index : Z) : option DecryptedRecord :=
  snd <$> (snd <$> list_find (fun e => e.1 = index) byIndex).

(** The second loop writes the useful bytes of every chunk in its place. *)
Fixpoint join_chunks (byIndex : list (Z * DecryptedRecord)) (indices : list Z) (plaintext : bytes)
    : result SessionThrow bytes :=
  match indices with
  | [] => Ok plaintext
  | index :: rest =>
      match get_record byIndex index with
      | None => Err (SessionError missing_chunk)
      | Some record =>
          join_chunks byIndex rest
            (bset plaintext (index * CHUNK_LEN)
               (slice (dr_chunk record) 0 (md_chunkEndIndex (dr_metadata record))))
      end
  end.

Definition validateAndJoinRecords (records : list DecryptedRecord) : result SessionThrow bytes :=
  match records with
  | [] => Err (SessionError no_frames)
  | record :: _ =>
      let first := dr_metadata record in
      requireSafeUint (md_totalSize first);;
      let expectedChunks := chunk_count (md_totalSize first) in
      require (blen records =? expectedChunks) (SessionError frame_set);;
      byIndex ← index_records first expectedChunks [] records;
      plaintext ← join_chunks byIndex (seqZ 0 expectedChunks) (zeros (md_totalSize first));
      require (bytesEqual (subtle_digest_sha512 plaintext) (md_hash first)) (SessionError hash_mismatch);;
      Ok plaintext
  end.
End Prepare.

(** ** A prepared message joins to its plaintext *)

Section Join.
Context {HS : Sha512} `{!Sha512Correct HS}.
Context (plaintext : bytes) (fill : Z -> bytes).
Let total := blen plaintext.
Let n := chunk_count total.
Let hash := subtle_digest_sha512 plaintext.
Hypothesis Htotal : blen plaintext <= MAX_SAFE_INTEGER.

Definition record_of (index : Z) : DecryptedRecord :=
  {| dr_metadata := message_metadata hash total index; dr_chunk := message_chunk plaintext fill index |}.

Lemma chunk_len : CHUNK_LEN = 61912.
Proof. done. Qed.

Lemma count_bounds t : 0 <= t -> 1 <= chunk_count t /\ t <= chunk_count t * CHUNK_LEN /\
  (chunk_count t - 1) * CHUNK_LEN <= t /\ chunk_count t <= t + 1.
Proof.
  intros Ht. unfold chunk_count. rewrite chunk_len.
  pose proof (Z.div_mod (t + 61912 - 1) 61912 ltac:(lia)).
  pose proof (Z.mod_pos_bound (t + 61912 - 1) 61912 ltac:(lia)). lia.
Qed.

Lemma useful_bounds t i : 0 <= i < chunk_count t -> 0 <= t ->
  0 <= useful_length t i <= CHUNK_LEN /\ i * CHUNK_LEN + useful_length t i <= t /\
  (i + 1 < chunk_count t -> useful_length t i = CHUNK_LEN) /\
  (i + 1 = chunk_count t -> i * CHUNK_LEN + useful_length t i = t).
Proof.
  intros Hi Ht. destruct (count_bounds t Ht) as (H1 & H2 & H3 & _). unfold useful_length. rewrite chunk_len in *. nia.
Qed.

Lemma blen_message_chunk i : 0 <= i < n -> blen (message_chunk plaintext fill i) = CHUNK_LEN.
Proof.
  intros Hi. destruct (useful_bounds total i Hi (blen_nonneg _)) as (Hu & Hs & _).
  unfold message_chunk. fold total. rewrite chunk_len in *.
  unfold total in *. by rewrite blen_bset, blen_region by (rewrite ?blen_region, ?blen_slice by lia; lia).
Qed.

Lemma slice_message_chunk i : 0 <= i < n ->
  slice (message_chunk plaintext fill i) 0 (useful_length total i) =
    slice plaintext (i * CHUNK_LEN) (i * CHUNK_LEN + useful_length total i).
Proof.
  intros Hi. destruct (useful_bounds total i Hi (blen_nonneg _)) as (Hu & Hs & _).
  unfold message_chunk. fold total. rewrite chunk_len in *.
  apply slice_bset_same; rewrite ?blen_region, ?blen_slice; unfold total in *; lia.
Qed.

(** One turn of the second loop. *)
Lemma join_step i : 0 <= i < n ->
  bset (slice plaintext 0 (i * CHUNK_LEN) ++ zeros (total - i * CHUNK_LEN)) (i * CHUNK_LEN)
    (slice plaintext (i * CHUNK_LEN) (i * CHUNK_LEN + useful_length total i))
  = slice plaintext 0 (Z.min total ((i + 1) * CHUNK_LEN)) ++ zeros (total - Z.min total ((i + 1) * CHUNK_LEN)).
Proof.
  intros Hi. destruct (useful_bounds total i Hi (blen_nonneg _)) as (Hu & Hs & H1 & H2).
  assert (i * CHUNK_LEN + useful_length total i = Z.min total ((i + 1) * CHUNK_LEN)) as He.
  { destruct (decide (i + 1 < n)) as [Hlt|Hge].
    - rewrite H1 by done. destruct (count_bounds total (blen_nonneg _)) as (_ & _ & H3 & _).
      rewrite chunk_len in *. unfold n in *. nia.
    - unfold n in *. assert (i + 1 = chunk_count total) by lia. rewrite H2 by done.
      destruct (count_bounds total (blen_nonneg _)) as (_ & H3 & _). rewrite chunk_len in *. nia. }
  rewrite <- He. rewrite chunk_len in *. unfold total in *.
  rewrite bset_append by (rewrite ?blen_slice by lia; lia). rewrite blen_slice by lia.
  rewrite (slice_split plaintext 0 (i * 61912) (i * 61912 + _)) by lia. f_equal. f_equal. lia.
Qed.

Lemma join_all (byIndex : list (Z * DecryptedRecord)) (k : nat) :
  (forall i, 0 <= i < n -> get_record byIndex i = Some (record_of i)) -> forall i, 0 <= i -> i + Z.of_nat k = n ->
  join_chunks byIndex (seqZ i (Z.of_nat k)) (slice plaintext 0 (Z.min total (i * CHUNK_LEN)) ++ zeros (total - Z.min total (i * CHUNK_LEN)))
  = Ok plaintext.
Proof.
  intros Hget. induction k as [|k IH]; intros i Hi Hn.
  - cbn [seqZ Z.of_nat Z.to_nat seq fmap list_fmap join_chunks]. destruct (count_bounds total (blen_nonneg _)) as (_ & H2 & _).
    f_equal. rewrite Z.min_l by (unfold n in *; rewrite chunk_len in *; nia).
    rewrite slice_all by done. rewrite zeros_0 by lia. apply app_nil_r.
  - rewrite seqZ_cons by lia. cbn [join_chunks]. rewrite Hget by lia. cbn [record_of dr_metadata dr_chunk message_metadata md_chunkEndIndex].
    rewrite slice_message_chunk by lia.
    destruct (count_bounds total (blen_nonneg _)) as (_ & _ & H3 & _).
    rewrite (Z.min_r total (i * CHUNK_LEN)) by (unfold n in *; rewrite chunk_len in *; nia).
    rewrite join_step by lia. replace (Z.pred (Z.of_nat (S k))) with (Z.of_nat k) by lia.
    replace (Z.succ i) with (i + 1) by lia. apply IH; lia.
Qed.

Lemma safe_uint v : 0 <= v <= MAX_SAFE_INTEGER -> isSafeUint v = true.
Proof. unfold isSafeUint, isSafeInteger. intros. rewrite andb_true_iff, negb_true_iff, Z.leb_le, Z.ltb_ge. lia. Qed.

Lemma check_record_ok j i seen : 0 <= i < n -> i ∉ seen ->
  check_record (message_metadata hash total j) (message_metadata hash total i) n seen = Ok tt.
Proof.
  intros Hi Hs. destruct (useful_bounds total i Hi (blen_nonneg _)) as (Hu & Hb & _).
  destruct (count_bounds total (blen_nonneg _)) as (_ & _ & _ & H4). rewrite chunk_len in *.
  pose proof (blen_nonneg plaintext). unfold total in *. unfold check_record, requireSafeUint.
  cbn [md_chunkIndex md_chunkStartIndex md_chunkEndIndex md_totalSize message_metadata md_schemaVersion
    md_messageType md_name md_date md_hash].
  assert (i <= MAX_SAFE_INTEGER) by (unfold n in *; unfold chunk_count in Hi; rewrite chunk_len in Hi; unfold MAX_SAFE_INTEGER in *; lia).
  rewrite !safe_uint by lia. rewrite (bool_decide_false (i ∈ seen)) by done.
  rewrite !bool_decide_true by done.
  cbn [Z.eqb Pos.eqb andb require mbind result_bind]. rewrite !Z.eqb_refl, bytesEqual_refl. cbn [andb require mbind result_bind].
  rewrite (proj2 (Z.leb_gt n i)) by lia. cbn [orb negb require mbind result_bind]. done.
Qed.

Lemma index_all j (indices : list Z) : forall byIndex, Forall (fun i => 0 <= i < n) indices ->
  NoDup (byIndex.*1 ++ indices) ->
  index_records (message_metadata hash total j) n byIndex (record_of <$> indices)
    = Ok (byIndex ++ ((fun i => (i, record_of i)) <$> indices)).
Proof.
  induction indices as [|i indices IH]; intros byIndex Hr Hnd; [by rewrite app_nil_r|].
  inversion_clear Hr. cbn [fmap list_fmap index_records record_of dr_metadata].
  rewrite check_record_ok; [|done|].
  - cbn [mbind result_bind]. change (md_chunkIndex (message_metadata hash total i)) with i.
    change (list_fmap _ _ record_of indices) with (record_of <$> indices).
    change {| dr_metadata := message_metadata hash total i; dr_chunk := message_chunk plaintext fill i |}
      with (record_of i). rewrite IH; [by rewrite <- app_assoc|done|].
    rewrite fmap_app. cbn. by rewrite <- app_assoc.
  - intros Hin. apply NoDup_app in Hnd as (_ & Hd & _). apply (Hd i Hin). by left.
Qed.

Lemma get_indexed (indices : list Z) i : i ∈ indices ->
  get_record ((fun i => (i, record_of i)) <$> indices) i = Some (record_of i).
Proof.
  intros Hi. unfold get_record. induction indices as [|x indices IH]; [by apply elem_of_nil in Hi|].
  cbn [fmap list_fmap list_find fst]. case_decide as Hx; [by subst x|].
  apply elem_of_cons in Hi as [->|Hi]; [done|]. specialize (IH Hi).
  change (list_fmap _ _ (fun i : Z => (i, record_of i)) indices) with ((fun i : Z => (i, record_of i)) <$> indices).
  destruct (list_find (fun e : Z * DecryptedRecord => e.1 = i) _) as [[k e]|]; [done|discriminate IH].
Qed.

(** The records of a message, in whatever order, join to its plaintext. *)
Lemma join_permuted (indices : list Z) : indices ≡ₚ seqZ 0 n ->
  validateAndJoinRecords (record_of <$> indices) = Ok plaintext.
Proof.
  intros Hp. destruct (count_bounds total (blen_nonneg _)) as (H1 & _). fold n in H1.
  assert (Forall (fun i => 0 <= i < n) indices) as Hr.
  { apply Forall_forall. intros i Hi. rewrite Hp in Hi. apply elem_of_seqZ in Hi. lia. }
  assert (NoDup indices) as Hnd by (rewrite Hp; apply NoDup_seqZ).
  assert (blen (record_of <$> indices) = n) as Hl.
  { unfold blen. rewrite length_fmap, Hp, length_seqZ. lia. }
  unfold validateAndJoinRecords. destruct indices as [|j indices].
  { cbn in Hl. unfold blen in Hl. cbn in Hl. lia. }
  cbn [fmap list_fmap]. cbn [fmap list_fmap] in Hl. rewrite Hl.
  change (dr_metadata (record_of j)) with (message_metadata hash total j).
  change (md_totalSize (message_metadata hash total j)) with total.
  change (md_hash (message_metadata hash total j)) with hash. fold n.
  unfold requireSafeUint. rewrite safe_uint by (pose proof (blen_nonneg plaintext); unfold total; lia).
  rewrite Z.eqb_refl. cbn [require mbind result_bind].
  pose proof (index_all j (j :: indices) [] Hr Hnd) as Hix. cbn [fmap list_fmap] in Hix.
  rewrite Hix. cbn [app mbind result_bind].
  rewrite <- (Z2Nat.id n) by lia.
  assert (zeros total = slice plaintext 0 (Z.min total (0 * CHUNK_LEN)) ++ zeros (total - Z.min total (0 * CHUNK_LEN))) as ->.
  { rewrite Z.mul_0_l, Z.min_r by apply blen_nonneg. by rewrite Z.sub_0_r. }
  rewrite join_all.
  - cbn [mbind result_bind]. unfold hash. by rewrite bytesEqual_refl.
  - intros i Hi. apply (get_indexed (j :: indices)). rewrite Hp. apply elem_of_seqZ. lia.
  - done.
  - lia.
Qed.
End Join.

(** ** What [prepareMessage] makes *)

Lemma for_push_ok {E A B} (f : A -> result E B) (P : A -> B -> Prop) (l : list A) :
  (forall x, x ∈ l -> exists y, f x = Ok y /\ P x y) ->
  exists ys, for_push f l = Ok ys /\ Forall2 P l ys.
Proof.
  induction l as [|x l IH]; intros H; [by exists []|].
  destruct (H x) as (y & Hy & Hp); [by left|].
  destruct IH as (ys & Hys & Hf); [intros z Hz; apply H; by right|].
  exists (y :: ys). cbn [for_push]. rewrite Hy. cbn [mbind result_bind]. rewrite Hys. split; [done|by constructor].
Qed.

Section PrepareSpec.
Context {HS : Sha512} `{!Sha512Correct HS}.
Implicit Types (plaintext : bytes) (fill noise : Z -> bytes).

Lemma leaf_wasm chunk : hashMerkleLeafWasm chunk = Ok (hashMerkleLeaf chunk).
Proof.
  unfold hashMerkleLeafWasm. rewrite sha512_agree. cbn [Z.eqb negb].
  by rewrite region_id by (by rewrite sha512_length).
Qed.

Definition message_chunks plaintext fill : list bytes :=
  message_chunk plaintext fill <$> seqZ 0 (chunk_count (blen plaintext)).

Lemma blen_chunks plaintext fill : blen (message_chunks plaintext fill) = chunk_count (blen plaintext).
Proof.
  destruct (count_bounds plaintext _ (blen_nonneg plaintext)) as (H & _).
  unfold blen, message_chunks. rewrite length_fmap, length_seqZ. unfold blen in *. lia.
Qed.

Lemma count_small plaintext : blen plaintext <= MAX_SAFE_INTEGER -> chunk_count (blen plaintext) <= 2 ^ 48.
Proof.
  intros H. unfold chunk_count. change CHUNK_LEN with 61912. unfold MAX_SAFE_INTEGER in H.
  apply Z.max_lub; [done|]. apply Z.div_le_upper_bound; lia.
Qed.

(** The metadata of a message survives the wire. *)
Lemma message_metadata_ok plaintext i : blen plaintext <= MAX_SAFE_INTEGER ->
  0 <= i < chunk_count (blen plaintext) ->
  metadata_ok (message_metadata (subtle_digest_sha512 plaintext) (blen plaintext) i).
Proof.
  intros Ht Hi. destruct (useful_bounds plaintext _ i Hi (blen_nonneg plaintext)) as (Hu & Hb & _).
  destruct (count_bounds plaintext _ (blen_nonneg plaintext)) as (_ & _ & _ & H4).
  pose proof (count_small plaintext Ht). change CHUNK_LEN with 61912 in *. pose proof (blen_nonneg plaintext).
  split; cbn; try (unfold MAX_SAFE_INTEGER, MessageType_Unknown in *; lia).
  - apply sha512_length.
  - exists 0. split; [done|]. unfold MAX_TIME. lia.
  - by split.
Qed.

(** The plaintext of chunk [i]. *)
Definition prepared_chunk plaintext fill noise (i : Z) (pt : bytes) : Prop :=
  exists md field, serializeMetadata (message_metadata (subtle_digest_sha512 plaintext) (blen plaintext) i) = Ok md /\
    blen md = METADATA_LEN /\
    getMerkleProof (tree_of (message_chunks plaintext fill)) (hashMerkleLeaf (message_chunk plaintext fill i))
      PROOF_LEN (noise i) = Ok field /\ blen field = PROOF_LEN /\
    pt = md ++ field ++ message_chunk plaintext fill i.

Lemma message_field plaintext fill noise i : blen plaintext <= MAX_SAFE_INTEGER ->
  0 <= i < chunk_count (blen plaintext) ->
  exists field, getMerkleProof (tree_of (message_chunks plaintext fill))
    (hashMerkleLeaf (message_chunk plaintext fill i)) PROOF_LEN (noise i) = Ok field /\ blen field = PROOF_LEN.
Proof.
  intros Ht Hi. set (chunks := message_chunks plaintext fill).
  assert (message_chunk plaintext fill i ∈ chunks) as Hin.
  { apply list_elem_of_fmap_2, elem_of_seqZ. lia. }
  destruct (getMerkleRoot_spec chunks) as (root & _ & Hr); [intros Hn; rewrite Hn in Hin; by apply elem_of_nil in Hin|].
  destruct (getMerkleProof_spec chunks _ root Hin Hr) as (proof & n & _ & Hn & _ & _ & Hk & Hfix).
  assert (n <= 48)%nat as H48.
  { etrans; [apply (Hk 48%nat)|lia]. apply Nat2Z.inj_le. rewrite Nat2Z.inj_pow.
    pose proof (blen_chunks plaintext fill) as Hb. unfold blen in Hb at 1. fold chunks in Hb.
    pose proof (count_small plaintext Ht). lia. }
  change PROOF_LEN with 3124 in *. rewrite Hfix by lia. unfold fixed_proof.
  cbn [Z.leb Z.compare require mbind result_bind]. rewrite (proj2 (Z.leb_le (4 + blen proof) 3124)) by lia.
  eexists. split; [done|]. pose proof (blen_nonneg proof).
  unfold put_u32. rewrite !blen_bset by (rewrite ?blen_bset, ?blen_region, ?blen_be_encode by (rewrite ?blen_region, ?blen_be_encode by lia; lia); lia).
  by rewrite blen_region.
Qed.

Lemma prepare_spec plaintext fill noise : blen plaintext <= MAX_SAFE_INTEGER ->
  exists pm, prepareMessage plaintext fill noise = Ok pm /\
    pm_chunks pm = message_chunks plaintext fill /\
    getMerkleRoot (tree_of (message_chunks plaintext fill)) = Ok (pm_root pm) /\
    Forall2 (prepared_chunk plaintext fill noise) (seqZ 0 (chunk_count (blen plaintext))) (pm_plaintexts pm).
Proof.
  intros Ht. unfold prepareMessage. fold (message_chunks plaintext fill). set (chunks := message_chunks plaintext fill).
  destruct (count_bounds plaintext _ (blen_nonneg plaintext)) as (H1 & _).
  destruct (for_push_ok (fun chunk => map_err SessionMerkle (hashMerkleLeafWasm chunk))
    (fun chunk leaf => leaf = hashMerkleLeaf chunk) chunks) as (leaves & -> & Hl).
  { intros c _. rewrite leaf_wasm. by eexists. }
  assert (leaves = hashMerkleLeaf <$> chunks) as ->.
  { clear -Hl. induction Hl as [|c l cs ls -> _ IH]; [done|]. cbn. by f_equal. }
  cbn [mbind result_bind]. replace (mjoin (hashMerkleLeaf <$> chunks)) with (tree_of chunks); cycle 1.
  { unfold tree_of. generalize (hashMerkleLeaf <$> chunks). intros l. induction l as [|x l IH]; [done|]. cbn. by f_equal. }
  destruct (getMerkleRoot_spec chunks) as (root & Hroot & _).
  { intros Hn. pose proof (blen_chunks plaintext fill) as Hb. fold chunks in Hb. rewrite Hn in Hb. rewrite blen_nil in Hb. lia. }
  rewrite Hroot. cbn [map_err mbind result_bind].
  match goal with |- context [for_push ?f (seqZ 0 _)] =>
    destruct (for_push_ok f (prepared_chunk plaintext fill noise) (seqZ 0 (chunk_count (blen plaintext)))) as (pts & -> & Hp) end.
  - intros i Hi%elem_of_seqZ. rewrite leaf_wasm. cbn [map_err mbind result_bind].
    destruct (message_field plaintext fill noise i Ht ltac:(lia)) as (field & Hf & Hfl). fold chunks in Hf.
    rewrite Hf. cbn [map_err mbind result_bind].
    destruct (metadata_survives _ (message_metadata_ok plaintext i Ht ltac:(lia))) as (md & Hmd & Hml & _).
    rewrite Hmd. cbn [map_err mbind result_bind]. eexists. split; [done|].
    exists md, field. split_and!; try done.
    pose proof (blen_message_chunk plaintext fill i ltac:(lia)) as Hcl.
    change METADATA_LEN with 369 in *. change PROOF_LEN with 3124 in *. change DECRYPTED_LEN with 65405.
    change CHUNK_LEN with 61912 in Hcl.
    rewrite bset_zeros by lia. rewrite !bset_append by (rewrite ?blen_app; lia).
    rewrite zeros_0 by lia. by rewrite app_nil_r, <- app_assoc.
  - cbn [mbind result_bind]. eexists. split; [done|]. done.
Qed.
End PrepareSpec.
