(* ===== verification/Session.v ===== *)
(** * The session of two peers ([Session] of [src/src/session.ts])

    The store-free facade over the Double Ratchet, the chunk frames and the
    healing runtime, for callers with their own transport.  Every method runs
    under the session's mutex, so each is one atomic step of the state.

    [adoptRatchet] moves the buffers of the staged ratchet into the live one;
    the [finally] blocks wipe the staged ratchet when the method throws, which
    after the adoption wipes the live buffers: the model keeps that. *)

From Stdlib Require Import String.
From S2P Require Import Prelude Bytes Constants Crypto X25519 Ratchet RatchetKeys RatchetChain RatchetSession.
From S2P Require Import WireFrames PqMessageKey Merkle ChunkCrypto RoomPolicy MlKem PqRecord PqMachine.
From S2P Require Import PqInvariant PqProtocol PqFrame PqRuntime PqRuntimeInv PqCheckpoint Metadata SessionMessage.
Local Open Scope Z_scope.
Local Open Scope list_scope.

Record Session := MkSession {
  se_state : RatchetState;
  se_pq : SparsePqHealingState;
  se_amInitiator : bool;
  se_destroyed : bool;
}.

(** The caller chooses every field of a message to decrypt. *)
Record EncryptedSessionMessage := { em_protocolVersion : Z; em_root : bytes; em_frames : list bytes }.
Record SessionControlOutput := { co_frame : option bytes; co_requiresPersistBeforeSend : bool }.
Definition NO_CONTROL : SessionControlOutput :=
  {| co_frame := None; co_requiresPersistBeforeSend := false |}.

Abbreviation sess A := (M Session SessionThrow A).
Definition sfail {A} (w : SessionFailure) : sess A := mthrow (SessionError w).
Definition scheck (ok : bool) (w : SessionFailure) : sess unit := mrequire ok (SessionError w).

Definition set_state (st : RatchetState) (s : Session) : Session :=
  MkSession st (se_pq s) (se_amInitiator s) (se_destroyed s).
Definition set_pq (pq : SparsePqHealingState) (s : Session) : Session :=
  MkSession (se_state s) pq (se_amInitiator s) (se_destroyed s).

(** A call of a method of [this.#pq]. *)
Definition on_pq {A} (c : rt A) : sess A := fun s =>
  let '(r, pq) := c (se_pq s) in (map_err SessionRuntime r, set_pq pq s).
Definition session_live : sess unit :=
  this ← get_this; scheck (negb (se_destroyed this)) session_destroyed.

(** [new Map(...)] of the runtime's active receive keys, and publishing. *)
Definition active_keys (s : Session) : skipped_map := st_activeReceiveKeys (se_pq s).
Fixpoint add_missing (staged live : skipped_map) : skipped_map :=
  match staged with
  | [] => live
  | (key, value) :: rest =>
      add_missing rest (match map_get key live with Some _ => live | None => live ++ [(key, value)] end)
  end.
Definition adoptActiveReceiveKeys (staged : skipped_map) : sess unit :=
  this ← get_this;
  modify_this (set_pq (set_keys (add_missing staged (active_keys this)) (se_pq this))).

(** After the adoption, a throw wipes the buffers that the live state took. *)
Definition wipe_on_throw (c : sess unit) : sess unit := fun s =>
  match c s with
  | (Ok tt, s') => (Ok tt, s')
  | (Err e, s') => (Err e, set_state (wipeRatchet (se_state s')) s')
  end.

Definition sameRatchetHeader (left right : RatchetHeader) : bool :=
  (h_N left =? h_N right) && (h_PN left =? h_PN right) && bytesEqual (h_dhPub left) (h_dhPub right).

Section Methods.
Context {C : LibCrypto} {HS : Sha512} {B : MlKemBackend}.

(** ** Getters *)

Definition canEncrypt (this : Session) : bool :=
  negb (se_destroyed this) && bool_decide (is_Some (sendingChainKey (se_state this)))
  && negb (rt_trafficBlocked (se_pq this)).
Definition pqEpoch : sess Z := session_live;; on_pq (assertLive;; on_machine epoch).
Definition healingInProgress (this : Session) : bool :=
  negb (se_destroyed this) && rt_trafficBlocked (se_pq this).

(** ** Encrypting *)

Definition take_adopted (next : RatchetState) : sess unit := fun s =>
  let '(r, live) := adoptRatchet next (se_state s) in (map_err SessionRatchet r, set_state live s).

(** [nonce i] is the nonce of frame [i]. *)
Definition encrypt (plaintext : bytes) (fill noise nonce : Z -> bytes) : sess EncryptedSessionMessage :=
  session_live;;
  this ← get_this;
  scheck (negb (rt_trafficBlocked (se_pq this))) healing_in_progress;;
  scheck (bool_decide (is_Some (sendingChainKey (se_state this)))) no_sending_chain;;
  prepared ← lift (prepareMessage plaintext fill noise);
  let '(r, next) := ratchetEncrypt (cloneRatchet (se_state this)) in
  '(messageKey, header) ← lift (map_err SessionRatchet r);
  pqContext ← on_pq currentMessageContext;
  frames ← lift (for_push (fun '(i, chunk) =>
      map_err SessionChunk (sealChunk messageKey header chunk (pm_root prepared) (Some pqContext) (nonce i)))
    (zip (seqZ 0 (blen (pm_plaintexts prepared))) (pm_plaintexts prepared)));
  take_adopted next;;
  wipe_on_throw (on_pq noteApplicationMessage);;
  mret {| em_protocolVersion := PROTOCOL_VERSION; em_root := pm_root prepared; em_frames := frames |}.

(** ** Decrypting *)

(** The check of every header against the first, and of every nonce against
    those before it. *)
Definition headers_agree (parsed : list ParsedChunkFrame) : bool :=
  match parsed with
  | [] => true
  | first :: rest => forallb (fun p => sameRatchetHeader (pf_header first) (pf_header p)) rest
  end.
Definition nonces_distinct (parsed : list ParsedChunkFrame) : bool :=
  bool_decide (NoDup (pf_nonce <$> parsed)).

(** [(epoch) => this.#pq.resolveMessageContext(epoch)]. *)
Definition resolver_of (pq : SparsePqHealingState) : PqMessageKeyContextResolver := fun e =>
  match fst (resolveMessageContext e pq) with Ok c => Ok c | Err _ => Err tt end.

(** The loop over the frames, on the staged ratchet and keys. *)
Fixpoint open_frames (frames : list bytes) (root : bytes) (resolve : PqMessageKeyContextResolver)
    (entropy : bytes) : M receiver SessionThrow (list DecryptedRecord) :=
  match frames with
  | [] => mret []
  | frame :: rest =>
      result ← (fun st => let '(r, st') := decryptMessageChunk frame root (Some resolve) entropy st in
                  (map_err SessionChunk r, st'));
      match chunk_ok result, decrypted result with
      | true, Some plain =>
          metadata ← lift (map_err SessionMetadata (deserializeMetadata (slice plain 0 METADATA_LEN)));
          records ← open_frames rest root resolve entropy;
          mret ({| dr_metadata := metadata; dr_chunk := slice_from plain (METADATA_LEN + PROOF_LEN) |} :: records)
      | _, _ => mthrow (SessionError authentication_failed)
      end
  end.

(** [entropy] is drawn if the first frame makes the ratchet take a DH step. *)
Definition decrypt (message : EncryptedSessionMessage) (entropy : bytes) : sess bytes :=
  scheck (em_protocolVersion message =? PROTOCOL_VERSION) protocol_version;;
  scheck (blen (em_root message) =? crypto_hash_sha512_BYTES) root_length;;
  scheck (negb (blen (em_frames message) =? 0)) no_frames;;
  scheck (forallb (fun frame => blen frame =? WIRE_CHUNK_FRAME_LEN) (em_frames message)) frame_length;;
  session_live;;
  parsed ← lift (map_err (fun e => SessionChunk (ChunkFrameError e)) (for_push parseChunkFrameHeader (em_frames message)));
  scheck (headers_agree parsed) mixed_headers;;
  scheck (nonces_distinct parsed) duplicate_nonce;;
  this ← get_this;
  let '(opened, staged) := open_frames (em_frames message) (em_root message) (resolver_of (se_pq this)) entropy
      {| ratchet := cloneRatchet (se_state this); cache := active_keys this |} in
  records ← lift opened;
  plaintext ← lift (validateAndJoinRecords records);
  take_adopted (ratchet staged);;
  wipe_on_throw (adoptActiveReceiveKeys (cache staged);; on_pq noteApplicationMessage);;
  mret plaintext.

(** ** Healing *)

Definition prepareHealing (coins nonce : bytes) (now : Z) : sess SessionControlOutput :=
  session_live;;
  due ← on_pq (healingDue now);
  if negb due then mret NO_CONTROL else
  frame ← on_pq (prepareHealingOffer coins nonce now);
  on_pq (markPendingDispatched now);;
  mret {| co_frame := Some frame; co_requiresPersistBeforeSend := true |}.

Definition session_acceptControlFrame (frame coins nonce : bytes) (now : Z) : sess SessionControlOutput :=
  scheck (blen frame =? WIRE_CHUNK_FRAME_LEN) frame_length;;
  session_live;;
  result ← on_pq (acceptControlFrame frame now coins nonce);
  retryAt ← on_pq pendingRetryAt;
  (if cr_changed result && bool_decide (is_Some (cr_dispatch result)) && bool_decide (is_Some retryAt)
   then on_pq (markPendingDispatched now) else mret tt);;
  mret {| co_frame := cr_dispatch result; co_requiresPersistBeforeSend := cr_changed result |}.

Definition pendingControl : sess (option bytes) := session_live;; on_pq copyPendingFrame.

Definition destroy_session : sess unit :=
  this ← get_this;
  if se_destroyed this then mret tt else
  set_this (MkSession (wipeRatchet (se_state this)) (destroy_runtime (se_pq this)) (se_amInitiator this) true).
End Methods.

(** ** What the methods did *)

Lemma for_push_inv {E A D} (f : A -> result E D) (l : list A) ys :
  for_push f l = Ok ys -> Forall2 (fun x y => f x = Ok y) l ys.
Proof.
  revert ys. induction l as [|x l IH]; intros ys H; cbn in H; [apply Ok_inj in H as <-; constructor|].
  binds H. subst ys. constructor; [done|by apply IH].
Qed.
Lemma for_push_runs {E A D} (f : A -> result E D) (l : list A) ys :
  Forall2 (fun x y => f x = Ok y) l ys -> for_push f l = Ok ys.
Proof. induction 1 as [|x y l ys Hx _ IH]; [done|]. cbn. rewrite Hx. cbn. by rewrite IH. Qed.

Section Facts.
Context {C : LibCrypto} `{!HkdfTotal C} {HS : Sha512} {B : MlKemBackend}.
Implicit Types (s : Session) (st : receiver).

Lemma open_frames_keeps frames root resolve e : forall st r st', ratchet_inv (ratchet st) ->
  open_frames frames root resolve e st = (r, st') ->
  ratchet_inv (ratchet st') /\ rootSuite (ratchet st') = rootSuite (ratchet st).
Proof.
  induction frames as [|frame frames IH]; intros st r st' Hi H; [by injection H as <- <-|].
  cbn [open_frames] in H. unfold mbind, M_bind, lift, mret, M_ret in H.
  destruct (decryptMessageChunk frame root (Some resolve) e st) as [res st1] eqn:Hd.
  destruct (frame_keeps _ _ _ _ _ _ _ Hi Hd) as [Hi1 Hs1].
  destruct res as [d|er]; cbn [map_err] in H; [|by injection H as <- <-].
  destruct (chunk_ok d); [|by injection H as <- <-].
  destruct (decrypted d) as [plain|]; [|by injection H as <- <-].
  destruct (map_err SessionMetadata _); [|by injection H as <- <-].
  destruct (open_frames frames root resolve e st1) as [rs st2] eqn:Ho.
  destruct (IH st1 rs st2 Hi1 Ho) as [Hi2 Hs2].
  destruct rs; injection H as <- <-; split; congruence.
Qed.

Lemma take_adopted_runs next s : rootSuite next = rootSuite (se_state s) ->
  take_adopted next s = (Ok tt, set_state next s).
Proof. intros H. unfold take_adopted. by rewrite adopt_same_suite. Qed.

(** Live and able to count one more message. *)
Record usable s : Prop := {
  us_live : se_destroyed s = false;
  us_pq : runtime_inv (se_pq s);
  us_state : ratchet_inv (se_state s);
  us_count : st_messagesSinceHealing (se_pq s) < MAX_SAFE_INTEGER;
}.

(** A throw of [encrypt] or [decrypt] leaves the session as it was. *)
Lemma encrypt_err plaintext fill noise nonce s e s' : usable s ->
  encrypt plaintext fill noise nonce s = (Err e, s') -> s' = s.
Proof.
  intros [Hl Hp Hst Hc] H. unfold encrypt, session_live, scheck, mrequire, mbind, M_bind, get_this, lift in H.
  rewrite Hl in H. cbn [negb require] in H.
  destruct (negb (rt_trafficBlocked (se_pq s))); cbn [require] in H; [|by injection H as _ <-].
  destruct (bool_decide _); cbn [require] in H; [|by injection H as _ <-].
  destruct (prepareMessage plaintext fill noise) as [pm|]; [|by injection H as _ <-].
  rewrite (clone_inv _ Hst) in H.
  destruct (ratchetEncrypt (se_state s)) as [[[mk h]|er] next] eqn:He; cbn [map_err] in H; [|by injection H as _ <-].
  destruct (context_runs _ Hp) as (ctx & Hctx & _). unfold on_pq in H at 1. rewrite Hctx in H. cbn [map_err] in H.
  assert (set_pq (se_pq s) s = s) as Hsame by (by destruct s). rewrite Hsame in H.
  destruct (for_push _ _) as [frames|]; [|by injection H as _ <-].
  assert (rootSuite next = rootSuite (se_state s)) as Hsu.
  { unfold ratchetEncrypt, mbind, M_bind, get_this in He. destruct (sendingChainKey (se_state s)); [|done].
    unfold rlift, lift in He. destruct (kdfCk _) as [[]|]; [|done]. by injection He as _ _ <-. }
  rewrite take_adopted_runs in H by done. unfold wipe_on_throw, on_pq in H. cbn [se_pq set_state] in H.
  rewrite note_runs in H; [done|apply Hp|done].
Qed.

Lemma decrypt_err message e s er s' : usable s -> decrypt message e s = (Err er, s') -> s' = s.
Proof.
  intros [Hl Hp Hst Hc] H.
  unfold decrypt, session_live, scheck, mrequire, mbind, M_bind, get_this, lift in H.
  do 4 (destruct (require _ _) in H; [|by injection H as _ <-]). rewrite Hl in H. cbn [negb require] in H.
  destruct (map_err _ (for_push _ _)) as [parsed|]; [|by injection H as _ <-].
  do 2 (destruct (require _ _) in H; [|by injection H as _ <-]).
  rewrite (clone_inv _ Hst) in H.
  destruct (open_frames _ _ _ _ _) as [opened staged] eqn:Ho.
  destruct (open_frames_keeps _ _ _ _ {| ratchet := se_state s; cache := _ |} _ _ Hst Ho) as [_ Hsu].
  destruct opened as [records|]; [|by injection H as _ <-].
  destruct (validateAndJoinRecords records) as [plain|]; [|by injection H as _ <-].
  rewrite take_adopted_runs in H by done.
  unfold wipe_on_throw, adoptActiveReceiveKeys, on_pq, mbind, M_bind, get_this, modify_this in H.
  cbn [se_pq set_state set_pq] in H. rewrite note_runs in H; [done|apply Hp|done].
Qed.

Lemma encrypt_ok plaintext fill noise nonce s msg s' : usable s ->
  encrypt plaintext fill noise nonce s = (Ok msg, s') ->
  exists pm mk h next ctx frames, prepareMessage plaintext fill noise = Ok pm /\
    rt_trafficBlocked (se_pq s) = false /\
    ratchetEncrypt (se_state s) = (Ok (mk, h), next) /\
    currentMessageContext (se_pq s) = (Ok ctx, se_pq s) /\
    Forall2 (fun '(i, chunk) frame => sealChunk mk h chunk (pm_root pm) (Some ctx) (nonce i) = Ok frame)
      (zip (seqZ 0 (blen (pm_plaintexts pm))) (pm_plaintexts pm)) frames /\
    msg = {| em_protocolVersion := PROTOCOL_VERSION; em_root := pm_root pm; em_frames := frames |} /\
    s' = set_pq (counted (se_pq s)) (set_state next s).
Proof.
  intros [Hl Hp Hst Hc] H. unfold encrypt, session_live, scheck, mrequire, mbind, M_bind, get_this, lift in H.
  rewrite Hl in H. cbn [negb require] in H.
  destruct (rt_trafficBlocked (se_pq s)); cbn [negb require] in H; [done|].
  destruct (bool_decide _); cbn [require] in H; [|done].
  destruct (prepareMessage plaintext fill noise) as [pm|]; [|done].
  rewrite (clone_inv _ Hst) in H.
  destruct (ratchetEncrypt (se_state s)) as [[[mk h]|er] next] eqn:He; cbn [map_err] in H; [|done].
  destruct (context_runs _ Hp) as (ctx & Hctx & _). unfold on_pq in H at 1. rewrite Hctx in H. cbn [map_err] in H.
  assert (set_pq (se_pq s) s = s) as Hsame by (by destruct s). rewrite Hsame in H.
  destruct (for_push _ _) as [frames|] eqn:Hf; [|done].
  assert (rootSuite next = rootSuite (se_state s)) as Hsu.
  { unfold ratchetEncrypt, mbind, M_bind, get_this in He. destruct (sendingChainKey (se_state s)); [|done].
    unfold rlift, lift in He. destruct (kdfCk _) as [[]|]; [|done]. by injection He as _ _ <-. }
  rewrite take_adopted_runs in H by done. unfold wipe_on_throw, on_pq in H. cbn [se_pq set_state] in H.
  rewrite note_runs in H; [|apply Hp|done]. cbn [map_err] in H. injection H as <- <-.
  exists pm, mk, h, next, ctx, frames. split_and!; try done.
  apply for_push_inv in Hf. eapply Forall2_impl; [exact Hf|]. intros [i chunk] frame.
  destruct (sealChunk mk h chunk (pm_root pm) (Some ctx) (nonce i)); cbn; congruence.
Qed.

(** What a successful [decrypt] did. *)
Definition after_decrypt (staged : receiver) s : Session :=
  set_pq (counted (set_keys (add_missing (cache staged) (active_keys s)) (se_pq s)))
    (set_state (ratchet staged) s).

Definition acceptable (message : EncryptedSessionMessage) : Prop :=
  em_protocolVersion message = PROTOCOL_VERSION /\ blen (em_root message) = crypto_hash_sha512_BYTES /\
  em_frames message <> [] /\ Forall (fun frame => blen frame = WIRE_CHUNK_FRAME_LEN) (em_frames message) /\
  exists parsed, for_push parseChunkFrameHeader (em_frames message) = Ok parsed /\
    headers_agree parsed = true /\ nonces_distinct parsed = true.

Lemma decrypt_iff message e s plain s' : usable s ->
  decrypt message e s = (Ok plain, s') <->
  acceptable message /\ exists records staged,
    open_frames (em_frames message) (em_root message) (resolver_of (se_pq s)) e
      {| ratchet := se_state s; cache := active_keys s |} = (Ok records, staged) /\
    validateAndJoinRecords records = Ok plain /\ s' = after_decrypt staged s.
Proof.
  intros [Hl Hp Hst Hc].
  unfold decrypt, session_live, scheck, mrequire, mbind, M_bind, get_this, lift, acceptable.
  rewrite Hl, (clone_inv _ Hst). cbn [negb require].
  destruct (Z.eqb_spec (em_protocolVersion message) PROTOCOL_VERSION); cbn [require]; [|naive_solver].
  destruct (Z.eqb_spec (blen (em_root message)) crypto_hash_sha512_BYTES); cbn [require]; [|naive_solver].
  destruct (em_frames message) as [|f fs] eqn:Hfr; cbn [blen length Z.of_nat Z.eqb negb require]; [naive_solver|].
  destruct (forallb _ (f :: fs)) eqn:Hall; cbn [negb require]; cycle 1.
  { split; [done|]. intros [(_ & _ & _ & Hall' & _) _]. exfalso.
    assert (forallb (fun frame => blen frame =? WIRE_CHUNK_FRAME_LEN) (f :: fs) = true); [|congruence].
    apply forallb_forall. intros x Hx%list_elem_of_In. rewrite Forall_forall in Hall'. by apply Z.eqb_eq, Hall'. }
  assert (Forall (fun frame => blen frame = WIRE_CHUNK_FRAME_LEN) (f :: fs)) as HF.
  { apply Forall_forall. intros x Hx%list_elem_of_In. rewrite forallb_forall in Hall. by apply Z.eqb_eq, Hall. }
  destruct (for_push parseChunkFrameHeader (f :: fs)) as [parsed|]; cbn [map_err]; [|naive_solver].
  destruct (headers_agree parsed) eqn:Hh; cbn [require]; cycle 1.
  { split; [done|]. intros [(_ & _ & _ & _ & ps & [= <-] & ? & _) _]. congruence. }
  destruct (nonces_distinct parsed) eqn:Hn; cbn [require]; cycle 1.
  { split; [done|]. intros [(_ & _ & _ & _ & ps & [= <-] & _ & ?) _]. congruence. }
  destruct (open_frames (f :: fs) _ _ _ _) as [opened staged] eqn:Ho.
  destruct (open_frames_keeps _ _ _ _ {| ratchet := se_state s; cache := _ |} _ _ Hst Ho) as [_ Hsu].
  destruct opened as [records|er]; [|split; [done|by intros [_ (? & ? & [=] & _)]]].
  destruct (validateAndJoinRecords records) as [pl|er] eqn:Hv; cycle 1.
  { split; [done|]. intros [_ (rs & st & [= <- <-] & Hj & _)]. congruence. }
  rewrite take_adopted_runs by done.
  unfold wipe_on_throw, adoptActiveReceiveKeys, on_pq, mbind, M_bind, get_this, modify_this.
  cbn [se_pq set_state set_pq]. rewrite note_runs; [|apply Hp|done]. cbn [map_err].
  split.
  - intros [= <- <-]. split; [|by exists records, staged]. split_and!; try done. by exists parsed.
  - intros [_ (rs & st & [= <- <-] & Hj & ->)]. rewrite Hv in Hj. by apply Ok_inj in Hj as <-.
Qed.

(** ** Theorem *)

(** [encrypt] and [decrypt] are transactions: when one of them throws, be
    it that healing blocks the traffic, that a frame is forged, or that the
    records do not form a message, the session is exactly what it was; no
    ratchet step, receive key or count of the attempt is left. *)
Theorem session_atomic s e s' : usable s ->
  (forall plaintext fill noise nonce, encrypt plaintext fill noise nonce s = (Err e, s') -> s' = s) /\
  (forall message entropy, decrypt message entropy s = (Err e, s') -> s' = s).
Proof. intros Hu. split; intros; [by eapply encrypt_err|by eapply decrypt_err]. Qed.
End Facts.
