(* ===== verification/SessionDelivery.v ===== *)
(** * Delivery between two sessions

    What [encrypt] of one [Session] sealed, [decrypt] of the other gives back,
    whatever the order of the frames; and what the sessions' state becomes. *)

From Stdlib Require Import String.
From stdpp Require Import sorting.
From S2P Require Import Prelude Bytes Constants Crypto X25519 Ratchet RatchetKeys RatchetChain RatchetSession WireFrames.
From S2P Require Import PqMessageKey Merkle ChunkCrypto RoomPolicy MlKem PqRecord PqMachine PqInvariant PqProtocol PqFrame.
From S2P Require Import PqRuntime PqRuntimeInv PqCheckpoint Metadata SessionMessage Session.
Local Open Scope Z_scope.
Local Open Scope list_scope.

(** ** Lists *)

Lemma forall2_pairs {A B D F} (P : A -> B -> Prop) (Q : A * B -> D -> Prop) (R : A * F -> D -> Prop) xs :
  (forall i b d, i ∈ xs -> P i b -> Q (i, b) d -> exists f, R (i, f) d) ->
  forall bs ds, Forall2 P xs bs -> Forall2 Q (zip xs bs) ds ->
  exists ps : list (A * F), ps.*1 = xs /\ Forall2 R ps ds.
Proof.
  intros Hr bs ds HP. revert ds. induction HP as [|i b xs bs Hb HP IH]; intros ds HQ.
  - inversion_clear HQ. by exists [].
  - inversion_clear HQ as [|? d ? ds' Hd HQ']. destruct (Hr i b d) as (f & Hf); [by left|done|done|].
    destruct (IH ltac:(intros; eapply Hr; [by right|done|done]) ds' HQ') as (ps & <- & Hps).
    exists ((i, f) :: ps). split; [done|by constructor].
Qed.

Lemma add_missing_known staged : forall live, (forall k, k ∈ keys staged -> is_Some (map_get k live)) ->
  add_missing staged live = live.
Proof.
  induction staged as [|[k v] staged IH]; intros live H; [done|]. cbn [add_missing].
  destruct (H k) as [v' ->]; [by left|]. apply IH. intros k' Hk'. apply H. by right.
Qed.

Lemma known_key k (m : skipped_map) : k ∈ keys m -> is_Some (map_get k m).
Proof.
  intros Hk. destruct (map_get k m) eqn:Hm; [by eexists|]. by apply map_get_None in Hm.
Qed.

Lemma add_missing_fresh k key (m : skipped_map) : map_get k m = None ->
  add_missing (m ++ [(k, key)]) m = m ++ [(k, key)].
Proof.
  intros Hk. assert (forall pre, (forall k', k' ∈ keys pre -> is_Some (map_get k' m)) ->
    add_missing (pre ++ [(k, key)]) m = m ++ [(k, key)]) as H.
  { induction pre as [|[k' v'] pre IH]; intros Hp; cbn [app add_missing]; [by rewrite Hk|].
    destruct (Hp k') as [x ->]; [by left|]. apply IH. intros k2 H2. apply Hp. by right. }
  apply H. intros k1. apply known_key.
Qed.

(** ** The frames of an encrypted message *)

Section Frames.
Context {C : LibCrypto} `{!AeadCorrect C, !HkdfTotal C} {HS : Sha512} `{!Sha512Correct HS} {B : MlKemBackend}.

(** [f] is chunk [i] of the message. *)
Record carries (plaintext : bytes) (fill nonce : Z -> bytes) (root mk : bytes) (h : RatchetHeader)
    (ctx : PqMessageKeyContext) (i : Z) (f : sent_chunk) : Prop := {
  ca_sealed : sealed_of (message_chunks plaintext fill) root mk h (Some ctx) f;
  ca_nonce : sc_nonce f = nonce i;
  ca_chunk : sc_chunk f = message_chunk plaintext fill i;
  ca_metadata : serializeMetadata (message_metadata (subtle_digest_sha512 plaintext) (blen plaintext) i)
    = Ok (sc_metadata f);
  ca_range : 0 <= i < chunk_count (blen plaintext);
}.

Lemma message_key_length s mk h s' : ratchetEncrypt s = (Ok (mk, h), s') -> blen mk = 32.
Proof.
  unfold ratchetEncrypt, mbind, M_bind, get_this. destruct (sendingChainKey s) as [ck|]; [|done].
  rewrite rlift_kdfCk. cbn. intros [= <- _ _]. unfold message_key, kdfCk.
  destruct (hkdfExtract_total ck MK_INFO) as (k & Hk). rewrite Hk.
  destruct (hkdfExtract_total ck CK_INFO) as (k' & ->). cbn [mbind result_bind].
  apply hkdfExtract_length in Hk. change crypto_auth_hmacsha512_BYTES with 64 in Hk. rewrite blen_slice; lia.
Qed.

Lemma encrypted_frames plaintext fill noise nonce sa msg sa' : usable sa -> blen plaintext <= MAX_SAFE_INTEGER ->
  encrypt plaintext fill noise nonce sa = (Ok msg, sa') ->
  exists mk h next ctx ps, ratchetEncrypt (se_state sa) = (Ok (mk, h), next) /\
    currentMessageContext (se_pq sa) = (Ok ctx, se_pq sa) /\
    sa' = set_pq (counted (se_pq sa)) (set_state next sa) /\
    em_protocolVersion msg = PROTOCOL_VERSION /\
    getMerkleRoot (tree_of (message_chunks plaintext fill)) = Ok (em_root msg) /\
    ps.*1 = seqZ 0 (chunk_count (blen plaintext)) /\ em_frames msg = (fun p => sc_frame p.2) <$> ps /\
    Forall (fun p => carries plaintext fill nonce (em_root msg) mk h ctx p.1 p.2) ps.
Proof.
  intros Hu Ht H.
  destruct (encrypt_ok _ _ _ _ _ _ _ Hu H) as (pm & mk & h & next & ctx & frames & Hpm & _ & He & Hctx & Hf & -> & ->).
  destruct (prepare_spec plaintext fill noise Ht) as (pm' & Hpm' & _ & Hroot & Hp).
  rewrite Hpm in Hpm'. apply Ok_inj in Hpm' as <-.
  assert (blen (pm_plaintexts pm) = chunk_count (blen plaintext)) as Hl.
  { apply Forall2_length in Hp. rewrite length_seqZ in Hp. unfold blen at 1. rewrite <- Hp.
    destruct (count_bounds plaintext _ (blen_nonneg plaintext)). lia. }
  rewrite Hl in Hf.
  pose proof (forall2_pairs (prepared_chunk plaintext fill noise)
    (fun '(i, chunk) frame => sealChunk mk h chunk (pm_root pm) (Some ctx) (nonce i) = Ok frame)
    (fun p frame => sc_frame p.2 = frame /\ carries plaintext fill nonce (pm_root pm) mk h ctx p.1 p.2)
    (seqZ 0 (chunk_count (blen plaintext)))) as Hps.
  destruct (fun Hx => Hps Hx _ _ Hp Hf) as (ps & H1 & H2); clear Hps.
  { intros i pt frame Hi%elem_of_seqZ (md & field & Hmd & Hml & Hfi & Hfl & ->) Hs. cbn in Hs.
    exists {| sc_chunk := message_chunk plaintext fill i; sc_metadata := md; sc_noise := noise i;
      sc_field := field; sc_nonce := nonce i; sc_frame := frame |}. split; [done|].
    split; cbn; [|done|done|done|lia]. split_and!; cbn; try done.
    - apply list_elem_of_fmap_2, elem_of_seqZ. lia.
    - apply blen_message_chunk. lia. }
  exists mk, h, next, ctx, ps. cbn. split_and!; try done.
  - clear -H2. induction H2 as [|p fr ps frs [Hp _] _ IH]; [done|]. cbn. by f_equal.
  - clear -H2. induction H2 as [|p fr ps frs [_ Hp] _ IH]; by constructor.
Qed.

(** The wire form of a sealed chunk. *)
Lemma carried_frame plaintext fill nonce root mk h ctx i f : blen plaintext <= MAX_SAFE_INTEGER ->
  carries plaintext fill nonce root mk h ctx i f ->
  blen (sc_frame f) = WIRE_CHUNK_FRAME_LEN /\
  exists p, parseChunkFrameHeader (sc_frame f) = Ok p /\ pf_header p = h /\ pf_nonce p = nonce i.
Proof.
  intros Ht [(_ & Hc & Hm & Hf & Hseal) Hno Hch Hmd Hi].
  apply sealChunk_ok in Hseal as (key & ct & Hr & Hen & _ & Hh & _ & Hse & Heq).
  split.
  - unfold chunkAeadSeal in Hse. binds Hse. destruct (_encrypt_chachapoly_symmetric _ _ _ _) as [r out].
    destruct (r =? 0); [|done]. apply Ok_inj in Hse. subst ct. rewrite Heq, blen_app, Hh.
    pose proof (blen_nonneg (sc_plaintext f)).
    rewrite blen_region by (change AEAD_TAG_LEN with 16; lia). unfold sc_plaintext. rewrite !blen_app, Hm, Hc.
    destruct (message_field plaintext fill (fun _ => sc_noise f) i Ht Hi) as (field & Hf' & Hfl).
    rewrite <- Hch, Hf in Hf'. apply Ok_inj in Hf' as <-. by rewrite Hfl.
  - eexists. split; [apply parseChunk_iff; rewrite Heq|].
    + instantiate (1 := {| pf_header := h; pf_pqEpoch := _; pf_nonce := _; pf_ciphertext := _ |}).
      cbn [pf_header pf_pqEpoch pf_nonce pf_ciphertext]. split; [exact Hen|reflexivity].
    + done.
Qed.
End Frames.

(** ** Opening the frames of a message *)

Section Open.
Context {C : LibCrypto} `{!AeadCorrect C, !HkdfTotal C} {HS : Sha512} `{!Sha512Correct HS} {B : MlKemBackend}.
Context (plaintext : bytes) (fill nonce : Z -> bytes) (root mk : bytes) (h : RatchetHeader)
  (ctx : PqMessageKeyContext) (resolve : PqMessageKeyContextResolver) (suite : RatchetRootSuite)
  (k : string) (e key : bytes).
Hypothesis (Htotal : blen plaintext <= MAX_SAFE_INTEGER) (Hmk : blen mk = 32)
  (Hroot : getMerkleRoot (tree_of (message_chunks plaintext fill)) = Ok root)
  (Hctx : resolve_context (Some resolve) (ctx_epoch ctx) suite = Some (Some ctx))
  (Hk : messageCacheKey (h_dhPub h) (h_N h) (Some (ctx_epoch ctx)) = Ok k)
  (Hkey : chunk_key mk h (Some ctx) = Ok key).
Abbreviation carried := (fun p => carries plaintext fill nonce root mk h ctx p.1 p.2).
Abbreviation frames_of ps := ((fun p => sc_frame p.2) <$> ps).

Lemma few_chunks : blen (message_chunks plaintext fill) <= 2 ^ 48.
Proof. rewrite blen_chunks. by apply count_small. Qed.

(** The record the receiver makes of chunk [i]. *)
Lemma opened_record i f : carries plaintext fill nonce root mk h ctx i f ->
  deserializeMetadata (slice (opened f) 0 METADATA_LEN)
    = Ok (message_metadata (subtle_digest_sha512 plaintext) (blen plaintext) i) /\
  slice_from (opened f) (METADATA_LEN + PROOF_LEN) = message_chunk plaintext fill i.
Proof.
  intros [(_ & Hc & Hm & Hf & _) _ Hch Hmd Hi].
  destruct (metadata_survives _ (message_metadata_ok plaintext i Htotal Hi)) as (md & Hs & Hl & Hd).
  rewrite Hmd in Hs. apply Ok_inj in Hs as <-.
  destruct (message_field plaintext fill (fun _ => sc_noise f) i Htotal Hi) as (field & Hf' & Hfl).
  rewrite <- Hch, Hf in Hf'. apply Ok_inj in Hf' as <-.
  assert (blen (hashMerkleLeaf (sc_chunk f)) = 64) as Hh by apply sha512_length.
  unfold opened, sc_plaintext. change METADATA_LEN with 369 in *. change PROOF_LEN with 3124 in *.
  change CHUNK_LEN with 61912 in *. split.
  - rewrite slice_bset_other by blen. by rewrite slice_app_l by lia.
  - rewrite <- (slice_to_end _ (369 + 3124) 65405) by (rewrite ?blen_bset by blen; blen).
    rewrite slice_bset_other by blen. rewrite slice_app_r by lia. rewrite slice_app_r by lia.
    rewrite Hch in *. rewrite Hm, Hfl. apply slice_all. lia.
Qed.
Lemma open_step p ps st st1 : carried p ->
  (exists adv, decryptMessageChunk (sc_frame p.2) root (Some resolve) e st = (Ok (delivered p.2 adv), st1)) ->
  (exists st2, open_frames (frames_of ps) root resolve e st1 = (Ok (record_of plaintext fill <$> ps.*1), st2)) ->
  open_frames (frames_of (p :: ps)) root resolve e st =
    (Ok (record_of plaintext fill <$> (p :: ps).*1), (open_frames (frames_of ps) root resolve e st1).2).
Proof.
  intros Hp [adv Hd] [st2 Hs]. destruct p as [i f]. destruct (opened_record i f Hp) as [Hm Hc].
  cbn [fmap list_fmap open_frames fst snd] in *. unfold mbind, M_bind, lift, mret, M_ret.
  rewrite Hd. cbn [map_err delivered chunk_ok decrypted]. rewrite Hm. cbn [map_err]. rewrite Hs, Hc. done.
Qed.

(** With the key cached, every frame opens and nothing changes. *)
Lemma open_cached ps : forall st, Forall carried ps -> rootSuite (ratchet st) = suite ->
  map_get k (cache st) = Some key ->
  open_frames (frames_of ps) root resolve e st = (Ok (record_of plaintext fill <$> ps.*1), st).
Proof.
  induction ps as [|p ps IH]; intros st Hp Hsu Hc; [done|]. inversion_clear Hp as [|? ? Hp1 Hps].
  rewrite (open_step p ps st st); [by rewrite IH|done| |by exists st; apply IH].
  exists false. apply (deliver_next (message_chunks plaintext fill) root mk h (Some ctx) (Some resolve) suite k e key
    few_chunks Hmk Hroot Hctx Hk Hkey); try done. apply Hp1.
Qed.

(** Otherwise the first frame takes the step of the ratchet. *)
Lemma open_fresh p ps st s' : Forall carried (p :: ps) -> ratchet_inv (ratchet st) ->
  rootSuite (ratchet st) = suite -> map_get k (cache st) = None ->
  ratchetDecrypt h e (ratchet st) = (Ok mk, s') ->
  open_frames (frames_of (p :: ps)) root resolve e st =
    (Ok (record_of plaintext fill <$> (p :: ps).*1), {| ratchet := s'; cache := map_set k key (cache st) |}).
Proof.
  intros [Hp1 Hps]%Forall_cons Hi Hsu Hc Hd.
  set (st1 := {| ratchet := s'; cache := map_set k key (cache st) |}).
  assert (open_frames (frames_of ps) root resolve e st1 = (Ok (record_of plaintext fill <$> ps.*1), st1)) as Ho.
  { apply open_cached; cbn; [done| |apply map_get_set_same].
    rewrite <- Hsu. by eapply ratchetDecrypt_suite. }
  rewrite (open_step p ps st st1); [by rewrite Ho|done| |by eexists].
  exists true. apply (deliver_first (message_chunks plaintext fill) root mk h (Some ctx) (Some resolve) suite k e key
    few_chunks Hmk Hroot Hctx Hk Hkey); try done. apply Hp1.
Qed.
End Open.

(** ** What two sessions share *)

(** Both sides are in the same epoch of the same edge. *)
Record same_epoch (sa sb : Session) : Prop := {
  se_root : m_rootKey (st_machine (se_pq sa)) = m_rootKey (st_machine (se_pq sb));
  se_binding : e_binding (st_edge (se_pq sa)) = e_binding (st_edge (se_pq sb));
  se_suite : e_rootSuite (st_edge (se_pq sa)) = e_rootSuite (st_edge (se_pq sb));
  se_epoch : m_epoch (st_machine (se_pq sa)) = m_epoch (st_machine (se_pq sb));
  se_ratchet_suite : rootSuite (se_state sb) = e_rootSuite (st_edge (se_pq sb));
}.

Section Deliver.
Context {C : LibCrypto} `{!AeadCorrect C, !HkdfTotal C} {HS : Sha512} `{!Sha512Correct HS} {B : MlKemBackend}.
Implicit Types (s sa sb : Session).

(** [resolveMessageContext] in the current epoch. *)
Lemma resolver_current sa sb ctx : usable sa -> usable sb -> same_epoch sa sb ->
  currentMessageContext (se_pq sa) = (Ok ctx, se_pq sa) ->
  resolver_of (se_pq sb) (ctx_epoch ctx) = Ok (Some ctx) /\
  ctx_rootSuite ctx = root_suite_string (rootSuite (se_state sb)).
Proof.
  intros Ha Hb [H1 H2 H3 H4 H5] Hctx.
  destruct (context_runs _ (us_pq _ Ha)) as (ca & Hca & A1 & A2 & A3 & A4).
  destruct (context_runs _ (us_pq _ Hb)) as (cb & Hcb & B1 & B2 & B3 & B4).
  rewrite Hctx in Hca. injection Hca as <-.
  assert (cb = ctx) as ->.
  { destruct cb, ctx. cbn in *. congruence. }
  split; [|by rewrite A3, H3, H5].
  unfold resolver_of, resolveMessageContext, assertLive, rcheck, mrequire, mbind, M_bind, get_this, lift.
  rewrite (ri_live _ (us_pq _ Hb)). cbn [negb require].
  destruct (active_reads _ (proj1 (ri_ready _ (us_pq _ Hb)))) as (_ & He & _).
  rewrite (on_machine_runs _ _ _ _ He), set_machine_same, B4, Z.eqb_refl, Hcb. done.
Qed.

Lemma resolved resolve ctx suite mk h key : resolve (ctx_epoch ctx) = Ok (Some ctx) ->
  ctx_rootSuite ctx = root_suite_string suite -> chunk_key mk h (Some ctx) = Ok key ->
  resolve_context (Some resolve) (ctx_epoch ctx) suite = Some (Some ctx).
Proof.
  intros Hr Hs Hk. unfold resolve_context, resolvedContextMatches. rewrite Hr, Z.eqb_refl, bool_decide_true by done.
  destruct (proj1 (derive_message_key_spec mk ctx h)) as [Hf _]. cbn in Hk. rewrite Hk in Hf.
  destruct (Hf eq_refl) as [_ (_ & H1 & H2 & _)].
  rewrite H1, H2. done.
Qed.

(** The frames of a message, in any order, pass the checks of [decrypt]. *)
Lemma frames_acceptable plaintext fill nonce root mk h ctx ps : blen plaintext <= MAX_SAFE_INTEGER ->
  getMerkleRoot (tree_of (message_chunks plaintext fill)) = Ok root -> ps <> [] ->
  Forall (fun p => carries plaintext fill nonce root mk h ctx p.1 p.2) ps -> NoDup (nonce <$> ps.*1) ->
  acceptable {| em_protocolVersion := PROTOCOL_VERSION; em_root := root;
                em_frames := (fun p => sc_frame p.2) <$> ps |}.
Proof.
  intros Ht Hroot Hne Hps Hnd. split; [done|]. split; [by apply blen_root in Hroot|]. split.
  { by destruct ps. }
  split.
  { apply Forall_fmap. eapply Forall_impl; [exact Hps|]. intros p Hp.
    by destruct (carried_frame _ _ _ _ _ _ _ _ _ Ht Hp). }
  assert (exists parsed, Forall2 (fun fr p => parseChunkFrameHeader fr = Ok p)
    ((fun p => sc_frame p.2) <$> ps) parsed /\ Forall (fun p => pf_header p = h) parsed /\
    pf_nonce <$> parsed = nonce <$> ps.*1) as (parsed & H1 & H2 & H3).
  { clear Hne Hnd. induction Hps as [|p ps Hp _ (parsed & H1 & H2 & H3)]; [by exists []|].
    destruct (carried_frame _ _ _ _ _ _ _ _ _ Ht Hp) as (_ & q & Hq & Hh & Hn).
    exists (q :: parsed). cbn. split_and!; [by constructor|by constructor|by f_equal]. }
  exists parsed. split; [by apply for_push_runs|]. split.
  - unfold headers_agree. destruct parsed as [|q qs]; [done|]. inversion_clear H2 as [|? ? Hq Hqs].
    apply forallb_forall. intros x Hx%list_elem_of_In. rewrite Forall_forall in Hqs.
    unfold sameRatchetHeader. by rewrite Hq, (Hqs x Hx), !Z.eqb_refl, bytesEqual_refl.
  - unfold nonces_distinct. apply bool_decide_eq_true. by rewrite H3.
Qed.

(** C3. A message is delivered across two sessions: whatever [encrypt] of one
    side sealed, [decrypt] of the other returns the plaintext, in whatever order
    the transport hands over the frames, when both are in the same healing epoch,
    the receiver's ratchet derives the sender's key for the header and the
    message is new to it.  The receiver has then taken that one ratchet step,
    keeps that one message key and has counted one message. *)
Theorem session_delivers plaintext fill noise nonce sa sb msg sa' mk h next k e st' frames :
  usable sa -> usable sb -> same_epoch sa sb -> blen plaintext <= MAX_SAFE_INTEGER ->
  encrypt plaintext fill noise nonce sa = (Ok msg, sa') ->
  NoDup (nonce <$> seqZ 0 (chunk_count (blen plaintext))) -> frames ≡ₚ em_frames msg ->
  ratchetEncrypt (se_state sa) = (Ok (mk, h), next) ->
  ratchetDecrypt h e (se_state sb) = (Ok mk, st') ->
  messageCacheKey (h_dhPub h) (h_N h) (Some (m_epoch (st_machine (se_pq sb)))) = Ok k ->
  map_get k (active_keys sb) = None ->
  exists key sb', decrypt {| em_protocolVersion := PROTOCOL_VERSION; em_root := em_root msg; em_frames := frames |} e sb
      = (Ok plaintext, sb') /\
    se_state sa' = next /\ se_state sb' = st' /\ active_keys sb' = active_keys sb ++ [(k, key)] /\
    st_messagesSinceHealing (se_pq sb') = st_messagesSinceHealing (se_pq sb) + 1.
Proof.
  intros Ha Hb He Ht Henc Hnd Hperm Hre Hrd Hk Hfresh.
  destruct (encrypted_frames _ _ _ _ _ _ _ Ha Ht Henc)
    as (mk' & h' & next' & ctx & ps & Hre' & Hctx & -> & _ & Hroot & Hidx & Hfr & Hps).
  rewrite Hre in Hre'. injection Hre' as <- <- <-. rewrite Hfr in Hperm.
  apply Permutation_map_inv in Hperm as (qs & -> & Hqp).
  rewrite Hqp in Hps. assert (qs.*1 ≡ₚ seqZ 0 (chunk_count (blen plaintext))) as Hqi by (by rewrite <- Hqp, Hidx).
  destruct qs as [|q qs].
  { apply Permutation_nil in Hqi. destruct (count_bounds plaintext _ (blen_nonneg plaintext)) as [H1 _].
    rewrite seqZ_cons in Hqi by lia. done. }
  pose proof (message_key_length _ _ _ _ Hre) as Hmk.
  destruct (sealed_frame _ _ _ _ _ _ (few_chunks plaintext fill Ht) Hmk Hroot
    (ca_sealed _ _ _ _ _ _ _ _ _ (Forall_inv Hps))) as (key & Hkey & _).
  destruct (resolver_current sa sb ctx Ha Hb He Hctx) as [Hr Hsu].
  pose proof (resolved _ _ _ _ _ _ Hr Hsu Hkey) as Hres.
  assert (ctx_epoch ctx = m_epoch (st_machine (se_pq sb))) as Hep.
  { destruct (context_runs _ (us_pq _ Ha)) as (ca & Hca & _ & _ & _ & A4). rewrite Hctx in Hca.
    injection Hca as <-. rewrite A4. apply He. }
  rewrite <- Hep in Hk. set (staged := {| ratchet := st'; cache := map_set k key (active_keys sb) |}).
  exists key, (after_decrypt staged sb). split.
  - apply decrypt_iff; [done|]. split.
    + eapply frames_acceptable; try done. by rewrite Hqi.
    + exists (record_of plaintext fill <$> (q :: qs).*1), staged. split_and!; [|by apply join_permuted|done].
      cbn [em_frames em_root]. apply (open_fresh plaintext fill nonce _ mk h ctx _ (rootSuite (se_state sb)) k e key
        Ht Hmk Hroot Hres Hk Hkey); try done. apply Hb.
  - split_and!; try done. unfold after_decrypt, active_keys. cbn.
    rewrite map_set_fresh by (by apply map_get_None). by apply add_missing_fresh.
Qed.
End Deliver.

(** * What a session keeps of the messages it has received

    The keys of received messages stay in the active receive keys of the
    healing runtime, which nothing in [Session] retires.  So a message decrypts
    as often as it is presented, and a session that has received more than
    [MAX_ACTIVE_RECEIVE_KEYS] messages can no longer be serialized. *)

(** ** Frames that opened once *)

Section Recorded.
Context {C : LibCrypto} `{!HkdfTotal C} {HS : Sha512} {B : MlKemBackend}.
Implicit Types (st : receiver) (m : skipped_map).

(** Every key known to [m] is known to [m'], with the same value. *)
Definition extends m m' : Prop := forall k v, map_get k m = Some v -> map_get k m' = Some v.
#[export] Instance extends_preorder : PreOrder extends.
Proof. split; [by intros m k v|intros m1 m2 m3 H1 H2 k v H; by apply H2, H1]. Qed.

Lemma extends_set k v m : map_get k m = None -> extends m (map_set k v m).
Proof.
  intros Hk k' v' H. rewrite map_get_set_other; [done|]. intros ->. congruence.
Qed.

Lemma get_add_missing k staged : forall live,
  map_get k (add_missing staged live) = match map_get k live with Some v => Some v | None => map_get k staged end.
Proof.
  induction staged as [|[k' v'] staged IH]; intros live; [cbn; by destruct (map_get k live)|].
  cbn [add_missing]. rewrite IH. destruct (decide (k = k')) as [->|Hne].
  - destruct (map_get k' live) as [v|] eqn:Hl; [by rewrite Hl|].
    rewrite map_get_app by (by apply map_get_None). cbn. by rewrite !decide_True by done.
  - assert (map_get k ((k', v') :: staged) = map_get k staged) as ->.
    { cbn. by rewrite decide_False by congruence. }
    destruct (map_get k' live) as [v|] eqn:Hl; [done|].
    destruct (map_get k live) as [w|] eqn:Hk.
    + assert (map_get k (live ++ [(k', v')]) = Some w) as ->; [|done].
      revert Hk. clear. induction live as [|[k2 v2] live IH]; [done|]. cbn. by case_decide.
    + rewrite map_get_app by (by apply map_get_None). cbn. by rewrite decide_False by congruence.
Qed.

(** [m] holds the key under which [frame] opened to [plain]. *)
Definition recorded (root : bytes) (resolve : PqMessageKeyContextResolver) (suite : RatchetRootSuite)
    m (frame : bytes) (plain : option bytes) : Prop :=
  blen root = crypto_hash_sha512_BYTES /\
  exists p ctx k key, parseChunkFrameHeader frame = Ok p /\
    resolve_context (Some resolve) (pf_pqEpoch p) suite = Some ctx /\
    messageCacheKey (h_dhPub (pf_header p)) (h_N (pf_header p)) (Some (pf_pqEpoch p)) = Ok k /\
    map_get k m = Some key /\ receiveWithKey frame root key = Ok (0, plain).

Lemma recorded_extends root resolve suite m m' frame plain : extends m m' ->
  recorded root resolve suite m frame plain -> recorded root resolve suite m' frame plain.
Proof. intros He (Hr & p & ctx & k & key & ? & ? & ? & ? & ?). split; [done|]. exists p, ctx, k, key. auto 10. Qed.

Lemma recorded_resolver root r1 r2 suite m frame plain : (forall x, r2 x = r1 x) ->
  recorded root r1 suite m frame plain -> recorded root r2 suite m frame plain.
Proof.
  intros Hx (Hr & p & ctx & k & key & Hp & Hc & H). split; [done|]. exists p, ctx, k, key.
  split; [done|]. split; [|done]. revert Hc. unfold resolve_context. by rewrite Hx.
Qed.

Lemma chunk_recorded frame root resolve e st d st' : ratchet_inv (ratchet st) ->
  decryptMessageChunk frame root (Some resolve) e st = (Ok d, st') -> chunk_ok d = true ->
  recorded root resolve (rootSuite (ratchet st)) (cache st') frame (decrypted d) /\ extends (cache st) (cache st').
Proof.
  intros Hi H Hok. cbv beta iota zeta delta [decryptMessageChunk mrequire require lift get_this set_this
    mret M_ret mbind M_bind map_err mthrow] in H.
  destruct (Z.eqb_spec (blen root) crypto_hash_sha512_BYTES) as [Hr|]; [|done].
  destruct (parseChunkFrameHeader frame) as [p|] eqn:Hp; [|done].
  destruct (resolve_context _ _ _) as [ctx|] eqn:Hc; [|by injection H as <- <-].
  destruct (messageCacheKey _ _ _) as [k|] eqn:Hk; [|done].
  destruct (map_get k (cache st)) as [key|] eqn:Hg.
  - destruct (receiveWithKey frame root key) as [[code dec]|] eqn:Hw; [|done]. injection H as <- <-.
    cbn in Hok |- *. apply Z.eqb_eq in Hok as ->. split; [|reflexivity].
    split; [done|]. by exists p, ctx, k, key.
  - rewrite (clone_inv _ Hi) in H.
    destruct (derive_on_clone _ _ _ _) as [[key|] s'] eqn:Hd; [|by injection H as <- <-].
    destruct (receiveWithKey frame root key) as [[code dec]|] eqn:Hw; [|done].
    destruct (code =? -2); [by injection H as <- <-|].
    rewrite adopt_same_suite in H by (by eapply derive_suite). injection H as <- <-.
    cbn in Hok |- *. apply Z.eqb_eq in Hok as ->. split; [|by apply extends_set].
    split; [done|]. exists p, ctx, k, key. by rewrite map_get_set_same.
Qed.

(** A recorded frame opens again and changes nothing. *)
Lemma recorded_opens frame root resolve e st plain :
  recorded root resolve (rootSuite (ratchet st)) (cache st) frame plain ->
  decryptMessageChunk frame root (Some resolve) e st =
    (Ok {| decrypted := plain; chunk_ok := true; stateAdvanced := false |}, st).
Proof.
  intros (Hr & p & ctx & k & key & Hp & Hc & Hk & Hg & Hw).
  cbv beta iota zeta delta [decryptMessageChunk mrequire require lift get_this set_this
    mret M_ret mbind M_bind map_err mthrow].
  by rewrite Hr, Z.eqb_refl, Hp, Hc, Hk, Hg, Hw.
Qed.

Lemma open_frames_recorded frames root resolve e : forall st records st', ratchet_inv (ratchet st) ->
  open_frames frames root resolve e st = (Ok records, st') ->
  extends (cache st) (cache st') /\
  forall resolve2 e2 st2, (forall x, resolve2 x = resolve x) ->
    rootSuite (ratchet st2) = rootSuite (ratchet st) -> extends (cache st') (cache st2) ->
    open_frames frames root resolve2 e2 st2 = (Ok records, st2).
Proof.
  induction frames as [|frame frames IH]; intros st records st' Hi H.
  { injection H as <- <-. split; [reflexivity|done]. }
  cbn [open_frames] in H. unfold mbind, M_bind, lift, mret, M_ret, mthrow in H.
  destruct (decryptMessageChunk frame root (Some resolve) e st) as [[d|er] st1] eqn:Hd; [|done]. cbn [map_err] in H.
  destruct (chunk_ok d) eqn:Hok; [|done]. destruct (decrypted d) as [plain|] eqn:Hpl; [|done].
  destruct (map_err SessionMetadata _) as [md|] eqn:Hm; [|done].
  destruct (open_frames frames root resolve e st1) as [[rs|] st3] eqn:Ho; [|done]. injection H as <- <-.
  destruct (frame_keeps _ _ _ _ _ _ _ Hi Hd) as [Hi1 Hs1].
  destruct (chunk_recorded _ _ _ _ _ _ _ Hi Hd Hok) as [Hrec Hext].
  destruct (IH _ _ _ Hi1 Ho) as [Hext2 Hagain]. split; [by etrans|].
  intros resolve2 e2 st2 Hx Hs2 Hx2. cbn [open_frames]. unfold mbind, M_bind, lift, mret, M_ret.
  rewrite (recorded_opens frame root resolve2 e2 st2 (decrypted d)).
  - cbn [map_err chunk_ok decrypted]. rewrite Hpl, Hm. rewrite Hagain; [done|done|congruence|done].
  - rewrite Hs2. eapply recorded_resolver; [exact Hx|]. eapply recorded_extends; [|exact Hrec]. by etrans.
Qed.

(** ** The session after a message *)

(** The resolver of a live runtime. *)
Lemma resolver_is pq ctx e : runtime_inv pq -> currentMessageContext pq = (Ok ctx, pq) ->
  resolver_of pq e = Ok (if e =? m_epoch (st_machine pq) then Some ctx else None).
Proof.
  intros Hi Hc.
  unfold resolver_of, resolveMessageContext, assertLive, rcheck, mrequire, mbind, M_bind, get_this, lift.
  rewrite (ri_live _ Hi). cbn [negb require].
  destruct (active_reads _ (proj1 (ri_ready _ Hi))) as (_ & He & _).
  rewrite (on_machine_runs _ _ _ _ He), set_machine_same. by destruct (e =? m_epoch (st_machine pq)); [rewrite Hc|].
Qed.

Lemma resolver_kept pq ks e : runtime_inv pq -> st_messagesSinceHealing pq < MAX_SAFE_INTEGER ->
  resolver_of (counted (set_keys ks pq)) e = resolver_of pq e.
Proof.
  intros Hi Hc. assert (runtime_inv (counted (set_keys ks pq))) as Hi2.
  { apply counted_inv; [by apply inv_set_keys|done]. }
  destruct (context_runs _ Hi) as (c1 & H1 & A1 & A2 & A3 & A4).
  destruct (context_runs _ Hi2) as (c2 & H2 & B1 & B2 & B3 & B4). cbn in B1, B2, B3, B4.
  rewrite (resolver_is _ _ _ Hi H1), (resolver_is _ _ _ Hi2 H2). cbn.
  assert (c2 = c1) as -> by (destruct c1, c2; cbn in *; congruence). done.
Qed.

(** After a message the session is usable again, until the counter is full. *)
Lemma after_decrypt_usable message e s plain s' : usable s ->
  st_messagesSinceHealing (se_pq s) + 1 < MAX_SAFE_INTEGER ->
  decrypt message e s = (Ok plain, s') -> usable s'.
Proof.
  intros Hu Hc (_ & records & staged & Ho & _ & ->)%decrypt_iff; [|done].
  destruct (open_frames_keeps _ _ _ _ _ _ _ (us_state _ Hu : ratchet_inv (ratchet {| ratchet := se_state s; cache := active_keys s |})) Ho) as [Hi _].
  split; [apply Hu| |exact Hi|exact Hc].
  apply counted_inv; [apply inv_set_keys, Hu|]. cbn. lia.
Qed.

(** ** Theorems *)

(** Replays are not rejected: whatever message a session has decrypted, it
    decrypts again when the message is presented again, to the same plaintext,
    as often as it is presented while the healing epoch lasts.  Neither the
    ratchet nor the key store changes; only the message counter goes up. *)
Theorem replayed_message_accepted message e e2 s plain s' : usable s ->
  st_messagesSinceHealing (se_pq s) + 1 < MAX_SAFE_INTEGER ->
  decrypt message e s = (Ok plain, s') ->
  exists s2, decrypt message e2 s' = (Ok plain, s2) /\
    se_state s2 = se_state s' /\ active_keys s2 = active_keys s'.
Proof.
  intros Hu Hc Hd. pose proof (after_decrypt_usable _ _ _ _ _ Hu Hc Hd) as Hu'.
  apply decrypt_iff in Hd as (Hacc & records & staged & Ho & Hj & ->); [|done].
  destruct (open_frames_recorded _ _ _ _ _ _ _
    (us_state _ Hu : ratchet_inv (ratchet {| ratchet := se_state s; cache := active_keys s |})) Ho) as [Hext Hagain].
  destruct (open_frames_keeps _ _ _ _ _ _ _
    (us_state _ Hu : ratchet_inv (ratchet {| ratchet := se_state s; cache := active_keys s |})) Ho) as [_ Hsu].
  exists (after_decrypt {| ratchet := ratchet staged; cache := active_keys (after_decrypt staged s) |}
            (after_decrypt staged s)). split; [|split; [done|]].
  - apply decrypt_iff; [done|]. split; [done|]. exists records. eexists. split_and!; [|done|done].
    apply Hagain; [|exact Hsu|].
    + intros x. apply resolver_kept; [apply Hu|]. lia.
    + intros k v Hk. cbn. rewrite get_add_missing. destruct (map_get k (active_keys s)) as [w|] eqn:Hw; [|done].
      apply Hext in Hw. cbn in Hw. congruence.
  - unfold after_decrypt, active_keys. cbn. apply add_missing_known. intros k. apply known_key.
Qed.

End Recorded.
