(* ===== verification/SessionSnapshot.v ===== *)
(** * Snapshots of a session ([encodeSessionSnapshot], [decodeSessionSnapshot]
      and [restoreSession] of [src/src/session.ts])

    A snapshot is one buffer: a fixed prefix with the ratchet's counters and
    keys, the skipped message keys, and the checkpoint of the healing runtime.
    The encoder fills a buffer whose size it has computed before; the decoder
    is modelled on the bytes that are left. *)

From Stdlib Require Import String.
From S2P Require Import Prelude Bytes Constants Crypto X25519 Ratchet RatchetKeys RatchetChain RatchetSession WireFrames.
From S2P Require Import PqMessageKey Merkle ChunkCrypto RoomPolicy MlKem PqRecord PqMachine PqInvariant PqProtocol PqFrame.
From S2P Require Import PqRuntime PqRuntimeInv PqCheckpoint Metadata SessionMessage Session.
Local Open Scope Z_scope.
Local Open Scope list_scope.

Definition SESSION_SNAPSHOT_VERSION : Z := 4.
(** "P2PSESS\0". *)
Definition SESSION_MAGIC : bytes := byte_of <$> [80; 50; 80; 83; 69; 83; 83; 0].
Definition SNAPSHOT_FLAG_SENDING_CHAIN : Z := 1.
Definition SNAPSHOT_FLAG_RECEIVING_CHAIN : Z := 2.
Definition SNAPSHOT_FLAG_REMOTE_DH : Z := 4.
Definition SNAPSHOT_FLAG_INITIATOR : Z := 8.
Definition SNAPSHOT_KNOWN_FLAGS : Z :=
  Z.lor (Z.lor (Z.lor SNAPSHOT_FLAG_SENDING_CHAIN SNAPSHOT_FLAG_RECEIVING_CHAIN) SNAPSHOT_FLAG_REMOTE_DH)
    SNAPSHOT_FLAG_INITIATOR.
Definition SNAPSHOT_PQ_CHECKPOINT_LENGTH_BYTES : Z := 4.
Definition SNAPSHOT_MAX_PQ_CHECKPOINT_BYTES : Z := 256 * 1024.
Definition SNAPSHOT_FIXED_PREFIX_LEN : Z := blen SESSION_MAGIC + 4 + 3 * 8 + 32 + 32 + 32 + 2.
Definition SNAPSHOT_SKIPPED_ENTRY_LEN : Z := 32 + 8 + 32.

Definition snapshotSuiteTag (suite : RatchetRootSuite) : Z :=
  match suite with MLKEM768 => 3 | MLKEM512 => 4 | MLKEM1024 => 5 end.
Definition snapshotTagRootSuite (tag : Z) : result SessionThrow RatchetRootSuite :=
  if tag =? 3 then Ok MLKEM768 else if tag =? 4 then Ok MLKEM512
  else if tag =? 5 then Ok MLKEM1024 else Err (SessionError snapshot_suite).

Definition present {A} (o : option A) : bool := match o with Some _ => true | None => false end.

(** ** Encoding *)

Definition field_length (value : bytes) (length : Z) : result SessionThrow unit :=
  require (blen value =? length) (SessionError snapshot_field).
Definition optional_length (value : option bytes) (length : Z) : result SessionThrow unit :=
  match value with Some v => field_length v length | None => Ok tt end.

Definition validateSnapshotState (state : RatchetState) : result SessionThrow unit :=
  field_length (rootKey state) 32;;
  field_length (dhSelfPub state) 32;;
  field_length (dhSelfSec state) 32;;
  optional_length (sendingChainKey state) 32;;
  optional_length (receivingChainKey state) 32;;
  optional_length (dhRemotePub state) 32;;
  requireSafeUint (Ns state);;
  requireSafeUint (Nr state);;
  requireSafeUint (PN state);;
  require (negb ((present (sendingChainKey state) || present (receivingChainKey state)
                  || (0 <? blen (skipped state))) && negb (present (dhRemotePub state))))
    (SessionError snapshot_remote_key);;
  require (negb (MAX_SKIP_SESSION <? blen (skipped state))) (SessionError too_many_skipped).

(** [output] and [offset]. *)
Abbreviation emitter := (M (bytes * Z) SessionThrow unit).
(** [output.set(v, offset); offset += v.length], which throws past the end. *)
Definition put (v : bytes) : emitter := fun '(output, offset) =>
  if offset + blen v <=? blen output then (Ok tt, (bset output offset v, offset + blen v))
  else (Err (SessionError snapshot_overflow), (output, offset)).
Definition put_byte (v : Z) : emitter := put [byte_of v].
Definition writeU64 (v : Z) : emitter := lift (requireSafeUint v);; put (be_encode 8 v).
Definition put_optional (v : option bytes) : emitter :=
  match v with Some v => put v | None => mret tt end.

(** [sk_n] is [None] for [NaN]. *)
Definition put_skipped (entry : SkippedMessageKey) : emitter :=
  lift (field_length (sk_dhPub entry) 32);;
  lift (field_length (sk_messageKey entry) 32);;
  put (sk_dhPub entry);;
  match sk_n entry with Some n => writeU64 n | None => mthrow (SessionError unsafe_metadata) end;;
  put (sk_messageKey entry).
Fixpoint put_all_skipped (entries : list SkippedMessageKey) : emitter :=
  match entries with [] => mret tt | entry :: rest => put_skipped entry;; put_all_skipped rest end.

Definition snapshot_flags_of (serialized : RatchetSessionSecrets) (amInitiator : bool) : Z :=
  Z.lor (Z.lor (Z.lor (if present (ss_sendingChainKey serialized) then SNAPSHOT_FLAG_SENDING_CHAIN else 0)
                      (if present (ss_receivingChainKey serialized) then SNAPSHOT_FLAG_RECEIVING_CHAIN else 0))
               (if present (ss_dhRemotePub serialized) then SNAPSHOT_FLAG_REMOTE_DH else 0))
    (if amInitiator then SNAPSHOT_FLAG_INITIATOR else 0).

Definition write_snapshot (serialized : RatchetSessionSecrets) (pqCheckpoint : bytes) (amInitiator : bool) : emitter :=
  put SESSION_MAGIC;;
  put_byte SESSION_SNAPSHOT_VERSION;;
  put_byte PROTOCOL_VERSION;;
  put_byte (snapshot_flags_of serialized amInitiator);;
  put_byte (snapshotSuiteTag (ss_rootSuite serialized));;
  writeU64 (ss_Ns serialized);;
  writeU64 (ss_Nr serialized);;
  writeU64 (ss_PN serialized);;
  put (ss_rootKey serialized);;
  put_optional (ss_sendingChainKey serialized);;
  put_optional (ss_receivingChainKey serialized);;
  put (ss_dhSelfPub serialized);;
  put (ss_dhSelfSec serialized);;
  put_optional (ss_dhRemotePub serialized);;
  put (be_encode 2 (blen (ss_skippedMessageKeys serialized)));;
  put_all_skipped (ss_skippedMessageKeys serialized);;
  put (be_encode 4 (blen pqCheckpoint));;
  put pqCheckpoint.

Definition optional_count (serialized : RatchetSessionSecrets) : Z :=
  (if present (ss_sendingChainKey serialized) then 1 else 0) + (if present (ss_receivingChainKey serialized) then 1 else 0)
  + (if present (ss_dhRemotePub serialized) then 1 else 0).

Definition snapshot_buffer (serialized : RatchetSessionSecrets) (pqCheckpoint : bytes) (amInitiator : bool)
    : result SessionThrow bytes :=
  let output := zeros (SNAPSHOT_FIXED_PREFIX_LEN + optional_count serialized * 32
    + blen (ss_skippedMessageKeys serialized) * SNAPSHOT_SKIPPED_ENTRY_LEN
    + SNAPSHOT_PQ_CHECKPOINT_LENGTH_BYTES + blen pqCheckpoint) in
  match write_snapshot serialized pqCheckpoint amInitiator (output, 0) with
  | (Ok _, (output, _)) => Ok output
  | (Err e, _) => Err e
  end.

Section Encode.
Context {C : LibCrypto} {B : MlKemBackend}.
Definition encodeSessionSnapshot (state : RatchetState) (amInitiator : bool) : sess bytes :=
  lift (validateSnapshotState state);;
  this ← get_this;
  pqCheckpoint ← on_pq (serialize (active_keys this));
  scheck (negb ((blen pqCheckpoint =? 0) || (SNAPSHOT_MAX_PQ_CHECKPOINT_BYTES <? blen pqCheckpoint)))
    checkpoint_length;;
  lift (snapshot_buffer (serializeRatchet state) pqCheckpoint amInitiator).

Definition session_serialize : sess bytes :=
  session_live;;
  this ← get_this;
  encodeSessionSnapshot (se_state this) (se_amInitiator this).
End Encode.

(** ** Decoding *)

(** [bytes.subarray(offset)]. *)
Abbreviation sreader A := (M bytes SessionThrow A).
Definition sr_check (ok : bool) (w : SessionFailure) : sreader unit := mrequire ok (SessionError w).
Definition take_bytes (length : Z) : sreader bytes :=
  rest ← get_this;
  sr_check (isSafeUint length && negb (blen rest <? length)) snapshot_truncated;;
  set_this (slice_from rest length);;
  mret (slice rest 0 length).
Definition take_byte : sreader Z := b ← take_bytes 1; mret (be_decode b).
Definition take_u64 : sreader Z :=
  b ← take_bytes 8;
  sr_check (negb (MAX_SAFE_INTEGER <? be_decode b)) counter_range_;;
  mret (be_decode b).
Definition take_if (present : bool) : sreader (option bytes) :=
  if present then v ← take_bytes 32; mret (Some v) else mret None.

(** [seen] and [skippedMessageKeys] so far. *)
Fixpoint take_skipped (count : nat) (seen : list string) (entries : list SkippedMessageKey)
    : sreader (list SkippedMessageKey) :=
  match count with
  | O => mret entries
  | S count' =>
      dhPub ← take_bytes 32;
      n ← take_u64;
      messageKey ← take_bytes 32;
      let key := skip_key dhPub n in
      sr_check (negb (bool_decide (key ∈ seen))) duplicate_skipped;;
      take_skipped count' (seen ++ [key])
        (entries ++ [{| sk_dhPub := dhPub; sk_n := Some n; sk_messageKey := messageKey |}])
  end.

Record DecodedSessionSnapshot := {
  de_state : RatchetState; de_pqCheckpoint : bytes; de_amInitiator : bool }.

Definition flag_set (flags flag : Z) : bool := negb (Z.land flags flag =? 0).

(** The part before the skipped keys; [ss_skippedMessageKeys] is filled later. *)
Definition take_prefix : sreader (RatchetSessionSecrets * bool) :=
  magic ← take_bytes (blen SESSION_MAGIC);
  sr_check (bytesEqual magic SESSION_MAGIC) snapshot_magic;;
  version ← take_byte;
  sr_check (version =? SESSION_SNAPSHOT_VERSION) snapshot_version;;
  protocol ← take_byte;
  sr_check (protocol =? PROTOCOL_VERSION) protocol_version;;
  flags ← take_byte;
  sr_check (Z.land flags (Z.lnot SNAPSHOT_KNOWN_FLAGS) =? 0) snapshot_flags;;
  tag ← take_byte;
  rootSuite ← lift (snapshotTagRootSuite tag);
  Ns ← take_u64;
  Nr ← take_u64;
  PN ← take_u64;
  rootKey ← take_bytes 32;
  sendingChainKey ← take_if (flag_set flags SNAPSHOT_FLAG_SENDING_CHAIN);
  receivingChainKey ← take_if (flag_set flags SNAPSHOT_FLAG_RECEIVING_CHAIN);
  dhSelfPub ← take_bytes 32;
  dhSelfSec ← take_bytes 32;
  dhRemotePub ← take_if (flag_set flags SNAPSHOT_FLAG_REMOTE_DH);
  sr_check (negb ((present sendingChainKey || present receivingChainKey) && negb (present dhRemotePub)))
    snapshot_remote_key;;
  mret ({| ss_rootSuite := rootSuite; ss_rootKey := rootKey; ss_sendingChainKey := sendingChainKey;
           ss_receivingChainKey := receivingChainKey; ss_dhSelfPub := dhSelfPub; ss_dhSelfSec := dhSelfSec;
           ss_dhRemotePub := dhRemotePub; ss_Ns := Ns; ss_Nr := Nr; ss_PN := PN; ss_skippedMessageKeys := [] |},
        flag_set flags SNAPSHOT_FLAG_INITIATOR).

Definition with_skipped_keys (s : RatchetSessionSecrets) (entries : list SkippedMessageKey) : RatchetSessionSecrets :=
  {| ss_rootSuite := ss_rootSuite s; ss_rootKey := ss_rootKey s; ss_sendingChainKey := ss_sendingChainKey s;
     ss_receivingChainKey := ss_receivingChainKey s; ss_dhSelfPub := ss_dhSelfPub s;
     ss_dhSelfSec := ss_dhSelfSec s; ss_dhRemotePub := ss_dhRemotePub s; ss_Ns := ss_Ns s; ss_Nr := ss_Nr s;
     ss_PN := ss_PN s; ss_skippedMessageKeys := entries |}.

Definition take_snapshot : sreader DecodedSessionSnapshot :=
  '(fields, amInitiator) ← take_prefix;
  count ← take_bytes 2;
  let skippedCount := be_decode count in
  sr_check (negb (MAX_SKIP_SESSION <? skippedCount)) too_many_skipped;;
  sr_check (negb (negb (present (ss_dhRemotePub fields)) && (0 <? skippedCount))) snapshot_remote_key;;
  rest ← get_this;
  sr_check (negb (blen rest <? skippedCount * SNAPSHOT_SKIPPED_ENTRY_LEN + SNAPSHOT_PQ_CHECKPOINT_LENGTH_BYTES))
    snapshot_truncated;;
  entries ← take_skipped (Z.to_nat skippedCount) [] [];
  length ← take_bytes SNAPSHOT_PQ_CHECKPOINT_LENGTH_BYTES;
  let pqCheckpointLength := be_decode length in
  sr_check (negb ((pqCheckpointLength =? 0) || (SNAPSHOT_MAX_PQ_CHECKPOINT_BYTES <? pqCheckpointLength)))
    checkpoint_length;;
  rest ← get_this;
  sr_check (blen rest =? pqCheckpointLength) trailing_snapshot;;
  pqCheckpoint ← take_bytes pqCheckpointLength;
  mret {| de_state := deserializeRatchet (with_skipped_keys fields entries); de_pqCheckpoint := pqCheckpoint;
          de_amInitiator := amInitiator |}.

Definition decodeSessionSnapshot (snapshot : bytes) : result SessionThrow DecodedSessionSnapshot :=
  fst (take_snapshot snapshot).

Definition restoreSession {C : LibCrypto} {B : MlKemBackend} (snapshot : bytes) : result SessionThrow Session :=
  decoded ← decodeSessionSnapshot snapshot;
  expectedBinding ← map_err SessionRuntime (readCheckpointBinding (de_pqCheckpoint decoded));
  pq ← map_err SessionRuntime (restore_runtime (de_pqCheckpoint decoded)
    (rootSuiteToRoomPqMode (rootSuite (de_state decoded))) (rootSuite (de_state decoded)) expectedBinding
    (de_amInitiator decoded));
  Ok (MkSession (de_state decoded) pq (de_amInitiator decoded) false).

(** ** Writing *)

Lemma emitted_app (pre enc : bytes) k : blen enc <= k ->
  bset (pre ++ zeros k) (blen pre) enc = (pre ++ enc) ++ zeros (k - blen enc).
Proof. intros H. by rewrite bset_append. Qed.

(** As long as there is room, [w] writes [enc] at the offset. *)
Definition emits (w : emitter) (enc : bytes) : Prop := forall pre k, blen enc <= k ->
  w (pre ++ zeros k, blen pre) = (Ok tt, ((pre ++ enc) ++ zeros (k - blen enc), blen (pre ++ enc))).

Lemma emits_put v : emits (put v) v.
Proof.
  intros pre k H. pose proof (blen_nonneg v). unfold put. rewrite emitted_app by done.
  rewrite !blen_app, blen_zeros by lia. by rewrite (proj2 (Z.leb_le _ _)) by lia.
Qed.
Lemma emits_ret : emits (mret tt) [].
Proof. intros pre k H. rewrite blen_nil, Z.sub_0_r, !app_nil_r. done. Qed.
Lemma emits_bind (w1 w2 : emitter) e1 e2 : emits w1 e1 -> emits w2 e2 -> emits (w1;; w2) (e1 ++ e2).
Proof.
  intros H1 H2 pre k H. rewrite blen_app in H. pose proof (blen_nonneg e1). pose proof (blen_nonneg e2).
  unfold mbind, M_bind. rewrite H1 by lia. rewrite H2 by lia.
  rewrite (blen_app e1 e2), !app_assoc, Z.sub_add_distr. done.
Qed.
Lemma emits_lift r (w : emitter) enc : r = Ok tt -> emits w enc -> emits (lift r;; w) enc.
Proof. by intros -> H. Qed.
Lemma emits_u64 v : 0 <= v <= MAX_SAFE_INTEGER -> emits (writeU64 v) (be_encode 8 v).
Proof. intros H. apply emits_lift; [|apply emits_put]. unfold requireSafeUint. by rewrite (safe_uint []). Qed.
Lemma emits_optional o : emits (put_optional o) (default [] o).
Proof. destruct o; [apply emits_put|apply emits_ret]. Qed.

(** The fields a snapshot can hold. *)
Definition skipped_entry_ok (entry : SkippedMessageKey) : Prop :=
  blen (sk_dhPub entry) = 32 /\ blen (sk_messageKey entry) = 32 /\
  exists n, sk_n entry = Some n /\ 0 <= n <= MAX_SAFE_INTEGER.
Definition sized (length : Z) (o : option bytes) : Prop := forall v, o = Some v -> blen v = length.
Record secrets_ok (s : RatchetSessionSecrets) : Prop := {
  so_root : blen (ss_rootKey s) = 32;
  so_sending : sized 32 (ss_sendingChainKey s);
  so_receiving : sized 32 (ss_receivingChainKey s);
  so_pub : blen (ss_dhSelfPub s) = 32;
  so_sec : blen (ss_dhSelfSec s) = 32;
  so_remote : sized 32 (ss_dhRemotePub s);
  so_counters : 0 <= ss_Ns s <= MAX_SAFE_INTEGER /\ 0 <= ss_Nr s <= MAX_SAFE_INTEGER /\
    0 <= ss_PN s <= MAX_SAFE_INTEGER;
  so_chain : present (ss_sendingChainKey s) || present (ss_receivingChainKey s) = true ->
    present (ss_dhRemotePub s) = true;
  so_skipped : Forall skipped_entry_ok (ss_skippedMessageKeys s);
  so_count : blen (ss_skippedMessageKeys s) <= MAX_SKIP_SESSION;
  so_skipped_remote : ss_skippedMessageKeys s <> [] -> present (ss_dhRemotePub s) = true;
  so_distinct : NoDup (entry_key <$> ss_skippedMessageKeys s);
}.

(** The layout. *)
Definition enc_skipped (entry : SkippedMessageKey) : bytes :=
  sk_dhPub entry ++ be_encode 8 (default 0 (sk_n entry)) ++ sk_messageKey entry.
Fixpoint enc_all_skipped (entries : list SkippedMessageKey) : bytes :=
  match entries with [] => [] | entry :: rest => enc_skipped entry ++ enc_all_skipped rest end.
Definition enc_prefix (s : RatchetSessionSecrets) (amInitiator : bool) : bytes :=
  SESSION_MAGIC ++ [byte_of SESSION_SNAPSHOT_VERSION] ++ [byte_of PROTOCOL_VERSION]
  ++ [byte_of (snapshot_flags_of s amInitiator)] ++ [byte_of (snapshotSuiteTag (ss_rootSuite s))]
  ++ be_encode 8 (ss_Ns s) ++ be_encode 8 (ss_Nr s) ++ be_encode 8 (ss_PN s) ++ ss_rootKey s
  ++ default [] (ss_sendingChainKey s) ++ default [] (ss_receivingChainKey s) ++ ss_dhSelfPub s
  ++ ss_dhSelfSec s ++ default [] (ss_dhRemotePub s).
Definition enc_snapshot (s : RatchetSessionSecrets) (pqCheckpoint : bytes) (amInitiator : bool) : bytes :=
  enc_prefix s amInitiator ++ be_encode 2 (blen (ss_skippedMessageKeys s))
  ++ enc_all_skipped (ss_skippedMessageKeys s) ++ be_encode 4 (blen pqCheckpoint) ++ pqCheckpoint.

Lemma emits_skipped entry : skipped_entry_ok entry -> emits (put_skipped entry) (enc_skipped entry).
Proof.
  intros (Hd & Hk & n & Hn & Hr). unfold put_skipped, enc_skipped. rewrite Hn.
  apply emits_lift; [unfold field_length; by rewrite Hd|]. apply emits_lift; [unfold field_length; by rewrite Hk|].
  apply emits_bind; [apply emits_put|]. apply emits_bind; [by apply emits_u64|apply emits_put].
Qed.
Lemma emits_all_skipped entries : Forall skipped_entry_ok entries ->
  emits (put_all_skipped entries) (enc_all_skipped entries).
Proof. induction 1; [apply emits_ret|]. cbn. apply emits_bind; [by apply emits_skipped|done]. Qed.

Lemma emits_snapshot s ckpt b : secrets_ok s -> emits (write_snapshot s ckpt b) (enc_snapshot s ckpt b).
Proof.
  intros []. destruct so_counters0 as (H1 & H2 & H3).
  unfold write_snapshot, enc_snapshot, enc_prefix. rewrite <- !app_assoc.
  repeat match goal with |- emits (_ ≫= _) _ => apply emits_bind end;
    first [apply emits_put|by apply emits_u64|apply emits_optional|by apply emits_all_skipped].
Qed.

Lemma blen_optional o : sized 32 o -> blen (default [] o) = 32 * (if present o then 1 else 0).
Proof. intros H. destruct o; [by apply H|done]. Qed.
Lemma blen_enc_skipped entries : Forall skipped_entry_ok entries -> blen (enc_all_skipped entries) = 72 * blen entries.
Proof.
  induction 1 as [|x l (Hd & Hk & _) _ IH]; [done|]. cbn [enc_all_skipped]. unfold enc_skipped. blen.
Qed.
Lemma blen_enc_prefix s b : secrets_ok s -> blen (enc_prefix s b) = 132 + 32 * optional_count s.
Proof.
  intros []. unfold enc_prefix, optional_count. autorewrite with blen.
  rewrite !blen_optional by done. change (blen SESSION_MAGIC) with 8.
  destruct (ss_sendingChainKey s), (ss_receivingChainKey s), (ss_dhRemotePub s); cbn [present]; blen.
Qed.

(** The computed size is exact. *)
Lemma buffer_runs s ckpt b : secrets_ok s -> snapshot_buffer s ckpt b = Ok (enc_snapshot s ckpt b).
Proof.
  intros Hs. assert (blen (enc_snapshot s ckpt b) = SNAPSHOT_FIXED_PREFIX_LEN + optional_count s * 32
    + blen (ss_skippedMessageKeys s) * SNAPSHOT_SKIPPED_ENTRY_LEN + SNAPSHOT_PQ_CHECKPOINT_LENGTH_BYTES + blen ckpt) as Hl.
  { unfold enc_snapshot. rewrite !blen_app, blen_enc_prefix, blen_enc_skipped, !blen_be_encode by (done || apply Hs).
    change SNAPSHOT_FIXED_PREFIX_LEN with 134. change SNAPSHOT_SKIPPED_ENTRY_LEN with 72.
    change SNAPSHOT_PQ_CHECKPOINT_LENGTH_BYTES with 4. lia. }
  unfold snapshot_buffer. rewrite <- Hl.
  pose proof (emits_snapshot s ckpt b Hs [] (blen (enc_snapshot s ckpt b)) ltac:(lia)) as He.
  cbn [app] in He. rewrite blen_nil in He. rewrite He. f_equal. rewrite Z.sub_diag. cbn. by rewrite app_nil_r.
Qed.

(** ** Reading back *)

(** [r] consumes exactly [enc] and returns [v]. *)
Definition takes {A} (r : sreader A) (v : A) (enc : bytes) : Prop := forall rest, r (enc ++ rest) = (Ok v, rest).

Lemma takes_bind {A D} (r : sreader A) (f : A -> sreader D) a d e1 e2 :
  takes r a e1 -> takes (f a) d e2 -> takes (r ≫= f) d (e1 ++ e2).
Proof. intros H1 H2 rest. unfold mbind, M_bind. rewrite <- app_assoc, H1. apply H2. Qed.
Lemma takes_check {A} b w (r : sreader A) a enc : b = true -> takes r a enc -> takes (sr_check b w;; r) a enc.
Proof. by intros -> H. Qed.
Lemma takes_lift {A D} r (f : A -> sreader D) a d enc : r = Ok a -> takes (f a) d enc -> takes (lift r ≫= f) d enc.
Proof. by intros -> H. Qed.
Lemma takes_ret {A} (a : A) : takes (mret a) a [].
Proof. by intros rest. Qed.
Lemma takes_bytes n v : blen v = n -> n <= MAX_SAFE_INTEGER -> takes (take_bytes n) v v.
Proof.
  intros <- Hn rest. pose proof (blen_nonneg v). pose proof (blen_nonneg rest).
  unfold take_bytes, sr_check, mrequire, mbind, M_bind, get_this, set_this, lift. cbn [M_ret].
  rewrite (safe_uint []) by lia. rewrite blen_app, (proj2 (Z.ltb_ge _ _)) by lia. cbn [andb negb require].
  rewrite slice_from_app by done. by rewrite slice_app_l.
Qed.
Lemma takes_byte v : 0 <= v <= 255 -> takes take_byte v [byte_of v].
Proof.
  intros Hv. replace ([byte_of v]) with ([byte_of v] ++ []) by done.
  eapply takes_bind; [by apply takes_bytes|]. intros rest. cbn [app]. unfold mret, M_ret. do 2 f_equal.
  change [byte_of v] with (be_encode 1 v). rewrite be_decode_encode. apply Z.mod_small. change (256 ^ Z.of_nat 1) with 256. lia.
Qed.
Lemma takes_u64 v : 0 <= v <= MAX_SAFE_INTEGER -> takes take_u64 v (be_encode 8 v).
Proof.
  intros Hv. rewrite <- (app_nil_r (be_encode 8 v)).
  eapply takes_bind; [apply takes_bytes; [by rewrite blen_be_encode|done]|].
  assert (be_decode (be_encode 8 v) = v) as ->.
  { rewrite be_decode_encode. apply Z.mod_small. change (256 ^ Z.of_nat 8) with 18446744073709551616.
    unfold MAX_SAFE_INTEGER in Hv. lia. }
  apply takes_check; [lia|apply takes_ret].
Qed.
Lemma takes_if o : sized 32 o -> takes (take_if (present o)) o (default [] o).
Proof.
  intros H. destruct o as [v|]; [|apply takes_ret]. cbn [default present take_if].
  rewrite <- (app_nil_r v) at 2. eapply takes_bind; [apply takes_bytes; [by apply H|done]|apply takes_ret].
Qed.

Lemma takes_skipped entries : forall seen acc, Forall skipped_entry_ok entries ->
  NoDup (seen ++ (entry_key <$> entries)) ->
  takes (take_skipped (length entries) seen acc) (acc ++ entries) (enc_all_skipped entries).
Proof.
  induction entries as [|x entries IH]; intros seen acc Ho Hnd; [rewrite app_nil_r; apply takes_ret|].
  apply Forall_cons in Ho as [(Hd & Hk & n & Hn & Hr) Hf].
  cbn [length take_skipped enc_all_skipped]. unfold enc_skipped. rewrite Hn. change (default 0 (Some n)) with n. rewrite <- !app_assoc.
  eapply takes_bind; [apply takes_bytes; [exact Hd|done]|]. eapply takes_bind; [by apply takes_u64|].
  eapply takes_bind; [apply takes_bytes; [exact Hk|done]|]. cbn zeta.
  assert (entry_key x = skip_key (sk_dhPub x) n) as He by (unfold entry_key; by rewrite Hn).
  apply takes_check.
  - cbn [fmap list_fmap] in Hnd. apply NoDup_app in Hnd as (_ & Hdj & _). rewrite bool_decide_false; [done|].
    intros Hin. apply (Hdj _ Hin). rewrite He. by left.
  - assert ({| sk_dhPub := sk_dhPub x; sk_n := Some n; sk_messageKey := sk_messageKey x |} = x) as ->
      by (destruct x; cbn in *; congruence).
    replace (acc ++ x :: entries) with ((acc ++ [x]) ++ entries) by (by rewrite <- app_assoc).
    apply IH; [done|]. rewrite <- He, <- app_assoc. exact Hnd.
Qed.

Lemma flags_known s b : let flags := snapshot_flags_of s b in
  0 <= flags <= 255 /\ Z.land flags (Z.lnot SNAPSHOT_KNOWN_FLAGS) = 0 /\
  flag_set flags SNAPSHOT_FLAG_SENDING_CHAIN = present (ss_sendingChainKey s) /\
  flag_set flags SNAPSHOT_FLAG_RECEIVING_CHAIN = present (ss_receivingChainKey s) /\
  flag_set flags SNAPSHOT_FLAG_REMOTE_DH = present (ss_dhRemotePub s) /\
  flag_set flags SNAPSHOT_FLAG_INITIATOR = b.
Proof.
  unfold snapshot_flags_of.
  destruct (present (ss_sendingChainKey s)), (present (ss_receivingChainKey s)), (present (ss_dhRemotePub s)), b;
    vm_compute; split_and!; done.
Qed.

Lemma takes_prefix s b : secrets_ok s -> takes take_prefix (with_skipped_keys s [], b) (enc_prefix s b).
Proof.
  intros []. destruct so_counters0 as (H1 & H2 & H3). destruct (flags_known s b) as (Hf & Hk & F1 & F2 & F3 & F4).
  unfold take_prefix, enc_prefix.
  eapply takes_bind; [by apply takes_bytes|]. apply takes_check; [apply bytesEqual_refl|].
  eapply takes_bind; [by apply takes_byte|]. apply takes_check; [done|].
  eapply takes_bind; [by apply takes_byte|]. apply takes_check; [done|].
  eapply takes_bind; [by apply takes_byte|]. apply takes_check; [by rewrite Hk|].
  eapply takes_bind; [apply takes_byte; destruct (ss_rootSuite s); cbn; lia|].
  apply takes_lift with (ss_rootSuite s); [by destruct (ss_rootSuite s)|]. rewrite F1, F2, F3, F4.
  eapply takes_bind; [by apply takes_u64|]. eapply takes_bind; [by apply takes_u64|].
  eapply takes_bind; [by apply takes_u64|]. eapply takes_bind; [by apply takes_bytes|].
  eapply takes_bind; [by apply takes_if|]. eapply takes_bind; [by apply takes_if|].
  eapply takes_bind; [by apply takes_bytes|]. eapply takes_bind; [by apply takes_bytes|].
  rewrite <- (app_nil_r (default [] (ss_dhRemotePub s))).
  eapply takes_bind; [by apply takes_if|]. apply takes_check; [|apply takes_ret].
  destruct (present (ss_sendingChainKey s) || present (ss_receivingChainKey s)) eqn:Hc; [|done].
  by rewrite so_chain0.
Qed.

Lemma decode_runs s ckpt b : secrets_ok s -> 0 < blen ckpt <= SNAPSHOT_MAX_PQ_CHECKPOINT_BYTES ->
  decodeSessionSnapshot (enc_snapshot s ckpt b) =
    Ok {| de_state := deserializeRatchet s; de_pqCheckpoint := ckpt; de_amInitiator := b |}.
Proof.
  intros Hs Hc. pose proof Hs as []. pose proof (blen_nonneg (ss_skippedMessageKeys s)).
  unfold decodeSessionSnapshot, take_snapshot, enc_snapshot. unfold mbind at 1, M_bind at 1.
  rewrite (takes_prefix s b Hs). unfold mbind at 1, M_bind at 1.
  rewrite (takes_bytes 2) by (by rewrite ?blen_be_encode). cbn zeta.
  assert (be_decode (be_encode 2 (blen (ss_skippedMessageKeys s))) = blen (ss_skippedMessageKeys s)) as ->.
  { rewrite be_decode_encode. apply Z.mod_small. change (256 ^ Z.of_nat 2) with 65536.
    change MAX_SKIP_SESSION with 2000 in *. lia. }
  unfold sr_check, mrequire, lift. unfold mbind, M_bind. rewrite (proj2 (Z.ltb_ge _ _)) by done. cbn [negb require].
  assert (negb (negb (present (ss_dhRemotePub (with_skipped_keys s []))) && (0 <? blen (ss_skippedMessageKeys s))) = true) as ->.
  { cbn [with_skipped_keys ss_dhRemotePub]. destruct (ss_skippedMessageKeys s) as [|x l] eqn:Hl.
    - change (0 <? blen (@nil SkippedMessageKey)) with false. by rewrite andb_false_r.
    - by rewrite so_skipped_remote0. }
  cbn [require]. unfold get_this at 1. rewrite !blen_app, blen_enc_skipped, blen_be_encode by done.
  rewrite (proj2 (Z.ltb_ge _ _)).
  2:{ change SNAPSHOT_SKIPPED_ENTRY_LEN with 72. change SNAPSHOT_PQ_CHECKPOINT_LENGTH_BYTES with 4. lia. }
  cbn [negb require]. unfold blen at 1. rewrite Nat2Z.id.
  rewrite (takes_skipped _ [] []) by done. cbn [app].
  rewrite (takes_bytes SNAPSHOT_PQ_CHECKPOINT_LENGTH_BYTES) by (by rewrite ?blen_be_encode).
  assert (be_decode (be_encode 4 (blen ckpt)) = blen ckpt) as ->.
  { rewrite be_decode_encode. apply Z.mod_small. change (256 ^ Z.of_nat 4) with 4294967296.
    change SNAPSHOT_MAX_PQ_CHECKPOINT_BYTES with 262144 in Hc. lia. }
  rewrite (proj2 (Z.eqb_neq _ _)), (proj2 (Z.ltb_ge _ _)) by lia. cbn [negb orb require].
  unfold get_this. rewrite Z.eqb_refl. cbn [require].
  rewrite <- (app_nil_r ckpt) at 2. rewrite (takes_bytes (blen ckpt)); [|done|].
  - by destruct s.
  - change SNAPSHOT_MAX_PQ_CHECKPOINT_BYTES with 262144 in Hc. unfold MAX_SAFE_INTEGER. lia.
Qed.

(** ** Theorems *)

Section Restore.
Context {C : LibCrypto} `{!HkdfTotal C} {B : MlKemBackend}.
Implicit Types (s : Session).

(** What a session must be to be saved. *)
Record saveable s : Prop := {
  sv_live : se_destroyed s = false;
  sv_pq : runtime_inv (se_pq s);
  sv_state : ratchet_inv (se_state s);
  sv_valid : validateSnapshotState (se_state s) = Ok tt;
  sv_skipped : Forall skipped_entry_ok (map flatten_entry (skipped (se_state s)));
  sv_keys : keys_ok (active_keys s);
  sv_suite : rootSuite (se_state s) = e_rootSuite (st_edge (se_pq s));
  sv_role : amInitiator_of (st_edge (se_pq s)) = se_amInitiator s;
}.

Lemma valid_secrets (x : RatchetState) : ratchet_inv x -> validateSnapshotState x = Ok tt ->
  Forall skipped_entry_ok (map flatten_entry (skipped x)) -> secrets_ok (serializeRatchet x).
Proof.
  intros [[] Hb] Hv Hs. unfold validateSnapshotState, field_length in Hv. binds Hv.
  repeat match goal with H : require _ _ = Ok _ |- _ => apply require_ok in H end.
  apply Z.eqb_eq in E, E0, E1.
  assert (forall o, optional_length o 32 = Ok tt -> sized 32 o) as Ho.
  { intros o Ho v ->. cbn in Ho. by apply require_ok, Z.eqb_eq in Ho. }
  repeat match goal with H : unit |- _ => destruct H end.
  unfold requireSafeUint, isSafeUint, isSafeInteger in *.
  repeat match goal with H : require _ _ = Ok _ |- _ => apply require_ok in H end.
  repeat match goal with H : _ && _ = true |- _ => apply andb_true_iff in H as [??] end.
  repeat match goal with H : negb _ = true |- _ => apply negb_true_iff in H end.
  assert (map flatten_entry (skipped x) = [] <-> skipped x = []) as Hnil by (by destruct (skipped x)).
  pose proof (blen_nonneg (skipped x)).
  split; cbn [serializeRatchet ss_rootKey ss_sendingChainKey ss_receivingChainKey ss_dhSelfPub ss_dhSelfSec
    ss_dhRemotePub ss_Ns ss_Nr ss_PN ss_skippedMessageKeys]; try done; try (by apply Ho).
  - apply Z.leb_le in H, H1, H3. apply Z.ltb_ge in H0, H2, H4. lia.
  - intros Hc. rewrite Hc in E8. by destruct (present (dhRemotePub x)).
  - unfold blen. rewrite length_map. exact Hb.
  - intros Hne. destruct (skipped x) as [|y l] eqn:Hl; [done|].
    assert ((0 <? blen (y :: l)) = true) as Hp by (rewrite blen_cons; pose proof (blen_nonneg l); lia).
    rewrite Hp, orb_true_r in E8. by destruct (present (dhRemotePub x)).
  - assert (entry_key <$> map flatten_entry (skipped x) = keys (skipped x)) as ->; [|done].
    assert (forall m, (forall k, k ∈ keys m -> k ∈ keys (skipped x)) ->
      entry_key <$> map flatten_entry m = keys m) as Hm; [|by apply Hm].
    induction m as [|[k v] m IH]; intros Hsub; [done|]. cbn. f_equal.
    + apply (flatten_key k v _ pi_keys), Hsub. by left.
    + apply IH. intros k' Hk'. apply Hsub. by right.
Qed.

(** A saved session is restored: the snapshot of a session decodes to the
    same ratchet with its skipped keys and the same healing runtime, the receive
    keys in canonical order, and the same role; the saved session is untouched. *)
Theorem session_snapshot_roundtrip s : saveable s ->
  exists out, session_serialize s = (Ok out, s) /\
    restoreSession out = Ok (set_pq (set_keys (array_sort key_order (active_keys s)) (se_pq s)) s).
Proof.
  intros []. destruct (checkpoint_saved (se_pq s) (active_keys s) sv_pq0 sv_keys0) as (ckpt & Hser & Hlen & Hbind & Hres).
  pose proof (valid_secrets _ sv_state0 sv_valid0 sv_skipped0) as Hsec.
  change MAX_EDGE_STATE_BYTES with 262144 in Hlen.
  eexists. split.
  - unfold session_serialize, encodeSessionSnapshot, session_live, scheck, mrequire, mbind, M_bind, get_this, lift.
    rewrite sv_live0, sv_valid0. cbn [negb require]. unfold on_pq. rewrite Hser. cbn [map_err].
    assert (set_pq (se_pq s) s = s) as -> by (by destruct s).
    rewrite (proj2 (Z.eqb_neq _ _)), (proj2 (Z.ltb_ge _ _)) by (change SNAPSHOT_MAX_PQ_CHECKPOINT_BYTES with 262144; lia).
    cbn [orb negb require]. by rewrite buffer_runs.
  - unfold restoreSession. rewrite decode_runs by (done || change SNAPSHOT_MAX_PQ_CHECKPOINT_BYTES with 262144; lia).
    cbn [mbind result_bind de_pqCheckpoint de_state de_amInitiator].
    change (deserializeRatchet (serializeRatchet (se_state s))) with (cloneRatchet (se_state s)).
    rewrite (clone_inv _ sv_state0), Hbind, sv_suite0, <- sv_role0. cbn [map_err mbind result_bind].
    assert (rootSuiteToRoomPqMode (e_rootSuite (st_edge (se_pq s))) = e_pqMode (st_edge (se_pq s))) as ->.
    { destruct (ri_edge _ sv_pq0) as (<- & _). by destruct (e_pqMode (st_edge (se_pq s))). }
    rewrite Hres. cbn [map_err mbind result_bind]. rewrite sv_role0. destruct s as [st pq b d]. cbn in *. by subst d.
Qed.
End Restore.

(** * The key store of a session only grows

    No call of [Session] drops an active receive key, and a store of more than
    [MAX_ACTIVE_RECEIVE_KEYS] keys does not fit a checkpoint. *)

(** ** The runtime keeps its receive keys *)

Section Runtime.
Context {C : LibCrypto} {B : MlKemBackend}.
Context (K : list (string * bytes)).

Definition keys_are (pq : SparsePqHealingState) : Prop := st_activeReceiveKeys pq = K.

Lemma on_machine_keys {A} (c : method A) : preserves keys_are (on_machine c).
Proof. intros pq H. unfold on_machine. by destruct (c (st_machine pq)). Qed.
Lemma readonly_keys {A} (c : rt A) : readonly c -> preserves keys_are c.
Proof. apply preserves_readonly. Qed.
Lemma lift_keys {A} (r : result RuntimeThrow A) : preserves keys_are (lift r : rt A).
Proof. by intros pq. Qed.

Ltac keeps_keys :=
  repeat first
    [ apply on_machine_keys
    | apply lift_keys
    | apply preserves_bind; [|first [intros [? ?]|intros ?]]
    | apply preserves_modify; by intros
    | apply preserves_readonly; by intros ?
    | case_match ].

Lemma prepareHealingOffer_keys coins nonce now : preserves keys_are (prepareHealingOffer coins nonce now).
Proof.
  unfold prepareHealingOffer, healingDue, assertLive, requireSafeUint, rcheck, mrequire, sealRecord, on_frame,
    clearDuplicateCache. keeps_keys.
Qed.
Lemma markPendingDispatched_keys now : preserves keys_are (markPendingDispatched now).
Proof. unfold markPendingDispatched, assertLive, requireSafeUint, rcheck, mrequire, rfail, mthrow. keeps_keys. Qed.
Lemma acceptControlFrame_keys frame now coins nonce : preserves keys_are (acceptControlFrame frame now coins nonce).
Proof.
  unfold acceptControlFrame, processRecord, acceptAckRecord, answerOfferRecord, acceptAdvanceRecord, assertLive,
    requireSafeUint, rcheck, mrequire, sealRecord, on_frame, on_healing, clearDuplicateCache, refreshMessageRoot.
  keeps_keys.
Qed.
Lemma observers_keys :
  preserves keys_are currentMessageContext /\ preserves keys_are noteApplicationMessage /\
  (forall now, preserves keys_are (healingDue now)) /\ preserves keys_are pendingRetryAt /\
  preserves keys_are copyPendingFrame /\ (forall ks, preserves keys_are (serialize ks)).
Proof.
  unfold currentMessageContext, noteApplicationMessage, healingDue, pendingRetryAt, copyPendingFrame, serialize,
    assertLive, requireSafeUint, rcheck, mrequire.
  split_and!; intros; keeps_keys.
Qed.
End Runtime.

(** ** The session keeps them *)

(** Any call of the session.  The random bytes and the clock come with it. *)
Inductive session_call :=
  | call_encrypt (plaintext : bytes) (fill noise nonce : Z -> bytes)
  | call_decrypt (message : EncryptedSessionMessage) (entropy : bytes)
  | call_prepareHealing (coins nonce : bytes) (now : Z)
  | call_acceptControlFrame (frame coins nonce : bytes) (now : Z)
  | call_pendingControl
  | call_serialize
  | call_destroy.

Section Session.
Context {C : LibCrypto} {HS : Sha512} {B : MlKemBackend}.

Definition run_session_call (c : session_call) : sess unit :=
  match c with
  | call_encrypt plaintext fill noise nonce => encrypt plaintext fill noise nonce;; mret tt
  | call_decrypt message entropy => decrypt message entropy;; mret tt
  | call_prepareHealing coins nonce now => prepareHealing coins nonce now;; mret tt
  | call_acceptControlFrame frame coins nonce now => session_acceptControlFrame frame coins nonce now;; mret tt
  | call_pendingControl => pendingControl;; mret tt
  | call_serialize => session_serialize;; mret tt
  | call_destroy => destroy_session
  end.
(** Calls that throw leave their state behind as well. *)
Fixpoint after_session_calls (cs : list session_call) (s : Session) : Session :=
  match cs with [] => s | c :: cs' => after_session_calls cs' (snd (run_session_call c s)) end.

(** The receive keys of a live session extend [K]. *)
Definition keeps (K : skipped_map) (s : Session) : Prop :=
  se_destroyed s = true \/ exists more, active_keys s = K ++ more.

Lemma add_missing_extends staged : forall live, exists more, add_missing staged live = live ++ more.
Proof.
  induction staged as [|[k v] staged IH]; intros live; [exists []; by rewrite app_nil_r|]. cbn [add_missing].
  destruct (map_get k live); [apply IH|]. destruct (IH (live ++ [(k, v)])) as [more ->].
  exists ((k, v) :: more). by rewrite <- app_assoc.
Qed.

Context (K : skipped_map).

Lemma on_pq_keeps {A} (c : rt A) : (forall ks, preserves (keys_are ks) c) -> preserves (keeps K) (on_pq c).
Proof.
  intros Hc s H. specialize (Hc _ (se_pq s) eq_refl). unfold on_pq. destruct (c (se_pq s)) as [r pq].
  unfold keys_are in Hc. cbn in Hc. unfold keeps, active_keys in *. cbn. by rewrite Hc.
Qed.
Lemma take_adopted_keeps next : preserves (keeps K) (take_adopted next).
Proof. intros s H. unfold take_adopted. by destruct (adoptRatchet next (se_state s)). Qed.
Lemma adopt_keys_keeps staged : preserves (keeps K) (adoptActiveReceiveKeys staged).
Proof.
  intros s [H|[more H]]; [by left|]. right. unfold adoptActiveReceiveKeys, mbind, M_bind, get_this, modify_this.
  unfold active_keys in *. cbn. rewrite H. destruct (add_missing_extends staged (K ++ more)) as [more' ->].
  exists (more ++ more'). by rewrite app_assoc.
Qed.
Lemma wipe_on_throw_keeps c : preserves (keeps K) c -> preserves (keeps K) (wipe_on_throw c).
Proof. intros Hc s H. specialize (Hc s H). unfold wipe_on_throw. by destruct (c s) as [[[]|] s']. Qed.

Ltac keeps_all :=
  repeat first
    [ apply take_adopted_keeps | apply adopt_keys_keeps | apply wipe_on_throw_keeps
    | apply on_pq_keeps; intros
    | apply prepareHealingOffer_keys | apply markPendingDispatched_keys | apply acceptControlFrame_keys
    | apply observers_keys
    | apply preserves_bind; [|first [intros [? ?]|intros ?]]
    | apply preserves_readonly; by intros ?
    | case_match ].

Lemma session_call_keeps c : preserves (keeps K) (run_session_call c).
Proof.
  destruct c; unfold run_session_call, encrypt, decrypt, prepareHealing, session_acceptControlFrame, pendingControl,
    session_serialize, encodeSessionSnapshot, session_live, scheck, mrequire; try (keeps_all; fail).
  intros s _. left. unfold destroy_session, mbind, M_bind, get_this, set_this. by destruct (se_destroyed s) eqn:Hd.
Qed.

Lemma after_calls_keeps cs : forall s, keeps K s -> keeps K (after_session_calls cs s).
Proof. induction cs as [|c cs IH]; intros s H; [done|]. apply IH. by apply session_call_keeps. Qed.
End Session.

(** ** A full store does not fit *)

(** [w] never returns. *)
Definition refuses {S E A} (w : M S E A) : Prop := forall s a s', w s <> (Ok a, s').
Lemma refuses_bind {S E A D} (w : M S E A) (f : A -> M S E D) : (forall a, refuses (f a)) -> refuses (w ≫= f).
Proof. intros Hf s a s'. unfold mbind, M_bind. destruct (w s) as [[x|] s1]; [apply Hf|done]. Qed.
Lemma refuses_head {S E A D} (w : M S E A) (f : A -> M S E D) : refuses w -> refuses (w ≫= f).
Proof. intros Hw s a s'. unfold mbind, M_bind. destruct (w s) as [[x|] s1] eqn:H; [by apply Hw in H|done]. Qed.

Section Full.
Context {C : LibCrypto} {HS : Sha512} {B : MlKemBackend}.

Lemma too_many_refused keys : MAX_ACTIVE_RECEIVE_KEYS < blen keys -> refuses (writeActiveKeys keys).
Proof.
  intros H. apply refuses_head. intros s a s'. unfold mrequire, lift.
  by rewrite (proj2 (Z.ltb_lt _ _) H).
Qed.

Lemma full_not_serialized keys : MAX_ACTIVE_RECEIVE_KEYS < blen keys -> refuses (serialize keys).
Proof.
  intros H. unfold serialize. do 3 (apply refuses_bind; intros ?). intros s r s'. unfold lift, written.
  destruct (writeState _ _ _ _) as [[[]|] out] eqn:Hw; [|done]. exfalso. revert Hw.
  assert (refuses (writeState a1 a0 keys)) as Hr; [|apply Hr].
  unfold writeState. repeat first [by apply too_many_refused|apply refuses_bind; intros ?].
Qed.

(** A session that has received more than [MAX_ACTIVE_RECEIVE_KEYS] messages
    can never be saved again: whatever is called on it afterwards, healing
    included, [serialize] throws. *)
Theorem full_session_never_saved s cs : MAX_ACTIVE_RECEIVE_KEYS < blen (active_keys s) ->
  is_ok (fst (session_serialize (after_session_calls cs s))) = false.
Proof.
  intros H. pose proof (after_calls_keeps (active_keys s) cs s) as Hk.
  set (s1 := after_session_calls cs s) in *.
  assert (refuses (mrequire (negb (se_destroyed s1)) (SessionError session_destroyed);;
    encodeSessionSnapshot (se_state s1) (se_amInitiator s1)) \/
    MAX_ACTIVE_RECEIVE_KEYS < blen (active_keys s1)) as Hs.
  { destruct Hk as [Hd|[more Hm]]; [right; exists []; by rewrite app_nil_r| |].
    - left. apply refuses_head. intros x a x'. unfold mrequire, lift. by rewrite Hd.
    - right. rewrite Hm, blen_app. pose proof (blen_nonneg more). lia. }
  assert (forall (r : result SessionThrow bytes * Session), (forall a s', r <> (Ok a, s')) -> is_ok (fst r) = false) as Hno.
  { intros [[a|] s'] Hr; [by destruct (Hr a s')|done]. }
  apply Hno. intros a s' Hser. destruct Hs as [Hs|Hs]; [by apply (Hs s1 a s')|].
  revert Hser. unfold session_serialize, encodeSessionSnapshot, session_live, scheck, mrequire, mbind, M_bind, get_this, lift.
  destruct (require _ _); [|done]. destruct (validateSnapshotState _); [|done]. unfold on_pq.
  destruct (serialize (active_keys s1) (se_pq s1)) as [[out|] pq] eqn:Hr; [|done].
  by apply full_not_serialized in Hr.
Qed.
End Full.
