(* ===== verification/RoomInvite.v ===== *)
(** * Room invites ([src/src/roomInvite.ts])

    The 32-byte capability of a room in its four written forms: unpadded
    base64url, the versioned fragment of a link, legacy hexadecimal, and 24 words
    with a checksum byte.

    A string is the list of its UTF-16 code units.  Unicode normalization and
    case mapping ([normalize], [toLowerCase]) and SHA-256 belong to the browser. *)

From Stdlib Require Import String.
From stdpp Require Import base list.
From S2P Require Import Prelude Bytes Wordlist.
Local Open Scope Z_scope.
Local Open Scope list_scope.

Inductive InviteError :=
  | not_32_bytes | bad_hex | bad_base64url | base64url_not_canonical | unsupported_version
  | not_byte_aligned | words_not_canonical | unexpected_length | not_24_words | unknown_word | checksum_invalid.
#[export] Instance InviteError_eq_dec : EqDecision InviteError.
Proof. solve_decision. Defined.
Implicit Types (s : list Z) (capability : bytes).
Abbreviation invite A := (result InviteError A).

Definition units (s : string) : list Z := u8 <$> text s.

Definition ROOM_CAPABILITY_BYTES : Z := 32.
Definition ROOM_CAPABILITY_HEX_CHARS : Z := ROOM_CAPABILITY_BYTES * 2.
Definition ROOM_CAPABILITY_BASE64URL_CHARS : Z := 43.
Definition ROOM_INVITE_WORDS : Z := 24.
Definition ROOM_INVITE_PREFIX : list Z := units "v1.".
Definition BASE64URL_ALPHABET : list Z :=
  units "ABCDEFGHIJKLMNOPQRSTUVWXYZabcdefghijklmnopqrstuvwxyz0123456789-_".
Definition CHECKSUM_DOMAIN : bytes := text "p2party/room-invite/checksum/v1" ++ [byte_of 0].

Definition in_range (lo hi c : Z) : bool := (lo <=? c) && (c <=? hi).
Definition is_hex_digit (c : Z) : bool := in_range 48 57 c || in_range 97 102 c || in_range 65 70 c.
Definition HEX_PATTERN s : bool := (blen s =? 64) && forallb is_hex_digit s.
Definition is_base64url (c : Z) : bool :=
  in_range 65 90 c || in_range 97 122 c || in_range 48 57 c || (c =? 95) || (c =? 45).
Definition BASE64URL_PATTERN s : bool := (blen s =? 43) && forallb is_base64url s.

Definition requireCapability capability : invite bytes :=
  require (blen capability =? ROOM_CAPABILITY_BYTES) not_32_bytes;; Ok capability.

(** [alphabet[i]] and [alphabet.indexOf(c)]. *)
Definition char_at (alphabet : list Z) (i : Z) : Z := default 0 (alphabet !! Z.to_nat i).
Fixpoint indexOf (alphabet : list Z) (c : Z) : Z :=
  match alphabet with
  | [] => -1
  | a :: rest => if a =? c then 0 else let i := indexOf rest c in if i =? -1 then -1 else i + 1
  end.

(** ** Hexadecimal *)

Definition hex_char (v : Z) : Z := char_at (units "0123456789abcdef") v.
Definition bytesToHex (l : bytes) : list Z :=
  mjoin ((fun b => [hex_char (u8 b / 16); hex_char (u8 b mod 16)]) <$> l).
(** [Number.parseInt(_, 16)] of two digits. *)
Definition hex_value (c : Z) : Z := if c <=? 57 then c - 48 else if c <=? 70 then c - 55 else c - 87.
Fixpoint hex_pairs s : bytes :=
  match s with a :: b :: rest => byte_of (16 * hex_value a + hex_value b) :: hex_pairs rest | _ => [] end.
Definition hexToBytes s : invite bytes := require (HEX_PATTERN s) bad_hex;; Ok (hex_pairs s).

(** ** Regrouping bits *)

(** The inner [while]: [bits] is [availableBits].  The accumulator has at most
    18 bits, below the 32 of JavaScript's shifts. *)
Fixpoint emit (fuel : nat) (w acc bits : Z) (out : list Z) : Z * Z * list Z :=
  match fuel with
  | O => (acc, bits, out)
  | S fuel =>
      if w <=? bits then
        let bits := bits - w in
        emit fuel w (Z.land acc (Z.shiftl 1 bits - 1)) bits
          (out ++ [Z.land (Z.shiftr acc bits) (Z.shiftl 1 w - 1)])
      else (acc, bits, out)
  end.
Definition regroup (win w : Z) (l : list Z) : Z * Z * list Z :=
  fold_left (fun '(acc, bits, out) x => emit (Z.to_nat (bits + win)) w (Z.lor (Z.shiftl acc win) x) (bits + win) out)
    l (0, 0, []).

(** ** base64url *)

Definition sextet (chunk bit : Z) : Z := Z.land (Z.shiftr chunk bit) 0x3f.
Fixpoint sextets (l : bytes) : list Z :=
  match l with
  | a :: b :: c :: rest =>
      let chunk := Z.lor (Z.lor (Z.shiftl (u8 a) 16) (Z.shiftl (u8 b) 8)) (u8 c) in
      [sextet chunk 18; sextet chunk 12; sextet chunk 6; sextet chunk 0] ++ sextets rest
  | [a; b] =>
      let chunk := Z.lor (Z.lor (Z.shiftl (u8 a) 16) (Z.shiftl (u8 b) 8)) 0 in
      [sextet chunk 18; sextet chunk 12; sextet chunk 6]
  | [a] =>
      let chunk := Z.lor (Z.lor (Z.shiftl (u8 a) 16) (Z.shiftl 0 8)) 0 in [sextet chunk 18; sextet chunk 12]
  | [] => []
  end.
Definition encodeRoomCapabilityBase64Url capability : invite (list Z) :=
  l ← requireCapability capability; Ok (char_at BASE64URL_ALPHABET <$> sextets l).

Definition decodeRoomCapabilityBase64Url (encoded : list Z) : invite bytes :=
  require (BASE64URL_PATTERN encoded) bad_base64url;;
  require (Z.land (indexOf BASE64URL_ALPHABET (default 0 (last encoded))) 3 =? 0) base64url_not_canonical;;
  let '(_, _, out) := regroup 6 8 (indexOf BASE64URL_ALPHABET <$> encoded) in
  let output := byte_of <$> out in
  require (blen output =? ROOM_CAPABILITY_BYTES) base64url_not_canonical;;
  again ← encodeRoomCapabilityBase64Url output;
  require (bool_decide (again = encoded)) base64url_not_canonical;;
  Ok output.

(** ** Fragments *)

Definition startsWith s (prefix : list Z) : bool := bool_decide (slice s 0 (blen prefix) = prefix).
Definition encodeRoomInviteFragment capability : invite (list Z) :=
  e ← encodeRoomCapabilityBase64Url capability; Ok (ROOM_INVITE_PREFIX ++ e).
Definition decodeRoomInviteFragment (fragment : list Z) : invite bytes :=
  let withoutHash := if startsWith fragment (units "#") then slice_from fragment 1 else fragment in
  require (startsWith withoutHash ROOM_INVITE_PREFIX) unsupported_version;;
  decodeRoomCapabilityBase64Url (slice_from withoutHash (blen ROOM_INVITE_PREFIX)).

Definition decodeRoomCapability (encoded : list Z) : invite bytes :=
  if startsWith encoded ROOM_INVITE_PREFIX || startsWith encoded (units "#" ++ ROOM_INVITE_PREFIX)
  then decodeRoomInviteFragment encoded
  else if blen encoded =? ROOM_CAPABILITY_HEX_CHARS then hexToBytes encoded
  else decodeRoomCapabilityBase64Url encoded.
Definition normalizeRoomCapability (encoded : list Z) : invite (list Z) :=
  l ← decodeRoomCapability encoded; Ok (bytesToHex l).

(** ** Words *)

(** SHA-256, and [normalize("NFKD")] and [toLowerCase] with their Unicode tables. *)
Class InvitePlatform := {
  sha256 : bytes -> bytes;
  normalizeNFKD : list Z -> list Z;
  toLowerCase : list Z -> list Z;
}.

Definition bytesToWordIndexes (l : bytes) : invite (list Z) :=
  let '(_, bits, indexes) := regroup 8 11 (u8 <$> l) in
  require (bits =? 0) not_byte_aligned;; Ok indexes.
Definition wordIndexesToBytes (indexes : list Z) : invite bytes :=
  let '(_, bits, out) := regroup 11 8 indexes in
  require ((bits =? 0) && (blen out =? ROOM_CAPABILITY_BYTES + 1)) words_not_canonical;;
  Ok (byte_of <$> out).

Definition words : list (list Z) := units <$> wordlist.
Definition word_at (i : Z) : list Z := default (units "undefined") (words !! Z.to_nat i).
Fixpoint find_word (l : list (list Z)) (w : list Z) (i : Z) : option Z :=
  match l with [] => None | x :: rest => if bool_decide (x = w) then Some i else find_word rest w (i + 1) end.
(** [wordIndexes.get(word)]: the words are distinct. *)
Definition wordIndexes (w : list Z) : option Z := find_word words w 0.

Fixpoint join (l : list (list Z)) : list Z :=
  match l with [] => [] | [w] => w | w :: rest => w ++ [32] ++ join rest end.

(** White space and line terminators: [\s] and [trim]. *)
Definition is_space (c : Z) : bool :=
  in_range 9 13 c || (c =? 32) || (c =? 0xa0) || (c =? 0x1680) || in_range 0x2000 0x200a c
  || (c =? 0x2028) || (c =? 0x2029) || (c =? 0x202f) || (c =? 0x205f) || (c =? 0x3000) || (c =? 0xfeff).
Fixpoint trim_start s : list Z :=
  match s with c :: rest => if is_space c then trim_start rest else s | [] => [] end.
Definition trim s : list Z := reverse (trim_start (reverse (trim_start s))).
(** [split(/\s+/u)]: [after] is set within a run of white space. *)
Fixpoint split_spaces (after : bool) (part s : list Z) : list (list Z) :=
  match s with
  | [] => [part]
  | c :: rest =>
      if is_space c then if after then split_spaces true part rest else part :: split_spaces true [] rest
      else split_spaces false (part ++ [c]) rest
  end.

Fixpoint find_words (l : list (list Z)) : invite (list Z) :=
  match l with
  | [] => Ok []
  | w :: rest =>
      match wordIndexes w with
      | None => Err unknown_word
      | Some i => indexes ← find_words rest; Ok (i :: indexes)
      end
  end.

Section Words.
Context {P : InvitePlatform}.

Definition roomInviteChecksum capability : Z := default 0 (at_ (sha256 (CHECKSUM_DOMAIN ++ capability)) 0).

Definition encodeRoomCapabilityWords capability : invite (list Z) :=
  l ← requireCapability capability;
  indexes ← bytesToWordIndexes (l ++ [byte_of (roomInviteChecksum l)]);
  require (blen indexes =? ROOM_INVITE_WORDS) unexpected_length;;
  Ok (join (word_at <$> indexes)).

Definition split_words (encoded : list Z) : list (list Z) :=
  let normalized := toLowerCase (trim (normalizeNFKD encoded)) in
  if blen normalized =? 0 then [] else split_spaces false [] normalized.
Definition decodeRoomCapabilityWords (encoded : list Z) : invite bytes :=
  let ws := split_words encoded in
  require (blen ws =? ROOM_INVITE_WORDS) not_24_words;;
  indexes ← find_words ws;
  decoded ← wordIndexesToBytes indexes;
  let capability := slice decoded 0 ROOM_CAPABILITY_BYTES in
  require (bool_decide (at_ decoded ROOM_CAPABILITY_BYTES = Some (roomInviteChecksum capability))) checksum_invalid;;
  Ok capability.
End Words.
