(* ===== verification/RoomInviteCodec.v ===== *)
(** * The four forms of an invite name one capability

    Theorems on [RoomInvite]: the encoders and decoders are inverse, and each
    form has one spelling. *)

From Stdlib Require Import String.
From stdpp Require Import base list.
From S2P Require Import Prelude Bytes Wordlist RoomInvite.
Local Open Scope Z_scope.
Local Open Scope list_scope.
Implicit Types (s : list Z) (capability : bytes).

(** ** Numbers in base [2 ^ w] *)

Definition value (w : Z) (l : list Z) : Z := fold_left (fun a x => a * 2 ^ w + x) l 0.
Definition digit (w x : Z) : Prop := 0 <= x < 2 ^ w.

Lemma digits_snoc w l x : Forall (digit w) (l ++ [x]) <-> Forall (digit w) l /\ digit w x.
Proof. by rewrite Forall_app, Forall_singleton. Qed.
Lemma value_snoc w l x : value w (l ++ [x]) = value w l * 2 ^ w + x.
Proof. unfold value. by rewrite fold_left_app. Qed.
Lemma value_app w l k : 0 <= w -> value w (l ++ k) = value w l * 2 ^ (w * blen k) + value w k.
Proof.
  intros Hw. induction k as [|x k IH] using rev_ind; [rewrite app_nil_r; unfold blen; cbn; rewrite Z.mul_0_r, Z.pow_0_r; unfold value; cbn; lia|].
  rewrite app_assoc, !value_snoc, IH, blen_app. change (blen [x]) with 1.
  rewrite Z.mul_add_distr_l, Z.pow_add_r by (pose proof (blen_nonneg k); nia). rewrite Z.mul_1_r. ring.
Qed.
Lemma value_range w l : 0 <= w -> Forall (digit w) l -> 0 <= value w l < 2 ^ (w * blen l).
Proof.
  intros Hw H. induction l as [|x l IH] using rev_ind; [unfold blen; cbn; by rewrite Z.mul_0_r|].
  apply digits_snoc in H as [Hl Hx]. specialize (IH Hl). unfold digit in Hx.
  rewrite value_snoc, blen_app. change (blen [x]) with 1. pose proof (blen_nonneg l).
  rewrite Z.mul_add_distr_l, Z.pow_add_r, Z.mul_1_r by nia.
  assert ((value w l + 1) * 2 ^ w <= 2 ^ (w * blen l) * 2 ^ w) by (apply Z.mul_le_mono_nonneg_r; lia).
  assert (0 <= value w l * 2 ^ w) by (apply Z.mul_nonneg_nonneg; lia). lia.
Qed.
Lemma value_inj w l : 0 <= w -> forall k, length l = length k -> Forall (digit w) l -> Forall (digit w) k ->
  value w l = value w k -> l = k.
Proof.
  intros Hw. induction l as [|x l IH] using rev_ind; intros k Hlen Hl Hk Hv.
  { by destruct k. }
  destruct k as [|y k _] using rev_ind; [rewrite length_app in Hlen; cbn in Hlen; lia|].
  rewrite !length_app in Hlen. cbn in Hlen. apply digits_snoc in Hl as [Hl Hx].
  apply digits_snoc in Hk as [Hk Hy]. rewrite !value_snoc in Hv. unfold digit in *.
  destruct (Z.div_mod_unique (2 ^ w) (value w l) (value w k) x y) as [Hq ->]; [by left|by left|lia|].
  f_equal. apply IH; [lia|done..].
Qed.

(** ** Regrouping keeps the number *)

Lemma shiftl_ones n : 0 <= n -> Z.shiftl 1 n - 1 = Z.ones n.
Proof. intros H. unfold Z.ones. lia. Qed.
Lemma land_shiftl a b n : 0 <= n -> 0 <= b < 2 ^ n -> Z.land (Z.shiftl a n) b = 0.
Proof.
  intros Hn Hb. apply Z.bits_inj'. intros m Hm. rewrite Z.land_spec, Z.bits_0. apply andb_false_iff.
  destruct (decide (m < n)) as [H|H]; [left; by apply Z.shiftl_spec_low|right].
  rewrite <- (Z.mod_small b (2 ^ n)) by done. apply Z.mod_pow2_bits_high. lia.
Qed.
Lemma lor_shiftl a b n : 0 <= n -> 0 <= b < 2 ^ n -> Z.lor (Z.shiftl a n) b = a * 2 ^ n + b.
Proof.
  intros Hn Hb. pose proof (land_shiftl a b n Hn Hb) as H0.
  rewrite <- Z.shiftl_mul_pow2, Z.add_nocarry_lxor, Z.lxor_lor by done. done.
Qed.

(** What the loops keep: [acc] is below [2 ^ bits], and the digits given out
    followed by it are the number read. *)
Definition regrouped (w acc bits : Z) (out : list Z) (n total : Z) : Prop :=
  0 <= acc < 2 ^ bits /\ 0 <= bits /\ value w out * 2 ^ bits + acc = n /\ w * blen out + bits = total /\ Forall (digit w) out.

Lemma emit_spec w n total : 0 < w -> forall fuel acc bits out, bits <= Z.of_nat fuel -> regrouped w acc bits out n total ->
  let '(acc', bits', out') := emit fuel w acc bits out in regrouped w acc' bits' out' n total /\ bits' < w.
Proof.
  intros Hw fuel. induction fuel as [|fuel IH]; intros acc bits out Hf Hr; cbn [emit].
  { split; [done|]. destruct Hr as (_ & ? & _). lia. }
  destruct (Z.leb_spec w bits) as [Hle|]; [|by split]. apply IH; [lia|].
  destruct Hr as (Ha & Hb & Hv & Ht & Hd).
  assert (2 ^ bits = 2 ^ w * 2 ^ (bits - w)) as Hp by (rewrite <- Z.pow_add_r by lia; f_equal; lia).
  assert (0 < 2 ^ (bits - w)) by (apply Z.pow_pos_nonneg; lia).
  rewrite !shiftl_ones, Z.land_ones, Z.land_ones, Z.shiftr_div_pow2 by lia.
  assert (acc / 2 ^ (bits - w) < 2 ^ w) by (apply Z.div_lt_upper_bound; nia).
  rewrite (Z.mod_small (acc / 2 ^ (bits - w))) by (split; [apply Z.div_pos|]; lia).
  split_and!.
  - apply Z.mod_pos_bound. done.
  - apply Z.mod_pos_bound. done.
  - lia.
  - rewrite value_snoc. pose proof (Z.div_mod acc (2 ^ (bits - w))). rewrite <- Hv, Hp. nia.
  - rewrite blen_app. change (blen [acc / 2 ^ (bits - w)]) with 1. lia.
  - apply digits_snoc. split; [done|]. split; [apply Z.div_pos; lia|done].
Qed.
Lemma regroup_spec win w l : 0 < win -> 0 < w -> Forall (digit win) l ->
  let '(acc, bits, out) := regroup win w l in regrouped w acc bits out (value win l) (win * blen l) /\ bits < w.
Proof.
  intros Hwin Hw. unfold regroup. induction l as [|x l IH] using rev_ind; intros Hl.
  { split; [|done]. split_and!; try done; try lia. unfold blen. cbn. lia. }
  apply digits_snoc in Hl as [Hl Hx]. specialize (IH Hl). rewrite fold_left_app. cbn [fold_left].
  destruct (fold_left _ l _) as [[acc bits] out]. destruct IH as [(Ha & Hb & Hv & Ht & Hd) Hlt].
  apply emit_spec; [done|lia|]. unfold digit in Hx.
  rewrite lor_shiftl by lia. unfold regrouped. rewrite Z.pow_add_r by lia.
  assert (0 < 2 ^ win) by (apply Z.pow_pos_nonneg; lia). assert (0 < 2 ^ bits) by (apply Z.pow_pos_nonneg; lia).
  split_and!; try done; try nia.
  - rewrite value_snoc, <- Hv. ring.
  - rewrite blen_app. change (blen [x]) with 1. lia.
Qed.

(** A regrouping without remainder has one result. *)
Lemma u8_digits (l : bytes) : Forall (digit 8) (u8 <$> l).
Proof. apply Forall_fmap, Forall_forall. intros b _. exact (u8_range b). Qed.
Lemma bytes_of_digits out : Forall (digit 8) out -> u8 <$> (byte_of <$> out) = out.
Proof.
  intros H. rewrite <- list_fmap_compose. rewrite <- (list_fmap_id out) at 2. apply list_fmap_ext. intros i x Hx. cbn.
  rewrite Forall_lookup in H. specialize (H _ _ Hx). rewrite u8_byte_of. apply Z.mod_small. exact H.
Qed.
Lemma bytes_of_u8 (l : bytes) : byte_of <$> (u8 <$> l) = l.
Proof. rewrite <- list_fmap_compose. rewrite <- (list_fmap_id l) at 2. apply list_fmap_ext. intros i x _. apply byte_of_u8. Qed.
Lemma blen_fmap {A B} (f : A -> B) (l : list A) : blen (f <$> l) = blen l.
Proof. unfold blen. by rewrite length_fmap. Qed.
Lemma regroup_exact win w l k : 0 < win -> 0 < w -> Forall (digit win) l -> Forall (digit w) k ->
  win * blen l = w * blen k -> value win l = value w k -> regroup win w l = (0, 0, k).
Proof.
  intros Hwin Hw Hl Hk Hlen Hv. pose proof (regroup_spec win w l Hwin Hw Hl) as H.
  destruct (regroup win w l) as [[acc bits] out]. destruct H as [(Ha & Hb & Hval & Ht & Hd) Hlt].
  assert (blen out = blen k) as Hbl by nia. assert (bits = 0) as -> by nia.
  assert (acc = 0) as -> by (cbn in Ha; lia). do 2 f_equal; [].
  apply (value_inj w); [lia|unfold blen in Hbl; lia|done|done|]. rewrite <- Hv, <- Hval. cbn. lia.
Qed.

(** ** base64url *)

Lemma sextet_digit chunk bit : digit 6 (sextet chunk bit).
Proof. unfold sextet, digit. change 63 with (Z.ones 6). rewrite Z.land_ones by lia. by apply Z.mod_pos_bound. Qed.
Lemma sextet_eq chunk bit : 0 <= bit -> sextet chunk bit = chunk / 2 ^ bit mod 64.
Proof. intros H. unfold sextet. change 63 with (Z.ones 6). by rewrite Z.land_ones, Z.shiftr_div_pow2 by lia. Qed.
Lemma chunk_eq a b c : 0 <= a < 256 -> 0 <= b < 256 -> 0 <= c < 256 ->
  Z.lor (Z.lor (Z.shiftl a 16) (Z.shiftl b 8)) c = a * 65536 + b * 256 + c.
Proof.
  intros Ha Hb Hc. rewrite (lor_shiftl a (Z.shiftl b 8) 16) by (rewrite ?Z.shiftl_mul_pow2 by lia; lia).
  replace (a * 2 ^ 16 + Z.shiftl b 8) with (Z.shiftl (a * 256 + b) 8) by (rewrite !Z.shiftl_mul_pow2 by lia; lia).
  rewrite lor_shiftl by lia. lia.
Qed.
Lemma four_sextets a b c : 0 <= a < 256 -> 0 <= b < 256 -> 0 <= c < 256 ->
  let chunk := Z.lor (Z.lor (Z.shiftl a 16) (Z.shiftl b 8)) c in
  value 6 [sextet chunk 18; sextet chunk 12; sextet chunk 6; sextet chunk 0] = value 8 [a; b; c].
Proof.
  intros Ha Hb Hc. cbv zeta. rewrite chunk_eq, !sextet_eq by lia. unfold value. cbn [fold_left].
  change (2 ^ 6) with 64. change (2 ^ 8) with 256. change (2 ^ 18) with 262144. change (2 ^ 12) with 4096. change (2 ^ 0) with 1.
  Z.div_mod_to_equations. lia.
Qed.
Lemma three_sextets a b : 0 <= a < 256 -> 0 <= b < 256 ->
  let chunk := Z.lor (Z.lor (Z.shiftl a 16) (Z.shiftl b 8)) 0 in
  value 6 [sextet chunk 18; sextet chunk 12; sextet chunk 6] = 4 * value 8 [a; b].
Proof.
  intros Ha Hb. cbv zeta. rewrite chunk_eq, !sextet_eq by lia. unfold value. cbn [fold_left].
  change (2 ^ 6) with 64. change (2 ^ 8) with 256. change (2 ^ 18) with 262144. change (2 ^ 12) with 4096.
  Z.div_mod_to_equations. lia.
Qed.
Lemma sextets_spec n : forall l : bytes, length l = (3 * n + 2)%nat ->
  length (sextets l) = (4 * n + 3)%nat /\ Forall (digit 6) (sextets l) /\ value 6 (sextets l) = 4 * value 8 (u8 <$> l).
Proof.
  induction n as [|n IH]; intros l Hl.
  - destruct l as [|a [|b [|]]]; try discriminate Hl. cbn [sextets fmap list_fmap]. split_and!; [done| |].
    + repeat constructor; apply sextet_digit.
    + apply three_sextets; apply u8_range.
  - destruct l as [|a [|b [|c rest]]]; cbn [length] in Hl; try lia. destruct (IH rest) as (H1 & H2 & H3); [lia|].
    cbn [sextets]. cbv zeta. split_and!.
    + rewrite length_app, H1. cbn [length]. lia.
    + apply Forall_app. split; [|done]. repeat constructor; apply sextet_digit.
    + rewrite value_app, H3, four_sextets by (try apply u8_range; lia).
      change (u8 <$> a :: b :: c :: rest) with ([u8 a; u8 b; u8 c] ++ (u8 <$> rest)). rewrite (value_app 8) by lia.
      replace (2 ^ (6 * blen (sextets rest))) with (4 * 2 ^ (8 * blen (u8 <$> rest))); [ring|].
      change 4 with (2 ^ 2). rewrite <- Z.pow_add_r by (pose proof (blen_nonneg (u8 <$> rest)); lia). f_equal.
      rewrite blen_fmap. unfold blen. lia.
Qed.

Lemma below (n : nat) (f : Z -> bool) x : 0 <= x < Z.of_nat n -> forallb (fun k => f (Z.of_nat k)) (seq 0 n) = true -> f x = true.
Proof.
  intros Hx H. rewrite forallb_forall in H. specialize (H (Z.to_nat x)). rewrite Z2Nat.id in H by lia. apply H, in_seq. lia.
Qed.
Lemma char_index x : digit 6 x -> indexOf BASE64URL_ALPHABET (char_at BASE64URL_ALPHABET x) = x.
Proof. intros H. apply Z.eqb_eq. by apply (below 64 (fun x => indexOf BASE64URL_ALPHABET (char_at BASE64URL_ALPHABET x) =? x)). Qed.
Lemma char_base64url x : digit 6 x -> is_base64url (char_at BASE64URL_ALPHABET x) = true.
Proof. intros H. by apply (below 64 (fun x => is_base64url (char_at BASE64URL_ALPHABET x))). Qed.
Lemma chars_index l : Forall (digit 6) l -> indexOf BASE64URL_ALPHABET <$> (char_at BASE64URL_ALPHABET <$> l) = l.
Proof.
  intros H. rewrite <- list_fmap_compose. rewrite <- (list_fmap_id l) at 2. apply list_fmap_ext. intros i x Hx.
  rewrite Forall_lookup in H. by apply char_index, (H i).
Qed.

Lemma base64url_ok capability : blen capability = 32 ->
  encodeRoomCapabilityBase64Url capability = Ok (char_at BASE64URL_ALPHABET <$> sextets capability).
Proof. intros H. unfold encodeRoomCapabilityBase64Url, requireCapability. by rewrite H. Qed.
Lemma base64url_pattern l : length l = 43%nat -> Forall (digit 6) l ->
  BASE64URL_PATTERN (char_at BASE64URL_ALPHABET <$> l) = true.
Proof.
  intros Hl Hd. unfold BASE64URL_PATTERN. rewrite blen_fmap. unfold blen. rewrite Hl. apply andb_true_intro. split; [done|].
  apply forallb_forall. intros c (x & -> & Hx)%list_elem_of_In%list_elem_of_fmap.
  rewrite Forall_forall in Hd. by apply char_base64url, Hd.
Qed.
Lemma last_sextet l v : l <> [] -> Forall (digit 6) l -> value 6 l = 4 * v ->
  Z.land (indexOf BASE64URL_ALPHABET (default 0 (last (char_at BASE64URL_ALPHABET <$> l)))) 3 = 0.
Proof.
  intros Hl Hd Hv. destruct l as [|x l _] using rev_ind; [done|]. rewrite fmap_last, last_snoc. change (default 0 (char_at BASE64URL_ALPHABET <$> Some x)) with (char_at BASE64URL_ALPHABET x).
  apply digits_snoc in Hd as [_ Hx]. rewrite char_index by done. change 3 with (Z.ones 2). rewrite Z.land_ones by lia.
  rewrite value_snoc in Hv. change (2 ^ 6) with 64 in Hv. change (2 ^ 2) with 4. Z.div_mod_to_equations. lia.
Qed.
Lemma sextets_regroup capability : blen capability = 32 ->
  exists acc bits, regroup 6 8 (sextets capability) = (acc, bits, u8 <$> capability).
Proof.
  intros Hc. destruct (sextets_spec 10 capability) as (Hl & Hd & Hv); [unfold blen in Hc; lia|].
  pose proof (regroup_spec 6 8 (sextets capability)) as Hr. destruct (regroup 6 8 _) as [[acc bits] out].
  destruct Hr as [(Ha & Hb & Hval & Ht & Ho) Hlt]; [done..|]. exists acc, bits. f_equal.
  unfold blen in Hc, Ht. rewrite Hl in Ht. assert (bits = 2) as -> by lia. change (2 ^ 2) with 4 in Ha, Hval.
  apply (value_inj 8); [lia|rewrite length_fmap; lia|done|apply u8_digits|lia].
Qed.
Lemma base64url_restores capability : blen capability = 32 ->
  decodeRoomCapabilityBase64Url (char_at BASE64URL_ALPHABET <$> sextets capability) = Ok capability.
Proof.
  intros Hc. destruct (sextets_spec 10 capability) as (Hl & Hd & Hv); [unfold blen in Hc; lia|].
  unfold decodeRoomCapabilityBase64Url.
  rewrite base64url_pattern, (last_sextet _ _ ltac:(intros H; rewrite H in Hl; discriminate Hl) Hd Hv), chars_index by done.
  destruct (sextets_regroup capability Hc) as (acc & bits & ->).
  rewrite bytes_of_u8, Hc, base64url_ok by done. cbn [require mbind result_bind Z.eqb andb].
  change (32 =? ROOM_CAPABILITY_BYTES) with true. cbn [require mbind result_bind].
  by rewrite bool_decide_true.
Qed.
Lemma base64url_canonical e capability : decodeRoomCapabilityBase64Url e = Ok capability ->
  blen capability = 32 /\ encodeRoomCapabilityBase64Url capability = Ok e.
Proof.
  unfold decodeRoomCapabilityBase64Url. destruct (regroup _ _ _) as [[acc bits] out]. intros H. binds H. subst capability.
  apply require_ok, Z.eqb_eq in E1. apply require_ok, bool_decide_eq_true in E3. subst x. by split.
Qed.

(** ** Hexadecimal *)

Lemma hex_char_ok v : 0 <= v < 16 -> is_hex_digit (hex_char v) = true /\ hex_value (hex_char v) = v.
Proof.
  intros H. pose proof (below 16 (fun v => is_hex_digit (hex_char v) && (hex_value (hex_char v) =? v)) v H eq_refl) as Hv.
  apply andb_true_iff in Hv as [H1 H2%Z.eqb_eq]. done.
Qed.
Lemma u8_nibbles b : 0 <= u8 b / 16 < 16 /\ 0 <= u8 b mod 16 < 16 /\ 16 * (u8 b / 16) + u8 b mod 16 = u8 b.
Proof. pose proof (u8_range b). Z.div_mod_to_equations. lia. Qed.
Lemma hex_cons b l : bytesToHex (b :: l) = [hex_char (u8 b / 16); hex_char (u8 b mod 16)] ++ bytesToHex l.
Proof. done. Qed.
Lemma hex_restores l : hex_pairs (bytesToHex l) = l.
Proof.
  induction l as [|b l IH]; [done|]. rewrite hex_cons. cbn [app hex_pairs]. rewrite IH. f_equal.
  destruct (u8_nibbles b) as (H1 & H2 & H3).
  by rewrite (proj2 (hex_char_ok _ H1)), (proj2 (hex_char_ok _ H2)), H3, byte_of_u8.
Qed.
Lemma hex_shape l : blen (bytesToHex l) = 2 * blen l /\ forallb is_hex_digit (bytesToHex l) = true.
Proof.
  induction l as [|b l [IH1 IH2]]; [done|]. rewrite hex_cons, blen_app, forallb_app, IH1, IH2, blen_cons.
  destruct (u8_nibbles b) as (H1 & H2 & _). cbn [forallb]. rewrite (proj1 (hex_char_ok _ H1)), (proj1 (hex_char_ok _ H2)).
  split; [|done]. unfold blen. cbn [length]. lia.
Qed.
Lemma hex_decoded capability : blen capability = 32 -> hexToBytes (bytesToHex capability) = Ok capability.
Proof.
  intros H. unfold hexToBytes, HEX_PATTERN. destruct (hex_shape capability) as [-> ->]. rewrite H. cbn. by rewrite hex_restores.
Qed.

(** Lower case of a hexadecimal digit. *)
Definition lower_hex (c : Z) : Z := if in_range 65 70 c then c + 32 else c.
Lemma hex_pair_value c : is_hex_digit c = true -> 0 <= hex_value c < 16 /\ hex_char (hex_value c) = lower_hex c.
Proof.
  intros H. assert (0 <= c < 128) as Hc by (unfold is_hex_digit, in_range in H; lia).
  pose proof (below 128 (fun c => negb (is_hex_digit c) || (in_range 0 15 (hex_value c) && (hex_char (hex_value c) =? lower_hex c))) c Hc eq_refl) as Hv.
  cbv beta in Hv. rewrite H in Hv. cbn [negb orb] in Hv. apply andb_true_iff in Hv as [H1 H2%Z.eqb_eq]. unfold in_range in H1. split; [lia|done].
Qed.
Lemma hex_canonical n : forall s, length s = (2 * n)%nat -> forallb is_hex_digit s = true ->
  length (hex_pairs s) = n /\ bytesToHex (hex_pairs s) = lower_hex <$> s.
Proof.
  induction n as [|n IH]; intros s Hl Hs.
  - by destruct s.
  - destruct s as [|a [|b rest]]; cbn [length] in Hl; try lia. cbn [forallb] in Hs. rewrite !andb_true_iff in Hs.
    destruct Hs as (Ha & Hb & Hs). destruct (IH rest) as [H1 H2]; [lia|done|]. cbn [hex_pairs length].
    destruct (hex_pair_value a Ha) as [Ra Va]. destruct (hex_pair_value b Hb) as [Rb Vb].
    rewrite hex_cons, H1, H2, u8_byte_of, Z.mod_small by lia.
    replace ((16 * hex_value a + hex_value b) / 16) with (hex_value a) by (Z.div_mod_to_equations; lia).
    replace ((16 * hex_value a + hex_value b) mod 16) with (hex_value b) by (Z.div_mod_to_equations; lia).
    rewrite Va, Vb. done.
Qed.

(** ** The compact forms *)

Lemma startsWith_app p r : startsWith (p ++ r) p = true.
Proof. unfold startsWith. apply bool_decide_eq_true. unfold slice, blen. rewrite Z.sub_0_r, Nat2Z.id. cbn [Z.to_nat drop]. apply take_app_length. Qed.
Lemma startsWith_ok s p : startsWith s p = true -> s = p ++ slice_from s (blen p).
Proof.
  unfold startsWith, slice, slice_from, blen. rewrite bool_decide_eq_true, Nat2Z.id, Z.sub_0_r, Nat2Z.id. cbn [Z.to_nat drop].
  intros H. rewrite <- H at 1. by rewrite take_drop.
Qed.
Lemma slice_from_prefix (p r : list Z) : slice_from (p ++ r) (blen p) = r.
Proof. by apply slice_from_app. Qed.

(** No character of a class that leaves out those of [p] starts a prefix. *)
Lemma startsWith_not (f : Z -> bool) s c p : forallb f s = true -> f c = false -> c ∈ p -> startsWith s p = false.
Proof.
  intros Hs Hc Hp. apply not_true_is_false. intros H%startsWith_ok. rewrite H, forallb_app in Hs.
  apply andb_true_iff in Hs as [Hs _]. rewrite forallb_forall in Hs. apply list_elem_of_In, Hs in Hp. congruence.
Qed.
Lemma base64url_shape e capability : encodeRoomCapabilityBase64Url capability = Ok e ->
  blen capability = 32 /\ decodeRoomCapabilityBase64Url e = Ok capability /\ blen e = 43 /\ forallb is_base64url e = true.
Proof.
  intros He. assert (blen capability = 32) as Hc.
  { unfold encodeRoomCapabilityBase64Url, requireCapability in He. binds He. binds E. by apply require_ok, Z.eqb_eq in E0. }
  rewrite base64url_ok in He by done. injection He as <-.
  destruct (sextets_spec 10 capability) as (Hl & Hd & _); [unfold blen in Hc; lia|].
  pose proof (base64url_pattern _ Hl Hd) as [H1%Z.eqb_eq H2]%andb_true_iff.
  split_and!; [done|by apply base64url_restores|done|done].
Qed.
Lemma fragment_decodes e capability p : encodeRoomCapabilityBase64Url capability = Ok e -> p = [] \/ p = units "#" ->
  decodeRoomInviteFragment (p ++ ROOM_INVITE_PREFIX ++ e) = Ok capability.
Proof.
  intros (_ & He & _)%base64url_shape Hp. unfold decodeRoomInviteFragment.
  assert ((if startsWith (p ++ ROOM_INVITE_PREFIX ++ e) (units "#") then slice_from (p ++ ROOM_INVITE_PREFIX ++ e) 1
           else p ++ ROOM_INVITE_PREFIX ++ e) = ROOM_INVITE_PREFIX ++ e) as ->.
  { destruct Hp as [->| ->]; [done|]. rewrite startsWith_app. exact (slice_from_prefix (units "#") _). }
  rewrite startsWith_app, slice_from_prefix. exact He.
Qed.

(** C26. An invite has one spelling in each form.  [decodeRoomCapability] gives a
    capability exactly for its 43-character base64url form, for that form behind
    [v1.] or [#v1.], and for its 64 hexadecimal digits in either case: all of
    them name the same room, and no other string names it. *)
Theorem invite_spellings s capability : decodeRoomCapability s = Ok capability <->
  blen capability = 32 /\
  ((exists e, encodeRoomCapabilityBase64Url capability = Ok e /\
      (s = e \/ s = ROOM_INVITE_PREFIX ++ e \/ s = units "#" ++ ROOM_INVITE_PREFIX ++ e)) \/
   (HEX_PATTERN s = true /\ lower_hex <$> s = bytesToHex capability)).
Proof.
  split.
  - unfold decodeRoomCapability. destruct (startsWith s ROOM_INVITE_PREFIX || _) eqn:Hs.
    + unfold decodeRoomInviteFragment. destruct (startsWith s (units "#")) eqn:Hh; intros H; binds H; apply require_ok in E.
      * apply startsWith_ok in Hh, E. apply base64url_canonical in H as [Hc H]. split; [done|left]. eexists. split; [exact H|].
        right; right. rewrite <- E. exact Hh.
      * apply startsWith_ok in E. apply base64url_canonical in H as [Hc H]. split; [done|left]. eexists. split; [exact H|].
        right; left. exact E.
    + destruct (blen s =? ROOM_CAPABILITY_HEX_CHARS) eqn:Hl; intros H.
      * unfold hexToBytes in H. binds H. apply require_ok in E. subst capability. pose proof E as [Hl2 Hd]%andb_true_iff.
        destruct (hex_canonical 32 s) as [H1 H2]; [apply Z.eqb_eq in Hl2; unfold blen in Hl2; lia|done|].
        split; [unfold blen; by rewrite H1|right]. by split.
      * apply base64url_canonical in H as [Hc H]. split; [done|left]. eauto.
  - intros [Hc [(e & He & Hs)|[Hp Hh]]]; unfold decodeRoomCapability.
    + destruct Hs as [->|[->| ->]].
      * destruct (base64url_shape _ _ He) as (_ & Hd & Hl & Hf).
        rewrite (startsWith_not is_base64url e 46), (startsWith_not is_base64url e 46), Hl by (first [done|eapply bool_decide_unpack; reflexivity]).
        exact Hd.
      * rewrite startsWith_app. exact (fragment_decodes e capability [] He (or_introl eq_refl)).
      * rewrite app_assoc, startsWith_app, orb_true_r, <- app_assoc. by apply fragment_decodes; [|right].
    + pose proof Hp as [Hl%Z.eqb_eq Hd]%andb_true_iff.
      rewrite (startsWith_not is_hex_digit s 118), (startsWith_not is_hex_digit s 118), Hl by (first [done|eapply bool_decide_unpack; reflexivity]).
      destruct (hex_canonical 32 s) as [_ H2]; [unfold blen in Hl; lia|done|]. cbn [orb]. unfold hexToBytes. rewrite Hp. cbn.
      rewrite Hh in H2. rewrite <- (hex_restores (hex_pairs s)), H2. by rewrite hex_restores.
Qed.

(** ** The word list *)

(** Words of at most eight letters compare like these numbers. *)
Definition word_number (w : list Z) : Z := value 7 (w ++ replicate (8 - length w) 0).
Fixpoint increasing (l : list Z) : bool :=
  match l with x :: ((y :: _) as rest) => (x <? y) && increasing rest | _ => true end.
Lemma increasing_above l : forall x, increasing (x :: l) = true -> Forall (Z.lt x) l /\ increasing l = true.
Proof.
  induction l as [|y l IH]; intros x H; [done|]. cbn [increasing] in H. apply andb_true_iff in H as [H1%Z.ltb_lt H2].
  split; [|done]. constructor; [done|]. destruct (IH y H2) as [H3 _]. eapply Forall_impl; [exact H3|]. cbn. lia.
Qed.
Lemma increasing_NoDup l : increasing l = true -> NoDup l.
Proof.
  induction l as [|x l IH]; intros H; [constructor|]. destruct (increasing_above l x H) as [H1 H2].
  constructor; [|by apply IH]. rewrite Forall_forall in H1. intros Hx. specialize (H1 x Hx). lia.
Qed.

Lemma words_length : length words = 2048%nat.
Proof. vm_compute. reflexivity. Qed.
Lemma words_NoDup : NoDup words.
Proof.
  apply (NoDup_fmap_1 word_number), increasing_NoDup. vm_compute. reflexivity.
Qed.
Definition is_lower (c : Z) : bool := in_range 97 122 c.
Lemma words_lower w : w ∈ words -> w <> [] /\ forallb is_lower w = true.
Proof.
  assert (forallb (fun w => negb (blen w =? 0) && forallb is_lower w) words = true) as H by (vm_compute; reflexivity).
  intros Hw. rewrite forallb_forall in H. apply list_elem_of_In, H in Hw. apply andb_true_iff in Hw as [H1 H2].
  split; [intros ->; discriminate H1|done].
Qed.

Lemma find_word_at l w : forall i k, NoDup l -> l !! k = Some w -> find_word l w i = Some (i + Z.of_nat k).
Proof.
  induction l as [|x l IH]; intros i [|k] Hn Hk; try done; cbn [find_word].
  - injection Hk as ->. rewrite bool_decide_true by done. f_equal. lia.
  - apply NoDup_cons in Hn as [Hx Hn]. cbn in Hk. rewrite bool_decide_false.
    + rewrite (IH _ k) by done. f_equal. lia.
    + intros ->. apply Hx. by apply list_elem_of_lookup_2 in Hk.
Qed.
Lemma find_word_is l w : forall i j, find_word l w i = Some j -> i <= j /\ l !! Z.to_nat (j - i) = Some w.
Proof.
  induction l as [|x l IH]; intros i j H; [done|]. cbn [find_word] in H. case_bool_decide as Hx.
  - injection H as <-. rewrite Z.sub_diag. split; [lia|]. by subst.
  - apply IH in H as [H1 H2]. split; [lia|]. replace (Z.to_nat (j - i)) with (S (Z.to_nat (j - (i + 1)))) by lia. exact H2.
Qed.
Lemma word_lookup i : digit 11 i -> exists w, words !! Z.to_nat i = Some w /\ word_at i = w /\ w ∈ words.
Proof.
  intros Hi. unfold digit in Hi. destruct (lookup_lt_is_Some_2 words (Z.to_nat i)) as [w Hw].
  { rewrite words_length. change (2 ^ 11) with 2048 in Hi. lia. }
  exists w. unfold word_at. rewrite Hw. split_and!; [done|done|]. by apply list_elem_of_lookup_2 in Hw.
Qed.
Lemma word_index i : digit 11 i -> wordIndexes (word_at i) = Some i.
Proof.
  intros Hi. destruct (word_lookup i Hi) as (w & Hw & -> & _). unfold wordIndexes.
  rewrite (find_word_at _ _ 0 _ words_NoDup Hw). unfold digit in Hi. f_equal. lia.
Qed.
Lemma index_word w i : wordIndexes w = Some i -> digit 11 i /\ word_at i = w.
Proof.
  intros [H1 H2]%find_word_is. rewrite Z.sub_0_r in H2. unfold word_at. rewrite H2. split; [|done].
  apply lookup_lt_Some in H2. rewrite words_length in H2. unfold digit. change (2 ^ 11) with 2048. lia.
Qed.

Lemma find_words_at indexes : Forall (digit 11) indexes -> find_words (word_at <$> indexes) = Ok indexes.
Proof.
  induction 1 as [|i l Hi _ IH]; [done|]. change (word_at <$> i :: l) with (word_at i :: (word_at <$> l)).
  cbn [find_words]. by rewrite word_index, IH.
Qed.
Lemma find_words_is ws : forall indexes, find_words ws = Ok indexes -> Forall (digit 11) indexes /\ word_at <$> indexes = ws.
Proof.
  induction ws as [|w ws IH]; intros indexes H; cbn [find_words] in H; [by injection H as <-|].
  destruct (wordIndexes w) as [i|] eqn:Hi; [|done]. binds H. subst indexes. destruct (index_word _ _ Hi) as [Hd Hw].
  destruct (IH _ E) as [H1 H2]. split; [by constructor|].
  change (word_at <$> i :: x) with (word_at i :: (word_at <$> x)). by rewrite Hw, H2.
Qed.

(** ** The bits of the words *)

Lemma word_indexes_total (l : bytes) : blen l = 33 ->
  exists indexes, bytesToWordIndexes l = Ok indexes /\ blen indexes = 24 /\ Forall (digit 11) indexes /\
    wordIndexesToBytes indexes = Ok l.
Proof.
  intros Hl. pose proof (regroup_spec 8 11 (u8 <$> l)) as H. unfold bytesToWordIndexes.
  destruct (regroup 8 11 _) as [[acc bits] out]. destruct H as [(Ha & Hb & Hv & Ht & Hd) Hlt]; [done|done|apply u8_digits|].
  rewrite blen_fmap, Hl in Ht. assert (bits = 0) as -> by lia. exists out.
  assert (blen out = 24) as Ho by lia. change (2 ^ 0) with 1 in Ha, Hv.
  split_and!; [done|done|done|]. unfold wordIndexesToBytes.
  rewrite (regroup_exact 11 8 out (u8 <$> l)); [|done|done|done|apply u8_digits|rewrite blen_fmap; lia|lia].
  rewrite blen_fmap, Hl. cbn. by rewrite bytes_of_u8.
Qed.
Lemma word_indexes_exact indexes (l : bytes) : Forall (digit 11) indexes -> wordIndexesToBytes indexes = Ok l ->
  bytesToWordIndexes l = Ok indexes /\ blen l = 33.
Proof.
  intros Hi. pose proof (regroup_spec 11 8 indexes) as H. unfold wordIndexesToBytes.
  destruct (regroup 11 8 _) as [[acc bits] out]. destruct H as [(Ha & Hb & Hv & Ht & Hd) Hlt]; [done..|].
  intros H. binds H. subst l. apply require_ok, andb_true_iff in E as [->%Z.eqb_eq Hl%Z.eqb_eq].
  change (ROOM_CAPABILITY_BYTES + 1) with 33 in Hl. change (2 ^ 0) with 1 in Ha, Hv. rewrite blen_fmap. split; [|done].
  unfold bytesToWordIndexes. rewrite bytes_of_digits by done.
  rewrite (regroup_exact 8 11 out indexes); [done|done|done|done|done|lia|lia].
Qed.

(** ** Words on one line *)

Definition plain (w : list Z) : Prop := w <> [] /\ forallb is_lower w = true.
Lemma lower_not_space c : is_lower c = true -> is_space c = false.
Proof. unfold is_lower, is_space, in_range. lia. Qed.
Lemma split_word after part w rest : plain w -> split_spaces after part (w ++ rest) = split_spaces false (part ++ w) rest.
Proof.
  intros [Hw Hl]. destruct w as [|c w]; [done|clear Hw]. revert after part c Hl. induction w as [|d w IH]; intros after part c Hl.
  - cbn in Hl. rewrite andb_true_r in Hl. cbn [app split_spaces]. by rewrite (lower_not_space c Hl).
  - cbn [forallb] in Hl. apply andb_true_iff in Hl as [Hc Hl]. change ((c :: d :: w) ++ rest) with (c :: ((d :: w) ++ rest)).
    cbn [split_spaces]. rewrite (lower_not_space c Hc), IH by done. by rewrite <- app_assoc.
Qed.
Lemma split_join ws : forall after, ws <> [] -> Forall plain ws -> split_spaces after [] (join ws) = ws.
Proof.
  induction ws as [|w ws IH]; intros after Hne H; [done|]. apply Forall_cons in H as [Hw H]. destruct ws as [|w' ws].
  - cbn [join]. rewrite <- (app_nil_r w) at 1. rewrite split_word by done. by rewrite app_nil_l.
  - change (join (w :: w' :: ws)) with (w ++ [32] ++ join (w' :: ws)). rewrite split_word by done.
    cbn [app split_spaces]. change (is_space 32) with true. cbv iota. by rewrite IH.
Qed.
Lemma join_ends ws : ws <> [] -> Forall plain ws -> exists c rest pre d, join ws = c :: rest /\ join ws = pre ++ [d] /\
  is_space c = false /\ is_space d = false.
Proof.
  induction ws as [|w ws IH]; intros Hne H; [done|]. apply Forall_cons in H as [[Hw Hl] H].
  destruct w as [|c w]; [done|]. pose proof Hl as [Hc _]%andb_true_iff.
  destruct ws as [|w' ws].
  - destruct (c :: w) as [|d pre _] eqn:E using rev_ind; [discriminate|]. rewrite forallb_app in Hl.
    apply andb_true_iff in Hl as [_ Hd]. cbn in Hd. rewrite andb_true_r in Hd. exists c, w, pre, d.
    cbn [join]. rewrite <- E at 1. split_and!; [done|done|by apply lower_not_space|by apply lower_not_space].
  - destruct (IH) as (c' & rest & pre & d & _ & Hj & _ & Hd); [done|done|].
    exists c, (w ++ [32] ++ join (w' :: ws)), (c :: w ++ [32] ++ pre), d. change (join ((c :: w) :: w' :: ws)) with ((c :: w) ++ [32] ++ join (w' :: ws)).
    split_and!; [done| |by apply lower_not_space|done]. rewrite Hj. cbn. by rewrite <- app_assoc.
Qed.
Lemma trim_join ws : ws <> [] -> Forall plain ws -> trim (join ws) = join ws.
Proof.
  intros Hne H. destruct (join_ends ws Hne H) as (c & rest & pre & d & H1 & H2 & Hc & Hd). unfold trim.
  assert (trim_start (join ws) = join ws) as -> by (rewrite H1; cbn [trim_start]; by rewrite Hc).
  assert (trim_start (reverse (join ws)) = reverse (join ws)) as ->; [|by rewrite reverse_involutive].
  rewrite H2, reverse_app. change (reverse [d]) with [d]. cbn [app trim_start]. by rewrite Hd.
Qed.
Lemma join_letters ws : Forall plain ws -> forallb (fun c => is_lower c || (c =? 32)) (join ws) = true.
Proof.
  assert (forall w, forallb is_lower w = true -> forallb (fun c => is_lower c || (c =? 32)) w = true) as Hw.
  { intros w. rewrite !forallb_forall. intros H c Hc. by rewrite H. }
  induction 1 as [|w ws [_ Hl] _ IH]; [done|]. destruct ws as [|w' ws]; [by apply Hw|].
  change (join (w :: w' :: ws)) with (w ++ [32] ++ join (w' :: ws)). rewrite !forallb_app, IH, Hw by done. done.
Qed.
Lemma words_plain indexes : Forall (digit 11) indexes -> Forall plain (word_at <$> indexes).
Proof.
  intros H. apply Forall_fmap. eapply Forall_impl; [exact H|]. intros i Hi. destruct (word_lookup i Hi) as (w & _ & Hw & Hin).
  unfold compose. rewrite Hw. exact (words_lower w Hin).
Qed.

(** Text of small letters and spaces is in normal form and in lower case. *)
Class PlainText (P : InvitePlatform) : Prop := {
  nfkd_plain s : forallb (fun c => is_lower c || (c =? 32)) s = true -> normalizeNFKD s = s;
  lower_plain s : forallb (fun c => is_lower c || (c =? 32)) s = true -> toLowerCase s = s;
}.

Section Words.
Context {P : InvitePlatform} `{!PlainText P}.

Lemma split_line ws : ws <> [] -> Forall plain ws -> split_words (join ws) = ws.
Proof.
  intros Hne H. unfold split_words. rewrite nfkd_plain, trim_join, lower_plain by (try done; by apply join_letters).
  destruct (join_ends ws Hne H) as (c & rest & _ & _ & H1 & _). destruct (Z.eqb_spec (blen (join ws)) 0) as [E|_].
  { rewrite H1, blen_cons in E. pose proof (blen_nonneg rest). lia. }
  by apply split_join.
Qed.
Lemma words_ok capability line : encodeRoomCapabilityWords capability = Ok line <->
  blen capability = 32 /\ exists indexes, line = join (word_at <$> indexes) /\ Forall (digit 11) indexes /\ blen indexes = 24 /\
    wordIndexesToBytes indexes = Ok (capability ++ [byte_of (roomInviteChecksum capability)]).
Proof.
  unfold encodeRoomCapabilityWords, requireCapability. split.
  - intros H. binds H. binds E. apply require_ok, Z.eqb_eq in E2. subst x. split; [done|].
    destruct (word_indexes_total (capability ++ [byte_of (roomInviteChecksum capability)])) as (i & Hi & Hl & Hd & Hb).
    { rewrite blen_app, E2. done. }
    exists i. assert (x0 = i) as -> by congruence. done.
  - intros [Hc (i & -> & Hd & Hl & Hb)]. rewrite Hc. cbn.
    destruct (word_indexes_exact _ _ Hd Hb) as [-> _]. cbn. by rewrite Hl.
Qed.
Lemma checksum_byte capability : default 0 (at_ [byte_of (roomInviteChecksum capability)] 0) = roomInviteChecksum capability.
Proof.
  change (u8 (byte_of (roomInviteChecksum capability)) = roomInviteChecksum capability). rewrite u8_byte_of. apply Z.mod_small. unfold roomInviteChecksum, at_.
  destruct (sha256 _ !! _) as [b|]; cbn; [apply u8_range|lia].
Qed.

(** The 24 words are one more spelling of the capability, protected by a checksum.
    A text decodes to a capability exactly when, up to case, normalization and
    white space, it consists of the very words that the encoder gives for it; so
    the encoder's line is read back, and a text with other words, another
    order or a wrong checksum names another capability or none. *)
Theorem words_spelling encoded capability : decodeRoomCapabilityWords encoded = Ok capability <->
  exists line, encodeRoomCapabilityWords capability = Ok line /\ split_words encoded = split_words line.
Proof.
  split.
  - unfold decodeRoomCapabilityWords. intros H. binds H. apply find_words_is in E0 as [Hd Hw].
    destruct (word_indexes_exact _ _ Hd E1) as [_ Hl]. apply require_ok in E, E2. apply bool_decide_eq_true in E2.
    exists (join (word_at <$> x)). assert (blen x = 24) as Hx by (rewrite <- Hw, blen_fmap in E; by apply Z.eqb_eq in E).
    split.
    + apply words_ok. subst capability. split; [by rewrite blen_slice by (change ROOM_CAPABILITY_BYTES with 32; lia)|].
      exists x. split_and!; [done|done|done|]. rewrite E1. f_equal.
      rewrite <- (slice_all x0 33) at 1 by done. rewrite (slice_split x0 0 32 33) by lia. f_equal.
      by apply (slice_one x0 32).
    + rewrite Hw, split_line; [by rewrite <- Hw|intros H0; rewrite H0 in E; discriminate E|rewrite <- Hw; by apply words_plain].
  - intros (line & Hline & Hs). apply words_ok in Hline as [Hc (i & -> & Hd & Hl & Hb)].
    unfold decodeRoomCapabilityWords. rewrite Hs, split_line;
      [|intros H0; apply (f_equal blen) in H0; rewrite blen_fmap, Hl in H0; discriminate H0|by apply words_plain].
    rewrite blen_fmap, Hl, find_words_at by done. cbn [require mbind result_bind]. rewrite Hb. cbn [mbind result_bind].
    assert (slice (capability ++ [byte_of (roomInviteChecksum capability)]) 0 ROOM_CAPABILITY_BYTES = capability) as ->.
    { rewrite slice_app_in by (change ROOM_CAPABILITY_BYTES with 32; lia). by apply slice_all. }
    assert (at_ (capability ++ [byte_of (roomInviteChecksum capability)]) ROOM_CAPABILITY_BYTES = Some (roomInviteChecksum capability)) as ->.
    { rewrite at_app_r by (unfold ROOM_CAPABILITY_BYTES; lia). rewrite Hc. rewrite <- (checksum_byte capability) at 2. done. }
    cbn. by rewrite bool_decide_true.
Qed.
End Words.
