(* ===== verification/RoomPins.v ===== *)
(** * Room PINs ([src/src/roomPinAttempts.ts], [src/src/roomPinVault.ts])

    The attempts at a room's PIN: the durable backoff of a peer identity, which
    the database worker keeps in its [meta] store ([fnIncrementPinAttemptState]
    and its neighbours in [db.worker.ts]), the window of recent failures of a
    room in this tab, and the three calls [handleOpenChannel.ts] makes around a
    handshake, with the handshakes of a room running next to each other
    ([pin_step]); and the vault that owns the PIN bytes in memory.  The theorems
    bound the guesses at a PIN and say what the vault leaves in memory.

    A string is the list of its UTF-16 code units.  Clock values are below
    [2 ^ 52] milliseconds, so that sums are exact. *)

From Stdlib Require Import String Ascii Sorting.Sorted.
From stdpp Require Import gmap.
From S2P Require Import Prelude Bytes Ratchet Metadata RoomInvite Proto Handshake Crypto RatchetKeys RoomInviteCodec Cpace X25519.
From S2P Require Import RoomPolicy MlKem MlKemWasm.
Local Open Scope Z_scope.
Local Open Scope list_scope.
Implicit Types (roomId peer : list Z) (now : Z).

(** ** The worker's buckets *)

Inductive PinError :=
  | empty_room | bad_identity | bad_backoff | room_throttled (until : Z) | identity_throttled (until : Z).
#[export] Instance PinError_eq_dec : EqDecision PinError.
Proof. solve_decision. Defined.

Record PinAttemptState := { pa_failures : Z; pa_retryAfter : Z }.

(** The rows of [meta] under these names, and [roomFailureWindows]. *)
Record Pins := MkPins { pn_meta : gmap (list Z) PinAttemptState; pn_windows : gmap (list Z) (list Z) }.
Abbreviation pins A := (M Pins PinError A).
Definition set_meta (meta : gmap (list Z) PinAttemptState) (p : Pins) : Pins := MkPins meta (pn_windows p).
Definition set_windows (windows : gmap (list Z) (list Z)) (p : Pins) : Pins := MkPins (pn_meta p) windows.

Definition PIN_ATTEMPT_META_PREFIX : list Z := units "pinAttempts:v2:".
Definition PIN_IDENTITY_RE peer : bool :=
  (blen peer =? 64) && forallb (fun c => in_range 48 57 c || in_range 97 102 c) peer.
Definition assertPinAttemptScope roomId (peer : option (list Z)) : result PinError unit :=
  require (negb (bool_decide (roomId = []))) empty_room;;
  match peer with Some peer => require (PIN_IDENTITY_RE peer) bad_identity | None => Ok tt end.

Definition pinAttemptRoomMetaPrefix roomId : list Z :=
  PIN_ATTEMPT_META_PREFIX ++ units (decimal (blen roomId)) ++ units ":" ++ roomId ++ units ":".
Definition pinAttemptMetaId roomId peer : list Z := pinAttemptRoomMetaPrefix roomId ++ peer.
Definition legacyMetaId roomId : list Z := units "pinAttempts:" ++ roomId.

Definition fnGetPinAttemptState roomId peer : pins (option PinAttemptState) :=
  lift (assertPinAttemptScope roomId (Some peer));;
  this ← get_this; mret (pn_meta this !! pinAttemptMetaId roomId peer).

Definition backoff_parameters_ok now (maxImmediate base maxMs : Z) : bool :=
  isSafeInteger now && isSafeInteger maxImmediate && isSafeInteger base && isSafeInteger maxMs
  && negb ((now <? 0) || (maxImmediate <? 1) || (base <? 1) || (maxMs <? base)).
(** [2 ** n] is exact or infinite, so the minimum is exact. *)
Definition backoff (failures maxImmediate base maxMs : Z) : Z :=
  if failures <? maxImmediate then 0 else Z.min (base * 2 ^ (failures - maxImmediate)) maxMs.
Definition fnIncrementPinAttemptState roomId peer now (maxImmediate base maxMs : Z) : pins PinAttemptState :=
  lift (assertPinAttemptScope roomId (Some peer));;
  mrequire (backoff_parameters_ok now maxImmediate base maxMs) bad_backoff;;
  this ← get_this;
  let key := pinAttemptMetaId roomId peer in
  let failures := match pn_meta this !! key with Some current => pa_failures current | None => 0 end + 1 in
  let next := {| pa_failures := failures; pa_retryAfter := now + backoff failures maxImmediate base maxMs |} in
  modify_this (fun p => set_meta (<[key := next]> (pn_meta p)) p);;
  mret next.

Definition fnDeletePinAttemptState roomId (peer : option (list Z)) : pins unit :=
  lift (assertPinAttemptScope roomId peer);;
  match peer with
  | Some peer => modify_this (fun p => set_meta (delete (pinAttemptMetaId roomId peer) (pn_meta p)) p)
  | None =>
      modify_this (fun p => set_meta
        (delete (legacyMetaId roomId) (filter (fun '(key, _) => startsWith key (pinAttemptRoomMetaPrefix roomId) = false) (pn_meta p))) p)
  end.

(** ** The window of a room *)

Definition MAX_PIN_ATTEMPTS : Z := 3.
Definition PIN_BACKOFF_BASE_MS : Z := 500.
Definition PIN_BACKOFF_MAX_MS : Z := 5 * 60000.
Definition ROOM_PIN_FAILURE_WINDOW_MS : Z := 5 * 60000.
Definition MAX_ROOM_PIN_FAILURES_PER_WINDOW : Z := 30.

Definition currentRoomFailures roomId now : pins (list Z) :=
  this ← get_this;
  let current := filter (fun timestamp => now - ROOM_PIN_FAILURE_WINDOW_MS < timestamp) (default [] (pn_windows this !! roomId)) in
  modify_this (fun p => set_windows (if bool_decide (current = []) then delete roomId (pn_windows p)
                                     else <[roomId := current]> (pn_windows p)) p);;
  mret current.
Definition assertRoomPinAggregateAllowed roomId now : pins unit :=
  failures ← currentRoomFailures roomId now;
  mrequire (blen failures <? MAX_ROOM_PIN_FAILURES_PER_WINDOW)
    (room_throttled (default 0 (head failures) + ROOM_PIN_FAILURE_WINDOW_MS)).
Definition recordRoomPinAggregateFailure roomId now : pins unit :=
  failures ← currentRoomFailures roomId now;
  modify_this (fun p => set_windows (<[roomId := failures ++ [now]]> (pn_windows p)) p).
Definition clearRoomPinAggregateFailures roomId : pins unit :=
  modify_this (fun p => set_windows (delete roomId (pn_windows p)) p).

Definition pinBackoffMs (failures : Z) : Z :=
  if failures <? MAX_PIN_ATTEMPTS then 0
  else Z.min (PIN_BACKOFF_BASE_MS * 2 ^ (failures - MAX_PIN_ATTEMPTS)) PIN_BACKOFF_MAX_MS.

(** What [assertPinAttemptAllowed] does behind its await of the database. *)
Definition assertPinIdentityAllowed roomId peer now : pins unit :=
  state ← fnGetPinAttemptState roomId peer;
  match state with
  | Some state => mrequire (negb (now <? pa_retryAfter state)) (identity_throttled (pa_retryAfter state))
  | None => mret tt
  end.
Definition assertPinAttemptAllowed roomId peer now : pins unit :=
  assertRoomPinAggregateAllowed roomId now;;
  assertPinIdentityAllowed roomId peer now.
Definition recordPinFailure roomId peer now : pins unit :=
  recordRoomPinAggregateFailure roomId now;;
  fnIncrementPinAttemptState roomId peer now MAX_PIN_ATTEMPTS PIN_BACKOFF_BASE_MS PIN_BACKOFF_MAX_MS;;
  mret tt.
Definition clearPinAttempts roomId (peer : option (list Z)) : pins unit :=
  match peer with None => clearRoomPinAggregateFailures roomId | Some _ => mret tt end;;
  fnDeletePinAttemptState roomId peer.

(** ** Around a handshake ([onopen] in [handleOpenChannel.ts]) *)

(** [/key-confirmation/i] on the message of the error. *)
Definition is_key_confirmation (e : HandshakeError) : bool :=
  match e with KeyConfirmationFailed => true | _ => false end.

(** What the end of [runHandshake] does to the attempts of a PIN room; [now] is
    the clock at that time.  Errors of the two calls are logged and dropped. *)
Definition settleHandshake {A} roomId peer now (outcome : result HandshakeError A) (p : Pins) : Pins :=
  match outcome with
  | Ok _ => (clearPinAttempts roomId (Some peer) p).2
  | Err e => if is_key_confirmation e then (recordPinFailure roomId peer now p).2 else p
  end.

(** ** The vault *)

(** Buffers by their identity: those of the vault's Map, and copies handed out. *)
Record PinVault := MkPinVault { pv_heap : gmap nat bytes; pv_next : nat; pv_pins : gmap (list Z) nat }.
Inductive VaultError := empty_context | empty_pin.
#[export] Instance VaultError_eq_dec : EqDecision VaultError.
Proof. solve_decision. Defined.
Abbreviation vault A := (M PinVault VaultError A).

Definition assertRoomContext (roomContext : list Z) : vault unit := mrequire (negb (bool_decide (roomContext = @nil Z))) empty_context.
(** [Uint8Array.from(pin)], the argument given by its contents. *)
Definition copy_of (pin : bytes) : vault nat :=
  this ← get_this;
  set_this (MkPinVault (<[pv_next this := pin]> (pv_heap this)) (S (pv_next this)) (pv_pins this));;
  mret (pv_next this).
(** The default zeroizer: [pin.fill(0)]. *)
Definition zeroize (buffer : nat) : vault unit :=
  modify_this (fun v => MkPinVault (alter (fun b => zeros (blen b)) buffer (pv_heap v)) (pv_next v) (pv_pins v)).
Definition set_pins (f : gmap (list Z) nat -> gmap (list Z) nat) : vault unit :=
  modify_this (fun v => MkPinVault (pv_heap v) (pv_next v) (f (pv_pins v))).

Definition vault_put roomContext (pin : bytes) : vault unit :=
  assertRoomContext roomContext;;
  mrequire (negb (blen pin =? 0)) empty_pin;;
  replacement ← copy_of pin;
  this ← get_this;
  match pv_pins this !! roomContext with Some previous => zeroize previous | None => mret tt end;;
  set_pins <[roomContext := replacement]>.
Definition vault_get roomContext : vault (option nat) :=
  assertRoomContext roomContext;;
  this ← get_this;
  match pv_pins this !! roomContext with
  | Some buffer => copy ← copy_of (default [] (pv_heap this !! buffer)); mret (Some copy)
  | None => mret None
  end.
Definition vault_has roomContext : vault bool :=
  assertRoomContext roomContext;; this ← get_this; mret (bool_decide (is_Some (pv_pins this !! roomContext))).
Definition vault_delete roomContext : vault bool :=
  assertRoomContext roomContext;;
  this ← get_this;
  match pv_pins this !! roomContext with
  | None => mret false
  | Some buffer => zeroize buffer;; set_pins (delete roomContext);; mret true
  end.
Fixpoint zeroize_all (buffers : list nat) : vault unit :=
  match buffers with [] => mret tt | b :: rest => zeroize b;; zeroize_all rest end.
Definition vault_clear : vault unit :=
  this ← get_this; zeroize_all ((map_to_list (pv_pins this)).*2);; set_pins (fun _ => ∅).

(** * What the PIN attempts bound, and what they miss

    Theorems on [RoomPins]: a peer that completes wrong guesses is slowed down
    per identity, and all peers of a room together, up to what is in flight; the buckets of identities and rooms are separate;
    a guess that the peer breaks off after the confirmation it was sent is not
    counted; no PIN is left in a buffer the vault gave up. *)

(** ** One call *)

Definition window roomId p : list Z := default [] (pn_windows p !! roomId).
Definition recent now (l : list Z) : list Z := filter (fun timestamp => now - ROOM_PIN_FAILURE_WINDOW_MS < timestamp) l.
Definition bucket roomId peer p : option PinAttemptState := pn_meta p !! pinAttemptMetaId roomId peer.

Lemma current_ok roomId now p : exists p', currentRoomFailures roomId now p = (Ok (recent now (window roomId p)), p') /\
  window roomId p' = recent now (window roomId p) /\ pn_meta p' = pn_meta p.
Proof.
  exists (set_windows (if bool_decide (recent now (window roomId p) = []) then delete roomId (pn_windows p)
    else <[roomId := recent now (window roomId p)]> (pn_windows p)) p). split; [reflexivity|]. split; [|done]. unfold window at 1. cbn. case_bool_decide as H.
  - rewrite lookup_delete_eq. by rewrite H.
  - by rewrite lookup_insert_eq.
Qed.
Definition record_failure (failures : option PinAttemptState) now : PinAttemptState :=
  let n := match failures with Some s => pa_failures s | None => 0 end + 1 in
  {| pa_failures := n; pa_retryAfter := now + pinBackoffMs n |}.
Lemma increment_ok roomId peer now s p p' :
  fnIncrementPinAttemptState roomId peer now MAX_PIN_ATTEMPTS PIN_BACKOFF_BASE_MS PIN_BACKOFF_MAX_MS p = (Ok s, p') ->
  pn_windows p' = pn_windows p /\ pn_meta p' = <[pinAttemptMetaId roomId peer := record_failure (bucket roomId peer p) now]> (pn_meta p).
Proof. unfold fnIncrementPinAttemptState. intros H. mbinds H. apply mrequire_ok in E0 as [_ ->]. by subst. Qed.
Lemma window_recorded roomId now p : window roomId (recordRoomPinAggregateFailure roomId now p).2 = recent now (window roomId p) ++ [now] /\
  pn_meta (recordRoomPinAggregateFailure roomId now p).2 = pn_meta p /\ (recordRoomPinAggregateFailure roomId now p).1 = Ok tt.
Proof.
  unfold recordRoomPinAggregateFailure, mbind, M_bind. destruct (current_ok roomId now p) as (p1 & -> & Hw & Hm).
  split; [|done]. unfold window at 1. cbn. by rewrite lookup_insert_eq.
Qed.
Lemma record_ok roomId peer now p p' : recordPinFailure roomId peer now p = (Ok tt, p') ->
  window roomId p' = recent now (window roomId p) ++ [now] /\
  pn_meta p' = <[pinAttemptMetaId roomId peer := record_failure (bucket roomId peer p) now]> (pn_meta p).
Proof.
  unfold recordPinFailure. intros H. mbinds H. destruct (window_recorded roomId now p) as (Hw & Hm & _).
  rewrite E in Hw, Hm. apply increment_ok in E0 as [H1 H2]. subst. unfold window, bucket in *. cbn [snd] in *. by rewrite H1, H2, Hm.
Qed.

(** ** Attempts in flight

    The handshakes of a room run next to each other: each passes the window of the
    room and then awaits its bucket; when its confirmation fails it is recorded in
    the window and then awaits the write of its bucket. *)

(** [Checking]: in the window check's favour, the bucket not read yet; [Running]:
    let in; [Failing], [Counted]: recorded in the window, and in the bucket, with
    that time; [Gone]: turned away by its bucket, broken off, or successful. *)
Inductive Stage := Checking | Running | Failing (at_ : Z) | Counted (at_ : Z) | Gone.
Record Attempt := MkAttempt { by_ : list Z; started : Z; stage_ : Stage }.
(** [sy_log]: the failures in the buckets, oldest first. *)
Record System := MkSystem { sy_pins : Pins; sy_attempts : list Attempt; sy_log : list (list Z * Z) }.
Inductive PinEvent := enter (peer : list Z) (now : Z) | read (i : nat) | fail_at (i : nat) (now : Z) | store (i : nat) | leave (i : nat) | win (i : nat).

Definition set_stage (i : nat) (g : Stage) (l : list Attempt) : list Attempt := alter (fun a => MkAttempt (by_ a) (started a) g) i l.
(** One step of a room's handshakes; [None] when it is not the turn of that step. *)
Definition pin_step roomId (event : PinEvent) (y : System) : option System :=
  let p := sy_pins y in let l := sy_attempts y in let log := sy_log y in
  match event with
  | enter peer now =>
      match assertRoomPinAggregateAllowed roomId now p with
      | (Ok _, p) => Some (MkSystem p (l ++ [MkAttempt peer now Checking]) log)
      | (Err _, p) => Some (MkSystem p l log)
      end
  | read i =>
      a ← l !! i;
      match stage_ a with
      | Checking =>
          match assertPinIdentityAllowed roomId (by_ a) (started a) p with
          | (Ok _, p) => Some (MkSystem p (set_stage i Running l) log)
          | (Err _, p) => Some (MkSystem p (set_stage i Gone l) log)
          end
      | _ => None
      end
  | fail_at i now =>
      a ← l !! i;
      match stage_ a with
      | Running => Some (MkSystem (recordRoomPinAggregateFailure roomId now p).2 (set_stage i (Failing now) l) log)
      | _ => None
      end
  | store i =>
      a ← l !! i;
      match stage_ a with
      | Failing now =>
          match fnIncrementPinAttemptState roomId (by_ a) now MAX_PIN_ATTEMPTS PIN_BACKOFF_BASE_MS PIN_BACKOFF_MAX_MS p with
          | (Ok _, p) => Some (MkSystem p (set_stage i (Counted now) l) (log ++ [(by_ a, now)]))
          | (Err _, p) => Some (MkSystem p (set_stage i (Counted now) l) log)
          end
      | _ => None
      end
  | leave i =>
      a ← l !! i;
      match stage_ a with Checking | Running => Some (MkSystem p (set_stage i Gone l) log) | _ => None end
  | win i =>
      a ← l !! i;
      match stage_ a with
      | Running =>
          match clearPinAttempts roomId (Some (by_ a)) p with
          | (Ok _, p) => Some (MkSystem p (set_stage i Gone l) (filter (fun x => x.1 <> by_ a) log))
          | (Err _, p) => Some (MkSystem p (set_stage i Gone l) log)
          end
      | _ => None
      end
  end.
Definition pin_run roomId (events : list PinEvent) : option System :=
  foldl (fun o event => y ← o; pin_step roomId event y) (Some (MkSystem (MkPins ∅ ∅) [] [])) events.
Definition event_time (event : PinEvent) : option Z := match event with enter _ now | fail_at _ now => Some now | _ => None end.
(** The clock does not run backwards. *)
Definition clock_forward (events : list PinEvent) : Prop := StronglySorted Z.le (omap event_time events).
Definition count_if (P : Attempt -> bool) (l : list Attempt) : nat := List.length (List.filter P l).
(** Let in by the window, and not recorded in it yet. *)
Definition open_attempt (a : Attempt) : bool := match stage_ a with Checking | Running => true | _ => false end.
Definition in_flight (y : System) : nat := count_if open_attempt (sy_attempts y).
Definition recorded (a : Attempt) : option Z := match stage_ a with Failing now | Counted now => Some now | _ => None end.
(** Never more than [c] of them. *)
Definition at_most_in_flight (c : nat) roomId (events : list PinEvent) : Prop :=
  forall k y, pin_run roomId (take k events) = Some y -> (in_flight y <= c)%nat.

Lemma recent_twice now now' l : now <= now' -> recent now' (recent now l) = recent now' l.
Proof.
  intros H. unfold recent. induction l as [|x l IH]; [done|]. rewrite !filter_cons.
  repeat case_decide; rewrite ?filter_cons; repeat case_decide; rewrite ?IH; try done; unfold ROOM_PIN_FAILURE_WINDOW_MS in *; lia.
Qed.
Lemma recent_app now l k : recent now (l ++ k) = recent now l ++ recent now k.
Proof. apply filter_app. Qed.
Lemma recent_self now : recent now [now] = [now].
Proof. unfold recent. rewrite filter_cons, decide_True by (unfold ROOM_PIN_FAILURE_WINDOW_MS; lia). done. Qed.

Lemma meta_id_inj roomId peer peer' : pinAttemptMetaId roomId peer = pinAttemptMetaId roomId peer' -> peer = peer'.
Proof. unfold pinAttemptMetaId. by intros H%app_inv_head. Qed.

Lemma backoff_full k : 13 <= k -> pinBackoffMs k = PIN_BACKOFF_MAX_MS.
Proof.
  unfold pinBackoffMs, PIN_BACKOFF_BASE_MS, PIN_BACKOFF_MAX_MS, MAX_PIN_ATTEMPTS. intros H.
  rewrite (proj2 (Z.ltb_ge k 3)) by lia. assert (2 ^ 10 <= 2 ^ (k - 3)) by (apply Z.pow_le_mono_r; lia). lia.
Qed.

(** *** Counting *)

Lemma count_if_app P l k : count_if P (l ++ k) = (count_if P l + count_if P k)%nat.
Proof. unfold count_if. by rewrite List.filter_app, length_app. Qed.
Lemma count_one P a : count_if P [a] = if P a then 1%nat else 0%nat.
Proof. unfold count_if. cbn. by destruct (P a). Qed.
Lemma count_stage P l i a g : l !! i = Some a ->
  (count_if P (set_stage i g l) + (if P a then 1 else 0) = count_if P l + (if P (MkAttempt (by_ a) (started a) g) then 1 else 0))%nat.
Proof.
  unfold set_stage, count_if. revert i. induction l as [|x l IH]; intros [|i] H; try discriminate H.
  - injection H as ->. cbn. destruct (P a), (P _); cbn; lia.
  - specialize (IH i H). cbn. destruct (P x); cbn; lia.
Qed.
Lemma count_or P Q R l : Forall (fun a => P a = true -> Q a = true \/ R a = true) l -> (count_if P l <= count_if Q l + count_if R l)%nat.
Proof.
  unfold count_if. induction 1 as [|a l H _ IH]; [done|]. cbn. destruct (P a), (Q a), (R a); cbn; try lia.
Qed.
Lemma count_le P Q l : (forall a, P a = true -> Q a = true) -> (count_if P l <= count_if Q l)%nat.
Proof.
  intros H. unfold count_if. induction l as [|a l IH]; [done|]. cbn. specialize (H a). destruct (P a), (Q a); cbn; try lia.
Qed.
Lemma stage_forall (P : Attempt -> Prop) l i a g : Forall P l -> l !! i = Some a -> (P a -> P (MkAttempt (by_ a) (started a) g)) -> Forall P (set_stage i g l).
Proof. intros H Hi Hp. apply Forall_alter; [done|]. intros x Hx _. assert (x = a) as -> by congruence. apply Hp. by eapply Forall_lookup_1. Qed.

(** *** What the database and the window know *)

(** The bucket of an identity, from what is logged for it. *)
Definition bucket_of (log : list (list Z * Z)) peer : option PinAttemptState :=
  foldl (fun b x => Some (record_failure b x.2)) None (filter (fun x => x.1 = peer) log).
Definition recorded_after (t0 : Z) (a : Attempt) : bool := match recorded a with Some t => t0 <? t | None => false end.
(** Started within five minutes of [s]. *)
Definition started_within (s : Z) (a : Attempt) : bool := (s <=? started a) && (started a <? s + ROOM_PIN_FAILURE_WINDOW_MS).
(** Recorded, or still able to be. *)
Definition may_count (a : Attempt) : bool := match stage_ a with Gone => false | _ => true end.
Definition past (events : list PinEvent) now : Prop := forall t, t ∈ omap event_time events -> t <= now.
Definition timed now (a : Attempt) : Prop := started a <= now /\ forall t, recorded a = Some t -> started a <= t <= now.

Record known roomId (c : nat) (events : list PinEvent) (y : System) : Prop := {
  kn_times now : past events now -> Forall (timed now) (sy_attempts y);
  kn_window now : past events now ->
    List.length (recent now (window roomId (sy_pins y))) = count_if (recorded_after (now - ROOM_PIN_FAILURE_WINDOW_MS)) (sy_attempts y);
  kn_starts s : (count_if (fun a => may_count a && started_within s a) (sy_attempts y) <= 29 + c)%nat;
  kn_bucket peer : bucket roomId peer (sy_pins y) = bucket_of (sy_log y) peer;
}.

Lemma past_app events event now : past (events ++ [event]) now -> past events now /\ forall t, event_time event = Some t -> t <= now.
Proof.
  unfold past. intros H. split.
  - intros t Ht. apply H. rewrite omap_app. apply elem_of_app. by left.
  - intros t Ht. apply H. rewrite omap_app. apply elem_of_app. right. cbn. rewrite Ht. by left.
Qed.
Lemma clock_last events event now : clock_forward (events ++ [event]) -> event_time event = Some now -> past events now.
Proof.
  unfold clock_forward, past. rewrite omap_app. cbn. intros H Ht. rewrite Ht in H. clear Ht. intros t Hin.
  induction (omap event_time events) as [|x l IH]; [by apply not_elem_of_nil in Hin|]. cbn in H. apply StronglySorted_inv in H as [H Hx].
  apply elem_of_cons in Hin as [->|Hin]; [|by apply IH]. apply (proj1 (Forall_forall _ _) Hx). apply elem_of_app. right. by left.
Qed.
Lemma clock_prefix events event : clock_forward (events ++ [event]) -> clock_forward events.
Proof.
  unfold clock_forward. rewrite omap_app. generalize (omap event_time events). intros l. induction l as [|x l IH]; [constructor|]. cbn. intros [H Hx]%StronglySorted_inv.
  constructor; [by apply IH|]. by apply Forall_app in Hx as [? _].
Qed.
(** A step that changes neither what is recorded nor the window. *)
Lemma known_quiet roomId c events event y p l log : known roomId c events y ->
  window roomId p = window roomId (sy_pins y) ->
  (forall now, Forall (timed now) (sy_attempts y) -> Forall (timed now) l) ->
  (forall t0, count_if (recorded_after t0) l = count_if (recorded_after t0) (sy_attempts y)) ->
  (forall s, (count_if (fun a => may_count a && started_within s a) l <= count_if (fun a => may_count a && started_within s a) (sy_attempts y))%nat) ->
  (forall peer, bucket roomId peer p = bucket_of log peer) ->
  known roomId c (events ++ [event]) (MkSystem p l log).
Proof.
  intros [K1 K2 K3 K4] Hw Ht Hr Hs Hb. split; cbn [sy_pins sy_attempts sy_log].
  - intros now [Hp _]%past_app. by apply Ht, K1.
  - intros now [Hp _]%past_app. rewrite Hw, Hr. by apply K2.
  - intros s. specialize (K3 s). specialize (Hs s). lia.
  - exact Hb.
Qed.
(** Taking an attempt to another stage which records nothing. *)
Lemma staged_quiet l i a g : l !! i = Some a -> recorded (MkAttempt (by_ a) (started a) g) = recorded a ->
  (may_count (MkAttempt (by_ a) (started a) g) = true -> may_count a = true) ->
  (forall now, Forall (timed now) l -> Forall (timed now) (set_stage i g l)) /\
  (forall t0, count_if (recorded_after t0) (set_stage i g l) = count_if (recorded_after t0) l) /\
  (forall s, (count_if (fun x => may_count x && started_within s x) (set_stage i g l) <= count_if (fun x => may_count x && started_within s x) l)%nat).
Proof.
  intros Hi Hr Hm. split_and!.
  - intros now H. eapply stage_forall; [done..|]. intros [H1 H2]. split; [done|]. by rewrite Hr.
  - intros t0. pose proof (count_stage (recorded_after t0) l i a g Hi) as H. unfold recorded_after in H at 2 4. rewrite Hr in H.
    destruct (match recorded a with Some t => t0 <? t | None => false end); lia.
  - intros s. pose proof (count_stage (fun x => may_count x && started_within s x) l i a g Hi) as H. cbv beta in H.
    change (started_within s (MkAttempt (by_ a) (started a) g)) with (started_within s a) in H.
    destruct (may_count (MkAttempt _ _ g)) eqn:E; [rewrite (Hm eq_refl) in H|]; cbn [andb] in H; destruct (may_count a), (started_within s a); cbn [andb] in H; lia.
Qed.

Lemma known_enter roomId c events y y' peer now : known roomId c events y -> clock_forward (events ++ [enter peer now]) ->
  pin_step roomId (enter peer now) y = Some y' -> (in_flight y' <= c)%nat -> known roomId c (events ++ [enter peer now]) y'.
Proof.
  intros [K1 K2 K3 K4] Hc H Hf. pose proof (clock_last _ _ now Hc eq_refl) as Hpast. cbn [pin_step] in H.
  unfold assertRoomPinAggregateAllowed, mbind, M_bind in H. destruct (current_ok roomId now (sy_pins y)) as (p1 & Hcur & Hw & Hm). rewrite Hcur in H.
  assert (forall now', past (events ++ [enter peer now]) now' -> past events now' /\ now <= now') as Hp.
  { intros now' [Hp Ht]%past_app. split; [done|]. by apply Ht. }
  assert (forall peer0, bucket roomId peer0 p1 = bucket_of (sy_log y) peer0) as Hb by (intros peer0; unfold bucket; by rewrite Hm, <- K4).
  unfold mrequire, lift in H. destruct (blen (recent now (window roomId (sy_pins y))) <? MAX_ROOM_PIN_FAILURES_PER_WINDOW) eqn:Hlt; cbn [require] in H;
    injection H as <-; split; cbn [sy_pins sy_attempts sy_log]; try done.
  - intros now' [Hp1 Hn]%Hp. apply Forall_app. split; [by apply K1|]. apply Forall_singleton. split; [done|]. by intros t.
  - intros now' [Hp1 Hn]%Hp. rewrite Hw, recent_twice by done. rewrite count_if_app, count_one, Nat.add_0_r. by apply K2.
  - intros s. rewrite count_if_app, count_one. specialize (K3 s). cbn [may_count stage_ andb].
    destruct (started_within s (MkAttempt peer now Checking)) eqn:Hs; [|lia].
    unfold in_flight in Hf. cbn [sy_attempts] in Hf. rewrite count_if_app, count_one in Hf. cbn in Hf.
    apply Z.ltb_lt in Hlt. unfold blen in Hlt. rewrite (K2 now Hpast) in Hlt.
    assert (count_if (fun a => may_count a && started_within s a) (sy_attempts y) <=
      count_if (recorded_after (now - ROOM_PIN_FAILURE_WINDOW_MS)) (sy_attempts y) + count_if open_attempt (sy_attempts y))%nat; [|unfold MAX_ROOM_PIN_FAILURES_PER_WINDOW in Hlt; lia].
    apply count_or. eapply Forall_impl; [exact (K1 now Hpast)|]. intros a [_ Ht] [Hma Hsa]%andb_true_iff.
    unfold may_count, open_attempt, recorded_after, recorded, started_within in *. cbn [started] in Hs. destruct (stage_ a); try (by right); try done.
    all: left; apply Z.ltb_lt; specialize (Ht _ eq_refl); lia.
  - intros now' [Hp1 Hn]%Hp. by apply K1.
  - intros now' [Hp1 Hn]%Hp. rewrite Hw, recent_twice by done. by apply K2.
Qed.

Lemma known_fail roomId c events y y' i now : known roomId c events y -> clock_forward (events ++ [fail_at i now]) ->
  pin_step roomId (fail_at i now) y = Some y' -> known roomId c (events ++ [fail_at i now]) y'.
Proof.
  intros [K1 K2 K3 K4] Hc H. pose proof (clock_last _ _ now Hc eq_refl) as Hpast. cbn [pin_step] in H.
  destruct (sy_attempts y !! i) as [a|] eqn:Hi; [|discriminate H]. change (Some a ≫= ?k) with (k a) in H. cbv beta in H. destruct (stage_ a) eqn:Hg; try discriminate H. apply (inj Some) in H. subst y'.
  destruct (window_recorded roomId now (sy_pins y)) as (Hw & Hm & _).
  split; cbn [sy_pins sy_attempts sy_log].
  - intros now' [Hp Hn]%past_app. specialize (Hn now eq_refl). pose proof (Forall_lookup_1 _ _ _ _ (K1 now Hpast) Hi) as [Hsa _].
    eapply stage_forall; [by apply K1|exact Hi|]. intros [H1 _]. split; [done|]. intros t [= <-]. by cbn.
  - intros now' [Hp Hn]%past_app. specialize (Hn now eq_refl). rewrite Hw, recent_app, recent_twice, length_app by done.
    pose proof (count_stage (recorded_after (now' - ROOM_PIN_FAILURE_WINDOW_MS)) _ _ _ (Failing now) Hi) as Hcnt.
    rewrite (K2 now' Hp). unfold recorded_after in Hcnt at 2 4. unfold recorded in Hcnt. rewrite Hg in Hcnt. cbn [stage_] in Hcnt.
    unfold recent. rewrite filter_cons. destruct (Z.ltb_spec (now' - ROOM_PIN_FAILURE_WINDOW_MS) now); case_decide; try lia; cbn; lia.
  - intros s. pose proof (count_stage (fun x => may_count x && started_within s x) _ _ _ (Failing now) Hi) as Hcnt. cbv beta in Hcnt.
    unfold may_count in Hcnt at 2 4. rewrite Hg in Hcnt. cbn [stage_ andb] in Hcnt.
    change (started_within s (MkAttempt (by_ a) (started a) (Failing now))) with (started_within s a) in Hcnt. specialize (K3 s). lia.
  - intros peer. unfold bucket. by rewrite Hm, <- K4.
Qed.

Lemma bucket_of_snoc log peer now peer' : bucket_of (log ++ [(peer, now)]) peer' =
  if bool_decide (peer = peer') then Some (record_failure (bucket_of log peer') now) else bucket_of log peer'.
Proof.
  unfold bucket_of. rewrite filter_app, foldl_app. rewrite filter_cons. cbn [fst]. case_decide; case_bool_decide; done.
Qed.
Lemma bucket_of_won log peer peer' : bucket_of (filter (fun x => x.1 <> peer) log) peer' =
  if bool_decide (peer = peer') then None else bucket_of log peer'.
Proof.
  unfold bucket_of. rewrite list_filter_filter. case_bool_decide as Hb.
  - subst. replace (filter _ log) with (@nil (list Z * Z)); [done|]. symmetry. clear. induction log as [|x log IH]; [done|]. by rewrite filter_cons_False by naive_solver.
  - f_equal. apply list_filter_iff. intros x. split; [by intros [? ?]|]. intros Hx. split; [done|congruence].
Qed.

Lemma known_store roomId c events y y' i : known roomId c events y -> pin_step roomId (store i) y = Some y' ->
  known roomId c (events ++ [store i]) y'.
Proof.
  intros K H. pose proof (kn_bucket _ _ _ _ K) as K4. cbn [pin_step] in H. destruct (sy_attempts y !! i) as [a|] eqn:Hi; [|discriminate H].
  change (Some a ≫= ?k) with (k a) in H. cbv beta in H. destruct (stage_ a) as [| |now| |] eqn:Hg; try discriminate H.
  assert (recorded (MkAttempt (by_ a) (started a) (Counted now)) = recorded a) as Hr by (unfold recorded; by rewrite Hg).
  destruct (staged_quiet _ _ _ (Counted now) Hi Hr) as (Q1 & Q2 & Q3); [unfold may_count; by rewrite Hg|].
  destruct (fnIncrementPinAttemptState _ _ _ _ _ _ _) as [[s|e] p] eqn:Hs; apply (inj Some) in H; subst y';
    apply (known_quiet _ _ _ _ _ _ _ _ K); try done.
  - apply increment_ok in Hs as [Hw _]. unfold window. by rewrite Hw.
  - apply increment_ok in Hs as [_ Hm]. intros peer. rewrite bucket_of_snoc, <- !K4. unfold bucket. rewrite Hm. case_bool_decide as Hb; [subst peer; by rewrite lookup_insert_eq|].
    apply lookup_insert_ne. by intros ?%meta_id_inj.
  - assert (p = sy_pins y) as ->; [|done]. unfold fnIncrementPinAttemptState, mrequire, mbind, M_bind, lift in Hs.
    destruct (assertPinAttemptScope _ _); [|by injection Hs]. destruct (require _ _); [discriminate Hs|by injection Hs].
  - assert (p = sy_pins y) as ->; [|done]. unfold fnIncrementPinAttemptState, mrequire, mbind, M_bind, lift in Hs.
    destruct (assertPinAttemptScope _ _); [|by injection Hs]. destruct (require _ _); [discriminate Hs|by injection Hs].
Qed.

Lemma identity_reads roomId peer now p r p' : assertPinIdentityAllowed roomId peer now p = (r, p') ->
  p' = p /\ (r = Ok tt -> forall s, bucket roomId peer p = Some s -> pa_retryAfter s <= now).
Proof.
  unfold assertPinIdentityAllowed, fnGetPinAttemptState, mrequire, mbind, M_bind, lift, get_this, mret, M_ret, bucket.
  destruct (assertPinAttemptScope _ _); [|by intros [= <- <-]].
  destruct (pn_meta p !! _) as [s|]; [|by intros [= <- <-]]. intros [= <- <-]. split; [done|].
  intros H s' [= <-].
  destruct (negb _) eqn:E in H; [|discriminate H]. by apply negb_true_iff, Z.ltb_ge in E.
Qed.
Lemma known_read roomId c events y y' i : known roomId c events y -> pin_step roomId (read i) y = Some y' ->
  known roomId c (events ++ [read i]) y'.
Proof.
  intros K H. pose proof (kn_bucket _ _ _ _ K) as K4. cbn [pin_step] in H. destruct (sy_attempts y !! i) as [a|] eqn:Hi; [|discriminate H].
  change (Some a ≫= ?k) with (k a) in H. cbv beta in H. destruct (stage_ a) as [| |now| |] eqn:Hg; try discriminate H.
  destruct (assertPinIdentityAllowed _ _ _ _) as [[[]|e] p] eqn:Hs; apply identity_reads in Hs as [-> _]; apply (inj Some) in H; subst y'.
  - destruct (staged_quiet _ _ _ Running Hi) as (Q1 & Q2 & Q3); [unfold recorded; by rewrite Hg|unfold may_count; by rewrite Hg|].
    by apply (known_quiet _ _ _ _ _ _ _ _ K).
  - destruct (staged_quiet _ _ _ Gone Hi) as (Q1 & Q2 & Q3); [unfold recorded; by rewrite Hg|unfold may_count; by rewrite Hg|].
    by apply (known_quiet _ _ _ _ _ _ _ _ K).
Qed.
Lemma known_leave roomId c events y y' i : known roomId c events y -> pin_step roomId (leave i) y = Some y' ->
  known roomId c (events ++ [leave i]) y'.
Proof.
  intros K H. pose proof (kn_bucket _ _ _ _ K) as K4. cbn [pin_step] in H. destruct (sy_attempts y !! i) as [a|] eqn:Hi; [|discriminate H].
  change (Some a ≫= ?k) with (k a) in H. cbv beta in H. destruct (stage_ a) as [| |now| |] eqn:Hg; try discriminate H; apply (inj Some) in H; subst y'.
  all: destruct (staged_quiet _ _ _ Gone Hi) as (Q1 & Q2 & Q3); [unfold recorded; by rewrite Hg|unfold may_count; by rewrite Hg|];
    by apply (known_quiet _ _ _ _ _ _ _ _ K).
Qed.
Lemma known_win roomId c events y y' i : known roomId c events y -> pin_step roomId (win i) y = Some y' ->
  known roomId c (events ++ [win i]) y'.
Proof.
  intros K H. pose proof (kn_bucket _ _ _ _ K) as K4. cbn [pin_step] in H. destruct (sy_attempts y !! i) as [a|] eqn:Hi; [|discriminate H].
  change (Some a ≫= ?k) with (k a) in H. cbv beta in H. destruct (stage_ a) as [| |now| |] eqn:Hg; try discriminate H.
  destruct (staged_quiet _ _ _ Gone Hi) as (Q1 & Q2 & Q3); [unfold recorded; by rewrite Hg|unfold may_count; by rewrite Hg|].
  unfold clearPinAttempts, fnDeletePinAttemptState, mbind, M_bind, lift, modify_this, mret, M_ret in H.
  destruct (assertPinAttemptScope _ _); apply (inj Some) in H; subst y'; apply (known_quiet _ _ _ _ _ _ _ _ K); try done.
  intros peer. rewrite bucket_of_won, <- K4. unfold bucket. cbn. case_bool_decide as Hb; [subst peer; by rewrite lookup_delete_eq|].
  apply lookup_delete_ne. by intros ?%meta_id_inj.
Qed.

Lemma run_snoc roomId events event y : pin_run roomId (events ++ [event]) = Some y ->
  exists y0, pin_run roomId events = Some y0 /\ pin_step roomId event y0 = Some y.
Proof. unfold pin_run. rewrite foldl_app. cbn. destruct (foldl _ _ events) as [y0|]; [|done]. intros H. by exists y0. Qed.
Lemma run_known roomId c events : forall y, pin_run roomId events = Some y -> clock_forward events -> at_most_in_flight c roomId events ->
  known roomId c events y.
Proof.
  induction events as [|event events IH] using rev_ind; intros y H Hc Hf.
  { injection H as <-. split; cbn; [done|done|intros; lia|]. intros peer. unfold bucket. cbn. by rewrite lookup_empty. }
  pose proof (Hf (length (events ++ [event])) y ltac:(by rewrite firstn_all)) as Hy. pose proof H as (y0 & H0 & Hs)%run_snoc.
  assert (known roomId c events y0) as K.
  { apply IH; [done|by eapply clock_prefix|]. intros k z Hz. destruct (decide (k <= length events)%nat).
    - apply (Hf k). by rewrite take_app_le by lia.
    - apply (Hf (length events)). rewrite take_app_length. by rewrite take_ge in Hz by lia. }
  destruct event as [peer now|i|i now|i|i|i].
  - by eapply known_enter.
  - by eapply known_read.
  - by eapply known_fail.
  - by eapply known_store.
  - by eapply known_leave.
  - by eapply known_win.
Qed.

(** The failures in the bucket of an identity, oldest first. *)
Definition failures_of peer (y : System) : list Z := snd <$> filter (fun x => x.1 = peer) (sy_log y).
Lemma bucket_counts l : forall s, foldl (fun b (x : list Z * Z) => Some (record_failure b x.2)) None l = Some s -> pa_failures s = blen l.
Proof.
  induction l as [|x l IH] using rev_ind; intros s; [done|]. rewrite foldl_app. cbn. intros [= <-]. cbn [record_failure pa_failures]. rewrite blen_app.
  destruct (foldl _ None l) as [s0|] eqn:Hs; [by rewrite (IH s0 eq_refl)|]. destruct l as [|z l _] using rev_ind; [done|].
  rewrite foldl_app in Hs. discriminate Hs.
Qed.
Lemma bucket_last peer y t : last (failures_of peer y) = Some t ->
  exists s, bucket_of (sy_log y) peer = Some s /\ pa_retryAfter s = t + pinBackoffMs (blen (failures_of peer y)).
Proof.
  unfold failures_of, bucket_of. destruct (filter _ (sy_log y)) as [|x l _] using rev_ind; [done|]. rewrite fmap_app. cbn [fmap list_fmap]. rewrite last_snoc. intros [= <-].
  rewrite foldl_app. cbn. eexists. split; [done|]. cbn [record_failure pa_retryAfter]. do 2 f_equal. rewrite blen_app.
  assert (blen (snd <$> l) = blen l) as -> by (unfold blen; by rewrite length_fmap).
  destruct (foldl _ None l) as [s|] eqn:Hs; [by rewrite (bucket_counts _ _ Hs)|]. destruct l as [|z l _] using rev_ind; [done|].
  rewrite foldl_app in Hs. discriminate Hs.
Qed.

(** C27. Guessing a PIN is slow.  The handshakes of a room run next to each other, in
    any interleaving of their checks, failures and writes; suppose that never more
    than [c] of them are in flight, past the room's window and not recorded in it
    yet.  Then in any five minutes at most [29 + c] guesses are started whose
    failure is recorded, whatever identities they come from: thirty when the
    handshakes come one after the other.  And an identity of which [k] failures
    are in its bucket is let in only when [pinBackoffMs k] have passed between the
    last of them and the start of its attempt, five minutes from the thirteenth on.
    (The code does not bound [c]: the window alone does not stop identities that
    try at the same time.) *)
Theorem pin_guesses_bounded roomId c events y :
  pin_run roomId events = Some y -> clock_forward events -> at_most_in_flight c roomId events ->
  (forall s, (count_if (fun a => bool_decide (is_Some (recorded a)) && started_within s a) (sy_attempts y) <= 29 + c)%nat) /\
  (forall i y' a t, pin_step roomId (read i) y = Some y' -> sy_attempts y' !! i = Some a -> stage_ a = Running ->
     last (failures_of (by_ a) y) = Some t -> t + pinBackoffMs (blen (failures_of (by_ a) y)) <= started a) /\
  (forall k, 13 <= k -> pinBackoffMs k = 5 * 60000).
Proof.
  intros H Hc Hf. pose proof (run_known _ _ _ _ H Hc Hf) as K. split_and!; [| |apply backoff_full].
  - intros s. etrans; [|apply (kn_starts _ _ _ _ K s)]. apply count_le. intros a [Hr%bool_decide_eq_true Hs]%andb_true_iff.
    rewrite Hs, andb_true_r. unfold may_count, recorded in *. by destruct (stage_ a), Hr.
  - intros i y' a t Hread Ha Hg Hlast. cbn [pin_step] in Hread. destruct (sy_attempts y !! i) as [b|] eqn:Hi; [|discriminate Hread].
    change (Some b ≫= ?k) with (k b) in Hread. cbv beta in Hread. destruct (stage_ b); try discriminate Hread.
    destruct (assertPinIdentityAllowed _ _ _ _) as [[[]|e] p] eqn:Hs; apply identity_reads in Hs as [_ Hs]; apply (inj Some) in Hread; subst y';
      cbn [sy_attempts] in Ha; unfold set_stage in Ha; rewrite list_lookup_alter_eq, Hi in Ha; injection Ha as <-; [|discriminate Hg].
    cbn [by_ started] in *. destruct (bucket_last _ _ _ Hlast) as (s & Hb & <-). apply Hs; [done|]. by rewrite (kn_bucket _ _ _ _ K).
Qed.

(** ** Buckets *)

Lemma before_colon (a b r r' : list Z) : 58 ∉ a -> 58 ∉ b -> a ++ 58 :: r = b ++ 58 :: r' -> a = b /\ r = r'.
Proof.
  revert b. induction a as [|x a IH]; intros [|y b] Ha Hb; cbn; intros H.
  - by injection H as ->.
  - injection H as <- _. exfalso. apply Hb. by left.
  - injection H as -> _. exfalso. apply Ha. by left.
  - injection H as -> H. rewrite not_elem_of_cons in Ha, Hb. destruct (IH b) as [-> ->]; [naive_solver..|done].
Qed.
Lemma units_cons c s : units (String c s) = u8 (byte_of_ascii c) :: units s.
Proof. done. Qed.
Lemma units_inj s t : units s = units t -> s = t.
Proof.
  unfold units, text. intros H. apply (f_equal (fmap byte_of)) in H. rewrite !bytes_of_u8 in H.
  rewrite <- (string_of_list_byte_of_string s), <- (string_of_list_byte_of_string t). by rewrite H.
Qed.
Lemma units_no_colon s : colon_free s -> 58 ∉ units s.
Proof.
  induction s as [|c s IH]; [intros _; apply not_elem_of_nil|]. intros [Hc Hs]%colon_free_cons.
  rewrite units_cons, not_elem_of_cons. split; [|by apply IH]. intros H. apply Hc.
  rewrite <- (ascii_of_byte_of_ascii c). change 58 with (u8 (byte_of 58)) in H. apply u8_inj in H. by rewrite <- H.
Qed.
Lemma decimal_units_inj a b : 0 <= a -> 0 <= b -> units (decimal a) = units (decimal b) -> a = b.
Proof. intros Ha Hb H%units_inj. apply (f_equal Number) in H. rewrite !Number_decimal in H by done. congruence. Qed.

(** The name of a room, then anything: the room and the rest can be read back. *)
Lemma room_prefix_split roomId roomId' r r' :
  pinAttemptRoomMetaPrefix roomId ++ r = pinAttemptRoomMetaPrefix roomId' ++ r' -> roomId = roomId' /\ r = r'.
Proof.
  unfold pinAttemptRoomMetaPrefix. rewrite <- !app_assoc. intros H%app_inv_head.
  change (units ":") with [58] in H. cbn [app] in H.
  apply before_colon in H as [Hl H]; [|by apply units_no_colon, decimal_colon_free..].
  apply decimal_units_inj in Hl; [|apply blen_nonneg..]. apply app_inj_1 in H as [-> H]; [|unfold blen in Hl; lia].
  split; [done|]. by injection H.
Qed.

(** The buckets are separate.  A recorded failure changes the bucket of its peer
    in its room and no other; a success deletes only that bucket; and giving a
    room a new PIN deletes all the buckets of that room and none of another, even
    when one room identifier starts with the other.  (Only an identifier that
    starts with [v2:] could make the name of the obsolete bucket collide.) *)
Theorem pin_buckets_separate roomId roomId' peer peer' now p p' :
  (recordPinFailure roomId peer now p = (Ok tt, p') -> (roomId', peer') <> (roomId, peer) -> bucket roomId' peer' p' = bucket roomId' peer' p) /\
  (clearPinAttempts roomId (Some peer) p = (Ok tt, p') ->
     bucket roomId peer p' = None /\ ((roomId', peer') <> (roomId, peer) -> bucket roomId' peer' p' = bucket roomId' peer' p)) /\
  (clearPinAttempts roomId None p = (Ok tt, p') ->
     bucket roomId peer' p' = None /\ window roomId p' = [] /\
     (roomId' <> roomId -> startsWith roomId (units "v2:") = false -> bucket roomId' peer' p' = bucket roomId' peer' p)).
Proof.
  assert (forall peer0, (roomId', peer') <> (roomId, peer0) -> pinAttemptMetaId roomId peer0 <> pinAttemptMetaId roomId' peer') as Hid.
  { intros peer0 Hne H. unfold pinAttemptMetaId in H. apply room_prefix_split in H as [-> ->]. done. }
  split_and!.
  - intros [_ Hm]%record_ok Hne. unfold bucket. rewrite Hm. apply lookup_insert_ne. by apply Hid.
  - unfold clearPinAttempts, fnDeletePinAttemptState. intros H. mbinds H. injection E as <-. unfold bucket. cbn.
    split; [by rewrite lookup_delete_eq|]. intros Hne. apply lookup_delete_ne. by apply Hid.
  - unfold clearPinAttempts, fnDeletePinAttemptState, clearRoomPinAggregateFailures. intros H. mbinds H. subst.
    unfold bucket, window. cbn [pn_meta pn_windows set_meta set_windows].
    split_and!.
    + destruct (decide (legacyMetaId roomId = pinAttemptMetaId roomId peer')) as [->|Hl]; [by rewrite lookup_delete_eq|].
      rewrite lookup_delete_ne by done. apply map_lookup_filter_None. right. intros x _. unfold pinAttemptMetaId. by rewrite startsWith_app.
    + by rewrite lookup_delete_eq.
    + intros Hne Hlegacy. rewrite lookup_delete_ne.
      2: { intros H. unfold legacyMetaId, pinAttemptMetaId, pinAttemptRoomMetaPrefix in H.
           change PIN_ATTEMPT_META_PREFIX with (units "pinAttempts:" ++ units "v2:") in H. rewrite <- !app_assoc in H.
           apply app_inv_head in H. rewrite H, startsWith_app in Hlegacy. discriminate Hlegacy. }
      apply option_eq. intros x. rewrite map_lookup_filter_Some. split; [by intros [? _]|]. intros Hx. split; [done|].
      apply not_true_is_false. intros Hs%startsWith_ok. unfold pinAttemptMetaId in Hs.
      by apply room_prefix_split in Hs as [-> _].
Qed.

(** ** A guess that is broken off *)

(** Wherever [p] waits for the peer, a closed channel ends it with [HsTransport]. *)
Fixpoint waits_for_peer {A} (c : proto HandshakeError A) : Prop :=
  match c with
  | Done _ => True
  | Send _ k => forall sent, waits_for_peer (k sent)
  | Recv k => k None = Done (Err HsTransport) /\ forall frame, waits_for_peer (k frame)
  end.
Lemma waits_bind {A B} (c : proto HandshakeError A) (f : A -> proto HandshakeError B) :
  waits_for_peer c -> (forall a, waits_for_peer (f a)) -> waits_for_peer (c ≫= f).
Proof.
  intros Hc Hf. induction c as [[a|e]|frame k IH|k IH]; cbn in Hc |- *; [apply Hf|done|intros sent; by apply IH|].
  destruct Hc as [H1 H2]. split; [by rewrite H1|]. intros frame. by apply IH.
Qed.
Lemma waits_exec {A} evs : forall c c' : proto HandshakeError A, exec evs c = Some c' -> waits_for_peer c -> waits_for_peer c'.
Proof.
  induction evs as [|[f|f] evs IH]; intros c c' H Hc; [by injection H as <-|..]; destruct c as [r|f' k|k]; cbn in H; try discriminate H.
  - destruct (bytesEqual f f'); [|discriminate H]. by eapply IH.
  - eapply IH; [exact H|]. apply Hc.
Qed.

Section Guess.
Context {C : LibCrypto} {P : CpaceModule} {W : WasmModule} {D : IdentityModule}.

Lemma waits_wait {A} (r : result HandshakeError A) : waits_for_peer (wait r).
Proof. done. Qed.
Lemma waits_send frame : waits_for_peer (send frame).
Proof. intros []; done. Qed.
Lemma waits_recv : waits_for_peer recv.
Proof. split; [done|]. by intros [frame|]. Qed.

Ltac waits := repeat first
  [ apply waits_wait | apply waits_send | apply waits_recv | exact I
  | apply waits_bind; [|intros ?]
  | match goal with |- waits_for_peer (let '(_, _) := ?x in _) => destruct x end
  | match goal with |- waits_for_peer (if ?b then _ else _) => destruct b end ].
Lemma waits_core h prm e : waits_for_peer (performHandshakeCore h prm e).
Proof.
  unfold performHandshakeCore, helloInitiator, helloResponder, confirmInitiator, confirmResponder. waits.
Qed.

(** The secret of a responder that has received [helloI] and sent [helloR]: its own
    ephemeral key, the encapsulation to the key in [helloI], and a CPace state of
    its own scalar on the generator of the PIN; the share in [helloR] is that of
    this state. *)
Definition responder_secret h prm e helloI helloR (t : Transcript) (secret : bytes) : Prop :=
  let layout := helloLayout (hp_pqMode prm) in let suite := hl_suite layout in
  exists kem accepted ek ct ss ctField started pb,
    createMlKemBackend suite true h = Ok kem /\ acceptHello prm layout helloI = Ok accepted /\
    x25519Keypair (en_ek e) = Ok ek /\
    encapsulate (MlKemBackend := kem) (en_kem e) (he_mlKemPublicKey accepted) = Some (ct, ss) /\
    set_field (ciphertextBytes suite) ct = Ok ctField /\
    startCpace prm (he_sid accepted) (en_scalar e) = Ok started /\
    let self := selfHello prm (region SID_LEN (en_sid e)) (x_publicKey ek) (cpace_share started) (zeros (publicKeyBytes suite)) ctField in
    helloR = packHello layout self /\
    deriveSecrets prm suite ek started ss self accepted = Ok (t, secret, pb) /\
    (hp_mode prm = pin -> exists thePin G y Y pake,
       hp_pin prm = Some thePin /\ deriveGenerator thePin (he_sid accepted) (hp_channelInput prm) = Ok G /\
       cpaceStart G (en_scalar e) = Ok (y, Y) /\ started = Some (y, Y) /\ pakeSecretOf prm started accepted t = Ok pake).

Lemma startCpace_pin prm sid entropy started : startCpace prm sid entropy = Ok started -> hp_mode prm = pin ->
  exists thePin G y Y, hp_pin prm = Some thePin /\ deriveGenerator thePin sid (hp_channelInput prm) = Ok G /\
    cpaceStart G entropy = Ok (y, Y) /\ started = Some (y, Y).
Proof.
  unfold startCpace. intros H Hp. rewrite Hp in H. destruct (hp_pin prm) as [thePin|]; [|discriminate H].
  apply map_err_ok in H. binds H. subst. destruct x0 as [y Y]. by exists thePin, x, y, Y.
Qed.
Lemma secrets_pake prm suite ek started ss self hello t secret pb : deriveSecrets prm suite ek started ss self hello = Ok (t, secret, pb) ->
  exists pake, pakeSecretOf prm started hello t = Ok pake.
Proof.
  unfold deriveSecrets. cbv zeta. intros H. destruct (map_err HsCrypto _) as [ids|]; [|discriminate H]. cbn [mbind result_bind] in H.
  destruct (pakeSecretOf _ _ _ _) as [pake|] eqn:Hpake; [|discriminate H]. cbn [mbind result_bind] in H.
  destruct (hybridSecrets _ _ _ _ _ _ _) as [[x b]|]; [|discriminate H]. injection H as <- _ _. by exists pake.
Qed.

(** What a responder does once its hello is out: it fails, or it sends the
    confirmation keyed by the PIN, and only then waits. *)
Lemma responder_confirms_first h prm e helloI helloR c : hp_amInitiator prm = false ->
  exec [In helloI; Out helloR] (performHandshakeCore h prm e) = Some c ->
  (exists err, c = Done (Err err)) \/
  exists t secret dhPubR macR next k,
    responder_secret h prm e helloI helloR t secret /\
    hmacSha512 secret (buildConfirmationInput t HS_KC_RESPONDER_DOMAIN dhPubR None []) = Ok macR /\
    c = Send (packConfirm dhPubR macR) next /\ next true = Recv k /\ k None = Done (Err HsTransport).
Proof.
  unfold performHandshakeCore. intros -> H.
  destruct (createMlKemBackend _ _ _) as [kem|] eqn:Hkem; [|discriminate H]. cbn in H.
  destruct (x25519Keypair _) as [ek|] eqn:Hek; [|discriminate H]. cbn in H.
  destruct (acceptHello _ _ _) as [peer|] eqn:Hpeer; [|discriminate H]. cbn in H.
  destruct (await_kem _) as [[ct ss]|] eqn:Hct; [|discriminate H]. cbn in H.
  destruct (set_field _ _) as [cts|] eqn:Hcts; [|discriminate H]. cbn in H.
  destruct (startCpace _ _ _) as [started|] eqn:Hst; [|discriminate H]. cbn in H.
  destruct (bytesEqual _ _) eqn:Hout; [|discriminate H]. cbn in H. apply bytesEqual_spec in Hout.
  destruct (deriveSecrets _ _ _ _ _ _ _) as [[[t secret] pb]|] eqn:Hd; [|left; injection H as <-; by eexists]. cbn in H.
  unfold confirmResponder in H.
  destruct (initRatchet _ _ _ _ _) as [state|]; [|left; injection H as <-; by eexists]. cbn in H.
  destruct (hmacSha512 _ _) as [macR|] eqn:Hm; [|left; injection H as <-; by eexists]. cbn in H.
  injection H as <-. right. exists t, secret, (dhSelfPub state), macR. do 2 eexists. split; [|split_and!; [exact Hm|reflexivity..]].
  exists kem, peer, ek, ct, ss, cts, started, pb. cbv zeta. split_and!; try done.
  - unfold await_kem in Hct. destruct (encapsulate _ _) as [x|]; [by injection Hct as ->|discriminate Hct].
  - intros Hp. destruct (startCpace_pin _ _ _ _ Hst Hp) as (thePin & G & y & Y & H1 & H2 & H3 & H4).
    destruct (secrets_pake _ _ _ _ _ _ _ _ _ _ Hd) as [pake Hpake]. by exists thePin, G, y, Y, pake.
Qed.

(** C28. A guess that is broken off is not counted.  Once its hello is out, a responder
    fails or sends the confirmation before it waits, so the peer can check its
    guess on it: the confirmation is the HMAC under the secret of this run, which
    comes from the hello received and the one sent, and in a PIN room from a CPace
    state on the generator of the room's PIN, whose share is in the hello sent.
    And whatever has been exchanged, closing the channel where the handshake waits
    ends it with a transport error, and that leaves the attempts of the room and of
    the peer exactly as they were: the backoff and the window bound only guesses
    that the guesser completes. *)
Theorem broken_guess_not_counted h prm e :
  (forall helloI helloR c, hp_amInitiator prm = false ->
     exec [In helloI; Out helloR] (performHandshakeCore h prm e) = Some c ->
     (exists err, c = Done (Err err)) \/
     exists t secret dhPubR macR next k,
       responder_secret h prm e helloI helloR t secret /\
       hmacSha512 secret (buildConfirmationInput t HS_KC_RESPONDER_DOMAIN dhPubR None []) = Ok macR /\
       c = Send (packConfirm dhPubR macR) next /\ next true = Recv k /\ k None = Done (Err HsTransport)) /\
  (forall evs k roomId peer now p,
     exec evs (performHandshakeCore h prm e) = Some (Recv k) ->
     exists outcome, k None = Done outcome /\ outcome = Err HsTransport /\ settleHandshake roomId peer now outcome p = p).
Proof.
  split; [apply responder_confirms_first|]. intros evs k roomId peer now p H. exists (Err HsTransport).
  destruct (waits_exec _ _ _ H (waits_core h prm e)) as [Hn _]. by split_and!.
Qed.
End Guess.

(** ** The vault *)

Implicit Types (v : PinVault) (own : gset nat).

(** One step of a program that uses the vault.  [own] are the buffers [put] has
    made; the callers may write to the copies they were handed. *)
Inductive vault_step : PinVault * gset nat -> PinVault * gset nat -> Prop :=
  | step_put room pin v own : vault_step (v, own)
      ((vault_put room pin v).2, if is_ok (vault_put room pin v).1 then {[pv_next v]} ∪ own else own)
  | step_pin_get room v own : vault_step (v, own) ((vault_get room v).2, own)
  | step_pin_delete room v own : vault_step (v, own) ((vault_delete room v).2, own)
  | step_pin_clear v own : vault_step (v, own) ((vault_clear v).2, own)
  | step_copy_written b data v own : b ∉ own -> vault_step (v, own) (MkPinVault (<[b := data]> (pv_heap v)) (pv_next v) (pv_pins v), own).

Record vault_inv v own : Prop := {
  vi_own room b : pv_pins v !! room = Some b -> b ∈ own;
  vi_distinct room room' b : pv_pins v !! room = Some b -> pv_pins v !! room' = Some b -> room = room';
  vi_fresh b : b ∈ own -> (b < pv_next v)%nat;
  vi_heap b : b ∈ own -> is_Some (pv_heap v !! b);
  vi_wiped b : b ∈ own -> (exists room, pv_pins v !! room = Some b) \/ exists n, pv_heap v !! b = Some (zeros n);
}.

Definition wipe (b : nat) (h : gmap nat bytes) : gmap nat bytes := alter (fun l => zeros (blen l)) b h.
Lemma wipe_zeros b h n : h !! b = Some (zeros n) -> exists n', wipe b h !! b = Some (zeros n').
Proof. intros H. unfold wipe. rewrite lookup_alter_eq, H. cbn. by eexists. Qed.
Lemma wipe_other b b' h : b <> b' -> wipe b h !! b' = h !! b'.
Proof. intros H. unfold wipe. by apply lookup_alter_ne. Qed.

Lemma put_unfold room pin v : vault_put room pin v =
  if bool_decide (room = []) then (Err empty_context, v)
  else if blen pin =? 0 then (Err empty_pin, v)
  else (Ok tt, MkPinVault (match pv_pins v !! room with Some b => wipe b | None => id end (<[pv_next v := pin]> (pv_heap v)))
                 (S (pv_next v)) (<[room := pv_next v]> (pv_pins v))).
Proof.
  unfold vault_put, assertRoomContext, mrequire, lift, mbind, M_bind. case_bool_decide; [done|]. cbn [negb require].
  destruct (blen pin =? 0); [done|]. unfold set_pins, zeroize, copy_of, get_this, set_this, modify_this, mbind, M_bind, mret, M_ret. cbn [pv_pins]. destruct (pv_pins v !! room). all: reflexivity.
Qed.
Lemma get_unfold room v : (vault_get room v).2 =
  if bool_decide (room = []) then v
  else match pv_pins v !! room with
       | Some b => MkPinVault (<[pv_next v := default [] (pv_heap v !! b)]> (pv_heap v)) (S (pv_next v)) (pv_pins v)
       | None => v
       end.
Proof.
  unfold vault_get, assertRoomContext, mrequire, lift, mbind, M_bind. case_bool_decide; [done|]. cbn. by destruct (pv_pins v !! room).
Qed.
Lemma delete_unfold room v : (vault_delete room v).2 =
  if bool_decide (room = []) then v
  else match pv_pins v !! room with
       | Some b => MkPinVault (wipe b (pv_heap v)) (pv_next v) (delete room (pv_pins v))
       | None => v
       end.
Proof.
  unfold vault_delete, assertRoomContext, mrequire, lift, mbind, M_bind. case_bool_decide; [done|]. cbn. by destruct (pv_pins v !! room).
Qed.
Lemma zeroize_all_unfold l v : zeroize_all l v = (Ok tt, MkPinVault (foldl (fun h b => wipe b h) (pv_heap v) l) (pv_next v) (pv_pins v)).
Proof.
  revert v. induction l as [|b l IH]; intros v; [by destruct v|]. cbn [zeroize_all].
  unfold mbind, M_bind, zeroize, modify_this. by rewrite IH.
Qed.
Lemma clear_unfold v : (vault_clear v).2 =
  MkPinVault (foldl (fun h b => wipe b h) (pv_heap v) (map_to_list (pv_pins v)).*2) (pv_next v) ∅.
Proof. unfold vault_clear, mbind, M_bind, get_this. by rewrite zeroize_all_unfold. Qed.

(** Wiping some buffers zeroes those and keeps the others. *)
Lemma wipe_all l : forall h b, is_Some (h !! b) ->
  is_Some (foldl (fun h b => wipe b h) h l !! b) /\
  (b ∈ l \/ (exists n, h !! b = Some (zeros n)) -> exists n, foldl (fun h b => wipe b h) h l !! b = Some (zeros n)).
Proof.
  induction l as [|c l IH]; intros h b Hb; cbn [foldl].
  { split; [done|]. intros [H|H]; [by apply not_elem_of_nil in H|done]. }
  assert (is_Some (wipe c h !! b)) as Hw.
  { destruct (decide (c = b)) as [->|Hne]; [|by rewrite wipe_other]. unfold wipe. rewrite lookup_alter_eq. by apply fmap_is_Some. }
  destruct (IH (wipe c h) b Hw) as [H1 H2]. split; [done|]. intros H. apply H2. destruct (decide (c = b)) as [->|Hne].
  - right. destruct Hb as [x Hx]. unfold wipe. rewrite lookup_alter_eq, Hx. cbn. by eexists.
  - rewrite wipe_other by done. destruct H as [[H|H]%elem_of_cons|H]; [congruence|by left|by right].
Qed.

Lemma vault_step_inv v own v' own' : vault_step (v, own) (v', own') -> vault_inv v own -> vault_inv v' own'.
Proof.
  intros Hs [I1 I2 I3 I4 I5]. inversion Hs; subst; clear Hs.
  - rewrite put_unfold. case_bool_decide; [done|]. destruct (blen pin =? 0); [done|]. cbn [is_ok fst snd].
    assert (pv_next v ∉ own) as Hfresh by (intros H0%I3; lia).
    assert (forall b, b ∈ own -> (match pv_pins v !! room with Some b => wipe b | None => id end (<[pv_next v:=pin]> (pv_heap v))) !! b =
      (match pv_pins v !! room with Some b => wipe b | None => id end (pv_heap v)) !! b) as Hsame.
    { intros b Hb. assert (pv_next v <> b) by congruence. destruct (pv_pins v !! room) as [c|]; [|by apply lookup_insert_ne].
      unfold wipe. destruct (decide (c = b)) as [->|Hc]; [rewrite !lookup_alter_eq|rewrite !lookup_alter_ne by done]; by rewrite lookup_insert_ne. }
    split; cbn [pv_pins pv_heap pv_next].
    + intros r b [[_ <-]|[_ Hb]]%lookup_insert_Some; [set_solver|]. apply I1 in Hb. set_solver.
    + intros r r' b [[<- <-]|[Hr Hb]]%lookup_insert_Some [[<- Hb']|[Hr' Hb']]%lookup_insert_Some; try done.
      * by apply I1 in Hb'.
      * subst b. by apply I1 in Hb.
      * by apply (I2 r r' b).
    + intros b [->%elem_of_singleton|Hb]%elem_of_union; [lia|]. apply I3 in Hb. lia.
    + intros b [->%elem_of_singleton|Hb]%elem_of_union.
      * destruct (pv_pins v !! room) as [c|] eqn:Hc; [|unfold id; rewrite lookup_insert_eq; by eexists].
        assert (c <> pv_next v) by (intros ->; by apply I1 in Hc). rewrite wipe_other, lookup_insert_eq by done. by eexists.
      * rewrite Hsame by done. destruct (pv_pins v !! room) as [c|]; [|by apply I4]. destruct (wipe_all [c] (pv_heap v) b (I4 b Hb)) as [H1 _]. exact H1.
    + intros b [->%elem_of_singleton|Hb]%elem_of_union; [left; exists room; by rewrite lookup_insert_eq|].
      rewrite Hsame by done. destruct (I5 b Hb) as [[r Hr]|Hz].
      * destruct (decide (r = room)) as [->|Hne].
        -- right. rewrite Hr. destruct (wipe_all [b] (pv_heap v) b (I4 b Hb)) as [_ H2]. apply H2. left. by left.
        -- left. exists r. by rewrite lookup_insert_ne.
      * right. destruct (pv_pins v !! room) as [c|]; [|done]. destruct (wipe_all [c] (pv_heap v) b (I4 b Hb)) as [_ H2]. apply H2. by right.
  - rewrite get_unfold. case_bool_decide; [done|]. destruct (pv_pins v !! room) as [c|]; [|done].
    split; cbn [pv_pins pv_heap pv_next]; try done.
    + intros b Hb. apply I3 in Hb. lia.
    + intros b Hb. rewrite lookup_insert_ne by (apply I3 in Hb; lia). by apply I4.
    + intros b Hb. rewrite lookup_insert_ne by (apply I3 in Hb; lia). by apply I5.
  - rewrite delete_unfold. case_bool_decide; [done|]. destruct (pv_pins v !! room) as [c|] eqn:Hc; [|done].
    split; cbn [pv_pins pv_heap pv_next]; try done.
    + intros r b [_ H0]%lookup_delete_Some. by apply I1 in H0.
    + intros r r' b [_ H0]%lookup_delete_Some [_ H1]%lookup_delete_Some. by apply (I2 r r' b).
    + intros b Hb. by apply (wipe_all [c]), I4.
    + intros b Hb. destruct (I5 b Hb) as [[r Hr]|Hz].
      * destruct (decide (r = room)) as [->|Hne].
        -- right. apply (wipe_all [c]); [by apply I4|]. left. assert (b = c) as -> by congruence. by left.
        -- left. exists r. by rewrite lookup_delete_ne.
      * right. apply (wipe_all [c]); [by apply I4|by right].
  - rewrite clear_unfold. split; cbn [pv_pins pv_heap pv_next]; try done.
    + intros b Hb. by apply wipe_all, I4.
    + intros b Hb. right. apply wipe_all; [by apply I4|]. destruct (I5 b Hb) as [[r Hr]|Hz]; [left|by right].
      apply list_elem_of_fmap. exists (r, b). split; [done|]. by apply elem_of_map_to_list.
  - split; cbn [pv_pins pv_heap pv_next]; [exact I1|exact I2|exact I3|..]; intros b0 Hb; rewrite lookup_insert_ne by congruence; [by apply I4|by apply I5].
Qed.

(** No PIN outlives its entry.  Whatever sequence of calls is made, and whatever
    the callers do with the copies they get, every buffer the vault ever made
    for a PIN is either the one kept for exactly one room or all zero; and the
    copy that [get] hands out is not one of them. *)
Theorem no_pin_left_behind v own b : rtc vault_step (MkPinVault ∅ 0 ∅, ∅) (v, own) ->
  (b ∈ own -> (exists room, pv_pins v !! room = Some b) \/ exists n, pv_heap v !! b = Some (zeros n)) /\
  (forall room room', pv_pins v !! room = Some b -> pv_pins v !! room' = Some b -> room = room') /\
  (forall room v', vault_get room v = (Ok (Some b), v') -> b ∉ own).
Proof.
  intros H. assert (vault_inv v own) as [I1 I2 I3 I4 I5].
  { enough (forall x y : PinVault * gset nat, rtc vault_step x y -> vault_inv x.1 x.2 -> vault_inv y.1 y.2) as Hr.
    { apply (Hr _ _ H). split; cbn; try done; intros *; rewrite ?lookup_empty; done. }
    intros x y Hxy. induction Hxy as [x|[v1 o1] [v2 o2] y Hs _ IH]; [done|]. intros Hi. apply IH. by eapply vault_step_inv. }
  split_and!; [apply I5|intros r r'; apply I2|].
  intros room v' Hg Hb. unfold vault_get in Hg. mbinds Hg. apply mrequire_ok in E as [_ ->].
  destruct (pv_pins _ !! room); [|by injection Hg]. unfold copy_of in Hg. mbinds Hg. mbinds E. subst. apply I3 in Hb. lia.
Qed.
