(* ===== verification/FrameQueue.v ===== *)
(** * Queues of inbound frames ([src/src/handlers/handleMessageQueueing.ts])

    The message queue and the receipt queue of each data channel, the byte and
    receipt budgets of an edge, the lock that lets one handler of an edge run at
    a time, and the two drain loops.

    An [async] function is cut where it waits.  A drain waits for
    [withProcessingLock]: its frame or receipt is a job in [qs_locks]; when the
    handler ends the job moves to [qs_ended], and a later step lets the drain go
    on.  A step of [QueueEvent] is one turn of the event loop.  The queues of a
    channel are named by the number of the channel; a key or a fingerprint is
    the list of its UTF-16 code units. *)

From Stdlib Require Import String.
From stdpp Require Import gmap.
From S2P Require Import Prelude Bytes Ratchet Metadata RoomInvite.
Local Open Scope Z_scope.
Local Open Scope list_scope.
Implicit Types (c : nat) (key : list Z).

(** ** Keys and fingerprints *)

(** Eight bytes read by [getBigUint64] and printed by [toString(16)] with
    [padStart(16, "0")] are their hexadecimal digits. *)
Definition k32 (u8 : bytes) : list Z :=
  if blen u8 <? 32 then units (decimal (blen u8)) ++ units ":" ++ bytesToHex u8 else
  let head := slice u8 0 16 in
  let tail := slice u8 (blen u8 - 16) (blen u8) in
  bytesToHex (slice head 0 8) ++ bytesToHex (slice head 8 16) ++ bytesToHex (slice tail 0 8) ++ bytesToHex (slice tail 8 16).

Definition edgeQueueKey (roomId peerId : list Z) : list Z :=
  units (decimal (blen roomId)) ++ units ":" ++ roomId ++ peerId.

Definition MAX_QUEUED_FRAMES_PER_CHANNEL : Z := 64.
Definition MAX_QUEUED_BYTES_PER_EDGE : Z := 16 * 1024 * 1024.
Definition MAX_QUEUED_RECEIPTS_PER_CHANNEL : Z := 2048.
Definition MAX_QUEUED_RECEIPTS_PER_EDGE : Z := 8192.
Definition MAX_SEEN_SIZE : nat := 4096.

(** ** State *)

(** [queue], [seen], [drainingRef] and the signal of a channel, with its entry of
    [queuedBytesByChannel]. *)
Record FrameQueue := MkFrameQueue {
  fq_key : list Z; fq_queue : list bytes; fq_seen : gset (list Z);
  fq_value : bool; fq_released : bool; fq_aborted : bool; fq_waiters : nat; fq_bytes : Z }.
(** [ReceiptProcessingQueue] *)
Record ReceiptQueue := MkReceiptQueue {
  rq_key : list Z; rq_pending : list bytes; rq_seen : gset (list Z); rq_draining : bool; rq_released : bool }.

Inductive Job := FrameJob (c : nat) (chunk : bytes) | ReceiptJob (c : nat) (receipt : bytes).

(** [qs_locks]: the calls of [withProcessingLock] that hold or await the lock of
    an edge in the order in which they came; the first of an edge holds it. *)
Record Queues := MkQueues {
  qs_frames : list FrameQueue; qs_receipts : list ReceiptQueue;
  qs_frameBytes : gmap (list Z) Z; qs_receiptCounts : gmap (list Z) Z;
  qs_locks : list (list Z * Job); qs_ended : list (Job * bool) }.

Definition set_queue (queue : list bytes) (f : FrameQueue) : FrameQueue :=
  MkFrameQueue (fq_key f) queue (fq_seen f) (fq_value f) (fq_released f) (fq_aborted f) (fq_waiters f) (fq_bytes f).
Definition set_fseen (seen : gset (list Z)) (f : FrameQueue) : FrameQueue :=
  MkFrameQueue (fq_key f) (fq_queue f) seen (fq_value f) (fq_released f) (fq_aborted f) (fq_waiters f) (fq_bytes f).
Definition set_value (value : bool) (f : FrameQueue) : FrameQueue :=
  MkFrameQueue (fq_key f) (fq_queue f) (fq_seen f) value (fq_released f) (fq_aborted f) (fq_waiters f) (fq_bytes f).
Definition set_freleased (f : FrameQueue) : FrameQueue :=
  MkFrameQueue (fq_key f) (fq_queue f) (fq_seen f) (fq_value f) true (fq_aborted f) (fq_waiters f) (fq_bytes f).
Definition set_aborted (f : FrameQueue) : FrameQueue :=
  MkFrameQueue (fq_key f) (fq_queue f) (fq_seen f) (fq_value f) (fq_released f) true (fq_waiters f) (fq_bytes f).
Definition set_waiters (waiters : nat) (f : FrameQueue) : FrameQueue :=
  MkFrameQueue (fq_key f) (fq_queue f) (fq_seen f) (fq_value f) (fq_released f) (fq_aborted f) waiters (fq_bytes f).
Definition set_fbytes (b : Z) (f : FrameQueue) : FrameQueue :=
  MkFrameQueue (fq_key f) (fq_queue f) (fq_seen f) (fq_value f) (fq_released f) (fq_aborted f) (fq_waiters f) b.
Definition set_pending (pending : list bytes) (r : ReceiptQueue) : ReceiptQueue :=
  MkReceiptQueue (rq_key r) pending (rq_seen r) (rq_draining r) (rq_released r).
Definition set_rseen (seen : gset (list Z)) (r : ReceiptQueue) : ReceiptQueue :=
  MkReceiptQueue (rq_key r) (rq_pending r) seen (rq_draining r) (rq_released r).
Definition set_draining (draining : bool) (r : ReceiptQueue) : ReceiptQueue :=
  MkReceiptQueue (rq_key r) (rq_pending r) (rq_seen r) draining (rq_released r).
Definition set_rreleased (r : ReceiptQueue) : ReceiptQueue :=
  MkReceiptQueue (rq_key r) (rq_pending r) (rq_seen r) (rq_draining r) true.

Definition on_frames c (f : FrameQueue -> FrameQueue) (q : Queues) : Queues :=
  MkQueues (alter f c (qs_frames q)) (qs_receipts q) (qs_frameBytes q) (qs_receiptCounts q) (qs_locks q) (qs_ended q).
Definition on_receipts c (f : ReceiptQueue -> ReceiptQueue) (q : Queues) : Queues :=
  MkQueues (qs_frames q) (alter f c (qs_receipts q)) (qs_frameBytes q) (qs_receiptCounts q) (qs_locks q) (qs_ended q).
Definition set_frameBytes (m : gmap (list Z) Z) (q : Queues) : Queues :=
  MkQueues (qs_frames q) (qs_receipts q) m (qs_receiptCounts q) (qs_locks q) (qs_ended q).
Definition set_receiptCounts (m : gmap (list Z) Z) (q : Queues) : Queues :=
  MkQueues (qs_frames q) (qs_receipts q) (qs_frameBytes q) m (qs_locks q) (qs_ended q).
Definition set_locks (locks : list (list Z * Job)) (q : Queues) : Queues :=
  MkQueues (qs_frames q) (qs_receipts q) (qs_frameBytes q) (qs_receiptCounts q) locks (qs_ended q).
Definition set_ended (ended : list (Job * bool)) (q : Queues) : Queues :=
  MkQueues (qs_frames q) (qs_receipts q) (qs_frameBytes q) (qs_receiptCounts q) (qs_locks q) ended.

(** ** Budgets *)

Definition count_at (m : gmap (list Z) Z) key : Z := default 0 (m !! key).
Definition adjusted (m : gmap (list Z) Z) key (delta : Z) : gmap (list Z) Z :=
  let next := Z.max 0 (count_at m key + delta) in
  if next =? 0 then delete key m else <[key := next]> m.

Definition adjustQueuedBytes c key (delta : Z) (q : Queues) : Queues :=
  set_frameBytes (adjusted (qs_frameBytes q) key delta)
    (on_frames c (fun f => set_fbytes (Z.max 0 (fq_bytes f + delta)) f) q).
Definition adjustQueuedReceipts key (delta : Z) (q : Queues) : Queues :=
  set_receiptCounts (adjusted (qs_receiptCounts q) key delta) q.

(** ** The lock of an edge *)

Definition lock key (job : Job) (q : Queues) : Queues := set_locks (qs_locks q ++ [(key, job)]) q.
Fixpoint take_first key (l : list (list Z * Job)) : option (Job * list (list Z * Job)) :=
  match l with
  | [] => None
  | (k, job) :: rest =>
      if bool_decide (k = key) then Some (job, rest)
      else match take_first key rest with Some (j, rest') => Some (j, (k, job) :: rest') | None => None end
  end.
(** The handler that holds the lock of an edge ends, by returning or by throwing;
    the next one has the lock. *)
Definition finish key (ok : bool) (q : Queues) : Queues :=
  match take_first key (qs_locks q) with
  | Some (job, rest) => set_ended (qs_ended q ++ [(job, ok)]) (set_locks rest q)
  | None => q
  end.

Definition hasQueuedEdgeReceiveWork key (q : Queues) : bool :=
  (0 <? count_at (qs_frameBytes q) key) || existsb (fun e => bool_decide (e.1 = key)) (qs_locks q).
(** One look of the loop of [waitForEdgeReceiveQuiescence]: does it return? *)
Definition quiescence_seen key (q : Queues) : bool :=
  negb (existsb (fun e => bool_decide (e.1 = key)) (qs_locks q)) && (count_at (qs_frameBytes q) key =? 0).

(** ** Message frames *)

Definition settleMessageQueueIdle c (q : Queues) : Queues :=
  match qs_frames q !! c with
  | Some f => if fq_value f || negb (bool_decide (fq_queue f = [])) then q else on_frames c (set_waiters 0) q
  | None => q
  end.
(** [true]: the promise is resolved at once; otherwise the caller is a waiter. *)
Definition waitForQueuedMessageFrames c (q : Queues) : bool * Queues :=
  match qs_frames q !! c with
  | Some f =>
      if negb (fq_value f) && bool_decide (fq_queue f = []) then (true, q)
      else (false, on_frames c (set_waiters (S (fq_waiters f))) q)
  | None => (true, q)
  end.
Definition frame_bytes (queue : list bytes) : Z := fold_right (fun frame total => blen frame + total) 0 queue.
Definition releaseQueuedMessageFrames c (q : Queues) : Queues :=
  match qs_frames q !! c with
  | Some f =>
      let q := on_frames c (fun f => set_queue [] (set_freleased f)) q in
      let q := if 0 <? frame_bytes (fq_queue f) then adjustQueuedBytes c (fq_key f) (- frame_bytes (fq_queue f)) q else q in
      settleMessageQueueIdle c q
  | None => q
  end.

(** One turn of the loop of [drain]: a frame is given to the lock, or the loop ends. *)
Definition next_frame c (q : Queues) : bool * Queues :=
  match qs_frames q !! c with
  | Some f =>
      if fq_released f || fq_aborted f then (false, q) else
      match last (fq_queue f) with
      | Some chunk =>
          (true, lock (fq_key f) (FrameJob c chunk)
                   (adjustQueuedBytes c (fq_key f) (- blen chunk) (on_frames c (set_queue (removelast (fq_queue f))) q)))
      | None => (false, q)
      end
  | None => (false, q)
  end.
(** Its [finally]; [again] is the call of [drain]. *)
Definition end_drain (again : Queues -> Queues) c (q : Queues) : Queues :=
  let q := on_frames c (set_value false) q in
  match qs_frames q !! c with
  | Some f =>
      if negb (bool_decide (fq_queue f = [])) && negb (fq_released f) && negb (fq_aborted f) then again q
      else settleMessageQueueIdle c q
  | None => q
  end.
Definition drain_loop (again : Queues -> Queues) c (q : Queues) : Queues :=
  let '(took, q) := next_frame c q in if took then q else end_drain again c q.
(** The fuel bounds the calls of [drain] from its own [finally] before it waits;
    it calls itself at most once. *)
Fixpoint drain (fuel : nat) c (q : Queues) : Queues :=
  match fuel with
  | O => q
  | S fuel =>
      match qs_frames q !! c with
      | Some f =>
          if fq_value f || fq_released f || fq_aborted f then q
          else drain_loop (drain fuel c) c (on_frames c (set_value true) q)
      | None => q
      end
  end.

Definition enqueue c (data : bytes) (q : Queues) : bool * Queues :=
  match qs_frames q !! c with
  | Some f =>
      if fq_released f || fq_aborted f then (false, q) else
      let k := k32 data in
      if bool_decide (k ∈ fq_seen f) then (true, q) else
      if (MAX_QUEUED_FRAMES_PER_CHANNEL <=? blen (fq_queue f))
         || (MAX_QUEUED_BYTES_PER_EDGE <? count_at (qs_frameBytes q) (fq_key f) + blen data) then (false, q) else
      let seen := {[k]} ∪ fq_seen f in
      let seen := if (MAX_SEEN_SIZE <? size seen)%nat then ∅ else seen in
      let q := on_frames c (fun f => set_queue (fq_queue f ++ [data]) (set_fseen seen f)) q in
      let q := adjustQueuedBytes c (fq_key f) (blen data) q in
      (true, if fq_value f then q else drain 1 c q)
  | None => (false, q)
  end.

(** ** Receipts *)

Definition releaseQueuedReceipts c (q : Queues) : Queues :=
  match qs_receipts q !! c with
  | Some r =>
      if rq_released r then q else
      let count := blen (rq_pending r) in
      let q := on_receipts c (fun r => set_rseen ∅ (set_pending [] (set_rreleased r))) q in
      if 0 <? count then adjustQueuedReceipts (rq_key r) (- count) q else q
  | None => q
  end.

Definition next_receipt c (q : Queues) : bool * Queues :=
  match qs_receipts q !! c with
  | Some r =>
      if rq_released r then (false, q) else
      match rq_pending r with
      | receipt :: rest =>
          (true, lock (rq_key r) (ReceiptJob c receipt)
                   (adjustQueuedReceipts (rq_key r) (-1) (on_receipts c (set_pending rest) q)))
      | [] => (false, q)
      end
  | None => (false, q)
  end.
Definition end_receipts (again : Queues -> Queues) c (q : Queues) : Queues :=
  let q := on_receipts c (set_draining false) q in
  match qs_receipts q !! c with
  | Some r => if negb (rq_released r) && negb (bool_decide (rq_pending r = [])) then again q else q
  | None => q
  end.
Definition receipts_loop (again : Queues -> Queues) c (q : Queues) : Queues :=
  let '(took, q) := next_receipt c q in if took then q else end_receipts again c q.
Fixpoint drainReceipts (fuel : nat) c (q : Queues) : Queues :=
  match fuel with
  | O => q
  | S fuel =>
      match qs_receipts q !! c with
      | Some r =>
          if rq_draining r || rq_released r then q
          else receipts_loop (drainReceipts fuel c) c (on_receipts c (set_draining true) q)
      | None => q
      end
  end.

Definition enqueueReceipt c (receipt : bytes) (q : Queues) : bool * Queues :=
  match qs_receipts q !! c with
  | Some r =>
      if rq_released r then (false, q) else
      let fingerprint := k32 receipt in
      if bool_decide (fingerprint ∈ rq_seen r) then (true, q) else
      if (MAX_QUEUED_RECEIPTS_PER_CHANNEL <=? blen (rq_pending r))
         || (MAX_QUEUED_RECEIPTS_PER_EDGE <=? count_at (qs_receiptCounts q) (rq_key r)) then (false, q) else
      let seen := {[fingerprint]} ∪ rq_seen r in
      let seen := if (Z.to_nat MAX_QUEUED_RECEIPTS_PER_CHANNEL * 2 <? size seen)%nat then ∅ else seen in
      let q := on_receipts c (fun r => set_pending (rq_pending r ++ [receipt]) (set_rseen seen r)) q in
      let q := adjustQueuedReceipts (rq_key r) 1 q in
      (true, if rq_draining r then q else drainReceipts 1 c q)
  | None => (false, q)
  end.

(** ** Turns of the event loop *)

(** A drain goes on after its job.  [ok] is [false] when the handler threw: then
    the loop is left. *)
Definition continue (job : Job) (ok : bool) (q : Queues) : Queues :=
  match job with
  | FrameJob c _ => if ok then drain_loop (drain 1 c) c q else end_drain (drain 1 c) c q
  | ReceiptJob c receipt =>
      let q := on_receipts c (fun r => set_rseen (rq_seen r ∖ {[k32 receipt]}) r) q in
      if ok then receipts_loop (drainReceipts 1 c) c q else end_receipts (drainReceipts 1 c) c q
  end.
Definition resume (i : nat) (q : Queues) : Queues :=
  match qs_ended q !! i with
  | Some (job, ok) => continue job ok (set_ended (delete i (qs_ended q)) q)
  | None => q
  end.

(** The queues [handleOpenChannel] makes for a channel. *)
Definition open_queues key (q : Queues) : Queues :=
  MkQueues (qs_frames q ++ [MkFrameQueue key [] ∅ false false false 0 0])
    (qs_receipts q ++ [MkReceiptQueue key [] ∅ false false])
    (qs_frameBytes q) (qs_receiptCounts q) (qs_locks q) (qs_ended q).
(** [releaseProtocolResources]; it runs once, when it aborts the signal. *)
Definition releaseProtocolResources c (q : Queues) : Queues :=
  match qs_frames q !! c with
  | Some f =>
      if fq_aborted f then q
      else releaseQueuedReceipts c (releaseQueuedMessageFrames c (on_frames c set_aborted q))
  | None => q
  end.

Inductive QueueEvent :=
  | OpenChannel (key : list Z) | FrameArrives (c : nat) (data : bytes) | ReceiptArrives (c : nat) (receipt : bytes)
  | HandlerEnds (key : list Z) (ok : bool) | DrainGoesOn (i : nat)
  | ChannelReleased (c : nat) | ReceiptsReleased (c : nat) | WaiterComes (c : nat).
Definition queue_step (q : Queues) (ev : QueueEvent) : Queues :=
  match ev with
  | OpenChannel key => open_queues key q
  | FrameArrives c data => (enqueue c data q).2
  | ReceiptArrives c receipt => (enqueueReceipt c receipt q).2
  | HandlerEnds key ok => finish key ok q
  | DrainGoesOn i => resume i q
  | ChannelReleased c => releaseProtocolResources c q
  | ReceiptsReleased c => releaseQueuedReceipts c q
  | WaiterComes c => (waitForQueuedMessageFrames c q).2
  end.
Definition no_queues : Queues := MkQueues [] [] ∅ ∅ [] [].
Definition queue_run (evs : list QueueEvent) : Queues := fold_left queue_step evs no_queues.
