(* ===== verification/FrameQueueInv.v ===== *)
(** * Every reachable state of the queues

    Theorems on [FrameQueue]: the budgets count what is queued, nothing that is
    queued is stranded, and a released channel has no handler left once its
    waiters are told so. *)

From Stdlib Require Import String.
From stdpp Require Import gmap.
From S2P Require Import Prelude Bytes RoomInvite FrameQueue.
Local Open Scope Z_scope.
Local Open Scope list_scope.
Implicit Types (c : nat) (key : list Z) (q : Queues).

#[local] Arguments frame_bytes : simpl never.

(** ** Totals over the channels of an edge *)

Section Total.
Context {A : Type} (key_of : A -> list Z) (weight : A -> Z).

Fixpoint total key (l : list A) : Z :=
  match l with [] => 0 | x :: l => (if bool_decide (key_of x = key) then weight x else 0) + total key l end.
Lemma total_app key l l' : total key (l ++ l') = total key l + total key l'.
Proof. induction l as [|x l IH]; cbn; [done|]. rewrite IH. lia. Qed.
Lemma total_alter key f i l x : l !! i = Some x -> key_of (f x) = key_of x ->
  total key (alter f i l) = total key l + (if bool_decide (key_of x = key) then weight (f x) - weight x else 0).
Proof.
  revert i. induction l as [|y l IH]; intros [|i] H Hk; try discriminate H; cbn in H |- *.
  - injection H as ->. rewrite Hk. case_bool_decide; lia.
  - change (list_alter f i l) with (alter f i l). rewrite (IH i H Hk). lia.
Qed.
Lemma total_nonneg key l : (forall x, 0 <= weight x) -> 0 <= total key l.
Proof. intros H. induction l as [|x l IH]; cbn; [done|]. specialize (H x). case_bool_decide; lia. Qed.
Lemma total_at_least key i l x : (forall x, 0 <= weight x) -> l !! i = Some x -> key_of x = key -> weight x <= total key l.
Proof.
  intros Hw. revert i. induction l as [|y l IH]; intros [|i] H Hk; try discriminate H; cbn in H |- *.
  - injection H as ->. rewrite bool_decide_eq_true_2 by done. pose proof (total_nonneg key l Hw). lia.
  - specialize (IH i H Hk). specialize (Hw y). case_bool_decide; lia.
Qed.
End Total.

Lemma queue_alter_same {A} (f : A -> A) i (l : list A) x : l !! i = Some x -> f x = x -> alter f i l = l.
Proof.
  revert i. induction l as [|y l IH]; intros [|i] H Hx; try discriminate H; cbn in H |- *.
  - injection H as ->. by rewrite Hx.
  - change (list_alter f i l) with (alter f i l). by rewrite IH.
Qed.

Lemma alter_congr {A} (f g : A -> A) i (l : list A) x : l !! i = Some x -> f x = g x -> alter f i l = alter g i l.
Proof.
  revert i. induction l as [|y l IH]; intros [|i] H Hx; try discriminate H; cbn in H |- *.
  - injection H as ->. by rewrite Hx.
  - change (y :: alter f i l = y :: alter g i l). by rewrite (IH i H Hx).
Qed.

(** ** Counts *)

Lemma count_adjusted m key delta key' : count_at (adjusted m key delta) key' =
  if bool_decide (key = key') then Z.max 0 (count_at m key + delta) else count_at m key'.
Proof.
  unfold adjusted, count_at at 1. case_bool_decide as Hk.
  - subst. destruct (Z.eqb_spec (Z.max 0 (count_at m key' + delta)) 0) as [E|E]; [rewrite lookup_delete_eq, E|rewrite lookup_insert_eq]; done.
  - destruct (_ =? 0); [rewrite lookup_delete_ne by done|rewrite lookup_insert_ne by done]; done.
Qed.
Lemma frame_bytes_nonneg l : 0 <= frame_bytes l.
Proof. unfold frame_bytes. induction l as [|x l IH]; cbn [fold_right]; [done|]. pose proof (blen_nonneg x). lia. Qed.
Lemma frame_bytes_snoc l x : frame_bytes (l ++ [x]) = frame_bytes l + blen x.
Proof. unfold frame_bytes. induction l as [|y l IH]; cbn [app fold_right]; [lia|]. rewrite IH. lia. Qed.

(** ** Jobs *)

Definition frame_of c (j : Job) : bool := match j with FrameJob c' _ => (c' =? c)%nat | _ => false end.
Definition receipt_of c (j : Job) : bool := match j with ReceiptJob c' _ => (c' =? c)%nat | _ => false end.
Definition job_channel (j : Job) : nat := match j with FrameJob c _ | ReceiptJob c _ => c end.
Fixpoint count (p : Job -> bool) (l : list Job) : nat :=
  match l with [] => 0 | j :: l => Nat.b2n (p j) + count p l end.
Lemma count_app p l l' : count p (l ++ l') = (count p l + count p l')%nat.
Proof. induction l as [|j l IH]; cbn; [done|]. rewrite IH. lia. Qed.
Lemma count_zero p l : (forall j, j ∈ l -> p j = false) -> count p l = 0%nat.
Proof.
  induction l as [|j l IH]; intros H; [done|]. cbn. rewrite (H j) by by left. apply IH. intros j' Hj. apply H. by right.
Qed.
Lemma count_positive p l j : j ∈ l -> p j = true -> (0 < count p l)%nat.
Proof. induction 1 as [j l|j i l Hj IH]; intros Hp; cbn; [rewrite Hp; cbn; lia|]. specialize (IH Hp). lia. Qed.

(** The jobs of the lock, those that have ended, and the drain that is running. *)
Definition jobs (extra : list Job) q : list Job := (qs_locks q).*2 ++ (qs_ended q).*1 ++ extra.

(** ** The invariant *)

Record frame_ok (l : list Job) c (f : FrameQueue) : Prop := {
  fo_bytes : fq_bytes f = frame_bytes (fq_queue f);
  fo_length : blen (fq_queue f) <= MAX_QUEUED_FRAMES_PER_CHANNEL;
  fo_busy : fq_queue f <> [] -> fq_value f = true;
  fo_released : fq_released f = true -> fq_queue f = [];
  fo_aborted : fq_aborted f = true -> fq_released f = true;
  fo_waiters : fq_waiters f <> 0%nat -> fq_value f = true;
  fo_jobs : count (frame_of c) l = Nat.b2n (fq_value f) }.
Record receipt_ok (l : list Job) c (r : ReceiptQueue) : Prop := {
  ro_length : blen (rq_pending r) <= MAX_QUEUED_RECEIPTS_PER_CHANNEL;
  ro_busy : rq_pending r <> [] -> rq_draining r = true;
  ro_released : rq_released r = true -> rq_pending r = [];
  ro_jobs : count (receipt_of c) l = Nat.b2n (rq_draining r) }.
Definition queued_bytes key q : Z := total fq_key (fun f => frame_bytes (fq_queue f)) key (qs_frames q).
Definition queued_receipts key q : Z := total rq_key (fun r => blen (rq_pending r)) key (qs_receipts q).
Definition key_of_job q (j : Job) : option (list Z) :=
  match j with FrameJob c _ => fq_key <$> qs_frames q !! c | ReceiptJob c _ => rq_key <$> qs_receipts q !! c end.

Record queues_inv (extra : list Job) q : Prop := {
  qi_frames c f : qs_frames q !! c = Some f -> frame_ok (jobs extra q) c f;
  qi_receipts c r : qs_receipts q !! c = Some r -> receipt_ok (jobs extra q) c r;
  qi_bytes key : count_at (qs_frameBytes q) key = queued_bytes key q;
  qi_bytes_max key : count_at (qs_frameBytes q) key <= MAX_QUEUED_BYTES_PER_EDGE;
  qi_counts key : count_at (qs_receiptCounts q) key = queued_receipts key q;
  qi_counts_max key : count_at (qs_receiptCounts q) key <= MAX_QUEUED_RECEIPTS_PER_EDGE;
  qi_channels j : j ∈ jobs extra q -> (job_channel j < length (qs_frames q))%nat;
  qi_keys k j : (k, j) ∈ qs_locks q -> key_of_job q j = Some k;
  qi_lengths : length (qs_receipts q) = length (qs_frames q) }.

(** ** One queue changes *)

Lemma frames_step extra extra' q c f g fb locks :
  queues_inv extra q -> qs_frames q !! c = Some f -> fq_key (g f) = fq_key f ->
  (forall key, count_at fb key = count_at (qs_frameBytes q) key +
     (if bool_decide (fq_key f = key) then frame_bytes (fq_queue (g f)) - frame_bytes (fq_queue f) else 0)) ->
  count_at fb (fq_key f) <= MAX_QUEUED_BYTES_PER_EDGE ->
  let q' := MkQueues (alter g c (qs_frames q)) (qs_receipts q) fb (qs_receiptCounts q) locks (qs_ended q) in
  (forall k j, (k, j) ∈ locks -> (k, j) ∈ qs_locks q \/ k = fq_key f /\ exists chunk, j = FrameJob c chunk) ->
  (forall c', c' <> c -> count (frame_of c') (jobs extra' q') = count (frame_of c') (jobs extra q)) ->
  (forall c', count (receipt_of c') (jobs extra' q') = count (receipt_of c') (jobs extra q)) ->
  (forall j, j ∈ extra' -> j ∈ extra \/ job_channel j = c) ->
  frame_ok (jobs extra' q') c (g f) -> queues_inv extra' q'.
Proof.
  intros I Hf Hk Hfb Hmax q' Hlocks Hframes Hreceipts Hextra Hok. subst q'.
  assert (c < length (qs_frames q))%nat as Hc by by eapply lookup_lt_Some.
  split; cbn [qs_frames qs_receipts qs_frameBytes qs_receiptCounts qs_locks qs_ended].
  - intros c' f' H. destruct (decide (c' = c)) as [->|Hne].
    + rewrite list_lookup_alter_eq, Hf in H. by injection H as <-.
    + rewrite list_lookup_alter_ne in H by done. destruct (qi_frames _ _ I _ _ H). split; try done. by rewrite Hframes.
  - intros c' r H. destruct (qi_receipts _ _ I _ _ H). split; try done. by rewrite Hreceipts.
  - intros key. rewrite Hfb, (qi_bytes _ _ I). unfold queued_bytes. cbn. by rewrite (total_alter _ _ _ _ _ _ _ Hf Hk).
  - intros key. destruct (decide (fq_key f = key)) as [<-|Hne]; [done|].
    rewrite Hfb, bool_decide_eq_false_2, Z.add_0_r by done. apply (qi_bytes_max _ _ I).
  - intros key. rewrite (qi_counts _ _ I). done.
  - apply (qi_counts_max _ _ I).
  - intros j Hj. rewrite length_alter. unfold jobs in Hj. cbn in Hj. rewrite !elem_of_app in Hj.
    assert (forall j, j ∈ jobs extra q -> (job_channel j < length (qs_frames q))%nat) as Hold by apply (qi_channels _ _ I).
    destruct Hj as [Hj|[Hj|Hj]].
    + apply list_elem_of_fmap in Hj as ([k j'] & -> & Hj). apply Hlocks in Hj as [Hj|[_ [chunk ->]]]; [|done].
      apply Hold. unfold jobs. rewrite elem_of_app. left. apply list_elem_of_fmap. by exists (k, j').
    + apply Hold. unfold jobs. rewrite !elem_of_app. tauto.
    + apply Hextra in Hj as [Hj| ->]; [|done]. apply Hold. unfold jobs. rewrite !elem_of_app. tauto.
  - intros k j Hj. apply Hlocks in Hj as [Hj|[-> [chunk ->]]].
    + apply (qi_keys _ _ I) in Hj. destruct j as [c'|c']; [|done]. cbn in Hj |- *. destruct (decide (c' = c)) as [->|Hne].
      * rewrite list_lookup_alter_eq, Hf in *. cbn in *. by rewrite Hk.
      * by rewrite list_lookup_alter_ne.
    + cbn. rewrite list_lookup_alter_eq, Hf. cbn. by rewrite Hk.
  - rewrite length_alter. apply (qi_lengths _ _ I).
Qed.

Lemma receipts_step extra extra' q c r g rc locks :
  queues_inv extra q -> qs_receipts q !! c = Some r -> rq_key (g r) = rq_key r ->
  (forall key, count_at rc key = count_at (qs_receiptCounts q) key +
     (if bool_decide (rq_key r = key) then blen (rq_pending (g r)) - blen (rq_pending r) else 0)) ->
  count_at rc (rq_key r) <= MAX_QUEUED_RECEIPTS_PER_EDGE ->
  let q' := MkQueues (qs_frames q) (alter g c (qs_receipts q)) (qs_frameBytes q) rc locks (qs_ended q) in
  (forall k j, (k, j) ∈ locks -> (k, j) ∈ qs_locks q \/ k = rq_key r /\ exists receipt, j = ReceiptJob c receipt) ->
  (forall c', c' <> c -> count (receipt_of c') (jobs extra' q') = count (receipt_of c') (jobs extra q)) ->
  (forall c', count (frame_of c') (jobs extra' q') = count (frame_of c') (jobs extra q)) ->
  (forall j, j ∈ extra' -> j ∈ extra \/ job_channel j = c) ->
  receipt_ok (jobs extra' q') c (g r) -> queues_inv extra' q'.
Proof.
  intros I Hr Hk Hrc Hmax q' Hlocks Hreceipts Hframes Hextra Hok. subst q'.
  assert (c < length (qs_frames q))%nat as Hc by (rewrite <- (qi_lengths _ _ I); by eapply lookup_lt_Some).
  split; cbn [qs_frames qs_receipts qs_frameBytes qs_receiptCounts qs_locks qs_ended].
  - intros c' f H. destruct (qi_frames _ _ I _ _ H). split; try done. by rewrite Hframes.
  - intros c' r' H. destruct (decide (c' = c)) as [->|Hne].
    + rewrite list_lookup_alter_eq, Hr in H. by injection H as <-.
    + rewrite list_lookup_alter_ne in H by done. destruct (qi_receipts _ _ I _ _ H). split; try done. by rewrite Hreceipts.
  - intros key. rewrite (qi_bytes _ _ I). done.
  - apply (qi_bytes_max _ _ I).
  - intros key. rewrite Hrc, (qi_counts _ _ I). unfold queued_receipts. cbn. by rewrite (total_alter _ _ _ _ _ _ _ Hr Hk).
  - intros key. destruct (decide (rq_key r = key)) as [<-|Hne]; [done|].
    rewrite Hrc, bool_decide_eq_false_2, Z.add_0_r by done. apply (qi_counts_max _ _ I).
  - intros j Hj. unfold jobs in Hj. cbn in Hj. rewrite !elem_of_app in Hj.
    assert (forall j, j ∈ jobs extra q -> (job_channel j < length (qs_frames q))%nat) as Hold by apply (qi_channels _ _ I).
    destruct Hj as [Hj|[Hj|Hj]].
    + apply list_elem_of_fmap in Hj as ([k j'] & -> & Hj). apply Hlocks in Hj as [Hj|[_ [receipt ->]]]; [|done].
      apply Hold. unfold jobs. rewrite elem_of_app. left. apply list_elem_of_fmap. by exists (k, j').
    + apply Hold. unfold jobs. rewrite !elem_of_app. tauto.
    + apply Hextra in Hj as [Hj| ->]; [|done]. apply Hold. unfold jobs. rewrite !elem_of_app. tauto.
  - intros k j Hj. apply Hlocks in Hj as [Hj|[-> [receipt ->]]].
    + apply (qi_keys _ _ I) in Hj. destruct j as [c'|c']; [done|]. cbn in Hj |- *. destruct (decide (c' = c)) as [->|Hne].
      * rewrite list_lookup_alter_eq, Hr in *. cbn in *. by rewrite Hk.
      * by rewrite list_lookup_alter_ne.
    + cbn. rewrite list_lookup_alter_eq, Hr. cbn. by rewrite Hk.
  - rewrite length_alter. apply (qi_lengths _ _ I).
Qed.

(** ** The drain of a channel *)

Lemma queue_total c f q : qs_frames q !! c = Some f -> frame_bytes (fq_queue f) <= queued_bytes (fq_key f) q.
Proof.
  intros H. apply (total_at_least fq_key (fun f => frame_bytes (fq_queue f)) _ c _ f); [|done|done].
  intros x. apply frame_bytes_nonneg.
Qed.
Lemma pending_total c r q : qs_receipts q !! c = Some r -> blen (rq_pending r) <= queued_receipts (rq_key r) q.
Proof.
  intros H. apply (total_at_least rq_key (fun r => blen (rq_pending r)) _ c _ r); [|done|done].
  intros x. apply blen_nonneg.
Qed.

(** The running drain of [c] takes a frame and waits. *)
Lemma next_frame_inv c q q' x : queues_inv [FrameJob c x] q -> next_frame c q = (true, q') -> queues_inv [] q'.
Proof.
  intros I H. unfold next_frame in H. destruct (qs_frames q !! c) as [f|] eqn:Hf; [|discriminate H].
  destruct (_ || _) eqn:Hr; [discriminate H|]. destruct (last (fq_queue f)) as [chunk|] eqn:Hl; [|discriminate H].
  injection H as <-. destruct (qi_frames _ _ I _ _ Hf) as [F1 F2 F3 F4 F5 F6 F7].
  apply last_Some in Hl as [queue Hq].
  assert (removelast (fq_queue f) = queue) as -> by (rewrite Hq; apply removelast_last).
  assert (frame_bytes (fq_queue f) = frame_bytes queue + blen chunk) as Hb by (rewrite Hq; apply frame_bytes_snoc).
  pose proof (queue_total _ _ _ Hf) as Ht. rewrite <- (qi_bytes _ _ I) in Ht.
  pose proof (frame_bytes_nonneg queue). pose proof (blen_nonneg chunk).
  unfold lock, set_locks, adjustQueuedBytes, set_frameBytes, on_frames. cbn. rewrite list_alter_alter_eq.
  apply (frames_step [FrameJob c x] [] q c f); try done.
  - intros key. rewrite count_adjusted. cbn [compose set_fbytes set_queue fq_queue]. rewrite Hb.
    repeat case_bool_decide; subst; try done; lia.
  - rewrite count_adjusted, bool_decide_eq_true_2 by done. pose proof (qi_bytes_max _ _ I (fq_key f)). lia.
  - intros k j [Hj|Hj]%elem_of_app; [by left|]. apply list_elem_of_singleton in Hj as [= -> ->]. right. eauto.
  - intros c' Hne. unfold jobs. cbn. rewrite fmap_app, !count_app. cbn. lia.
  - intros c'. unfold jobs. cbn. rewrite fmap_app, !count_app. cbn. lia.
  - intros j Hj. by apply not_elem_of_nil in Hj.
  - split; cbn; try done; try lia.
    + rewrite Hq, blen_app in F2. pose proof (blen_nonneg [chunk]). lia.
    + intros _. apply F3. rewrite Hq. by destruct queue.
    + intros E. apply F4 in E. rewrite Hq in E. by destruct queue.
    + rewrite <- F7. unfold jobs. cbn. rewrite fmap_app, !count_app. cbn. lia.
Qed.
(** The drain of [c] ends with nothing left in the queue. *)
Lemma end_drain_inv c q x f again : queues_inv [FrameJob c x] q -> qs_frames q !! c = Some f -> fq_queue f = [] ->
  queues_inv [] (end_drain again c q).
Proof.
  intros I Hf Hq. destruct (qi_frames _ _ I _ _ Hf) as [F1 F2 F3 F4 F5 F6 F7].
  unfold end_drain. cbn [on_frames qs_frames]. rewrite list_lookup_alter_eq, Hf. cbn [fmap option_fmap option_map set_value fq_queue].
  rewrite (bool_decide_eq_true_2 _ Hq). cbn [negb andb].
  unfold settleMessageQueueIdle. cbn [on_frames qs_frames]. rewrite list_lookup_alter_eq, Hf. cbn.
  rewrite (bool_decide_eq_true_2 _ Hq). cbn. unfold on_frames. cbn. rewrite list_alter_alter_eq.
  apply (frames_step [FrameJob c x] [] q c f); try done.
  - intros key. cbn. case_bool_decide; lia.
  - apply (qi_bytes_max _ _ I).
  - by left.
  - intros c' Hne. unfold jobs. cbn. rewrite !count_app. cbn. rewrite (proj2 (Nat.eqb_neq c c')) by done. cbn. lia.
  - intros c'. unfold jobs. cbn. rewrite !count_app. cbn. lia.
  - intros j Hj. by apply not_elem_of_nil in Hj.
  - split; cbn; try done. unfold jobs in F7 |- *. cbn in F7 |- *. rewrite !count_app in F7 |- *. cbn in F7 |- *.
    rewrite Nat.eqb_refl in F7. destruct (fq_value f); cbn in F7; lia.
Qed.
Lemma drain_loop_inv c q x f again : queues_inv [FrameJob c x] q -> qs_frames q !! c = Some f ->
  queues_inv [] (drain_loop again c q).
Proof.
  intros I Hf. unfold drain_loop. destruct (next_frame c q) as [[] q'] eqn:Hn; [by eapply next_frame_inv|].
  destruct (qi_frames _ _ I _ _ Hf) as [F1 F2 F3 F4 F5 F6 F7]. unfold next_frame in Hn. rewrite Hf in Hn.
  destruct (fq_released f) eqn:Hr; [injection Hn as <-; eapply end_drain_inv; eauto|].
  destruct (fq_aborted f) eqn:Ha; [by specialize (F5 eq_refl)|]. cbn in Hn.
  destruct (last (fq_queue f)) eqn:Hl; [discriminate Hn|]. injection Hn as <-.
  eapply end_drain_inv; eauto. by apply last_None.
Qed.
(** The [finally] after a handler that threw starts the drain once more. *)
Lemma thrown_drain_inv c q x f : queues_inv [FrameJob c x] q -> qs_frames q !! c = Some f ->
  queues_inv [] (end_drain (drain 1 c) c q).
Proof.
  intros I Hf. destruct (decide (fq_queue f = [])) as [Hq|Hq]; [by eapply end_drain_inv|].
  destruct (qi_frames _ _ I _ _ Hf) as [F1 F2 F3 F4 F5 F6 F7].
  unfold end_drain. cbn [on_frames qs_frames]. rewrite list_lookup_alter_eq, Hf. cbn [fmap option_fmap option_map set_value fq_queue fq_released fq_aborted].
  rewrite (bool_decide_eq_false_2 _ Hq). destruct (fq_released f) eqn:Hr; [by rewrite (F4 eq_refl) in Hq|].
  destruct (fq_aborted f) eqn:Ha; [by specialize (F5 eq_refl)|]. cbn [negb andb drain].
  cbn [on_frames qs_frames]. rewrite list_lookup_alter_eq, Hf. cbn [fmap option_fmap option_map set_value fq_value fq_released fq_aborted].
  rewrite ?Hr, ?Ha. cbn [orb].
  assert (on_frames c (set_value true) (on_frames c (set_value false) q) = q) as ->; [|by eapply drain_loop_inv].
  unfold on_frames. cbn. rewrite list_alter_alter_eq, (queue_alter_same _ _ _ _ Hf); [by destruct q|].
  apply F3 in Hq. destruct f. cbn in *. by rewrite Hq.
Qed.

(** ** The drain of the receipts *)

Lemma next_receipt_inv c q q' x : queues_inv [ReceiptJob c x] q -> next_receipt c q = (true, q') -> queues_inv [] q'.
Proof.
  intros I H. unfold next_receipt in H. destruct (qs_receipts q !! c) as [r|] eqn:Hr; [|discriminate H].
  destruct (rq_released r) eqn:Hrel; [discriminate H|]. destruct (rq_pending r) as [|receipt rest] eqn:Hp; [discriminate H|].
  injection H as <-. destruct (qi_receipts _ _ I _ _ Hr) as [R1 R2 R3 R4].
  pose proof (pending_total _ _ _ Hr) as Ht. rewrite <- (qi_counts _ _ I) in Ht.
  assert (blen (rq_pending r) = blen rest + 1) as Hb by (rewrite Hp, blen_cons; lia). pose proof (blen_nonneg rest).
  unfold lock, set_locks, adjustQueuedReceipts, set_receiptCounts, on_receipts. cbn.
  apply (receipts_step [ReceiptJob c x] [] q c r); try done.
  - intros key. rewrite count_adjusted. cbn [set_pending rq_pending]. rewrite Hb. repeat case_bool_decide; subst; try done; lia.
  - rewrite count_adjusted, bool_decide_eq_true_2 by done. pose proof (qi_counts_max _ _ I (rq_key r)). lia.
  - intros k j [Hj|Hj]%elem_of_app; [by left|]. apply list_elem_of_singleton in Hj as [= -> ->]. right. eauto.
  - intros c' Hne. unfold jobs. cbn. rewrite fmap_app, !count_app. cbn. lia.
  - intros c'. unfold jobs. cbn. rewrite fmap_app, !count_app. cbn. lia.
  - intros j Hj. by apply not_elem_of_nil in Hj.
  - split; cbn; try done.
    + lia.
    + intros _. apply R2. by rewrite Hp.
    + intros E. by rewrite E in Hrel.
    + rewrite <- R4. unfold jobs. cbn. rewrite fmap_app, !count_app. cbn. lia.
Qed.
Lemma end_receipts_inv c q x r again : queues_inv [ReceiptJob c x] q -> qs_receipts q !! c = Some r -> rq_pending r = [] ->
  queues_inv [] (end_receipts again c q).
Proof.
  intros I Hr Hp. destruct (qi_receipts _ _ I _ _ Hr) as [R1 R2 R3 R4].
  unfold end_receipts. cbn [on_receipts qs_receipts]. rewrite list_lookup_alter_eq, Hr. cbn.
  rewrite (bool_decide_eq_true_2 _ Hp), andb_false_r. unfold on_receipts.
  apply (receipts_step [ReceiptJob c x] [] q c r); try done.
  - intros key. cbn. case_bool_decide; lia.
  - apply (qi_counts_max _ _ I).
  - by left.
  - intros c' Hne. unfold jobs. cbn. rewrite !count_app. cbn. rewrite (proj2 (Nat.eqb_neq c c')) by done. cbn. lia.
  - intros c'. unfold jobs. cbn. rewrite !count_app. cbn. lia.
  - intros j Hj. by apply not_elem_of_nil in Hj.
  - split; cbn; try done. unfold jobs in R4 |- *. cbn in R4 |- *. rewrite !count_app in R4 |- *. cbn in R4 |- *.
    rewrite Nat.eqb_refl in R4. destruct (rq_draining r); cbn in R4; lia.
Qed.
Lemma receipts_loop_inv c q x r again : queues_inv [ReceiptJob c x] q -> qs_receipts q !! c = Some r ->
  queues_inv [] (receipts_loop again c q).
Proof.
  intros I Hr. unfold receipts_loop. destruct (next_receipt c q) as [[] q'] eqn:Hn; [by eapply next_receipt_inv|].
  destruct (qi_receipts _ _ I _ _ Hr) as [R1 R2 R3 R4]. unfold next_receipt in Hn. rewrite Hr in Hn.
  destruct (rq_released r) eqn:Hrel; [injection Hn as <-; eapply end_receipts_inv; eauto|].
  destruct (rq_pending r) eqn:Hp; [|discriminate Hn]. injection Hn as <-. by eapply end_receipts_inv.
Qed.
Lemma thrown_receipts_inv c q x r : queues_inv [ReceiptJob c x] q -> qs_receipts q !! c = Some r ->
  queues_inv [] (end_receipts (drainReceipts 1 c) c q).
Proof.
  intros I Hr. destruct (decide (rq_pending r = [])) as [Hp|Hp]; [by eapply end_receipts_inv|].
  destruct (qi_receipts _ _ I _ _ Hr) as [R1 R2 R3 R4].
  unfold end_receipts. cbn [on_receipts qs_receipts]. rewrite list_lookup_alter_eq, Hr. cbn [fmap option_fmap option_map set_draining rq_pending rq_released].
  rewrite (bool_decide_eq_false_2 _ Hp). destruct (rq_released r) eqn:Hrel; [by rewrite (R3 eq_refl) in Hp|]. cbn [negb andb drainReceipts].
  cbn [on_receipts qs_receipts]. rewrite list_lookup_alter_eq, Hr. cbn [fmap option_fmap option_map set_draining rq_draining rq_released].
  rewrite ?Hrel. cbn [orb].
  assert (on_receipts c (set_draining true) (on_receipts c (set_draining false) q) = q) as ->; [|by eapply receipts_loop_inv].
  unfold on_receipts. cbn. rewrite list_alter_alter_eq, (queue_alter_same _ _ _ _ Hr); [by destruct q|].
  apply R2 in Hp. destruct r. cbn in *. by rewrite Hp.
Qed.

(** ** Arrivals *)

Lemma enqueue_inv c data q : queues_inv [] q -> queues_inv [] (enqueue c data q).2.
Proof.
  intros I. unfold enqueue. destruct (qs_frames q !! c) as [f|] eqn:Hf; [|done].
  destruct (fq_released f || fq_aborted f) eqn:Hr; [done|]. case_bool_decide; [done|].
  destruct ((MAX_QUEUED_FRAMES_PER_CHANNEL <=? _) || _) eqn:Hb; [done|]. apply orb_false_iff in Hb as [Hlen Hmax].
  apply Z.leb_gt in Hlen. apply Z.ltb_ge in Hmax. cbn [snd].
  set (seen := if (MAX_SEEN_SIZE <? _)%nat then ∅ else _).
  destruct (qi_frames _ _ I _ _ Hf) as [F1 F2 F3 F4 F5 F6 F7].
  pose (extra := if fq_value f then @nil Job else [FrameJob c data]).
  pose (g := fun f => set_value true (set_fbytes (Z.max 0 (fq_bytes f + blen data)) (set_queue (fq_queue f ++ [data]) (set_fseen seen f)))).
  pose proof (blen_nonneg data). pose proof (frame_bytes_nonneg (fq_queue f)).
  assert (0 <= count_at (qs_frameBytes q) (fq_key f)) as Hpos.
  { rewrite (qi_bytes _ _ I). pose proof (queue_total _ _ _ Hf). lia. }
  assert (queues_inv extra (MkQueues (alter g c (qs_frames q)) (qs_receipts q) (adjusted (qs_frameBytes q) (fq_key f) (blen data))
    (qs_receiptCounts q) (qs_locks q) (qs_ended q))) as I'.
  { apply (frames_step [] extra q c f); try done.
    - intros key. rewrite count_adjusted. cbn [g set_value set_fbytes set_queue fq_queue]. rewrite frame_bytes_snoc.
      repeat case_bool_decide; subst; try done; lia.
    - rewrite count_adjusted, bool_decide_eq_true_2 by done. lia.
    - by left.
    - intros c' Hne. unfold jobs, extra. cbn. rewrite !count_app. destruct (fq_value f); cbn; [done|].
      rewrite (proj2 (Nat.eqb_neq c c')) by done. cbn. lia.
    - intros c'. unfold jobs, extra. cbn. rewrite !count_app. by destruct (fq_value f).
    - intros j Hj. right. subst extra. destruct (fq_value f); [by apply not_elem_of_nil in Hj|]. by apply list_elem_of_singleton in Hj as ->.
    - apply orb_false_iff in Hr as [Hr Ha]. split; cbn; try done.
      + rewrite frame_bytes_snoc. lia.
      + rewrite blen_app. change (blen [data]) with 1. lia.
      + intros E. by rewrite E in Hr.
      + unfold jobs in F7 |- *. cbn in F7 |- *. rewrite !count_app in F7 |- *. subst extra. cbn in F7.
        destruct (fq_value f); cbn in F7 |- *; [exact F7|]. rewrite Nat.eqb_refl. cbn. lia. }
  destruct (fq_value f) eqn:Hv; subst extra.
  - unfold adjustQueuedBytes, set_frameBytes, on_frames. cbn. rewrite list_alter_alter_eq. revert I'.
    rewrite (alter_congr (_ ∘ _) g c (qs_frames q) f Hf); [done|]. unfold g. destruct f. cbn in *. by rewrite Hv.
  - cbn [drain]. unfold adjustQueuedBytes, set_frameBytes, on_frames at 1 2. cbn. rewrite !list_lookup_alter_eq, Hf. cbn.
    rewrite Hv. cbn [orb]. rewrite Hr. unfold on_frames. cbn. rewrite !list_alter_alter_eq. eapply drain_loop_inv; [exact I'|].
    cbn. by rewrite list_lookup_alter_eq, Hf.
Qed.
Lemma enqueueReceipt_inv c receipt q : queues_inv [] q -> queues_inv [] (enqueueReceipt c receipt q).2.
Proof.
  intros I. unfold enqueueReceipt. destruct (qs_receipts q !! c) as [r|] eqn:Hr; [|done].
  destruct (rq_released r) eqn:Hrel; [done|]. case_bool_decide; [done|].
  destruct ((MAX_QUEUED_RECEIPTS_PER_CHANNEL <=? _) || _) eqn:Hb; [done|]. apply orb_false_iff in Hb as [Hlen Hmax].
  apply Z.leb_gt in Hlen. apply Z.leb_gt in Hmax. cbn [snd].
  set (seen := if (_ <? _)%nat then ∅ else _).
  destruct (qi_receipts _ _ I _ _ Hr) as [R1 R2 R3 R4].
  pose (extra := if rq_draining r then @nil Job else [ReceiptJob c receipt]).
  pose (g := fun r => set_draining true (set_pending (rq_pending r ++ [receipt]) (set_rseen seen r))).
  assert (0 <= count_at (qs_receiptCounts q) (rq_key r)) as Hpos.
  { rewrite (qi_counts _ _ I). pose proof (pending_total _ _ _ Hr). pose proof (blen_nonneg (rq_pending r)). lia. }
  assert (queues_inv extra (MkQueues (qs_frames q) (alter g c (qs_receipts q)) (qs_frameBytes q)
    (adjusted (qs_receiptCounts q) (rq_key r) 1) (qs_locks q) (qs_ended q))) as I'.
  { apply (receipts_step [] extra q c r); try done.
    - intros key. rewrite count_adjusted. cbn [g set_draining set_pending rq_pending]. rewrite blen_app. change (blen [receipt]) with 1.
      repeat case_bool_decide; subst; try done; lia.
    - rewrite count_adjusted, bool_decide_eq_true_2 by done. lia.
    - by left.
    - intros c' Hne. unfold jobs, extra. cbn. rewrite !count_app. destruct (rq_draining r); cbn; [done|].
      rewrite (proj2 (Nat.eqb_neq c c')) by done. cbn. lia.
    - intros c'. unfold jobs, extra. cbn. rewrite !count_app. by destruct (rq_draining r).
    - intros j Hj. right. subst extra. destruct (rq_draining r); [by apply not_elem_of_nil in Hj|]. by apply list_elem_of_singleton in Hj as ->.
    - split; cbn; try done.
      + rewrite blen_app. change (blen [receipt]) with 1. lia.
      + intros E. by rewrite E in Hrel.
      + unfold jobs in R4 |- *. cbn in R4 |- *. rewrite !count_app in R4 |- *. subst extra. cbn in R4.
        destruct (rq_draining r); cbn in R4 |- *; [exact R4|]. rewrite Nat.eqb_refl. cbn. lia. }
  destruct (rq_draining r) eqn:Hv; subst extra.
  - unfold adjustQueuedReceipts, set_receiptCounts, on_receipts. cbn. revert I'.
    rewrite <- (alter_congr (fun r => set_pending (rq_pending r ++ [receipt]) (set_rseen seen r)) g c (qs_receipts q) r Hr); [done|].
    unfold g. destruct r. cbn in *. by rewrite Hv.
  - cbn [drainReceipts]. unfold adjustQueuedReceipts, set_receiptCounts, on_receipts at 1 2. cbn. rewrite !list_lookup_alter_eq, Hr. cbn.
    rewrite Hv, Hrel. cbn [orb]. unfold on_receipts. cbn. rewrite !list_alter_alter_eq. eapply receipts_loop_inv; [exact I'|].
    cbn. by rewrite list_lookup_alter_eq, Hr.
Qed.

(** ** Releases *)

Lemma frames_settle c q : queues_inv [] q -> queues_inv [] (settleMessageQueueIdle c q).
Proof.
  intros I. unfold settleMessageQueueIdle. destruct (qs_frames q !! c) as [f|] eqn:Hf; [|done]. destruct (_ || _); [done|].
  destruct (qi_frames _ _ I _ _ Hf) as [F1 F2 F3 F4 F5 F6 F7].
  unfold on_frames. apply (frames_step [] [] q c f); try done.
  - intros key. cbn. case_bool_decide; lia.
  - apply (qi_bytes_max _ _ I).
  - by left.
  - by left.
Qed.
Lemma release_frames_inv c q : queues_inv [] q -> queues_inv [] (releaseQueuedMessageFrames c q).
Proof.
  intros I. unfold releaseQueuedMessageFrames. destruct (qs_frames q !! c) as [f|] eqn:Hf; [|done]. apply frames_settle.
  destruct (qi_frames _ _ I _ _ Hf) as [F1 F2 F3 F4 F5 F6 F7]. pose proof (frame_bytes_nonneg (fq_queue f)) as H.
  pose proof (queue_total _ _ _ Hf) as Ht. rewrite <- (qi_bytes _ _ I) in Ht.
  destruct (0 <? frame_bytes (fq_queue f)) eqn:Hp.
  - unfold adjustQueuedBytes, set_frameBytes, on_frames. cbn. rewrite list_alter_alter_eq.
    apply (frames_step [] [] q c f); try done.
    + intros key. rewrite count_adjusted. cbn [compose set_fbytes set_queue fq_queue set_freleased]. change (frame_bytes []) with 0.
      repeat case_bool_decide; subst; try done; lia.
    + rewrite count_adjusted, bool_decide_eq_true_2 by done. pose proof (qi_bytes_max _ _ I (fq_key f)). lia.
    + by left.
    + by left.
    + split; cbn; try done. rewrite F1. change (frame_bytes []) with 0. lia.
  - apply Z.ltb_ge in Hp. unfold on_frames. apply (frames_step [] [] q c f); try done.
    + intros key. cbn. change (frame_bytes []) with 0. case_bool_decide; lia.
    + apply (qi_bytes_max _ _ I).
    + by left.
    + by left.
    + split; cbn; try done. rewrite F1. change (frame_bytes []) with 0. lia.
Qed.
Lemma release_receipts_inv c q : queues_inv [] q -> queues_inv [] (releaseQueuedReceipts c q).
Proof.
  intros I. unfold releaseQueuedReceipts. destruct (qs_receipts q !! c) as [r|] eqn:Hr; [|done].
  destruct (rq_released r); [done|]. destruct (qi_receipts _ _ I _ _ Hr) as [R1 R2 R3 R4].
  pose proof (blen_nonneg (rq_pending r)) as H. pose proof (pending_total _ _ _ Hr) as Ht. rewrite <- (qi_counts _ _ I) in Ht.
  destruct (0 <? blen (rq_pending r)) eqn:Hp.
  - unfold adjustQueuedReceipts, set_receiptCounts, on_receipts. cbn. apply (receipts_step [] [] q c r); try done.
    + intros key. rewrite count_adjusted. cbn [set_rseen set_pending rq_pending set_rreleased]. change (blen []) with 0.
      repeat case_bool_decide; subst; try done; lia.
    + rewrite count_adjusted, bool_decide_eq_true_2 by done. pose proof (qi_counts_max _ _ I (rq_key r)). lia.
    + by left.
    + by left.
  - apply Z.ltb_ge in Hp. unfold on_receipts. apply (receipts_step [] [] q c r); try done.
    + intros key. cbn. change (blen []) with 0. case_bool_decide; lia.
    + apply (qi_counts_max _ _ I).
    + by left.
    + by left.
Qed.
(** Aborting the signal commutes with the release. *)
Lemma settle_aborted c q : settleMessageQueueIdle c (on_frames c set_aborted q) = on_frames c set_aborted (settleMessageQueueIdle c q).
Proof.
  unfold settleMessageQueueIdle. cbn [on_frames qs_frames]. rewrite list_lookup_alter_eq. destruct (qs_frames q !! c) as [f|]; cbn; [|done].
  destruct (_ || _); [done|]. unfold on_frames. cbn. by rewrite !list_alter_alter_eq.
Qed.
Lemma release_aborted c q : releaseQueuedMessageFrames c (on_frames c set_aborted q) = on_frames c set_aborted (releaseQueuedMessageFrames c q).
Proof.
  unfold releaseQueuedMessageFrames. cbn [on_frames qs_frames]. rewrite list_lookup_alter_eq.
  destruct (qs_frames q !! c) as [f|] eqn:Hf; cbn [fmap option_fmap option_map]; [|done]. cbn [set_aborted fq_queue fq_key].
  rewrite <- settle_aborted. f_equal. destruct (0 <? _).
  - unfold adjustQueuedBytes, set_frameBytes, on_frames. cbn. by rewrite !list_alter_alter_eq.
  - unfold on_frames. cbn. by rewrite !list_alter_alter_eq.
Qed.
Lemma settle_released c q f : qs_frames q !! c = Some f ->
  exists f', qs_frames (settleMessageQueueIdle c q) !! c = Some f' /\ fq_released f' = fq_released f /\ fq_key f' = fq_key f.
Proof.
  intros H. unfold settleMessageQueueIdle. rewrite H. destruct (_ || _); [by exists f|]. cbn. rewrite list_lookup_alter_eq, H. by eexists.
Qed.
Lemma frames_released c q f : qs_frames q !! c = Some f ->
  exists f', qs_frames (releaseQueuedMessageFrames c q) !! c = Some f' /\ fq_released f' = true /\ fq_key f' = fq_key f.
Proof.
  intros H. unfold releaseQueuedMessageFrames. rewrite H.
  assert (forall q1 f1, qs_frames q1 !! c = Some f1 -> fq_released f1 = true -> fq_key f1 = fq_key f ->
    exists f', qs_frames (settleMessageQueueIdle c q1) !! c = Some f' /\ fq_released f' = true /\ fq_key f' = fq_key f) as Hs.
  { intros q1 f1 H1 H2 H3. destruct (settle_released _ _ _ H1) as (f' & ? & ? & ?). exists f'. split_and!; congruence. }
  destruct (0 <? _); (eapply Hs; [cbn; rewrite ?list_lookup_alter_eq, H; reflexivity|done|done]).
Qed.
Lemma release_inv c q : queues_inv [] q -> queues_inv [] (releaseProtocolResources c q).
Proof.
  intros I. unfold releaseProtocolResources. destruct (qs_frames q !! c) as [f|] eqn:Hf; [|done]. destruct (fq_aborted f); [done|].
  apply release_receipts_inv. rewrite release_aborted. destruct (frames_released _ _ _ Hf) as (f' & Hf' & Hr & _).
  pose proof (release_frames_inv c _ I) as I'. destruct (qi_frames _ _ I' _ _ Hf') as [F1 F2 F3 F4 F5 F6 F7].
  unfold on_frames. apply (frames_step [] [] _ c f'); try done.
  - intros key. cbn. case_bool_decide; lia.
  - apply (qi_bytes_max _ _ I').
  - by left.
  - by left.
Qed.
