(* ===== verification/FrameQueueSafety.v ===== *)
(** * What the queues promise

    The invariant of [FrameQueueInv] holds in every reachable state, and the
    theorems on [FrameQueue] follow from it. *)

From Stdlib Require Import String.
From stdpp Require Import gmap relations.
From S2P Require Import Prelude Bytes RoomInvite FrameQueue FrameQueueInv.
Local Open Scope Z_scope.
Local Open Scope list_scope.
Implicit Types (c : nat) (key : list Z) (q : Queues) (ev : QueueEvent).

#[local] Arguments frame_bytes : simpl never.

(** ** Jobs move *)

Lemma jobs_step extra extra' q locks ended :
  queues_inv extra q -> let q' := set_ended ended (set_locks locks q) in
  (forall p, count p (jobs extra' q') = count p (jobs extra q)) ->
  (forall e, e ∈ locks -> e ∈ qs_locks q) -> (forall j, j ∈ jobs extra' q' -> j ∈ jobs extra q) -> queues_inv extra' q'.
Proof.
  intros I q' Hc Hl Hj. destruct I as [I1 I2 I3 I4 I5 I6 I7 I8 I9]. split; try done.
  - intros c f Hf. destruct (I1 c f Hf). split; try done. by rewrite Hc.
  - intros c r Hr. destruct (I2 c r Hr). split; try done. by rewrite Hc.
  - intros j H. by apply I7, Hj.
  - intros k j H. apply I8. by apply Hl.
Qed.

Lemma take_first_split key l job rest : take_first key l = Some (job, rest) ->
  exists l1 l2, l = l1 ++ (key, job) :: l2 /\ rest = l1 ++ l2.
Proof.
  revert rest. induction l as [|[k j] l IH]; intros rest H; [discriminate H|]. cbn in H. case_bool_decide as Hk.
  - injection H as -> ->. subst. by exists [], rest.
  - destruct (take_first key l) as [[j' rest']|]; [|discriminate H]. injection H as -> <-.
    destruct (IH rest' eq_refl) as (l1 & l2 & -> & ->). by exists ((k, j) :: l1), l2.
Qed.
Lemma finish_inv key ok q : queues_inv [] q -> queues_inv [] (finish key ok q).
Proof.
  intros I. unfold finish. destruct (take_first key (qs_locks q)) as [[job rest]|] eqn:Ht; [|done].
  apply take_first_split in Ht as (l1 & l2 & Hl & ->). apply (jobs_step [] []); [done|..].
  - intros p. unfold jobs. cbn. rewrite Hl, !fmap_app, !app_nil_r, !count_app. cbn. lia.
  - intros e He. rewrite Hl. rewrite elem_of_app in *. rewrite elem_of_cons. tauto.
  - intros j Hj. unfold jobs in *. cbn in *. rewrite Hl. rewrite !fmap_app, !elem_of_app in *. cbn in *. rewrite elem_of_cons.
    rewrite list_elem_of_singleton in Hj. tauto.
Qed.

Lemma inv_queues extra q j : queues_inv extra q -> j ∈ jobs extra q ->
  exists f r, qs_frames q !! job_channel j = Some f /\ qs_receipts q !! job_channel j = Some r.
Proof.
  intros I Hj%(qi_channels _ _ I). pose proof Hj as Hr. rewrite <- (qi_lengths _ _ I) in Hr.
  apply lookup_lt_is_Some in Hj as [f Hf]. apply lookup_lt_is_Some in Hr as [r Hr]. by exists f, r.
Qed.
Lemma resume_inv i q : queues_inv [] q -> queues_inv [] (resume i q).
Proof.
  intros I. unfold resume. destruct (qs_ended q !! i) as [[job ok]|] eqn:Hi; [|done].
  assert (qs_ended q = take i (qs_ended q) ++ (job, ok) :: drop (S i) (qs_ended q)) as He by (by rewrite take_drop_middle).
  assert (queues_inv [job] (set_ended (delete i (qs_ended q)) q)) as I'.
  { change (set_ended (delete i (qs_ended q)) q) with (set_ended (delete i (qs_ended q)) (set_locks (qs_locks q) q)). apply (jobs_step [] [job]); [done|..].
    - intros p. unfold jobs. cbn. rewrite delete_take_drop. rewrite He at 3. rewrite !fmap_app, !app_nil_r, !count_app. cbn. lia.
    - done.
    - intros j Hj. unfold jobs in *. cbn in *. rewrite delete_take_drop in Hj. rewrite He. rewrite !fmap_app, !elem_of_app in *. cbn.
      rewrite elem_of_cons. rewrite list_elem_of_singleton in Hj. tauto. }
  destruct (inv_queues _ _ job I') as (f & r & Hf & Hr); [unfold jobs; rewrite !elem_of_app; right; right; by left|].
  destruct job as [c x|c x]; cbn [continue job_channel] in *.
  - destruct ok; [by eapply drain_loop_inv|by eapply thrown_drain_inv].
  - assert (queues_inv [ReceiptJob c x]
      (on_receipts c (fun r => set_rseen (rq_seen r ∖ {[k32 x]}) r) (set_ended (delete i (qs_ended q)) q))) as I2.
    { unfold on_receipts. cbn. apply (receipts_step [ReceiptJob c x] [ReceiptJob c x] _ c r _ _ _ I' Hr); try done.
      - intros key. cbn. case_bool_decide; lia.
      - apply (qi_counts_max _ _ I').
      - by left.
      - by left.
      - destruct (qi_receipts _ _ I' _ _ Hr) as [R1 R2 R3 R4]. by split. }
    assert (qs_receipts (on_receipts c (fun r => set_rseen (rq_seen r ∖ {[k32 x]}) r) (set_ended (delete i (qs_ended q)) q)) !! c =
      Some (set_rseen (rq_seen r ∖ {[k32 x]}) r)) as Hr2 by (cbn; cbn in Hr; by rewrite list_lookup_alter_eq, Hr).
    destruct ok; [by eapply receipts_loop_inv|by eapply thrown_receipts_inv].
Qed.

Lemma wait_inv c q : queues_inv [] q -> queues_inv [] (waitForQueuedMessageFrames c q).2.
Proof.
  intros I. unfold waitForQueuedMessageFrames. destruct (qs_frames q !! c) as [f|] eqn:Hf; [|done].
  destruct (negb (fq_value f) && _) eqn:Hb; [done|]. destruct (qi_frames _ _ I _ _ Hf) as [F1 F2 F3 F4 F5 F6 F7].
  unfold on_frames. cbn. apply (frames_step [] [] q c f); try done.
  - intros key. cbn. destruct (bool_decide (fq_key f = key)); lia.
  - apply (qi_bytes_max _ _ I).
  - by left.
  - by left.
  - split; cbn; try done. intros _. apply andb_false_iff in Hb as [Hb%negb_false_iff|Hb]; [done|].
    apply F3. by apply bool_decide_eq_false in Hb.
Qed.

Lemma lookup_snoc {A} (l : list A) x i y : (l ++ [x]) !! i = Some y -> l !! i = Some y \/ i = length l /\ y = x.
Proof. intros [H|[H1 H2]]%lookup_app_Some; [by left|]. apply list_lookup_singleton_Some in H2 as [H2 <-]. right. split; [lia|done]. Qed.
Lemma open_inv key q : queues_inv [] q -> queues_inv [] (open_queues key q).
Proof.
  intros [I1 I2 I3 I4 I5 I6 I7 I8 I9].
  assert (forall p, (forall j, p j = true -> (length (qs_frames q) <= job_channel j)%nat) -> count p (jobs [] q) = 0%nat) as Hnone.
  { intros p Hp. apply count_zero. intros j Hj. destruct (p j) eqn:E; [|done]. apply I7 in Hj. apply Hp in E. lia. }
  split; cbn [open_queues qs_frames qs_receipts qs_frameBytes qs_receiptCounts qs_locks qs_ended].
  - intros c f [Hf|[-> ->]]%lookup_snoc; [by apply I1|]. split; cbn; try done. unfold jobs. cbn. apply Hnone.
    intros [c x|c x] H; [|discriminate H]. cbn in H |- *. apply Nat.eqb_eq in H. lia.
  - intros c r [Hr|[-> ->]]%lookup_snoc; [by apply I2|]. split; cbn; try done. unfold jobs. cbn. apply Hnone.
    intros [c x|c x] H; [discriminate H|]. cbn in H |- *. apply Nat.eqb_eq in H. lia.
  - intros k. rewrite I3. unfold queued_bytes. cbn. rewrite total_app. cbn. change (frame_bytes []) with 0. case_bool_decide; lia.
  - done.
  - intros k. rewrite I5. unfold queued_receipts. cbn. rewrite total_app. cbn. change (blen []) with 0. case_bool_decide; lia.
  - done.
  - intros j Hj. rewrite length_app. apply I7 in Hj. lia.
  - intros k j Hj. pose proof (I8 k j Hj) as H.
    destruct j as [c x|c x]; cbn in H |- *; apply fmap_Some in H as (y & Hy & ->); by rewrite (lookup_app_l_Some _ _ _ _ Hy).
  - rewrite !length_app. cbn. lia.
Qed.

Lemma queue_step_inv q ev : queues_inv [] q -> queues_inv [] (queue_step q ev).
Proof.
  intros I. destruct ev; cbn.
  - by apply open_inv.
  - by apply enqueue_inv.
  - by apply enqueueReceipt_inv.
  - by apply finish_inv.
  - by apply resume_inv.
  - by apply release_inv.
  - by apply release_receipts_inv.
  - by apply wait_inv.
Qed.
Lemma queues_invariant evs : queues_inv [] (queue_run evs).
Proof.
  unfold queue_run. assert (queues_inv [] no_queues) as H.
  { split; cbn; try done; [intros j Hj|intros k j Hj]; by apply not_elem_of_nil in Hj. }
  revert H. generalize no_queues. induction evs as [|ev evs IH]; intros q I; [done|]. cbn. apply IH. by apply queue_step_inv.
Qed.

(** ** Work left *)

Lemma list_alter_none {A} (f : A -> A) i (l : list A) : l !! i = None -> alter f i l = l.
Proof.
  revert i. induction l as [|y l IH]; intros [|i] H; try done. cbn in H |- *. change (y :: alter f i l = y :: l). by rewrite IH.
Qed.


Definition queued q : Z :=
  total (fun _ => []) (fun f => blen (fq_queue f)) [] (qs_frames q) + total (fun _ => []) (fun r => blen (rq_pending r)) [] (qs_receipts q).
(** A frame in a queue has three turns before it, one in the lock has two. *)
Definition work q : Z := 3 * queued q + 2 * blen (qs_locks q) + blen (qs_ended q).

Lemma work_frames c g q f : qs_frames q !! c = Some f ->
  work (on_frames c g q) = work q + 3 * (blen (fq_queue (g f)) - blen (fq_queue f)).
Proof. intros H. unfold work, queued. cbn. rewrite (total_alter _ _ _ _ _ _ _ H), bool_decide_eq_true_2 by done. lia. Qed.
Lemma work_receipts c g q r : qs_receipts q !! c = Some r ->
  work (on_receipts c g q) = work q + 3 * (blen (rq_pending (g r)) - blen (rq_pending r)).
Proof. intros H. unfold work, queued. cbn. rewrite (total_alter _ _ _ _ _ _ _ H), bool_decide_eq_true_2 by done. lia. Qed.
Lemma work_lock key j q : work (lock key j q) = work q + 2.
Proof. unfold work, queued. cbn. rewrite blen_app. change (blen [(key, j)]) with 1. lia. Qed.
Lemma work_bytes c key d q : work (adjustQueuedBytes c key d q) = work q.
Proof.
  unfold adjustQueuedBytes. change (work (set_frameBytes ?m ?x)) with (work x).
  destruct (qs_frames q !! c) as [f|] eqn:H; [rewrite (work_frames _ _ _ _ H); cbn; lia|].
  unfold on_frames. rewrite list_alter_none by done. by destruct q.
Qed.
Lemma work_settle c q : work (settleMessageQueueIdle c q) = work q.
Proof.
  unfold settleMessageQueueIdle. destruct (qs_frames q !! c) as [f|] eqn:H; [|done]. destruct (_ || _); [done|].
  rewrite (work_frames _ _ _ _ H). cbn. lia.
Qed.

Lemma next_frame_work c q : work (next_frame c q).2 <= work q.
Proof.
  unfold next_frame. destruct (qs_frames q !! c) as [f|] eqn:H; [|done]. destruct (_ || _); [done|].
  destruct (last (fq_queue f)) as [chunk|] eqn:Hl; [|done]. cbn [snd]. rewrite work_lock, work_bytes, (work_frames _ _ _ _ H).
  apply last_Some in Hl as [l Hl]. cbn. rewrite Hl, removelast_last, blen_app. change (blen [chunk]) with 1. lia.
Qed.
Lemma end_drain_work again c q : (forall q, work (again q) <= work q) -> work (end_drain again c q) <= work q.
Proof.
  intros Ha. unfold end_drain. assert (work (on_frames c (set_value false) q) = work q) as Hv.
  { destruct (qs_frames q !! c) as [f|] eqn:H; [rewrite (work_frames _ _ _ _ H); cbn; lia|].
    unfold on_frames. rewrite list_alter_none by done. by destruct q. }
  destruct (qs_frames (on_frames _ _ q) !! c) as [f|]; [|lia]. destruct (_ && _).
  - rewrite <- Hv. apply Ha.
  - rewrite work_settle. lia.
Qed.
Lemma drain_loop_work again c q : (forall q, work (again q) <= work q) -> work (drain_loop again c q) <= work q.
Proof.
  intros Ha. unfold drain_loop. pose proof (next_frame_work c q) as H. destruct (next_frame c q) as [[] q']; cbn in H; [done|].
  pose proof (end_drain_work again c q' Ha). lia.
Qed.
Lemma drain_work n c q : work (drain n c q) <= work q.
Proof.
  revert q. induction n as [|n IH]; intros q; cbn [drain]; [done|]. destruct (qs_frames q !! c) as [f|] eqn:H; [|done].
  destruct (_ || _); [done|]. pose proof (drain_loop_work (drain n c) c (on_frames c (set_value true) q) IH) as Hd.
  rewrite (work_frames _ _ _ _ H) in Hd. cbn in Hd. lia.
Qed.
Lemma next_receipt_work c q : work (next_receipt c q).2 <= work q.
Proof.
  unfold next_receipt. destruct (qs_receipts q !! c) as [r|] eqn:H; [|done]. destruct (rq_released r); [done|].
  destruct (rq_pending r) as [|receipt rest] eqn:Hp; [done|]. cbn [snd]. rewrite work_lock.
  change (work (adjustQueuedReceipts ?k ?d ?x)) with (work x). rewrite (work_receipts _ _ _ _ H). cbn. rewrite Hp, blen_cons. lia.
Qed.
Lemma end_receipts_work again c q : (forall q, work (again q) <= work q) -> work (end_receipts again c q) <= work q.
Proof.
  intros Ha. unfold end_receipts. assert (work (on_receipts c (set_draining false) q) = work q) as Hv.
  { destruct (qs_receipts q !! c) as [r|] eqn:H; [rewrite (work_receipts _ _ _ _ H); cbn; lia|].
    unfold on_receipts. rewrite list_alter_none by done. by destruct q. }
  destruct (qs_receipts (on_receipts _ _ q) !! c) as [r|]; [|lia]. destruct (_ && _); [|lia]. rewrite <- Hv. apply Ha.
Qed.
Lemma receipts_loop_work again c q : (forall q, work (again q) <= work q) -> work (receipts_loop again c q) <= work q.
Proof.
  intros Ha. unfold receipts_loop. pose proof (next_receipt_work c q) as H. destruct (next_receipt c q) as [[] q']; cbn in H; [done|].
  pose proof (end_receipts_work again c q' Ha). lia.
Qed.
Lemma drainReceipts_work n c q : work (drainReceipts n c q) <= work q.
Proof.
  revert q. induction n as [|n IH]; intros q; cbn [drainReceipts]; [done|]. destruct (qs_receipts q !! c) as [r|] eqn:H; [|done].
  destruct (_ || _); [done|]. pose proof (receipts_loop_work (drainReceipts n c) c (on_receipts c (set_draining true) q) IH) as Hd.
  rewrite (work_receipts _ _ _ _ H) in Hd. cbn in Hd. lia.
Qed.
Lemma continue_work job ok q : work (continue job ok q) <= work q.
Proof.
  destruct job as [c x|c x]; cbn [continue].
  - destruct ok; [apply drain_loop_work|apply end_drain_work]; intros; apply drain_work.
  - assert (work (on_receipts c (fun r => set_rseen (rq_seen r ∖ {[k32 x]}) r) q) = work q) as Hv.
    { destruct (qs_receipts q !! c) as [r|] eqn:H; [rewrite (work_receipts _ _ _ _ H); cbn; lia|].
      unfold on_receipts. rewrite list_alter_none by done. by destruct q. }
    rewrite <- Hv. destruct ok; [apply receipts_loop_work|apply end_receipts_work]; intros; apply drainReceipts_work.
Qed.

(** A turn in which a handler ends or a drain goes on. *)
Definition handler_turn ev : Prop := match ev with HandlerEnds _ _ | DrainGoesOn _ => True | _ => False end.
Lemma finish_work key ok q : finish key ok q = q \/ work (finish key ok q) = work q - 1.
Proof.
  unfold finish. destruct (take_first key (qs_locks q)) as [[job rest]|] eqn:Ht; [right|by left].
  apply take_first_split in Ht as (l1 & l2 & Hl & ->). unfold work, queued. cbn. rewrite Hl, !blen_app, !blen_cons.
  change (blen []) with 0. lia.
Qed.
Lemma resume_work i q : resume i q = q \/ work (resume i q) < work q.
Proof.
  unfold resume. destruct (qs_ended q !! i) as [[job ok]|] eqn:Hi; [right|by left].
  pose proof (continue_work job ok (set_ended (delete i (qs_ended q)) q)) as H.
  assert (work (set_ended (delete i (qs_ended q)) q) = work q - 1) as Hw; [|lia].
  unfold work, queued. cbn. unfold blen. rewrite length_delete by by eexists. apply lookup_lt_Some in Hi. lia.
Qed.
Lemma idle_turns q : (forall turn, handler_turn turn -> queue_step q turn = q) -> qs_locks q = [] /\ qs_ended q = [].
Proof.
  intros H. split.
  - destruct (qs_locks q) as [|[key job] rest] eqn:Hl; [done|]. specialize (H (HandlerEnds key true) I). cbn in H.
    unfold finish in H. rewrite Hl in H. cbn in H. rewrite bool_decide_eq_true_2 in H by done.
    apply (f_equal qs_locks) in H. cbn in H. rewrite Hl in H. apply (f_equal length) in H. cbn in H. lia.
  - destruct (qs_ended q) as [|[job ok] rest] eqn:He; [done|]. specialize (H (DrainGoesOn 0) I). cbn in H.
    destruct (resume_work 0 q) as [Hr|Hr]; [|rewrite H in Hr; lia].
    unfold resume in Hr. rewrite He in Hr. cbn in Hr. pose proof (continue_work job ok (set_ended rest q)) as Hw. rewrite Hr in Hw.
    unfold work, queued in Hw. cbn in Hw. rewrite He, blen_cons in Hw. lia.
Qed.

(** C23. The budgets count exactly what is queued, in every order of arrivals,
    handlers, releases and waits: the bytes of a channel are those of its queue,
    the bytes and receipts of an edge are the sums over its channels, and none of
    the four bounds is ever exceeded.  (So the clamping at zero never acts, and a
    closed channel gives its share back.) *)
Theorem queue_budgets_exact evs : let q := queue_run evs in
  (forall c f, qs_frames q !! c = Some f ->
     fq_bytes f = frame_bytes (fq_queue f) /\ blen (fq_queue f) <= MAX_QUEUED_FRAMES_PER_CHANNEL) /\
  (forall c r, qs_receipts q !! c = Some r -> blen (rq_pending r) <= MAX_QUEUED_RECEIPTS_PER_CHANNEL) /\
  (forall key, count_at (qs_frameBytes q) key = queued_bytes key q /\ queued_bytes key q <= MAX_QUEUED_BYTES_PER_EDGE) /\
  (forall key, count_at (qs_receiptCounts q) key = queued_receipts key q /\ queued_receipts key q <= MAX_QUEUED_RECEIPTS_PER_EDGE).
Proof.
  destruct (queues_invariant evs) as [I1 I2 I3 I4 I5 I6 I7 I8 I9]. split_and!.
  - intros c f Hf. by destruct (I1 c f Hf).
  - intros c r Hr. by destruct (I2 c r Hr).
  - intros key. rewrite <- I3. done.
  - intros key. rewrite <- I5. done.
Qed.

(** C22. Nothing is stranded.  Whatever has happened, every turn in which a handler
    ends (by returning or by throwing) or a drain goes on leaves less work, and
    when no such turn can change anything the queues are empty, no drain is
    running, nobody waits for a queue and every budget is free. *)
Theorem queues_drain evs : let q := queue_run evs in
  (forall turn, handler_turn turn -> queue_step q turn = q \/ 0 <= work (queue_step q turn) < work q) /\
  ((forall turn, handler_turn turn -> queue_step q turn = q) ->
     (forall c f, qs_frames q !! c = Some f -> fq_queue f = [] /\ fq_value f = false /\ fq_waiters f = 0%nat) /\
     (forall c r, qs_receipts q !! c = Some r -> rq_pending r = [] /\ rq_draining r = false) /\
     (forall key, hasQueuedEdgeReceiveWork key q = false)).
Proof.
  cbv zeta. pose proof (queues_invariant evs) as [I1 I2 I3 I4 I5 I6 I7 I8 I9]. set (q := queue_run evs) in *. split.
  - assert (forall q, 0 <= work q) as Hpos.
    { intros q0. unfold work, queued. pose proof (blen_nonneg (qs_locks q0)). pose proof (blen_nonneg (qs_ended q0)).
      pose proof (total_nonneg (fun _ => []) (fun f => blen (fq_queue f)) [] (qs_frames q0) (fun f => blen_nonneg (fq_queue f))).
      pose proof (total_nonneg (fun _ => []) (fun r => blen (rq_pending r)) [] (qs_receipts q0) (fun r => blen_nonneg (rq_pending r))). lia. }
    intros [] Ht; try done; cbn [queue_step].
    + destruct (finish_work key ok q) as [H|H]; [by left|right]. specialize (Hpos (finish key ok q)). lia.
    + destruct (resume_work i q) as [H|H]; [by left|right]. split; [apply Hpos|done].
  - intros H. apply idle_turns in H as [Hl He]. assert (jobs [] q = []) as Hj by (unfold jobs; by rewrite Hl, He).
    assert (forall c f, qs_frames q !! c = Some f -> fq_queue f = [] /\ fq_value f = false /\ fq_waiters f = 0%nat) as Hf.
    { intros c f Hf. destruct (I1 c f Hf) as [F1 F2 F3 F4 F5 F6 F7]. rewrite Hj in F7.
      assert (fq_value f = false) as Hv by by destruct (fq_value f). rewrite Hv in F3, F6. split_and!; [|done|].
      - destruct (fq_queue f); [done|]. by specialize (F3 ltac:(done)).
      - destruct (fq_waiters f); [done|]. by specialize (F6 ltac:(done)). }
    split_and!; [done|..].
    + intros c r Hr. destruct (I2 c r Hr) as [R1 R2 R3 R4]. rewrite Hj in R4.
      assert (rq_draining r = false) as Hv by by destruct (rq_draining r). rewrite Hv in R2. split; [|done].
      destruct (rq_pending r); [done|]. by specialize (R2 ltac:(done)).
    + intros key. unfold hasQueuedEdgeReceiveWork. rewrite Hl, orb_false_r, I3. apply Z.ltb_ge.
      unfold queued_bytes. clear -Hf. revert Hf. generalize (qs_frames q). intros l Hf.
      assert (Forall (fun f => fq_queue f = []) l) as H by (apply Forall_lookup; intros i f Hi; by apply (Hf i f)).
      induction H as [|f l E H IH]; cbn; [done|]. rewrite E. change (frame_bytes []) with 0.
      assert (total fq_key (fun f => frame_bytes (fq_queue f)) key l <= 0) by (apply IH; intros c f0 Hc; by apply (Hf (S c) f0)).
      case_bool_decide; lia.
Qed.

(** ** A channel that was released *)

(** Released, with no drain running. *)
Definition silent c q : Prop := exists f, qs_frames q !! c = Some f /\ fq_released f = true /\ fq_value f = false.
(** Operations on other channels, on receipts and on the lock keep it. *)
Lemma silent_same c q q' : qs_frames q' = qs_frames q -> silent c q -> silent c q'.
Proof. intros H (f & Hf & Hs). exists f. by rewrite H. Qed.
Lemma silent_on_frames c c' g q : (forall f, fq_released f = true -> fq_released (g f) = true) ->
  (c' = c -> forall f, fq_value f = false -> fq_value (g f) = false) -> silent c q -> silent c (on_frames c' g q).
Proof.
  intros H1 H2 (f & Hf & Hr & Hv). destruct (decide (c' = c)) as [->|Hne].
  - exists (g f). cbn. rewrite list_lookup_alter_eq, Hf. split_and!; [done|by apply H1|by apply H2].
  - exists f. cbn. by rewrite list_lookup_alter_ne.
Qed.
Lemma silent_bytes c c' key d q : silent c q -> silent c (adjustQueuedBytes c' key d q).
Proof. intros H. by apply (silent_on_frames c c' (fun f => set_fbytes (Z.max 0 (fq_bytes f + d)) f) q). Qed.
Lemma silent_settle c c' q : silent c q -> silent c (settleMessageQueueIdle c' q).
Proof.
  intros H. unfold settleMessageQueueIdle. destruct (qs_frames q !! c') as [f|]; [|done]. destruct (_ || _); [done|]. by apply silent_on_frames.
Qed.
Lemma silent_next c c' q : silent c q -> silent c (next_frame c' q).2.
Proof.
  intros H. unfold next_frame. destruct (qs_frames q !! c') as [f|]; [|done]. destruct (_ || _); [done|]. destruct (last _); [|done]. cbn [snd].
  eapply silent_same; [reflexivity|]. apply silent_bytes. by apply silent_on_frames.
Qed.
Lemma silent_end c c' again q : (forall q, silent c q -> silent c (again q)) -> silent c q -> silent c (end_drain again c' q).
Proof.
  intros Ha H. unfold end_drain. assert (silent c (on_frames c' (set_value false) q)) as Hs by by apply silent_on_frames.
  destruct (qs_frames _ !! c') as [f|]; [|done]. destruct (_ && _); [by apply Ha|by apply silent_settle].
Qed.
Lemma silent_loop c c' again q : (forall q, silent c q -> silent c (again q)) -> silent c q -> silent c (drain_loop again c' q).
Proof.
  intros Ha H. unfold drain_loop. pose proof (silent_next c c' q H) as Hn. destruct (next_frame c' q) as [[] q']; [done|by apply silent_end].
Qed.
Lemma silent_drain n c c' q : silent c q -> silent c (drain n c' q).
Proof.
  revert q. induction n as [|n IH]; intros q H; cbn [drain]; [done|]. destruct (qs_frames q !! c') as [f|] eqn:Hf; [|done].
  destruct (_ || _) eqn:Hb; [done|]. apply silent_loop; [apply IH|]. apply silent_on_frames; [done| |done].
  intros ->. destruct H as (f' & Hf' & Hr & _). rewrite Hf in Hf'. injection Hf' as <-. rewrite Hr in Hb. by rewrite orb_true_r in Hb.
Qed.
Lemma receipts_frames c q : (forall q, qs_frames (drainReceipts 1 c q) = qs_frames q) ->
  qs_frames (receipts_loop (drainReceipts 1 c) c q) = qs_frames q /\ qs_frames (end_receipts (drainReceipts 1 c) c q) = qs_frames q.
Proof.
  intros Hd. assert (forall q, qs_frames (end_receipts (drainReceipts 1 c) c q) = qs_frames q) as He.
  { intros q0. unfold end_receipts. destruct (qs_receipts _ !! c); [|done]. destruct (_ && _); [by rewrite Hd|done]. }
  split; [|apply He]. unfold receipts_loop. assert (qs_frames (next_receipt c q).2 = qs_frames q) as Hn.
  { unfold next_receipt. destruct (qs_receipts q !! c) as [r|]; [|done]. destruct (rq_released r); [done|]. by destruct (rq_pending r). }
  destruct (next_receipt c q) as [[] q']; cbn in Hn; [done|]. by rewrite He.
Qed.
Lemma drainReceipts_frames c q : qs_frames (drainReceipts 1 c q) = qs_frames q.
Proof.
  cbn [drainReceipts]. destruct (qs_receipts q !! c) as [r|]; [|done]. destruct (_ || _); [done|].
  unfold receipts_loop, end_receipts, next_receipt. cbn. destruct (alter _ _ _ !! c) as [r'|]; cbn.
  - destruct (rq_released r'); cbn; [|destruct (rq_pending r'); cbn; [|done]]; destruct (alter _ _ _ !! c); cbn; try done; by destruct (_ && _).
  - destruct (alter _ _ _ !! c); cbn; [|done]. by destruct (_ && _).
Qed.
Lemma silent_step c q ev : queues_inv [] q -> silent c q -> silent c (queue_step q ev).
Proof.
  intros I H. destruct ev as [key|c' data|c' receipt|key ok|i|c'|c'|c']; cbn [queue_step].
  - destruct H as (f & Hf & Hs). exists f. cbn. by rewrite (lookup_app_l_Some _ _ _ _ Hf).
  - unfold enqueue. destruct (qs_frames q !! c') as [f|] eqn:Hf; [|done]. destruct (fq_released f || fq_aborted f) eqn:Hb; [done|].
    case_bool_decide; [done|]. destruct ((MAX_QUEUED_FRAMES_PER_CHANNEL <=? _) || _); [done|]. cbn [snd].
    assert (c' <> c) as Hne.
    { intros ->. destruct H as (f' & Hf' & Hr & _). rewrite Hf in Hf'. injection Hf' as <-. by rewrite Hr in Hb. }
    destruct (fq_value f); [|apply silent_drain]; apply silent_bytes; by apply silent_on_frames.
  - unfold enqueueReceipt. destruct (qs_receipts q !! c') as [r|]; [|done]. destruct (rq_released r); [done|]. case_bool_decide; [done|].
    destruct ((MAX_QUEUED_RECEIPTS_PER_CHANNEL <=? _) || _); [done|]. cbn [snd].
    destruct (rq_draining r); (eapply silent_same; [|exact H]); [done|by rewrite drainReceipts_frames].
  - unfold finish. destruct (take_first key (qs_locks q)) as [[job rest]|]; [|done]. by eapply silent_same.
  - unfold resume. destruct (qs_ended q !! i) as [[job ok]|] eqn:Hi; [|done].
    assert (silent c (set_ended (delete i (qs_ended q)) q)) as H' by by eapply silent_same.
    destruct job as [c' x|c' x]; cbn [continue].
    + destruct ok; [apply silent_loop|apply silent_end]; try done; intros; by apply silent_drain.
    + destruct ok; (eapply silent_same; [|exact H']);
        [rewrite (proj1 (receipts_frames _ _ (drainReceipts_frames c')))|rewrite (proj2 (receipts_frames _ _ (drainReceipts_frames c')))]; done.
  - unfold releaseProtocolResources. destruct (qs_frames q !! c') as [f|] eqn:Hf; [|done]. destruct (fq_aborted f); [done|].
    assert (forall q0, silent c q0 -> silent c (releaseQueuedMessageFrames c' q0)) as Hrel.
    { intros q0 H0. unfold releaseQueuedMessageFrames. destruct (qs_frames q0 !! c') as [f0|]; [|done]. apply silent_settle.
      destruct (0 <? _); [apply silent_bytes|]; by apply silent_on_frames. }
    assert (silent c (releaseQueuedMessageFrames c' (on_frames c' set_aborted q))) as H' by by apply Hrel, silent_on_frames.
    eapply silent_same; [|exact H']. unfold releaseQueuedReceipts. destruct (qs_receipts _ !! c') as [r|]; [|done].
    destruct (rq_released r); [done|]. by destruct (0 <? _).
  - eapply silent_same; [|exact H]. unfold releaseQueuedReceipts. destruct (qs_receipts q !! c') as [r|]; [|done].
    destruct (rq_released r); [done|]. by destruct (0 <? _).
  - unfold waitForQueuedMessageFrames. destruct (qs_frames q !! c') as [f|]; [|done]. destruct (_ && _); [done|]. by apply silent_on_frames.
Qed.

(** A released channel is over once its waiter is told so.  If a caller of
    [waitForQueuedMessageFrames] on a released channel need not wait - or is no
    longer among the waiters because the drain has ended - then no handler of
    that channel holds or awaits the lock, and none ever will: what the caller
    deletes afterwards is not written again by a late frame. *)
Theorem released_channel_silent evs evs' c f : qs_frames (queue_run evs) !! c = Some f -> fq_released f = true ->
  ((waitForQueuedMessageFrames c (queue_run evs)).1 = false <-> fq_value f = true) /\
  (fq_value f = false -> fq_waiters f = 0%nat /\
     let q' := queue_run (evs ++ evs') in
     (forall x, FrameJob c x ∉ jobs [] q') /\ forall f', qs_frames q' !! c = Some f' -> fq_queue f' = [] /\ fq_value f' = false).
Proof.
  intros Hf Hr. pose proof (queues_invariant evs) as I. destruct (qi_frames _ _ I _ _ Hf) as [F1 F2 F3 F4 F5 F6 F7]. split.
  - unfold waitForQueuedMessageFrames. rewrite Hf, (bool_decide_eq_true_2 _ (F4 Hr)), andb_true_r. by destruct (fq_value f).
  - intros Hv. split.
    { destruct (decide (fq_waiters f = 0%nat)) as [|Hw]; [done|]. apply F6 in Hw. by rewrite Hv in Hw. }
    assert (silent c (queue_run (evs ++ evs'))) as (f' & Hf' & Hr' & Hv').
    { assert (silent c (queue_run evs)) as H by (by exists f). unfold queue_run in *. rewrite fold_left_app. revert I H.
      generalize (fold_left queue_step evs no_queues). induction evs' as [|ev evs' IH]; intros q I H; [done|]. cbn.
      apply IH; [by apply queue_step_inv|by apply silent_step]. }
    pose proof (queues_invariant (evs ++ evs')) as I'. cbv zeta. destruct (qi_frames _ _ I' _ _ Hf') as [G1 G2 G3 G4 G5 G6 G7]. split.
    + intros x Hx. rewrite Hv' in G7. pose proof (count_positive (frame_of c) _ _ Hx) as H. cbn in H. rewrite Nat.eqb_refl in H.
      specialize (H eq_refl). cbn in G7. lia.
    + intros f0 H. rewrite Hf' in H. injection H as <-. split; [by apply G4|done].
Qed.
