(* ===== verification/RatchetWrap.v ===== *)
(** * Ratchet rows at rest ([src/src/db/ratchetWrap.ts])

    The envelopes in which the database worker keeps the secrets of a ratchet
    session: every secret field is sealed with AES-GCM under one key of the
    device, with the whole clear part of the row, the field, its index and the
    record as associated data; the fingerprint and the rollback guard; and the
    worker's operations on the rows ([fnSetRatchetSession] and its neighbours
    in [db.worker.ts], each run under the lock of its edge).

    AES-GCM and SHA-256 belong to the browser.  A string is the list of its code
    points, lone surrogates included. *)

From Stdlib Require Import String.
From stdpp Require Import gmap.
From S2P Require Import Prelude Bytes Constants Crypto Ratchet Metadata.
Local Open Scope Z_scope.
Local Open Scope list_scope.

(** [crypto.subtle]: AES-GCM with a 16-byte tag under a 12-byte [iv], and the
    digest. *)
Class WebVault := {
  VaultKey : Type;
  gcm_encrypt : VaultKey -> bytes -> bytes -> bytes -> bytes;
  gcm_decrypt : VaultKey -> bytes -> bytes -> bytes -> option bytes;
  vault_sha256 : bytes -> bytes;
}.

(** ** Sizes *)

Definition GCM_IV_BYTES : Z := 12.
Definition GCM_TAG_BYTES : Z := 16.
Definition RATCHET_RECORD_ID_BYTES : Z := 16.
Definition RATCHET_WRAP_VERSION : Z := 2.
Definition RATCHET_WRAP_MAGIC : bytes := text "P2RW".
Definition RATCHET_WRAP_HEADER_BYTES : Z :=
  blen RATCHET_WRAP_MAGIC + 1 + RATCHET_RECORD_ID_BYTES + GCM_IV_BYTES.
Definition MAX_EDGE_CRYPTO_STATE_BYTES : Z := 256 * 1024.
Definition RATCHET_AAD_DOMAIN : bytes := text "p2party-edge-crypto-at-rest-aad-v2".
Definition MAX_AAD_STRING_BYTES : Z := Z.shiftl 1 20.

Inductive RatchetSecretField :=
  | RootKey | SendingChainKey | ReceivingChainKey | DhSelfSecret | SkippedKey | EdgeCryptoState.
Definition field_code (f : RatchetSecretField) : Z :=
  match f with
  | RootKey => 1 | SendingChainKey => 2 | ReceivingChainKey => 3 | DhSelfSecret => 4
  | SkippedKey => 5 | EdgeCryptoState => 6
  end.

Inductive WrapError :=
  | empty_string | string_too_long | not_canonical_unicode | bad_peer_key | bad_buffer_length
  | bad_counter | bad_skipped_count | bad_edge_length | exceeds_u32 | bad_record_id
  | malformed_envelope | record_id_mismatch | decrypt_failed | bad_plaintext_length
  | rollback_detected | equivocation_detected | timestamp_exhausted | put_failed.
#[export] Instance WrapError_eq_dec : EqDecision WrapError.
Proof. solve_decision. Defined.

(** ** Data *)

(** [RatchetSession] of [db/types.ts], with its secrets in clear or wrapped. *)
Record RatchetSession := {
  rs_secrets : RatchetSessionSecrets; rs_roomId : list Z; rs_peerPublicKey : list Z; rs_peerId : list Z;
  rs_edge : option bytes; rs_updatedAt : Z }.

Definition requireSafeUint (value : Z) : result WrapError Z :=
  require (isSafeInteger value && negb (value <? 0)) bad_counter;; Ok value.

(** [TextEncoder.encode]: a lone surrogate becomes U+FFFD. *)
Definition text_encode (s : list Z) : bytes :=
  utf8_encode ((fun c => if is_scalar c then c else REPLACEMENT) <$> s).

Definition requireCanonicalString (value : list Z) : result WrapError (list Z) :=
  require (negb (bool_decide (value = []))) empty_string;;
  require (negb (MAX_AAD_STRING_BYTES <? blen (text_encode value))) string_too_long;;
  require (bool_decide (utf8_decode (text_encode value) = value)) not_canonical_unicode;;
  Ok value.

Definition requireBuffer (value : bytes) (expectedLength : Z) : result WrapError bytes :=
  require (blen value =? expectedLength) bad_buffer_length;; Ok value.

(** [/^[0-9a-f]{64}$/] *)
Definition is_key_hex (s : list Z) : bool :=
  (blen s =? 64) && forallb (fun c => (48 <=? c) && (c <=? 57) || (97 <=? c) && (c <=? 102)) s.

Definition encodeU32 (value : Z) : result WrapError bytes :=
  require ((0 <=? value) && (value <=? 0xffffffff)) exceeds_u32;; Ok (be_encode 4 value).
Definition encodeU64 (value : Z) : result WrapError bytes :=
  v ← requireSafeUint value; Ok (be_encode 8 v).
Definition lengthPrefixed (b : bytes) : result WrapError bytes :=
  n ← encodeU32 (blen b); Ok (n ++ b).
Definition encodeString (s : list Z) : result WrapError bytes := lengthPrefixed (text_encode s).

Definition code_points (s : string) : list Z := u8 <$> text s.

(** [n] is [None] when the counter is [NaN]. *)
Definition skipped_counter (n : option Z) : result WrapError Z :=
  match n with Some v => requireSafeUint v | None => Err bad_counter end.

Fixpoint each {A} (f : A -> result WrapError unit) (l : list A) : result WrapError unit :=
  match l with [] => Ok tt | x :: l' => f x;; each f l' end.

Definition validateMetadata (s : RatchetSession) : result WrapError unit :=
  let ss := rs_secrets s in
  requireCanonicalString (rs_roomId s);;
  requireCanonicalString (rs_peerPublicKey s);;
  require (is_key_hex (rs_peerPublicKey s)) bad_peer_key;;
  requireCanonicalString (rs_peerId s);;
  requireBuffer (ss_dhSelfPub ss) 32;;
  match ss_dhRemotePub ss with Some b => requireBuffer b 32;; Ok tt | None => Ok tt end;;
  requireSafeUint (ss_Ns ss);;
  requireSafeUint (ss_Nr ss);;
  requireSafeUint (ss_PN ss);;
  requireSafeUint (rs_updatedAt s);;
  require (negb (MAX_SKIP_SESSION <? blen (ss_skippedMessageKeys ss))) bad_skipped_count;;
  each (fun k => requireBuffer (sk_dhPub k) 32;; skipped_counter (sk_n k);; Ok tt) (ss_skippedMessageKeys ss);;
  match rs_edge s with
  | Some b =>
      require (negb ((blen b <? 1) || (MAX_EDGE_CRYPTO_STATE_BYTES + RATCHET_WRAP_HEADER_BYTES + GCM_TAG_BYTES <? blen b)))
        bad_edge_length
  | None => Ok tt
  end.

(** ** Associated data *)

Definition present {A} (o : option A) (bit : Z) : Z := match o with Some _ => bit | None => 0 end.
Definition aad_flags (s : RatchetSession) : Z :=
  Z.lor (Z.lor (Z.lor (present (ss_sendingChainKey (rs_secrets s)) 1) (present (ss_receivingChainKey (rs_secrets s)) 2))
           (present (ss_dhRemotePub (rs_secrets s)) 4)) (present (rs_edge s) 8).

Fixpoint concat_results (l : list (result WrapError bytes)) : result WrapError bytes :=
  match l with [] => Ok [] | x :: l' => b ← x; rest ← concat_results l'; Ok (b ++ rest) end.

Definition skipped_aad (k : SkippedMessageKey) : list (result WrapError bytes) :=
  [lengthPrefixed (sk_dhPub k); n ← skipped_counter (sk_n k); encodeU64 n].

Definition canonicalRatchetAad (s : RatchetSession) (field : RatchetSecretField) (recordId : bytes)
    (fieldIndex : Z) : result WrapError bytes :=
  let ss := rs_secrets s in
  validateMetadata s;;
  require (blen recordId =? RATCHET_RECORD_ID_BYTES) bad_record_id;;
  concat_results (
    [lengthPrefixed RATCHET_AAD_DOMAIN; Ok [byte_of RATCHET_WRAP_VERSION; byte_of (field_code field)];
     lengthPrefixed recordId; encodeU32 fieldIndex; encodeString (code_points (root_suite_string (ss_rootSuite ss)));
     encodeString (rs_roomId s); encodeString (rs_peerPublicKey s); encodeString (rs_peerId s);
     lengthPrefixed (ss_dhSelfPub ss); Ok [byte_of (aad_flags s)]]
    ++ match ss_dhRemotePub ss with Some b => [lengthPrefixed b] | None => [] end
    ++ [encodeU64 (ss_Ns ss); encodeU64 (ss_Nr ss); encodeU64 (ss_PN ss); encodeU64 (rs_updatedAt s);
        encodeU32 (blen (ss_skippedMessageKeys ss))]
    ++ mjoin (skipped_aad <$> ss_skippedMessageKeys ss)).

(** ** Envelopes *)

(** [expected]: [None] for the variable field. *)
Definition envelope_length_ok (n : Z) (expected : option Z) : bool :=
  match expected with
  | None => negb ((n <? RATCHET_WRAP_HEADER_BYTES + 1 + GCM_TAG_BYTES)
                  || (RATCHET_WRAP_HEADER_BYTES + MAX_EDGE_CRYPTO_STATE_BYTES + GCM_TAG_BYTES <? n))
  | Some m => n =? RATCHET_WRAP_HEADER_BYTES + m + GCM_TAG_BYTES
  end.
Definition ID_OFF : Z := blen RATCHET_WRAP_MAGIC + 1.

Definition ratchetEnvelopeRecordId (blob : bytes) (expected : option Z) : result WrapError bytes :=
  require (envelope_length_ok (blen blob) expected) malformed_envelope;;
  require (bytesEqual (slice blob 0 (blen RATCHET_WRAP_MAGIC)) RATCHET_WRAP_MAGIC) malformed_envelope;;
  require (bool_decide (at_ blob (blen RATCHET_WRAP_MAGIC) = Some RATCHET_WRAP_VERSION)) malformed_envelope;;
  Ok (slice blob ID_OFF (ID_OFF + RATCHET_RECORD_ID_BYTES)).

Definition plaintext_length_ok (n : Z) (expected : option Z) : bool :=
  match expected with
  | None => negb ((n <? 1) || (MAX_EDGE_CRYPTO_STATE_BYTES <? n))
  | Some m => n =? m
  end.

(** The mark of every edge: timestamp and fingerprint. *)
Abbreviation Guard := (gmap (list Z) (Z * bytes)).

Section Wrap.
Context {V : WebVault}.

Definition wrapRatchetField (key : VaultKey) (plaintext aad recordId : bytes) (expected : option Z) (iv : bytes)
    : result WrapError bytes :=
  require (plaintext_length_ok (blen plaintext) expected) bad_buffer_length;;
  require (blen recordId =? RATCHET_RECORD_ID_BYTES) bad_record_id;;
  Ok (RATCHET_WRAP_MAGIC ++ [byte_of RATCHET_WRAP_VERSION] ++ recordId ++ region GCM_IV_BYTES iv
      ++ gcm_encrypt key (region GCM_IV_BYTES iv) aad plaintext).

Definition unwrapRatchetField (key : VaultKey) (envelope aad expectedRecordId : bytes) (expected : option Z)
    : result WrapError bytes :=
  recordId ← ratchetEnvelopeRecordId envelope expected;
  require (bytesEqual recordId expectedRecordId) record_id_mismatch;;
  match gcm_decrypt key (slice envelope (ID_OFF + RATCHET_RECORD_ID_BYTES) RATCHET_WRAP_HEADER_BYTES) aad
          (slice_from envelope RATCHET_WRAP_HEADER_BYTES) with
  | None => Err decrypt_failed
  | Some plaintext =>
      require (plaintext_length_ok (blen plaintext) expected) bad_plaintext_length;; Ok plaintext
  end.

(** ** Rows *)

(** Apply [f] to every secret field of a row, in the order of the code. *)
Definition optional (f : bytes -> result WrapError bytes) (o : option bytes) : result WrapError (option bytes) :=
  match o with Some b => b' ← f b; Ok (Some b') | None => Ok None end.
Fixpoint map_skipped (f : Z -> bytes -> result WrapError bytes) (index : Z) (l : list SkippedMessageKey)
    : result WrapError (list SkippedMessageKey) :=
  match l with
  | [] => Ok []
  | k :: l' =>
      mk ← f index (sk_messageKey k);
      rest ← map_skipped f (index + 1) l';
      Ok ({| sk_dhPub := sk_dhPub k; sk_n := sk_n k; sk_messageKey := mk |} :: rest)
  end.
Definition map_secrets (f : RatchetSecretField -> Z -> bytes -> result WrapError bytes) (s : RatchetSession)
    : result WrapError RatchetSession :=
  let ss := rs_secrets s in
  rootKey ← f RootKey 0 (ss_rootKey ss);
  sendingChainKey ← optional (f SendingChainKey 0) (ss_sendingChainKey ss);
  receivingChainKey ← optional (f ReceivingChainKey 0) (ss_receivingChainKey ss);
  dhSelfSec ← f DhSelfSecret 0 (ss_dhSelfSec ss);
  skippedMessageKeys ← map_skipped (f SkippedKey) 0 (ss_skippedMessageKeys ss);
  edge ← optional (f EdgeCryptoState 0) (rs_edge s);
  Ok {| rs_secrets :=
          {| ss_rootSuite := ss_rootSuite ss; ss_rootKey := rootKey; ss_sendingChainKey := sendingChainKey;
             ss_receivingChainKey := receivingChainKey; ss_dhSelfPub := ss_dhSelfPub ss; ss_dhSelfSec := dhSelfSec;
             ss_dhRemotePub := ss_dhRemotePub ss; ss_Ns := ss_Ns ss; ss_Nr := ss_Nr ss; ss_PN := ss_PN ss;
             ss_skippedMessageKeys := skippedMessageKeys |};
        rs_roomId := rs_roomId s; rs_peerPublicKey := rs_peerPublicKey s; rs_peerId := rs_peerId s;
        rs_edge := edge; rs_updatedAt := rs_updatedAt s |}.

Definition field_length (f : RatchetSecretField) : option Z :=
  match f with EdgeCryptoState => None | _ => Some 32 end.

Definition secret_lengths_ok (s : RatchetSession) : bool :=
  let ss := rs_secrets s in
  (blen (ss_rootKey ss) =? 32) && match ss_sendingChainKey ss with Some b => blen b =? 32 | None => true end
  && match ss_receivingChainKey ss with Some b => blen b =? 32 | None => true end
  && (blen (ss_dhSelfSec ss) =? 32) && forallb (fun k => blen (sk_messageKey k) =? 32) (ss_skippedMessageKeys ss)
  && match rs_edge s with Some b => plaintext_length_ok (blen b) None | None => true end.

(** [iv]: the nonce drawn for each field. *)
Definition wrapRatchetSession (s : RatchetSession) (key : VaultKey) (recordId : bytes)
    (iv : RatchetSecretField -> Z -> bytes) : result WrapError RatchetSession :=
  validateMetadata s;;
  require (secret_lengths_ok s) bad_buffer_length;;
  map_secrets (fun field index plaintext =>
    aad ← canonicalRatchetAad s field (region RATCHET_RECORD_ID_BYTES recordId) index;
    wrapRatchetField key plaintext aad (region RATCHET_RECORD_ID_BYTES recordId) (field_length field) (iv field index)) s.

(** Up to the guard. *)
Definition unwrapRatchetSession (s : RatchetSession) (key : VaultKey) : result WrapError RatchetSession :=
  validateMetadata s;;
  recordId ← ratchetEnvelopeRecordId (ss_rootKey (rs_secrets s)) (Some 32);
  map_secrets (fun field index envelope =>
    aad ← canonicalRatchetAad s field recordId index;
    unwrapRatchetField key envelope aad recordId (field_length field)) s.

(** ** The rollback guard *)

Definition same_record (recordId : bytes) (expected : option Z) (envelope : bytes) : result WrapError unit :=
  id ← ratchetEnvelopeRecordId envelope expected;
  require (bytesEqual id recordId) record_id_mismatch.
Definition if_some {A} (f : A -> result WrapError unit) (o : option A) : result WrapError unit :=
  match o with Some a => f a | None => Ok tt end.

Definition ratchetEnvelopeFingerprint (s : RatchetSession) : result WrapError bytes :=
  let ss := rs_secrets s in
  validateMetadata s;;
  recordId ← ratchetEnvelopeRecordId (ss_rootKey ss) (Some 32);
  if_some (same_record recordId (Some 32)) (ss_sendingChainKey ss);;
  if_some (same_record recordId (Some 32)) (ss_receivingChainKey ss);;
  same_record recordId (Some 32) (ss_dhSelfSec ss);;
  each (same_record recordId (Some 32) ∘ sk_messageKey) (ss_skippedMessageKeys ss);;
  if_some (same_record recordId None) (rs_edge s);;
  encoded ← concat_results (
    [canonicalRatchetAad s RootKey recordId 0; lengthPrefixed (ss_rootKey ss);
     lengthPrefixed (default [] (ss_sendingChainKey ss)); lengthPrefixed (default [] (ss_receivingChainKey ss));
     lengthPrefixed (ss_dhSelfSec ss)]
    ++ (lengthPrefixed ∘ sk_messageKey <$> ss_skippedMessageKeys ss)
    ++ [lengthPrefixed (default [] (rs_edge s))]);
  Ok (vault_sha256 encoded).

(** [roomId.length] counts UTF-16 units. *)
Definition utf16_length (s : list Z) : Z := foldr (fun c n => (if 0xffff <? c then 2 else 1) + n) 0 s.
Definition ratchetWorkerKey (roomId peerPublicKey : list Z) : list Z :=
  code_points (decimal (utf16_length roomId)) ++ [58] ++ roomId
  ++ code_points (decimal (utf16_length peerPublicKey)) ++ [58] ++ peerPublicKey.
Definition rollbackEdgeKey (s : RatchetSession) : list Z := ratchetWorkerKey (rs_roomId s) (rs_peerPublicKey s).


Definition acceptFingerprint (s : RatchetSession) (fingerprint : bytes) : M Guard WrapError unit :=
  guard ← get_this;
  let key := rollbackEdgeKey s in
  match guard !! key with
  | Some (updatedAt, previous) =>
      mrequire (negb (rs_updatedAt s <? updatedAt)) rollback_detected;;
      mrequire (negb ((rs_updatedAt s =? updatedAt) && negb (bytesEqual fingerprint previous))) equivocation_detected;;
      if updatedAt <? rs_updatedAt s then set_this (<[key := (rs_updatedAt s, fingerprint)]> guard) else mret tt
  | None => set_this (<[key := (rs_updatedAt s, fingerprint)]> guard)
  end.

Definition acceptAuthenticated (s : RatchetSession) : M Guard WrapError unit :=
  fingerprint ← lift (ratchetEnvelopeFingerprint s); acceptFingerprint s fingerprint.
Definition rememberTrustedWrite (wrapped : RatchetSession) : M Guard WrapError unit :=
  fingerprint ← lift (ratchetEnvelopeFingerprint wrapped); acceptFingerprint wrapped fingerprint.
Definition forget (roomId peerPublicKey : list Z) (guard : Guard) : Guard :=
  delete (ratchetWorkerKey roomId peerPublicKey) guard.

(** ** The worker *)

(** The rows by room and peer, [ratchetRollbackGuard], [ratchetLastWrite]. *)
Record Vault := MkVault {
  va_rows : gmap (list Z * list Z) RatchetSession; va_guard : Guard; va_last : gmap (list Z) Z }.

Definition on_guard {A} (m : M Guard WrapError A) : M Vault WrapError A := fun v =>
  let '(r, g) := m (va_guard v) in (r, MkVault (va_rows v) g (va_last v)).
Definition set_rows (rows : gmap (list Z * list Z) RatchetSession) (v : Vault) : Vault :=
  MkVault rows (va_guard v) (va_last v).
Definition set_last (last : gmap (list Z) Z) (v : Vault) : Vault := MkVault (va_rows v) (va_guard v) last.

Definition last_write (edge : list Z) (v : Vault) : Z := default 0 (va_last v !! edge).

Definition stamp (session : RatchetSession) (updatedAt : Z) : RatchetSession :=
  {| rs_secrets := rs_secrets session; rs_roomId := rs_roomId session;
     rs_peerPublicKey := rs_peerPublicKey session; rs_peerId := rs_peerId session;
     rs_edge := rs_edge session; rs_updatedAt := updatedAt |}.

(** [puts]: whether [db.put] succeeds. *)
Definition fnSetRatchetSession (session : RatchetSession) (key : VaultKey) (now : Z) (recordId : bytes)
    (iv : RatchetSecretField -> Z -> bytes) (puts : bool) : M Vault WrapError unit :=
  this ← get_this;
  let edge := ratchetWorkerKey (rs_roomId session) (rs_peerPublicKey session) in
  let previous := last_write edge this in
  let requested := Z.max now (rs_updatedAt session) in
  let updatedAt := if previous <? requested then requested else previous + 1 in
  mrequire (isSafeInteger updatedAt) timestamp_exhausted;;
  wrapped ← lift (wrapRatchetSession (stamp session updatedAt) key recordId iv);
  mrequire puts put_failed;;
  modify_this (fun v => set_rows (<[(rs_roomId wrapped, rs_peerPublicKey wrapped) := wrapped]> (va_rows v)) v);;
  on_guard (rememberTrustedWrite wrapped);;
  modify_this (fun v => set_last (<[edge := updatedAt]> (va_last v)) v).

(** [reads]: whether the database answers.  Every throw gives [undefined]. *)
Definition fnGetRatchetSession (roomId peerPublicKey : list Z) (key : VaultKey) (reads : bool) (v : Vault)
    : option RatchetSession * Vault :=
  if negb reads then (None, v) else
  match va_rows v !! (roomId, peerPublicKey) with
  | None => (None, v)
  | Some stored =>
      match unwrapRatchetSession stored key with
      | Err _ => (None, v)
      | Ok restored =>
          match on_guard (acceptAuthenticated stored) v with
          | (Err _, v') => (None, v')
          | (Ok _, v') =>
              let edge := ratchetWorkerKey roomId peerPublicKey in
              (Some restored, set_last (<[edge := Z.max (last_write edge v') (rs_updatedAt restored)]> (va_last v')) v')
          end
      end
  end.

Definition fnDeleteRatchetSession (roomId peerPublicKey : list Z) (deletes : bool) (v : Vault) : Vault :=
  if deletes then
    MkVault (delete (roomId, peerPublicKey) (va_rows v)) (forget roomId peerPublicKey (va_guard v))
      (delete (ratchetWorkerKey roomId peerPublicKey) (va_last v))
  else v.

(** The account is replaced or the database deleted. *)
Definition clear_sessions : Vault := MkVault ∅ ∅ ∅.
End Wrap.
