(* ===== verification/RatchetRows.v ===== *)
(** * The encodings of ratchet rows

    The associated data and the fingerprint of [RatchetWrap] are prefix codes:
    they determine the clear part of the row they were made of; and what the
    maps over the secret fields of a row do. *)

From Stdlib Require Import String.
From stdpp Require Import gmap relations.
From S2P Require Import Prelude Bytes Constants Crypto Ratchet PqMessageKey Metadata RatchetWrap.
Local Open Scope Z_scope.
Local Open Scope list_scope.

(** ** The encodings are prefix codes *)

Lemma concat_cons x l out : concat_results (x :: l) = Ok out <->
  exists b rest, x = Ok b /\ concat_results l = Ok rest /\ out = b ++ rest.
Proof.
  cbn [concat_results]. destruct x as [b|]; [|naive_solver]. cbn.
  destruct (concat_results l) as [rest|]; naive_solver.
Qed.

Lemma u32_ok v b : encodeU32 v = Ok b -> 0 <= v <= 0xffffffff /\ b = be_encode 4 v.
Proof. unfold encodeU32. intros H. binds H. apply require_ok in E. split; [lia|by symmetry]. Qed.
Lemma u64_ok v b : encodeU64 v = Ok b -> 0 <= v <= MAX_SAFE_INTEGER /\ b = be_encode 8 v.
Proof.
  unfold encodeU64, requireSafeUint, isSafeInteger. intros H. binds H. binds E. apply require_ok in E0.
  rewrite andb_true_iff, negb_true_iff in E0. subst. split; [lia|done].
Qed.
Lemma lp_ok a b : lengthPrefixed a = Ok b -> blen a <= 0xffffffff /\ b = be_encode 4 (blen a) ++ a.
Proof. unfold lengthPrefixed. intros H. binds H. apply u32_ok in E as [? ->]. split; [lia|by symmetry]. Qed.

Lemma be_split (n : nat) a a' (r r' : bytes) : 0 <= a < 256 ^ Z.of_nat n -> 0 <= a' < 256 ^ Z.of_nat n ->
  be_encode n a ++ r = be_encode n a' ++ r' -> a = a' /\ r = r'.
Proof.
  intros Ha Ha' H. apply app_inj_1 in H as [H ->]; [|by rewrite !length_be_encode]. split; [|done].
  apply (f_equal be_decode) in H. rewrite !be_decode_encode, !Z.mod_small in H by lia. done.
Qed.
Lemma u32_split a a' b b' r r' : encodeU32 a = Ok b -> encodeU32 a' = Ok b' -> b ++ r = b' ++ r' -> a = a' /\ r = r'.
Proof. intros [H ->]%u32_ok [H' ->]%u32_ok Heq. apply be_split in Heq; [done|cbn; lia..]. Qed.
Lemma u64_split a a' b b' r r' : encodeU64 a = Ok b -> encodeU64 a' = Ok b' -> b ++ r = b' ++ r' -> a = a' /\ r = r'.
Proof.
  intros [H ->]%u64_ok [H' ->]%u64_ok Heq. assert (MAX_SAFE_INTEGER < 256 ^ Z.of_nat 8) by done.
  apply be_split in Heq; [done|lia..].
Qed.
Lemma lp_split a a' b b' (r r' : bytes) : lengthPrefixed a = Ok b -> lengthPrefixed a' = Ok b' ->
  b ++ r = b' ++ r' -> a = a' /\ r = r'.
Proof.
  intros [H ->]%lp_ok [H' ->]%lp_ok Heq. rewrite <- !app_assoc in Heq. pose proof (blen_nonneg a). pose proof (blen_nonneg a').
  apply be_split in Heq as [Hl Heq]; [|cbn; lia..]. apply app_inj_1 in Heq; [done|]. unfold blen in Hl. lia.
Qed.
Lemma text_encode_inj s s' x x' : requireCanonicalString s = Ok x -> requireCanonicalString s' = Ok x' ->
  text_encode s = text_encode s' -> s = s'.
Proof.
  unfold requireCanonicalString. intros H H' Heq. binds H. binds H'.
  apply require_ok, bool_decide_eq_true in E1, E4. congruence.
Qed.

(** ** The associated data determine the clear part *)

(** One item of two equal encodings. *)
Lemma code_step (P : Prop) x x' l l' out :
  (forall b b' r r', x = Ok b -> x' = Ok b' -> b ++ r = b' ++ r' -> P /\ r = r') ->
  concat_results (x :: l) = Ok out -> concat_results (x' :: l') = Ok out ->
  P /\ exists rest, concat_results l = Ok rest /\ concat_results l' = Ok rest.
Proof.
  intros Hs (b & r & Hx & Hl & ->)%concat_cons (b' & r' & Hx' & Hl' & Heq)%concat_cons.
  destruct (Hs b b' r r' Hx Hx' Heq) as [HP ->]. split; [done|]. by exists r'.
Qed.
Lemma bytes_split (a a' b b' r r' : bytes) : length a = length a' -> @Ok WrapError _ a = Ok b -> @Ok WrapError _ a' = Ok b' ->
  b ++ r = b' ++ r' -> a = a' /\ r = r'.
Proof. intros Hl [= <-] [= <-] H. by apply app_inj_1 in H. Qed.

(** The clear part of a row, with which of the optional secrets are present. *)
Definition clear_skipped (k : SkippedMessageKey) : bytes * option Z := (sk_dhPub k, sk_n k).
Definition aad_view (s : RatchetSession) :=
  let ss := rs_secrets s in
  (ss_rootSuite ss, (rs_roomId s, rs_peerPublicKey s, rs_peerId s), (ss_dhSelfPub ss, ss_dhRemotePub ss),
   (bool_decide (is_Some (ss_sendingChainKey ss)), bool_decide (is_Some (ss_receivingChainKey ss)),
    bool_decide (is_Some (rs_edge s))),
   (ss_Ns ss, ss_Nr ss, ss_PN ss, rs_updatedAt s), clear_skipped <$> ss_skippedMessageKeys ss).

Definition flag_bits (a b c d : bool) : Z :=
  Z.lor (Z.lor (Z.lor (if a then 1 else 0) (if b then 2 else 0)) (if c then 4 else 0)) (if d then 8 else 0).
Lemma flags_bits s : aad_flags s =
  flag_bits (bool_decide (is_Some (ss_sendingChainKey (rs_secrets s)))) (bool_decide (is_Some (ss_receivingChainKey (rs_secrets s))))
    (bool_decide (is_Some (ss_dhRemotePub (rs_secrets s)))) (bool_decide (is_Some (rs_edge s))).
Proof.
  unfold aad_flags. destruct (ss_sendingChainKey _), (ss_receivingChainKey _), (ss_dhRemotePub _), (rs_edge s); reflexivity.
Qed.
Lemma flag_bits_inj a b c d a' b' c' d' : byte_of (flag_bits a b c d) = byte_of (flag_bits a' b' c' d') ->
  a = a' /\ b = b' /\ c = c' /\ d = d'.
Proof. destruct a, b, c, d, a', b', c', d'; first [done|vm_compute; discriminate]. Qed.

Lemma field_code_inj f f' : byte_of (field_code f) = byte_of (field_code f') -> f = f'.
Proof. destruct f, f'; first [done|vm_compute; discriminate]. Qed.
Lemma suite_inj a a' : text_encode (code_points (root_suite_string a)) = text_encode (code_points (root_suite_string a')) -> a = a'.
Proof. destruct a, a'; first [done|vm_compute; discriminate]. Qed.

Lemma counter_split n n' b b' r r' :
  (v ← skipped_counter n; encodeU64 v) = Ok b -> (v ← skipped_counter n'; encodeU64 v) = Ok b' ->
  b ++ r = b' ++ r' -> n = n' /\ r = r'.
Proof.
  unfold skipped_counter, requireSafeUint. intros Hb Hb' Heq.
  destruct n as [n|]; [|discriminate Hb]. destruct n' as [n'|]; [|discriminate Hb'].
  binds Hb. binds Hb'. binds E. binds E0. subst. by destruct (u64_split _ _ _ _ _ _ Hb Hb' Heq) as [-> ->].
Qed.
Lemma skipped_split tl tl' l : forall l' out, length l = length l' ->
  concat_results (mjoin (skipped_aad <$> l) ++ tl) = Ok out -> concat_results (mjoin (skipped_aad <$> l') ++ tl') = Ok out ->
  clear_skipped <$> l = clear_skipped <$> l' /\ exists o, concat_results tl = Ok o /\ concat_results tl' = Ok o.
Proof.
  induction l as [|k l IH]; intros [|k' l'] out Hl H H'; try done; [split; [done|by exists out]|].
  cbn [fmap list_fmap mjoin list_join skipped_aad app] in H, H'.
  destruct (code_step _ _ _ _ _ _ (lp_split _ _) H H') as (E1 & o1 & H1 & H1').
  destruct (code_step _ _ _ _ _ _ (counter_split _ _) H1 H1') as (E2 & o2 & H2 & H2').
  injection Hl as Hl. destruct (IH _ _ Hl H2 H2') as [Heq Ho]. split; [|done].
  cbn [fmap list_fmap]. rewrite Heq. unfold clear_skipped. by rewrite E1, E2.
Qed.

Lemma validate_strings s : validateMetadata s = Ok tt ->
  (exists x, requireCanonicalString (rs_roomId s) = Ok x) /\ (exists x, requireCanonicalString (rs_peerPublicKey s) = Ok x) /\
  (exists x, requireCanonicalString (rs_peerId s) = Ok x).
Proof. unfold validateMetadata. intros H. binds H. split_and!; eauto. Qed.

Definition aad_counters (s : RatchetSession) : list (result WrapError bytes) :=
  let ss := rs_secrets s in
  [encodeU64 (ss_Ns ss); encodeU64 (ss_Nr ss); encodeU64 (ss_PN ss); encodeU64 (rs_updatedAt s);
   encodeU32 (blen (ss_skippedMessageKeys ss))] ++ mjoin (skipped_aad <$> ss_skippedMessageKeys ss).
Definition aad_tail (s : RatchetSession) : list (result WrapError bytes) :=
  match ss_dhRemotePub (rs_secrets s) with Some b => [lengthPrefixed b] | None => [] end ++ aad_counters s.

Lemma counters_split tl tl' s s' out : concat_results (aad_counters s ++ tl) = Ok out ->
  concat_results (aad_counters s' ++ tl') = Ok out ->
  (ss_Ns (rs_secrets s), ss_Nr (rs_secrets s), ss_PN (rs_secrets s), rs_updatedAt s) =
    (ss_Ns (rs_secrets s'), ss_Nr (rs_secrets s'), ss_PN (rs_secrets s'), rs_updatedAt s') /\
  clear_skipped <$> ss_skippedMessageKeys (rs_secrets s) = clear_skipped <$> ss_skippedMessageKeys (rs_secrets s') /\
  exists o, concat_results tl = Ok o /\ concat_results tl' = Ok o.
Proof.
  unfold aad_counters. cbn [app]. intros H H'.
  destruct (code_step _ _ _ _ _ _ (u64_split _ _) H H') as (-> & o1 & H1 & H1').
  destruct (code_step _ _ _ _ _ _ (u64_split _ _) H1 H1') as (-> & o2 & H2 & H2').
  destruct (code_step _ _ _ _ _ _ (u64_split _ _) H2 H2') as (-> & o3 & H3 & H3').
  destruct (code_step _ _ _ _ _ _ (u64_split _ _) H3 H3') as (-> & o4 & H4 & H4').
  destruct (code_step _ _ _ _ _ _ (u32_split _ _) H4 H4') as (Hl & o5 & H5 & H5').
  split; [done|]. eapply skipped_split; [|exact H5|exact H5']. unfold blen in Hl. lia.
Qed.
Lemma tail_split tl tl' s s' out :
  bool_decide (is_Some (ss_dhRemotePub (rs_secrets s))) = bool_decide (is_Some (ss_dhRemotePub (rs_secrets s'))) ->
  concat_results (aad_tail s ++ tl) = Ok out -> concat_results (aad_tail s' ++ tl') = Ok out ->
  ss_dhRemotePub (rs_secrets s) = ss_dhRemotePub (rs_secrets s') /\
  exists o, concat_results (aad_counters s ++ tl) = Ok o /\ concat_results (aad_counters s' ++ tl') = Ok o.
Proof.
  unfold aad_tail. intros Hp H H'.
  destruct (ss_dhRemotePub (rs_secrets s)) as [r|], (ss_dhRemotePub (rs_secrets s')) as [r'|]; try done.
  - cbn [app] in H, H'. destruct (code_step _ _ _ _ _ _ (lp_split _ _) H H') as (-> & o & H1 & H1'). eauto.
  - eauto.
Qed.

Lemma concat_app l b r : concat_results l = Ok b -> concat_results (l ++ [Ok r]) = Ok (b ++ r).
Proof.
  revert b. induction l as [|x l IH]; intros b; [by intros [= <-]; cbn; rewrite app_nil_r|].
  intros (b1 & b2 & -> & Hl & ->)%concat_cons. apply concat_cons. exists b1, (b2 ++ r).
  split; [done|]. split; [by apply IH|by rewrite app_assoc].
Qed.

Definition aad_items (s : RatchetSession) (field : RatchetSecretField) (id : bytes) (i : Z) : list (result WrapError bytes) :=
  [lengthPrefixed RATCHET_AAD_DOMAIN; Ok [byte_of RATCHET_WRAP_VERSION; byte_of (field_code field)];
   lengthPrefixed id; encodeU32 i; encodeString (code_points (root_suite_string (ss_rootSuite (rs_secrets s))));
   encodeString (rs_roomId s); encodeString (rs_peerPublicKey s); encodeString (rs_peerId s);
   lengthPrefixed (ss_dhSelfPub (rs_secrets s)); Ok [byte_of (aad_flags s)]] ++ aad_tail s.
Lemma aad_is_items s field id i out : canonicalRatchetAad s field id i = Ok out ->
  validateMetadata s = Ok tt /\ blen id = 16 /\ concat_results (aad_items s field id i) = Ok out.
Proof.
  unfold canonicalRatchetAad. intros H. binds H. apply require_ok, Z.eqb_eq in E0. split_and!; try done.
Qed.

(** Associated data are made of one row, field, record and index, and end where
    they end. *)
Lemma aad_split s field id i s' field' id' i' out out' r r' :
  canonicalRatchetAad s field id i = Ok out -> canonicalRatchetAad s' field' id' i' = Ok out' ->
  out ++ r = out' ++ r' ->
  (field = field' /\ id = id' /\ i = i' /\ aad_view s = aad_view s') /\ r = r'.
Proof.
  intros (E & E0 & H)%aad_is_items (E1 & E2 & H')%aad_is_items Heq.
  apply (concat_app _ _ r) in H. apply (concat_app _ _ r') in H'. rewrite <- Heq in H'.
  destruct (validate_strings s E) as ((? & R1) & (? & R2) & (? & R3)).
  destruct (validate_strings s' E1) as ((? & S1) & (? & S2) & (? & S3)).
  unfold aad_items in H, H'. cbn [app] in H, H'.
  destruct (code_step _ _ _ _ _ _ (lp_split _ _) H H') as (_ & o1 & H1 & H1').
  destruct (code_step _ _ _ _ _ _ (fun b b' r r' => bytes_split [byte_of RATCHET_WRAP_VERSION; byte_of (field_code field)]
    [byte_of RATCHET_WRAP_VERSION; byte_of (field_code field')] b b' r r' eq_refl) H1 H1') as (F & o2 & H2 & H2').
  destruct (code_step _ _ _ _ _ _ (lp_split _ _) H2 H2') as (-> & o3 & H3 & H3').
  destruct (code_step _ _ _ _ _ _ (u32_split _ _) H3 H3') as (-> & o4 & H4 & H4').
  destruct (code_step _ _ _ _ _ _ (lp_split _ _) H4 H4') as (Hsuite%suite_inj & o5 & H5 & H5').
  destruct (code_step _ _ _ _ _ _ (lp_split _ _) H5 H5') as (Hroom & o6 & H6 & H6').
  destruct (code_step _ _ _ _ _ _ (lp_split _ _) H6 H6') as (Hpeer & o7 & H7 & H7').
  destruct (code_step _ _ _ _ _ _ (lp_split _ _) H7 H7') as (Hid & o8 & H8 & H8').
  destruct (code_step _ _ _ _ _ _ (lp_split _ _) H8 H8') as (Hself & o9 & H9 & H9').
  destruct (code_step _ _ _ _ _ _ (fun b b' r r' => bytes_split [byte_of (aad_flags s)] [byte_of (aad_flags s')]
    b b' r r' eq_refl) H9 H9') as (Hf & o10 & H10 & H10').
  injection F as F%field_code_inj. injection Hf as Hf. rewrite !flags_bits in Hf. apply flag_bits_inj in Hf as (Hf1 & Hf2 & Hf3 & Hf4).
  destruct (tail_split _ _ _ _ _ Hf3 H10 H10') as (Hrem & o11 & H11 & H11').
  destruct (counters_split _ _ _ _ _ H11 H11') as (Hc & Hsk & o12 & H12 & H12').
  cbn in H12, H12'. rewrite !app_nil_r in H12, H12'.
  apply (text_encode_inj _ _ _ _ R1 S1) in Hroom. apply (text_encode_inj _ _ _ _ R2 S2) in Hpeer.
  apply (text_encode_inj _ _ _ _ R3 S3) in Hid. split_and!; try done; [|congruence].
  unfold aad_view. by rewrite Hsuite, Hroom, Hpeer, Hid, Hself, Hrem, Hf1, Hf2, Hf4, Hc, Hsk.
Qed.

(** ** The associated data exist and depend on the clear part only *)

Lemma lp_total a : blen a <= 0xffffffff -> is_ok (lengthPrefixed a) = true.
Proof.
  intros H. unfold lengthPrefixed, encodeU32. pose proof (blen_nonneg a).
  rewrite (proj2 (require_ok _ _)) by lia. done.
Qed.
Lemma u64_total v x : requireSafeUint v = Ok x -> is_ok (encodeU64 v) = true.
Proof. unfold encodeU64. by intros ->. Qed.
Lemma concat_total l : Forall (fun x => is_ok x = true) l -> is_ok (concat_results l) = true.
Proof.
  induction 1 as [|x l Hx _ IH]; [done|]. destruct x as [b|]; [|done]. cbn.
  by destruct (concat_results l).
Qed.
Lemma string_total v x : requireCanonicalString v = Ok x -> is_ok (encodeString v) = true.
Proof.
  unfold requireCanonicalString. intros H. binds H. apply require_ok, negb_true_iff, Z.ltb_ge in E0.
  apply lp_total. change MAX_AAD_STRING_BYTES with 1048576 in E0. lia.
Qed.
Lemma buffer_total b n x : requireBuffer b n = Ok x -> n <= 32 -> is_ok (lengthPrefixed b) = true.
Proof. unfold requireBuffer. intros H Hn. binds H. apply require_ok, Z.eqb_eq in E. apply lp_total. lia. Qed.
Lemma each_Forall {A} (f : A -> result WrapError unit) l : each f l = Ok tt <-> Forall (fun x => f x = Ok tt) l.
Proof.
  induction l as [|x l IH]; [by split|]. cbn. rewrite Forall_cons, <- IH. destruct (f x) as [[]|]; naive_solver.
Qed.
Lemma skipped_total l : each (fun k => requireBuffer (sk_dhPub k) 32;; skipped_counter (sk_n k);; Ok tt) l = Ok tt ->
  Forall (fun x => is_ok x = true) (mjoin (skipped_aad <$> l)).
Proof.
  intros H%each_Forall. induction H as [|k l Hk _ IH]; [constructor|]. cbn [fmap list_fmap mjoin list_join skipped_aad app].
  binds Hk. constructor; [by eapply buffer_total|]. constructor; [|exact IH].
  unfold skipped_counter in E0 |- *. destruct (sk_n k) as [n|]; [|done]. rewrite E0. cbn.
  unfold requireSafeUint in E0. binds E0. subst. by apply (u64_total _ x0); unfold requireSafeUint; rewrite E1.
Qed.

Lemma aad_total s field id i : validateMetadata s = Ok tt -> blen id = 16 -> 0 <= i <= MAX_SKIP_SESSION ->
  exists out, canonicalRatchetAad s field id i = Ok out.
Proof.
  intros Hv Hid Hi. enough (is_ok (canonicalRatchetAad s field id i) = true) as H.
  { destruct (canonicalRatchetAad s field id i); [by eexists|done]. }
  unfold canonicalRatchetAad. rewrite Hv. cbn [mbind result_bind]. rewrite (proj2 (require_ok _ _)) by (by rewrite Hid).
  unfold validateMetadata in Hv. binds Hv. apply concat_total. cbn [app].
  assert (is_ok (encodeU32 (blen (ss_skippedMessageKeys (rs_secrets s)))) = true) as Hcount.
  { apply require_ok, negb_true_iff, Z.ltb_ge in E9. pose proof (blen_nonneg (ss_skippedMessageKeys (rs_secrets s))).
    change MAX_SKIP_SESSION with 2000 in E9. unfold encodeU32. by rewrite (proj2 (require_ok _ _)) by lia. }
  repeat (apply Forall_cons; split; [first
    [by eapply string_total|by eapply buffer_total|by eapply u64_total|exact Hcount|reflexivity
    |by apply lp_total; rewrite Hid|by destruct (ss_rootSuite (rs_secrets s))
    |unfold encodeU32; by rewrite (proj2 (require_ok _ _)) by (change MAX_SKIP_SESSION with 2000 in Hi; lia)]|]).
  apply Forall_app. split.
  { destruct (ss_dhRemotePub _) as [b|]; [|constructor]. binds E4. constructor; [by eapply buffer_total|constructor]. }
  repeat (apply Forall_cons; split; [first [by eapply u64_total|exact Hcount]|]).
  by apply skipped_total.
Qed.

Lemma skipped_aad_view l l' : clear_skipped <$> l = clear_skipped <$> l' -> mjoin (skipped_aad <$> l) = mjoin (skipped_aad <$> l').
Proof.
  set (g := fun k : bytes * option Z => [lengthPrefixed k.1; n ← skipped_counter k.2; encodeU64 n]).
  assert (forall l0 : list SkippedMessageKey, skipped_aad <$> l0 = g <$> (clear_skipped <$> l0)) as Hg.
  { intros l0. rewrite <- list_fmap_compose. done. }
  intros H. by rewrite !Hg, H.
Qed.
Lemma aad_same_view s s' field id i : validateMetadata s = Ok tt -> validateMetadata s' = Ok tt ->
  aad_view s = aad_view s' -> canonicalRatchetAad s field id i = canonicalRatchetAad s' field id i.
Proof.
  intros Hv Hv' H. unfold canonicalRatchetAad. rewrite Hv, Hv', !flags_bits.
  unfold aad_view in H. injection H as H1 H2 H3 H4 H5 H6 H7 H8 H9 H10 H11 H12 H13 H14.
  assert (blen (ss_skippedMessageKeys (rs_secrets s)) = blen (ss_skippedMessageKeys (rs_secrets s'))) as Hl.
  { apply (f_equal length) in H14. rewrite !length_fmap in H14. unfold blen. by rewrite H14. }
  apply skipped_aad_view in H14.
  rewrite H1, H2, H3, H4, H5, H6, H7, H8, H9, H10, H11, H12, H13, H14, Hl. done.
Qed.

(** ** The secrets of a row by field and index *)

Definition secret_at (s : RatchetSession) (field : RatchetSecretField) (i : Z) : option bytes :=
  let ss := rs_secrets s in
  let at_zero o := if i =? 0 then o else None in
  match field with
  | RootKey => at_zero (Some (ss_rootKey ss))
  | SendingChainKey => at_zero (ss_sendingChainKey ss)
  | ReceivingChainKey => at_zero (ss_receivingChainKey ss)
  | DhSelfSecret => at_zero (Some (ss_dhSelfSec ss))
  | SkippedKey => if 0 <=? i then sk_messageKey <$> ss_skippedMessageKeys ss !! Z.to_nat i else None
  | EdgeCryptoState => at_zero (rs_edge s)
  end.

Lemma skipped_ext (l : list SkippedMessageKey) : forall l' : list SkippedMessageKey, clear_skipped <$> l = clear_skipped <$> l' ->
  sk_messageKey <$> l = sk_messageKey <$> l' -> l = l'.
Proof.
  induction l as [|[d n k] l IH]; intros [|[d' n' k'] l'] H1 H2; try done.
  injection H1 as -> -> H1. injection H2 as -> H2. f_equal. by apply IH.
Qed.
Lemma session_ext s s' : aad_view s = aad_view s' -> (forall field i, secret_at s field i = secret_at s' field i) -> s = s'.
Proof.
  intros Hv H. pose proof (H RootKey 0) as H1. pose proof (H SendingChainKey 0) as H2.
  pose proof (H ReceivingChainKey 0) as H3. pose proof (H DhSelfSecret 0) as H4. pose proof (H EdgeCryptoState 0) as H5.
  assert (sk_messageKey <$> ss_skippedMessageKeys (rs_secrets s) = sk_messageKey <$> ss_skippedMessageKeys (rs_secrets s')) as H6.
  { apply list_eq. intros k. specialize (H SkippedKey (Z.of_nat k)). cbn [secret_at] in H.
    rewrite (proj2 (Z.leb_le 0 _)), Nat2Z.id in H by lia. by rewrite !list_lookup_fmap. }
  clear H. unfold aad_view in Hv. injection Hv as V1 V2 V3 V4 V5 V6 _ _ _ V10 V11 V12 V13 V14.
  pose proof (skipped_ext _ _ V14 H6) as Hsk. destruct s as [ss room peer pid edge upd], s' as [ss' room' peer' pid' edge' upd'].
  destruct ss, ss'. cbn in *. congruence.
Qed.

Lemma map_skipped_ok f (l : list SkippedMessageKey) : forall i l', map_skipped f i l = Ok l' ->
  clear_skipped <$> l = clear_skipped <$> l' /\
  forall k b, sk_messageKey <$> l !! k = Some b ->
    exists c, sk_messageKey <$> l' !! k = Some c /\ f (i + Z.of_nat k) b = Ok c.
Proof.
  induction l as [|x l IH]; intros i l' H; cbn [map_skipped] in H.
  { apply Ok_inj in H. subst. by split. }
  binds H. subst l'. destruct (IH _ _ E0) as [Hc Hk]. split; [cbn; by rewrite Hc|].
  intros [|k] b Hb; cbn in Hb |- *.
  - injection Hb as <-. exists x0. by rewrite Z.add_0_r.
  - destruct (Hk k b Hb) as (c & H1 & H2). exists c. split; [done|]. rewrite <- H2. f_equal. lia.
Qed.
Lemma map_skipped_total f (l : list SkippedMessageKey) : forall i, (forall k b, sk_messageKey <$> l !! k = Some b -> is_ok (f (i + Z.of_nat k) b) = true) ->
  is_ok (map_skipped f i l) = true.
Proof.
  induction l as [|x l IH]; intros i H; [done|]. cbn [map_skipped].
  pose proof (H O (sk_messageKey x) eq_refl) as H0. rewrite Z.add_0_r in H0.
  destruct (f i (sk_messageKey x)) as [mk|]; [|done]. cbn [mbind result_bind].
  assert (is_ok (map_skipped f (i + 1) l) = true) as Hl.
  { apply IH. intros k b Hb. specialize (H (S k) b Hb). rewrite <- H. do 2 f_equal. lia. }
  by destruct (map_skipped f (i + 1) l).
Qed.
Lemma optional_ok f (o o' : option bytes) : optional f o = Ok o' ->
  bool_decide (is_Some o) = bool_decide (is_Some o') /\ forall b, o = Some b -> exists c, o' = Some c /\ f b = Ok c.
Proof.
  unfold optional. destruct o as [b|]; intros H; [binds H|apply Ok_inj in H]; subst; [|by split].
  split; [done|]. intros b' [= <-]. by exists x.
Qed.
Lemma optional_total f (o : option bytes) : (forall b, o = Some b -> is_ok (f b) = true) -> is_ok (optional f o) = true.
Proof. destruct o as [b|]; intros H; [|done]. cbn. specialize (H b eq_refl). by destruct (f b). Qed.

(** [map_secrets] keeps the clear part and maps every secret. *)
Lemma map_secrets_ok f s w : map_secrets f s = Ok w ->
  aad_view s = aad_view w /\
  forall field i b, secret_at s field i = Some b -> exists c, secret_at w field i = Some c /\ f field i b = Ok c.
Proof.
  unfold map_secrets. intros H. binds H. subst w.
  apply optional_ok in E0 as [P0 F0]. apply optional_ok in E1 as [P1 F1]. apply optional_ok in E4 as [P4 F4].
  apply map_skipped_ok in E3 as [P3 F3]. split.
  { unfold aad_view. cbn. by rewrite P0, P1, P4, P3. }
  assert (forall (o : option bytes) i b, (if i =? 0 then o else None) = Some b -> i = 0 /\ o = Some b) as Hz.
  { intros o i b. destruct (Z.eqb_spec i 0); [by split|done]. }
  intros [] i b Hb; cbn [secret_at] in Hb; cbn [secret_at rs_secrets rs_edge ss_rootKey ss_sendingChainKey
    ss_receivingChainKey ss_dhSelfSec ss_skippedMessageKeys].
  5: { destruct (Z.leb_spec 0 i) as [Hi|]; [|done]. destruct (F3 _ _ Hb) as (c & H1 & H2).
       exists c. split; [done|]. rewrite Z2Nat.id in H2 by done. by rewrite Z.add_0_l in H2. }
  all: apply Hz in Hb as [-> Hb]; cbn [Z.eqb]; try first [by apply F0|by apply F1|by apply F4].
  all: injection Hb as <-; eauto.
Qed.
Lemma map_secrets_total f s : (forall field i b, secret_at s field i = Some b -> is_ok (f field i b) = true) ->
  exists w, map_secrets f s = Ok w.
Proof.
  intros H. enough (is_ok (map_secrets f s) = true) as Hok by (destruct (map_secrets f s); [by eexists|done]).
  unfold map_secrets. pose proof (H RootKey 0 _ eq_refl) as H1. destruct (f RootKey 0 _) as [a|]; [|done]. cbn [mbind result_bind].
  pose proof (optional_total (f SendingChainKey 0) _ (fun b => H SendingChainKey 0 b)) as H2.
  destruct (optional (f SendingChainKey 0) _) as [a1|]; [|done]. cbn [mbind result_bind].
  pose proof (optional_total (f ReceivingChainKey 0) _ (fun b => H ReceivingChainKey 0 b)) as H3.
  destruct (optional (f ReceivingChainKey 0) _) as [a2|]; [|done]. cbn [mbind result_bind].
  pose proof (H DhSelfSecret 0 _ eq_refl) as H4. destruct (f DhSelfSecret 0 _) as [a3|]; [|done]. cbn [mbind result_bind].
  assert (is_ok (map_skipped (f SkippedKey) 0 (ss_skippedMessageKeys (rs_secrets s))) = true) as H5.
  { apply map_skipped_total. intros k b Hb. apply H. cbn [secret_at].
    rewrite Z.add_0_l, (proj2 (Z.leb_le 0 _)), Nat2Z.id by lia. done. }
  destruct (map_skipped _ _ _) as [a4|]; [|done]. cbn [mbind result_bind].
  pose proof (optional_total (f EdgeCryptoState 0) _ (fun b => H EdgeCryptoState 0 b)) as H6.
  by destruct (optional (f EdgeCryptoState 0) _).
Qed.
