(* ===== verification/RatchetVault.v ===== *)
(** * Wrapped rows

    Theorems on [RatchetWrap]: a wrapped row unwraps to the session it was made
    of, and the envelopes of two rows cannot be mixed. *)

From Stdlib Require Import String.
From stdpp Require Import gmap relations.
From S2P Require Import Prelude Bytes Constants Crypto Ratchet Metadata RatchetWrap RatchetRows.
Local Open Scope Z_scope.
Local Open Scope list_scope.

(** AES-GCM opens what it sealed, with a 16-byte tag. *)
Class GcmCorrect (V : WebVault) : Prop := {
  gcm_opens key iv aad pt : gcm_decrypt key iv aad (gcm_encrypt key iv aad pt) = Some pt;
  gcm_length key iv aad pt : blen (gcm_encrypt key iv aad pt) = blen pt + GCM_TAG_BYTES;
}.

Section Rows.
Context {V : WebVault} `{!GcmCorrect V}.
Implicit Types (s w : RatchetSession) (id aad pt : bytes) (key : VaultKey).

(** ** One field *)

Definition envelope_of id (iv ct : bytes) : bytes :=
  RATCHET_WRAP_MAGIC ++ [byte_of RATCHET_WRAP_VERSION] ++ id ++ iv ++ ct.
Lemma envelope_parts id iv ct : blen id = 16 -> blen iv = 12 ->
  let env := envelope_of id iv ct in
  blen env = 33 + blen ct /\ slice env 0 4 = RATCHET_WRAP_MAGIC /\ at_ env 4 = Some RATCHET_WRAP_VERSION /\
  slice env 5 21 = id /\ slice env 21 33 = iv /\ slice_from env 33 = ct.
Proof.
  intros Hid Hiv env. set (pre := RATCHET_WRAP_MAGIC ++ [byte_of RATCHET_WRAP_VERSION]).
  assert (env = pre ++ id ++ iv ++ ct) as -> by done. assert (blen pre = 5) as Hp by done. split_and!.
  - rewrite !blen_app. lia.
  - rewrite slice_app_in by lia. by vm_compute.
  - rewrite at_app_l by lia. by vm_compute.
  - rewrite slice_app_r by lia. rewrite slice_app_l by lia. done.
  - rewrite slice_app_r by lia. rewrite Hp, slice_app_r by lia. rewrite slice_app_l by lia. done.
  - rewrite !app_assoc. apply slice_from_app. rewrite !blen_app. lia.
Qed.

Lemma wrapped_field key pt aad id expected iv env : wrapRatchetField key pt aad id expected iv = Ok env ->
  blen env = RATCHET_WRAP_HEADER_BYTES + blen pt + GCM_TAG_BYTES /\
  ratchetEnvelopeRecordId env expected = Ok id /\ unwrapRatchetField key env aad id expected = Ok pt.
Proof.
  unfold wrapRatchetField. intros H. binds H. apply require_ok in E, E0. apply Z.eqb_eq in E0.
  set (sealed := gcm_encrypt key (region GCM_IV_BYTES iv) aad pt) in *.
  assert (blen sealed = blen pt + 16) as Hs by (apply gcm_length).
  assert (blen (region GCM_IV_BYTES iv) = 12) as Hiv by (by apply blen_region).
  destruct (envelope_parts id (region GCM_IV_BYTES iv) sealed E0 Hiv) as (Hl & Hm & Hv & Hr & Hn & Hc).
  subst env. fold (envelope_of id (region GCM_IV_BYTES iv) sealed) in *.
  set (env := envelope_of id (region GCM_IV_BYTES iv) sealed) in *.
  assert (ratchetEnvelopeRecordId env expected = Ok id) as Hid.
  { unfold ratchetEnvelopeRecordId. change (blen RATCHET_WRAP_MAGIC) with 4. change ID_OFF with 5.
    change (5 + RATCHET_RECORD_ID_BYTES) with 21. rewrite Hm, Hv, Hr, bytesEqual_refl, bool_decide_true by done.
    assert (envelope_length_ok (blen env) expected = true) as ->; [|done].
    rewrite Hl, Hs. unfold envelope_length_ok, plaintext_length_ok in *. change GCM_TAG_BYTES with 16.
    change RATCHET_WRAP_HEADER_BYTES with 33. pose proof (blen_nonneg pt). destruct expected; lia. }
  split; [change RATCHET_WRAP_HEADER_BYTES with 33; change GCM_TAG_BYTES with 16; lia|]. split; [done|].
  unfold unwrapRatchetField. rewrite Hid. cbn [mbind result_bind]. rewrite bytesEqual_refl. cbn [require mbind result_bind].
  change (ID_OFF + RATCHET_RECORD_ID_BYTES) with 21. change RATCHET_WRAP_HEADER_BYTES with 33.
  rewrite Hn, Hc. unfold sealed. rewrite gcm_opens, E. done.
Qed.
Lemma wrap_field_total key pt aad id expected iv : plaintext_length_ok (blen pt) expected = true -> blen id = 16 ->
  is_ok (wrapRatchetField key pt aad id expected iv) = true.
Proof. intros H1 H2. unfold wrapRatchetField. by rewrite H1, H2. Qed.

(** ** Rows *)

Lemma secret_length s field i b : secret_lengths_ok s = true -> secret_at s field i = Some b ->
  plaintext_length_ok (blen b) (field_length field) = true.
Proof.
  unfold secret_lengths_ok. rewrite !andb_true_iff. intros (((((H1 & H2) & H3) & H4) & H5) & H6) Hb.
  assert (forall (o : option bytes), (if i =? 0 then o else None) = Some b -> o = Some b) as Hz.
  { intros o. by destruct (i =? 0). }
  destruct field; cbn [secret_at] in Hb; cbn [field_length plaintext_length_ok].
  5: { destruct (0 <=? i); [|done]. apply forallb_forall with (x := default {| sk_dhPub := []; sk_n := None; sk_messageKey := b |}
         (ss_skippedMessageKeys (rs_secrets s) !! Z.to_nat i)) in H5.
       - by destruct (_ !! _); [injection Hb as <-|].
       - destruct (ss_skippedMessageKeys _ !! _) as [k|] eqn:Hk; [|done]. by apply list_elem_of_lookup_2, list_elem_of_In in Hk. }
  all: apply Hz in Hb; try rewrite Hb in *; try (injection Hb as <-); done.
Qed.
Lemma skipped_index s i b : validateMetadata s = Ok tt -> secret_at s SkippedKey i = Some b -> 0 <= i <= MAX_SKIP_SESSION.
Proof.
  unfold validateMetadata. intros H Hb. binds H. apply require_ok, negb_true_iff, Z.ltb_ge in E9.
  cbn [secret_at] in Hb. destruct (Z.leb_spec 0 i); [|done]. apply fmap_Some in Hb as (k & Hk & _).
  apply lookup_lt_Some in Hk. unfold blen in E9. lia.
Qed.
Lemma secret_index s field i b : validateMetadata s = Ok tt -> secret_at s field i = Some b -> 0 <= i <= MAX_SKIP_SESSION.
Proof.
  intros Hv Hb. assert (0 <= MAX_SKIP_SESSION) by done.
  destruct field; [..|by eapply skipped_index|]; cbn [secret_at] in Hb; destruct (Z.eqb_spec i 0); by try lia.
Qed.

(** A row with the clear part of a valid row is valid, when its variable secret
    fits an envelope. *)
Lemma each_ext {A} (f : A -> result WrapError unit) (g : bytes * option Z -> result WrapError unit) (h : A -> bytes * option Z) l :
  (forall x, f x = g (h x)) -> each f l = each g (h <$> l).
Proof. intros H. induction l as [|x l IH]; [done|]. cbn. by rewrite H, IH. Qed.
Lemma validate_view s w : aad_view s = aad_view w ->
  (forall b, rs_edge w = Some b -> 1 <= blen b <= MAX_EDGE_CRYPTO_STATE_BYTES + RATCHET_WRAP_HEADER_BYTES + GCM_TAG_BYTES) ->
  validateMetadata s = Ok tt -> validateMetadata w = Ok tt.
Proof.
  intros Hv He H. unfold aad_view in Hv. injection Hv as V1 V2 V3 V4 V5 V6 _ _ _ V10 V11 V12 V13 V14.
  assert (blen (ss_skippedMessageKeys (rs_secrets s)) = blen (ss_skippedMessageKeys (rs_secrets w))) as Hl.
  { apply (f_equal length) in V14. rewrite !length_fmap in V14. unfold blen. by rewrite V14. }
  unfold validateMetadata in H |- *. set (g := fun k : bytes * option Z => requireBuffer k.1 32;; skipped_counter k.2;; Ok tt).
  rewrite (each_ext _ g clear_skipped) in H |- * by done.
  rewrite V2, V3, V4, V5, V6, V10, V11, V12, V13, V14, Hl in H. binds H.
  rewrite E, E0, E1, E2, E3, E4, E5, E6, E7, E8, E9, E10. cbn [mbind result_bind].
  destruct (rs_edge w) as [b|]; [|done]. specialize (He b eq_refl). apply require_ok.
  change MAX_EDGE_CRYPTO_STATE_BYTES with 262144 in *. change RATCHET_WRAP_HEADER_BYTES with 33 in *.
  change GCM_TAG_BYTES with 16 in *. lia.
Qed.

Lemma present_iff {A B} (o : option A) (o' : option B) :
  bool_decide (is_Some o) = bool_decide (is_Some o') -> is_Some o <-> is_Some o'.
Proof. destruct o, o'; intros H; first [discriminate H|done]. Qed.
Lemma secret_present s w field i : aad_view s = aad_view w ->
  is_Some (secret_at s field i) <-> is_Some (secret_at w field i).
Proof.
  unfold aad_view. intros H. injection H as _ _ _ _ _ _ H1 H2 H3 _ _ _ _ H4.
  apply present_iff in H1, H2, H3.
  destruct field; cbn [secret_at]; try (by destruct (i =? 0)).
  destruct (0 <=? i); [|done]. apply (f_equal length) in H4. rewrite !length_fmap in H4.
  by rewrite !fmap_is_Some, !lookup_lt_is_Some, H4.
Qed.

(** What a wrapped row holds. *)
Record wrapped_row key (s : RatchetSession) id iv (w : RatchetSession) : Prop := {
  wr_view : aad_view s = aad_view w;
  wr_valid : validateMetadata w = Ok tt;
  wr_field : forall field i b, secret_at s field i = Some b -> exists aad env,
    canonicalRatchetAad s field id i = Ok aad /\ secret_at w field i = Some env /\
    wrapRatchetField key b aad id (field_length field) (iv field i) = Ok env;
}.

Lemma wrap_ok s key recordId iv w : wrapRatchetSession s key recordId iv = Ok w ->
  validateMetadata s = Ok tt /\ wrapped_row key s (region RATCHET_RECORD_ID_BYTES recordId) iv w.
Proof.
  unfold wrapRatchetSession. intros H. binds H. apply require_ok in E0. apply map_secrets_ok in H as [Hv Hf].
  split; [done|].
  assert (forall field i b, secret_at s field i = Some b -> exists aad env,
    canonicalRatchetAad s field (region RATCHET_RECORD_ID_BYTES recordId) i = Ok aad /\ secret_at w field i = Some env /\
    wrapRatchetField key b aad (region RATCHET_RECORD_ID_BYTES recordId) (field_length field) (iv field i) = Ok env) as Hw.
  { intros field i b Hb. destruct (Hf field i b Hb) as (c & H1 & H2). binds H2. eauto. }
  split; [done| |done]. eapply validate_view; [exact Hv| |exact E].
  intros b Hb. pose proof Hv as Hv2. unfold aad_view in Hv2. injection Hv2 as _ _ _ _ _ _ _ _ V9 _ _ _ _ _.
  destruct (rs_edge s) as [e|] eqn:He; [|rewrite Hb in V9; discriminate V9].
  destruct (Hw EdgeCryptoState 0 e He) as (aad & env & _ & H2 & H3). cbn [secret_at Z.eqb] in H2.
  assert (env = b) as -> by congruence. apply wrapped_field in H3 as (Hl & _ & _).
  pose proof (secret_length s EdgeCryptoState 0 e E0 He) as Hp. cbn in Hp.
  change MAX_EDGE_CRYPTO_STATE_BYTES with 262144 in *. change RATCHET_WRAP_HEADER_BYTES with 33 in *.
  change GCM_TAG_BYTES with 16 in *. lia.
Qed.

(** Wrapping is total on valid rows, and unwrapping undoes it. *)
Lemma unwrap_wrapped s key recordId iv : validateMetadata s = Ok tt -> secret_lengths_ok s = true ->
  exists w, wrapRatchetSession s key recordId iv = Ok w /\ aad_view w = aad_view s /\
    unwrapRatchetSession w key = Ok s.
Proof.
  intros Hv Hs. set (id := region RATCHET_RECORD_ID_BYTES recordId). assert (blen id = 16) as Hid by (by apply blen_region).
  destruct (map_secrets_total (fun field index plaintext => aad ← canonicalRatchetAad s field id index;
    wrapRatchetField key plaintext aad id (field_length field) (iv field index)) s) as [w Hw].
  { intros field i b Hb. destruct (aad_total s field id i Hv Hid) as [aad Ha]; [by eapply secret_index|].
    rewrite Ha. apply wrap_field_total; [by eapply secret_length|done]. }
  assert (wrapRatchetSession s key recordId iv = Ok w) as Hwrap.
  { unfold wrapRatchetSession. rewrite Hv, Hs. exact Hw. }
  exists w. split; [done|]. destruct (wrap_ok _ _ _ _ _ Hwrap) as [_ [Hview Hvw Hf]]. fold id in Hf. split; [done|].
  assert (forall field i env, secret_at w field i = Some env -> exists b, secret_at s field i = Some b /\
    (aad ← canonicalRatchetAad w field id i; unwrapRatchetField key env aad id (field_length field)) = Ok b) as Hu.
  { intros field i env He. destruct (secret_present s w field i Hview) as [_ [b Hb]]; [by eexists|].
    destruct (Hf field i b Hb) as (aad & env' & Ha & He' & (_ & _ & Hb')%wrapped_field). exists b. split; [done|].
    rewrite <- (aad_same_view s w) by done. rewrite Ha. cbn. congruence. }
  destruct (map_secrets_total (fun field index envelope => aad ← canonicalRatchetAad w field id index;
    unwrapRatchetField key envelope aad id (field_length field)) w) as [s2 Hs2].
  { intros field i env He. destruct (Hu _ _ _ He) as (b & _ & ->). done. }
  destruct (Hf RootKey 0 _ eq_refl) as (a0 & e0 & _ & H0 & (_ & Hrec & _)%wrapped_field).
  change (field_length RootKey) with (Some 32) in Hrec. cbn in H0. injection H0 as H0.
  unfold unwrapRatchetSession. rewrite Hvw, H0. cbn [mbind result_bind]. rewrite Hrec. cbn [mbind result_bind].
  fold id. rewrite Hs2. f_equal. apply map_secrets_ok in Hs2 as [Hv2 Hf2].
  symmetry. apply session_ext; [congruence|]. intros field i. apply option_eq. intros b.
  assert (forall b, secret_at s field i = Some b -> secret_at s2 field i = Some b) as Hsome.
  { intros b' Hb. destruct (Hf field i b' Hb) as (_ & env & _ & He & _). destruct (Hf2 _ _ _ He) as (c & Hc & Hc2).
    destruct (Hu _ _ _ He) as (b2 & Hb2 & Hb3). congruence. }
  split; [apply Hsome|]. intros Hb. destruct (secret_present s s2 field i) as [_ [b' Hb']]; [congruence|by eexists|].
  rewrite Hb'. apply Hsome in Hb'. congruence.
Qed.
End Rows.

(** ** Fields of two rows do not mix *)

Section Splicing.
Context {V : WebVault}.
Implicit Types (s row : RatchetSession) (id : bytes) (key : VaultKey).

(** [writes]: the sessions the holder of the key has wrapped, with the record
    name each was given. *)
Definition wrapped_plaintext (writes : list (RatchetSession * bytes)) (aad pt : bytes) : Prop :=
  exists s id field i, (s, id) ∈ writes /\ canonicalRatchetAad s field id i = Ok aad /\ secret_at s field i = Some pt.

Lemma unwrapped_secret row key s' : unwrapRatchetSession row key = Ok s' ->
  exists id, aad_view row = aad_view s' /\ forall field i pt, secret_at s' field i = Some pt ->
    exists aad iv ct, canonicalRatchetAad row field id i = Ok aad /\ gcm_decrypt key iv aad ct = Some pt.
Proof.
  unfold unwrapRatchetSession. intros H. binds H. exists x. pose proof H as [Hv Hf]%map_secrets_ok. split; [done|].
  intros field i pt Hpt. destruct (secret_present _ _ field i Hv) as [_ [env He]]; [by eexists|].
  destruct (Hf _ _ _ He) as (c & Hc & Hun). binds Hun. exists x0. unfold unwrapRatchetField in Hun. binds Hun.
  destruct (gcm_decrypt _ _ _ _) as [pt'|] eqn:Hd in Hun; [|discriminate]. binds Hun.
  exists (slice env (ID_OFF + RATCHET_RECORD_ID_BYTES) RATCHET_WRAP_HEADER_BYTES), (slice_from env RATCHET_WRAP_HEADER_BYTES).
  split; [done|]. congruence.
Qed.

(** The fields of two rows cannot be mixed.  When AES-GCM opens only what was
    sealed, under the associated data it was sealed with, and no record name
    was drawn twice, a row that unwraps is one that was written: every secret
    field, every counter and name and every skipped key comes from the same
    call of [wrapRatchetSession], whatever was done to the stored row. *)
Theorem row_fields_not_mixed writes row key s' :
  (forall iv aad ct pt, gcm_decrypt key iv aad ct = Some pt -> wrapped_plaintext writes aad pt) ->
  (forall s1 s2 id, (s1, id) ∈ writes -> (s2, id) ∈ writes -> s1 = s2) ->
  unwrapRatchetSession row key = Ok s' -> exists id, (s', id) ∈ writes.
Proof.
  intros Hauth Hdist (id & Hv & Hf)%unwrapped_secret.
  assert (forall field i pt, secret_at s' field i = Some pt -> exists s, (s, id) ∈ writes /\
    aad_view row = aad_view s /\ secret_at s field i = Some pt) as Hw.
  { intros field i pt Hpt. destruct (Hf _ _ _ Hpt) as (aad & iv & ct & Ha & Hd).
    destruct (Hauth _ _ _ _ Hd) as (s & id' & field' & i' & Hin & Ha' & Hs).
    destruct (aad_split _ _ _ _ _ _ _ _ _ _ [] [] Ha Ha' eq_refl) as [(-> & -> & -> & Hview) _]. by exists s. }
  destruct (Hw RootKey 0 _ eq_refl) as (s & Hin & Hview & _). exists id.
  assert (s' = s) as ->; [|done]. apply session_ext; [congruence|]. intros field i.
  destruct (secret_at s' field i) as [pt|] eqn:Hpt.
  - destruct (Hw _ _ _ Hpt) as (s2 & Hin2 & _ & Hs2). by rewrite (Hdist _ _ _ Hin Hin2).
  - destruct (secret_at s field i) as [pt|] eqn:Hs; [|done].
    destruct (secret_present s s' field i) as [[? Habs] _]; [congruence|by eexists|congruence].
Qed.
End Splicing.
