(* ===== verification/RatchetGuard.v ===== *)
(** * The rollback guard of the worker

    Within the life of the worker a stored row cannot be rolled back or forked,
    whatever happens to the database, and the rows the worker writes itself are
    never refused. *)

From Stdlib Require Import String.
From stdpp Require Import gmap relations.
From S2P Require Import Prelude Bytes Constants Crypto Ratchet Metadata RatchetWrap RatchetRows RatchetVault.
Local Open Scope Z_scope.
Local Open Scope list_scope.

(** ** One decision of the guard *)

Implicit Types (g : Guard) (s : RatchetSession) (fp e : list Z).

(** [s], of fingerprint [print], is let through: it becomes the mark of its
    edge, and is newer than the mark before or the same. *)
Record accepts s (print : bytes) (g g' : Guard) : Prop := {
  ac_mark : g' !! rollbackEdgeKey s = Some (rs_updatedAt s, print);
  ac_other e : e <> rollbackEdgeKey s -> g' !! e = g !! e;
  ac_newer t p : g !! rollbackEdgeKey s = Some (t, p) -> t < rs_updatedAt s \/ (t, p) = (rs_updatedAt s, print);
}.

Lemma accept_unfold s print g : acceptFingerprint s print g =
  match g !! rollbackEdgeKey s with
  | Some (t, p) =>
      if negb (rs_updatedAt s <? t) then
        if negb ((rs_updatedAt s =? t) && negb (bytesEqual print p)) then
          (Ok tt, if t <? rs_updatedAt s then <[rollbackEdgeKey s := (rs_updatedAt s, print)]> g else g)
        else (Err equivocation_detected, g)
      else (Err rollback_detected, g)
  | None => (Ok tt, <[rollbackEdgeKey s := (rs_updatedAt s, print)]> g)
  end.
Proof.
  unfold acceptFingerprint, mrequire, lift, require, get_this, set_this, mbind, M_bind, mret, M_ret.
  destruct (g !! _) as [[t p]|]; [|done]. repeat case_match; simplify_eq; done.
Qed.

Lemma accept_ok s print g u g' : acceptFingerprint s print g = (Ok u, g') -> accepts s print g g'.
Proof.
  rewrite accept_unfold. destruct (g !! rollbackEdgeKey s) as [[t p]|] eqn:Hg.
  2: { intros [= _ <-]. split; [by rewrite lookup_insert_eq|intros e He; by rewrite lookup_insert_ne|congruence]. }
  destruct (Z.ltb_spec (rs_updatedAt s) t); [done|]. cbn [negb].
  destruct (Z.ltb_spec t (rs_updatedAt s)).
  - rewrite (proj2 (Z.eqb_neq _ _)) by lia. intros [= _ <-].
    split; [by rewrite lookup_insert_eq|intros e He; by rewrite lookup_insert_ne|].
    intros t' p' H'. left. congruence.
  - assert (rs_updatedAt s = t) as Ht by lia. rewrite Ht, Z.eqb_refl.
    destruct (bytesEqual print p) eqn:Hp; [|done]. apply bytesEqual_spec in Hp as ->. intros [= _ <-].
    split; [by rewrite Hg, Ht|done|]. intros t' p' H'. right. congruence.
Qed.
Lemma accept_err s print g er g' : acceptFingerprint s print g = (Err er, g') -> g' = g.
Proof. rewrite accept_unfold. repeat case_match; congruence. Qed.
(** A row newer than the mark passes. *)
Lemma accept_newer s print g : (forall t p, g !! rollbackEdgeKey s = Some (t, p) -> t < rs_updatedAt s) ->
  exists g', acceptFingerprint s print g = (Ok tt, g').
Proof.
  intros H. rewrite accept_unfold. destruct (g !! _) as [[t p]|]; [|by eexists]. specialize (H t p eq_refl).
  rewrite (proj2 (Z.ltb_ge _ _)), (proj2 (Z.eqb_neq _ _)) by lia. by eexists.
Qed.
(** The row of the mark passes again. *)
Lemma accept_same s print g : g !! rollbackEdgeKey s = Some (rs_updatedAt s, print) ->
  acceptFingerprint s print g = (Ok tt, g).
Proof. intros H. by rewrite accept_unfold, H, bytesEqual_refl, Z.ltb_irrefl, andb_false_r. Qed.

Section Worker.
Context {V : WebVault}.
Implicit Types (v w : Vault) (row : RatchetSession) (id aad pt : bytes) (key : VaultKey).

(** ** The worker's operations *)

Lemma wrapped_names s key recordId iv row : wrapRatchetSession s key recordId iv = Ok row ->
  rs_roomId row = rs_roomId s /\ rs_peerPublicKey row = rs_peerPublicKey s /\ rs_updatedAt row = rs_updatedAt s.
Proof.
  unfold wrapRatchetSession. intros H. binds H. apply map_secrets_ok in H as [H _].
  unfold aad_view in H. by injection H as _ -> -> _ _ _ _ _ _ _ _ _ -> _.
Qed.

Definition next_stamp session now v : Z :=
  let previous := last_write (rollbackEdgeKey session) v in
  let requested := Z.max now (rs_updatedAt session) in
  if previous <? requested then requested else previous + 1.
Lemma stamp_newer session now v : last_write (rollbackEdgeKey session) v < next_stamp session now v.
Proof. unfold next_stamp. destruct (Z.ltb_spec (last_write (rollbackEdgeKey session) v) (Z.max now (rs_updatedAt session))); lia. Qed.

Lemma guard_unfold row v : on_guard (acceptAuthenticated row) v =
  match ratchetEnvelopeFingerprint row with
  | Err er => (Err er, v)
  | Ok print => let '(r, g) := acceptFingerprint row print (va_guard v) in (r, MkVault (va_rows v) g (va_last v))
  end.
Proof. unfold on_guard, acceptAuthenticated, lift, mbind, M_bind. destruct v. by destruct (ratchetEnvelopeFingerprint row). Qed.
Lemma set_unfold session key now recordId iv puts v : fnSetRatchetSession session key now recordId iv puts v =
  let u := next_stamp session now v in
  if isSafeInteger u then
    match wrapRatchetSession (stamp session u) key recordId iv with
    | Err er => (Err er, v)
    | Ok row =>
        if puts then
          match on_guard (acceptAuthenticated row) (set_rows (<[(rs_roomId row, rs_peerPublicKey row) := row]> (va_rows v)) v) with
          | (Ok _, v') => (Ok tt, set_last (<[rollbackEdgeKey session := u]> (va_last v')) v')
          | (Err er, v') => (Err er, v')
          end
        else (Err put_failed, v)
    end
  else (Err timestamp_exhausted, v).
Proof.
  unfold fnSetRatchetSession, mrequire, lift, require, get_this, modify_this, mbind, M_bind.
  change (ratchetWorkerKey (rs_roomId session) (rs_peerPublicKey session)) with (rollbackEdgeKey session).
  fold (next_stamp session now v). cbv zeta. destruct (isSafeInteger _); [|done].
  destruct (wrapRatchetSession _ _ _ _) as [row|]; [|done]. destruct puts; [|done].
  change (rememberTrustedWrite row) with (acceptAuthenticated row).
  by destruct (on_guard _ _) as [[[]|] ?].
Qed.

(** The database keeps a row under its room and peer, and the marks of the guard
    are no newer than the last write. *)
Record vault_ok v : Prop := {
  vo_keyed room peer row : va_rows v !! (room, peer) = Some row -> rs_roomId row = room /\ rs_peerPublicKey row = peer;
  vo_marks edge t p : va_guard v !! edge = Some (t, p) -> t <= last_write edge v;
}.

(** What the two operations that consult the guard do to the vault. *)
Inductive guarded (row : RatchetSession) (print : bytes) (last : Z) v v' : Prop :=
  | guarded_intro : ratchetEnvelopeFingerprint row = Ok print -> accepts row print (va_guard v) (va_guard v') ->
      va_last v' = <[rollbackEdgeKey row := last]> (va_last v) -> rs_updatedAt row <= last ->
      guarded row print last v v'.

Lemma guarded_marks row print last v v' : guarded row print last v v' ->
  (forall edge t p, va_guard v !! edge = Some (t, p) -> t <= last_write edge v) ->
  forall edge t p, va_guard v' !! edge = Some (t, p) -> t <= last_write edge v'.
Proof.
  intros [_ [Hm Ho _] Hl Hle] Hv edge t p H. unfold last_write. rewrite Hl. destruct (decide (edge = rollbackEdgeKey row)) as [->|He].
  - rewrite lookup_insert_eq. cbn. rewrite Hm in H. injection H as <- _. lia.
  - rewrite lookup_insert_ne by done. rewrite Ho in H by done. exact (Hv _ _ _ H).
Qed.

Lemma set_cases session key now recordId iv puts v r v' : fnSetRatchetSession session key now recordId iv puts v = (r, v') ->
  is_ok r = false /\ v' = v \/ exists row, let u := next_stamp session now v in
    isSafeInteger u = true /\ wrapRatchetSession (stamp session u) key recordId iv = Ok row /\
    va_rows v' = <[(rs_roomId row, rs_peerPublicKey row) := row]> (va_rows v) /\
    (is_ok r = false /\ va_guard v' = va_guard v /\ va_last v' = va_last v \/
     r = Ok tt /\ exists print, guarded row print u v v').
Proof.
  rewrite set_unfold. cbv zeta. destruct (isSafeInteger _) eqn:Hu; [|intros [= <- <-]; by left].
  destruct (wrapRatchetSession _ _ _ _) as [row|] eqn:Hw; [|intros [= <- <-]; by left].
  destruct puts; [|intros [= <- <-]; by left]. rewrite guard_unfold.
  destruct (wrapped_names _ _ _ _ _ Hw) as (Hr & Hp & Ht). cbn in Hr, Hp, Ht.
  destruct (ratchetEnvelopeFingerprint row) as [print|] eqn:Hf.
  2: { intros [= <- <-]. right. exists row. split_and!; try done. by left. }
  cbn [va_guard set_rows]. destruct (acceptFingerprint row print (va_guard v)) as [[[]|] g] eqn:Ha; intros [= <- <-]; right; exists row.
  - split_and!; try done. right. split; [done|]. exists print. apply accept_ok in Ha.
    split; [done|exact Ha| |by rewrite Ht]. cbn. unfold rollbackEdgeKey. by rewrite Hr, Hp.
  - apply accept_err in Ha as ->. split_and!; try done. by left.
Qed.
Lemma get_cases room peer key reads v o v' : vault_ok v -> fnGetRatchetSession room peer key reads v = (o, v') ->
  match o with
  | None => v' = v
  | Some restored => exists row print, va_rows v !! (room, peer) = Some row /\ va_rows v' = va_rows v /\
      unwrapRatchetSession row key = Ok restored /\ rs_updatedAt restored = rs_updatedAt row /\
      guarded row print (Z.max (last_write (rollbackEdgeKey row) v) (rs_updatedAt row)) v v'
  end.
Proof.
  intros Hok. unfold fnGetRatchetSession. destruct reads; [|by intros [= <- <-]]. cbn [negb].
  destruct (va_rows v !! _) as [row|] eqn:Hrow; [|by intros [= <- <-]].
  destruct (unwrapRatchetSession row key) as [restored|] eqn:Hu; [|by intros [= <- <-]].
  rewrite guard_unfold. destruct (ratchetEnvelopeFingerprint row) as [print|] eqn:Hf; [|by intros [= <- <-]].
  destruct (acceptFingerprint row print (va_guard v)) as [[[]|] g] eqn:Ha; intros [= <- <-].
  2: { apply accept_err in Ha as ->. by destruct v. }
  destruct (vo_keyed v Hok _ _ _ Hrow) as [Hr Hp]. exists row, print. split_and!; try done.
  { pose proof Hu as (id & Hview & _)%unwrapped_secret. unfold aad_view in Hview. by injection Hview. }
  assert (rs_updatedAt restored = rs_updatedAt row) as Ht.
  { pose proof Hu as (id & Hview & _)%unwrapped_secret. unfold aad_view in Hview. by injection Hview. }
  apply accept_ok in Ha. unfold rollbackEdgeKey. rewrite Hr, Hp, <- Ht. split; [done|exact Ha| |lia].
  cbn. unfold rollbackEdgeKey. by rewrite Hr, Hp.
Qed.

(** ** The life of a worker *)

(** One step: an operation of the worker, or any change of the stored rows
    behind its back.  [edge] is not deleted. *)
Inductive worker_step (edge : list Z) : Vault -> Vault -> Prop :=
  | step_set session key now recordId iv puts v :
      worker_step edge v (fnSetRatchetSession session key now recordId iv puts v).2
  | step_get room peer key reads v : worker_step edge v (fnGetRatchetSession room peer key reads v).2
  | step_delete room peer deletes v : ratchetWorkerKey room peer <> edge ->
      worker_step edge v (fnDeleteRatchetSession room peer deletes v)
  | step_tamper rows v :
      (forall room peer row, rows !! (room, peer) = Some row -> rs_roomId row = room /\ rs_peerPublicKey row = peer) ->
      worker_step edge v (set_rows rows v).

Lemma last_write_eq v v' edge : va_last v' = va_last v -> last_write edge v' = last_write edge v.
Proof. unfold last_write. by intros ->. Qed.
Lemma set_keeps_ok session key now recordId iv puts v : vault_ok v ->
  vault_ok (fnSetRatchetSession session key now recordId iv puts v).2.
Proof.
  intros Hok. destruct (fnSetRatchetSession _ _ _ _ _ _ v) as [r v'] eqn:H. cbn.
  apply set_cases in H as [[_ ->]|(row & _ & _ & Hrows & Hg)]; [done|]. split.
  - intros room peer row'. rewrite Hrows. intros [[[= <- <-] <-]|[_ Hr]]%lookup_insert_Some; [done|by eapply vo_keyed].
  - destruct Hg as [(_ & Hg & Hl)|(_ & print & Hg)]; [|by eapply guarded_marks, vo_marks].
    intros e t p. rewrite Hg, (last_write_eq _ _ _ Hl). by apply vo_marks.
Qed.
Lemma get_keeps_ok room peer key reads v : vault_ok v -> vault_ok (fnGetRatchetSession room peer key reads v).2.
Proof.
  intros Hok. destruct (fnGetRatchetSession _ _ _ _ v) as [[s|] v'] eqn:H; apply get_cases in H; try done; [|by subst].
  destruct H as (row & print & _ & Hrows & _ & _ & Hg). cbn. split; [rewrite Hrows; by apply vo_keyed|].
  by eapply guarded_marks, vo_marks.
Qed.
Lemma step_keeps_ok edge v v' : worker_step edge v v' -> vault_ok v -> vault_ok v'.
Proof.
  intros [session key now recordId iv puts w|room peer key reads w|room peer [|] w _|rows w Hrows] Hok.
  - by apply set_keeps_ok.
  - by apply get_keeps_ok.
  - split; cbn.
    + intros r p row [_ H]%lookup_delete_Some. by apply (vo_keyed w Hok).
    + unfold forget. intros e t p [He H]%lookup_delete_Some. unfold last_write. cbn. rewrite lookup_delete_ne by done. by apply (vo_marks w Hok) in H.
  - done.
  - split; [exact Hrows|]. apply (vo_marks w Hok).
Qed.

(** The mark of [edge] only advances. *)
Definition mark_le (edge : list Z) v v' : Prop :=
  forall t p, va_guard v !! edge = Some (t, p) ->
    exists t' p', va_guard v' !! edge = Some (t', p') /\ (t < t' \/ (t, p) = (t', p')).
#[local] Instance mark_le_preorder edge : PreOrder (mark_le edge).
Proof.
  split; [intros v t p H; exists t, p; auto|]. intros v1 v2 v3 H1 H2 t p H.
  destruct (H1 _ _ H) as (t' & p' & H' & Hle). destruct (H2 _ _ H') as (t'' & p'' & H'' & Hle').
  exists t'', p''. split; [done|]. destruct Hle as [|[= -> ->]], Hle' as [|[= -> ->]]; auto; left; lia.
Qed.
Lemma guarded_mark row print last v v' edge : guarded row print last v v' -> mark_le edge v v'.
Proof.
  intros [_ [Hm Ho Hn] _ _] t p H. destruct (decide (edge = rollbackEdgeKey row)) as [->|He].
  - exists (rs_updatedAt row), print. split; [done|]. by apply Hn.
  - exists t, p. rewrite Ho by done. auto.
Qed.
Lemma same_mark v v' edge : va_guard v' = va_guard v -> mark_le edge v v'.
Proof. intros H t p Hm. exists t, p. rewrite H. auto. Qed.
Lemma step_mark edge v v' : vault_ok v -> worker_step edge v v' -> mark_le edge v v'.
Proof.
  intros Hok Hs. destruct Hs as [session key now recordId iv puts w|room peer key reads w|room peer [|] w He|rows w Hrows].
  - destruct (fnSetRatchetSession _ _ _ _ _ _ w) as [r v'] eqn:H. cbn. apply set_cases in H as [[_ ->]|(row & _ & _ & _ & Hg)]; [done|].
    destruct Hg as [(_ & Hg & _)|(_ & print & Hg)]; [by apply same_mark|by eapply guarded_mark].
  - destruct (fnGetRatchetSession _ _ _ _ w) as [[s|] v'] eqn:H; apply get_cases in H; try done; [|by subst].
    destruct H as (row & print & _ & _ & _ & _ & Hg). by eapply guarded_mark.
  - intros t p H. exists t, p. cbn. unfold forget. rewrite lookup_delete_ne by done. auto.
  - done.
  - by apply same_mark.
Qed.
Lemma steps_mark edge v v' : rtc (worker_step edge) v v' -> vault_ok v -> vault_ok v' /\ mark_le edge v v'.
Proof.
  induction 1 as [v|v1 v2 v3 Hs _ IH]; intros Hok; [by split|].
  destruct (IH (step_keeps_ok _ _ _ Hs Hok)) as [H1 H2]. split; [done|]. by transitivity v2; [apply step_mark|].
Qed.

(** ** Fingerprints *)

Definition print_items row id : list (result WrapError bytes) :=
  let ss := rs_secrets row in
  [canonicalRatchetAad row RootKey id 0; lengthPrefixed (ss_rootKey ss);
   lengthPrefixed (default [] (ss_sendingChainKey ss)); lengthPrefixed (default [] (ss_receivingChainKey ss));
   lengthPrefixed (ss_dhSelfSec ss)]
  ++ (lengthPrefixed ∘ sk_messageKey <$> ss_skippedMessageKeys ss) ++ [lengthPrefixed (default [] (rs_edge row))].
Lemma print_ok row print : ratchetEnvelopeFingerprint row = Ok print ->
  exists id encoded, concat_results (print_items row id) = Ok encoded /\ print = vault_sha256 encoded.
Proof. unfold ratchetEnvelopeFingerprint. intros H. binds H. by exists x, x0. Qed.

Lemma keys_split tl tl' (l : list SkippedMessageKey) : forall (l' : list SkippedMessageKey) out, length l = length l' ->
  concat_results ((lengthPrefixed ∘ sk_messageKey <$> l) ++ tl) = Ok out ->
  concat_results ((lengthPrefixed ∘ sk_messageKey <$> l') ++ tl') = Ok out ->
  sk_messageKey <$> l = sk_messageKey <$> l' /\ exists o, concat_results tl = Ok o /\ concat_results tl' = Ok o.
Proof.
  induction l as [|k l IH]; intros [|k' l'] out Hl H H'; try done; [split; [done|by exists out]|].
  cbn [fmap list_fmap app] in H, H'. destruct (code_step _ _ _ _ _ _ (lp_split _ _) H H') as (E1 & o1 & H1 & H1').
  injection Hl as Hl. destruct (IH _ _ Hl H1 H1') as [Heq Ho]. split; [|done]. cbn [fmap list_fmap]. by rewrite Heq, E1.
Qed.
Lemma default_present (o o' : option bytes) : bool_decide (is_Some o) = bool_decide (is_Some o') ->
  default [] o = default [] o' -> o = o'.
Proof. destruct o, o'; intros H; cbn; try done; by intros ->. Qed.

(** The fingerprint names the row: two rows with one fingerprint are equal or
    give two inputs that SHA-256 does not tell apart. *)
Lemma print_determines row row' print : ratchetEnvelopeFingerprint row = Ok print ->
  ratchetEnvelopeFingerprint row' = Ok print ->
  row = row' \/ exists x y, x <> y /\ vault_sha256 x = vault_sha256 y.
Proof.
  intros (id & x & H & ->)%print_ok (id' & y & H' & Hxy)%print_ok.
  destruct (decide (x = y)) as [<-|Hne]; [left|right; by exists x, y].
  unfold print_items in H, H'. cbn [app] in H, H'.
  destruct (code_step _ _ _ _ _ _ (fun b b' r r' => aad_split row RootKey id 0 row' RootKey id' 0 b b' r r') H H')
    as ((_ & _ & _ & Hv) & o0 & H0 & H0').
  destruct (code_step _ _ _ _ _ _ (lp_split _ _) H0 H0') as (E1 & o1 & H1 & H1').
  destruct (code_step _ _ _ _ _ _ (lp_split _ _) H1 H1') as (E2 & o2 & H2 & H2').
  destruct (code_step _ _ _ _ _ _ (lp_split _ _) H2 H2') as (E3 & o3 & H3 & H3').
  destruct (code_step _ _ _ _ _ _ (lp_split _ _) H3 H3') as (E4 & o4 & H4 & H4').
  pose proof Hv as Hv'. unfold aad_view in Hv'. injection Hv' as _ _ _ _ _ _ P1 P2 P3 _ _ _ _ Hsk.
  assert (length (ss_skippedMessageKeys (rs_secrets row)) = length (ss_skippedMessageKeys (rs_secrets row'))) as Hl.
  { apply (f_equal length) in Hsk. by rewrite !length_fmap in Hsk. }
  destruct (keys_split _ _ _ _ _ Hl H4 H4') as (E5 & o5 & H5 & H5').
  destruct (code_step _ _ _ _ _ _ (lp_split _ _) H5 H5') as (E6 & _).
  apply default_present in E2, E3, E6; try done. apply session_ext; [done|]. intros [] i; cbn [secret_at]; rewrite ?E1, ?E2, ?E3, ?E4, ?E6; try done.
  destruct (0 <=? i); [|done]. by rewrite <- !list_lookup_fmap, E5.
Qed.

(** ** A row is not rolled back *)

(** [row] passed the guard: it was read and restored, or the worker wrote it. *)
Inductive passed (room peer : list Z) row v v' : Prop :=
  | passed_read key reads restored : va_rows v !! (room, peer) = Some row ->
      fnGetRatchetSession room peer key reads v = (Some restored, v') -> passed room peer row v v'
  | passed_written session key now recordId iv puts : rs_roomId session = room -> rs_peerPublicKey session = peer ->
      fnSetRatchetSession session key now recordId iv puts v = (Ok tt, v') ->
      va_rows v' !! (room, peer) = Some row -> passed room peer row v v'.

Lemma passed_guarded room peer row v v' : vault_ok v -> passed room peer row v v' ->
  rollbackEdgeKey row = ratchetWorkerKey room peer /\ vault_ok v' /\ exists print last, guarded row print last v v'.
Proof.
  intros Hok [key reads restored Hrow H|session key now recordId iv puts <- <- H Hrow].
  - pose proof (get_keeps_ok room peer key reads v Hok) as Hok'. rewrite H in Hok'.
    destruct (get_cases _ _ _ _ _ _ _ Hok H) as (row' & print & Hrow' & _ & _ & _ & Hg).
    rewrite Hrow' in Hrow. injection Hrow as ->. destruct (vo_keyed v Hok _ _ _ Hrow') as [<- <-]. split_and!; eauto.
  - pose proof (set_keeps_ok session key now recordId iv puts v Hok) as Hok'. rewrite H in Hok'.
    destruct (set_cases _ _ _ _ _ _ _ _ _ H) as [[? _]|(row' & _ & Hw & Hrows & [[? _]|(_ & print & Hg)])]; [done..|].
    destruct (wrapped_names _ _ _ _ _ Hw) as (Hr & Hp & _). cbn in Hr, Hp.
    rewrite Hrows, Hr, Hp, lookup_insert_eq in Hrow. injection Hrow as ->.
    split_and!; [|done|eauto]. unfold rollbackEdgeKey. by rewrite Hr, Hp.
Qed.

(** C25. Within the life of the worker a ratchet is not rolled back or forked.  Take a
    row that the worker read or wrote, and let anything happen: writes and reads
    of every edge, deletions of other edges, and any change of the stored rows
    behind the worker's back.  A row of that edge which a later read accepts is
    newer, or is the very same row (else two inputs of SHA-256 collide): a
    ratchet that has already sent with a chain key is not given back the state
    from before. *)
Theorem row_never_rolled_back room peer row v v1 v2 row' v3 : vault_ok v -> passed room peer row v v1 ->
  rtc (worker_step (ratchetWorkerKey room peer)) v1 v2 -> passed room peer row' v2 v3 ->
  rs_updatedAt row < rs_updatedAt row' \/ row = row' \/ exists x y, x <> y /\ vault_sha256 x = vault_sha256 y.
Proof.
  intros Hok H Hs H'. destruct (passed_guarded _ _ _ _ _ Hok H) as (He & Hok1 & print & last & [Hf [Hm _ _] _ _]).
  destruct (steps_mark _ _ _ Hs Hok1) as [Hok2 Hle]. rewrite He in Hm.
  destruct (passed_guarded _ _ _ _ _ Hok2 H') as (He' & _ & print' & last' & [Hf' [_ _ Hn] _ _]). rewrite He' in Hn.
  destruct (Hle _ _ Hm) as (t & p & Hmark & Hlt). destruct (Hn _ _ Hmark) as [Ht|[= Ht Hp]].
  - left. destruct Hlt as [|[= -> ->]]; lia.
  - subst t p. destruct Hlt as [|[= _ ->]]; [by left|right]. by eapply print_determines.
Qed.

(** ** The worker's own writes *)

Context `{!GcmCorrect V}.

Lemma wrapped_record s key id iv row : blen id = 16 -> secret_lengths_ok s = true -> wrapped_row key s id iv row ->
  forall field i env, secret_at row field i = Some env ->
    ratchetEnvelopeRecordId env (field_length field) = Ok id /\ is_ok (lengthPrefixed env) = true.
Proof.
  intros Hid Hl [Hv _ Hf] field i env He. destruct (secret_present s row field i Hv) as [_ [b Hb]]; [by eexists|].
  destruct (Hf _ _ _ Hb) as (aad & env' & _ & He' & (Hlen & Hrec & _)%wrapped_field). assert (env' = env) as -> by congruence.
  split; [done|]. apply lp_total. pose proof (secret_length _ _ _ _ Hl Hb) as Hp.
  change RATCHET_WRAP_HEADER_BYTES with 33 in Hlen. change GCM_TAG_BYTES with 16 in Hlen.
  unfold plaintext_length_ok in Hp. change MAX_EDGE_CRYPTO_STATE_BYTES with 262144 in Hp.
  destruct field; cbn [field_length] in Hp; lia.
Qed.
Lemma same_record_ok id expected env : ratchetEnvelopeRecordId env expected = Ok id -> same_record id expected env = Ok tt.
Proof. unfold same_record. intros ->. cbn. by rewrite bytesEqual_refl. Qed.
Lemma print_total s key id iv row : blen id = 16 -> secret_lengths_ok s = true -> wrapped_row key s id iv row ->
  exists print, ratchetEnvelopeFingerprint row = Ok print.
Proof.
  intros Hid Hl Hw. pose proof (wrapped_record _ _ _ _ _ Hid Hl Hw) as Hr. pose proof (wr_valid _ _ _ _ _ Hw) as Hv.
  assert (forall (o : option bytes) field, (forall env, o = Some env -> ratchetEnvelopeRecordId env (field_length field) = Ok id /\ is_ok (lengthPrefixed env) = true) ->
    if_some (same_record id (field_length field)) o = Ok tt /\ is_ok (lengthPrefixed (default [] o)) = true) as Ho.
  { intros [env|] field H; [|done]. destruct (H env eq_refl). split; [by apply same_record_ok|done]. }
  assert (forall k : SkippedMessageKey, k ∈ ss_skippedMessageKeys (rs_secrets row) ->
    ratchetEnvelopeRecordId (sk_messageKey k) (Some 32) = Ok id /\ is_ok (lengthPrefixed (sk_messageKey k)) = true) as Hk.
  { intros k (i & Hi)%list_elem_of_lookup_1. apply (Hr SkippedKey (Z.of_nat i)). cbn [secret_at].
    rewrite (proj2 (Z.leb_le 0 _)), Nat2Z.id, Hi by lia. done. }
  destruct (Hr RootKey 0 _ eq_refl) as [R1 L1]. destruct (Hr DhSelfSecret 0 _ eq_refl) as [R2 L2].
  destruct (Ho _ SendingChainKey (Hr SendingChainKey 0)) as [R3 L3].
  destruct (Ho _ ReceivingChainKey (Hr ReceivingChainKey 0)) as [R4 L4].
  destruct (Ho _ EdgeCryptoState (Hr EdgeCryptoState 0)) as [R5 L5]. cbn [field_length secret_at Z.eqb] in *.
  destruct (aad_total row RootKey id 0 Hv Hid) as [aad Ha]; [done|].
  assert (is_ok (concat_results (print_items row id)) = true) as Hc.
  { apply concat_total. unfold print_items. apply Forall_app. split; [by rewrite Ha; repeat constructor|].
    apply Forall_app. split; [|by repeat constructor]. apply Forall_fmap, Forall_forall. intros k Hin. by apply Hk. }
  unfold ratchetEnvelopeFingerprint. rewrite Hv, R1. cbn [mbind result_bind].
  rewrite R3, R4, (same_record_ok _ _ _ R2). cbn [mbind result_bind].
  rewrite (proj2 (each_Forall _ _)), R5 by (apply Forall_forall; intros k Hin; by apply same_record_ok, Hk).
  cbn [mbind result_bind]. fold (print_items row id). destruct (concat_results (print_items row id)); [by eexists|done].
Qed.

Lemma stamp_valid session u : isSafeInteger u = true -> rs_updatedAt session <= u ->
  validateMetadata session = Ok tt -> validateMetadata (stamp session u) = Ok tt.
Proof.
  intros Hu Hle H. unfold validateMetadata in H |- *. binds H. cbn [stamp rs_secrets rs_roomId rs_peerPublicKey rs_peerId rs_edge rs_updatedAt].
  assert (requireSafeUint u = Ok u) as Hs.
  { unfold requireSafeUint in E8 |- *. binds E8. apply require_ok in E11. rewrite andb_true_iff, negb_true_iff, Z.ltb_ge in E11.
    rewrite Hu, (proj2 (Z.ltb_ge _ _)) by lia. done. }
  by rewrite E, E0, E1, E2, E3, E4, E5, E6, E7, Hs, E9, E10.
Qed.
Lemma stamp_later session now v : rs_updatedAt session <= next_stamp session now v.
Proof. unfold next_stamp. destruct (Z.ltb_spec (last_write (rollbackEdgeKey session) v) (Z.max now (rs_updatedAt session))); lia. Qed.

(** C24. A ratchet that is stored is given back.  When the worker's state is coherent,
    a valid session whose stamp is still a safe integer is stored, whatever the
    clock says and even when it runs backwards: the worker's own row is never
    taken for a rollback or a fork.  Reading it at once gives the session with
    its secrets, under a stamp that is newer than every earlier one. *)
Theorem own_write_reloads session key now recordId iv v : vault_ok v ->
  validateMetadata session = Ok tt -> secret_lengths_ok session = true ->
  isSafeInteger (next_stamp session now v) = true ->
  exists v' v'', fnSetRatchetSession session key now recordId iv true v = (Ok tt, v') /\
    fnGetRatchetSession (rs_roomId session) (rs_peerPublicKey session) key true v' =
      (Some (stamp session (next_stamp session now v)), v'') /\
    last_write (rollbackEdgeKey session) v < next_stamp session now v /\
    last_write (rollbackEdgeKey session) v' = next_stamp session now v.
Proof.
  intros Hok Hv Hl Hu. set (u := next_stamp session now v) in *.
  pose proof (stamp_valid session u Hu (stamp_later session now v) Hv) as Hv'.
  destruct (unwrap_wrapped (stamp session u) key recordId iv Hv' Hl) as (row & Hw & _ & Hun).
  destruct (wrapped_names _ _ _ _ _ Hw) as (Hr & Hp & Ht). cbn in Hr, Hp, Ht.
  assert (rollbackEdgeKey row = rollbackEdgeKey session) as He by (unfold rollbackEdgeKey; by rewrite Hr, Hp).
  destruct (print_total (stamp session u) key (region RATCHET_RECORD_ID_BYTES recordId) iv row) as [print Hprint];
    [by apply blen_region|done|by apply wrap_ok|].
  pose proof (stamp_newer session now v) as Hnew. fold u in Hnew.
  destruct (accept_newer row print (va_guard v)) as [g Hg].
  { intros t p Hm. rewrite He in Hm. pose proof (vo_marks v Hok _ _ _ Hm). lia. }
  pose proof (accept_ok _ _ _ _ _ Hg) as [Hmark _ _].
  rewrite set_unfold. fold u. cbv zeta. rewrite Hu, Hw, guard_unfold, Hprint. cbn [va_guard set_rows]. rewrite Hg.
  do 2 eexists. split; [done|]. cbn. split_and!; [|done|].
  - unfold fnGetRatchetSession. cbn. rewrite Hr, Hp, lookup_insert_eq, Hun, guard_unfold, Hprint. cbn.
    rewrite (accept_same _ _ _ Hmark). done.
  - unfold last_write. cbn. by rewrite lookup_insert_eq.
Qed.
End Worker.
