(* ===== verification/EdgePersist.v ===== *)
(** * Durable edge state ([src/src/handlers/ratchetPersist.ts])

    The write-ahead transactions of one edge (one room and one peer identity):
    [mutateRatchetDurably] and its three callers, [mutatePqDurably] of
    [pqHealingOrchestrator.ts], [persistAndActivateEdgeCrypto] of
    [handleHandshake.ts], and the ownership of the row.

    The connections, ratchets, runtimes and JavaScript [Map]s are objects of a
    store, named by numbers: two names of one [Map] see the same entries, and
    [!==] compares names.  Each asynchronous function is cut at its [await]s
    into segments, methods over the store that run without interruption;
    [EdgeRace] interleaves those of two transactions.

    The row is what [setRatchetSession] stores; the peer's transport id and
    the time stamp of a row are not kept.  Buffers that only a failed
    transaction holds are wiped by it and have no counterpart; the key that
    [rollback] wipes while the cache already holds it has one. *)

From Stdlib Require Import String.
From stdpp Require Import functions.
From S2P Require Import Prelude Bytes Constants Crypto X25519 Ratchet RatchetKeys WireFrames PqMessageKey.
From S2P Require Import Merkle ChunkCrypto RoomPolicy MlKem PqMachine PqRuntime PqCheckpoint.
Local Open Scope Z_scope.
Local Open Scope list_scope.

(** ** The key of an edge *)

Definition persistenceKey (roomId peerPublicKey : string) : string :=
  decimal (Z.of_nat (String.length roomId)) +:+ ":" +:+ roomId
  +:+ decimal (Z.of_nat (String.length peerPublicKey)) +:+ ":" +:+ peerPublicKey.

(** ** The store *)

(** [RatchetSession]: the serialized ratchet and [edgeCryptoState]. *)
Record Row := { row_secrets : RatchetSessionSecrets; row_edge : option bytes }.

(** A connection: whether [epcOwnerTokens] has it, [ratchetState],
    [pqHealingState], [serializeEdgeCryptoState] (the runtime it serializes)
    and [messageKeyCache]. *)
Record Epc := MkEpc {
  ep_token : bool; ep_ratchet : option nat; ep_pq : option nat; ep_hook : option nat;
  ep_cache : option nat }.

(** A runtime and the [Map] that is its [#activeReceiveKeys]; the keys field of
    [ru_state] is not used. *)
Record Runtime := { ru_state : SparsePqHealingState; ru_keys : nat }.

(** [w_owner]: the connection whose token [edgeOwnerTokens] holds. *)
Record World := MkWorld {
  w_epcs : nat -> Epc; w_ratchets : nat -> RatchetState; w_pqs : nat -> Runtime;
  w_maps : nat -> skipped_map; w_next : nat; w_owner : option nat; w_row : option Row }.

Inductive EdgeThrow :=
  | no_live_ratchet | live_changed | stale_owner | stale_reclaim | invalid_staged_cache
  | write_failed | no_live_runtime | activation_refused | rollback_failed
  | RatchetThrow (e : RatchetError)
  | ChunkThrow (e : ChunkError)
  | PqThrow (e : RuntimeThrow).

Abbreviation edge A := (M World EdgeThrow A).

Definition set_epc (c : nat) (e : Epc) (w : World) : World :=
  MkWorld (<[c := e]> (w_epcs w)) (w_ratchets w) (w_pqs w) (w_maps w) (w_next w) (w_owner w) (w_row w).
Definition set_ratchet (h : nat) (s : RatchetState) (w : World) : World :=
  MkWorld (w_epcs w) (<[h := s]> (w_ratchets w)) (w_pqs w) (w_maps w) (w_next w) (w_owner w) (w_row w).
Definition set_runtime (h : nat) (r : Runtime) (w : World) : World :=
  MkWorld (w_epcs w) (w_ratchets w) (<[h := r]> (w_pqs w)) (w_maps w) (w_next w) (w_owner w) (w_row w).
Definition set_map (m : nat) (keys : skipped_map) (w : World) : World :=
  MkWorld (w_epcs w) (w_ratchets w) (w_pqs w) (<[m := keys]> (w_maps w)) (w_next w) (w_owner w) (w_row w).
Definition set_owner (c : nat) (w : World) : World :=
  MkWorld (w_epcs w) (w_ratchets w) (w_pqs w) (w_maps w) (w_next w) (Some c) (w_row w).
Definition set_row (r : option Row) (w : World) : World :=
  MkWorld (w_epcs w) (w_ratchets w) (w_pqs w) (w_maps w) (w_next w) (w_owner w) r.
(** [new]: a name no object has. *)
Definition alloc (w : World) : World :=
  MkWorld (w_epcs w) (w_ratchets w) (w_pqs w) (w_maps w) (S (w_next w)) (w_owner w) (w_row w).

Definition erequire (ok : bool) (e : EdgeThrow) : edge unit := mrequire ok e.
Definition epc_of (c : nat) : edge Epc := fun w => (Ok (w_epcs w c), w).

(** The runtime [h] as the code sees it, its keys in place. *)
Definition runtime_at (w : World) (h : nat) : SparsePqHealingState :=
  set_keys (w_maps w (ru_keys (w_pqs w h))) (ru_state (w_pqs w h)).
(** A call of a method of the runtime [h]. *)
Definition on_runtime {A} (h : nat) (m : rt A) : edge A := fun w =>
  let ru := w_pqs w h in
  let '(r, st) := m (runtime_at w h) in
  (map_err PqThrow r,
   set_map (ru_keys ru) (st_activeReceiveKeys st)
     (set_runtime h {| ru_state := st; ru_keys := ru_keys ru |} w)).
(** A call that only reads. *)
Definition read_runtime {A} (h : nat) (m : rt A) : edge A := fun w =>
  (map_err PqThrow (fst (m (runtime_at w h))), w).

(** ** Ownership *)

Definition owns (w : World) (c : nat) : bool := ep_token (w_epcs w c) && bool_decide (w_owner w = Some c).

Definition claimRatchetPersistence (c : nat) : edge unit :=
  epc ← epc_of c;
  w ← get_this;
  if ep_token epc then erequire (bool_decide (w_owner w = Some c)) stale_reclaim
  else
    modify_this (set_epc c (MkEpc true (ep_ratchet epc) (ep_pq epc) (ep_hook epc) (ep_cache epc)));;
    modify_this (set_owner c).

Definition assertCurrentPersistenceOwner (c : nat) : edge unit :=
  w ← get_this; erequire (owns w c) stale_owner.

(** ** Staged mutations of the ratchet *)

Section Durable.
Context {C : LibCrypto} {HS : Sha512} {B : MlKemBackend}.

Inductive Job :=
  | EncryptJob
  | DecryptJob (frame : bytes) (cache : nat) (merkleRoot entropy : bytes)
  | ForgetJob (cache : nat) (cacheKey : string).

Inductive Value :=
  | Encrypted (messageKey : bytes) (header : RatchetHeader) (pqContext : option PqMessageKeyContext)
  | Decrypted (chunk : DecryptedChunk)
  | Forgotten.

(** [staged.commit] with what [staged.rollback] shares with it: the send counts
    a message; a new receive key enters the [Map] and counts one; a retired key
    leaves the [Map]. *)
Inductive Commit :=
  | commit_send
  | commit_key (cache : nat) (key : string) (mk : bytes) (pq : option nat)
  | commit_forget (cache : nat) (key : string)
  | commit_none.

(** [StagedRatchetMutation] with the candidate; [sg_edge] is
    [stageEdgeCryptoState], the runtime and the staged [Map] it serializes. *)
Record Staged := {
  sg_value : Value; sg_candidate : RatchetState; sg_advanced : bool;
  sg_edge : option (nat * skipped_map); sg_commit : Commit }.

(** [pq ? (epoch) => pq.resolveMessageContext(epoch) : undefined] *)
Definition resolver_of (w : World) (pq : option nat) : option PqMessageKeyContextResolver :=
  (fun h epoch => map_err (fun _ => tt) (fst (resolveMessageContext epoch (runtime_at w h)))) <$> pq.

Definition stage_encrypt (c : nat) (candidate : RatchetState) : edge Staged :=
  '(messageKey, header, candidate) ←
     match ratchetEncrypt candidate with
     | (Ok (messageKey, header), s) => mret (messageKey, header, s)
     | (Err e, _) => mthrow (RatchetThrow e)
     end;
  epc ← epc_of c;
  pqContext ← match ep_pq epc with
              | Some h => context ← read_runtime h currentMessageContext; mret (Some context)
              | None => mret None
              end;
  mret {| sg_value := Encrypted messageKey header pqContext; sg_candidate := candidate;
          sg_advanced := true; sg_edge := None; sg_commit := commit_send |}.

Definition stage_decrypt (c : nat) (frame : bytes) (cacheMap : nat) (merkleRoot entropy : bytes)
    (candidate : RatchetState) : edge Staged :=
  epc ← epc_of c;
  let pq := ep_pq epc in
  parsed ← lift (map_err (fun e => ChunkThrow (ChunkFrameError e)) (parseChunkFrameHeader frame));
  cacheKey ← lift (map_err ChunkThrow
    (messageCacheKey (h_dhPub (pf_header parsed)) (h_N (pf_header parsed))
       ((fun _ => pf_pqEpoch parsed) <$> pq)));
  w ← get_this;
  let cached := w_maps w cacheMap in
  '(chunk, after) ←
     match decryptMessageChunk frame merkleRoot (resolver_of w pq) entropy
             {| ratchet := candidate; cache := cached |} with
     | (Ok chunk, st) => mret (chunk, st)
     | (Err e, _) => mthrow (ChunkThrow e)
     end;
  if negb (stateAdvanced chunk) then
    mret {| sg_value := Decrypted chunk; sg_candidate := candidate; sg_advanced := false;
            sg_edge := None; sg_commit := commit_none |}
  else
    match map_get cacheKey (cache after), map_get cacheKey cached with
    | Some staged, None =>
        match pq with
        | Some h =>
            mret {| sg_value := Decrypted chunk; sg_candidate := ratchet after; sg_advanced := true;
                    sg_edge := Some (h, cache after);
                    sg_commit := commit_key cacheMap cacheKey staged (Some h) |}
        | None =>
            mret {| sg_value := Decrypted chunk;
                    sg_candidate := Ratchet.set_skipped
                      (evict (map_set cacheKey staged (skipped (ratchet after)))) (ratchet after);
                    sg_advanced := true; sg_edge := None;
                    sg_commit := commit_key cacheMap cacheKey staged None |}
        end
    | _, _ => mthrow invalid_staged_cache
    end.

Definition stage_forget (c : nat) (cacheMap : nat) (cacheKey : string) (candidate : RatchetState)
    : edge Staged :=
  epc ← epc_of c;
  w ← get_this;
  match ep_pq epc with
  | Some h =>
      let cached := w_maps w cacheMap in
      match map_get cacheKey cached with
      | None => mret {| sg_value := Forgotten; sg_candidate := candidate; sg_advanced := false;
                        sg_edge := None; sg_commit := commit_none |}
      | Some _ => mret {| sg_value := Forgotten; sg_candidate := candidate; sg_advanced := true;
                          sg_edge := Some (h, map_delete cacheKey cached);
                          sg_commit := commit_forget cacheMap cacheKey |}
      end
  | None =>
      mret {| sg_value := Forgotten;
              sg_candidate := Ratchet.set_skipped (map_delete cacheKey (skipped candidate)) candidate;
              sg_advanced := bool_decide (is_Some (map_get cacheKey (skipped candidate)));
              sg_edge := None; sg_commit := commit_forget cacheMap cacheKey |}
  end.

Definition stage (c : nat) (job : Job) (candidate : RatchetState) : edge Staged :=
  match job with
  | EncryptJob => stage_encrypt c candidate
  | DecryptJob frame cacheMap merkleRoot entropy => stage_decrypt c frame cacheMap merkleRoot entropy candidate
  | ForgetJob cacheMap cacheKey => stage_forget c cacheMap cacheKey candidate
  end.

(** A throw of the count runs [rollback], which wipes the key the cache already
    holds. *)
Definition note_or_wipe (h m : nat) (key : string) (mk : bytes) : edge unit := fun w =>
  match on_runtime h noteApplicationMessage w with
  | (Ok u, w') => (Ok u, w')
  | (Err e, w') => (Err e, set_map m (map_set key (wipe mk) (w_maps w' m)) w')
  end.

(** [staged.commit()] *)
Definition run_commit (c : nat) (k : Commit) : edge unit :=
  match k with
  | commit_send =>
      epc ← epc_of c;
      match ep_pq epc with Some h => on_runtime h noteApplicationMessage | None => mret tt end
  | commit_key m key mk pq =>
      modify_this (fun w => set_map m (map_set key mk (w_maps w m)) w);;
      match pq with Some h => note_or_wipe h m key mk | None => mret tt end
  | commit_forget m key => modify_this (fun w => set_map m (map_delete key (w_maps w m)) w)
  | commit_none => mret tt
  end.

(** What a transaction holds across its [await]s. *)
Record Pending := { pd_live : nat; pd_staged : Staged }.

(** [mutateRatchetDurably] up to the wait for the edge's write lock: either the
    transaction is over, or it has a successor to write. *)
Definition begin_mutation (c : nat) (job : Job) : edge (Value + Pending) :=
  epc ← epc_of c;
  w ← get_this;
  match ep_ratchet epc with
  | None => mthrow no_live_ratchet
  | Some live =>
      staged ← stage c job (cloneRatchet (w_ratchets w live));
      if sg_advanced staged then mret (inr {| pd_live := live; pd_staged := staged |})
      else run_commit c (sg_commit staged);; mret (inl (sg_value staged))
  end.

(** [candidate.pqRuntime.serialize()] *)
Definition serialize_own (h : nat) : edge bytes :=
  w ← get_this; read_runtime h (serialize (w_maps w (ru_keys (w_pqs w h)))).

(** [epc.serializeEdgeCryptoState?.() ?? null] *)
Definition hook_state (c : nat) : edge (option bytes) :=
  epc ← epc_of c;
  match ep_hook epc with
  | None => mret None
  | Some h => b ← serialize_own h; mret (Some b)
  end.

Definition edge_state (c : nat) (staged : option (nat * skipped_map)) : edge (option bytes) :=
  match staged with
  | Some (h, keys) => b ← read_runtime h (serialize keys); mret (Some b)
  | None => hook_state c
  end.

(** Under the write lock, up to [setRatchetSession]: the row to write. *)
Definition write_mutation (c : nat) (p : Pending) : edge Row :=
  assertCurrentPersistenceOwner c;;
  epc ← epc_of c;
  erequire (bool_decide (ep_ratchet epc = Some (pd_live p))) live_changed;;
  b ← edge_state c (sg_edge (pd_staged p));
  mret {| row_secrets := serializeRatchet (sg_candidate (pd_staged p)); row_edge := b |}.

(** After the write lock: adopt the successor and publish. *)
Definition finish_mutation (c : nat) (p : Pending) : edge Value :=
  epc ← epc_of c;
  erequire (bool_decide (ep_ratchet epc = Some (pd_live p))) live_changed;;
  w ← get_this;
  match adoptRatchet (sg_candidate (pd_staged p)) (w_ratchets w (pd_live p)) with
  | (Err e, _) => mthrow (RatchetThrow e)
  | (Ok _, live) =>
      modify_this (set_ratchet (pd_live p) live);;
      run_commit c (sg_commit (pd_staged p));;
      mret (sg_value (pd_staged p))
  end.

(** ** Healing transitions: [mutatePqDurably] *)

Record Outcome := { oc_dispatch : option bytes; oc_persist : bool }.
Record HealPending := {
  hp_live : nat; hp_ratchet : nat; hp_candidate : SparsePqHealingState; hp_dispatch : option bytes }.

(** Up to the [await] of [mutate]: the live objects and the clone. *)
Definition begin_heal (c : nat) : edge (nat * nat * SparsePqHealingState) :=
  epc ← epc_of c;
  match ep_pq epc, ep_ratchet epc with
  | Some live, Some ratchet =>
      candidate ← read_runtime live clone_runtime;
      mret (live, ratchet, candidate)
  | _, _ => mthrow no_live_runtime
  end.

(** [mutate] on the clone: over, with a frame to send again, or with a
    successor to write. *)
Definition mutate_heal (mutate : rt Outcome) (live ratchet : nat) (candidate : SparsePqHealingState)
    : edge (option bytes + HealPending) :=
  match mutate candidate with
  | (Err e, _) => mthrow (PqThrow e)
  | (Ok outcome, next) =>
      if oc_persist outcome then
        mret (inr {| hp_live := live; hp_ratchet := ratchet; hp_candidate := next;
                     hp_dispatch := oc_dispatch outcome |})
      else mret (inl (oc_dispatch outcome))
  end.

(** [persistClaimedRatchetState] up to the write. *)
Definition write_heal (c : nat) (p : HealPending) : edge Row :=
  assertCurrentPersistenceOwner c;;
  b ← lift (map_err PqThrow (fst (serialize (st_activeReceiveKeys (hp_candidate p)) (hp_candidate p))));
  w ← get_this;
  mret {| row_secrets := serializeRatchet (w_ratchets w (hp_ratchet p)); row_edge := Some b |}.

(** The runtime takes over the fields of the clone and its [Map]; the old [Map]
    is wiped and emptied, and the cache of the connection follows. *)
Definition finish_heal (c : nat) (p : HealPending) : edge (option bytes) :=
  epc ← epc_of c;
  erequire (bool_decide (ep_pq epc = Some (hp_live p))) live_changed;;
  w ← get_this;
  match adopt_runtime false (runtime_at w (hp_live p)) (hp_candidate p) with
  | (Err e, _) => mthrow (PqThrow e)
  | (Ok _, (next, _)) =>
      let fresh := w_next w in
      modify_this (set_map (ru_keys (w_pqs w (hp_live p))) []);;
      modify_this alloc;;
      modify_this (set_map fresh (st_activeReceiveKeys next));;
      modify_this (set_runtime (hp_live p) {| ru_state := next; ru_keys := fresh |});;
      modify_this (set_epc c (MkEpc (ep_token epc) (ep_ratchet epc) (ep_pq epc) (ep_hook epc) (Some fresh)));;
      mret (hp_dispatch p)
  end.

(** ** Establishment: [persistAndActivateEdgeCrypto] *)

(** The candidate runtime [pq] is an object of the store before it is installed:
    the hook serializes it. *)
Definition begin_seed (c pq : nat) : edge unit :=
  epc ← epc_of c;
  modify_this (set_epc c (MkEpc (ep_token epc) (ep_ratchet epc) (ep_pq epc) (Some pq) (ep_cache epc))).

Definition write_seed (c : nat) (state : RatchetState) : edge Row :=
  assertCurrentPersistenceOwner c;;
  b ← hook_state c;
  mret {| row_secrets := serializeRatchet state; row_edge := b |}.

(** [assertCurrentPersistenceOwner] and [activate]; [gate] is what
    [beforeInstall] answers.  [ratchet] is the object of the state. *)
Definition activate_seed (c ratchet pq : nat) (state : RatchetState) (gate : bool) : edge unit :=
  assertCurrentPersistenceOwner c;;
  erequire gate activation_refused;;
  epc ← epc_of c;
  modify_this (fun w => match ep_ratchet epc with
                        | Some old => set_ratchet old (wipeRatchet (w_ratchets w old)) w
                        | None => w
                        end);;
  modify_this (set_ratchet ratchet state);;
  modify_this (fun w => match ep_pq epc with
                        | Some old => set_map (ru_keys (w_pqs w old)) []
                            (set_runtime old {| ru_state := destroy_runtime (ru_state (w_pqs w old));
                                                ru_keys := ru_keys (w_pqs w old) |} w)
                        | None => w
                        end);;
  modify_this (fun w => set_epc c (MkEpc (ep_token epc) (Some ratchet) (Some pq) (ep_hook epc)
                                     (Some (ru_keys (w_pqs w pq)))) w).

(** The hook goes when establishment fails. *)
Definition fail_seed (c pq : nat) (w : World) : World :=
  let epc := w_epcs w c in
  if bool_decide (ep_hook epc = Some pq) then
    set_epc c (MkEpc (ep_token epc) (ep_ratchet epc) (ep_pq epc) None (ep_cache epc)) w
  else w.

(** ** Teardown of the edge state in [disconnectFromPeerQuery.ts] *)
Definition teardown (c : nat) (w : World) : World :=
  let epc := w_epcs w c in
  let w := match ep_ratchet epc with
           | Some h => set_ratchet h (wipeRatchet (w_ratchets w h)) w | None => w end in
  let w := match ep_pq epc with
           | Some h => set_map (ru_keys (w_pqs w h)) []
               (set_runtime h {| ru_state := destroy_runtime (ru_state (w_pqs w h));
                                 ru_keys := ru_keys (w_pqs w h) |} w)
           | None => w end in
  let w := match ep_cache epc with Some m => set_map m [] w | None => w end in
  set_epc c (MkEpc (ep_token epc) None None None None) w.

(** ** The database *)

(** [setRatchetSession]: stored; rejected with nothing stored; or stored and
    rejected, when the worker fails after [db.put]. *)
Inductive WriteOutcome := stored | rejected | stored_then_rejected.

Definition db_write (row : Row) (o : WriteOutcome) : edge unit :=
  match o with
  | stored => modify_this (set_row (Some row))
  | rejected => mthrow write_failed
  | stored_then_rejected => modify_this (set_row (Some row));; mthrow write_failed
  end.
(** [deleteRatchetSession]: the row is deleted, or the call rejects. *)
Definition db_delete (ok : bool) : edge unit :=
  if ok then modify_this (set_row None) else mthrow rollback_failed.

(** ** Whole transactions, run without interleaving *)

Definition persistRow (row : edge Row) (o : WriteOutcome) (c : nat) : edge unit :=
  r ← row; db_write r o;; assertCurrentPersistenceOwner c.

Definition mutateRatchetDurably (c : nat) (job : Job) (o : WriteOutcome) : edge Value :=
  begun ← begin_mutation c job;
  match begun with
  | inl value => mret value
  | inr p => persistRow (write_mutation c p) o c;; finish_mutation c p
  end.

Definition mutatePqDurably (c : nat) (mutate : rt Outcome) (o : WriteOutcome) : edge (option bytes) :=
  '(live, ratchet, candidate) ← begin_heal c;
  mutated ← mutate_heal mutate live ratchet candidate;
  match mutated with
  | inl dispatch => mret dispatch
  | inr p => persistRow (write_heal c p) o c;; finish_heal c p
  end.

(** [persistRatchetSession] *)
Definition persistRatchetSession (c : nat) (o : WriteOutcome) : edge unit :=
  epc ← epc_of c;
  match ep_ratchet epc with
  | None => mret tt
  | Some h =>
      persistRow (assertCurrentPersistenceOwner c;;
                  w ← get_this;
                  b ← hook_state c;
                  mret {| row_secrets := serializeRatchet (w_ratchets w h); row_edge := b |}) o c
  end.
End Durable.

(** ** Inversion *)

Lemma epc_of_ok c w e w' : epc_of c w = (Ok e, w') -> e = w_epcs w c /\ w' = w.
Proof. unfold epc_of. by intros [= <- <-]. Qed.
Lemma owner_ok c w u w' : assertCurrentPersistenceOwner c w = (Ok u, w') -> owns w c = true /\ w' = w.
Proof.
  unfold assertCurrentPersistenceOwner, mbind, M_bind, get_this, erequire. apply mrequire_ok.
Qed.
Lemma read_runtime_ok {A} h (x : rt A) w a w' : read_runtime h x w = (Ok a, w') ->
  w' = w /\ exists st, x (runtime_at w h) = (Ok a, st).
Proof.
  unfold read_runtime. destruct (x (runtime_at w h)) as [[b|e] st]; cbn; intros H; [|done].
  injection H as -> <-. eauto.
Qed.

(** From here on, [mbinds] understands the reads of the store too. *)
Ltac mbind_hook E ::=
  lazymatch type of E with
  | mrequire _ _ _ = _ => apply mrequire_ok in E as [E ->]
  | erequire _ _ _ = _ => apply mrequire_ok in E as [E ->]
  | epc_of _ _ = _ => apply epc_of_ok in E as [-> ->]
  | assertCurrentPersistenceOwner _ _ = _ => apply owner_ok in E as [E ->]
  | read_runtime _ _ _ = _ => let st := fresh "st" in apply read_runtime_ok in E as [-> [st E]]
  | rcheck _ _ _ = _ => apply rcheck_ok in E as [E ->]
  | assertLive _ = _ => apply assertLive_ok in E as [E ->]
  | on_machine _ _ = _ => let m := fresh "m" in apply on_machine_ok in E as (m & E & ->)
  | _ => idtac
  end.
