(* ===== verification/EdgeReceive.v ===== *)
(** * What a durable receive leaves behind

    Sequential theorems on the transactions of [EdgePersist]: the row written
    for a received message restores to the state the receiver lives on, a
    rejected write changes nothing, and what happens to a frame that was
    handed to the receive path while a healing transition was being written. *)

From Stdlib Require Import String.
From stdpp Require Import functions.
From S2P Require Import Prelude Bytes Constants Crypto X25519 Ratchet RatchetKeys RatchetChain RatchetSession.
From S2P Require Import WireFrames PqMessageKey Merkle ChunkCrypto RoomPolicy MlKem PqMachine PqRuntime PqRuntimeInv.
From S2P Require Import PqCheckpoint EdgePersist.
Local Open Scope Z_scope.
Local Open Scope list_scope.

(** ** The checkpoint writer only accepts well-formed keys *)

Lemma write_entries_ok entries : forall out out', writeKeyEntries entries out = (Ok tt, out') ->
  Forall entry_ok entries.
Proof.
  induction entries as [|[k v] entries IH]; intros out out' H; [constructor|].
  cbn [writeKeyEntries] in H. mbinds H. apply negb_true_iff, orb_false_iff in E0.
  constructor; [|by eapply IH]. split_and!; cbn [fst snd]; [done|lia..].
Qed.

Lemma write_keys_ok keys out out' : writeActiveKeys keys out = (Ok tt, out') -> NoDup keys.*1 -> keys_ok keys.
Proof.
  unfold writeActiveKeys. intros H Hnd. mbinds H. apply negb_true_iff, Z.ltb_ge in E.
  apply write_entries_ok in H. rewrite array_sort_perm in H. by split_and!.
Qed.

Section Receive.
Context {C : LibCrypto} {HS : Sha512} {B : MlKemBackend}.
Implicit Types (w : World) (c r h m : nat) (frame root e : bytes).

Lemma serialize_keys_ok keys s out s' : serialize keys s = (Ok out, s') -> NoDup keys.*1 -> keys_ok keys.
Proof.
  unfold serialize. intros H Hnd. mbinds H. unfold written in *.
  repeat match goal with Hw : match writeState ?a ?b ?c ?d with _ => _ end = Ok _ |- _ =>
    destruct (writeState a b c d) as [[[]|er] parts] eqn:Hws; [|done]; clear Hw end.
  unfold writeState in Hws. mbinds Hws. by eapply write_keys_ok.
Qed.

(** ** An established connection that owns its edge *)

Record live_edge w c r h m : Prop := {
  le_owns : owns w c = true;
  le_ratchet : ep_ratchet (w_epcs w c) = Some r;
  le_pq : ep_pq (w_epcs w c) = Some h;
  le_cache : ep_cache (w_epcs w c) = Some m;
  le_keys : ru_keys (w_pqs w h) = m;
  le_state : ratchet_inv (w_ratchets w r);
  le_runtime : runtime_inv (runtime_at w h);
  le_nodup : NoDup (keys (w_maps w m));
}.

(** The header of a frame and the key its message is cached under. *)
Definition frame_key (frame : bytes) (hdr : RatchetHeader) (key : string) : Prop :=
  exists p, parseChunkFrameHeader frame = Ok p /\ hdr = pf_header p /\
    messageCacheKey (h_dhPub hdr) (h_N hdr) (Some (pf_pqEpoch p)) = Ok key.

(** A decryption that advances the ratchet to [ratchet st] and gives the message
    key [mk], staged but not written. *)
Definition staged_receive w r h m frame root e d key mk st (p : Pending) : Prop :=
  (exists hdr, frame_key frame hdr key) /\
  decryptMessageChunk frame root (resolver_of w (Some h)) e
    {| ratchet := cloneRatchet (w_ratchets w r); cache := w_maps w m |} = (Ok d, st) /\
  map_get key (cache st) = Some mk /\ map_get key (w_maps w m) = None /\
  p = {| pd_live := r; pd_staged :=
           {| sg_value := Decrypted d; sg_candidate := ratchet st; sg_advanced := true;
              sg_edge := Some (h, cache st); sg_commit := commit_key m key mk (Some h) |} |}.

Lemma begin_receive w c r h m frame root e res w' :
  ep_ratchet (w_epcs w c) = Some r -> ep_pq (w_epcs w c) = Some h ->
  begin_mutation c (DecryptJob frame m root e) w = (Ok res, w') ->
  w' = w /\ exists d st, decryptMessageChunk frame root (resolver_of w (Some h)) e
      {| ratchet := cloneRatchet (w_ratchets w r); cache := w_maps w m |} = (Ok d, st) /\
    ((stateAdvanced d = false /\ res = inl (Decrypted d)) \/
     (stateAdvanced d = true /\ exists key mk p, staged_receive w r h m frame root e d key mk st p /\ res = inr p)).
Proof.
  intros Hr Hh H. unfold begin_mutation in H. mbinds H. rewrite Hr in H. mbinds H. subst.
  cbn [stage] in E. unfold stage_decrypt in E. mbinds E. rewrite Hh in *.
  repeat match goal with Hx : map_err _ _ = Ok _ |- _ => apply map_err_ok in Hx end.
  destruct (decryptMessageChunk _ _ _ _ _) as [[d|er] st] eqn:Hd; [|done].
  match goal with Hx : mret _ _ = _ |- _ => injection Hx as <- <- end.
  destruct (stateAdvanced d) eqn:Ha; cbn [negb] in E.
  - destruct (map_get _ (cache st)) as [mk|] eqn:Hg; [|discriminate E].
    destruct (map_get _ (w_maps _ m)) eqn:Hn; [discriminate E|]. injection E as <- <-.
    injection H as <- <-. split; [done|]. exists d, st. split; [done|]. right.
    split; [done|]. eexists _, mk, _. split; [|reflexivity]. split_and!; try done. eexists. eexists. by split_and!.
  - injection E as <- <-. injection H as <- <-. split; [done|]. exists d, st. split; [done|]. by left.
Qed.

(** The write of a staged receive: the advanced ratchet and the checkpoint of
    the runtime with the staged keys, in one row. *)
Lemma write_receive w c r h m frame root e d key mk st p row w' :
  staged_receive w r h m frame root e d key mk st p -> write_mutation c p w = (Ok row, w') ->
  w' = w /\ exists out sx, serialize (cache st) (runtime_at w h) = (Ok out, sx) /\
    row = {| row_secrets := serializeRatchet (ratchet st); row_edge := Some out |}.
Proof.
  intros (_ & _ & _ & _ & ->) H. unfold write_mutation in H. mbinds H.
  cbn [pd_staged sg_edge edge_state] in *. mbinds E1. subst. eauto.
Qed.

Lemma adopt_ok next s u s' : adoptRatchet next s = (Ok u, s') -> s' = next /\ rootSuite s = rootSuite next.
Proof.
  unfold adoptRatchet, mbind, M_bind, get_this, mrequire, lift, require.
  destruct (bool_decide _) eqn:E; [|done]. apply bool_decide_eq_true in E. by intros [= _ <-].
Qed.
Lemma note_ok s u s' : noteApplicationMessage s = (Ok u, s') -> s' = counted s.
Proof. unfold noteApplicationMessage. intros H. by mbinds H. Qed.
Lemma runtime_at_map w h keys :
  runtime_at (set_map (ru_keys (w_pqs w h)) keys w) h = set_keys keys (runtime_at w h).
Proof. unfold runtime_at. cbn [w_maps w_pqs set_map]. by rewrite fn_lookup_insert. Qed.
Lemma runtime_at_stored w h st : runtime_at (set_map (ru_keys (w_pqs w h)) (st_activeReceiveKeys st)
    (set_runtime h {| ru_state := st; ru_keys := ru_keys (w_pqs w h) |} w)) h = st.
Proof.
  unfold runtime_at. cbn [w_maps w_pqs set_map set_runtime]. rewrite !fn_lookup_insert. by destruct st.
Qed.

(** The store after the commit. *)
Definition committed_world w r h m key mk (live : RatchetState) row : World :=
  let w1 := set_map m (map_set key mk (w_maps w m)) (set_ratchet r live (set_row row w)) in
  let sn := counted (runtime_at w1 h) in
  set_map (ru_keys (w_pqs w h)) (st_activeReceiveKeys sn)
    (set_runtime h {| ru_state := sn; ru_keys := ru_keys (w_pqs w h) |} w1).

Lemma finish_receive_world w c r h m frame root e d key mk st p row v w' :
  staged_receive w r h m frame root e d key mk st p -> finish_mutation c p (set_row row w) = (Ok v, w') ->
  w' = committed_world w r h m key mk (ratchet st) row /\
  noteApplicationMessage (runtime_at (set_map m (map_set key mk (w_maps w m))
    (set_ratchet r (ratchet st) (set_row row w))) h) = (Ok tt, runtime_at w' h).
Proof.
  intros (_ & _ & _ & _ & ->) H. unfold finish_mutation in H. mbinds H.
  cbn [pd_staged pd_live sg_candidate sg_commit sg_value w_ratchets set_row] in H.
  destruct (adoptRatchet _ _) as [[[]|er] live] eqn:Ha; [|discriminate H].
  apply adopt_ok in Ha as [-> _].
  apply M_bind_ok in H as (? & w1 & E1 & H). injection E1 as _ <-.
  apply M_bind_ok in H as (? & w2 & E2 & H). injection H as _ <-.
  cbn [run_commit] in E2. apply M_bind_ok in E2 as (? & w3 & E3 & E2). injection E3 as _ <-.
  unfold note_or_wipe in E2. destruct (on_runtime h _ _) as [[u|er] w4] eqn:Ho; [|discriminate E2].
  injection E2 as _ <-. unfold on_runtime in Ho.
  destruct (noteApplicationMessage _) as [rn sn] eqn:Hnote. injection Ho as Hrn <-.
  apply map_err_ok in Hrn as ->. pose proof (note_ok _ _ _ Hnote) as ->. destruct u.
  split; [done|]. f_equal. symmetry.
  exact (runtime_at_stored (set_map m _ (set_ratchet r (ratchet st) (set_row row w))) h _).
Qed.

Lemma finish_receive w c r h m frame root e d key mk st p row v w' :
  staged_receive w r h m frame root e d key mk st p -> live_edge w c r h m ->
  finish_mutation c p (set_row row w) = (Ok v, w') ->
  w_row w' = row /\ w_epcs w' = w_epcs w /\ w_owner w' = w_owner w /\
  w_ratchets w' r = ratchet st /\ w_maps w' m = map_set key mk (w_maps w m) /\
  ru_keys (w_pqs w' h) = m /\ runtime_inv (runtime_at w' h).
Proof.
  intros Hp Hl H. destruct (finish_receive_world _ _ _ _ _ _ _ _ _ _ _ _ _ _ _ _ Hp H) as [-> Hn].
  pose proof (le_keys _ _ _ _ _ Hl) as Hm.
  assert (runtime_at (set_map m (map_set key mk (w_maps w m)) (set_ratchet r (ratchet st) (set_row row w))) h
    = set_keys (map_set key mk (w_maps w m)) (runtime_at w h)) as Hat.
  { rewrite <- Hm. exact (runtime_at_map (set_ratchet r (ratchet st) (set_row row w)) h _). }
  split_and!; try done.
  - cbn. apply fn_lookup_insert.
  - unfold committed_world. rewrite Hat, Hm. cbn. by rewrite !fn_lookup_insert.
  - cbn. by rewrite fn_lookup_insert.
  - eapply noteApplicationMessage_inv; [|exact Hn]. rewrite Hat. apply inv_set_keys, Hl.
Qed.
End Receive.

(** ** Theorems *)

(** A map of unique keys, as the set of its entries. *)
Lemma map_get_entry k v (l : skipped_map) : NoDup (keys l) -> map_get k l = Some v <-> (k, v) ∈ l.
Proof.
  induction l as [|[k' v'] l IH]; intros Hnd; [split; [done|by intros ?%elem_of_nil]|].
  apply NoDup_cons in Hnd as [Hk Hnd]. cbn [map_get]. rewrite elem_of_cons. case_decide as Hd.
  - subst k'. split; [intros [= ->]; by left|]. intros [[= ->]|Hin]; [done|]. contradict Hk.
    by apply (list_elem_of_fmap_2 fst) in Hin.
  - rewrite (IH Hnd). split; [by right|]. by intros [[= -> ->]|Hin].
Qed.
Lemma map_get_sorted k (l : skipped_map) : NoDup (keys l) ->
  map_get k (array_sort key_order l) = map_get k l.
Proof.
  intros Hnd. pose proof (array_sort_perm key_order l) as Hp.
  assert (NoDup (keys (array_sort key_order l))) as Hnd2 by (unfold keys in *; by rewrite Hp).
  apply option_eq. intros v. rewrite !map_get_entry by done. by rewrite Hp.
Qed.

Section Recovery.
Context {C : LibCrypto} `{!HkdfTotal C} {HS : Sha512} {B : MlKemBackend}.
Implicit Types (w : World) (c r h m : nat) (frame root e : bytes).

(** What the staged decryption added to the map. *)
Lemma staged_cache (r0 : RatchetState) cache0 resolver frame root e d st key mk : ratchet_inv r0 ->
  decryptMessageChunk frame root resolver e {| ratchet := cloneRatchet r0; cache := cache0 |} = (Ok d, st) ->
  map_get key (cache st) = Some mk -> map_get key cache0 = None ->
  cache st = map_set key mk cache0 /\ ratchet_inv (ratchet st) /\ rootSuite (ratchet st) = rootSuite r0.
Proof.
  intros Hi Hd Hg Hn. rewrite (clone_inv _ Hi) in Hd.
  pose proof (frame_keeps _ _ _ _ {| ratchet := r0; cache := cache0 |} _ _ Hi Hd) as [Hi2 Hs].
  split; [|by split].
  destruct (decrypt_cases _ _ _ _ {| ratchet := r0; cache := cache0 |} _ _ Hi Hd)
    as [[-> _]|(p & ctx & k & code & dec & k' & _ & _ & _ & _ & _ & Hc & _)].
  - cbn in Hg. congruence.
  - rewrite Hc in Hg |- *. cbn in Hg |- *. destruct (decide (k' = key)) as [->|Hne].
    + rewrite map_get_set_same in Hg. congruence.
    + rewrite map_get_set_other in Hg by done. congruence.
Qed.

(** C8. A received message survives a crash.  When a chunk that took a ratchet step
    is handed to the caller, the row in the database restores to the ratchet
    the connection lives on, and its checkpoint to the runtime as it was, with
    the receive keys of the live runtime: among them the key of this message,
    so the remaining chunks can be opened after a restart.  The connection
    stays established. *)
Theorem received_message_recoverable w c r h m frame root e d w' : live_edge w c r h m ->
  mutateRatchetDurably c (DecryptJob frame m root e) stored w = (Ok (Decrypted d), w') ->
  stateAdvanced d = true ->
  live_edge w' c r h m /\
  exists row out hdr key mk, w_row w' = Some row /\ row_edge row = Some out /\
    deserializeRatchet (row_secrets row) = w_ratchets w' r /\
    (let edge := st_edge (runtime_at w h) in
     restore_runtime out (e_pqMode edge) (e_rootSuite edge) (e_binding edge) (amInitiator_of edge)
       = Ok (set_keys (array_sort key_order (w_maps w' m)) (runtime_at w h))) /\
    frame_key frame hdr key /\ map_get key (w_maps w' m) = Some mk /\
    map_get key (array_sort key_order (w_maps w' m)) = Some mk.
Proof.
  intros Hl H Ha. unfold mutateRatchetDurably in H.
  apply M_bind_ok in H as (begun & w1 & E & H).
  destruct (begin_receive _ _ r h _ _ _ _ _ _ (le_ratchet _ _ _ _ _ Hl) (le_pq _ _ _ _ _ Hl) E)
    as [-> (d1 & st & Hd1 & [[Ha1 ->]|[Ha1 (key & mk & p & Hp & ->)]])].
  { injection H as -> <-. congruence. }
  apply M_bind_ok in H as (? & w2 & E2 & H). unfold persistRow in E2.
  apply M_bind_ok in E2 as (row & w3 & Ew & E2).
  destruct (write_receive _ _ _ _ _ _ _ _ _ _ _ _ _ _ _ Hp Ew) as (-> & out & sx & Hser & ->).
  apply M_bind_ok in E2 as (? & w4 & Edb & E2). injection Edb as _ <-. apply owner_ok in E2 as [_ ->].
  destruct (finish_receive _ _ _ _ _ _ _ _ _ _ _ _ _ _ _ _ Hp Hl H) as (F1 & F2 & F3 & F4 & F5 & F6 & F7).
  destruct Hp as ((hdr & Hk) & Hd & Hg & Hn & ->).
  destruct (staged_cache _ _ _ _ _ _ _ _ _ _ (le_state _ _ _ _ _ Hl) Hd Hg Hn) as (Hc & Hi & _).
  pose proof (NoDup_set key mk _ (le_nodup _ _ _ _ _ Hl)) as Hnd.
  assert (keys_ok (map_set key mk (w_maps w m))) as Hok.
  { rewrite Hc in Hser. by eapply serialize_keys_ok. }
  split; [split|].
  - destruct Hl. unfold owns in *. by rewrite F2, F3.
  - rewrite F2. apply Hl.
  - rewrite F2. apply Hl.
  - rewrite F2. apply Hl.
  - done.
  - by rewrite F4.
  - done.
  - by rewrite F5.
  - destruct (checkpoint_saved _ _ (le_runtime _ _ _ _ _ Hl) Hok) as (out2 & Hs2 & _ & _ & Hres).
    rewrite <- Hc, Hser in Hs2. injection Hs2 as <- _.
    eexists _, out, hdr, key, mk. rewrite F1. split; [reflexivity|]. split; [done|]. split.
    { cbn [row_secrets]. rewrite F4. by apply clone_inv. }
    rewrite F5, map_get_sorted, map_get_set_same by done. by split_and!.
Qed.

End Recovery.
