(* ===== verification/EdgeRace.v ===== *)
(** * A chunk received while a healing transition is written

    [handleReceiveMessage] reads [epc.messageKeyCache] before it waits for the
    edge's mutation lock; [mutatePqDurably] replaces that [Map] when it adopts.
    A frame that arrives while the transition holds the lock is therefore
    decrypted against the [Map] that the adoption emptied. *)

From Stdlib Require Import String.
From stdpp Require Import functions.
From S2P Require Import Prelude Bytes Constants Crypto X25519 Ratchet RatchetKeys RatchetChain RatchetSession.
From S2P Require Import WireFrames PqMessageKey Merkle ChunkCrypto RoomPolicy MlKem PqMachine PqRuntime PqRuntimeInv.
From S2P Require Import PqCheckpoint EdgePersist EdgeReceive.
Local Open Scope Z_scope.
Local Open Scope list_scope.

(** Chunks of one message: one ratchet header, one epoch. *)
Definition same_message (p p2 : ParsedChunkFrame) : Prop :=
  h_dhPub (pf_header p2) = h_dhPub (pf_header p) /\ h_N (pf_header p2) = h_N (pf_header p) /\
  pf_pqEpoch p2 = pf_pqEpoch p.

Section Race.
Context {C : LibCrypto} `{!HkdfTotal C} {HS : Sha512} {B : MlKemBackend}.
Implicit Types (w : World) (c r h m : nat) (frame root e : bytes).

(** ** What an adoption does to the [Map] *)

Lemma finish_heal_ok w c p x w' : finish_heal c p w = (Ok x, w') ->
  exists next, fst (snd (adopt_runtime false (runtime_at w (hp_live p)) (hp_candidate p))) = next /\
    st_activeReceiveKeys next = st_activeReceiveKeys (hp_candidate p) /\
    ep_pq (w_epcs w c) = Some (hp_live p) /\ x = hp_dispatch p /\
    w' = set_epc c (MkEpc (ep_token (w_epcs w c)) (ep_ratchet (w_epcs w c)) (ep_pq (w_epcs w c))
                      (ep_hook (w_epcs w c)) (Some (w_next w)))
           (set_runtime (hp_live p) {| ru_state := next; ru_keys := w_next w |}
             (set_map (w_next w) (st_activeReceiveKeys next)
               (alloc (set_map (ru_keys (w_pqs w (hp_live p))) [] w)))).
Proof.
  unfold finish_heal. intros H.
  apply M_bind_ok in H as (epc & w1 & E & H). apply epc_of_ok in E as [-> ->].
  apply M_bind_ok in H as ([] & w1 & E & H). apply mrequire_ok in E as [E ->].
  apply bool_decide_eq_true in E.
  apply M_bind_ok in H as (w1 & w2 & E2 & H). injection E2 as <- <-.
  destruct (adopt_runtime _ _ _) as [[[]|er] [next other]] eqn:Ha; [|discriminate H].
  exists next. cbn [fst snd]. split; [done|]. split.
  { unfold adopt_runtime in Ha.
    match type of Ha with match ?chk with _ => _ end = _ => destruct chk as [[]|] end; [|discriminate Ha].
    injection Ha as <- _. done. }
  injection H as <- <-. split; [exact E|]. by split.
Qed.

(** The edge after the adoption: established on a [Map] other than [m]. *)
Record healed_edge w1 c r h m keys0 : Prop := {
  he_ratchet : ep_ratchet (w_epcs w1 c) = Some r;
  he_pq : ep_pq (w_epcs w1 c) = Some h;
  he_cache : ep_cache (w_epcs w1 c) = Some (ru_keys (w_pqs w1 h));
  he_apart : ru_keys (w_pqs w1 h) <> m;
  he_keys : w_maps w1 (ru_keys (w_pqs w1 h)) = keys0;
}.

Lemma heal_leaves w c r h m p x w1 : live_edge w c r h m -> (m < w_next w)%nat ->
  finish_heal c p w = (Ok x, w1) ->
  healed_edge w1 c r h m (st_activeReceiveKeys (hp_candidate p)) /\ w_maps w1 m = [] /\
  w_ratchets w1 = w_ratchets w.
Proof.
  intros Hl Hm H. destruct (finish_heal_ok _ _ _ _ _ H) as (next & _ & Hk & Hpq & _ & ->).
  rewrite (le_pq _ _ _ _ _ Hl) in Hpq. injection Hpq as Hh. symmetry in Hh. rewrite Hh.
  rewrite (le_keys _ _ _ _ _ Hl). split_and!; [split|..]; cbn [w_epcs w_pqs w_maps set_epc set_runtime set_map alloc ru_keys];
    rewrite ?fn_lookup_insert; cbn [ru_keys ep_ratchet ep_pq ep_cache]; rewrite ?fn_lookup_insert.
  - apply Hl.
  - apply Hl.
  - done.
  - lia.
  - done.
  - rewrite fn_lookup_insert_ne by lia. apply fn_lookup_insert.
  - done.
Qed.

(** ** The frame that waited *)

(** Nothing but the new key is in the staged [Map], and the new key goes into
    the dead [Map]. *)
Lemma receive_on_dead_map w1 c r h m keys0 frame root e d w2 :
  healed_edge w1 c r h m keys0 -> w_maps w1 m = [] -> ratchet_inv (w_ratchets w1 r) ->
  mutateRatchetDurably c (DecryptJob frame m root e) stored w1 = (Ok (Decrypted d), w2) ->
  stateAdvanced d = true ->
  exists key mk st row out sx,
    (exists hdr, frame_key frame hdr key) /\
    decryptMessageChunk frame root (resolver_of w1 (Some h)) e
      {| ratchet := w_ratchets w1 r; cache := [] |} = (Ok d, st) /\
    cache st = [(key, mk)] /\ w_ratchets w2 r = ratchet st /\ w_row w2 = Some row /\
    row_edge row = Some out /\ serialize [(key, mk)] (runtime_at w1 h) = (Ok out, sx) /\
    healed_edge w2 c r h m keys0.
Proof.
  intros Hh Hm Hi H Ha. unfold mutateRatchetDurably in H.
  apply M_bind_ok in H as (begun & w1' & E & H).
  destruct (begin_receive _ _ r h _ _ _ _ _ _ (he_ratchet _ _ _ _ _ _ Hh) (he_pq _ _ _ _ _ _ Hh) E)
    as [-> (d1 & st & Hd1 & [[Ha1 ->]|[Ha1 (key & mk & p & Hp & ->)]])].
  { injection H as -> <-. congruence. }
  apply M_bind_ok in H as (? & w3 & E2 & H). unfold persistRow in E2.
  apply M_bind_ok in E2 as (row & w4 & Ew & E2).
  destruct (write_receive _ _ _ _ _ _ _ _ _ _ _ _ _ _ _ Hp Ew) as (-> & out & sx & Hser & ->).
  apply M_bind_ok in E2 as (? & w5 & Edb & E2). injection Edb as _ <-. apply owner_ok in E2 as [_ ->].
  pose proof (finish_receive_world _ _ _ _ _ _ _ _ _ _ _ _ _ _ _ _ Hp H) as [Hw2 _].
  destruct Hp as (Hk & Hd & Hg & Hn & Hpd). idtac.
  assert (d1 = d) as ->.
  { subst p. unfold finish_mutation in H. mbinds H. cbn [pd_staged sg_value pd_live] in H.
    destruct (adoptRatchet _ _) as [[[]|] ?]; [|discriminate H]. mbinds H. congruence. }
  destruct (staged_cache _ _ _ _ _ _ _ _ _ _ Hi Hd1 Hg Hn) as (Hc & _ & _).
  rewrite (clone_inv _ Hi), Hm in Hd1. rewrite Hm in Hc. cbn [map_set] in Hc. rewrite Hc in Hser.
  exists key, mk, st, {| row_secrets := serializeRatchet (ratchet st); row_edge := Some out |}, out, sx.
  split_and!; try done.
  - rewrite Hw2. cbn. apply fn_lookup_insert.
  - rewrite Hw2. reflexivity.
  - rewrite Hw2. destruct Hh as [H1 H2 H3 H4 H5].
    split; unfold committed_world; cbn [w_epcs w_pqs w_maps set_map set_runtime set_ratchet set_row];
      rewrite ?fn_lookup_insert; cbn [ru_keys]; try done.
    unfold runtime_at. cbn [w_maps w_pqs set_map set_ratchet set_row].
    rewrite fn_lookup_insert_ne by done. destruct (w_pqs w1 h) as [[] ?]. exact H5.
Qed.

(** ** Later frames of the message *)

Lemma parsed_counters frame p : parseChunkFrameHeader frame = Ok p ->
  0 <= h_N (pf_header p) /\ 0 <= h_PN (pf_header p).
Proof. intros ((_ & _ & HN & HP & _) & _)%parseChunk_iff. lia. Qed.

(** A message that is used up, with no key for it at hand. *)
Lemma used_up_dropped resolver ck pub (r0 : RatchetState) cached frame root e key p d st :
  ratchet_inv r0 -> receiving_from ck pub r0 ->
  parseChunkFrameHeader frame = Ok p -> h_dhPub (pf_header p) = pub -> consumed pub (h_N (pf_header p)) r0 ->
  messageCacheKey (h_dhPub (pf_header p)) (h_N (pf_header p)) (cache_epoch resolver (pf_pqEpoch p)) = Ok key ->
  map_get key cached = None ->
  decryptMessageChunk frame root resolver e {| ratchet := r0; cache := cached |} = (Ok d, st) -> d = dropped.
Proof.
  intros Hi Hr Hp Hpub Hc Hk Hn H. destruct (parsed_counters _ _ Hp) as [HN HP].
  cbv beta iota zeta delta [decryptMessageChunk mrequire require lift get_this set_this
    mret M_ret mbind M_bind map_err] in H.
  destruct (blen root =? _); [|discriminate H]. rewrite Hp in H. cbn [result_bind] in H.
  destruct (resolve_context _ _ _) as [ctx|]; [|by injection H as <- _].
  unfold cache_epoch in Hk. rewrite Hk in H. cbn [cache ratchet] in H. rewrite Hn, (clone_inv _ Hi) in H.
  unfold derive_on_clone in H.
  replace (pf_header p) with (current_header pub (h_N (pf_header p)) (h_PN (pf_header p))) in H
    by (subst pub; by destruct (pf_header p)).
  pose proof (decrypt_outcome ck pub r0 _ _ e Hr HN HP) as Ho.
  destruct (ratchetDecrypt _ _ _) as [[mk|er] s1]; [|by injection H as <- _].
  destruct Hc as [Hc1 Hc2]. inversion Ho as [? ? ? [Hs|Hs]| |]; subst; [congruence|lia].
Qed.

Lemma first_chunk_consumes resolver ck pub (r0 : RatchetState) cached frame root e p d st :
  ratchet_inv r0 -> receiving_from ck pub r0 ->
  parseChunkFrameHeader frame = Ok p -> h_dhPub (pf_header p) = pub ->
  decryptMessageChunk frame root resolver e {| ratchet := r0; cache := cached |} = (Ok d, st) -> stateAdvanced d = true ->
  ratchet_inv (ratchet st) /\ receiving_from ck pub (ratchet st) /\ consumed pub (h_N (pf_header p)) (ratchet st).
Proof.
  intros Hi Hr Hp Hpub H Ha. destruct (parsed_counters _ _ Hp) as [HN HP].
  pose proof (frame_keeps _ _ _ _ {| ratchet := r0; cache := cached |} _ _ Hi H) as [Hi2 _].
  destruct (decrypt_cases _ _ _ _ {| ratchet := r0; cache := cached |} _ _ Hi H)
    as [[_ Hd]|(p' & ctx & k & code & dec & k' & Hp' & _ & Hd & _)]; [by rewrite (Hd d) in Ha|].
  rewrite Hp in Hp'. injection Hp' as <-. cbn [ratchet] in Hd. unfold derive_on_clone in Hd.
  replace (pf_header p) with (current_header pub (h_N (pf_header p)) (h_PN (pf_header p))) in Hd
    by (subst pub; by destruct (pf_header p)).
  pose proof (decrypt_outcome ck pub r0 _ _ e Hr HN HP) as Ho.
  destruct (ratchetDecrypt _ _ _) as [[mk|er] s1]; [|discriminate Hd]. injection Hd as _ ->.
  inversion Ho; subst; by split_and!.
Qed.

(** C9. A frame that waited for a healing transition loses the key of its message.
    The frame was handed to the receive path while the transition held the
    mutation lock, so its job carries the old [Map].  It decrypts and takes its
    ratchet step; but its key goes into the [Map] that the adoption emptied.
    The connection's cache and the live runtime do not have the key, the
    checkpoint in the row has no other key, and every later frame of the
    message, decrypted as the receive path does with the connection's cache,
    is dropped: the message cannot complete. *)
Theorem late_frame_key_lost w c r h m p x w1 frame root e d w2 pf ck :
  live_edge w c r h m -> (m < w_next w)%nat -> finish_heal c p w = (Ok x, w1) ->
  parseChunkFrameHeader frame = Ok pf -> receiving_from ck (h_dhPub (pf_header pf)) (w_ratchets w r) ->
  (forall key, frame_key frame (pf_header pf) key -> map_get key (st_activeReceiveKeys (hp_candidate p)) = None) ->
  mutateRatchetDurably c (DecryptJob frame m root e) stored w1 = (Ok (Decrypted d), w2) ->
  stateAdvanced d = true ->
  exists m2 key mk row out sx,
    ep_cache (w_epcs w2 c) = Some m2 /\ frame_key frame (pf_header pf) key /\
    map_get key (w_maps w2 m2) = None /\ ru_keys (w_pqs w2 h) = m2 /\
    w_row w2 = Some row /\ row_edge row = Some out /\
    serialize [(key, mk)] (runtime_at w1 h) = (Ok out, sx) /\
    forall frame2 pf2 root2 e2 o d2 w3, parseChunkFrameHeader frame2 = Ok pf2 -> same_message pf pf2 ->
      mutateRatchetDurably c (DecryptJob frame2 m2 root2 e2) o w2 = (Ok (Decrypted d2), w3) -> d2 = dropped.
Proof.
  intros Hl Hm Hfin Hpf Hrf Hfresh H Ha. destruct (heal_leaves _ _ _ _ _ _ _ _ Hl Hm Hfin) as (He & Hempty & Hrs).
  pose proof (le_state _ _ _ _ _ Hl) as Hi. rewrite <- Hrs in Hi, Hrf.
  destruct (receive_on_dead_map _ _ _ _ _ _ _ _ _ _ _ He Hempty Hi H Ha)
    as (key & mk & st & row & out & sx & (hdr & Hk) & Hd & Hc & Hr2 & Hrow & Hedge & Hser & He2).
  destruct (first_chunk_consumes _ _ _ _ _ _ _ _ _ _ _ Hi Hrf Hpf eq_refl Hd Ha) as (Hi2 & Hrf2 & Hcon).
  assert (frame_key frame (pf_header pf) key) as Hk'.
  { destruct Hk as (p' & Hp' & -> & Hck). rewrite Hpf in Hp'. injection Hp' as <-. by exists pf. }
  assert (map_get key (w_maps w2 (ru_keys (w_pqs w2 h))) = None) as Hnone.
  { rewrite (he_keys _ _ _ _ _ _ He2). by apply Hfresh. }
  exists (ru_keys (w_pqs w2 h)), key, mk, row, out, sx. split_and!; try done; [apply He2|].
  intros frame2 pf2 root2 e2 o d2 w3 Hpf2 (Hs1 & Hs2 & Hs3) H2.
  unfold mutateRatchetDurably in H2. apply M_bind_ok in H2 as (begun & w2' & E & H2).
  destruct (begin_receive _ _ r h _ _ _ _ _ _ (he_ratchet _ _ _ _ _ _ He2) (he_pq _ _ _ _ _ _ He2) E)
    as [-> (d3 & st3 & Hd3 & Hcases)].
  rewrite Hr2, (clone_inv _ Hi2) in Hd3.
  assert (d3 = dropped) as ->.
  { eapply (used_up_dropped _ ck (h_dhPub (pf_header pf)));
      [exact Hi2|exact Hrf2|exact Hpf2|exact Hs1|by rewrite Hs2| |exact Hnone|exact Hd3].
    cbn [cache_epoch resolver_of fmap option_fmap option_map]. rewrite Hs1, Hs2, Hs3.
    destruct Hk' as (p' & Hp' & Heq & Hck). rewrite Hpf in Hp'. by injection Hp' as <-. }
  destruct Hcases as [[_ ->]|[Ha3 _]]; [|discriminate Ha3]. by injection H2 as <- _.
Qed.
End Race.
