(* ===== verification/MessageTypes.v ===== *)
(** * Message types ([src/src/utils/messageTypes.ts])

    The type of a message, chosen from the extension of a file name when it is
    sent, travels as a number in the metadata of every chunk; the receiver turns
    it back into an extension, a MIME type and a category. *)

From Stdlib Require Import String.
From S2P Require Import Prelude Bytes.
Local Open Scope Z_scope.
Local Open Scope list_scope.

(** A name is a JavaScript string, the list of its code points. *)
Definition name_of (s : string) : list Z := u8 <$> text s.

Inductive MessageType :=
  | Text | ImagePNG | ImageJPEG | ImageJPG | ImageGIF | ImageBMP | ImageTIFF | ImageSVG | ImageWEBP
  | ImageHEIC | DocumentPDF | DocumentDOC | DocumentDOCX | DocumentXLS | DocumentXLSX | DocumentPPT
  | DocumentPPTX | DocumentTXT | DocumentRTF | DocumentODT | AudioMP3 | AudioWAV | AudioAAC
  | AudioFLAC | AudioOGG | AudioM4A | VideoMP4 | VideoAVI | VideoMKV | VideoMOV | VideoWMV
  | VideoFLV | VideoWEBM | CompressedZIP | CompressedRAR | Compressed7Z | CompressedTAR
  | CompressedGZ | CodeHTML | CodeCSS | CodeJS | CodeJSX | CodeTS | CodeTSX | CodeJSON | CodeXML
  | CodePY | CodeJAVA | CodeC | CodeCPP | CodeCS | CodeRB | CodePHP | CodeSQL | EbookEPUB
  | EbookMOBI | EbookAZW | FontTTF | FontOTF | ImageICO | ExecutableEXE | ExecutableDMG
  | ExecutableAPK | Unknown.
#[export] Instance MessageType_eq_dec : EqDecision MessageType.
Proof. solve_decision. Defined.

Definition all_types : list MessageType :=
  [Text; ImagePNG; ImageJPEG; ImageJPG; ImageGIF; ImageBMP; ImageTIFF; ImageSVG; ImageWEBP;
   ImageHEIC; DocumentPDF; DocumentDOC; DocumentDOCX; DocumentXLS; DocumentXLSX; DocumentPPT;
   DocumentPPTX; DocumentTXT; DocumentRTF; DocumentODT; AudioMP3; AudioWAV; AudioAAC; AudioFLAC;
   AudioOGG; AudioM4A; VideoMP4; VideoAVI; VideoMKV; VideoMOV; VideoWMV; VideoFLV; VideoWEBM;
   CompressedZIP; CompressedRAR; Compressed7Z; CompressedTAR; CompressedGZ; CodeHTML; CodeCSS;
   CodeJS; CodeJSX; CodeTS; CodeTSX; CodeJSON; CodeXML; CodePY; CodeJAVA; CodeC; CodeCPP; CodeCS;
   CodeRB; CodePHP; CodeSQL; EbookEPUB; EbookMOBI; EbookAZW; FontTTF; FontOTF; ImageICO;
   ExecutableEXE; ExecutableDMG; ExecutableAPK; Unknown].

(** The value of the constant: its position. *)
Fixpoint position (t : MessageType) (l : list MessageType) (n : Z) : Z :=
  match l with
  | [] => 0
  | x :: l' => if decide (x = t) then n else position t l' (n + 1)
  end.
Definition code (t : MessageType) : Z := position t all_types 1.
(** The constant a number equals in a [switch]. *)
Definition type_of (n : Z) : option MessageType := List.find (fun t => code t =? n) all_types.

(** The object literal of [getMessageType]. *)
Definition extensionToMessageType : list (string * MessageType) :=
  [("png", ImagePNG); ("jpeg", ImageJPEG); ("jpg", ImageJPG); ("gif", ImageGIF); ("bmp", ImageBMP);
   ("tiff", ImageTIFF); ("svg", ImageSVG); ("webp", ImageWEBP); ("heic", ImageHEIC);
   ("pdf", DocumentPDF); ("doc", DocumentDOC); ("docx", DocumentDOCX); ("xls", DocumentXLS);
   ("xlsx", DocumentXLSX); ("ppt", DocumentPPT); ("pptx", DocumentPPTX); ("txt", DocumentTXT);
   ("rtf", DocumentRTF); ("odt", DocumentODT); ("mp3", AudioMP3); ("wav", AudioWAV);
   ("aac", AudioAAC); ("flac", AudioFLAC); ("ogg", AudioOGG); ("m4a", AudioM4A); ("mp4", VideoMP4);
   ("avi", VideoAVI); ("mkv", VideoMKV); ("mov", VideoMOV); ("wmv", VideoWMV); ("flv", VideoFLV);
   ("webm", VideoWEBM); ("zip", CompressedZIP); ("rar", CompressedRAR); ("7z", Compressed7Z);
   ("tar", CompressedTAR); ("gz", CompressedGZ); ("html", CodeHTML); ("css", CodeCSS);
   ("js", CodeJS); ("ts", CodeTS); ("jsx", CodeJSX); ("tsx", CodeTSX); ("json", CodeJSON);
   ("xml", CodeXML); ("py", CodePY); ("java", CodeJAVA); ("c", CodeC); ("cpp", CodeCPP);
   ("cs", CodeCS); ("rb", CodeRB); ("php", CodePHP); ("sql", CodeSQL); ("epub", EbookEPUB);
   ("mobi", EbookMOBI); ("azw", EbookAZW); ("ttf", FontTTF); ("otf", FontOTF); ("ico", ImageICO);
   ("exe", ExecutableEXE); ("dmg", ExecutableDMG); ("apk", ExecutableAPK)]%string.

(** [toLowerCase] as far as the keys of the table can tell: besides the capital
    letters only the Kelvin sign becomes one ASCII letter. *)
Definition toLowerCase (c : Z) : Z :=
  if (65 <=? c) && (c <=? 90) then c + 32 else if c =? 0x212a then 0x6b else c.

(** [name.split(".").pop()] *)
Definition last_part (name : list Z) : list Z :=
  foldl (fun part c => if c =? 46 then [] else part ++ [c]) [] name.

(** What [extensionToMessageType[extension] ?? MessageType.Unknown] gives: one of
    the numbers, or a value inherited from [Object.prototype]. *)
Inductive LookedUp := number (n : Z) | inherited.

(** The names of [Object.prototype] without a capital letter. *)
Definition prototype_names : list (list Z) := [name_of "constructor"; name_of "__proto__"].

Definition lookup_extension (extension : list Z) : LookedUp :=
  match List.find (fun e => bool_decide (name_of e.1 = extension)) extensionToMessageType with
  | Some e => number (code e.2)
  | None => if bool_decide (extension ∈ prototype_names) then inherited else number (code Unknown)
  end.

(** [data]: a string, or a file with its name. *)
Definition getMessageType (data : list Z + list Z) : LookedUp :=
  match data with
  | inl _ => number (code Text)
  | inr name => lookup_extension (toLowerCase <$> last_part name)
  end.

Definition getFileExtension (messageType : Z) : string :=
  match type_of messageType with
  | Some ImagePNG => "png"
  | Some ImageJPEG => "jpeg"
  | Some ImageJPG => "jpg"
  | Some ImageGIF => "gif"
  | Some ImageBMP => "bmp"
  | Some ImageTIFF => "tiff"
  | Some ImageSVG => "svg"
  | Some ImageWEBP => "webp"
  | Some ImageHEIC => "heic"
  | Some DocumentPDF => "pdf"
  | Some DocumentDOC => "doc"
  | Some DocumentDOCX => "docx"
  | Some DocumentXLS => "xls"
  | Some DocumentXLSX => "xlsx"
  | Some DocumentPPT => "ppt"
  | Some DocumentPPTX => "pptx"
  | Some DocumentTXT => "txt"
  | Some DocumentRTF => "rtf"
  | Some DocumentODT => "odt"
  | Some AudioMP3 => "mp3"
  | Some AudioWAV => "wav"
  | Some AudioAAC => "aac"
  | Some AudioFLAC => "flac"
  | Some AudioOGG => "ogg"
  | Some AudioM4A => "m4a"
  | Some VideoMP4 => "mp4"
  | Some VideoAVI => "avi"
  | Some VideoMKV => "mkv"
  | Some VideoMOV => "mov"
  | Some VideoWMV => "wmv"
  | Some VideoFLV => "flv"
  | Some VideoWEBM => "webm"
  | Some CompressedZIP => "zip"
  | Some CompressedRAR => "rar"
  | Some Compressed7Z => "7z"
  | Some CompressedTAR => "tar"
  | Some CompressedGZ => "gz"
  | Some CodeHTML => "html"
  | Some CodeCSS => "css"
  | Some CodeJS => "js"
  | Some CodeTS => "ts"
  | Some CodeJSX => "jsx"
  | Some CodeTSX => "tsx"
  | Some CodeJSON => "json"
  | Some CodeXML => "xml"
  | Some CodePY => "py"
  | Some CodeJAVA => "java"
  | Some CodeC => "c"
  | Some CodeCPP => "cpp"
  | Some CodeCS => "cs"
  | Some CodeRB => "rb"
  | Some CodePHP => "php"
  | Some CodeSQL => "sql"
  | Some EbookEPUB => "epub"
  | Some EbookMOBI => "mobi"
  | Some EbookAZW => "azw"
  | Some FontTTF => "ttf"
  | Some FontOTF => "otf"
  | Some ImageICO => "ico"
  | Some ExecutableEXE => "exe"
  | Some ExecutableDMG => "dmg"
  | Some ExecutableAPK => "apk"
  | _ => ""
  end%string.

Definition getMimeType (messageType : Z) : string :=
  match type_of messageType with
  | Some Text => "text/plain"
  | Some ImagePNG => "image/png"
  | Some ImageJPEG => "image/jpeg"
  | Some ImageJPG => "image/jpeg"
  | Some ImageGIF => "image/gif"
  | Some ImageBMP => "image/bmp"
  | Some ImageTIFF => "image/tiff"
  | Some ImageSVG => "image/svg+xml"
  | Some ImageWEBP => "image/webp"
  | Some ImageHEIC => "image/heic"
  | Some ImageICO => "image/vnd.microsoft.icon"
  | Some DocumentPDF => "application/pdf"
  | Some DocumentDOC => "application/msword"
  | Some DocumentDOCX => "application/vnd.openxmlformats-officedocument.wordprocessingml.document"
  | Some DocumentXLS => "application/vnd.ms-excel"
  | Some DocumentXLSX => "application/vnd.openxmlformats-officedocument.spreadsheetml.sheet"
  | Some DocumentPPT => "application/vnd.ms-powerpoint"
  | Some DocumentPPTX => "application/vnd.openxmlformats-officedocument.presentationml.presentation"
  | Some DocumentTXT => "text/plain"
  | Some DocumentRTF => "application/rtf"
  | Some DocumentODT => "application/vnd.oasis.opendocument.text"
  | Some AudioMP3 => "audio/mpeg"
  | Some AudioWAV => "audio/wav"
  | Some AudioAAC => "audio/aac"
  | Some AudioFLAC => "audio/flac"
  | Some AudioOGG => "audio/ogg"
  | Some AudioM4A => "audio/mp4"
  | Some VideoMP4 => "video/mp4"
  | Some VideoAVI => "video/x-msvideo"
  | Some VideoMKV => "video/x-matroska"
  | Some VideoMOV => "video/quicktime"
  | Some VideoWMV => "video/x-ms-wmv"
  | Some VideoFLV => "video/x-flv"
  | Some VideoWEBM => "video/webm"
  | Some CompressedZIP => "application/zip"
  | Some CompressedRAR => "application/vnd.rar"
  | Some Compressed7Z => "application/x-7z-compressed"
  | Some CompressedTAR => "application/x-tar"
  | Some CompressedGZ => "application/gzip"
  | Some CodeHTML => "text/html"
  | Some CodeCSS => "text/css"
  | Some CodeJS | Some CodeJSX => "application/javascript"
  | Some CodeTS | Some CodeTSX => "application/typescript"
  | Some CodeJSON => "application/json"
  | Some CodeXML => "application/xml"
  | Some CodePY => "text/x-python"
  | Some CodeJAVA => "text/x-java-source"
  | Some CodeC => "text/x-c"
  | Some CodeCPP => "text/x-c++"
  | Some CodeCS => "text/plain"
  | Some CodeRB => "text/x-ruby"
  | Some CodePHP => "application/x-httpd-php"
  | Some CodeSQL => "application/sql"
  | Some EbookEPUB => "application/epub+zip"
  | Some EbookMOBI => "application/x-mobipocket-ebook"
  | Some EbookAZW => "application/vnd.amazon.ebook"
  | Some FontTTF => "font/ttf"
  | Some FontOTF => "font/otf"
  | Some ExecutableEXE => "application/vnd.microsoft.portable-executable"
  | Some ExecutableDMG => "application/x-apple-diskimage"
  | Some ExecutableAPK => "application/vnd.android.package-archive"
  | _ => "application/octet-stream"
  end%string.

(** The categories are strings. *)
Definition getMessageCategory (messageType : Z) : string :=
  match type_of messageType with
  | Some Text => "Text"
  | Some ImagePNG | Some ImageJPEG | Some ImageJPG | Some ImageGIF | Some ImageBMP |
      Some ImageTIFF | Some ImageSVG | Some ImageWEBP | Some ImageHEIC | Some ImageICO => "Image"
  | Some DocumentPDF | Some DocumentDOC | Some DocumentDOCX | Some DocumentXLS |
      Some DocumentXLSX | Some DocumentPPT | Some DocumentPPTX | Some DocumentTXT |
      Some DocumentRTF | Some DocumentODT => "Document"
  | Some AudioMP3 | Some AudioWAV | Some AudioAAC | Some AudioFLAC | Some AudioOGG | Some AudioM4A => "Audio"
  | Some VideoMP4 | Some VideoAVI | Some VideoMKV | Some VideoMOV | Some VideoWMV |
      Some VideoFLV | Some VideoWEBM => "Video"
  | Some CompressedZIP | Some CompressedRAR | Some Compressed7Z | Some CompressedTAR |
      Some CompressedGZ => "Compressed"
  | Some CodeHTML | Some CodeCSS | Some CodeJS | Some CodeJSX | Some CodeTS | Some CodeTSX |
      Some CodeJSON | Some CodeXML | Some CodePY | Some CodeJAVA | Some CodeC | Some CodeCPP |
      Some CodeCS | Some CodeRB | Some CodePHP | Some CodeSQL => "Code"
  | Some EbookEPUB | Some EbookMOBI | Some EbookAZW => "Ebook"
  | Some FontTTF | Some FontOTF => "Font"
  | Some ExecutableEXE | Some ExecutableDMG | Some ExecutableAPK => "Executable"
  | _ => "Unknown"
  end%string.

(** ** Theorems *)

Lemma last_part_app stem ext : 46 ∉ ext -> last_part (stem ++ 46 :: ext) = ext.
Proof.
  intros Hn. unfold last_part. rewrite foldl_app. cbn.
  assert (forall acc, foldl (fun part c => if c =? 46 then [] else part ++ [c]) acc ext = acc ++ ext) as ->; [|done].
  induction ext as [|c ext IH]; intros acc; cbn; [by rewrite app_nil_r|].
  apply not_elem_of_cons in Hn as [Hc Hn]. rewrite (proj2 (Z.eqb_neq c 46)) by done.
  rewrite IH by done. by rewrite <- app_assoc.
Qed.

(** The tables agree with each other, type by type. *)
Definition tables_agree (t : MessageType) : bool :=
  bool_decide (t = Text) || bool_decide (t = Unknown) ||
  (bool_decide (46 ∉ name_of (getFileExtension (code t)))
   && match lookup_extension (name_of (getFileExtension (code t))) with
      | number n => n =? code t
      | inherited => false
      end
   && bool_decide (type_of (code t) = Some t) && (1 <=? code t) && (code t <=? 64)
   && negb (bool_decide (getMimeType (code t) = "application/octet-stream"%string))
   && negb (bool_decide (getMessageCategory (code t) = "Unknown"%string))).
Lemma all_tables_agree t : tables_agree t = true.
Proof. destruct t; vm_compute; reflexivity. Qed.

(** The type of a file survives the wire.  For every type a file can have, a name
    ending in the extension shown for the type, in capital or small letters, is
    given exactly that type when it is sent, and the type has a MIME type and a
    category of its own, not those of unknown files. *)
Theorem file_type_roundtrip t stem ext : t <> Text -> t <> Unknown ->
  toLowerCase <$> ext = name_of (getFileExtension (code t)) ->
  getMessageType (inr (stem ++ 46 :: ext)) = number (code t) /\
  type_of (code t) = Some t /\ 1 <= code t <= 64 /\
  getMimeType (code t) <> "application/octet-stream"%string /\
  getMessageCategory (code t) <> "Unknown"%string.
Proof.
  intros H1 H2 He. pose proof (all_tables_agree t) as Ht. unfold tables_agree in Ht.
  rewrite (bool_decide_eq_false_2 _ H1), (bool_decide_eq_false_2 _ H2) in Ht. cbn [orb] in Ht.
  rewrite !andb_true_iff, !negb_true_iff, !bool_decide_eq_true, !bool_decide_eq_false, !Z.leb_le in Ht.
  destruct Ht as ((((((Hdot & Hl) & Hty) & Ha) & Hb) & Hm) & Hc). split_and!; try done.
  assert (46 ∉ ext) as Hn.
  { intros Hin. apply Hdot. rewrite <- He. apply list_elem_of_fmap. by exists 46. }
  unfold getMessageType. rewrite last_part_app, He by done.
  destruct (lookup_extension _) as [n|]; [|done]. by apply Z.eqb_eq in Hl as ->.
Qed.

(** A file whose extension names a property of every object has no type: the
    lookup finds the property of [Object.prototype] instead of falling back to
    the unknown type. *)
Theorem constructor_file_has_no_type stem :
  getMessageType (inr (stem ++ name_of ".constructor"%string)) = inherited.
Proof.
  unfold getMessageType. change (name_of ".constructor"%string) with (46 :: name_of "constructor"%string).
  rewrite last_part_app; [done|]. by apply (bool_decide_unpack _).
Qed.
