(* ===== verification/ReceiveStore.v ===== *)
(** * The store of received files ([src/src/db/db.worker.ts])

    What the database worker does with the chunks of one transfer (one Merkle
    root): the record of every chunk in IndexedDB, the message row, and the OPFS
    file in which each chunk is written at [chunkIndex * uniformSize] as it
    arrives, out of order.  The worker runs the operations on one root one at a
    time ([withReceiveLock]), so each is one function on the state of that
    root; transfers meet only in the table of open handles, where opening one
    may close another (the [fnCloseReceiveFile] of this root at any time).

    The environment answers whether OPFS opens, how much of a write lands and
    whether a transaction commits; these answers are arguments. *)

From Stdlib Require Import String.
From stdpp Require Import gmap.
From S2P Require Import Prelude Bytes Constants Metadata.
Local Open Scope Z_scope.
Local Open Scope list_scope.

(** ** Data *)

(** [Chunk], the record of a chunk; without [data] its bytes are in the file. *)
Record Chunk := {
  ck_hash : string; ck_chunkIndex : Z; ck_data : option bytes; ck_mimeType : string;
  ck_realLen : Z; ck_leafHash : string }.

(** [ReceiveChunk] *)
Record ReceiveChunk := {
  rc_schemaVersion : Z; rc_roomId : string; rc_fromPeerId : string; rc_channelLabel : string;
  rc_timestamp : Z; rc_merkleRoot : string; rc_hash : string; rc_filename : list Z;
  rc_messageType : Z; rc_chunkIndex : Z; rc_mimeType : string; rc_leafHash : string;
  rc_realLen : Z; rc_totalSize : Z; rc_data : bytes; rc_opfs : bool }.

(** [MessageData] *)
Record MessageData := {
  mg_roomId : string; mg_timestamp : Z; mg_hash : string; mg_fromPeerId : string;
  mg_filename : list Z; mg_messageType : Z; mg_savedSize : Z; mg_totalSize : Z;
  mg_channelLabel : string }.

(** The fields of [UniqueRoom] that the store updates. *)
Record RoomRow := { rr_lastMessageMerkleRoot : string; rr_messageCount : Z; rr_updatedAt : Z }.

(** [ReceiveFileEntry], an open handle. *)
Record ReceiveFileEntry := {
  fe_uniformSize : Z; fe_uniformKnown : bool; fe_maxRealLen : Z; fe_seenCount : Z }.

(** [sv_chunks]: the records of this root, in the order of their insertion. *)
Record Store := MkStore {
  sv_chunks : list Chunk; sv_message : option MessageData; sv_rooms : gmap string RoomRow;
  sv_file : option bytes; sv_entry : option ReceiveFileEntry }.

(** [ReceiveChunkStoreResult] *)
Record StoreResult := { sr_stored : bool; sr_savedSize : Z; sr_complete : bool }.

Inductive StoreError :=
  | bad_bounds | manifest_conflict | bad_layout | exceeds_total | beyond_manifest
  | length_conflict | index_gap | missing_zero | commit_failed | bad_root.
#[export] Instance StoreError_eq_dec : EqDecision StoreError.
Proof. solve_decision. Defined.

Abbreviation sv A := (M Store StoreError A).

(** ** The layout of a transfer *)

Definition chunk_size_ok (totalSize index len : Z) : bool :=
  isSafeInteger index && (0 <=? index) && isSafeInteger len && (0 <? len) && (len <=? CHUNK_LEN)
  && (len <=? totalSize) && (index <? totalSize).

(** The first loop: bounds, no index twice, and the sum. *)
Fixpoint layout_sum (totalSize : Z) (previous : option Z) (savedSize : Z) (ordered : list (Z * Z))
    : result StoreError Z :=
  match ordered with
  | [] => Ok savedSize
  | (index, len) :: rest =>
      require (chunk_size_ok totalSize index len && negb (bool_decide (previous = Some index))) bad_layout;;
      let saved := savedSize + len in
      require (isSafeInteger saved && (saved <=? totalSize)) exceeds_total;;
      layout_sum totalSize (Some index) saved rest
  end.

Definition max_len (ordered : list (Z * Z)) : Z := foldl (fun m r => Z.max m r.2) 0 ordered.

Definition uniform_of (ordered : list (Z * Z)) : option Z :=
  match List.find (fun r => r.1 =? 0) ordered with
  | Some zero => Some zero.2
  | None => if (2 <=? List.length ordered)%nat then Some (max_len ordered) else None
  end.

(** The second loop. *)
Fixpoint layout_lengths (expectedCount finalIndex finalLength uniformSize : Z) (ordered : list (Z * Z))
    : result StoreError unit :=
  match ordered with
  | [] => Ok tt
  | (index, len) :: rest =>
      require (negb (expectedCount <=? index)) beyond_manifest;;
      require (len =? (if index =? finalIndex then finalLength else uniformSize)) length_conflict;;
      layout_lengths expectedCount finalIndex finalLength uniformSize rest
  end.

(** [ordered.every((record, index) => record.chunkIndex === index)] *)
Fixpoint contiguous (from : Z) (ordered : list (Z * Z)) : bool :=
  match ordered with
  | [] => true
  | (index, _) :: rest => (index =? from) && contiguous (from + 1) rest
  end.

(** [Math.ceil(a / b)]: exact, as [a * b] stays below 2^53. *)
Definition ceil_div (a b : Z) : Z := (a + b - 1) / b.

Definition validateLayout (totalSize : Z) (records : list (Z * Z)) : result StoreError (Z * bool) :=
  let ordered := array_sort (fun a b => a.1 - b.1) records in
  savedSize ← layout_sum totalSize None 0 ordered;
  match uniform_of ordered with
  | Some uniformSize =>
      let expectedCount := ceil_div totalSize uniformSize in
      let finalIndex := expectedCount - 1 in
      let finalLength := totalSize - uniformSize * finalIndex in
      layout_lengths expectedCount finalIndex finalLength uniformSize ordered;;
      let complete := (savedSize =? totalSize) && (blen ordered =? expectedCount) && contiguous 0 ordered in
      require (negb ((savedSize =? totalSize) && negb complete)) index_gap;;
      Ok (savedSize, complete)
  | None =>
      require (negb (savedSize =? totalSize)) missing_zero;;
      Ok (savedSize, false)
  end.

Definition layout_of (chunks : list Chunk) : list (Z * Z) :=
  (fun c => (ck_chunkIndex c, ck_realLen c)) <$> chunks.

Definition assertManifest (chunk : ReceiveChunk) (previous : option MessageData) : result StoreError unit :=
  match previous with
  | None => Ok tt
  | Some p =>
      require (bool_decide (mg_roomId p = rc_roomId chunk) && bool_decide (mg_fromPeerId p = rc_fromPeerId chunk)
               && bool_decide (mg_hash p = rc_hash chunk) && (mg_totalSize p =? rc_totalSize chunk)
               && (mg_messageType p =? rc_messageType chunk) && bool_decide (mg_filename p = rc_filename chunk)
               && bool_decide (mg_channelLabel p = rc_channelLabel chunk)
               && (mg_timestamp p =? rc_timestamp chunk)) manifest_conflict
  end.

(** ** The OPFS file *)

(** Writing past the end of the file fills the gap with zeros. *)
Definition file_write (file : bytes) (offset : Z) (data : bytes) : bytes :=
  let len := offset + blen data in
  bset (if blen file <? len then file ++ zeros (len - blen file) else file) offset data.
Definition truncate (file : bytes) (size : Z) : bytes :=
  if size <? blen file then slice file 0 size else file ++ zeros (size - blen file).
Definition presized (file : option bytes) (totalSize : Z) : bytes :=
  let file := default [] file in
  if (0 <? totalSize) && negb (blen file =? totalSize) then truncate file totalSize else file.

(** What the environment does during one [storeReceiveChunk]: OPFS opens; how
    many bytes of the write land before it throws, or [None] when all land and
    are flushed; what becomes of the transaction. *)
Inductive Commit := committed | aborted | crashed.
Record Env := { ev_opens : bool; ev_lands : option Z; ev_commit : Commit }.

Definition set_file (file : option bytes) (entry : option ReceiveFileEntry) (s : Store) : Store :=
  MkStore (sv_chunks s) (sv_message s) (sv_rooms s) file entry.

(** [openReceiveHandleImpl] and its errors *)
Definition ensureReceiveHandle (opens : bool) (totalSize : Z) : sv (option ReceiveFileEntry) :=
  this ← get_this;
  match sv_entry this with
  | Some entry => mret (Some entry)
  | None =>
      if opens then
        let entry := {| fe_uniformSize := 0; fe_uniformKnown := false; fe_maxRealLen := 0; fe_seenCount := 0 |} in
        set_this (set_file (Some (presized (sv_file this) totalSize)) (Some entry) this);;
        mret (Some entry)
      else mret None
  end.

(** The sizes learnt from one more chunk. *)
Definition learn (entry : ReceiveFileEntry) (chunkIndex realLen totalSize : Z) : ReceiveFileEntry :=
  let maxRealLen := Z.max (fe_maxRealLen entry) realLen in
  let seenCount := fe_seenCount entry + 1 in
  if fe_uniformKnown entry then
    {| fe_uniformSize := fe_uniformSize entry; fe_uniformKnown := true;
       fe_maxRealLen := maxRealLen; fe_seenCount := seenCount |}
  else if chunkIndex =? 0 then
    {| fe_uniformSize := if realLen <? totalSize then realLen else fe_uniformSize entry;
       fe_uniformKnown := true; fe_maxRealLen := maxRealLen; fe_seenCount := seenCount |}
  else if 2 <=? seenCount then
    {| fe_uniformSize := maxRealLen; fe_uniformKnown := true;
       fe_maxRealLen := maxRealLen; fe_seenCount := seenCount |}
  else
    {| fe_uniformSize := fe_uniformSize entry; fe_uniformKnown := false;
       fe_maxRealLen := maxRealLen; fe_seenCount := seenCount |}.

(** Whether the bytes of the chunk are in the file. *)
Definition placeReceiveChunk (env : Env) (chunkIndex realLen totalSize : Z) (data : bytes) : sv bool :=
  found ← ensureReceiveHandle (ev_opens env) totalSize;
  match found with
  | None => mret false
  | Some entry =>
      let entry := learn entry chunkIndex realLen totalSize in
      modify_this (fun s => set_file (sv_file s) (Some entry) s);;
      if negb (fe_uniformKnown entry) then mret false
      else
        let offset := if chunkIndex =? 0 then 0 else chunkIndex * fe_uniformSize entry in
        let landed := match ev_lands env with None => data | Some n => slice data 0 n end in
        modify_this (fun s => set_file (Some (file_write (default [] (sv_file s)) offset landed)) (sv_entry s) s);;
        mret (bool_decide (ev_lands env = None))
  end.

(** ** Storing a chunk *)

Definition receive_bounds (chunk : ReceiveChunk) : bool :=
  (rc_schemaVersion chunk =? 1) && isSafeInteger (rc_messageType chunk)
  && (1 <=? rc_messageType chunk) && (rc_messageType chunk <=? 64)
  && isSafeInteger (rc_chunkIndex chunk) && (0 <=? rc_chunkIndex chunk)
  && isSafeInteger (rc_realLen chunk) && (0 <? rc_realLen chunk) && (rc_realLen chunk <=? CHUNK_LEN)
  && isSafeInteger (rc_totalSize chunk) && (0 <? rc_totalSize chunk)
  && (rc_totalSize chunk <=? MAX_MESSAGE_SIZE) && (rc_realLen chunk <=? rc_totalSize chunk)
  && (rc_chunkIndex chunk <? rc_totalSize chunk) && (blen (rc_data chunk) =? rc_realLen chunk)
  && isSafeInteger (rc_timestamp chunk).

Definition has_chunk (index : Z) (chunks : list Chunk) : bool :=
  existsb (fun c => ck_chunkIndex c =? index) chunks.

Definition record_of (chunk : ReceiveChunk) (wroteToOPFS : bool) : Chunk :=
  {| ck_hash := rc_hash chunk; ck_chunkIndex := rc_chunkIndex chunk;
     ck_data := if rc_opfs chunk && wroteToOPFS then None else Some (rc_data chunk);
     ck_mimeType := rc_mimeType chunk; ck_realLen := rc_realLen chunk; ck_leafHash := rc_leafHash chunk |}.

Definition message_of (chunk : ReceiveChunk) (previous : option MessageData) (savedSize : Z) : MessageData :=
  {| mg_roomId := rc_roomId chunk; mg_timestamp := from_option mg_timestamp (rc_timestamp chunk) previous;
     mg_hash := rc_hash chunk; mg_fromPeerId := rc_fromPeerId chunk; mg_filename := rc_filename chunk;
     mg_messageType := rc_messageType chunk; mg_savedSize := savedSize; mg_totalSize := rc_totalSize chunk;
     mg_channelLabel := rc_channelLabel chunk |}.

Definition count_message (chunk : ReceiveChunk) (rooms : gmap string RoomRow) : gmap string RoomRow :=
  match rooms !! rc_roomId chunk with
  | Some room =>
      if bool_decide (rr_lastMessageMerkleRoot room = rc_merkleRoot chunk) then rooms
      else <[rc_roomId chunk := {| rr_lastMessageMerkleRoot := rc_merkleRoot chunk;
                                   rr_messageCount := rr_messageCount room + 1;
                                   rr_updatedAt := rc_timestamp chunk |}]> rooms
  | None => rooms
  end.

(** The committing transaction. *)
Definition commit_chunk (chunk : ReceiveChunk) (record : Chunk) (commit : Commit) : sv StoreResult :=
  this ← get_this;
  let known := has_chunk (rc_chunkIndex chunk) (sv_chunks this) in
  (if known then mret tt
   else _ ← lift (validateLayout (rc_totalSize chunk)
                    (layout_of (sv_chunks this) ++ [(rc_chunkIndex chunk, rc_realLen chunk)])); mret tt);;
  let records := if known then sv_chunks this else sv_chunks this ++ [record] in
  progress ← lift (validateLayout (rc_totalSize chunk) (layout_of records));
  (if known then mret tt else lift (assertManifest chunk (sv_message this)));;
  match commit with
  | committed =>
      (if known then mret tt
       else set_this (MkStore records (Some (message_of chunk (sv_message this) progress.1))
                        (count_message chunk (sv_rooms this)) (sv_file this) (sv_entry this)));;
      mret {| sr_stored := negb known; sr_savedSize := progress.1; sr_complete := progress.2 |}
  | aborted => mthrow commit_failed
  | crashed => set_this (set_file (sv_file this) None this);; mthrow commit_failed
  end.

Definition storeReceiveChunkLocked (chunk : ReceiveChunk) (env : Env) : sv StoreResult :=
  mrequire (receive_bounds chunk) bad_bounds;;
  this ← get_this;
  lift (assertManifest chunk (sv_message this));;
  if has_chunk (rc_chunkIndex chunk) (sv_chunks this) then
    progress ← lift (validateLayout (rc_totalSize chunk) (layout_of (sv_chunks this)));
    mret {| sr_stored := false; sr_savedSize := progress.1; sr_complete := progress.2 |}
  else
    _ ← lift (validateLayout (rc_totalSize chunk)
                (layout_of (sv_chunks this) ++ [(rc_chunkIndex chunk, rc_realLen chunk)]));
    wroteToOPFS ← (if rc_opfs chunk
                   then placeReceiveChunk env (rc_chunkIndex chunk) (rc_realLen chunk) (rc_totalSize chunk)
                          (rc_data chunk)
                   else mret false);
    commit_chunk chunk (record_of chunk wroteToOPFS) (ev_commit env).

(** ** Reading and deleting *)

Definition fnCloseReceiveFile (s : Store) : Store := set_file (sv_file s) None s.

(** The cursor over the records of a root: ascending [chunkIndex]. *)
Definition cursor (s : Store) : list Chunk := array_sort (fun a b => ck_chunkIndex a - ck_chunkIndex b) (sv_chunks s).

Definition data_bearing (chunks : list Chunk) : list (Z * bytes) :=
  omap (fun c => match ck_data c with
                 | Some d => if 0 <? blen d then Some (ck_chunkIndex c, d) else None
                 | None => None
                 end) chunks.
Definition strip (c : Chunk) : Chunk :=
  {| ck_hash := ck_hash c; ck_chunkIndex := ck_chunkIndex c; ck_data := None;
     ck_mimeType := ck_mimeType c; ck_realLen := ck_realLen c; ck_leafHash := ck_leafHash c |}.
(** Records with an empty [data] are not rewritten. *)
Definition strip_bearing (c : Chunk) : Chunk :=
  match ck_data c with Some d => if 0 <? blen d then strip c else c | None => c end.

(** [gv_available]: OPFS; [gv_sync]: synchronous handles; [gv_throws]: a write of
    the migration throws, after so many complete writes and so many bytes of the
    next; [gv_strips]: the records are rewritten. *)
Record ReadEnv := {
  gv_available : bool; gv_sync : bool; gv_throws : option (nat * Z); gv_strips : bool }.

Definition migrate (uniformSize : Z) (file : bytes) (chunks : list (Z * bytes)) : bytes :=
  foldl (fun f r => file_write f (if r.1 =? 0 then 0 else r.1 * uniformSize) r.2) file chunks.

(** [fnGetReceiveFile]: the bytes of the file it returns, or [null]. *)
Definition fnGetReceiveFile (totalSize : Z) (env : ReadEnv) (s : Store) : option bytes * Store :=
  let s := fnCloseReceiveFile s in
  if negb (gv_available env) then (None, s) else
  let file := default [] (sv_file s) in
  let s := set_file (Some file) None s in
  let dataBearing := data_bearing (cursor s) in
  let uniformSize := foldl (fun u c => if u <? ck_realLen c then ck_realLen c else u) 0 (cursor s) in
  if (0 <? totalSize) && (blen file =? totalSize) && bool_decide (dataBearing = []) then (Some file, s)
  else if negb (bool_decide (dataBearing = [])) && (uniformSize =? 0) then (None, s)
  else if negb (gv_sync env) then (None, s)
  else
    let sized := presized (Some file) totalSize in
    match gv_throws env with
    | Some (n, k) =>
        let partly := (fun r => (r.1, slice r.2 0 k)) <$> take 1 (drop n dataBearing) in
        (None, set_file (Some (migrate uniformSize sized (take n dataBearing ++ partly))) None s)
    | None =>
        let file := migrate uniformSize sized dataBearing in
        let s := set_file (Some file) None s in
        let s := if gv_strips env
                 then MkStore (strip_bearing <$> sv_chunks s) (sv_message s) (sv_rooms s) (sv_file s) (sv_entry s)
                 else s in
        if (0 <? totalSize) && negb (blen file =? totalSize) then (None, s) else (Some file, s)
    end.

(** A completed file message in [readMessage] of [index.ts]: the OPFS file, or
    the records' bytes when their size is the size of the message; [None] is
    "Irretrievable message". *)
Definition read_file (totalSize : Z) (env : ReadEnv) (s : Store) : option bytes * Store :=
  let '(file, s') := fnGetReceiveFile totalSize env s in
  match file with
  | Some f => (Some f, s')
  | None =>
      let blob := mjoin (default [] ∘ ck_data <$> cursor s') in
      if blen blob =? totalSize then (Some blob, s') else (None, s')
  end.

(** [remaining] and [latest] are the messages left in the room. *)
Definition fnDeleteReceiveTransferLocked (remaining : Z) (latest : option (string * Z)) (now : Z)
    (s : Store) : Store :=
  let rooms :=
    match sv_message s with
    | Some m =>
        match sv_rooms s !! mg_roomId m with
        | Some _ => <[mg_roomId m := {| rr_lastMessageMerkleRoot := from_option fst EmptyString latest;
                                        rr_messageCount := remaining;
                                        rr_updatedAt := from_option snd now latest |}]> (sv_rooms s)
        | None => sv_rooms s
        end
    | None => sv_rooms s
    end in
  MkStore [] None rooms None None.
