(* ===== verification/ReceiveLayout.v ===== *)
(** * Layouts of a transfer

    [validateLayout] of [ReceiveStore]: what it accepts from the chunks of one
    file in any order, and what a completion it reports means for records a
    peer chose. *)

From Stdlib Require Import Sorting.Sorted.
From stdpp Require Import gmap sorting.
From S2P Require Import Prelude Bytes Constants Metadata ReceiveStore.
Local Open Scope Z_scope.
Local Open Scope list_scope.

(** ** Sorting by a key *)

Section ByKey.
Context {A : Type} (key : A -> Z).
Let compare (a b : A) : Z := key a - key b.

Lemma insert_by_key x l : StronglySorted (fun a b => key a <= key b) l ->
  StronglySorted (fun a b => key a <= key b) (insert_sorted compare x l).
Proof.
  induction 1 as [|y l Hs IH Hy]; cbn [insert_sorted]; [by repeat constructor|].
  unfold compare at 1. case_match eqn:Hc; [apply Z.leb_le in Hc|apply Z.leb_gt in Hc].
  - constructor; [by constructor|]. constructor; [lia|]. eapply Forall_impl; [exact Hy|]. cbn. lia.
  - constructor; [done|]. rewrite (insert_sorted_perm compare). constructor; [lia|done].
Qed.
Lemma sort_by_key l : StronglySorted (fun a b => key a <= key b) (array_sort compare l).
Proof. induction l as [|x l IH]; [constructor|]. by apply insert_by_key. Qed.

Lemma sort_strict l : NoDup (key <$> l) -> StronglySorted (fun a b => key a < key b) (array_sort compare l).
Proof.
  intros Hnd. pose proof (sort_by_key l) as Hs. rewrite <- (array_sort_perm compare l) in Hnd.
  induction Hs as [|x k _ IH Hx]; [constructor|]. cbn in Hnd. apply NoDup_cons in Hnd as [Hn Hnd].
  constructor; [by apply IH|]. apply Forall_forall. intros y Hy.
  pose proof (proj1 (Forall_forall _ _) Hx y Hy). cbn in *.
  destruct (decide (key x = key y)) as [Heq|]; [|lia]. contradict Hn. rewrite Heq. by apply list_elem_of_fmap_2.
Qed.
End ByKey.

(** ** The layout of a file of [total] bytes in chunks of [u] *)

Section Layout.
Context (total u : Z) (Hu : 0 < u <= total).

Definition count : Z := ceil_div total u.
Definition len_at (i : Z) : Z := Z.min u (total - i * u).
(** What is left from chunk [i] on. *)
Definition rest_from (i : Z) : Z := Z.max 0 (total - i * u).
Definition genuine_record (r : Z * Z) : Prop := 0 <= r.1 < count /\ r.2 = len_at r.1.
Definition total_len (l : list (Z * Z)) : Z := foldr (fun r s => r.2 + s) 0 l.
(** The records of the whole file, from chunk [i]. *)
Definition whole (i : Z) : list (Z * Z) :=
  (fun j => (j, len_at j)) <$> seqZ i (count - i).

Lemma count_spec : 0 < count /\ (count - 1) * u < total <= count * u.
Proof.
  unfold count, ceil_div. pose proof (Z.div_mod (total + u - 1) u ltac:(lia)).
  pose proof (Z.mod_pos_bound (total + u - 1) u ltac:(lia)). nia.
Qed.
Lemma len_pos i : 0 <= i < count -> 0 < len_at i <= u.
Proof. intros Hi. pose proof count_spec. unfold len_at. nia. Qed.
Lemma len_inner i : 0 <= i < count - 1 -> len_at i = u.
Proof. intros Hi. pose proof count_spec. unfold len_at. nia. Qed.
Lemma len_cases i : 0 <= i < count ->
  len_at i = if i =? count - 1 then total - u * (count - 1) else u.
Proof.
  intros Hi. pose proof count_spec. destruct (Z.eqb_spec i (count - 1)) as [->|Hne]; [unfold len_at; nia|].
  apply len_inner. lia.
Qed.
Lemma rest_step i : 0 <= i < count -> len_at i + rest_from (i + 1) = rest_from i.
Proof. intros Hi. pose proof count_spec. unfold len_at, rest_from. nia. Qed.
Lemma rest_less i j : 0 <= i < j -> j < count -> rest_from j < rest_from i.
Proof. intros Hi Hj. pose proof count_spec. unfold rest_from. nia. Qed.
Lemma rest_mono i j : 0 <= i <= j -> rest_from j <= rest_from i.
Proof. intros Hi. unfold rest_from. nia. Qed.
Lemma rest_zero i : 0 <= i -> rest_from i = 0 <-> count <= i.
Proof. intros Hi. pose proof count_spec. unfold rest_from. split; intros; nia. Qed.
Lemma rest_all : rest_from 0 = total.
Proof. unfold rest_from. lia. Qed.

Lemma whole_cons i : 0 <= i < count -> whole i = (i, len_at i) :: whole (i + 1).
Proof.
  intros Hi. unfold whole. rewrite seqZ_cons by lia. cbn. do 3 f_equal; lia.
Qed.
Lemma whole_nil i : count <= i -> whole i = [].
Proof. intros Hi. unfold whole. by rewrite seqZ_nil by lia. Qed.

(** Records in ascending order never sum to more than the file, and to all of
    it only when they are all of it. *)
Lemma sorted_sum l : StronglySorted (fun a b : Z * Z => a.1 < b.1) l -> Forall genuine_record l ->
  forall from, 0 <= from -> Forall (fun r => from <= r.1) l ->
  0 <= total_len l <= rest_from from /\ (total_len l = rest_from from <-> l = whole from).
Proof.
  induction 1 as [|[i n] l Hs IH Hi]; intros Hg from Hf Hfrom.
  - cbn. split; [unfold rest_from; lia|]. split.
    + intros Heq. symmetry in Heq. apply (rest_zero from Hf) in Heq. by rewrite whole_nil.
    + intros Hw. destruct (Z.lt_ge_cases from count) as [Hc|Hc]; [rewrite whole_cons in Hw by lia; done|].
      symmetry. by apply rest_zero.
  - apply Forall_cons in Hg as [[Hi0 Hn] Hg]. apply Forall_cons in Hfrom as [Hfi _]. cbn [fst snd] in *. subst n.
    destruct (IH Hg (i + 1) ltac:(lia)) as [Hb He].
    { eapply Forall_impl; [exact Hi|]. intros [j n] Hj. cbn in *. lia. }
    cbn [total_len foldr snd]. fold (total_len l).
    pose proof (rest_step i Hi0). pose proof (rest_mono from i ltac:(lia)). pose proof (len_pos i Hi0).
    split; [lia|]. split.
    + intros Heq. destruct (decide (i = from)) as [<-|Hne].
      * rewrite whole_cons by lia. f_equal. apply He. lia.
      * pose proof (rest_less from i ltac:(lia) ltac:(lia)). lia.
    + destruct (Z.lt_ge_cases from count) as [Hc|Hc]; [|rewrite whole_nil by lia; done].
      rewrite whole_cons by lia. intros Hw. injection Hw as <- _ Hl.
      pose proof (proj2 He Hl). lia.
Qed.

(** ** Genuine records are accepted *)

Context (Hc : u <= CHUNK_LEN) (Ht : total <= MAX_MESSAGE_SIZE).

Lemma genuine_size r : genuine_record r -> chunk_size_ok total r.1 r.2 = true.
Proof.
  intros [Hi ->]. pose proof (len_pos _ Hi). pose proof count_spec. unfold chunk_size_ok, isSafeInteger.
  assert (MAX_MESSAGE_SIZE < MAX_SAFE_INTEGER) by (vm_compute; done). unfold len_at in *.
  rewrite !andb_true_iff, !Z.leb_le, !Z.ltb_lt. nia.
Qed.

Lemma layout_sum_runs l : StronglySorted (fun a b : Z * Z => a.1 < b.1) l -> Forall genuine_record l ->
  forall previous savedSize, (forall p, previous = Some p -> Forall (fun r => p < r.1) l) ->
  0 <= savedSize -> savedSize + total_len l <= total ->
  layout_sum total previous savedSize l = Ok (savedSize + total_len l).
Proof.
  induction 1 as [|[i n] l Hs IH Hi]; intros Hg previous savedSize Hp Hs0 Hle.
  - cbn. f_equal. lia.
  - apply Forall_cons in Hg as [Hr Hg]. cbn [layout_sum total_len foldr snd] in *. fold (total_len l) in *.
    pose proof (genuine_size _ Hr) as Hok. cbn in Hok. rewrite Hok.
    rewrite (bool_decide_eq_false_2 (previous = Some i)); cycle 1.
    { intros Heq. apply Hp in Heq. apply Forall_cons in Heq as [Heq _]. cbn in Heq. lia. }
    cbn [andb negb require mbind result_bind].
    assert (0 < n) by (destruct Hr as [Hr1 Hr2]; cbn in *; pose proof (len_pos _ Hr1); lia).
    assert (0 <= total_len l).
    { apply (sorted_sum l Hs Hg 0); [lia|]. eapply Forall_impl; [exact Hg|]. intros r [? _]. lia. }
    assert (MAX_MESSAGE_SIZE < MAX_SAFE_INTEGER) by (vm_compute; done).
    assert (isSafeInteger (savedSize + n) && (savedSize + n <=? total) = true) as ->.
    { unfold isSafeInteger. apply andb_true_iff. rewrite !Z.leb_le. lia. }
    cbn [require mbind result_bind]. rewrite IH; [f_equal; lia|done| |lia|lia].
    intros p [= <-]. exact Hi.
Qed.

Lemma layout_lengths_runs l : Forall genuine_record l ->
  layout_lengths count (count - 1) (total - u * (count - 1)) u l = Ok tt.
Proof.
  pose proof count_spec as Hcs.
  induction 1 as [|[i n] l [Hi Hn] _ IH]; [done|]. cbn [fst snd] in *. subst n. cbn [layout_lengths].
  rewrite (proj2 (Z.leb_gt count i)) by lia. cbn [negb require mbind result_bind].
  by rewrite (len_cases i Hi), Z.eqb_refl.
Qed.

Lemma contiguous_whole n : forall i, contiguous i ((fun j => (j, len_at j)) <$> seqZ i (Z.of_nat n)) = true.
Proof.
  induction n as [|n IH]; intros i; [done|]. rewrite seqZ_cons by lia. cbn. rewrite Z.eqb_refl. cbn.
  replace (Z.pred (Z.of_nat (S n))) with (Z.of_nat n) by lia. apply IH.
Qed.

Lemma find_zero l : Forall genuine_record l ->
  match List.find (fun r : Z * Z => r.1 =? 0) l with
  | Some r => r = (0, u) /\ r ∈ l
  | None => Forall (fun r => r.1 <> 0) l
  end.
Proof.
  induction 1 as [|[i n] l [Hi Hn] _ IH]; cbn; [constructor|].
  cbn in *. destruct (Z.eqb_spec i 0) as [->|Hne].
  - split; [|left]. f_equal. rewrite Hn. unfold len_at. lia.
  - destruct (List.find _ l) as [r|]; [|by constructor]. destruct IH. by split; [|right].
Qed.

Lemma max_len_spec l : Forall genuine_record l ->
  forall m, 0 <= m <= u -> 0 <= foldl (fun m (r : Z * Z) => Z.max m r.2) m l <= u /\
    (m = u \/ (exists r, r ∈ l /\ r.1 < count - 1) -> foldl (fun m (r : Z * Z) => Z.max m r.2) m l = u).
Proof.
  induction 1 as [|[i n] l [Hi Hn] _ IH]; intros m Hm; cbn.
  - split; [lia|]. intros [->|(r & Hr & _)]; [done|]. by apply elem_of_nil in Hr.
  - cbn in Hi, Hn. pose proof (len_pos i Hi). destruct (IH (Z.max m n) ltac:(lia)) as [Hb He].
    split; [done|]. intros [->|(r & [->|Hr]%elem_of_cons & Hlt)]; apply He.
    + left. lia.
    + left. cbn in Hlt. rewrite Hn, len_inner by lia. lia.
    + right. eauto.
Qed.

Lemma uniform_genuine l : StronglySorted (fun a b : Z * Z => a.1 < b.1) l -> Forall genuine_record l ->
  uniform_of l = Some u \/ (uniform_of l = None /\ (l = [] \/ total_len l <> total)).
Proof.
  intros Hs Hg. unfold uniform_of. pose proof (find_zero l Hg) as Hz.
  destruct (List.find _ l) as [r|]; [destruct Hz as [-> _]; by left|].
  destruct l as [|r [|r' l]]; cbn [List.length Nat.leb].
  - right. split; [done|by left].
  - right. split; [done|]. right. intros Heq.
    pose proof (sorted_sum [r] Hs Hg 0 ltac:(lia)) as [_ Hw].
    { constructor; [|constructor]. apply Forall_cons in Hg as [[? _] _]. lia. }
    rewrite rest_all in Hw. apply Hw in Heq. rewrite whole_cons in Heq by (pose proof count_spec; lia).
    injection Heq as -> _. apply Forall_cons in Hz as [Hz _]. cbn in Hz. lia.
  - left. f_equal. unfold max_len. apply (max_len_spec _ Hg); [lia|]. right. exists r. split; [left|].
    apply StronglySorted_inv in Hs as [_ Hlt]. apply Forall_cons in Hlt as [Hlt _].
    apply Forall_cons in Hg as [_ [[Hr' _] _]%Forall_cons]. lia.
Qed.

Lemma total_len_app l k : total_len (l ++ k) = total_len l + total_len k.
Proof. unfold total_len. induction l as [|x l IH]; cbn; [done|]. rewrite IH. lia. Qed.
Lemma total_len_perm l k : l ≡ₚ k -> total_len l = total_len k.
Proof. unfold total_len. induction 1; cbn; lia. Qed.

(** The chunks of one file, some of them, in any order. *)
Lemma validate_genuine records : NoDup records.*1 -> Forall genuine_record records ->
  0 <= total_len records <= total /\
  validateLayout total records = Ok (total_len records, total_len records =? total) /\
  (total_len records = total <-> array_sort (fun a b => a.1 - b.1) records = whole 0).
Proof.
  intros Hnd Hg. pose proof (array_sort_perm (fun a b : Z * Z => a.1 - b.1) records) as Hp.
  pose proof (sort_strict fst records Hnd) as Hs. cbn beta in Hs.
  assert (Forall genuine_record (array_sort (fun a b => a.1 - b.1) records)) as Hgs by (by rewrite Hp).
  assert (Forall (fun r => 0 <= r.1) (array_sort (fun a b => a.1 - b.1) records)) as H0.
  { eapply Forall_impl; [exact Hgs|]. intros r [? _]. lia. }
  destruct (sorted_sum _ Hs Hgs 0 ltac:(lia) H0) as [Hb He]. rewrite rest_all in Hb, He.
  rewrite <- (total_len_perm _ _ Hp). split; [done|]. split; [|done].
  unfold validateLayout. rewrite (layout_sum_runs _ Hs Hgs None 0) by (done || lia).
  cbn [mbind result_bind]. rewrite Z.add_0_l.
  destruct (uniform_genuine _ Hs Hgs) as [->|[-> Hn]].
  - fold count. rewrite (layout_lengths_runs _ Hgs). cbn [mbind result_bind].
    destruct (Z.eqb_spec (total_len (array_sort (fun a b => a.1 - b.1) records)) total) as [Heq|Hne]; [|done].
    apply He in Heq as ->. unfold whole. rewrite Z.sub_0_r.
    assert (contiguous 0 ((fun j => (j, len_at j)) <$> seqZ 0 count) = true) as ->.
    { rewrite <- (Z2Nat.id count) by (pose proof count_spec; lia). apply contiguous_whole. }
    assert ((blen ((fun j => (j, len_at j)) <$> seqZ 0 count) =? count) = true) as ->.
    { apply Z.eqb_eq. unfold blen. rewrite length_fmap, length_seqZ. pose proof count_spec. lia. }
    done.
  - assert ((total_len (array_sort (fun a b => a.1 - b.1) records) =? total) = false) as ->; [|done].
    apply Z.eqb_neq. destruct Hn as [->|Hn]; [cbn; lia|done].
Qed.
End Layout.

(** ** Theorems *)

Lemma contiguous_spec (f : Z -> Z) l : forall i, contiguous i l = true -> Forall (fun r => r.2 = f r.1) l ->
  l = (fun j => (j, f j)) <$> seqZ i (blen l).
Proof.
  induction l as [|[j n] l IH]; intros i H Hl; [done|]. cbn in H. apply andb_true_iff in H as [->%Z.eqb_eq H].
  apply Forall_cons in Hl as [Hn Hl]. cbn in Hn. subst n.
  rewrite blen_cons, seqZ_cons by (pose proof (blen_nonneg l); lia). cbn. f_equal.
  replace (Z.pred (1 + blen l)) with (blen l) by lia. by apply IH.
Qed.

Lemma layout_sum_ok total l : forall previous savedSize s, layout_sum total previous savedSize l = Ok s ->
  Forall (fun r => 0 < r.2 <= CHUNK_LEN /\ r.2 <= total) l.
Proof.
  induction l as [|[i n] l IH]; intros previous savedSize s H; [constructor|].
  cbn [layout_sum] in H. binds H. apply require_ok, andb_true_iff in E as [E _].
  unfold chunk_size_ok in E. rewrite !andb_true_iff, !Z.leb_le, !Z.ltb_lt in E.
  constructor; [cbn; lia|by eapply IH].
Qed.

Lemma layout_lengths_ok c fi fl un l : layout_lengths c fi fl un l = Ok tt ->
  Forall (fun r => r.2 = if r.1 =? fi then fl else un) l.
Proof.
  induction l as [|[i n] l IH]; intros H; [constructor|]. cbn [layout_lengths] in H. binds H.
  apply require_ok, Z.eqb_eq in E0. constructor; [done|by apply IH].
Qed.

Lemma uniform_bounds total l u : Forall (fun r => 0 < r.2 <= CHUNK_LEN /\ r.2 <= total) l ->
  uniform_of l = Some u -> 0 < u <= CHUNK_LEN /\ u <= total.
Proof.
  intros Hl. unfold uniform_of. destruct (List.find _ l) as [r|] eqn:Hf.
  - apply List.find_some in Hf as [Hin _]. intros [= <-]. apply list_elem_of_In in Hin.
    by apply (proj1 (Forall_forall _ _) Hl).
  - destruct (2 <=? _)%nat eqn:Hn; [|done]. intros [= <-]. destruct l as [|r l]; [done|]. clear Hf Hn.
    apply Forall_cons in Hl as [Hr Hl]. unfold max_len. cbn [foldl].
    assert (forall m, 0 < m <= CHUNK_LEN /\ m <= total ->
      let x := foldl (fun m (r : Z * Z) => Z.max m r.2) m l in 0 < x <= CHUNK_LEN /\ x <= total) as Hx.
    { induction Hl as [|y l Hy _ IH]; intros m Hm; [done|]. apply IH. lia. }
    apply Hx. lia.
Qed.

(** C4. A completion cannot be claimed with a gap.  Whatever records a transfer has
    accumulated, chosen by a hostile peer or not, in whatever order: if
    [validateLayout] reports it complete then for some chunk size the records
    are exactly the chunks [0, 1, ..., n - 1] of the declared size, each full
    but the last, which has the remainder. *)
Theorem completion_covers_file total records savedSize :
  validateLayout total records = Ok (savedSize, true) ->
  savedSize = total /\ exists u, 0 < u <= CHUNK_LEN /\ u <= total /\
    records ≡ₚ (fun i => (i, Z.min u (total - i * u))) <$> seqZ 0 (ceil_div total u).
Proof.
  unfold validateLayout. intros H. binds H. rename x into saved.
  destruct (uniform_of _) as [u|] eqn:Hu; [|by binds H].
  binds H. apply require_ok in E1. injection H as <- Hcomp.
  rewrite !andb_true_iff, !Z.eqb_eq in Hcomp. destruct Hcomp as [[-> Hlen] Hcont].
  split; [done|]. pose proof (layout_sum_ok _ _ _ _ _ E) as Hsz.
  destruct (uniform_bounds _ _ _ Hsz Hu) as [Hu1 Hu2]. exists u. split_and!; try lia.
  apply layout_lengths_ok in E0.
  pose proof (contiguous_spec (fun i => if i =? ceil_div total u - 1 then total - u * (ceil_div total u - 1) else u)
    _ 0 Hcont E0) as Heq.
  rewrite <- (array_sort_perm (fun a b : Z * Z => a.1 - b.1) records), Heq, Hlen.
  erewrite list_fmap_ext; [reflexivity|]. intros k i Hk. cbn beta. apply (f_equal (pair i)).
  apply lookup_seqZ in Hk as [-> Hk]. symmetry. apply (len_cases total u ltac:(lia)). unfold count. lia.
Qed.
