(* ===== verification/ReceiveFile.v ===== *)
(** * The received file is the file that was sent

    The store of [ReceiveStore] fed with the chunks of one file, in any order,
    any number of times, with OPFS failing or absent, writes landing in part,
    handles closed and the worker restarted in between: what [readMessage] hands
    out is the file.  The one failure this excludes, a transaction that is aborted
    while the worker lives, is followed to the file it corrupts. *)

From Stdlib Require Import String Sorting.Sorted.
From stdpp Require Import gmap sorting.
From S2P Require Import Prelude Bytes Constants Metadata ReceiveStore ReceiveLayout.
Local Open Scope Z_scope.
Local Open Scope list_scope.

Section File.
Context (F : bytes) (u : Z).
Let total : Z := blen F.
Context (Hu : 0 < u <= total) (Huc : u <= CHUNK_LEN) (Htm : total <= MAX_MESSAGE_SIZE).
Let count : Z := count total u.
Let len (i : Z) : Z := len_at total u i.

(** The bytes of chunk [i]. *)
Definition piece (i : Z) : bytes := slice F (i * u) (i * u + len i).
Definition at_place (f : bytes) (i : Z) : Prop := slice f (i * u) (i * u + len i) = piece i.

Lemma len_range i : 0 <= i < count -> 0 < len i <= u /\ i * u + len i <= total.
Proof. intros Hi. pose proof (len_pos total u Hu i Hi). unfold len, len_at in *. lia. Qed.
Lemma blen_piece i : 0 <= i < count -> blen (piece i) = len i.
Proof.
  intros Hi. pose proof (len_range i Hi). unfold piece. rewrite blen_slice by nia. fold total. lia.
Qed.
Lemma pieces_apart i j : 0 <= i -> 0 <= j -> i <> j -> i * u + len i <= j * u \/ j * u + len j <= i * u.
Proof. intros. assert (len i <= u /\ len j <= u) by (unfold len, len_at; lia). nia. Qed.

(** The pieces make up the file. *)
Lemma pieces_cover f : blen f = total -> (forall i, 0 <= i < count -> at_place f i) -> f = F.
Proof.
  intros Hl Hp. apply list_eq. intros k.
  destruct (decide (k < length F)%nat) as [Hk|Hk].
  2: { rewrite !lookup_ge_None_2; [done|lia|]. unfold total, blen in Hl. lia. }
  pose proof (count_spec total u Hu) as Hc. fold count in Hc.
  set (i := Z.of_nat k / u). assert (0 <= i) as Hi0 by (apply Z.div_pos; lia).
  pose proof (Z.div_mod (Z.of_nat k) u ltac:(lia)) as Hdm. fold i in Hdm.
  pose proof (Z.mod_pos_bound (Z.of_nat k) u ltac:(lia)) as Hm.
  assert (i < count) as Hic by (unfold total, blen in *; nia).
  pose proof (Hp i ltac:(lia)) as Ha. pose proof (len_range i ltac:(lia)) as [Hlen Hle].
  assert (i * u + Z.of_nat k mod u < i * u + len i) as Hin.
  { unfold len, len_at in *. unfold total, blen in *. nia. }
  unfold at_place, piece in Ha.
  apply (f_equal (fun l => l !! Z.to_nat (Z.of_nat k mod u))) in Ha.
  rewrite !lookup_slice in Ha by lia.
  replace (Z.to_nat (i * u) + Z.to_nat (Z.of_nat k mod u))%nat with k in Ha by lia.
  revert Ha. repeat case_decide; try done; intros; lia.
Qed.

(** ** Writes into the file *)

Definition sized (f : bytes) : Prop := blen f = total.

(** Writing a prefix of a piece at its place: the other pieces stay. *)
Lemma write_piece f i k : sized f -> 0 <= i < count -> 0 <= k ->
  sized (file_write f (i * u) (slice (piece i) 0 k)) /\
  (forall j, 0 <= j < count -> j <> i -> at_place f j -> at_place (file_write f (i * u) (slice (piece i) 0 k)) j).
Proof.
  intros Hf Hi Hk. pose proof (len_range i Hi) as [Hl Hle]. pose proof (blen_piece i Hi) as Hb.
  assert (blen (slice (piece i) 0 k) <= len i) as Hs.
  { unfold blen, slice in *. rewrite length_take, length_drop. lia. }
  unfold file_write. rewrite (proj2 (Z.ltb_ge (blen f) _)) by (unfold sized in Hf; lia).
  assert (0 <= i * u) by nia. split.
  - unfold sized. rewrite blen_bset; [done|lia|unfold sized in Hf; lia].
  - intros j Hj Hne Hp. unfold at_place. rewrite slice_bset_other; [done|lia|unfold sized in Hf; lia|nia|].
    destruct (pieces_apart i j) as [Ha|Ha]; lia || auto with lia.
Qed.
Lemma write_whole f i : sized f -> 0 <= i < count ->
  sized (file_write f (i * u) (piece i)) /\ at_place (file_write f (i * u) (piece i)) i /\
  (forall j, 0 <= j < count -> at_place f j -> at_place (file_write f (i * u) (piece i)) j).
Proof.
  intros Hf Hi. pose proof (len_range i Hi) as [Hl Hle]. pose proof (blen_piece i Hi) as Hb.
  assert (at_place (file_write f (i * u) (piece i)) i) as Hp.
  { unfold at_place, file_write. rewrite (proj2 (Z.ltb_ge (blen f) _)) by (unfold sized in Hf; lia).
    apply slice_bset_same; [nia|unfold sized in Hf; lia|lia]. }
  destruct (write_piece f i (len i) Hf Hi ltac:(lia)) as [H1 H2].
  rewrite slice_all in H1, H2 by done. split; [done|]. split; [done|].
  intros j Hj Hpj. destruct (decide (j = i)) as [->|Hne]; [done|]. by apply H2.
Qed.
Lemma presized_ok file : (forall f, file = Some f -> sized f \/ f = []) ->
  sized (presized file total) /\ forall f, file = Some f -> sized f -> presized file total = f.
Proof.
  intros Hf. unfold presized. assert ((0 <? total) = true) as -> by lia. cbn [andb].
  assert (sized (truncate [] total)) as Ht.
  { unfold truncate, sized. rewrite (proj2 (Z.ltb_ge total _)) by (rewrite blen_nil; lia).
    rewrite blen_app, blen_nil, blen_zeros by (rewrite ?blen_nil; lia). lia. }
  assert (negb (blen (@nil Byte.byte) =? total) = true) as Hz by (rewrite blen_nil; lia).
  destruct file as [f|].
  2: { change (default [] None) with (@nil Byte.byte). by rewrite Hz. }
  change (default [] (Some f)) with f.
  destruct (Hf f eq_refl) as [Hs| ->].
  - unfold sized in *. rewrite Hs, Z.eqb_refl. cbn. split; [done|]. by intros ? [= <-] _.
  - rewrite Hz. split; [done|].
    intros f [= <-] Hx. unfold sized in Hx. rewrite blen_nil in Hx. lia.
Qed.

(** ** The invariant *)

Definition chunk_ok (file : option bytes) (c : Chunk) : Prop :=
  0 <= ck_chunkIndex c < count /\ ck_realLen c = len (ck_chunkIndex c) /\
  (ck_data c = Some (piece (ck_chunkIndex c)) \/
   ck_data c = None /\ exists f, file = Some f /\ at_place f (ck_chunkIndex c)).

(** What the open handle has learnt: the size of the chunks, or nothing, or the
    length of one recorded chunk. *)
Definition entry_ok (chunks : list Chunk) (e : ReceiveFileEntry) : Prop :=
  if fe_uniformKnown e then count = 1 \/ fe_uniformSize e = u
  else fe_seenCount e = 0 /\ fe_maxRealLen e = 0 \/
       fe_seenCount e = 1 /\ exists j, has_chunk j chunks = true /\ 0 < j < count /\ fe_maxRealLen e = len j.

Record inv (s : Store) : Prop := {
  iv_nodup : NoDup (ck_chunkIndex <$> sv_chunks s);
  iv_chunks : Forall (chunk_ok (sv_file s)) (sv_chunks s);
  iv_file : forall f, sv_file s = Some f -> sized f \/ f = [];
  iv_entry : forall e, sv_entry s = Some e -> entry_ok (sv_chunks s) e /\ exists f, sv_file s = Some f /\ sized f;
}.

(** A chunk of the file as the receive path hands it over. *)
Definition genuine (c : ReceiveChunk) : Prop :=
  0 <= rc_chunkIndex c < count /\ rc_totalSize c = total /\ rc_data c = piece (rc_chunkIndex c) /\
  rc_realLen c = len (rc_chunkIndex c) /\ rc_opfs c = true.

Lemma has_chunk_spec i chunks : has_chunk i chunks = true <-> i ∈ ck_chunkIndex <$> chunks.
Proof.
  unfold has_chunk. rewrite existsb_exists, list_elem_of_fmap. split.
  - intros (c & Hin & Hc). exists c. apply Z.eqb_eq in Hc. by split; [|apply list_elem_of_In].
  - intros (c & -> & Hin). exists c. split; [by apply list_elem_of_In|apply Z.eqb_refl].
Qed.
Lemma chunk_ok_file file file' c : chunk_ok file c ->
  (forall f, file = Some f -> at_place f (ck_chunkIndex c) -> exists f', file' = Some f' /\ at_place f' (ck_chunkIndex c)) ->
  chunk_ok file' c.
Proof.
  intros (Hi & Hl & Hd) Hf. split; [done|]. split; [done|]. destruct Hd as [Hd|(Hd & f & Hs & Hp)]; [by left|].
  right. split; [done|]. by eapply Hf.
Qed.
Lemma layout_genuine s : inv s -> Forall (genuine_record total u) (layout_of (sv_chunks s)) /\
  NoDup (layout_of (sv_chunks s)).*1.
Proof.
  intros Hs. split.
  - apply Forall_fmap. eapply Forall_impl; [exact (iv_chunks s Hs)|]. intros c (Hi & Hl & _). by split.
  - unfold layout_of. rewrite <- list_fmap_compose. exact (iv_nodup s Hs).
Qed.

(** ** Storing a chunk *)

Lemma has_chunk_more chunks more j : has_chunk j chunks = true -> has_chunk j (chunks ++ more) = true.
Proof. rewrite !has_chunk_spec, fmap_app, elem_of_app. by left. Qed.
Definition record_at (i : Z) : Chunk :=
  {| ck_hash := ""; ck_chunkIndex := i; ck_data := None; ck_mimeType := ""; ck_realLen := 0; ck_leafHash := "" |}.

(** A chunk not seen before teaches the size, or is the first. *)
Lemma learn_ok chunks chunks' e i : entry_ok chunks e -> 0 <= i < count -> has_chunk i chunks = false ->
  has_chunk i chunks' = true -> (forall j, has_chunk j chunks = true -> has_chunk j chunks' = true) ->
  entry_ok chunks' (learn e i (len i) total) /\
  (fe_uniformKnown (learn e i (len i) total) = true -> (if i =? 0 then 0 else i * fe_uniformSize (learn e i (len i) total)) = i * u).
Proof.
  intros He Hi Hn Hh Hmono. pose proof (len_range i Hi) as [Hl _]. pose proof (count_spec total u Hu) as Hc. fold count in Hc.
  assert (forall x, fe_uniformKnown x = true -> (count = 1 \/ fe_uniformSize x = u) ->
    (if i =? 0 then 0 else i * fe_uniformSize x) = i * u) as Hoff.
  { intros x _ Hx. destruct (Z.eqb_spec i 0) as [->|Hne]; [lia|]. destruct Hx as [Hx|Hx]; [lia|by rewrite Hx]. }
  unfold entry_ok in He. unfold learn. destruct (fe_uniformKnown e) eqn:Hk.
  { split; [exact He|]. intros _. by apply (Hoff {| fe_uniformSize := fe_uniformSize e; fe_uniformKnown := true;
      fe_maxRealLen := 0; fe_seenCount := 0 |}). }
  destruct (Z.eqb_spec i 0) as [->|Hi0].
  { split; [|intros; lia]. unfold entry_ok. cbn [fe_uniformKnown fe_uniformSize].
    unfold len, len_at in *. destruct (Z.ltb_spec (Z.min u (total - 0 * u)) total) as [Hlt|Hge]; [right; lia|left].
    assert (u = total) by lia. nia. }
  destruct He as [[Hs Hm]|(Hs & j & Hj & Hjc & Hm)]; rewrite Hs, Hm.
  - cbn [Z.add Z.leb Z.compare Pos.compare]. change (2 <=? 0 + 1) with false. split; [|done].
    unfold entry_ok. cbn [fe_uniformKnown fe_seenCount fe_maxRealLen]. right. split; [done|].
    exists i. split_and!; [done|lia..].
  - change (2 <=? 1 + 1) with true. cbn iota. assert (Z.max (len j) (len i) = u) as ->.
    { destruct (decide (j = i)) as [->|Hne]; [congruence|].
      pose proof (len_range j ltac:(lia)) as [Hlj _].
      destruct (decide (i < count - 1)) as [Hlt|Hge].
      - pose proof (len_inner total u Hu i ltac:(unfold count in *; lia)) as Hin. unfold len in *. lia.
      - pose proof (len_inner total u Hu j ltac:(unfold count in *; lia)) as Hin. unfold len in *. lia. }
    split; [|intros _; cbn; lia]. unfold entry_ok. cbn. by right.
Qed.

Lemma learn_offset chunks e i : entry_ok chunks e -> 0 <= i < count -> has_chunk i chunks = false ->
  fe_uniformKnown (learn e i (len i) total) = true ->
  (if i =? 0 then 0 else i * fe_uniformSize (learn e i (len i) total)) = i * u.
Proof.
  intros He Hi Hn.
  assert (has_chunk i (chunks ++ [record_at i]) = true) as Hh.
  { apply has_chunk_spec. rewrite fmap_app. apply elem_of_app. right. left. }
  apply (proj2 (learn_ok chunks (chunks ++ [record_at i]) e i He Hi Hn Hh ltac:(apply has_chunk_more))).
Qed.

(** What placing leaves: the records untouched, the bytes where they belong. *)
Record placed s (i : Z) (b : bool) (s1 : Store) : Prop := {
  pd_chunks : sv_chunks s1 = sv_chunks s;
  pd_message : sv_message s1 = sv_message s;
  pd_rooms : sv_rooms s1 = sv_rooms s;
  pd_old : Forall (chunk_ok (sv_file s1)) (sv_chunks s);
  pd_sized : forall f, sv_file s1 = Some f -> sized f \/ f = [];
  pd_new : b = true -> exists f, sv_file s1 = Some f /\ at_place f i;
  pd_entry : forall record e, ck_chunkIndex record = i -> sv_entry s1 = Some e ->
    entry_ok (sv_chunks s ++ [record]) e /\ exists f, sv_file s1 = Some f /\ sized f;
}.

Lemma ensure_ok opens s : inv s ->
  (ensureReceiveHandle opens total s = (Ok None, s) /\ sv_entry s = None) \/
  exists e f, ensureReceiveHandle opens total s = (Ok (Some e), set_file (Some f) (Some e) s) /\
    entry_ok (sv_chunks s) e /\ sized f /\ Forall (chunk_ok (Some f)) (sv_chunks s).
Proof.
  intros Hs. unfold ensureReceiveHandle, mbind, M_bind, get_this.
  destruct (sv_entry s) as [e|] eqn:He.
  - right. destruct (iv_entry s Hs e He) as (Hok & f & Hf & Hsz). exists e, f. split_and!; try done.
    + unfold mret, M_ret, set_file. rewrite <- He, <- Hf. by destruct s.
    + rewrite <- Hf. apply Hs.
  - destruct opens; [right|by left]. destruct (presized_ok (sv_file s) (iv_file s Hs)) as [Hsz Hsame].
    eexists _, (presized (sv_file s) total). split; [reflexivity|]. split; [by left|]. split; [done|].
    eapply Forall_impl; [exact (iv_chunks s Hs)|]. intros c Hok. pose proof Hok as (Hi & _).
    eapply chunk_ok_file; [exact Hok|]. intros f Hf Hp.
    exists (presized (sv_file s) total). split; [done|].
    rewrite (Hsame f Hf); [done|]. destruct (iv_file s Hs f Hf) as [|Hnil]; [done|]. subst f.
    unfold at_place in Hp. pose proof (blen_piece _ Hi) as Hb. pose proof (len_range _ Hi) as [Hl _].
    rewrite <- Hp in Hb. unfold slice in Hb. rewrite drop_nil, take_nil in Hb. rewrite blen_nil in Hb. lia.
Qed.

Lemma place_ok env s i r s1 : inv s -> 0 <= i < count -> has_chunk i (sv_chunks s) = false ->
  (forall n, ev_lands env = Some n -> 0 <= n) ->
  placeReceiveChunk env i (len i) total (piece i) s = (r, s1) -> exists b, r = Ok b /\ placed s i b s1.
Proof.
  intros Hs Hi Hn Henv H. unfold placeReceiveChunk, mbind, M_bind in H.
  destruct (ensure_ok (ev_opens env) s Hs) as [[Heq Hnone]|(e & f & Heq & He & Hf & Hc)]; rewrite Heq in H.
  { injection H as <- <-. exists false. split; [done|]. split; try done; [apply Hs|apply Hs|].
    intros record e _ He. congruence. }
  assert (forall record, ck_chunkIndex record = i -> entry_ok (sv_chunks s ++ [record]) (learn e i (len i) total)) as Hl.
  { intros record Hr. eapply (proj1 (learn_ok _ _ _ _ He Hi Hn _ _)). Unshelve.
    - apply has_chunk_spec. rewrite fmap_app. apply elem_of_app. right. rewrite <- Hr. left.
    - intros j. apply has_chunk_more. }
  unfold modify_this in H. cbn [sv_file sv_entry set_file] in H.
  destruct (negb (fe_uniformKnown (learn e i (len i) total))) eqn:Hk.
  { injection H as <- <-. exists false. split; [done|]. split; try done.
    - intros f' [= <-]. by left.
    - intros record e' Hr [= <-]. split; [by apply Hl|]. by exists f. }
  apply negb_false_iff in Hk. rewrite (learn_offset _ _ _ He Hi Hn Hk) in H.
  change (default [] (Some f)) with f in H.
  exists (bool_decide (ev_lands env = None)). injection H as <- <-. split; [done|].
  set (g := file_write f (i * u) _).
  assert (sized g /\ (forall j, 0 <= j < count -> j <> i -> at_place f j -> at_place g j) /\
    (ev_lands env = None -> at_place g i)) as (Hg1 & Hg2 & Hg3).
  { unfold g. destruct (ev_lands env) as [n|] eqn:He2.
    - destruct (write_piece f i n Hf Hi ltac:(auto)) as [H1 H2]. by split_and!.
    - destruct (write_whole f i Hf Hi) as (H1 & H2 & H3). split_and!; auto. }
  split; try done.
  - apply Forall_forall. intros c Hin. pose proof (proj1 (Forall_forall _ _) Hc c Hin) as Hok.
    pose proof Hok as [Hic _]. eapply chunk_ok_file; [exact Hok|]. intros f' [= <-] Hp. exists g. split; [done|].
    apply Hg2; [done| |done]. intros <-. apply not_true_iff_false in Hn. apply Hn, has_chunk_spec.
    by apply list_elem_of_fmap_2.
  - intros f' [= <-]. by left.
  - intros Hb%bool_decide_eq_true. exists g. auto.
  - intros record e' Hr [= <-]. split; [by apply Hl|]. by exists g.
Qed.

(** How many bytes of the file have arrived. *)
Definition saved (s : Store) : Z := total_len (layout_of (sv_chunks s)).

Lemma validate_stored s : inv s ->
  validateLayout total (layout_of (sv_chunks s)) = Ok (saved s, saved s =? total).
Proof.
  intros Hs. destruct (layout_genuine s Hs) as [Hg Hnd].
  by destruct (validate_genuine total u Hu Huc Htm _ Hnd Hg) as (_ & Hv & _).
Qed.
Lemma not_recorded i s : has_chunk i (sv_chunks s) = false -> i ∉ ck_chunkIndex <$> sv_chunks s.
Proof. intros H Hin. apply has_chunk_spec in Hin. congruence. Qed.
Lemma validate_one_more s i : inv s -> 0 <= i < count -> has_chunk i (sv_chunks s) = false ->
  validateLayout total (layout_of (sv_chunks s) ++ [(i, len i)]) = Ok (saved s + len i, saved s + len i =? total).
Proof.
  intros Hs Hi Hn. destruct (layout_genuine s Hs) as [Hg Hnd].
  destruct (validate_genuine total u Hu Huc Htm (layout_of (sv_chunks s) ++ [(i, len i)])) as (_ & Hv & _).
  - rewrite fmap_app. apply NoDup_app. split; [done|]. split; [|by apply NoDup_singleton].
    intros j Hj ->%list_elem_of_singleton. revert Hj. unfold layout_of. rewrite <- list_fmap_compose.
    by apply not_recorded.
  - apply Forall_app. split; [done|]. by constructor.
  - rewrite Hv, total_len_app. cbn. by rewrite Z.add_0_r.
Qed.

(** The answers of the environment that the theorem allows: what a write lands is
    a prefix, and a transaction commits or the worker dies. *)
Definition env_ok (env : Env) : Prop :=
  (forall n, ev_lands env = Some n -> 0 <= n) /\ ev_commit env <> aborted.

Lemma commit_ok c b s s1 commit r s2 : inv s -> genuine c -> has_chunk (rc_chunkIndex c) (sv_chunks s) = false ->
  placed s (rc_chunkIndex c) b s1 -> assertManifest c (sv_message s) = Ok tt -> commit <> aborted ->
  commit_chunk c (record_of c b) commit s1 = (r, s2) ->
  inv s2 /\ (commit = committed -> exists res, r = Ok res) /\
  (forall res, r = Ok res -> has_chunk (rc_chunkIndex c) (sv_chunks s2) = true /\
    res = {| sr_stored := true; sr_savedSize := saved s2; sr_complete := saved s2 =? total |}).
Proof.
  intros Hs (Hi & Ht & Hd & Hl & Ho) Hn [P1 P2 P3 P4 P5 P6 P7] Hm Hc H.
  set (record := record_of c b) in *.
  assert (ck_chunkIndex record = rc_chunkIndex c) as Hri by done.
  unfold commit_chunk, mbind, M_bind, get_this, mret, M_ret, lift, mthrow in H.
  rewrite P1, Hn, Ht, Hl, P2, Hm in H. rewrite (validate_one_more s _ Hs Hi Hn) in H.
  assert (layout_of (sv_chunks s ++ [record]) = layout_of (sv_chunks s) ++ [(rc_chunkIndex c, len (rc_chunkIndex c))]) as Hlay.
  { unfold layout_of. rewrite fmap_app. cbn. by rewrite Hl. }
  rewrite Hlay, (validate_one_more s _ Hs Hi Hn) in H. cbn [fst snd negb] in H.
  destruct commit; [|done|].
  - injection H as <- <-. split; [|split; [by eexists|]].
    + split; cbn [sv_chunks sv_file sv_entry].
      * rewrite fmap_app. apply NoDup_app. split; [apply Hs|]. split; [|by apply NoDup_singleton].
        intros j Hj ->%list_elem_of_singleton. by apply (not_recorded _ _ Hn).
      * apply Forall_app. split; [done|]. constructor; [|constructor]. split; [done|]. split; [done|].
        unfold record, record_of. cbn. rewrite Ho, Hd. destruct b; cbn; [right|by left]. split; [done|]. by apply P6.
      * done.
      * intros e He. by apply P7.
    + intros res [= <-]. cbn [sv_chunks]. split.
      * apply has_chunk_spec. rewrite fmap_app. apply elem_of_app. right. left.
      * assert (saved {| sv_chunks := sv_chunks s ++ [record]; sv_message := Some (message_of c (sv_message s) (saved s + len (rc_chunkIndex c)));
          sv_rooms := count_message c (sv_rooms s1); sv_file := sv_file s1; sv_entry := sv_entry s1 |} = saved s + len (rc_chunkIndex c)) as Hsv.
        { unfold saved. cbn [sv_chunks]. rewrite Hlay, total_len_app. cbn. by rewrite Z.add_0_r. }
        by rewrite Hsv.
  - injection H as <- <-. split; [|split; [done|done]].
    split; cbn [sv_chunks sv_file sv_entry set_file]; [rewrite P1; apply Hs|by rewrite P1|done|done].
Qed.

(** One chunk of the file arrives. *)
Lemma store_ok c env s r s' : inv s -> genuine c -> env_ok env ->
  storeReceiveChunkLocked c env s = (r, s') ->
  inv s' /\
  (receive_bounds c = true -> assertManifest c (sv_message s) = Ok tt -> ev_commit env = committed -> exists res, r = Ok res) /\
  (forall res, r = Ok res -> has_chunk (rc_chunkIndex c) (sv_chunks s') = true /\
    res = {| sr_stored := negb (has_chunk (rc_chunkIndex c) (sv_chunks s));
             sr_savedSize := saved s'; sr_complete := saved s' =? total |}).
Proof.
  intros Hs Hg [He Hc] H. pose proof Hg as (Hi & Ht & Hd & Hl & Ho).
  unfold storeReceiveChunkLocked, mrequire, mbind, M_bind, get_this, mret, M_ret, lift in H.
  destruct (receive_bounds c); cbn [require] in H; [|by injection H as <- <-].
  destruct (assertManifest c (sv_message s)) as [[]|er] eqn:Hm; [|by injection H as <- <-].
  destruct (has_chunk (rc_chunkIndex c) (sv_chunks s)) eqn:Hn.
  - rewrite Ht, (validate_stored s Hs) in H. injection H as <- <-. split; [done|]. split; [by eexists|].
    intros res [= <-]. by split.
  - rewrite Ht, Hl, (validate_one_more s _ Hs Hi Hn), Ho, Hd in H.
    destruct (placeReceiveChunk _ _ _ _ _ s) as [rp s1] eqn:Hp.
    destruct (place_ok _ _ _ _ _ Hs Hi Hn He Hp) as (b & -> & Hpl).
    destruct (commit_ok c b s s1 _ r s' Hs Hg Hn Hpl Hm Hc H) as (H1 & H2 & H3).
    split; [done|]. split; [auto|done].
Qed.

(** ** Reading the file *)

Lemma insert_fmap {A} (f : A -> Z * Z) x l :
  f <$> insert_sorted (fun a b => (f a).1 - (f b).1) x l = insert_sorted (fun a b => a.1 - b.1) (f x) (f <$> l).
Proof. induction l as [|y l IH]; [done|]. cbn. case_match; [done|]. cbn. by rewrite IH. Qed.
Lemma layout_cursor s : layout_of (cursor s) = array_sort (fun a b => a.1 - b.1) (layout_of (sv_chunks s)).
Proof.
  unfold cursor, layout_of. induction (sv_chunks s) as [|c l IH]; [done|].
  etrans; [exact (insert_fmap (fun c => (ck_chunkIndex c, ck_realLen c)) c _)|].
  exact (f_equal (insert_sorted (fun a b : Z * Z => a.1 - b.1) (ck_chunkIndex c, ck_realLen c)) IH).
Qed.
Lemma cursor_perm s : cursor s ≡ₚ sv_chunks s.
Proof. apply array_sort_perm. Qed.
Lemma cursor_whole s : inv s -> saved s = total -> layout_of (cursor s) = whole total u 0.
Proof.
  intros Hs Hsv. rewrite layout_cursor. destruct (layout_genuine s Hs) as [Hg Hnd].
  by apply (validate_genuine total u Hu Huc Htm _ Hnd Hg).
Qed.
Lemma whole_has s i : inv s -> saved s = total -> 0 <= i < count ->
  exists c, c ∈ sv_chunks s /\ ck_chunkIndex c = i /\ chunk_ok (sv_file s) c.
Proof.
  intros Hs Hsv Hi. pose proof (cursor_whole s Hs Hsv) as Hw.
  assert (i ∈ (layout_of (cursor s)).*1) as Hin.
  { rewrite Hw. unfold whole. rewrite <- list_fmap_compose. cbn.
    apply list_elem_of_fmap. exists i. split; [done|]. apply elem_of_seqZ. unfold count in Hi. lia. }
  unfold layout_of in Hin. rewrite <- list_fmap_compose in Hin. apply list_elem_of_fmap in Hin as (c & -> & Hc).
  rewrite cursor_perm in Hc. exists c. split; [done|]. split; [done|].
  by apply (proj1 (Forall_forall _ _) (iv_chunks s Hs)).
Qed.

(** The writes of a migration, whole or cut short. *)
Definition prefix_of_piece (r : Z * bytes) : Prop :=
  0 <= r.1 < count /\ exists k, 0 <= k /\ r.2 = slice (piece r.1) 0 k.
Lemma whole_prefix i : 0 <= i < count -> prefix_of_piece (i, piece i).
Proof.
  intros Hi. split; [done|]. exists (len i). pose proof (len_range i Hi). split; [lia|]. cbn.
  symmetry. apply slice_all. by rewrite blen_piece.
Qed.
Lemma migrate_ok L : Forall prefix_of_piece L -> forall f, sized f ->
  sized (migrate u f L) /\
  (forall j, 0 <= j < count -> (forall r, r ∈ L -> r.1 = j -> r.2 = piece j) ->
     at_place f j \/ (exists r, r ∈ L /\ r.1 = j) -> at_place (migrate u f L) j).
Proof.
  induction 1 as [|[i d] L (Hi & k & Hk & Hd) _ IH]; intros f Hf; cbn [migrate foldl].
  { split; [done|]. intros j _ _ [|(r & Hr & _)]; [done|]. by apply elem_of_nil in Hr. }
  cbn [fst snd] in *. subst d. fold (migrate u).
  assert ((if i =? 0 then 0 else i * u) = i * u) as -> by (destruct (Z.eqb_spec i 0); lia).
  destruct (write_piece f i k Hf Hi Hk) as [H1 H2]. destruct (IH _ H1) as [H3 H4]. split; [done|].
  intros j Hj Hall Hor. apply H4; [done|intros r Hr; apply Hall; by right|].
  destruct (decide (j = i)) as [->|Hne].
  - pose proof (Hall (i, slice (piece i) 0 k) ltac:(left) eq_refl) as Hx. cbn in Hx. rewrite Hx. left.
    exact (proj1 (proj2 (write_whole f i Hf Hi))).
  - destruct Hor as [Hp|(r & [->|Hr]%elem_of_cons & <-)]; [left; by apply H2|done|right; eauto].
Qed.

Lemma bearing_in file chunks i d : Forall (chunk_ok file) chunks -> (i, d) ∈ data_bearing chunks ->
  0 <= i < count /\ d = piece i /\ exists c, c ∈ chunks /\ ck_chunkIndex c = i /\ ck_data c = Some d.
Proof.
  intros Hc (c & Hin & Heq)%list_elem_of_omap. pose proof (proj1 (Forall_forall _ _) Hc c Hin) as (Hi & _ & Hd).
  destruct (ck_data c) as [d'|] eqn:Hdc; [|done]. destruct (0 <? blen d'); [|done]. injection Heq as <- <-.
  destruct Hd as [[= ->]|[Hn _]]; [|done]. split; [done|]. split; [done|]. by exists c.
Qed.
Lemma bearing_has file chunks c : Forall (chunk_ok file) chunks -> c ∈ chunks -> is_Some (ck_data c) ->
  (ck_chunkIndex c, piece (ck_chunkIndex c)) ∈ data_bearing chunks.
Proof.
  intros Hc Hin [d Hd]. pose proof (proj1 (Forall_forall _ _) Hc c Hin) as (Hi & _ & Hor).
  apply list_elem_of_omap. exists c. split; [done|]. destruct Hor as [Hor|[Hn _]]; [|congruence].
  rewrite Hor, (proj2 (Z.ltb_lt _ _)); [done|]. rewrite blen_piece by done. apply len_range, Hi.
Qed.

Definition read_env_ok (env : ReadEnv) : Prop := forall n k, gv_throws env = Some (n, k) -> 0 <= k.

(** The largest chunk of a complete file is a full one. *)
Lemma uniform_max chunks : Forall (fun c => ck_realLen c <= u) chunks ->
  forall m, 0 <= m <= u -> (m = u \/ exists c, c ∈ chunks /\ ck_realLen c = u) ->
  foldl (fun v c => if v <? ck_realLen c then ck_realLen c else v) m chunks = u.
Proof.
  induction 1 as [|c chunks Hc _ IH]; intros m Hm Hor; cbn.
  { destruct Hor as [|(c & Hc & _)]; [done|]. by apply elem_of_nil in Hc. }
  destruct (Z.ltb_spec m (ck_realLen c)); apply IH; try lia.
  - destruct Hor as [|(c' & [->|Hc']%elem_of_cons & Heq)]; [lia|by left|right; eauto].
  - destruct Hor as [|(c' & [->|Hc']%elem_of_cons & Heq)]; [by left|left; lia|right; eauto].
Qed.

Lemma cursor_ok s : inv s -> Forall (chunk_ok (sv_file s)) (cursor s).
Proof. intros Hs. rewrite cursor_perm. apply Hs. Qed.

Lemma set_file_inv s f : inv s -> (forall f0, sv_file s = Some f0 -> forall i, 0 <= i < count ->
    (exists c, c ∈ sv_chunks s /\ ck_chunkIndex c = i /\ ck_data c = None) -> at_place f0 i -> at_place f i) ->
  sized f \/ f = [] -> inv (set_file (Some f) None s).
Proof.
  intros Hs Hp Hf. split; cbn [sv_chunks sv_file sv_entry set_file]; [apply Hs| |by intros ? [= <-]|done].
  apply Forall_forall. intros c Hin. pose proof (proj1 (Forall_forall _ _) (iv_chunks s Hs) c Hin) as Hok.
  pose proof Hok as (Hi & Hl & Hd). split; [done|]. split; [done|].
  destruct Hd as [Hd|(Hd & f0 & Hf0 & Hp0)]; [by left|right]. split; [done|]. exists f. split; [done|].
  eapply Hp; eauto.
Qed.

(** Migration of a complete transfer, cut short or not. *)
Lemma migrated_inv s L : inv s -> Forall prefix_of_piece L ->
  (forall r, r ∈ L -> forall c, c ∈ sv_chunks s -> ck_chunkIndex c = r.1 -> ck_data c <> None) ->
  inv (set_file (Some (migrate u (presized (sv_file s) total) L)) None s).
Proof.
  intros Hs HL Hb. destruct (presized_ok (sv_file s) (iv_file s Hs)) as [Hsz Hsame].
  destruct (migrate_ok L HL _ Hsz) as [H1 H2]. apply set_file_inv; [done| |by left].
  intros f0 Hf0 i Hi (c & Hc & Hci & Hcd) Hp. apply H2; [done| |left].
  - intros r Hr Hri. exfalso. eapply Hb; [exact Hr|exact Hc|congruence|done].
  - rewrite (Hsame f0 Hf0); [done|]. destruct (iv_file s Hs f0 Hf0) as [|Hnil]; [done|]. subst f0.
    pose proof (blen_piece i Hi) as Hbl. pose proof (len_range i Hi). rewrite <- Hp in Hbl.
    unfold slice in Hbl. rewrite drop_nil, take_nil, blen_nil in Hbl. lia.
Qed.

Lemma bytesless_at s f i : inv s -> saved s = total -> sv_file s = Some f -> 0 <= i < count ->
  at_place f i \/ (i, piece i) ∈ data_bearing (cursor s).
Proof.
  intros Hs Hsv Hf Hi. destruct (whole_has s i Hs Hsv Hi) as (c & Hc & <- & _ & _ & [Hd|(_ & f' & Hf' & Hp)]).
  - right. apply (bearing_has (sv_file s)); [by apply cursor_ok|by rewrite cursor_perm|by eexists].
  - left. congruence.
Qed.
Lemma no_file_bearing s i : inv s -> saved s = total -> sv_file s = None -> 0 <= i < count ->
  (i, piece i) ∈ data_bearing (cursor s).
Proof.
  intros Hs Hsv Hf Hi. destruct (whole_has s i Hs Hsv Hi) as (c & Hc & <- & _ & _ & [Hd|(_ & f' & Hf' & Hp)]).
  - apply (bearing_has (sv_file s)); [by apply cursor_ok|by rewrite cursor_perm|by eexists].
  - congruence.
Qed.

Lemma migrated_whole s : inv s -> saved s = total ->
  migrate u (presized (sv_file s) total) (data_bearing (cursor s)) = F.
Proof.
  intros Hs Hsv. destruct (presized_ok (sv_file s) (iv_file s Hs)) as [Hsz Hsame].
  assert (Forall prefix_of_piece (data_bearing (cursor s))) as HL.
  { apply Forall_forall. intros [i d] Hin. destruct (bearing_in _ _ _ _ (cursor_ok s Hs) Hin) as (Hi & -> & _).
    by apply whole_prefix. }
  destruct (migrate_ok _ HL _ Hsz) as [H1 H2]. apply pieces_cover; [exact H1|]. intros i Hi. apply H2; [done| |].
  - intros [j d] Hin <-. by destruct (bearing_in _ _ _ _ (cursor_ok s Hs) Hin) as (_ & -> & _).
  - destruct (sv_file s) as [f|] eqn:Hf.
    + destruct (bytesless_at s f i Hs Hsv Hf Hi) as [Hp|Hb]; [|right; by exists (i, piece i)].
      destruct (iv_file s Hs f Hf) as [Hfs| ->].
      * left. by rewrite (Hsame f eq_refl Hfs).
      * exfalso. pose proof (blen_piece i Hi) as Hbl. pose proof (len_range i Hi). rewrite <- Hp in Hbl.
        unfold slice in Hbl. rewrite drop_nil, take_nil, blen_nil in Hbl. lia.
    + right. exists (i, piece i). split; [by apply no_file_bearing|done].
Qed.

Lemma read_uniform s : inv s -> saved s = total ->
  foldl (fun v c => if v <? ck_realLen c then ck_realLen c else v) 0 (cursor s) = u.
Proof.
  intros Hs Hsv. pose proof (count_spec total u Hu) as Hc. apply uniform_max; [|lia|].
  - rewrite cursor_perm. eapply Forall_impl; [apply (iv_chunks s Hs)|]. intros c (Hi & -> & _).
    by apply len_range.
  - right. destruct (whole_has s 0 Hs Hsv ltac:(unfold count; lia)) as (c & Hin & H0 & Hi & Hl & _).
    exists c. rewrite cursor_perm. split; [done|]. rewrite Hl, H0. unfold len, len_at. lia.
Qed.

Lemma strip_inv s : inv s -> sv_entry s = None -> (forall c, c ∈ sv_chunks s -> exists f, sv_file s = Some f /\ at_place f (ck_chunkIndex c)) ->
  inv (MkStore (strip_bearing <$> sv_chunks s) (sv_message s) (sv_rooms s) (sv_file s) (sv_entry s)) /\
  layout_of (strip_bearing <$> sv_chunks s) = layout_of (sv_chunks s).
Proof.
  intros Hs He Hp.
  assert (forall c, ck_chunkIndex (strip_bearing c) = ck_chunkIndex c /\ ck_realLen (strip_bearing c) = ck_realLen c) as Hsame.
  { intros c. unfold strip_bearing. destruct (ck_data c) as [d|]; [destruct (0 <? blen d)|]; done. }
  split.
  - split; cbn [sv_chunks sv_file sv_entry]; [| |apply Hs|intros e; rewrite He; done].
    + rewrite <- list_fmap_compose. rewrite (list_fmap_ext _ ck_chunkIndex); [apply Hs|]. intros ? c _. apply Hsame.
    + apply Forall_fmap, Forall_forall. intros c Hin.
      pose proof (proj1 (Forall_forall _ _) (iv_chunks s Hs) c Hin) as (Hi & Hl & Hd). destruct (Hsame c) as [E1 E2].
      unfold compose, chunk_ok. rewrite E1, E2. split; [done|]. split; [done|].
      unfold strip_bearing. destruct (ck_data c) as [d|] eqn:Hdc.
      * destruct (0 <? blen d) eqn:Hb.
        -- right. split; [done|]. by apply Hp.
        -- left. rewrite Hdc. destruct Hd as [?|[? _]]; congruence.
      * right. split; [done|]. by apply Hp.
  - unfold layout_of. rewrite <- list_fmap_compose. apply list_fmap_ext. intros ? c _. unfold compose.
    by destruct (Hsame c) as [-> ->].
Qed.

(** *** The OPFS file *)

Lemma set_file_twice f e f' e' s : set_file f e (set_file f' e' s) = set_file f e s.
Proof. done. Qed.
Lemma same_record s c c' : inv s -> c ∈ sv_chunks s -> c' ∈ sv_chunks s ->
  ck_chunkIndex c = ck_chunkIndex c' -> c = c'.
Proof.
  intros Hs (i & Hi)%list_elem_of_lookup_1 (j & Hj)%list_elem_of_lookup_1 Heq.
  assert (i = j) as ->; [|congruence].
  eapply (NoDup_lookup _ _ _ (ck_chunkIndex c) (iv_nodup s Hs)); rewrite list_lookup_fmap; [by rewrite Hi|by rewrite Hj, Heq].
Qed.

Lemma get_file_ok env s r s' : inv s -> saved s = total -> read_env_ok env ->
  fnGetReceiveFile total env s = (r, s') ->
  inv s' /\ saved s' = total /\ (forall f, r = Some f -> f = F) /\
  (gv_available env = true -> gv_sync env = true -> gv_throws env = None -> r = Some F).
Proof.
  intros Hs Hsv He H. unfold fnGetReceiveFile in H.
  assert (inv (fnCloseReceiveFile s)) as Hclose.
  { split; cbn [sv_chunks sv_file sv_entry fnCloseReceiveFile set_file]; [apply Hs|apply Hs|apply Hs|done]. }
  destruct (gv_available env); cbn [negb] in H; [|injection H as <- <-; by split_and!].
  change (cursor (set_file (Some (default [] (sv_file (fnCloseReceiveFile s)))) None (fnCloseReceiveFile s)))
    with (cursor s) in H.
  change (sv_file (fnCloseReceiveFile s)) with (sv_file s) in H.
  change (set_file (Some (default [] (sv_file s))) None (fnCloseReceiveFile s))
    with (set_file (Some (default [] (sv_file s))) None s) in H.
  rewrite (read_uniform s Hs Hsv) in H.
  assert (inv (set_file (Some (default [] (sv_file s))) None s)) as Hopen.
  { apply set_file_inv; [done|intros f0 -> i _ _ Hp; exact Hp|]. destruct (sv_file s) as [f|] eqn:Hf; [|by right].
    by apply (iv_file s Hs). }
  destruct ((0 <? total) && (blen (default [] (sv_file s)) =? total) && bool_decide (data_bearing (cursor s) = []))
    eqn:Hfast.
  - injection H as <- <-. rewrite !andb_true_iff in Hfast. destruct Hfast as [[_ Hlen%Z.eqb_eq] Hnone%bool_decide_eq_true].
    assert (default [] (sv_file s) = F) as Heq.
    { apply pieces_cover; [exact Hlen|]. intros i Hi. destruct (sv_file s) as [f|] eqn:Hf.
      - destruct (bytesless_at s f i Hs Hsv Hf Hi) as [Hp|Hb]; [exact Hp|]. rewrite Hnone in Hb. by apply elem_of_nil in Hb.
      - pose proof (no_file_bearing s i Hs Hsv Hf Hi) as Hb. rewrite Hnone in Hb. by apply elem_of_nil in Hb. }
    split; [done|]. split; [done|]. split; [intros f [= <-]; done|]. intros _ _ _. by rewrite Heq.
  - assert ((u =? 0) = false) as Hu0 by lia. rewrite Hu0, andb_false_r in H.
    destruct (gv_sync env); cbn [negb] in H; [|injection H as <- <-; by split_and!].
    change (presized (Some (default [] (sv_file s))) total) with (presized (sv_file s) total) in H.
    destruct (gv_throws env) as [[n k]|] eqn:Hthrow.
    + rewrite set_file_twice in H. injection H as <- <-. split; [|by split_and!].
      apply migrated_inv; [done| |].
      * apply Forall_app. split.
        -- apply Forall_take, Forall_forall. intros [i d] Hin.
           destruct (bearing_in _ _ _ _ (cursor_ok s Hs) Hin) as (Hi & -> & _). by apply whole_prefix.
        -- apply Forall_fmap, Forall_take, Forall_drop, Forall_forall. intros [i d] Hin.
           destruct (bearing_in _ _ _ _ (cursor_ok s Hs) Hin) as (Hi & -> & _). split; [done|].
           exists k. split; [by apply (He n)|done].
      * intros [i d] Hin c Hc Hci Hcd. assert (exists d', (i, d') ∈ data_bearing (cursor s)) as [d' Hb].
        { apply elem_of_app in Hin as [Hin|Hin].
          - exists d. eapply subseteq_take; exact Hin.
          - apply list_elem_of_fmap in Hin as ([i' d'] & [= -> ->] & Hin). exists d'.
            apply elem_of_take in Hin as (x & Hx & _). rewrite lookup_drop in Hx. by apply list_elem_of_lookup_2 in Hx. }
        destruct (bearing_in _ _ _ _ (cursor_ok s Hs) Hb) as (_ & _ & c' & Hc' & Hci' & Hcd').
        rewrite cursor_perm in Hc'. cbn [fst] in Hci.
        pose proof (same_record s c c' Hs Hc Hc' ltac:(congruence)). congruence.
    + rewrite (migrated_whole s Hs Hsv) in H. rewrite set_file_twice in H.
      cbn [sv_chunks sv_message sv_rooms sv_file sv_entry set_file] in H. fold total in H. rewrite Z.eqb_refl, andb_false_r in H.
      assert (inv (set_file (Some F) None s)) as Hend.
      { apply set_file_inv; [done|done|by left]. }
      destruct (strip_inv (set_file (Some F) None s) Hend eq_refl) as [Hstrip Hlay].
      { intros c Hc. exists F. split; [done|done]. }
      destruct (gv_strips env); injection H as <- <-; (split; [done|split; [|by split; [intros f [= <-]|]]]); [|exact Hsv].
      unfold saved. cbn [sv_chunks]. change (sv_chunks (set_file (Some F) None s)) with (sv_chunks s) in Hlay. by rewrite Hlay.
Qed.

(** *** The fallback: the bytes in the records *)

Lemma slice_none (l : bytes) a b : b <= a -> slice l a b = [].
Proof. intros H. unfold slice. by replace (Z.to_nat (b - a)) with 0%nat by lia. Qed.
Lemma join_pieces n : forall i, 0 <= i -> i + Z.of_nat n = count ->
  mjoin (piece <$> seqZ i (Z.of_nat n)) = slice F (i * u) total.
Proof.
  induction n as [|n IH]; intros i Hi Hn.
  - rewrite seqZ_nil by lia. cbn. symmetry. pose proof (count_spec total u Hu) as Hc. fold count in Hc.
    apply slice_none. nia.
  - rewrite seqZ_cons by lia. replace (Z.pred (Z.of_nat (S n))) with (Z.of_nat n) by lia.
    replace (Z.succ i) with (i + 1) by lia.
    change (mjoin (piece <$> i :: seqZ (i + 1) (Z.of_nat n)))
      with (piece i ++ mjoin (piece <$> seqZ (i + 1) (Z.of_nat n))).
    rewrite (IH (i + 1)) by lia. pose proof (len_range i ltac:(lia)) as [Hl Hle].
    pose proof (count_spec total u Hu) as Hc. fold count in Hc. unfold piece.
    destruct (decide (i = count - 1)) as [->|Hne].
    + assert (len (count - 1) = total - (count - 1) * u) as Hlast by (unfold len, len_at; nia).
      rewrite Hlast. replace ((count - 1) * u + (total - (count - 1) * u)) with total by lia.
      assert (slice F ((count - 1 + 1) * u) total = []) as ->; [|by rewrite app_nil_r].
      apply slice_none. nia.
    + rewrite (slice_split F (i * u) (i * u + u) total) by nia.
      assert (len i = u) as -> by (apply len_inner; unfold count in *; lia). f_equal. f_equal. lia.
Qed.

Lemma records_join chunks : Forall (fun c => 0 < ck_realLen c /\ (ck_data c = None \/ exists d, ck_data c = Some d /\ blen d = ck_realLen c)) chunks ->
  blen (mjoin (default [] ∘ ck_data <$> chunks)) <= total_len (layout_of chunks) /\
  (blen (mjoin (default [] ∘ ck_data <$> chunks)) = total_len (layout_of chunks) -> Forall (fun c => is_Some (ck_data c)) chunks).
Proof.
  induction 1 as [|c chunks [Hl Hd] _ [IH1 IH2]]; [split; [done|by constructor]|].
  assert (blen (mjoin (default [] ∘ ck_data <$> c :: chunks)) =
    blen (default [] (ck_data c)) + blen (mjoin (default [] ∘ ck_data <$> chunks))) as Hb by exact (blen_app _ _).
  assert (total_len (layout_of (c :: chunks)) = ck_realLen c + total_len (layout_of chunks)) as Ht by done.
  rewrite Hb, Ht. destruct Hd as [Hd|(d & Hd & Hbd)]; rewrite Hd.
  - change (blen (default [] None)) with 0. split; [lia|lia].
  - change (default [] (Some d)) with d. split; [lia|]. intros Heq. constructor; [by eexists|]. apply IH2. lia.
Qed.

Lemma blob_ok s : inv s -> saved s = total -> blen (mjoin (default [] ∘ ck_data <$> cursor s)) = total ->
  mjoin (default [] ∘ ck_data <$> cursor s) = F.
Proof.
  intros Hs Hsv Hb. pose proof (cursor_ok s Hs) as Hc.
  assert (total_len (layout_of (cursor s)) = total) as Hl.
  { rewrite <- Hsv. apply total_len_perm. unfold layout_of. by rewrite cursor_perm. }
  destruct (records_join (cursor s)) as [_ Hall].
  { eapply Forall_impl; [exact Hc|]. intros c (Hi & Hlen & Hd). rewrite Hlen. split; [apply (len_range _ Hi)|].
    destruct Hd as [Hd|[Hd _]]; [right|by left]. eexists. split; [exact Hd|]. by apply blen_piece. }
  specialize (Hall ltac:(congruence)).
  assert (default [] ∘ ck_data <$> cursor s = piece <$> (ck_chunkIndex <$> cursor s)) as ->.
  { rewrite <- list_fmap_compose. apply list_fmap_ext. intros k c Hk. apply list_elem_of_lookup_2 in Hk.
    pose proof (proj1 (Forall_forall _ _) Hall c Hk) as [d Hd].
    pose proof (proj1 (Forall_forall _ _) Hc c Hk) as (_ & _ & [Hp|[Hn _]]); [|congruence].
    unfold compose. by rewrite Hp. }
  assert (ck_chunkIndex <$> cursor s = seqZ 0 count) as ->.
  { pose proof (cursor_whole s Hs Hsv) as Hw. apply (f_equal (fmap fst)) in Hw. unfold layout_of, whole in Hw.
    rewrite <- !list_fmap_compose in Hw. rewrite Z.sub_0_r in Hw.
    etrans; [|etrans; [exact Hw|]]; [done|]. rewrite (list_fmap_ext _ id); [by rewrite list_fmap_id|done]. }
  pose proof (count_spec total u Hu) as Hcs. fold count in Hcs.
  rewrite <- (Z2Nat.id count) by lia. rewrite join_pieces by lia. by apply slice_all.
Qed.

(** ** Runs *)

(** What happens to a transfer: its chunks are stored, its handle is closed by
    another transfer, by [closeReceiveFile] or by a restart of the worker, the
    completed file is read, the transfer is deleted. *)
Inductive transfer_run : Store -> Prop :=
  | run_empty rooms : transfer_run (MkStore [] None rooms None None)
  | run_store s c env : transfer_run s -> genuine c -> env_ok env ->
      transfer_run (snd (storeReceiveChunkLocked c env s))
  | run_close s : transfer_run s -> transfer_run (fnCloseReceiveFile s)
  | run_read s env : transfer_run s -> saved s = total -> read_env_ok env ->
      transfer_run (snd (fnGetReceiveFile total env s))
  | run_delete s remaining latest now : transfer_run s ->
      transfer_run (fnDeleteReceiveTransferLocked remaining latest now s).

Lemma empty_inv rooms : inv (MkStore [] None rooms None None).
Proof. split; cbn; [constructor|constructor|done|done]. Qed.
Lemma transfer_run_inv s : transfer_run s -> inv s.
Proof.
  induction 1 as [rooms|s c env _ IH Hg He|s _ IH|s env _ IH Hsv He|s remaining latest now _ IH].
  - apply empty_inv.
  - destruct (storeReceiveChunkLocked c env s) as [r s'] eqn:H. by apply (store_ok _ _ _ _ _ IH Hg He H).
  - split; cbn [sv_chunks sv_file sv_entry fnCloseReceiveFile set_file]; [apply IH|apply IH|apply IH|done].
  - destruct (fnGetReceiveFile total env s) as [r s'] eqn:H. by apply (get_file_ok _ _ _ _ IH Hsv He H).
  - apply empty_inv.
Qed.
End File.

(** ** Theorems *)

(** C7. The file that is read is the file that was sent.  Its chunks may have been
    stored in any order and more than once, with OPFS absent, failing or writing
    only in part, the handle closed and the worker restarted or killed between
    a write and its transaction, and the file read before: once all bytes are
    counted, a read returns exactly the bytes of the file, or nothing; and when
    OPFS works it returns them.  The chunks are [u] bytes long, the last one
    shorter. *)
Theorem received_file_is_sent F u s env r s' : 0 < u <= blen F -> u <= CHUNK_LEN -> blen F <= MAX_MESSAGE_SIZE ->
  transfer_run F u s -> saved s = blen F -> read_env_ok env -> read_file (blen F) env s = (r, s') ->
  (r = Some F \/ r = None) /\
  (gv_available env = true -> gv_sync env = true -> gv_throws env = None -> r = Some F).
Proof.
  intros Hu Hc Hm Hrun Hsv He H. pose proof (transfer_run_inv F u Hu Hc Hm s Hrun) as Hs.
  unfold read_file in H. destruct (fnGetReceiveFile (blen F) env s) as [file s1] eqn:Hg.
  destruct (get_file_ok F u Hu Hc Hm env s file s1 Hs Hsv He Hg) as (Hs1 & Hsv1 & Hf & Hall).
  destruct file as [f|].
  - injection H as <- <-. rewrite (Hf f eq_refl). by split; [left|].
  - split; [|intros H1 H2 H3; by specialize (Hall H1 H2 H3)].
    destruct (Z.eqb_spec (blen (mjoin (default [] ∘ ck_data <$> cursor s1))) (blen F)) as [Hb|Hb];
      injection H as <- <-; [left|by right]. f_equal. by apply (blob_ok F u Hu Hc Hm).
Qed.

(** C5. Every chunk of the file is counted once.  Storing a chunk of the file with
    the bounds and the manifest of the transfer succeeds when its transaction
    commits; it is reported as new exactly when its index was not recorded yet,
    and the transfer is reported complete exactly when the recorded bytes are
    all the bytes of the file. *)
Theorem chunk_counted_once F u s c env r s' : 0 < u <= blen F -> u <= CHUNK_LEN -> blen F <= MAX_MESSAGE_SIZE ->
  transfer_run F u s -> genuine F u c -> env_ok env -> storeReceiveChunkLocked c env s = (r, s') ->
  (receive_bounds c = true -> assertManifest c (sv_message s) = Ok tt -> ev_commit env = committed -> is_ok r = true) /\
  (forall res, r = Ok res ->
     has_chunk (rc_chunkIndex c) (sv_chunks s') = true /\
     sr_stored res = negb (has_chunk (rc_chunkIndex c) (sv_chunks s)) /\
     sr_savedSize res = saved s' /\ sr_complete res = (saved s' =? blen F)).
Proof.
  intros Hu Hc Hm Hrun Hg He H. pose proof (transfer_run_inv F u Hu Hc Hm s Hrun) as Hs.
  destruct (store_ok F u Hu Hc Hm c env s r s' Hs Hg He H) as (_ & H1 & H2). split.
  - intros A1 A2 A3. by destruct (H1 A1 A2 A3) as [res ->].
  - intros res Hr. destruct (H2 res Hr) as [A ->]. by split_and!.
Qed.

(** Storing several chunks, each under its own environment. *)
Definition store_all (events : list (ReceiveChunk * Env)) (s : Store) : Store :=
  foldl (fun s e => snd (storeReceiveChunkLocked e.1 e.2 s)) s events.

(** *** A commit that fails under an open handle *)

Section Misled.
Context (F : bytes) (u : Z) (Hu : 0 < u <= blen F) (Huc : u <= CHUNK_LEN) (Htm : blen F <= MAX_MESSAGE_SIZE).
Abbreviation n := (count (blen F) u).
(** The length of the last chunk, which is shorter than the others. *)
Definition last_len : Z := len_at (blen F) u (n - 1).
Context (Hn : 2 <= n) (Hlast : last_len < u).

(** OPFS opens and takes every byte. *)
Definition opfs_works (commit : Commit) : Env := {| ev_opens := true; ev_lands := None; ev_commit := commit |}.
(** The file when chunk [i] is written at [i] times the length of the last one. *)
Definition misplaced (order : list Z) : bytes :=
  foldl (fun f i => file_write f (i * last_len) (piece F u i)) (zeros (blen F)) order.
(** The manifest of [first] is that of [c]. *)
Definition same_manifest (first c : ReceiveChunk) : Prop := assertManifest c (Some (message_of first None 0)) = Ok tt.

Lemma last_len_value : 0 < last_len /\ blen F = (n - 1) * u + last_len.
Proof.
  pose proof (count_spec (blen F) u Hu). pose proof (len_pos (blen F) u Hu (n - 1) ltac:(lia)).
  unfold last_len, len_at in *. lia.
Qed.
Lemma piece_len i : 0 <= i < n -> blen (piece F u i) = len_at (blen F) u i /\ len_at (blen F) u i <= u.
Proof. intros Hi. split; [by apply blen_piece|]. by apply len_pos. Qed.
(** Every such write ends before the end of the file. *)
Lemma misplaced_end i : 0 <= i < n -> i * last_len + blen (piece F u i) < blen F.
Proof.
  intros Hi. destruct last_len_value as [Hp Ht]. destruct (piece_len i Hi) as [-> Hl].
  destruct (decide (i = n - 1)) as [->|Hne]; [fold last_len; nia|]. nia.
Qed.
Lemma misplaced_spec order : Forall (fun i => 0 <= i < n) order ->
  blen (misplaced order) = blen F /\ misplaced order !! Z.to_nat (blen F - 1) = Some Byte.x00.
Proof.
  unfold misplaced. assert (blen (zeros (blen F)) = blen F /\ zeros (blen F) !! Z.to_nat (blen F - 1) = Some Byte.x00) as H.
  { split; [apply blen_zeros; lia|]. unfold zeros. apply lookup_replicate. split; [done|lia]. }
  revert H. generalize (zeros (blen F)) as f.
  intros f Hf Ho. revert f Hf. induction Ho as [|i order Hi _ IH]; intros f [Hl Hz]; [done|]. apply IH.
  pose proof (misplaced_end i Hi) as He. destruct last_len_value as [Hp _]. pose proof (blen_nonneg (piece F u i)).
  assert (0 <= i * last_len) by nia. unfold file_write. rewrite (proj2 (Z.ltb_ge (blen f) _)) by lia. split.
  - rewrite blen_bset; lia.
  - rewrite lookup_bset by lia. by rewrite decide_False by (unfold blen in *; lia).
Qed.

(** What the store holds once the handle has been misled: every record bytesless,
    every chunk so far at its wrong place, the length of the last chunk taken for
    the size of all. *)
Record misled (first : ReceiveChunk) (order : list Z) (s : Store) : Prop := {
  ml_order : ck_chunkIndex <$> sv_chunks s = order;
  ml_nodup : NoDup order;
  ml_chunks : Forall (fun c => 0 <= ck_chunkIndex c < n /\ ck_realLen c = len_at (blen F) u (ck_chunkIndex c) /\
                               ck_data c = None) (sv_chunks s);
  ml_file : sv_file s = Some (misplaced order);
  ml_entry : exists e, sv_entry s = Some e /\ fe_uniformKnown e = true /\ fe_uniformSize e = last_len;
  ml_message : exists m, sv_message s = Some m /\ forall c, same_manifest first c -> assertManifest c (Some m) = Ok tt;
}.

Lemma opens_misled c s f e i : sv_file s = Some f -> sv_entry s = Some e -> fe_uniformKnown e = true ->
  fe_uniformSize e = last_len -> rc_chunkIndex c = i -> rc_data c = piece F u i ->
  exists e', fe_uniformKnown e' = true /\ fe_uniformSize e' = last_len /\
    placeReceiveChunk (opfs_works committed) i (rc_realLen c) (rc_totalSize c) (rc_data c) s =
      (Ok true, set_file (Some (file_write f (i * last_len) (piece F u i))) (Some e') s).
Proof.
  intros Hf He Hk Hs Hi Hd. exists (learn e i (rc_realLen c) (rc_totalSize c)).
  assert (fe_uniformKnown (learn e i (rc_realLen c) (rc_totalSize c)) = true /\
    fe_uniformSize (learn e i (rc_realLen c) (rc_totalSize c)) = last_len) as [H1 H2]
    by (unfold learn; by rewrite Hk).
  split; [done|]. split; [done|].
  unfold placeReceiveChunk, ensureReceiveHandle, mbind, M_bind, get_this, modify_this, mret, M_ret. rewrite He.
  cbn [sv_file sv_entry set_file opfs_works ev_lands]. rewrite H1, H2, Hf, Hd. cbn [negb].
  assert ((if i =? 0 then 0 else i * last_len) = i * last_len) as -> by (destruct (Z.eqb_spec i 0); lia).
  done.
Qed.

(** The layout of the records so far and of one more. *)
Lemma misled_layout s order i : ck_chunkIndex <$> sv_chunks s = order -> NoDup order ->
  Forall (fun c => 0 <= ck_chunkIndex c < n /\ ck_realLen c = len_at (blen F) u (ck_chunkIndex c) /\ ck_data c = None) (sv_chunks s) ->
  0 <= i < n -> i ∉ order ->
  exists r, validateLayout (blen F) (layout_of (sv_chunks s) ++ [(i, len_at (blen F) u i)]) = Ok r.
Proof.
  intros Ho Hnd Hc Hi Hni. eexists. apply (validate_genuine (blen F) u Hu Huc Htm).
  - unfold layout_of. rewrite fmap_app, <- list_fmap_compose. change (fst ∘ _) with ck_chunkIndex. rewrite Ho.
    apply NoDup_app. split; [done|]. split; [|apply NoDup_singleton]. by intros j Hj ->%list_elem_of_singleton.
  - apply Forall_app. split; [|by constructor].
    apply Forall_fmap. eapply Forall_impl; [exact Hc|]. intros c (H1 & H2 & _). by split.
Qed.
(** Chunks of one manifest stay so under the messages they leave. *)
Lemma manifest_eq c p : assertManifest c (Some p) = Ok tt <->
  mg_roomId p = rc_roomId c /\ mg_fromPeerId p = rc_fromPeerId c /\ mg_hash p = rc_hash c /\
  mg_totalSize p = rc_totalSize c /\ mg_messageType p = rc_messageType c /\ mg_filename p = rc_filename c /\
  mg_channelLabel p = rc_channelLabel c /\ mg_timestamp p = rc_timestamp c.
Proof.
  cbn [assertManifest]. unfold require.
  match goal with |- context [if ?b then _ else _] => transitivity (b = true); [by destruct b|] end.
  rewrite !andb_true_iff, !bool_decide_eq_true, !Z.eqb_eq. tauto.
Qed.
Lemma manifest_next first c c' p size : same_manifest first c -> same_manifest first c' ->
  (p = None \/ exists m, p = Some m /\ forall c, same_manifest first c -> assertManifest c (Some m) = Ok tt) ->
  assertManifest c' (Some (message_of c p size)) = Ok tt.
Proof.
  unfold same_manifest. rewrite !manifest_eq. cbn [message_of mg_roomId mg_fromPeerId mg_hash mg_totalSize mg_messageType
    mg_filename mg_channelLabel mg_timestamp from_option].
  intros (A1 & A2 & A3 & A4 & A5 & A6 & A7 & A8) (B1 & B2 & B3 & B4 & B5 & B6 & B7 & B8) Hp.
  assert (mg_timestamp (message_of c p size) = rc_timestamp c') as Ht.
  { destruct Hp as [-> |(m & -> & Hp)]; cbn [from_option message_of mg_timestamp].
    - by rewrite <- A8, <- B8.
    - assert (assertManifest c' (Some m) = Ok tt) as H by (apply Hp; by apply manifest_eq).
      apply manifest_eq in H. apply H. }
  split_and!; [etrans; [symmetry|]; eassumption..|exact Ht].
Qed.
(** What the transaction of one more chunk leaves. *)
Lemma commit_misled first c s f e order : genuine F u c -> same_manifest first c ->
  ck_chunkIndex <$> sv_chunks s = order -> NoDup order ->
  Forall (fun c => 0 <= ck_chunkIndex c < n /\ ck_realLen c = len_at (blen F) u (ck_chunkIndex c) /\ ck_data c = None) (sv_chunks s) ->
  (sv_message s = None \/ exists m, sv_message s = Some m /\ forall c, same_manifest first c -> assertManifest c (Some m) = Ok tt) ->
  rc_chunkIndex c ∉ order -> f = misplaced (order ++ [rc_chunkIndex c]) ->
  fe_uniformKnown e = true -> fe_uniformSize e = last_len ->
  exists r s', commit_chunk c (record_of c true) committed (set_file (Some f) (Some e) s) = (Ok r, s') /\
    misled first (order ++ [rc_chunkIndex c]) s'.
Proof.
  intros (Hi & Ht & Hd & Hl & Ho) Hm Hord Hnd Hc Hmsg Hni Hf Hk Hs.
  destruct (misled_layout s order _ Hord Hnd Hc Hi Hni) as [r Hr].
  assert (has_chunk (rc_chunkIndex c) (sv_chunks s) = false) as Hn0.
  { apply not_true_iff_false. rewrite has_chunk_spec. by rewrite Hord. }
  assert (assertManifest c (sv_message s) = Ok tt) as Ha by (destruct Hmsg as [-> |(m & -> & H)]; auto).
  unfold commit_chunk, mbind, M_bind, get_this, set_this, mret, M_ret, lift. cbn [sv_chunks sv_message sv_rooms sv_file sv_entry set_file].
  assert (layout_of (sv_chunks s ++ [record_of c true]) = layout_of (sv_chunks s) ++ [(rc_chunkIndex c, len_at (blen F) u (rc_chunkIndex c))]) as Hlay.
  { unfold layout_of. rewrite fmap_app. cbn. by rewrite Hl. }
  rewrite Hn0, Hlay, Ht, Hl, Hr, Ha. eexists _, _. split; [done|].
  split; cbn [sv_chunks sv_message sv_file sv_entry]; [by rewrite fmap_app, Hord| |
    |by rewrite Hf|by exists e|].
  - apply NoDup_app. split; [done|]. split; [|apply NoDup_singleton]. by intros j Hj ->%list_elem_of_singleton.
  - apply Forall_app. split; [done|]. repeat constructor; cbn; [lia|lia|done|by rewrite Ho].
  - eexists. split; [done|]. intros c' Hc'. by eapply manifest_next.
Qed.

(** One more chunk is stored once its bytes are in the file. *)
Lemma store_misled first c s f e order : genuine F u c -> same_manifest first c -> receive_bounds c = true ->
  ck_chunkIndex <$> sv_chunks s = order -> NoDup order ->
  Forall (fun c => 0 <= ck_chunkIndex c < n /\ ck_realLen c = len_at (blen F) u (ck_chunkIndex c) /\ ck_data c = None) (sv_chunks s) ->
  (sv_message s = None \/ exists m, sv_message s = Some m /\ forall c, same_manifest first c -> assertManifest c (Some m) = Ok tt) ->
  rc_chunkIndex c ∉ order ->
  placeReceiveChunk (opfs_works committed) (rc_chunkIndex c) (rc_realLen c) (rc_totalSize c) (rc_data c) s =
    (Ok true, set_file (Some f) (Some e) s) ->
  f = misplaced (order ++ [rc_chunkIndex c]) -> fe_uniformKnown e = true -> fe_uniformSize e = last_len ->
  exists s', snd (storeReceiveChunkLocked c (opfs_works committed) s) = s' /\
    misled first (order ++ [rc_chunkIndex c]) s'.
Proof.
  intros Hg Hm Hb Hord Hnd Hc Hmsg Hni Hp Hf Hk Hs. pose proof Hg as (Hi & Ht & Hd & Hl & Ho).
  destruct (commit_misled first c s f e order Hg Hm Hord Hnd Hc Hmsg Hni Hf Hk Hs) as (r & s' & Hcm & Hml).
  destruct (misled_layout s order _ Hord Hnd Hc Hi Hni) as [r' Hr].
  assert (has_chunk (rc_chunkIndex c) (sv_chunks s) = false) as Hn0.
  { apply not_true_iff_false. rewrite has_chunk_spec. by rewrite Hord. }
  assert (assertManifest c (sv_message s) = Ok tt) as Ha by (destruct Hmsg as [-> |(m & -> & H)]; auto).
  exists s'. split; [|done].
  unfold storeReceiveChunkLocked, mrequire, mbind, M_bind, get_this, mret, M_ret, lift.
  rewrite Hb. cbn [require]. rewrite Ha, Hn0, Ht, Hl, Hr, Ho, <- Hl, <- Ht, Hp.
  cbn [opfs_works ev_commit]. by rewrite Hcm.
Qed.

Lemma step_misled first c s order : misled first order s -> genuine F u c -> same_manifest first c ->
  receive_bounds c = true -> rc_chunkIndex c ∉ order ->
  misled first (order ++ [rc_chunkIndex c]) (snd (storeReceiveChunkLocked c (opfs_works committed) s)).
Proof.
  intros [M1 M2 M3 M4 (e & M5 & M6 & M7) M8] Hg Hm Hb Hni. pose proof Hg as (_ & _ & Hd & _).
  destruct (opens_misled c s _ e _ M4 M5 M6 M7 eq_refl Hd) as (e' & Hk & Hs & Hp).
  destruct (store_misled first c s _ e' order Hg Hm Hb M1 M2 M3 ltac:(by right) Hni Hp) as (s' & -> & H); [|done..].
  unfold misplaced. by rewrite foldl_app.
Qed.
Lemma run_misled first others : forall order s, misled first order s ->
  Forall (fun c => genuine F u c /\ same_manifest first c /\ receive_bounds c = true) others ->
  NoDup (order ++ (rc_chunkIndex <$> others)) ->
  misled first (order ++ (rc_chunkIndex <$> others)) (store_all ((fun c => (c, opfs_works committed)) <$> others) s).
Proof.
  induction others as [|c others IH]; intros order s Hml Ho Hnd; csimpl in *; [by rewrite app_nil_r|].
  apply Forall_cons in Ho as [(Hg & Hm & Hb) Ho]. rewrite cons_middle, app_assoc in Hnd |- *.
  apply IH; [|done|done]. apply step_misled; try done.
  apply NoDup_app in Hnd as (Hnd & _). apply NoDup_app in Hnd as (_ & Hnd & _).
  intros Hin. exact (Hnd _ Hin ltac:(by left)).
Qed.

(** The handle after the aborted commit: it has seen one chunk, which nothing records. *)
Definition seen_one : ReceiveFileEntry :=
  {| fe_uniformSize := 0; fe_uniformKnown := false; fe_maxRealLen := last_len; fe_seenCount := 1 |}.
Lemma abort_leaves first rooms : genuine F u first -> rc_chunkIndex first = n - 1 -> receive_bounds first = true ->
  storeReceiveChunkLocked first (opfs_works aborted) (MkStore [] None rooms None None) =
    (Err commit_failed, MkStore [] None rooms (Some (zeros (blen F))) (Some seen_one)).
Proof.
  intros (_ & Ht & Hd & Hl & Ho) Hi Hb. rewrite Hi in Hd, Hl. fold last_len in Hl. destruct last_len_value as [Hp0 _].
  destruct (misled_layout (MkStore [] None rooms None None) [] (n - 1)) as [r Hr];
    [done|constructor|constructor|lia|apply not_elem_of_nil|].
  cbn [sv_chunks] in Hr. change (layout_of [] ++ [(n - 1, len_at (blen F) u (n - 1))]) with [(n - 1, last_len)] in Hr.
  assert (presized None (blen F) = zeros (blen F)) as Hz.
  { unfold presized, truncate. change (default [] None) with (@nil Byte.byte). change (blen (@nil Byte.byte)) with 0.
    assert ((0 <? blen F) = true /\ (0 =? blen F) = false /\ (blen F <? 0) = false) as (-> & -> & ->) by lia.
    cbn [negb andb app]. f_equal. lia. }
  unfold storeReceiveChunkLocked, placeReceiveChunk, ensureReceiveHandle, commit_chunk, mrequire, mbind, M_bind,
    get_this, set_this, modify_this, mret, M_ret, lift, mthrow.
  rewrite Hb. cbn [require assertManifest has_chunk existsb sv_chunks sv_message sv_rooms sv_file sv_entry set_file
    opfs_works ev_opens ev_lands ev_commit]. rewrite Ht, Hl, Hi.
  change (layout_of [] ++ [(n - 1, last_len)]) with [(n - 1, last_len)]. rewrite Hr, Ho.
  cbn [sv_chunks sv_message sv_rooms sv_file sv_entry set_file]. rewrite Hz.
  assert (learn {| fe_uniformSize := 0; fe_uniformKnown := false; fe_maxRealLen := 0; fe_seenCount := 0 |}
    (n - 1) last_len (blen F) = seen_one) as ->.
  { unfold learn, seen_one. cbn [fe_uniformKnown fe_seenCount fe_maxRealLen fe_uniformSize].
    rewrite (proj2 (Z.eqb_neq (n - 1) 0)) by lia. change (2 <=? 0 + 1) with false. cbn iota. f_equal. lia. }
  cbn [seen_one fe_uniformKnown negb sv_chunks sv_message sv_rooms sv_file sv_entry set_file has_chunk existsb app].
  change (layout_of [record_of first false]) with [(rc_chunkIndex first, rc_realLen first)].
  change (layout_of [] ++ [(n - 1, last_len)]) with [(n - 1, last_len)]. by rewrite Hi, Hl, Hr.
Qed.
(** The aborted commit, and the chunk sent again. *)
Lemma start_misled first rooms : genuine F u first -> rc_chunkIndex first = n - 1 -> receive_bounds first = true ->
  misled first [n - 1] (store_all [(first, opfs_works aborted); (first, opfs_works committed)] (MkStore [] None rooms None None)).
Proof.
  intros Hg Hi Hb. pose proof Hg as (_ & Ht & Hd & Hl & Ho). rewrite Hi in Hd, Hl. fold last_len in Hl.
  unfold store_all. cbn [foldl fst snd]. rewrite abort_leaves by done. cbn [snd].
  set (s1 := MkStore _ _ _ _ _). set (e := learn seen_one (n - 1) last_len (blen F)).
  assert (fe_uniformKnown e = true /\ fe_uniformSize e = last_len) as [Hk Hs].
  { unfold e, learn, seen_one. cbn [fe_uniformKnown fe_seenCount fe_maxRealLen].
    rewrite (proj2 (Z.eqb_neq (n - 1) 0)) by lia. change (2 <=? 1 + 1) with true.
    cbn [fe_uniformKnown fe_uniformSize]. split; [done|]. apply Z.max_id. }
  destruct (store_misled first first s1 (misplaced [n - 1]) e []) as (s' & -> & H); try done.
  - by apply manifest_eq.
  - constructor.
  - by left.
  - apply not_elem_of_nil.
  - unfold placeReceiveChunk, ensureReceiveHandle, mbind, M_bind, get_this, modify_this, mret, M_ret.
    cbn [sv_entry s1 opfs_works ev_lands]. rewrite Hi, Hl, Ht, Hd. fold e. rewrite Hk, Hs. cbn [negb].
    rewrite (proj2 (Z.eqb_neq (n - 1) 0)) by lia. done.
  - by rewrite Hi.
  - rewrite Hi in H. exact H.
Qed.

Lemma whole_sum k : forall i, 0 <= i -> i + Z.of_nat k = n ->
  total_len (whole (blen F) u i) = Z.max 0 (blen F - i * u).
Proof.
  pose proof (count_spec (blen F) u Hu) as Hc. induction k as [|k IH]; intros i H0 Hi.
  - rewrite whole_nil by lia. cbn. nia.
  - rewrite whole_cons by lia. change (total_len (?x :: ?l)) with (x.2 + total_len l). rewrite (IH (i + 1)) by lia.
    cbn [snd]. unfold len_at. nia.
Qed.
Lemma no_data l : Forall (fun c => ck_data c = None) l -> data_bearing l = [].
Proof. induction 1 as [|c l Hc _ IH]; [done|]. cbn. by rewrite Hc. Qed.

(** What is counted and read at the end. *)
Lemma misled_saved first order s : misled first order s -> order ≡ₚ seqZ 0 n -> saved s = blen F.
Proof.
  intros [M1 _ M3 _ _ _] Hall. pose proof (count_spec (blen F) u Hu) as Hc.
  assert (layout_of (sv_chunks s) = (fun j => (j, len_at (blen F) u j)) <$> order) as Hl.
  { rewrite <- M1. unfold layout_of. rewrite <- list_fmap_compose. apply list_fmap_ext. intros k c Hk.
    apply list_elem_of_lookup_2 in Hk. destruct (proj1 (Forall_forall _ _) M3 c Hk) as (_ & Hl & _).
    unfold compose. by rewrite Hl. }
  unfold saved. rewrite Hl, (total_len_perm _ (whole (blen F) u 0)).
  - rewrite (whole_sum (Z.to_nat n)) by lia. lia.
  - unfold whole. by rewrite Hall, Z.sub_0_r.
Qed.
Lemma misled_read first order s renv : misled first order s -> order ≡ₚ seqZ 0 n -> gv_available renv = true ->
  fst (read_file (blen F) renv s) = Some (misplaced order).
Proof.
  intros [_ _ M3 M4 _ _] Hall Hav.
  assert (Forall (fun i => 0 <= i < n) order) as Ho.
  { rewrite Hall. apply Forall_forall. intros i Hi%elem_of_seqZ. lia. }
  destruct (misplaced_spec order Ho) as [Hlen _].
  assert (data_bearing (cursor s) = []) as Hdb.
  { apply no_data. rewrite cursor_perm. eapply Forall_impl; [exact M3|]. by intros c (_ & _ & Hd). }
  unfold read_file, fnGetReceiveFile. rewrite Hav. cbn [negb].
  assert (forall f e x, cursor (set_file f e x) = cursor x) as Hcur by done.
  unfold fnCloseReceiveFile. rewrite !Hcur. cbn [sv_file set_file]. rewrite Hdb, M4.
  change (default [] (Some ?x)) with x. rewrite Hlen, Z.eqb_refl, (proj2 (Z.ltb_lt 0 _)) by lia. done.
Qed.
End Misled.

(** C6. A transaction that fails while the worker lives corrupts the file.  A file has
    at least two chunks, the last one shorter than the others; the last chunk
    arrives first, OPFS is open and takes every write, and only this chunk's
    first transaction is aborted.  It is sent again, then every other chunk, in
    any order, and every transaction commits.  The open handle has seen two
    chunks, takes the short length for the size of all chunks and places each
    later chunk by it.  All bytes of the file are counted, and what is read has
    the right size but holds every chunk at its index times that short length; its
    last byte is zero, so it is not the file that was sent unless that one ends
    with a zero. *)
Theorem aborted_commit_corrupts_file F u final others rooms renv s :
  0 < u <= blen F -> u <= CHUNK_LEN -> blen F <= MAX_MESSAGE_SIZE ->
  2 <= count (blen F) u -> last_len F u < u ->
  Forall (fun c => genuine F u c /\ same_manifest final c /\ receive_bounds c = true) (final :: others) ->
  rc_chunkIndex final = count (blen F) u - 1 ->
  (rc_chunkIndex <$> others) ≡ₚ seqZ 0 (count (blen F) u - 1) ->
  s = store_all ((final, opfs_works aborted) :: ((fun c => (c, opfs_works committed)) <$> final :: others))
        (MkStore [] None rooms None None) ->
  saved s = blen F /\
  (gv_available renv = true -> exists f,
     fst (read_file (blen F) renv s) = Some f /\
     f = misplaced F u (rc_chunkIndex <$> final :: others) /\ blen f = blen F /\
     f !! Z.to_nat (blen F - 1) = Some Byte.x00 /\
     (F !! Z.to_nat (blen F - 1) <> Some Byte.x00 -> f <> F)).
Proof.
  intros Hu Huc Htm Hn Hl [(Hg & _ & Hb) Ho]%Forall_cons Hi Hrest ->. csimpl.
  assert (count (blen F) u - 1 :: (rc_chunkIndex <$> others) ≡ₚ seqZ 0 (count (blen F) u)) as Hall.
  { rewrite Hrest, Permutation_cons_append. replace (count (blen F) u) with (count (blen F) u - 1 + 1) at 3 by lia.
    rewrite seqZ_app by lia. by rewrite Z.add_0_l. }
  pose proof (start_misled F u Hu Huc Htm Hn Hl final rooms Hg Hi Hb) as H.
  apply (run_misled F u Hu Huc Htm final others) in H; [|done|].
  2: { cbn [app]. rewrite Hall. apply NoDup_seqZ. }
  cbn [app] in H. rewrite Hi. split; [by eapply misled_saved|].
  intros Hav. eexists. split; [by eapply misled_read|]. split; [done|].
  destruct (misplaced_spec F u Hu Hn Hl (count (blen F) u - 1 :: (rc_chunkIndex <$> others))) as [H1 H2].
  { rewrite Hall. apply Forall_forall. intros i Hx%elem_of_seqZ. lia. }
  split_and!; [done|done|]. congruence.
Qed.
