(* ===== verification/Receive.v ===== *)
(** * Receiving a chunk ([src/src/handlers/handleReceiveMessage.ts])

    One inbound chunk frame from the data channel to the store: the receive key
    cache of the connection, the durable decryption ([EdgePersist]), the checks
    of the metadata, the receipt token ([receiptToken.ts]), the worker's store
    ([ReceiveStore]), and the lifetime of the receive key
    ([receiveMessageKeyLifetime.ts]).

    [handleReceiveMessage] reads [epc.messageKeyCache] before its first [await]
    and uses what it read after it; the two parts are separate definitions. *)

From Stdlib Require Import String.
From stdpp Require Import gmap functions.
From S2P Require Import Prelude Bytes Constants Crypto X25519 Ratchet RatchetKeys WireFrames PqMessageKey Merkle ChunkCrypto.
From S2P Require Import RoomPolicy MlKem PqMachine PqRuntime PqCheckpoint Metadata EdgePersist MessageTypes ReceiveStore.
From S2P Require Import EdgeReceive.
Local Open Scope Z_scope.
Local Open Scope list_scope.

(** ** chunkBounds.ts and receiptToken.ts *)

Definition isStorableChunkRange (chunkStartIndex chunkEndIndex chunkLength : Z) : bool :=
  isSafeInteger chunkStartIndex && isSafeInteger chunkEndIndex && (0 <=? chunkStartIndex)
  && (chunkStartIndex <=? chunkEndIndex) && (chunkEndIndex <=? chunkLength).

Definition CHUNK_RECEIPT_DOMAIN : bytes := text "p2party/protocol-v3/chunk-receipt/v1" ++ [Byte.x00].

Inductive TokenError := token_bad_root | token_bad_leaf | token_bad_index.

Definition receipt_input (merkleRoot : bytes) (chunkIndex : Z) (leafHash : bytes) : bytes :=
  CHUNK_RECEIPT_DOMAIN ++ merkleRoot ++ be_encode 8 chunkIndex ++ leafHash.

Definition createChunkReceiptToken {HS : Sha512} (merkleRoot : bytes) (chunkIndex : Z) (leafHash : bytes)
    : result TokenError bytes :=
  require (blen merkleRoot =? crypto_hash_sha512_BYTES) token_bad_root;;
  require (blen leafHash =? crypto_hash_sha512_BYTES) token_bad_leaf;;
  require (isSafeInteger chunkIndex && negb (chunkIndex <? 0)) token_bad_index;;
  Ok (subtle_digest_sha512 (receipt_input merkleRoot chunkIndex leafHash)).

(** ** State *)

(** [messageKeyByMerkleRoot] of one connection, the roots whose keys are being
    retired, and the worker's stores. *)
Record Rx := MkRx {
  rx_world : World; rx_roots : gmap string string; rx_retiring : gset string;
  rx_stores : string -> Store }.

Abbreviation rx A := (M Rx EdgeThrow A).

Definition set_world (w : World) (s : Rx) : Rx := MkRx w (rx_roots s) (rx_retiring s) (rx_stores s).
Definition set_roots (roots : gmap string string) (s : Rx) : Rx :=
  MkRx (rx_world s) roots (rx_retiring s) (rx_stores s).
Definition set_retiring (r : gset string) (s : Rx) : Rx := MkRx (rx_world s) (rx_roots s) r (rx_stores s).
Definition set_store (root : string) (st : Store) (s : Rx) : Rx :=
  MkRx (rx_world s) (rx_roots s) (rx_retiring s) (<[root := st]> (rx_stores s)).

Definition on_world {A} (m : edge A) : rx A := fun s =>
  let '(r, w) := m (rx_world s) in (r, set_world w s).

(** ** Results *)

(** [ReceiveMessageResult]; [re_date] is its time. *)
Record ReceiveMessageResult := {
  re_date : Z; re_chunkSize : Z; re_chunkIndex : Z; re_receivedFullSize : bool;
  re_chunkAlreadyExists : bool; re_totalSize : Z; re_messageType : Z; re_filename : list Z;
  re_chunkHash : bytes; re_messageHash : bytes }.

Definition dropped_result (now : Z) : ReceiveMessageResult :=
  {| re_date := now; re_chunkSize := 0; re_chunkIndex := -1; re_receivedFullSize := false;
     re_chunkAlreadyExists := false; re_totalSize := 0; re_messageType := code Text; re_filename := [];
     re_chunkHash := []; re_messageHash := [] |}.

(** [sendReceiveFrameReceipt]: the token, or one drawn at random. *)
Definition receipt_is_real (r : ReceiveMessageResult) : bool :=
  (0 <? re_totalSize r) && (blen (re_chunkHash r) =? crypto_hash_sha512_BYTES)
  && (-1 <? re_chunkIndex r) && (0 <? re_chunkSize r).
Definition frame_receipt (r : ReceiveMessageResult) (random : bytes) : bytes :=
  if receipt_is_real r then re_chunkHash r else random.

(** ** Before the first [await] *)

Definition MESSAGE_KEY_CACHE_MAX : Z := 256.
(** The loop that evicts the oldest keys until one more fits. *)
Definition evicted (cached : skipped_map) : skipped_map :=
  take (Z.to_nat (blen cached - (MESSAGE_KEY_CACHE_MAX - 1))) cached.
Definition kept (cached : skipped_map) : skipped_map :=
  drop (Z.to_nat (blen cached - (MESSAGE_KEY_CACHE_MAX - 1))) cached.

(** [epc.messageKeyCache ??= ...] *)
Definition connection_cache (c : nat) : edge nat :=
  epc ← epc_of c;
  match ep_cache epc with
  | Some m => mret m
  | None =>
      w ← get_this;
      let m := match ep_pq epc with Some h => ru_keys (w_pqs w h) | None => w_next w end in
      (match ep_pq epc with
       | Some _ => mret tt
       | None => modify_this (fun w => set_map m [] (alloc w))
       end);;
      modify_this (set_epc c (MkEpc (ep_token epc) (ep_ratchet epc) (ep_pq epc) (ep_hook epc) (Some m)));;
      mret m
  end.

Definition evict_keys (m : nat) : rx unit :=
  this ← get_this;
  let cached := w_maps (rx_world this) m in
  modify_this (fun s => set_roots (filter (fun e => e.2 ∉ (evicted cached).*1) (rx_roots s))
                          (set_world (set_map m (kept cached) (rx_world s)) s)).

Section Receive.
Context {C : LibCrypto} {HS : Sha512} {B : MlKemBackend}.

(** The [Map] and the key of the message, or nothing when the frame is dropped. *)
Definition receive_capture (c : nat) (aborted : bool) (frame : bytes) : rx (option (nat * string)) :=
  if aborted then mret None else
  epc ← on_world (epc_of c);
  match ep_ratchet epc with
  | None => mret None
  | Some _ =>
      m ← on_world (connection_cache c);
      match parseChunkFrameHeader frame with
      | Err _ => mret None
      | Ok parsed =>
          match messageCacheKey (h_dhPub (pf_header parsed)) (h_N (pf_header parsed))
                  ((fun _ => pf_pqEpoch parsed) <$> ep_pq epc) with
          | Err _ => mret None
          | Ok key => evict_keys m;; mret (Some (m, key))
          end
      end
  end.

(** ** The decrypted chunk *)

(** The chunk for the store and its receipt token, or the result of a cell that
    is not stored. *)
Inductive Prepared :=
  | Rejected (r : ReceiveMessageResult)
  | ToStore (chunk : ReceiveChunk) (token : bytes).

Definition chunk_size_of (metadata : Metadata) : Z :=
  let size := md_chunkEndIndex metadata - md_chunkStartIndex metadata in
  if md_totalSize metadata <? size then 0 else if MESSAGE_LEN <? size then 0 else size.

(** [metadata.date] is a valid date here. *)
Definition time_of (metadata : Metadata) : Z := default 0 (md_date metadata).

Definition rejected_result (metadata : Metadata) (leafHash : bytes) : ReceiveMessageResult :=
  {| re_date := time_of metadata; re_chunkSize := 0; re_chunkIndex := -1;
     re_receivedFullSize := false; re_chunkAlreadyExists := true; re_totalSize := md_totalSize metadata;
     re_messageType := md_messageType metadata; re_filename := md_name metadata;
     re_chunkHash := leafHash; re_messageHash := md_hash metadata |}.

Inductive PrepareError := prepare_metadata (e : MetadataError) | prepare_token (e : TokenError).

(** Step 3, up to the store. *)
Definition prepare_chunk (roomId fromPeerId channelLabel : string) (merkleRoot decrypted : bytes)
    : result PrepareError Prepared :=
  let metadataArray := slice decrypted 0 METADATA_LEN in
  let leafHash := slice decrypted METADATA_LEN (METADATA_LEN + crypto_hash_sha512_BYTES) in
  let chunk := slice_from decrypted (METADATA_LEN + PROOF_LEN) in
  metadata ← map_err prepare_metadata (deserializeMetadata metadataArray);
  map_err prepare_metadata (assertMetadataV1 metadata);;
  let chunkSize := chunk_size_of metadata in
  if chunkSize =? 0 then Ok (Rejected (rejected_result metadata leafHash))
  else if negb (isStorableChunkRange (md_chunkStartIndex metadata) (md_chunkEndIndex metadata) (blen chunk))
  then Ok (Rejected (rejected_result metadata leafHash))
  else
    token ← map_err prepare_token (createChunkReceiptToken merkleRoot (md_chunkIndex metadata) leafHash);
    Ok (ToStore
      {| rc_schemaVersion := md_schemaVersion metadata; rc_roomId := roomId; rc_fromPeerId := fromPeerId;
         rc_channelLabel := channelLabel; rc_timestamp := time_of metadata;
         rc_merkleRoot := toHex merkleRoot; rc_hash := toHex (md_hash metadata);
         rc_filename := md_name metadata; rc_messageType := md_messageType metadata;
         rc_chunkIndex := md_chunkIndex metadata; rc_mimeType := getMimeType (md_messageType metadata);
         rc_leafHash := toHex leafHash; rc_realLen := chunkSize; rc_totalSize := md_totalSize metadata;
         rc_data := slice chunk (md_chunkStartIndex metadata) (md_chunkEndIndex metadata);
         rc_opfs := negb (md_messageType metadata =? code Text) |} token).

Definition stored_result (chunk : ReceiveChunk) (hash token : bytes) (progress : StoreResult)
    : ReceiveMessageResult :=
  {| re_date := rc_timestamp chunk; re_chunkSize := rc_realLen chunk; re_chunkIndex := rc_chunkIndex chunk;
     re_receivedFullSize := sr_complete progress; re_chunkAlreadyExists := negb (sr_stored progress);
     re_totalSize := rc_totalSize chunk; re_messageType := rc_messageType chunk;
     re_filename := rc_filename chunk; re_chunkHash := token; re_messageHash := hash |}.

(** [storeReceiveChunkFailClosed] *)
Definition storeReceiveChunkFailClosed (chunk : ReceiveChunk) (env : Env) : rx (option StoreResult) := fun s =>
  let '(r, st) := storeReceiveChunkLocked chunk env (rx_stores s (rc_merkleRoot chunk)) in
  (Ok (match r with Ok progress => Some progress | Err _ => None end), set_store (rc_merkleRoot chunk) st s).

Definition bindReceiveMessageKey (merkleRootHex cacheKey : string) : rx unit :=
  modify_this (fun s => set_roots (<[merkleRootHex := cacheKey]> (rx_roots s)) s).

(** What the caller of a durable decryption does when it throws. *)
Definition or_else {S E A} (m : M S E A) (default : A) : M S E A := fun s =>
  match m s with (Ok a, s') => (Ok a, s') | (Err _, s') => (Ok default, s') end.

(** [signal?.aborted] at the checks after the decryption, the token and the
    store. *)
Record Signals := { sg_decrypted : bool; sg_token : bool; sg_stored : bool }.

(** After the capture.  [o] is the write of the ratchet row, [env] the
    environment of the store, [now] the clock of a dropped frame. *)
Definition receive_rest (c : nat) (roomId fromPeerId channelLabel : string) (frame merkleRoot entropy : bytes)
    (m : nat) (key : string) (o : WriteOutcome) (env : Env) (signals : Signals) (now : Z)
    : rx ReceiveMessageResult :=
  outcome ← or_else (on_world (mutateRatchetDurably c (DecryptJob frame m merkleRoot entropy) o)) (Decrypted dropped);
  match outcome with
  | Decrypted {| decrypted := Some plain; chunk_ok := true |} =>
      bindReceiveMessageKey (toHex merkleRoot) key;;
      if sg_decrypted signals then mret (dropped_result now) else
      match prepare_chunk roomId fromPeerId channelLabel merkleRoot plain with
      | Err _ => mret (dropped_result now)
      | Ok (Rejected r) => mret r
      | Ok (ToStore chunk token) =>
          if sg_token signals then mret (dropped_result now) else
          stored ← storeReceiveChunkFailClosed chunk env;
          match stored with
          | None => mret (dropped_result now)
          | Some progress =>
              if sg_stored signals then mret (dropped_result now)
              else mret (stored_result chunk (slice plain 9 73) token progress)
          end
      end
  | _ => mret (dropped_result now)
  end.

Definition handleReceiveMessage (c : nat) (roomId fromPeerId channelLabel : string)
    (frame merkleRoot entropy : bytes) (o : WriteOutcome) (env : Env) (aborted : bool) (signals : Signals)
    (now : Z) : rx ReceiveMessageResult :=
  captured ← receive_capture c aborted frame;
  match captured with
  | None => mret (dropped_result now)
  | Some (m, key) =>
      receive_rest c roomId fromPeerId channelLabel frame merkleRoot entropy m key o env signals now
  end.

(** ** The end of a receive key *)

Definition isComplete (savedSize totalSize : Z) : bool :=
  isSafeInteger savedSize && isSafeInteger totalSize && (0 <=? savedSize) && (0 <? totalSize)
  && (savedSize =? totalSize).

Inductive Retirement := joined | nothing_to_retire | retiring (cache : nat) (cacheKey : string).

(** [forgetMappedReceiveMessageKey] up to the durable removal; a call for a root
    whose retirement is under way joins it. *)
Definition begin_forget (c : nat) (merkleRootHex : string) : rx Retirement :=
  this ← get_this;
  epc ← on_world (epc_of c);
  if decide (merkleRootHex ∈ rx_retiring this) then mret joined
  else
    match rx_roots this !! merkleRootHex, ep_cache epc with
    | Some cacheKey, Some m =>
        modify_this (set_retiring ({[merkleRootHex]} ∪ rx_retiring this));;
        mret (retiring m cacheKey)
    | _, _ => mret nothing_to_retire
    end.

(** The durable removal, the binding, and the end of the retirement. *)
Definition end_forget (c : nat) (merkleRootHex : string) (m : nat) (cacheKey : string) (o : WriteOutcome)
    : rx bool := fun s =>
  let '(r, s) := on_world (mutateRatchetDurably c (ForgetJob m cacheKey) o) s in
  let s := match r with
           | Ok _ => if decide (rx_roots s !! merkleRootHex = Some cacheKey)
                     then set_roots (delete merkleRootHex (rx_roots s)) s else s
           | Err _ => s
           end in
  (match r with Ok _ => Ok true | Err e => Err e end,
   set_retiring (rx_retiring s ∖ {[merkleRootHex]}) s).

Definition forgetMappedReceiveMessageKey (c : nat) (merkleRootHex : string) (o : WriteOutcome) : rx bool :=
  retirement ← begin_forget c merkleRootHex;
  match retirement with
  | retiring m cacheKey => end_forget c merkleRootHex m cacheKey o
  | _ => mret false
  end.

Definition forgetCompletedReceiveMessageKey (c : nat) (merkleRootHex : string) (progress : option (Z * Z))
    (o : WriteOutcome) : rx bool :=
  match progress with
  | Some (savedSize, totalSize) =>
      if isComplete savedSize totalSize then forgetMappedReceiveMessageKey c merkleRootHex o else mret false
  | None => mret false
  end.
End Receive.

(** * What a receipt says

    The receiver answers every chunk frame with 64 bytes; they are the token of
    a chunk exactly when the chunk was authenticated and is on record. *)

Section Token.
Context {HS : Sha512}.

Lemma token_ok root i leaf t : createChunkReceiptToken root i leaf = Ok t ->
  blen root = 64 /\ blen leaf = 64 /\ 0 <= i <= MAX_SAFE_INTEGER /\
  t = subtle_digest_sha512 (receipt_input root i leaf).
Proof.
  unfold createChunkReceiptToken, isSafeInteger. intros H. binds H.
  repeat match goal with Hr : require _ _ = Ok _ |- _ => apply require_ok in Hr end.
  apply Z.eqb_eq in E, E0. rewrite !andb_true_iff, negb_true_iff in E1.
  destruct E1 as [Ha Hc]. split_and!; [done|done|lia|lia|by symmetry].
Qed.

Lemma receipt_input_inj root i leaf root' i' leaf' :
  blen root = 64 -> blen root' = 64 -> 0 <= i <= MAX_SAFE_INTEGER -> 0 <= i' <= MAX_SAFE_INTEGER ->
  receipt_input root i leaf = receipt_input root' i' leaf' -> root = root' /\ i = i' /\ leaf = leaf'.
Proof.
  unfold receipt_input. intros Hr Hr' Hi Hi' H. apply app_inv_head in H.
  apply app_inj_1 in H as [-> H]; [|unfold blen in *; lia].
  apply app_inj_1 in H as [H ->]; [|by rewrite !length_be_encode].
  split; [done|]. split; [|done]. apply (f_equal be_decode) in H. rewrite !be_decode_encode in H.
  assert (MAX_SAFE_INTEGER < 256 ^ Z.of_nat 8) by done. rewrite !Z.mod_small in H by lia. done.
Qed.

(** A token names one chunk: a root, an index and a leaf. *)
Lemma token_binds root i leaf root' i' leaf' t :
  createChunkReceiptToken root i leaf = Ok t -> createChunkReceiptToken root' i' leaf' = Ok t ->
  (root = root' /\ i = i' /\ leaf = leaf') \/ collides [receipt_input root i leaf] [receipt_input root' i' leaf'].
Proof.
  intros (Hr & _ & Hi & ->)%token_ok (Hr' & _ & Hi' & H)%token_ok.
  destruct (collides_intro [receipt_input root i leaf] [receipt_input root' i' leaf'] _ _ ltac:(by left) ltac:(by left) H)
    as [Hx|Hx]; [left|by right]. by apply receipt_input_inj.
Qed.
End Token.

Section Receipt.
Context {C : LibCrypto} {HS : Sha512} `{!Sha512Correct HS} {B : MlKemBackend}.

(** What a call of the store leaves on record when it returns. *)
Lemma stored_on_record chunk env s res s' : storeReceiveChunkLocked chunk env s = (Ok res, s') ->
  has_chunk (rc_chunkIndex chunk) (sv_chunks s') = true /\
  (sr_stored res = true -> exists rec, rec ∈ sv_chunks s' /\ ck_chunkIndex rec = rc_chunkIndex chunk /\
     ck_leafHash rec = rc_leafHash chunk /\ ck_hash rec = rc_hash chunk).
Proof.
  unfold storeReceiveChunkLocked. intros H. mbinds H.
  destruct (has_chunk (rc_chunkIndex chunk) (sv_chunks s)) eqn:Hk.
  { mbinds H. subst. split; [exact Hk|done]. }
  mbinds H. unfold commit_chunk in H. mbinds H.
  clear E4. destruct (has_chunk (rc_chunkIndex chunk) (sv_chunks s0)) eqn:Hknown.
  - unfold mret, M_ret in E3, E5. injection E3 as <-. injection E5 as <-.
    destruct (ev_commit env); [|discriminate H|by mbinds H]. mbinds H. subst. injection E3 as <-. by split.
  - mbinds E3. mbinds E5. destruct (ev_commit env); [|discriminate H|by mbinds H].
    mbinds H. subst. cbn [sv_chunks sr_stored]. split.
    + unfold has_chunk. rewrite existsb_app. cbn. by rewrite Z.eqb_refl, orb_true_r.
    + intros _. exists (record_of chunk x0). split_and!; try done. apply elem_of_app. right. by left.
Qed.

(** ** The durable decryption *)

Lemma durable_value c job o w v w' : mutateRatchetDurably c job o w = (Ok v, w') ->
  exists candidate w0 staged w1, stage c job candidate w0 = (Ok staged, w1) /\ v = sg_value staged.
Proof.
  unfold mutateRatchetDurably. intros H. apply M_bind_ok in H as (begun & w1 & E & H).
  unfold begin_mutation in E. mbinds E. destruct (ep_ratchet _) as [r|]; [|discriminate E].
  apply M_bind_ok in E as (staged & w2 & Es & E). exists (cloneRatchet (w_ratchets w r)), w, staged, w2.
  split; [exact Es|]. destruct (sg_advanced staged).
  - injection E as <- <-. apply M_bind_ok in H as (? & w3 & _ & H). unfold finish_mutation in H. mbinds H.
    destruct (adoptRatchet _ _) as [[[]|] ?]; [|discriminate H].
    apply M_bind_ok in H as (? & w4 & _ & H). apply M_bind_ok in H as (? & w5 & _ & H). by injection H.
  - apply M_bind_ok in E as (? & w3 & _ & E). injection E as <- _. by injection H.
Qed.

Lemma durable_source c frame m root e o w d w' :
  mutateRatchetDurably c (DecryptJob frame m root e) o w = (Ok (Decrypted d), w') -> chunk_ok d = true ->
  exists key, receiveWithKey frame root key = Ok (0, decrypted d).
Proof.
  intros (candidate & w0 & staged & w1 & E & Hv)%durable_value Hok.
  unfold stage, stage_decrypt in E. mbinds E.
  destruct (decryptMessageChunk _ _ _ _ _) as [[d2|er] st] eqn:Hd; [|discriminate]. 
  assert (d2 = d) as ->; [|by eapply ok_source].
  injection E2 as <- <-. destruct (negb (stateAdvanced d2)).
  { injection E as <- _. by injection Hv. }
  destruct (map_get _ (cache st)); [|discriminate E]. destruct (map_get _ (w_maps _ _)); [discriminate E|].
  destruct (ep_pq _); injection E as <- _; by injection Hv.
Qed.

(** ** From the frame to the store *)

Lemma on_world_ok {A} (x : edge A) s a s' : on_world x s = (Ok a, s') ->
  exists w, x (rx_world s) = (Ok a, w) /\ s' = set_world w s.
Proof. unfold on_world. destruct (x (rx_world s)) as [[b|er] w]; [|done]. intros [= -> <-]. eauto. Qed.

Lemma dropped_not_real now : receipt_is_real (dropped_result now) = false.
Proof. done. Qed.
Lemma rejected_not_real md leaf : receipt_is_real (rejected_result md leaf) = false.
Proof. unfold receipt_is_real. cbn [re_chunkIndex rejected_result]. by rewrite andb_false_r. Qed.

(** What a chunk for the store carries. *)
Lemma prepare_ok room from label root plain chunk token :
  prepare_chunk room from label root plain = Ok (ToStore chunk token) ->
  let leaf := slice plain METADATA_LEN (METADATA_LEN + crypto_hash_sha512_BYTES) in
  createChunkReceiptToken root (rc_chunkIndex chunk) leaf = Ok token /\
  rc_merkleRoot chunk = toHex root /\ rc_leafHash chunk = toHex leaf.
Proof.
  unfold prepare_chunk. cbv zeta. intros H. binds H.
  destruct (chunk_size_of _ =? 0); [discriminate H|]. destruct (negb (isStorableChunkRange _ _ _)); [discriminate H|].
  binds H. repeat match goal with Hx : map_err _ _ = Ok _ |- _ => apply map_err_ok in Hx end.
  injection H as <- <-. by split_and!.
Qed.

Lemma prepare_rejected room from label root plain rej :
  prepare_chunk room from label root plain = Ok (Rejected rej) -> receipt_is_real rej = false.
Proof.
  unfold prepare_chunk. cbv zeta. intros H. binds H.
  destruct (chunk_size_of _ =? 0); [injection H as <-; apply rejected_not_real|].
  destruct (negb (isStorableChunkRange _ _ _)); [injection H as <-; apply rejected_not_real|].
  binds H. discriminate H.
Qed.

(** The chunk behind a real receipt. *)
Lemma receipt_stored c roomId fromPeerId channelLabel frame root e o env aborted signals now s r s' :
  handleReceiveMessage c roomId fromPeerId channelLabel frame root e o env aborted signals now s = (Ok r, s') ->
  receipt_is_real r = true ->
  exists plain key,
    receiveWithKey frame root key = Ok (0, Some plain) /\
    let leaf := hashMerkleLeaf (slice plain CHUNK_START DECRYPTED_LEN) in
    createChunkReceiptToken root (re_chunkIndex r) leaf = Ok (re_chunkHash r) /\
    (forall chunks, getMerkleRoot (tree_of chunks) = Ok root ->
       slice plain CHUNK_START DECRYPTED_LEN ∈ chunks \/
       collides (message_inputs chunks) (cell_inputs (frame_cell frame root key))) /\
    has_chunk (re_chunkIndex r) (sv_chunks (rx_stores s' (toHex root))) = true /\
    (re_chunkAlreadyExists r = false -> exists rec, rec ∈ sv_chunks (rx_stores s' (toHex root)) /\
       ck_chunkIndex rec = re_chunkIndex r /\ ck_leafHash rec = toHex leaf) /\
    (forall root' index' leaf', createChunkReceiptToken root' index' leaf' = Ok (re_chunkHash r) ->
       (root' = root /\ index' = re_chunkIndex r /\ leaf' = leaf) \/
       collides [receipt_input root' index' leaf'] [receipt_input root (re_chunkIndex r) leaf]).
Proof.
  intros H Hreal. unfold handleReceiveMessage in H.
  apply M_bind_ok in H as (captured & s1 & _ & H).
  destruct captured as [[m key]|]; [|injection H as <- _; by rewrite dropped_not_real in Hreal].
  unfold receive_rest in H. apply M_bind_ok in H as (outcome & s2 & E & H).
  assert (forall x y, (mret (dropped_result now) : rx ReceiveMessageResult) x = (Ok r, y) -> False) as Hdrop.
  { intros x y [= <- _]. by rewrite dropped_not_real in Hreal. }
  destruct outcome as [| [[plain|] [] adv] |]; try by apply Hdrop in H.
  apply M_bind_ok in H as (? & s3 & E3 & H). injection E3 as _ <-.
  destruct (sg_decrypted signals); [by apply Hdrop in H|].
  destruct (prepare_chunk _ _ _ _ _) as [[rej|chunk token]|er] eqn:Hp; [| |by apply Hdrop in H].
  { injection H as <- _. by rewrite (prepare_rejected _ _ _ _ _ _ Hp) in Hreal. }
  apply prepare_ok in Hp as (Htok & Hroot & Hleaf).
  destruct (sg_token signals); [by apply Hdrop in H|].
  apply M_bind_ok in H as (res & s4 & Es & H).
  destruct res as [progress|]; [|by apply Hdrop in H].
  destruct (sg_stored signals); [by apply Hdrop in H|]. injection H as <- <-.
  unfold storeReceiveChunkFailClosed in Es. rewrite Hroot in Es.
  destruct (storeReceiveChunkLocked _ _ _) as [[p|er] st] eqn:Hst; [|discriminate Es].
  injection Es as -> <-. apply stored_on_record in Hst as [Hhas Hrec].
  unfold or_else in E. destruct (on_world _ _) as [[v|er] s5] eqn:Hw; [|discriminate E].
  injection E as -> <-. apply on_world_ok in Hw as (w & Hw & ->).
  destruct (durable_source _ _ _ _ _ _ _ _ _ Hw eq_refl) as (k & Hk). cbn [decrypted] in Hk.
  exists plain, k. split; [exact Hk|]. rewrite <- (opened_leaf _ _ _ _ Hk). cbv zeta.
  cbn [re_chunkHash re_chunkIndex re_chunkAlreadyExists stored_result rx_stores set_store].
  rewrite fn_lookup_insert. split_and!; [done| |done| |].
  - intros chunks Hr. destruct (opened_member _ _ _ _ _ Hr Hk) as (pt & [= <-] & Hm). exact Hm.
  - intros Hn%negb_false_iff. destruct (Hrec Hn) as (rec & Hin & Hi & Hl & _). exists rec. by rewrite <- Hleaf.
  - intros root' i' leaf' Ht. by apply (token_binds _ _ _ _ _ _ _ Ht).
Qed.

(** C10. A real receipt is the token of an authenticated chunk on record: of a frame
    that the receive path answers with the token of a chunk, the durable
    decryption accepted the plaintext; the chunk in it belongs to the message
    when its root is the root of one, or a block hashed for that message collides
    with another one hashed to check this frame's cell; the database has a record
    under the chunk's index, with this leaf unless the index was already
    recorded.  The token names this root, index and leaf, and whatever else it
    names has a receipt input that collides with theirs. *)
Theorem receipt_means_stored c roomId fromPeerId channelLabel frame root e o env aborted signals now s r s' :
  handleReceiveMessage c roomId fromPeerId channelLabel frame root e o env aborted signals now s = (Ok r, s') ->
  receipt_is_real r = true ->
  exists plain key,
    receiveWithKey frame root key = Ok (0, Some plain) /\
    let leaf := hashMerkleLeaf (slice plain CHUNK_START DECRYPTED_LEN) in
    createChunkReceiptToken root (re_chunkIndex r) leaf = Ok (re_chunkHash r) /\
    (forall chunks, getMerkleRoot (tree_of chunks) = Ok root ->
       slice plain CHUNK_START DECRYPTED_LEN ∈ chunks \/
       collides (message_inputs chunks) (cell_inputs (frame_cell frame root key))) /\
    has_chunk (re_chunkIndex r) (sv_chunks (rx_stores s' (toHex root))) = true /\
    (re_chunkAlreadyExists r = false -> exists rec, rec ∈ sv_chunks (rx_stores s' (toHex root)) /\
       ck_chunkIndex rec = re_chunkIndex r /\ ck_leafHash rec = toHex leaf) /\
    (forall root' index' leaf', createChunkReceiptToken root' index' leaf' = Ok (re_chunkHash r) ->
       (root' = root /\ index' = re_chunkIndex r /\ leaf' = leaf) \/
       collides [receipt_input root' index' leaf'] [receipt_input root (re_chunkIndex r) leaf]).
Proof. apply receipt_stored. Qed.
End Receipt.
