(* ===== verification/InboundFrames.v ===== *)
(** * Inbound frames of a data channel

    The channel handlers of [src/src/handlers/handleOpenChannel.ts] - which
    channels are let in, where a frame is routed, what a close deletes, the
    receipts replayed when a channel opens - with the roles of
    [utils/identityRole.ts], and the handler of one chunk frame,
    [processMessage] of [handleMessageQueueing.ts], on top of [FrameQueue] and
    [Receive].  The polled state (signals, gates, leases, ready states) comes in
    as records of answers. *)

From Stdlib Require Import String.
From stdpp Require Import gmap.
From S2P Require Import Prelude Bytes Constants Crypto X25519 Ratchet RatchetKeys WireFrames Merkle ChunkCrypto ChannelLabel.
From S2P Require Import MlKem PqMachine PqRuntime PqCheckpoint Metadata RoomInvite RatchetWrap EdgePersist MessageTypes.
From S2P Require Import ReceiveStore Receive FrameQueue.
Local Open Scope Z_scope.
Local Open Scope list_scope.

(** ** Roles ([utils/identityRole.ts]) *)

Definition isCanonicalEd25519Identity (publicKey : list Z) : bool :=
  (blen publicKey =? 64) && forallb (fun c => in_range 48 57 c || in_range 97 102 c) publicKey.
Inductive RoleError := not_canonical | same_identity.
#[export] Instance RoleError_eq_dec : EqDecision RoleError.
Proof. solve_decision. Defined.
Definition assertCanonicalEd25519Identity (publicKey : list Z) : result RoleError unit :=
  require (isCanonicalEd25519Identity publicKey) not_canonical.
(** [<] on strings: the first code unit that differs decides. *)
Fixpoint string_lt (a b : list Z) : bool :=
  match a, b with
  | _, [] => false
  | [], _ :: _ => true
  | x :: a, y :: b => if x <? y then true else if y <? x then false else string_lt a b
  end.
Definition isIdentityInitiator (selfPublicKey peerPublicKey : list Z) : result RoleError bool :=
  assertCanonicalEd25519Identity selfPublicKey;;
  assertCanonicalEd25519Identity peerPublicKey;;
  require (negb (bool_decide (selfPublicKey = peerPublicKey))) same_identity;;
  Ok (string_lt selfPublicKey peerPublicKey).
Definition shouldAcceptIncomingMain (selfPublicKey peerPublicKey : list Z) : result RoleError bool :=
  initiator ← isIdentityInitiator selfPublicKey peerPublicKey; Ok (negb initiator).

(** ** Which channels are let in *)

Definition MAX_DATA_CHANNEL_LABEL_CHARS : Z := 193.
Definition MAX_MESSAGE_CHANNELS_PER_EDGE : nat := 64.
Definition ROOM_CHANNEL_CONTEXT_DOMAIN : bytes := text "p2party/room-channel/v1" ++ [Byte.x00].
Inductive ContextError := bad_capability_hex (e : LabelError) | bad_capability | bad_policy_hash.
Definition buildRoomChannelId (roomUrl channelLabel policyHash : bytes) : result ContextError bytes :=
  roomCapability ← map_err bad_capability_hex (hexToUint8Array roomUrl);
  require (blen roomCapability =? 32) bad_capability;;
  require (blen policyHash =? 32) bad_policy_hash;;
  Ok (ROOM_CHANNEL_CONTEXT_DOMAIN ++ roomCapability ++ policyHash ++ channelLabel).

Inductive OpenError :=
  | bad_label | opener_side | not_the_opener | duplicate_main | too_many_channels | bad_role (e : RoleError).
#[export] Instance OpenError_eq_dec : EqDecision OpenError.
Proof. solve_decision. Defined.

Definition main_label : list Z := units "main".
(** The connection of one edge; channels are numbers.  [ed_mainLive]: the state of
    [mainChannel] is neither closing nor closed. *)
Record Edge := MkEdge {
  ed_self : list Z; ed_peer : list Z; ed_main : option nat; ed_mainLive : bool;
  ed_coverRuntime : bool; ed_messageChannels : gset nat; ed_coverChannels : gset nat }.
Definition set_main (main : option nat) (e : Edge) : Edge :=
  MkEdge (ed_self e) (ed_peer e) main true (ed_coverRuntime e) (ed_messageChannels e) (ed_coverChannels e).
Definition set_messageChannels (channels : gset nat) (e : Edge) : Edge :=
  MkEdge (ed_self e) (ed_peer e) (ed_main e) (ed_mainLive e) (ed_coverRuntime e) channels (ed_coverChannels e).
Definition set_coverChannels (channels : gset nat) (e : Edge) : Edge :=
  MkEdge (ed_self e) (ed_peer e) (ed_main e) (ed_mainLive e) (ed_coverRuntime e) (ed_messageChannels e) channels.
(** [op_object]: the channel when it is an [RTCDataChannel]; a string is a label
    to be opened.  [op_existing]: the open channel of that label, peer and room. *)
Record OpenRequest := { op_object : option nat; op_label : list Z; op_incoming : bool; op_existing : option nat }.

Definition label_ok (label : list Z) : bool :=
  negb ((blen label =? 0) || (MAX_DATA_CHANNEL_LABEL_CHARS <? blen label)
        || (negb (existsb (Z.eqb 126) label) && (32 <? blen (text_encode label)))).
Definition close_object (p : OpenRequest) : list nat := match op_object p with Some channel => [channel] | None => [] end.

(** [handleOpenChannel] up to the parse of the label.  [fresh] is the channel that
    [createDataChannel] makes; the list names the channels that are closed. *)
Definition openChannel (p : OpenRequest) (fresh : nat) (e : Edge) : result OpenError nat * Edge * list nat :=
  let label := op_label p in
  let is_main := bool_decide (label = main_label) in
  match op_object p, op_existing p with
  | None, Some existing => (Ok existing, e, [])
  | _, _ =>
      if negb (label_ok label) then (Err bad_label, e, close_object p) else
      match (if op_incoming p && is_main then map_err bad_role (shouldAcceptIncomingMain (ed_self e) (ed_peer e)) else Ok true) with
      | Err r => (Err r, e, [])
      | Ok false => (Err opener_side, e, close_object p)
      | Ok true =>
          match (if negb (op_incoming p) && is_main then map_err bad_role (isIdentityInitiator (ed_self e) (ed_peer e)) else Ok true) with
          | Err r => (Err r, e, [])
          | Ok false => (Err not_the_opener, e, [])
          | Ok true =>
              let admitted :=
                let channel := default fresh (op_object p) in
                let e := if is_main then set_main (Some channel) e else e in
                if negb is_main && ed_coverRuntime e then (Ok channel, set_coverChannels ({[channel]} ∪ ed_coverChannels e) e, [])
                else if negb is_main then
                  if negb (bool_decide (channel ∈ ed_messageChannels e)) && (MAX_MESSAGE_CHANNELS_PER_EDGE <=? size (ed_messageChannels e))%nat
                  then (Err too_many_channels, e, [channel])
                  else (Ok channel, set_messageChannels ({[channel]} ∪ ed_messageChannels e) e, [])
                else (Ok channel, e, []) in
              match (if is_main && ed_mainLive e then ed_main e else None) with
              | None => admitted
              | Some main =>
                  if negb (op_incoming p) then (Ok main, e, [])
                  else if negb (bool_decide (op_object p = Some main)) then (Err duplicate_main, e, close_object p)
                  else admitted
              end
          end
      end
  end.

(** ** Where a frame goes ([onmessage]) *)

Record Lane := { la_queue : nat; la_main : bool; la_cover : bool; la_object : bool; la_root : bytes; la_rootHex : bytes }.
Inductive Route :=
  | BeforeAuthentication | ToReceipts (token : bytes) | ToChunks | ToPqControl | PqBeforeAuthentication
  | ToCover | CoverBeforeAuthentication | ToHandshake (payload : bytes) | WrongLength.
Definition route (lane : Lane) (gateOpen coverRuntime : bool) (data : bytes) : Route :=
  if negb (la_main lane) && negb gateOpen then BeforeAuthentication else
  let classified := classifyFrame data in
  if negb (la_main lane) && (cf_type classified =? FRAME_TYPE_RECEIPT) then ToReceipts (cf_payload classified) else
  if (cf_type classified =? FRAME_TYPE_CHUNK) && (blen data =? WIRE_CHUNK_FRAME_LEN) then ToChunks else
  if (la_main lane || la_cover lane) && (cf_type classified =? FRAME_TYPE_PQ_CONTROL) && (blen data =? WIRE_CHUNK_FRAME_LEN)
  then (if gateOpen then ToPqControl else PqBeforeAuthentication) else
  if (cf_type classified =? FRAME_TYPE_COVER) && (blen data =? WIRE_CHUNK_FRAME_LEN) && coverRuntime
  then (if gateOpen then ToCover else CoverBeforeAuthentication) else
  if la_main lane && (cf_type classified =? FRAME_TYPE_HANDSHAKE) then ToHandshake (cf_payload classified) else WrongLength.

(** The queues after it; [true] when the channel is closed.  Control, cover and
    handshake frames leave the queues alone here. *)
Definition onmessage (lane : Lane) (gateOpen coverRuntime : bool) (data : bytes) (q : Queues) : Queues * bool :=
  let refuse accepted q := if accepted : bool then (q, false) else (releaseProtocolResources (la_queue lane) q, true) in
  match route lane gateOpen coverRuntime data with
  | BeforeAuthentication => (releaseProtocolResources (la_queue lane) q, true)
  | ToReceipts token => let '(accepted, q) := enqueueReceipt (la_queue lane) token q in refuse accepted q
  | ToChunks => let '(accepted, q) := enqueue (la_queue lane) data q in refuse accepted q
  | _ => (q, false)
  end.

(** ** What a close deletes ([onclose] of a message channel, [transferAbort.ts]) *)

Definition isRemoteCancelClose (progress : option MessageData) (remotePeerId : string) (alive : bool) : bool :=
  match progress with
  | Some p =>
      alive && bool_decide (mg_fromPeerId p = remotePeerId) && (0 <? mg_totalSize p) && (0 <=? mg_savedSize p)
      && (mg_savedSize p <? mg_totalSize p)
  | None => false
  end.
(** [cc_cancelled]: the outcome of an explicit cancellation, when there was one;
    [cc_progress]: the row of the message, or a read that failed; [cc_alive]: the
    edge is connected and its lease current; [cc_keyMapped]: the root has a key. *)
Record CloseState := {
  cc_cancelled : option bool; cc_progress : result unit (option MessageData); cc_alive : bool; cc_cover : bool; cc_keyMapped : bool }.
Definition deleteIncompleteReceive (lane : Lane) (peerId : string) (s : CloseState) : bool :=
  match cc_cancelled s with
  | Some done => done
  | None =>
      if bool_decide (la_rootHex lane = []) then false else
      match cc_progress s with
      | Err _ => false
      | Ok progress =>
          (negb (cc_cover s) && isRemoteCancelClose progress peerId (cc_alive s))
          || (negb (cc_cover s) && bool_decide (progress = None) && cc_alive s && cc_keyMapped s)
      end
  end.

(** ** Receipts on the wire ([receiptFrame.ts]) *)

Definition sendReceiptFrame (isOpen : bool) (token : bytes) : result FrameError (list bytes) :=
  if isOpen then frame ← encodeReceiptFrame token; Ok [frame] else Ok [].

(** [sendReceiptFramesPaced].  [polls n] is the [n]-th look at the ready state at
    which a decision is taken: when the wait for the buffer ends before a token,
    and at the end.  The frames sent, the result and the looks taken. *)
Fixpoint sendReceiptFramesPaced (polls : nat -> bool) (n : nat) (tokens : list bytes)
    : list bytes * result FrameError bool * nat :=
  match tokens with
  | [] => ([], Ok (polls n), S n)
  | token :: tokens =>
      if negb (polls n) then ([], Ok false, S n) else
      match encodeReceiptFrame token with
      | Err e => ([], Err e, S n)
      | Ok frame => let '(frames, sent, n') := sendReceiptFramesPaced polls (S n) tokens in (frame :: frames, sent, n')
      end
  end.

(** ** The receipts replayed when a channel opens ([onopen]) *)

Definition RECEIPT_REPLAY_BATCH_SIZE : nat := 32.
Section Replay.
Context {HS : Sha512}.

(** [fnGetDBAllChunkLeafHashes] on the store of the root. *)
Definition getDBAllChunkLeafHashes (merkleRootHex : bytes) (store : Store) : list (Z * string) :=
  if negb (blen merkleRootHex =? 2 * crypto_hash_sha512_BYTES) then []
  else (fun c => (ck_chunkIndex c, ck_leafHash c)) <$> sv_chunks store.

(** The loop over the records, with the batch so far: the frames sent, and the
    looks taken unless the replay stopped. *)
Fixpoint replay_chunks (polls : nat -> bool) (n : nat) (merkleRoot : bytes) (rows : list (Z * string)) (batch : list bytes)
    : list bytes * option nat :=
  match rows with
  | [] =>
      if bool_decide (batch = []) then ([], Some n) else
      match sendReceiptFramesPaced polls n batch with
      | (frames, Ok true, n) => (frames, Some n)
      | (frames, _, _) => (frames, None)
      end
  | (chunkIndex, leafHash) :: rows =>
      if negb (blen (text leafHash) =? crypto_hash_sha512_BYTES * 2) then replay_chunks polls n merkleRoot rows batch else
      match hexToUint8Array (text leafHash) with
      | Err _ => ([], None)
      | Ok leaf =>
          match createChunkReceiptToken merkleRoot chunkIndex leaf with
          | Err _ => ([], None)
          | Ok token =>
              let batch := batch ++ [token] in
              if (length batch =? RECEIPT_REPLAY_BATCH_SIZE)%nat then
                match sendReceiptFramesPaced polls n batch with
                | (frames, Ok true, n) =>
                    let '(more, m) := replay_chunks polls n merkleRoot rows [] in (frames ++ more, m)
                | (frames, _, _) => (frames, None)
                end
              else replay_chunks polls n merkleRoot rows batch
          end
      end
  end.
(** The frames that opening the channel puts on it.  [authenticated]: the transport
    still is after the wait for the gate. *)
Definition replayReceipts (lane : Lane) (authenticated : bool) (polls : nat -> bool) (store : Store) : list bytes :=
  if bool_decide (la_rootHex lane = []) || negb (la_object lane) || negb authenticated then [] else
  let rows := getDBAllChunkLeafHashes (la_rootHex lane) store in
  if bool_decide (rows = []) then [] else
  match replay_chunks polls 0 (la_root lane) rows [] with
  | (frames, None) => frames
  | (frames, Some n) =>
      match sv_message store with
      | Some md =>
          if (0 <? mg_totalSize md) && (mg_savedSize md =? mg_totalSize md)
             && (blen (text (mg_hash md)) =? crypto_hash_sha512_BYTES * 2)
          then match hexToUint8Array (text (mg_hash md)) with
               | Ok hash => match sendReceiptFrame (polls n) hash with Ok last => frames ++ last | Err _ => frames end
               | Err _ => frames
               end
          else frames
      | None => frames
      end
  end.
End Replay.

(** ** One chunk frame ([processMessage]) *)

(** What the two [dispatch]es of a message carry. *)
Record MessageUpdate := {
  mu_roomId : string; mu_merkleRootHex : string; mu_sha512Hex : string; mu_fromPeerId : string; mu_chunkSize : Z;
  mu_totalSize : Z; mu_messageType : Z; mu_filename : list Z; mu_channelLabel : string; mu_timestamp : Z }.
Inductive Action :=
  | SendFrame (frame : bytes) | QueueScheduledReceipt (merkleRoot token : bytes) | CloseReceiveFile (merkleRootHex : string)
  | SetMessageAllChunks (m : MessageUpdate) | SetMessage (m : MessageUpdate) | IncrementMessageStats (real : bool).

(** The answers it polls, in order: the signal and the lease, the gate (which
    rejects when the handshake failed), both again, the signal after the receive;
    the cover runtime and the channel at the receipt, the close of the file, and
    both again at the terminal receipt. *)
Record FrameEnv := {
  fv_aborted : bool; fv_lease : bool; fv_gateOpens : bool; fv_abortedAtGate : bool; fv_leaseAtGate : bool;
  fv_abortedReceived : bool; fv_cover : bool; fv_open : bool; fv_random : bytes; fv_fileCloses : bool;
  fv_coverAtEnd : bool; fv_openAtEnd : bool }.

(** [sendReceiveFrameReceipt] with a channel. *)
Definition sendReceiveFrameReceipt (r : ReceiveMessageResult) (isOpen : bool) (random : bytes) : result FrameError (list bytes) :=
  if receipt_is_real r then sendReceiptFrame isOpen (re_chunkHash r)
  else if isOpen then sendReceiptFrame isOpen (region crypto_hash_sha512_BYTES random) else Ok [].

Definition update_of (roomId peerId channelLabel : string) (merkleRoot : bytes) (r : ReceiveMessageResult) : MessageUpdate :=
  {| mu_roomId := roomId; mu_merkleRootHex := toHex merkleRoot; mu_sha512Hex := toHex (re_messageHash r);
     mu_fromPeerId := peerId; mu_chunkSize := re_chunkSize r; mu_totalSize := re_totalSize r;
     mu_messageType := re_messageType r; mu_filename := re_filename r; mu_channelLabel := channelLabel;
     mu_timestamp := re_date r |}.
Definition new_chunk (r : ReceiveMessageResult) : bool :=
  (0 <? re_chunkSize r) && (-1 <? re_chunkIndex r) && negb (re_chunkAlreadyExists r).

(** After the receive: the actions in order, and the result; a throw is caught
    where it happens. *)
Definition respond (roomId peerId channelLabel : string) (merkleRoot : bytes) (env : FrameEnv) (r : ReceiveMessageResult)
    : bool * list Action :=
  if fv_abortedReceived env then (false, []) else
  match (if fv_cover env then Ok [] else sendReceiveFrameReceipt r (fv_open env) (fv_random env)) with
  | Err _ => (false, [])
  | Ok receipt =>
      let first := SendFrame <$> receipt in
      let update := update_of roomId peerId channelLabel merkleRoot r in
      let stats := [IncrementMessageStats (new_chunk r)] in
      if re_receivedFullSize r then
        let queued := if fv_cover env then [QueueScheduledReceipt merkleRoot merkleRoot] else [] in
        if negb (fv_fileCloses env) then (false, first ++ queued ++ [CloseReceiveFile (toHex merkleRoot)]) else
        let done := first ++ queued ++ [CloseReceiveFile (toHex merkleRoot); SetMessageAllChunks update] in
        match (if fv_coverAtEnd env then Ok [] else sendReceiptFrame (fv_openAtEnd env) (re_messageHash r)) with
        | Err _ => (false, done)
        | Ok terminal => (true, done ++ (SendFrame <$> terminal) ++ stats)
        end
      else (false, first ++ (if new_chunk r then [SetMessage update] else []) ++ stats)
  end.

Section Process.
Context {C : LibCrypto} {HS : Sha512} {B : MlKemBackend}.

Definition processMessage (epc : option nat) (roomId peerId fromPeerId channelLabel : string) (merkleRoot frame entropy : bytes)
    (o : WriteOutcome) (store_env : Env) (signals : Signals) (now : Z) (env : FrameEnv) (s : Rx) : bool * list Action * Rx :=
  if fv_aborted env then (false, [], s) else
  match epc with
  | None => (false, [], s)
  | Some c =>
      if negb (fv_lease env) then (false, [], s) else
      if negb (fv_gateOpens env) then (false, [], s) else
      if fv_abortedAtGate env then (false, [], s) else
      if negb (fv_leaseAtGate env) then (false, [], s) else
      match handleReceiveMessage c roomId fromPeerId channelLabel frame merkleRoot entropy o store_env false signals now s with
      | (Err _, s) => (false, [], s)
      | (Ok r, s) => let '(full, actions) := respond roomId peerId channelLabel merkleRoot env r in (full, actions, s)
      end
  end.
End Process.

(** * What the channel handlers promise

    Exactly one side of an edge opens its main
    channel, a processed frame is answered by exactly one receipt frame outside
    scheduled rooms and by none inside, and the replay of receipts on a channel
    that opens sends one frame per stored chunk whatever kind of lane it is. *)

(** ** Roles *)

Lemma string_lt_total a b : blen a = blen b -> a <> b -> string_lt a b = negb (string_lt b a).
Proof.
  revert b. induction a as [|x a IH]; intros [|y b] Hl Hne; try done; rewrite ?blen_cons in Hl.
  cbn. destruct (Z.ltb_spec x y), (Z.ltb_spec y x); try done; try lia.
  apply IH; [lia|]. intros ->. apply Hne. f_equal. lia.
Qed.
(** The two ends of an edge see opposite roles, or neither has one. *)
Lemma roles_opposite a b :
  (exists x, isIdentityInitiator a b = Ok x /\ isIdentityInitiator b a = Ok (negb x) /\
     isCanonicalEd25519Identity a = true /\ isCanonicalEd25519Identity b = true /\ a <> b) \/
  (is_ok (isIdentityInitiator a b) = false /\ is_ok (isIdentityInitiator b a) = false /\
     ~ (isCanonicalEd25519Identity a = true /\ isCanonicalEd25519Identity b = true /\ a <> b)).
Proof.
  unfold isIdentityInitiator, assertCanonicalEd25519Identity.
  destruct (isCanonicalEd25519Identity a) eqn:Ha; [|right; cbn; split_and!; [done|by destruct (isCanonicalEd25519Identity b)|by intros (? & _)]].
  destruct (isCanonicalEd25519Identity b) eqn:Hb; [|right; cbn; split_and!; [done..|by intros (_ & ? & _)]].
  destruct (decide (a = b)) as [->|Hne].
  - right. rewrite bool_decide_eq_true_2 by done. cbn. split_and!; [done..|]. by intros (_ & _ & ?).
  - left. rewrite !bool_decide_eq_false_2 by congruence. cbn. exists (string_lt a b). split_and!; [done| |done..].
    f_equal. rewrite (string_lt_total a b); [by rewrite negb_involutive| |done].
    unfold isCanonicalEd25519Identity in Ha, Hb. apply andb_true_iff in Ha as [Ha%Z.eqb_eq _], Hb as [Hb%Z.eqb_eq _]. congruence.
Qed.

Definition open_main : OpenRequest := {| op_object := None; op_label := main_label; op_incoming := false; op_existing := None |}.
Definition accept_main (channel : nat) : OpenRequest :=
  {| op_object := Some channel; op_label := main_label; op_incoming := true; op_existing := None |}.
Definition opens (e : Edge) : bool := is_ok (openChannel open_main 0 e).1.1.
Definition accepts (channel : nat) (e : Edge) : bool := is_ok (openChannel (accept_main channel) 0 e).1.1.

Lemma opens_role e : ed_mainLive e = false -> opens e = match isIdentityInitiator (ed_self e) (ed_peer e) with Ok x => x | Err _ => false end.
Proof.
  intros H. unfold opens, openChannel, open_main. cbn [op_object op_existing op_label op_incoming]. change (label_ok main_label) with true.
  rewrite bool_decide_eq_true_2 by done. cbn [negb andb]. rewrite H. by destruct (isIdentityInitiator _ _) as [[]|].
Qed.
Lemma accepts_role channel e : ed_mainLive e = false ->
  accepts channel e = match isIdentityInitiator (ed_self e) (ed_peer e) with Ok x => negb x | Err _ => false end.
Proof.
  intros H. unfold accepts, openChannel, accept_main, shouldAcceptIncomingMain. cbn [op_object op_existing op_label op_incoming].
  change (label_ok main_label) with true. rewrite bool_decide_eq_true_2 by done. cbn [negb andb]. rewrite H.
  by destruct (isIdentityInitiator _ _) as [[]|].
Qed.

(** One side opens the main channel.  Of two ends that have no live main channel,
    never both may create it; the one accepts an incoming main channel exactly
    when the other may create it; and some end may create it exactly when the two
    identities are canonical and different.  A second main channel beside a live
    one is refused or is the same one. *)
Theorem one_side_opens_main eA eB channel : ed_self eA = ed_peer eB -> ed_peer eA = ed_self eB ->
  (ed_mainLive eA = false -> ed_mainLive eB = false ->
     opens eA && opens eB = false /\ accepts channel eB = opens eA /\ accepts channel eA = opens eB /\
     (opens eA || opens eB = true <->
        isCanonicalEd25519Identity (ed_self eA) = true /\ isCanonicalEd25519Identity (ed_self eB) = true /\ ed_self eA <> ed_self eB)) /\
  (forall p fresh main, op_label p = main_label -> ed_mainLive eA = true -> ed_main eA = Some main -> op_existing p = None ->
     forall r e closed, openChannel p fresh eA = (Ok r, e, closed) -> r = main).
Proof.
  intros H1 H2. split.
  - intros HA HB. rewrite (opens_role _ HA), (opens_role _ HB), (accepts_role _ _ HA), (accepts_role _ _ HB), H1, <- H2.
    destruct (roles_opposite (ed_peer eB) (ed_peer eA)) as [(x & -> & -> & Ha & Hb & Hne)|(Ha & Hb & Hn)].
    + rewrite negb_involutive. by destruct x.
    + destruct (isIdentityInitiator _ _); [discriminate Ha|]. destruct (isIdentityInitiator _ _); [discriminate Hb|]. done.
  - intros p fresh main Hl Hlive Hmain Hex r e closed H. unfold openChannel in H. rewrite Hex, Hl, (bool_decide_eq_true_2 _ eq_refl) in H.
    change (label_ok main_label) with true in H. cbn [negb] in H. rewrite !andb_true_r in H. cbn [andb] in H. rewrite Hlive, Hmain in H.
    destruct (op_object p) as [obj|] eqn:Hobj.
    all: destruct (if op_incoming p then _ else _) as [[]|]; [|discriminate H..].
    all: destruct (if negb (op_incoming p) then _ else _) as [[]|]; [|discriminate H..].
    all: destruct (negb (op_incoming p)); [by injection H|].
    all: case_bool_decide as Ho; [|discriminate H]; try discriminate Ho; injection Ho as ->; by injection H.
Qed.

(** ** Answers *)

Definition frames_of (actions : list Action) : list bytes :=
  omap (fun a => match a with SendFrame f => Some f | _ => None end) actions.
Lemma frames_of_app l l' : frames_of (l ++ l') = frames_of l ++ frames_of l'.
Proof. apply omap_app. Qed.
Lemma frames_of_sends l : frames_of (SendFrame <$> l) = l.
Proof. unfold frames_of. induction l as [|f l IH]; cbn; [done|]. by f_equal. Qed.
Definition receipt_frame (token : bytes) : bytes := byte_of FRAME_TYPE_RECEIPT :: token.
Lemma send_ok isOpen token frames : sendReceiptFrame isOpen token = Ok frames ->
  frames = (if isOpen then [receipt_frame token] else []) /\ (isOpen = true -> blen token = RECEIPT_TOKEN_LEN).
Proof.
  unfold sendReceiptFrame. destruct isOpen; [|by intros [= <-]]. intros H. binds H.
  assert (blen token = RECEIPT_TOKEN_LEN) as Hl.
  { unfold encodeReceiptFrame in E. binds E. by apply require_ok, Z.eqb_eq in E0. }
  rewrite encodeReceipt_ok in E by done. injection E as <-. by subst frames.
Qed.
Definition answer (r : ReceiveMessageResult) (random : bytes) : bytes :=
  if receipt_is_real r then re_chunkHash r else region crypto_hash_sha512_BYTES random.
Lemma receipt_ok r isOpen random frames : sendReceiveFrameReceipt r isOpen random = Ok frames ->
  frames = (if isOpen then [receipt_frame (answer r random)] else []) /\ (isOpen = true -> blen (answer r random) = RECEIPT_TOKEN_LEN).
Proof.
  unfold sendReceiveFrameReceipt, answer. destruct (receipt_is_real r); [apply send_ok|].
  destruct isOpen; [apply send_ok|by intros [= <-]].
Qed.
Lemma answer_sent r isOpen random : exists frames, sendReceiveFrameReceipt r isOpen random = Ok frames.
Proof.
  unfold sendReceiveFrameReceipt, sendReceiptFrame. destruct (receipt_is_real r) eqn:Hr; destruct isOpen; try by eexists.
  - unfold receipt_is_real in Hr. rewrite encodeReceipt_ok; [by eexists|]. repeat apply andb_true_iff in Hr as [Hr ?]. by apply Z.eqb_eq.
  - rewrite encodeReceipt_ok; [by eexists|]. by apply blen_region.
Qed.

(** The two frames that answering [r] may put on the channel. *)
Definition first_frames (env : FrameEnv) (r : ReceiveMessageResult) : list bytes :=
  if fv_cover env then [] else if fv_open env then [receipt_frame (answer r (fv_random env))] else [].
Definition last_frames (env : FrameEnv) (full : bool) (r : ReceiveMessageResult) : list bytes :=
  if full && negb (fv_coverAtEnd env) && fv_openAtEnd env then [receipt_frame (re_messageHash r)] else [].
Lemma respond_frames room peer label root env r full actions : respond room peer label root env r = (full, actions) ->
  fv_abortedReceived env = false ->
  frames_of actions = first_frames env r ++ last_frames env full r /\ Forall (fun f => blen f = WIRE_RECEIPT_FRAME_LEN) (frames_of actions) /\
  (full = true -> re_receivedFullSize r = true /\ exists before after, actions = before ++ CloseReceiveFile (toHex root) :: after /\
     frames_of before = first_frames env r).
Proof.
  unfold respond. intros H Ha. rewrite Ha in H.
  assert (exists receipt, (if fv_cover env then Ok [] else sendReceiveFrameReceipt r (fv_open env) (fv_random env)) = Ok receipt /\
    receipt = first_frames env r /\ Forall (fun f => blen f = WIRE_RECEIPT_FRAME_LEN) (first_frames env r)) as (receipt & Hs & -> & Hlen).
  { unfold first_frames. destruct (fv_cover env); [by eexists|]. destruct (answer_sent r (fv_open env) (fv_random env)) as [frames Hs].
    exists frames. split; [done|]. apply receipt_ok in Hs as [-> Hl]. split; [done|]. destruct (fv_open env); [|done].
    apply Forall_singleton. unfold receipt_frame. rewrite blen_cons, (Hl eq_refl). done. }
  rewrite Hs in H. destruct (re_receivedFullSize r) eqn:Hfull.
  - destruct (negb (fv_fileCloses env)).
    + injection H as <- <-. unfold last_frames. cbn [andb]. rewrite !frames_of_app, frames_of_sends.
      split_and!; [destruct (fv_cover env); cbn; by rewrite !app_nil_r|destruct (fv_cover env); cbn; by rewrite !app_nil_r|done].
    + destruct (if fv_coverAtEnd env then Ok [] else _) as [terminal|e] eqn:Ht.
      * injection H as <- <-. assert (terminal = last_frames env true r /\ Forall (fun f => blen f = WIRE_RECEIPT_FRAME_LEN) terminal) as [-> Hl2].
        { unfold last_frames. destruct (fv_coverAtEnd env); [by injection Ht as <-|]. apply send_ok in Ht as [-> Hl]. cbn.
          destruct (fv_openAtEnd env); [|done]. split; [done|]. apply Forall_singleton. unfold receipt_frame. rewrite blen_cons, (Hl eq_refl). done. }
        rewrite !frames_of_app, !frames_of_sends. replace (frames_of (if fv_cover env then _ else [])) with (@nil bytes) by by destruct (fv_cover env).
        cbn [app frames_of omap list_omap]. rewrite !app_nil_r. split_and!; [done|by apply Forall_app|].
        intros _. split; [done|]. rewrite <- !app_assoc. cbn [app]. rewrite app_assoc. eexists _, _. split; [reflexivity|].
        rewrite frames_of_app, frames_of_sends. destruct (fv_cover env); cbn; by rewrite app_nil_r.
      * injection H as <- <-. unfold last_frames. cbn [andb]. rewrite !frames_of_app, frames_of_sends.
        split_and!; [destruct (fv_cover env); cbn; by rewrite !app_nil_r|destruct (fv_cover env); cbn; by rewrite !app_nil_r|done].
  - injection H as <- <-. unfold last_frames. cbn [andb]. rewrite !frames_of_app, frames_of_sends.
    split_and!; [destruct (new_chunk r); cbn; by rewrite !app_nil_r|destruct (new_chunk r); cbn; by rewrite !app_nil_r|done].
Qed.

Section Answers.
Context {C : LibCrypto} {HS : Sha512} {HSC : Sha512Correct HS} {B : MlKemBackend}.

(** Whether a frame gets past the checks before the receive. *)
Definition let_in (env : FrameEnv) : bool :=
  negb (fv_aborted env) && fv_lease env && fv_gateOpens env && negb (fv_abortedAtGate env) && fv_leaseAtGate env.

(** C21. What a handled frame puts on the wire.  A frame that comes after its channel
    was aborted, without a current lease, or whose gate does not open is dropped:
    it does nothing.  Any other is received.  When the receive throws, or the
    channel is aborted by the time it returns, nothing is sent.  Otherwise, in a
    room with scheduled cover nothing is sent either; and without cover, when the
    channel is open, the frame is answered by exactly one frame of 65 bytes, a
    token when the chunk is on record and as many random bytes when it is not.
    The only other frame is the receipt of a complete message, sent after its file
    is closed when the channel is open then.  A token on the wire names a chunk
    that the database has. *)
Theorem every_frame_answered c room peer from label root frame entropy o se signals now env s full actions s' :
  processMessage (Some c) room peer from label root frame entropy o se signals now env s = (full, actions, s') ->
  if let_in env then
    exists res, handleReceiveMessage c room from label frame root entropy o se false signals now s = (res, s') /\
    match res with
    | Err _ => full = false /\ actions = []
    | Ok r =>
        if fv_abortedReceived env then full = false /\ actions = [] else
        frames_of actions = first_frames env r ++ last_frames env full r /\
        (fv_cover env = false -> fv_open env = true -> first_frames env r = [receipt_frame (answer r (fv_random env))]) /\
        (fv_cover env = true -> fv_coverAtEnd env = true -> frames_of actions = []) /\
        Forall (fun f => blen f = WIRE_RECEIPT_FRAME_LEN) (frames_of actions) /\
        (full = true -> re_receivedFullSize r = true /\ exists before after,
           actions = before ++ CloseReceiveFile (toHex root) :: after /\ frames_of before = first_frames env r) /\
        (receipt_is_real r = true -> has_chunk (re_chunkIndex r) (sv_chunks (rx_stores s' (toHex root))) = true)
    end
  else full = false /\ actions = [] /\ s' = s.
Proof.
  intros H. unfold processMessage in H. unfold let_in. destruct (fv_aborted env); [by injection H as <- <- <-|].
  destruct (fv_lease env); [|by injection H as <- <- <-]. destruct (fv_gateOpens env); [|by injection H as <- <- <-].
  destruct (fv_abortedAtGate env); [by injection H as <- <- <-|]. destruct (fv_leaseAtGate env); [|by injection H as <- <- <-].
  cbn [negb andb] in *. destruct (handleReceiveMessage _ _ _ _ _ _ _ _ _ _ _ _ s) as [res s1] eqn:Hh. exists res.
  destruct res as [r|e]; [|by injection H as <- <- <-].
  destruct (respond room peer label root env r) as [full1 actions1] eqn:Hr. injection H as <- <- <-. split; [done|].
  destruct (fv_abortedReceived env) eqn:Ha.
  { unfold respond in Hr. rewrite Ha in Hr. by injection Hr as <- <-. }
  destruct (respond_frames _ _ _ _ _ _ _ _ Hr Ha) as (Hf & Hl & Hfull). split_and!; [done| | |done|done|].
  - intros H1 H2. unfold first_frames. by rewrite H1, H2.
  - intros H1 H2. rewrite Hf. unfold first_frames, last_frames. rewrite H1, H2, andb_false_r. done.
  - intros Hreal. destruct (receipt_stored _ _ _ _ _ _ _ _ _ _ _ _ _ _ _ Hh Hreal) as (plain & key & _ & _ & _ & Hc & _). exact Hc.
Qed.
End Answers.

(** ** The replay *)

Lemma text_toHex l : text (toHex l) = uint8ArrayToHex l.
Proof.
  induction l as [|b l IH]; [done|]. change (uint8ArrayToHex (b :: l)) with
    ([hex_digit (Z.shiftr (u8 b) 4); hex_digit (Z.land (u8 b) 15)] ++ uint8ArrayToHex l).
  rewrite <- IH. unfold text. cbn [toHex String.list_byte_of_string app]. by destruct b.
Qed.
Lemma paced_all polls tokens : (forall n, polls n = true) -> Forall (fun t => blen t = RECEIPT_TOKEN_LEN) tokens ->
  forall n, exists m, sendReceiptFramesPaced polls n tokens = (receipt_frame <$> tokens, Ok true, m).
Proof.
  intros Hp H. induction H as [|t tokens Ht H IH]; intros n; cbn [sendReceiptFramesPaced]; rewrite Hp; [by eexists|].
  cbn [negb]. rewrite encodeReceipt_ok by done. destruct (IH (S n)) as [m ->]. by exists m.
Qed.

Section Burst.
Context {HS : Sha512} {HSC : Sha512Correct HS}.

Definition token_of (root : bytes) (chunkIndex : Z) (leaf : bytes) : bytes :=
  subtle_digest_sha512 (receipt_input root chunkIndex leaf).
(** A record of the store: a chunk under a counter, with the hash of its leaf. *)
Definition recorded_chunk (c : Chunk) (leaf : bytes) : Prop :=
  isSafeInteger (ck_chunkIndex c) = true /\ 0 <= ck_chunkIndex c /\ blen leaf = 64 /\ ck_leafHash c = toHex leaf.
Definition row_of (c : Chunk) : Z * string := (ck_chunkIndex c, ck_leafHash c).

Lemma token_made root chunkIndex leaf : blen root = 64 -> blen leaf = 64 -> isSafeInteger chunkIndex = true -> 0 <= chunkIndex ->
  createChunkReceiptToken root chunkIndex leaf = Ok (token_of root chunkIndex leaf).
Proof.
  intros Hr Hl Hs H0. unfold createChunkReceiptToken. rewrite Hr, Hl, Hs, (proj2 (Z.ltb_ge chunkIndex 0)) by lia. done.
Qed.
Lemma replay_chunks_all polls root chunks leaves : (forall n, polls n = true) -> blen root = 64 -> Forall2 recorded_chunk chunks leaves ->
  forall n batch, Forall (fun t => blen t = RECEIPT_TOKEN_LEN) batch -> (length batch < RECEIPT_REPLAY_BATCH_SIZE)%nat ->
  exists m, replay_chunks polls n root (row_of <$> chunks) batch =
    (receipt_frame <$> (batch ++ zip_with (fun c leaf => token_of root (ck_chunkIndex c) leaf) chunks leaves), Some m).
Proof.
  intros Hp Hroot H. induction H as [|c leaf chunks leaves (Hs & H0 & Hl & Hh) H IH]; intros n batch Hb Hlen; cbn [fmap list_fmap replay_chunks zip_with row_of].
  - rewrite app_nil_r. case_bool_decide as E; [by subst; exists n|]. destruct (paced_all _ _ Hp Hb n) as [m ->]. by exists m.
  - rewrite Hh, text_toHex. assert (blen (uint8ArrayToHex leaf) = 128) as H1 by (rewrite blen_hex; lia).
    rewrite (proj2 (Z.eqb_eq (blen (uint8ArrayToHex leaf)) (crypto_hash_sha512_BYTES * 2))) by exact H1. cbn [negb].
    rewrite hexToUint8Array_hex, token_made by (done || lia). set (token := token_of root (ck_chunkIndex c) leaf).
    assert (Forall (fun t => blen t = RECEIPT_TOKEN_LEN) (batch ++ [token])) as Hb'.
    { apply Forall_app. split; [done|]. rewrite Forall_singleton. apply sha512_length. }
    destruct (Nat.eqb_spec (length (batch ++ [token])) RECEIPT_REPLAY_BATCH_SIZE) as [E|E].
    + destruct (paced_all _ _ Hp Hb' n) as [m ->]. destruct (IH m [] ltac:(done) ltac:(unfold RECEIPT_REPLAY_BATCH_SIZE; cbn; lia)) as [m' ->].
      exists m'. by rewrite <- fmap_app, <- app_assoc.
    + destruct (IH n (batch ++ [token]) Hb') as [m ->]; [|by exists m; rewrite <- app_assoc].
      rewrite length_app in E |- *. cbn in E |- *. lia.
Qed.

Lemma zip_with_fmap_frame (f : Chunk -> bytes -> bytes) chunks leaves :
  receipt_frame <$> zip_with f chunks leaves = zip_with (fun c leaf => receipt_frame (f c leaf)) chunks leaves.
Proof. revert leaves. induction chunks as [|c chunks IH]; intros [|leaf leaves]; cbn; [done..|]. by f_equal. Qed.

(** The replay does not know about cover.  When a lane is opened by the peer for a
    root of which the database has chunks - as a scheduled transfer that is offered
    again does with a fresh lane of the same label - one 65-byte receipt frame per
    stored chunk goes out on it at once, and one more for a complete message,
    whether or not the lane is a cover lane of a scheduled room, where frames of
    that shape never appear otherwise. *)
Theorem replay_ignores_cover lane cover polls store leaves : la_object lane = true -> blen (la_root lane) = 64 ->
  la_rootHex lane = uint8ArrayToHex (la_root lane) -> (forall n, polls n = true) ->
  sv_chunks store <> [] -> Forall2 recorded_chunk (sv_chunks store) leaves ->
  (forall md, sv_message store = Some md -> exists hash, blen hash = 64 /\ mg_hash md = toHex hash) ->
  let lane := {| la_queue := la_queue lane; la_main := la_main lane; la_cover := cover; la_object := la_object lane;
                 la_root := la_root lane; la_rootHex := la_rootHex lane |} in
  let burst := zip_with (fun c leaf => receipt_frame (token_of (la_root lane) (ck_chunkIndex c) leaf)) (sv_chunks store) leaves in
  length burst = length (sv_chunks store) /\
  exists last, replayReceipts lane true polls store = burst ++ last /\
    blen last = match sv_message store with
                | Some md => if (0 <? mg_totalSize md) && (mg_savedSize md =? mg_totalSize md) then 1 else 0
                | None => 0 end.
Proof.
  intros Ho Hroot Hhex Hp Hne H Hmd. cbv zeta. cbn [la_root la_rootHex la_object]. split.
  { rewrite length_zip_with. apply Forall2_length in H. lia. }
  unfold replayReceipts. cbn [la_root la_rootHex la_object]. rewrite Ho. assert (blen (la_rootHex lane) = 128) as Hl by (rewrite Hhex, blen_hex; lia).
  rewrite bool_decide_eq_false_2 by (intros E; rewrite E in Hl; discriminate Hl). cbn [orb negb].
  assert (getDBAllChunkLeafHashes (la_rootHex lane) store = row_of <$> sv_chunks store) as ->.
  { unfold getDBAllChunkLeafHashes. by rewrite (proj2 (Z.eqb_eq _ (2 * crypto_hash_sha512_BYTES))) by exact Hl. }
  rewrite bool_decide_eq_false_2 by (intros E; apply Hne; by eapply fmap_nil_inv).
  destruct (replay_chunks_all _ _ _ _ Hp Hroot H 0 [] ltac:(done) ltac:(unfold RECEIPT_REPLAY_BATCH_SIZE; cbn; lia)) as [m ->].
  cbn [app]. rewrite zip_with_fmap_frame. destruct (sv_message store) as [md|]; [|by exists []; rewrite app_nil_r].
  destruct (Hmd md eq_refl) as (hash & Hh & Hhash). rewrite Hhash, text_toHex.
  rewrite (proj2 (Z.eqb_eq (blen (uint8ArrayToHex hash)) (crypto_hash_sha512_BYTES * 2))) by (rewrite blen_hex, Hh; done).
  rewrite andb_true_r. destruct (_ && _); [|by exists []; rewrite app_nil_r].
  rewrite hexToUint8Array_hex by lia. unfold sendReceiptFrame. rewrite Hp, encodeReceipt_ok by done. cbn [mbind result_bind]. by eexists.
Qed.
End Burst.
