(* ===== verification/Staging.v ===== *)
(** * Staging an outbound message ([src/src/utils/splitToChunks.ts])

    A message is cut into cells of one size, each holding some bytes of it at a
    random place among random bytes, with decoys behind them; the cells wait in
    the store [newChunks], and the sender keeps a copy of the message.  The
    random numbers of [cryptography/utils.ts] are modelled on the bytes drawn.
    The fraction of a cell that is filled is a double, and its arithmetic is that
    of [SpecFloat]; the other numbers are integers. *)

From Stdlib Require Import String Floats.SpecFloat.
From stdpp Require Import gmap.
From S2P Require Import Prelude Bytes Constants Crypto Merkle ChannelLabel Metadata MessageTypes ReceiveStore ReceiveLayout ReceiveFile.
Local Open Scope Z_scope.
Local Open Scope list_scope.

Inductive SplitError :=
  | no_chunks | bad_fraction | bad_chunk_size | no_data | too_large | bad_geometry | no_space | cancelled
  | bad_schema_version | draw_range | draws_end | cell_range | put_failed | add_failed | row_failed
  | missing_staged | split_metadata (e : MetadataError) | split_merkle (e : MerkleError).

(** ** Doubles *)

Definition double_of (z : Z) : spec_float := binary_normalize 53 1024 z 0 false.
Definition double_mul (a b : spec_float) : spec_float := SFmul 53 1024 a b.
Definition double_sub (a b : spec_float) : spec_float := SFsub 53 1024 a b.
(** The value of a finite double, as a number of units of [2 ^ e]. *)
Definition double_value (x : spec_float) : option (Z * Z) :=
  match x with
  | S754_zero _ => Some (0, 0)
  | S754_finite s m e => Some (if s then Z.neg m else Z.pos m, e)
  | _ => None
  end.
Definition Math_floor (x : spec_float) : option Z :=
  match double_value x with
  | Some (m, e) => Some (if 0 <=? e then m * 2 ^ e else m / 2 ^ (- e))
  | None => None
  end.
Definition Math_ceil (x : spec_float) : option Z :=
  match double_value x with
  | Some (m, e) => Some (if 0 <=? e then m * 2 ^ e else - ((- m) / 2 ^ (- e)))
  | None => None
  end.
(** [0.9], [0.0001] and [0.99]. *)
Definition d_0_9 : spec_float := S754_finite false 8106479329266893 (-53).
Definition d_0_0001 : spec_float := S754_finite false 7378697629483821 (-66).
Definition d_0_99 : spec_float := S754_finite false 8917127262193582 (-53).

(** ** The plan *)

Definition maxBytesToCopy (chunkSize : Z) (percentageFilledChunk : spec_float) : option Z :=
  Math_ceil (double_mul (double_of chunkSize) percentageFilledChunk).
Definition maxChunkStartIndex (chunkSize : Z) (percentageFilledChunk : spec_float) : option Z :=
  Math_floor (double_mul (double_of chunkSize) (double_sub (double_of 1) percentageFilledChunk)).

(** [None]: the number of chunks is [NaN] or infinite.  The quotient of two integers below
    2^53 does not round to an integer above it, so [ceil_div] is [Math.ceil] of it. *)
Definition planMessageChunkCount (totalSize minChunks chunkSize : Z) (percentageFilledChunk : spec_float)
    : result SplitError (option Z) :=
  require (1 <=? minChunks) no_chunks;;
  require (negb (SFltb percentageFilledChunk d_0_0001 || SFltb d_0_99 percentageFilledChunk)) bad_fraction;;
  require (negb ((CHUNK_LEN <? chunkSize) || (chunkSize <=? CHUNK_SIZE_FLOOR))) bad_chunk_size;;
  require (isSafeInteger totalSize && (1 <=? totalSize)) no_data;;
  require (totalSize <=? MAX_MESSAGE_SIZE) too_large;;
  Ok (match maxBytesToCopy chunkSize percentageFilledChunk with
      | Some maxRealBytesPerChunk =>
          if 0 <? maxRealBytesPerChunk then Some (Z.max minChunks (ceil_div totalSize maxRealBytesPerChunk)) else None
      | None => None
      end).

Definition OUTBOUND_CHUNK_RECORD_OVERHEAD : Z := 2048.
(** [None]: infinity. *)
Definition estimateOutboundStagingBytes (totalSize : Z) (totalChunks : option Z) (chunkSize : Z)
    : result SplitError (option Z) :=
  match totalChunks with
  | None => Err bad_geometry
  | Some totalChunks =>
      require (isSafeInteger totalSize && (0 <=? totalSize) && isSafeInteger totalChunks && (1 <=? totalChunks)
               && isSafeInteger chunkSize && (1 <=? chunkSize)) bad_geometry;;
      let estimate := totalSize + totalChunks * (chunkSize + METADATA_LEN + PROOF_LEN + OUTBOUND_CHUNK_RECORD_OVERHEAD) in
      Ok (if isSafeInteger estimate then Some estimate else None)
  end.

(** ** Random numbers ([cryptography/utils.ts]) *)

Definition bytesNeeded (range : Z) : Z := ceil_div (Z.log2 range + 1) 8.
Definition draw_limit (range : Z) : Z := 256 ^ bytesNeeded range / range * range.
(** The first draw below the limit; [draws] are the fillings of [randomBytes]. *)
Fixpoint first_below (limit : Z) (draws : list bytes) : option Z :=
  match draws with
  | [] => None
  | randomBytes :: draws =>
      let value := be_decode randomBytes in
      if limit <=? value then first_below limit draws else Some value
  end.
Definition randomNumberInRange (min max : Z) (draws : list bytes) : result SplitError Z :=
  if min =? max then Ok min else
  require (negb (max <? min)) draw_range;;
  let range := max - min in
  match first_below (draw_limit range) draws with
  | Some value => Ok (min + value mod range)
  | None => Err draws_end
  end.

(** [uniformInt] on the 32-bit words drawn, and the shuffle; [None] when they run out. *)
Fixpoint word_below (limit : Z) (words : list Z) : option (Z * list Z) :=
  match words with
  | [] => None
  | x :: words => if limit <=? x then word_below limit words else Some (x, words)
  end.
Definition uniformInt (min max : Z) (words : list Z) : option (Z * list Z) :=
  if negb (min <? max) then Some (min, words) else
  let range := max - min in
  match word_below (2 ^ 32 / range * range) words with
  | Some (x, words) => Some (min + x mod range, words)
  | None => None
  end.
Definition swap {A} (i j : nat) (a : list A) : list A :=
  match a !! i, a !! j with Some x, Some y => <[j := x]> (<[i := y]> a) | _, _ => a end.
(** The turns [i], [i - 1], ..., 1 of the loop. *)
Fixpoint shuffle_turns {A} (i : nat) (a : list A) (words : list Z) : option (list A) :=
  match i with
  | O => Some a
  | S i' =>
      match uniformInt 0 (Z.of_nat i + 1) words with
      | Some (j, words) => shuffle_turns i' (swap i (Z.to_nat j) a) words
      | None => None
      end
  end.
Definition fisherYatesShuffle {A} (arr : list A) (words : list Z) : option (list A) :=
  shuffle_turns (List.length arr - 1) arr words.

(** ** The stores *)

(** A record of [newChunks]; the hexadecimal strings as their bytes. *)
Record NewChunk := MkNewChunk {
  nc_hash : bytes; nc_merkleRoot : bytes; nc_leafHash : bytes; nc_receiptToken : bytes; nc_chunkIndex : Z;
  nc_data : bytes; nc_metadata : bytes; nc_merkleProof : bytes }.
(** What a [setMessage] or [deleteMessage] tells the room slice. *)
Inductive MessageAction :=
  | SetMessage (merkleRootHex sha512Hex : bytes) (totalSize chunksCreated totalChunks : Z) | DeleteMessage.
(** [sd_copy]: the records of the sender's own copy, by Merkle root and index;
    [sd_rows]: the roots with a message row, and the size it says is saved. *)
Record Sender := MkSender {
  sd_newChunks : gmap (list Z * Z) NewChunk; sd_copy : list (bytes * Z * bytes); sd_rows : list (bytes * Z);
  sd_hash : option bytes; sd_actions : list MessageAction }.
Definition set_newChunks f (s : Sender) : Sender := MkSender (f (sd_newChunks s)) (sd_copy s) (sd_rows s) (sd_hash s) (sd_actions s).
Definition set_copy f (s : Sender) : Sender := MkSender (sd_newChunks s) (f (sd_copy s)) (sd_rows s) (sd_hash s) (sd_actions s).
Definition set_rows f (s : Sender) : Sender := MkSender (sd_newChunks s) (sd_copy s) (f (sd_rows s)) (sd_hash s) (sd_actions s).
Definition set_hash h (s : Sender) : Sender := MkSender (sd_newChunks s) (sd_copy s) (sd_rows s) (Some h) (sd_actions s).
Definition dispatch a (s : Sender) : Sender := MkSender (sd_newChunks s) (sd_copy s) (sd_rows s) (sd_hash s) (sd_actions s ++ [a]).
Abbreviation sp A := (M Sender SplitError A).

Definition fnSetDBNewChunk (transferId : list Z) (chunk : NewChunk) (ok : bool) : sp unit :=
  mrequire ok put_failed;; modify_this (set_newChunks (fun m => <[(transferId, nc_chunkIndex chunk) := chunk]> m)).
(** [add] throws when the key is taken. *)
Definition fnSetDBChunk (merkleRoot : bytes) (index : Z) (data : bytes) (ok : bool) : sp unit :=
  s ← get_this;
  mrequire (ok && negb (bool_decide ((merkleRoot, index) ∈ (sd_copy s).*1))) add_failed;;
  modify_this (set_copy (fun l => l ++ [(merkleRoot, index, data)])).
(** [deleteDBNewChunk] of a whole transfer. *)
Definition fnDeleteDBNewChunk (transferId : list Z) : sp unit :=
  modify_this (set_newChunks (fun m => filter (fun e => e.1.1 <> transferId) m)).
(** What [deleteReceiveTransfer] does to the copy ([ReceiveStore] has all of it). *)
Definition deleteReceiveTransfer (merkleRoot : bytes) : sp unit :=
  modify_this (set_rows (fun l => filter (fun e => e.1 <> merkleRoot) l)
    ∘ set_copy (fun l => filter (fun e => e.1.1 <> merkleRoot) l)).
(** The row says that [chunkSize] more bytes are saved. *)
Definition setDBRoomMessageData (merkleRoot : bytes) (chunkSize totalSize : Z) (ok : bool) : sp unit :=
  s ← get_this;
  let savedSize := default 0 (snd <$> List.find (fun e => bool_decide (e.1 = merkleRoot)) (sd_rows s)) in
  mrequire ok row_failed;;
  modify_this (set_rows (fun l => filter (fun e => e.1 <> merkleRoot) l
    ++ [(merkleRoot, if savedSize + chunkSize <=? totalSize then savedSize + chunkSize else totalSize)])).

(** ** splitToChunks *)

Inductive Message := MText (s : list Z) | MFile (name : list Z) (content : bytes).
Definition message_bytes (message : Message) : bytes :=
  match message with MText s => utf8_encode s | MFile _ content => content end.
Definition message_type (message : Message) : LookedUp :=
  getMessageType (match message with MText s => inl s | MFile name _ => inr name end).
(** [setUint8] of a type that is not a number writes 0. *)
Definition type_byte (t : LookedUp) : Z := match t with number n => n | inherited => 0 end.

(** Where the signal of the transfer is polled. *)
Inductive Poll := poll_hash | poll_hashed | poll_chunk (i : Z) | poll_blob (i : Z) | poll_staged | poll_copy (i : Z) | poll_copied.
(** What the browser answers: the signal, the space, the clock, the random bytes
    of cell [i] with the draws of its start and of a decoy's end, a random name,
    and whether the writes succeed. *)
Record SplitEnv := MkSplitEnv {
  se_aborted : Poll -> bool; se_quota : option Z; se_usage : option Z; se_now : Z; se_randomName : list Z;
  se_noise : Z -> bytes; se_start : Z -> list bytes; se_decoy : Z -> list bytes;
  se_put : Z -> bool; se_add : Z -> bool; se_row : bool }.
Record SplitResult := MkSplitResult {
  spr_merkleRoot : bytes; spr_merkleRootHex : bytes; spr_hash : bytes; spr_hashHex : bytes;
  spr_totalChunks : Z; spr_totalSize : Z; spr_messageType : LookedUp; spr_chunkHashes : bytes }.

Section Split.
Context {HS : Sha512}.
Context (message : Message) (transferId : list Z) (env : SplitEnv).
Context (chunkSize metadataSchemaVersion totalSize totalChunks : Z) (sha512 : bytes) (name : list Z).

Definition metadata_of (start end_ index : Z) : Metadata := {|
  md_schemaVersion := metadataSchemaVersion; md_messageType := type_byte (message_type message); md_hash := sha512;
  md_totalSize := totalSize; md_date := new_Date (se_now env); md_name := name;
  md_chunkStartIndex := start; md_chunkEndIndex := end_; md_chunkIndex := index |}.

(** The cell [i] of a message whose first [offset] bytes are staged: its bytes,
    start and end, and the new [offset]; [None] when it is abandoned. *)
Definition fill_cell (maxStart maxCopy i offset : Z) : result SplitError (option (bytes * Z * Z * Z)) :=
  let chunk := se_noise env i in
  chunkStartIndex ← randomNumberInRange 0 maxStart (se_start env i);
  let remainingBytes := totalSize - offset in
  let bytesToCopy := Z.min (Z.max remainingBytes 0) maxCopy in
  let chunkEndIndex := chunkStartIndex + bytesToCopy in
  if 0 <? remainingBytes then
    let blob := slice (message_bytes message) offset (offset + bytesToCopy) in
    if match message with MFile _ _ => se_aborted env (poll_blob i) | MText _ => false end then Ok None else
    require (chunkStartIndex + blen blob <=? blen chunk) cell_range;;
    Ok (Some (bset chunk chunkStartIndex blob, chunkStartIndex, chunkEndIndex, offset + bytesToCopy))
  else
    let start := chunkEndIndex + totalSize + 1 in
    let end_ := MAX_SAFE_INTEGER - start in
    r ← randomNumberInRange start end_ (se_decoy env i);
    Ok (Some (chunk, chunkStartIndex, chunkEndIndex + r, offset)).

(** The staging loop from cell [i]; [hashes] are the leaves so far.  An abort ends it. *)
Fixpoint stage_loop (maxStart maxCopy : Z) (todo : nat) (i offset : Z) (hashes : list bytes) : sp (list bytes) :=
  match todo with
  | O => mret hashes
  | S todo =>
      if se_aborted env (poll_chunk i) then mret hashes else
      cell ← lift (fill_cell maxStart maxCopy i offset);
      match cell with
      | None => mret hashes
      | Some (chunk, chunkStartIndex, chunkEndIndex, offset) =>
          let hash := hashMerkleLeaf chunk in
          mSerialized ← lift (map_err split_metadata (serializeMetadata (metadata_of chunkStartIndex chunkEndIndex i)));
          fnSetDBNewChunk transferId
            (MkNewChunk (uint8ArrayToHex sha512) [] (uint8ArrayToHex hash) [] i chunk mSerialized []) (se_put env i);;
          modify_this (dispatch (SetMessage [] (uint8ArrayToHex sha512) totalSize (i + 1) totalChunks));;
          stage_loop maxStart maxCopy todo (i + 1) offset (hashes ++ [hash])
      end
  end.

(** The loop that stores the sender's own copy. *)
Fixpoint copy_loop (merkleRootHex : bytes) (todo : nat) (i : Z) : sp unit :=
  match todo with
  | O => mret tt
  | S todo =>
      if se_aborted env (poll_copy i) then mret tt else
      s ← get_this;
      match sd_newChunks s !! (transferId, i) with
      | None => mthrow missing_staged
      | Some staged =>
          metadata ← lift (map_err split_metadata (deserializeMetadata (nc_metadata staged)));
          let realLen := md_chunkEndIndex metadata - md_chunkStartIndex metadata in
          (if (realLen <=? 0) || (md_totalSize metadata <? realLen) then mret tt
           else fnSetDBChunk merkleRootHex (md_chunkIndex metadata)
                  (slice (nc_data staged) (md_chunkStartIndex metadata) (md_chunkEndIndex metadata)) (se_add env i));;
          copy_loop merkleRootHex todo (i + 1)
      end
  end.
End Split.

Definition nothing_sent : SplitResult := MkSplitResult [] [] [] [] 0 0 (number 0) [].
(** [try { m } catch (error) { await deleteReceiveTransfer(root); throw error; }] *)
Definition or_discard {A} (merkleRootHex : bytes) (m : sp A) : sp A := fun s =>
  match m s with
  | (Err e, s) => (Err e, snd (deleteReceiveTransfer merkleRootHex s))
  | r => r
  end.

Definition splitToChunks {HS : Sha512} (message : Message) (transferId : list Z) (env : SplitEnv)
    (minChunks chunkSize : Z) (percentageFilledChunk : spec_float) (metadataSchemaVersion : Z) : sp SplitResult :=
  mrequire (metadataSchemaVersion =? 1) bad_schema_version;;
  let messageType := message_type message in
  let name := match message with MText _ => se_randomName env | MFile name _ => slice name 0 (Z.min 255 (blen name)) end in
  let totalSize := blen (message_bytes message) in
  planned ← lift (planMessageChunkCount totalSize minChunks chunkSize percentageFilledChunk);
  let quota := default (10 * 1024 * 1024 * 1024) (se_quota env) in
  let usage := default (64 * 1024) (se_usage env) in
  let availableSpace := Z.max 0 (quota - usage) in
  stagingBytes ← lift (estimateOutboundStagingBytes totalSize planned chunkSize);
  mrequire (match stagingBytes with Some stagingBytes => stagingBytes <=? availableSpace | None => false end) no_space;;
  mrequire (negb (se_aborted env poll_hash)) cancelled;;
  let sha512 := subtle_digest_sha512 (message_bytes message) in
  mrequire (negb (se_aborted env poll_hashed)) cancelled;;
  modify_this (set_hash (uint8ArrayToHex sha512));;
  let totalChunks := default 0 planned in
  let maxStart := default 0 (maxChunkStartIndex chunkSize percentageFilledChunk) in
  let maxCopy := default 0 (maxBytesToCopy chunkSize percentageFilledChunk) in
  chunkHashes ← stage_loop message transferId env metadataSchemaVersion totalSize totalChunks sha512 name
                  maxStart maxCopy (Z.to_nat totalChunks) 0 0 [];
  if se_aborted env poll_staged then
    fnDeleteDBNewChunk transferId;;
    modify_this (dispatch DeleteMessage);;
    mret nothing_sent
  else
    let treeHashes := region (totalChunks * crypto_hash_sha512_BYTES) (concat chunkHashes) in
    merkleRoot ← lift (map_err split_merkle (getMerkleRoot treeHashes));
    let merkleRootHex := uint8ArrayToHex merkleRoot in
    or_discard merkleRootHex (copy_loop transferId env merkleRootHex (Z.to_nat totalChunks) 0);;
    if se_aborted env poll_copied then
      fnDeleteDBNewChunk transferId;;
      deleteReceiveTransfer merkleRootHex;;
      modify_this (dispatch DeleteMessage);;
      mret nothing_sent
    else
      or_discard merkleRootHex (setDBRoomMessageData merkleRootHex totalSize totalSize
        (se_row env && match messageType with number _ => true | inherited => false end));;
      modify_this (dispatch (SetMessage merkleRootHex (uint8ArrayToHex sha512) totalSize totalChunks totalChunks));;
      mret (MkSplitResult merkleRoot merkleRootHex sha512 (uint8ArrayToHex sha512) totalChunks totalSize messageType treeHashes).

(** ** Lemmas *)

Lemma draw_in_range min max draws r : randomNumberInRange min max draws = Ok r -> min <= r <= max /\ (min < max -> r < max).
Proof.
  unfold randomNumberInRange. destruct (Z.eqb_spec min max) as [->|Hne]; [intros [= ->]; lia|]. intros H. binds H.
  apply require_ok in E as Hlt. apply negb_true_iff, Z.ltb_ge in Hlt.
  destruct (first_below _ _) as [value|]; [|discriminate H]. injection H as <-. pose proof (Z.mod_pos_bound value (max - min)). lia.
Qed.
Lemma insert_moves {A} (l : list A) j x y : l !! j = Some y -> y :: <[j := x]> l ≡ₚ x :: l.
Proof.
  intros Hj. pose proof (lookup_lt_Some _ _ _ Hj) as Hl. rewrite insert_take_drop by done. rewrite <- (take_drop_middle l j y Hj) at 3.
  rewrite <- !Permutation_middle. apply Permutation_swap.
Qed.
Lemma swap_perm {A} i j (a : list A) : swap i j a ≡ₚ a.
Proof.
  unfold swap. destruct (a !! i) as [x|] eqn:Hi, (a !! j) as [y|] eqn:Hj; try done. apply (Permutation_cons_inv (a := y)).
  rewrite (insert_moves _ j x y), (insert_moves a i y x Hi); [done|].
  destruct (decide (i = j)) as [->|Hne]; [by apply list_lookup_insert_eq, lookup_lt_Some with x|by rewrite list_lookup_insert_ne].
Qed.
Lemma shuffle_perm {A} (arr b : list A) words : fisherYatesShuffle arr words = Some b -> b ≡ₚ arr.
Proof.
  unfold fisherYatesShuffle. generalize (List.length arr - 1)%nat. intros i. revert arr words.
  induction i as [|i IH]; intros arr words; cbn [shuffle_turns]; [by intros [= <-]|].
  destruct (uniformInt _ _ _) as [[j words']|]; [|done]. intros H. etrans; [by eapply IH|apply swap_perm].
Qed.
Lemma below_count total u i : 0 < u -> i * u < total <-> i < count total u.
Proof.
  intros Hu. unfold count, ceil_div. pose proof (Z.div_mod (total + u - 1) u ltac:(lia)). pose proof (Z.mod_pos_bound (total + u - 1) u Hu).
  split; intros; nia.
Qed.

Lemma put_ok transferId c ok s x s' : fnSetDBNewChunk transferId c ok s = (Ok x, s') ->
  s' = set_newChunks (fun m => <[(transferId, nc_chunkIndex c) := c]> m) s.
Proof. unfold fnSetDBNewChunk. destruct ok; [by intros [= _ <-]|discriminate]. Qed.

Section Cells.
Context {HS : Sha512} {HSC : Sha512Correct HS}.
Context (message : Message) (transferId : list Z) (env : SplitEnv) (version totalChunks : Z) (sha512 : bytes) (name : list Z).
Context (chunkSize maxStart u date : Z).
Let F : bytes := message_bytes message.
Context (Hnoise : forall i, blen (se_noise env i) = chunkSize) (Hcs : chunkSize <= CHUNK_LEN) (Hu : 0 < u).
Context (Hsize : blen F <= MAX_MESSAGE_SIZE) (Hdate : new_Date (se_now env) = Some date) (Hsha : blen sha512 = 64).
Abbreviation stage := (stage_loop message transferId env version (blen F) totalChunks sha512 name maxStart u).
Abbreviation fill := (fill_cell message env (blen F) maxStart u).

(** What the start and end of cell [i] mean. *)
Definition cell_holds (i : Z) (cell : bytes) (start end_ : Z) : Prop :=
  0 <= start /\ start <= end_ <= MAX_SAFE_INTEGER /\
  if i * u <? blen F then end_ - start = len_at (blen F) u i /\ end_ <= chunkSize /\ slice cell start end_ = piece F u i
  else blen F < end_ - start.

Lemma fill_ok i offset chunk start end_ offset' : 0 <= i -> offset = Z.min (i * u) (blen F) ->
  fill i offset = Ok (Some (chunk, start, end_, offset')) ->
  blen chunk = chunkSize /\ cell_holds i chunk start end_ /\ offset' = Z.min ((i + 1) * u) (blen F).
Proof.
  intros Hi Ho H. unfold fill_cell in H. binds H. apply draw_in_range in E as [Hx _]. fold F in H. pose proof (blen_nonneg F).
  assert (0 <= i * u) by nia. change CHUNK_LEN with 61912 in *.
  unfold cell_holds. destruct (Z.ltb_spec 0 (blen F - offset)) as [Hr|Hr].
  - destruct (match message with MFile _ _ => _ | MText _ => _ end); [discriminate H|]. binds H.
    apply require_ok in E as Hfit. injection H as <- <- <- <-. apply Z.leb_le in Hfit.
    rewrite Z.max_l in * by lia. assert (offset = i * u) as -> by lia. rewrite blen_slice in Hfit by lia. rewrite Hnoise in Hfit.
    assert (Z.min (blen F - i * u) u = len_at (blen F) u i) as Hlen by (unfold len_at; lia). rewrite Hlen in *.
    unfold MAX_MESSAGE_SIZE, MAX_SAFE_INTEGER, len_at in *.
    split_and!; [rewrite blen_bset; [apply Hnoise|lia|rewrite blen_slice, Hnoise; lia]|lia..| |lia].
    destruct (Z.ltb_spec (i * u) (blen F)); [|lia]. split_and!; [lia|lia|].
    unfold piece, len_at. apply slice_bset_same; [lia|rewrite blen_slice, Hnoise; lia|rewrite blen_slice; lia].
  - binds H. apply draw_in_range in E as [Hd _]. injection H as <- <- <- <-.
    rewrite Z.max_r in * by lia. rewrite Z.min_l in * by lia. rewrite Z.add_0_r in *.
    unfold MAX_MESSAGE_SIZE, MAX_SAFE_INTEGER in *. split_and!; [apply Hnoise|lia..| |lia]. destruct (Z.ltb_spec (i * u) (blen F)); lia.
Qed.

(** A record of [newChunks] that stages cell [i]. *)
Definition stages (i : Z) (cell : bytes) (c : NewChunk) : Prop :=
  nc_chunkIndex c = i /\ nc_data c = cell /\ blen cell = chunkSize /\ nc_leafHash c = uint8ArrayToHex (hashMerkleLeaf cell) /\
  nc_merkleRoot c = [] /\ nc_receiptToken c = [] /\ nc_merkleProof c = [] /\ blen (nc_metadata c) = METADATA_LEN /\
  exists m, deserializeMetadata (nc_metadata c) = Ok m /\ md_chunkIndex m = i /\ md_totalSize m = blen F /\
    cell_holds i cell (md_chunkStartIndex m) (md_chunkEndIndex m).
Definition staged (cells : list bytes) (s : Sender) : Prop := forall i cell, cells !! i = Some cell ->
  exists c, sd_newChunks s !! (transferId, Z.of_nat i) = Some c /\ stages (Z.of_nat i) cell c.

Lemma stage_one (i : nat) cells chunk start end_ b s : staged cells s -> length cells = i -> Z.of_nat i <= MAX_SAFE_INTEGER ->
  blen chunk = chunkSize -> cell_holds (Z.of_nat i) chunk start end_ ->
  serializeMetadata (metadata_of message env version (blen F) sha512 name start end_ (Z.of_nat i)) = Ok b ->
  staged (cells ++ [chunk]) (set_newChunks (fun m => <[(transferId, Z.of_nat i) :=
    MkNewChunk (uint8ArrayToHex sha512) [] (uint8ArrayToHex (hashMerkleLeaf chunk)) [] (Z.of_nat i) chunk b []]> m) s).
Proof.
  intros Hst Hl Hi Hb Hh Hs j cell [Hj|[Hj Hc]]%lookup_app_Some; cbn.
  - apply lookup_lt_Some in Hj as Hlt. rewrite lookup_insert_ne by (intros [= E]; lia). by apply Hst.
  - apply list_lookup_singleton_Some in Hc as [Hz <-]. assert (j = i) as -> by lia. rewrite lookup_insert_eq. eexists. split; [reflexivity|].
    destruct Hh as (H0 & H1 & H2). pose proof (blen_nonneg F). unfold MAX_MESSAGE_SIZE, MAX_SAFE_INTEGER in *.
    destruct (numbers_survive (metadata_of message env version (blen F) sha512 name start end_ (Z.of_nat i)) date) as (b' & m & Hb' & Hl' & Hd & N1 & N2 & N3 & N4);
      [exact Hdate|exact Hsha|cbn; unfold MAX_SAFE_INTEGER; lia..|]. rewrite Hs in Hb'. injection Hb' as <-. cbn in N1, N2, N3, N4.
    split_and!; try done. exists m. rewrite N1, N2, N3, N4. by split_and!.
Qed.

Definition cancelled_staging : Prop := exists i, se_aborted env (poll_chunk i) = true \/ se_aborted env (poll_blob i) = true.
(** Staging changes neither the copy nor the rows, and other transfers not at all. *)
Definition same_elsewhere (s s' : Sender) : Prop := sd_copy s' = sd_copy s /\ sd_rows s' = sd_rows s /\
  forall k, k.1 <> transferId -> sd_newChunks s' !! k = sd_newChunks s !! k.
Lemma fill_abandoned i offset : fill i offset = Ok None -> cancelled_staging.
Proof.
  intros H. unfold fill_cell in H. binds H. destruct (0 <? _); [|binds H; discriminate H].
  destruct (match message with MFile _ _ => _ | MText _ => _ end) eqn:Hb; [|binds H; discriminate H].
  exists i. right. by destruct message.
Qed.

Lemma stage_loop_ok todo : forall i cells s hashes s', staged cells s -> length cells = i -> Z.of_nat (i + todo) <= MAX_SAFE_INTEGER ->
  stage todo (Z.of_nat i) (Z.min (Z.of_nat i * u) (blen F)) (hashMerkleLeaf <$> cells) s = (Ok hashes, s') ->
  same_elsewhere s s' /\ (cancelled_staging \/
  exists cells', hashes = hashMerkleLeaf <$> cells' /\ length cells' = (i + todo)%nat /\ staged cells' s').
Proof.
  induction todo as [|todo IH]; intros i cells s hashes s' Hst Hl Hi H; cbn [stage_loop] in H.
  - injection H as <- <-. split; [done|]. right. exists cells. by rewrite Nat.add_0_r.
  - destruct (se_aborted env (poll_chunk _)) eqn:Ha; [injection H as <- <-; split; [done|]; left; exists (Z.of_nat i); by left|].
    mbinds H. destruct x as [[[[chunk start] end_] offset]|]; [|injection H as <- <-; split; [done|]; left; by eapply fill_abandoned].
    destruct (fill_ok _ _ _ _ _ _ (Zle_0_nat i) eq_refl E) as (Hb & Hh & ->). mbinds H. apply map_err_ok in E0.
    apply put_ok in E1 as ->. cbn [nc_chunkIndex] in *.
    pose proof (stage_one i cells chunk start end_ _ s Hst Hl ltac:(lia) Hb Hh E0) as Hst'.
    replace (Z.of_nat i + 1) with (Z.of_nat (S i)) in H by lia. change [hashMerkleLeaf chunk] with (hashMerkleLeaf <$> [chunk]) in H. rewrite <- fmap_app in H.
    apply IH in H as [(Hc & Hr & Hk) H]; [|exact Hst'|rewrite length_app; cbn; lia|lia]. split; [|by rewrite <- plus_n_Sm in *].
    split_and!; [exact Hc|exact Hr|]. intros k Hk'. rewrite Hk by done. cbn. apply lookup_insert_ne. intros <-. by apply Hk'.
Qed.

Lemma from_the_start : Z.min (Z.of_nat 0 * u) (blen F) = 0.
Proof. pose proof (blen_nonneg F). lia. Qed.
Lemma stage_all_ok n s hashes s' : 0 <= n <= MAX_SAFE_INTEGER -> stage (Z.to_nat n) 0 0 [] s = (Ok hashes, s') ->
  same_elsewhere s s' /\ (cancelled_staging \/
  exists cells, hashes = hashMerkleLeaf <$> cells /\ length cells = Z.to_nat n /\ staged cells s').
Proof.
  intros Hn H. apply (stage_loop_ok (Z.to_nat n) 0 [] s hashes s'); [intros i c Hi; discriminate Hi|done|lia|].
  by rewrite from_the_start.
Qed.

Lemma copy_add root i data ok s x s' : fnSetDBChunk root i data ok s = (Ok x, s') -> s' = set_copy (fun l => l ++ [(root, i, data)]) s.
Proof. unfold fnSetDBChunk. intros H. mbinds H. apply mrequire_ok in E as [_ ->]. done. Qed.
Lemma copy_loop_ok root todo : forall i cells s s', staged cells s -> length cells = (i + todo)%nat ->
  copy_loop transferId env root todo (Z.of_nat i) s = (Ok tt, s') ->
  sd_newChunks s' = sd_newChunks s /\ sd_rows s' = sd_rows s /\
  (exists l, sd_copy s' = sd_copy s ++ l /\ Forall (fun e => e.1.1 = root) l /\
     ((exists j, se_aborted env (poll_copy j) = true) \/
      l = (fun j => (root, j, piece F u j)) <$> seqZ (Z.of_nat i) (Z.min (Z.of_nat todo) (count (blen F) u - Z.of_nat i)))).
Proof.
  induction todo as [|todo IH]; intros i cells s s' Hst Hl H; cbn [copy_loop] in H.
  - injection H as <-. split_and!; [done..|]. exists []. split_and!; [by rewrite app_nil_r|done|]. right. rewrite seqZ_nil by lia. done.
  - destruct (se_aborted env (poll_copy _)) eqn:Ha.
    { injection H as <-. split_and!; [done..|]. exists []. split_and!; [by rewrite app_nil_r|done|]. left. by eexists. }
    destruct (lookup_lt_is_Some_2 cells i ltac:(lia)) as [cell Hc]. destruct (Hst i cell Hc) as (c & Hget & Hcell).
    destruct Hcell as (C1 & C2 & C3 & C4 & _ & _ & _ & C8 & m & Hm & M1 & M2 & M3). apply M_bind_ok in H as (s0 & s0' & [= <- <-] & H).
    cbv beta in H. rewrite Hget, Hm in H. apply M_bind_ok in H as (m' & s0 & [= <- <-] & H). cbv beta zeta in H.
    rewrite M1, M2, C2 in H. apply M_bind_ok in H as ([] & s1 & Hput & H). destruct M3 as (M3 & M4 & M5).
    assert (staged cells s1 /\ sd_newChunks s1 = sd_newChunks s /\ sd_rows s1 = sd_rows s /\ exists l1, sd_copy s1 = sd_copy s ++ l1 /\
      l1 = if Z.of_nat i * u <? blen F then [(root, Z.of_nat i, piece F u (Z.of_nat i))] else []) as (Hst1 & Hn1 & Hr1 & l1 & Hl1 & El1).
    { destruct (Z.ltb_spec (Z.of_nat i * u) (blen F)) as [Hlt|Hge].
      - destruct M5 as (M5 & M6 & M7). unfold len_at in M5.
        destruct (Z.leb_spec (md_chunkEndIndex m - md_chunkStartIndex m) 0); [lia|]. destruct (Z.ltb_spec (blen F) (md_chunkEndIndex m - md_chunkStartIndex m)); [nia|].
        cbn [orb] in Hput. apply copy_add in Hput as ->. rewrite M7. split_and!; [exact Hst|done..|by eexists].
      - replace ((md_chunkEndIndex m - md_chunkStartIndex m <=? 0) || (blen F <? md_chunkEndIndex m - md_chunkStartIndex m)) with true in Hput
          by (symmetry; apply orb_true_iff; right; by apply Z.ltb_lt).
        injection Hput as <-. split_and!; [exact Hst|done..|]. exists []. by rewrite app_nil_r. }
    replace (Z.of_nat i + 1) with (Z.of_nat (S i)) in H by lia. apply IH with (cells := cells) in H as (Hn & Hr & l & Hl' & Hroot & H); [|done|lia].
    split_and!; [congruence..|]. exists (l1 ++ l). rewrite Hl', Hl1, <- app_assoc. split; [done|]. split.
    { apply Forall_app. split; [|done]. rewrite El1. case_match; by repeat constructor. }
    destruct H as [H|H]; [by left|right]. rewrite H, El1. pose proof (below_count (blen F) u (Z.of_nat i) Hu) as Hcount.
    destruct (Z.ltb_spec (Z.of_nat i * u) (blen F)) as [Hlt|Hge].
    + rewrite (seqZ_cons (Z.of_nat i)) by lia. cbn [fmap list_fmap app]. f_equal. f_equal; f_equal; lia.
    + rewrite !seqZ_nil by lia. done.
Qed.
Lemma copy_all_ok root n cells s s' : staged cells s -> length cells = Z.to_nat n -> count (blen F) u <= n ->
  copy_loop transferId env root (Z.to_nat n) 0 s = (Ok tt, s') ->
  sd_newChunks s' = sd_newChunks s /\
  (exists l, sd_copy s' = sd_copy s ++ l /\ Forall (fun e => e.1.1 = root) l /\
     ((exists j, se_aborted env (poll_copy j) = true) \/ l = (fun j => (root, j, piece F u j)) <$> seqZ 0 (count (blen F) u))).
Proof.
  intros Hst Hl Hn H. destruct (copy_loop_ok root (Z.to_nat n) 0 cells s s' Hst Hl H) as (H1 & _ & l & H2 & H3 & H4).
  split; [done|]. exists l. split_and!; [done..|]. destruct H4 as [H4|H4]; [by left|right]. rewrite H4. f_equal. f_equal; lia.
Qed.

(** When nothing goes wrong. *)
Context (Hfits : 0 <= maxStart /\ Z.max 0 (maxStart - 1) + u <= chunkSize).
Record goes_well : Prop := {
  gw_signal p : se_aborted env p = false; gw_put i : se_put env i = true; gw_add i : se_add env i = true;
  gw_start i range : 0 < range -> first_below (draw_limit range) (se_start env i) <> None;
  gw_decoy i range : 0 < range -> first_below (draw_limit range) (se_decoy env i) <> None }.
Lemma draw_total min max draws : min <= max -> (0 < max - min -> first_below (draw_limit (max - min)) draws <> None) ->
  exists r, randomNumberInRange min max draws = Ok r.
Proof.
  intros Hle Hd. unfold randomNumberInRange. destruct (Z.eqb_spec min max) as [|Hne]; [by eexists|].
  rewrite (proj2 (Z.ltb_ge _ _)) by lia. cbn [negb require mbind result_bind]. destruct (first_below _ _); [by eexists|].
  exfalso. apply Hd; [lia|done].
Qed.
Lemma fill_total i offset : goes_well -> 0 <= i -> offset = Z.min (i * u) (blen F) -> exists x, fill i offset = Ok (Some x).
Proof.
  intros G Hi Ho. pose proof (blen_nonneg F). assert (0 <= i * u) by nia. change CHUNK_LEN with 61912 in Hcs. unfold fill_cell. fold F.
  destruct (draw_total 0 maxStart (se_start env i)) as [st Hst]; [lia|intros; by apply G|].
  rewrite Hst. cbn [mbind result_bind]. cbv zeta. apply draw_in_range in Hst as [Hr Hr'].
  destruct (Z.ltb_spec 0 (blen F - offset)) as [Hlt|Hge].
  - replace (match message with MFile _ _ => se_aborted env (poll_blob i) | MText _ => false end) with false by (destruct message; [done|by rewrite (gw_signal G)]).
    rewrite Z.max_l by lia. rewrite blen_slice by lia. rewrite Hnoise. rewrite (proj2 (Z.leb_le _ _)) by lia. by eexists.
  - rewrite Z.max_r, Z.min_l, Z.add_0_r by lia. unfold MAX_MESSAGE_SIZE, MAX_SAFE_INTEGER in *.
    destruct (draw_total (st + blen F + 1) (2 ^ 53 - 1 - (st + blen F + 1)) (se_decoy env i)) as [r ->]; [lia|intros; by apply G|]. by eexists.
Qed.
Lemma stage_loop_total todo : forall i hashes s, goes_well -> Z.of_nat (i + todo) <= MAX_SAFE_INTEGER ->
  exists hashes' s', stage todo (Z.of_nat i) (Z.min (Z.of_nat i * u) (blen F)) hashes s = (Ok hashes', s').
Proof.
  induction todo as [|todo IH]; intros i hashes s G Hi; cbn [stage_loop]; [by eexists _, _|]. rewrite (gw_signal G).
  destruct (fill_total (Z.of_nat i) _ G ltac:(lia) eq_refl) as [[[[chunk start] end_] offset'] Hf].
  destruct (fill_ok _ _ _ _ _ _ (Zle_0_nat i) eq_refl Hf) as (_ & (H0 & H1 & _) & ->). pose proof (blen_nonneg F).
  destruct (numbers_survive (metadata_of message env version (blen F) sha512 name start end_ (Z.of_nat i)) date) as (b & m & Hb & _);
    [exact Hdate|exact Hsha|cbn; unfold MAX_MESSAGE_SIZE, MAX_SAFE_INTEGER in *; lia..|].
  unfold mbind, M_bind. unfold lift at 1. rewrite Hf, Hb. unfold fnSetDBNewChunk, mrequire, lift. rewrite (gw_put G). cbn.
  replace (Z.of_nat i + 1) with (Z.of_nat (S i)) by lia. apply IH; [done|lia].
Qed.
Lemma stage_all_total n s : goes_well -> 0 <= n <= MAX_SAFE_INTEGER -> exists hashes s', stage (Z.to_nat n) 0 0 [] s = (Ok hashes, s').
Proof. intros G Hn. pose proof (stage_loop_total (Z.to_nat n) 0 [] s G ltac:(lia)) as H. by rewrite from_the_start in H. Qed.
Lemma copy_loop_total root todo : forall i cells s, goes_well -> staged cells s -> length cells = (i + todo)%nat ->
  (forall e, e ∈ (sd_copy s).*1 -> e.1 = root -> e.2 < Z.of_nat i) ->
  exists s', copy_loop transferId env root todo (Z.of_nat i) s = (Ok tt, s').
Proof.
  induction todo as [|todo IH]; intros i cells s G Hst Hl Hfree; cbn [copy_loop]; [by eexists|]. rewrite (gw_signal G).
  destruct (lookup_lt_is_Some_2 cells i ltac:(lia)) as [cell Hc]. destruct (Hst i cell Hc) as (c & Hget & Hcell).
  destruct Hcell as (C1 & C2 & C3 & C4 & _ & _ & _ & C8 & m & Hm & M1 & M2 & M3).
  unfold mbind, M_bind, get_this, lift. rewrite Hget, Hm. cbn [map_err].
  replace (Z.of_nat i + 1) with (Z.of_nat (S i)) by lia. destruct (_ || _).
  - cbn. apply (IH (S i) cells); [done|done|lia|]. intros e He Hr. specialize (Hfree e He Hr). lia.
  - unfold fnSetDBChunk. rewrite (gw_add G), M1. unfold mbind, M_bind, get_this, mrequire, lift. cbn.
    rewrite bool_decide_eq_false_2 by (intros Hin; specialize (Hfree _ Hin eq_refl); cbn in Hfree; lia). cbn.
    apply (IH (S i) cells); [done|exact Hst|lia|]. cbn. rewrite fmap_app. intros e [He|He]%elem_of_app Hr; [specialize (Hfree e He Hr); lia|].
    apply list_elem_of_singleton in He as ->. cbn. lia.
Qed.
End Cells.

(** ** Theorems *)

(** An aborted signal stays aborted. *)
Definition signal_stays (env : SplitEnv) : Prop :=
  (forall i, se_aborted env (poll_chunk i) = true \/ se_aborted env (poll_blob i) = true -> se_aborted env poll_staged = true) /\
  (forall i, se_aborted env (poll_copy i) = true -> se_aborted env poll_copied = true).
(** The cells of a message of [F] bytes, [u] to a cell, staged under a Merkle root. *)
Record cut_message {HS : Sha512} (F : bytes) (transferId : list Z) (chunkSize minChunks u : Z) (cells : list bytes)
    (r : SplitResult) (s s' : Sender) : Prop := {
  cm_fill : 0 < u;
  cm_count : spr_totalChunks r = Z.max minChunks (count (blen F) u) /\ blen cells = spr_totalChunks r;
  cm_hash : spr_hash r = subtle_digest_sha512 F /\ spr_totalSize r = blen F;
  cm_tree : spr_chunkHashes r = tree_of cells /\ getMerkleRoot (tree_of cells) = Ok (spr_merkleRoot r) /\
    spr_merkleRootHex r = uint8ArrayToHex (spr_merkleRoot r);
  cm_staged : forall i cell, cells !! i = Some cell -> exists c, sd_newChunks s' !! (transferId, Z.of_nat i) = Some c /\
    nc_data c = cell /\ blen cell = chunkSize /\ nc_leafHash c = uint8ArrayToHex (hashMerkleLeaf cell) /\
    exists m, deserializeMetadata (nc_metadata c) = Ok m /\ md_chunkIndex m = Z.of_nat i /\ md_totalSize m = blen F /\
      if Z.of_nat i <? count (blen F) u
      then slice cell (md_chunkStartIndex m) (md_chunkEndIndex m) = piece F u (Z.of_nat i) /\
           md_chunkEndIndex m - md_chunkStartIndex m = len_at (blen F) u (Z.of_nat i)
      else blen F < md_chunkEndIndex m - md_chunkStartIndex m;
  cm_copy : sd_copy s' = sd_copy s ++ ((fun j => (spr_merkleRootHex r, j, piece F u j)) <$> seqZ 0 (count (blen F) u)) }.

Lemma stages_cell {HS : Sha512} message chunkSize u i cell c : 0 < u -> stages message chunkSize u i cell c ->
  nc_data c = cell /\ blen cell = chunkSize /\ nc_leafHash c = uint8ArrayToHex (hashMerkleLeaf cell) /\
  exists m, deserializeMetadata (nc_metadata c) = Ok m /\ md_chunkIndex m = i /\ md_totalSize m = blen (message_bytes message) /\
    if i <? count (blen (message_bytes message)) u
    then slice cell (md_chunkStartIndex m) (md_chunkEndIndex m) = piece (message_bytes message) u i /\
         md_chunkEndIndex m - md_chunkStartIndex m = len_at (blen (message_bytes message)) u i
    else blen (message_bytes message) < md_chunkEndIndex m - md_chunkStartIndex m.
Proof.
  intros Hu (C1 & C2 & C3 & C4 & _ & _ & _ & _ & m & Hm & M1 & M2 & _ & _ & M3). split_and!; [done..|]. exists m. split_and!; [done..|].
  pose proof (below_count (blen (message_bytes message)) u i Hu) as Hc.
  destruct (Z.ltb_spec (i * u) (blen (message_bytes message))), (Z.ltb_spec i (count (blen (message_bytes message)) u)); try lia.
  destruct M3 as (? & ? & ?). done.
Qed.

Lemma plan_ok totalSize minChunks chunkSize p n : planMessageChunkCount totalSize minChunks chunkSize p = Ok (Some n) ->
  exists u, maxBytesToCopy chunkSize p = Some u /\ 0 < u /\ n = Z.max minChunks (count totalSize u) /\
    1 <= totalSize <= MAX_MESSAGE_SIZE /\ chunkSize <= CHUNK_LEN.
Proof.
  unfold planMessageChunkCount. intros H. binds H. apply require_ok in E1, E2, E3. apply negb_true_iff, orb_false_iff in E1 as [E1 _].
  apply Z.ltb_ge in E1. apply andb_true_iff in E2 as [_ E2]. apply Z.leb_le in E2, E3.
  destruct (maxBytesToCopy chunkSize p) as [u|]; [|discriminate H]. destruct (Z.ltb_spec 0 u); [|discriminate H].
  injection H as <-. exists u. split_and!; done.
Qed.
Lemma estimate_ok totalSize planned chunkSize x : estimateOutboundStagingBytes totalSize planned chunkSize = Ok x ->
  exists n, planned = Some n /\ 1 <= n <= MAX_SAFE_INTEGER.
Proof.
  destruct planned as [n|]; [|discriminate]. cbn. intros H. binds H. apply require_ok in E. unfold isSafeInteger in E.
  repeat (apply andb_true_iff in E as [E ?]). exists n. split; [done|]. rewrite !Z.leb_le in *. lia.
Qed.
Lemma or_discard_ok {A} root (m : sp A) s x s' : or_discard root m s = (Ok x, s') -> m s = (Ok x, s').
Proof. unfold or_discard. destruct (m s) as [[a|e] s1]; [done|discriminate]. Qed.
Lemma leaves_region {HS : Sha512} {HSC : Sha512Correct HS} (cells : list bytes) n : blen cells = n ->
  region (n * crypto_hash_sha512_BYTES) (concat (hashMerkleLeaf <$> cells)) = tree_of cells.
Proof.
  intros <-. apply region_id. unfold tree_of. rewrite blen_concat by apply leaves_length. unfold blen. rewrite length_fmap.
  change crypto_hash_sha512_BYTES with 64. lia.
Qed.
(** What the abort paths leave. *)
Lemma deleted_staging transferId s : (forall i, sd_newChunks (snd (fnDeleteDBNewChunk transferId s)) !! (transferId, i) = None).
Proof. intros i. cbn. apply map_lookup_filter_None. right. intros c _ H. by apply H. Qed.

(** C16. A message is cut without loss.  When [splitToChunks] returns, either it was
    cancelled, and then no cell of the transfer is left and no chunk was added to
    the sender's copy; or its cells stand in [newChunks] under the Merkle root it
    returns: all of one size, cell [i] with piece [i] of the message between the
    start and the end its metadata states, the last piece shorter, and behind the
    pieces only decoys, whose metadata no receiver takes for a piece; and the
    sender's own copy is the pieces in order. *)
Theorem split_cuts_message {HS : Sha512} {HSC : Sha512Correct HS} message transferId env minChunks chunkSize p version date s r s' :
  new_Date (se_now env) = Some date -> (forall i, blen (se_noise env i) = chunkSize) -> signal_stays env ->
  splitToChunks message transferId env minChunks chunkSize p version s = (Ok r, s') ->
  (r = nothing_sent /\ (forall i, sd_newChunks s' !! (transferId, i) = None) /\ (forall e, e ∈ sd_copy s' -> e ∈ sd_copy s)) \/
  exists u cells, maxBytesToCopy chunkSize p = Some u /\ cut_message (message_bytes message) transferId chunkSize minChunks u cells r s s'.
Proof.
  intros Hdate Hnoise [Hsig1 Hsig2] H. unfold splitToChunks in H. mbinds H.
  apply mrequire_ok in E as [_ ->], E2 as [_ ->], E3 as [_ ->], E4 as [_ ->].
  destruct (estimate_ok _ _ _ _ E1) as (n & -> & Hn). destruct (plan_ok _ _ _ _ _ E0) as (u & Hu & Hpos & Hcount & Hsize & Hcs).
  rewrite Hu in *. cbn [default] in *. unfold id in *. set (F := message_bytes message) in *.
  destruct (stage_all_ok message transferId env version n _ _ chunkSize _ u date Hnoise Hcs Hpos (proj2 Hsize) Hdate (sha512_length _)
    n _ _ _ ltac:(lia) E5) as ((Hcopy & _) & Hloop).
  destruct (se_aborted env poll_staged) eqn:Hab.
  { injection H as <- <-. left. split_and!; [done|apply deleted_staging|]. intros e He. cbn in He. by rewrite Hcopy in He. }
  destruct Hloop as [[i Hi]|(cells & -> & Hlen & Hst)]; [specialize (Hsig1 i Hi); congruence|].
  assert (blen cells = n) as Hblen by (unfold blen; lia). rewrite (leaves_region _ _ Hblen) in H.
  mbinds H. apply map_err_ok in E. apply or_discard_ok in E2 as Hloop.
  destruct (copy_all_ok message transferId env chunkSize u Hpos _ n cells _ _ Hst Hlen ltac:(subst F; lia) Hloop) as (Hn2 & l & Hl & Hroot & Hend).
  destruct (se_aborted env poll_copied) eqn:Hab2.
  { injection H as <- <-. left. split_and!; [done| |].
    - intros i. apply (deleted_staging transferId s0).
    - intros e He. cbn in He. rewrite Hl, Hcopy in He. apply list_elem_of_filter in He as [Hne [He|He]%elem_of_app]; [done|].
      by rewrite Forall_forall in Hroot; apply Hroot in He. }
  destruct Hend as [[i Hi]|Hend]; [specialize (Hsig2 i Hi); congruence|]. apply M_bind_ok in H as ([] & s5 & Hrow & H). apply or_discard_ok in Hrow.
  unfold setDBRoomMessageData in Hrow. mbinds Hrow. apply mrequire_ok in E3 as [_ ->].
  right. exists u, cells. split; [done|]. injection H as <- <-. split; cbn; try done.
  - intros i cell Hi. destruct (Hst i cell Hi) as (c & Hc & Hs). rewrite Hn2. exists c. split; [done|]. by eapply stages_cell.
  - by rewrite Hl, Hcopy.
Qed.

(** Nine tenths of a full cell are 55721 bytes, and they fit from each of the 6191
    places they may start at. *)
Lemma default_fits : maxBytesToCopy CHUNK_LEN d_0_9 = Some 55721 /\ maxChunkStartIndex CHUNK_LEN d_0_9 = Some 6191.
Proof. split; vm_compute; reflexivity. Qed.

(** C17. A message that may be sent is cut: with the default cells, for every message of
    1 byte to 10 GiB whose type is known, if there is space for what the estimate
    says, the writes succeed, nobody cancels, the sampling of random numbers ends
    and the device holds no copies yet, [splitToChunks] returns, with the chunks
    planned for it. *)
Theorem split_completes {HS : Sha512} {HSC : Sha512Correct HS} message transferId env minChunks date t b s :
  new_Date (se_now env) = Some date -> (forall i, blen (se_noise env i) = CHUNK_LEN) ->
  goes_well env -> se_row env = true -> message_type message = number t -> sd_copy s = [] ->
  1 <= blen (message_bytes message) <= MAX_MESSAGE_SIZE -> 1 <= minChunks ->
  let n := Z.max minChunks (count (blen (message_bytes message)) 55721) in
  estimateOutboundStagingBytes (blen (message_bytes message)) (Some n) CHUNK_LEN = Ok (Some b) ->
  b <= default (10 * 1024 * 1024 * 1024) (se_quota env) - default (64 * 1024) (se_usage env) ->
  exists r s', splitToChunks message transferId env minChunks CHUNK_LEN d_0_9 1 s = (Ok r, s') /\ spr_totalChunks r = n.
Proof.
  intros Hdate Hnoise G Hrow Ht Hempty Hsize Hmin n Hest Hspace. destruct default_fits as [Hu Hms].
  set (F := message_bytes message) in *. destruct (estimate_ok _ _ _ _ Hest) as (n' & [= <-] & Hn).
  assert (planMessageChunkCount (blen F) minChunks CHUNK_LEN d_0_9 = Ok (Some n)) as Hplan.
  { unfold planMessageChunkCount. rewrite Hu. rewrite (proj2 (Z.leb_le 1 minChunks)) by lia.
    replace (negb (SFltb d_0_9 d_0_0001 || SFltb d_0_99 d_0_9)) with true by (vm_compute; reflexivity).
    replace (isSafeInteger (blen F) && (1 <=? blen F)) with true
      by (symmetry; apply andb_true_iff; unfold isSafeInteger, MAX_SAFE_INTEGER, MAX_MESSAGE_SIZE in *; rewrite !Z.leb_le; lia).
    by rewrite (proj2 (Z.leb_le _ MAX_MESSAGE_SIZE)) by lia. }
  set (name := match message with MText _ => se_randomName env | MFile name _ => slice name 0 (Z.min 255 (blen name)) end).
  set (s0 := set_hash (uint8ArrayToHex (subtle_digest_sha512 F)) s).
  assert (0 <= 6191 /\ Z.max 0 (6191 - 1) + 55721 <= CHUNK_LEN) as Hfits by (change CHUNK_LEN with 61912; lia).
  destruct (stage_all_total message transferId env 1 n (subtle_digest_sha512 F) name CHUNK_LEN 6191 55721 date Hnoise ltac:(lia) ltac:(lia)
    (proj2 Hsize) Hdate (sha512_length _) Hfits n s0 G ltac:(lia)) as (hashes & s1 & Hstage).
  destruct (stage_all_ok message transferId env 1 n _ name CHUNK_LEN 6191 55721 date Hnoise ltac:(lia) ltac:(lia) (proj2 Hsize) Hdate
    (sha512_length _) n s0 hashes s1 ltac:(lia) Hstage) as ((Hcopy & _) & [[i [Hi|Hi]]|(cells & -> & Hlen & Hst)]); [by rewrite (gw_signal _ G) in Hi..|].
  destruct (getMerkleRoot_spec cells) as (root & Hroot & _); [intros ->; cbn in Hlen; lia|].
  destruct (copy_loop_total message transferId env CHUNK_LEN 6191 55721 (uint8ArrayToHex root) (Z.to_nat n) 0 cells s1 G Hst Hlen) as [s2 Hs2].
  { rewrite Hcopy. subst s0. cbn. rewrite Hempty. intros e He. by apply elem_of_nil in He. }
  eexists _, _. unfold splitToChunks. fold F name. unfold mbind, M_bind, mrequire, lift, modify_this. cbn [Z.eqb Pos.eqb require].
  rewrite Hplan, Hest. rewrite (proj2 (Z.leb_le b _)) by lia. rewrite !(gw_signal _ G). cbn [negb require default from_option id].
  rewrite Hu, Hms. cbn [default from_option id]. fold s0. fold F in Hstage. rewrite Hstage, (leaves_region cells n) by (unfold blen; lia).
  rewrite Hroot. cbn [map_err]. unfold or_discard. change (Z.of_nat 0) with 0 in Hs2. rewrite Hs2. unfold setDBRoomMessageData, mbind, M_bind, get_this, mrequire, lift, modify_this.
  rewrite Hrow, Ht. cbn. split; reflexivity.
Qed.
