(* ===== verification/Acks.v ===== *)
(** * Acknowledgements and cancellation of outbound transfers

    What the sender believes was delivered: the edges of
    [src/src/handlers/reconcile.ts] and the receipts of
    [handleReadReceipt.ts] that mark them, looked up in the staged chunks
    ([Staging]); and the registry of the transfers that can be cancelled,
    [transferAbort.ts].  A [Map] or [Set] is the list of its entries in the order
    of their insertion; an [AbortController] is the number of its transfer. *)

From Stdlib Require Import String.
From stdpp Require Import gmap.
From S2P Require Import Prelude Bytes Constants Crypto Merkle ChannelLabel Metadata RoomInvite MessageTypes ReceiveStore.
From S2P Require Import Ratchet ChunkCrypto ReceiveLayout ReceiveFile Receive InboundFrames Staging.
Local Open Scope Z_scope.
Local Open Scope list_scope.

(** ** [Map] *)

Definition map_find {A} (k : list Z) (m : list (list Z * A)) : option A :=
  snd <$> List.find (fun e => bool_decide (e.1 = k)) m.
Fixpoint map_put {A} (k : list Z) (v : A) (m : list (list Z * A)) : list (list Z * A) :=
  match m with
  | [] => [(k, v)]
  | e :: m => if bool_decide (e.1 = k) then (k, v) :: m else e :: map_put k v m
  end.
Definition map_remove {A} (k : list Z) (m : list (list Z * A)) : list (list Z * A) :=
  List.filter (fun e => negb (bool_decide (e.1 = k))) m.

(** ** reconcile.ts *)

Record Edge := MkEdge { ed_acked : list Z; ed_complete : bool }.
Abbreviation Edges := (list (list Z * Edge)).
Implicit Types (edges : Edges) (roomId peerId transferId : list Z).

Definition key roomId peerId transferId : list Z := roomId ++ [0] ++ peerId ++ [0] ++ transferId.
Definition edge roomId peerId transferId edges : Edge * Edges :=
  let k := key roomId peerId transferId in
  match map_find k edges with
  | Some e => (e, edges)
  | None => (MkEdge [] false, map_put k (MkEdge [] false) edges)
  end.
Definition markChunkAcked roomId peerId transferId (chunkIndex : Z) edges : bool * Edges :=
  let '(e, edges) := edge roomId peerId transferId edges in
  if bool_decide (chunkIndex ∈ ed_acked e) then (false, edges)
  else (true, map_put (key roomId peerId transferId) (MkEdge (ed_acked e ++ [chunkIndex]) (ed_complete e)) edges).
Definition getAckedChunks roomId peerId transferId edges : list Z * Edges :=
  let '(e, edges) := edge roomId peerId transferId edges in (ed_acked e, edges).
Definition getAckedChunkCount roomId peerId transferId edges : Z * Edges :=
  let '(e, edges) := edge roomId peerId transferId edges in (blen (ed_acked e), edges).
Definition markTransferComplete roomId peerId transferId edges : bool * Edges :=
  let '(e, edges) := edge roomId peerId transferId edges in
  if ed_complete e then (false, edges)
  else (true, map_put (key roomId peerId transferId) (MkEdge (ed_acked e) true) edges).
Definition getPeerTransferOutcome roomId peerId transferId edges : list Z * bool :=
  match map_find (key roomId peerId transferId) edges with
  | Some e => (ed_acked e, ed_complete e)
  | None => ([], false)
  end.
Definition isTransferComplete roomId peerId transferId edges : bool :=
  match map_find (key roomId peerId transferId) edges with Some e => ed_complete e | None => false end.
Definition clearTransfer roomId peerId transferId edges : Edges := map_remove (key roomId peerId transferId) edges.

(** [TransferAck]: peer, number of chunks, completion. *)
Definition startsWith (prefix s : list Z) : bool := bool_decide (take (length prefix) s = prefix).
Definition endsWith (suffix s : list Z) : bool :=
  (length suffix <=? length s)%nat && bool_decide (drop (length s - length suffix) s = suffix).
(** [slice(start, end)] on strings: nothing when the end is not behind the start. *)
Definition getTransferAcks roomId transferId edges : list (list Z * Z * bool) :=
  let prefix := roomId ++ [0] in
  let suffix := [0] ++ transferId in
  omap (fun e => if startsWith prefix e.1 && endsWith suffix e.1
                 then Some (take (length e.1 - length suffix - length prefix) (drop (length prefix) e.1),
                            blen (ed_acked e.2), ed_complete e.2)
                 else None) edges.

(** [waitForCompletion] on the turns of its loop: the clock, the edges and the
    signal at each; [None] while it still waits. *)
Fixpoint waitForCompletion roomId peerId transferId (deadline : Z) (turns : list (Z * Edges * bool)) : option bool :=
  match turns with
  | [] => None
  | (now, edges, stopped) :: turns =>
      if (now <? deadline) && negb (isTransferComplete roomId peerId transferId edges) && negb stopped
      then waitForCompletion roomId peerId transferId deadline turns
      else Some (negb stopped && isTransferComplete roomId peerId transferId edges)
  end.

(** ** handleReadReceipt.ts *)

(** What is read of a message of a room; an empty [transferId] counts as none. *)
Record RoomMessage := { rm_merkleRootHex : bytes; rm_sha512Hex : bytes; rm_transferId : list Z }.
Inductive ReadReceiptOutcome :=
  | ignored | chunk_acked transferId (chunkIndex : Z) (newlyAccepted : bool) | peer_complete transferId (newlyAccepted : bool).

Definition key_lt (a b : list Z * Z) : bool := string_lt a.1 b.1 || (bool_decide (a.1 = b.1) && (a.2 <? b.2)).
(** The index [receiptScope] gives the first match in the order of the keys. *)
Definition first_match (l : list ((list Z * Z) * NewChunk)) : option ((list Z * Z) * NewChunk) :=
  foldl (fun best e => match best with Some b => if key_lt e.1 b.1 then Some e else best | None => Some e end) None l.
Definition fnGetDBNewChunkByReceipt (merkleRootHex receiptTokenHex : bytes) (newChunks : gmap (list Z * Z) NewChunk)
    : option ((list Z * Z) * NewChunk) :=
  if negb (blen merkleRootHex =? crypto_hash_sha512_BYTES * 2) || negb (blen receiptTokenHex =? crypto_hash_sha512_BYTES * 2) then None
  else first_match (List.filter (fun e => bool_decide (nc_merkleRoot e.2 = merkleRootHex) && bool_decide (nc_receiptToken e.2 = receiptTokenHex))
                      (map_to_list newChunks)).

(** [rooms]: each room with its messages. *)
Definition handleReadReceipt (receivedChunkHash channel : bytes) peerId roomId (rooms : list (list Z * list RoomMessage))
    (newChunks : gmap (list Z * Z) NewChunk) : M Edges LabelError ReadReceiptOutcome :=
  let hex := uint8ArrayToHex receivedChunkHash in
  label ← lift (decompileChannelMessageLabel channel);
  match List.find (fun r => bool_decide (r.1 = roomId)) rooms with
  | None => mret ignored
  | Some room =>
      match List.find (fun m => bool_decide (rm_merkleRootHex m = dl_merkleRootHex label)) (rev room.2) with
      | None => mret ignored
      | Some message =>
          let transferId := rm_transferId message in
          if bool_decide (transferId = []) then mret ignored
          else if bool_decide (hex = rm_sha512Hex message) then
            edges ← get_this;
            let '(newlyAccepted, edges) := markTransferComplete roomId peerId transferId edges in
            set_this edges;; mret (peer_complete transferId newlyAccepted)
          else
            match fnGetDBNewChunkByReceipt (dl_merkleRootHex label) hex newChunks with
            | Some ((owner, _), chunk) =>
                if bool_decide (owner = transferId) && (-1 <? nc_chunkIndex chunk) then
                  edges ← get_this;
                  let '(newlyAccepted, edges) := markChunkAcked roomId peerId transferId (nc_chunkIndex chunk) edges in
                  set_this edges;; mret (chunk_acked transferId (nc_chunkIndex chunk) newlyAccepted)
                else mret ignored
            | None => mret ignored
            end
      end
  end.

(** ** transferAbort.ts *)

Inductive AbortError := empty_room | bad_transfer_id | already_active | no_selector | ambiguous | cancelled_with (room : bool).
#[export] Instance AbortError_eq_dec : EqDecision AbortError.
Proof. solve_decision. Defined.
(** The reason a signal was aborted for: the transfer or its room. *)
Record ActiveTransfer := MkActive {
  at_transferId : list Z; at_reason : option AbortError; at_finished : bool; at_hash : option (list Z); at_root : option (list Z) }.
(** Every transfer ever begun, and [activeByRoom]. *)
Record Transfers := MkTransfers { ts_heap : list ActiveTransfer; ts_rooms : list (list Z * list nat) }.
Implicit Types (ts : Transfers).
Definition on_active (t : nat) (f : ActiveTransfer -> ActiveTransfer) ts : Transfers := MkTransfers (alter f t (ts_heap ts)) (ts_rooms ts).
Definition isTransferId (value : list Z) : bool := isCanonicalEd25519Identity value.
Definition active_in roomId ts : list nat := default [] (map_find roomId (ts_rooms ts)).
Definition has_id transferId ts (t : nat) : bool :=
  match ts_heap ts !! t with Some a => bool_decide (at_transferId a = transferId) | None => false end.

Definition removeActive roomId (t : nat) ts : Transfers :=
  match map_find roomId (ts_rooms ts) with
  | None => ts
  | Some roomTransfers =>
      let roomTransfers := List.filter (fun x => negb (Nat.eqb x t)) roomTransfers in
      MkTransfers (ts_heap ts) (if bool_decide (roomTransfers = []) then map_remove roomId (ts_rooms ts) else map_put roomId roomTransfers (ts_rooms ts))
  end.
Definition abortActive (reason : AbortError) (t : nat) ts : Transfers :=
  on_active t (fun a => match at_reason a with
                        | None => MkActive (at_transferId a) (Some reason) (at_finished a) (at_hash a) (at_root a)
                        | Some _ => a
                        end) ts.
Definition beginTransfer roomId transferId : M Transfers AbortError nat :=
  mrequire (negb (bool_decide (roomId = []))) empty_room;;
  mrequire (isTransferId transferId) bad_transfer_id;;
  ts ← get_this;
  mrequire (negb (existsb (has_id transferId ts) (active_in roomId ts))) already_active;;
  let t := length (ts_heap ts) in
  set_this (MkTransfers (ts_heap ts ++ [MkActive transferId None false None None])
              (map_put roomId (active_in roomId ts ++ [t]) (ts_rooms ts)));;
  mret t.
Definition claimTransfer roomId transferId : M Transfers AbortError nat :=
  ts ← get_this;
  match List.find (has_id transferId ts) (active_in roomId ts) with
  | None => beginTransfer roomId transferId
  | Some t => mret t
  end.
(** The methods of the handle of transfer [t]. *)
Definition bindHash (t : nat) (hashHex : list Z) : Transfers -> Transfers :=
  on_active t (fun a => MkActive (at_transferId a) (at_reason a) (at_finished a) (Some hashHex) (at_root a)).
Definition bindMerkleRoot (t : nat) (merkleRootHex : list Z) : Transfers -> Transfers :=
  on_active t (fun a => MkActive (at_transferId a) (at_reason a) (at_finished a) (at_hash a) (Some merkleRootHex)).
Definition finish roomId (t : nat) ts : Transfers :=
  match ts_heap ts !! t with
  | Some a =>
      if at_finished a then ts else
      removeActive roomId t (on_active t (fun a => MkActive (at_transferId a) (at_reason a) true (at_hash a) (at_root a)) ts)
  | None => ts
  end.

(** [TransferSelector]; an absent or empty field is falsy. *)
Record TransferSelector := { sel_transferId : option (list Z); sel_hashHex : option (list Z); sel_merkleRootHex : option (list Z) }.
Definition truthy (s : option (list Z)) : bool := match s with Some (_ :: _) => true | _ => false end.
Definition selected (selector : TransferSelector) ts (t : nat) : bool :=
  match ts_heap ts !! t with
  | None => false
  | Some a =>
      match sel_transferId selector, sel_merkleRootHex selector with
      | Some id, _ => bool_decide (at_transferId a = id)
      | None, Some root => bool_decide (at_root a = Some root)
      | None, None => bool_decide (at_hash a = sel_hashHex selector)
      end
  end.
Definition abortTransfer roomId (selector : TransferSelector) : M Transfers AbortError Z :=
  mrequire (truthy (sel_transferId selector) || truthy (sel_hashHex selector) || truthy (sel_merkleRootHex selector)) no_selector;;
  mrequire (negb (truthy (sel_transferId selector)) || isTransferId (default [] (sel_transferId selector))) bad_transfer_id;;
  ts ← get_this;
  let matches := List.filter (selected selector ts) (active_in roomId ts) in
  mrequire (negb (match sel_transferId selector with None => true | Some _ => false end && (1 <? blen matches))) ambiguous;;
  set_this (foldr (abortActive (cancelled_with false)) ts (rev matches));;
  mret (blen matches).
Definition abortRoomTransfers roomId ts : Z * Transfers :=
  (blen (active_in roomId ts), foldr (abortActive (cancelled_with true)) ts (rev (active_in roomId ts))).
Definition abortAllTransfers ts : Z * Transfers :=
  foldl (fun '(total, ts) room => let '(n, ts) := abortRoomTransfers room.1 ts in (total + n, ts)) (0, ts) (ts_rooms ts).
(** The reason is always an [Error]. *)
Definition throwIfTransferAborted (t : nat) ts : result AbortError unit :=
  match ts_heap ts !! t with Some (MkActive _ (Some reason) _ _ _) => Err reason | _ => Ok tt end.

(** ** Lemmas on maps *)

Lemma find_put {A} k k' (v : A) m : map_find k (map_put k' v m) = if bool_decide (k' = k) then Some v else map_find k m.
Proof.
  unfold map_find. induction m as [|[k0 v0] m IH]; cbn; [by case_bool_decide|].
  destruct (bool_decide_reflect (k0 = k')) as [->|Hne]; cbn; [by case_bool_decide|].
  destruct (bool_decide_reflect (k0 = k)) as [->|Hne2]; cbn; [by rewrite bool_decide_eq_false_2|exact IH].
Qed.
Lemma find_remove {A} k k' (m : list (list Z * A)) : map_find k (map_remove k' m) = if bool_decide (k' = k) then None else map_find k m.
Proof.
  unfold map_find, map_remove. induction m as [|[k0 v0] m IH]; cbn; [by case_bool_decide|].
  destruct (bool_decide_reflect (k0 = k')) as [->|Hne]; cbn; [rewrite IH; by destruct (bool_decide (k' = k))|].
  destruct (bool_decide_reflect (k0 = k)) as [->|Hne2]; cbn; [by rewrite bool_decide_eq_false_2|exact IH].
Qed.
Lemma keys_put {A} k (v : A) m : (map_put k v m).*1 = if bool_decide (k ∈ m.*1) then m.*1 else m.*1 ++ [k].
Proof.
  induction m as [|[k0 v0] m IH]; cbn; [by rewrite bool_decide_eq_false_2 by apply not_elem_of_nil|].
  destruct (bool_decide_reflect (k0 = k)) as [->|Hne]; cbn; [by rewrite bool_decide_eq_true_2 by left|]. rewrite IH.
  destruct (bool_decide_reflect (k ∈ m.*1)) as [Hin|Hin].
  - by rewrite bool_decide_eq_true_2 by (by right).
  - rewrite bool_decide_eq_false_2; [done|]. by intros [->|?]%elem_of_cons.
Qed.
Lemma keys_remove {A} k (m : list (list Z * A)) : (map_remove k m).*1 = List.filter (fun x => negb (bool_decide (x = k))) m.*1.
Proof. induction m as [|[k0 v0] m IH]; cbn; [done|]. destruct (negb _); cbn; [f_equal|]; exact IH. Qed.
Lemma NoDup_put {A} k (v : A) m : NoDup m.*1 -> NoDup (map_put k v m).*1.
Proof.
  intros H. rewrite keys_put. case_bool_decide as Hk; [done|]. apply NoDup_app. split_and!; [done| |apply NoDup_singleton].
  intros x Hx ->%list_elem_of_singleton. done.
Qed.
Lemma NoDup_remove {A} k (m : list (list Z * A)) : NoDup m.*1 -> NoDup (map_remove k m).*1.
Proof. rewrite keys_remove. intros H. apply NoDup_ListNoDup, List.NoDup_filter. by apply NoDup_ListNoDup. Qed.
Lemma find_elem {A} k v (m : list (list Z * A)) : NoDup m.*1 -> map_find k m = Some v <-> (k, v) ∈ m.
Proof.
  unfold map_find. induction m as [|[k0 v0] m IH]; cbn; [split; [done|by intros ?%elem_of_nil]|]. intros [Hk0 Hnd]%NoDup_cons.
  destruct (bool_decide_reflect (k0 = k)) as [->|Hne]; cbn.
  - split; [intros [= ->]; by left|]. intros [[= ->]|Hin]%elem_of_cons; [done|]. exfalso. apply Hk0. apply list_elem_of_fmap. by exists (k, v).
  - rewrite IH by done. rewrite elem_of_cons. split; [by right|]. intros [[= -> ->]|?]; done.
Qed.

(** ** Edges *)

Definition nul_free (s : list Z) : Prop := 0 ∉ s.
Lemma cut_first a b x y : nul_free a -> nul_free b -> a ++ 0 :: x = b ++ 0 :: y -> a = b /\ x = y.
Proof.
  unfold nul_free. revert b. induction a as [|c a IH]; intros [|d b] Ha Hb H; cbn in H.
  - by injection H.
  - injection H as <- _. exfalso. apply Hb. by left.
  - injection H as -> _. exfalso. apply Ha. by left.
  - injection H as -> H. destruct (IH b) as [-> ->]; [by intros ?; apply Ha; right|by intros ?; apply Hb; right|done|done].
Qed.
Lemma cut_last a b x y : nul_free a -> nul_free b -> x ++ 0 :: a = y ++ 0 :: b -> x = y /\ a = b.
Proof.
  intros Ha Hb H. apply (f_equal (@rev Z)) in H. rewrite !rev_app_distr in H. cbn in H. rewrite <- !app_assoc in H. cbn in H.
  apply cut_first in H as [H1 H2].
  - split; [by rewrite <- (rev_involutive x), H2, rev_involutive|by rewrite <- (rev_involutive a), H1, rev_involutive].
  - intros Hin. apply Ha. by apply list_elem_of_In, in_rev, list_elem_of_In.
  - intros Hin. apply Hb. by apply list_elem_of_In, in_rev, list_elem_of_In.
Qed.
Lemma startsWith_spec prefix s : startsWith prefix s = true <-> exists x, s = prefix ++ x.
Proof.
  unfold startsWith. rewrite bool_decide_eq_true. split.
  - intros H. exists (drop (length prefix) s). by rewrite <- H at 1; rewrite take_drop.
  - intros [x ->]. by rewrite take_app_length.
Qed.
Lemma endsWith_spec suffix s : endsWith suffix s = true <-> exists x, s = x ++ suffix.
Proof.
  unfold endsWith. rewrite andb_true_iff, Nat.leb_le, bool_decide_eq_true. split.
  - intros [_ H]. exists (take (length s - length suffix) s). by rewrite <- H at 2; rewrite take_drop.
  - intros [x ->]. rewrite length_app. split; [lia|]. by rewrite Nat.add_sub, drop_app_length.
Qed.
(** What the scan of the keys takes out of a key. *)
Lemma key_matches room tid r p t : nul_free room -> nul_free tid -> nul_free r -> nul_free t ->
  startsWith (room ++ [0]) (key r p t) && endsWith ([0] ++ tid) (key r p t) = bool_decide (r = room /\ t = tid).
Proof.
  intros H1 H2 H3 H4. apply eq_true_iff_eq. rewrite andb_true_iff, startsWith_spec, endsWith_spec, bool_decide_eq_true. unfold key. split.
  - intros [[x Hx] [y Hy]]. rewrite <- app_assoc in Hx. apply cut_first in Hx as [-> _]; [|done..].
    replace (room ++ [0] ++ p ++ [0] ++ t) with ((room ++ [0] ++ p) ++ 0 :: t) in Hy by by rewrite <- !app_assoc.
    by apply cut_last in Hy as [_ ->].
  - intros [-> ->]. split; [exists (p ++ [0] ++ tid); by rewrite <- app_assoc|exists (room ++ [0] ++ p); by rewrite <- !app_assoc].
Qed.
Lemma key_middle r p t : take (length (key r p t) - length ([0] ++ t) - length (r ++ [0])) (drop (length (r ++ [0])) (key r p t)) = p.
Proof.
  replace (key r p t) with ((r ++ [0]) ++ p ++ [0] ++ t) by (unfold key; by rewrite <- app_assoc). rewrite drop_app_length.
  replace (_ - _ - _)%nat with (length p) by (rewrite !length_app; cbn; lia). by rewrite take_app_length.
Qed.
Lemma key_inj r p t r' p' t' : nul_free r -> nul_free r' -> nul_free t -> nul_free t' -> key r p t = key r' p' t' -> r = r' /\ p = p' /\ t = t'.
Proof. intros ? ? ? ? H. unfold key in H. apply cut_first in H as [-> H]; [|done..]. by apply cut_last in H as [-> ->]. Qed.

(** What the sender does with the edges, on identifiers without NUL. *)
Inductive edges_run : Edges -> Prop :=
  | er_none : edges_run []
  | er_read room peer tid edges : edges_run edges -> nul_free room -> nul_free peer -> nul_free tid ->
      edges_run (edge room peer tid edges).2
  | er_ack room peer tid i edges : edges_run edges -> nul_free room -> nul_free peer -> nul_free tid ->
      edges_run (markChunkAcked room peer tid i edges).2
  | er_complete room peer tid edges : edges_run edges -> nul_free room -> nul_free peer -> nul_free tid ->
      edges_run (markTransferComplete room peer tid edges).2
  | er_clear room peer tid edges : edges_run edges -> edges_run (clearTransfer room peer tid edges).
Record edges_inv edges : Prop := {
  ei_keys : NoDup edges.*1;
  ei_edge k e : (k, e) ∈ edges -> NoDup (ed_acked e) /\
    exists room peer tid, k = key room peer tid /\ nul_free room /\ nul_free peer /\ nul_free tid }.
Lemma put_inv room peer tid e edges : edges_inv edges -> nul_free room -> nul_free peer -> nul_free tid -> NoDup (ed_acked e) ->
  edges_inv (map_put (key room peer tid) e edges).
Proof.
  intros [I1 I2] Hr Hp Ht He. split; [by apply NoDup_put|]. intros k e' Hin. apply find_elem in Hin; [|by apply NoDup_put].
  rewrite find_put in Hin. case_bool_decide as Hk; [injection Hin as <-; subst k; split; [done|by eexists _, _, _]|].
  apply I2. by apply find_elem.
Qed.
Lemma edge_inv room peer tid edges : edges_inv edges -> nul_free room -> nul_free peer -> nul_free tid ->
  edges_inv (edge room peer tid edges).2 /\ NoDup (ed_acked (edge room peer tid edges).1).
Proof.
  intros I ? ? ?. unfold edge. destruct (map_find _ _) as [e|] eqn:Hf; cbn; [|split; [apply put_inv; try done|]; constructor].
  split; [done|]. apply find_elem in Hf; [|apply I]. by apply (ei_edge _ I) in Hf as [? _].
Qed.
Lemma edges_run_inv edges : edges_run edges -> edges_inv edges.
Proof.
  induction 1 as [|room peer tid edges _ IH ? ? ?|room peer tid i edges _ IH ? ? ?|room peer tid edges _ IH ? ? ?|room peer tid edges _ IH].
  - split; [constructor|]. intros k e ?%elem_of_nil. done.
  - by apply edge_inv.
  - unfold markChunkAcked. destruct (edge_inv room peer tid edges) as [I He]; [done..|]. destruct (edge room peer tid edges) as [e edges1]. cbn in *.
    case_bool_decide as Hi; [done|]. cbn. apply put_inv; try done. cbn. apply NoDup_app. split_and!; [done| |apply NoDup_singleton].
    intros j Hj ->%list_elem_of_singleton. done.
  - unfold markTransferComplete. destruct (edge_inv room peer tid edges) as [I He]; [done..|]. destruct (edge room peer tid edges) as [e edges1]. cbn in *.
    destruct (ed_complete e); [done|]. by apply put_inv.
  - destruct IH as [I1 I2]. split; [by apply NoDup_remove|]. intros k e Hin. unfold clearTransfer, map_remove in Hin.
    apply list_elem_of_In, filter_In in Hin as [Hin _]. apply I2. by apply list_elem_of_In.
Qed.

(** The progress a user sees is what the sender believes.  For identifiers
    without NUL, the report of a transfer in a room lists exactly the peers the
    sender keeps an edge for, each once, with the number of different chunks that
    peer has acknowledged and whether it has the whole message; no peer of
    another room or transfer gets into it. *)
Theorem acks_report_exact room tid edges : edges_run edges -> nul_free room -> nul_free tid ->
  (forall peer n complete, (peer, n, complete) ∈ getTransferAcks room tid edges <->
     nul_free peer /\ exists e, map_find (key room peer tid) edges = Some e /\ NoDup (ed_acked e) /\ n = blen (ed_acked e) /\ complete = ed_complete e) /\
  NoDup (getTransferAcks room tid edges).*1.*1.
Proof.
  intros Hrun Hr Ht. apply edges_run_inv in Hrun as [I1 I2]. unfold getTransferAcks. split.
  - intros peer n complete. rewrite list_elem_of_omap. split.
    + intros ([k e] & Hin & H). destruct (I2 k e Hin) as (He & r & p & t & -> & ? & ? & ?). cbn [fst snd] in H. rewrite key_matches in H by done.
      case_bool_decide as Hk; [|done]. destruct Hk as [-> ->]. rewrite key_middle in H. injection H as <- <- <-.
      split; [done|]. exists e. split_and!; try done. by apply find_elem.
    + intros (Hp & e & Hf & He & -> & ->). apply find_elem in Hf; [|done]. exists (key room peer tid, e). split; [done|]. cbn [fst snd].
      rewrite key_matches, bool_decide_eq_true_2, key_middle by done. done.
  - induction edges as [|[k e] edges IH]; cbn [omap list_omap]; [constructor|]. cbn in I1. apply NoDup_cons in I1 as [Hk I1].
    destruct (I2 k e ltac:(by left)) as (_ & r & p & t & -> & ? & ? & ?). cbn [fst snd]. rewrite key_matches by done.
    specialize (IH I1 (fun k e H => I2 k e (list_elem_of_further _ _ _ H))). case_bool_decide as Hm; [|exact IH]. destruct Hm as [-> ->].
    rewrite key_middle. cbn [fmap list_fmap fst snd]. constructor; [|exact IH]. intros Hin. apply Hk. rewrite list_elem_of_fmap in Hin. destruct Hin as ([p' n'] & -> & Hin).
    rewrite list_elem_of_fmap in Hin. destruct Hin as ([[p2 n2] c2] & [= -> ->] & Hin). rewrite list_elem_of_omap in Hin. destruct Hin as ([k' e'] & Hin & H').
    destruct (I2 k' e' (list_elem_of_further _ _ _ Hin)) as (_ & r' & p' & t' & -> & ? & ? & ?). cbn [fst snd] in H'. rewrite key_matches in H' by done.
    case_bool_decide as Hm; [|done]. destruct Hm as [-> ->]. rewrite key_middle in H'. injection H' as <- <- <-. apply list_elem_of_fmap. by eexists (_, e').
Qed.

(** ** Receipts *)

(** Every token on record is the token of the record's own chunk, as the sender
    stores it before the chunk's frame is sent. *)
Definition tokens_ok {HS : Sha512} (newChunks : gmap (list Z * Z) NewChunk) : Prop := forall k c, newChunks !! k = Some c ->
  k.2 = nc_chunkIndex c /\
  (nc_receiptToken c <> [] -> exists root token, nc_merkleRoot c = uint8ArrayToHex root /\ nc_receiptToken c = uint8ArrayToHex token /\
     nc_leafHash c = uint8ArrayToHex (hashMerkleLeaf (nc_data c)) /\
     createChunkReceiptToken root (nc_chunkIndex c) (hashMerkleLeaf (nc_data c)) = Ok token).

Lemma first_match_elem l e : first_match l = Some e -> e ∈ l.
Proof.
  unfold first_match. assert (forall best, foldl (fun best e => match best with Some b => if key_lt e.1 b.1 then Some e else best | None => Some e end) best l = Some e ->
    best = Some e \/ e ∈ l) as H; [|intros He; by destruct (H None He)].
  induction l as [|x l IH]; intros best; cbn; [by left|]. intros [He|He]%IH; [|by right; right].
  destruct best as [b|]; [|injection He as ->; right; by left]. destruct (key_lt x.1 b.1); [injection He as ->; right; by left|by left].
Qed.
Lemma by_receipt_ok root token m k c : fnGetDBNewChunkByReceipt root token m = Some (k, c) ->
  m !! k = Some c /\ nc_merkleRoot c = root /\ nc_receiptToken c = token /\ blen token = 128.
Proof.
  unfold fnGetDBNewChunkByReceipt. destruct (negb _ || negb _) eqn:Hb; [discriminate|]. intros H%first_match_elem.
  apply list_elem_of_In, filter_In in H as [Hin H]. apply list_elem_of_In, elem_of_map_to_list in Hin.
  apply andb_true_iff in H as [?%bool_decide_eq_true ?%bool_decide_eq_true]. cbn in *.
  apply orb_false_iff in Hb as [_ Hb%negb_false_iff%Z.eqb_eq]. done.
Qed.
Lemma hex_inj a b : uint8ArrayToHex a = uint8ArrayToHex b -> a = b.
Proof. intros H. by rewrite <- (hex_pairs_hex a), H, hex_pairs_hex. Qed.
Lemma acked_after room peer tid i fresh edges edges' : markChunkAcked room peer tid i edges = (fresh, edges') ->
  (exists e, map_find (key room peer tid) edges' = Some e /\ i ∈ ed_acked e) /\
  (forall k, k <> key room peer tid -> map_find k edges' = map_find k edges).
Proof.
  unfold markChunkAcked, edge. destruct (map_find (key room peer tid) edges) as [e|] eqn:Hf; cbn [ed_acked ed_complete].
  - case_bool_decide as Hi; intros [= <- <-].
    + split; [by exists e|done].
    + split; [eexists; rewrite find_put, bool_decide_eq_true_2 by done; split; [done|]; cbn; apply elem_of_app; right; by left|].
      intros k Hk. by rewrite find_put, bool_decide_eq_false_2 by done.
  - rewrite bool_decide_eq_false_2 by apply not_elem_of_nil. intros [= <- <-]. split.
    + eexists. rewrite find_put, bool_decide_eq_true_2 by done. split; [done|]. by left.
    + intros k Hk. by rewrite !find_put, !bool_decide_eq_false_2 by done.
Qed.
(** What an acknowledged receipt says about the staged chunk. *)
Lemma receipt_acks hash channel peer room rooms newChunks edges tid i fresh edges' :
  handleReadReceipt hash channel peer room rooms newChunks edges = (Ok (chunk_acked tid i fresh), edges') ->
  (exists k c, newChunks !! k = Some c /\ k.1 = tid /\ i = nc_chunkIndex c /\ nc_receiptToken c = uint8ArrayToHex hash /\ nc_receiptToken c <> []) /\
  markChunkAcked room peer tid i edges = (fresh, edges').
Proof.
  unfold handleReadReceipt. intros H. mbinds H. destruct (List.find _ rooms) as [r|]; [|discriminate H].
  destruct (List.find _ (rev r.2)) as [m|]; [|discriminate H]. destruct (bool_decide (rm_transferId m = [])); [discriminate H|].
  destruct (bool_decide (uint8ArrayToHex hash = rm_sha512Hex m)).
  { mbinds H. destruct (markTransferComplete _ _ _ _). mbinds H. discriminate. }
  destruct (fnGetDBNewChunkByReceipt _ _ _) as [[[owner idx] c]|] eqn:Hg; [|discriminate H].
  destruct (bool_decide (owner = rm_transferId m) && _) eqn:Hb; [|discriminate H]. apply andb_true_iff in Hb as [Ho%bool_decide_eq_true _].
  apply M_bind_ok in H as (edges0 & s0 & [= <- <-] & H). destruct (markChunkAcked _ _ _ _ _) as [n edges1] eqn:Hm.
  injection H as <- <- <- <-. split; [|done]. apply by_receipt_ok in Hg as (Hk & Hr & Ht & Hl).
  exists (owner, idx), c. split_and!; try done. intros En. rewrite Ht in En. by rewrite En in Hl.
Qed.

Section End2End.
Context {C : LibCrypto} {HS : Sha512} {HSC : Sha512Correct HS} {B : MlKem.MlKemBackend}.
(** C11. An acknowledged chunk is at the peer.  When a peer answers a frame with the
    token of a chunk and the sender, given these 64 bytes, marks chunk [i] of a
    transfer, then chunk [i] of that transfer is staged, the peer has a chunk on
    record for the frame's root, and only the edge of this room, peer and transfer
    has changed.  [i] is the index of the peer's record, the staged chunk is one
    of that root and the cell in the frame the peer authenticated is the cell
    staged as chunk [i], unless SHA-512 collides on the inputs of the two tokens
    or on those of the two cells' leaves. *)
Theorem ack_means_stored conn rm from label0 frame root e o env stopped signals now s r s'
    channel peer room rooms newChunks edges tid i fresh edges' :
  handleReceiveMessage conn rm from label0 frame root e o env stopped signals now s = (Ok r, s') ->
  receipt_is_real r = true -> tokens_ok newChunks ->
  handleReadReceipt (re_chunkHash r) channel peer room rooms newChunks edges = (Ok (chunk_acked tid i fresh), edges') ->
  has_chunk (re_chunkIndex r) (sv_chunks (rx_stores s' (toHex root))) = true /\
  (exists ed, map_find (key room peer tid) edges' = Some ed /\ i ∈ ed_acked ed) /\
  (forall k, k <> key room peer tid -> map_find k edges' = map_find k edges) /\
  exists staged plain k root', newChunks !! (tid, i) = Some staged /\ nc_merkleRoot staged = uint8ArrayToHex root' /\
    receiveWithKey frame root k = Ok (0, Some plain) /\
    let cell := slice plain CHUNK_START DECRYPTED_LEN in
    ((i = re_chunkIndex r /\ root' = root /\ cell = nc_data staged) \/
     collides [receipt_input root' i (hashMerkleLeaf (nc_data staged))]
              [receipt_input root (re_chunkIndex r) (hashMerkleLeaf cell)] \/
     collides [leaf_input (nc_data staged)] [leaf_input cell]).
Proof.
  intros Hrecv Hreal Htok Hread. destruct (receipt_stored _ _ _ _ _ _ _ _ _ _ _ _ _ _ _ Hrecv Hreal) as (plain & k & Hplain & _ & _ & Hhas & _ & Honly).
  apply receipt_acks in Hread as [([owner idx] & c & Hc & <- & -> & Ht & Hne) Hmark]. cbn [fst] in *.
  destruct (Htok _ _ Hc) as [Hidx Hrec]. destruct (Hrec Hne) as (root' & token & Hroot & Htoken & Hleaf & Hcreate). cbn [snd] in Hidx. subst idx.
  assert (token = re_chunkHash r) as -> by (apply hex_inj; congruence).
  split; [done|]. split; [by eapply acked_after|]. split; [by eapply acked_after|].
  exists c, plain, k, root'. do 3 (split; [done|]). cbv zeta.
  destruct (Honly _ _ _ Hcreate) as [(-> & Hi & Hl)|Hcol]; [|by right; left].
  destruct (collides_intro [leaf_input (nc_data c)] [leaf_input (slice plain CHUNK_START DECRYPTED_LEN)] _ _ ltac:(by left) ltac:(by left) Hl)
    as [Hx|Hx]; [left|by right; right]. injection Hx as Hx. done.
Qed.
End End2End.

(** ** Cancellation *)

#[local] Arguments map_find : simpl never.
#[local] Arguments map_put : simpl never.
#[local] Arguments map_remove : simpl never.

Record transfers_inv ts : Prop := {
  ti_live room t : t ∈ active_in room ts -> exists a, ts_heap ts !! t = Some a;
  ti_once room : NoDup (active_in room ts);
  ti_ids room t t' a a' : t ∈ active_in room ts -> t' ∈ active_in room ts -> ts_heap ts !! t = Some a -> ts_heap ts !! t' = Some a' ->
    at_transferId a = at_transferId a' -> t = t' }.

Lemma active_put room room' l ts : active_in room (MkTransfers (ts_heap ts) (map_put room' l (ts_rooms ts))) =
  if bool_decide (room' = room) then l else active_in room ts.
Proof. unfold active_in. cbn. rewrite find_put. by case_bool_decide. Qed.
(** Changing fields other than the identifier keeps the invariant. *)
Lemma on_active_inv t f ts : transfers_inv ts -> (forall a, at_transferId (f a) = at_transferId a) -> transfers_inv (on_active t f ts).
Proof.
  intros [I1 I2 I3] Hf.
  assert (forall x a, alter f t (ts_heap ts) !! x = Some a -> exists b, ts_heap ts !! x = Some b /\ at_transferId a = at_transferId b) as Hl.
  { intros x a Hx. destruct (decide (t = x)) as [<-|Hne].
    - rewrite list_lookup_alter_eq in Hx. apply fmap_Some in Hx as (b & Hb & ->). by exists b.
    - rewrite list_lookup_alter_ne in Hx by done. by exists a. }
  split; cbn.
  - intros room x Hx. destruct (I1 room x Hx) as [a Ha]. destruct (decide (t = x)) as [<-|Hne].
    + exists (f a). by rewrite list_lookup_alter_eq, Ha.
    + exists a. by rewrite list_lookup_alter_ne.
  - exact I2.
  - intros room x y a a' Hx Hy (b & Hb & Eb)%Hl (b' & Hb' & Eb')%Hl E. apply (I3 room x y b b'); try done. congruence.
Qed.
Lemma abort_active_inv reason t ts : transfers_inv ts -> transfers_inv (abortActive reason t ts).
Proof. intros I. apply on_active_inv; [done|]. intros a. by destruct (at_reason a). Qed.
Lemma abort_many_inv reason l ts : transfers_inv ts -> transfers_inv (foldr (abortActive reason) ts l).
Proof. intros I. induction l as [|t l IH]; [done|]. by apply abort_active_inv. Qed.
(** Taking members out of a room keeps it, too. *)
Lemma shrink_inv ts ts' : transfers_inv ts -> ts_heap ts' = ts_heap ts ->
  (forall room, exists P, active_in room ts' = List.filter P (active_in room ts)) -> transfers_inv ts'.
Proof.
  intros [I1 I2 I3] Hh Ha. assert (forall room t, t ∈ active_in room ts' -> t ∈ active_in room ts) as Hin.
  { intros room t Ht. destruct (Ha room) as [P HP]. rewrite HP in Ht. apply list_elem_of_In, filter_In in Ht as [Ht _]. by apply list_elem_of_In. }
  split; rewrite ?Hh.
  - intros room t Ht. by apply (I1 room), Hin.
  - intros room. destruct (Ha room) as [P ->]. apply NoDup_ListNoDup, List.NoDup_filter. by apply NoDup_ListNoDup.
  - intros room t t' a a' Ht Ht'. apply (I3 room); by apply Hin.
Qed.
Lemma filter_all {A} (l : list A) : l = List.filter (fun _ => true) l.
Proof. induction l as [|x l IH]; [done|]. cbn. by f_equal. Qed.
Lemma remove_inv room t ts : transfers_inv ts -> transfers_inv (removeActive room t ts).
Proof.
  intros I. unfold removeActive. destruct (map_find room (ts_rooms ts)) as [l|] eqn:Hf; [|done]. apply (shrink_inv ts); [done|done|].
  intros room'. set (keep := fun x => negb (Nat.eqb x t)). destruct (decide (room = room')) as [<-|Hne].
  - exists keep. unfold active_in at 2. rewrite Hf. cbn. unfold active_in. cbn. case_bool_decide as He.
    + rewrite find_remove, bool_decide_eq_true_2 by done. by rewrite He.
    + rewrite find_put, bool_decide_eq_true_2 by done. done.
  - exists (fun _ => true). rewrite <- filter_all. unfold active_in. cbn. case_bool_decide.
    + by rewrite find_remove, bool_decide_eq_false_2.
    + by rewrite find_put, bool_decide_eq_false_2.
Qed.
Lemma begin_inv room tid ts r ts' : transfers_inv ts -> beginTransfer room tid ts = (r, ts') -> transfers_inv ts'.
Proof.
  intros I H. unfold beginTransfer in H. unfold mbind, M_bind, mrequire, lift, get_this, set_this in H.
  destruct (negb (bool_decide (room = []))); cbn [require] in H; [|by injection H as _ <-].
  destruct (isTransferId tid); cbn [require] in H; [|by injection H as _ <-].
  destruct (existsb _ _) eqn:Hex; cbn [negb require] in H; [by injection H as _ <-|]. injection H as _ <-.
  assert (forall t, t ∈ active_in room ts -> has_id tid ts t = false) as Hfresh.
  { intros t Ht. apply not_true_iff_false. intros Ht'. assert (existsb (has_id tid ts) (active_in room ts) = true) as E; [|by rewrite E in Hex].
    apply existsb_exists. exists t. split; [by apply list_elem_of_In|done]. }
  destruct I as [I1 I2 I3]. set (new := MkActive tid None false None None).
  assert (forall t a, (ts_heap ts ++ [new]) !! t = Some a -> ts_heap ts !! t = Some a \/ t = length (ts_heap ts) /\ a = new) as Hl.
  { intros t a [Ht|[Ht1 Ht2]]%lookup_app_Some; [by left|]. apply list_lookup_singleton_Some in Ht2 as [Hz <-]. right. split; [lia|done]. }
  assert (forall room' t, t ∈ active_in room' ts -> t <> length (ts_heap ts)) as Hold.
  { intros room' t Ht ->. destruct (I1 _ _ Ht) as [a Ha%lookup_lt_Some]. lia. }
  assert (forall room' t, t ∈ active_in room' (MkTransfers (ts_heap ts ++ [new]) (map_put room (active_in room ts ++ [length (ts_heap ts)]) (ts_rooms ts))) ->
    t ∈ active_in room' ts \/ room' = room /\ t = length (ts_heap ts)) as Hin.
  { intros room' t. unfold active_in at 1. cbn. rewrite find_put. case_bool_decide as Hr; [subst room'; cbn|by left].
    intros [Ht|Ht%list_elem_of_singleton]%elem_of_app; [by left|by right]. }
  split; cbn [ts_heap].
  - intros room' t [Ht|[-> ->]]%Hin; [destruct (I1 _ _ Ht) as [a Ha]; exists a; by apply lookup_app_l_Some|].
    exists new. by rewrite list_lookup_middle.
  - intros room'. unfold active_in. cbn. rewrite find_put. case_bool_decide as Hr; [cbn|apply I2]. apply NoDup_app.
    split_and!; [apply I2| |apply NoDup_singleton]. intros t Ht ->%list_elem_of_singleton. by apply (Hold room) in Ht.
  - intros room' t t' a a' Ht Ht' Ha Ha' E. apply Hin in Ht, Ht'. apply Hl in Ha, Ha'.
    assert (forall t a, t ∈ active_in room ts -> ts_heap ts !! t = Some a -> at_transferId a <> tid) as Hno.
    { intros x b Hx Hb Eb. specialize (Hfresh x Hx). unfold has_id in Hfresh. rewrite Hb in Hfresh. by rewrite Eb, bool_decide_eq_true_2 in Hfresh. }
    destruct Ht as [Ht|[-> ->]], Ht' as [Ht'|[Hr ->]].
    + destruct Ha as [Ha|[-> _]]; [|by apply Hold in Ht]. destruct Ha' as [Ha'|[-> _]]; [|by apply Hold in Ht']. by eapply I3.
    + subst room'. destruct Ha as [Ha|[-> _]]; [|by apply Hold in Ht]. destruct Ha' as [Ha'%lookup_lt_Some|[_ ->]]; [lia|]. by destruct (Hno t a Ht Ha E).
    + destruct Ha' as [Ha'|[-> _]]; [|by apply Hold in Ht']. destruct Ha as [Ha%lookup_lt_Some|[_ ->]]; [lia|]. by destruct (Hno t' a' Ht' Ha' (eq_sym E)).
    + done.
Qed.

Inductive transfers_run : Transfers -> Prop :=
  | tr_none : transfers_run (MkTransfers [] [])
  | tr_begin room tid ts r ts' : transfers_run ts -> beginTransfer room tid ts = (r, ts') -> transfers_run ts'
  | tr_claim room tid ts r ts' : transfers_run ts -> claimTransfer room tid ts = (r, ts') -> transfers_run ts'
  | tr_hash t h ts : transfers_run ts -> transfers_run (bindHash t h ts)
  | tr_root t h ts : transfers_run ts -> transfers_run (bindMerkleRoot t h ts)
  | tr_finish room t ts : transfers_run ts -> transfers_run (finish room t ts)
  | tr_abort room selector ts r ts' : transfers_run ts -> abortTransfer room selector ts = (r, ts') -> transfers_run ts'
  | tr_room room ts : transfers_run ts -> transfers_run (abortRoomTransfers room ts).2
  | tr_all ts : transfers_run ts -> transfers_run (abortAllTransfers ts).2.
Lemma abort_cases room selector ts r ts' : abortTransfer room selector ts = (r, ts') ->
  (exists e, r = Err e /\ ts' = ts) \/
  let matches := List.filter (selected selector ts) (active_in room ts) in
  r = Ok (blen matches) /\ ts' = foldr (abortActive (cancelled_with false)) ts (rev matches) /\
  (sel_transferId selector = None -> blen matches <= 1).
Proof.
  unfold abortTransfer, mbind, M_bind, mrequire, lift, get_this, set_this. intros H.
  destruct (truthy (sel_transferId selector) || _ || _); cbn [require] in H; [|injection H as <- <-; left; by eexists].
  destruct (negb (truthy (sel_transferId selector)) || _); cbn [require] in H; [|injection H as <- <-; left; by eexists].
  destruct (negb (match sel_transferId selector with None => true | Some _ => false end && _)) eqn:Hb; cbn [require] in H; [|injection H as <- <-; left; by eexists].
  injection H as <- <-. right. split_and!; [done|done|]. intros Hn. rewrite Hn in Hb. apply negb_true_iff, Z.ltb_ge in Hb. exact Hb.
Qed.
Lemma all_inv ts : transfers_inv ts -> transfers_inv (abortAllTransfers ts).2.
Proof.
  unfold abortAllTransfers. generalize (ts_rooms ts), 0. intros l. revert ts. induction l as [|room l IH]; intros ts n I; [done|]. cbn.
  by apply IH, abort_many_inv.
Qed.
Lemma transfers_run_inv ts : transfers_run ts -> transfers_inv ts.
Proof.
  induction 1 as [|room tid ts r ts' _ IH H|room tid ts r ts' _ IH H|t h ts _ IH|t h ts _ IH|room t ts _ IH|room selector ts r ts' _ IH H|room ts _ IH|ts _ IH].
  - split; [intros room t Ht; by apply elem_of_nil in Ht|intros; constructor|intros room t t' a a' Ht; by apply elem_of_nil in Ht].
  - by eapply begin_inv.
  - unfold claimTransfer in H. unfold mbind, M_bind, get_this in H. destruct (List.find _ _); [by injection H as _ <-|by eapply begin_inv].
  - by apply on_active_inv.
  - by apply on_active_inv.
  - unfold finish. destruct (ts_heap ts !! t) as [a|]; [|done]. destruct (at_finished a); [done|]. by apply remove_inv, on_active_inv.
  - destruct (abort_cases _ _ _ _ _ H) as [(e & -> & ->)|(-> & -> & _)]; [done|by apply abort_many_inv].
  - by apply abort_many_inv.
  - by apply all_inv.
Qed.
Definition aborted_for (reason : AbortError) (a : ActiveTransfer) : ActiveTransfer :=
  match at_reason a with
  | None => MkActive (at_transferId a) (Some reason) (at_finished a) (at_hash a) (at_root a)
  | Some _ => a
  end.
Lemma abort_many_lookup reason l ts t a : ts_heap ts !! t = Some a ->
  ts_heap (foldr (abortActive reason) ts l) !! t = Some (if bool_decide (t ∈ l) then aborted_for reason a else a) /\
  ts_rooms (foldr (abortActive reason) ts l) = ts_rooms ts.
Proof.
  intros Ha. induction l as [|x l [IH1 IH2]]; cbn; [by rewrite bool_decide_eq_false_2 by apply not_elem_of_nil|]. split; [|exact IH2].
  fold (aborted_for reason). destruct (decide (x = t)) as [->|Hne].
  - rewrite list_lookup_alter_eq, IH1. rewrite (bool_decide_eq_true_2 (t ∈ t :: l)) by (by left). cbn. f_equal.
    destruct (bool_decide (t ∈ l)); [|done]. unfold aborted_for. destruct (at_reason a) eqn:Hr; cbn; rewrite ?Hr; done.
  - rewrite list_lookup_alter_ne, IH1 by done. f_equal. destruct (bool_decide_reflect (t ∈ l)) as [Hin|Hin].
    + by rewrite bool_decide_eq_true_2 by (by right).
    + rewrite bool_decide_eq_false_2; [done|]. intros [->|?]%elem_of_cons; done.
Qed.
Lemma at_most_one {A} (P : A -> bool) l : NoDup l -> (forall x y, x ∈ l -> y ∈ l -> P x = true -> P y = true -> x = y) ->
  (length (List.filter P l) <= 1)%nat.
Proof.
  induction l as [|x l IH]; [cbn; lia|]. intros [Hx Hl]%NoDup_cons H. cbn. destruct (P x) eqn:Hp; [|by apply IH; [done|]; intros; apply H; try right].
  assert (List.filter P l = []) as ->; [|cbn; lia]. destruct (List.filter P l) as [|y l'] eqn:E; [done|]. exfalso.
  assert (In y (List.filter P l)) as Hy by (rewrite E; by left). apply filter_In in Hy as [Hy Hpy]. apply list_elem_of_In in Hy.
  apply Hx. by rewrite (H x y ltac:(by left) ltac:(by right) Hp Hpy).
Qed.

(** C18. A cancellation hits one transfer.  Whatever was begun, claimed, finished and
    cancelled before, a cancellation in a room aborts at most one transfer: the
    one active in this room that has the given identifier, or else the given root
    or hash; every other transfer of every room is left as it is, and one that
    was aborted before keeps its reason.  A cancellation that throws - without a
    selector, with a malformed identifier, or with a root or hash that several
    transfers share - changes nothing. *)
Theorem cancel_hits_one room selector ts r ts' : transfers_run ts -> abortTransfer room selector ts = (r, ts') ->
  (forall e, r = Err e -> ts' = ts) /\
  (forall n, r = Ok n ->
     0 <= n <= 1 /\ (n = 1 <-> exists t, t ∈ active_in room ts /\ selected selector ts t = true) /\ ts_rooms ts' = ts_rooms ts /\
     forall t a, ts_heap ts !! t = Some a -> ts_heap ts' !! t =
       Some (if bool_decide (t ∈ active_in room ts) && selected selector ts t then aborted_for (cancelled_with false) a else a)).
Proof.
  intros Hrun%transfers_run_inv H. destruct (abort_cases _ _ _ _ _ H) as [(e & -> & ->)|(-> & -> & Hone)]; [by split|].
  split; [done|]. intros n [= <-]. set (matches := List.filter (selected selector ts) (active_in room ts)) in *.
  assert (forall t, t ∈ matches <-> t ∈ active_in room ts /\ selected selector ts t = true) as Hin.
  { intros t. subst matches. rewrite list_elem_of_In, filter_In. by rewrite list_elem_of_In. }
  assert (blen matches <= 1) as Hle.
  { destruct (sel_transferId selector) as [id|] eqn:Hid; [|by apply Hone]. unfold blen. apply (Nat2Z.inj_le _ 1), at_most_one; [apply Hrun|].
    unfold selected. rewrite Hid. intros x y Hx Hy Px Py. destruct (ts_heap ts !! x) as [a|] eqn:Ha; [|done]. destruct (ts_heap ts !! y) as [b|] eqn:Hb; [|done].
    apply bool_decide_eq_true in Px, Py. apply (ti_ids _ Hrun room x y a b); congruence. }
  pose proof (blen_nonneg matches). split; [done|]. split; [split|split].
  - intros Hn. destruct matches as [|t l] eqn:E; [done|]. exists t. apply Hin. by left.
  - intros [t Ht%Hin]. destruct matches as [|x l]; [by apply elem_of_nil in Ht|rewrite blen_cons in *; pose proof (blen_nonneg l); lia].
  - clear. induction (rev matches) as [|x l IH]; [done|]. exact IH.
  - intros t a Ha. destruct (abort_many_lookup (cancelled_with false) (rev matches) ts t a Ha) as [-> _]. f_equal.
    replace (bool_decide (t ∈ rev matches)) with (bool_decide (t ∈ active_in room ts) && selected selector ts t); [done|].
    apply eq_true_iff_eq. rewrite andb_true_iff, !bool_decide_eq_true, <- Hin. rewrite (list_elem_of_In (rev matches)), <- in_rev, <- list_elem_of_In. done.
Qed.
