(* ===== verification/SendPass.v ===== *)
(** * One pass over the chunks of a message ([src/src/handlers/handleSendMessage.ts])

    [waitForReceiptWindow], [sendChunks] and the sealer of scheduled cells.

    While the sender awaits, the rest of the program and the browser run; what it
    observes after an [await] is the next world of the list it is given, and when
    the list is over it still waits ([still_waiting]).  Everything read between
    two awaits is read in one world. *)

From Stdlib Require Import String.
From stdpp Require Import gmap.
From S2P Require Import Prelude Bytes Constants Crypto Ratchet WireFrames PqMessageKey Merkle ChunkCrypto ChannelLabel Metadata.
From S2P Require Import RoomInvite FrameQueue MessageTypes ReceiveStore ReceiveLayout ReceiveFile Receive Staging.
Local Open Scope Z_scope.
Local Open Scope list_scope.

Definition SEND_RECEIPT_WINDOW : Z := MAX_QUEUED_FRAMES_PER_CHANNEL / 2.
Definition SEND_WINDOW_STALL_MS : Z := 10000.

Inductive ReadyState := connecting | opened_channel | closing | closed.
#[export] Instance ReadyState_eq_dec : EqDecision ReadyState.
Proof. solve_decision. Defined.

Inductive SendError :=
  | still_waiting | transfer_aborted | label_mismatch | missing_chunk | index_mismatch | bad_cell_length
  | put_rejected | could_not_seal | send_failed | send_label (e : LabelError) | send_metadata (e : MetadataError)
  | send_proof (e : MerkleError) | send_token (e : TokenError) | send_range
  | gate_rejected_ | no_ratchet | not_settled | advance_failed | not_opened | cancelled_by_peer | not_confirmed | out_of_rounds.

(** A [send] succeeds, or throws because the channel has just closed, or throws. *)
Inductive SendOutcome := sent_ok | closed_meanwhile | send_throws.
(** A peer connection: its room and peer, the peer's key in hexadecimal, whether
    it is connected and has a ratchet; the flags [inboundBlocked] and [failed] of
    its PQ orchestrator and [trafficBlocked] of its PQ runtime, if it has them. *)
Record Connection := MkConnection {
  cn_roomId : list Z; cn_withPeerId : list Z; cn_withPeerPublicKey : bytes; cn_connected : bool; cn_ratchetState : bool;
  cn_orchestrator : option (bool * bool); cn_pqHealingState : option bool; cn_coverRuntime : bool }.
(** What the wait for a gate ends with: the gate's promise or the signal. *)
Inductive GateOutcome := gate_passed | gate_refused | gate_left.
(** The connections, those of the list [peerConnections], and what the calls end
    with that the sender has just awaited: the gate, [ratchetEncryptDurably]
    ([EdgePersist]: the key, the header and the owned context, or it rejects),
    [deleteDBSendQueue], [handleOpenChannel]; what [enqueueScheduledSend]
    ([CoverTransfer]) returns, or that it throws; the random words of a shuffle. *)
Record NetView := MkNet {
  nt_heap : nat -> Connection; nt_peerConnections : list nat; nt_gate : GateOutcome;
  nt_step : option (bytes * RatchetHeader * option PqMessageKeyContext); nt_queueDeleted : bool; nt_opens : bool;
  nt_enqueue : option bool; nt_words : list Z }.
(** What can be seen at one time: clock, signal of the transfer, the channel that
    is in use or opening, the acknowledgements of the edge, whether writes and
    [send] succeed, the random bytes drawn there, and the network. *)
Record World := MkWorld {
  wd_now : Z; wd_aborted : bool; wd_ready : ReadyState; wd_bufferedAmount : Z; wd_acked : list Z; wd_complete : bool;
  wd_putOk : bool; wd_send : SendOutcome; wd_noise : bytes; wd_nonce : bytes; wd_net : NetView }.

(** A frame put on the wire: the index of its chunk, whether it is a real chunk,
    and its bytes. *)
Record SentFrame := MkSent { sf_index : Z; sf_real : bool; sf_frame : bytes }.
(** [sn_buffers]: the buffers of keys, which the sender wipes in place. *)
Record Sending := MkSending {
  sn_newChunks : gmap (list Z * Z) NewChunk; sn_buffers : list bytes; sn_sent : list SentFrame;
  sn_world : World; sn_future : list World }.
Definition set_chunks f (s : Sending) : Sending := MkSending (f (sn_newChunks s)) (sn_buffers s) (sn_sent s) (sn_world s) (sn_future s).
Definition set_buffers f (s : Sending) : Sending := MkSending (sn_newChunks s) (f (sn_buffers s)) (sn_sent s) (sn_world s) (sn_future s).
Definition add_sent x (s : Sending) : Sending := MkSending (sn_newChunks s) (sn_buffers s) (sn_sent s ++ [x]) (sn_world s) (sn_future s).
Abbreviation sn A := (M Sending SendError A).

Definition await : sn unit := fun s =>
  match sn_future s with
  | [] => (Err still_waiting, s)
  | w :: future => (Ok tt, MkSending (sn_newChunks s) (sn_buffers s) (sn_sent s) w future)
  end.
Definition here : sn World := fun s => (Ok (sn_world s), s).
Definition throwIfAborted : sn unit := w ← here; mrequire (negb (wd_aborted w)) transfer_aborted.
Definition is_open (w : World) : bool := bool_decide (wd_ready w = opened_channel).
(** More turns than a loop that awaits can take. *)
Definition turns (s : Sending) : nat := S (List.length (sn_future s)).

(** ** The receipt window *)

(** [sent]: the real frames of this pass; [start]: the chunks acknowledged when it began. *)
Definition inFlight (sent start : Z) (w : World) : Z := sent - Z.max 0 (blen (wd_acked w) - start).
Fixpoint window_loop (fuel : nat) (sent start lastInFlight lastProgressAt : Z) : sn unit :=
  match fuel with
  | O => mthrow still_waiting
  | S fuel =>
      w ← here;
      if is_open w && (SEND_RECEIPT_WINDOW <=? inFlight sent start w) then
        throwIfAborted;;
        let progress := inFlight sent start w <? lastInFlight in
        let lastInFlight := if progress then inFlight sent start w else lastInFlight in
        let lastProgressAt := if progress then wd_now w else lastProgressAt in
        if SEND_WINDOW_STALL_MS <=? wd_now w - lastProgressAt then mret tt else
        await;;
        throwIfAborted;;
        window_loop fuel sent start lastInFlight lastProgressAt
      else throwIfAborted
  end.
Definition waitForReceiptWindow (sent start : Z) : sn unit :=
  w ← here; s ← get_this; window_loop (turns s) sent start (inFlight sent start w) (wd_now w).

(** ** Sealing *)

(** The key, header and context of a message; the key and the context's root are
    buffers. *)
Record Cipher := MkCipher { ci_key : nat; ci_header : RatchetHeader; ci_context : option (nat * PqMessageKeyContext) }.
Definition buffer (i : nat) (s : Sending) : bytes := default [] (sn_buffers s !! i).
Definition context_of (c : Cipher) (s : Sending) : option PqMessageKeyContext :=
  match ci_context c with
  | Some (root, ctx) => Some {| ctx_rootKey := buffer root s; ctx_binding := ctx_binding ctx; ctx_rootSuite := ctx_rootSuite ctx; ctx_epoch := ctx_epoch ctx |}
  | None => None
  end.
(** [fill(0)] *)
Definition wipe (i : nat) : sn unit := modify_this (set_buffers (alter (fun b => zeros (blen b)) i)).

Section Pass.
Context {C : LibCrypto} {HS : Sha512}.
Context (cipher : Cipher) (chunkHashes merkleRoot hashHex : bytes) (transferId : list Z).
Let merkleRootHex : bytes := uint8ArrayToHex merkleRoot.

(** Real-vs-decoy of a pass. *)
Definition isRealChunk (metadata : Metadata) : bool :=
  (md_chunkStartIndex metadata <? md_chunkEndIndex metadata)
  && (md_chunkEndIndex metadata - md_chunkStartIndex metadata <=? md_totalSize metadata).

(** The proof field of [PROOF_LEN] bytes and the receipt token, taken from the
    record or made; then the record is stored with them if they are new. *)
Definition stored_proof (awaits : bool) (chunk : NewChunk) : sn bytes :=
  let wait := if awaits then throwIfAborted else mret tt in
  if bool_decide (nc_merkleProof chunk = []) then
    leaf ← lift (map_err send_label (hexToUint8Array (nc_leafHash chunk)));
    await;;
    w ← here;
    m ← lift (map_err send_proof (getMerkleProof chunkHashes leaf PROOF_LEN (wd_noise w)));
    wait;;
    mrequire (blen m <=? PROOF_LEN) send_range;;
    mret (bset (zeros PROOF_LEN) 0 m)
  else
    mrequire (blen (nc_merkleProof chunk) <=? PROOF_LEN) send_range;;
    mret (bset (zeros PROOF_LEN) 0 (nc_merkleProof chunk)).
Definition stored_token (metadata : Metadata) (chunk : NewChunk) : sn bytes :=
  if blen (nc_receiptToken chunk) =? crypto_hash_sha512_BYTES * 2 then mret (nc_receiptToken chunk) else
  leaf ← lift (map_err send_label (hexToUint8Array (nc_leafHash chunk)));
  token ← lift (map_err send_token (createChunkReceiptToken merkleRoot (md_chunkIndex metadata) leaf));
  await;;
  mret (uint8ArrayToHex token).
Definition persist_chunk (index : Z) (chunk : NewChunk) (merkleProof receiptToken : bytes) : sn unit :=
  if bool_decide (nc_merkleProof chunk = []) || negb (bool_decide (nc_merkleRoot chunk = merkleRootHex))
     || negb (bool_decide (nc_receiptToken chunk = receiptToken)) then
    await;;
    w ← here;
    mrequire (wd_putOk w) put_rejected;;
    modify_this (set_chunks (fun m => <[(transferId, index) := MkNewChunk hashHex merkleRootHex (nc_leafHash chunk) receiptToken index
                                          (nc_data chunk) (nc_metadata chunk) merkleProof]> m))
  else mret tt.
Definition seal_cell (cell : bytes) : sn bytes :=
  s ← get_this;
  w ← here;
  lift (match sealChunk (buffer (ci_key cipher) s) (ci_header cipher) cell merkleRoot (context_of cipher s) (wd_nonce w) with
        | Ok frame => Ok frame
        | Err _ => Err could_not_seal
        end).

(** The loop that waits while the channel has too much to send. *)
Fixpoint drain_loop (fuel : nat) : sn unit :=
  match fuel with
  | O => mthrow still_waiting
  | S fuel =>
      w ← here;
      if is_open w && (MAX_BUFFERED_AMOUNT <=? wd_bufferedAmount w) then await;; throwIfAborted;; drain_loop fuel else mret tt
  end.
Definition wait_drained : sn unit := s ← get_this; drain_loop (turns s).

(** The body of the loop of [sendChunks] for the index [iRandom]: whether a real
    frame was sent, or [None] to leave the loop. *)
Definition send_one (reconcileAcked : option (list Z)) (ackedAtPassStart sentReal iRandom : Z) : sn (option bool) :=
  throwIfAborted;;
  await;;
  throwIfAborted;;
  s ← get_this;
  match sn_newChunks s !! (transferId, iRandom) with
  | None => mthrow missing_chunk
  | Some chunk =>
      metadata ← lift (map_err send_metadata (deserializeMetadata (nc_metadata chunk)));
      mrequire ((md_chunkIndex metadata =? iRandom) && (nc_chunkIndex chunk =? iRandom)) index_mismatch;;
      let isReal := isRealChunk metadata in
      if match reconcileAcked with Some acked => negb isReal || bool_decide (md_chunkIndex metadata ∈ acked) | None => false end
      then mret (Some false)
      else
        (if isReal then waitForReceiptWindow sentReal ackedAtPassStart else mret tt);;
        merkleProof ← stored_proof true chunk;
        receiptToken ← stored_token metadata chunk;
        throwIfAborted;;
        persist_chunk iRandom chunk merkleProof receiptToken;;
        mrequire (DECRYPTED_LEN =? blen (nc_metadata chunk) + blen merkleProof + blen (nc_data chunk)) bad_cell_length;;
        await;;
        throwIfAborted;;
        wait_drained;;
        w ← here;
        if negb (is_open w) then mret None else
        frame ← seal_cell (nc_metadata chunk ++ merkleProof ++ nc_data chunk);
        throwIfAborted;;
        match wd_send w with
        | sent_ok => modify_this (add_sent (MkSent iRandom isReal frame));; mret (Some isReal)
        | closed_meanwhile => mret None
        | send_throws => mthrow send_failed
        end
  end.
Fixpoint send_all (reconcileAcked : option (list Z)) (ackedAtPassStart sentReal : Z) (indexes : list Z) : sn unit :=
  match indexes with
  | [] => mret tt
  | iRandom :: indexes =>
      r ← send_one reconcileAcked ackedAtPassStart sentReal iRandom;
      match r with
      | None => mret tt
      | Some real => send_all reconcileAcked ackedAtPassStart (sentReal + Z.b2z real) indexes
      end
  end.
(** [words]: the random words of the shuffle. *)
Definition sendChunks (label : bytes) (chunksLen : Z) (words : list Z) (reconcileAcked : option (list Z)) : sn unit :=
  throwIfAborted;;
  await;;
  parsed ← lift (map_err send_label (decompileChannelMessageLabel label));
  mrequire (bool_decide (dl_merkleRootHex parsed = merkleRootHex)) label_mismatch;;
  w ← here;
  match fisherYatesShuffle (seqZ 0 chunksLen) words with
  | None => mthrow still_waiting
  | Some indexesRandomized => send_all reconcileAcked (blen (wd_acked w)) 0 indexesRandomized
  end.

(** ** [makeScheduledSlotSealer] *)

Definition scheduledSlotCell (chunkIndex : Z) : sn (option bytes) :=
  await;;
  s ← get_this;
  match sn_newChunks s !! (transferId, chunkIndex) with
  | None => mret None
  | Some chunk =>
      metadata ← lift (map_err send_metadata (deserializeMetadata (nc_metadata chunk)));
      merkleProof ← stored_proof false chunk;
      receiptToken ← stored_token metadata chunk;
      persist_chunk chunkIndex chunk merkleProof receiptToken;;
      await;;
      frame ← seal_cell (nc_metadata chunk ++ merkleProof ++ nc_data chunk);
      mret (Some frame)
  end.
End Pass.

(** ** Lemmas *)

(** The channel stays usable for as long as the list of worlds lasts. *)
Definition usable (w : World) : Prop := is_open w = true /\ wd_send w = sent_ok.
Definition stays_usable (s : Sending) : Prop := Forall usable (sn_world s :: sn_future s).
(** Computations that only await and read. *)
Definition quiet_step (s s' : Sending) : Prop :=
  sn_newChunks s' = sn_newChunks s /\ sn_buffers s' = sn_buffers s /\ sn_sent s' = sn_sent s /\ (stays_usable s -> stays_usable s').
Definition quiet {A} (m : sn A) : Prop := forall s r s', m s = (r, s') -> quiet_step s s'.
Lemma quiet_refl s : quiet_step s s.
Proof. done. Qed.
Lemma quiet_trans s1 s2 s3 : quiet_step s1 s2 -> quiet_step s2 s3 -> quiet_step s1 s3.
Proof. intros (A1 & B1 & C1 & D1) (A2 & B2 & C2 & D2). split_and!; [congruence..|auto]. Qed.
Lemma quiet_bind {A B} (m : sn A) (f : A -> sn B) : quiet m -> (forall a, quiet (f a)) -> quiet (m ≫= f).
Proof.
  intros Hm Hf s r s' H. unfold mbind, M_bind in H. destruct (m s) as [[a|e] s1] eqn:E.
  - eapply quiet_trans; [by eapply Hm|by eapply Hf].
  - injection H as <- <-. by eapply Hm.
Qed.
Lemma quiet_lift {A} (x : result SendError A) : quiet (lift x).
Proof. by intros s r s' [= <- <-]. Qed.
Lemma quiet_require b e : quiet (mrequire b e).
Proof. apply quiet_lift. Qed.
Lemma quiet_ret {A} (a : A) : quiet (mret a).
Proof. by intros s r s' [= <- <-]. Qed.
Lemma quiet_throw {A} e : quiet (mthrow e : sn A).
Proof. by intros s r s' [= <- <-]. Qed.
Lemma quiet_get : quiet get_this.
Proof. by intros s r s' [= <- <-]. Qed.
Lemma quiet_here : quiet here.
Proof. by intros s r s' [= <- <-]. Qed.
Lemma quiet_await : quiet await.
Proof.
  intros s r s' H. unfold await in H. destruct (sn_future s) as [|w l] eqn:E; injection H as <- <-; [done|]. split_and!; try done.
  unfold stays_usable. cbn. rewrite E. intros Hu. by apply Forall_inv_tail in Hu.
Qed.
Lemma quiet_if {A} (b : bool) (m1 m2 : sn A) : quiet m1 -> quiet m2 -> quiet (if b then m1 else m2).
Proof. by destruct b. Qed.
Create HintDb quiet.
#[export] Hint Resolve quiet_bind quiet_lift quiet_require quiet_ret quiet_throw quiet_get quiet_here quiet_await quiet_if : quiet.
Lemma quiet_check : quiet throwIfAborted.
Proof. unfold throwIfAborted. auto with quiet. Qed.
#[export] Hint Resolve quiet_check : quiet.
Ltac quiet := repeat (first [progress intros | apply quiet_bind | apply quiet_if | solve [auto with quiet]]).
Lemma quiet_window fuel : forall sent start last progress, quiet (window_loop fuel sent start last progress).
Proof. induction fuel as [|fuel IH]; intros; cbn [window_loop]; cbv zeta; quiet. Qed.
Lemma quiet_wait sent start : quiet (waitForReceiptWindow sent start).
Proof. unfold waitForReceiptWindow. quiet. apply quiet_window. Qed.
Lemma quiet_drain fuel : quiet (drain_loop fuel).
Proof. induction fuel as [|fuel IH]; cbn [drain_loop]; quiet. Qed.
Lemma quiet_drained : quiet wait_drained.
Proof. unfold wait_drained. quiet. apply quiet_drain. Qed.
#[export] Hint Resolve quiet_wait quiet_drained : quiet.

Section Chunks.
Context {C : LibCrypto} {HS : Sha512} {HSC : Sha512Correct HS}.
Context (cipher : Cipher) (merkleRoot hashHex : bytes) (transferId : list Z) (cells : list bytes).
Let merkleRootHex : bytes := uint8ArrayToHex merkleRoot.
Context (Hcells : blen cells <= 2 ^ 48) (Hroot : getMerkleRoot (tree_of cells) = Ok merkleRoot).

Lemma quiet_proof b c : quiet (stored_proof (tree_of cells) b c).
Proof. unfold stored_proof. cbv zeta. quiet; destruct b; auto with quiet. Qed.
Lemma quiet_token md c : quiet (stored_token merkleRoot md c).
Proof. unfold stored_token. quiet. Qed.
Lemma quiet_seal cell : quiet (seal_cell cipher merkleRoot cell).
Proof. unfold seal_cell. quiet. Qed.
Hint Resolve quiet_proof quiet_token quiet_seal : quiet.

(** A record whose frame may be sent: it has its root, token and proof. *)
Definition committed (i : Z) (c : NewChunk) : Prop :=
  nc_merkleRoot c = merkleRootHex /\
  (exists token, createChunkReceiptToken merkleRoot i (hashMerkleLeaf (nc_data c)) = Ok token /\ nc_receiptToken c = uint8ArrayToHex token) /\
  (exists noise, getMerkleProof (tree_of cells) (hashMerkleLeaf (nc_data c)) PROOF_LEN noise = Ok (nc_merkleProof c)).
(** A record of a staged message, sent before or not. *)
Definition ready (i : Z) (c : NewChunk) : Prop :=
  0 <= i /\ nc_chunkIndex c = i /\ cells !! Z.to_nat i = Some (nc_data c) /\ blen (nc_data c) = CHUNK_LEN /\
  blen (nc_metadata c) = METADATA_LEN /\ nc_leafHash c = uint8ArrayToHex (hashMerkleLeaf (nc_data c)) /\
  (exists m, deserializeMetadata (nc_metadata c) = Ok m /\ md_chunkIndex m = i) /\
  (nc_receiptToken c = [] /\ nc_merkleProof c = [] \/ committed i c).

Lemma proof_length cell noise field : cell ∈ cells ->
  getMerkleProof (tree_of cells) (hashMerkleLeaf cell) PROOF_LEN noise = Ok field -> blen field = PROOF_LEN.
Proof.
  intros Hin Hf. destruct (getMerkleRoot_spec cells) as (root & Hr & Hred); [intros ->; by apply elem_of_nil in Hin|].
  destruct (getMerkleProof_spec cells cell root Hin Hred) as (proof & n & _ & Hp & Hn1 & _ & Hk & Hfix).
  assert (n <= 48)%nat as Hn48.
  { etrans; [apply (Hk 48%nat)|lia]. apply Nat2Z.inj_le. rewrite Nat2Z.inj_pow. exact Hcells. }
  change PROOF_LEN with 3124 in *. rewrite Hfix in Hf by lia. apply fixed_proof_ok in Hf as (pad & -> & Hl). blen.
Qed.
Lemma ready_in i c : ready i c -> nc_data c ∈ cells.
Proof. intros (_ & _ & H & _). by eapply list_elem_of_lookup_2. Qed.
Lemma leaf_read c i : ready i c -> hexToUint8Array (nc_leafHash c) = Ok (hashMerkleLeaf (nc_data c)).
Proof.
  intros (_ & _ & _ & _ & _ & -> & _). apply hexToUint8Array_hex. rewrite (sha512_length _ : blen (hashMerkleLeaf _) = 64). done.
Qed.
Lemma full_field (m : bytes) : blen m = PROOF_LEN -> bset (zeros PROOF_LEN) 0 m = m.
Proof. intros H. rewrite bset_zeros by lia. rewrite zeros_0 by lia. apply app_nil_r. Qed.
Lemma stored_proof_value b c i s p s' : ready i c -> stored_proof (tree_of cells) b c s = (Ok p, s') ->
  blen p = PROOF_LEN /\ (exists noise, getMerkleProof (tree_of cells) (hashMerkleLeaf (nc_data c)) PROOF_LEN noise = Ok p) /\
  (nc_merkleProof c <> [] -> nc_merkleProof c = p).
Proof.
  intros Hr H. pose proof (ready_in i c Hr) as Hin. unfold stored_proof in H. case_bool_decide as Hp.
  - apply M_bind_ok in H as (leaf & s1 & E & H). rewrite (leaf_read c i Hr) in E. injection E as <- <-.
    apply M_bind_ok in H as ([] & s2 & _ & H). apply M_bind_ok in H as (w & s3 & [= <- <-] & H).
    apply M_bind_ok in H as (m & s4 & E & H). destruct (getMerkleProof _ _ _ _) as [m'|] eqn:Hm; [|discriminate E]. injection E as <- <-.
    apply M_bind_ok in H as ([] & s5 & _ & H). apply M_bind_ok in H as ([] & s6 & _ & H). injection H as <- <-.
    pose proof (proof_length _ _ _ Hin Hm) as Hl. rewrite full_field by done. split_and!; [done|by eexists|done].
  - apply M_bind_ok in H as ([] & s1 & _ & H). injection H as <- <-.
    destruct Hr as (_ & _ & _ & _ & _ & _ & _ & [[_ Hn]|(_ & _ & noise & Hm)]); [done|].
    pose proof (proof_length _ _ _ Hin Hm) as Hl. rewrite full_field by done. split_and!; [done|by eexists|done].
Qed.
Lemma stored_token_value md c i s t s' : ready i c -> md_chunkIndex md = i -> stored_token merkleRoot md c s = (Ok t, s') ->
  (exists token, createChunkReceiptToken merkleRoot i (hashMerkleLeaf (nc_data c)) = Ok token /\ t = uint8ArrayToHex token).
Proof.
  intros Hr <- H. unfold stored_token in H. destruct (Z.eqb_spec (blen (nc_receiptToken c)) (crypto_hash_sha512_BYTES * 2)) as [Hl|Hl].
  - injection H as <- <-. destruct Hr as (_ & _ & _ & _ & _ & _ & _ & [[Hn _]|(_ & Ht & _)]); [by rewrite Hn in Hl|done].
  - apply M_bind_ok in H as (leaf & s1 & E & H). rewrite (leaf_read _ _ Hr) in E. injection E as <- <-.
    apply M_bind_ok in H as (token & s2 & E & H). destruct (createChunkReceiptToken _ _ _) as [tk|] eqn:Ht; [|discriminate E].
    injection E as <- <-. apply M_bind_ok in H as ([] & s3 & _ & H). injection H as <- <-. by exists tk.
Qed.

(** What a pass does to the stores and the wire: it sends [l]. *)
Record pass_step (s s' : Sending) (l : list SentFrame) : Prop := {
  ps_buffers : sn_buffers s' = sn_buffers s;
  ps_sent : sn_sent s' = sn_sent s ++ l;
  ps_usable : stays_usable s -> stays_usable s';
  ps_others k : k.1 <> transferId \/ sn_newChunks s !! k = None -> sn_newChunks s' !! k = sn_newChunks s !! k;
  ps_records i c : sn_newChunks s !! (transferId, i) = Some c -> exists c', sn_newChunks s' !! (transferId, i) = Some c' /\
    nc_data c' = nc_data c /\ nc_metadata c' = nc_metadata c /\ (ready i c -> ready i c') /\ (committed i c -> committed i c') }.
Lemma pass_quiet s s' : quiet_step s s' -> pass_step s s' [].
Proof. intros (H1 & H2 & H3 & H4). split; rewrite ?H1, ?app_nil_r; try done. intros i c Hc. by exists c. Qed.
Lemma pass_trans s1 s2 s3 l1 l2 : pass_step s1 s2 l1 -> pass_step s2 s3 l2 -> pass_step s1 s3 (l1 ++ l2).
Proof.
  intros [A1 B1 C1 D1 E1] [A2 B2 C2 D2 E2]. split.
  - congruence.
  - by rewrite B2, B1, app_assoc.
  - auto.
  - intros k Hk. rewrite D2; [by apply D1|]. destruct Hk as [Hk|Hk]; [by left|right]. rewrite D1; [done|by right].
  - intros i c Hc. destruct (E1 i c Hc) as (c2 & Hc2 & ? & ? & ? & ?). destruct (E2 i c2 Hc2) as (c3 & Hc3 & ? & ? & ? & ?).
    exists c3. split_and!; [done|congruence..|auto|auto].
Qed.
Definition all_ready (s : Sending) : Prop := forall i c, sn_newChunks s !! (transferId, i) = Some c -> ready i c.
Lemma pass_ready s s' l : pass_step s s' l -> all_ready s -> all_ready s'.
Proof.
  intros [_ _ _ D E] Hr i c' Hc'. destruct (sn_newChunks s !! (transferId, i)) as [c|] eqn:Hc.
  - destruct (E i c Hc) as (c2 & Hc2 & _ & _ & Hready & _). rewrite Hc2 in Hc'. injection Hc' as <-. by apply Hready, Hr.
  - rewrite D in Hc' by by right. congruence.
Qed.
(** A frame of the message, as a receiver accepts it, whose chunk is committed. *)
Definition frame_ok (s : Sending) (f : SentFrame) : Prop := exists c sc md, sn_newChunks s !! (transferId, sf_index f) = Some c /\
  committed (sf_index f) c /\ sc_frame sc = sf_frame f /\ sc_chunk sc = nc_data c /\ sc_metadata sc = nc_metadata c /\
  deserializeMetadata (nc_metadata c) = Ok md /\ sf_real f = isRealChunk md /\
  sealed_of cells merkleRoot (buffer (ci_key cipher) s) (ci_header cipher) (context_of cipher s) sc.
Lemma buffers_same s s' : sn_buffers s' = sn_buffers s ->
  buffer (ci_key cipher) s' = buffer (ci_key cipher) s /\ context_of cipher s' = context_of cipher s.
Proof. intros H. unfold context_of, buffer. by rewrite H. Qed.
Lemma frame_ok_later s s' l f : pass_step s s' l -> frame_ok s f -> frame_ok s' f.
Proof.
  intros [A _ _ _ E] (c & sc & md & Hc & Hcom & Hf & Hd & Hm & Hmd & Hreal & Hs). destruct (E _ _ Hc) as (c' & Hc' & E1 & E2 & _ & E4).
  destruct (buffers_same s s' A) as [B1 B2]. exists c', sc, md. rewrite E1, E2, B1, B2. split_and!; auto.
Qed.

Lemma persist_ok i c p t s r s' : ready i c -> sn_newChunks s !! (transferId, i) = Some c -> blen p = PROOF_LEN ->
  (exists noise, getMerkleProof (tree_of cells) (hashMerkleLeaf (nc_data c)) PROOF_LEN noise = Ok p) -> (nc_merkleProof c <> [] -> nc_merkleProof c = p) ->
  (exists token, createChunkReceiptToken merkleRoot i (hashMerkleLeaf (nc_data c)) = Ok token /\ t = uint8ArrayToHex token) ->
  persist_chunk merkleRoot hashHex transferId i c p t s = (r, s') ->
  pass_step s s' [] /\ (r = Ok tt -> exists c', sn_newChunks s' !! (transferId, i) = Some c' /\ committed i c' /\ nc_data c' = nc_data c /\ nc_metadata c' = nc_metadata c).
Proof.
  intros Hready Hc Hp Hproof Hsame Htok H. unfold persist_chunk in H. destruct (bool_decide _ || _ || _) eqn:Hb.
  - unfold mbind, M_bind in H. destruct (await s) as [[[]|e] s1] eqn:Ha; [|injection H as <- <-; split; [by apply pass_quiet, (quiet_await _ _ _ Ha)|done]].
    pose proof (quiet_await _ _ _ Ha) as Hq. cbn [here] in H. unfold mrequire, lift, require in H.
    destruct (wd_putOk (sn_world s1)); [|injection H as <- <-; by split; [apply pass_quiet|]]. cbn in H. injection H as <- <-.
    set (c' := MkNewChunk _ _ _ _ _ _ _ _). assert (committed i c') as Hcom by done. destruct Hq as (Q1 & Q2 & Q3 & Q4). split.
    + split; cbn; rewrite ?Q1, ?app_nil_r; try done.
      * intros k Hk. apply lookup_insert_ne. intros <-. destruct Hk as [Hk|Hk]; [by apply Hk|congruence].
      * intros j d Hd. destruct (decide (j = i)) as [->|Hne].
        -- rewrite Hc in Hd. injection Hd as <-. exists c'. rewrite lookup_insert_eq. split_and!; try done. intros (R1 & R2 & R3 & R4 & R5 & R6 & R7 & _).
           split_and!; try done. by right.
        -- exists d. rewrite lookup_insert_ne by congruence. done.
    + intros _. exists c'. cbn. by rewrite lookup_insert_eq.
  - injection H as <- <-. split; [by apply pass_quiet|]. intros _. exists c. split_and!; try done.
    apply orb_false_iff in Hb as [[Hb1%bool_decide_eq_false Hb2]%orb_false_iff Hb3].
    apply negb_false_iff, bool_decide_eq_true in Hb2, Hb3. split_and!; [done|by rewrite Hb3|]. by rewrite Hsame.
Qed.

(** The chunks a pass is to send. *)
Definition wanted (acked : option (list Z)) (s : Sending) (i : Z) : Prop := exists c md, sn_newChunks s !! (transferId, i) = Some c /\
  deserializeMetadata (nc_metadata c) = Ok md /\ match acked with Some a => isRealChunk md = true /\ i ∉ a | None => True end.
Lemma wanted_later acked s s' l i : pass_step s s' l -> wanted acked s i -> wanted acked s' i.
Proof.
  intros [_ _ _ _ E] (c & md & Hc & Hmd & Hw). destruct (E i c Hc) as (c' & Hc' & _ & Hm & _). exists c', md. rewrite Hm. done.
Qed.
Lemma M_bind_split {A B} (m : sn A) (f : A -> sn B) s r s' : (m ≫= f) s = (r, s') ->
  (exists e, r = Err e /\ m s = (Err e, s')) \/ (exists a s1, m s = (Ok a, s1) /\ f a s1 = (r, s')).
Proof. unfold mbind, M_bind. destruct (m s) as [[a|e] s1]; intros H; [right; by exists a, s1|left]. injection H as <- <-. by exists e. Qed.
(** One turn of the loop: at most one frame, that of chunk [i]. *)
Definition turn_ok acked (s : Sending) (i : Z) (r : result SendError (option bool)) (s' : Sending) : Prop :=
  exists l, pass_step s s' l /\ Forall (frame_ok s') l /\ (length l <= 1)%nat /\
    Forall (fun f => sf_index f = i /\ (forall a, acked = Some a -> sf_real f = true /\ i ∉ a)) l /\
    (r = Ok None -> ~ stays_usable s) /\ (forall b, r = Ok (Some b) -> wanted acked s i -> l <> []).
Lemma turn_error acked s i e s' : pass_step s s' [] -> turn_ok acked s i (Err e) s'.
Proof. intros H. exists []. split_and!; try done. cbn. lia. Qed.
Lemma turn_after acked s s1 i r s' : pass_step s s1 [] -> turn_ok acked s1 i r s' -> turn_ok acked s i r s'.
Proof.
  intros H1 (l & H2 & H3 & H4 & H5 & H6 & H7). exists l. split_and!; try done.
  - by apply (pass_trans s s1 s' []).
  - intros Hr Hu. apply (H6 Hr). by apply (ps_usable _ _ _ H1).
  - intros b Hb Hw. apply (H7 b Hb). by eapply wanted_later.
Qed.
Lemma turn_quiet {A} acked (m : sn A) f s i r s' : quiet m -> (m ≫= f) s = (r, s') ->
  (forall a s1, m s = (Ok a, s1) -> quiet_step s s1 -> f a s1 = (r, s') -> turn_ok acked s1 i r s') -> turn_ok acked s i r s'.
Proof.
  intros Hm H Hf. unfold mbind, M_bind in H. destruct (m s) as [[a|e] s1] eqn:E; pose proof (Hm _ _ _ E) as Hq.
  - eapply turn_after; [by apply pass_quiet|by eapply Hf].
  - injection H as <- <-. by apply turn_error, pass_quiet.
Qed.
Ltac turn H a s1 E Q := eapply turn_quiet; [|exact H|]; [solve [auto with quiet]|clear H; intros a s1 E Q H].

(** The end of a turn: the cell is sealed and sent. *)
Lemma send_tail_ok acked i c md p s r s' : ready i c -> sn_newChunks s !! (transferId, i) = Some c -> committed i c ->
  deserializeMetadata (nc_metadata c) = Ok md -> (forall a, acked = Some a -> isRealChunk md = true /\ i ∉ a) ->
  (exists noise, getMerkleProof (tree_of cells) (hashMerkleLeaf (nc_data c)) PROOF_LEN noise = Ok p) ->
  (w ← here;
   if negb (is_open w) then mret None else
   frame ← seal_cell cipher merkleRoot (nc_metadata c ++ p ++ nc_data c);
   throwIfAborted;;
   match wd_send w with
   | sent_ok => modify_this (add_sent (MkSent i (isRealChunk md) frame));; mret (Some (isRealChunk md))
   | closed_meanwhile => mret None
   | send_throws => mthrow send_failed
   end) s = (r, s') -> turn_ok acked s i r s'.
Proof.
  intros Hready Hc Hcom Hmd Hack [noise Hp] H. unfold mbind, M_bind, here in H. cbv beta iota in H.
  assert (forall r', r' = None -> (~ stays_usable s) -> turn_ok acked s i (Ok r') s) as Hnone.
  { intros r' -> Hu. exists []. split_and!; try done; [by apply pass_quiet|cbn; lia]. }
  destruct (negb (is_open (sn_world s))) eqn:Ho.
  { injection H as <- <-. apply Hnone; [done|]. intros [[Hu _] _]%Forall_cons. by rewrite Hu in Ho. }
  unfold seal_cell, mbind, M_bind, get_this, here, lift in H. cbv beta iota in H.
  destruct (sealChunk _ _ _ _ _ _) as [frame|e] eqn:Hseal; [|injection H as <- <-; by apply turn_error, pass_quiet].
  unfold throwIfAborted, mbind, M_bind, here, mrequire, lift in H. cbv beta iota in H.
  destruct (negb (wd_aborted (sn_world s))); cbn [require] in H; [|injection H as <- <-; by apply turn_error, pass_quiet].
  destruct (wd_send (sn_world s)) eqn:Hsend.
  - cbn in H. injection H as <- <-. exists [MkSent i (isRealChunk md) frame]. split_and!; try done.
    + split; cbn; try done. intros j d Hd. by exists d.
    + constructor; [|done]. exists c, {| sc_chunk := nc_data c; sc_metadata := nc_metadata c; sc_noise := noise; sc_field := p;
        sc_nonce := wd_nonce (sn_world s); sc_frame := frame |}, md. split_and!; try done.
      destruct Hready as (R1 & R2 & R3 & R4 & R5 & R6 & R7 & _). unfold sealed_of, sc_plaintext. cbn.
      split_and!; try done. by eapply list_elem_of_lookup_2.
    + by constructor.
  - injection H as <- <-. apply Hnone; [done|]. intros [[_ Hu] _]%Forall_cons. by rewrite Hu in Hsend.
  - injection H as <- <-. by apply turn_error, pass_quiet.
Qed.
Lemma send_one_ok acked start sent i s r s' : all_ready s -> 0 <= i ->
  send_one cipher (tree_of cells) merkleRoot hashHex transferId acked start sent i s = (r, s') -> turn_ok acked s i r s'.
Proof.
  intros Hall Hi H. unfold send_one in H. turn H a1 s1 E1 Q1. turn H a2 s2 E2 Q2. turn H a3 s3 E3 Q3. turn H a4 s4 E4 Q4.
  injection E4 as <- <-. destruct (sn_newChunks s3 !! (transferId, i)) as [c|] eqn:Hc; [|injection H as <- <-; by apply turn_error, pass_quiet].
  assert (ready i c) as Hready by (apply (pass_ready s s3 []); [by apply pass_quiet; repeat (eapply quiet_trans; [eassumption|])|done|done]).
  turn H md s4 E4' Q4'. unfold lift in E4'. destruct (deserializeMetadata (nc_metadata c)) as [md'|] eqn:Hmd; [|discriminate E4']. injection E4' as <- <-.
  turn H a5 s5 E5 Q5. destruct a5. apply mrequire_ok in E5 as [Hidx ->]. apply andb_true_iff in Hidx as [Hidx%Z.eqb_eq _].
  destruct (match acked with Some _ => _ | None => false end) eqn:Hskip.
  { injection H as <- <-. exists []. split_and!; try done; [by apply pass_quiet|cbn; lia|]. intros b _ (c' & md & Hc' & Hmd2 & Hw).
    rewrite Hc in Hc'. injection Hc' as <-. rewrite Hmd in Hmd2. injection Hmd2 as <-. destruct acked as [ac|]; [|done].
    destruct Hw as [Hw1 Hw2]. rewrite Hidx, Hw1, (bool_decide_eq_false_2 _ Hw2) in Hskip. done. }
  assert (forall ac, acked = Some ac -> isRealChunk md' = true /\ i ∉ ac) as Hack.
  { intros ac ->. apply orb_false_iff in Hskip as [Hs1%negb_false_iff Hs2%bool_decide_eq_false]. by rewrite Hidx in Hs2. }
  turn H a6 s6 E6 Q6. turn H p s7 E7 Q7. turn H t s8 E8 Q8. turn H a9 s9 E9 Q9.
  destruct (stored_proof_value _ _ _ _ _ _ Hready E7) as (Hp1 & Hp2 & Hp3).
  pose proof (stored_token_value _ _ _ _ _ _ Hready Hidx E8) as Ht.
  assert (sn_newChunks s9 = sn_newChunks s3) as Hsame by (destruct Q6 as (U6 & _), Q7 as (U7 & _), Q8 as (U8 & _), Q9 as (U9 & _); congruence).
  rewrite <- Hsame in Hc. apply M_bind_split in H as [(e & -> & H)|([] & s10 & Hper & H)].
  { destruct (persist_ok _ _ _ _ _ _ _ Hready Hc Hp1 Hp2 Hp3 Ht H) as [Hs _]. by apply turn_error. }
  destruct (persist_ok _ _ _ _ _ _ _ Hready Hc Hp1 Hp2 Hp3 Ht Hper) as [Hs Hcom]. destruct (Hcom eq_refl) as (c' & Hc' & Hcom' & Hd' & Hm').
  eapply turn_after; [exact Hs|]. rewrite <- Hd', <- Hm' in *.
  assert (all_ready s10) as Hall10.
  { apply (pass_ready s9 s10 []); [exact Hs|]. intros j d Hd. rewrite Hsame in Hd.
    destruct Q1 as (U1 & _), Q2 as (U2 & _), Q3 as (U3 & _). rewrite U3, U2, U1 in Hd. by apply Hall. }
  turn H a11 s11 E11 Q11. turn H a12 s12 E12 Q12. turn H a13 s13 E13 Q13. turn H a14 s14 E14 Q14.
  eapply (send_tail_ok acked i c' md'); [by apply Hall10| |exact Hcom'|exact Hmd|exact Hack|exact Hp2|exact H].
  destruct Q11 as (U1 & _), Q12 as (U2 & _), Q13 as (U3 & _), Q14 as (U4 & _). by rewrite U4, U3, U2, U1.
Qed.

Lemma send_all_ok acked start indexes : forall sent s r s', all_ready s -> Forall (fun i => 0 <= i) indexes ->
  send_all cipher (tree_of cells) merkleRoot hashHex transferId acked start sent indexes s = (r, s') ->
  exists l, pass_step s s' l /\ Forall (frame_ok s') l /\ sublist (sf_index <$> l) indexes /\
    Forall (fun f => forall a, acked = Some a -> sf_real f = true /\ sf_index f ∉ a) l /\
    (r = Ok tt -> stays_usable s -> forall i, i ∈ indexes -> wanted acked s i -> i ∈ sf_index <$> l).
Proof.
  induction indexes as [|i indexes IH]; intros sent s r s' Hall Hpos H; cbn [send_all] in H.
  { injection H as <- <-. exists []. split_and!; [by apply pass_quiet|done|constructor|done|]. intros _ _ i Hi. by apply elem_of_nil in Hi. }
  apply Forall_cons in Hpos as [Hi Hpos]. apply M_bind_split in H as [(e & -> & H)|(o & s1 & Hone & H)].
  { destruct (send_one_ok _ _ _ _ _ _ _ Hall Hi H) as (l & Hs & Hf & Hlen & Hidx & _). exists l. split_and!; [done|done| | |done].
    - destruct l as [|f [|]]; [apply sublist_nil_l| |cbn in Hlen; lia]. apply Forall_singleton in Hidx as [<- _]. cbn. apply sublist_skip, sublist_nil_l.
    - eapply Forall_impl; [exact Hidx|]. intros f [-> Ha]. exact Ha. }
  destruct (send_one_ok _ _ _ _ _ _ _ Hall Hi Hone) as (l & Hs & Hf & Hlen & Hidx & Hstop & Hsent).
  assert (sublist (sf_index <$> l) [i]) as Hsub.
  { destruct l as [|f [|]]; [apply sublist_nil_l| |cbn in Hlen; lia]. apply Forall_singleton in Hidx as [<- _]. done. }
  assert (Forall (fun f => forall a, acked = Some a -> sf_real f = true /\ sf_index f ∉ a) l) as Hack
    by (eapply Forall_impl; [exact Hidx|]; intros f [-> Ha]; exact Ha).
  destruct o as [real|].
  - apply IH in H as (l2 & Hs2 & Hf2 & Hsub2 & Hack2 & Hall2); [|by eapply pass_ready|done]. exists (l ++ l2). split_and!.
    + by eapply pass_trans.
    + apply Forall_app. split; [|done]. eapply Forall_impl; [exact Hf|]. intros f. by apply frame_ok_later with l2.
    + rewrite fmap_app. by apply (sublist_app (sf_index <$> l) [i]).
    + by apply Forall_app.
    + intros Hr Hu j Hj Hw. rewrite fmap_app. apply elem_of_app. apply elem_of_cons in Hj as [->|Hj].
      * left. destruct l as [|f l]; [by destruct (Hsent real eq_refl Hw)|]. apply Forall_cons in Hidx as [[<- _] _]. by left.
      * right. apply Hall2; [done|by apply (ps_usable _ _ _ Hs)|done|by eapply wanted_later].
  - injection H as <- <-. exists l. split_and!; [done|done| |done|].
    + etrans; [exact Hsub|]. apply sublist_skip, sublist_nil_l.
    + intros _ Hu. by destruct (Hstop eq_refl).
Qed.

(** C12. A pass sends what it is to send, once, and nothing it could not send again.
    Of a staged message, [sendChunks] puts on the wire frames of different
    chunks, each a frame that the receiver opens to that chunk with a proof for
    the message's root, and each of a chunk whose root, token and proof were on
    record before; in a pass for the missing chunks only real chunks that are not
    acknowledged.  The records keep their bytes, other transfers are untouched,
    and no key is wiped.  When it returns and the channel was usable all the time,
    every chunk it was to send is among them. *)
Theorem pass_sends_message label chunksLen words acked s r s' : all_ready s ->
  sendChunks cipher (tree_of cells) merkleRoot hashHex transferId label chunksLen words acked s = (r, s') ->
  exists l, pass_step s s' l /\ all_ready s' /\ NoDup (sf_index <$> l) /\ Forall (fun i => 0 <= i < chunksLen) (sf_index <$> l) /\
    Forall (frame_ok s') l /\
    Forall (fun f => forall a, acked = Some a -> sf_real f = true /\ sf_index f ∉ a) l /\
    (r = Ok tt -> stays_usable s -> forall i, 0 <= i < chunksLen -> wanted acked s i -> i ∈ sf_index <$> l).
Proof.
  intros Hall H. unfold sendChunks in H.
  assert (forall e s1, quiet_step s s1 -> r = Err e -> s' = s1 -> exists l, pass_step s s' l /\ all_ready s' /\ NoDup (sf_index <$> l) /\
    Forall (fun i => 0 <= i < chunksLen) (sf_index <$> l) /\ Forall (frame_ok s') l /\
    Forall (fun f => forall a, acked = Some a -> sf_real f = true /\ sf_index f ∉ a) l /\
    (r = Ok tt -> stays_usable s -> forall i, 0 <= i < chunksLen -> wanted acked s i -> i ∈ sf_index <$> l)) as Herr.
  { intros e s1 Hq -> ->. exists []. pose proof (pass_quiet _ _ Hq) as Hp. split_and!; try done; [by eapply pass_ready|constructor]. }
  apply M_bind_split in H as [(e & -> & H)|([] & s1 & E1 & H)]; [eapply (Herr e); [by eapply quiet_check|done|done]|]. apply quiet_check in E1.
  apply M_bind_split in H as [(e & -> & H)|([] & s2 & E2 & H)]; [eapply (Herr e); [eapply quiet_trans; [exact E1|by eapply quiet_await]|done|done]|].
  apply quiet_await in E2. pose proof (quiet_trans _ _ _ E1 E2) as Q. clear E1 E2.
  apply M_bind_split in H as [(e & -> & H)|(parsed & s3 & E & H)]; [injection H as _ <-; by eapply Herr|]. injection E as _ <-.
  apply M_bind_split in H as [(e & -> & H)|([] & s3 & E & H)]; [injection H as _ <-; by eapply Herr|]. injection E as _ <-.
  apply M_bind_split in H as [(e & -> & H)|(w & s3 & E & H)]; [discriminate H|]. injection E as <- <-.
  destruct (fisherYatesShuffle (seqZ 0 chunksLen) words) as [indexes|] eqn:Hperm; [|injection H as <- <-; by eapply Herr].
  apply shuffle_perm in Hperm. pose proof (pass_quiet _ _ Q) as Hp.
  assert (forall i, i ∈ indexes <-> 0 <= i < chunksLen) as Hin by (intros i; rewrite Hperm, elem_of_seqZ; lia).
  apply send_all_ok in H as (l & Hs & Hf & Hsub & Hack & Hevery); [| |apply Forall_forall; intros i; rewrite Hin; lia].
  2:{ by eapply pass_ready. }
  exists l. split_and!; try done.
  - by apply (pass_trans s s2 s' []).
  - eapply pass_ready; [exact Hs|]. by eapply pass_ready.
  - eapply sublist_NoDup; [|exact Hsub]. rewrite Hperm. apply NoDup_seqZ.
  - apply Forall_forall. intros i Hi. apply Hin. by eapply elem_of_sublist.
  - intros Hr Hu i Hi Hw. apply Hevery; [done|by apply (ps_usable _ _ _ Hp)|by apply Hin|by eapply wanted_later].
Qed.
End Chunks.
