(* ===== verification/Sending.v ===== *)
(** * Sending a message to one peer ([src/src/handlers/handleSendMessage.ts])

    What is around the passes of [SendPass]: [sendWithReconcile], which steps the
    ratchet once, sends all chunks and then those that are missing until the
    receiver confirms, over reconnects if need be, and wipes its keys.

    As in [SendPass], an [await] moves to the next world; a run that is
    [still_waiting] has not ended, and nothing catches that. *)

From Stdlib Require Import String.
From stdpp Require Import gmap.
From S2P Require Import Prelude Bytes Constants Crypto Ratchet WireFrames PqMessageKey Merkle ChunkCrypto ChannelLabel Metadata.
From S2P Require Import RoomInvite FrameQueue MessageTypes ReceiveStore ReceiveLayout ReceiveFile Receive Staging SendPass Acks.
Local Open Scope Z_scope.
Local Open Scope list_scope.

Definition RETRANSMIT_TIMEOUT_MS : Z := 2000.
Definition RECONNECT_RESUME_TIMEOUT_MS : Z := 30000.
Definition CHANNEL_OPEN_TIMEOUT_MS : Z := 3000.
Definition PQ_ADMISSION_TIMEOUT_MS : Z := 60000.

(** ** The state of one send *)

(** [TransferCipher]: the connection, and what a ratchet step on it gave. *)
Record TransferCipher := MkTransferCipher { tc_epc : nat; tc_cipher : Cipher }.
(** What was done besides frames: a ratchet step with its buffers, channels opened
    and closed, the rounds counted, the edge cleared, a cover job enqueued. *)
Inductive SendEvent :=
  | stepped (epc key : nat) (root : option nat) | channel_opened (epc channel : nat) | channel_closed (channel : nat)
  | queue_deleted | retransmit_counted | edge_cleared | job_enqueued (epc : nat) (cipher : Cipher).
(** [tr_channel] and [tr_cipher] are the variables [currentChannel], [currentEpc],
    [messageKey], [header] and [pqContext]; channels are numbered as they are opened. *)
Record Transfer := MkTransfer {
  tr_sending : Sending; tr_channel : nat; tr_channels : nat; tr_cipher : option TransferCipher; tr_events : list SendEvent }.
Abbreviation tr A := (M Transfer SendError A).
Definition inner {A} (m : sn A) : tr A := fun t =>
  match m (tr_sending t) with
  | (r, s) => (r, MkTransfer s (tr_channel t) (tr_channels t) (tr_cipher t) (tr_events t))
  end.
Definition event (e : SendEvent) : tr unit :=
  modify_this (fun t => MkTransfer (tr_sending t) (tr_channel t) (tr_channels t) (tr_cipher t) (tr_events t ++ [e])).
Definition use_cipher (c : TransferCipher) : tr unit :=
  modify_this (fun t => MkTransfer (tr_sending t) (tr_channel t) (tr_channels t) (Some c) (tr_events t)).
Definition use_channel (ch : nat) : tr unit :=
  modify_this (fun t => MkTransfer (tr_sending t) ch (tr_channels t) (tr_cipher t) (tr_events t)).
Definition new_channel : tr nat := fun t =>
  (Ok (tr_channels t), MkTransfer (tr_sending t) (tr_channel t) (S (tr_channels t)) (tr_cipher t) (tr_events t)).
(** [try { m } finally { f }] and [try { m } catch (error) { f(error) }]. *)
Definition try_finally {A} (m : tr A) (f : tr unit) : tr A := fun t =>
  match m t with
  | (Err still_waiting, t) => (Err still_waiting, t)
  | (r, t) => match f t with (Err e, t) => (Err e, t) | (Ok _, t) => (r, t) end
  end.
Definition try_catch {A} (m : tr A) (f : SendError -> tr A) : tr A := fun t =>
  match m t with
  | (Err still_waiting, t) => (Err still_waiting, t)
  | (Err e, t) => f e t
  | r => r
  end.

(** ** Waits *)

Definition conn_at (epc : nat) (w : World) : Connection := nt_heap (wd_net w) epc.
(** [waitWithTransferAbort] of a ratchet gate. *)
Definition waitForGate : sn unit :=
  throwIfAborted;;
  await;;
  w ← here;
  match nt_gate (wd_net w) with
  | gate_passed => mret tt
  | gate_refused => mthrow gate_rejected_
  | gate_left => mthrow transfer_aborted
  end.
Definition isPqApplicationTrafficBlocked (c : Connection) : bool :=
  match cn_orchestrator c with Some (inboundBlocked, failed) => inboundBlocked || failed | None => false end
  || default false (cn_pqHealingState c).
Fixpoint admission_loop (fuel : nat) (epc : nat) (deadline : Z) : sn unit :=
  match fuel with
  | O => mthrow still_waiting
  | S fuel =>
      w ← here;
      if isPqApplicationTrafficBlocked (conn_at epc w) then
        throwIfAborted;;
        mrequire (wd_now w <=? deadline) not_settled;;
        await;;
        admission_loop fuel epc deadline
      else mret tt
  end.
Definition waitForPqTrafficAdmission (epc : nat) : sn unit :=
  w ← here;
  s ← get_this;
  match cn_pqHealingState (conn_at epc w) with
  | None => mret tt
  | Some _ => admission_loop (turns s) epc (wd_now w + PQ_ADMISSION_TIMEOUT_MS)
  end.
Fixpoint open_loop (fuel : nat) (start timeoutMs : Z) : sn bool :=
  match fuel with
  | O => mthrow still_waiting
  | S fuel =>
      w ← here;
      if bool_decide (wd_ready w = connecting) && (wd_now w - start <? timeoutMs) && negb (wd_aborted w)
      then await;; open_loop fuel start timeoutMs
      else mret (negb (wd_aborted w) && is_open w)
  end.
Definition waitForOpen (timeoutMs : Z) : sn bool := w ← here; s ← get_this; open_loop (turns s) (wd_now w) timeoutMs.
(** [waitForCompletion] of the edge in view. *)
Fixpoint completion_loop (fuel : nat) (deadline : Z) : sn bool :=
  match fuel with
  | O => mthrow still_waiting
  | S fuel =>
      w ← here;
      if (wd_now w <? deadline) && negb (wd_complete w) && negb (wd_aborted w)
      then await;; completion_loop fuel deadline
      else mret (negb (wd_aborted w) && wd_complete w)
  end.
Definition waitForConfirmation (timeoutMs : Z) : sn bool :=
  w ← here; s ← get_this; completion_loop (turns s) (wd_now w + timeoutMs).

(** ** Keys and channels *)

(** [ratchetEncryptDurably]: the new key and root are new buffers. *)
Definition ratchetStep (epc : nat) : tr Cipher :=
  inner await;;
  w ← inner here;
  match nt_step (wd_net w) with
  | None => mthrow advance_failed
  | Some (messageKey, header, pqContext) =>
      t ← get_this;
      let k := List.length (sn_buffers (tr_sending t)) in
      inner (modify_this (set_buffers (fun l => l ++ messageKey :: match pqContext with Some c => [ctx_rootKey c] | None => [] end)));;
      event (stepped epc k (match pqContext with Some _ => Some (S k) | None => None end));;
      mret (MkCipher k header ((fun c => (S k, c)) <$> pqContext))
  end.
Definition wipe_root (c : Cipher) : sn unit := match ci_context c with Some (root, _) => wipe root | None => mret tt end.
Definition wipe_cipher (c : Cipher) : sn unit := wipe (ci_key c);; wipe_root c.
(** The step and the check of the signal behind it. *)
Definition step_unless_aborted (epc : nat) : tr Cipher :=
  c ← ratchetStep epc;
  w ← inner here;
  (if wd_aborted w then inner (wipe_cipher c);; mthrow transfer_aborted else mret tt);;
  mret c.
Definition closeTransferChannel (channel : nat) : tr unit := event (channel_closed channel).
Definition runWithTerminalChannelClose {A} (operation : tr A) : tr A :=
  try_finally operation (t ← get_this; closeTransferChannel (tr_channel t)).

Definition bindTransferCipherToConnection (transfer : TransferCipher) (nextEpc : nat) : tr TransferCipher :=
  inner throwIfAborted;;
  if bool_decide (tc_epc transfer = nextEpc) then mret transfer else
  inner waitForGate;;
  w ← inner here;
  mrequire (cn_ratchetState (conn_at nextEpc w)) no_ratchet;;
  c ← step_unless_aborted nextEpc;
  inner (wipe_cipher (tc_cipher transfer));;
  mret (MkTransferCipher nextEpc c).

Section Edge.
Context (roomId peerId : list Z).
Definition of_peer (w : World) (epc : nat) : bool :=
  bool_decide (cn_roomId (conn_at epc w) = roomId) && bool_decide (cn_withPeerId (conn_at epc w) = peerId).
Definition isAuthenticatedPeerCancel (currentEpc : nat) (w : World) : bool :=
  cn_connected (conn_at currentEpc w) && existsb (fun candidate => Nat.eqb candidate currentEpc && of_peer w candidate) (nt_peerConnections (wd_net w)).

Definition delete_queue : sn unit := await;; w ← here; mrequire (nt_queueDeleted (wd_net w)) put_rejected.
(** One attempt to open a channel on [epc]; [None] to look again. *)
Definition reopen (epc : nat) (deadline : Z) : tr (option (nat * nat)) :=
  try_catch
    (inner delete_queue;;
     inner await;;
     w ← inner here;
     mrequire (nt_opens (wd_net w)) send_failed;;
     ch ← new_channel;
     event (channel_opened epc ch);;
     w ← inner here;
     opened ← inner (waitForOpen (deadline - wd_now w));
     if (opened : bool) then mret (Some (epc, ch)) else
     closeTransferChannel ch;;
     inner throwIfAborted;;
     mret None)
    (fun _ => mret None).
Fixpoint resume_loop (fuel : nat) (deadline : Z) : tr (option (nat * nat)) :=
  match fuel with
  | O => mthrow still_waiting
  | S fuel =>
      w ← inner here;
      if wd_now w <? deadline then
        inner throwIfAborted;;
        match List.find (fun p => of_peer w p && cn_connected (conn_at p w)) (nt_peerConnections (wd_net w)) with
        | None => inner await;; inner throwIfAborted;; resume_loop fuel deadline
        | Some epc =>
            resumed ← reopen epc deadline;
            match resumed with
            | Some r => mret (Some r)
            | None => resume_loop fuel deadline
            end
        end
      else mret None
  end.
Definition resumeChannel (timeoutMs : Z) : tr (option (nat * nat)) :=
  w ← inner here; t ← get_this; resume_loop (turns (tr_sending t)) (wd_now w + timeoutMs).

(** ** [sendWithReconcile] *)

Section Reconcile.
Context {C : LibCrypto} {HS : Sha512}.
Context (label : bytes) (chunksLen : Z) (chunkHashes merkleRoot hashHex : bytes) (transferId : list Z).

Definition current : tr TransferCipher :=
  t ← get_this; match tr_cipher t with Some c => mret c | None => mthrow no_ratchet end.
Definition send_pass (reconcileAcked : option (list Z)) : tr unit :=
  c ← current;
  w ← inner here;
  inner (sendChunks (tc_cipher c) chunkHashes merkleRoot hashHex transferId label chunksLen (nt_words (wd_net w)) reconcileAcked).
(** The turn of the loop for a channel that died: whether the transfer goes on. *)
Definition resume_turn : tr bool :=
  resumed ← resumeChannel RECONNECT_RESUME_TIMEOUT_MS;
  match resumed with
  | None => mret false
  | Some (epc, channel) =>
      c ← current;
      let cipher := tc_cipher c in
      rebound ← bindTransferCipherToConnection (MkTransferCipher (tc_epc c) (MkCipher (ci_key cipher) (ci_header cipher) None)) epc;
      use_cipher rebound;;
      use_channel channel;;
      event retransmit_counted;;
      mret true
  end.
(** The loop; whether the receiver confirmed. *)
Fixpoint reconcile_loop (fuel : nat) (retries resumeAttempts : Z) : tr bool :=
  if negb (retries <? MAX_RETRANSMITS) then mret false else
  match fuel with
  | O => mthrow out_of_rounds
  | S fuel =>
      done ← inner (waitForConfirmation (RETRANSMIT_TIMEOUT_MS * (retries + 1)));
      inner throwIfAborted;;
      if (done : bool) then mret true else
      w ← inner here;
      if bool_decide (wd_ready w = closed) || bool_decide (wd_ready w = closing) then
        c ← current;
        mrequire (negb (isAuthenticatedPeerCancel (tc_epc c) w)) cancelled_by_peer;;
        if MAX_RESUME_ATTEMPTS <=? resumeAttempts then mret false else
        goes_on ← resume_turn;
        if (goes_on : bool) then reconcile_loop fuel 0 (resumeAttempts + 1) else mret false
      else
        send_pass (Some (wd_acked w));;
        event retransmit_counted;;
        reconcile_loop fuel (retries + 1) resumeAttempts
  end.
(** The most turns: five on each of the four channels the message may be sent on. *)
Definition RECONCILE_TURNS : nat := 20.
Definition runTransfer : tr unit :=
  opened ← inner (waitForOpen CHANNEL_OPEN_TIMEOUT_MS);
  mrequire opened not_opened;;
  inner throwIfAborted;;
  send_pass None;;
  completed ← reconcile_loop RECONCILE_TURNS 0 0;
  mrequire completed not_confirmed.

Definition clear_edge : tr unit := event edge_cleared.
(** What comes before the keys are those of the transfer. *)
Definition prepare_send (epc : nat) : tr Cipher :=
  inner throwIfAborted;;
  clear_edge;;
  inner delete_queue;;
  inner throwIfAborted;;
  try_catch (inner waitForGate) (fun _ => mthrow gate_rejected_);;
  w ← inner here;
  mrequire (cn_ratchetState (conn_at epc w)) no_ratchet;;
  inner (waitForPqTrafficAdmission epc);;
  try_catch (step_unless_aborted epc) (fun _ => mthrow advance_failed).
Definition sendWithReconcile (epc : nat) : tr unit :=
  c ← prepare_send epc;
  use_cipher (MkTransferCipher epc c);;
  try_finally (runWithTerminalChannelClose runTransfer)
    (c ← current; inner (wipe_cipher (tc_cipher c));; clear_edge).
End Reconcile.
End Edge.

(** ** What the parts leave alone *)

(** Computations on [Sending] that touch no key and no record of another
    transfer, and are never cut off by the bound of the rounds. *)
Definition others_kept (transferId : list Z) (s s' : Sending) : Prop := sn_buffers s' = sn_buffers s /\
  forall k, k.1 <> transferId -> sn_newChunks s' !! k = sn_newChunks s !! k.
Definition tame {A} (transferId : list Z) (m : sn A) : Prop := forall s r s', m s = (r, s') -> r <> Err out_of_rounds /\ others_kept transferId s s'.
Section Tame.
Context (transferId : list Z).
Abbreviation tame := (tame transferId).
Lemma kept_refl s : others_kept transferId s s.
Proof. done. Qed.
Lemma kept_trans s1 s2 s3 : others_kept transferId s1 s2 -> others_kept transferId s2 s3 -> others_kept transferId s1 s3.
Proof. intros [A1 B1] [A2 B2]. split; [congruence|]. intros k Hk. rewrite B2; auto. Qed.
Lemma tame_bind {A B} (m : sn A) (f : A -> sn B) : tame m -> (forall a, tame (f a)) -> tame (m ≫= f).
Proof.
  intros Hm Hf s r s' H. apply M_bind_split in H as [(e & -> & H)|(a & s1 & H1 & H)].
  - destruct (Hm _ _ _ H) as [He Hk]. split; [congruence|done].
  - destruct (Hm _ _ _ H1) as [_ Hk]. destruct (Hf _ _ _ _ H) as [He Hk']. split; [done|by eapply kept_trans].
Qed.
Lemma tame_ret {A} (a : A) : tame (mret a).
Proof. by intros s r s' [= <- <-]. Qed.
Lemma tame_throw {A} e : e <> out_of_rounds -> tame (mthrow e : sn A).
Proof. intros He s r s' [= <- <-]. split; [congruence|done]. Qed.
Lemma tame_require b e : e <> out_of_rounds -> tame (mrequire b e).
Proof. intros He s r s' [= <- <-]. destruct b; (split; [cbn; congruence|done]). Qed.
Lemma tame_map_err {F A} (f : F -> SendError) (x : result F A) : (forall e, f e <> out_of_rounds) -> tame (lift (map_err f x)).
Proof. intros Hf s r s' [= <- <-]. split; [destruct x; cbn; [done|]; intros [= E]; by apply Hf in E|done]. Qed.
Lemma tame_get : tame get_this.
Proof. by intros s r s' [= <- <-]. Qed.
Lemma tame_here : tame here.
Proof. by intros s r s' [= <- <-]. Qed.
Lemma tame_await : tame await.
Proof. intros s r s' H. unfold await in H. destruct (sn_future s); injection H as <- <-; done. Qed.
Lemma tame_if {A} (b : bool) (m1 m2 : sn A) : tame m1 -> tame m2 -> tame (if b then m1 else m2).
Proof. by destruct b. Qed.
Lemma tame_add x : tame (modify_this (add_sent x)).
Proof. by intros s r s' [= <- <-]. Qed.
Lemma tame_put i c : tame (modify_this (set_chunks (fun m => <[(transferId, i) := c]> m))).
Proof. intros s r s' [= <- <-]. split; [done|]. split; [done|]. intros k Hk. apply lookup_insert_ne. intros <-. by apply Hk. Qed.
Lemma tame_check : tame throwIfAborted.
Proof. unfold throwIfAborted. apply tame_bind; [apply tame_here|]. intros. by apply tame_require. Qed.
Lemma tame_match {A B} (o : option A) (f : A -> sn B) m : (forall a, tame (f a)) -> tame m -> tame (match o with Some a => f a | None => m end).
Proof. by destruct o. Qed.
End Tame.
Create HintDb tame.
#[export] Hint Resolve tame_ret tame_throw tame_require tame_map_err tame_get tame_here tame_await tame_add tame_put tame_check : tame.
#[export] Hint Extern 1 (_ <> out_of_rounds) => (intros; discriminate) : tame.
Ltac tame := repeat (first [solve [auto with tame] | match goal with |- forall _, _ => intros ? end | apply tame_bind | apply tame_if | apply tame_match]).
Section TamePass.
Context {C : LibCrypto} {HS : Sha512}.
Context (cipher : Cipher) (chunkHashes merkleRoot hashHex : bytes) (transferId : list Z).
Abbreviation tame := (tame transferId).
Lemma tame_window fuel : forall sent start last progress, tame (window_loop fuel sent start last progress).
Proof. induction fuel as [|fuel IH]; intros; cbn [window_loop]; cbv zeta; tame. Qed.
Lemma tame_wait sent start : tame (waitForReceiptWindow sent start).
Proof. unfold waitForReceiptWindow. tame. apply tame_window. Qed.
Lemma tame_drain fuel : tame (drain_loop fuel).
Proof. induction fuel as [|fuel IH]; cbn [drain_loop]; tame. Qed.
Lemma tame_drained : tame wait_drained.
Proof. unfold wait_drained. tame. apply tame_drain. Qed.
Lemma tame_proof b c : tame (stored_proof chunkHashes b c).
Proof. unfold stored_proof. cbv zeta. tame; destruct b; auto with tame. Qed.
Lemma tame_token md c : tame (stored_token merkleRoot md c).
Proof. unfold stored_token. tame. Qed.
Lemma tame_persist i c p t : tame (persist_chunk merkleRoot hashHex transferId i c p t).
Proof. unfold persist_chunk. tame. Qed.
Lemma tame_seal cell : tame (seal_cell cipher merkleRoot cell).
Proof. unfold seal_cell. tame. intros s r s' [= <- <-]. by destruct (sealChunk _ _ _ _ _ _). Qed.
Hint Resolve tame_wait tame_drained tame_proof tame_token tame_persist tame_seal : tame.
Lemma tame_send_one acked start sent i : tame (send_one cipher chunkHashes merkleRoot hashHex transferId acked start sent i).
Proof. unfold send_one. tame. destruct (wd_send _); tame. Qed.
Hint Resolve tame_send_one : tame.
Lemma tame_send_all acked start indexes : forall sent, tame (send_all cipher chunkHashes merkleRoot hashHex transferId acked start sent indexes).
Proof. induction indexes as [|i indexes IH]; intros sent; cbn [send_all]; tame. Qed.
Lemma tame_chunks label n words acked : tame (sendChunks cipher chunkHashes merkleRoot hashHex transferId label n words acked).
Proof. unfold sendChunks. tame. apply tame_send_all. Qed.
Lemma tame_slot i : tame (scheduledSlotCell cipher chunkHashes merkleRoot hashHex transferId i).
Proof. unfold scheduledSlotCell. tame. Qed.
Lemma tame_gate : tame waitForGate.
Proof. unfold waitForGate. tame. destruct (nt_gate _); auto with tame. Qed.
Lemma tame_admission fuel epc deadline : tame (admission_loop fuel epc deadline).
Proof. induction fuel as [|fuel IH]; cbn [admission_loop]; tame. Qed.
Lemma tame_pq epc : tame (waitForPqTrafficAdmission epc).
Proof. unfold waitForPqTrafficAdmission. tame. apply tame_admission. Qed.
Lemma tame_open fuel start timeoutMs : tame (open_loop fuel start timeoutMs).
Proof. induction fuel as [|fuel IH]; cbn [open_loop]; tame. Qed.
Lemma tame_opened timeoutMs : tame (waitForOpen timeoutMs).
Proof. unfold waitForOpen. tame. apply tame_open. Qed.
Lemma tame_completion fuel deadline : tame (completion_loop fuel deadline).
Proof. induction fuel as [|fuel IH]; cbn [completion_loop]; tame. Qed.
Lemma tame_confirmation timeoutMs : tame (waitForConfirmation timeoutMs).
Proof. unfold waitForConfirmation. tame. apply tame_completion. Qed.
Lemma tame_queue : tame delete_queue.
Proof. unfold delete_queue. tame. Qed.
End TamePass.
#[export] Hint Resolve tame_chunks tame_slot tame_gate tame_pq tame_opened tame_confirmation tame_queue : tame.

(** ** Buffers and events *)

Definition bufs (t : Transfer) : list bytes := sn_buffers (tr_sending t).
Definition zeroed (k : nat) (b : list bytes) : Prop := exists n, b !! k = Some (zeros n).
(** The buffers below [n] stay, and what is zero stays zero. *)
Definition grow (n : nat) (b b' : list bytes) : Prop :=
  (length b <= length b')%nat /\ (forall k, (k < n)%nat -> b' !! k = b !! k) /\ forall k, zeroed k b -> zeroed k b'.
Lemma grow_same n b : grow n b b.
Proof. done. Qed.
Lemma grow_then n b1 b2 b3 : grow n b1 b2 -> grow n b2 b3 -> grow n b1 b3.
Proof. intros (A1 & B1 & C1) (A2 & B2 & C2). split_and!; [lia| |auto]. intros k Hk. by rewrite B2, B1. Qed.
Lemma grow_app n b l : (n <= length b)%nat -> grow n b (b ++ l).
Proof.
  intros Hn. split_and!; [rewrite length_app; lia| |].
  - intros k Hk. apply lookup_app_l. lia.
  - intros k [m Hm]. exists m. by apply lookup_app_l_Some.
Qed.
Definition wiped (i : nat) (b : list bytes) : list bytes := alter (fun x => zeros (blen x)) i b.
Lemma wiped_zero i b : (i < length b)%nat -> zeroed i (wiped i b).
Proof. intros H. apply lookup_lt_is_Some in H as [x Hx]. exists (blen x). unfold wiped. by rewrite list_lookup_alter_eq, Hx. Qed.
Lemma grow_wiped n i b : (n <= i)%nat -> grow n b (wiped i b).
Proof.
  intros Hn. unfold wiped. split_and!; [by rewrite length_alter| |].
  - intros k Hk. apply list_lookup_alter_ne. lia.
  - intros k [m Hm]. destruct (decide (i = k)) as [->|Hne].
    + exists (blen (zeros m)). by rewrite list_lookup_alter_eq, Hm.
    + exists m. by rewrite list_lookup_alter_ne.
Qed.
(** The state with its buffers replaced. *)
Definition with_buffers (b : list bytes) (t : Transfer) : Transfer :=
  MkTransfer (set_buffers (fun _ => b) (tr_sending t)) (tr_channel t) (tr_channels t) (tr_cipher t) (tr_events t).
Definition wiped_cipher (c : Cipher) (b : list bytes) : list bytes :=
  match ci_context c with Some (root, _) => wiped root (wiped (ci_key c) b) | None => wiped (ci_key c) b end.
Lemma wipe_cipher_run c t : inner (wipe_cipher c) t = (Ok tt, with_buffers (wiped_cipher c (bufs t)) t).
Proof. unfold wipe_cipher, wipe_root, wiped_cipher. destruct (ci_context c) as [[root ctx]|]; reflexivity. Qed.
(** A cipher whose buffers are behind the first [n]. *)
Definition cipher_in (n : nat) (b : list bytes) (c : Cipher) : Prop := (n <= ci_key c < length b)%nat /\
  forall root ctx, ci_context c = Some (root, ctx) -> (n <= root < length b)%nat.
Lemma grow_wiped_cipher n c b : cipher_in n b c -> grow n b (wiped_cipher c b).
Proof.
  intros [Hk Hr]. unfold wiped_cipher. destruct (ci_context c) as [[root ctx]|]; [|apply grow_wiped; lia].
  eapply grow_then; apply grow_wiped; [lia|]. specialize (Hr _ _ eq_refl). lia.
Qed.
Lemma wiped_cipher_zero n c b : cipher_in n b c -> zeroed (ci_key c) (wiped_cipher c b) /\
  forall root ctx, ci_context c = Some (root, ctx) -> zeroed root (wiped_cipher c b).
Proof.
  intros [Hk Hr]. unfold wiped_cipher. destruct (ci_context c) as [[root ctx]|]; [|split; [apply wiped_zero; lia|done]]. specialize (Hr _ _ eq_refl). split.
  - apply (grow_wiped 0 root); [lia|]. apply wiped_zero. lia.
  - intros r x [= <- <-]. apply wiped_zero. unfold wiped. rewrite length_alter. lia.
Qed.

Definition mild_event (e : SendEvent) : Prop := match e with stepped _ _ _ | retransmit_counted => False | _ => True end.
Section Mild.
Context (transferId : list Z).
(** Steps that take no key and count no round. *)
Record mild_step (t t' : Transfer) : Prop := {
  ms_kept : others_kept transferId (tr_sending t) (tr_sending t'); ms_cipher : tr_cipher t' = tr_cipher t; ms_channel : tr_channel t' = tr_channel t;
  ms_events : exists l, tr_events t' = tr_events t ++ l /\ Forall mild_event l }.
Definition mild {A} (m : tr A) : Prop := forall t r t', m t = (r, t') -> r <> Err out_of_rounds /\ mild_step t t'.
Lemma mild_refl t : mild_step t t.
Proof. split; try done. exists []. by rewrite app_nil_r. Qed.
Lemma mild_trans t1 t2 t3 : mild_step t1 t2 -> mild_step t2 t3 -> mild_step t1 t3.
Proof.
  intros [A1 B1 C1 (l1 & D1 & E1)] [A2 B2 C2 (l2 & D2 & E2)]. split; [by eapply kept_trans|congruence|congruence|].
  exists (l1 ++ l2). rewrite D2, D1, app_assoc. split; [done|]. by apply Forall_app.
Qed.
Lemma tr_split {A B} (m : tr A) (f : A -> tr B) t r t' : (m ≫= f) t = (r, t') ->
  (exists e, r = Err e /\ m t = (Err e, t')) \/ (exists a t1, m t = (Ok a, t1) /\ f a t1 = (r, t')).
Proof. unfold mbind, M_bind. destruct (m t) as [[a|e] t1]; intros H; [right; by exists a, t1|left]. injection H as <- <-. by exists e. Qed.
Lemma mild_bind {A B} (m : tr A) (f : A -> tr B) : mild m -> (forall a, mild (f a)) -> mild (m ≫= f).
Proof.
  intros Hm Hf t r t' H. apply tr_split in H as [(e & -> & H)|(a & t1 & H1 & H)].
  - destruct (Hm _ _ _ H) as [He Hk]. split; [congruence|done].
  - destruct (Hm _ _ _ H1) as [_ Hk]. destruct (Hf _ _ _ _ H) as [He Hk']. split; [done|by eapply mild_trans].
Qed.
Lemma mild_inner {A} (m : sn A) : tame transferId m -> mild (inner m).
Proof.
  intros Hm t r t' H. unfold inner in H. destruct (m (tr_sending t)) as [x s] eqn:E. injection H as <- <-. apply Hm in E as [He Hk].
  split; [done|]. split; try done. exists []. by rewrite app_nil_r.
Qed.
Lemma mild_here : mild (inner here).
Proof. apply mild_inner, tame_here. Qed.
Lemma mild_ret {A} (a : A) : mild (mret a).
Proof. intros t r t' [= <- <-]. split; [done|apply mild_refl]. Qed.
Lemma mild_throw {A} e : e <> out_of_rounds -> mild (mthrow e : tr A).
Proof. intros He t r t' [= <- <-]. split; [congruence|apply mild_refl]. Qed.
Lemma mild_require b e : e <> out_of_rounds -> mild (mrequire b e).
Proof. intros He t r t' [= <- <-]. destruct b; (split; [cbn; congruence|apply mild_refl]). Qed.
Lemma mild_get : mild get_this.
Proof. intros t r t' [= <- <-]. split; [done|apply mild_refl]. Qed.
Lemma mild_event_step e : mild_event e -> mild (event e).
Proof. intros He t r t' [= <- <-]. split; [done|]. split; try done. exists [e]. by split; [|constructor]. Qed.
Lemma mild_new : mild new_channel.
Proof. intros t r t' [= <- <-]. split; [done|]. split; try done. exists []. by rewrite app_nil_r. Qed.
Lemma mild_if {A} (b : bool) (m1 m2 : tr A) : mild m1 -> mild m2 -> mild (if b then m1 else m2).
Proof. by destruct b. Qed.
Lemma mild_match {A B} (o : option A) (f : A -> tr B) m : (forall a, mild (f a)) -> mild m -> mild (match o with Some a => f a | None => m end).
Proof. by destruct o. Qed.
Lemma mild_catch {A} (m : tr A) f : mild m -> (forall e, mild (f e)) -> mild (try_catch m f).
Proof.
  intros Hm Hf t r t' H. unfold try_catch in H. destruct (m t) as [[a|e] t1] eqn:E; destruct (Hm _ _ _ E) as [He Hk]; [injection H as <- <-; by split|].
  destruct e; try (destruct (Hf _ _ _ _ H) as [He' Hk']; split; [done|by eapply mild_trans]). injection H as <- <-. by split.
Qed.
Lemma mild_current : mild current.
Proof. unfold current. apply mild_bind; [apply mild_get|]. intros t. destruct (tr_cipher t); [apply mild_ret|by apply mild_throw]. Qed.
End Mild.
Create HintDb mild.
#[export] Hint Resolve mild_here mild_ret mild_throw mild_require mild_get mild_event_step mild_new mild_current mild_inner : mild.
#[export] Hint Resolve tame_get tame_here tame_await tame_check tame_gate tame_pq tame_opened tame_confirmation tame_queue tame_chunks : mild.
#[export] Hint Extern 1 (_ <> out_of_rounds) => (intros; discriminate) : mild.
#[export] Hint Extern 1 (mild_event _) => exact I : mild.
Ltac mild := repeat (first [solve [auto with mild] | match goal with |- forall _, _ => intros ? end | apply mild_bind | apply mild_if | apply mild_catch | apply mild_match]).

(** ** One transfer *)

Section Life.
Context {C : LibCrypto} {HS : Sha512}.
Context (roomId peerId : list Z) (label : bytes) (chunksLen : Z) (chunkHashes merkleRoot hashHex : bytes) (transferId : list Z).
Context (t0 : Transfer).
Abbreviation n0 := (length (bufs t0)).

Definition has_key (t : Transfer) (k : nat) : Prop := exists c, tr_cipher t = Some c /\ ci_key (tc_cipher c) = k.
Definition has_root (t : Transfer) (k : nat) : Prop := exists c ctx, tr_cipher t = Some c /\ ci_context (tc_cipher c) = Some (k, ctx).
(** Of the keys stepped since [t0], all but the one in use are wiped, and so are
    the roots as long as no other channel was opened. *)
Record life (t : Transfer) : Prop := {
  li_grow : grow n0 (bufs t0) (bufs t);
  li_chunks k : k.1 <> transferId -> sn_newChunks (tr_sending t) !! k = sn_newChunks (tr_sending t0) !! k;
  li_current c : tr_cipher t = Some c -> cipher_in n0 (bufs t) (tc_cipher c);
  li_keys e k root : stepped e k root ∈ tr_events t -> (n0 <= k < length (bufs t))%nat /\ (zeroed k (bufs t) \/ has_key t k);
  li_roots : (forall e ch, channel_opened e ch ∉ tr_events t) -> forall e k root, stepped e k (Some root) ∈ tr_events t -> zeroed root (bufs t) \/ has_root t root }.
Definition rounds (t : Transfer) : nat := length (List.filter (fun e => match e with retransmit_counted => true | _ => false end) (tr_events t)).

Lemma mild_events t l e : Forall mild_event l -> match e with stepped _ _ _ => True | _ => False end -> e ∈ tr_events t ++ l -> e ∈ tr_events t.
Proof. intros Hl He [H|H]%elem_of_app; [done|]. rewrite Forall_forall in Hl. apply Hl in H. by destruct e. Qed.
Lemma life_mild t t' : life t -> mild_step transferId t t' -> life t'.
Proof.
  intros [A B D K R] [[M1 M2] M3 M4 (l & M5 & M6)]. assert (bufs t' = bufs t) as Hb by done. split.
  - by rewrite Hb.
  - intros k Hk. rewrite M2, B; done.
  - intros c. rewrite M3, Hb. apply D.
  - intros e k root H. unfold has_key. rewrite Hb, M3. rewrite M5 in H. apply mild_events in H; [|done..]. by eapply K.
  - intros Hno e k root H. unfold has_root. rewrite Hb, M3. rewrite M5 in H. apply mild_events in H; [|done..]. eapply R; [|exact H].
    intros e' ch Hin. apply (Hno e' ch). rewrite M5. apply elem_of_app. by left.
Qed.
Lemma mild_uncounted l : Forall mild_event l -> List.filter (fun e => match e with retransmit_counted => true | _ => false end) l = [].
Proof. induction 1 as [|e l He Hl IH]; [done|]. destruct e; solve [exact IH | destruct He]. Qed.
Lemma rounds_mild t t' : mild_step transferId t t' -> rounds t' = rounds t.
Proof.
  intros [_ _ _ (l & Hev & Hl)]. unfold rounds. rewrite Hev, List.filter_app, length_app.
  rewrite (mild_uncounted l) by done. cbn. lia.
Qed.

(** A step gives new buffers, or wipes them and throws. *)
Definition step_added (epc : nat) (c : Cipher) (t t' : Transfer) : Prop := exists l, bufs t' = bufs t ++ l /\
  cipher_in (length (bufs t)) (bufs t') c /\ others_kept transferId (set_buffers (fun _ => bufs t') (tr_sending t)) (tr_sending t') /\
  tr_cipher t' = tr_cipher t /\ tr_channel t' = tr_channel t /\
  exists l', Forall mild_event l' /\ tr_events t' = (tr_events t ++ l') ++ [stepped epc (ci_key c) (fst <$> ci_context c)].
Lemma here_run t r t' : inner here t = (r, t') -> r = Ok (sn_world (tr_sending t)) /\ t' = t.
Proof. destruct t. by intros [= <- <-]. Qed.
Lemma ratchetStep_spec epc t r t' : ratchetStep epc t = (r, t') ->
  match r with Err e => e <> out_of_rounds /\ mild_step transferId t t' | Ok c => step_added epc c t t' end.
Proof.
  intros H. unfold ratchetStep in H. apply tr_split in H as [(e & -> & H)|([] & t1 & H1 & H)].
  { apply (mild_inner transferId) in H as [He Hm]; [|apply tame_await]. split; [congruence|done]. }
  apply (mild_inner transferId) in H1 as [_ Hm1]; [|apply tame_await]. apply tr_split in H as [(e & -> & H)|(w & t2 & H1 & H)]; [by apply here_run in H as [? _]|].
  apply here_run in H1 as [[= ->] ->]. destruct (nt_step _) as [[[key header] ctx]|]; [|injection H as <- <-; by split].
  cbn in H. injection H as <- <-. destruct Hm1 as [[M1 M2] M3 M4 (l & M5 & M6)]. cbn in M1.
  assert (bufs t1 = bufs t) as Hb by exact M1. exists (key :: match ctx with Some c => [ctx_rootKey c] | None => [] end).
  unfold step_added, bufs in *. cbn [tr_sending tr_cipher tr_channel tr_events sn_buffers set_buffers sn_newChunks]. rewrite Hb. split_and!; try done.
  - split; cbn; rewrite length_app; cbn; [lia|]. destruct ctx; [|done]. cbn. intros ? ? [= <- <-]. lia.
  - split; [cbn; by rewrite Hb|]. exact M2.
  - exists l. split; [done|]. rewrite <- M5. by destruct ctx.
Qed.
Definition opens_none (t : Transfer) : Prop := forall e ch, channel_opened e ch ∉ tr_events t.
Lemma life_next t t' l' ev : life t -> grow n0 (bufs t) (bufs t') ->
  (forall k, k.1 <> transferId -> sn_newChunks (tr_sending t') !! k = sn_newChunks (tr_sending t) !! k) ->
  tr_events t' = (tr_events t ++ l') ++ ev -> Forall mild_event l' ->
  (forall c, tr_cipher t' = Some c -> cipher_in n0 (bufs t') (tc_cipher c)) ->
  (forall k, has_key t k -> zeroed k (bufs t') \/ has_key t' k) ->
  (opens_none t' -> forall k, has_root t k -> zeroed k (bufs t') \/ has_root t' k) ->
  (forall e k root, stepped e k root ∈ ev -> (n0 <= k < length (bufs t'))%nat /\ (zeroed k (bufs t') \/ has_key t' k) /\
     forall r, root = Some r -> zeroed r (bufs t') \/ has_root t' r) ->
  life t'.
Proof.
  intros [A B D K R] G Hch Hev Hl Hcur Hkeys Hroots Hnew. split; [by eapply grow_then| |done| |].
  - intros k Hk. rewrite Hch, B; done.
  - intros e k root H. rewrite Hev in H. apply elem_of_app in H as [H|H]; [|destruct (Hnew _ _ _ H) as (? & ? & _); done].
    apply mild_events in H; [|done..]. destruct (K _ _ _ H) as [Hk [Hz|Hz]]; destruct G as (G1 & _ & G2).
    + split; [lia|left; auto].
    + split; [lia|auto].
  - intros Hno e k root H. rewrite Hev in H. apply elem_of_app in H as [H|H]; [|destruct (Hnew _ _ _ H) as (_ & _ & Hr); by apply Hr].
    apply mild_events in H; [|done..]. destruct (R ltac:(intros e' ch Hin; apply (Hno e' ch); rewrite Hev, !elem_of_app; by left; left) _ _ _ H) as [Hz|Hz].
    + left. by apply G.
    + auto.
Qed.
(** A step whose buffers are dropped, or become those of the transfer. *)
Lemma added_grow epc c t t' : life t -> step_added epc c t t' -> cipher_in n0 (bufs t') c /\ grow n0 (bufs t) (bufs t').
Proof.
  intros [(A & _) _ _ _ _] (l & Hb & [H1 H2] & _). split; [|rewrite Hb; by apply grow_app].
  split; [lia|]. intros ? ? H. specialize (H2 _ _ H). lia.
Qed.
Lemma life_dropped epc c t t' : life t -> step_added epc c t t' -> life (with_buffers (wiped_cipher c (bufs t')) t').
Proof.
  intros Hl Hs. destruct (added_grow _ _ _ _ Hl Hs) as [Hin G]. destruct Hs as (l & Hb & _ & [_ Hk] & Hc & _ & l' & Hl' & Hev).
  pose proof (grow_wiped_cipher _ _ _ Hin) as Gw. destruct (wiped_cipher_zero _ _ _ Hin) as [Z1 Z2].
  eapply (life_next t); [done|by eapply grow_then|done|done|done| | | |].
  - cbn. rewrite Hc. intros c0 Hc0. destruct (li_current _ Hl _ Hc0) as [I1 I2]. destruct (grow_then _ _ _ _ G Gw) as (G1 & _ & _).
    cbn in G1. split; [lia|]. intros ? ? Hx. specialize (I2 _ _ Hx). lia.
  - intros k (c0 & Hc0 & <-). right. exists c0. cbn. by rewrite Hc.
  - intros _ k (c0 & ctx & Hc0 & Hx). right. exists c0, ctx. cbn. by rewrite Hc.
  - intros e k root Hx%list_elem_of_singleton. injection Hx as -> -> ->. split; [|split].
    + destruct Hin as [I1 _], Gw as (G1 & _). change (bufs (with_buffers ?b t')) with b. lia.
    + by left.
    + intros r Hr. left. destruct (ci_context c) as [[root ctx]|] eqn:Hx; [|done]. injection Hr as <-. by eapply Z2.
Qed.
Lemma life_taken epc c t t' b ch : life t -> step_added epc c t t' -> grow n0 (bufs t') b ->
  match tr_cipher t with Some c0 => zeroed (ci_key (tc_cipher c0)) b /\ ~ opens_none t' | None => True end ->
  life (MkTransfer (tr_sending (with_buffers b t')) ch (tr_channels t') (Some (MkTransferCipher epc c)) (tr_events t')).
Proof.
  intros Hl Hs Gb Hold. destruct (added_grow _ _ _ _ Hl Hs) as [Hin G]. destruct Hs as (l & Hb & _ & [_ Hk] & Hc & _ & l' & Hl' & Hev).
  assert (cipher_in n0 b c) as Hinb.
  { destruct Hin as [I1 I2], Gb as (G1 & _). split; [lia|]. intros ? ? Hx. specialize (I2 _ _ Hx). lia. }
  eapply (life_next t); [done|by eapply grow_then|done|done|done| | | |].
  - intros c0 [= <-]. exact Hinb.
  - intros k (c0 & Hc0 & <-). left. rewrite Hc0 in Hold. apply Hold.
  - intros Hno k (c0 & ctx & Hc0 & Hx). rewrite Hc0 in Hold. by destruct Hold.
  - intros e k root Hx%list_elem_of_singleton. injection Hx as -> -> ->. split; [|split].
    + apply Hinb.
    + right. by eexists.
    + intros r Hr. right. destruct (ci_context c) as [[root ctx]|] eqn:Hctx; [|done]. injection Hr as <-. eexists _, _. by split.
Qed.
Lemma rounds_added epc c t t' : step_added epc c t t' -> rounds t' = rounds t.
Proof.
  intros (l & _ & _ & _ & _ & _ & l' & Hl & Hev). unfold rounds. rewrite Hev, !List.filter_app, !length_app. cbn.
  rewrite (mild_uncounted l') by done. cbn. lia.
Qed.
Lemma added_cipher epc c t t' : step_added epc c t t' -> tr_cipher t' = tr_cipher t.
Proof. by intros (l & _ & _ & _ & H & _). Qed.
Lemma step_outcome epc t r t' : life t -> step_unless_aborted epc t = (r, t') ->
  match r with
  | Err e => e <> out_of_rounds /\ life t' /\ rounds t' = rounds t /\ tr_cipher t' = tr_cipher t
  | Ok c => step_added epc c t t'
  end.
Proof.
  intros Hl H. unfold step_unless_aborted in H. apply tr_split in H as [(e & -> & H)|(c & t1 & Hs & H)].
  { apply ratchetStep_spec in H as [He Hm]. split_and!; [done|by eapply life_mild|by apply rounds_mild|apply Hm]. }
  apply ratchetStep_spec in Hs. apply tr_split in H as [(e & -> & H)|(w & t2 & Hw & H)]; [by apply here_run in H as [? _]|].
  apply here_run in Hw as [[= ->] ->]. destruct (wd_aborted _); unfold mbind, M_bind in H; [rewrite wipe_cipher_run in H|]; injection H as <- <-; [|done].
  split_and!; [done|by eapply life_dropped|exact (rounds_added epc c t t1 Hs)|exact (added_cipher epc c t t1 Hs)].
Qed.

Lemma step_unless_aborted_ok epc t c t' : step_unless_aborted epc t = (Ok c, t') -> step_added epc c t t'.
Proof.
  intros H. unfold step_unless_aborted in H. apply tr_split in H as [(e & [=] & H)|(c' & t1 & Hs & H)]. apply ratchetStep_spec in Hs.
  apply tr_split in H as [(e & [=] & H)|(w & t2 & Hw & H)]. apply here_run in Hw as [_ ->].
  destruct (wd_aborted w); unfold mbind, M_bind in H; [rewrite wipe_cipher_run in H|]; [discriminate H|]. by injection H as <- <-.
Qed.

(** To another connection, or to a new channel on the same one. *)
Lemma opened_mild t t' : mild_step transferId t t' -> ~ opens_none t -> ~ opens_none t'.
Proof. intros [_ _ _ (l & Hev & _)] Ho Hno. apply Ho. intros e ch Hin. apply (Hno e ch). rewrite Hev. apply elem_of_app. by left. Qed.
Lemma bind_mild {A B} (m : tr A) (f : A -> tr B) t r t' (Q : result SendError B -> Transfer -> Prop) : mild transferId m -> (m ≫= f) t = (r, t') ->
  (forall e t1, e <> out_of_rounds -> mild_step transferId t t1 -> Q (Err e) t1) ->
  (forall a t1, m t = (Ok a, t1) -> mild_step transferId t t1 -> f a t1 = (r, t') -> Q r t') -> Q r t'.
Proof.
  intros Hm H He Hok. apply tr_split in H as [(e & -> & H)|(a & t1 & H1 & H)].
  - destruct (Hm _ _ _ H) as [Hne Hs]. apply He; [congruence|done].
  - destruct (Hm _ _ _ H1) as [_ Hs]. by eapply Hok.
Qed.
Lemma life_same c t ch : life t -> tr_cipher t = Some c -> ~ opens_none t ->
  life (MkTransfer (tr_sending t) ch (tr_channels t) (Some (MkTransferCipher (tc_epc c) (MkCipher (ci_key (tc_cipher c)) (ci_header (tc_cipher c)) None))) (tr_events t)).
Proof.
  intros Hl Hc Ho. apply (life_next t _ [] []); try done.
  - cbn. by rewrite !app_nil_r.
  - intros c0 [= <-]. destruct (li_current _ Hl _ Hc) as [I1 _]. by split.
  - intros k (c0 & Hc0 & <-). right. rewrite Hc in Hc0. injection Hc0 as <-. by eexists.
  - intros e k root Hin. by apply elem_of_nil in Hin.
Qed.
Ltac turn H t1 := eapply bind_mild; [|exact H|by eauto|]; [solve [auto with mild]|]; clear H; let a := fresh "a" in let Hm := fresh "Hm" in intros a t1 _ Hm H;
  match goal with
  | Hl : life ?t, Hr : rounds ?t = _, Hc : tr_cipher ?t = _, Ho : ~ opens_none ?t |- _ =>
      pose proof (life_mild _ _ Hl Hm) as Hl'; apply (opened_mild _ _ Hm) in Ho; rewrite <- (ms_cipher _ _ _ Hm) in Hc; apply (eq_trans (rounds_mild _ _ Hm)) in Hr; clear Hl; rename Hl' into Hl; clear Hm
  end.
Lemma bind_life c epc t r t' : life t -> tr_cipher t = Some c -> ~ opens_none t ->
  bindTransferCipherToConnection (MkTransferCipher (tc_epc c) (MkCipher (ci_key (tc_cipher c)) (ci_header (tc_cipher c)) None)) epc t = (r, t') ->
  r <> Err out_of_rounds /\ rounds t' = rounds t /\ tr_cipher t' = Some c /\
  match r with
  | Err _ => life t'
  | Ok c' => forall ch, life (MkTransfer (tr_sending t') ch (tr_channels t') (Some c') (tr_events t'))
  end.
Proof.
  intros Hl Hc Ho H. set (Q t (r : result SendError TransferCipher) t' := r <> Err out_of_rounds /\ rounds t' = rounds t /\ tr_cipher t' = Some c /\
    match r with Err _ => life t' | Ok c' => forall ch, life (MkTransfer (tr_sending t') ch (tr_channels t') (Some c') (tr_events t')) end).
  assert (rounds t = rounds t) as Hr by done. change (Q t r t'). assert (forall t1 e t2, life t1 -> rounds t1 = rounds t -> tr_cipher t1 = Some c -> e <> out_of_rounds -> mild_step transferId t1 t2 -> Q t (Err e) t2) as Herr.
  { intros t1 e t2 H1 H2 Hc1 He Hm. split_and!; [congruence|rewrite <- H2; by apply rounds_mild|by rewrite (ms_cipher _ _ _ Hm)|by eapply life_mild]. }
  unfold bindTransferCipherToConnection in H.
  turn H t1. case_bool_decide as He; [injection H as <- <-; split_and!; [done|done|done|]; intros ch; by apply life_same|].
  turn H t2. turn H t3. turn H t4. rename Hl into Hl4, Hr into Hr4, Hc into Hc4, Ho into Ho4.
  apply tr_split in H as [(e & -> & H)|(c' & t5 & Hs & H)].
  { apply step_outcome in H as (? & ? & ? & ?); [|done]. split_and!; [congruence|congruence|congruence|done]. }
  apply step_outcome in Hs; [|done]. unfold mbind, M_bind in H. rewrite wipe_cipher_run in H. cbn in H. injection H as <- <-.
  split_and!; [done|rewrite <- Hr4; exact (rounds_added _ _ _ _ Hs)|rewrite <- Hc4; exact (added_cipher _ _ _ _ Hs)|]. intros ch.
  destruct (li_current _ Hl4 _ Hc4) as [I1 _]. destruct (added_grow _ _ _ _ Hl4 Hs) as [_ G]. apply (life_taken epc c' t4 t5); [done|done|apply grow_wiped; lia|].
  rewrite Hc4. split; [apply wiped_zero; destruct G; lia|]. destruct Hs as (_ & _ & _ & _ & _ & _ & l' & _ & Hev). intros Hno. apply Ho4.
  intros e' ch' Hin. apply (Hno e' ch'). rewrite Hev, !elem_of_app. by left; left.
Qed.

(** A resumed channel is one that was opened. *)
Lemma mild_reopen epc deadline : mild transferId (reopen epc deadline).
Proof. unfold reopen, closeTransferChannel. mild. Qed.
Hint Resolve mild_reopen : mild.
Lemma mild_resume fuel deadline : mild transferId (resume_loop roomId peerId fuel deadline).
Proof. induction fuel as [|fuel IH]; cbn [resume_loop]; mild. Qed.
Hint Resolve mild_resume : mild.
Lemma mild_resumed timeoutMs : mild transferId (resumeChannel roomId peerId timeoutMs).
Proof. unfold resumeChannel. mild. Qed.
Hint Resolve mild_resumed : mild.
Lemma reopen_opened epc deadline t x t' : reopen epc deadline t = (Ok (Some x), t') -> ~ opens_none t'.
Proof.
  unfold reopen, try_catch. match goal with |- context [match ?m t with _ => _ end] => set (body := m) end. intros H.
  destruct (body t) as [[o|e] t1] eqn:E; [|by destruct e]. injection H as -> ->. subst body.
  repeat (apply tr_split in E as [(e & ? & _)|(? & ? & ? & E)]; [discriminate|]).
  destruct x14; [|by repeat (apply tr_split in E as [(e & ? & _)|(? & ? & ? & E)]; [discriminate|])].
  injection E as _ <-. assert (mild_step transferId x13 x15) as Hm by (eapply mild_inner; [|exact H6]; apply tame_opened).
  apply here_run in H5 as [_ ->]. apply (opened_mild _ _ Hm). injection H4 as _ <-. intros Hno. apply (Hno epc x8), elem_of_app. right. by left.
Qed.
Lemma resume_opened fuel deadline : forall t x t', resume_loop roomId peerId fuel deadline t = (Ok (Some x), t') -> ~ opens_none t'.
Proof.
  induction fuel as [|fuel IH]; intros t x t' H; cbn [resume_loop] in H; [done|].
  apply tr_split in H as [(e & [=] & _)|(w & t1 & _ & H)]. destruct (wd_now w <? deadline); [|done].
  apply tr_split in H as [(e & [=] & _)|(? & t2 & _ & H)]. destruct (List.find _ _) as [epc|].
  - apply tr_split in H as [(e & [=] & _)|(o & t3 & Hr & H)]. destruct o as [y|]; [|by eapply IH].
    injection H as -> <-. by eapply reopen_opened.
  - apply tr_split in H as [(e & [=] & _)|(? & t3 & _ & H)]. apply tr_split in H as [(e & [=] & _)|(? & t4 & _ & H)]. by eapply IH.
Qed.

(** The turns of the loop. *)
Definition alive (t : Transfer) : Prop := life t /\ exists c, tr_cipher t = Some c.
Lemma alive_mild t t' : alive t -> mild_step transferId t t' -> alive t'.
Proof. intros [Hl [c Hc]] Hm. split; [by eapply life_mild|]. exists c. by rewrite (ms_cipher _ _ _ Hm). Qed.
Definition goes (k : nat) {A} (t : Transfer) (r : result SendError A) (t' : Transfer) : Prop :=
  r <> Err out_of_rounds /\ alive t' /\ (rounds t' <= rounds t + k)%nat.
Lemma goes_mild {A} k t t1 (r : result SendError A) t' : mild_step transferId t t1 -> goes k t1 r t' -> goes k t r t'.
Proof. intros Hm (H1 & H2 & H3). split_and!; [done|done|]. by rewrite <- (rounds_mild _ _ Hm). Qed.
Lemma goes_error {A} k t e t' : alive t -> e <> out_of_rounds -> mild_step transferId t t' -> goes k t (@Err SendError A e) t'.
Proof. intros Ha He Hm. split_and!; [congruence|by eapply alive_mild|]. rewrite (rounds_mild _ _ Hm). lia. Qed.
Lemma goes_bind {A B} k (m : tr A) (f : A -> tr B) t r t' : alive t -> mild transferId m -> (m ≫= f) t = (r, t') ->
  (forall a t1, m t = (Ok a, t1) -> alive t1 -> f a t1 = (r, t') -> goes k t1 r t') -> goes k t r t'.
Proof.
  intros Ha Hm H Hok. eapply (bind_mild m f t r t' (fun r t' => goes k t r t')); [done|exact H| |].
  - intros e t1 He Hs. by apply goes_error.
  - intros a t1 H1 Hs H2. eapply goes_mild; [exact Hs|]. eapply Hok; [done|by eapply alive_mild|done].
Qed.
Lemma current_run t c : tr_cipher t = Some c -> current t = (Ok c, t).
Proof. intros Hc. unfold current, mbind, M_bind, get_this. by rewrite Hc. Qed.
Lemma current_bind {A} (f : TransferCipher -> tr A) t x c : tr_cipher t = Some c -> (current ≫= f) t = x -> f c t = x.
Proof. intros Hc. unfold mbind, M_bind. by rewrite (current_run _ _ Hc). Qed.
Definition counted (t : Transfer) : Transfer :=
  MkTransfer (tr_sending t) (tr_channel t) (tr_channels t) (tr_cipher t) (tr_events t ++ [retransmit_counted]).
Lemma counted_alive t : alive t -> alive (counted t).
Proof.
  intros [Hl [c Hc]]. split; [|by exists c]. apply (life_next t _ [] [retransmit_counted]); try done.
  - cbn. by rewrite app_nil_r.
  - apply (li_current _ Hl).
  - auto.
  - auto.
  - intros e k root Hx%list_elem_of_singleton. discriminate Hx.
Qed.
Lemma counted_rounds t : rounds (counted t) = S (rounds t).
Proof. unfold rounds, counted. cbn. rewrite List.filter_app, length_app. cbn. lia. Qed.
Lemma resume_turn_goes t r t' : alive t -> resume_turn roomId peerId t = (r, t') -> goes 1 t r t'.
Proof.
  intros Ha H. unfold resume_turn in H. eapply goes_bind; [done| |exact H|]; [auto with mild|]. clear H. intros o t1 Ho Ha1 H.
  destruct o as [[epc ch]|]; [|injection H as <- <-; split_and!; [done|done|lia]].
  assert (~ opens_none t1) as Hopen.
  { unfold resumeChannel in Ho. apply tr_split in Ho as [(e & [=] & _)|(w & t2 & _ & Ho)].
    apply tr_split in Ho as [(e & [=] & _)|(? & t3 & _ & Ho)]. by eapply resume_opened. }
  destruct Ha1 as [Hl1 [c Hc]]. apply current_bind with (c := c) in H; [|done].
  apply tr_split in H as [(e & -> & H)|(c' & t2 & Hb & H)].
  - apply bind_life in H as (H1 & H2 & H3 & H4); [|done..]. split_and!; [congruence|by split; [|exists c]|lia].
  - apply bind_life in Hb as (_ & H2 & _ & H4); [|done..]. injection H as <- <-. split_and!; [done| |].
    + apply (counted_alive (MkTransfer (tr_sending t2) ch (tr_channels t2) (Some c') (tr_events t2))). by split; [|exists c'].
    + etrans; [apply Nat.eq_le_incl, (counted_rounds (MkTransfer (tr_sending t2) ch (tr_channels t2) (Some c') (tr_events t2)))|].
      rewrite <- H2. unfold rounds. cbn. lia.
Qed.
(** What a confirmed transfer ends with. *)
Definition confirmed (t : Transfer) : Prop := wd_complete (sn_world (tr_sending t)) = true /\ wd_aborted (sn_world (tr_sending t)) = false.
Lemma completion_true fuel deadline : forall s s', completion_loop fuel deadline s = (Ok true, s') -> wd_complete (sn_world s') = true /\ wd_aborted (sn_world s') = false.
Proof.
  induction fuel as [|fuel IH]; intros s s' H; cbn [completion_loop] in H; [done|].
  apply M_bind_split in H as [(e & [=] & _)|(w & s1 & [= <- <-] & H)]. destruct (_ && _ && _).
  - apply M_bind_split in H as [(e & [=] & _)|(? & s2 & _ & H)]. by eapply IH.
  - injection H as Hb <-. apply andb_true_iff in Hb as [Ha%negb_true_iff Hc]. done.
Qed.
Lemma inner_run {A} (m : sn A) t r t' : inner m t = (r, t') -> m (tr_sending t) = (r, tr_sending t').
Proof. unfold inner. destruct (m (tr_sending t)). by intros [= <- <-]. Qed.
Lemma confirmation_true timeoutMs t t' : inner (waitForConfirmation timeoutMs) t = (Ok true, t') -> confirmed t'.
Proof.
  intros H%inner_run. unfold waitForConfirmation in H. apply M_bind_split in H as [(e & [=] & _)|(w & s1 & [= <- <-] & H)].
  apply M_bind_split in H as [(e & [=] & _)|(s & s2 & [= <- <-] & H)]. by apply completion_true in H.
Qed.
Lemma mild_pass acked : mild transferId (send_pass label chunksLen chunkHashes merkleRoot hashHex transferId acked).
Proof. unfold send_pass. mild. Qed.
Hint Resolve mild_pass : mild.
Abbreviation loop := (reconcile_loop roomId peerId label chunksLen chunkHashes merkleRoot hashHex transferId).
Definition ends {B} (v : B) (k : nat) (t : Transfer) (r : result SendError B) (t' : Transfer) : Prop := goes k t r t' /\ (r = Ok v -> confirmed t').
Lemma ends_after {A B} (v : B) k (m : tr A) f t r t' : alive t -> mild transferId m -> (m ≫= f) t = (r, t') ->
  (forall a t1, m t = (Ok a, t1) -> alive t1 -> f a t1 = (r, t') -> ends v k t1 r t') -> ends v k t r t'.
Proof.
  intros Ha Hm H Hok. eapply (bind_mild m f t r t' (fun r t' => ends v k t r t')); [done|exact H| |].
  - intros e t1 He Hs. split; [by apply goes_error|done].
  - intros a t1 H1 Hs H2. destruct (Hok a t1 H1 ltac:(by eapply alive_mild) H2) as [Hg Hc]. split; [by eapply goes_mild|done].
Qed.
Lemma ends_now k t b : alive t -> (b = true -> confirmed t) -> ends true k t (Ok b) t.
Proof. intros Ha Hb. split; [split_and!; [done|done|lia]|]. intros [= ->]. by apply Hb. Qed.
Lemma ends_more {B} (v : B) k k' t t1 r t' : (rounds t1 + k <= rounds t + k')%nat -> ends v k t1 r t' -> ends v k' t r t'.
Proof. intros Hk [(H1 & H2 & H3) H4]. split; [split_and!; [done|done|lia]|done]. Qed.
Lemma check_run t t' u : inner throwIfAborted t = (Ok u, t') -> t' = t.
Proof.
  unfold inner, throwIfAborted, here, mbind, M_bind, mrequire, lift. destruct t, (negb _); cbn; [by intros [= _ <-]|done].
Qed.
Lemma loop_goes fuel : forall retries resumes t r t', alive t -> 0 <= retries <= 5 -> 0 <= resumes <= 3 ->
  (3 - resumes) * 5 + (5 - retries) <= Z.of_nat fuel -> loop fuel retries resumes t = (r, t') -> ends true fuel t r t'.
Proof.
  induction fuel as [|fuel IH]; intros retries resumes t r t' Ha Hr Hs Hf H; cbn [reconcile_loop] in H;
    change MAX_RETRANSMITS with 5 in H; change MAX_RESUME_ATTEMPTS with 3 in H;
    (destruct (Z.ltb_spec retries 5) as [Hlt|Hge]; cbn [negb] in H; [|injection H as <- <-; by apply ends_now]); [lia|].
  eapply ends_after; [done| |exact H|]; [auto with mild|]. clear H. intros b t1 Hb Ha1 H.
  eapply ends_after; [done| |exact H|]; [auto with mild|]. clear H. intros [] t2 Ht2 Ha2 H. apply check_run in Ht2 as ->.
  destruct b.
  { injection H as <- <-. apply ends_now; [done|]. intros _. by apply confirmation_true in Hb. }
  eapply ends_after; [done| |exact H|]; [auto with mild|]. clear H Hb. intros w t2 _ Ha3 H.
  cbv beta in H. destruct (bool_decide (wd_ready w = closed) || _).
  - eapply ends_after; [done| |exact H|]; [auto with mild|]. clear H. intros c t3 _ Ha4 H.
    eapply ends_after; [done| |exact H|]; [auto with mild|]. clear H. intros [] t4 _ Ha5 H.
    destruct (Z.leb_spec 3 resumes); [injection H as <- <-; by apply ends_now|].
    apply tr_split in H as [(e & -> & H)|(goes_on & t5 & Ht & H)].
    + apply resume_turn_goes in H as (H1 & H2 & H3); [|done]. split; [split_and!; [congruence|done|lia]|done].
    + apply resume_turn_goes in Ht as (_ & Ha6 & Hrd); [|done]. destruct goes_on; [|injection H as <- <-; split; [split_and!; [done|done|lia]|done]].
      apply IH in H; [|done|lia..]. eapply ends_more; [|exact H]. lia.
  - eapply ends_after; [done| |exact H|]; [auto with mild|]. clear H. intros [] t3 _ Ha4 H.
    unfold mbind, M_bind at 1, event, modify_this in H. apply IH in H; [|by apply (counted_alive t3)|lia..].
    eapply ends_more; [|exact H]. pose proof (counted_rounds t3) as Hc. unfold counted in Hc. lia.
Qed.
Abbreviation run := (runTransfer roomId peerId label chunksLen chunkHashes merkleRoot hashHex transferId).
Lemma run_goes t r t' : alive t -> run t = (r, t') -> ends tt 20 t r t'.
Proof.
  intros Ha H. unfold runTransfer in H.
  eapply ends_after; [done| |exact H|]; [auto with mild|]. clear H. intros b t1 _ Ha1 H.
  eapply ends_after; [done| |exact H|]; [auto with mild|]. clear H. intros a2 t2 _ Ha2 H.
  eapply ends_after; [done| |exact H|]; [auto with mild|]. clear H. intros a3 t3 _ Ha3 H.
  eapply ends_after; [done| |exact H|]; [auto with mild|]. clear H. intros a4 t4 _ Ha4 H.
  apply tr_split in H as [(e & -> & H)|(c & t5 & Hl & H)].
  - apply loop_goes in H as [(H1 & H2) _]; [|done|lia|lia|reflexivity]. split; [split_and!; [congruence|apply H2..]|done].
  - apply loop_goes in Hl as [(_ & H2 & H3) H4]; [|done|lia|lia|reflexivity]. destruct c; injection H as <- <-; [|split; [split_and!|]; done].
    split; [split_and!; done|]. intros _. by apply H4.
Qed.

(** Before there is a key. *)
Create HintDb silent.
Definition silent {A} (m : tr A) : Prop := forall t r t', m t = (r, t') -> sn_sent (tr_sending t') = sn_sent (tr_sending t) /\
  forall ch, channel_closed ch ∈ tr_events t' -> channel_closed ch ∈ tr_events t.
Lemma silent_bind {A B} (m : tr A) (f : A -> tr B) : silent m -> (forall a, silent (f a)) -> silent (m ≫= f).
Proof.
  intros Hm Hf t r t' H. apply tr_split in H as [(e & _ & H)|(a & t1 & H1 & H)]; [by eapply Hm|].
  apply Hm in H1 as [A1 B1]. apply Hf in H as [A2 B2]. split; [congruence|auto].
Qed.
Lemma silent_inner {A} (m : sn A) : quiet m -> silent (inner m).
Proof. intros Hm t r t' H. unfold inner in H. destruct (m (tr_sending t)) as [x s] eqn:E. injection H as <- <-. apply Hm in E as (_ & _ & E & _). by split. Qed.
Lemma silent_event e : (forall ch, e <> channel_closed ch) -> silent (event e).
Proof. intros He t r t' [= <- <-]. split; [done|]. cbn. intros ch [H|H%list_elem_of_singleton]%elem_of_app; [done|]. by destruct (He ch). Qed.
Lemma silent_require b e : silent (mrequire b e).
Proof. by intros t r t' [= <- <-]. Qed.
Lemma silent_throw {A} e : silent (mthrow e : tr A).
Proof. by intros t r t' [= <- <-]. Qed.
Lemma silent_ret {A} (a : A) : silent (mret a).
Proof. by intros t r t' [= <- <-]. Qed.
Lemma silent_get : silent get_this.
Proof. by intros t r t' [= <- <-]. Qed.
Lemma silent_buffers f : silent (inner (modify_this (set_buffers f))).
Proof. by intros t r t' [= <- <-]. Qed.
Lemma silent_wipe c : silent (inner (wipe_cipher c)).
Proof. intros t r t' H. rewrite wipe_cipher_run in H. by injection H as <- <-. Qed.
Lemma silent_catch {A} (m : tr A) f : silent m -> (forall e, silent (f e)) -> silent (try_catch m f).
Proof.
  intros Hm Hf t r t' H. unfold try_catch in H. destruct (m t) as [[a|e] t1] eqn:E; apply Hm in E as [A1 B1]; [by injection H as _ <-|].
  destruct e; try (apply Hf in H as [A2 B2]; split; [congruence|auto]). by injection H as _ <-.
Qed.
Lemma quiet_gate : quiet waitForGate.
Proof. unfold waitForGate. quiet. destruct (nt_gate _); auto with quiet. Qed.
Lemma quiet_admission fuel epc deadline : quiet (admission_loop fuel epc deadline).
Proof. induction fuel as [|fuel IH]; cbn [admission_loop]; quiet. Qed.
Lemma quiet_pq epc : quiet (waitForPqTrafficAdmission epc).
Proof. unfold waitForPqTrafficAdmission. quiet. destruct (cn_pqHealingState _); [apply quiet_admission|apply quiet_ret]. Qed.
Lemma quiet_queue : quiet delete_queue.
Proof. unfold delete_queue. quiet. Qed.
Lemma silent_if {A} (b : bool) (m1 m2 : tr A) : silent m1 -> silent m2 -> silent (if b then m1 else m2).
Proof. by destruct b. Qed.
Hint Resolve silent_inner silent_event silent_require silent_throw silent_ret silent_get silent_buffers silent_wipe quiet_here quiet_await quiet_check
  quiet_gate quiet_pq quiet_queue : silent.
Ltac silent := repeat (first [solve [auto with silent] | match goal with |- forall _, _ => intros ? end | apply silent_bind | apply silent_if | apply silent_catch]).
Lemma silent_stepping epc : silent (step_unless_aborted epc).
Proof. unfold step_unless_aborted, ratchetStep. silent. destruct (nt_step _) as [[[? ?] ?]|]; silent. Qed.
Hint Resolve silent_stepping : silent.
Lemma silent_prepare epc : silent (prepare_send epc).
Proof. unfold prepare_send, clear_edge. silent. Qed.
Definition prepared epc (t : Transfer) (r : result SendError Cipher) (t' : Transfer) : Prop :=
  match r with
  | Err e => e <> out_of_rounds /\ life t' /\ rounds t' = rounds t /\ tr_cipher t' = tr_cipher t
  | Ok c => exists t1, mild_step transferId t t1 /\ step_added epc c t1 t'
  end.
Lemma prepare_bind {A} epc (m : tr A) f t r t' : life t -> mild transferId m -> (m ≫= f) t = (r, t') ->
  (forall a t1, life t1 -> f a t1 = (r, t') -> prepared epc t1 r t') -> prepared epc t r t'.
Proof.
  intros Hl Hm H Hok. eapply (bind_mild m f t r t' (fun r t' => prepared epc t r t')); [done|exact H| |].
  - intros e t1 He Hs. split_and!; [done|by eapply life_mild|by apply rounds_mild|apply Hs].
  - intros a t1 _ Hs H2. pose proof (Hok a t1 ltac:(by eapply life_mild) H2) as Hp. destruct r; cbn in *.
    + destruct Hp as (t2 & H3 & H4). exists t2. split; [by eapply mild_trans|done].
    + destruct Hp as (H3 & H4 & H5 & H6). split_and!; [done|done|rewrite H5; by apply rounds_mild|rewrite H6; apply Hs].
Qed.
Lemma prepare_life epc t r t' : life t -> prepare_send epc t = (r, t') -> prepared epc t r t'.
Proof.
  intros Hl H. unfold prepare_send, clear_edge in H.
  do 8 (eapply prepare_bind; [done| |exact H|]; [solve [mild]|]; clear dependent t; intros ? t Hl H).
  cbv beta in H. unfold try_catch in H. destruct (step_unless_aborted epc t) as [[c|e] t1] eqn:E; apply step_outcome in E; try done.
  - injection H as <- <-. exists t. split; [apply mild_refl|done].
  - destruct E as (H1 & H2 & H3 & H4). destruct e; injection H as <- <-; by split_and!.
Qed.
Lemma all_wiped t : life t -> (forall k, has_key t k -> zeroed k (bufs t)) -> (forall k, has_root t k -> zeroed k (bufs t)) ->
  forall e k pq, stepped e k pq ∈ tr_events t -> zeroed k (bufs t) /\ (opens_none t -> forall r, pq = Some r -> zeroed r (bufs t)).
Proof.
  intros Hl Hk Hr e k pq Hin. split.
  - destruct (li_keys _ Hl _ _ _ Hin) as [_ [H|H]]; auto.
  - intros Hno r ->. destruct (li_roots _ Hl Hno _ _ _ Hin) as [H|H]; auto.
Qed.
(** The two finalizers: [t'] is what they leave of [t]. *)
Definition closed_state (c : TransferCipher) (t : Transfer) : Transfer :=
  MkTransfer (set_buffers (fun _ => wiped_cipher (tc_cipher c) (bufs t)) (tr_sending t)) (tr_channel t) (tr_channels t) (tr_cipher t)
    ((tr_events t ++ [channel_closed (tr_channel t)]) ++ [edge_cleared]).
Lemma life_closed t c : life t -> tr_cipher t = Some c -> life (closed_state c t).
Proof.
  intros Hl Hc. pose proof (li_current _ Hl _ Hc) as Hin. pose proof (grow_wiped_cipher _ _ _ Hin) as G.
  apply (life_next t _ [channel_closed (tr_channel t); edge_cleared] []); try done.
  - cbn. by rewrite app_nil_r, <- app_assoc.
  - by repeat constructor.
  - intros c' Hc'. destruct (li_current _ Hl _ Hc') as [I1 I2], G as (G1 & _).
    change (bufs (closed_state c t)) with (wiped_cipher (tc_cipher c) (bufs t)). split; [lia|]. intros ? ? Hx. specialize (I2 _ _ Hx). lia.
  - auto.
  - auto.
  - intros e k root H. by apply elem_of_nil in H.
Qed.
Lemma closed_wiped t c : life t -> tr_cipher t = Some c -> forall k, has_key (closed_state c t) k \/ has_root (closed_state c t) k -> zeroed k (bufs (closed_state c t)).
Proof.
  intros Hl Hc. destruct (wiped_cipher_zero _ _ _ (li_current _ Hl _ Hc)) as [Z1 Z2]. intros k [(c' & Hc' & <-)|(c' & ctx & Hc' & Hx)];
    cbn in Hc'; rewrite Hc in Hc'; injection Hc' as <-; [exact Z1|by eapply Z2].
Qed.
Lemma closed_rounds t c : rounds (closed_state c t) = rounds t.
Proof. unfold rounds, closed_state. cbn. rewrite !List.filter_app, !length_app. cbn. lia. Qed.
Lemma with_buffers_same t : with_buffers (bufs t) t = t.
Proof. by destruct t as [[] ? ? ? ?]. Qed.
Lemma finalizer_run t c : tr_cipher t = Some c ->
  (c ← current; inner (wipe_cipher (tc_cipher c));; clear_edge) (MkTransfer (tr_sending t) (tr_channel t) (tr_channels t) (tr_cipher t)
     (tr_events t ++ [channel_closed (tr_channel t)])) = (Ok tt, closed_state c t).
Proof. intros Hc. unfold mbind at 1, M_bind at 1. rewrite (current_run _ c) by done. unfold mbind, M_bind. by rewrite wipe_cipher_run. Qed.
Lemma closing_run {A} (m : tr A) t r t' : (forall r t1, m t = (r, t1) -> exists c, tr_cipher t1 = Some c) ->
  try_finally (runWithTerminalChannelClose m) (c ← current; inner (wipe_cipher (tc_cipher c));; clear_edge) t = (r, t') -> r <> Err still_waiting ->
  exists t1 c, m t = (r, t1) /\ tr_cipher t1 = Some c /\ t' = closed_state c t1.
Proof.
  intros Hm H Hw. destruct (m t) as [x t1] eqn:E. destruct (Hm _ _ eq_refl) as [c Hc].
  unfold try_finally at 1, runWithTerminalChannelClose, try_finally in H. rewrite E in H. pose proof (finalizer_run t1 c Hc) as Hf.
  exists t1, c. destruct x as [a|e]; [|destruct e]; try (injection H as <- <-; congruence);
    cbv beta iota delta [closeTransferChannel event modify_this get_this] in H; cbn [mbind M_bind] in H; unfold mbind at 1, M_bind at 1 in H;
    rewrite Hf in H; by injection H as <- <-.
Qed.
End Life.

(** C13. A send cleans up after itself.  When [sendWithReconcile] ends - it may still
    be waiting - it was not cut off, and: it returns normally only when the edge
    says that the receiver has the message and the transfer is not aborted; it
    has counted at most 20 rounds; every message key it was given is wiped, and
    every PQ root as long as it opened no other channel; the buffers and staged
    chunks that are not its own are untouched.  If it had a key, its channel is
    closed and the acknowledgements of the edge are dropped last; if not, it threw
    before any frame was sent - and then nothing has closed its channel. *)
Theorem send_cleans_up {C : LibCrypto} {HS : Sha512} room peer label n chunkHashes root hashHex tid epc t r t' :
  tr_events t = [] -> tr_cipher t = None ->
  sendWithReconcile room peer label n chunkHashes root hashHex tid epc t = (r, t') -> r <> Err still_waiting ->
  r <> Err out_of_rounds /\ (r = Ok tt -> confirmed t') /\ (rounds t' <= 20)%nat /\
  (forall e k pq, stepped e k pq ∈ tr_events t' -> zeroed k (bufs t') /\ (opens_none t' -> forall r, pq = Some r -> zeroed r (bufs t'))) /\
  (forall k, (k < length (bufs t))%nat -> bufs t' !! k = bufs t !! k) /\
  (forall k, k.1 <> tid -> sn_newChunks (tr_sending t') !! k = sn_newChunks (tr_sending t) !! k) /\
  match tr_cipher t' with
  | Some _ => exists l, tr_events t' = l ++ [channel_closed (tr_channel t'); edge_cleared]
  | None => r <> Ok tt /\ sn_sent (tr_sending t') = sn_sent (tr_sending t) /\ forall ch, channel_closed ch ∉ tr_events t'
  end.
Proof.
  intros Hev Hci H Hw. assert (life tid t t) as Hl0.
  { split; [apply grow_same|done|by rewrite Hci|..]; rewrite Hev; [intros e k pq Hin|intros _ e k pq Hin]; by apply elem_of_nil in Hin. }
  assert (rounds t = 0%nat) as Hr0 by (unfold rounds; by rewrite Hev).
  unfold sendWithReconcile in H. apply tr_split in H as [(e & -> & H)|(c & t1 & Hp & H)].
  - destruct (silent_prepare _ _ _ _ H) as [Hs Hcl]. apply (prepare_life tid t) in H as (H1 & H2 & H3 & H4); [|done]. rewrite H4, Hci.
    split_and!; [congruence|done|lia| |apply H2|apply H2|done|done|intros ch Hin; apply Hcl in Hin; rewrite Hev in Hin; by apply elem_of_nil in Hin].
    eapply all_wiped; [exact H2|..]; unfold has_key, has_root; rewrite H4, Hci; [by intros k (? & ? & _)|by intros k (? & ? & ? & _)].
  - apply (prepare_life tid t) in Hp as (t2 & Hm & Hs); [|done]. pose proof (life_mild _ _ _ _ Hl0 Hm) as Hl2.
    pose proof (life_taken tid t epc c t2 t1 (bufs t1) (tr_channel t1) Hl2 Hs (grow_same _ _)) as Ha.
    rewrite (ms_cipher _ _ _ Hm), Hci, with_buffers_same in Ha. specialize (Ha I).
    apply closing_run in H as (t4 & c4 & Hrun & Hc4 & ->); [| |done].
    2:{ intros r' t5 E. apply (run_goes _ _ _ _ _ _ _ _ t) in E as [(_ & [_ Hx] & _) _]; [exact Hx|]. by split; [|eexists]. }
    apply (run_goes _ _ _ _ _ _ _ _ t) in Hrun as [(H1 & [H2 _] & H3) H4]; [|by split; [|eexists]].
    change (rounds t4 <= rounds t1 + 20)%nat in H3. rewrite (rounds_added _ _ _ _ _ Hs), (rounds_mild _ _ _ Hm), Hr0 in H3.
    pose proof (life_closed _ _ _ _ H2 Hc4) as Hl4. split_and!; [done|exact H4|rewrite closed_rounds; lia| |apply Hl4|apply Hl4|].
    + eapply all_wiped; [exact Hl4|..]; intros k Hk; eapply closed_wiped; eauto.
    + cbn [closed_state tr_cipher]. rewrite Hc4. eexists. cbn. by rewrite <- app_assoc.
Qed.

(** ** What a resumed transfer loses *)

Lemma resumed_same room peer ms t o t1 : resumeChannel room peer ms t = (Ok o, t1) -> bufs t1 = bufs t /\ tr_cipher t1 = tr_cipher t.
Proof. intros H. apply (mild_resumed room peer []) in H as [_ [[H _] H2 _ _]]. by split. Qed.
Lemma tame_buffers {A} tid (m : sn A) t r t' : tame tid m -> inner m t = (r, t') -> bufs t' = bufs t.
Proof. intros Hm H%inner_run. apply Hm in H as [_ [H _]]. exact H. Qed.
(** C19. A transfer that resumes loses the PQ context of its key.  When its channel died
    and a turn of the loop has opened another, the message key and its header go
    on without the context if the connection is the same - chunks sealed from
    then on carry epoch 0 and no PQ root -, and in no case is the root of the
    context the transfer owned wiped. *)
Theorem resume_drops_context room peer t c root ctx t' :
  tr_cipher t = Some c -> ci_context (tc_cipher c) = Some (root, ctx) -> root <> ci_key (tc_cipher c) -> (root < length (bufs t))%nat ->
  resume_turn room peer t = (Ok true, t') ->
  bufs t' !! root = bufs t !! root /\
  exists c', tr_cipher t' = Some c' /\
    (tc_epc c' = tc_epc c -> tc_cipher c' = MkCipher (ci_key (tc_cipher c)) (ci_header (tc_cipher c)) None).
Proof.
  intros Hc Hctx Hne Hlen H. unfold resume_turn in H. apply tr_split in H as [(e & [=] & _)|(o & t1 & Hr & H)].
  destruct o as [[epc ch]|]; [|discriminate H]. apply resumed_same in Hr as [Hb Hc1]. rewrite <- Hc1 in Hc. apply (current_bind _ _ _ c) in H; [|done].
  apply tr_split in H as [(e & [=] & _)|(c' & t2 & Hbind & H)]. injection H as <-. cbn [tr_cipher]. change (bufs (MkTransfer (tr_sending t2) _ _ _ _)) with (bufs t2).
  rewrite <- Hb in *. clear Hb Hc1 t. unfold bindTransferCipherToConnection in Hbind.
  apply tr_split in Hbind as [(e & [=] & _)|([] & t3 & Hck & Hbind)]. apply check_run in Hck as ->. cbn [tc_epc tc_cipher] in Hbind.
  case_bool_decide as Hepc; [injection Hbind as <- <-; split; [done|]; by eexists|].
  apply tr_split in Hbind as [(e & [=] & _)|([] & t3 & Hgate & Hbind)]. apply (tame_buffers []) in Hgate; [|apply tame_gate].
  apply tr_split in Hbind as [(e & [=] & _)|(w & t4 & Hw & Hbind)]. apply here_run in Hw as [_ ->].
  apply tr_split in Hbind as [(e & [=] & _)|([] & t4 & Hreq & Hbind)]. apply mrequire_ok in Hreq as [_ ->].
  apply tr_split in Hbind as [(e & [=] & _)|(c2 & t5 & Hs & Hbind)]. unfold mbind, M_bind in Hbind. rewrite wipe_cipher_run in Hbind.
  cbn in Hbind. injection Hbind as <- <-. split; [|eexists; split; [done|]; intros E; by destruct Hepc].
  unfold bufs, with_buffers, wiped_cipher. cbn. unfold wiped. rewrite list_lookup_alter_ne by done.
  destruct (step_unless_aborted_ok [] _ _ _ _ Hs) as (l & Hl & _). unfold bufs in *. by rewrite Hl, lookup_app_l, Hgate by (rewrite Hgate; done).
Qed.
