(* ===== verification/SendPeers.v ===== *)
(** * To all peers of a channel ([src/src/handlers/handleSendMessage.ts])

    The fan-out of a message to its peers, [runPeerSendFanout] for immediate rooms
    and [sendScheduled] for rooms with scheduled cover, and [handleSendMessage]
    around them: it claims the transfer ([Acks]), cuts the message ([Staging]),
    sends it, and cleans up; at each of its awaits ([SendPoint]) others act on the
    registry of transfers and on the stores. *)

From Stdlib Require Import String.
From stdpp Require Import gmap.
From S2P Require Import Prelude Bytes Constants Crypto Ratchet WireFrames PqMessageKey Merkle ChunkCrypto ChannelLabel Metadata.
From S2P Require Import RoomInvite FrameQueue MessageTypes ReceiveStore ReceiveLayout ReceiveFile Receive Staging Acks SendPass Sending.
Local Open Scope Z_scope.
Local Open Scope list_scope.

Definition crypto_sign_PUBLICKEYBYTES : Z := 32.
Definition SCHEDULED_DELIVERY_TIMEOUT_MS : Z := 120000.

(** ** Outcomes *)

Record PeerSendTarget := MkTarget { pt_peerId : list Z; pt_epc : option nat }.
Inductive SkipReason := not_connected | unauthenticated | skipped_cancelled.
Inductive DeliveryStatus (E : Type) :=
  | delivered | failed_setup (reason : E) | failed_transfer (reason : E) | skipped (reason : SkipReason).
Arguments delivered {E}.
Arguments failed_setup {E} _.
Arguments failed_transfer {E} _.
Arguments skipped {E} _.
(** [PeerDeliveryOutcome]: the peer and the rest. *)
Abbreviation PeerDeliveryOutcome E := (list Z * DeliveryStatus E)%type.
Record PeerSendFanoutResult (E : Type) := MkFanout { fo_outcomes : list (PeerDeliveryOutcome E); fo_startedTransfers : Z }.
Arguments MkFanout {E} _ _.
Arguments fo_outcomes {E} _.
Arguments fo_startedTransfers {E} _.

(** ** [runPeerSendFanout] *)

Section Fanout.
Context {St Chan E P : Type}.
(** The callbacks; [startTransfer] gives a promise or throws, and [settled] is
    how a promise ends, for which [Promise.all] waits. *)
Context (aborted : St -> bool) (connected : nat -> St -> bool) (publicKeyLength : nat -> St -> Z).
Context (openChannel : PeerSendTarget -> nat -> St -> result E Chan * St)
  (startTransfer : PeerSendTarget -> nat -> Chan -> St -> result E P * St) (settled : P -> result E unit).

(** [fa_closed]: the channels closed here; [fa_owned]: those whose transfer has
    started, with its promise. *)
Record Fanout := MkFanoutState { fa_state : St; fa_opened : list Chan; fa_closed : list Chan; fa_owned : list (Chan * P); fa_started : Z }.
Definition settle (o : DeliveryStatus E + P) : DeliveryStatus E :=
  match o with
  | inl status => status
  | inr p => match settled p with Ok _ => delivered | Err reason => failed_transfer reason end
  end.
Definition fanout_one (target : PeerSendTarget) (f : Fanout) : (DeliveryStatus E + P) * Fanout :=
  if aborted (fa_state f) then (inl (skipped skipped_cancelled), f) else
  match pt_epc target with
  | None => (inl (skipped not_connected), f)
  | Some epc =>
      if negb (connected epc (fa_state f)) then (inl (skipped not_connected), f) else
      if negb (publicKeyLength epc (fa_state f) =? crypto_sign_PUBLICKEYBYTES * 2) then (inl (skipped unauthenticated), f) else
      match openChannel target epc (fa_state f) with
      | (Err reason, s) => (inl (failed_setup reason), MkFanoutState s (fa_opened f) (fa_closed f) (fa_owned f) (fa_started f))
      | (Ok channel, s) =>
          let opened := fa_opened f ++ [channel] in
          if aborted s then (inl (skipped skipped_cancelled), MkFanoutState s opened (fa_closed f ++ [channel]) (fa_owned f) (fa_started f)) else
          match startTransfer target epc channel s with
          | (Ok p, s) => (inr p, MkFanoutState s opened (fa_closed f) (fa_owned f ++ [(channel, p)]) (fa_started f + 1))
          | (Err reason, s) => (inl (failed_transfer reason), MkFanoutState s opened (fa_closed f ++ [channel]) (fa_owned f) (fa_started f + 1))
          end
      end
  end.
Fixpoint fanout_all (targets : list PeerSendTarget) (f : Fanout) : list (list Z * (DeliveryStatus E + P)) * Fanout :=
  match targets with
  | [] => ([], f)
  | target :: targets =>
      let '(o, f) := fanout_one target f in
      let '(outcomes, f) := fanout_all targets f in
      ((pt_peerId target, o) :: outcomes, f)
  end.
Definition runPeerSendFanout (targets : list PeerSendTarget) (s : St) : PeerSendFanoutResult E * Fanout :=
  let '(outcomes, f) := fanout_all targets (MkFanoutState s [] [] [] 0) in
  (MkFanout ((fun o => (o.1, settle o.2)) <$> outcomes) (fa_started f), f).
End Fanout.

(** ** [sendScheduled] *)

(** The acknowledgements of a world are those of the target at work. *)
Definition scheduled_transfer (epc : nat) : tr (DeliveryStatus SendError) :=
  inner waitForGate;;
  w ← inner here;
  mrequire (cn_ratchetState (conn_at epc w)) no_ratchet;;
  inner (waitForPqTrafficAdmission epc);;
  c ← ratchetStep epc;
  inner await;;
  w ← inner here;
  mrequire (default false (nt_enqueue (wd_net w))) send_failed;;
  event (job_enqueued epc c);;
  confirmed ← inner (waitForConfirmation SCHEDULED_DELIVERY_TIMEOUT_MS);
  inner (wipe_cipher c);;
  mret (if (confirmed : bool) then delivered else failed_transfer not_confirmed).
Definition scheduled_one (target : PeerSendTarget) : tr (DeliveryStatus SendError) :=
  w ← inner here;
  if wd_aborted w then mret (skipped skipped_cancelled) else
  match pt_epc target with
  | Some epc =>
      if negb (cn_connected (conn_at epc w)) || negb (cn_coverRuntime (conn_at epc w)) then mret (skipped not_connected)
      else try_catch (scheduled_transfer epc) (fun reason => mret (failed_transfer reason))
  | None => mret (skipped not_connected)
  end.
Fixpoint scheduled_all (targets : list PeerSendTarget) : tr (list (PeerDeliveryOutcome SendError)) :=
  match targets with
  | [] => mret []
  | target :: targets =>
      status ← scheduled_one target;
      outcomes ← scheduled_all targets;
      mret ((pt_peerId target, status) :: outcomes)
  end.
Definition is_job (e : SendEvent) : bool := match e with job_enqueued _ _ => true | _ => false end.
Definition jobs (t : Transfer) : Z := blen (List.filter is_job (tr_events t)).
Definition sendScheduled (targets : list PeerSendTarget) : tr (PeerSendFanoutResult SendError) :=
  t ← get_this;
  outcomes ← scheduled_all targets;
  t' ← get_this;
  mret (MkFanout outcomes (jobs t' - jobs t)).

(** ** [handleSendMessage] *)

Inductive HandleError (E : Type) :=
  | no_room | no_channel | transfer_error (e : AbortError) | split_error (e : SplitError) | label_error (e : LabelError)
  | not_delivered (reasons : list E) (started : bool) | cleanup_failed.
Arguments no_room {E}.
Arguments no_channel {E}.
Arguments transfer_error {E} _.
Arguments split_error {E} _.
Arguments label_error {E} _.
Arguments not_delivered {E} _ _.
Arguments cleanup_failed {E}.
(** [MessageDeliveryError] aggregates the reasons of the failed outcomes. *)
Definition MessageDeliveryError {E} (result : PeerSendFanoutResult E) (started : bool) : HandleError E :=
  not_delivered (omap (fun o => match o.2 with failed_setup e | failed_transfer e => Some e | _ => None end) (fo_outcomes result)) started.
Definition shouldDeleteLocalMessageAfterFailure (localMessageCommitted wireWorkStarted explicitlyCancelled : bool) : bool :=
  explicitlyCancelled || (negb localMessageCommitted && negb wireWorkStarted).

Record Channel := MkChannel { ch_label : bytes; ch_peerIds : list (list Z) }.
Record RoomView := MkRoomView { rv_id : list Z; rv_channels : list Channel; rv_scheduled : bool }.
(** The registry of transfers, the stores of the sender, and the local variables
    [merkleRootForFailureCleanup], [localMessageCommitted], [wireWorkStarted]. *)
Record App := MkApp { ap_transfers : Transfers; ap_sender : Sender; ap_cleanupRoot : bytes; ap_committed : bool; ap_wire : bool }.
Definition on_transfers f (a : App) : App := MkApp (f (ap_transfers a)) (ap_sender a) (ap_cleanupRoot a) (ap_committed a) (ap_wire a).
Definition on_sender f (a : App) : App := MkApp (ap_transfers a) (f (ap_sender a)) (ap_cleanupRoot a) (ap_committed a) (ap_wire a).
Definition set_cleanup root (a : App) : App := MkApp (ap_transfers a) (ap_sender a) root (ap_committed a) (ap_wire a).
Definition set_committed (a : App) : App := MkApp (ap_transfers a) (ap_sender a) (ap_cleanupRoot a) true (ap_wire a).
Definition set_wire b (a : App) : App := MkApp (ap_transfers a) (ap_sender a) (ap_cleanupRoot a) (ap_committed a) b.
Definition new_locals (a : App) : App := MkApp (ap_transfers a) (ap_sender a) [] false false.
(** Where others may act on the registry and the stores while [handleSendMessage]
    awaits: behind the cutting, the label and the fan-out, and on both sides of the
    deletions of the [catch] and the [finally] block. *)
Inductive SendPoint := at_split | at_label | at_fanout | at_discard | at_discarded | at_delete | at_deleted.

Section Handle.
Context {HS : Sha512} {E : Type}.
Context (message : Message) (label : bytes) (roomId : list Z) (rooms : list RoomView) (transferId : list Z).
Context (minChunks chunkSize : Z) (percentageFilledChunk : SpecFloat.spec_float) (metadataSchemaVersion : Z) (env : SplitEnv).
(** What others do meanwhile; the connections; the fan-out of the room, scheduled
    or not, over the targets, which records tokens with the staged chunks; whether
    the deletions succeed. *)
Context (meanwhile : SendPoint -> Transfers * Sender -> Transfers * Sender) (heap : nat -> Connection) (peerConnections : list nat)
  (fanout : bool -> bytes -> SplitResult -> list PeerSendTarget -> Sender -> PeerSendFanoutResult E * Sender) (discardOk deleteOk : bool).
Abbreviation hm A := (M App (HandleError E) A).

Definition awaits (p : SendPoint) : hm unit := modify_this (fun a =>
  let '(ts, s) := meanwhile p (ap_transfers a, ap_sender a) in MkApp ts s (ap_cleanupRoot a) (ap_committed a) (ap_wire a)).
Definition check_transfer (t : nat) : hm unit := a ← get_this; lift (map_err transfer_error (throwIfTransferAborted t (ap_transfers a))).
Definition run_split : hm SplitResult := fun a =>
  match splitToChunks message transferId env minChunks chunkSize percentageFilledChunk metadataSchemaVersion (ap_sender a) with
  | (r, s) => (map_err split_error r, on_sender (fun _ => s) a)
  end.
Definition claim : hm nat := fun a =>
  match claimTransfer roomId transferId (ap_transfers a) with
  | (r, ts) => (map_err transfer_error r, on_transfers (fun _ => ts) a)
  end.
Definition run_fanout (scheduled : bool) channelMessageLabel split targets : hm (PeerSendFanoutResult E) := fun a =>
  match fanout scheduled channelMessageLabel split targets (ap_sender a) with (result, s) => (Ok result, on_sender (fun _ => s) a) end.
Definition is_delivered (o : PeerDeliveryOutcome E) : bool := match o.2 with delivered => true | _ => false end.

Definition send_body (t : nat) : hm (option (PeerSendFanoutResult E)) :=
  check_transfer t;;
  match List.find (fun r => bool_decide (rv_id r = roomId)) rooms with
  | None => mthrow no_room
  | Some room =>
      match List.find (fun c => bool_decide (ch_label c = label)) (rv_channels room) with
      | None => mthrow no_channel
      | Some channel =>
          split ← run_split;
          awaits at_split;;
          modify_this (on_transfers (bindMerkleRoot t (u8 <$> spr_merkleRootHex split)));;
          modify_this (set_cleanup (spr_merkleRootHex split));;
          check_transfer t;;
          if bool_decide (spr_merkleRoot split = []) || bool_decide (spr_hashHex split = []) || (spr_totalChunks split =? 0)
             || bool_decide (spr_chunkHashes split = []) then mret None else
          modify_this set_committed;;
          channelMessageLabel ← lift (map_err label_error (compileChannelMessageLabel label (RootHex (spr_merkleRootHex split))));
          awaits at_label;;
          let targets := (fun peerId => MkTarget peerId (List.find (fun c => bool_decide (cn_roomId (heap c) = roomId) && bool_decide (cn_withPeerId (heap c) = peerId)) peerConnections))
                           <$> ch_peerIds channel in
          result ← run_fanout (rv_scheduled room) channelMessageLabel split targets;
          modify_this (set_wire (0 <? fo_startedTransfers result));;
          awaits at_fanout;;
          check_transfer t;;
          mrequire (negb (fo_startedTransfers result =? 0)) (MessageDeliveryError result false);;
          mrequire (existsb is_delivered (fo_outcomes result)) (MessageDeliveryError result true);;
          mret (Some result)
      end
  end.
(** The [catch] block: it always throws. *)
Definition send_failed_with {A} (t : nat) (error : HandleError E) : hm A :=
  a ← get_this;
  let cancelled := match throwIfTransferAborted t (ap_transfers a) with Err _ => true | Ok _ => false end in
  (if shouldDeleteLocalMessageAfterFailure (ap_committed a) (ap_wire a) cancelled then
     (if bool_decide (ap_cleanupRoot a = []) then mret tt
      else
        awaits at_discard;;
        mrequire discardOk cleanup_failed;;
        modify_this (on_sender (fun s => snd (deleteReceiveTransfer (ap_cleanupRoot a) s)));;
        awaits at_discarded);;
     modify_this (on_sender (dispatch DeleteMessage))
   else mret tt);;
  check_transfer t;;
  mthrow error.
Definition send_finally (t : nat) : hm unit :=
  awaits at_delete;;
  mrequire deleteOk cleanup_failed;;
  modify_this (on_sender (fun s => snd (fnDeleteDBNewChunk transferId s)));;
  awaits at_deleted;;
  modify_this (on_transfers (finish roomId t)).
(** The [try] and [catch] blocks of [handleSendMessage], and [finally] behind them. *)
Definition send_attempt (t : nat) : hm (option (PeerSendFanoutResult E)) := fun a =>
  match send_body t a with (Err error, a) => send_failed_with t error a | r => r end.
Definition send_guarded (t : nat) : hm (option (PeerSendFanoutResult E)) := fun a =>
  match send_attempt t a with
  | (r, a) => match send_finally t a with (Err e, a) => (Err e, a) | (Ok _, a) => (r, a) end
  end.
Definition handleSendMessage : hm (option (PeerSendFanoutResult E)) := t ← claim; modify_this new_locals;; send_guarded t.
End Handle.


(** ** The fan-out *)

Section FanoutLemmas.
Context {St Chan E P : Type}.
Context (aborted : St -> bool) (connected : nat -> St -> bool) (publicKeyLength : nat -> St -> Z).
Context (openChannel : PeerSendTarget -> nat -> St -> result E Chan * St)
  (startTransfer : PeerSendTarget -> nat -> Chan -> St -> result E P * St) (settled : P -> result E unit).
Abbreviation one := (fanout_one aborted connected publicKeyLength openChannel startTransfer).
Abbreviation all := (fanout_all aborted connected publicKeyLength openChannel startTransfer).
Implicit Types (f : @Fanout St Chan P) (os : list (DeliveryStatus E + P)).

Definition promises os : list P := omap (fun o => match o with inr p => Some p | inl _ => None end) os.
(** What a run of the loop adds: outcomes, channels closed here and transfers. *)
Record adds f f' os : Prop := {
  ad_channels : exists opened closed owned, fa_opened f' = fa_opened f ++ opened /\ fa_closed f' = fa_closed f ++ closed /\
    fa_owned f' = fa_owned f ++ owned /\ opened ≡ₚ closed ++ owned.*1 /\ owned.*2 = promises os;
  ad_status s : inl s ∈ os -> s <> delivered;
  ad_started : exists n, fa_started f' = fa_started f + n /\ blen (promises os) <= n <= blen os }.
Lemma adds_one f f' s opened closed n : s <> delivered -> fa_opened f' = fa_opened f ++ opened -> fa_closed f' = fa_closed f ++ closed ->
  fa_owned f' = fa_owned f -> opened = closed -> fa_started f' = fa_started f + n -> 0 <= n <= 1 -> adds f f' [inl s].
Proof.
  intros Hs H1 H2 H3 -> H4 Hn. split.
  - exists closed, closed, []. by rewrite !app_nil_r.
  - intros s' H%list_elem_of_singleton. by injection H as ->.
  - exists n. split; [done|]. change (blen (promises _)) with 0. change (blen _) with 1. lia.
Qed.
Lemma one_adds target f o f' : one target f = (o, f') -> adds f f' [o].
Proof.
  unfold fanout_one. intros H.
  assert (forall s, s <> delivered -> adds f f [inl s]) as Hnone by (intros s Hs; apply (adds_one _ _ _ [] [] 0); rewrite ?app_nil_r; lia || done).
  destruct (aborted _); [injection H as <- <-; by apply Hnone|].
  destruct (pt_epc target) as [epc|]; [|injection H as <- <-; by apply Hnone].
  destruct (negb (connected _ _)); [injection H as <- <-; by apply Hnone|].
  destruct (negb (_ =? _)); [injection H as <- <-; by apply Hnone|].
  destruct (openChannel _ _ _) as [[ch|e] s]; [|injection H as <- <-; apply (adds_one _ _ _ [] [] 0); cbn; rewrite ?app_nil_r; lia || done].
  destruct (aborted s); [injection H as <- <-; apply (adds_one _ _ _ [ch] [ch] 0); cbn; lia || done|].
  destruct (startTransfer _ _ _ _) as [[p|e] s']; injection H as <- <-; [|apply (adds_one _ _ _ [ch] [ch] 1); cbn; lia || done].
  split; [exists [ch], [], [(ch, p)]; cbn; by rewrite ?app_nil_r|by intros x Hx%list_elem_of_singleton|exists 1; split; [done|]; change (1 <= 1 <= 1); lia].
Qed.
Lemma adds_trans f1 f2 f3 os1 os2 : adds f1 f2 os1 -> adds f2 f3 os2 -> adds f1 f3 (os1 ++ os2).
Proof.
  intros [(o1 & c1 & w1 & A1 & A2 & A3 & A4 & A5) B1 (n1 & C1 & D1)] [(o2 & c2 & w2 & E1 & E2 & E3 & E4 & E5) B2 (n2 & C2 & D2)].
  assert (promises (os1 ++ os2) = promises os1 ++ promises os2) as Hp by apply omap_app. split.
  - exists (o1 ++ o2), (c1 ++ c2), (w1 ++ w2). rewrite E1, E2, E3, A1, A2, A3, Hp, !fmap_app, <- !app_assoc. split_and!; try done; [|congruence].
    rewrite A4, E4. solve_Permutation.
  - intros s [H|H]%elem_of_app; auto.
  - exists (n1 + n2). rewrite Hp. unfold blen in *. rewrite !length_app, !Nat2Z.inj_add. split; lia.
Qed.
Lemma all_adds targets : forall f (os : list (list Z * (DeliveryStatus E + P))) f', all targets f = (os, f') -> adds f f' os.*2 /\ os.*1 = pt_peerId <$> targets.
Proof.
  induction targets as [|target targets IH]; intros f os f' H; cbn [fanout_all] in H.
  - injection H as <- <-. split; [|done]. split; [exists [], [], []; by rewrite !app_nil_r|by intros s ?%elem_of_nil|exists 0; split; [lia|]; change (0 <= 0 <= 0); lia].
  - destruct (one target f) as [o f1] eqn:E1. destruct (all targets f1) as [os1 f2] eqn:E2. injection H as <- <-.
    apply one_adds in E1. apply IH in E2 as [E2 E3]. split; [|cbn; by rewrite E3]. exact (adds_trans _ _ _ [o] _ E1 E2).
Qed.
Lemma count_delivered (os : list (list Z * (DeliveryStatus E + P))) : (forall s, inl s ∈ os.*2 -> s <> delivered) ->
  length (List.filter is_delivered ((fun o => (o.1, settle settled o.2)) <$> os)) = length (List.filter (fun p => is_ok (settled p)) (promises os.*2)).
Proof.
  induction os as [|[peer o] os IH]; intros H; [done|]. cbn. specialize (IH (fun s Hs => H s (list_elem_of_further _ _ _ Hs))).
  destruct o as [s|p]; cbn.
  - destruct s; [by destruct (H delivered ltac:(by left))|exact IH..].
  - destruct (settled p); cbn; [f_equal|]; exact IH.
Qed.
Lemma none_delivered (os : list (list Z * (DeliveryStatus E + P))) : (forall s, inl s ∈ os.*2 -> s <> delivered) -> promises os.*2 = [] ->
  Forall (fun o => o.2 <> delivered) ((fun o => (o.1, settle settled o.2)) <$> os).
Proof.
  induction os as [|[peer o] os IH]; intros H Hp; [constructor|]. destruct o as [s|p]; [|discriminate Hp].
  constructor; [by apply H; left|]. apply IH; [|exact Hp]. intros s' Hs. apply H. by right.
Qed.
End FanoutLemmas.

(** C15. Every peer gets its outcome, and every channel an end.  The fan-out returns one
    outcome per target, in the order of the targets.  Each channel it opened is
    either closed by it or owned by exactly one started transfer; a peer's outcome
    is [delivered] just as often as the promise of a transfer is fulfilled; and
    when it says that no transfer was started, every channel is closed and nothing
    delivered.  No failure to set up one peer keeps the transfers of others from
    being waited for. *)
Theorem fanout_settles {St Chan E P} aborted connected publicKeyLength openChannel startTransfer (settled : P -> result E unit) targets (s : St) :
  let '(r, f) := @runPeerSendFanout St Chan E P aborted connected publicKeyLength openChannel startTransfer settled targets s in
  (fo_outcomes r).*1 = pt_peerId <$> targets /\
  fa_opened f ≡ₚ fa_closed f ++ (fa_owned f).*1 /\
  length (List.filter is_delivered (fo_outcomes r)) = length (List.filter (fun p => is_ok (settled p)) (fa_owned f).*2) /\
  blen (fa_owned f) <= fo_startedTransfers r <= blen targets /\
  (fo_startedTransfers r = 0 -> fa_owned f = [] /\ Forall (fun o => o.2 <> delivered) (fo_outcomes r)).
Proof.
  unfold runPeerSendFanout. destruct (fanout_all _ _ _ _ _ targets _) as [os f] eqn:E1. apply all_adds in E1 as [[Hch Hst (n & Hn & Hle)] Hp].
  destruct Hch as (opened & closed & owned & Ho & Hc & Hw & Hperm & Hprom). cbn in Ho, Hc, Hw, Hn. cbn [fo_outcomes fo_startedTransfers]. rewrite Ho, Hc, Hw, Hn.
  assert (length os = length targets) as Hlen by (rewrite <- (length_fmap fst), Hp; apply length_fmap).
  assert (blen owned = blen (promises os.*2)) as Hown by (rewrite <- Hprom; unfold blen; by rewrite length_fmap).
  split_and!.
  - rewrite <- Hp, <- list_fmap_compose. by apply list_fmap_ext.
  - exact Hperm.
  - rewrite Hprom. by apply count_delivered.
  - lia.
  - unfold blen in *. rewrite length_fmap in Hle. lia.
  - intros H0. assert (promises os.*2 = []) as Hnil by (unfold blen in *; apply length_zero_iff_nil; lia). rewrite Hnil in Hprom. split.
    + by destruct owned.
    + by apply none_delivered.
Qed.

(** ** Scheduled sends *)

Lemma inner_events {A} (m : sn A) t r t' : inner m t = (r, t') -> tr_events t' = tr_events t.
Proof. unfold inner. destruct (m (tr_sending t)). by intros [= _ <-]. Qed.
Section Scheduled.
Context {C : LibCrypto} {HS : Sha512}.
Context (chunkHashes merkleRoot hashHex : bytes) (transferId : list Z).
Abbreviation slot c := (scheduledSlotCell c chunkHashes merkleRoot hashHex transferId).

(** A cell is sealed under what the buffer of its key holds. *)
Lemma slot_sealed c i s frame s' : slot c i s = (Ok (Some frame), s') ->
  exists cell nonce, sealChunk (buffer (ci_key c) s) (ci_header c) cell merkleRoot (context_of c s) nonce = Ok frame.
Proof.
  intros H. unfold scheduledSlotCell in H. mbinds H. destruct (sn_newChunks s0 !! (transferId, i)) as [chunk|]; [|discriminate H]. mbinds H.
  unfold seal_cell in E5. mbinds E5. destruct (sealChunk _ _ _ _ _ _) as [f|] eqn:Hs; [|discriminate E5]. injection E5 as ->. subst.
  do 2 eexists. rewrite <- Hs. assert (sn_buffers s4 = sn_buffers s) as Hb; [|by destruct (buffers_same c s s4 Hb) as [-> ->]].
  apply (tame_await transferId) in E as [_ [E _]], E4 as [_ [E4 _]]. apply (tame_proof chunkHashes transferId) in E1 as [_ [E1 _]].
  apply (tame_token merkleRoot transferId) in E2 as [_ [E2 _]]. apply (tame_persist merkleRoot hashHex transferId) in E3 as [_ [E3 _]]. congruence.
Qed.
End Scheduled.

(** The buffers that a step makes. *)
Lemma ratchetStep_buffers epc t c t' : ratchetStep epc t = (Ok c, t') ->
  exists key pq, bufs t' = bufs t ++ key :: match pq with Some x => [ctx_rootKey x] | None => [] end /\
    ci_key c = length (bufs t) /\ ci_context c = (fun x => (S (length (bufs t)), x)) <$> pq.
Proof.
  intros H. unfold ratchetStep in H. apply tr_split in H as [(e & ? & _)|([] & t1 & H1 & H)]; [discriminate|].
  apply (tame_buffers []) in H1; [|apply tame_await].
  apply tr_split in H as [(e & ? & _)|(w & t2 & H2 & H)]; [discriminate|]. apply here_run in H2 as [_ ->].
  destruct (nt_step _) as [[[key header] pq]|]; [|discriminate H]. cbn in H. injection H as <- <-. exists key, pq.
  unfold bufs in *. cbn [tr_sending sn_buffers set_buffers ci_key ci_context]. by rewrite <- H1.
Qed.
(** The buffers of a cipher, wiped, and what the cipher is then. *)
Definition zero_of (b : bytes) : bytes := zeros (blen b).
Definition blank (x : PqMessageKeyContext) : PqMessageKeyContext :=
  {| ctx_rootKey := zero_of (ctx_rootKey x); ctx_binding := ctx_binding x; ctx_rootSuite := ctx_rootSuite x; ctx_epoch := ctx_epoch x |}.
Lemma wiped_step epc t1 c t2 s : ratchetStep epc t1 = (Ok c, t2) ->
  let b := bufs t1 ++ (zero_of <$> drop (length (bufs t1)) (bufs t2)) in
  wiped_cipher c (bufs t2) = b /\
  (b `prefix_of` sn_buffers s -> buffer (ci_key c) s = zero_of (buffer (ci_key c) (tr_sending t2)) /\
     context_of c s = blank <$> context_of c (tr_sending t2)).
Proof.
  intros (key & pq & Hb & Hk & Hc)%ratchetStep_buffers. cbv zeta. rewrite Hb, drop_app_length. split.
  - unfold wiped_cipher, wiped. rewrite Hc, Hk. destruct pq as [x|]; cbn [fmap option_fmap option_map];
      rewrite alter_app_r_alt, Nat.sub_diag by lia; [|done].
    rewrite alter_app_r_alt by lia. by replace (S (length (bufs t1)) - length (bufs t1))%nat with 1%nat by lia.
  - intros [l Hs]. unfold buffer, context_of, buffer. unfold bufs in Hb at 1. rewrite Hs, Hb, Hk, Hc, <- app_assoc.
    rewrite !(lookup_app_r (bufs t1)), Nat.sub_diag by lia. split; [done|]. destruct pq as [x|]; [|done]. cbn [fmap option_fmap option_map].
    rewrite !(lookup_app_r (bufs t1)) by lia. by replace (S (length (bufs t1)) - length (bufs t1))%nat with 1%nat by lia.
Qed.

(** C20. The key of a scheduled message is wiped under the job it was made for.  When
    the wait for the receiver of a scheduled send ends without its confirmation -
    it timed out, or the transfer was cancelled -, handing the job to the
    scheduler is the last thing the send has done to it; and both buffers that the
    ratchet step of this send has made, the message key and the root key of its
    PQ context, hold only zeros, as many as they had bytes.  So a cell that the
    scheduler seals for the job after that is sealed with a key of zeros, in a
    context whose root key is zero and whose other fields are the public ones of
    the job: under nothing that is secret. *)
Theorem scheduled_key_dies_early {C : LibCrypto} {HS : Sha512} chunkHashes root hashHex tid epc t t' :
  scheduled_transfer epc t = (Ok (failed_transfer not_confirmed), t') ->
  exists c t1 t2 l, ratchetStep epc t1 = (Ok c, t2) /\ bufs t1 = bufs t /\ tr_events t' = l ++ [job_enqueued epc c] /\
    bufs t' = bufs t ++ (zero_of <$> drop (length (bufs t)) (bufs t2)) /\
    forall i s frame s', bufs t' `prefix_of` sn_buffers s -> scheduledSlotCell c chunkHashes root hashHex tid i s = (Ok (Some frame), s') ->
      exists cell nonce, sealChunk (zero_of (buffer (ci_key c) (tr_sending t2))) (ci_header c) cell root
        (blank <$> context_of c (tr_sending t2)) nonce = Ok frame.
Proof.
  intros H. unfold scheduled_transfer in H.
  repeat (apply tr_split in H as [(e & ? & _)|(? & ? & ? & H)]; [discriminate|]).
  rename x6 into t1, x7 into c, x8 into t2. apply (tame_buffers tid) in H0; [|apply tame_gate]. apply here_run in H1 as [_ ->]. apply mrequire_ok in H2 as [_ ->].
  apply (tame_buffers tid) in H3; [|apply tame_pq].
  apply (tame_buffers tid) in H5; [|apply tame_await]. apply here_run in H6 as [_ ->]. apply mrequire_ok in H7 as [_ ->].
  apply inner_events in H9 as He. apply (tame_buffers tid) in H9; [|apply tame_confirmation]. injection H8 as _ <-. cbn [tr_events] in He.
  rewrite wipe_cipher_run in H10. injection H10 as _ <-. injection H as Hb <-. change (bufs (MkTransfer (tr_sending x10) _ _ _ _)) with (bufs x10) in H9.
  assert (bufs t1 = bufs t) as Ht by congruence. assert (bufs x18 = bufs t2) as Hx by congruence.
  exists c, t1, t2, (tr_events x10). split; [done|]. split; [done|]. split; [exact He|].
  destruct (wiped_step epc t1 c t2 (tr_sending t) H4) as [Hw _]. rewrite Ht in Hw.
  assert (bufs (with_buffers (wiped_cipher c (bufs x18)) x18) = bufs t ++ (zero_of <$> drop (length (bufs t)) (bufs t2))) as Hbuf.
  { rewrite <- Hw, <- Hx. done. }
  split; [exact Hbuf|]. intros i s frame s' Hs Hslot. apply slot_sealed in Hslot as (cell & nonce & Hseal).
  exists cell, nonce. destruct (wiped_step epc t1 c t2 s H4) as [_ Hz]. rewrite Ht in Hz.
  destruct Hz as [<- <-]; [by rewrite <- Hbuf|done].
Qed.

(** ** The life of a message *)

Lemma bind_cases {S X A B} (m : M S X A) (f : A -> M S X B) s r s' : (m ≫= f) s = (r, s') ->
  (exists e, r = Err e /\ m s = (Err e, s')) \/ (exists a s1, m s = (Ok a, s1) /\ f a s1 = (r, s')).
Proof. unfold mbind, M_bind. destruct (m s) as [[a|e] s1]; intros H; [right; by exists a, s1|left]. injection H as <- <-. by exists e. Qed.

(** What others may do meanwhile: they neither end the transfer [t] nor take its
    cancellation back, they stage no chunk for it, and they leave alone the copy
    and the rows under the root of the message and its place in the log. *)
Definition registry_work (t : nat) (ts ts' : Transfers) : Prop := forall a, ts_heap ts !! t = Some a ->
  exists a', ts_heap ts' !! t = Some a' /\ at_finished a' = at_finished a /\ forall e, at_reason a = Some e -> at_reason a' = Some e.
Definition same_history (root : bytes) (s s' : Sender) : Prop :=
  filter (fun e => e.1.1 = root) (sd_copy s') = filter (fun e => e.1.1 = root) (sd_copy s) /\
  filter (fun e => e.1 = root) (sd_rows s') = filter (fun e => e.1 = root) (sd_rows s) /\ sd_actions s' = sd_actions s.
Definition keeps (transferId : list Z) (message : result SplitError SplitResult) (s s' : Sender) : Prop :=
  (forall i, sd_newChunks s !! (transferId, i) = None -> sd_newChunks s' !! (transferId, i) = None) /\
  sd_actions s' = sd_actions s /\ forall split, message = Ok split -> same_history (spr_merkleRootHex split) s s'.
Definition other_work (t : nat) transferId message (f : Transfers * Sender -> Transfers * Sender) : Prop :=
  forall ts s, registry_work t ts (f (ts, s)).1 /\ keeps transferId message s (f (ts, s)).2.
Lemma keeps_refl tid message s : keeps tid message s s.
Proof. by split_and!. Qed.
Lemma keeps_trans tid message s1 s2 s3 : keeps tid message s1 s2 -> keeps tid message s2 s3 -> keeps tid message s1 s3.
Proof.
  intros (A1 & A2 & A3) (B1 & B2 & B3). split; [auto|]. split; [congruence|]. intros split Hs.
  destruct (A3 split Hs) as (C1 & C2 & C3), (B3 split Hs) as (D1 & D2 & D3). split_and!; congruence.
Qed.
Definition live (t : nat) (ts : Transfers) : Prop := exists a, ts_heap ts !! t = Some a /\ at_finished a = false.
Definition unfinished (ts : Transfers) : Prop := forall room t, t ∈ active_in room ts -> live t ts.
Lemma live_other t ts ts' : registry_work t ts ts' -> live t ts -> live t ts'.
Proof. intros Hf (a & Ha & Hl). destruct (Hf _ Ha) as (a' & Ha' & Hl' & _). exists a'. by rewrite Hl'. Qed.
Lemma abort_other t ts ts' e : registry_work t ts ts' -> throwIfTransferAborted t ts = Err e -> throwIfTransferAborted t ts' = Err e.
Proof.
  intros Hf H. unfold throwIfTransferAborted in *. destruct (ts_heap ts !! t) as [a|] eqn:Ha; [|done]. destruct (Hf _ Ha) as (a' & Ha' & _ & Hr).
  rewrite Ha'. destruct a as [? [reason|] ? ? ?]; [|done]. injection H as <-. specialize (Hr _ eq_refl). destruct a'. cbn in Hr. by subst.
Qed.
Lemma live_root t root ts : live t ts -> live t (bindMerkleRoot t root ts).
Proof. intros (a & Ha & Hl). unfold live, bindMerkleRoot, on_active. cbn. rewrite list_lookup_alter_eq, Ha. by eexists. Qed.
Lemma claimed_live room tid ts t ts' : unfinished ts -> claimTransfer room tid ts = (Ok t, ts') -> live t ts'.
Proof.
  intros Hu H. unfold claimTransfer in H. apply bind_cases in H as [(e & [=] & _)|(x & s & [= <- <-] & H)].
  destruct (List.find _ _) as [t1|] eqn:Hf.
  - injection H as <- <-. apply find_some in Hf as [Hin _]. apply (Hu room). by apply list_elem_of_In.
  - unfold beginTransfer in H. mbinds H. subst. exists (MkActive tid None false None None). cbn. split; [|done]. rewrite lookup_app_r by lia. by rewrite Nat.sub_diag.
Qed.
Lemma finish_done room t ts : live t ts -> (t ∉ active_in room (finish room t ts)) /\
  throwIfTransferAborted t (finish room t ts) = throwIfTransferAborted t ts.
Proof.
  intros (a & Ha & Hl). unfold finish. rewrite Ha, Hl. set (f := fun a => MkActive (at_transferId a) (at_reason a) true (at_hash a) (at_root a)).
  split.
  - unfold removeActive. change (ts_rooms (on_active t f ts)) with (ts_rooms ts). destruct (map_find room (ts_rooms ts)) as [l|] eqn:Hf.
    + set (l' := List.filter (fun x => negb (Nat.eqb x t)) l). assert (t ∉ l') as Hout.
      { subst l'. intros [_ Hx]%list_elem_of_In%filter_In. by rewrite Nat.eqb_refl in Hx. }
      unfold active_in. cbn [ts_rooms]. case_bool_decide as He.
      * rewrite find_remove, bool_decide_eq_true_2 by done. apply not_elem_of_nil.
      * rewrite find_put, bool_decide_eq_true_2 by done. exact Hout.
    + change (t ∉ default [] (map_find room (ts_rooms ts))). rewrite Hf. apply not_elem_of_nil.
  - unfold throwIfTransferAborted. replace (ts_heap (removeActive room t (on_active t f ts))) with (ts_heap (on_active t f ts))
      by (unfold removeActive; by destruct (map_find _ _)).
    cbn. rewrite list_lookup_alter_eq, Ha. by destruct a.
Qed.

Lemma modify_bind {S X A} (f : S -> S) (g : unit -> M S X A) s : (modify_this f ≫= g) s = g tt (f s).
Proof. done. Qed.
Section Settles.
Context {HS : Sha512} {E : Type}.
Context (message : Message) (label : bytes) (roomId : list Z) (rooms : list RoomView) (transferId : list Z).
Context (minChunks chunkSize : Z) (percentageFilledChunk : SpecFloat.spec_float) (metadataSchemaVersion : Z) (env : SplitEnv).
Context (meanwhile : SendPoint -> Transfers * Sender -> Transfers * Sender) (heap : nat -> Connection) (peerConnections : list nat)
  (fanout : bool -> bytes -> SplitResult -> list PeerSendTarget -> Sender -> PeerSendFanoutResult E * Sender) (deleteOk : bool) (t : nat).
(** The message as it is cut from the stores of the sender at the start. *)
Context (a0 : App).
Abbreviation split_of s := (splitToChunks message transferId env minChunks chunkSize percentageFilledChunk metadataSchemaVersion s).
Abbreviation cut0 := (fst (split_of (ap_sender a0))).
Abbreviation stored0 := (snd (split_of (ap_sender a0))).
Context (Hother : forall p, other_work t transferId cut0 (meanwhile p))
  (Hfanout : forall scheduled lbl split targets s, keeps transferId cut0 s (fanout scheduled lbl split targets s).2).
Abbreviation body := (send_body message label roomId rooms transferId minChunks chunkSize percentageFilledChunk metadataSchemaVersion env
  meanwhile heap peerConnections fanout t).
Abbreviation caught := (send_failed_with meanwhile true t).

(** The state after an await. *)
Definition after (p : SendPoint) (a : App) : App :=
  MkApp (meanwhile p (ap_transfers a, ap_sender a)).1 (meanwhile p (ap_transfers a, ap_sender a)).2
    (ap_cleanupRoot a) (ap_committed a) (ap_wire a).
Lemma awaits_bind {B} p (g : unit -> M App (HandleError E) B) a : (awaits meanwhile p ≫= g) a = g tt (after p a).
Proof. unfold awaits, after, mbind, M_bind, modify_this. by destruct (meanwhile _ _). Qed.
Lemma after_live p a : live t (ap_transfers a) -> live t (ap_transfers (after p a)).
Proof. apply live_other, Hother. Qed.
Lemma after_keeps p a : keeps transferId cut0 (ap_sender a) (ap_sender (after p a)).
Proof. apply Hother. Qed.

(** The state [a] of a message that was begun in [a0]: what was cut is in the
    history, and the root of the clean-up is that of the message. *)
Definition history (a : App) : Prop := exists split, cut0 = Ok split /\ keeps transferId cut0 stored0 (ap_sender a).
Definition rooted (a : App) : Prop := ap_cleanupRoot a <> [] -> exists split, cut0 = Ok split /\ ap_cleanupRoot a = spr_merkleRootHex split.
Definition tracked (a : App) : Prop := live t (ap_transfers a) /\ (ap_committed a = true -> history a) /\ rooted a.
Lemma tracked_after p a : tracked a -> tracked (after p a).
Proof.
  intros (Hl & Hh & Hr). split; [by apply after_live|]. split; [|done]. intros Hc. destruct (Hh Hc) as (split & Hs & Hk).
  exists split. split; [done|]. eapply keeps_trans; [exact Hk|apply after_keeps].
Qed.
Definition good_result (r : option (PeerSendFanoutResult E)) : Prop := forall result, r = Some result ->
  fo_startedTransfers result <> 0 /\ existsb is_delivered (fo_outcomes result) = true.
Definition body_ok (r : result (HandleError E) (option (PeerSendFanoutResult E))) (a : App) : Prop :=
  tracked a /\ forall x, r = Ok x -> throwIfTransferAborted t (ap_transfers a) = Ok tt /\ good_result x.
Lemma body_error a e : tracked a -> body_ok (Err e) a.
Proof. by split. Qed.
Lemma check_cases a (r : result (HandleError E) unit) a' : check_transfer t a = (r, a') -> a' = a /\ (r = Ok tt -> throwIfTransferAborted t (ap_transfers a) = Ok tt).
Proof.
  unfold check_transfer, mbind, M_bind, get_this, lift. intros [= <- <-]. split; [done|]. by destruct (throwIfTransferAborted _ _) as [[]|].
Qed.
(** The end of the body, behind the fan-out. *)
Lemma fanout_end result a r a' : tracked a ->
  (check_transfer t;;
   mrequire (negb (fo_startedTransfers result =? 0)) (MessageDeliveryError result false);;
   mrequire (existsb is_delivered (fo_outcomes result)) (MessageDeliveryError result true);;
   mret (Some result)) a = (r, a') -> body_ok r a'.
Proof.
  intros Ht H. apply bind_cases in H as [(e & -> & H)|([] & a5 & H1 & H)]; [apply check_cases in H as [-> _]; by apply body_error|].
  apply check_cases in H1 as [-> Hok4]. specialize (Hok4 eq_refl).
  apply bind_cases in H as [(e & -> & H)|([] & a5 & H1 & H)]; [injection H as _ <-; by apply body_error|]. apply mrequire_ok in H1 as [Hn%negb_true_iff%Z.eqb_neq ->].
  apply bind_cases in H as [(e & -> & H)|([] & a5 & H1 & H)]; [injection H as _ <-; by apply body_error|]. apply mrequire_ok in H1 as [Hd ->].
  injection H as <- <-. split; [done|]. intros x [= <-]. split; [done|]. intros res [= <-]. done.
Qed.
Lemma body_tracked a r a' : live t (ap_transfers a) -> ap_committed a = false -> ap_cleanupRoot a = [] -> ap_sender a = ap_sender a0 ->
  body a = (r, a') -> body_ok r a'.
Proof.
  intros Hl Hc Hr Hs0 H. unfold send_body in H. assert (tracked a) as Ht by (split_and!; [done|by rewrite Hc|unfold rooted; by rewrite Hr]).
  apply bind_cases in H as [(e & -> & H)|([] & a1 & H1 & H)]; [apply check_cases in H as [-> _]; by apply body_error|].
  apply check_cases in H1 as [-> _]. destruct (List.find _ rooms) as [room|]; [|injection H as <- <-; by apply body_error].
  destruct (List.find _ _) as [channel|]; [|injection H as <- <-; by apply body_error].
  apply bind_cases in H as [(e & -> & H)|(split & a1 & H1 & H)].
  { unfold run_split in H. destruct (split_of (ap_sender a)) as [[split|e1] s1]; [discriminate H|]. injection H as _ <-. apply body_error.
    split_and!; [done|cbn; by rewrite Hc|unfold rooted; cbn; by rewrite Hr]. }
  unfold run_split in H1. destruct (split_of (ap_sender a)) as [[split'|e1] s1] eqn:Hs; [|discriminate H1]. injection H1 as <- <-.
  rewrite Hs0 in Hs. rewrite awaits_bind, !modify_bind in H. match type of H with _ ?s = _ => set (a2 := s) in H end.
  assert (cut0 = Ok split' /\ stored0 = s1) as [Hcut Hst] by (by rewrite Hs).
  assert (tracked a2) as Ht2.
  { split_and!; [by apply live_root, after_live|cbn; by rewrite Hc|intros _; by exists split']. }
  apply bind_cases in H as [(e & -> & H)|([] & a3 & H1 & H)]; [apply check_cases in H as [-> _]; by apply body_error|].
  apply check_cases in H1 as [-> Hok]. specialize (Hok eq_refl). cbv beta in H. destruct (_ || _ || _ || _).
  { injection H as <- <-. split; [done|]. intros x [= <-]. by split. }
  rewrite modify_bind in H. set (a3 := set_committed a2) in H.
  assert (tracked a3) as Ht3.
  { destruct Ht2 as (H1 & _ & H2). split_and!; [done| |done]. intros _. exists split'. split; [done|]. rewrite Hst. apply (after_keeps at_split (on_sender (fun _ => s1) a)). }
  apply bind_cases in H as [(e & -> & H)|(lbl & a4 & H1 & H)]; [injection H as _ <-; by apply body_error|]. injection H1 as _ <-.
  rewrite awaits_bind in H. apply (tracked_after at_label) in Ht3. unfold run_fanout, mbind at 1, M_bind at 1 in H.
  match type of H with context [fanout ?x1 ?x2 ?x3 ?x4 ?x5] => pose proof (Hfanout x1 x2 x3 x4 x5) as Hk; destruct (fanout x1 x2 x3 x4 x5) as [result s4] end.
  cbn [snd] in Hk. rewrite modify_bind, awaits_bind in H. eapply fanout_end; [|exact H]. apply tracked_after.
  destruct Ht3 as (H1 & H2 & H3). split_and!; [done| |done]. intros Hc3. destruct (H2 Hc3) as (sp & Hsp & Hk0). exists sp. split; [done|].
  eapply keeps_trans; [exact Hk0|exact Hk].
Qed.
(** The [catch] block. *)
Definition cleared (a : App) : App := on_sender (fun s => snd (deleteReceiveTransfer (ap_cleanupRoot a) s)) (after at_discard a).
Definition dropped (a : App) : App := after at_discarded (cleared a).
Definition discarded (a : App) : App :=
  on_sender (dispatch DeleteMessage) (if bool_decide (ap_cleanupRoot a = []) then a else dropped a).
(** Nothing of the message is left in the sender's copy, and its message is deleted. *)
Definition gone (a : App) : Prop := (ap_cleanupRoot a <> [] -> forall x, x ∈ sd_copy (ap_sender a) -> x.1.1 <> ap_cleanupRoot a) /\
  exists l, sd_actions (ap_sender a) = l ++ [DeleteMessage].
Lemma gone_keeps root (s s' : Sender) : filter (fun e => e.1.1 = root) (sd_copy s') = filter (fun e => e.1.1 = root) (sd_copy s) ->
  (forall x, x ∈ sd_copy s -> x.1.1 <> root) -> forall x, x ∈ sd_copy s' -> x.1.1 <> root.
Proof.
  intros Hk Hg x Hx Hr. assert (x ∈ filter (fun e : bytes * Z * bytes => e.1.1 = root) (sd_copy s')) as Hin by (by apply list_elem_of_filter).
  rewrite Hk in Hin. apply list_elem_of_filter in Hin as [_ Hin]. by apply (Hg x).
Qed.
Lemma gone_after p a : rooted a -> gone a -> gone (after p a).
Proof.
  intros Hr [Hg (l & Hl)]. destruct (after_keeps p a) as (_ & Ha & Hk). split.
  - intros Hne. destruct (Hr Hne) as (split & Hs & Heq). destruct (Hk split Hs) as (Hc & _). rewrite <- Heq in Hc.
    apply (gone_keeps _ _ _ Hc). by apply Hg.
  - exists l. by rewrite Ha.
Qed.
Lemma discarded_gone a : rooted a -> gone (discarded a).
Proof.
  intros Hr. unfold gone, discarded. case_bool_decide as Hn; (split; [|by eexists]); [done|]. intros Hne.
  destruct (Hr Hne) as (split & Hs & Heq). 
  destruct (after_keeps at_discarded (cleared a)) as (_ & _ & Hk). destruct (Hk split Hs) as (Hc & _). rewrite <- Heq in Hc.
  apply (gone_keeps _ _ _ Hc). cbn. by intros x [Hx _]%list_elem_of_filter.
Qed.
Lemma discarded_work a : registry_work t (ap_transfers a) (ap_transfers (discarded a)).
Proof.
  unfold discarded. case_bool_decide; [intros x Hx; exists x; by split_and!|]. intros x Hx.
  destruct (proj1 (Hother at_discard (ap_transfers a) (ap_sender a)) x Hx) as (y & Hy & Hf & Hr).
  destruct (proj1 (Hother at_discarded (ap_transfers (cleared a)) (ap_sender (cleared a))) y Hy) as (z & Hz & Hf' & Hr').
  exists z. split; [done|]. split; [congruence|]. auto.
Qed.
Lemma discarded_locals a : ap_committed (discarded a) = ap_committed a /\ ap_cleanupRoot (discarded a) = ap_cleanupRoot a.
Proof. unfold discarded. by case_bool_decide. Qed.
Lemma caught_run err (a : App) : (caught err a : result (HandleError E) (option (PeerSendFanoutResult E)) * App) =
  let cancelled := match throwIfTransferAborted t (ap_transfers a) with Err _ => true | Ok _ => false end in
  let a' := if shouldDeleteLocalMessageAfterFailure (ap_committed a) (ap_wire a) cancelled then discarded a else a in
  (Err (match throwIfTransferAborted t (ap_transfers a') with Err e => transfer_error e | Ok _ => err end), a').
Proof.
  assert (forall b : App, (check_transfer t ≫= fun _ => mthrow err : M App (HandleError E) (option (PeerSendFanoutResult E))) b =
    (Err (match throwIfTransferAborted t (ap_transfers b) with Err e => transfer_error e | Ok _ => err end), b)) as Hc.
  { intros b. unfold check_transfer, mbind, M_bind, get_this, lift. by destruct (throwIfTransferAborted t (ap_transfers b)). }
  unfold send_failed_with. cbv zeta. change ((get_this ≫= ?k) a) with (k a a). cbv beta.
  set (cancelled := match _ with Err _ => true | Ok _ => false end).
  destruct (shouldDeleteLocalMessageAfterFailure _ _ cancelled); [|exact (Hc a)].
  unfold discarded. case_bool_decide; [exact (Hc _)|].
  rewrite <- (Hc (on_sender (dispatch DeleteMessage) (dropped a))).
  assert (forall A B X (m : M App (HandleError E) A) (f : A -> M App (HandleError E) B) (g : B -> M App (HandleError E) X) b,
    ((m ≫= f) ≫= g) b = (m ≫= fun x => f x ≫= g) b) as Hassoc.
  { intros A1 A2 A3 m f g b. unfold mbind, M_bind. by destruct (m b) as [[]]. }
  change (mrequire true _ ≫= ?k) with (k tt).
  repeat first [rewrite Hassoc|rewrite awaits_bind|rewrite modify_bind|progress cbv beta]. done.
Qed.
(** What the body and the [catch] block leave. *)
Definition settled_ok (r : result (HandleError E) (option (PeerSendFanoutResult E))) (a : App) : Prop :=
  live t (ap_transfers a) /\ rooted a /\ (forall x, r = Ok x -> good_result x) /\
  match throwIfTransferAborted t (ap_transfers a) with
  | Err e => r = Err (transfer_error e) /\ gone a
  | Ok _ => ap_committed a = true -> history a
  end.
Lemma caught_ok err a r a' : tracked a -> caught err a = (r, a') -> settled_ok r a'.
Proof.
  intros (Hl & Hh & Hr) H. rewrite caught_run in H. cbv zeta in H. injection H as <- <-. unfold shouldDeleteLocalMessageAfterFailure.
  pose proof (discarded_locals a) as [Hc' Hr']. pose proof (discarded_work a) as Hw.
  assert (rooted (discarded a)) as Hrd by (unfold rooted; by rewrite Hr').
  destruct (throwIfTransferAborted t (ap_transfers a)) as [u|e] eqn:Ha; cbn [orb].
  - destruct (ap_committed a) eqn:Hc; cbn [negb andb].
    + split_and!; [done..|]. rewrite Ha. intros _. by apply Hh.
    + destruct (negb (ap_wire a)).
      * split_and!; [by eapply live_other|done|done|]. destruct (throwIfTransferAborted t (ap_transfers (discarded a))); [by rewrite Hc'|].
        split; [done|by apply discarded_gone].
      * split_and!; [done..|]. rewrite Ha. by rewrite Hc.
  - rewrite (abort_other _ _ _ _ Hw Ha). split_and!; [by eapply live_other|done|done|]. rewrite (abort_other _ _ _ _ Hw Ha).
    split; [done|by apply discarded_gone].
Qed.
Lemma attempt_ok a r a' : live t (ap_transfers a) -> ap_committed a = false -> ap_cleanupRoot a = [] -> ap_sender a = ap_sender a0 ->
  send_attempt message label roomId rooms transferId minChunks chunkSize percentageFilledChunk metadataSchemaVersion env
    meanwhile heap peerConnections fanout true t a = (r, a') -> settled_ok r a'.
Proof.
  intros Hl Hc Hr Hs H. unfold send_attempt in H. destruct (body a) as [[x|err] a1] eqn:Hb; apply body_tracked in Hb as [Ht Hok]; try done.
  - injection H as <- <-. destruct (Hok x eq_refl) as [Hn Hg], Ht as (H1 & H2 & H3). split_and!; [done..|by intros ? [= <-]|by rewrite Hn].
  - by eapply caught_ok.
Qed.
(** What the [finally] block leaves when its deletion is carried out. *)
Lemma send_finally_ok a r a' : live t (ap_transfers a) -> rooted a -> send_finally (E := E) roomId transferId meanwhile true t a = (r, a') ->
  r = Ok tt /\ (forall i, sd_newChunks (ap_sender a') !! (transferId, i) = None) /\ (t ∉ active_in roomId (ap_transfers a')) /\
  ap_committed a' = ap_committed a /\ ap_cleanupRoot a' = ap_cleanupRoot a /\
  keeps transferId cut0 (ap_sender a) (ap_sender a') /\ (gone a -> gone a').
Proof.
  intros Hl Hr H. unfold send_finally in H. rewrite awaits_bind in H. change (mrequire true _ ≫= ?k) with (k tt) in H. cbv beta in H.
  rewrite modify_bind, awaits_bind in H. injection H as <- <-. set (b := on_sender (fun s => snd (fnDeleteDBNewChunk transferId s)) (after at_delete a)).
  assert (live t (ap_transfers (after at_deleted b))) as Hl' by (apply after_live; by apply (after_live at_delete)).
  destruct (after_keeps at_deleted b) as (Hnew & Hrest). split; [done|]. split; [|split; [by apply finish_done|split; [done|split; [done|split]]]].
  - intros i. apply Hnew. apply (deleted_staging transferId (ap_sender (after at_delete a))).
  - eapply keeps_trans; [apply (after_keeps at_delete a)|]. eapply keeps_trans; [|apply (after_keeps at_deleted b)].
    split_and!; [|done|done]. intros i _. apply (deleted_staging transferId (ap_sender (after at_delete a))).
  - intros Hg. apply (gone_after at_deleted b Hr). by apply (gone_after at_delete a Hr).
Qed.
End Settles.

(** C14. A send of a message ends in one of its outcomes, whole.  Whatever others do
    meanwhile - short of ending the transfer, taking its cancellation back,
    staging chunks for it or touching the copy and rows under its root -, when
    [handleSendMessage] has claimed transfer [t] and ends, with the deletions it
    asks for carried out, no staged chunk of the transfer is left and [t] is no
    longer active; a result is returned only if transfers were started and a peer
    has the message.  Let [a1] be the state in which the [try] and [catch] blocks
    end: if the transfer is cancelled by then, that reason is thrown and the
    sender's copy and message are gone; if it is not, a message that was cut stays
    in the sender's history as [splitToChunks] left it, however the peers fared,
    also when a cancellation arrives while the [finally] block awaits its deletion,
    which nothing looks at any more.  If that deletion rejects, the result is lost
    and the transfer is never finished. *)
Theorem message_settles {HS : Sha512} {E} message label roomId rooms transferId minChunks chunkSize p version env meanwhile heap peerConnections
    (fanout : bool -> bytes -> SplitResult -> list PeerSendTarget -> Sender -> PeerSendFanoutResult E * Sender) (deleteOk : bool) a t ts1 r a' :
  unfinished (ap_transfers a) -> claimTransfer roomId transferId (ap_transfers a) = (Ok t, ts1) ->
  let cut := splitToChunks message transferId env minChunks chunkSize p version (ap_sender a) in
  (forall point, other_work t transferId (fst cut) (meanwhile point)) ->
  (forall scheduled lbl split targets s, keeps transferId (fst cut) s (fanout scheduled lbl split targets s).2) ->
  handleSendMessage message label roomId rooms transferId minChunks chunkSize p version env meanwhile heap peerConnections fanout true deleteOk a = (r, a') ->
  if deleteOk then
    exists a1,
    send_attempt message label roomId rooms transferId minChunks chunkSize p version env meanwhile heap peerConnections fanout true t
      (new_locals (on_transfers (fun _ => ts1) a)) = (r, a1) /\
    send_finally (E := E) roomId transferId meanwhile true t a1 = (Ok tt, a') /\
    (forall i, sd_newChunks (ap_sender a') !! (transferId, i) = None) /\ (t ∉ active_in roomId (ap_transfers a')) /\
    (forall result, r = Ok (Some result) -> fo_startedTransfers result <> 0 /\ exists peer, (peer, delivered) ∈ fo_outcomes result) /\
    match throwIfTransferAborted t (ap_transfers a1) with
    | Err e => r = Err (transfer_error e) /\ gone a'
    | Ok _ => ap_committed a' = true -> exists split,
        fst cut = Ok split /\ same_history (spr_merkleRootHex split) (snd cut) (ap_sender a')
    end
  else r = Err cleanup_failed /\ live t (ap_transfers a').
Proof.
  intros Hu Hclaim cut Hother Hfan H. pose proof (claimed_live _ _ _ _ _ Hu Hclaim) as Hl.
  unfold handleSendMessage in H. apply bind_cases in H as [(e & _ & H)|(t' & a1 & Hcl & H)]; unfold claim in *; rewrite Hclaim in *; [discriminate H|].
  injection Hcl as <- <-. rewrite modify_bind in H. unfold send_guarded in H. set (a2 := new_locals _) in H |- *.
  destruct (send_attempt _ _ _ _ _ _ _ _ _ _ _ _ _ _ _ t a2) as [r1 a1] eqn:Hg.
  pose proof Hg as (Hl1 & Hr1 & Hok & Hend)%(attempt_ok message label roomId rooms transferId minChunks chunkSize p version env
    meanwhile heap peerConnections fanout t a Hother Hfan); [|done..].
  destruct deleteOk.
  - destruct (send_finally _ _ _ _ _ a1) as [r2 a3] eqn:Hf.
    pose proof Hf as (-> & Hnone & Hout & Hc & _ & Hk & Hgone)%(send_finally_ok message roomId transferId minChunks chunkSize p version env meanwhile t a Hother); [|done..].
    injection H as <- <-. exists a1. do 4 (split; [done|]). split.
    + intros result ->. destruct (Hok _ eq_refl result eq_refl) as [H1 H2]. split; [done|]. apply existsb_exists in H2 as ([peer status] & Hin & Hd).
      exists peer. apply list_elem_of_In. destruct status; try discriminate Hd. done.
    + destruct (throwIfTransferAborted t (ap_transfers a1)); [|destruct Hend; auto].
      rewrite Hc. intros Hcom. destruct (Hend Hcom) as (split & Hs & Hk1). exists split. split; [done|].
      destruct (keeps_trans _ _ _ _ _ Hk1 Hk) as (_ & _ & Hh). by apply Hh.
  - unfold send_finally in H. rewrite awaits_bind in H.
    injection H as <- <-. split; [done|]. eapply live_other; [|exact Hl1]. apply Hother.
Qed.
