(* ===== verification/Mutex.v ===== *)
(** * Mutexes ([src/src/utils/mutex.ts], [src/src/api/webrtc/negotiationLock.ts])

    The asynchronous mutex, and the registry that keeps one mutex for each room
    and peer and forgets it when the edge is gone.  A caller of [acquire] and a
    waiter of [whenIdle] are given by a name; resolving its promise returns the
    name.  [runExclusive] is an [acquire] whose holder calls [release] once. *)

From Stdlib Require Import String.
From stdpp Require Import gmap.
From S2P Require Import Prelude Bytes Ratchet Metadata RoomInvite.
Local Open Scope Z_scope.
Local Open Scope list_scope.

(** ** [AsyncMutex] *)

Record AsyncMutex := MkMutex { mx_queue : list nat; mx_locked : bool; mx_idleWaiters : list nat }.
Definition new_mutex : AsyncMutex := MkMutex [] false [].
Definition acquire (caller : nat) (m : AsyncMutex) : bool * AsyncMutex :=
  if negb (mx_locked m) then (true, MkMutex (mx_queue m) true (mx_idleWaiters m))
  else (false, MkMutex (mx_queue m ++ [caller]) (mx_locked m) (mx_idleWaiters m)).
(** The caller that gets the lock, and the waiters that are told. *)
Definition release (m : AsyncMutex) : option nat * list nat * AsyncMutex :=
  match mx_queue m with
  | next :: queue => (Some next, [], MkMutex queue (mx_locked m) (mx_idleWaiters m))
  | [] => (None, mx_idleWaiters m, MkMutex [] false [])
  end.
Definition isIdle (m : AsyncMutex) : bool := negb (mx_locked m) && bool_decide (mx_queue m = []).
Definition whenIdle (waiter : nat) (m : AsyncMutex) : bool * AsyncMutex :=
  if isIdle m then (true, m) else (false, MkMutex (mx_queue m) (mx_locked m) (mx_idleWaiters m ++ [waiter])).

(** The promise: callers stand in a line, whose first member holds the lock. *)
Definition in_line (m : AsyncMutex) (holder : option nat) (line : list nat) : Prop :=
  line = match holder with Some h => h :: mx_queue m | None => [] end /\
  mx_locked m = bool_decide (is_Some holder) /\ (holder = None -> mx_queue m = [] /\ mx_idleWaiters m = []).

(** C31. The mutex is a line.  An [acquire] puts its caller at the end and resolves at
    once exactly when the line was empty; the [release] of the holder takes it
    from the front and resolves the [acquire] of the next in line and no other;
    and the waiters for idleness are told exactly when the line becomes empty. *)
Theorem mutex_refines_line m holder line : in_line m holder line ->
  (forall caller, let '(now, m') := acquire caller m in
     now = bool_decide (line = []) /\ in_line m' (if now then Some caller else holder) (line ++ [caller])) /\
  (forall h rest, line = h :: rest -> let '(next, told, m') := release m in
     holder = Some h /\ next = head rest /\ in_line m' next rest /\
     told = (if bool_decide (rest = []) then mx_idleWaiters m else [])) /\
  isIdle m = bool_decide (line = []) /\
  (forall waiter, let '(now, m') := whenIdle waiter m in
     now = bool_decide (line = []) /\ in_line m' holder line /\ (now = false -> waiter ∈ mx_idleWaiters m')).
Proof.
  intros (-> & Hl & Hn). destruct m as [queue locked waiters]. cbn in *. destruct holder as [h0|].
  - rewrite bool_decide_eq_true_2 in Hl by by eexists. subst locked. split_and!.
    + intros caller. unfold acquire. cbn. split; [done|]. split_and!; [done|done|done].
    + intros h rest [= <- <-]. unfold release. cbn. destruct queue as [|next queue]; cbn; split_and!; try done.
    + done.
    + intros waiter. unfold whenIdle, isIdle. cbn. split_and!; [done|done|]. intros _. apply elem_of_app. right. by left.
  - destruct (Hn eq_refl) as [-> ->]. rewrite bool_decide_eq_false_2 in Hl by by intros [? ?]. subst locked. split_and!.
    + intros caller. unfold acquire. cbn. split; [done|]. split_and!; [done|done|done].
    + intros h rest H. discriminate H.
    + done.
    + intros waiter. unfold whenIdle, isIdle. cbn. split_and!; try done.
Qed.

(** ** The registry of an edge's mutexes *)

Definition roomPeerKey (roomId peerId : list Z) : list Z := units (decimal (blen roomId)) ++ units ":" ++ roomId ++ peerId.

(** [rg_mutexes]: every mutex ever made, with the key it was made for; its waiters
    for idleness are the releases that await it.  [rg_woken]: the releases whose
    wait has resolved. *)
Record Registry := MkRegistry {
  rg_mutexes : list (list Z * AsyncMutex); rg_map : gmap (list Z) nat; rg_woken : list nat }.
Definition on_mutex (i : nat) (f : AsyncMutex -> AsyncMutex) (r : Registry) : Registry :=
  MkRegistry (alter (fun e => (e.1, f e.2)) i (rg_mutexes r)) (rg_map r) (rg_woken r).

Definition getRoomPeerMutex (key : list Z) (r : Registry) : nat * Registry :=
  match rg_map r !! key with
  | Some i => (i, r)
  | None =>
      let i := length (rg_mutexes r) in
      (i, MkRegistry (rg_mutexes r ++ [(key, new_mutex)]) (<[key := i]> (rg_map r)) (rg_woken r))
  end.
(** [getRoomPeerMutex(...).runExclusive(...)] up to its wait. *)
Definition enter (key : list Z) (caller : nat) (r : Registry) : Registry :=
  let '(i, r) := getRoomPeerMutex key r in on_mutex i (fun m => (acquire caller m).2) r.
(** The end of a critical section. *)
Definition leave (i : nat) (r : Registry) : Registry :=
  match rg_mutexes r !! i with
  | Some (_, m) =>
      if mx_locked m then
        let r := on_mutex i (fun m => (release m).2) r in
        MkRegistry (rg_mutexes r) (rg_map r) (rg_woken r ++ (release m).1.2)
      else r
  | None => r
  end.
(** [await mutex.whenIdle()] of a release of mutex [i]. *)
Definition await_idle (i : nat) (r : Registry) : Registry :=
  match rg_mutexes r !! i with
  | Some (_, m) =>
      if (whenIdle i m).1 then MkRegistry (rg_mutexes r) (rg_map r) (rg_woken r ++ [i])
      else on_mutex i (fun m => (whenIdle i m).2) r
  | None => r
  end.
Definition releaseRoomPeerMutex (key : list Z) (r : Registry) : Registry :=
  match rg_map r !! key with Some i => await_idle i r | None => r end.
(** A release whose wait has resolved: it looks again, and forgets the mutex or
    goes round its loop. *)
Definition release_woken (n : nat) (r : Registry) : Registry :=
  match rg_woken r !! n with
  | Some i =>
      let r := MkRegistry (rg_mutexes r) (rg_map r) (delete n (rg_woken r)) in
      match rg_mutexes r !! i with
      | Some (key, m) =>
          if negb (isIdle m) then await_idle i r
          else if bool_decide (rg_map r !! key = Some i) then MkRegistry (rg_mutexes r) (delete key (rg_map r)) (rg_woken r)
          else r
      | None => r
      end
  | None => r
  end.

Inductive RegistryEvent :=
  | Enters (key : list Z) (caller : nat) | Leaves (i : nat) | EdgeGone (key : list Z) | ReleaseGoesOn (n : nat).
Definition registry_step (r : Registry) (ev : RegistryEvent) : Registry :=
  match ev with
  | Enters key caller => enter key caller r
  | Leaves i => leave i r
  | EdgeGone key => releaseRoomPeerMutex key r
  | ReleaseGoesOn n => release_woken n r
  end.
Definition registry_run (evs : list RegistryEvent) : Registry := fold_left registry_step evs (MkRegistry [] ∅ []).

(** A mutex in use is the one the registry gives for its key. *)
Record registry_inv (r : Registry) : Prop := {
  ri_map key i : rg_map r !! key = Some i -> exists m, rg_mutexes r !! i = Some (key, m);
  ri_busy key i m : rg_mutexes r !! i = Some (key, m) -> isIdle m = false -> rg_map r !! key = Some i;
  ri_unlocked key i m : rg_mutexes r !! i = Some (key, m) -> mx_locked m = false -> mx_queue m = [] }.

Lemma on_mutex_inv i f r : registry_inv r ->
  (forall key m, rg_mutexes r !! i = Some (key, m) -> (isIdle (f m) = false -> rg_map r !! key = Some i) /\
     (mx_locked (f m) = false -> mx_queue (f m) = [])) -> registry_inv (on_mutex i f r).
Proof.
  intros [I1 I2 I3] H.
  assert (forall j key m, alter (fun e => (e.1, f e.2)) i (rg_mutexes r) !! j = Some (key, m) ->
    exists m0, rg_mutexes r !! j = Some (key, m0) /\ (j = i /\ m = f m0 \/ j <> i /\ m = m0)) as Hl.
  { intros j key m Hj. destruct (decide (i = j)) as [<-|Hne].
    - rewrite list_lookup_alter_eq in Hj. apply fmap_Some in Hj as ([k m0] & Hk & [= -> ->]). exists m0. split; [done|by left].
    - rewrite list_lookup_alter_ne in Hj by done. exists m. split; [done|by right]. }
  split; cbn.
  - intros key j Hj. destruct (I1 key j Hj) as [m Hm]. destruct (decide (i = j)) as [<-|Hne].
    + exists (f m). by rewrite list_lookup_alter_eq, Hm.
    + exists m. by rewrite list_lookup_alter_ne.
  - intros key j m (m0 & Hm & [[-> ->]|[_ ->]])%Hl; [by apply (H key m0)|by apply I2].
  - intros key j m (m0 & Hm & [[-> ->]|[_ ->]])%Hl; [by apply (H key m0)|by apply (I3 key j)].
Qed.
Lemma woken_inv r woken : registry_inv r -> registry_inv (MkRegistry (rg_mutexes r) (rg_map r) woken).
Proof. by intros [I1 I2 I3]. Qed.
Lemma await_inv i r : registry_inv r -> registry_inv (await_idle i r).
Proof.
  intros I. unfold await_idle. destruct (rg_mutexes r !! i) as [[key m]|] eqn:Hi; [|done].
  destruct (whenIdle i m).1 eqn:Hw; [by apply woken_inv|]. apply on_mutex_inv; [done|]. intros key' m' Hm. rewrite Hi in Hm. injection Hm as <- <-.
  unfold whenIdle in *. destruct (isIdle m) eqn:Hidle; [discriminate Hw|]. cbn. split; [|by apply (ri_unlocked _ I key i)].
  intros _. by eapply ri_busy.
Qed.
Lemma get_inv key r : registry_inv r -> registry_inv (getRoomPeerMutex key r).2 /\
  exists m, rg_mutexes (getRoomPeerMutex key r).2 !! (getRoomPeerMutex key r).1 = Some (key, m) /\
    rg_map (getRoomPeerMutex key r).2 !! key = Some (getRoomPeerMutex key r).1.
Proof.
  intros I. unfold getRoomPeerMutex. destruct (rg_map r !! key) as [i|] eqn:Hk; cbn.
  { split; [done|]. destruct (ri_map _ I _ _ Hk) as [m Hm]. by exists m. }
  split; [|exists new_mutex; rewrite list_lookup_middle, lookup_insert_eq by done; done].
  destruct I as [I1 I2 I3]. split; cbn.
  - intros key' i [[<- <-]|[Hne Hi]]%lookup_insert_Some; [exists new_mutex; by rewrite list_lookup_middle|].
    destruct (I1 _ _ Hi) as [m Hm]. exists m. by apply lookup_app_l_Some.
  - intros key' i m [Hi|[_ Hi]]%lookup_app_Some Hb.
    + rewrite lookup_insert_ne; [by apply (I2 key' i m)|]. intros <-. rewrite (I2 _ _ _ Hi Hb) in Hk. discriminate Hk.
    + apply list_lookup_singleton_Some in Hi as [_ [= <- <-]]. discriminate Hb.
  - intros key' i m [Hi|[_ Hi]]%lookup_app_Some Hl; [by apply (I3 key' i m)|].
    by apply list_lookup_singleton_Some in Hi as [_ [= <- <-]].
Qed.
Lemma registry_step_inv r ev : registry_inv r -> registry_inv (registry_step r ev).
Proof.
  intros I. destruct ev as [key caller|i|key|n]; cbn.
  - unfold enter. destruct (get_inv key r I) as (I' & m & Hm & Hk). destruct (getRoomPeerMutex key r) as [i r']. cbn in *.
    apply on_mutex_inv; [done|]. intros key' m' Hm'. rewrite Hm in Hm'. injection Hm' as <- <-. split; [done|].
    unfold acquire. destruct (mx_locked m) eqn:Hl; cbn; [intros H; by rewrite H in Hl|done].
  - unfold leave. destruct (rg_mutexes r !! i) as [[key m]|] eqn:Hi; [|done]. destruct (mx_locked m) eqn:Hl; [|done].
    apply (woken_inv (on_mutex i (fun m => (release m).2) r)). apply on_mutex_inv; [done|]. intros key' m' Hm. rewrite Hi in Hm. injection Hm as <- <-.
    assert (rg_map r !! key = Some i) as Hk by (eapply ri_busy; [done..|]; unfold isIdle; by rewrite Hl).
    unfold release. destruct (mx_queue m); cbn; [done|]. split; [done|]. intros H. by rewrite H in Hl.
  - unfold releaseRoomPeerMutex. destruct (rg_map r !! key) as [i|]; [by apply await_inv|done].
  - unfold release_woken. destruct (rg_woken r !! n) as [i|]; [|done]. cbn.
    destruct (rg_mutexes r !! i) as [[key m]|] eqn:Hi; [|by apply woken_inv].
    destruct (isIdle m) eqn:Hidle; cbn [negb]; [|by apply await_inv, woken_inv].
    case_bool_decide as Hk; [|by apply woken_inv]. destruct I as [I1 I2 I3]. split; cbn; [| |done].
    + intros key' j [Hne Hj]%lookup_delete_Some. by apply I1.
    + intros key' j m' Hj Hb. pose proof (I2 _ _ _ Hj Hb) as Hm. rewrite lookup_delete_ne; [done|]. intros <-.
      rewrite Hk in Hm. injection Hm as <-. rewrite Hi in Hj. injection Hj as <-. by rewrite Hidle in Hb.
Qed.

(** C32. One critical section per edge.  Whatever callers come and go and however often
    an edge is torn down and comes back, two different mutexes made for one room
    and peer are never both in use: the registry forgets a mutex only when nobody
    holds or awaits it, so a new one cannot let a second caller in beside the
    first. *)
Theorem one_critical_section evs key i j m m' : let r := registry_run evs in
  rg_mutexes r !! i = Some (key, m) -> rg_mutexes r !! j = Some (key, m') -> isIdle m = false -> isIdle m' = false -> i = j.
Proof.
  cbv zeta. intros Hi Hj Hm Hm'. assert (registry_inv (registry_run evs)) as I.
  { unfold registry_run. assert (registry_inv (MkRegistry [] ∅ [])) as H by (split; intros *; cbn; rewrite ?lookup_empty, ?lookup_nil; done).
    clear Hi Hj. revert H. generalize (MkRegistry [] ∅ []). induction evs as [|ev evs IH]; intros r I; [done|]. cbn. apply IH. by apply registry_step_inv. }
  pose proof (ri_busy _ I _ _ _ Hi Hm) as H. rewrite (ri_busy _ I _ _ _ Hj Hm') in H. by injection H.
Qed.
