(* ===== verification/Leases.v ===== *)
(** * Gates and inboxes of an edge ([src/src/handlers/ratchetGate.ts], [handleHandshake.ts])

    The gate that application frames of an edge await until the handshake has
    succeeded, and the inbox that hands the handshake frames of its main channel
    to [recv].  Both are owned by a lease, a fresh object for each attempt; a
    lease is the number of the gate or inbox it came with.  A promise is resolved
    or rejected once: [GateOutcome], and the outputs of the inbox. *)

From Stdlib Require Import String.
From stdpp Require Import gmap.
From S2P Require Import Prelude Bytes RoomPolicy RoomInvite Handshake.
Local Open Scope Z_scope.
Local Open Scope list_scope.
Implicit Types (key : list Z) (lease : nat).

(** [`${roomId}\u0000${peerId}`] *)
Definition gateKey (roomId peerId : list Z) : list Z := roomId ++ [0] ++ peerId.

(** ** The gate *)

Inductive GateOutcome := gate_pending | gate_open | gate_rejected.
#[export] Instance GateOutcome_eq_dec : EqDecision GateOutcome.
Proof. solve_decision. Defined.
Record Gate := MkGate { gt_key : list Z; gt_settled : bool; gt_outcome : GateOutcome }.
(** Every gate ever made, and [gates]. *)
Record Gates := MkGates { gs_heap : list Gate; gs_map : gmap (list Z) nat }.

Definition ensure key (s : Gates) : nat * Gates :=
  match gs_map s !! key with
  | Some lease => (lease, s)
  | None => (length (gs_heap s), MkGates (gs_heap s ++ [MkGate key false gate_pending]) (<[key := length (gs_heap s)]> (gs_map s)))
  end.
Definition settle (outcome : GateOutcome) lease (s : Gates) : Gates :=
  MkGates (alter (fun g => MkGate (gt_key g) true outcome) lease (gs_heap s)) (gs_map s).
Definition settled lease (s : Gates) : bool := match gs_heap s !! lease with Some g => gt_settled g | None => true end.

(** [getRatchetGate] and [claimRatchetGate]: the promise and the lease of the gate. *)
Definition claimRatchetGate key (s : Gates) : nat * Gates := ensure key s.
Definition isCurrentRatchetGateLease key lease (s : Gates) : bool := bool_decide (gs_map s !! key = Some lease).
Definition isRatchetGateOpen key (lease : option nat) (s : Gates) : bool :=
  match gs_map s !! key with
  | Some current =>
      match gs_heap s !! current with Some g => bool_decide (gt_outcome g = gate_open) | None => false end
      && match lease with None => true | Some lease => bool_decide (current = lease) end
  | None => false
  end.
Definition openRatchetGate key lease (s : Gates) : bool * Gates :=
  let '(current, s) := ensure key s in
  if negb (bool_decide (current = lease)) || settled current s then (false, s) else (true, settle gate_open current s).
Definition rejectRatchetGate key (lease : option nat) (s : Gates) : bool * Gates :=
  let '(current, s) := ensure key s in
  if match lease with Some lease => negb (bool_decide (current = lease)) | None => false end then (false, s)
  else (true, if settled current s then s else settle gate_rejected current s).
Definition resetRatchetGate key (s : Gates) : nat * Gates :=
  let s := match gs_map s !! key with
           | Some current => if settled current s then s else settle gate_rejected current s
           | None => s
           end in
  ensure key (MkGates (gs_heap s) (delete key (gs_map s))).

Inductive GateEvent :=
  | Claims key | Opens key lease | Rejects key (lease : option nat) | Resets key.
Definition gate_step (s : Gates) (ev : GateEvent) : Gates :=
  match ev with
  | Claims key => (claimRatchetGate key s).2
  | Opens key lease => (openRatchetGate key lease s).2
  | Rejects key lease => (rejectRatchetGate key lease s).2
  | Resets key => (resetRatchetGate key s).2
  end.
Definition gate_run (evs : list GateEvent) : Gates := fold_left gate_step evs (MkGates [] ∅).

(** ** The inbox *)

Inductive InboxError := channel_replaced | channel_cleared | surplus_frame | stale_lease | step_timed_out.
#[export] Instance InboxError_eq_dec : EqDecision InboxError.
Proof. solve_decision. Defined.
Record Inbox := MkInbox {
  ib_pqMode : RoomPqMode; ib_expectFinish : bool; ib_queue : list bytes; ib_nextStep : option Z; ib_waiters : list nat }.
Record Inboxes := MkInboxes { is_heap : list Inbox; is_map : gmap (list Z) nat }.
(** What an operation on the inbox of a lease does for others to see: it accepts a
    frame, or settles the promise of a [recv]. *)
Inductive Output := Accepted lease (frame : bytes) | Handed lease (waiter : nat) (frame : bytes) | Refused lease (waiter : nat) (e : InboxError).

Definition refuse_all lease (e : InboxError) (s : Inboxes) : list Output :=
  match is_heap s !! lease with Some inbox => (fun w => Refused lease w e) <$> ib_waiters inbox | None => [] end.
Definition on_inbox lease (f : Inbox -> Inbox) (s : Inboxes) : Inboxes := MkInboxes (alter f lease (is_heap s)) (is_map s).
Definition no_waiters (i : Inbox) : Inbox := MkInbox (ib_pqMode i) (ib_expectFinish i) (ib_queue i) (ib_nextStep i) [].

Definition setHandshakeChannel key (pqMode : RoomPqMode) (expectFinish : bool) (s : Inboxes) : nat * Inboxes * list Output :=
  let '(s, out) := match is_map s !! key with
                   | Some previous => (on_inbox previous no_waiters s, refuse_all previous channel_replaced s)
                   | None => (s, [])
                   end in
  let lease := length (is_heap s) in
  (lease, MkInboxes (is_heap s ++ [MkInbox pqMode expectFinish [] (Some 1) []]) (<[key := lease]> (is_map s)), out).

Definition clearHandshakeChannel key (reason : InboxError) (lease : option nat) (s : Inboxes) : bool * Inboxes * list Output :=
  match is_map s !! key with
  | Some current =>
      if match lease with Some lease => negb (bool_decide (current = lease)) | None => false end then (false, s, [])
      else (true, MkInboxes (is_heap (on_inbox current no_waiters s)) (delete key (is_map s)), refuse_all current reason s)
  | None => (false, s, [])
  end.

Definition next_step (step : Z) (expectFinish : bool) : option Z :=
  if step =? 1 then Some 2 else if (step =? 2) && expectFinish then Some 3 else None.
Definition deliverHandshakeFrame key (payload : bytes) lease (s : Inboxes) : bool * Inboxes * list Output :=
  if negb (bool_decide (is_map s !! key = Some lease)) then (false, s, []) else
  match is_heap s !! lease with
  | None => (false, s, [])
  | Some inbox =>
      match ib_nextStep inbox with
      | Some step =>
          if isHandshakePayloadForStep payload step (ib_pqMode inbox) then
            let next := next_step step (ib_expectFinish inbox) in
            match ib_waiters inbox with
            | w :: waiters =>
                (true, on_inbox lease (fun i => MkInbox (ib_pqMode i) (ib_expectFinish i) (ib_queue i) next waiters) s,
                 [Accepted lease payload; Handed lease w payload])
            | [] =>
                (true, on_inbox lease (fun i => MkInbox (ib_pqMode i) (ib_expectFinish i) (ib_queue i ++ [payload]) next (ib_waiters i)) s,
                 [Accepted lease payload])
            end
          else let '(_, s, out) := clearHandshakeChannel key surplus_frame (Some lease) s in (false, s, out)
      | None => let '(_, s, out) := clearHandshakeChannel key surplus_frame (Some lease) s in (false, s, out)
      end
  end.

(** [recv] of the transport of [lease]; [waiter] names its promise. *)
Definition recv_frame key lease (waiter : nat) (s : Inboxes) : Inboxes * list Output :=
  if negb (bool_decide (is_map s !! key = Some lease)) then (s, [Refused lease waiter stale_lease]) else
  match is_heap s !! lease with
  | None => (s, [Refused lease waiter stale_lease])
  | Some inbox =>
      match ib_queue inbox with
      | frame :: queue =>
          (on_inbox lease (fun i => MkInbox (ib_pqMode i) (ib_expectFinish i) queue (ib_nextStep i) (ib_waiters i)) s,
           [Handed lease waiter frame])
      | [] =>
          (on_inbox lease (fun i => MkInbox (ib_pqMode i) (ib_expectFinish i) (ib_queue i) (ib_nextStep i) (ib_waiters i ++ [waiter])) s, [])
      end
  end.
(** The timer of a [recv] that still waits; the others are cleared. *)
Definition step_timeout lease (waiter : nat) (s : Inboxes) : Inboxes * list Output :=
  match is_heap s !! lease with
  | Some inbox =>
      if bool_decide (waiter ∈ ib_waiters inbox)
      then (on_inbox lease (fun i => MkInbox (ib_pqMode i) (ib_expectFinish i) (ib_queue i) (ib_nextStep i)
                                       (filter (fun w => w <> waiter) (ib_waiters i))) s,
            [Refused lease waiter step_timed_out])
      else (s, [])
  | None => (s, [])
  end.

Inductive InboxEvent :=
  | SetChannel key (pqMode : RoomPqMode) (expectFinish : bool) | ClearChannel key (lease : option nat)
  | Delivers key (payload : bytes) lease | Recvs key lease (waiter : nat) | TimesOut lease (waiter : nat).
Definition inbox_step (s : Inboxes) (ev : InboxEvent) : Inboxes * list Output :=
  match ev with
  | SetChannel key pqMode expectFinish => let '(_, s, out) := setHandshakeChannel key pqMode expectFinish s in (s, out)
  | ClearChannel key lease => let '(_, s, out) := clearHandshakeChannel key channel_cleared lease s in (s, out)
  | Delivers key payload lease => let '(_, s, out) := deliverHandshakeFrame key payload lease s in (s, out)
  | Recvs key lease waiter => recv_frame key lease waiter s
  | TimesOut lease waiter => step_timeout lease waiter s
  end.
Fixpoint inbox_run (evs : list InboxEvent) (s : Inboxes) : Inboxes * list Output :=
  match evs with
  | [] => (s, [])
  | ev :: evs => let '(s, out) := inbox_step s ev in let '(s, rest) := inbox_run evs s in (s, out ++ rest)
  end.
Definition no_inboxes : Inboxes := MkInboxes [] ∅.

(** * What a lease protects

    A gate is settled once and only by the attempt that
    owns it, a stale attempt changes nothing any more, and an inbox hands out
    exactly the frames it accepted, in order, each of the step that was due. *)
Implicit Types (s : Gates).

(** ** Gates *)

Record gates_inv s : Prop := {
  gi_map key lease : gs_map s !! key = Some lease -> exists g, gs_heap s !! lease = Some g /\ gt_key g = key;
  gi_settled lease g : gs_heap s !! lease = Some g -> gt_settled g = negb (bool_decide (gt_outcome g = gate_pending));
  gi_stale lease g : gs_heap s !! lease = Some g -> gs_map s !! gt_key g <> Some lease -> gt_settled g = true }.
(** Gates keep their key and, once settled, their outcome; a stale gate stays stale. *)
Definition gates_grow s s' : Prop := forall lease g, gs_heap s !! lease = Some g -> exists g', gs_heap s' !! lease = Some g' /\
  gt_key g' = gt_key g /\ (gt_settled g = true -> gt_outcome g' = gt_outcome g /\ gt_settled g' = true) /\
  (gs_map s !! gt_key g <> Some lease -> gs_map s' !! gt_key g <> Some lease).

Lemma grow_refl s : gates_grow s s.
Proof. intros lease g H. by exists g. Qed.
Lemma grow_trans s1 s2 s3 : gates_grow s1 s2 -> gates_grow s2 s3 -> gates_grow s1 s3.
Proof.
  intros H1 H2 lease g H. destruct (H1 lease g H) as (g2 & Hg2 & Hk2 & Ho2 & Hs2). destruct (H2 lease g2 Hg2) as (g3 & Hg3 & Hk3 & Ho3 & Hs3).
  exists g3. rewrite Hk2 in *. split_and!; [done|congruence| |].
  - intros Hset. destruct (Ho2 Hset) as [Heq Hset2]. destruct (Ho3 Hset2) as [Heq' ?]. split; [congruence|done].
  - intros Hst. by apply Hs3, Hs2.
Qed.
Lemma heap_lookup (heap : list Gate) g lease : (heap ++ [g]) !! lease = if bool_decide (lease = length heap) then Some g else heap !! lease.
Proof.
  case_bool_decide as H; [subst; by rewrite list_lookup_middle|]. destruct (decide (lease < length heap)%nat) as [Hl|Hl].
  - by rewrite lookup_app_l.
  - rewrite lookup_ge_None_2 by (rewrite length_app; cbn; lia). by rewrite lookup_ge_None_2 by lia.
Qed.

Lemma ensure_gate_ok key s : gates_inv s -> gates_inv (ensure key s).2 /\ gates_grow s (ensure key s).2 /\
  gs_map (ensure key s).2 !! key = Some (ensure key s).1.
Proof.
  intros I. unfold ensure. destruct (gs_map s !! key) as [lease|] eqn:Hk; [split_and!; [done|apply grow_refl|done]|].
  cbn. split_and!; [| |by rewrite lookup_insert_eq].
  - destruct I as [I1 I2 I3]. split; cbn; intros *; rewrite ?heap_lookup.
    + intros [[<- <-]|[_ H]]%lookup_insert_Some; [rewrite bool_decide_eq_true_2 by done; by eexists|].
      destruct (I1 _ _ H) as (g & Hg & Hgk). apply lookup_lt_Some in Hg as Hlt. rewrite bool_decide_eq_false_2 by lia. by exists g.
    + case_bool_decide; [by intros [= <-]|apply I2].
    + case_bool_decide as Hl; [intros [= <-] H; subst; cbn in H; by rewrite lookup_insert_eq in H|].
      intros Hg H. apply (I3 lease g Hg). destruct (decide (key = gt_key g)) as [<-|Hne]; [by rewrite Hk|].
      by rewrite lookup_insert_ne in H.
  - intros lease g Hg. exists g. cbn. apply lookup_lt_Some in Hg as Hlt. rewrite heap_lookup, bool_decide_eq_false_2 by lia. split_and!; try done.
    intros H. destruct (decide (key = gt_key g)) as [->|Hne]; [rewrite lookup_insert_eq; intros [= <-]; lia|by rewrite lookup_insert_ne].
Qed.
Lemma settle_ok outcome lease s : gates_inv s -> outcome <> gate_pending -> settled lease s = false ->
  gates_inv (settle outcome lease s) /\ gates_grow s (settle outcome lease s).
Proof.
  intros I Ho Hs. unfold settled in Hs. destruct (gs_heap s !! lease) as [g0|] eqn:H0; [|discriminate Hs].
  assert (forall l g, gs_heap (settle outcome lease s) !! l = Some g -> exists g1, gs_heap s !! l = Some g1 /\
    (l = lease /\ g1 = g0 /\ g = MkGate (gt_key g1) true outcome \/ l <> lease /\ g = g1)) as Hl.
  { intros l g. cbn. destruct (decide (l = lease)) as [->|Hne].
    - rewrite list_lookup_alter_eq, H0. cbn. intros [= <-]. exists g0. split; [done|by left].
    - rewrite list_lookup_alter_ne by done. intros H. exists g. split; [done|by right]. }
  split.
  - destruct I as [I1 I2 I3]. split.
    + intros key l H. destruct (I1 key l H) as (g & Hg & Hk). cbn. destruct (decide (lease = l)) as [<-|Hne].
      * rewrite list_lookup_alter_eq, Hg. by eexists.
      * rewrite list_lookup_alter_ne by done. by exists g.
    + intros l g (g1 & Hg1 & [(-> & -> & ->)|[_ ->]])%Hl; [by rewrite bool_decide_eq_false_2|by apply (I2 l)].
    + intros l g (g1 & Hg1 & [(-> & -> & ->)|[_ ->]])%Hl Hst; [done|by apply (I3 l)].
  - intros l g Hg. cbn. destruct (decide (lease = l)) as [<-|Hne].
    + rewrite list_lookup_alter_eq, Hg. rewrite H0 in Hg. injection Hg as ->. eexists. split; [reflexivity|]. cbn. split_and!; [done| |done].
      intros H. by rewrite H in Hs.
    + rewrite list_lookup_alter_ne by done. by exists g.
Qed.
Lemma unmap_ok key s : gates_inv s -> (forall lease, gs_map s !! key = Some lease -> settled lease s = true) ->
  gates_inv (MkGates (gs_heap s) (delete key (gs_map s))) /\ gates_grow s (MkGates (gs_heap s) (delete key (gs_map s))).
Proof.
  intros [I1 I2 I3] H. split.
  - split; cbn; [intros key' lease [_ Hl]%lookup_delete_Some; by apply I1|done|].
    intros lease g Hg Hst. destruct (decide (gs_map s !! gt_key g = Some lease)) as [Hc|Hc]; [|by apply (I3 lease)].
    destruct (decide (key = gt_key g)) as [->|Hne]; [|by rewrite lookup_delete_ne in Hst].
    specialize (H _ Hc). unfold settled in H. by rewrite Hg in H.
  - intros lease g Hg. exists g. cbn. split_and!; try done. intros Hst [_ Hl]%lookup_delete_Some. done.
Qed.
Lemma gate_step_ok s ev : gates_inv s -> gates_inv (gate_step s ev) /\ gates_grow s (gate_step s ev).
Proof.
  intros I. destruct ev as [key|key lease|key lease|key]; cbn [gate_step].
  - destruct (ensure_gate_ok key s I) as (? & ? & _). done.
  - unfold openRatchetGate. destruct (ensure_gate_ok key s I) as (I' & G & _). destruct (ensure key s) as [current s']. cbn in *.
    destruct (negb _ || settled current s') eqn:Hb; [done|]. apply orb_false_iff in Hb as [_ Hb].
    destruct (settle_ok gate_open current s' I' ltac:(done) Hb) as [? ?]. split; [done|by eapply grow_trans].
  - unfold rejectRatchetGate. destruct (ensure_gate_ok key s I) as (I' & G & _). destruct (ensure key s) as [current s']. cbn in *.
    destruct (match lease with Some _ => _ | None => _ end); [done|]. cbn. destruct (settled current s') eqn:Hb; [done|].
    destruct (settle_ok gate_rejected current s' I' ltac:(done) Hb) as [? ?]. split; [done|by eapply grow_trans].
  - unfold resetRatchetGate. set (s1 := match gs_map s !! key with Some _ => _ | None => _ end).
    assert (gates_inv s1 /\ gates_grow s s1 /\ gs_map s1 = gs_map s /\ forall lease, gs_map s !! key = Some lease -> settled lease s1 = true)
      as (I1 & G1 & Hm & Hs).
    { subst s1. destruct (gs_map s !! key) as [current|] eqn:Hk; [|split_and!; [done|apply grow_refl|done|done]].
      destruct (settled current s) eqn:Hb; [split_and!; [done|apply grow_refl|done|by intros ? [= <-]]|].
      destruct (settle_ok gate_rejected current s I ltac:(done) Hb) as [? ?]. split_and!; [done..|]. intros lease [= <-].
      unfold settled in *. cbn. rewrite list_lookup_alter_eq. by destruct (gs_heap s !! current). }
    destruct (unmap_ok key s1 I1) as [I2 G2]; [by rewrite Hm|].
    destruct (ensure_gate_ok key _ I2) as (I3 & G3 & _). split; [done|]. eapply grow_trans; [exact G1|]. by eapply grow_trans.
Qed.
Lemma gates_reachable evs : gates_inv (gate_run evs).
Proof.
  unfold gate_run. assert (gates_inv (MkGates [] ∅)) as I by (split; intros *; cbn; rewrite ?lookup_empty, ?lookup_nil; done).
  revert I. generalize (MkGates [] ∅). induction evs as [|ev evs IH]; intros s I; [done|]. cbn. by apply IH, gate_step_ok.
Qed.
Lemma gates_grow_run evs s : gates_inv s -> gates_inv (fold_left gate_step evs s) /\ gates_grow s (fold_left gate_step evs s).
Proof.
  revert s. induction evs as [|ev evs IH]; intros s I; [split; [done|apply grow_refl]|]. cbn.
  destruct (gate_step_ok s ev I) as [I1 G1]. destruct (IH _ I1) as [I2 G2]. split; [done|by eapply grow_trans].
Qed.

(** A stale attempt changes nothing.  Once a gate is no longer the one of its edge -
    the edge was reset - it has an outcome, so nobody awaits it for ever, and it
    keeps it; its lease is never current again, opens and rejects nothing, and
    never passes for an open gate, whatever the attempts that replace it do. *)
Theorem stale_lease_inert evs evs' lease g : let s := gate_run evs in
  gs_heap s !! lease = Some g -> isCurrentRatchetGateLease (gt_key g) lease s = false ->
  let s' := gate_run (evs ++ evs') in
  gt_outcome g <> gate_pending /\ (exists g', gs_heap s' !! lease = Some g' /\ gt_key g' = gt_key g /\ gt_outcome g' = gt_outcome g) /\
  isCurrentRatchetGateLease (gt_key g) lease s' = false /\ isRatchetGateOpen (gt_key g) (Some lease) s' = false /\
  (openRatchetGate (gt_key g) lease s').1 = false /\ (openRatchetGate (gt_key g) lease s').2 = (ensure (gt_key g) s').2 /\
  (rejectRatchetGate (gt_key g) (Some lease) s').1 = false /\ (rejectRatchetGate (gt_key g) (Some lease) s').2 = (ensure (gt_key g) s').2.
Proof.
  cbv zeta. intros Hg Hst. apply bool_decide_eq_false in Hst. pose proof (gates_reachable evs) as I.
  assert (gates_inv (gate_run (evs ++ evs')) /\ gates_grow (gate_run evs) (gate_run (evs ++ evs'))) as [I' G].
  { unfold gate_run. rewrite fold_left_app. apply gates_grow_run, I. }
  pose proof (gi_stale _ I _ _ Hg Hst) as Hset. destruct (G lease g Hg) as (g' & Hg' & Hk & Ho & Hs). specialize (Hs Hst).
  destruct (Ho Hset) as [Hout _].
  assert ((ensure (gt_key g) (gate_run (evs ++ evs'))).1 <> lease) as Hcur.
  { destruct (ensure_gate_ok (gt_key g) _ I') as (_ & G' & Hm). intros E. rewrite E in Hm.
    destruct (G' lease g' Hg') as (g2 & _ & _ & _ & Hs2). rewrite Hk in Hs2. by apply (Hs2 Hs). }
  assert (forall b, negb (bool_decide ((ensure (gt_key g) (gate_run (evs ++ evs'))).1 = lease)) || b = true) as Hne
    by (intros b; by rewrite (bool_decide_eq_false_2 _ Hcur)).
  split_and!.
  - intros H. rewrite (gi_settled _ I _ _ Hg), H in Hset. discriminate Hset.
  - by exists g'.
  - by apply bool_decide_eq_false.
  - unfold isRatchetGateOpen. destruct (gs_map (gate_run (evs ++ evs')) !! gt_key g) as [current|]; [|done].
    rewrite (bool_decide_eq_false_2 (current = lease)) by (intros ->; by apply Hs). apply andb_false_r.
  - unfold openRatchetGate. destruct (ensure _ _) as [current s2]. cbn in Hne |- *. by rewrite Hne.
  - unfold openRatchetGate. destruct (ensure _ _) as [current s2]. cbn in Hne |- *. by rewrite Hne.
  - unfold rejectRatchetGate. destruct (ensure _ _) as [current s2]. cbn in Hcur |- *. by rewrite (bool_decide_eq_false_2 _ Hcur).
  - unfold rejectRatchetGate. destruct (ensure _ _) as [current s2]. cbn in Hcur |- *. by rewrite (bool_decide_eq_false_2 _ Hcur).
Qed.

(** ** The inbox *)

Implicit Types (b : Inboxes) (out : list Output).

Definition accepted lease out : list bytes :=
  omap (fun o => match o with Accepted l f => if bool_decide (l = lease) then Some f else None | _ => None end) out.
Definition handed lease out : list bytes :=
  omap (fun o => match o with Handed l _ f => if bool_decide (l = lease) then Some f else None | _ => None end) out.
Lemma accepted_app lease out out' : accepted lease (out ++ out') = accepted lease out ++ accepted lease out'.
Proof. apply omap_app. Qed.
Lemma handed_app lease out out' : handed lease (out ++ out') = handed lease out ++ handed lease out'.
Proof. apply omap_app. Qed.
Lemma refused_accepts lease l e ws : accepted lease ((fun w => Refused l w e) <$> ws) = [] /\ handed lease ((fun w => Refused l w e) <$> ws) = [].
Proof. induction ws as [|w ws [IH1 IH2]]; split; done. Qed.

(** The frames a side takes: only the initiator receives the third. *)
Definition steps_of (i : Inbox) : list Z := if ib_expectFinish i then [1; 2; 3] else [1; 2].

(** What the outputs so far say of the inbox of a lease. *)
Record inbox_ok out lease (i : Inbox) : Prop := {
  io_fifo : accepted lease out = handed lease out ++ ib_queue i;
  io_waiters : ib_waiters i <> [] -> ib_queue i = [];
  io_due : ib_nextStep i = steps_of i !! length (accepted lease out);
  io_steps : Forall2 (fun f n => isHandshakePayloadForStep f n (ib_pqMode i) = true) (accepted lease out)
               (take (length (accepted lease out)) (steps_of i)) }.
Definition inboxes_ok out b : Prop :=
  (forall lease i, is_heap b !! lease = Some i -> inbox_ok out lease i) /\
  (forall lease, (length (is_heap b) <= lease)%nat -> accepted lease out = [] /\ handed lease out = []).

Lemma inbox_ok_same out out' lease i : accepted lease out' = [] /\ handed lease out' = [] -> inbox_ok out lease i -> inbox_ok (out ++ out') lease i.
Proof. intros [Ha Hh] [J1 J2 J3 J4]. split; rewrite ?accepted_app, ?handed_app, ?Ha, ?Hh, ?app_nil_r; done. Qed.
Lemma next_step_due i n step : steps_of i !! n = Some step -> next_step step (ib_expectFinish i) = steps_of i !! S n.
Proof.
  unfold steps_of, next_step. destruct (ib_expectFinish i); destruct n as [|[|[|n]]]; cbn; try (intros [= <-]; reflexivity); intros H; discriminate H.
Qed.
Lemma accept_frame_ok out out' lease i step f queue waiters : inbox_ok out lease i -> ib_nextStep i = Some step ->
  isHandshakePayloadForStep f step (ib_pqMode i) = true -> accepted lease out' = [f] ->
  (accepted lease out ++ [f] = (handed lease out ++ handed lease out') ++ queue) -> (waiters <> [] -> queue = []) ->
  inbox_ok (out ++ out') lease (MkInbox (ib_pqMode i) (ib_expectFinish i) queue (next_step step (ib_expectFinish i)) waiters).
Proof.
  intros [J1 J2 J3 J4] Hn Hf Ha Hq Hw. rewrite Hn in J3. symmetry in J3. split; cbn; rewrite ?accepted_app, ?handed_app, ?Ha; try done.
  - rewrite length_app, Nat.add_1_r. unfold steps_of. cbn. fold (steps_of i). by apply next_step_due.
  - rewrite length_app, Nat.add_1_r. unfold steps_of at 1. cbn. fold (steps_of i). rewrite (take_S_r _ _ _ J3). apply Forall2_app; [done|]. by constructor.
Qed.

(** Only the inbox of [lease] changes, and [out'] speaks of it alone. *)
Lemma inbox_change out out' b lease f i : inboxes_ok out b -> is_heap b !! lease = Some i ->
  (forall l, l <> lease -> accepted l out' = [] /\ handed l out' = []) -> inbox_ok (out ++ out') lease (f i) ->
  inboxes_ok (out ++ out') (on_inbox lease f b).
Proof.
  intros [H1 H2] Hi Ho Hf. split; cbn.
  - intros l j Hj. destruct (decide (lease = l)) as [<-|Hne].
    + rewrite list_lookup_alter_eq, Hi in Hj. by injection Hj as <-.
    + rewrite list_lookup_alter_ne in Hj by done. by apply inbox_ok_same; [apply Ho|apply H1].
  - intros l Hl. rewrite length_alter in Hl. destruct (H2 l Hl) as [Ha Hh]. apply lookup_lt_Some in Hi.
    destruct (Ho l ltac:(lia)) as [Ha' Hh']. by rewrite accepted_app, handed_app, Ha, Hh, Ha', Hh'.
Qed.
(** Refusals hand out nothing, and an inbox without waiters is as good. *)
Lemma refusals_ok out out' b : inboxes_ok out b -> (forall l, accepted l out' = [] /\ handed l out' = []) -> inboxes_ok (out ++ out') b.
Proof.
  intros [H1 H2] Ho. split.
  - intros l i Hi. by apply inbox_ok_same, H1.
  - intros l Hl. destruct (Ho l) as [Ha Hh]. rewrite accepted_app, handed_app, Ha, Hh, !app_nil_r. by apply H2.
Qed.
Lemma on_inbox_ok out b lease f : inboxes_ok out b -> (forall i, is_heap b !! lease = Some i -> inbox_ok out lease i -> inbox_ok out lease (f i)) ->
  inboxes_ok out (on_inbox lease f b).
Proof.
  intros H Hf. destruct (is_heap b !! lease) as [i|] eqn:Hi.
  - rewrite <- (app_nil_r out). apply (inbox_change _ _ _ _ _ i); [done..|]. rewrite app_nil_r. apply Hf; [done|]. by apply H.
  - replace (on_inbox lease f b) with b; [done|]. destruct b as [heap m]. unfold on_inbox. cbn in *. f_equal.
    apply list_eq. intros j. destruct (decide (lease = j)) as [<-|Hne]; [by rewrite list_lookup_alter_eq, Hi|by rewrite list_lookup_alter_ne].
Qed.
Lemma close_ok out b lease e : inboxes_ok out b -> inboxes_ok (out ++ refuse_all lease e b) (on_inbox lease no_waiters b).
Proof.
  intros H. apply refusals_ok.
  - apply on_inbox_ok; [done|]. intros i _ [J1 J2 J3 J4]. by split.
  - intros l. unfold refuse_all. destruct (is_heap b !! lease); [apply refused_accepts|done].
Qed.
Lemma map_irrelevant out heap m m' : inboxes_ok out (MkInboxes heap m) -> inboxes_ok out (MkInboxes heap m').
Proof. done. Qed.

Lemma set_channel_ok out b key pqMode expectFinish : inboxes_ok out b ->
  let '(_, b', out') := setHandshakeChannel key pqMode expectFinish b in inboxes_ok (out ++ out') b'.
Proof.
  intros H. unfold setHandshakeChannel.
  assert (exists b1 out', match is_map b !! key with Some p => (on_inbox p no_waiters b, refuse_all p channel_replaced b) | None => (b, []) end = (b1, out') /\
    inboxes_ok (out ++ out') b1) as (b1 & out' & -> & [H1 H2]).
  { destruct (is_map b !! key) as [p|]; do 2 eexists; (split; [reflexivity|]); [by apply close_ok|by rewrite app_nil_r]. }
  split; cbn.
  - intros l i [Hi|[Hl Hi]]%lookup_app_Some; [by apply H1|]. apply list_lookup_singleton_Some in Hi as [Hz <-].
    destruct (H2 l Hl) as [Ha Hh]. split; cbn; rewrite ?Ha, ?Hh; try done. by destruct expectFinish.
  - intros l Hl. rewrite length_app in Hl. cbn in Hl. apply H2. lia.
Qed.
Lemma clear_channel_ok out b key e (lease : option nat) : inboxes_ok out b ->
  let '(_, b', out') := clearHandshakeChannel key e lease b in inboxes_ok (out ++ out') b'.
Proof.
  intros H. unfold clearHandshakeChannel. destruct (is_map b !! key) as [current|]; [|by rewrite app_nil_r].
  destruct (match lease with Some _ => _ | None => _ end); [by rewrite app_nil_r|]. eapply map_irrelevant, close_ok, H.
Qed.
Lemma deliver_ok out b key payload lease : inboxes_ok out b ->
  let '(_, b', out') := deliverHandshakeFrame key payload lease b in inboxes_ok (out ++ out') b'.
Proof.
  intros H. unfold deliverHandshakeFrame. destruct (negb _); [by rewrite app_nil_r|].
  destruct (is_heap b !! lease) as [i|] eqn:Hi; [|by rewrite app_nil_r].
  pose proof (clear_channel_ok out b key surplus_frame (Some lease) H) as Hc.
  destruct (ib_nextStep i) as [step|] eqn:Hn; [|by destruct (clearHandshakeChannel _ _ _ _) as [[? ?] ?]].
  destruct (isHandshakePayloadForStep payload step (ib_pqMode i)) eqn:Hf; [|by destruct (clearHandshakeChannel _ _ _ _) as [[? ?] ?]].
  pose proof (proj1 H lease i Hi) as J. destruct (J) as [J1 J2 _ _].
  destruct (ib_waiters i) as [|w waiters] eqn:Hw; apply (inbox_change _ _ _ _ _ i H Hi);
    try (intros l Hl; cbn; by rewrite bool_decide_eq_false_2 by congruence);
    (eapply accept_frame_ok; [exact J|done|done|cbn; by rewrite bool_decide_eq_true_2|..]); cbn; rewrite ?bool_decide_eq_true_2 by done.
  - by rewrite J1, app_nil_r, app_assoc.
  - by rewrite Hw.
  - rewrite J1, !(J2 ltac:(done)), !app_nil_r. done.
  - intros _. by apply J2.
Qed.
Lemma recv_ok out b key lease waiter : inboxes_ok out b ->
  let '(b', out') := recv_frame key lease waiter b in inboxes_ok (out ++ out') b'.
Proof.
  intros H. unfold recv_frame. destruct (negb _); [by apply refusals_ok|]. destruct (is_heap b !! lease) as [i|] eqn:Hi; [|by apply refusals_ok].
  destruct (proj1 H lease i Hi) as [J1 J2 J3 J4]. destruct (ib_queue i) as [|frame queue] eqn:Hq.
  - apply (inbox_change _ _ _ _ _ i H Hi); [done|]. rewrite app_nil_r. split; cbn; rewrite ?Hq; done.
  - apply (inbox_change _ _ _ _ _ i H Hi); [intros l Hl; cbn; by rewrite bool_decide_eq_false_2 by congruence|].
    split; cbn; rewrite ?accepted_app, ?handed_app; cbn; rewrite ?bool_decide_eq_true_2, ?app_nil_r by done; try done.
    + by rewrite J1, <- app_assoc.
    + intros Hw. by specialize (J2 Hw).
Qed.
Lemma timeout_ok out b lease waiter : inboxes_ok out b -> let '(b', out') := step_timeout lease waiter b in inboxes_ok (out ++ out') b'.
Proof.
  intros H. unfold step_timeout. destruct (is_heap b !! lease) as [i|] eqn:Hi; [|by rewrite app_nil_r].
  case_bool_decide as Hw; [|by rewrite app_nil_r]. apply refusals_ok; [|done]. apply on_inbox_ok; [done|].
  intros i' Hi' [J1 J2 J3 J4]. split; cbn; try done. intros _. apply J2. rewrite Hi in Hi'. injection Hi' as <-. intros E. rewrite E in Hw. by apply elem_of_nil in Hw.
Qed.
Lemma inbox_step_ok out b ev : inboxes_ok out b -> let '(b', out') := inbox_step b ev in inboxes_ok (out ++ out') b'.
Proof.
  intros H. destruct ev as [key pqMode expectFinish|key lease|key payload lease|key lease waiter|lease waiter]; cbn.
  - pose proof (set_channel_ok out b key pqMode expectFinish H) as Hs. by destruct (setHandshakeChannel _ _ _ _) as [[? ?] ?].
  - pose proof (clear_channel_ok out b key channel_cleared lease H) as Hs. by destruct (clearHandshakeChannel _ _ _ _) as [[? ?] ?].
  - pose proof (deliver_ok out b key payload lease H) as Hs. by destruct (deliverHandshakeFrame _ _ _ _) as [[? ?] ?].
  - by apply recv_ok.
  - by apply timeout_ok.
Qed.
Lemma inbox_run_ok evs out b : inboxes_ok out b -> let '(b', out') := inbox_run evs b in inboxes_ok (out ++ out') b'.
Proof.
  revert out b. induction evs as [|ev evs IH]; intros out b H; cbn; [by rewrite app_nil_r|].
  pose proof (inbox_step_ok out b ev H) as H1. destruct (inbox_step b ev) as [b1 out1]. specialize (IH _ _ H1).
  destruct (inbox_run evs b1) as [b2 out2]. by rewrite app_assoc.
Qed.

(** An attempt reads its own flights, each once and in order.  Whatever channels
    are set, replaced and cleared, and whatever frames, calls of [recv] and
    timeouts come in between, the frames an inbox has accepted are those it has
    handed to its [recv] calls followed by those it still holds, in the order of
    arrival; they are a payload of the first flight, then one of the second, then -
    for the initiator only - one of the third, so never more than that; and no
    [recv] waits while a frame is there. *)
Theorem inbox_hands_in_order evs b out lease i : inbox_run evs no_inboxes = (b, out) -> is_heap b !! lease = Some i ->
  let frames := accepted lease out in
  frames = handed lease out ++ ib_queue i /\
  Forall2 (fun f n => isHandshakePayloadForStep f n (ib_pqMode i) = true) frames (take (length frames) (steps_of i)) /\
  (length frames <= if ib_expectFinish i then 3 else 2)%nat /\
  ib_nextStep i = steps_of i !! length frames /\
  (ib_waiters i <> [] -> ib_queue i = []).
Proof.
  intros Hrun Hi frames. assert (inboxes_ok [] no_inboxes) as H by (split; [intros l j Hj; discriminate Hj|done]).
  pose proof (inbox_run_ok evs [] no_inboxes H) as Hok. rewrite Hrun in Hok. destruct (proj1 Hok lease i Hi) as [J1 J2 J3 J4].
  split_and!; [done|done| |done|done]. apply Forall2_length in J4. rewrite length_take in J4. subst frames. unfold steps_of in J4.
  cbn [app] in *. destruct (ib_expectFinish i); cbn in J4; lia.
Qed.
