(* ===== verification/CoverCell.v ===== *)
(** * Authenticated cover cells ([src/src/cryptography/coverCell.ts])

    Every scheduled cover slot carries one cell of the size of a chunk frame:
    [type | edge binding | counter | reserved | epoch | nonce] in the clear and
    authenticated, then [subtype | length | payload | zero padding] encrypted.
    Whether a cell is a dummy, a CANCEL or a receipt is only inside the
    ciphertext.  Allocation, release and wiping of module memory have no
    counterpart; the random nonce is an argument of [sealCoverCell]. *)

From S2P Require Import Prelude Bytes Constants Crypto X25519 Ratchet WireFrames PqFrame.
Local Open Scope Z_scope.

Definition BINDING_OFFSET : Z := FRAME_TYPE_LEN.
Definition COUNTER_OFFSET : Z := BINDING_OFFSET + RATCHET_DHPUB_LEN.
Definition RESERVED_OFFSET : Z := COUNTER_OFFSET + RATCHET_N_LEN.
Definition EPOCH_OFFSET : Z := RESERVED_OFFSET + RATCHET_PN_LEN.
Definition NONCE_OFFSET : Z := EPOCH_OFFSET + PQ_EPOCH_LEN.
Definition COVER_CELL_HEADER_BYTES : Z :=
  FRAME_TYPE_LEN + RATCHET_DHPUB_LEN + RATCHET_N_LEN + RATCHET_PN_LEN + PQ_EPOCH_LEN
  + RATCHET_NONCE_LEN.
Definition COVER_CELL_PLAINTEXT_BYTES : Z :=
  WIRE_CHUNK_FRAME_LEN - COVER_CELL_HEADER_BYTES - crypto_aead_chacha20poly1305_ietf_ABYTES.
Definition COVER_CELL_BINDING_BYTES : Z := RATCHET_DHPUB_LEN.
Definition COVER_CELL_ROOT_BYTES : Z := 32.
Definition COVER_CELL_TOKEN_BYTES : Z := crypto_hash_sha512_BYTES.
Definition SUBTYPE_BYTES : Z := 1.
Definition PAYLOAD_LENGTH_BYTES : Z := 4.
Definition COVER_CELL_MAX_PAYLOAD_BYTES : Z :=
  COVER_CELL_PLAINTEXT_BYTES - SUBTYPE_BYTES - PAYLOAD_LENGTH_BYTES.
Definition KEY_DOMAIN : bytes := text "p2party/cover-cell/key/v1" ++ [byte_of 0].

Inductive CoverCellContent :=
  | dummy
  | cancel (merkleRoot : bytes)
  | receipt (merkleRoot token : bytes).

Inductive CoverCellErrorCode :=
  | cell_authentication_failed | cell_binding_mismatch | cell_epoch_mismatch | invalid_cell
  | cell_invalid_direction | cell_invalid_padding | replayed_counter.
Inductive CoverCellError :=
  | CellError (code : CoverCellErrorCode)
  | CellCryptoModule (e : CryptoError).
#[export] Instance CoverCellErrorCode_eq_dec : EqDecision CoverCellErrorCode.
Proof. solve_decision. Defined.
#[export] Instance CoverCellContent_eq_dec : EqDecision CoverCellContent.
Proof. solve_decision. Defined.

Abbreviation cell A := (result CoverCellError A).
Definition fail {A} (code : CoverCellErrorCode) : cell A := Err (CellError code).
Definition guard (ok : bool) (code : CoverCellErrorCode) : cell unit := require ok (CellError code).

Definition requireBytes (value : bytes) (length : Z) : cell unit :=
  guard (blen value =? length) invalid_cell.
Definition requireU64 (value : Z) : cell unit := guard (is_u64 value) invalid_cell.

Definition suiteTag (rootSuite : string) : cell Z :=
  if bool_decide (rootSuite = root_suite_string MLKEM768) then Ok 1
  else if bool_decide (rootSuite = root_suite_string MLKEM512) then Ok 2
  else if bool_decide (rootSuite = root_suite_string MLKEM1024) then Ok 3
  else fail invalid_cell.

Definition directionTag (direction : string) : cell Z :=
  if bool_decide (direction = "initiator-to-responder"%string) then Ok 1
  else if bool_decide (direction = "responder-to-initiator"%string) then Ok 2
  else fail cell_invalid_direction.

Definition subtypeTag (content : CoverCellContent) : Z :=
  match content with dummy => 1 | cancel _ => 2 | receipt _ _ => 3 end.

(** The writes into the HKDF info buffer. *)
Definition cellKeyInfo (suite_tag direction_tag : Z) (binding epochBytes : bytes) : bytes :=
  let info := zeros (blen KEY_DOMAIN + 1 + 1 + blen binding + blen epochBytes) in
  let info := bset info 0 KEY_DOMAIN in
  let info := bset info (blen KEY_DOMAIN) [byte_of suite_tag] in
  let info := bset info (blen KEY_DOMAIN + 1) [byte_of direction_tag] in
  let info := bset info (blen KEY_DOMAIN + 2) binding in
  bset info (blen KEY_DOMAIN + 2 + blen binding) epochBytes.

Definition encodeContent (content : CoverCellContent) : cell bytes :=
  match content with
  | dummy => Ok []
  | cancel merkleRoot => requireBytes merkleRoot COVER_CELL_TOKEN_BYTES;; Ok merkleRoot
  | receipt merkleRoot token =>
      requireBytes merkleRoot COVER_CELL_TOKEN_BYTES;;
      requireBytes token COVER_CELL_TOKEN_BYTES;;
      let payload := zeros (blen merkleRoot + blen token) in
      let payload := bset payload 0 merkleRoot in
      Ok (bset payload (blen merkleRoot) token)
  end.

(** [subtype] is the array element [plaintext[0]]. *)
Definition decodeContent (subtype : option Z) (payload : bytes) : cell CoverCellContent :=
  if bool_decide (subtype = Some 1) then
    guard (blen payload =? 0) invalid_cell;; Ok dummy
  else if bool_decide (subtype = Some 2) then
    guard (blen payload =? COVER_CELL_TOKEN_BYTES) invalid_cell;; Ok (cancel payload)
  else if bool_decide (subtype = Some 3) then
    guard (blen payload =? COVER_CELL_TOKEN_BYTES * 2) invalid_cell;;
    Ok (receipt (slice payload 0 COVER_CELL_TOKEN_BYTES)
                (slice_from payload COVER_CELL_TOKEN_BYTES))
  else fail invalid_cell.

Record OpenedCoverCell := { opened_content : CoverCellContent; opened_counter : Z }.

Section Cell.
Context {C : LibCrypto}.

Definition deriveCellKey (rootSuite : string) (rootKey binding : bytes)
    (direction : string) (keyEpoch : Z) : cell bytes :=
  requireBytes rootKey COVER_CELL_ROOT_BYTES;;
  requireBytes binding COVER_CELL_BINDING_BYTES;;
  requireU64 keyEpoch;;
  let epochBytes := put_u64 (zeros 8) 0 keyEpoch in
  st ← suiteTag rootSuite;
  dt ← directionTag direction;
  prk ← map_err CellCryptoModule (hkdfExtract rootKey binding);
  map_err CellCryptoModule
    (hkdfExpand prk (cellKeyInfo st dt binding epochBytes)
       crypto_aead_chacha20poly1305_ietf_KEYBYTES).

Definition aeadSeal (key nonce plaintext aad : bytes) : cell bytes :=
  let outputLength := blen plaintext + crypto_aead_chacha20poly1305_ietf_ABYTES in
  let '(r, output) := _encrypt_chachapoly_symmetric plaintext key nonce aad in
  if negb (r =? 0) then fail invalid_cell else Ok (region outputLength output).

Definition aeadOpen (key nonce ciphertext aad : bytes) : cell bytes :=
  let plaintextLength := blen ciphertext - crypto_aead_chacha20poly1305_ietf_ABYTES in
  let '(r, plaintext) := _decrypt_chachapoly_symmetric ciphertext key nonce aad in
  if negb (r =? 0) then fail cell_authentication_failed else Ok (region plaintextLength plaintext).

Definition sealCoverCell (rootSuite : string) (rootKey binding : bytes)
    (direction : string) (keyEpoch counter : Z) (content : CoverCellContent) (nonce : bytes)
    : cell bytes :=
  requireBytes binding COVER_CELL_BINDING_BYTES;;
  requireU64 keyEpoch;;
  requireU64 counter;;
  payload ← encodeContent content;
  guard (negb (COVER_CELL_MAX_PAYLOAD_BYTES <? blen payload)) invalid_cell;;
  let header := zeros COVER_CELL_HEADER_BYTES in
  let header := bset header 0 [byte_of FRAME_TYPE_COVER] in
  let header := bset header BINDING_OFFSET binding in
  let header := put_u64 header COUNTER_OFFSET counter in
  let header := put_u64 header EPOCH_OFFSET keyEpoch in
  let header := bset header NONCE_OFFSET nonce in
  let plaintext := zeros COVER_CELL_PLAINTEXT_BYTES in
  let plaintext := bset plaintext 0 [byte_of (subtypeTag content)] in
  let plaintext := put_u32 plaintext SUBTYPE_BYTES (blen payload) in
  let plaintext := bset plaintext (SUBTYPE_BYTES + PAYLOAD_LENGTH_BYTES) payload in
  key ← deriveCellKey rootSuite rootKey binding direction keyEpoch;
  ciphertext ← aeadSeal key nonce plaintext header;
  let frame := zeros WIRE_CHUNK_FRAME_LEN in
  let frame := bset frame 0 header in
  Ok (bset frame COVER_CELL_HEADER_BYTES ciphertext).

(** The checks on the decrypted plaintext. *)
Definition openPlaintext (plaintext : bytes) : cell CoverCellContent :=
  let payloadLength := get_u32 plaintext SUBTYPE_BYTES in
  guard (negb (COVER_CELL_MAX_PAYLOAD_BYTES <? payloadLength)) cell_invalid_padding;;
  let payloadOffset := SUBTYPE_BYTES + PAYLOAD_LENGTH_BYTES in
  let paddingOffset := payloadOffset + payloadLength in
  guard (or_all (slice_from plaintext paddingOffset) =? 0) cell_invalid_padding;;
  decodeContent (at_ plaintext 0) (slice plaintext payloadOffset paddingOffset).

(** [counterAbove] is the optional replay bound. *)
Definition checkCounterAbove (counterAbove : option Z) (counter : Z) : cell unit :=
  match counterAbove with
  | None => Ok tt
  | Some above => requireU64 above;; guard (negb (counter <=? above)) replayed_counter
  end.

Definition openCoverCell (rootSuite : string) (rootKey binding : bytes)
    (direction : string) (keyEpoch : Z) (counterAbove : option Z) (frame : bytes)
    : cell OpenedCoverCell :=
  requireBytes frame WIRE_CHUNK_FRAME_LEN;;
  requireBytes binding COVER_CELL_BINDING_BYTES;;
  requireU64 keyEpoch;;
  guard (bool_decide (at_ frame 0 = Some FRAME_TYPE_COVER)) invalid_cell;;
  guard (bytesEqual (slice frame BINDING_OFFSET (BINDING_OFFSET + RATCHET_DHPUB_LEN)) binding)
    cell_binding_mismatch;;
  let header := slice frame 0 COVER_CELL_HEADER_BYTES in
  let counter := get_u64 frame COUNTER_OFFSET in
  guard (get_u64 frame RESERVED_OFFSET =? 0) invalid_cell;;
  guard (get_u64 frame EPOCH_OFFSET =? keyEpoch) cell_epoch_mismatch;;
  checkCounterAbove counterAbove counter;;
  let nonce := slice frame NONCE_OFFSET (NONCE_OFFSET + RATCHET_NONCE_LEN) in
  let ciphertext := slice_from frame COVER_CELL_HEADER_BYTES in
  key ← deriveCellKey rootSuite rootKey binding direction keyEpoch;
  plaintext ← aeadOpen key nonce ciphertext header;
  content ← openPlaintext plaintext;
  Ok {| opened_content := content; opened_counter := counter |}.
End Cell.

(** ** Lemmas *)

Lemma cell_guard_ok b c : guard b c = Ok tt <-> b = true.
Proof. apply require_ok. Qed.
Lemma cell_requireBytes_ok l n : requireBytes l n = Ok tt <-> blen l = n.
Proof. unfold requireBytes. by rewrite cell_guard_ok, Z.eqb_eq. Qed.
Lemma cell_requireU64_ok v : requireU64 v = Ok tt <-> 0 <= v <= MAX_U64.
Proof. unfold requireU64. by rewrite cell_guard_ok, is_u64_spec. Qed.

(** *** Contents *)

(** The payload of a content, and the contents that have one. *)
Definition payload_of (content : CoverCellContent) : bytes :=
  match content with dummy => [] | cancel r => r | receipt r t => r ++ t end.
Definition content_ok (content : CoverCellContent) : bool :=
  match content with
  | dummy => true
  | cancel r => blen r =? 64
  | receipt r t => (blen r =? 64) && (blen t =? 64)
  end.

Lemma encodeContent_ok content p :
  encodeContent content = Ok p <-> content_ok content = true /\ p = payload_of content.
Proof.
  unfold encodeContent, requireBytes, guard. change COVER_CELL_TOKEN_BYTES with 64.
  destruct content as [|r|r t]; cbn [content_ok payload_of].
  - split; [intros [= <-]|intros [_ ->]]; done.
  - destruct (blen r =? 64); cbn; split; [intros [= <-]|intros [_ ->]|done|intros [? _]]; done.
  - destruct (Z.eqb_spec (blen r) 64) as [Hr|]; cbn; [|split; [done|intros [? _]; done]].
    destruct (Z.eqb_spec (blen t) 64) as [Ht|]; cbn; [|split; [done|intros [? _]; done]].
    rewrite bset_zeros by blen. rewrite bset_append by blen. rewrite zeros_0 by blen.
    rewrite app_nil_r. split; [intros [= <-]|intros [_ ->]]; done.
Qed.

Lemma blen_payload content : content_ok content = true -> 0 <= blen (payload_of content) <= 128.
Proof.
  destruct content as [|r|r t]; cbn [content_ok payload_of].
  - done.
  - rewrite Z.eqb_eq. lia.
  - rewrite andb_true_iff, !Z.eqb_eq. blen.
Qed.

(** Decoding accepts exactly the tagged payloads of well-sized contents. *)
Lemma decodeContent_ok tag payload content :
  decodeContent tag payload = Ok content <->
  tag = Some (subtypeTag content) /\ content_ok content = true /\ payload = payload_of content.
Proof.
  unfold decodeContent, guard. change COVER_CELL_TOKEN_BYTES with 64. split.
  - intros H. repeat case_bool_decide; [..|done]; binds H; apply require_ok, Z.eqb_eq in E; subst.
    + split_and!; try done. by apply length_zero_iff_nil; unfold blen in E; lia.
    + split_and!; try done. cbn. by apply Z.eqb_eq.
    + cbn. rewrite blen_slice, blen_slice_from by lia. split_and!; [done|lia|].
      rewrite <- (slice_to_end payload 64 128), <- slice_split by lia.
      symmetry. by apply slice_all.
  - intros (-> & Hok & ->). destruct content as [|r|r t]; cbn in *; try done.
    + by rewrite Hok.
    + rewrite andb_true_iff, !Z.eqb_eq in Hok. destruct Hok as [Hr Ht].
      rewrite (bool_decide_false (Some 3 = Some 1)), (bool_decide_false (Some 3 = Some 2)) by done.
      rewrite bool_decide_true, blen_app, Hr, Ht by done.
      cbv beta iota delta [mbind result_bind require Z.eqb Z.add Z.mul Pos.add Pos.mul Pos.eqb].
      f_equal. f_equal.
      * apply slice_app_l; lia.
      * apply slice_from_app; lia.
Qed.

(** *** Plaintexts *)

Definition cell_plaintext (content : CoverCellContent) : bytes :=
  [byte_of (subtypeTag content)] ++ be_encode 4 (blen (payload_of content)) ++ payload_of content
  ++ zeros (COVER_CELL_PLAINTEXT_BYTES - 5 - blen (payload_of content)).

Lemma cell_plaintext_writes content : content_ok content = true ->
  bset (put_u32 (bset (zeros COVER_CELL_PLAINTEXT_BYTES) 0 [byte_of (subtypeTag content)])
          SUBTYPE_BYTES (blen (payload_of content)))
       (SUBTYPE_BYTES + PAYLOAD_LENGTH_BYTES) (payload_of content) = cell_plaintext content.
Proof.
  intros Hok. pose proof (blen_payload _ Hok). unfold put_u32, cell_plaintext.
  change COVER_CELL_PLAINTEXT_BYTES with 65405. change (SUBTYPE_BYTES + PAYLOAD_LENGTH_BYTES) with 5.
  change SUBTYPE_BYTES with 1.
  rewrite bset_zeros by blen. do 2 rewrite bset_append by blen.
  by rewrite <- !app_assoc.
Qed.

Lemma blen_cell_plaintext content : content_ok content = true ->
  blen (cell_plaintext content) = COVER_CELL_PLAINTEXT_BYTES.
Proof.
  intros Hok. pose proof (blen_payload _ Hok). unfold cell_plaintext.
  change COVER_CELL_PLAINTEXT_BYTES with 65405. blen.
Qed.

Lemma subtypeTag_range content : 1 <= subtypeTag content <= 3.
Proof. destruct content; cbn; lia. Qed.

(** The accepted plaintexts are exactly the plaintexts of the sender. *)
Lemma openPlaintext_ok plaintext content : blen plaintext = COVER_CELL_PLAINTEXT_BYTES ->
  openPlaintext plaintext = Ok content <->
  content_ok content = true /\ plaintext = cell_plaintext content.
Proof.
  intros Hl. unfold openPlaintext, cell_plaintext. change COVER_CELL_PLAINTEXT_BYTES with 65405 in *.
  change COVER_CELL_MAX_PAYLOAD_BYTES with 65400.
  change (SUBTYPE_BYTES + PAYLOAD_LENGTH_BYTES) with 5. change SUBTYPE_BYTES with 1. split.
  - intros H. binds H. rewrite cell_guard_ok in E, E0. apply negb_true_iff, Z.ltb_ge in E.
    apply Z.eqb_eq, or_all_zero in E0. apply decodeContent_ok in H as (Ht & Hok & Hp).
    split; [done|]. set (n := get_u32 plaintext 1) in *.
    assert (0 <= n) as Hn by (unfold n, get_u32; apply be_decode_range).
    rewrite <- Hp. rewrite blen_slice by lia. replace (5 + n - 5) with n by lia.
    assert (be_encode 4 n = slice plaintext 1 5) as ->.
    { symmetry. rewrite <- (be_encode_decode (slice plaintext 1 5)) at 1. unfold n, get_u32.
      change (1 + 4) with 5. f_equal.
      pose proof (blen_slice plaintext 1 5) as Hs. unfold blen in *. lia. }
    rewrite <- (slice_one plaintext 0 _) by (done || lia). change (0 + 1) with 1.
    rewrite blen_slice_from in E0 by lia. rewrite Hl in E0.
    replace (65405 - 5 - n) with (65405 - (5 + n)) by lia. rewrite <- E0.
    rewrite <- (slice_to_end plaintext (5 + n) 65405) by lia.
    rewrite <- (slice_split plaintext 5 (5 + n)), <- (slice_split plaintext 1 5),
      <- (slice_split plaintext 0 1) by lia.
    symmetry. by apply slice_all.
  - intros [Hok ->]. pose proof (blen_payload _ Hok) as Hp. unfold get_u32.
    rewrite (slice_app_r _ _ 1 (1 + 4)) by blen. rewrite (slice_app_l _ _ (1 - _) (1 + 4 - _)) by blen.
    rewrite be_decode_u32 by lia. rewrite (proj2 (cell_guard_ok (negb _) _)).
    2: { apply negb_true_iff, Z.ltb_ge. lia. }
    cbn [mbind result_bind]. rewrite !app_assoc. rewrite slice_from_app by blen.
    rewrite (proj2 (cell_guard_ok _ _)) by (apply Z.eqb_eq, or_all_zero; by rewrite blen_zeros by lia).
    cbn [mbind result_bind]. apply decodeContent_ok. rewrite <- !app_assoc. split_and!; [|done|].
    + transitivity (Some (u8 (byte_of (subtypeTag content)))); [done|].
      rewrite u8_byte_of, Z.mod_small; [done|]. pose proof (subtypeTag_range content). lia.
    + do 2 rewrite slice_app_r by blen. apply slice_app_l; blen.
Qed.

Section CellProofs.
Context {C : LibCrypto}.
Implicit Types (binding nonce frame : bytes) (content : CoverCellContent).

Lemma cell_aeadSeal_ok key nonce pt aad c : aeadSeal key nonce pt aad = Ok c ->
  exists o, _encrypt_chachapoly_symmetric pt key nonce aad = (0, o) /\
    c = region (blen pt + crypto_aead_chacha20poly1305_ietf_ABYTES) o.
Proof.
  unfold aeadSeal. destruct (_encrypt_chachapoly_symmetric _ _ _ _) as [r o].
  destruct (Z.eqb_spec r 0) as [->|]; [|done]. intros [= <-]. by exists o.
Qed.

Lemma cell_aeadOpen_seal `{!AeadCorrect C} key nonce pt aad c :
  aeadSeal key nonce pt aad = Ok c -> aeadOpen key nonce c aad = Ok pt.
Proof.
  intros (o & He & ->)%cell_aeadSeal_ok. pose proof (blen_nonneg pt).
  change crypto_aead_chacha20poly1305_ietf_ABYTES with 16 in *.
  destruct (decrypt_encrypt _ _ _ _ _ He) as (p & Hd & Hp). unfold aeadOpen.
  change crypto_aead_chacha20poly1305_ietf_ABYTES with 16 in *. rewrite Hd. cbn [Z.eqb negb].
  f_equal. rewrite blen_region by lia. rewrite <- Hp at 2. f_equal. lia.
Qed.

(** What a sealed cell is. *)
Lemma sealCoverCell_ok suite root binding dir epoch counter content nonce frame :
  blen nonce = RATCHET_NONCE_LEN ->
  sealCoverCell suite root binding dir epoch counter content nonce = Ok frame ->
  exists key ct,
    blen binding = 32 /\ 0 <= epoch <= MAX_U64 /\ 0 <= counter <= MAX_U64 /\
    content_ok content = true /\
    deriveCellKey suite root binding dir epoch = Ok key /\
    let header := cell_header FRAME_TYPE_COVER binding counter 0 epoch nonce in
    aeadSeal key nonce (cell_plaintext content) header = Ok ct /\
    blen ct = WIRE_CHUNK_FRAME_LEN - 69 /\ frame = header ++ ct.
Proof.
  intros Hn H. unfold sealCoverCell in H. binds H.
  rewrite cell_requireBytes_ok in E. rewrite cell_requireU64_ok in E0, E1.
  apply encodeContent_ok in E2 as [Hok ->].
  change BINDING_OFFSET with 1 in *. change COUNTER_OFFSET with 33 in *.
  change EPOCH_OFFSET with 49 in *. change NONCE_OFFSET with 57 in *.
  change COVER_CELL_HEADER_BYTES with 69 in *.
  change COVER_CELL_BINDING_BYTES with 32 in E. change RATCHET_NONCE_LEN with 12 in Hn.
  rewrite control_header_writes in E5, H by done. rewrite cell_plaintext_writes in E5 by done.
  match type of E5 with _ = Ok ?c => rename c into ct end.
  assert (blen ct = WIRE_CHUNK_FRAME_LEN - 69) as Hct.
  { apply cell_aeadSeal_ok in E5 as (o & _ & ->). rewrite blen_cell_plaintext by done.
    by apply blen_region. }
  rewrite frame_writes in H by (done || by apply blen_cell_header). subst frame.
  match type of E4 with _ = Ok ?k => exists k, ct end. split_and!; try done; lia.
Qed.

Lemma open_sealed `{!AeadCorrect C} suite root binding dir epoch counter content nonce
    frame above :
  blen nonce = RATCHET_NONCE_LEN ->
  sealCoverCell suite root binding dir epoch counter content nonce = Ok frame ->
  (forall a, above = Some a -> 0 <= a < counter) ->
  blen frame = WIRE_CHUNK_FRAME_LEN /\
  openCoverCell suite root binding dir epoch above frame =
    Ok {| opened_content := content; opened_counter := counter |}.
Proof.
  intros Hn H Ha. destruct (sealCoverCell_ok _ _ _ _ _ _ _ _ _ Hn H)
    as (key & ct & Hb & He & Hc & Hok & Hk & Hseal & Hct & ->).
  destruct (cell_fields FRAME_TYPE_COVER binding counter 0 epoch nonce ct)
    as (H1 & H2 & H3 & H4 & H5 & H6 & H7 & H8); try done.
  assert (blen (cell_header FRAME_TYPE_COVER binding counter 0 epoch nonce ++ ct)
          = WIRE_CHUNK_FRAME_LEN) as Hl.
  { rewrite blen_app, blen_cell_header by done. lia. }
  split; [done|]. unfold openCoverCell.
  rewrite (proj2 (cell_requireBytes_ok _ _) Hl), (proj2 (cell_requireBytes_ok binding COVER_CELL_BINDING_BYTES) Hb).
  rewrite (proj2 (cell_requireU64_ok _) He). cbn [mbind result_bind].
  change (BINDING_OFFSET + RATCHET_DHPUB_LEN) with 33. change BINDING_OFFSET with 1.
  change COUNTER_OFFSET with 33. change RESERVED_OFFSET with 41. change EPOCH_OFFSET with 49.
  change (NONCE_OFFSET + RATCHET_NONCE_LEN) with 69. change NONCE_OFFSET with 57.
  change COVER_CELL_HEADER_BYTES with 69.
  rewrite H1, H2, H3, H4, H5, H6, H7, H8, bytesEqual_refl, Z.eqb_refl. cbn [mbind result_bind].
  rewrite bool_decide_true by done. cbn [mbind result_bind guard require Z.eqb].
  assert (checkCounterAbove above counter = Ok tt) as ->.
  { unfold checkCounterAbove. destruct above as [a|]; [|done]. specialize (Ha a eq_refl).
    rewrite (proj2 (cell_requireU64_ok a)) by lia. cbn [mbind result_bind].
    apply cell_guard_ok, negb_true_iff, Z.leb_gt. lia. }
  cbn [mbind result_bind]. rewrite Hk. cbn [mbind result_bind].
  rewrite (cell_aeadOpen_seal _ _ _ _ _ Hseal). cbn [mbind result_bind].
  rewrite (proj2 (openPlaintext_ok _ content (blen_cell_plaintext _ Hok))) by done. done.
Qed.

(** Without a replay bound. *)
Lemma cover_cell_roundtrip_aux `{!AeadCorrect C} suite root binding dir epoch counter content nonce frame :
  blen nonce = RATCHET_NONCE_LEN ->
  sealCoverCell suite root binding dir epoch counter content nonce = Ok frame ->
  blen frame = WIRE_CHUNK_FRAME_LEN /\
  openCoverCell suite root binding dir epoch None frame =
    Ok {| opened_content := content; opened_counter := counter |}.
Proof. intros. by eapply open_sealed. Qed.

(** Sealing then opening: a sealed cell has the uniform wire size whatever
    it carries, and the peer that opens it with the same room suite, root,
    binding, direction and epoch gets exactly the content and the counter,
    provided the counter is above its replay bound. *)
Theorem cover_cell_roundtrip `{!AeadCorrect C} suite root binding dir epoch counter content nonce
    frame above :
  blen nonce = RATCHET_NONCE_LEN ->
  sealCoverCell suite root binding dir epoch counter content nonce = Ok frame ->
  (forall a, above = Some a -> 0 <= a < counter) ->
  blen frame = WIRE_CHUNK_FRAME_LEN /\
  openCoverCell suite root binding dir epoch above frame =
    Ok {| opened_content := content; opened_counter := counter |}.
Proof. apply open_sealed. Qed.

Lemma aeadOpen_plaintext_length key nonce frame aad plaintext :
  blen frame = WIRE_CHUNK_FRAME_LEN ->
  aeadOpen key nonce (slice_from frame 69) aad = Ok plaintext ->
  blen plaintext = COVER_CELL_PLAINTEXT_BYTES.
Proof.
  change WIRE_CHUNK_FRAME_LEN with 65490. intros Hl H. unfold aeadOpen in H.
  destruct (_decrypt_chachapoly_symmetric _ _ _ _) as [r p].
  destruct (negb (r =? 0)); [done|]. apply Ok_inj in H. subst plaintext.
  rewrite blen_region; rewrite blen_slice_from by lia; rewrite Hl; done.
Qed.

(** What opening accepts: a cell that opens has the wire size, the cover
    type, this edge's binding, a zero reserved field and this epoch in its
    authenticated header; its counter is strictly above the replay bound; and
    the plaintext that authenticates under the key of this suite, edge,
    direction and epoch is byte for byte the canonical plaintext of a
    well-sized content, which is the content returned. *)
Theorem cover_cell_open_sound suite root binding dir epoch above frame opened :
  openCoverCell suite root binding dir epoch above frame = Ok opened ->
  exists key nonce ct,
    let header := cell_header FRAME_TYPE_COVER binding (opened_counter opened) 0 epoch nonce in
    frame = header ++ ct /\ blen frame = WIRE_CHUNK_FRAME_LEN /\
    (forall a, above = Some a -> a < opened_counter opened) /\
    deriveCellKey suite root binding dir epoch = Ok key /\
    aeadOpen key nonce ct header = Ok (cell_plaintext (opened_content opened)) /\
    content_ok (opened_content opened) = true.
Proof.
  intros H. unfold openCoverCell in H. binds H.
  rewrite cell_requireBytes_ok in E, E0. rewrite cell_requireU64_ok in E1.
  rewrite cell_guard_ok in E2, E3, E4, E5. apply bool_decide_eq_true in E2.
  apply bytesEqual_spec in E3. apply Z.eqb_eq in E4, E5.
  change (BINDING_OFFSET + RATCHET_DHPUB_LEN) with 33 in *. change BINDING_OFFSET with 1 in *.
  change COUNTER_OFFSET with 33 in *. change RESERVED_OFFSET with 41 in *.
  change EPOCH_OFFSET with 49 in *. change (NONCE_OFFSET + RATCHET_NONCE_LEN) with 69 in *.
  change NONCE_OFFSET with 57 in *. change COVER_CELL_HEADER_BYTES with 69 in *.
  pose proof (aeadOpen_plaintext_length _ _ _ _ _ E E8) as Hpt.
  change WIRE_CHUNK_FRAME_LEN with 65490 in *.
  pose proof (cell_split frame FRAME_TYPE_COVER) as Hsplit. rewrite E3, E4, E5 in Hsplit.
  specialize (Hsplit ltac:(lia) E2).
  apply openPlaintext_ok in E9 as [Hok ->]; [|done]. subst opened. cbn [opened_counter opened_content].
  match type of E7 with _ = Ok ?k => exists k, (slice frame 57 69), (slice_from frame 69) end.
  assert (slice frame 0 69 = cell_header FRAME_TYPE_COVER binding (get_u64 frame 33) 0 epoch
                              (slice frame 57 69)) as Hh.
  { rewrite Hsplit at 1. apply slice_app_l; [done|]. rewrite blen_cell_header; try done.
    rewrite blen_slice; lia. }
  cbv zeta. split_and!; try done; [|by rewrite <- Hh].
  intros a ->. unfold checkCounterAbove in E6. binds E6. apply cell_guard_ok, negb_true_iff, Z.leb_gt in E6. lia.
Qed.
End CellProofs.

(** ** Domain separation of the cell keys *)

Lemma cellKeyInfo_eq st dt binding epochBytes :
  cellKeyInfo st dt binding epochBytes =
  KEY_DOMAIN ++ [byte_of st; byte_of dt] ++ binding ++ epochBytes.
Proof.
  unfold cellKeyInfo. pose proof (blen_nonneg binding). pose proof (blen_nonneg epochBytes).
  assert (blen KEY_DOMAIN = 26) as Hd by done.
  rewrite bset_zeros by blen. repeat rewrite bset_append by blen.
  rewrite zeros_0 by blen. rewrite app_nil_r, <- !app_assoc. done.
Qed.

Lemma cell_directionTag_range d t : directionTag d = Ok t ->
  (t = 1 /\ d = "initiator-to-responder"%string) \/ (t = 2 /\ d = "responder-to-initiator"%string).
Proof. unfold directionTag, fail. intros. repeat case_bool_decide; simplify_eq; auto. Qed.

Lemma cell_suiteTag_inj s s' t t' : suiteTag s = Ok t -> suiteTag s' = Ok t' ->
  byte_of t = byte_of t' -> s = s'.
Proof. unfold suiteTag, fail. intros H H'. repeat case_bool_decide; simplify_eq; done. Qed.

(** Domain separation of cover keys: the HKDF info of a cell key determines
    the room suite, the direction, the edge binding and the epoch, and is never
    the info of a control-frame key of any edge. *)
Theorem cell_key_info_injective s s' d d' b b' e e' st st' dt dt' :
  suiteTag s = Ok st -> suiteTag s' = Ok st' -> directionTag d = Ok dt -> directionTag d' = Ok dt' ->
  blen b = COVER_CELL_BINDING_BYTES -> blen b' = COVER_CELL_BINDING_BYTES ->
  0 <= e <= MAX_U64 -> 0 <= e' <= MAX_U64 ->
  (cellKeyInfo st dt b (encodeU64 e) = cellKeyInfo st' dt' b' (encodeU64 e') ->
   s = s' /\ d = d' /\ b = b' /\ e = e') /\
  (forall fst fdt,
     cellKeyInfo st dt b (encodeU64 e) <> frameKeyInfo fst fdt b' (encodeU64 e')).
Proof.
  intros Hs Hs' Hd Hd' Hb Hb' He He'. rewrite !cellKeyInfo_eq, !encodeU64_eq. split.
  - intros H. apply app_inv_head in H. injection H as H1 H2 H3.
    apply app_inj_1 in H3 as [-> H3]; [|unfold blen in *; lia].
    apply (f_equal be_decode) in H3. rewrite !be_decode_u64 in H3 by done.
    pose proof (cell_suiteTag_inj _ _ _ _ Hs Hs' H1) as ->.
    apply cell_directionTag_range in Hd, Hd'.
    destruct Hd as [[-> ->]|[-> ->]], Hd' as [[-> ->]|[-> ->]]; done.
  - intros fst fdt. rewrite frameKeyInfo_eq. done.
Qed.
