(* ===== verification/CoverGeometry.v ===== *)
(** * The geometry of scheduled cover ([src/src/handlers/coverScheduler.ts])

    The authenticated schedule of a room fixes when every cover cell leaves: a
    cycle of [coverDurationEpochs] epochs of [coverCadenceMs] each, and in every
    epoch [coverLanes * coverFramesPerCell] staggered slots.  This file holds
    the schedule, its validation, the slot of an ordinal and the next cycle
    boundary; the scheduler that walks along the slots is in CoverScheduler.v.

    Times are integer milliseconds ([Date.now()]) in [Z].  The two quotients the
    source computes in floating point are exact where they are used: for
    integers below [2^53] a quotient that is not an integer is further from the
    next integer than the rounding error, so [Math.ceil(a / b)] is the ceiling
    of the exact quotient and [c / s < 25] is [c < 25 * s]. *)

From S2P Require Import Prelude Bytes.
From Stdlib Require Import Zdiv.
Local Open Scope Z_scope.

Definition MAX_COVER_LANES : Z := 16.
Definition MIN_COVER_SLOT_MS : Z := 25.

Record CoverSchedule := {
  phaseOffsetMs : Z; coverCadenceMs : Z; coverLanes : Z; coverFramesPerCell : Z;
  coverDurationEpochs : Z }.

Inductive ScheduleError :=
  | not_safe_integer | cadence_not_positive | lanes_out_of_range | frames_not_positive
  | epochs_not_positive | geometry_out_of_range | slot_too_short | drift_out_of_range.

Definition isSafeInteger (v : Z) : bool := (- MAX_SAFE_INTEGER <=? v) && (v <=? MAX_SAFE_INTEGER).
Definition assertSafeInteger (v : Z) : result ScheduleError unit :=
  require (isSafeInteger v) not_safe_integer.

(** The derived fields that the constructor stores. *)
Definition cycleDurationMs (s : CoverSchedule) : Z := coverCadenceMs s * coverDurationEpochs s.
Definition slotsPerEpoch (s : CoverSchedule) : Z := coverLanes s * coverFramesPerCell s.
Definition slotsPerLane (s : CoverSchedule) : Z := coverFramesPerCell s * coverDurationEpochs s.
Definition totalCycleSlots (s : CoverSchedule) : Z := slotsPerEpoch s * coverDurationEpochs s.

(** [coverSlotSpacingMs(schedule) < bound]. *)
Definition slotSpacingBelow (s : CoverSchedule) (bound : Z) : bool :=
  coverCadenceMs s <? bound * slotsPerEpoch s.

Definition validateCoverSchedule (s : CoverSchedule) : result ScheduleError unit :=
  assertSafeInteger (phaseOffsetMs s);;
  assertSafeInteger (coverCadenceMs s);;
  assertSafeInteger (coverLanes s);;
  assertSafeInteger (coverFramesPerCell s);;
  assertSafeInteger (coverDurationEpochs s);;
  require (negb (coverCadenceMs s <? 1)) cadence_not_positive;;
  require (negb ((coverLanes s <? 1) || (MAX_COVER_LANES <? coverLanes s))) lanes_out_of_range;;
  require (negb (coverFramesPerCell s <? 1)) frames_not_positive;;
  require (negb (coverDurationEpochs s <? 1)) epochs_not_positive;;
  require (negb (negb (isSafeInteger (slotsPerEpoch s)) || negb (isSafeInteger (slotsPerLane s))
                 || negb (isSafeInteger (cycleDurationMs s)))) geometry_out_of_range;;
  require (negb (slotSpacingBelow s MIN_COVER_SLOT_MS)) slot_too_short.

(** The checks of the constructor: the schedule, then
    [maxTimerDriftMs >= coverSlotSpacingMs(schedule)]. *)
Definition validateSchedulerOptions (s : CoverSchedule) (maxTimerDriftMs : Z)
    : result ScheduleError unit :=
  validateCoverSchedule s;;
  require (negb ((maxTimerDriftMs <? 0) || (coverCadenceMs s <=? maxTimerDriftMs * slotsPerEpoch s)))
    drift_out_of_range.

Record CoverSlot := {
  deadlineMs : Z; slot_cycleIndex : Z; slot_cycleStartMs : Z; slot_cycleEndMs : Z;
  epochIndex : Z; epochInCycle : Z; slot_laneIndex : Z; frameIndex : Z; laneSlotIndex : Z }.
#[export] Instance CoverSlot_eq_dec : EqDecision CoverSlot.
Proof. solve_decision. Defined.

(** [slotAt(cycle, ordinal)], on the fields of the cycle it reads. *)
Definition slotAt (s : CoverSchedule) (index startMs endMs ordinal : Z) : CoverSlot :=
  let epochInCycle := ordinal / slotsPerEpoch s in
  let withinEpoch := ordinal mod slotsPerEpoch s in
  let frameIndex := withinEpoch / coverLanes s in
  let laneIndex := withinEpoch mod coverLanes s in
  let epochStartMs := startMs + epochInCycle * coverCadenceMs s in
  let numerator := (2 * withinEpoch + 1) * coverCadenceMs s in
  let deadlineMs := epochStartMs + numerator / (2 * slotsPerEpoch s) in
  {| deadlineMs := deadlineMs; slot_cycleIndex := index; slot_cycleStartMs := startMs;
     slot_cycleEndMs := endMs;
     epochIndex := index * coverDurationEpochs s + epochInCycle;
     epochInCycle := epochInCycle; slot_laneIndex := laneIndex; frameIndex := frameIndex;
     laneSlotIndex := epochInCycle * coverFramesPerCell s + frameIndex |}.

(** [Math.ceil(a / b)]. *)
Definition ceil_div (a b : Z) : Z := - ((- a) / b).

(** [None] is the throw of a boundary that is not a safe integer. *)
Definition nextCycleBoundary (s : CoverSchedule) (now : Z) (inclusive : bool) : option Z :=
  let cycleIndex := ceil_div (now - phaseOffsetMs s) (cycleDurationMs s) in
  let boundary := phaseOffsetMs s + cycleIndex * cycleDurationMs s in
  let boundary :=
    if negb inclusive && (boundary <=? now)
    then phaseOffsetMs s + (cycleIndex + 1) * cycleDurationMs s else boundary in
  if isSafeInteger boundary then Some boundary else None.

(** [Math.round((boundary - phase) / cycleDuration)]: half rounds up. *)
Definition cycleIndexAtBoundary (s : CoverSchedule) (boundaryMs : Z) : option Z :=
  let cycleIndex :=
    (2 * (boundaryMs - phaseOffsetMs s) + cycleDurationMs s) / (2 * cycleDurationMs s) in
  if isSafeInteger cycleIndex then Some cycleIndex else None.

(** ** What a valid schedule guarantees *)

Definition schedule_ok (s : CoverSchedule) : Prop :=
  1 <= coverLanes s <= 16 /\ 1 <= coverFramesPerCell s /\ 1 <= coverDurationEpochs s /\
  25 * slotsPerEpoch s <= coverCadenceMs s /\
  slotsPerEpoch s <= MAX_SAFE_INTEGER /\ slotsPerLane s <= MAX_SAFE_INTEGER /\
  cycleDurationMs s <= MAX_SAFE_INTEGER /\
  - MAX_SAFE_INTEGER <= phaseOffsetMs s <= MAX_SAFE_INTEGER.

Lemma isSafeInteger_spec v : isSafeInteger v = true <-> - MAX_SAFE_INTEGER <= v <= MAX_SAFE_INTEGER.
Proof. unfold isSafeInteger. rewrite andb_true_iff, !Z.leb_le. done. Qed.

Lemma schedule_validate_ok s : validateCoverSchedule s = Ok tt -> schedule_ok s.
Proof.
  unfold validateCoverSchedule, assertSafeInteger, slotSpacingBelow, schedule_ok. intros H. binds H.
  rewrite !require_ok, ?isSafeInteger_spec in *.
  apply negb_true_iff in E4, E5, E6, E7, E8, H.
  apply orb_false_iff in E5 as [E5 E5']. apply orb_false_iff in E8 as [E8 E8'].
  apply orb_false_iff in E8 as [E8 E8''].
  apply negb_false_iff, isSafeInteger_spec in E8, E8', E8''.
  rewrite Z.ltb_ge in *. change MAX_COVER_LANES with 16 in *. change MIN_COVER_SLOT_MS with 25 in *.
  split_and!; lia.
Qed.

(** The ordinals of a cycle, and the position of an ordinal. *)
Section Geometry.
Context (s : CoverSchedule) (Hs : schedule_ok s).
Implicit Types (o i a e lane : Z).
Local Abbreviation S_ := (slotsPerEpoch s).
Local Abbreviation D_ := (coverDurationEpochs s).
Local Abbreviation L_ := (coverLanes s).
Local Abbreviation F_ := (coverFramesPerCell s).
Local Abbreviation c_ := (coverCadenceMs s).

Lemma slots_pos : 1 <= S_ /\ 25 <= c_ /\ 25 * S_ <= c_ /\ S_ = L_ * F_.
Proof using Hs. destruct Hs as (? & ? & ? & ? & _). unfold slotsPerEpoch in *. split_and!; nia. Qed.

(** The staggered formula of the source is the uniform grid. *)
Lemma deadline_uniform i a e o :
  deadlineMs (slotAt s i a e o) = a + (2 * o + 1) * c_ / (2 * S_).
Proof using Hs.
  pose proof slots_pos. cbn. pose proof (Z.div_mod o S_ ltac:(lia)).
  replace ((2 * o + 1) * c_)
    with ((2 * (o mod S_) + 1) * c_ + (o / S_ * c_) * (2 * S_)) by nia.
  rewrite Z.div_add by lia. lia.
Qed.

Lemma deadline_step i a e o o' : o < o' ->
  deadlineMs (slotAt s i a e o) + (c_ / S_) * (o' - o) <= deadlineMs (slotAt s i a e o').
Proof using Hs.
  intros. pose proof slots_pos. rewrite !deadline_uniform.
  pose proof (Z.mul_div_le c_ S_ ltac:(lia)).
  assert ((2 * o + 1) * c_ / (2 * S_) + c_ / S_ * (o' - o) <= (2 * o' + 1) * c_ / (2 * S_)); [|lia].
  rewrite <- Z.div_add by lia. apply Z.div_le_mono; nia.
Qed.

(** The next cycle continues the grid. *)
Lemma deadline_next_cycle i i' a e e' o :
  deadlineMs (slotAt s i (a + cycleDurationMs s) e o) =
  deadlineMs (slotAt s i' a e' (o + totalCycleSlots s)).
Proof using Hs.
  pose proof slots_pos. rewrite !deadline_uniform. unfold totalCycleSlots, cycleDurationMs.
  replace ((2 * (o + S_ * D_) + 1) * c_) with ((2 * o + 1) * c_ + (c_ * D_) * (2 * S_)) by ring.
  rewrite Z.div_add by lia. lia.
Qed.

Lemma spacing_floor : 25 <= c_ / S_.
Proof using Hs. pose proof slots_pos. apply Z.div_le_lower_bound; lia. Qed.

Lemma deadline_inside i a e o : 0 <= o < totalCycleSlots s ->
  a < deadlineMs (slotAt s i a e o) < a + cycleDurationMs s.
Proof using Hs.
  intros Ho. pose proof slots_pos. rewrite deadline_uniform. unfold totalCycleSlots, cycleDurationMs in *.
  assert (12 <= (2 * o + 1) * c_ / (2 * S_)) by (apply Z.div_le_lower_bound; nia).
  assert ((2 * o + 1) * c_ / (2 * S_) < c_ * D_) by (apply Z.div_lt_upper_bound; nia).
  lia.
Qed.

(** The ordinal of a slot of a lane. *)
Definition ordinal_of (lane k : Z) : Z := (k / F_) * S_ + (k mod F_) * L_ + lane.

Lemma slot_position_unique i a e o : 0 <= o ->
  ordinal_of (slot_laneIndex (slotAt s i a e o)) (laneSlotIndex (slotAt s i a e o)) = o /\
  0 <= slot_laneIndex (slotAt s i a e o) < L_ /\ 0 <= laneSlotIndex (slotAt s i a e o).
Proof using Hs.
  intros. destruct Hs as (? & ? & _). pose proof slots_pos as (? & _ & _ & HS). cbn. unfold ordinal_of.
  set (q := o / S_). set (w := o mod S_).
  assert (o = S_ * q + w) as Ho by (apply Z.div_mod; lia).
  assert (0 <= w < S_) as Hw by (apply Z.mod_pos_bound; lia).
  assert (0 <= q) by (apply Z.div_pos; lia).
  assert (0 <= w / L_ < F_) as Hf.
  { split; [apply Z.div_pos; lia|]. apply Z.div_lt_upper_bound; lia. }
  assert (w = L_ * (w / L_) + w mod L_) as Hwd by (apply Z.div_mod; lia).
  assert (0 <= w mod L_ < L_) by (apply Z.mod_pos_bound; lia).
  rewrite (Z.add_comm (q * F_)), Z.div_add, Z.mod_add, Z.div_small, Z.mod_small by lia.
  split_and!; nia.
Qed.

Lemma slot_of_ordinal i a e lane k : 0 <= lane < L_ -> 0 <= k < slotsPerLane s ->
  let o := ordinal_of lane k in
  0 <= o < totalCycleSlots s /\
  slot_laneIndex (slotAt s i a e o) = lane /\ laneSlotIndex (slotAt s i a e o) = k.
Proof using Hs.
  intros Hl Hk o. destruct Hs as (? & ? & ? & _). pose proof slots_pos as (? & _ & _ & HS).
  unfold slotsPerLane in Hk. unfold totalCycleSlots. subst o. unfold ordinal_of.
  pose proof (Z.div_mod k F_ ltac:(lia)) as Hkd.
  assert (0 <= k mod F_ < F_) as Hm by (apply Z.mod_pos_bound; lia).
  assert (0 <= k / F_ < D_) as Hq.
  { split; [apply Z.div_pos; lia|apply Z.div_lt_upper_bound; lia]. }
  set (q := k / F_) in *. set (m := k mod F_) in *.
  assert (0 <= m * L_ + lane < S_) as Hw by nia.
  cbn. replace (q * S_ + m * L_ + lane) with ((m * L_ + lane) + q * S_) by lia.
  rewrite Z.div_add, Z.mod_add, (Z.div_small _ S_), (Z.mod_small _ S_) by lia.
  replace (m * L_ + lane) with (lane + m * L_) by lia.
  rewrite Z.div_add, Z.mod_add, Z.div_small, Z.mod_small by lia.
  split_and!; nia.
Qed.

Lemma duration_pos : 25 <= cycleDurationMs s.
Proof using Hs. destruct Hs as (_ & _ & ? & _). pose proof slots_pos. unfold cycleDurationMs. nia. Qed.

Lemma ceil_div_spec x b : 0 < b -> x <= ceil_div x b * b < x + b.
Proof.
  intros. unfold ceil_div. pose proof (Z.div_mod (- x) b ltac:(lia)).
  pose proof (Z.mod_pos_bound (- x) b ltac:(lia)). nia.
Qed.

Lemma nextCycleBoundary_spec now inclusive b : nextCycleBoundary s now inclusive = Some b ->
  (exists k, b = phaseOffsetMs s + k * cycleDurationMs s /\ cycleIndexAtBoundary s b =
     (if isSafeInteger k then Some k else None)) /\
  (if inclusive then now <= b < now + cycleDurationMs s
   else now < b <= now + cycleDurationMs s).
Proof using Hs.
  pose proof duration_pos. unfold nextCycleBoundary, cycleIndexAtBoundary.
  pose proof (ceil_div_spec (now - phaseOffsetMs s) (cycleDurationMs s) ltac:(lia)) as Hc.
  set (q := ceil_div _ _) in *. set (d := cycleDurationMs s) in *.
  assert (forall k, (2 * (phaseOffsetMs s + k * d - phaseOffsetMs s) + d) / (2 * d) = k) as Hr.
  { intros k. symmetry. apply (Z.div_unique _ _ _ d); lia. }
  destruct inclusive; cbn [negb andb].
  - destruct (isSafeInteger _); [|done]. intros [= <-]. split; [|lia].
    exists q. by rewrite Hr.
  - destruct (Z.leb_spec (phaseOffsetMs s + q * d) now);
      destruct (isSafeInteger _); try done; intros [= <-].
    + split; [|lia]. exists (q + 1). by rewrite Hr.
    + split; [|lia]. exists q. by rewrite Hr.
Qed.
End Geometry.

(** The traffic shape is a fixed grid: for a schedule the validator accepts,
    the slots of a cycle lie strictly inside it, at the deadlines of the uniform
    grid [start + floor((2*ordinal+1)*cadence / (2*slotsPerEpoch))], at least
    25 ms apart, also across the boundary of two adjacent cycles. *)
Theorem slots_on_uniform_grid s index start end_ o o' :
  validateCoverSchedule s = Ok tt ->
  0 <= o < totalCycleSlots s -> 0 <= o' < totalCycleSlots s ->
  deadlineMs (slotAt s index start end_ o) =
    start + (2 * o + 1) * coverCadenceMs s / (2 * slotsPerEpoch s) /\
  start < deadlineMs (slotAt s index start end_ o) < start + cycleDurationMs s /\
  (o < o' -> deadlineMs (slotAt s index start end_ o) + 25
             <= deadlineMs (slotAt s index start end_ o')) /\
  (forall index' end', deadlineMs (slotAt s index start end_ o) + 25
     <= deadlineMs (slotAt s index' (start + cycleDurationMs s) end' o')).
Proof.
  intros Hv%schedule_validate_ok Ho Ho'. split; [by apply deadline_uniform|].
  split; [by apply deadline_inside|]. split.
  - intros Hlt. pose proof (deadline_step s Hv index start end_ o o' Hlt).
    pose proof (spacing_floor s Hv). nia.
  - intros index' end'. rewrite (deadline_next_cycle s Hv index' index start end' end_).
    pose proof (deadline_step s Hv index start end_ o (o' + totalCycleSlots s) ltac:(lia)).
    pose proof (spacing_floor s Hv). nia.
Qed.

(** Every lane gets the same share: each pair of a lane and a lane slot below
    the authenticated capacity F x D is the position of exactly one ordinal of
    the cycle, so the schedule does not depend on which lane carries data. *)
Theorem every_lane_slot_once s index start end_ lane k :
  validateCoverSchedule s = Ok tt -> 0 <= lane < coverLanes s -> 0 <= k < slotsPerLane s ->
  exists o, (0 <= o < totalCycleSlots s /\
             slot_laneIndex (slotAt s index start end_ o) = lane /\
             laneSlotIndex (slotAt s index start end_ o) = k) /\
    forall o', 0 <= o' -> slot_laneIndex (slotAt s index start end_ o') = lane ->
      laneSlotIndex (slotAt s index start end_ o') = k -> o' = o.
Proof.
  intros Hv%schedule_validate_ok Hl Hk. exists (ordinal_of s lane k).
  split; [by apply slot_of_ordinal|]. intros o' Ho' <- <-.
  symmetry. by apply slot_position_unique.
Qed.

(** A cycle only ever opens on the room's phase grid: the next boundary is
    the first grid point not before now (strictly after now when resuming), it
    is at most one cycle away, and its cycle index is the grid position. *)
Theorem next_boundary_on_grid s now inclusive b :
  validateCoverSchedule s = Ok tt -> nextCycleBoundary s now inclusive = Some b ->
  (exists k, b = phaseOffsetMs s + k * cycleDurationMs s /\
     (isSafeInteger k = true -> cycleIndexAtBoundary s b = Some k)) /\
  (if inclusive then now <= b < now + cycleDurationMs s
   else now < b <= now + cycleDurationMs s).
Proof.
  intros Hv%schedule_validate_ok Hb. destruct (nextCycleBoundary_spec s Hv _ _ _ Hb) as [(k & -> & Hk) Hr].
  split; [|done]. exists k. split; [done|]. intros Hsafe. by rewrite Hk, Hsafe.
Qed.
