(* ===== verification/CoverScheduler.v ===== *)
(** * The cover scheduler ([CoverScheduler] of [src/src/handlers/coverScheduler.ts])

    One scheduler per peer edge walks along the slots of CoverGeometry.v and
    sends one cell per slot: a job's cell if the lane of the slot carries a job,
    a dummy otherwise.

    - The objects the class shares and mutates live in stores: [cs_store] holds
      the [JobRuntime]s (a reference is the runtime's sequence number, which is
      its position), [cs_cycles] the cycles with their lanes (a lane captured by
      a pending [sendSlot] is a cycle reference and a position).
    - A timer is data: its deadline, what it is for and the generation its
      callback captured.  [sendSlot] and [requestForSlot] are split at their
      [await]s; a suspended call is a [Task], with the generation it captured.
    - What the environment answers is the record [World], consulted at a running
      call number: the clock, the lane factory, closing a lane, and the jobs
      that the result observer enqueues from inside its callback (the receipt
      drain of coverTransfer.ts does).  Observers call no other method of the
      scheduler.  A promise's [catch] handler runs directly after the rejection.
    - A producer, a dummy maker or a transport answers a [Task]: an event of
      [step].  Observer calls and sends are recorded in [cs_log]. *)

From stdpp Require Import gmap.
From S2P Require Import Prelude Bytes CoverGeometry.
Local Open Scope Z_scope.

Inductive CoverSchedulerStatus := starting | active | degraded | suspended | stopped.
Inductive CoverJobKind := real | control.
Inductive CoverCellSource := source_kind (k : CoverJobKind) | source_cancel | source_dummy.
#[export] Instance CoverSchedulerStatus_eq_dec : EqDecision CoverSchedulerStatus.
Proof. solve_decision. Defined.
#[export] Instance CoverJobKind_eq_dec : EqDecision CoverJobKind.
Proof. solve_decision. Defined.
#[export] Instance CoverCellSource_eq_dec : EqDecision CoverCellSource.
Proof. solve_decision. Defined.

(** [nextCell] answers through [TaskResumes]; [job_has_cancelCell] says whether
    the optional [cancelCell] is present. *)
Record CoverJob := {
  job_id : string; job_kind : CoverJobKind; declaredCellCount : Z; job_priority : option Z;
  job_has_cancelCell : bool }.

Record CoverJobSummary := {
  sum_id : string; sum_kind : CoverJobKind; sum_declared : Z }.
Record CoverLaneOpenContext := {
  ctx_cycleIndex : Z; ctx_cycleStartMs : Z; ctx_cycleEndMs : Z; ctx_laneIndex : Z;
  ctx_job : option CoverJobSummary }.
Inductive CloseReason := boundary | late_cleanup.
Record CoverSendRequest := {
  req_cell : bytes; req_source : CoverCellSource; req_slot : CoverSlot;
  req_jobId : option string; req_jobCellIndex : option Z }.
Inductive CoverJobOutcome := outcome_completed | cancelled_before_admission | cancelled | failed.
Inductive FailReason := capacity_exhausted | reason_stopped.
Record CoverJobResult := {
  res_jobId : string; res_outcome : CoverJobOutcome; res_reason : option FailReason }.
Inductive InterruptionReason :=
  | backpressure | cell_production_failed | lane_open_failed | missed_deadline | send_failed
  | interrupted_suspended.
Definition reason_string (r : InterruptionReason) : string :=
  match r with
  | backpressure => "backpressure" | cell_production_failed => "cell-production-failed"
  | lane_open_failed => "lane-open-failed" | missed_deadline => "missed-deadline"
  | send_failed => "send-failed" | interrupted_suspended => "suspended"
  end.
Inductive CoverCancelResult := not_found | cancelled_before | cancel_pending.

Inductive JobState := queued_state | admitted_state | terminal_state.
#[export] Instance JobState_eq_dec : EqDecision JobState.
Proof. solve_decision. Defined.
Record JobRuntime := Runtime {
  rt_job : CoverJob; rt_state : JobState; rt_everAdmitted : bool; rt_sentCells : Z;
  rt_cancelRequested : bool; rt_cancelSent : bool; rt_completed : bool; rt_settled : bool;
  rt_pendingCell : option bytes; rt_pendingCancelCell : option bytes }.

Record LaneRuntime := Lane {
  ln_laneIndex : Z; ln_openContext : CoverLaneOpenContext; ln_job : option nat }.
Record CycleRuntime := Cycle {
  cy_index : Z; cy_startMs : Z; cy_endMs : Z; cy_lanes : list LaneRuntime;
  cy_nextSlotOrdinal : Z }.

Inductive TimerKind := open_boundary | cycle_boundary | slot_timer (slot : CoverSlot).
Record Timer := { tm_deadlineMs : Z; tm_kind : TimerKind; tm_generation : Z; tm_delayMs : Z }.

(** Where a [sendSlot] call is suspended. *)
Inductive Stage :=
  | AwaitCancelCell (r : nat)
  | AwaitNextCell (r : nat)
  | AwaitDummy (r : option nat)
  | AwaitRequest (request : CoverSendRequest)
  | AwaitSend (request : CoverSendRequest).
Record Task := { tk_generation : Z; tk_cycle : nat; tk_lane : nat; tk_slot : CoverSlot; tk_stage : Stage }.

Inductive LogEntry :=
  | StatusChanged (previous status : CoverSchedulerStatus) (reason : option string)
  | JobSettled (r : nat) (result : CoverJobResult)
  | JobInterrupted (r : nat) (reason : InterruptionReason)
  | LaneClosed (context : CoverLaneOpenContext) (reason : CloseReason)
  | CellSent (request : CoverSendRequest) (at_ms : Z).

Record Scheduler := Sched {
  cs_store : list JobRuntime; cs_queued : list nat; cs_jobs : list (string * nat);
  cs_status : CoverSchedulerStatus; cs_running : bool; cs_generation : Z;
  cs_timer : option Timer; cs_cycles : list CycleRuntime; cs_cycle : option nat;
  cs_tasks : gmap nat Task; cs_nextTask : nat; cs_log : list LogEntry; cs_calls : nat }.

Definition initial : Scheduler :=
  Sched [] [] [] stopped false 0 None [] None ∅ 0%nat [] 0%nat.

Inductive CoverThrow :=
  | empty_job_id | duplicate_job_id | unsafe_integer | does_not_fit | requires_cancelCell
  | non_finite_clock | boundary_out_of_range | cycle_end_out_of_range.
Abbreviation sched A := (M Scheduler CoverThrow A).

(** What the environment answers at call number [n]. *)
Record World := {
  w_now : nat -> option Z;
  w_lane : nat -> CoverLaneOpenContext -> bool;
  w_close : nat -> CoverLaneOpenContext -> CloseReason -> bool;
  w_onResult : nat -> CoverJobResult -> list CoverJob }.

(** ** Field assignments *)

Definition with_store f s := Sched (f (cs_store s)) (cs_queued s) (cs_jobs s) (cs_status s)
  (cs_running s) (cs_generation s) (cs_timer s) (cs_cycles s) (cs_cycle s) (cs_tasks s)
  (cs_nextTask s) (cs_log s) (cs_calls s).
Definition with_queued f s := Sched (cs_store s) (f (cs_queued s)) (cs_jobs s) (cs_status s)
  (cs_running s) (cs_generation s) (cs_timer s) (cs_cycles s) (cs_cycle s) (cs_tasks s)
  (cs_nextTask s) (cs_log s) (cs_calls s).
Definition with_jobs f s := Sched (cs_store s) (cs_queued s) (f (cs_jobs s)) (cs_status s)
  (cs_running s) (cs_generation s) (cs_timer s) (cs_cycles s) (cs_cycle s) (cs_tasks s)
  (cs_nextTask s) (cs_log s) (cs_calls s).
Definition with_status st s := Sched (cs_store s) (cs_queued s) (cs_jobs s) st
  (cs_running s) (cs_generation s) (cs_timer s) (cs_cycles s) (cs_cycle s) (cs_tasks s)
  (cs_nextTask s) (cs_log s) (cs_calls s).
Definition with_running b s := Sched (cs_store s) (cs_queued s) (cs_jobs s) (cs_status s)
  b (cs_generation s) (cs_timer s) (cs_cycles s) (cs_cycle s) (cs_tasks s)
  (cs_nextTask s) (cs_log s) (cs_calls s).
Definition with_timer g t s := Sched (cs_store s) (cs_queued s) (cs_jobs s) (cs_status s)
  (cs_running s) g t (cs_cycles s) (cs_cycle s) (cs_tasks s)
  (cs_nextTask s) (cs_log s) (cs_calls s).
Definition with_cycles cs c s := Sched (cs_store s) (cs_queued s) (cs_jobs s) (cs_status s)
  (cs_running s) (cs_generation s) (cs_timer s) cs c (cs_tasks s)
  (cs_nextTask s) (cs_log s) (cs_calls s).
Definition with_tasks ts n s := Sched (cs_store s) (cs_queued s) (cs_jobs s) (cs_status s)
  (cs_running s) (cs_generation s) (cs_timer s) (cs_cycles s) (cs_cycle s) ts
  n (cs_log s) (cs_calls s).
Definition with_log e s := Sched (cs_store s) (cs_queued s) (cs_jobs s) (cs_status s)
  (cs_running s) (cs_generation s) (cs_timer s) (cs_cycles s) (cs_cycle s) (cs_tasks s)
  (cs_nextTask s) (cs_log s ++ [e]) (cs_calls s).
Definition with_call s := Sched (cs_store s) (cs_queued s) (cs_jobs s) (cs_status s)
  (cs_running s) (cs_generation s) (cs_timer s) (cs_cycles s) (cs_cycle s) (cs_tasks s)
  (cs_nextTask s) (cs_log s) (S (cs_calls s)).

Definition set_admitted j := Runtime (rt_job j) admitted_state true (rt_sentCells j)
  (rt_cancelRequested j) (rt_cancelSent j) (rt_completed j) (rt_settled j) (rt_pendingCell j)
  (rt_pendingCancelCell j).
Definition set_requeued j := Runtime (rt_job j) queued_state (rt_everAdmitted j) (rt_sentCells j)
  (rt_cancelRequested j) (rt_cancelSent j) (rt_completed j) (rt_settled j) (rt_pendingCell j)
  (rt_pendingCancelCell j).
Definition set_settled j := Runtime (rt_job j) terminal_state (rt_everAdmitted j) (rt_sentCells j)
  (rt_cancelRequested j) (rt_cancelSent j) (rt_completed j) true (rt_pendingCell j)
  (rt_pendingCancelCell j).
Definition set_cancelRequested j := Runtime (rt_job j) (rt_state j) (rt_everAdmitted j)
  (rt_sentCells j) true (rt_cancelSent j) false (rt_settled j) (rt_pendingCell j)
  (rt_pendingCancelCell j).
Definition set_completed j := Runtime (rt_job j) (rt_state j) (rt_everAdmitted j)
  (rt_sentCells j) (rt_cancelRequested j) (rt_cancelSent j) true (rt_settled j) (rt_pendingCell j)
  (rt_pendingCancelCell j).
Definition set_pendingCell c j := Runtime (rt_job j) (rt_state j) (rt_everAdmitted j)
  (rt_sentCells j) (rt_cancelRequested j) (rt_cancelSent j) (rt_completed j) (rt_settled j) c
  (rt_pendingCancelCell j).
Definition set_pendingCancelCell c j := Runtime (rt_job j) (rt_state j) (rt_everAdmitted j)
  (rt_sentCells j) (rt_cancelRequested j) (rt_cancelSent j) (rt_completed j) (rt_settled j)
  (rt_pendingCell j) c.
Definition set_cancelSent j := Runtime (rt_job j) (rt_state j) (rt_everAdmitted j)
  (rt_sentCells j) (rt_cancelRequested j) true (rt_completed j) (rt_settled j)
  (rt_pendingCell j) None.
Definition set_sent j := Runtime (rt_job j) (rt_state j) (rt_everAdmitted j)
  (rt_sentCells j + 1) (rt_cancelRequested j) (rt_cancelSent j) (rt_completed j) (rt_settled j)
  None (rt_pendingCancelCell j).
Definition set_ln_job r l := Lane (ln_laneIndex l) (ln_openContext l) r.
Definition set_lanes f c :=
  Cycle (cy_index c) (cy_startMs c) (cy_endMs c) (f (cy_lanes c)) (cy_nextSlotOrdinal c).
Definition set_ordinal n c := Cycle (cy_index c) (cy_startMs c) (cy_endMs c) (cy_lanes c) n.

(** ** The queue order *)

Definition jobTier (j : JobRuntime) : Z :=
  if rt_cancelRequested j then 0 else if bool_decide (job_kind (rt_job j) = control) then 1 else 2.

Definition compareQueuedJobs (st : list JobRuntime) (left right : nat) : Z :=
  match st !! left, st !! right with
  | Some l, Some r =>
      let tierDifference := jobTier l - jobTier r in
      if negb (tierDifference =? 0) then tierDifference else
      let priorityDifference :=
        default 0 (job_priority (rt_job r)) - default 0 (job_priority (rt_job l)) in
      if negb (priorityDifference =? 0) then priorityDifference
      else Z.of_nat left - Z.of_nat right
  | _, _ => Z.of_nat left - Z.of_nat right
  end.

(** [indexOf] and [splice]. *)
Fixpoint remove_first (r : nat) (l : list nat) : list nat :=
  match l with
  | [] => []
  | x :: l' => if decide (x = r) then l' else x :: remove_first r l'
  end.

Definition jobs_get (id : string) (jobs : list (string * nat)) : option nat :=
  snd <$> find (fun p => bool_decide (p.1 = id)) jobs.
Definition jobs_delete (id : string) (jobs : list (string * nat)) : list (string * nat) :=
  filter (fun p => p.1 <> id) jobs.

Definition jobSummary (j : JobRuntime) : CoverJobSummary :=
  {| sum_id := job_id (rt_job j); sum_kind := job_kind (rt_job j);
     sum_declared := declaredCellCount (rt_job j) |}.

Fixpoint for_each {A S E} (l : list A) (f : A -> M S E unit) : M S E unit :=
  match l with [] => mret tt | x :: l' => f x;; for_each l' f end.

(** [try { c } catch { h }]. *)
Definition try_catch {S E A} (c h : M S E A) : M S E A :=
  fun s => match c s with (Err _, s') => h s' | r => r end.

(** ** The methods *)

Section Scheduler.
Context (W : World) (schedule : CoverSchedule) (maxTimerDriftMs : Z).

Definition upd (r : nat) (f : JobRuntime -> JobRuntime) : sched unit :=
  modify_this (with_store (alter f r)).
Definition upd_cycle (c : nat) (f : CycleRuntime -> CycleRuntime) : sched unit :=
  modify_this (fun s => with_cycles (alter f c (cs_cycles s)) (cs_cycle s) s).
Definition upd_lane (c l : nat) (f : LaneRuntime -> LaneRuntime) : sched unit :=
  upd_cycle c (set_lanes (alter f l)).
Definition log (e : LogEntry) : sched unit := modify_this (with_log e).

(** The number of the next call to the environment. *)
Definition external_call : sched nat :=
  s ← get_this; modify_this with_call;; mret (cs_calls s).

Definition assertClockNow : sched Z :=
  n ← external_call;
  match w_now W n with Some t => mret t | None => mthrow non_finite_clock end.

(** An object reference, dereferenced. *)
Definition deref (s : Scheduler) (o : option nat) : option (nat * JobRuntime) :=
  match o with
  | Some r => match cs_store s !! r with Some j => Some (r, j) | None => None end
  | None => None
  end.

Definition throwing_boundary (b : option Z) (e : CoverThrow) : sched Z :=
  match b with Some x => mret x | None => mthrow e end.

Definition sortQueue : sched unit :=
  s ← get_this; modify_this (with_queued (array_sort (compareQueuedJobs (cs_store s)))).
Definition removeQueued (r : nat) : sched unit := modify_this (with_queued (remove_first r)).

Definition getQueuedJobIds (s : Scheduler) : list string :=
  omap (fun r => (fun j => job_id (rt_job j)) <$> cs_store s !! r)
    (array_sort (compareQueuedJobs (cs_store s)) (cs_queued s)).

Definition dequeue : sched (option nat) :=
  sortQueue;;
  s ← get_this;
  match cs_queued s with
  | [] => mret None
  | r :: q => modify_this (with_queued (fun _ => q));; mret (Some r)
  end.

Definition enqueue (j : CoverJob) : sched unit :=
  mrequire (negb (bool_decide (job_id j = ""%string))) empty_job_id;;
  s ← get_this;
  mrequire (bool_decide (jobs_get (job_id j) (cs_jobs s) = None)) duplicate_job_id;;
  mrequire (isSafeInteger (declaredCellCount j)) unsafe_integer;;
  mrequire (negb ((declaredCellCount j <? 1) || (slotsPerLane schedule <? declaredCellCount j)))
    does_not_fit;;
  mrequire (match job_priority j with Some p => isSafeInteger p | None => true end) unsafe_integer;;
  let r := length (cs_store s) in
  modify_this (with_store (fun st => st ++
    [Runtime j queued_state false 0 false false false false None None]));;
  modify_this (with_jobs (fun js => js ++ [(job_id j, r)]));;
  modify_this (with_queued (fun q => q ++ [r]));;
  sortQueue.

(** [safeNotify(() => this.onJobResult?.(result))]. *)
Definition notifyResult (r : nat) (result : CoverJobResult) : sched unit :=
  log (JobSettled r result);;
  n ← external_call;
  for_each (w_onResult W n result) (fun j => try_catch (enqueue j) (mret tt)).

Definition setStatus (st : CoverSchedulerStatus) (reason : option string) : sched unit :=
  s ← get_this;
  if bool_decide (cs_status s = st) then mret tt else
  modify_this (with_status st);; log (StatusChanged (cs_status s) st reason).

Definition settle (r : nat) (outcome : CoverJobOutcome) (reason : option FailReason) : sched unit :=
  s ← get_this;
  match cs_store s !! r with
  | None => mret tt
  | Some j =>
      if rt_settled j then mret tt else
      upd r set_settled;;
      removeQueued r;;
      let id := job_id (rt_job j) in
      (if bool_decide (jobs_get id (cs_jobs s) = Some r)
       then modify_this (with_jobs (jobs_delete id)) else mret tt);;
      notifyResult r {| res_jobId := id; res_outcome := outcome; res_reason := reason |}
  end.

Definition requeue (r : nat) (reason : InterruptionReason) : sched unit :=
  s ← get_this;
  match cs_store s !! r with
  | None => mret tt
  | Some j =>
      if rt_settled j || rt_completed j || rt_cancelSent j then mret tt else
      upd r set_requeued;;
      (if bool_decide (r ∈ cs_queued s) then mret tt
       else modify_this (with_queued (fun q => q ++ [r])));;
      sortQueue;;
      log (JobInterrupted r reason)
  end.

Definition cancel (jobId : string) : sched CoverCancelResult :=
  s ← get_this;
  match deref s (jobs_get jobId (cs_jobs s)) with
  | None => mret not_found
  | Some (r, j) =>
      if rt_settled j then mret not_found else
      if negb (rt_everAdmitted j) then
        removeQueued r;; settle r cancelled_before_admission None;; mret cancelled_before
      else
        mrequire (job_has_cancelCell (rt_job j)) requires_cancelCell;;
        upd r set_cancelRequested;; sortQueue;; mret cancel_pending
  end.

Definition complete (jobId : string) : sched bool :=
  s ← get_this;
  match deref s (jobs_get jobId (cs_jobs s)) with
  | None => mret false
  | Some (r, j) =>
      if rt_settled j then mret false else
      removeQueued r;;
      upd r (fun j => set_pendingCell None (set_completed j));;
      settle r outcome_completed None;; mret true
  end.

(** *** Timers *)

Definition MAX_TIMER_DELAY_MS : Z := 2147483647.

Definition disarm : sched unit :=
  modify_this (fun s => with_timer (cs_generation s + 1) None s).

Definition armRemaining (deadline : Z) (kind : TimerKind) (generation : Z) : sched unit :=
  s ← get_this;
  if negb (generation =? cs_generation s) then mret tt else
  now ← assertClockNow;
  let remaining := deadline - now in
  let delay := Z.min MAX_TIMER_DELAY_MS (Z.max 0 remaining) in
  modify_this (fun s => with_timer (cs_generation s)
    (Some {| tm_deadlineMs := deadline; tm_kind := kind; tm_generation := generation;
             tm_delayMs := delay |}) s).

Definition arm (deadline : Z) (kind : TimerKind) : sched unit :=
  disarm;; s ← get_this; armRemaining deadline kind (cs_generation s).

Definition armOpenBoundary (deadline : Z) : sched unit := arm deadline open_boundary.
Definition armCycleBoundary (deadline : Z) : sched unit := arm deadline cycle_boundary.
Definition armSlot (c : CycleRuntime) : sched unit :=
  let slot := slotAt schedule (cy_index c) (cy_startMs c) (cy_endMs c) (cy_nextSlotOrdinal c) in
  arm (deadlineMs slot) (slot_timer slot).

Definition armNextCycle (now : Z) (inclusive : bool) : sched unit :=
  b ← throwing_boundary (nextCycleBoundary schedule now inclusive) boundary_out_of_range;
  armOpenBoundary b.

(** *** Cycles *)

(** [this.cycle], dereferenced. *)
Definition current_cycle (s : Scheduler) : option (nat * CycleRuntime) :=
  c ← cs_cycle s; (fun cy => (c, cy)) <$> cs_cycles s !! c.

Definition interruptCycle (reason : InterruptionReason) : sched unit :=
  s ← get_this;
  match current_cycle s with
  | None => mret tt
  | Some (c, cy) =>
      for_each (imap pair (cy_lanes cy)) (fun '(i, lane) =>
        upd_lane c i (set_ln_job None);;
        match ln_job lane with Some r => requeue r reason | None => mret tt end)
  end.

Definition finalizeCycleJobs : sched unit :=
  s ← get_this;
  match current_cycle s with
  | None => mret tt
  | Some (c, cy) =>
      for_each (imap pair (cy_lanes cy)) (fun '(i, lane) =>
        upd_lane c i (set_ln_job None);;
        s ← get_this;
        match deref s (ln_job lane) with
        | None => mret tt
        | Some (r, j) =>
            if rt_settled j then mret tt else
            if rt_cancelRequested j && negb (rt_cancelSent j) then requeue r missed_deadline
            else settle r failed (Some capacity_exhausted)
        end)
  end.

Fixpoint closeLanes (lanes : list LaneRuntime) (reason : CloseReason) : sched bool :=
  match lanes with
  | [] => mret true
  | lane :: lanes' =>
      n ← external_call;
      log (LaneClosed (ln_openContext lane) reason);;
      clean ← closeLanes lanes' reason;
      mret (w_close W n (ln_openContext lane) reason && clean)
  end.

Definition closeCurrentCycle (reason : CloseReason) : sched bool :=
  s ← get_this;
  match current_cycle s with
  | None => mret true
  | Some (_, cy) =>
      closed ← closeLanes (array_sort (fun l r => ln_laneIndex l - ln_laneIndex r) (cy_lanes cy)) reason;
      modify_this (fun s => with_cycles (cs_cycles s) None s);;
      mret closed
  end.

(** *** Life cycle *)

Definition start : sched bool :=
  s ← get_this;
  if negb (bool_decide (cs_status s = stopped)) then mret false else
  modify_this (with_running true);;
  setStatus starting None;;
  now ← assertClockNow;
  s ← get_this;
  match current_cycle s with
  | Some (_, cy) => armCycleBoundary (cy_endMs cy);; mret true
  | None => armNextCycle now true;; mret true
  end.

(** Keep the open cycle until its boundary, or close it when it is past. *)
Definition boundaryOrCleanup (now : Z) (cy : CycleRuntime) : sched unit :=
  if now <=? cy_endMs cy then armCycleBoundary (cy_endMs cy)
  else closed ← closeCurrentCycle late_cleanup; mret tt.

Definition suspend (reason : string) : sched bool :=
  s ← get_this;
  if bool_decide (cs_status s = stopped) || bool_decide (cs_status s = suspended)
  then mret false else
  disarm;;
  setStatus suspended (Some reason);;
  now ← assertClockNow;
  s ← get_this;
  match current_cycle s with
  | None => mret true
  | Some (_, cy) => interruptCycle interrupted_suspended;; boundaryOrCleanup now cy;; mret true
  end.

Definition resume : sched bool :=
  s ← get_this;
  if negb (bool_decide (cs_status s = suspended)) then mret false else
  modify_this (with_running true);;
  disarm;;
  setStatus starting None;;
  now ← assertClockNow;
  s ← get_this;
  match current_cycle s with
  | Some (_, cy) =>
      if now <? cy_endMs cy then armCycleBoundary (cy_endMs cy);; mret true
      else closed ← closeCurrentCycle late_cleanup; armNextCycle now false;; mret true
  | None => armNextCycle now false;; mret true
  end.

Definition stop : sched bool :=
  s ← get_this;
  if bool_decide (cs_status s = stopped) && bool_decide (cs_cycle s = None) then mret false else
  modify_this (with_running false);;
  disarm;;
  setStatus stopped None;;
  s ← get_this;
  for_each (snd <$> cs_jobs s) (fun r =>
    removeQueued r;; settle r failed (Some reason_stopped));;
  s ← get_this;
  match current_cycle s with
  | None => mret true
  | Some (c, cy) =>
      for_each (seq 0 (length (cy_lanes cy))) (fun i => upd_lane c i (set_ln_job None));;
      now ← assertClockNow;
      boundaryOrCleanup now cy;; mret true
  end.

Definition degrade (reason : InterruptionReason) : sched unit :=
  s ← get_this;
  if bool_decide (cs_status s = stopped) || bool_decide (cs_status s = suspended)
  then mret tt else
  disarm;;
  setStatus degraded (Some (reason_string reason));;
  now ← assertClockNow;
  s ← get_this;
  match current_cycle s with
  | Some (_, cy) =>
      interruptCycle reason;;
      if now <=? cy_endMs cy then armCycleBoundary (cy_endMs cy) else
      closed ← closeCurrentCycle late_cleanup;
      if cs_running s then armNextCycle now false else mret tt
  | None => if cs_running s then armNextCycle now false else mret tt
  end.

(** *** Opening a cycle *)

Fixpoint selectJobs (n : nat) : sched (list (option nat)) :=
  match n with
  | O => mret []
  | S n' => r ← dequeue; rest ← selectJobs n'; mret (r :: rest)
  end.

Definition admitJob (r : option nat) : sched unit :=
  match r with Some r => upd r set_admitted | None => mret tt end.

(** The lanes that opened, and whether one failed to. *)
Fixpoint openLanes (cycleIndex startMs endMs laneIndex : Z) (selected : list (option nat))
    : sched (list LaneRuntime * bool) :=
  match selected with
  | [] => mret ([], false)
  | r :: selected' =>
      s ← get_this;
      let context := {| ctx_cycleIndex := cycleIndex; ctx_cycleStartMs := startMs;
        ctx_cycleEndMs := endMs; ctx_laneIndex := laneIndex;
        ctx_job := jobSummary <$> (r ≫= (cs_store s !!.)) |} in
      n ← external_call;
      rest ← openLanes cycleIndex startMs endMs (laneIndex + 1) selected';
      let '(lanes, openFailed) := rest in
      mret (if w_lane W n context then (Lane laneIndex context r :: lanes, openFailed)
            else (lanes, true))
  end.

Definition openCycle (boundaryMs generation : Z) : sched unit :=
  s ← get_this;
  if negb (generation =? cs_generation s) || negb (cs_running s)
     || bool_decide (cs_status s = stopped) || bool_decide (cs_status s = suspended)
  then mret tt else
  cycleIndex ← throwing_boundary (cycleIndexAtBoundary schedule boundaryMs) unsafe_integer;
  let cycleEndMs := boundaryMs + cycleDurationMs schedule in
  mrequire (isSafeInteger cycleEndMs) cycle_end_out_of_range;;
  selected ← selectJobs (Z.to_nat (coverLanes schedule));
  for_each selected admitJob;;
  opened ← openLanes cycleIndex boundaryMs cycleEndMs 0 selected;
  let '(lanes, openFailed) := opened in
  let cy := Cycle cycleIndex boundaryMs cycleEndMs lanes 0 in
  s ← get_this;
  let c := length (cs_cycles s) in
  modify_this (with_cycles (cs_cycles s ++ [cy]) (Some c));;
  if openFailed : bool then
    setStatus degraded (Some (reason_string lane_open_failed));;
    for_each (seq 0 (length lanes)) (fun i => upd_lane c i (set_ln_job None));;
    for_each selected (fun r =>
      match r with Some r => requeue r lane_open_failed | None => mret tt end);;
    armCycleBoundary cycleEndMs
  else
    setStatus active None;;
    s ← get_this;
    if negb (generation =? cs_generation s) || negb (bool_decide (cs_status s = active))
       || negb (bool_decide ((fun p => cy_index p.2) <$> current_cycle s = Some cycleIndex))
    then mret tt else armSlot cy.

Definition handleCycleBoundary (boundaryMs : Z) : sched unit :=
  s ← get_this;
  match current_cycle s with
  | None => mret tt
  | Some (_, cy) =>
      if negb (cy_endMs cy =? boundaryMs) then mret tt else
      finalizeCycleJobs;;
      closedCleanly ← closeCurrentCycle boundary;
      s ← get_this;
      if negb closedCleanly then
        (if bool_decide (cs_status s = stopped) then mret tt
         else setStatus degraded (Some "lane-close-failed"%string));;
        (if cs_running s then now ← assertClockNow; armNextCycle now false else mret tt)
      else
        if negb (cs_running s) || bool_decide (cs_status s = stopped)
           || bool_decide (cs_status s = suspended)
        then mret tt
        else try_catch (openCycle boundaryMs (cs_generation s))
               (suspend "boundary-handler-failed";; mret tt)
  end.

(** *** Sending one slot *)

Definition add_task (t : Task) : sched unit :=
  modify_this (fun s => with_tasks (<[cs_nextTask s := t]> (cs_tasks s)) (S (cs_nextTask s)) s).
Definition set_task (k : nat) (t : Task) : sched unit :=
  modify_this (fun s => with_tasks (<[k := t]> (cs_tasks s)) (cs_nextTask s) s).
Definition drop_task (k : nat) : sched unit :=
  modify_this (fun s => with_tasks (delete k (cs_tasks s)) (cs_nextTask s) s).

Definition job_request (slot : CoverSlot) (j : JobRuntime) (source : CoverCellSource) (cell : bytes)
    : CoverSendRequest :=
  {| req_cell := cell; req_source := source; req_slot := slot;
     req_jobId := Some (job_id (rt_job j)); req_jobCellIndex := Some (rt_sentCells j) |}.

(** [requestForSlot] up to its first [await]. *)
Definition requestForSlot (s : Scheduler) (lane : LaneRuntime) (slot : CoverSlot) : Stage :=
  match deref s (ln_job lane) with
  | None => AwaitDummy (ln_job lane)
  | Some (r, j) =>
      if rt_settled j then AwaitDummy (Some r) else
      if rt_cancelRequested j && negb (rt_cancelSent j) then
        match rt_pendingCancelCell j with
        | Some cell => AwaitRequest (job_request slot j source_cancel cell)
        | None => AwaitCancelCell r
        end
      else if negb (rt_completed j) && (rt_sentCells j <? declaredCellCount (rt_job j)) then
        match rt_pendingCell j with
        | Some cell => AwaitRequest (job_request slot j (source_kind (job_kind (rt_job j))) cell)
        | None => AwaitNextCell r
        end
      else AwaitDummy (Some r)
  end.

(** [sendSlot] up to its first [await]. *)
Definition sendSlot (slot : CoverSlot) (generation : Z) : sched unit :=
  s ← get_this;
  match current_cycle s with
  | None => mret tt
  | Some (c, cy) =>
      if negb (generation =? cs_generation s) || negb (bool_decide (cs_status s = active))
      then mret tt else
      match list_find (fun l => ln_laneIndex l = slot_laneIndex slot) (cy_lanes cy) with
      | None => degrade lane_open_failed
      | Some (i, lane) =>
          add_task {| tk_generation := generation; tk_cycle := c; tk_lane := i; tk_slot := slot;
                      tk_stage := requestForSlot s lane slot |}
      end
  end.

Definition lane_of (s : Scheduler) (t : Task) : option LaneRuntime :=
  cy ← cs_cycles s !! tk_cycle t; cy_lanes cy !! tk_lane t.

Definition cacheUnsent (t : Task) (request : CoverSendRequest) : sched unit :=
  s ← get_this;
  let by_id := req_jobId request ≫= (fun id => jobs_get id (cs_jobs s)) in
  let runtime := match by_id with Some r => Some r | None => lane_of s t ≫= ln_job end in
  match deref s runtime with
  | None => mret tt
  | Some (r, j) =>
      if rt_settled j then mret tt else
      match req_source request with
      | source_cancel => upd r (set_pendingCancelCell (Some (req_cell request)))
      | source_kind _ => upd r (set_pendingCell (Some (req_cell request)))
      | source_dummy => mret tt
      end
  end.

Definition acceptSent (t : Task) (request : CoverSendRequest) : sched unit :=
  s ← get_this;
  match deref s (lane_of s t ≫= ln_job) with
  | None => mret tt
  | Some (r, j) =>
      if rt_settled j then mret tt else
      match req_source request with
      | source_cancel => upd r set_cancelSent;; settle r cancelled None
      | source_dummy => mret tt
      | source_kind _ =>
          upd r set_sent;;
          if rt_sentCells j + 1 =? declaredCellCount (rt_job j)
          then upd r set_completed;; settle r outcome_completed None
          else mret tt
      end
  end.

(** [sendSlot] from the request on, up to the [await] of the transport. *)
Definition sendRequest (k : nat) (t : Task) (request : CoverSendRequest) : sched unit :=
  s ← get_this;
  if negb (tk_generation t =? cs_generation s) then drop_task k;; cacheUnsent t request else
  drop_task k;;
  now ← assertClockNow;
  if deadlineMs (tk_slot t) + maxTimerDriftMs <? now
  then cacheUnsent t request;; degrade missed_deadline
  else
    log (CellSent request now);;
    set_task k {| tk_generation := tk_generation t; tk_cycle := tk_cycle t; tk_lane := tk_lane t;
                  tk_slot := tk_slot t; tk_stage := AwaitSend request |}.

(** [sendSlot] after an accepted send. *)
Definition advanceSlot (t : Task) : sched unit :=
  s ← get_this;
  if negb (tk_generation t =? cs_generation s) || negb (bool_decide (cs_cycle s = Some (tk_cycle t)))
  then mret tt else
  match cs_cycles s !! tk_cycle t with
  | None => mret tt
  | Some cy =>
      let cy' := set_ordinal (cy_nextSlotOrdinal cy + 1) cy in
      upd_cycle (tk_cycle t) (fun _ => cy');;
      if cy_nextSlotOrdinal cy' <? totalCycleSlots schedule then armSlot cy'
      else armCycleBoundary (cy_endMs cy')
  end.

(** What a suspended call is resumed with. *)
Inductive Answer :=
  | a_cell (cell : bytes) | a_null | a_rejected  (** a producer, or a rejected promise *)
  | a_ready                                       (** the promise of [requestForSlot] *)
  | a_accepted | a_refused.                       (** the transport: not [false], [false] *)

Definition next_stage (t : Task) (st : Stage) : Task :=
  {| tk_generation := tk_generation t; tk_cycle := tk_cycle t; tk_lane := tk_lane t;
     tk_slot := tk_slot t; tk_stage := st |}.

(** [requestForSlot] rejects. *)
Definition production_failed (k : nat) : sched unit :=
  drop_task k;; degrade cell_production_failed.

Definition resumeTask (k : nat) (t : Task) (a : Answer) : sched unit :=
  s ← get_this;
  match tk_stage t, a with
  | AwaitCancelCell r, a_cell cell =>
      match cs_store s !! r with
      | Some j => set_task k (next_stage t (AwaitRequest (job_request (tk_slot t) j source_cancel cell)))
      | None => mret tt
      end
  | AwaitNextCell r, a_cell cell =>
      match cs_store s !! r with
      | Some j => set_task k (next_stage t (AwaitRequest
                    (job_request (tk_slot t) j (source_kind (job_kind (rt_job j))) cell)))
      | None => mret tt
      end
  | AwaitNextCell r, a_null => set_task k (next_stage t (AwaitDummy (Some r)))
  | AwaitDummy r, a_cell cell =>
      set_task k (next_stage t (AwaitRequest
        {| req_cell := cell; req_source := source_dummy; req_slot := tk_slot t;
           req_jobId := (fun j => job_id (rt_job j)) <$> (r ≫= (cs_store s !!.));
           req_jobCellIndex := None |}))
  | AwaitCancelCell _, (a_null | a_rejected) => production_failed k
  | AwaitNextCell _, a_rejected => production_failed k
  | AwaitDummy _, (a_null | a_rejected) => production_failed k
  | AwaitRequest request, a_ready => sendRequest k t request
  | AwaitSend request, a_accepted => drop_task k;; acceptSent t request;; advanceSlot t
  | AwaitSend request, a_refused => drop_task k;; cacheUnsent t request;; degrade backpressure
  | AwaitSend request, a_rejected => drop_task k;; cacheUnsent t request;; degrade send_failed
  | _, _ => mret tt
  end.

(** *** Timer callbacks *)

Definition handleLateTimer (kind : TimerKind) : sched unit :=
  match kind with
  | slot_timer _ => degrade missed_deadline
  | _ =>
      s ← get_this;
      (match cs_cycle s with
       | Some _ =>
           interruptCycle interrupted_suspended;;
           closed ← closeCurrentCycle late_cleanup; mret tt
       | None => mret tt
       end);;
      s ← get_this;
      if bool_decide (cs_status s = stopped) then mret tt
      else setStatus suspended (Some "timer-drift"%string)
  end.

Definition timerFires : sched unit :=
  s ← get_this;
  match cs_timer s with
  | None => mret tt
  | Some t =>
      if negb (tm_generation t =? cs_generation s) then mret tt else
      modify_this (fun s => with_timer (cs_generation s) None s);;
      firedAt ← assertClockNow;
      if firedAt <? tm_deadlineMs t then armRemaining (tm_deadlineMs t) (tm_kind t) (tm_generation t)
      else if tm_deadlineMs t + maxTimerDriftMs <? firedAt then handleLateTimer (tm_kind t)
      else
        match tm_kind t with
        | open_boundary =>
            try_catch (openCycle (tm_deadlineMs t) (tm_generation t))
              (suspend "boundary-handler-failed";; mret tt)
        | cycle_boundary => handleCycleBoundary (tm_deadlineMs t)
        | slot_timer slot =>
            try_catch (sendSlot slot (tm_generation t)) (degrade cell_production_failed)
        end
  end.

(** ** Events *)

Inductive CoverEvent :=
  | Enqueue (j : CoverJob) | Cancel (jobId : string) | Complete (jobId : string)
  | Start | Suspend (reason : string) | Resume | Stop
  | TimerFires
  | TaskResumes (k : nat) (a : Answer).

Definition step (e : CoverEvent) : sched unit :=
  match e with
  | Enqueue j => enqueue j
  | Cancel id => cancel id;; mret tt
  | Complete id => complete id;; mret tt
  | Start => start;; mret tt
  | Suspend reason => suspend reason;; mret tt
  | Resume => resume;; mret tt
  | Stop => stop;; mret tt
  | TimerFires => timerFires
  | TaskResumes k a =>
      s ← get_this;
      match cs_tasks s !! k with
      | None => mret tt
      | Some t => try_catch (resumeTask k t a) (degrade cell_production_failed)
      end
  end.

Definition run (es : list CoverEvent) (s : Scheduler) : Scheduler :=
  foldl (fun s e => snd (step e s)) s es.
End Scheduler.
