(* ===== verification/CoverInvariant.v ===== *)
(** * Jobs of the cover scheduler: where they are and that none is lost

    The object invariant [JInv] of the scheduler of CoverScheduler.v and the
    proof that every method keeps it, on every branch, whatever the lanes, the
    producers, the transport and the observers answer. *)

From stdpp Require Import gmap sorting.
From S2P Require Import Prelude Bytes CoverGeometry CoverScheduler.
Local Open Scope Z_scope.

(** ** Reasoning about methods

    [wp c Q s]: running [c] on [s] ends in [Q]; [wpo c Q s] only looks at runs
    that return. *)

Definition wp {S E A} (c : M S E A) (Q : result E A -> S -> Prop) (s : S) : Prop :=
  Q (fst (c s)) (snd (c s)).

Section Wp.
Context {S E A B : Type}.
Implicit Types (c : M S E A) (f : A -> M S E B) (s : S).

Lemma wp_ret (a : A) Q s : Q (Ok a) s -> wp (mret a : M S E A) Q s.
Proof. done. Qed.
Lemma wp_throw (e : E) (Q : result E A -> S -> Prop) s : Q (Err e) s -> wp (mthrow e) Q s.
Proof. done. Qed.
Lemma wp_bind c f Q s :
  wp c (fun r s' => match r with Ok a => wp (f a) Q s' | Err e => Q (Err e) s' end) s ->
  wp (c ≫= f) Q s.
Proof. unfold wp, mbind, M_bind. destruct (c s) as [[a|e] s']; done. Qed.
Lemma wp_get (f : S -> M S E B) Q s : wp (f s) Q s -> wp (get_this ≫= f) Q s.
Proof. done. Qed.
Lemma wp_modify (g : S -> S) (f : unit -> M S E B) Q s :
  wp (f tt) Q (g s) -> wp (modify_this g ≫= f) Q s.
Proof. done. Qed.
Lemma wp_mono c (Q R : result E A -> S -> Prop) s :
  (forall r s', Q r s' -> R r s') -> wp c Q s -> wp c R s.
Proof. unfold wp. auto. Qed.
Lemma wp_proj1 c (Q R : result E A -> S -> Prop) s :
  wp c (fun r s' => Q r s' /\ R r s') s -> wp c Q s.
Proof. by intros []. Qed.
Lemma wp_ok c (Q : result E A -> S -> Prop) s : (forall e s', c s = (Err e, s') -> False) ->
  wp c Q s -> wp c (fun r s' => (exists a, r = Ok a) /\ Q r s') s.
Proof. unfold wp. intros He HQ. split; [|done]. destruct (c s) as [[a|e] s']; [by exists a|by destruct (He e s')]. Qed.
Lemma wp_require b (e : E) (f : unit -> M S E B) Q s :
  (b = true -> wp (f tt) Q s) -> (b = false -> Q (Err e) s) ->
  wp (mrequire b e ≫= f) Q s.
Proof. intros Ht Hf. destruct b; [by apply Ht|by apply Hf]. Qed.
Lemma wp_try c (h : M S E A) Q s :
  wp c (fun r s' => match r with Ok a => Q (Ok a) s' | Err _ => wp h Q s' end) s ->
  wp (try_catch c h) Q s.
Proof. unfold wp, try_catch. destruct (c s) as [[a|e] s']; done. Qed.
End Wp.

(** A loop: an invariant over the elements that remain. *)
Lemma wp_for_each {S E B} (l : list B) (f : B -> M S E unit) (I : list B -> S -> Prop)
    (X : S -> Prop) s :
  (forall x l' s, I (x :: l') s ->
     wp (f x) (fun r s' => match r with Ok _ => I l' s' | Err _ => X s' end) s) ->
  I l s -> wp (for_each l f) (fun r s' => match r with Ok _ => I [] s' | Err _ => X s' end) s.
Proof.
  intros Hf. revert s. induction l as [|x l IH]; intros s Hi; [done|].
  cbn [for_each]. apply wp_bind. eapply wp_mono; [|by apply Hf].
  intros [[]|] s' H; [by apply IH|done].
Qed.

Lemma remove_first_perm r q : r ∈ q -> q ≡ₚ r :: remove_first r q.
Proof.
  induction q as [|x q IH]; [intros H; by apply elem_of_nil in H|].
  intros [->|H]%elem_of_cons; cbn; [by rewrite decide_True|].
  case_decide as Hx; [by subst|]. rewrite (IH H) at 1. apply Permutation_swap.
Qed.
Lemma remove_first_notin r q : r ∉ q -> remove_first r q = q.
Proof.
  induction q as [|x q IH]; [done|]. intros [Hne Hn]%not_elem_of_cons. cbn.
  rewrite decide_False by done. by rewrite IH.
Qed.
Lemma remove_first_elem r q x : NoDup q -> (x ∈ remove_first r q <-> x ∈ q /\ x <> r).
Proof.
  induction q as [|y q IH]; cbn; [set_solver|]. intros [Hn Hd]%NoDup_cons.
  case_decide as Hy; [subst|]; rewrite !elem_of_cons.
  - split; [intros ?; split; [by right|by intros ->]|naive_solver].
  - rewrite IH by done. naive_solver.
Qed.

Lemma remove_twice r q : NoDup q -> remove_first r (remove_first r q) = remove_first r q.
Proof. intros Hq. apply remove_first_notin. rewrite remove_first_elem by done. naive_solver. Qed.

Lemma alter_twice {A} (f g : A -> A) i (l : list A) : alter f i (alter g i l) = alter (f ∘ g) i l.
Proof.
  apply list_eq. intros k. rewrite !list_lookup_alter. case_decide; [subst|done].
  rewrite decide_True by done. by destruct (l !! k).
Qed.
Lemma alter_same {A} i (l : list A) : alter id i l = l.
Proof.
  apply list_eq. intros k. rewrite list_lookup_alter. case_decide; [subst|done]. by destruct (l !! k).
Qed.

(** ** The invariant *)

Definition lane_jobs (cycles : list CycleRuntime) (cyc : option nat) : list nat :=
  match cyc with
  | Some c => match cycles !! c with Some cy => omap ln_job (cy_lanes cy) | None => [] end
  | None => []
  end.

Definition is_settle (r : nat) (e : LogEntry) : bool :=
  match e with JobSettled r' _ => bool_decide (r' = r) | _ => false end.
(** How often the observer was told about the runtime. *)
Definition settle_count (r : nat) (lg : list LogEntry) : nat :=
  length (List.filter (is_settle r) lg).
Definition settled_at (st : list JobRuntime) (r : nat) : bool :=
  match st !! r with Some j => rt_settled j | None => false end.

Record rt_ok (schedule : CoverSchedule) (j : JobRuntime) : Prop := {
  ok_declared : 1 <= declaredCellCount (rt_job j) <= slotsPerLane schedule;
  ok_sent : 0 <= rt_sentCells j <= declaredCellCount (rt_job j);
  ok_open : rt_settled j = false -> rt_completed j = false /\ rt_cancelSent j = false /\
    rt_sentCells j < declaredCellCount (rt_job j);
  ok_cancel : rt_settled j = false -> rt_cancelRequested j = true ->
    job_has_cancelCell (rt_job j) = true }.

(** [H] are the runtimes a running method holds in a local variable. *)
Record jinv (schedule : CoverSchedule) (H : list nat) (st : list JobRuntime) (q : list nat)
    (js : list (string * nat)) (cycles : list CycleRuntime) (cyc : option nat)
    (lg : list LogEntry) : Prop := {
  j_places : NoDup (q ++ lane_jobs cycles cyc ++ H);
  j_closed : forall c cy, cycles !! c = Some cy -> cyc <> Some c -> omap ln_job (cy_lanes cy) = [];
  j_cycle : forall c, cyc = Some c -> is_Some (cycles !! c);
  j_queued : forall r, r ∈ q -> exists j, st !! r = Some j /\ rt_settled j = false;
  j_known : forall r, r ∈ lane_jobs cycles cyc ++ H -> is_Some (st !! r);
  j_where : forall r j, st !! r = Some j -> rt_settled j = false ->
    (job_id (rt_job j), r) ∈ js /\ r ∈ q ++ lane_jobs cycles cyc ++ H;
  j_jobs : forall id r, (id, r) ∈ js ->
    exists j, st !! r = Some j /\ rt_settled j = false /\ job_id (rt_job j) = id;
  j_keys : NoDup (js.*1);
  j_rt : forall r j, st !! r = Some j -> rt_ok schedule j;
  j_log : forall r, settle_count r lg = if settled_at st r then 1%nat else 0%nat }.

Definition JInv (schedule : CoverSchedule) (H : list nat) (s : Scheduler) : Prop :=
  jinv schedule H (cs_store s) (cs_queued s) (cs_jobs s) (cs_cycles s) (cs_cycle s) (cs_log s).

Lemma jobs_get_Some id js r : NoDup (js.*1) -> (jobs_get id js = Some r <-> (id, r) ∈ js).
Proof.
  unfold jobs_get. induction js as [|[i x] js IH]; cbn.
  - intros _. split; [done|intros H; by apply elem_of_nil in H].
  - intros [Hn Hd]%NoDup_cons. case_bool_decide as Hi; cbn in Hi.
    + subst i. cbn. rewrite elem_of_cons. split; [intros [= ->]; by left|].
      intros [[= ->]|H]; [done|]. destruct Hn. apply list_elem_of_fmap. by exists (id, r).
    + rewrite IH by done. rewrite elem_of_cons. naive_solver.
Qed.

Lemma jobs_delete_elem id js i r : (i, r) ∈ jobs_delete id js <-> (i, r) ∈ js /\ i <> id.
Proof. unfold jobs_delete. rewrite list_elem_of_filter. naive_solver. Qed.

Lemma jobs_delete_keys id js : NoDup (js.*1) -> NoDup ((jobs_delete id js).*1).
Proof.
  unfold jobs_delete. induction js as [|[i x] js IH]; [done|].
  cbn [fmap list_fmap fst]. intros [Hn Hd]%NoDup_cons.
  rewrite filter_cons. case_decide; cbn [fmap list_fmap fst]; [|by apply IH].
  apply NoDup_cons. split; [|by apply IH].
  intros (p & -> & Hp)%list_elem_of_fmap. destruct Hn.
  apply list_elem_of_filter in Hp as [_ Hp]. apply list_elem_of_fmap. by exists p.
Qed.

(** ** How the elementary changes act on the invariant *)

Section Changes.
Context (sch : CoverSchedule).
Implicit Types (st : list JobRuntime) (q H : list nat) (js : list (string * nat))
  (cycles : list CycleRuntime) (cyc : option nat) (lg : list LogEntry).

Lemma settle_count_app r lg e :
  settle_count r (lg ++ [e]) = (settle_count r lg + if is_settle r e then 1 else 0)%nat.
Proof.
  unfold settle_count. rewrite List.filter_app, length_app. cbn. by destruct (is_settle r e).
Qed.

Lemma jinv_perm H H' st q q' js cycles cyc lg : H ≡ₚ H' -> q ≡ₚ q' ->
  jinv sch H st q js cycles cyc lg -> jinv sch H' st q' js cycles cyc lg.
Proof.
  intros HH Hq []. split; try done.
  - by rewrite <- HH, <- Hq.
  - intros r. rewrite <- Hq. auto.
  - intros r. rewrite <- HH. auto.
  - intros r j. rewrite <- HH, <- Hq. auto.
Qed.

Lemma jinv_log H st q js cycles cyc lg e : (forall r, is_settle r e = false) ->
  jinv sch H st q js cycles cyc lg -> jinv sch H st q js cycles cyc (lg ++ [e]).
Proof.
  intros He []. split; try done. intros r. rewrite settle_count_app, He. rewrite Nat.add_0_r. auto.
Qed.

Lemma settled_at_alter f r st r' : (forall j, rt_settled (f j) = rt_settled j) ->
  settled_at (alter f r st) r' = settled_at st r'.
Proof.
  intros Hf. unfold settled_at. destruct (decide (r = r')) as [<-|].
  - rewrite list_lookup_alter_eq. destruct (st !! r); cbn; auto.
  - by rewrite list_lookup_alter_ne.
Qed.

(** A change of one runtime that keeps its job, its settlement and its bounds. *)
Lemma jinv_upd f r H st q js cycles cyc lg :
  (forall j, rt_job (f j) = rt_job j) -> (forall j, rt_settled (f j) = rt_settled j) ->
  (forall j, st !! r = Some j -> rt_ok sch j -> rt_ok sch (f j)) ->
  jinv sch H st q js cycles cyc lg -> jinv sch H (alter f r st) q js cycles cyc lg.
Proof.
  intros Hj Hs Hok [].
  assert (forall r' j', alter f r st !! r' = Some j' ->
    exists j, st !! r' = Some j /\ rt_settled j' = rt_settled j /\ rt_job j' = rt_job j) as Hinv.
  { intros r' j' Hl. destruct (decide (r = r')) as [<-|].
    - rewrite list_lookup_alter_eq in Hl. destruct (st !! r) as [j|]; [|done].
      injection Hl as <-. exists j. auto.
    - rewrite list_lookup_alter_ne in Hl by done. eauto. }
  assert (forall r' j, st !! r' = Some j ->
    exists j', alter f r st !! r' = Some j' /\ rt_settled j' = rt_settled j /\ rt_job j' = rt_job j) as Hfwd.
  { intros r' j Hl. destruct (decide (r = r')) as [<-|].
    - exists (f j). rewrite list_lookup_alter_eq, Hl. auto.
    - exists j. by rewrite list_lookup_alter_ne. }
  split; try done.
  - intros r' (j & Hl & Hset)%j_queued0. destruct (Hfwd _ _ Hl) as (j' & ? & ? & ?).
    exists j'. split; [done|congruence].
  - intros r' (j & Hl)%j_known0. destruct (Hfwd _ _ Hl) as (j' & ? & _). by exists j'.
  - intros r' j' (j & Hl & -> & ->)%Hinv. by apply j_where0.
  - intros id r' (j & Hl & ? & ?)%j_jobs0. destruct (Hfwd _ _ Hl) as (j' & ? & ? & ?).
    exists j'. split_and!; congruence.
  - intros r' j' Hl. destruct (decide (r = r')) as [<-|].
    + rewrite list_lookup_alter_eq in Hl. destruct (st !! r) as [j|] eqn:Hr; [|done].
      injection Hl as <-. eauto.
    + rewrite list_lookup_alter_ne in Hl by done. eauto.
  - intros r'. rewrite settled_at_alter by done. auto.
Qed.

Lemma jinv_settle g r j id res H st q js cycles cyc lg :
  st !! r = Some j -> rt_settled j = false -> id = job_id (rt_job j) ->
  rt_settled (g j) = true -> rt_ok sch (g j) ->
  jinv sch H st q js cycles cyc lg ->
  jinv sch H (alter g r st) (remove_first r q) (jobs_delete id js) cycles cyc
    (lg ++ [JobSettled r res]).
Proof.
  intros Hr Hset -> Hg Hok [].
  assert (forall r', r' <> r -> alter g r st !! r' = st !! r') as Hne
    by (intros; by apply list_lookup_alter_ne).
  assert (alter g r st !! r = Some (g j)) as Heq by (by rewrite list_lookup_alter_eq, Hr).
  destruct (j_where0 _ _ Hr Hset) as [Hjs _].
  assert (NoDup q) as Hnq by (apply NoDup_app in j_places0; tauto).
  assert (forall r', r' ∈ remove_first r q <-> r' ∈ q /\ r' <> r) as Hrem.
  { intros r'. by apply remove_first_elem. }
  split; try done.
  - destruct (decide (r ∈ q)) as [Hin|Hin]; [|by rewrite remove_first_notin].
    rewrite (remove_first_perm r q Hin) in j_places0. by apply NoDup_cons in j_places0 as [_ ?].
  - intros r' [Hq Hn]%Hrem. rewrite Hne by done. auto.
  - intros r' Hin. destruct (decide (r' = r)) as [->|]; [by rewrite Heq|rewrite Hne by done; auto].
  - intros r' j' Hl Hs'. assert (r' <> r) as Hn.
    { intros ->. rewrite Heq in Hl. injection Hl as <-. congruence. }
    rewrite Hne in Hl by done. destruct (j_where0 _ _ Hl Hs') as [Hin Hp]. split.
    + apply jobs_delete_elem. split; [done|]. intros Hid. rewrite Hid in Hin.
      apply (jobs_get_Some _ _ _ j_keys0) in Hin, Hjs. congruence.
    + rewrite elem_of_app, Hrem. rewrite elem_of_app in Hp. naive_solver.
  - intros id r' [Hin Hid]%jobs_delete_elem. destruct (j_jobs0 _ _ Hin) as (j' & ? & ? & ?).
    exists j'. rewrite Hne; [done|]. intros ->. congruence.
  - by apply jobs_delete_keys.
  - intros r' j' Hl. destruct (decide (r' = r)) as [->|]; [|rewrite Hne in Hl by done; eauto].
    rewrite Heq in Hl. by injection Hl as <-.
  - intros r'. rewrite settle_count_app, j_log0. unfold settled_at. cbn.
    destruct (decide (r' = r)) as [->|Hn].
    + by rewrite Heq, Hr, Hset, Hg, bool_decide_true.
    + rewrite Hne, bool_decide_false by done. lia.
Qed.

Lemma jinv_enqueue H st q js cycles cyc lg j :
  jobs_get (job_id j) js = None -> 1 <= declaredCellCount j <= slotsPerLane sch ->
  jinv sch H st q js cycles cyc lg ->
  jinv sch H (st ++ [Runtime j queued_state false 0 false false false false None None])
    (q ++ [length st]) (js ++ [(job_id j, length st)]) cycles cyc lg.
Proof.
  intros Hnew Hdecl [].
  assert (forall r x, st !! r = Some x -> (r < length st)%nat) as Hlt by eauto using lookup_lt_Some.
  assert (forall r x, st !! r = Some x -> forall e, (st ++ [e]) !! r = Some x) as Hold.
  { intros r x Hr e. rewrite lookup_app_l; eauto. }
  assert (length st ∉ q ++ lane_jobs cycles cyc ++ H) as Hfresh.
  { intros [Hin|Hin]%elem_of_app.
    - apply j_queued0 in Hin as (x & Hx & _). apply Hlt in Hx. lia.
    - apply j_known0 in Hin as [x Hx]. apply Hlt in Hx. lia. }
  split; try done.
  - eapply NoDup_Permutation_proper; [|apply NoDup_cons; split; [exact Hfresh|exact j_places0]].
    rewrite <- app_assoc. symmetry. apply Permutation_middle.
  - intros r [Hin| ->%list_elem_of_singleton]%elem_of_app.
    + destruct (j_queued0 _ Hin) as (x & Hx & ?). exists x. split; [by apply Hold|done].
    + eexists. rewrite lookup_app_r, Nat.sub_diag by lia. done.
  - intros r (x & Hx)%j_known0. exists x. by apply Hold.
  - intros r x [Hx|[Hge Hx]]%lookup_app_Some Hs.
    + destruct (j_where0 _ _ Hx Hs). set_solver.
    + apply list_lookup_singleton_Some in Hx as [Hz <-]. cbn.
      assert (r = length st) as -> by lia. set_solver.
  - intros id r [Hin|Hin%list_elem_of_singleton]%elem_of_app.
    + destruct (j_jobs0 _ _ Hin) as (x & Hx & ? & ?). exists x. split; [by apply Hold|done].
    + injection Hin as -> ->. eexists. rewrite lookup_app_r, Nat.sub_diag by lia. done.
  - rewrite fmap_app. apply NoDup_app. split_and!; [done| |apply NoDup_singleton].
    intros id ((i & r) & -> & Hin)%list_elem_of_fmap Hid%list_elem_of_singleton. cbn in Hid. subst i.
    apply (jobs_get_Some _ _ _ j_keys0) in Hin. congruence.
  - intros r x [Hx|[Hge Hx]]%lookup_app_Some; [eauto|].
    apply list_lookup_singleton_Some in Hx as [_ <-]. split; cbn; try done; lia.
  - intros r. rewrite j_log0. unfold settled_at. destruct (st !! r) as [x|] eqn:Hr.
    + by rewrite (Hold _ _ Hr).
    + apply lookup_ge_None in Hr. rewrite lookup_app_r by lia.
      destruct (r - length st)%nat; done.
Qed.

(** A runtime moves from the queue into a local variable, and back. *)
Lemma jinv_dequeue r H st q js cycles cyc lg :
  jinv sch H st (r :: q) js cycles cyc lg -> jinv sch (r :: H) st q js cycles cyc lg.
Proof.
  intros []. assert ((r :: q) ++ lane_jobs cycles cyc ++ H ≡ₚ q ++ lane_jobs cycles cyc ++ r :: H) as Hp.
  { cbn. rewrite !app_assoc. apply Permutation_middle. }
  split; try done.
  - by rewrite <- Hp.
  - intros x Hx. apply j_queued0. by right.
  - intros x Hx. assert (x = r \/ x ∈ lane_jobs cycles cyc ++ H) as [->|] by set_solver; [|auto].
    destruct (j_queued0 r ltac:(by left)) as (j & ? & _). by exists j.
  - intros x j Hx Hs. rewrite <- Hp. auto.
Qed.

Lemma jinv_enqueue_held r H st q js cycles cyc lg j : st !! r = Some j -> rt_settled j = false ->
  jinv sch (r :: H) st q js cycles cyc lg -> jinv sch H st (q ++ [r]) js cycles cyc lg.
Proof.
  intros Hr Hs []. assert (q ++ lane_jobs cycles cyc ++ r :: H ≡ₚ (q ++ [r]) ++ lane_jobs cycles cyc ++ H) as Hp.
  { rewrite <- app_assoc. apply Permutation_app_head. cbn. symmetry. apply Permutation_middle. }
  split; try done.
  - by rewrite <- Hp.
  - intros x [Hx| ->%list_elem_of_singleton]%elem_of_app; eauto.
  - intros x Hx. apply j_known0. set_solver.
  - intros x j' Hx Hs'. rewrite <- Hp. auto.
Qed.

Lemma jinv_drop r H st q js cycles cyc lg j : st !! r = Some j -> rt_settled j = true ->
  jinv sch (r :: H) st q js cycles cyc lg -> jinv sch H st q js cycles cyc lg.
Proof.
  intros Hr Hs []. assert (q ++ lane_jobs cycles cyc ++ r :: H ≡ₚ r :: q ++ lane_jobs cycles cyc ++ H) as Hp.
  { rewrite !app_assoc. symmetry. apply Permutation_middle. }
  rewrite Hp in j_places0. apply NoDup_cons in j_places0 as [Hn Hd]. split; try done.
  - intros x Hx. apply j_known0. set_solver.
  - intros x j' Hx Hs'. destruct (j_where0 _ _ Hx Hs') as [? Hin]. split; [done|].
    rewrite Hp, elem_of_cons in Hin. destruct Hin as [->|]; [congruence|done].
Qed.

(** Changes of the cycles that only move runtimes between lanes and [H]. *)
Lemma jinv_lanes H H' st q js cycles cycles' cyc cyc' lg :
  lane_jobs cycles cyc ++ H ≡ₚ lane_jobs cycles' cyc' ++ H' ->
  (forall c cy, cycles' !! c = Some cy -> cyc' <> Some c -> omap ln_job (cy_lanes cy) = []) ->
  (forall c, cyc' = Some c -> is_Some (cycles' !! c)) ->
  jinv sch H st q js cycles cyc lg -> jinv sch H' st q js cycles' cyc' lg.
Proof.
  intros Hp Hc Hs []. split; try done.
  - by rewrite <- Hp.
  - intros r. rewrite <- Hp. auto.
  - intros r j. rewrite <- Hp. auto.
Qed.

Lemma lane_jobs_alter f c cycles cy : cycles !! c = Some cy ->
  lane_jobs (alter f c cycles) (Some c) = omap ln_job (cy_lanes (f cy)).
Proof. intros Hc. cbn. by rewrite list_lookup_alter_eq, Hc. Qed.

Lemma omap_alter_None lanes i (l : LaneRuntime) : lanes !! i = Some l ->
  omap ln_job lanes ≡ₚ option_list (ln_job l) ++ omap ln_job (alter (set_ln_job None) i lanes).
Proof.
  revert i. induction lanes as [|x lanes IH]; [done|]. intros [|i] Hi.
  - injection Hi as ->. cbn. by destruct (ln_job l).
  - cbn in Hi |- *. change (alter (set_ln_job None) (S i) (x :: lanes))
      with (x :: alter (set_ln_job None) i lanes). cbn.
    destruct (ln_job x) as [r|]; [|by apply IH]. rewrite (IH i Hi).
    destruct (ln_job l); [|done]. apply Permutation_swap.
Qed.

Lemma jinv_release c cy i l H st q js cycles lg :
  cycles !! c = Some cy -> cy_lanes cy !! i = Some l ->
  jinv sch H st q js cycles (Some c) lg ->
  jinv sch (option_list (ln_job l) ++ H) st q js
    (alter (set_lanes (alter (set_ln_job None) i)) c cycles) (Some c) lg.
Proof.
  intros Hc Hl Hj. eapply jinv_lanes; [..|exact Hj].
  - rewrite (lane_jobs_alter _ _ _ _ Hc). cbn. rewrite Hc.
    rewrite (omap_alter_None _ _ _ Hl). rewrite !app_assoc. apply Permutation_app_tail.
    apply Permutation_app_comm.
  - intros c' cy' Hc' Hne. rewrite list_lookup_alter_ne in Hc' by congruence.
    by apply (j_closed _ _ _ _ _ _ _ _ Hj c').
  - intros c' [= <-]. rewrite list_lookup_alter_eq, Hc. by eexists.
Qed.

Lemma jinv_open cy H H' st q js cycles lg : omap ln_job (cy_lanes cy) ++ H' ≡ₚ H ->
  jinv sch H st q js cycles None lg ->
  jinv sch H' st q js (cycles ++ [cy]) (Some (length cycles)) lg.
Proof.
  intros Hp Hj. eapply jinv_lanes; [..|exact Hj].
  - cbn. rewrite lookup_app_r, Nat.sub_diag by lia. by rewrite Hp.
  - intros c' cy' [Hc'|[Hge Hc']]%lookup_app_Some Hne.
    + by apply (j_closed _ _ _ _ _ _ _ _ Hj c').
    + apply list_lookup_singleton_Some in Hc' as [? <-]. destruct Hne. f_equal. lia.
  - intros c' [= <-]. rewrite lookup_app_r, Nat.sub_diag by lia. by eexists.
Qed.

Lemma jinv_close H st q js cycles cyc lg : lane_jobs cycles cyc = [] ->
  jinv sch H st q js cycles cyc lg -> jinv sch H st q js cycles None lg.
Proof.
  intros He Hj. eapply jinv_lanes; [..|exact Hj]; try done; [by rewrite He|].
  intros c cy Hc _. destruct (decide (cyc = Some c)) as [->|Hne].
  - cbn in He. by rewrite Hc in He.
  - by apply (j_closed _ _ _ _ _ _ _ _ Hj c).
Qed.

(** A change of a cycle that keeps its lanes. *)
Lemma jinv_same_lanes f c H st q js cycles cyc lg : (forall cy, cycles !! c = Some cy -> cy_lanes (f cy) = cy_lanes cy) ->
  jinv sch H st q js cycles cyc lg -> jinv sch H st q js (alter f c cycles) cyc lg.
Proof.
  intros Hf Hj. eapply jinv_lanes; [..|exact Hj].
  - destruct cyc as [c'|]; [|done]. cbn. destruct (decide (c = c')) as [<-|].
    + rewrite list_lookup_alter_eq. destruct (cycles !! c) as [cy|] eqn:Hc; [|done]. cbn. by rewrite Hf.
    + by rewrite list_lookup_alter_ne.
  - intros c' cy' Hc' Hne. destruct (decide (c = c')) as [<-|].
    + rewrite list_lookup_alter_eq in Hc'. destruct (cycles !! c) as [cy|] eqn:Hc; [|done].
      injection Hc' as <-. rewrite Hf by done. by apply (j_closed _ _ _ _ _ _ _ _ Hj c).
    + rewrite list_lookup_alter_ne in Hc' by done. by apply (j_closed _ _ _ _ _ _ _ _ Hj c').
  - intros c' ->. destruct (j_cycle _ _ _ _ _ _ _ _ Hj c' eq_refl) as [cy Hc].
    destruct (decide (c = c')) as [<-|].
    + rewrite list_lookup_alter_eq, Hc. by eexists.
    + rewrite list_lookup_alter_ne by done. by eexists.
Qed.
End Changes.

(** ** Methods that only touch jobs

    The rest of the object, with the cells sent so far. *)

Definition is_send (e : LogEntry) : bool := match e with CellSent _ _ => true | _ => false end.
Definition sends (lg : list LogEntry) : list LogEntry := List.filter is_send lg.
Definition control (s : Scheduler) :=
  (cs_status s, cs_running s, cs_generation s, cs_timer s, (cs_cycles s, cs_cycle s),
   (cs_tasks s, cs_nextTask s), sends (cs_log s)).
Definition Frame (s0 s : Scheduler) : Prop :=
  control s = control s0 /\ (cs_calls s0 <= cs_calls s)%nat /\ cs_log s0 `prefix_of` cs_log s /\
  (length (cs_store s0) <= length (cs_store s))%nat.

Lemma Frame_refl s : Frame s s.
Proof. by split_and!. Qed.
Lemma Frame_trans s1 s2 s3 : Frame s1 s2 -> Frame s2 s3 -> Frame s1 s3.
Proof. intros (? & ? & ? & ?) (? & ? & ? & ?). split_and!; [congruence|lia|by etrans|lia]. Qed.

Ltac frame := (split_and!; [reflexivity|first [apply Nat.le_refl|cbn; lia]|reflexivity|
  first [apply Nat.le_refl|cbn; rewrite ?length_app, ?length_alter; cbn; lia]]).

Lemma settled_log sch H s r : JInv sch H s ->
  (settled_at (cs_store s) r = true <-> (1 <= settle_count r (cs_log s))%nat).
Proof. intros Hj. rewrite (j_log _ _ _ _ _ _ _ _ Hj r). destruct (settled_at _ _); split; (done || lia). Qed.
Lemma settle_count_prefix r lg lg' : lg `prefix_of` lg' -> (settle_count r lg <= settle_count r lg')%nat.
Proof. intros [k ->]. unfold settle_count. rewrite List.filter_app, length_app. lia. Qed.
(** What is settled stays settled. *)
Lemma settled_Frame sch H H' s s' r : JInv sch H s -> JInv sch H' s' -> Frame s s' ->
  settled_at (cs_store s) r = true -> settled_at (cs_store s') r = true.
Proof.
  intros Hj Hj' (_ & _ & Hp & _) Hs. rewrite (settled_log _ _ _ _ Hj'). rewrite (settled_log _ _ _ _ Hj) in Hs.
  pose proof (settle_count_prefix r _ _ Hp). lia.
Qed.

Lemma sends_app lg e : is_send e = false -> sends (lg ++ [e]) = sends lg.
Proof. intros He. unfold sends. rewrite List.filter_app. cbn. rewrite He. apply app_nil_r. Qed.

Section JobMethods.
Context (W : World) (sch : CoverSchedule).
Implicit Types (s : Scheduler) (H : list nat).
Local Abbreviation JInv := (JInv sch).

Lemma wp_call {B} (f : nat -> sched B) Q s :
  wp (f (cs_calls s)) Q (with_call s) -> wp (external_call ≫= f) Q s.
Proof. done. Qed.

(** [c] turns the held runtimes [H] into [H'] and leaves the rest alone. *)
Definition job_method {A} (H H' : list nat) (c : sched A) : Prop :=
  forall s, JInv H s -> wp c (fun _ s' => JInv H' s' /\ Frame s s') s.

Lemma job_bind {A B} H H' H'' (c : sched A) (f : A -> sched B) :
  job_method H H' c -> (forall e s s', c s = (Err e, s') -> False) ->
  (forall a, job_method H' H'' (f a)) -> job_method H H'' (c ≫= f).
Proof.
  intros Hc He Hf s Hj. apply wp_bind. specialize (Hc s Hj). unfold wp in *.
  destruct (c s) as [[a|e] s'] eqn:Hcs; cbn in *; [|by apply He in Hcs].
  destruct Hc as [Hj' Hfr]. destruct (Hf a s' Hj') as [Hj'' Hfr']. split; [done|by eapply Frame_trans].
Qed.

Lemma wp_sortQueue (Q : result CoverThrow unit -> Scheduler -> Prop) s :
  Q (Ok tt) (with_queued (array_sort (compareQueuedJobs (cs_store s))) s) -> wp sortQueue Q s.
Proof. done. Qed.
Lemma sorted_jinv H s : JInv H s ->
  JInv H (with_queued (array_sort (compareQueuedJobs (cs_store s))) s).
Proof. apply jinv_perm; [done|]. symmetry. apply array_sort_perm. Qed.

Lemma enqueue_job H j : job_method H H (enqueue sch j).
Proof.
  intros s Hj. unfold enqueue. apply wp_require; intros H1; [|split; [done|apply Frame_refl]].
  apply wp_get. apply wp_require; intros H2; [|split; [done|apply Frame_refl]].
  apply wp_require; intros H3; [|split; [done|apply Frame_refl]].
  apply wp_require; intros H4; [|split; [done|apply Frame_refl]].
  apply wp_require; intros H5; [|split; [done|apply Frame_refl]].
  apply bool_decide_eq_true in H2. apply negb_true_iff, orb_false_iff in H4 as [H4 H4'].
  apply Z.ltb_ge in H4, H4'. cbv zeta. do 3 apply wp_modify.
  apply wp_sortQueue. split; [|frame].
  apply sorted_jinv. by apply jinv_enqueue.
Qed.

Lemma job_try {A} H (c : sched A) h :
  job_method H H c -> job_method H H h -> job_method H H (try_catch c h).
Proof.
  intros Hc Hh s Hj. apply wp_try. eapply wp_mono; [|by apply Hc].
  intros [a|e] s' [Hj' Hf]; [done|]. eapply wp_mono; [|by apply Hh].
  intros r s'' [Hj'' Hf']. split; [done|by eapply Frame_trans].
Qed.

Lemma job_ret {A} H (a : A) : job_method H H (mret a).
Proof. intros s Hj. split; [done|apply Frame_refl]. Qed.

Lemma job_for_each {A} H (l : list A) (f : A -> sched unit) :
  (forall x, x ∈ l -> job_method H H (f x)) -> (forall x e s s', f x s = (Err e, s') -> False) ->
  job_method H H (for_each l f).
Proof.
  induction l as [|x l IH]; intros Hf He; [apply job_ret|]. cbn.
  eapply job_bind; [apply Hf; by left|by intros; eapply He|].
  intros _. apply IH; [|done]. intros y Hy. apply Hf. by right.
Qed.

Lemma try_no_throw {A} (c : sched A) a e s s' : try_catch c (mret a) s = (Err e, s') -> False.
Proof. unfold try_catch. by destruct (c s) as [[]]. Qed.
Lemma for_each_no_throw {A} (l : list A) (f : A -> sched unit) :
  (forall x e s s', f x s = (Err e, s') -> False) ->
  forall e s s', for_each l f s = (Err e, s') -> False.
Proof.
  intros Hf. induction l as [|x l IH]; intros e s s' Hl; [done|]. cbn in Hl.
  unfold mbind, M_bind in Hl. destruct (f x s) as [[]] eqn:Hx; [by eapply IH|by eapply Hf].
Qed.

Lemma with_store_same r s : s = with_store (alter id r) s.
Proof. destruct s. unfold with_store. cbn. by rewrite alter_same. Qed.

(** Settling: the object after the settlement, before the observer runs. *)
Lemma settle_spec H g qf r j outcome reason s s' :
  s' = with_store (alter g r) (with_queued qf s) ->
  remove_first r (qf (cs_queued s)) = remove_first r (cs_queued s) -> cs_store s !! r = Some j ->
  rt_settled j = false -> rt_settled (g j) = false -> rt_job (g j) = rt_job j ->
  rt_ok sch (set_settled (g j)) -> JInv H s ->
  wp (settle W sch r outcome reason)
    (fun _ s'' => (JInv H s'' /\ Frame s s'') /\ settled_at (cs_store s'') r = true) s'.
Proof.
  intros -> Hqf Hr Hs Hgs Hgj Hok Hj. unfold settle. apply wp_get. cbn [cs_store with_store with_queued].
  rewrite list_lookup_alter_eq, Hr. cbn [fmap option_fmap option_map]. rewrite Hgs.
  destruct (j_where _ _ _ _ _ _ _ _ Hj _ _ Hr Hs) as [Hin _].
  apply wp_modify, wp_modify. rewrite bool_decide_true.
  2: { rewrite Hgj. by apply jobs_get_Some; [apply Hj|]. }
  apply wp_modify. unfold notifyResult. apply wp_modify. apply wp_call.
  eapply wp_mono; [|eapply (job_for_each H)].
  - intros r' s'' [Hj'' Hf]. split_and!; [done| |].
    + eapply Frame_trans; [|done]. split_and!; [|cbn; lia|by eexists|cbn; rewrite !length_alter; lia].
      unfold control. cbn. by rewrite sends_app.
    + apply (settled_log sch H s'' r Hj''). destruct Hf as (_ & _ & Hp & _). cbn in Hp.
      apply (settle_count_prefix r) in Hp. rewrite settle_count_app in Hp. cbn in Hp.
      rewrite bool_decide_true in Hp by done. lia.
  - intros x _. apply job_try; [apply enqueue_job|apply job_ret].
  - intros x e s1 s2. apply try_no_throw.
  - unfold CoverInvariant.JInv. cbn. rewrite alter_twice, Hgj, Hqf.
    by apply (jinv_settle sch (set_settled ∘ g) r j).
Qed.

Lemma settle_no_throw r o re e s s' : settle W sch r o re s = (Err e, s') -> False.
Proof.
  unfold settle, mbind, M_bind. cbn. destruct (cs_store s !! r) as [j|]; [|done].
  destruct (rt_settled j); [done|]. cbn. case_bool_decide; cbn; intros Hl;
    eapply for_each_no_throw; try exact Hl; intros x e1 s1 s2; apply try_no_throw.
Qed.

Lemma settled_ok j : rt_ok sch j -> rt_ok sch (set_settled j).
Proof. intros []. by split. Qed.

Lemma settle_full H r o re s : JInv H s -> is_Some (cs_store s !! r) ->
  wp (settle W sch r o re)
    (fun _ s' => (JInv H s' /\ Frame s s') /\ settled_at (cs_store s') r = true) s.
Proof.
  intros Hj [j Hr]. destruct (rt_settled j) eqn:Hs.
  { unfold settle. apply wp_get. rewrite Hr, Hs. split; [split; [done|frame]|].
    unfold settled_at. cbn. by rewrite Hr. }
  eapply (settle_spec H id id r j); try done; [|by apply settled_ok, (j_rt _ _ _ _ _ _ _ _ Hj r)].
  by rewrite <- with_store_same; destruct s.
Qed.

Lemma remove_settle r o re s : JInv [] s -> is_Some (cs_store s !! r) ->
  wp (removeQueued r;; settle W sch r o re)
    (fun _ s' => (JInv [] s' /\ Frame s s') /\ settled_at (cs_store s') r = true) s.
Proof.
  intros Hj [j Hr]. apply wp_modify. destruct (rt_settled j) eqn:Hs.
  - unfold settle. apply wp_get. cbn [cs_store with_queued]. rewrite Hr, Hs. apply wp_ret.
    assert (with_queued (remove_first r) s = s) as ->.
    2: { split; [split; [done|frame]|]. unfold settled_at. by rewrite Hr. }
    destruct s as [st q]. unfold with_queued. cbn in *. f_equal. apply remove_first_notin.
    intros (j' & Hr' & Hs')%(j_queued _ _ _ _ _ _ _ _ Hj). cbn in Hr'. congruence.
  - eapply (settle_spec [] id (remove_first r) r j); try done.
    + apply with_store_same.
    + apply remove_twice. by apply j_places, NoDup_app in Hj as [? _].
    + by apply settled_ok, (j_rt _ _ _ _ _ _ _ _ Hj r).
Qed.

Lemma settle_job H r o re : job_method H H (settle W sch r o re).
Proof.
  intros s Hj. destruct (cs_store s !! r) as [j|] eqn:Hr.
  - eapply wp_mono; [|eapply settle_full; by rewrite ?Hr]. by intros ? ? [].
  - unfold settle. apply wp_get. rewrite Hr. split; [done|frame].
Qed.

(** A held runtime goes back to the queue, unless it is settled. *)
Lemma requeue_job H r reason : job_method (r :: H) H (requeue r reason).
Proof.
  intros s Hj. unfold requeue. apply wp_get.
  destruct (j_known _ _ _ _ _ _ _ _ Hj r ltac:(set_solver)) as [j Hr]. rewrite Hr.
  pose proof (j_rt _ _ _ _ _ _ _ _ Hj r j Hr) as Hok.
  destruct (rt_settled j) eqn:Hs.
  { cbn. split; [by eapply jinv_drop|frame]. }
  destruct (ok_open _ _ Hok Hs) as (Hc & Hcs & _). rewrite Hc, Hcs. cbn [orb].
  rewrite bool_decide_false.
  2: { intros Hin. apply j_places, NoDup_app in Hj as (_ & Hn & _). apply (Hn r Hin). set_solver. }
  do 2 apply wp_modify. apply wp_bind, wp_sortQueue. split.
  2: { split_and!; [|apply Nat.le_refl|by eexists|cbn; rewrite length_alter; lia]. unfold control. cbn. by rewrite sends_app. }
  apply jinv_log; [done|]. cbn. eapply jinv_perm; [done|symmetry; apply array_sort_perm|].
  apply jinv_upd; try done; [|by eapply jinv_enqueue_held].
  intros j' Hj' []. by split.
Qed.

Lemma requeue_no_throw r reason e s s' : requeue r reason s = (Err e, s') -> False.
Proof.
  unfold requeue, mbind, M_bind. cbn. destruct (cs_store s !! r) as [j|]; [|done].
  destruct (_ || _); [done|]. cbn. by case_bool_decide.
Qed.

Lemma upd_job H r f : (forall j, rt_job (f j) = rt_job j) ->
  (forall j, rt_settled (f j) = rt_settled j) ->
  (forall j, rt_ok sch j -> rt_ok sch (f j)) -> job_method H H (upd r f).
Proof. intros H1 H2 H3 s Hj. split; [|frame]. apply jinv_upd; auto. Qed.

Lemma deref_Some s o r j : deref s o = Some (r, j) -> o = Some r /\ cs_store s !! r = Some j.
Proof. unfold deref. destruct o as [r'|]; [|done]. destruct (cs_store s !! r') eqn:Hr; [|done]. by intros [= -> ->]. Qed.

Lemma complete_job H id : job_method H H (complete W sch id).
Proof.
  intros s Hj. unfold complete. apply wp_get.
  destruct (deref s _) as [[r j]|] eqn:Hd; [|split; [done|frame]].
  apply deref_Some in Hd as [_ Hr]. destruct (rt_settled j) eqn:Hs; [split; [done|frame]|].
  do 2 apply wp_modify. apply wp_bind. eapply wp_mono; [|eapply settle_spec; try done].
  - intros [[]|] s' [Hs' _]; exact Hs'.
  - apply remove_twice. by apply j_places, NoDup_app in Hj as [? _].
  - destruct (j_rt _ _ _ _ _ _ _ _ Hj r j Hr). by split.
Qed.

Lemma cancel_job H name : job_method H H (cancel W sch name).
Proof.
  intros s Hj. unfold cancel. apply wp_get.
  destruct (deref s _) as [[r j]|] eqn:Hd; [|split; [done|frame]].
  apply deref_Some in Hd as [_ Hr]. destruct (rt_settled j) eqn:Hs; [split; [done|frame]|].
  destruct (rt_everAdmitted j); cbn [negb].
  - apply wp_require; intros Hc; [|split; [done|frame]].
    apply wp_modify, wp_bind, wp_sortQueue, wp_ret. split; [|frame].
    apply (sorted_jinv H (with_store _ s)). apply jinv_upd; try done.
    intros j' Hj' []. rewrite Hr in Hj'. injection Hj' as <-. split; naive_solver.
  - apply wp_modify, wp_bind.
    eapply wp_mono; [|eapply (settle_spec H id (remove_first r) r j); try done].
    + intros [[]|] s' [Hs' _]; exact Hs'.
    + apply with_store_same.
    + apply remove_twice. by apply j_places, NoDup_app in Hj as [? _].
    + by apply settled_ok, (j_rt _ _ _ _ _ _ _ _ Hj r).
Qed.

Lemma cacheUnsent_job H t req : job_method H H (cacheUnsent t req).
Proof.
  intros s Hj. unfold cacheUnsent. apply wp_get. destruct (deref s _) as [[r j]|]; [|split; [done|frame]].
  destruct (rt_settled j); [split; [done|frame]|].
  destruct (req_source req); try (split; [done|frame]);
    apply upd_job; try done; intros j' []; by split.
Qed.

Lemma acceptSent_job H t req : job_method H H (acceptSent W sch t req).
Proof.
  intros s Hj. unfold acceptSent. apply wp_get.
  destruct (deref s _) as [[r j]|] eqn:Hd; [|split; [done|frame]].
  apply deref_Some in Hd as [_ Hr]. destruct (rt_settled j) eqn:Hs; [split; [done|frame]|].
  pose proof (j_rt _ _ _ _ _ _ _ _ Hj r j Hr) as [Hok1 Hok2 Hok3 Hok4].
  destruct (Hok3 Hs) as (Hc & Hcs & Hlt).
  destruct (req_source req); [|apply wp_modify|split; [done|frame]].
  - apply wp_modify. destruct (Z.eqb_spec (rt_sentCells j + 1) (declaredCellCount (rt_job j))) as [Heq|Hne].
    + apply wp_modify. eapply wp_proj1.
      eapply (settle_spec H (set_completed ∘ set_sent) id r j); try done.
      * unfold with_store, with_queued. cbn. by rewrite alter_twice.
      * split; cbn; try done; lia.
    + split; [|frame]. apply jinv_upd; try done. intros j' Hj' _. rewrite Hr in Hj'. injection Hj' as <-.
      split; cbn; try done; intros; split_and?; try done; lia.
  - eapply wp_proj1. by eapply (settle_spec H set_cancelSent id r j).
Qed.

Lemma cacheUnsent_no_throw t req e s s' : cacheUnsent t req s = (Err e, s') -> False.
Proof.
  unfold cacheUnsent, mbind, M_bind. cbn. destruct (deref s _) as [[r j]|]; [|done].
  destruct (rt_settled j); [done|]. by destruct (req_source req).
Qed.
Lemma acceptSent_no_throw t req e s s' : acceptSent W sch t req s = (Err e, s') -> False.
Proof.
  unfold acceptSent, mbind, M_bind. cbn. destruct (deref s _) as [[r j]|]; [|done].
  destruct (rt_settled j); [done|]. destruct (req_source req); cbn; [|apply settle_no_throw|done].
  destruct (_ =? _); cbn; [apply settle_no_throw|done].
Qed.

(** [stop] settles every known job, so what is still on a lane is settled. *)
Lemma settle_all_spec s : JInv [] s ->
  wp (for_each (snd <$> cs_jobs s) (fun r => removeQueued r;; settle W sch r failed (Some reason_stopped)))
    (fun r s' => r = Ok tt /\ (JInv [] s' /\ Frame s s') /\
       forall x, x ∈ lane_jobs (cs_cycles s) (cs_cycle s) -> settled_at (cs_store s') x = true) s.
Proof.
  intros Hj. pose (I := fun (rest : list nat) s' => (JInv [] s' /\ Frame s s') /\
    (forall x, x ∈ rest -> is_Some (cs_store s !! x)) /\
    forall x, x ∈ lane_jobs (cs_cycles s) (cs_cycle s) -> settled_at (cs_store s') x = true \/ x ∈ rest).
  eapply wp_mono; [|apply (wp_for_each _ _ I (fun _ => False))].
  - intros [[]|e] s' HI; [|done]. destruct HI as (HI & _ & Hx). split; [done|]. split; [done|].
    intros x Hin. destruct (Hx x Hin) as [?|Hn]; [done|]. by apply elem_of_nil in Hn.
  - intros r rest s' ((Hj' & Hf) & Hk & Hx).
    assert (is_Some (cs_store s' !! r)) as Hr.
    { destruct (Hk r ltac:(by left)) as [j Hl]. apply lookup_lt_Some in Hl.
      destruct Hf as (_ & _ & _ & Hlen). apply lookup_lt_is_Some. lia. }
    eapply wp_mono; [|apply wp_ok; [|by apply (remove_settle r failed (Some reason_stopped) s')]].
    + intros res s'' ([a ->] & (Hj'' & Hf') & Hset). split; [split; [done|by eapply Frame_trans]|].
      split; [intros x Hin; apply Hk; by right|]. intros x Hin.
      destruct (Hx x Hin) as [Hsx|[->|]%elem_of_cons]; [left|by left|by right].
      by eapply (settled_Frame sch [] [] s').
    + intros e s''. unfold mbind, M_bind. cbn. apply settle_no_throw.
  - split; [split; [done|apply Frame_refl]|]. split.
    + intros x ((id & r) & -> & Hin)%list_elem_of_fmap. cbn.
      destruct (j_jobs _ _ _ _ _ _ _ _ Hj _ _ Hin) as (j & Hl & _). by exists j.
    + intros x Hin. destruct (j_known _ _ _ _ _ _ _ _ Hj x ltac:(set_solver)) as [j Hl].
      unfold settled_at. rewrite Hl. destruct (rt_settled j) eqn:Hs; [by left|right].
      destruct (j_where _ _ _ _ _ _ _ _ Hj x j Hl Hs) as [Hjs _].
      apply list_elem_of_fmap. by exists (job_id (rt_job j), x).
Qed.

Lemma jinv_drop_all l H st q js cycles cyc lg : (forall x, x ∈ l -> settled_at st x = true) ->
  jinv sch (l ++ H) st q js cycles cyc lg -> jinv sch H st q js cycles cyc lg.
Proof.
  induction l as [|x l IH]; [done|]. intros Hs Hj. apply IH; [intros y Hy; apply Hs; by right|].
  assert (settled_at st x = true) as Hx by (apply Hs; by left). unfold settled_at in Hx.
  destruct (st !! x) as [j|] eqn:Hl; [|done]. by eapply jinv_drop.
Qed.
End JobMethods.

(** ** Which job is admitted next *)

(** The order the queue promises: cancellations before control jobs before real
    jobs, then higher priority, then first come first served. *)
Definition admitted_before (l r : nat * JobRuntime) : Prop :=
  let p j := default 0 (job_priority (rt_job j)) in
  jobTier l.2 < jobTier r.2 \/
  jobTier l.2 = jobTier r.2 /\ (p r.2 < p l.2 \/ p l.2 = p r.2 /\ (l.1 <= r.1)%nat).

Lemma compare_spec st l r jl jr : st !! l = Some jl -> st !! r = Some jr ->
  ((compareQueuedJobs st l r <=? 0) = true <-> admitted_before (l, jl) (r, jr)).
Proof.
  intros Hl Hr. unfold compareQueuedJobs, admitted_before. rewrite Hl, Hr. cbn [fst snd].
  rewrite Z.leb_le. destruct (Z.eqb_spec (jobTier jl - jobTier jr) 0); cbn [negb]; [|lia].
  destruct (Z.eqb_spec (default 0 (job_priority (rt_job jr)) - default 0 (job_priority (rt_job jl))) 0);
    cbn [negb]; lia.
Qed.

Lemma admitted_before_trans x y z : admitted_before x y -> admitted_before y z -> admitted_before x z.
Proof. unfold admitted_before. lia. Qed.
Lemma admitted_before_total x y : admitted_before x y \/ admitted_before y x.
Proof. unfold admitted_before. lia. Qed.

Lemma sort_head_least st q r q' : (forall x, x ∈ q -> is_Some (st !! x)) ->
  array_sort (compareQueuedJobs st) q = r :: q' ->
  forall x j jr, x ∈ q -> st !! x = Some j -> st !! r = Some jr -> admitted_before (r, jr) (x, j).
Proof.
  revert r q'. induction q as [|y q IH]; intros r q' Hk Hs; [done|].
  change (insert_sorted (compareQueuedJobs st) y (array_sort (compareQueuedJobs st) q) = r :: q') in Hs.
  destruct (Hk y ltac:(by left)) as [jy Hy].
  assert (forall x, x ∈ q -> is_Some (st !! x)) as Hk' by (intros; apply Hk; by right).
  intros x j jr Hx Hj Hr.
  destruct (array_sort (compareQueuedJobs st) q) as [|h t] eqn:Hq.
  - cbn in Hs. injection Hs as <- <-.
    assert (q = []) as ->.
    { pose proof (array_sort_perm (compareQueuedJobs st) q) as Hp. rewrite Hq in Hp.
      by apply Permutation_nil in Hp. }
    apply list_elem_of_singleton in Hx as ->. assert (jr = j) as -> by congruence.
    destruct (admitted_before_total (y, j) (y, j)); done.
  - assert (h ∈ q) as Hh by (rewrite <- (array_sort_perm (compareQueuedJobs st)), Hq; by left).
    destruct (Hk' h Hh) as [jh Hjh]. cbn in Hs.
    destruct (compareQueuedJobs st y h <=? 0) eqn:Hc; injection Hs as <- <-.
    + assert (jr = jy) as -> by congruence. apply (compare_spec st y h jy jh Hy Hjh) in Hc.
      apply elem_of_cons in Hx as [->|Hx].
      * assert (j = jy) as -> by congruence. destruct (admitted_before_total (y, jy) (y, jy)); done.
      * eapply admitted_before_trans; [exact Hc|]. by eapply IH.
    + assert (jr = jh) as -> by congruence. apply elem_of_cons in Hx as [->|Hx]; [|by eapply IH].
      assert (j = jy) as -> by congruence. destruct (admitted_before_total (h, jh) (y, jy)) as [|Hb]; [done|].
      apply (compare_spec st y h jy jh Hy Hjh) in Hb. congruence.
Qed.

(** Admission order: the job taken for the next lane comes before every other
    queued job in the order cancelled, control, real, then priority, then order
    of arrival, and it is removed from the queue with nothing else changed. *)
Theorem dequeue_takes_first sch H s r s' : JInv sch H s -> dequeue s = (Ok (Some r), s') ->
  (forall x j jr, x ∈ cs_queued s -> cs_store s !! x = Some j -> cs_store s !! r = Some jr ->
     admitted_before (r, jr) (x, j)) /\
  cs_queued s ≡ₚ r :: cs_queued s' /\ cs_store s' = cs_store s /\ cs_jobs s' = cs_jobs s.
Proof.
  intros Hj. unfold dequeue, mbind, M_bind.
  cbv beta iota delta [sortQueue mbind M_bind get_this modify_this cs_queued with_queued mret M_ret].
  fold (cs_queued s).
  destruct (array_sort (compareQueuedJobs (cs_store s)) (cs_queued s)) as [|x q] eqn:Hs; [done|].
  intros [= -> <-]. cbn. split_and!; try done.
  - eapply sort_head_least; [|exact Hs]. intros y Hy.
    destruct (j_queued _ _ _ _ _ _ _ _ Hj y Hy) as (jy & ? & _). by exists jy.
  - rewrite <- Hs. symmetry. apply array_sort_perm.
Qed.
