(* ===== verification/CoverTiming.v ===== *)
(** * The cover scheduler over time: boundaries, timers and sends

    The control part of the scheduler's invariant (status, open cycle, timer,
    suspended sends, what was sent when) and the theorems about every sequence
    of events: no job is lost or settled twice, the schedule is never left, and
    a running scheduler always has its next step armed. *)

From stdpp Require Import gmap sorting.
From S2P Require Import Prelude Bytes CoverGeometry CoverScheduler CoverInvariant.
Local Open Scope Z_scope.

Definition slot_of (sch : CoverSchedule) (cy : CycleRuntime) (o : Z) : CoverSlot :=
  slotAt sch (cy_index cy) (cy_startMs cy) (cy_endMs cy) o.
Definition on_grid (sch : CoverSchedule) (b : Z) : Prop :=
  exists k, b = phaseOffsetMs sch + k * cycleDurationMs sch.
Definition sent_deadline (e : LogEntry) : Z :=
  match e with CellSent req _ => deadlineMs (req_slot req) | _ => 0 end.

Section Timing.
Context (W : World) (sch : CoverSchedule) (drift : Z) (clk : nat -> Z).
Implicit Types (s : Scheduler).

(** Time does not run backwards. *)
Definition monotone : Prop := forall n m, (n <= m)%nat -> clk n <= clk m.
(** Every later clock reading is at least [t]. *)
Definition past (s : Scheduler) (t : Z) : Prop := forall n, (cs_calls s <= n)%nat -> t <= clk n.

Definition cycle_ok (cy : CycleRuntime) : Prop :=
  cy_endMs cy = cy_startMs cy + cycleDurationMs sch /\ on_grid sch (cy_startMs cy) /\
  0 <= cy_nextSlotOrdinal cy <= totalCycleSlots sch.

(** A cell went out at a slot of an opened cycle, inside its time window. *)
Definition send_ok (cycles : list CycleRuntime) (e : LogEntry) : Prop :=
  match e with
  | CellSent req at_ms => exists c cy o, cycles !! c = Some cy /\ 0 <= o < totalCycleSlots sch /\
      req_slot req = slot_of sch cy o /\ at_ms <= deadlineMs (req_slot req) + drift /\
      (monotone -> deadlineMs (req_slot req) <= at_ms)
  | _ => True
  end.

Definition stage_slot (slot : CoverSlot) (st : Stage) : Prop :=
  match st with AwaitRequest req | AwaitSend req => req_slot req = slot | _ => True end.

(** What holds in the middle of a method, too. *)
Record Core (s : Scheduler) : Prop := {
  k_cycles : forall c cy, cs_cycles s !! c = Some cy -> cycle_ok cy;
  k_cycle : forall c, cs_cycle s = Some c -> is_Some (cs_cycles s !! c);
  k_tasks : forall k t, cs_tasks s !! k = Some t ->
    tk_generation t <= cs_generation s /\ (k < cs_nextTask s)%nat /\
    stage_slot (tk_slot t) (tk_stage t);
  k_closed : monotone -> forall c cy, cs_cycles s !! c = Some cy -> cs_cycle s <> Some c ->
    past s (cy_endMs cy) /\
    forall c' cy', current_cycle s = Some (c', cy') -> cy_endMs cy <= cy_startMs cy';
  k_sends : forall e, e ∈ sends (cs_log s) -> send_ok (cs_cycles s) e;
  k_sorted : monotone -> StronglySorted Z.lt (sent_deadline <$> sends (cs_log s)) }.

Definition lanes_full (cy : CycleRuntime) : Prop :=
  length (cy_lanes cy) = Z.to_nat (coverLanes sch) /\
  forall i l, cy_lanes cy !! i = Some l -> ln_laneIndex l = Z.of_nat i.

(** Jobs are on lanes only while cells are sent. *)
Record Mode (s : Scheduler) : Prop := {
  m_running : cs_running s = negb (bool_decide (cs_status s = stopped));
  m_lanes : cs_status s <> active -> lane_jobs (cs_cycles s) (cs_cycle s) = [];
  m_active : cs_status s = active -> exists c cy, current_cycle s = Some (c, cy) /\ lanes_full cy }.

Definition all_sent_before (s : Scheduler) (t : Z) : Prop :=
  forall e, e ∈ sends (cs_log s) -> sent_deadline e < t.
Definition all_sent_until (s : Scheduler) (t : Z) : Prop :=
  forall e, e ∈ sends (cs_log s) -> sent_deadline e <= t.

(** The next slot of the open cycle. *)
Definition next_slot (s : Scheduler) (c : nat) (slot : CoverSlot) : Prop :=
  cs_status s = active /\ exists cy, current_cycle s = Some (c, cy) /\
    slot = slot_of sch cy (cy_nextSlotOrdinal cy) /\ cy_nextSlotOrdinal cy < totalCycleSlots sch.

Definition kind_ok (s : Scheduler) (deadline : Z) (kind : TimerKind) : Prop :=
  match kind with
  | open_boundary =>
      cs_cycle s = None /\ (cs_status s = starting \/ cs_status s = degraded) /\
      on_grid sch deadline /\
      (monotone -> forall c cy, cs_cycles s !! c = Some cy -> cy_endMs cy <= deadline)
  | cycle_boundary => exists c cy, current_cycle s = Some (c, cy) /\ deadline = cy_endMs cy
  | slot_timer slot => exists c, next_slot s c slot /\ deadline = deadlineMs slot /\
      (monotone -> all_sent_before s (deadlineMs slot))
  end.

Definition timer_ok (s : Scheduler) (t : Timer) : Prop :=
  tm_generation t = cs_generation s /\ 0 <= tm_delayMs t <= MAX_TIMER_DELAY_MS /\
  kind_ok s (tm_deadlineMs t) (tm_kind t).

(** A suspended send that is still current. *)
Definition task_ok (s : Scheduler) (t : Task) : Prop :=
  cs_timer s = None /\ next_slot s (tk_cycle t) (tk_slot t) /\
  (monotone -> past s (deadlineMs (tk_slot t))) /\
  (monotone -> match tk_stage t with
               | AwaitSend _ => all_sent_until s (deadlineMs (tk_slot t))
               | _ => all_sent_before s (deadlineMs (tk_slot t))
               end).

Record Armed (s : Scheduler) : Prop := {
  a_timer : forall t, cs_timer s = Some t -> timer_ok s t;
  a_task : forall k t, cs_tasks s !! k = Some t -> tk_generation t = cs_generation s -> task_ok s t;
  a_one : forall k k' t t', cs_tasks s !! k = Some t -> cs_tasks s !! k' = Some t' ->
    tk_generation t = cs_generation s -> tk_generation t' = cs_generation s -> k = k' }.

Record Inv (s : Scheduler) : Prop := {
  i_jobs : JInv sch [] s; i_core : Core s; i_mode : Mode s; i_armed : Armed s }.

(** A scheduler that is not stopped or suspended has a next step. *)
Definition Live (s : Scheduler) : Prop :=
  cs_status s = starting \/ cs_status s = active \/ cs_status s = degraded ->
  is_Some (cs_timer s) \/
  exists k t, cs_tasks s !! k = Some t /\ tk_generation t = cs_generation s.

(** ** Frames *)

Lemma Frame_fields s s' : Frame s s' ->
  cs_status s' = cs_status s /\ cs_running s' = cs_running s /\
  cs_generation s' = cs_generation s /\ cs_timer s' = cs_timer s /\
  cs_cycles s' = cs_cycles s /\ cs_cycle s' = cs_cycle s /\ cs_tasks s' = cs_tasks s /\
  cs_nextTask s' = cs_nextTask s /\ sends (cs_log s') = sends (cs_log s) /\
  (cs_calls s <= cs_calls s')%nat.
Proof. intros (Hc & Hn & _). unfold control in Hc. injection Hc as ? ? ? ? ? ? ? ? ?. split_and!; done. Qed.

Lemma past_mono s s' t : (cs_calls s <= cs_calls s')%nat -> past s t -> past s' t.
Proof. intros Hn Hp n Hge. apply Hp. lia. Qed.

Lemma Core_frame s s' : cs_generation s <= cs_generation s' ->
  cs_cycles s' = cs_cycles s -> cs_cycle s' = cs_cycle s -> cs_tasks s' = cs_tasks s ->
  cs_nextTask s' = cs_nextTask s -> sends (cs_log s') = sends (cs_log s) ->
  (cs_calls s <= cs_calls s')%nat -> Core s -> Core s'.
Proof.
  intros Hg Hcs Hc Ht Hnt Hl Hn []. unfold current_cycle in *.
  split; unfold current_cycle; rewrite ?Hcs, ?Hc, ?Ht, ?Hnt, ?Hl; try done.
  - intros k t Hk. destruct (k_tasks0 _ _ Hk) as (? & ? & ?). split_and!; [lia|done..].
  - intros Hm c cy Hcy Hne. destruct (k_closed0 Hm c cy Hcy Hne) as [Hp Ho].
    split; [by eapply past_mono|done].
Qed.

Lemma Core_Frame s s' : Frame s s' -> Core s -> Core s'.
Proof.
  intros (? & ? & Hg & ? & ? & ? & ? & ? & ? & ?)%Frame_fields. apply Core_frame; try done. by rewrite Hg.
Qed.

Lemma Mode_ext s s' : cs_status s' = cs_status s -> cs_running s' = cs_running s ->
  cs_cycles s' = cs_cycles s -> cs_cycle s' = cs_cycle s -> Mode s -> Mode s'.
Proof.
  intros Hs Hr Hcs Hc []. unfold current_cycle in *.
  split; unfold current_cycle; by rewrite ?Hs, ?Hr, ?Hcs, ?Hc.
Qed.
Lemma Mode_Frame s s' : Frame s s' -> Mode s -> Mode s'.
Proof. intros (? & ? & ? & ? & ? & ? & _)%Frame_fields. by apply Mode_ext. Qed.

Lemma next_slot_Frame s s' c slot : Frame s s' -> next_slot s c slot -> next_slot s' c slot.
Proof.
  intros (Hs & Hr & Hg & Ht & Hcs & Hc & _)%Frame_fields [Ha Hn]. unfold next_slot, current_cycle in *.
  by rewrite Hs, Hcs, Hc.
Qed.

Lemma kind_ok_Frame s s' d k : Frame s s' -> kind_ok s d k -> kind_ok s' d k.
Proof.
  intros Hf. pose proof Hf as (Hs & Hr & Hg & Ht & Hcs & Hc & _ & _ & Hl & _)%Frame_fields.
  destruct k; cbn; unfold current_cycle; rewrite ?Hs, ?Hcs, ?Hc; try done.
  intros (c & Hn & -> & Hb). exists c. split; [by eapply next_slot_Frame|]. split; [done|].
  unfold all_sent_before. by rewrite Hl.
Qed.

Lemma Armed_Frame s s' : Frame s s' -> Armed s -> Armed s'.
Proof.
  intros Hf []. pose proof Hf as (Hs & Hr & Hg & Ht & Hcs & Hc & Htk & _ & Hl & Hn)%Frame_fields. split.
  - intros t Hti. rewrite Ht in Hti. destruct (a_timer0 t Hti) as (? & ? & ?).
    split; [congruence|]. split; [done|by eapply kind_ok_Frame].
  - intros k t Hk. rewrite Htk in Hk.
    rewrite Hg. intros Hgen. destruct (a_task0 k t Hk Hgen) as (Hti & Hns & Hp & Hst). split; [congruence|].
    split; [by eapply next_slot_Frame|]. split; [intros Hm; by eapply past_mono, Hp|].
    unfold all_sent_until, all_sent_before. by rewrite Hl.
  - intros k k' t t'. rewrite Htk, Hg. apply a_one0.
Qed.

Lemma Live_Frame s s' : Frame s s' -> Live s -> Live s'.
Proof.
  intros (Hs & Hr & Hg & Ht & Hcs & Hc & Htk & _)%Frame_fields. unfold Live.
  by rewrite Hs, Ht, Htk, Hg.
Qed.

(** A method that only touches jobs keeps everything. *)
Lemma job_method_Inv {A} (c : sched A) s : job_method sch [] [] c -> Inv s ->
  wp c (fun _ s' => Inv s' /\ (Live s -> Live s')) s.
Proof.
  intros Hc []. eapply wp_mono; [|by apply Hc]. intros r s' [Hj Hf]. split.
  - split; [done|by eapply Core_Frame|by eapply Mode_Frame|by eapply Armed_Frame].
  - by apply Live_Frame.
Qed.
End Timing.

(** ** Releasing the lanes of the open cycle *)

Definition strip (cy : CycleRuntime) : CycleRuntime := set_lanes (fun _ => []) cy.
(** Only jobs and the jobs of lanes changed. *)
Definition LFrame (s0 s : Scheduler) : Prop :=
  (cs_status s = cs_status s0 /\ cs_running s = cs_running s0 /\
   cs_generation s = cs_generation s0 /\ cs_timer s = cs_timer s0 /\ cs_cycle s = cs_cycle s0 /\
   cs_tasks s = cs_tasks s0 /\ cs_nextTask s = cs_nextTask s0 /\
   sends (cs_log s) = sends (cs_log s0)) /\
  (strip <$> cs_cycles s = strip <$> cs_cycles s0 /\ (cs_calls s0 <= cs_calls s)%nat /\
   cs_log s0 `prefix_of` cs_log s).

Lemma LFrame_refl s : LFrame s s.
Proof. by split_and!. Qed.
Lemma LFrame_trans s1 s2 s3 : LFrame s1 s2 -> LFrame s2 s3 -> LFrame s1 s3.
Proof.
  intros ((? & ? & ? & ? & ? & ? & ? & ?) & ? & ? & ?) ((? & ? & ? & ? & ? & ? & ? & ?) & ? & ? & ?).
  split_and!; [congruence..|lia|by etrans].
Qed.
Lemma Frame_LFrame s s' : Frame s s' -> LFrame s s'.
Proof.
  intros Hf. pose proof Hf as (_ & _ & ? & _).
  apply Frame_fields in Hf as (? & ? & ? & ? & Hc & ? & ? & ? & ? & ?). split_and!; try done. by rewrite Hc.
Qed.

Lemma strip_lookup (cs cs' : list CycleRuntime) c cy' : strip <$> cs' = strip <$> cs ->
  cs' !! c = Some cy' -> exists cy, cs !! c = Some cy /\ strip cy' = strip cy.
Proof.
  intros He Hc. assert ((strip <$> cs') !! c = Some (strip cy')) as Hl by (by rewrite list_lookup_fmap, Hc).
  rewrite He, list_lookup_fmap in Hl. destruct (cs !! c) as [cy|] eqn:Hcy; [|done].
  exists cy. split; [done|]. by apply (inj Some) in Hl.
Qed.

Lemma strip_fields cy cy' : strip cy' = strip cy ->
  cy_index cy' = cy_index cy /\ cy_startMs cy' = cy_startMs cy /\ cy_endMs cy' = cy_endMs cy /\
  cy_nextSlotOrdinal cy' = cy_nextSlotOrdinal cy.
Proof. destruct cy, cy'. unfold strip, set_lanes. cbn. intros [= -> -> -> ->]. done. Qed.

Lemma strip_alter f c (cs : list CycleRuntime) : strip <$> alter (set_lanes f) c cs = strip <$> cs.
Proof.
  apply list_eq. intros k. rewrite !list_lookup_fmap, list_lookup_alter.
  case_decide; [subst|done]. by destruct (cs !! k).
Qed.

Section Cycles.
Context (W : World) (sch : CoverSchedule).
Implicit Types (s : Scheduler).

Lemma current_cycle_Some s c cy :
  current_cycle s = Some (c, cy) <-> cs_cycle s = Some c /\ cs_cycles s !! c = Some cy.
Proof.
  unfold current_cycle. destruct (cs_cycle s) as [c'|]; cbn; [|naive_solver].
  destruct (cs_cycles s !! c') as [cy'|] eqn:Hl; cbn; naive_solver.
Qed.

Lemma current_LFrame s s' c cy : LFrame s s' -> current_cycle s = Some (c, cy) ->
  exists cy', current_cycle s' = Some (c, cy') /\ strip cy' = strip cy.
Proof.
  intros ((_ & _ & _ & _ & Hc & _) & He & _) [H1 H2]%current_cycle_Some.
  symmetry in He. destruct (strip_lookup _ _ _ _ He H2) as (cy' & Hl & Hs).
  exists cy'. split; [|done]. apply current_cycle_Some. by rewrite Hc.
Qed.

(** The loop over the lanes of the open cycle: every lane gives up its job, and
    [body] disposes of it. *)
Definition release_loop (c : nat) (lanes : list (nat * LaneRuntime))
    (body : LaneRuntime -> sched unit) : sched unit :=
  for_each lanes (fun '(i, lane) => upd_lane c i (set_ln_job None);; body lane).

Lemma release_loop_spec c cy (body : LaneRuntime -> sched unit) s :
  (forall lane e s s', body lane s = (Err e, s') -> False) ->
  (forall lane s', lane ∈ cy_lanes cy -> Frame s s' \/ LFrame s s' ->
     JInv sch (option_list (ln_job lane)) s' ->
     wp (body lane) (fun _ s'' => JInv sch [] s'' /\ Frame s' s'') s') ->
  JInv sch [] s -> current_cycle s = Some (c, cy) ->
  wp (release_loop c (imap pair (cy_lanes cy)) body)
    (fun r s' => r = Ok tt /\ JInv sch [] s' /\ LFrame s s' /\
                 lane_jobs (cs_cycles s') (cs_cycle s') = []) s.
Proof.
  intros Hnt Hbody Hj [Hc Hcy]%current_cycle_Some.
  pose (I := fun (rest : list (nat * LaneRuntime)) s' =>
    JInv sch [] s' /\ LFrame s s' /\ exists k, rest = drop k (imap pair (cy_lanes cy)) /\
      exists cy', cs_cycles s' !! c = Some cy' /\ drop k (cy_lanes cy') = drop k (cy_lanes cy) /\
        omap ln_job (take k (cy_lanes cy')) = []).
  assert (I (imap pair (cy_lanes cy)) s) as HI.
  { split_and!; [done|apply LFrame_refl|]. exists 0%nat. split; [by rewrite drop_0|]. exists cy.
    by rewrite !drop_0, take_0. }
  eapply wp_mono; [|apply (wp_for_each _ _ I (fun _ => False)); [|exact HI]].
  - intros [[]|e] s' Hr; [|done]. destruct Hr as (Hj' & Hf & k & Hk & cy' & Hl & Hd & Ht).
    split_and!; try done. pose proof Hf as ((_ & _ & _ & _ & Hc' & _) & _).
    rewrite Hc', Hc. cbn. rewrite Hl.
    assert (drop k (cy_lanes cy) = []) as Hnil.
    { apply length_zero_iff_nil. apply (f_equal length) in Hk. rewrite length_drop, length_imap in Hk.
      rewrite length_drop. cbn in Hk. lia. }
    rewrite <- (take_drop k (cy_lanes cy')), Hd, Hnil, app_nil_r. done.
  - intros [i lane] rest s' (Hj' & Hf & k & Hk & cy' & Hl & Hd & Ht).
    assert (imap pair (cy_lanes cy) !! k = Some (i, lane)) as Hlk.
    { rewrite <- (Nat.add_0_r k), <- lookup_drop, <- Hk. done. }
    rewrite list_lookup_imap in Hlk. destruct (cy_lanes cy !! k) as [l|] eqn:Hlane; [|done].
    injection Hlk as <- <-.
    assert (cy_lanes cy' !! k = Some l) as Hlane'.
    { rewrite <- (Nat.add_0_r k), <- lookup_drop, Hd, lookup_drop, Nat.add_0_r. done. }
    pose proof Hf as ((_ & _ & _ & _ & Hc' & _) & _).
    set (s1 := with_cycles (alter (set_lanes (alter (set_ln_job None) k)) c (cs_cycles s')) (cs_cycle s') s').
    assert (LFrame s' s1) as Hf1.
    { split_and!; try done. apply strip_alter. }
    assert (JInv sch (option_list (ln_job l)) s1) as Hj1.
    { unfold JInv. cbn. rewrite <- (app_nil_r (option_list _)). rewrite Hc', Hc.
      eapply jinv_release; [exact Hl|exact Hlane'|]. unfold JInv in Hj'. by rewrite Hc', Hc in Hj'. }
    apply wp_modify. change (wp (body l) (fun r s' =>
      match r with Ok _ => I rest s' | Err _ => False end) s1).
    specialize (Hbody l s1 (list_elem_of_lookup_2 _ _ _ Hlane)
      (or_intror (LFrame_trans _ _ _ Hf Hf1)) Hj1).
    unfold wp in *. destruct (body l s1) as [[[]|e] s2] eqn:Hb; cbn in *; [|by eapply Hnt].
    destruct Hbody as [Hj2 Hf2]. split_and!; [done| |].
    { eapply LFrame_trans; [exact Hf|]. eapply LFrame_trans; [exact Hf1|by apply Frame_LFrame]. }
    exists (S k). split.
    { rewrite <- Nat.add_1_r, <- drop_drop, <- Hk. done. }
    apply Frame_fields in Hf2 as (_ & _ & _ & _ & Hcs2 & _). rewrite Hcs2. cbn.
    exists (set_lanes (alter (set_ln_job None) k) cy'). split_and!.
    + by rewrite list_lookup_alter_eq, Hl.
    + cbn. rewrite drop_alter, decide_False by lia. by rewrite <- Nat.add_1_r, <- !drop_drop, Hd.
    + cbn. rewrite (take_S_r _ _ (set_ln_job None l)).
      * rewrite take_alter, decide_False by lia. rewrite omap_app, Ht. done.
      * by rewrite list_lookup_alter_eq, Hlane'.
Qed.

Lemma no_current s : current_cycle s = None -> lane_jobs (cs_cycles s) (cs_cycle s) = [].
Proof.
  unfold current_cycle. destruct (cs_cycle s) as [c|]; [|done]. cbn. by destruct (cs_cycles s !! c).
Qed.

Lemma interruptCycle_spec reason s : JInv sch [] s ->
  wp (interruptCycle reason) (fun r s' => r = Ok tt /\ JInv sch [] s' /\ LFrame s s' /\
    lane_jobs (cs_cycles s') (cs_cycle s') = []) s.
Proof.
  intros Hj. unfold interruptCycle. apply wp_get.
  destruct (current_cycle s) as [[c cy]|] eqn:Hc.
  - apply (release_loop_spec c cy (fun lane =>
      match ln_job lane with Some r => requeue r reason | None => mret tt end)); try done.
    + intros lane e s1 s2. destruct (ln_job lane); [apply requeue_no_throw|done].
    + intros lane s' _ _ Hj'. destruct (ln_job lane) as [r|]; cbn in Hj'; [by apply requeue_job|].
      split; [done|apply Frame_refl].
  - do 2 (split; [done|]). split; [apply LFrame_refl|]. by apply no_current.
Qed.

Lemma finalizeCycleJobs_spec s : JInv sch [] s ->
  wp (finalizeCycleJobs W sch) (fun r s' => r = Ok tt /\ JInv sch [] s' /\ LFrame s s' /\
    lane_jobs (cs_cycles s') (cs_cycle s') = []) s.
Proof.
  intros Hj. unfold finalizeCycleJobs. apply wp_get.
  destruct (current_cycle s) as [[c cy]|] eqn:Hc.
  - apply (release_loop_spec c cy (fun lane =>
      s ← get_this;
      match deref s (ln_job lane) with
      | None => mret tt
      | Some (r, j) =>
          if rt_settled j then mret tt else
          if rt_cancelRequested j && negb (rt_cancelSent j) then requeue r missed_deadline
          else settle W sch r failed (Some capacity_exhausted)
      end)); try done.
    + intros lane e s1 s2. unfold mbind, M_bind. cbn. destruct (deref s1 _) as [[r j]|]; [|done].
      destruct (rt_settled j); [done|]. destruct (_ && _); [apply requeue_no_throw|apply settle_no_throw].
    + intros lane s' _ _ Hj'. apply wp_get. destruct (ln_job lane) as [r|]; cbn in Hj'.
      2: { split; [done|apply Frame_refl]. }
      destruct (j_known _ _ _ _ _ _ _ _ Hj' r ltac:(set_solver)) as [j Hr]. cbn. rewrite Hr.
      destruct (rt_settled j) eqn:Hs; [split; [by eapply jinv_drop|apply Frame_refl]|].
      destruct (_ && _); [by apply requeue_job|].
      eapply wp_mono; [|eapply (settle_full W sch); [exact Hj'|by eexists]].
      intros res s'' [[Hj'' Hf] Hset]. split; [|done]. unfold settled_at in Hset.
      destruct (cs_store s'' !! r) as [j'|] eqn:Hr'; [|done]. by eapply jinv_drop.
  - do 2 (split; [done|]). split; [apply LFrame_refl|]. by apply no_current.
Qed.

Lemma closeLanes_spec lanes reason s :
  wp (closeLanes W lanes reason) (fun r s' => (exists b, r = Ok b) /\ Frame s s' /\
    (JInv sch [] s -> JInv sch [] s')) s.
Proof.
  revert s. induction lanes as [|l lanes IH]; intros s.
  { split_and!; [by eexists|apply Frame_refl|done]. }
  cbn [closeLanes]. apply wp_call, wp_modify, wp_bind. eapply wp_mono; [|apply IH].
  intros r s' ((b & ->) & Hf & Hj'). split_and!; [by eexists| |].
  - eapply Frame_trans; [|exact Hf]. split_and!; [|cbn; lia|by eexists|done].
    unfold control. cbn. by rewrite sends_app.
  - intros Hj. apply Hj'. by apply jinv_log.
Qed.

(** The object after [closeCurrentCycle]: the cycle is gone, the rest as it was. *)
Lemma closeCurrentCycle_spec reason s : JInv sch [] s -> lane_jobs (cs_cycles s) (cs_cycle s) = [] ->
  (forall c, cs_cycle s = Some c -> is_Some (cs_cycles s !! c)) ->
  wp (closeCurrentCycle W reason) (fun r s' => (exists b, r = Ok b) /\ JInv sch [] s' /\
    exists s1, Frame s s1 /\ s' = with_cycles (cs_cycles s) None s1) s.
Proof.
  intros Hj Hl Hd. unfold closeCurrentCycle. apply wp_get.
  destruct (current_cycle s) as [[c cy]|] eqn:Hc.
  - apply wp_bind. eapply wp_mono; [|apply closeLanes_spec].
    intros r s' ((b & ->) & Hf & Hj'). apply wp_modify.
    pose proof Hf as (_ & _ & _ & _ & Hcs & Hcc & _)%Frame_fields.
    split_and!; [by eexists| |].
    + specialize (Hj' Hj). apply (jinv_close sch [] _ _ _ _ (cs_cycle s')); [|done]. cbn. by rewrite Hcs, Hcc.
    + exists s'. split; [done|]. by rewrite Hcs.
  - split_and!; [by eexists|done|]. exists s. split; [apply Frame_refl|].
    unfold current_cycle in Hc. destruct (cs_cycle s) as [c|] eqn:Hcc.
    + destruct (Hd c eq_refl) as [cy Hcy]. cbn in Hc. by rewrite Hcy in Hc.
    + cbn. destruct s. cbn in *. by rewrite Hcc.
Qed.
End Cycles.

(** ** Status changes and timers *)

(** Only the status changed, and the observer was told. *)
Definition Restatus (st : CoverSchedulerStatus) (s0 s : Scheduler) : Prop :=
  exists lg, s = with_status st (Sched (cs_store s0) (cs_queued s0) (cs_jobs s0) (cs_status s0)
    (cs_running s0) (cs_generation s0) (cs_timer s0) (cs_cycles s0) (cs_cycle s0) (cs_tasks s0)
    (cs_nextTask s0) lg (cs_calls s0)) /\
  sends lg = sends (cs_log s0) /\ (forall r, settle_count r lg = settle_count r (cs_log s0)).

Lemma setStatus_wp {B} st reason (f : unit -> sched B) Q s :
  (forall s', Restatus st s s' -> wp (f tt) Q s') -> wp (setStatus st reason ≫= f) Q s.
Proof.
  intros Hf. apply wp_bind. unfold setStatus. apply wp_get. case_bool_decide as Hst.
  - apply Hf. exists (cs_log s). split_and!; try done. destruct s. cbn in *. by rewrite <- Hst.
  - apply wp_modify. apply Hf. exists (cs_log s ++ [StatusChanged (cs_status s) st reason]).
    split_and!; [done|by rewrite sends_app|]. intros r. rewrite settle_count_app. cbn. lia.
Qed.

Lemma wp_unbind {S E A} (c : M S E unit) (f : unit -> M S E A) Q s :
  wp (c ≫= f) Q s ->
  wp c (fun r s' => match r with Ok a => wp (f a) Q s' | Err e => Q (Err e) s' end) s.
Proof. unfold wp, mbind, M_bind. by destruct (c s) as [[a|e] s']. Qed.

Lemma wp_tail {S E} (c : M S E unit) Q s : wp (c;; mret tt) Q s -> wp c Q s.
Proof. unfold wp, mbind, M_bind. by destruct (c s) as [[[]|e] s']. Qed.

Lemma wp_and {S E A} (c : M S E A) Q R s :
  wp c Q s -> wp c R s -> wp c (fun r s' => Q r s' /\ R r s') s.
Proof. by split. Qed.

(** A trailing [return]. *)
Lemma wp_unret {S E A} (c : M S E A) (f : A -> M S E unit) Q s :
  wp (x ← c; f x;; mret tt) Q s -> wp (x ← c; f x) Q s.
Proof.
  unfold wp, mbind, M_bind. destruct (c s) as [[x|e] s']; [|done]. by destruct (f x s') as [[[]|e] s''].
Qed.

Section Methods.
Context (W : World) (sch : CoverSchedule) (drift : Z) (clk : nat -> Z).
Context (Hclk : forall n, w_now W n = Some (clk n)) (Hsch : schedule_ok sch).
Implicit Types (s : Scheduler).
Local Abbreviation JInv := (JInv sch).
Local Abbreviation Core := (Core sch drift clk).
Local Abbreviation Mode := (Mode sch).
Local Abbreviation Armed := (Armed sch clk).
Local Abbreviation Inv := (Inv sch drift clk).
Local Abbreviation kind_ok := (kind_ok sch clk).
Local Abbreviation monotone := (monotone clk).

Lemma Restatus_jobs st H s s' : Restatus st s s' -> JInv H s -> JInv H s'.
Proof.
  intros (lg & -> & Hs & Hc) Hj. destruct Hj as [? ? ? ? ? ? ? ? ? Hlog]. split; try done.
  intros r. exact (eq_trans (Hc r) (Hlog r)).
Qed.
Lemma Restatus_core st s s' : Restatus st s s' -> Core s -> Core s'.
Proof. intros (lg & -> & Hs & _). by apply Core_frame. Qed.

Lemma Core_LFrame s s' : LFrame s s' -> Core s -> Core s'.
Proof.
  intros ((Hst & Hr & Hg & Ht & Hc & Htk & Hnt & Hl) & He & Hn & _) [].
  split; rewrite ?Hg, ?Hc, ?Htk, ?Hnt, ?Hl; try done.
  - intros c cy' Hcy. destruct (strip_lookup _ _ _ _ He Hcy) as (cy & Hcy0 & Hstr).
    apply strip_fields in Hstr as (? & H1 & H2 & H3). unfold cycle_ok. rewrite H1, H2, H3.
    exact (k_cycles0 c cy Hcy0).
  - intros c Hcc. destruct (k_cycle0 c Hcc) as [cy Hcy]. symmetry in He.
    destruct (strip_lookup _ _ _ _ He Hcy) as (cy' & ? & _). by exists cy'.
  - intros Hm c cy' Hcy Hne. destruct (strip_lookup _ _ _ _ He Hcy) as (cy & Hcy0 & Hstr).
    apply strip_fields in Hstr as (? & H1 & H2 & H3). rewrite H2.
    destruct (k_closed0 Hm c cy Hcy0 Hne) as [Hp Ho]. split; [by eapply past_mono|].
    intros c' cy1' [Hc1 Hl1]%current_cycle_Some. rewrite Hc in Hc1.
    destruct (strip_lookup _ _ _ _ He Hl1) as (cy1 & Hl0 & Hstr1).
    apply strip_fields in Hstr1 as (_ & -> & _). eapply Ho. by apply current_cycle_Some.
  - intros e Hin. specialize (k_sends0 e Hin). destruct e; try done. cbn in *.
    destruct k_sends0 as (c & cy & o & Hcy & Ho & Hsl & Hw). symmetry in He.
    destruct (strip_lookup _ _ _ _ He Hcy) as (cy' & Hcy' & Hstr).
    apply strip_fields in Hstr as (H1 & H2 & H3 & _). exists c, cy', o. do 2 (split; [done|]). split; [|done].
    rewrite Hsl. unfold slot_of. congruence.
Qed.

(** The cycle is closed: its end must be past. *)
Lemma Core_close s s1 : Frame s s1 -> Core s ->
  (monotone -> forall c cy, current_cycle s = Some (c, cy) -> past clk s (cy_endMs cy)) ->
  Core (with_cycles (cs_cycles s) None s1).
Proof.
  intros (Hst & Hr & Hg & Ht & Hcs & Hc & Htk & Hnt & Hl & Hn)%Frame_fields [] Hpast.
  split; cbn [cs_cycles cs_cycle cs_tasks cs_generation cs_nextTask cs_log with_cycles];
    rewrite ?Hg, ?Htk, ?Hnt, ?Hl; try done.
  intros Hm c cy Hcy _. split; [|done]. apply (past_mono clk s); [done|].
  destruct (decide (cs_cycle s = Some c)) as [Heq|Hne].
  - eapply Hpast; [done|]. by apply current_cycle_Some.
  - by eapply k_closed0.
Qed.

(** No timer and no current send. *)
Definition Idle s : Prop :=
  cs_timer s = None /\
  forall k t, cs_tasks s !! k = Some t -> tk_generation t < cs_generation s.

Lemma Idle_Armed s : Idle s -> Armed s.
Proof.
  intros [Ht Hk]. split.
  - intros t Hs. congruence.
  - intros k t Hl Hg. apply Hk in Hl. lia.
  - intros k k' t t' Hl _ Hg. apply Hk in Hl. lia.
Qed.

Lemma Idle_LFrame s s' : LFrame s s' -> Idle s -> Idle s'.
Proof. intros ((_ & _ & Hg & Ht & _ & Htk & _) & _) [Hi Hk]. split; [congruence|]. rewrite Htk, Hg. done. Qed.
Lemma Idle_Restatus st s s' : Restatus st s s' -> Idle s -> Idle s'.
Proof. intros (lg & -> & _) Hi. exact Hi. Qed.

(** Between two steps without a timer. *)
Definition Quiet s : Prop := JInv [] s /\ Core s /\ Mode s /\ Idle s.
Lemma Quiet_Inv s : Quiet s -> Inv s.
Proof. intros (? & ? & ? & ?). split; try done. by apply Idle_Armed. Qed.

Lemma Core_disarm s : Core s -> Core (with_timer (cs_generation s + 1) None s).
Proof. apply Core_frame; try done. cbn. lia. Qed.
Lemma Idle_disarm s : Core s -> Idle (with_timer (cs_generation s + 1) None s).
Proof. intros Hc. split; [done|]. intros k t Hk. destruct (k_tasks _ _ _ _ Hc k t Hk). cbn. lia. Qed.
Lemma Core_call s : Core s -> Core (with_call s).
Proof. apply Core_frame; try done. cbn. lia. Qed.

Lemma wp_now {B} (f : Z -> sched B) Q s :
  wp (f (clk (cs_calls s))) Q (with_call s) -> wp (assertClockNow W ≫= f) Q s.
Proof using Hclk.
  intros Hf. apply wp_bind. unfold assertClockNow. apply wp_call. rewrite Hclk. exact Hf.
Qed.

(** The reading just taken is before every later one. *)
Lemma now_past s t : monotone -> t <= clk (cs_calls s) -> past clk (with_call s) t.
Proof. intros Hm Ht n Hn. cbn in Hn. specialize (Hm (cs_calls s) n ltac:(lia)). lia. Qed.

Lemma armRemaining_wp d k Q s :
  (forall delay, 0 <= delay <= MAX_TIMER_DELAY_MS ->
     Q (Ok tt) (with_timer (cs_generation s) (Some {| tm_deadlineMs := d; tm_kind := k;
        tm_generation := cs_generation s; tm_delayMs := delay |}) (with_call s))) ->
  wp (armRemaining W d k (cs_generation s)) Q s.
Proof using Hclk.
  intros HQ. unfold armRemaining. apply wp_get. rewrite Z.eqb_refl. cbn [negb].
  apply wp_now. apply HQ. unfold MAX_TIMER_DELAY_MS. lia.
Qed.

(** Arming a timer for a sound target restores the whole invariant. *)
Lemma arm_spec d k s : JInv [] s -> Core s -> Mode s -> kind_ok s d k ->
  wp (arm W d k) (fun r s' => r = Ok tt /\ Inv s' /\ Live s' /\ cs_status s' = cs_status s) s.
Proof using Hclk.
  intros Hj Hc Hm Hk. unfold arm. apply wp_modify, wp_get.
  apply (armRemaining_wp d k _ (with_timer (cs_generation s + 1) None s)). intros delay Hd.
  split; [done|]. split; [|split; [|done]].
  - split; [exact Hj| |by apply (Mode_ext sch s)|].
    + apply (Core_frame sch drift clk s); try done; cbn; lia.
    + split.
      * intros t [= <-]. split_and!; try done; apply Hd.
      * intros k' t Hl Hg. destruct (k_tasks _ _ _ _ Hc k' t Hl). cbn in Hg. lia.
      * intros k1 k2 t1 t2 Hl _ Hg. destruct (k_tasks _ _ _ _ Hc k1 t1 Hl). cbn in Hg. lia.
  - intros _. left. by eexists.
Qed.

Definition good {A} (s : Scheduler) (r : result CoverThrow A) (s' : Scheduler) : Prop :=
  Inv s' /\ (is_ok r = true -> Live s -> Live s').

Lemma armNextCycle_spec now inclusive s : Quiet s -> cs_cycle s = None ->
  cs_status s = starting \/ cs_status s = degraded ->
  (monotone -> forall c cy, cs_cycles s !! c = Some cy -> cy_endMs cy <= now) ->
  wp (armNextCycle W sch now inclusive) (fun r s' => Inv s' /\ (is_ok r = true -> Live s')) s.
Proof using Hclk Hsch.
  intros Hq Hcyc Hst Hends. unfold armNextCycle. apply wp_bind.
  unfold throwing_boundary. destruct (nextCycleBoundary sch now inclusive) as [b|] eqn:Hb.
  - apply wp_ret. destruct Hq as (Hj & Hc & Hm & _). eapply wp_mono; [|apply arm_spec; try done].
    + by intros r s' (-> & ? & ? & _).
    + apply nextCycleBoundary_spec in Hb as [(k & -> & _) Hr]; [|done].
      split_and!; try done; [by exists k|]. intros Hmo c cy Hcy.
      specialize (Hends Hmo c cy Hcy). destruct inclusive; lia.
  - apply wp_throw. split; [by apply Quiet_Inv|done].
Qed.

Lemma Mode_idle s : cs_running s = negb (bool_decide (cs_status s = stopped)) ->
  cs_status s <> active -> lane_jobs (cs_cycles s) (cs_cycle s) = [] -> Mode s.
Proof. intros. split; try done. Qed.

Lemma past_weaken s t t' : t <= t' -> past clk s t' -> past clk s t.
Proof. intros Ht Hp n Hn. specialize (Hp n Hn). lia. Qed.

Lemma close_quiet reason s : Quiet s -> cs_status s <> active ->
  (monotone -> forall c cy, current_cycle s = Some (c, cy) -> past clk s (cy_endMs cy)) ->
  wp (closeCurrentCycle W reason) (fun r s' => (exists b, r = Ok b) /\ Quiet s' /\
    cs_cycle s' = None /\ cs_cycles s' = cs_cycles s /\ cs_status s' = cs_status s /\
    cs_running s' = cs_running s /\ cs_generation s' = cs_generation s) s.
Proof.
  intros (Hj & Hc & Hm & Hi) Hst Hp.
  eapply wp_mono; [|apply (closeCurrentCycle_spec W sch reason s Hj)];
    [|by apply (m_lanes _ _ Hm)|by apply Hc].
  intros r s' (Hr & Hj' & s1 & Hf & ->). pose proof (Core_close s s1 Hf Hc Hp) as Hc'.
  pose proof (Idle_LFrame _ _ (Frame_LFrame _ _ Hf) Hi) as Hi'.
  apply Frame_fields in Hf as (Hs1 & Hr1 & Hg1 & _). split; [done|]. split.
  - do 2 (split; [done|]). split; [|done]. apply Mode_idle; cbn; rewrite ?Hs1, ?Hr1; try done. apply Hm.
  - by split_and!.
Qed.

Lemma boundaryOrCleanup_spec now cy c cy' s : Quiet s ->
  cs_status s = suspended \/ cs_status s = stopped ->
  current_cycle s = Some (c, cy') -> cy_endMs cy' = cy_endMs cy ->
  (monotone -> past clk s now) ->
  wp (boundaryOrCleanup W now cy) (fun r s' => (exists b, r = Ok b) /\ Inv s' /\
    (cs_status s' = suspended \/ cs_status s' = stopped)) s.
Proof using Hclk.
  intros Hq Hst Hcur Hend Hp. unfold boundaryOrCleanup. destruct (Z.leb_spec now (cy_endMs cy)).
  - destruct Hq as (Hj & Hc & Hm & Hi). eapply wp_mono; [|apply arm_spec; try done].
    + intros r s' (-> & ? & _ & Hs'). rewrite Hs'. split; [by eexists|done].
    + exists c, cy'. by rewrite Hend.
  - apply wp_bind. eapply wp_mono; [|apply (close_quiet late_cleanup s Hq)].
    + intros r s' ((b & ->) & Hq' & _ & _ & Hs' & _). apply wp_ret. split; [by eexists|].
      split; [by apply Quiet_Inv|]. by rewrite Hs'.
    + destruct Hst as [->| ->]; done.
    + intros Hmo c1 cy1 Hc1. rewrite Hcur in Hc1. injection Hc1 as <- <-.
      eapply past_weaken; [|by apply Hp]. lia.
Qed.

Lemma interrupt_quiet reason s : JInv [] s -> Core s -> Idle s ->
  cs_running s = negb (bool_decide (cs_status s = stopped)) -> cs_status s <> active ->
  wp (interruptCycle reason) (fun r s' => r = Ok tt /\ Quiet s' /\ LFrame s s') s.
Proof.
  intros Hj Hc Hi Hr Hst. eapply wp_mono; [|by apply (interruptCycle_spec sch)].
  intros r s' (-> & Hj' & Hf & Hl). split; [done|]. split; [|done]. split; [done|].
  split; [by eapply Core_LFrame|]. split; [|by eapply Idle_LFrame].
  destruct Hf as ((Hs & Hr' & _) & _). apply Mode_idle; rewrite ?Hs, ?Hr'; done.
Qed.

(** The common entry of the methods that change the status: timer disarmed,
    status set, clock read. *)
Definition entered (st : CoverSchedulerStatus) (s0 s : Scheduler) : Prop :=
  JInv [] s /\ Core s /\ Idle s /\ cs_status s = st /\ cs_running s = cs_running s0 /\
  cs_cycles s = cs_cycles s0 /\ cs_cycle s = cs_cycle s0 /\
  (monotone -> past clk s (clk (pred (cs_calls s)))) /\ cs_calls s = S (cs_calls s0).

Lemma enter_wp {B} st reason (f : Z -> sched B) Q s : JInv [] s -> Core s ->
  (forall s', entered st s s' -> wp (f (clk (cs_calls s))) Q s') ->
  wp (disarm;; setStatus st reason;; now ← assertClockNow W; f now) Q s.
Proof using Hclk.
  intros Hj Hc Hf. apply wp_modify, setStatus_wp. intros s1 Hre.
  pose proof (Restatus_jobs st [] _ _ Hre Hj) as Hj1.
  pose proof (Restatus_core st _ _ Hre (Core_disarm _ Hc)) as Hc1.
  pose proof (Idle_Restatus st _ _ Hre (Idle_disarm _ Hc)) as Hi1.
  destruct Hre as (lg & -> & _). apply wp_now. apply Hf.
  split; [exact Hj1|]. split; [exact (Core_call _ Hc1)|]. split; [exact Hi1|]. split_and!; try done.
  intros Hm n Hn. apply Hm. cbn in *. lia.
Qed.

Lemma entered_current st s s' c cy : entered st s s' ->
  current_cycle s' = Some (c, cy) <-> current_cycle s = Some (c, cy).
Proof. intros (_ & _ & _ & _ & _ & Hcs & Hc & _). rewrite !current_cycle_Some. by rewrite Hcs, Hc. Qed.

(** Cycles that were closed before ended before the reading. *)
Lemma entered_ended st s s' c cy : entered st s s' -> Core s -> monotone ->
  cs_cycles s !! c = Some cy -> cs_cycle s <> Some c -> cy_endMs cy <= clk (cs_calls s).
Proof. intros He Hc Hm Hl Hne. destruct (k_closed _ _ _ _ Hc Hm c cy Hl Hne) as [Hp _]. by apply Hp. Qed.

Lemma core_no_current s : Core s -> current_cycle s = None -> cs_cycle s = None.
Proof.
  intros Hc Hcur. destruct (cs_cycle s) as [c|] eqn:Hcc; [|done].
  destruct (k_cycle _ _ _ _ Hc c Hcc) as [cy Hcy]. unfold current_cycle in Hcur.
  rewrite Hcc in Hcur. cbn in Hcur. by rewrite Hcy in Hcur.
Qed.

(** Close the cycle and wait for the next boundary. *)
Lemma close_then_next {B} now (b : B) s : Quiet s -> cs_status s = starting \/ cs_status s = degraded ->
  (monotone -> past clk s now) ->
  (monotone -> forall c cy, cs_cycles s !! c = Some cy -> cy_endMs cy <= now) ->
  wp (closed ← closeCurrentCycle W late_cleanup; armNextCycle W sch now false;; mret b)
    (fun r s' => Inv s' /\ (is_ok r = true -> Live s')) s.
Proof using Hclk Hsch.
  intros Hq Hst Hp Hends. apply wp_bind. eapply wp_mono; [|apply (close_quiet late_cleanup s Hq)].
  - intros r s3 ((b' & ->) & Hq3 & Hcc3 & Hcs3 & Hst3 & _). apply wp_bind.
    eapply wp_mono; [|apply armNextCycle_spec; rewrite ?Hst3, ?Hcs3; done].
    intros [[]|e] s4 [? Hl]; [apply wp_ret|]; split; auto.
  - destruct Hst as [->| ->]; done.
  - intros Hmo c cy [_ Hc]%current_cycle_Some. eapply past_weaken; [|by apply Hp]. eauto.
Qed.

(** The ends of all cycles are not after the reading [now], when the open one's is not. *)
Lemma ends_before st s s1 s2 now c cy : entered st s s1 -> Core s -> LFrame s1 s2 ->
  current_cycle s1 = Some (c, cy) -> now = clk (cs_calls s) -> cy_endMs cy <= now -> monotone ->
  forall c' cy', cs_cycles s2 !! c' = Some cy' -> cy_endMs cy' <= now.
Proof.
  intros He Hc Hf Hcur -> Hle Hmo c' cy' Hcy'.
  pose proof He as (_ & _ & _ & _ & _ & Hcs1 & _). destruct Hf as (_ & He2 & _).
  destruct (strip_lookup _ _ _ _ He2 Hcy') as (cy0 & Hcy0 & Hstr0).
  apply strip_fields in Hstr0 as (_ & _ & -> & _). rewrite Hcs1 in Hcy0.
  apply (entered_current _ _ _ _ _ He), current_cycle_Some in Hcur as [Hcur Hcl].
  destruct (decide (c' = c)) as [->|Hne]; [|eapply entered_ended; eauto; congruence].
  rewrite Hcl in Hcy0. by injection Hcy0 as <-.
Qed.

Lemma entered_past st s s1 s2 : entered st s s1 -> LFrame s1 s2 -> monotone ->
  past clk s2 (clk (cs_calls s)).
Proof.
  intros (_ & _ & _ & _ & _ & _ & _ & Hp & Hn) (_ & _ & Hn2 & _) Hmo.
  eapply past_mono; [exact Hn2|]. specialize (Hp Hmo). by rewrite Hn in Hp.
Qed.

Lemma entered_quiet st s s1 : entered st s s1 -> st <> active ->
  cs_running s1 = negb (bool_decide (st = stopped)) ->
  lane_jobs (cs_cycles s1) (cs_cycle s1) = [] -> Quiet s1.
Proof.
  intros (Hj & Hc & Hi & Hst & _) Hne Hrun Hl. do 2 (split; [done|]). split; [|done].
  apply Mode_idle; by rewrite ?Hst.
Qed.

Lemma quiet_status_live s : cs_status s = suspended \/ cs_status s = stopped -> Live s.
Proof. intros Hs [H|[H|H]]; destruct Hs; congruence. Qed.

Lemma degrade_spec reason s : Inv s -> wp (degrade W sch reason) (fun r s' => Inv s' /\ (is_ok r = true -> Live s')) s.
Proof using Hclk Hsch.
  intros [Hj Hc Hm Ha]. unfold degrade. apply wp_get.
  destruct (bool_decide (cs_status s = stopped)) eqn:Hst.
  { apply bool_decide_eq_true in Hst. apply wp_ret. split; [done|]. intros _. apply quiet_status_live. auto. }
  destruct (bool_decide (cs_status s = suspended)) eqn:Hsu.
  { apply bool_decide_eq_true in Hsu. apply wp_ret. split; [done|]. intros _. apply quiet_status_live. auto. }
  cbn [orb].
  apply bool_decide_eq_false in Hst. apply enter_wp; try done. intros s1 He. apply wp_get.
  assert (cs_running s1 = true) as Hrun.
  { destruct He as (_ & _ & _ & _ & -> & _). rewrite (m_running _ _ Hm). by rewrite bool_decide_false. }
  pose proof He as (Hj1 & Hc1 & Hi1 & Hst1 & _ & Hcs1 & Hcc1 & _). rewrite Hrun.
  destruct (current_cycle s1) as [[c cy]|] eqn:Hcur.
  - apply wp_bind. eapply wp_mono; [|apply interrupt_quiet; try done; by rewrite Hst1].
    intros r s2 (-> & Hq2 & Hf2). destruct (current_LFrame _ _ _ _ Hf2 Hcur) as (cy2 & Hcur2 & Hstr).
    apply strip_fields in Hstr as (_ & _ & Hend & _).
    destruct (Z.leb_spec (clk (cs_calls s)) (cy_endMs cy)) as [Hle|Hgt].
    + eapply wp_mono; [|apply arm_spec; try apply Hq2].
      * intros r s3 (-> & ? & ? & _). by split.
      * exists c, cy2. by rewrite Hend.
    + apply wp_unret. eapply wp_mono; [|apply close_then_next; try done].
      * done.
      * right. by destruct Hf2 as ((-> & _) & _).
      * by eapply entered_past.
      * intros Hmo. eapply ends_before; eauto. lia.
  - pose proof (core_no_current _ Hc1 Hcur) as Hnone.
    eapply wp_mono; [|apply armNextCycle_spec; try done].
    + done.
    + eapply entered_quiet; [exact He|done|done|by rewrite Hnone].
    + by right.
    + intros Hmo c cy Hcy. rewrite Hcs1 in Hcy. eapply entered_ended; eauto. congruence.
Qed.

Lemma suspend_spec reason s : JInv [] s -> Core s ->
  cs_running s = negb (bool_decide (cs_status s = stopped)) ->
  (cs_status s = stopped \/ cs_status s = suspended -> Inv s) ->
  wp (suspend W reason) (fun _ s' => Inv s' /\ Live s') s.
Proof using Hclk.
  intros Hj Hc Hm Ha. unfold suspend. apply wp_get.
  destruct (bool_decide (cs_status s = stopped)) eqn:Hst.
  { apply bool_decide_eq_true in Hst. apply wp_ret. split; [auto|]. apply quiet_status_live. auto. }
  destruct (bool_decide (cs_status s = suspended)) eqn:Hsu.
  { apply bool_decide_eq_true in Hsu. apply wp_ret. split; [auto|]. apply quiet_status_live. auto. }
  cbn [orb]. apply bool_decide_eq_false in Hst. apply enter_wp; try done. intros s1 He. apply wp_get.
  assert (cs_running s1 = true) as Hrun.
  { destruct He as (_ & _ & _ & _ & -> & _). done. }
  pose proof He as (Hj1 & Hc1 & Hi1 & Hst1 & _).
  destruct (current_cycle s1) as [[c cy]|] eqn:Hcur.
  - apply wp_bind. eapply wp_mono; [|apply interrupt_quiet; try done; by rewrite Hst1].
    intros r s2 (-> & Hq2 & Hf2). destruct (current_LFrame _ _ _ _ Hf2 Hcur) as (cy2 & Hcur2 & Hstr).
    apply strip_fields in Hstr as (_ & _ & Hend & _). apply wp_bind.
    eapply wp_mono; [|eapply (boundaryOrCleanup_spec _ cy c cy2 s2 Hq2)]; try done.
    + intros r s3 ((b & ->) & Hi3 & Hs3). apply wp_ret. split; [done|]. by apply quiet_status_live.
    + left. by destruct Hf2 as ((-> & _) & _).
    + by eapply entered_past.
  - pose proof (core_no_current _ Hc1 Hcur) as Hnone. apply wp_ret. split.
    + apply Quiet_Inv. eapply entered_quiet; [exact He|done|done|by rewrite Hnone].
    + apply quiet_status_live. auto.
Qed.

(** Assigning [this.running] does not matter for jobs and cycles. *)
Lemma Core_running b s : Core s -> Core (with_running b s).
Proof. by apply Core_frame. Qed.

Lemma resume_spec s : Inv s -> wp (resume W sch) (good s) s.
Proof using Hclk Hsch.
  intros [Hj Hc Hm Ha]. unfold resume. apply wp_get.
  destruct (bool_decide (cs_status s = suspended)) eqn:Hsu; cbn [negb]; [|by split].
  apply bool_decide_eq_true in Hsu. apply wp_modify.
  pose proof (Core_running true s Hc) as Hcr. apply enter_wp; try done.
  intros s1 He. apply wp_get. pose proof He as (Hj1 & Hc1 & Hi1 & Hst1 & Hr1 & Hcs1 & Hcc1 & _).
  assert (Quiet s1) as Hq1.
  { eapply entered_quiet; [exact He|done|done|]. rewrite Hcs1, Hcc1. apply (m_lanes _ _ Hm). by rewrite Hsu. }
  destruct (current_cycle s1) as [[c cy]|] eqn:Hcur.
  - change (cs_calls (with_running true s)) with (cs_calls s).
    destruct (Z.ltb_spec (clk (cs_calls s)) (cy_endMs cy)) as [Hlt|Hge].
    + apply wp_bind. eapply wp_mono; [|apply arm_spec; try apply Hq1; by exists c, cy].
      intros r s2 (-> & ? & ? & _). by split.
    + eapply wp_mono; [|apply close_then_next; try done].
      * intros r s4 [? Hl]. split; [done|]. intros ? _. by apply Hl.
      * by left.
      * exact (entered_past _ _ _ _ He (LFrame_refl s1)).
      * intros Hmo. exact (ends_before _ _ _ _ _ _ _ He Hcr (LFrame_refl s1) Hcur eq_refl Hge Hmo).
  - apply wp_bind. pose proof (core_no_current _ Hc1 Hcur) as Hnone.
    eapply wp_mono; [|apply armNextCycle_spec; try done].
    + intros [[]|e] s2 [? Hl]; [apply wp_ret|]; split; auto; done.
    + by left.
    + intros Hmo c cy Hcy. rewrite Hcs1 in Hcy.
      eapply (entered_ended _ _ _ c cy He Hcr Hmo); [done|]. rewrite <- Hcc1. congruence.
Qed.

Lemma start_spec s : Inv s -> wp (start W sch) (good s) s.
Proof using Hclk Hsch.
  intros [Hj Hc Hm Ha]. unfold start. apply wp_get.
  destruct (bool_decide (cs_status s = stopped)) eqn:Hst; cbn [negb]; [|by split].
  apply bool_decide_eq_true in Hst. apply wp_modify, setStatus_wp. intros s1 Hre.
  pose proof (Restatus_jobs starting [] _ _ Hre Hj) as Hj1.
  pose proof (Restatus_core starting _ _ Hre (Core_running true _ Hc)) as Hc1.
  destruct Hre as (lg & -> & _). apply wp_now, wp_get.
  set (s2 := with_call _) in *.
  assert (Core s2) as Hc2 by exact (Core_call _ Hc1).
  assert (lane_jobs (cs_cycles s) (cs_cycle s) = []) as Hl by (apply (m_lanes _ _ Hm); by rewrite Hst).
  assert (Mode s2) as Hm2 by (by apply Mode_idle).
  destruct (current_cycle s2) as [[c cy]|] eqn:Hcur; apply wp_bind.
  - eapply wp_mono; [|apply arm_spec; try done; by exists c, cy].
    intros r s3 (-> & ? & ? & _). by split.
  - pose proof (core_no_current _ Hc2 Hcur) as Hnone.
    assert (Idle s2) as Hi2.
    { split.
      - destruct (cs_timer s) as [t|] eqn:Ht; [|done]. destruct (a_timer _ _ _ Ha t Ht) as (_ & _ & Hk).
        destruct (tm_kind t); cbn in Hk.
        + destruct Hk as (_ & [Hk|Hk] & _); congruence.
        + destruct Hk as (c & cy & [Hcc _]%current_cycle_Some & _). cbn in Hnone. congruence.
        + destruct Hk as (c & [Hk _] & _). congruence.
      - intros k t Hk. destruct (k_tasks _ _ _ _ Hc k t Hk) as [Hg _]. cbn.
        assert (tk_generation t <> cs_generation s); [|lia].
        intros Heq. destruct (a_task _ _ _ Ha k t Hk Heq) as (_ & [Hk' _] & _). congruence. }
    eapply wp_mono; [|apply armNextCycle_spec; try done].
    + intros [[]|e] s3 [? Hl3]; [apply wp_ret|]; split; auto; done.
    + by left.
    + intros Hmo c cy Hcy. destruct (k_closed _ _ _ _ Hc Hmo c cy Hcy) as [Hp _];
        [cbn in Hnone; congruence|]. by apply Hp.
Qed.

(** Clearing all lanes gives up their jobs. *)
Lemma clear_lanes_spec H c cy s : JInv H s -> current_cycle s = Some (c, cy) ->
  wp (for_each (seq 0 (length (cy_lanes cy))) (fun i => upd_lane c i (set_ln_job None)))
    (fun r s' => r = Ok tt /\ JInv (omap ln_job (cy_lanes cy) ++ H) s' /\ LFrame s s' /\
       lane_jobs (cs_cycles s') (cs_cycle s') = [] /\
       cs_store s' = cs_store s) s.
Proof.
  intros Hj [Hcc Hcy]%current_cycle_Some.
  pose (I := fun (rest : list nat) s' => exists k, rest = seq k (length (cy_lanes cy) - k) /\
    s' = with_cycles (alter (set_lanes (fun ls => (set_ln_job None <$> take k ls) ++ drop k ls)) c
      (cs_cycles s)) (cs_cycle s) s).
  assert (forall k, set_lanes (fun ls => (set_ln_job None <$> take k ls) ++ drop k ls) cy
    = set_lanes (fun _ => (set_ln_job None <$> take k (cy_lanes cy)) ++ drop k (cy_lanes cy)) cy) as Hset by done.
  eapply wp_mono; [|apply (wp_for_each _ _ I (fun _ => False))].
  - intros [[]|e] s' HI; [|done]. destruct HI as (k & Hk & ->). split; [done|].
    assert (length (cy_lanes cy) <= k)%nat as Hle.
    { apply (f_equal length) in Hk. rewrite length_seq in Hk. cbn in Hk. lia. }
    assert (lane_jobs (alter (set_lanes (fun ls => (set_ln_job None <$> take k ls) ++ drop k ls)) c
      (cs_cycles s)) (Some c) = []) as Hl.
    { rewrite (lane_jobs_alter _ _ _ _ Hcy). cbn. rewrite (take_ge _ _ Hle), (drop_ge _ _ Hle), app_nil_r.
      clear. induction (cy_lanes cy); done. }
    split; [|split; [|split; [|done]]].
    + unfold CoverInvariant.JInv in Hj |- *. cbn [cs_store cs_queued cs_jobs cs_cycles cs_cycle cs_log with_cycles].
      rewrite Hcc in Hj |- *. eapply jinv_lanes; [..|exact Hj].
      * rewrite Hl. cbn. by rewrite Hcy.
      * intros c' cy' Hc' Hne. rewrite list_lookup_alter_ne in Hc' by congruence.
        by apply (j_closed _ _ _ _ _ _ _ _ Hj c').
      * intros c' [= <-]. rewrite list_lookup_alter_eq, Hcy. by eexists.
    + split_and!; try done. apply strip_alter.
    + cbn [cs_cycles cs_cycle with_cycles]. by rewrite Hcc.
  - intros i rest s' (k & Hk & ->). destruct (length (cy_lanes cy) - k)%nat as [|m] eqn:Hm; [done|].
    cbn [seq] in Hk. injection Hk as -> ->. exists (S k). split; [f_equal; lia|].
    unfold upd_lane, upd_cycle, modify_this. cbn [fst snd].
    unfold with_cycles. cbn. f_equal. apply list_eq. intros n. rewrite !list_lookup_alter.
    case_decide; [subst n|done]. rewrite decide_True by done. rewrite Hcy. cbn. f_equal.
    unfold set_lanes. cbn. f_equal. destruct (lookup_lt_is_Some_2 (cy_lanes cy) k ltac:(lia)) as [l Hl].
    rewrite (take_S_r _ _ _ Hl), fmap_app, <- app_assoc. cbn.
    rewrite (drop_S _ _ _ Hl). rewrite alter_app_r_alt by (rewrite length_fmap, length_take; lia).
    f_equal. rewrite length_fmap, length_take.
    replace (k - k `min` length (cy_lanes cy))%nat with 0%nat by lia. done.
  - exists 0%nat. split; [f_equal; lia|]. destruct s. unfold with_cycles. cbn in *. f_equal.
    apply list_eq. intros n. rewrite list_lookup_alter. case_decide; [subst|done].
    destruct (cs_cycles !! n) as [cy'|]; [|done]. cbn. f_equal. destruct cy'. unfold set_lanes. cbn.
    by rewrite drop_0.
Qed.

Lemma stop_spec s : Inv s -> wp (stop W sch) (good s) s.
Proof using Hclk.
  intros [Hj Hc Hm Ha]. unfold stop. apply wp_get. destruct (_ && _) eqn:Hg; [by split|].
  apply wp_modify, wp_modify, setStatus_wp. intros s1 Hre.
  pose proof (Restatus_jobs stopped [] _ _ Hre Hj) as Hj1.
  pose proof (Restatus_core stopped _ _ Hre (Core_disarm _ (Core_running false _ Hc))) as Hc1.
  pose proof (Idle_Restatus stopped _ _ Hre (Idle_disarm _ (Core_running false _ Hc))) as Hi1.
  assert (cs_status s1 = stopped /\ cs_running s1 = false) as [Hs1 Hr1] by (by destruct Hre as (lg & -> & _)).
  clear Hre. apply wp_get, wp_bind. eapply wp_mono; [|by apply (settle_all_spec W sch s1)].
  intros r s2 (-> & (Hj2 & Hf2) & Hset). apply wp_get.
  pose proof (Core_Frame _ _ _ _ _ Hf2 Hc1) as Hc2.
  pose proof (Idle_LFrame _ _ (Frame_LFrame _ _ Hf2) Hi1) as Hi2.
  apply Frame_fields in Hf2 as (Hs2 & Hr2 & _ & _ & Hcs2 & Hcc2 & _).
  destruct (current_cycle s2) as [[c cy]|] eqn:Hcur.
  - apply wp_bind. eapply wp_mono; [|by apply (clear_lanes_spec [])].
    intros r s3 (-> & Hj3 & Hf3 & Hl3 & Hst3). rewrite app_nil_r in Hj3.
    assert (JInv [] s3) as Hj3'.
    { apply (jinv_drop_all sch (omap ln_job (cy_lanes cy))); [|by rewrite app_nil_r].
      intros x Hx. rewrite Hst3. apply Hset. rewrite <- Hcs2, <- Hcc2.
      apply current_cycle_Some in Hcur as [-> Hl]. cbn. by rewrite Hl. }
    destruct (current_LFrame _ _ _ _ Hf3 Hcur) as (cy3 & Hcur3 & Hstr).
    apply strip_fields in Hstr as (_ & _ & Hend & _).
    pose proof (Core_LFrame _ _ Hf3 Hc2) as Hc3. pose proof (Idle_LFrame _ _ Hf3 Hi2) as Hi3.
    pose proof Hf3 as ((Hs3 & Hr3 & _) & _). apply wp_now, wp_bind.
    eapply wp_mono; [|eapply (boundaryOrCleanup_spec _ cy c cy3)]; try done.
    + intros r s4 ((b & ->) & Hi4 & Hs4). apply wp_ret. split; [done|]. intros _ _. by apply quiet_status_live.
    + split; [exact Hj3'|]. split; [by apply Core_call|]. split; [|exact Hi3].
      apply Mode_idle; cbn; rewrite ?Hs3, ?Hr3, ?Hs2, ?Hr2, ?Hs1, ?Hr1; try done.
    + right. cbn. congruence.
    + intros Hmo. by apply now_past.
  - pose proof (core_no_current _ Hc2 Hcur) as Hnone. apply wp_ret. split.
    + apply Quiet_Inv. split; [done|]. split; [done|]. split; [|done].
      apply Mode_idle; rewrite ?Hs2, ?Hr2, ?Hs1, ?Hr1, ?Hnone; done.
    + intros _ _. apply quiet_status_live. right. congruence.
Qed.

(** *** Opening a cycle *)

Lemma selectJobs_spec n H s : JInv H s ->
  wp (selectJobs n) (fun r s' => exists sel, r = Ok sel /\ length sel = n /\
    JInv (omap id sel ++ H) s' /\ Frame s s') s.
Proof.
  revert H s. induction n as [|n IH]; intros H s Hj.
  { exists []. split; [done|]. split; [done|]. split; [done|apply Frame_refl]. }
  cbn [selectJobs]. apply wp_bind. unfold dequeue. apply wp_bind, wp_sortQueue, wp_get.
  pose proof (sorted_jinv sch H s Hj) as Hj1. set (s1 := with_queued _ s) in *.
  destruct (cs_queued s1) as [|r q] eqn:Hq.
  - apply wp_ret, wp_bind. eapply wp_mono; [|by apply (IH H s1)].
    intros res s2 (sel & -> & Hlen & Hj2 & Hf2). exists (None :: sel). cbn. split_and!; [done|lia|done|..];
      destruct Hf2 as (? & ? & ? & ?); done.
  - apply wp_modify, wp_ret, wp_bind. eapply wp_mono; [|apply (IH (r :: H))].
    + intros res s2 (sel & -> & Hlen & Hj2 & Hf2). exists (Some r :: sel). split; [done|]. cbn [length].
      split; [lia|]. split; [|by destruct Hf2 as (? & ? & ? & ?)].
      eapply jinv_perm; [|done|exact Hj2]. cbn. symmetry. apply Permutation_middle.
    + apply (jinv_dequeue sch r). unfold CoverInvariant.JInv in Hj1. by rewrite Hq in Hj1.
Qed.

Lemma admit_spec H sel s : JInv H s ->
  wp (for_each sel admitJob) (fun r s' => r = Ok tt /\ JInv H s' /\ Frame s s') s.
Proof.
  intros Hj. assert (forall (x : option nat) e s s', admitJob x s = (Err e, s') -> False) as Hnt by (by intros []).
  eapply wp_mono; [|apply wp_ok; [intros; by eapply for_each_no_throw|apply (job_for_each sch H); try done]].
  - by intros r s' ([[] ->] & ?).
  - intros [r|] _; [|apply job_ret]. apply upd_job; try done. intros j []. by split.
Qed.

Lemma openLanes_spec i a e base sel s :
  wp (openLanes W i a e base sel) (fun r s' => exists lanes failed, r = Ok (lanes, failed) /\
    Frame s s' /\ (forall H, JInv H s -> JInv H s') /\
    (exists rest, omap ln_job lanes ++ rest ≡ₚ omap id sel) /\
    (failed = false -> omap ln_job lanes = omap id sel /\ length lanes = length sel /\
       forall k l, lanes !! k = Some l -> ln_laneIndex l = base + Z.of_nat k)) s.
Proof.
  revert base s. induction sel as [|r sel IH]; intros base s.
  { exists [], false. split; [done|]. split; [apply Frame_refl|]. split; [done|].
    split; [by exists []|done]. }
  cbn [openLanes]. apply wp_get, wp_call, wp_bind. eapply wp_mono; [|apply IH].
  intros res s1 (lanes & failed & -> & Hf & Hj & [rest Hp] & Hok). cbn beta iota.
  assert (Frame s s1) as Hf1 by (eapply Frame_trans; [|exact Hf]; split_and!; cbn; (done || lia)).
  destruct (w_lane W _ _).
  - set (l := Lane _ _ _). exists (l :: lanes), failed. split; [done|]. split; [done|]. split; [exact Hj|].
    split.
    + exists rest. destruct r as [r|]; cbn; by rewrite Hp.
    + intros Hfl. destruct (Hok Hfl) as (Ho & Hl & Hk). split_and!.
      * destruct r as [r|]; cbn; by rewrite Ho.
      * cbn. by rewrite Hl.
      * intros [|k] l' Hlk; cbn in Hlk; [injection Hlk as <-; cbn; lia|]. rewrite (Hk k l' Hlk). lia.
  - exists lanes, true. split; [done|]. split; [done|]. split; [exact Hj|]. split; [|done].
    destruct r as [r|]; cbn; [|by exists rest]. exists (r :: rest). by rewrite <- Permutation_middle, Hp.
Qed.

Lemma requeue_all_spec (sel : list (option nat)) reason s : JInv (omap id sel) s ->
  wp (for_each sel (fun r => match r with Some r => requeue r reason | None => mret tt end))
    (fun r s' => r = Ok tt /\ JInv [] s' /\ Frame s s') s.
Proof.
  intros Hj. eapply wp_mono; [|apply (wp_for_each _ _ (fun rest s' => JInv (omap id rest) s' /\ Frame s s')
    (fun _ => False))].
  - intros [[]|e] s' Hr; [|done]. by destruct Hr.
  - intros [r|] rest s' [Hj' Hf]; [|done].
    eapply wp_mono; [|apply wp_ok; [intros; by eapply requeue_no_throw|apply (requeue_job sch), Hj']].
    intros res s'' ([[] ->] & Hj'' & Hf''). split; [done|by eapply Frame_trans].
  - split; [done|apply Frame_refl].
Qed.

(** A new cycle on the grid after everything that happened. *)
Lemma Core_open cy s : Core s -> cs_cycle s = None -> cycle_ok sch cy ->
  (monotone -> forall c cy', cs_cycles s !! c = Some cy' -> cy_endMs cy' <= cy_startMs cy) ->
  Core (with_cycles (cs_cycles s ++ [cy]) (Some (length (cs_cycles s))) s).
Proof.
  intros [] Hnone Hok Hends.
  assert (forall c cy', (cs_cycles s ++ [cy]) !! c = Some cy' ->
    cs_cycles s !! c = Some cy' \/ c = length (cs_cycles s) /\ cy' = cy) as Hlk.
  { intros c cy' [H|[Hge H]]%lookup_app_Some; [by left|right].
    apply list_lookup_singleton_Some in H as [? <-]. split; [lia|done]. }
  split; cbn [cs_cycles cs_cycle cs_tasks cs_generation cs_nextTask cs_log with_cycles]; try done.
  - intros c cy' [H|[-> ->]]%Hlk; [by eapply k_cycles0|done].
  - intros c [= <-]. rewrite lookup_app_r, Nat.sub_diag by lia. by eexists.
  - intros Hm c cy' [H|[-> ->]]%Hlk Hne; [|done].
    destruct (k_closed0 Hm c cy' H) as [Hp _]; [by rewrite Hnone|]. split; [exact Hp|].
    intros c1 cy1 [Hc1 Hl1]%current_cycle_Some. cbn in Hc1, Hl1. injection Hc1 as <-.
    rewrite lookup_app_r, Nat.sub_diag in Hl1 by lia. injection Hl1 as <-. eauto.
  - intros e0 Hin. specialize (k_sends0 e0 Hin). destruct e0; try done. cbn in *.
    destruct k_sends0 as (c & cy' & o & Hcy & Hrest). exists c, cy', o. split; [|done].
    by apply lookup_app_l_Some.
Qed.

(** Everything that was sent came before the end of some cycle. *)
Lemma sends_ended s t : Core s -> (forall c cy, cs_cycles s !! c = Some cy -> cy_endMs cy <= t) ->
  all_sent_before s t.
Proof using Hsch.
  intros Hc Hends e He. pose proof (k_sends _ _ _ _ Hc e He) as Hs.
  destruct e; cbn in *; try by (unfold sends in He; apply list_elem_of_In, List.filter_In in He as [_ ?]).
  destruct Hs as (c & cy & o & Hcy & Ho & -> & _).
  destruct (k_cycles _ _ _ _ Hc c cy Hcy) as (Hend & _).
  pose proof (deadline_inside sch Hsch (cy_index cy) (cy_startMs cy) (cy_endMs cy) o Ho) as [_ Hd].
  specialize (Hends c cy Hcy). unfold slot_of. lia.
Qed.

Definition boundary_ok (s : Scheduler) (b : Z) : Prop :=
  on_grid sch b /\
  (monotone -> forall c cy, cs_cycles s !! c = Some cy -> cy_endMs cy <= b).

(** The opened cycle, before the lanes are judged. *)
Lemma opened_core s b index lanes : Core s -> cs_cycle s = None -> boundary_ok s b ->
  Core (with_cycles (cs_cycles s ++ [Cycle index b (b + cycleDurationMs sch) lanes 0])
          (Some (length (cs_cycles s))) s).
Proof using Hsch.
  intros Hc Hn [Hg Hends]. apply Core_open; try done. split; [done|]. split; [done|]. cbn.
  destruct (slots_pos sch Hsch). destruct Hsch as (_ & _ & ? & _). unfold totalCycleSlots. nia.
Qed.

Lemma open_failed_spec c cy sel rest s1 : JInv rest s1 -> Core s1 -> cs_status s1 = degraded ->
  cs_running s1 = true -> current_cycle s1 = Some (c, cy) ->
  omap ln_job (cy_lanes cy) ++ rest ≡ₚ omap id sel ->
  wp (for_each (seq 0 (length (cy_lanes cy))) (fun i => upd_lane c i (set_ln_job None));;
      for_each sel (fun r => match r with Some r => requeue r lane_open_failed | None => mret tt end);;
      armCycleBoundary W (cy_endMs cy)) (fun r s' => r = Ok tt /\ Inv s' /\ Live s') s1.
Proof using Hclk.
  intros Hj Hc Hst Hr Hcur Hp. apply wp_bind. eapply wp_mono; [|by apply (clear_lanes_spec rest)].
  intros r s2 (-> & Hj2 & Hf2 & Hl2 & _). apply wp_bind.
  eapply wp_mono; [|apply requeue_all_spec; by eapply jinv_perm].
  intros r s3 (-> & Hj3 & Hf3). pose proof (LFrame_trans _ _ _ Hf2 (Frame_LFrame _ _ Hf3)) as Hf.
  destruct (current_LFrame _ _ _ _ Hf Hcur) as (cy3 & Hcur3 & Hstr).
  apply strip_fields in Hstr as (_ & _ & Hend & _).
  apply Frame_fields in Hf3 as (_ & _ & _ & _ & Hcs3 & Hcc3 & _).
  pose proof Hf as ((Hs3 & Hr3 & _) & _).
  eapply wp_mono; [|apply arm_spec; try done].
  - by intros r s4 (-> & ? & ? & _).
  - by eapply Core_LFrame.
  - apply Mode_idle; rewrite ?Hs3, ?Hr3, ?Hcs3, ?Hcc3, ?Hst, ?Hr; done.
  - exists c, cy3. by rewrite Hend.
Qed.

Lemma open_active_spec gen c cy s : JInv [] s -> Core s -> cs_status s = active ->
  cs_running s = true -> gen = cs_generation s -> current_cycle s = Some (c, cy) ->
  lanes_full sch cy -> cy_nextSlotOrdinal cy = 0 -> (monotone -> all_sent_before s (cy_startMs cy)) ->
  wp (if negb (gen =? cs_generation s) || negb (bool_decide (cs_status s = active))
        || negb (bool_decide ((fun p => cy_index p.2) <$> current_cycle s = Some (cy_index cy)))
      then mret tt else armSlot W sch cy) (fun r s' => r = Ok tt /\ Inv s' /\ Live s') s.
Proof using Hclk Hsch.
  intros Hj Hc Hst Hr -> Hcur Hfull Hord Hsent.
  rewrite Z.eqb_refl, Hcur, !bool_decide_true by done. cbn [negb orb].
  assert (0 <= cy_nextSlotOrdinal cy < totalCycleSlots sch) as Hlt.
  { rewrite Hord. destruct (slots_pos sch Hsch). destruct Hsch as (_ & _ & ? & _).
    unfold totalCycleSlots. nia. }
  eapply wp_mono; [|unfold armSlot; apply arm_spec; try done].
  - by intros r s6 (-> & ? & ? & _).
  - split; [by rewrite Hst|done|]. intros _. by exists c, cy.
  - exists c. split; [|split; [done|]].
    + split; [done|]. exists cy. split; [done|]. split; [done|lia].
    + intros Hmo e He. specialize (Hsent Hmo e He).
      destruct (deadline_inside sch Hsch (cy_index cy) (cy_startMs cy) (cy_endMs cy) _ Hlt). lia.
Qed.

Lemma openCycle_spec b gen s : JInv [] s -> Core s -> Idle s ->
  cs_running s = negb (bool_decide (cs_status s = stopped)) ->
  cs_cycle s = None -> boundary_ok s b -> gen = cs_generation s ->
  wp (openCycle W sch b gen) (fun r s' => match r with
    | Ok _ => Inv s' /\ Live s'
    | Err _ => s' = s /\ cs_status s <> stopped /\ cs_status s <> suspended
    end) s.
Proof using Hclk Hsch.
  intros Hj Hc Hi Hm Hnone Hb ->. unfold openCycle. apply wp_get. rewrite Z.eqb_refl. cbn [negb orb].
  destruct (_ || _) eqn:Hearly.
  { assert (cs_status s = suspended \/ cs_status s = stopped) as Hst.
    { rewrite Hm in Hearly. destruct (cs_status s); cbn in Hearly; try done; auto. }
    apply wp_ret. split; [|by apply quiet_status_live]. apply Quiet_Inv. do 2 (split; [done|]). split; [|done].
    apply Mode_idle; [done| |by rewrite Hnone]. destruct Hst as [->| ->]; done. }
  apply orb_false_iff in Hearly as [[Hrun Hns]%orb_false_iff Hnsu].
  apply bool_decide_eq_false in Hns, Hnsu.
  apply negb_false_iff in Hrun. apply wp_bind. unfold throwing_boundary.
  destruct (cycleIndexAtBoundary sch b) as [index|]; [|done].
  apply wp_ret. cbv zeta. apply wp_require; intros Hsafe; [|done].
  apply wp_bind.
  eapply wp_mono; [|by apply (selectJobs_spec _ [])]. intros r s1 (sel & -> & Hlen & Hj1 & Hf1).
  rewrite app_nil_r in Hj1. apply wp_bind. eapply wp_mono; [|by apply admit_spec].
  intros r s2 (-> & Hj2 & Hf2). apply wp_bind. eapply wp_mono; [|apply openLanes_spec].
  intros r s3 (lanes & failed & -> & Hf3 & Hj3 & [rest Hp] & Hok). apply wp_get, wp_modify.
  specialize (Hj3 _ Hj2). pose proof (Frame_trans _ _ _ (Frame_trans _ _ _ Hf1 Hf2) Hf3) as Hf.
  pose proof (Core_Frame _ _ _ _ _ Hf Hc) as Hc3.
  pose proof (Frame_fields _ _ Hf) as (Hst3 & Hr3 & Hg3 & Ht3 & Hcs3 & Hcc3 & Htk3 & _).
  rewrite Hnone in Hcc3.
  assert (boundary_ok s3 b) as Hb3 by (destruct Hb; split; by rewrite ?Hcs3).
  pose proof (opened_core s3 b index lanes Hc3 Hcc3 Hb3) as Hc4.
  set (cy := Cycle index b _ lanes 0) in *. set (s4 := with_cycles _ _ s3) in *.
  assert (current_cycle s4 = Some (length (cs_cycles s3), cy)) as Hcur4.
  { apply current_cycle_Some. split; [done|]. cbn. by rewrite lookup_app_r, Nat.sub_diag by lia. }
  assert (forall rest', omap ln_job lanes ++ rest' ≡ₚ omap id sel -> JInv rest' s4) as Hj4.
  { intros rest' Hp'. apply (jinv_open sch cy (omap id sel) rest'); [exact Hp'|].
    unfold CoverInvariant.JInv in Hj3. by rewrite Hcc3 in Hj3. }
  destruct failed.
  - apply setStatus_wp. intros s5 Hre.
    eapply wp_mono; [|apply (open_failed_spec (length (cs_cycles s3)) cy sel rest s5); try done].
    + by intros r s6 (-> & ? & ?).
    + eapply Restatus_jobs; [exact Hre|]. by apply Hj4.
    + by eapply Restatus_core.
    + by destruct Hre as (lg & -> & _).
    + destruct Hre as (lg & -> & _). cbn. congruence.
    + destruct Hre as (lg & -> & _). exact Hcur4.
  - apply setStatus_wp. intros s5 Hre. apply wp_get.
    assert (JInv [] s5) as Hj5.
    { eapply Restatus_jobs; [exact Hre|]. apply Hj4. rewrite app_nil_r. by rewrite (proj1 (Hok eq_refl)). }
    pose proof (Restatus_core _ _ _ Hre Hc4) as Hc5.
    destruct Hre as (lg & -> & Hsl & _).
    eapply wp_mono; [|apply (open_active_spec _ (length (cs_cycles s3)) cy); try done].
    + by intros r s6 (-> & ? & ?).
    + cbn. congruence.
    + destruct (Hok eq_refl) as (_ & Hl & Hk). split; [cbn; congruence|].
      intros i l Hil. rewrite (Hk i l Hil). lia.
    + intros Hmo e He. apply (sends_ended s3); try done; [by apply Hb3|]. change (e ∈ sends (cs_log s4)). rewrite <- Hsl. exact He.
Qed.

(** [openCycle(...).catch(() => this.suspend("boundary-handler-failed"))]. *)
Lemma open_or_suspend b gen s : JInv [] s -> Core s -> Idle s ->
  cs_running s = negb (bool_decide (cs_status s = stopped)) ->
  cs_cycle s = None -> boundary_ok s b -> gen = cs_generation s ->
  wp (try_catch (openCycle W sch b gen) (suspend W "boundary-handler-failed";; mret tt))
    (fun r s' => Inv s' /\ (is_ok r = true -> Live s')) s.
Proof using Hclk Hsch.
  intros Hj Hc Hi Hm Hn Hb Hg. apply wp_try. eapply wp_mono; [|by apply openCycle_spec].
  intros [[]|e] s'; [intros [? ?]; by split|]. intros (-> & Hs1 & Hs2). apply wp_bind.
  eapply wp_mono; [|apply suspend_spec; try done; by intros [?|?]].
  by intros [b'|e'] s1 [Hi1 Hl1].
Qed.

Lemma handleCycleBoundary_spec b c cy s : JInv [] s -> Core s -> Idle s -> Mode s ->
  current_cycle s = Some (c, cy) -> cy_endMs cy = b -> (monotone -> past clk s b) ->
  wp (handleCycleBoundary W sch b) (fun r s' => Inv s' /\ (is_ok r = true -> Live s')) s.
Proof using Hclk Hsch.
  intros Hj Hc Hi Hm Hcur <- Hp. unfold handleCycleBoundary. apply wp_get. rewrite Hcur, Z.eqb_refl.
  cbn [negb]. apply wp_bind. eapply wp_mono; [|by apply (finalizeCycleJobs_spec W sch)].
  intros r s1 (-> & Hj1 & Hf1 & Hl1). pose proof (Core_LFrame _ _ Hf1 Hc) as Hc1.
  pose proof (Idle_LFrame _ _ Hf1 Hi) as Hi1.
  destruct (current_LFrame _ _ _ _ Hf1 Hcur) as (cy1 & Hcur1 & Hstr).
  apply strip_fields in Hstr as (_ & Hstart & Hend & _).
  assert (monotone -> past clk s1 (cy_endMs cy1)) as Hp1.
  { intros Hmo. rewrite Hend. destruct Hf1 as (_ & _ & Hn & _). eapply past_mono; eauto. }
  apply wp_bind. eapply wp_mono; [|apply (closeCurrentCycle_spec W sch boundary s1 Hj1 Hl1); by apply Hc1].
  intros r s2 ((clean & ->) & Hj2 & s1' & Hf2 & ->).
  assert (Core (with_cycles (cs_cycles s1) None s1')) as Hc2.
  { apply (Core_close s1); try done. intros Hmo c' cy' Hc'. rewrite Hcur1 in Hc'. injection Hc' as <- <-. auto. }
  pose proof (Idle_LFrame _ _ (Frame_LFrame _ _ Hf2) Hi1) as Hi2.
  apply Frame_fields in Hf2 as (Hs2 & Hr2 & _). pose proof Hf1 as ((Hs1 & Hr1 & _) & _).
  set (s2 := with_cycles _ None s1') in *. apply wp_get.
  assert (cs_running s2 = negb (bool_decide (cs_status s2 = stopped))) as Hrun.
  { cbn. rewrite Hr2, Hs2, Hr1, Hs1. apply Hm. }
  assert (monotone -> forall c' cy', cs_cycles s2 !! c' = Some cy' -> cy_endMs cy' <= cy_endMs cy1) as Hends.
  { intros Hmo c' cy' Hcy'. cbn in Hcy'. apply current_cycle_Some in Hcur1 as [Hcc1 Hcl1].
    destruct (decide (c' = c)) as [->|Hne]; [rewrite Hcl1 in Hcy'; by injection Hcy' as <-|].
    destruct (k_closed _ _ _ _ Hc1 Hmo c' cy' Hcy') as [_ Ho]; [congruence|].
    specialize (Ho c cy1 ltac:(by apply current_cycle_Some)).
    destruct (k_cycles _ _ _ _ Hc1 c cy1 Hcl1) as (He & _). pose proof (duration_pos sch Hsch). lia. }
  destruct clean; cbn [negb].
  - destruct (_ || _) eqn:Hearly.
    { apply wp_ret. assert (cs_status s2 = suspended \/ cs_status s2 = stopped) as Hst.
      { rewrite Hrun in Hearly. destruct (cs_status s2); cbn in Hearly; try done; auto. }
      split; [|intros _; by apply quiet_status_live]. apply Quiet_Inv. split; [done|]. split; [done|].
      split; [|exact Hi2]. apply Mode_idle; [done| |done]. destruct Hst as [->| ->]; done. }
    apply open_or_suspend; try done. rewrite <- Hend. split; [|exact Hends].
    apply current_cycle_Some in Hcur1 as [_ Hcl1].
    destruct (k_cycles _ _ _ _ Hc1 c cy1 Hcl1) as (He & [k Hk] & _). exists (k + 1). rewrite He, Hk. lia.
  - apply wp_bind. rewrite <- Hend in Hp. destruct (bool_decide (cs_status s2 = stopped)) eqn:Hst.
    + apply wp_ret. rewrite Hrun. cbn [negb]. apply bool_decide_eq_true in Hst. apply wp_ret.
      split; [|intros _; apply quiet_status_live; auto]. apply Quiet_Inv. split; [done|]. split; [done|].
      split; [|exact Hi2]. apply Mode_idle; [by rewrite Hrun, bool_decide_true|by rewrite Hst|done].
    + rewrite Hrun. cbn [negb]. apply bool_decide_eq_false in Hst. apply wp_unbind, setStatus_wp.
      intros s3 Hre. pose proof (Restatus_jobs _ [] _ _ Hre Hj2) as Hj3.
      pose proof (Restatus_core _ _ _ Hre Hc2) as Hc3. pose proof (Idle_Restatus _ _ _ Hre Hi2) as Hi3.
      destruct Hre as (lg & -> & _). apply wp_now.
      apply armNextCycle_spec; try done; [|by right|].
      * split; [exact Hj3|]. split; [exact (Core_call _ Hc3)|]. split; [|exact Hi3].
        by apply Mode_idle.
      * intros Hmo c' cy' Hcy'. specialize (Hends Hmo c' cy' Hcy'). cbn in Hcy'.
        destruct (k_closed _ _ _ _ Hc2 Hmo c' cy' Hcy') as [Hp' _]; [done|]. by apply Hp'.
Qed.

(** *** Suspended sends *)

Definition awaits_send (st : Stage) : bool := match st with AwaitSend _ => true | _ => false end.

Lemma requestForSlot_stage s lane slot :
  stage_slot slot (requestForSlot s lane slot) /\ awaits_send (requestForSlot s lane slot) = false.
Proof.
  unfold requestForSlot. destruct (deref s _) as [[r j]|]; [|done].
  destruct (rt_settled j); [done|]. destruct (_ && _).
  - by destruct (rt_pendingCancelCell j).
  - destruct (_ && _); [|done]. by destruct (rt_pendingCell j).
Qed.

(** Putting a task: every other task must be stale when the new one is current. *)
Lemma Core_tasks s k t n : Core s -> tk_generation t <= cs_generation s -> (k < n)%nat ->
  (cs_nextTask s <= n)%nat -> stage_slot (tk_slot t) (tk_stage t) ->
  Core (with_tasks (<[k := t]> (cs_tasks s)) n s).
Proof.
  intros [] Hg Hk Hn Hst. split; try done. intros k' t'. cbn.
  intros [[-> ->]|[Hne Hl]]%lookup_insert_Some; [done|].
  destruct (k_tasks0 k' t' Hl) as (? & ? & ?). split_and!; [done|lia|done].
Qed.

Lemma Armed_tasks s k t n : cs_timer s = None ->
  (forall k' t', cs_tasks s !! k' = Some t' -> tk_generation t' = cs_generation s -> k' = k) ->
  (tk_generation t = cs_generation s -> task_ok sch clk s t) ->
  Armed (with_tasks (<[k := t]> (cs_tasks s)) n s).
Proof.
  intros Ht Ho Hok. split; cbn.
  - congruence.
  - intros k' t' [[-> ->]|[Hne Hl]]%lookup_insert_Some Hg; [exact (Hok Hg)|].
    destruct Hne. by rewrite (Ho k' t' Hl Hg).
  - intros k1 k2 t1 t2 H1 H2 Hg1 Hg2.
    assert (forall k' t', <[k:=t]> (cs_tasks s) !! k' = Some t' -> tk_generation t' = cs_generation s -> k' = k) as Hk.
    { intros k' t' [[-> ->]|[Hne Hl]]%lookup_insert_Some Hg; [done|by eapply Ho]. }
    by rewrite (Hk _ _ H1 Hg1), (Hk _ _ H2 Hg2).
Qed.

Lemma Inv_drop k s : Inv s -> Inv (with_tasks (delete k (cs_tasks s)) (cs_nextTask s) s).
Proof.
  intros [Hj [] Hm []]. split; [exact Hj| |by apply (Mode_ext sch s)|].
  - split; try done. intros k' t'. cbn. intros [_ Hl]%lookup_delete_Some. eauto.
  - split; cbn.
    + exact a_timer0.
    + intros k' t' [_ Hl]%lookup_delete_Some. exact (a_task0 k' t' Hl).
    + intros k1 k2 t1 t2 [_ H1]%lookup_delete_Some [_ H2]%lookup_delete_Some. exact (a_one0 k1 k2 t1 t2 H1 H2).
Qed.

Lemma Live_drop_stale k t s : cs_tasks s !! k = Some t -> tk_generation t <> cs_generation s ->
  Live s -> Live (with_tasks (delete k (cs_tasks s)) (cs_nextTask s) s).
Proof.
  intros Hk Hne Hl Hst. destruct (Hl Hst) as [Ht|(k' & t' & Hk' & Hg)]; [by left|right].
  exists k', t'. split; [|done]. cbn. apply lookup_delete_Some. split; [|done]. intros ->. congruence.
Qed.

(** A suspended send moves to a later stage before its send. *)
Lemma set_stage_spec k t st s : Inv s -> cs_tasks s !! k = Some t ->
  awaits_send (tk_stage t) = false -> awaits_send st = false -> stage_slot (tk_slot t) st ->
  wp (set_task k (next_stage t st)) (good s) s.
Proof.
  intros [Hj Hc Hm Ha] Hk Ho Hn Hst. destruct (k_tasks _ _ _ _ Hc k t Hk) as (Hg & Hlt & _).
  assert (Inv (with_tasks (<[k:=next_stage t st]> (cs_tasks s)) (cs_nextTask s) s)) as HI.
  { split; [exact Hj|by apply Core_tasks|by apply (Mode_ext sch s)|].
    destruct (decide (tk_generation t = cs_generation s)) as [Hcur|Hstale].
    - destruct (a_task _ _ _ Ha k t Hk Hcur) as (Ht & Hns & Hp & Hs). apply Armed_tasks; [done| |].
      + intros k' t' Hl' Hg'. exact (a_one _ _ _ Ha k' k t' t Hl' Hk Hg' Hcur).
      + intros _. do 2 (split; [done|]). split; [done|]. intros Hmo. specialize (Hs Hmo).
        cbn. destruct (tk_stage t), st; done.
    - destruct Ha. split; cbn.
      + exact a_timer0.
      + intros k' t' [[<- <-]|[Hne Hl]]%lookup_insert_Some Hg'; [by destruct Hstale|exact (a_task0 k' t' Hl Hg')].
      + intros k1 k2 t1 t2 H1 H2 Hg1 Hg2.
        apply lookup_insert_Some in H1 as [[<- <-]|[_ H1]]; [by destruct Hstale|].
        apply lookup_insert_Some in H2 as [[<- <-]|[_ H2]]; [by destruct Hstale|].
        exact (a_one0 k1 k2 t1 t2 H1 H2 Hg1 Hg2). }
  split; [exact HI|]. intros _ Hl Hsta. destruct (Hl Hsta) as [Ht|(k' & t' & Hk' & Hg')]; [by left|right].
  destruct (decide (k = k')) as [<-|Hne].
  - exists k, (next_stage t st). cbn. rewrite lookup_insert_eq. split; [done|]. cbn. congruence.
  - exists k', t'. cbn. by rewrite lookup_insert_ne.
Qed.

Lemma sendSlot_spec slot c gen s : JInv [] s -> Core s -> Mode s -> Idle s ->
  gen = cs_generation s -> next_slot sch s c slot -> (monotone -> past clk s (deadlineMs slot)) ->
  (monotone -> all_sent_before s (deadlineMs slot)) ->
  wp (sendSlot W sch slot gen) (fun r s' => r = Ok tt /\ Inv s' /\ Live s') s.
Proof using Hsch.
  intros Hj Hc Hm Hi -> Hns Hp Hb. pose proof Hns as (Hst & cy & Hcur & Hslot & Hlt).
  unfold sendSlot. apply wp_get. rewrite Hcur, Z.eqb_refl, bool_decide_true by done. cbn [negb orb].
  destruct (m_active _ _ Hm Hst) as (c' & cy' & Hcur' & Hlen & Hidx).
  rewrite Hcur in Hcur'. injection Hcur' as <- <-.
  pose proof Hcur as [_ Hcy]%current_cycle_Some. destruct (k_cycles _ _ _ _ Hc c cy Hcy) as (_ & _ & Hord).
  assert (exists l, cy_lanes cy !! Z.to_nat (slot_laneIndex slot) = Some l /\
            ln_laneIndex l = slot_laneIndex slot) as (l & Hl & Hli).
  { destruct (slot_position_unique sch Hsch (cy_index cy) (cy_startMs cy) (cy_endMs cy)
      (cy_nextSlotOrdinal cy) ltac:(lia)) as (_ & Hr & _).
    rewrite Hslot. unfold slot_of.
    set (ix := slot_laneIndex _) in *.
    destruct (lookup_lt_is_Some_2 (cy_lanes cy) (Z.to_nat ix) ltac:(lia)) as [l Hl].
    exists l. split; [done|]. rewrite (Hidx _ _ Hl). lia. }
  destruct (list_find _ (cy_lanes cy)) as [[i lane]|] eqn:Hfind.
  2: { apply list_find_None in Hfind. rewrite Forall_forall in Hfind.
       destruct (Hfind l); [by eapply list_elem_of_lookup_2|done]. }
  set (t := {| tk_stage := _ |}). destruct (requestForSlot_stage s lane slot) as [Hss Hnaw].
  split; [done|]. destruct Hi as [Hti Hst'].
  assert (task_ok sch clk s t) as Htok.
  { do 2 (split; [done|]). split; [done|]. intros Hmo. unfold t. cbn.
    destruct (requestForSlot s lane slot); (done || exact (Hb Hmo)). }
  split.
  - split; [exact Hj|apply Core_tasks; try done; lia|by apply (Mode_ext sch s)|].
    apply Armed_tasks; try done. intros k' t' Hl' Hg'. specialize (Hst' _ _ Hl'). lia.
  - intros _. right. exists (cs_nextTask s), t. cbn. by rewrite lookup_insert_eq.
Qed.

(** Recording a send at its deadline, after everything sent before. *)
Lemma Core_send s req now c cy o : Core s -> cs_cycles s !! c = Some cy ->
  0 <= o < totalCycleSlots sch -> req_slot req = slot_of sch cy o ->
  now <= deadlineMs (req_slot req) + drift -> (monotone -> deadlineMs (req_slot req) <= now) ->
  (monotone -> all_sent_before s (deadlineMs (req_slot req))) ->
  Core (with_log (CellSent req now) s).
Proof.
  intros [] Hcy Ho Hr Hn Hm Hb.
  assert (sends (cs_log s ++ [CellSent req now]) = sends (cs_log s) ++ [CellSent req now]) as Hs.
  { unfold sends. by rewrite List.filter_app. }
  split; cbn [cs_cycles cs_cycle cs_tasks cs_generation cs_nextTask cs_log with_log]; rewrite ?Hs; try done.
  - intros e [He| ->%list_elem_of_singleton]%elem_of_app; [by apply k_sends0|].
    exists c, cy, o. split_and!; try done; lia.
  - intros Hmo. rewrite fmap_app. apply StronglySorted_app_2.
    + intros x y (e & -> & He)%list_elem_of_fmap Hy. cbn in Hy. apply list_elem_of_singleton in Hy as ->.
      by apply (Hb Hmo).
    + by apply k_sorted0.
    + constructor; [constructor|done].
Qed.

Lemma sendRequest_spec k t req s : Inv s -> cs_tasks s !! k = Some t -> tk_stage t = AwaitRequest req ->
  wp (sendRequest W sch drift k t req) (good s) s.
Proof using Hclk Hsch.
  intros HI Hk Hst. pose proof HI as [Hj Hc Hm Ha]. unfold sendRequest. apply wp_get.
  pose proof (Inv_drop k s HI) as HI1. set (s1 := with_tasks (delete k _) _ s) in *.
  destruct (k_tasks _ _ _ _ Hc k t Hk) as (Hg & Hkn & Hss). rewrite Hst in Hss. cbn in Hss.
  destruct (Z.eqb_spec (tk_generation t) (cs_generation s)) as [Hcur|Hstale]; cbn [negb].
  2: { apply wp_modify. change (wp (cacheUnsent t req) (good s) s1).
       eapply wp_mono; [|apply (job_method_Inv sch drift clk _ s1 (cacheUnsent_job sch [] t req) HI1)].
       intros r s2 [? Hl]. split; [done|]. intros _ HL. by apply Hl, (Live_drop_stale k t). }
  destruct (a_task _ _ _ Ha k t Hk Hcur) as (Hti & Hns & Hp & Hb). rewrite Hst in Hb.
  apply wp_modify. change (with_tasks (delete k (cs_tasks s)) (cs_nextTask s) s) with s1. apply wp_now.
  assert (Inv (with_call s1)) as HI2.
  { destruct HI1. split; [done|by apply Core_call|by apply (Mode_ext sch s1)|].
    apply (Armed_Frame sch clk s1); [|done]. split_and!; cbn; try done; lia. }
  destruct (Z.ltb_spec (deadlineMs (tk_slot t) + drift) (clk (cs_calls s1))) as [Hlate|Hin].
  - apply wp_bind. eapply wp_mono; [|apply wp_ok; [intros; by eapply cacheUnsent_no_throw|
      apply (job_method_Inv sch drift clk _ _ (cacheUnsent_job sch [] t req) HI2)]].
    intros r s3 ([[] ->] & HI3 & _). eapply wp_mono; [|by apply degrade_spec].
    intros r s4 [? Hl]. split; [done|]. intros ? _. by apply Hl.
  - apply wp_modify. set (s2 := with_log _ (with_call s1)).
    destruct Hns as (Hact & cy & Hcy & Hslot & Hlt). pose proof Hcy as [_ Hcyl]%current_cycle_Some.
    destruct (k_cycles _ _ _ _ Hc _ _ Hcyl) as (_ & _ & Hord).
    assert (Core s2) as Hc2.
    { apply (Core_send (with_call s1) req _ (tk_cycle t) cy (cy_nextSlotOrdinal cy));
        [apply HI2|exact Hcyl|lia|congruence|rewrite Hss; lia|rewrite Hss..].
      - intros Hmo. by apply (Hp Hmo).
      - exact Hb. }
    set (t' := {| tk_stage := _ |}).
    assert (task_ok sch clk s2 t') as Htok.
    { split; [done|]. split; [split; [done|]; by exists cy|]. split.
      - intros Hmo n Hn. apply (Hp Hmo). cbn in Hn. lia.
      - intros Hmo e He. cbn in He. unfold sends in He. rewrite List.filter_app in He.
        apply elem_of_app in He as [He|He]; [apply Z.lt_le_incl, (Hb Hmo e He)|].
        cbn in He. apply list_elem_of_singleton in He as ->. cbn. by rewrite Hss. }
    split.
    + split.
      * apply (jinv_log sch); [done|]. apply HI2.
      * apply (Core_tasks s2 k t'); try done; cbn; lia.
      * by apply (Mode_ext sch s).
      * apply (Armed_tasks s2 k t'); try done. cbn. intros k' t1 [Hne Hl]%lookup_delete_Some Hg1.
        exact (a_one _ _ _ Ha k' k t1 t Hl Hk Hg1 Hcur).
    + intros _ _ _. right. exists k, t'. cbn. by rewrite lookup_insert_eq.
Qed.

(** The next ordinal. *)
Lemma Core_ordinal c cy n s : Core s -> cs_cycles s !! c = Some cy -> 0 <= n <= totalCycleSlots sch ->
  Core (with_cycles (alter (fun _ => set_ordinal n cy) c (cs_cycles s)) (cs_cycle s) s).
Proof.
  intros [] Hcy Hn.
  assert (forall c' cy', alter (fun _ => set_ordinal n cy) c (cs_cycles s) !! c' = Some cy' ->
    exists cy0, cs_cycles s !! c' = Some cy0 /\ cy_index cy' = cy_index cy0 /\
      cy_startMs cy' = cy_startMs cy0 /\ cy_endMs cy' = cy_endMs cy0 /\
      0 <= cy_nextSlotOrdinal cy' <= totalCycleSlots sch) as Hinv.
  { intros c' cy' Hl. rewrite list_lookup_alter in Hl. case_decide; [subst c'|].
    - rewrite Hcy in Hl. injection Hl as <-. exists cy. cbn. split_and!; (done || lia).
    - exists cy'. destruct (k_cycles0 _ _ Hl) as (_ & _ & ?). split_and!; (done || lia). }
  assert (forall c' cy0, cs_cycles s !! c' = Some cy0 ->
    exists cy', alter (fun _ => set_ordinal n cy) c (cs_cycles s) !! c' = Some cy' /\
      cy_index cy' = cy_index cy0 /\ cy_startMs cy' = cy_startMs cy0 /\ cy_endMs cy' = cy_endMs cy0) as Hfwd.
  { intros c' cy0 Hl. rewrite list_lookup_alter. case_decide; [subst c'|by exists cy0].
    rewrite Hcy in Hl |- *. injection Hl as <-. by eexists. }
  split; cbn [cs_cycles cs_cycle cs_tasks cs_generation cs_nextTask cs_log with_cycles]; try done.
  - intros c' cy' (cy0 & Hl & Hx & Hst & He & Ho)%Hinv. destruct (k_cycles0 _ _ Hl) as (H1 & H2 & _).
    split_and!; [congruence|by rewrite Hst|lia..].
  - intros c' Hc'. destruct (k_cycle0 c' Hc') as [cy0 Hl]. destruct (Hfwd _ _ Hl) as (cy' & ? & _). by exists cy'.
  - intros Hmo c' cy' (cy0 & Hl & Hx & Hst & He & Ho)%Hinv Hne. rewrite He.
    destruct (k_closed0 Hmo c' cy0 Hl Hne) as [Hp Hle]. split; [exact Hp|].
    intros c1 cy1 [Hc1 (cy2 & Hl2 & _ & Hst2 & _)%Hinv]%current_cycle_Some. rewrite Hst2.
    eapply Hle. by apply current_cycle_Some.
  - intros e Hin. specialize (k_sends0 e Hin). destruct e; try done. cbn in *.
    destruct k_sends0 as (c' & cy0 & o & Hl & Ho & Hsl & Hw).
    destruct (Hfwd _ _ Hl) as (cy' & Hl' & Hx & Hst & He). exists c', cy', o. do 2 (split; [done|]).
    split; [|done]. rewrite Hsl. unfold slot_of. congruence.
Qed.

Lemma advanceSlot_spec t s : Inv s -> (tk_generation t = cs_generation s ->
    next_slot sch s (tk_cycle t) (tk_slot t) /\ (monotone -> all_sent_until s (deadlineMs (tk_slot t)))) ->
  wp (advanceSlot W sch t) (fun r s' => Inv s' /\
    (tk_generation t <> cs_generation s -> Live s -> Live s') /\
    (tk_generation t = cs_generation s -> Live s')) s.
Proof using Hclk Hsch.
  intros HI Hcur. pose proof HI as [Hj Hc Hm Ha]. unfold advanceSlot. apply wp_get.
  destruct (Z.eqb_spec (tk_generation t) (cs_generation s)) as [Hg|Hg]; cbn [negb orb]; [|by split_and!].
  destruct (Hcur Hg) as ((Hact & cy & Hcy & Hslot & Hlt) & Hu). clear Hcur.
  pose proof Hcy as [Hcc Hcl]%current_cycle_Some. rewrite bool_decide_true by done. cbn [negb].
  rewrite Hcl. cbv zeta. apply wp_modify. destruct (k_cycles _ _ _ _ Hc _ _ Hcl) as (_ & _ & Hord).
  pose proof (Core_ordinal _ _ (cy_nextSlotOrdinal cy + 1) s Hc Hcl ltac:(lia)) as Hc1.
  set (cy1 := set_ordinal _ cy) in *. set (s1 := with_cycles _ _ s) in *.
  assert (current_cycle s1 = Some (tk_cycle t, cy1)) as Hcur1.
  { apply current_cycle_Some. split; [done|]. cbn. by rewrite list_lookup_alter_eq, Hcl. }
  assert (JInv [] s1) as Hj1.
  { apply jinv_same_lanes; [|exact Hj]. intros cy0 Hcy0. rewrite Hcl in Hcy0. by injection Hcy0 as <-. }
  assert (Mode s1) as Hm1.
  { destruct (m_active _ _ Hm Hact) as (c0 & cy0 & Hcur0 & Hfull). rewrite Hcy in Hcur0.
    injection Hcur0 as <- <-. split; [apply Hm|by intros []|]. intros _. by exists (tk_cycle t), cy1. }
  destruct (Z.ltb_spec (cy_nextSlotOrdinal cy1) (totalCycleSlots sch)) as [Hl|Hl].
  - eapply wp_mono; [|unfold armSlot; apply (arm_spec _ (slot_timer _) s1 Hj1 Hc1 Hm1)].
    + by intros r s2 (-> & ? & ? & _).
    + exists (tk_cycle t). split; [split; [done|]; by exists cy1|]. split; [done|].
      intros Hmo e He. specialize (Hu Hmo e He). rewrite Hslot in Hu.
      pose proof (deadline_step sch Hsch (cy_index cy) (cy_startMs cy) (cy_endMs cy)
        (cy_nextSlotOrdinal cy) (cy_nextSlotOrdinal cy + 1) ltac:(lia)) as Hd.
      pose proof (spacing_floor sch Hsch). unfold slot_of in Hu.
      cbn [cy1 set_ordinal cy_index cy_startMs cy_endMs cy_nextSlotOrdinal]. lia.
  - eapply wp_mono; [|apply (arm_spec _ cycle_boundary s1 Hj1 Hc1 Hm1); by exists (tk_cycle t), cy1].
    by intros r s2 (-> & ? & ? & _).
Qed.

Lemma drop_then_degrade k reason (c : sched unit) s : Inv s -> job_method sch [] [] c ->
  (forall e s s', c s = (Err e, s') -> False) ->
  wp (drop_task k;; c;; degrade W sch reason) (good s) s.
Proof using Hclk Hsch.
  intros HI Hc Hnt. apply wp_modify, wp_bind.
  eapply wp_mono; [|apply wp_ok; [intros; by eapply Hnt|by apply (job_method_Inv sch drift clk), Inv_drop]].
  intros r s1 ([[] ->] & HI1 & _). eapply wp_mono; [|by apply degrade_spec].
  intros r s2 [? Hl]. split; [done|]. intros ? _. by apply Hl.
Qed.

Lemma production_failed_spec k s : Inv s -> wp (production_failed W sch k) (good s) s.
Proof using Hclk Hsch.
  intros HI. apply wp_modify. eapply wp_mono; [|by apply degrade_spec, Inv_drop].
  intros r s2 [? Hl]. split; [done|]. intros ? _. by apply Hl.
Qed.

Lemma accepted_spec k t req s : Inv s -> cs_tasks s !! k = Some t -> tk_stage t = AwaitSend req ->
  wp (drop_task k;; acceptSent W sch t req;; advanceSlot W sch t) (good s) s.
Proof using Hclk Hsch.
  intros HI Hk Hst. apply wp_modify, wp_bind.
  assert (tk_generation t = cs_generation s ->
    next_slot sch s (tk_cycle t) (tk_slot t) /\ (monotone -> all_sent_until s (deadlineMs (tk_slot t)))) as Hcur.
  { intros Hg. destruct (a_task _ _ _ (i_armed _ _ _ _ HI) k t Hk Hg) as (_ & ? & _ & Hu).
    rewrite Hst in Hu. done. }
  pose proof (Inv_drop k s HI) as HI1. set (s1 := with_tasks _ _ s) in *.
  eapply wp_mono; [|apply wp_ok; [intros; by eapply acceptSent_no_throw|]].
  2: { pose proof (acceptSent_job W sch [] t req s1 (i_jobs _ _ _ _ HI1)) as H1.
       pose proof (job_method_Inv sch drift clk _ s1 (acceptSent_job W sch [] t req) HI1) as H2.
       exact (wp_and _ _ _ _ H1 H2). }
  intros r s2 ([[] ->] & (_ & Hf) & HI2 & Hl2).
  eapply wp_mono; [|apply (advanceSlot_spec t s2 HI2)].
  - intros r s3 (HI3 & Hstale & Hlive). split; [done|]. intros _ HL.
    apply Frame_fields in Hf as (_ & _ & Hg & _).
    destruct (decide (tk_generation t = cs_generation s2)) as [|Hne]; [by apply Hlive|].
    apply Hstale; [done|]. apply Hl2. apply (Live_drop_stale k t); try done. by rewrite Hg in Hne.
  - pose proof Hf as (_ & _ & Hg & _ & _ & _ & _ & _ & Hse & _)%Frame_fields. rewrite Hg. intros Hgen.
    destruct (Hcur Hgen) as [Hns Hu]. split; [by apply (next_slot_Frame sch s1)|].
    intros Hmo e He. rewrite Hse in He. exact (Hu Hmo e He).
Qed.

Lemma resumeTask_spec k t a s : Inv s -> cs_tasks s !! k = Some t ->
  wp (resumeTask W sch drift k t a) (good s) s.
Proof using Hclk Hsch.
  intros HI Hk. unfold resumeTask. apply wp_get.
  assert (forall e s s', (mret tt : sched unit) s = (Err e, s') -> False) as Hret by done.
  destruct (tk_stage t) as [r|r|r|req|req] eqn:Hst, a;
    try (by split); try (by apply production_failed_spec).
  - destruct (cs_store s !! r); [|by split]. apply set_stage_spec; by rewrite ?Hst.
  - destruct (cs_store s !! r); [|by split]. apply set_stage_spec; by rewrite ?Hst.
  - apply set_stage_spec; by rewrite ?Hst.
  - apply set_stage_spec; by rewrite ?Hst.
  - by apply sendRequest_spec.
  - apply drop_then_degrade; [done|apply cacheUnsent_job|intros; by eapply cacheUnsent_no_throw].
  - by apply accepted_spec.
  - apply drop_then_degrade; [done|apply cacheUnsent_job|intros; by eapply cacheUnsent_no_throw].
Qed.

(** *** Timer callbacks *)

(** The end of a late boundary: cover is not claimed for what was missed. *)
Lemma late_suspend_spec s : JInv [] s -> Core s -> Idle s ->
  cs_running s = negb (bool_decide (cs_status s = stopped)) -> cs_cycle s = None ->
  wp (if bool_decide (cs_status s = stopped) then mret tt
      else setStatus suspended (Some "timer-drift"%string)) (fun r s' => Inv s' /\ Live s') s.
Proof.
  intros Hj Hc Hi Hr Hn. destruct (bool_decide (cs_status s = stopped)) eqn:Hst.
  - apply bool_decide_eq_true in Hst. apply wp_ret. split; [|apply quiet_status_live; auto].
    apply Quiet_Inv. do 2 (split; [done|]). split; [|done].
    apply Mode_idle; [by rewrite Hr, bool_decide_true|by rewrite Hst|by rewrite Hn].
  - apply wp_tail, setStatus_wp. intros s1 Hre. apply wp_ret.
    pose proof (Restatus_jobs _ [] _ _ Hre Hj) as Hj1. pose proof (Restatus_core _ _ _ Hre Hc) as Hc1.
    pose proof (Idle_Restatus _ _ _ Hre Hi) as Hi1. destruct Hre as (lg & -> & _).
    split; [|apply quiet_status_live; by left]. apply Quiet_Inv. do 2 (split; [done|]). split; [|done].
    apply Mode_idle; [done..|]. cbn. by rewrite Hn.
Qed.

Lemma handleLateTimer_spec d k s : JInv [] s -> Core s -> Mode s -> Idle s -> kind_ok s d k ->
  (monotone -> past clk s d) ->
  wp (handleLateTimer W sch k) (fun r s' => Inv s' /\ (is_ok r = true -> Live s')) s.
Proof using Hclk Hsch.
  intros Hj Hc Hm Hi Hk Hp. assert (Inv s) as HI by (apply Quiet_Inv; done).
  pose proof (m_running _ _ Hm) as Hrun.
  destruct k as [| |slot]; cbn [handleLateTimer]; [..|by apply degrade_spec]; apply wp_get.
  - destruct Hk as (Hn & _). rewrite Hn. apply wp_bind, wp_ret, wp_get.
    eapply wp_mono; [|by apply late_suspend_spec]. intros r s' []. by split.
  - destruct Hk as (c & cy & Hcur & ->). pose proof Hcur as [Hcc _]%current_cycle_Some. rewrite Hcc.
    apply wp_bind, wp_bind. eapply wp_mono; [|by apply (interruptCycle_spec sch)].
    intros r s1 (-> & Hj1 & Hf1 & Hl1). pose proof (Core_LFrame _ _ Hf1 Hc) as Hc1.
    pose proof (Idle_LFrame _ _ Hf1 Hi) as Hi1.
    destruct (current_LFrame _ _ _ _ Hf1 Hcur) as (cy1 & Hcur1 & Hstr).
    apply strip_fields in Hstr as (_ & _ & Hend & _). apply wp_bind.
    eapply wp_mono; [|apply (closeCurrentCycle_spec W sch late_cleanup s1 Hj1 Hl1); by apply Hc1].
    intros r s2 ((b & ->) & Hj2 & s1' & Hf2 & ->). apply wp_ret, wp_get.
    pose proof Hf1 as ((Hs1 & Hr1 & _) & _ & Hn1 & _).
    pose proof (Frame_fields _ _ Hf2) as (Hs2 & Hr2 & _).
    eapply wp_mono; [|apply late_suspend_spec; try done].
    + intros r s' []. by split.
    + apply (Core_close s1); try done. intros Hmo c' cy' Hc'. rewrite Hcur1 in Hc'. injection Hc' as <- <-.
      rewrite Hend. eapply past_mono; [exact Hn1|by apply Hp].
    + exact (Idle_LFrame _ _ (Frame_LFrame _ _ Hf2) Hi1).
    + cbn. rewrite Hr2, Hs2, Hr1, Hs1. apply Hm.
Qed.

Lemma timerFires_spec s : 0 <= drift -> Inv s ->
  wp (timerFires W sch drift) (good s) s.
Proof using Hclk Hsch.
  intros Hdr HI. pose proof HI as [Hj Hc Hm Ha]. unfold timerFires. apply wp_get.
  destruct (cs_timer s) as [t|] eqn:Ht; [|by split].
  destruct (a_timer _ _ _ Ha t Ht) as (Hg & Hd & Hk). rewrite Hg, Z.eqb_refl. cbn [negb].
  apply wp_modify, wp_now. set (s1 := with_call (with_timer (cs_generation s) None s)).
  assert (Core s1) as Hc1 by (apply (Core_frame sch drift clk s); try done; cbn; lia).
  assert (Mode s1) as Hm1 by (by apply (Mode_ext sch s)).
  assert (Idle s1) as Hi1.
  { split; [done|]. intros k t' Hk'. destruct (k_tasks _ _ _ _ Hc k t' Hk') as [Hle _]. cbn.
    assert (tk_generation t' <> cs_generation s); [|lia]. intros Heq.
    destruct (a_task _ _ _ Ha k t' Hk' Heq) as [Hn _]. congruence. }
  cbn [cs_calls with_timer]. set (now := clk (cs_calls s)).
  eapply (wp_mono _ (fun r s' => Inv s' /\ (is_ok r = true -> Live s'))).
  { intros r s' [? Hl]. split; [done|]. intros ? _. by apply Hl. }
  destruct (Z.ltb_spec now (tm_deadlineMs t)) as [Hearly|Hge].
  { apply (armRemaining_wp _ _ _ s1). intros delay Hdel. split; [|intros _ _; left; by eexists].
    split; [exact Hj| |by apply (Mode_ext sch s1)|].
    - apply (Core_frame sch drift clk s1); try done; cbn; lia.
    - destruct Hi1 as [_ Hno]. split; cbn.
      + intros t1 [= <-]. split_and!; try done; apply Hdel.
      + intros k t' Hk' Hgen. apply Hno in Hk'. cbn in Hk'. lia.
      + intros k k' t1 t2 Hk' _ Hgen. apply Hno in Hk'. cbn in Hk'. lia. }
  assert (monotone -> past clk s1 (tm_deadlineMs t)) as Hp.
  { intros Hmo. by apply (now_past (with_timer (cs_generation s) None s)). }
  destruct (Z.ltb_spec (tm_deadlineMs t + drift) now) as [Hlate|Hin].
  { by apply (handleLateTimer_spec (tm_deadlineMs t)). }
  destruct (tm_kind t) as [| |slot] eqn:Hkind.
  - apply open_or_suspend; try done; [apply Hm1|apply Hk|]. by destruct Hk as (_ & _ & ? & ?).
  - destruct Hk as (c & cy & Hcur & Hend). by apply (handleCycleBoundary_spec _ c cy).
  - destruct Hk as (c & Hns & Hdl & Hb). rewrite Hdl in Hp. apply wp_try.
    eapply wp_mono; [|by apply (sendSlot_spec slot c)]. by intros r s2 (-> & ? & ?).
Qed.

(** ** Every event *)

Lemma step_spec e s : 0 <= drift -> Inv s -> wp (step W sch drift e) (good s) s.
Proof using Hclk Hsch.
  intros Hdr HI. destruct e as [j|name|name| |reason| | | |k a]; cbn [step].
  - eapply wp_mono; [|apply (job_method_Inv sch drift clk _ s (enqueue_job sch [] j) HI)].
    intros r s' []. by split.
  - apply wp_bind. eapply wp_mono; [|apply (job_method_Inv sch drift clk _ s (cancel_job W sch [] name) HI)].
    intros [a|e] s' []; by split.
  - apply wp_bind. eapply wp_mono; [|apply (job_method_Inv sch drift clk _ s (complete_job W sch [] name) HI)].
    intros [a|e] s' []; by split.
  - apply wp_bind. eapply wp_mono; [|by apply start_spec]. by intros [a|e] s' ?.
  - apply wp_bind. eapply wp_mono; [|apply suspend_spec; try done; apply HI]. by intros [a|e] s' [].
  - apply wp_bind. eapply wp_mono; [|by apply resume_spec]. by intros [a|e] s' ?.
  - apply wp_bind. eapply wp_mono; [|by apply stop_spec]. by intros [a|e] s' ?.
  - by apply timerFires_spec.
  - apply wp_get. destruct (cs_tasks s !! k) as [t|] eqn:Hk; [|by split]. apply wp_try.
    eapply wp_mono; [|by apply resumeTask_spec]. intros [[]|e] s' [HI' Hl]; [by split|].
    eapply wp_mono; [|by apply degrade_spec]. intros r s'' [? Hl']. split; [done|]. intros ? _. by apply Hl'.
Qed.

Lemma Inv_initial : Inv initial.
Proof.
  split.
  - split; try done; cbn.
    + constructor.
    + intros r H. by apply elem_of_nil in H.
    + intros r H. by apply elem_of_nil in H.
    + intros id r H. by apply elem_of_nil in H.
    + constructor.
  - split; try done; cbn. + intros e H. by apply elem_of_nil in H. + constructor.
  - by apply Mode_idle.
  - split; done.
Qed.

Lemma run_Inv es : 0 <= drift -> Inv (run W sch drift es initial).
Proof using Hclk Hsch.
  intros Hdr. unfold run. rewrite <- (rev_involutive es). induction (rev es) as [|e l IH]; [apply Inv_initial|].
  cbn [rev]. rewrite foldl_app. cbn. by apply (step_spec e _ Hdr IH).
Qed.
End Methods.


(** ** Theorems *)

(** Where the unsettled jobs are: the queue and the lanes of the open cycle. *)
Definition job_places (s : Scheduler) : list nat := cs_queued s ++ lane_jobs (cs_cycles s) (cs_cycle s).

(** No job is lost, duplicated or settled twice.  After any sequence of API
    calls, timer callbacks and resumed sends, whatever lanes, producers,
    transport and observers answered: a job the scheduler was given is either
    settled, reported to the observer exactly once and no longer queued or
    registered, or it is unsettled, not reported, still registered under its id
    and in exactly one place (the queue or one lane of the open cycle); and it
    never sent more cells than it declared, nor declared more than a lane
    carries in a cycle. *)
Theorem cover_jobs_accounted W sch drift clk es r j :
  (forall n, w_now W n = Some (clk n)) -> validateSchedulerOptions sch drift = Ok tt ->
  let s := run W sch drift es initial in
  cs_store s !! r = Some j ->
  NoDup (job_places s) /\
  (if rt_settled j
   then settle_count r (cs_log s) = 1%nat /\ (r ∉ cs_queued s) /\ (forall id, (id, r) ∉ cs_jobs s)
   else settle_count r (cs_log s) = 0%nat /\ r ∈ job_places s /\
        jobs_get (job_id (rt_job j)) (cs_jobs s) = Some r) /\
  0 <= rt_sentCells j <= declaredCellCount (rt_job j) /\
  declaredCellCount (rt_job j) <= slotsPerLane sch.
Proof.
  intros Hclk Hv s Hr. unfold validateSchedulerOptions in Hv. binds Hv.
  apply require_ok, negb_true_iff, orb_false_iff in Hv as [Hd _]. apply Z.ltb_ge in Hd.
  pose proof (run_Inv W sch drift clk Hclk (schedule_validate_ok _ E) es Hd) as HI.
  change (run W sch drift es initial) with s in HI. destruct HI as [[] _ _ _].
  destruct (j_rt r j Hr) as [Hdecl Hsent _ _]. rewrite app_nil_r in j_places.
  split; [done|]. split; [|split; [done|lia]].
  specialize (j_log r). unfold settled_at in j_log. rewrite Hr in j_log.
  destruct (rt_settled j) eqn:Hs; split; try done.
  - split.
    + intros (j' & Hr' & Hs')%j_queued. congruence.
    + intros id (j' & Hr' & Hs' & _)%j_jobs. congruence.
  - destruct (j_where r j Hr Hs) as [Hin Hp]. rewrite app_nil_r in Hp. split; [done|].
    by apply jobs_get_Some.
Qed.

(** C38. The traffic never leaves the authenticated grid.  When time does not run
    backwards, the cells handed to the transport over the whole life of the
    scheduler have strictly increasing slot deadlines (no slot is used twice, no
    burst catches up), every one belongs to a slot of a cycle that starts on the
    room's phase grid, and is handed over between its deadline and the drift
    tolerance after it. *)
Theorem cover_sends_on_schedule W sch drift clk es :
  (forall n, w_now W n = Some (clk n)) -> (forall n m, (n <= m)%nat -> clk n <= clk m) ->
  validateSchedulerOptions sch drift = Ok tt ->
  let s := run W sch drift es initial in
  StronglySorted Z.lt (sent_deadline <$> sends (cs_log s)) /\
  forall req at_ms, CellSent req at_ms ∈ sends (cs_log s) ->
    deadlineMs (req_slot req) <= at_ms <= deadlineMs (req_slot req) + drift /\
    exists index start o, on_grid sch start /\ 0 <= o < totalCycleSlots sch /\
      req_slot req = slotAt sch index start (start + cycleDurationMs sch) o.
Proof.
  intros Hclk Hmono Hv s. unfold validateSchedulerOptions in Hv. binds Hv.
  apply require_ok, negb_true_iff, orb_false_iff in Hv as [Hd _]. apply Z.ltb_ge in Hd.
  pose proof (run_Inv W sch drift clk Hclk (schedule_validate_ok _ E) es Hd) as HI.
  change (run W sch drift es initial) with s in HI. destruct HI as [_ Hc _ _].
  split; [by apply Hc|]. intros req at_ms Hin.
  destruct (k_sends _ _ _ _ Hc _ Hin) as (c & cy & o & Hcy & Ho & Hsl & Hle & Hge).
  specialize (Hge Hmono). split; [lia|].
  destruct (k_cycles _ _ _ _ Hc c cy Hcy) as (Hend & Hgrid & _).
  exists (cy_index cy), (cy_startMs cy), o. split_and!; try done; try lia.
  rewrite Hsl. unfold slot_of. by rewrite Hend.
Qed.

(** The events all returned; a throw is one of the range errors of times near
    the safe-integer bound, or a rejected call of the API. *)
Fixpoint all_return (W : World) (sch : CoverSchedule) (drift : Z) (es : list CoverEvent)
    (s : Scheduler) : bool :=
  match es with
  | [] => true
  | e :: es' => let '(r, s') := step W sch drift e s in is_ok r && all_return W sch drift es' s'
  end.

(** C39. A running scheduler never stalls: as long as no event threw, a scheduler
    that is starting, active or degraded has its next step waiting, a timer or
    the one send in progress, and the timer is for a time the code can act on
    (an open boundary only without an open cycle, the boundary of the open
    cycle, or the next slot of the active cycle) with a delay that [setTimeout]
    accepts. *)
Theorem cover_never_stalls W sch drift clk es :
  (forall n, w_now W n = Some (clk n)) -> validateSchedulerOptions sch drift = Ok tt ->
  all_return W sch drift es initial = true ->
  let s := run W sch drift es initial in
  (cs_status s = starting \/ cs_status s = active \/ cs_status s = degraded ->
   is_Some (cs_timer s) \/
   exists k t, cs_tasks s !! k = Some t /\ tk_generation t = cs_generation s) /\
  forall t, cs_timer s = Some t -> 0 <= tm_delayMs t <= 2147483647 /\
    match tm_kind t with
    | open_boundary => cs_cycle s = None /\ on_grid sch (tm_deadlineMs t)
    | cycle_boundary => exists c cy, current_cycle s = Some (c, cy) /\ tm_deadlineMs t = cy_endMs cy
    | slot_timer slot => cs_status s = active /\ tm_deadlineMs t = deadlineMs slot /\
        exists c cy, current_cycle s = Some (c, cy) /\
          slot = slot_of sch cy (cy_nextSlotOrdinal cy)
    end.
Proof.
  intros Hclk Hv Hok s. unfold validateSchedulerOptions in Hv. binds Hv.
  apply require_ok, negb_true_iff, orb_false_iff in Hv as [Hd _]. apply Z.ltb_ge in Hd.
  pose proof (schedule_validate_ok _ E) as Hsch. split.
  - assert (forall es s0, Inv sch drift clk s0 -> Live s0 -> all_return W sch drift es s0 = true ->
      Live (run W sch drift es s0)) as Hrun; [|by apply Hrun; [apply Inv_initial|intros [|[|]]|]].
    clear s es Hok. induction es as [|e es IH]; intros s0 HI HL Hok; [done|].
    cbn in Hok. pose proof (step_spec W sch drift clk Hclk Hsch e s0 Hd HI) as [HI' HL'].
    cbn. destruct (step W sch drift e s0) as [r s1]. cbn in *.
    apply andb_true_iff in Hok as [Hr Hok]. by apply IH; auto.
  - intros t Ht. pose proof (run_Inv W sch drift clk Hclk Hsch es Hd) as HI.
    change (run W sch drift es initial) with s in HI. destruct HI as [_ _ _ Ha].
    destruct (a_timer _ _ _ Ha t Ht) as (_ & Hdel & Hk). split; [done|].
    destruct (tm_kind t); cbn in Hk.
    + by destruct Hk as (? & _ & ? & _).
    + done.
    + destruct Hk as (c & (Hst & cy & Hcur & Hsl & _) & Hdl & _). split_and!; try done. by exists c, cy.
Qed.

(** ** Two traces outside the intended behaviour *)

Definition trace_schedule : CoverSchedule :=
  {| phaseOffsetMs := 0; coverCadenceMs := 100; coverLanes := 2; coverFramesPerCell := 1;
     coverDurationEpochs := 2 |}.
Definition trace_world (times : list Z) (closes : bool) : World :=
  {| w_now := fun n => Some (nth n times 200); w_lane := fun _ _ => true;
     w_close := fun _ _ _ => closes; w_onResult := fun _ _ => [] |}.

(** A suspended scheduler whose lane fails to close at the boundary of the open
    cycle leaves the suspension by itself: it becomes degraded and waits for the
    next cycle, although nobody called [resume]. *)
Example suspension_lost_on_close_failure :
  let s := run (trace_world [0; 0; 0; 0; 0; 0; 10; 10] false) trace_schedule 0
             [Start; TimerFires; Suspend "page-hidden"; TimerFires] initial in
  (cs_status s, (fun t => (tm_deadlineMs t, tm_kind t)) <$> cs_timer s)
  = (degraded, Some (400, open_boundary)).
Proof. vm_compute. reflexivity. Qed.

(** A producer that was asked before a suspension and rejects afterwards degrades
    the cycle that is open by then, although its own send is long stale. *)
Example stale_failure_degrades_new_cycle :
  let W := trace_world [0; 0; 0; 0; 0; 0; 25; 30; 30; 40; 40] true in
  let s := run W trace_schedule 0 [Start; TimerFires; TimerFires; Suspend "page-hidden"; Resume;
             TimerFires] initial in
  (cs_status s, cs_status (snd (step W trace_schedule 0 (TaskResumes 0 a_rejected) s)))
  = (active, degraded).
Proof. vm_compute. reflexivity. Qed.
