(* ===== verification/CoverRuntime.v ===== *)
(** * The cover runtime of one edge ([src/src/handlers/coverRuntime.ts])

    The adapter between the scheduler and an authenticated peer edge: the phase
    of the grid from the policy hash, sealing outbound cells with a running
    counter, authenticating inbound cells behind a sliding replay window, and
    the boundary to the data channel. *)

From stdpp Require Import gmap.
From S2P Require Import Prelude Bytes Constants Crypto PqMessageKey RoomPolicy CoverCell ChannelLabel CoverGeometry CoverScheduler.
Local Open Scope Z_scope.

(** ** The schedule of a room *)

Inductive RuntimeError :=
  | hash_too_short | bad_cadence | no_pq_runtime | runtime_destroyed | non_uniform_cell
  | SealError (e : CoverCellError).

Definition deriveCoverPhaseOffsetMs (policyHash : bytes) (cadence : Z) : result RuntimeError Z :=
  require (negb (blen policyHash <? 8)) hash_too_short;;
  require (isSafeInteger cadence && negb (cadence <=? 0)) bad_cadence;;
  Ok (get_u64 policyHash 0 mod cadence).

(** The schedule and the drift tolerance that the constructor hands to
    [createCoverScheduler]. *)
Definition runtimeSchedule (policy : RoomPolicyV1) (phase : Z) : CoverSchedule :=
  {| phaseOffsetMs := phase; CoverGeometry.coverCadenceMs := RoomPolicy.coverCadenceMs policy;
     CoverGeometry.coverLanes := RoomPolicy.coverLanes policy;
     CoverGeometry.coverFramesPerCell := RoomPolicy.coverFramesPerCell policy;
     CoverGeometry.coverDurationEpochs := RoomPolicy.coverDurationEpochs policy |}.
Definition runtimeDrift (maxTimerDriftMs : option Z) (s : CoverSchedule) : Z :=
  match maxTimerDriftMs with
  | Some d => d
  | None => Z.max 0 (Z.min (CoverGeometry.coverCadenceMs s / slotsPerEpoch s - 1) 500)
  end.
Definition cellsPerLanePerCycle (s : CoverSchedule) : Z :=
  CoverGeometry.coverFramesPerCell s * CoverGeometry.coverDurationEpochs s.

(** ** The replay window *)

Definition REPLAY_WINDOW : Z := 1024.
Record ReplayState := { inboundHighestCounter : option Z; inboundSeenCounters : gset Z }.
Definition fresh_replay : ReplayState := {| inboundHighestCounter := None; inboundSeenCounters := ∅ |}.

Definition admitInboundCounter (counter : Z) (this : ReplayState) : bool * ReplayState :=
  let highest := inboundHighestCounter this in
  if match highest with
     | Some h => (REPLAY_WINDOW <=? h) && (counter <=? h - REPLAY_WINDOW)
     | None => false
     end
  then (false, this)
  else if bool_decide (counter ∈ inboundSeenCounters this) then (false, this)
  else
    let seen := {[ counter ]} ∪ inboundSeenCounters this in
    if match highest with None => true | Some h => h <? counter end then
      let seen :=
        if REPLAY_WINDOW <=? counter
        then filter (fun x => ~ x <= counter - REPLAY_WINDOW) seen else seen in
      (true, {| inboundHighestCounter := Some counter; inboundSeenCounters := seen |})
    else (true, {| inboundHighestCounter := highest; inboundSeenCounters := seen |}).

(** ** Cells *)

Record RuntimeState := {
  outboundCounter : Z; replay : ReplayState; destroyed : bool }.

Definition outboundDirection (amInitiator : bool) : string :=
  if amInitiator then "initiator-to-responder" else "responder-to-initiator".
Definition inboundDirection (amInitiator : bool) : string :=
  if amInitiator then "responder-to-initiator" else "initiator-to-responder".

Section Runtime.
Context {C : LibCrypto}.

(** [#seal]: the counter is consumed whether or not sealing succeeds. *)
Definition seal (amInitiator : bool) (pq : option PqMessageKeyContext) (content : CoverCellContent)
    (nonce : bytes) (this : RuntimeState) : result RuntimeError bytes * RuntimeState :=
  match pq with
  | None => (Err no_pq_runtime, this)
  | Some context =>
      let counter := outboundCounter this in
      (map_err SealError (sealCoverCell (ctx_rootSuite context) (ctx_rootKey context) (ctx_binding context)
         (outboundDirection amInitiator) (ctx_epoch context) counter content nonce),
       {| outboundCounter := counter + 1; replay := replay this; destroyed := destroyed this |})
  end.

(** [sealCoverContent] and [#sealDummy]. *)
Definition sealCoverContent (amInitiator : bool) (pq : option PqMessageKeyContext)
    (content : CoverCellContent) (nonce : bytes) (this : RuntimeState)
    : result RuntimeError bytes * RuntimeState :=
  if destroyed this then (Err runtime_destroyed, this) else seal amInitiator pq content nonce this.
Definition sealDummy (amInitiator : bool) (pq : option PqMessageKeyContext) (nonce : bytes)
    (this : RuntimeState) : result RuntimeError bytes * RuntimeState :=
  seal amInitiator pq dummy nonce this.

(** The hook a processed cell fires. *)
Inductive Dispatch :=
  | remoteCancel (merkleRootHex : bytes)
  | scheduledReceipt (merkleRootHex token : bytes).
Definition dispatch (content : CoverCellContent) : option Dispatch :=
  match content with
  | dummy => None
  | CoverCell.cancel root => Some (remoteCancel (uint8ArrayToHex root))
  | receipt root token => Some (scheduledReceipt (uint8ArrayToHex root) token)
  end.

Definition processInboundCoverCell (amInitiator : bool) (pq : option PqMessageKeyContext)
    (frame : bytes) (this : RuntimeState)
    : result RuntimeError (bool * option Dispatch) * RuntimeState :=
  if destroyed this then (Err runtime_destroyed, this) else
  match pq with
  | None => (Ok (false, None), this)
  | Some context =>
      if negb (blen frame =? WIRE_CHUNK_FRAME_LEN) then (Ok (false, None), this) else
      match openCoverCell (ctx_rootSuite context) (ctx_rootKey context) (ctx_binding context)
              (inboundDirection amInitiator) (ctx_epoch context) None frame with
      | Err _ => (Ok (false, None), this)
      | Ok opened =>
          let '(fresh, r) := admitInboundCounter (opened_counter opened) (replay this) in
          (Ok (fresh, if fresh then dispatch (opened_content opened) else None),
           {| outboundCounter := outboundCounter this; replay := r; destroyed := destroyed this |})
      end
  end.
End Runtime.

(** ** The lane boundary *)

(** [send] of a lane: what the channel's state decides. *)
Definition laneSend (readyState_open : bool) (bufferedAmount : Z) (cell : bytes)
    : result RuntimeError bool :=
  require (blen cell =? WIRE_CHUNK_FRAME_LEN) non_uniform_cell;;
  Ok (readyState_open && negb (MAX_BUFFERED_AMOUNT <=? bufferedAmount)).

(** [#syncDummyLaneLabel]; [randomRoot] is what [getRandomValues] filled in. *)
Definition syncDummyLaneLabel (laneLabelName randomRoot : bytes) : bytes :=
  let namePadded := bset (zeros 32) 0 (slice laneLabelName 0 (Z.min 32 (blen laneLabelName))) in
  uint8ArrayToHex namePadded ++ [LABEL_ELEMENTS_SEPARATOR] ++ uint8ArrayToHex randomRoot.

(** ** The window decides like the whole history

    The specification remembers every accepted counter: a counter is refused
    when it was accepted before, or when it lies a window or more behind some
    accepted counter that is itself past the first window. *)

Definition too_old (A : gset Z) (counter : Z) : Prop :=
  exists h, h ∈ A /\ REPLAY_WINDOW <= h /\ counter <= h - REPLAY_WINDOW.
Definition spec_admits (A : gset Z) (counter : Z) : Prop := (counter ∉ A) /\ ~ too_old A counter.

(** The whole history and the window that represents it. *)
Record represents (A : gset Z) (r : ReplayState) : Prop := {
  rep_highest : match inboundHighestCounter r with
                | None => A = ∅
                | Some h => h ∈ A /\ forall x, x ∈ A -> x <= h
                end;
  rep_seen : forall x, x ∈ inboundSeenCounters r <-> x ∈ A /\ ~ too_old A x }.

Lemma too_old_highest A r h : represents A r -> inboundHighestCounter r = Some h ->
  forall c, too_old A c <-> REPLAY_WINDOW <= h /\ c <= h - REPLAY_WINDOW.
Proof.
  intros [Hh _] Hr c. rewrite Hr in Hh. destruct Hh as [Hin Hmax]. split.
  - intros (h' & Hh' & ? & ?). specialize (Hmax h' Hh'). lia.
  - intros [? ?]. exists h. by split_and!.
Qed.

Lemma too_old_insert A c x : too_old ({[ c ]} ∪ A) x <->
  too_old A x \/ REPLAY_WINDOW <= c /\ x <= c - REPLAY_WINDOW.
Proof.
  unfold too_old. split.
  - intros (h & [->%elem_of_singleton|Hh]%elem_of_union & ? & ?); [by right|left; eauto].
  - intros [(h & Hh & ? & ?)|[? ?]]; [exists h|exists c]; set_solver.
Qed.

(** One counter: the decision is the specification's, and the window still
    represents the history. *)
Lemma admit_step A r c : represents A r ->
  let '(ok, r') := admitInboundCounter c r in
  (ok = true <-> spec_admits A c) /\ represents (if ok then {[ c ]} ∪ A else A) r'.
Proof.
  intros Hrep. pose proof Hrep as [Hh Hs]. unfold admitInboundCounter.
  assert ((match inboundHighestCounter r with
           | Some h => (REPLAY_WINDOW <=? h) && (c <=? h - REPLAY_WINDOW)
           | None => false end) = true <-> too_old A c) as Hold.
  { destruct (inboundHighestCounter r) as [h|] eqn:Hr.
    - rewrite (too_old_highest A r h Hrep Hr), andb_true_iff, !Z.leb_le. done.
    - split; [done|]. intros (h & Hin & _). rewrite Hh in Hin. set_solver. }
  destruct (match inboundHighestCounter r with Some _ => _ | None => _ end) eqn:E.
  { split; [|done]. split; [done|]. intros [_ Hn]. destruct Hn. by apply Hold. }
  assert (~ too_old A c) as Hnew by (intros H; apply Hold in H; congruence). clear Hold E.
  case_bool_decide as Hin.
  { split; [|done]. split; [done|]. intros [Hn _]. apply Hs in Hin as [Hin _]. done. }
  assert (c ∉ A) as HnA by (intros HA; apply Hin, Hs; done).
  assert (forall x, x ∈ {[ c ]} ∪ inboundSeenCounters r <-> x ∈ {[ c ]} ∪ A /\ ~ too_old A x) as Hadd.
  { intros x. rewrite !elem_of_union, !elem_of_singleton, Hs. naive_solver. }
  destruct (match inboundHighestCounter r with Some _ => _ | None => _ end) eqn:E.
  - split; [by split|]. split; cbn [inboundHighestCounter inboundSeenCounters].
    + split; [set_solver|]. intros x [->%elem_of_singleton|Hx]%elem_of_union; [lia|].
      destruct (inboundHighestCounter r) as [h|]; [|set_solver].
      destruct Hh as [_ Hmax]. specialize (Hmax x Hx). apply Z.ltb_lt in E. lia.
    + intros x. rewrite too_old_insert. destruct (Z.leb_spec REPLAY_WINDOW c) as [Hc|Hc].
      * rewrite elem_of_filter, Hadd. unfold REPLAY_WINDOW in *. intuition lia.
      * rewrite Hadd. unfold REPLAY_WINDOW in *. intuition lia.
  - split; [by split|]. destruct (inboundHighestCounter r) as [h|] eqn:Hr; [|done].
    apply Z.ltb_ge in E. destruct Hh as [Hh Hmax]. split; cbn [inboundHighestCounter inboundSeenCounters].
    + split; [set_solver|]. intros x [->%elem_of_singleton|Hx]%elem_of_union; [lia|auto].
    + intros x. rewrite Hadd, too_old_insert, (too_old_highest A r h Hrep Hr). unfold REPLAY_WINDOW in *.
      intuition lia.
Qed.

(** A run of the window: the counters it accepted, in order, and its state. *)
Fixpoint admit_all (counters : list Z) (r : ReplayState) : list Z * ReplayState :=
  match counters with
  | [] => ([], r)
  | c :: cs =>
      let '(ok, r') := admitInboundCounter c r in
      let '(accepted, r'') := admit_all cs r' in
      (if ok then c :: accepted else accepted, r'')
  end.
(** The same run of the specification, which remembers everything. *)
Fixpoint spec_all (counters : list Z) (A : gset Z) : list Z :=
  match counters with
  | [] => []
  | c :: cs =>
      if bool_decide (c ∈ A) then spec_all cs A
      else if bool_decide (Exists (fun h => REPLAY_WINDOW <= h /\ c <= h - REPLAY_WINDOW) (elements A))
      then spec_all cs A
      else c :: spec_all cs ({[ c ]} ∪ A)
  end.

Lemma spec_all_cons c cs A : (spec_admits A c -> spec_all (c :: cs) A = c :: spec_all cs ({[ c ]} ∪ A)) /\
  (~ spec_admits A c -> spec_all (c :: cs) A = spec_all cs A).
Proof.
  cbn. unfold spec_admits, too_old. split; intros H.
  - destruct H as [Hn Ho]. rewrite !bool_decide_false; [done| |done].
    intros (h & Hh & ? & ?)%Exists_exists. apply Ho. exists h. by rewrite elem_of_elements in Hh.
  - case_bool_decide; [done|]. case_bool_decide as Ho; [done|]. destruct H. split; [done|].
    intros (h & Hh & ? & ?). apply Ho, Exists_exists. exists h. by rewrite elem_of_elements.
Qed.

Lemma admit_all_spec counters A r : represents A r ->
  (admit_all counters r).1 = spec_all counters A /\
  exists A', represents A' (admit_all counters r).2 /\
    (forall x, x ∈ A' <-> x ∈ A \/ x ∈ (admit_all counters r).1) /\
    NoDup (admit_all counters r).1 /\ (forall x, x ∈ (admit_all counters r).1 -> x ∉ A).
Proof.
  revert A r. induction counters as [|c cs IH]; intros A r Hrep.
  { split; [done|]. exists A. split_and!; try done; [|constructor|set_solver].
    intros x. cbn. set_solver. }
  destruct (spec_all_cons c cs A) as [Hyes Hno]. cbn [admit_all].
  pose proof (admit_step A r c Hrep) as Hstep. destruct (admitInboundCounter c r) as [ok r'].
  destruct Hstep as [Hdec Hrep']. specialize (IH _ r' Hrep').
  destruct (admit_all cs r') as [acc r'']. cbn [fst snd] in *. destruct IH as [Heq (A' & Hr & Hx & Hnd & Hnew)].
  destruct ok.
  - rewrite (Hyes (proj1 Hdec eq_refl)), Heq. split; [done|]. exists A'.
    split; [done|]. rewrite <- Heq. split; [intros x; rewrite Hx; set_solver|]. split.
    + apply NoDup_cons. split; [|done]. intros Hc. apply (Hnew c Hc). set_solver.
    + intros x [->|Hx']%elem_of_cons; [by apply Hdec|]. specialize (Hnew x Hx'). set_solver.
  - rewrite Hno, Heq by (intros H; apply Hdec in H; done). split; [done|].
    exists A'. rewrite <- Heq. done.
Qed.

Lemma represents_fresh : represents ∅ fresh_replay.
Proof. split; [done|]. intros x. cbn. set_solver. Qed.

Lemma size_interval (X : gset Z) lo n : 0 <= n -> (forall x, x ∈ X -> lo <= x < lo + n) ->
  Z.of_nat (size X) <= n.
Proof.
  intros Hn HX. assert (X ⊆ list_to_set ((fun i => lo + Z.of_nat i) <$> seq 0 (Z.to_nat n))) as Hsub.
  { intros x Hx. apply elem_of_list_to_set, list_elem_of_fmap. exists (Z.to_nat (x - lo)).
    specialize (HX x Hx). split; [lia|]. apply elem_of_seq. lia. }
  apply subseteq_size in Hsub. rewrite size_list_to_set in Hsub.
  - rewrite length_fmap, length_seq in Hsub. lia.
  - apply NoDup_fmap_2; [intros x y; lia|apply NoDup_seq].
Qed.

(** C40. The sliding replay window is an exact, bounded implementation of an
    unbounded replay record: on every sequence of cell counters, in any order,
    it accepts exactly the counters that a record of all accepted counters
    accepts, so none twice and none a window behind, and it never holds more
    than 1024 counters. *)
Theorem replay_window_refines counters :
  (forall c, c ∈ counters -> 0 <= c) ->
  let '(accepted, r) := admit_all counters fresh_replay in
  accepted = spec_all counters ∅ /\ NoDup accepted /\
  (size (inboundSeenCounters r) <= 1024)%nat.
Proof.
  intros Hpos. pose proof (admit_all_spec counters ∅ fresh_replay represents_fresh) as Hall.
  assert (forall x, x ∈ (admit_all counters fresh_replay).1 -> x ∈ counters) as Hsub.
  { generalize fresh_replay. clear. induction counters as [|c cs IH]; intros r x; [done|].
    cbn. destruct (admitInboundCounter c r) as [ok r']. specialize (IH r' x).
    destruct (admit_all cs r') as [acc r'']. cbn in *. destruct ok; cbn; set_solver. }
  destruct (admit_all counters fresh_replay) as [acc r]. cbn in *.
  destruct Hall as (Heq & A & Hrep & HA & Hnd & _). split_and!; try done.
  assert (forall x, x ∈ A -> 0 <= x) as HApos.
  { intros x [Hx|Hx]%HA; [set_solver|]. auto. }
  pose proof Hrep as [Hh Hs]. destruct (inboundHighestCounter r) as [h|] eqn:Hr.
  - destruct Hh as [Hin Hmax]. apply Nat2Z.inj_le.
    apply (size_interval _ (Z.max 0 (h - REPLAY_WINDOW + 1))); [done|].
    intros x [Hx Ho]%Hs. rewrite (too_old_highest A r h Hrep Hr) in Ho.
    specialize (Hmax x Hx). specialize (HApos x Hx). specialize (HApos). unfold REPLAY_WINDOW in *. lia.
  - assert (inboundSeenCounters r = ∅) as ->; [|rewrite size_empty; lia].
    apply set_eq. intros x. rewrite Hs, Hh. set_solver.
Qed.

(** ** The schedule of an accepted policy *)

Lemma drift_in_range c S : 0 < S -> 25 * S <= c ->
  0 <= Z.max 0 (Z.min (c / S - 1) 500) /\ Z.max 0 (Z.min (c / S - 1) 500) * S < c.
Proof. intros. pose proof (Z.mul_div_le c S ltac:(lia)). assert (25 <= c / S) by (apply Z.div_le_lower_bound; lia). nia. Qed.

(** A room policy that the room layer accepts never fails in the cover layer:
    for scheduled cover, every member derives from the policy hash the same
    phase inside one cadence, and the scheduler's constructor accepts the
    resulting schedule with the default drift tolerance. *)
Theorem room_policy_schedules policy policyHash :
  validateRoomPolicyV1 policy = Ok tt -> coverMode policy = scheduled -> 8 <= blen policyHash ->
  exists phase,
    deriveCoverPhaseOffsetMs policyHash (RoomPolicy.coverCadenceMs policy) = Ok phase /\
    0 <= phase < RoomPolicy.coverCadenceMs policy /\
    let s := runtimeSchedule policy phase in
    validateSchedulerOptions s (runtimeDrift None s) = Ok tt /\
    cellsPerLanePerCycle s = slotsPerLane s.
Proof.
  intros Hv Hm Hh. pose proof (RoomPolicy.validate_inv _ Hv) as (_ & _ & _ & Hc & Hl & Hf & Hd).
  unfold validateRoomPolicyV1 in Hv. binds Hv. rewrite Hm in Hv. binds Hv. clear E E0 E1 E2 E3 E4 E5.
  rewrite require_ok in *. apply negb_true_iff in E6, E7, E8, E9, Hv.
  rewrite orb_false_iff, !Z.ltb_ge in E6, E7, E8. rewrite Z.ltb_ge in E9, Hv.
  unfold MIN_COVER_CADENCE_MS, MAX_COVER_CADENCE_MS, RoomPolicy.MAX_COVER_LANES,
    MAX_COVER_FRAMES_PER_CELL, RoomPolicy.MIN_COVER_SLOT_MS in *.
  assert (forall v, 0 <= v < 2 ^ 52 -> isSafeInteger v = true) as Hsafe.
  { intros v Hb. apply isSafeInteger_spec. unfold MAX_SAFE_INTEGER. lia. }
  exists (get_u64 policyHash 0 mod RoomPolicy.coverCadenceMs policy).
  pose proof (Z.mod_pos_bound (get_u64 policyHash 0) (RoomPolicy.coverCadenceMs policy) ltac:(lia)) as Hp.
  set (phase := _ mod _) in *. unfold deriveCoverPhaseOffsetMs.
  rewrite (proj2 (Z.ltb_ge (blen policyHash) 8)) by lia. rewrite Hsafe by lia.
  rewrite (proj2 (Z.leb_gt (RoomPolicy.coverCadenceMs policy) 0)) by lia.
  split; [done|]. split; [done|]. cbv zeta. split; [|done].
  set (L := RoomPolicy.coverLanes policy) in *. set (F := RoomPolicy.coverFramesPerCell policy) in *.
  set (D := RoomPolicy.coverDurationEpochs policy) in *. set (c := RoomPolicy.coverCadenceMs policy) in *.
  destruct (drift_in_range c (L * F)) as [Hd1 Hd2]; [nia|lia|].
  unfold validateSchedulerOptions, validateCoverSchedule, assertSafeInteger, slotSpacingBelow,
    slotsPerEpoch, slotsPerLane, cycleDurationMs, runtimeDrift, runtimeSchedule, slotsPerEpoch.
  cbn [phaseOffsetMs CoverGeometry.coverCadenceMs CoverGeometry.coverLanes
       CoverGeometry.coverFramesPerCell CoverGeometry.coverDurationEpochs].
  fold L F D c. rewrite !Hsafe by nia. cbn [require mbind result_bind negb orb].
  unfold CoverGeometry.MAX_COVER_LANES, CoverGeometry.MIN_COVER_SLOT_MS.
  rewrite (proj2 (Z.ltb_ge c 1)), (proj2 (Z.ltb_ge L 1)), (proj2 (Z.ltb_ge 16 L)),
    (proj2 (Z.ltb_ge F 1)), (proj2 (Z.ltb_ge D 1)), (proj2 (Z.ltb_ge c (25 * (L * F)))) by lia.
  cbn [require mbind result_bind negb orb].
  by rewrite (proj2 (Z.ltb_ge _ 0) Hd1), (proj2 (Z.leb_gt _ _) Hd2).
Qed.

(** ** Cells between two runtimes *)

Section Delivery.
Context {C : LibCrypto}.

Lemma directions_match b : inboundDirection (negb b) = outboundDirection b.
Proof. by destruct b. Qed.

Lemma process_sealed `{!AeadCorrect C} b context content nonce st frame st' rst :
  blen nonce = RATCHET_NONCE_LEN -> seal b (Some context) content nonce st = (Ok frame, st') ->
  destroyed rst = false ->
  processInboundCoverCell (negb b) (Some context) frame rst =
    let '(fresh, r) := admitInboundCounter (outboundCounter st) (replay rst) in
    (Ok (fresh, if fresh then dispatch content else None),
     {| outboundCounter := outboundCounter rst; replay := r; destroyed := false |}).
Proof.
  intros Hn Hs Hd. unfold seal in Hs.
  destruct (sealCoverCell _ _ _ _ _ _ _ _) as [f|e] eqn:Hseal; [|done]. injection Hs as -> _.
  destruct (cover_cell_roundtrip_aux _ _ _ _ _ _ _ _ _ Hn Hseal) as [Hl Ho].
  unfold processInboundCoverCell. rewrite Hd, Hl, Z.eqb_refl, directions_match, Ho. cbn [negb opened_counter opened_content].
  by destruct (admitInboundCounter _ _).
Qed.

(** Exactly-once delivery of cover cells: a cell that one side sealed and the
    other side has not seen, within the window, fires the hook of exactly its
    content for the right transfer root; delivered again, after any other cells
    in between, it is dropped. *)
Theorem cover_cell_delivered_once `{!AeadCorrect C} b context content nonce st frame st' rst A later :
  blen nonce = RATCHET_NONCE_LEN -> seal b (Some context) content nonce st = (Ok frame, st') ->
  destroyed rst = false -> represents A (replay rst) -> spec_admits A (outboundCounter st) ->
  outboundCounter st' = outboundCounter st + 1 /\
  exists rst', processInboundCoverCell (negb b) (Some context) frame rst = (Ok (true, dispatch content), rst') /\
    let rst'' := {| outboundCounter := outboundCounter rst'; replay := (admit_all later (replay rst')).2;
                    destroyed := destroyed rst' |} in
    fst (processInboundCoverCell (negb b) (Some context) frame rst'') = Ok (false, None).
Proof.
  intros Hn Hs Hd Hrep Hadm. split.
  { unfold seal in Hs. by injection Hs as _ <-. }
  rewrite (process_sealed b context content nonce st frame st' rst Hn Hs Hd).
  pose proof (admit_step A (replay rst) (outboundCounter st) Hrep) as Hstep.
  destruct (admitInboundCounter (outboundCounter st) (replay rst)) as [ok r].
  destruct Hstep as [Hdec Hrep1]. assert (ok = true) as -> by (by apply Hdec).
  eexists. split; [done|]. cbv zeta. cbn [replay destroyed].
  destruct (admit_all_spec later _ r Hrep1) as (_ & A' & Hrep2 & HA & _).
  rewrite (process_sealed b context content nonce st frame st' _ Hn Hs) by done. cbn [replay].
  pose proof (admit_step A' _ (outboundCounter st) Hrep2) as Hstep2.
  destruct (admitInboundCounter _ _) as [ok2 r2]. destruct Hstep2 as [Hdec2 _].
  destruct ok2; [|done]. destruct (proj1 Hdec2 eq_refl) as [Hno _]. destruct Hno. apply HA. left. set_solver.
Qed.
End Delivery.

(** Dummy lanes advertise the same label shape as real ones. *)
Lemma dummy_label_shape name randomRoot : blen randomRoot = 64 ->
  label_pattern (syncDummyLaneLabel name randomRoot) = true.
Proof.
  intros Hr. unfold syncDummyLaneLabel.
  pose proof (blen_nonneg name) as Hn.
  assert (blen (slice name 0 (Z.min 32 (blen name))) = Z.min 32 (blen name)) as Hs
    by (rewrite blen_slice by lia; lia).
  set (padded := bset _ _ _).
  assert (blen padded = 32) as Hp by (unfold padded; rewrite blen_bset, blen_zeros by (rewrite ?Hs, ?blen_zeros; lia); done).
  by apply label_shape.
Qed.
