(* ===== verification/CoverTransfer.v ===== *)
(** * Transfers over scheduled cover ([src/src/handlers/coverTransfer.ts],
      [src/src/handlers/coverEdge.ts])

    Receipts and messages do not get frames of their own in a scheduled room:
    they become jobs of the edge's scheduler.  This file models the queue of
    pending receipts with its drain job, the lazy job of one message, and the
    table that settles a send when its terminal receipt arrives. *)

From stdpp Require Import gmap.
From Stdlib Require Import Strings.Byte.
From Stdlib Require Strings.String.
From S2P Require Import Prelude Bytes Constants CoverCell ChannelLabel CoverGeometry CoverScheduler CoverRuntime.
Local Open Scope Z_scope.

(** ** Pending receipts *)

Definition MAX_PENDING_SCHEDULED_RECEIPTS : Z := 4096.
Record PendingScheduledReceipt := { psr_merkleRoot : bytes; psr_token : bytes }.
(** [settledCallbacks] are the job ids with a one-shot callback at the runtime. *)
Record ScheduledReceiptState := {
  pending : list PendingScheduledReceipt; drainJobActive : bool; jobSequence : Z;
  settledCallbacks : list string }.
Definition fresh_receipts : ScheduledReceiptState :=
  {| pending := []; drainJobActive := false; jobSequence := 0; settledCallbacks := [] |}.

(** [while (state.pending.length > MAX) state.pending.shift()], the remaining
    list driving the loop. *)
Fixpoint shift_to_bound (l : list PendingScheduledReceipt) : list PendingScheduledReceipt :=
  match l with
  | [] => []
  | _ :: l' => if MAX_PENDING_SCHEDULED_RECEIPTS <? blen l then shift_to_bound l' else l
  end.

(** [CoverRuntime.enqueue] and [CoverRuntime.cancel]: [#assertLive], then the
    scheduler. *)
Definition assertLive (destroyed : bool) : result RuntimeError unit :=
  require (negb destroyed) runtime_destroyed.
Definition runtimeEnqueue (schedule : CoverSchedule) (destroyed : bool) (job : CoverJob) (s : Scheduler)
    : result (RuntimeError + CoverThrow) unit * Scheduler :=
  match assertLive destroyed with
  | Err e => (Err (inl e), s)
  | Ok _ => match enqueue schedule job s with (Err e, s') => (Err (inr e), s') | (Ok u, s') => (Ok u, s') end
  end.
Definition runtimeCancel (W : World) (schedule : CoverSchedule) (destroyed : bool) (jobId : string)
    (s : Scheduler) : result (RuntimeError + CoverThrow) CoverCancelResult * Scheduler :=
  match assertLive destroyed with
  | Err e => (Err (inl e), s)
  | Ok _ =>
      match CoverScheduler.cancel W schedule jobId s with
      | (Err e, s') => (Err (inr e), s')
      | (Ok r, s') => (Ok r, s')
      end
  end.

Section Receipts.
Context (schedule : CoverSchedule) (destroyed : bool).

(** [label] is what [runtime.randomLaneLabel()] returns. *)
Definition drainJob (label : string) (declared : Z) : CoverJob :=
  {| job_id := label; job_kind := control; declaredCellCount := declared; job_priority := None;
     job_has_cancelCell := false |}.

Definition ensureReceiptDrainJob (label : string) (st : ScheduledReceiptState) (s : Scheduler)
    : ScheduledReceiptState * Scheduler :=
  if drainJobActive st || bool_decide (pending st = []) then (st, s) else
  let capacity := cellsPerLanePerCycle schedule in
  let declared := Z.min (blen (pending st)) capacity in
  if declared <=? 0 then (st, s) else
  match runtimeEnqueue schedule destroyed (drainJob label declared) s with
  | (Err _, s') =>
      ({| pending := pending st; drainJobActive := false; jobSequence := jobSequence st + 1;
          settledCallbacks := settledCallbacks st |}, s')
  | (Ok _, s') =>
      ({| pending := pending st; drainJobActive := true; jobSequence := jobSequence st + 1;
          settledCallbacks := label :: settledCallbacks st |}, s')
  end.

(** [has_runtime] is [epc.coverRuntime !== undefined]. *)
Definition queueScheduledReceipt (has_runtime : bool) (label : string) (merkleRoot token : bytes)
    (st : ScheduledReceiptState) (s : Scheduler) : bool * (ScheduledReceiptState * Scheduler) :=
  if negb has_runtime then (false, (st, s)) else
  if negb (blen merkleRoot =? 64) || negb (blen token =? 64) then (false, (st, s)) else
  let entry := {| psr_merkleRoot := merkleRoot; psr_token := token |} in
  let st := {| pending := shift_to_bound (pending st ++ [entry]); drainJobActive := drainJobActive st;
               jobSequence := jobSequence st; settledCallbacks := settledCallbacks st |} in
  (true, ensureReceiptDrainJob label st s).

(** [nextCell] of the drain job: the content it seals, or [None] for a dummy. *)
Definition drainNextCell (st : ScheduledReceiptState) : option CoverCellContent * ScheduledReceiptState :=
  match pending st with
  | [] => (None, st)
  | next :: rest =>
      (Some (receipt (psr_merkleRoot next) (psr_token next)),
       {| pending := rest; drainJobActive := drainJobActive st; jobSequence := jobSequence st;
          settledCallbacks := settledCallbacks st |})
  end.

(** The callback of [onJobSettled], when the runtime reports [jobId]. *)
Definition drainSettled (label jobId : string) (st : ScheduledReceiptState) (s : Scheduler)
    : ScheduledReceiptState * Scheduler :=
  if bool_decide (jobId ∈ settledCallbacks st) then
    ensureReceiptDrainJob label
      {| pending := pending st; drainJobActive := false; jobSequence := jobSequence st;
         settledCallbacks := filter (fun x => x <> jobId) (settledCallbacks st) |} s
  else (st, s).

(** [releaseScheduledReceipts]: the state is dropped. *)
Definition releaseScheduledReceipts (st : ScheduledReceiptState) : ScheduledReceiptState := fresh_receipts.
End Receipts.

(** [syntheticScheduledLabel]. *)
Definition syntheticScheduledLabel (merkleRootHex : bytes) : bytes :=
  mjoin (replicate 32 (text "00")) ++ [LABEL_ELEMENTS_SEPARATOR] ++ merkleRootHex.

(** ** The job of one message *)

Inductive TransferError := exceeds_capacity | not_uniform.

(** [nextRealIndex]: skip what is acknowledged by now; [rest] is what lies at and
    after the cursor. *)
Fixpoint nextRealIndex (acked : gset Z) (rest : list Z) : option Z * list Z :=
  match rest with
  | [] => (None, [])
  | index :: rest' =>
      if bool_decide (index ∈ acked) then nextRealIndex acked rest' else (Some index, rest')
  end.

(** The job record, with the indices of the pass. *)
Definition buildScheduledSendJob (schedule : CoverSchedule) (channelMessageLabel : string)
    (totalChunks : Z) (realChunkIndices : option (list Z)) : result TransferError (CoverJob * list Z) :=
  let capacity := cellsPerLanePerCycle schedule in
  require (negb (capacity <? totalChunks)) exceeds_capacity;;
  let realIndices :=
    match realChunkIndices with
    | Some l => l
    | None => Z.of_nat <$> seq 0 (Z.to_nat totalChunks)
    end in
  Ok ({| job_id := channelMessageLabel; job_kind := real; declaredCellCount := totalChunks;
         job_priority := None; job_has_cancelCell := false |}, realIndices).

(** [nextCell]: [sealed] is what [sealSlotCell(index)] resolves to. *)
Definition transferNextCell (acked : gset Z) (sealed : Z -> option bytes) (rest : list Z)
    : result TransferError (option bytes) * list Z :=
  match nextRealIndex acked rest with
  | (None, rest') => (Ok None, rest')
  | (Some index, rest') =>
      match sealed index with
      | None => (Ok None, rest')
      | Some cell =>
          (require (blen cell =? WIRE_CHUNK_FRAME_LEN) not_uniform;; Ok (Some cell), rest')
      end
  end.

(** ** Settling sends by their terminal receipt ([coverEdge.ts]) *)

#[local] Instance byte_countable : Countable byte.
Proof.
  apply (inj_countable Byte.to_N Byte.of_N). intros b. apply Byte.of_to_N.
Defined.

Record TrackedSend := { ts_transferId : string; ts_peerId : string; ts_roomId : string }.
Definition trackScheduledSend (roomId peerId : string) (merkleRootHex : bytes) (transferId : string)
    (m : gmap bytes TrackedSend) : gmap bytes TrackedSend :=
  <[merkleRootHex := {| ts_transferId := transferId; ts_peerId := peerId; ts_roomId := roomId |}]> m.
(** [onScheduledReceipt]: the transfer that [markTransferComplete] is called for. *)
Definition onScheduledReceipt (m : gmap bytes TrackedSend) (merkleRootHex : bytes) : option TrackedSend :=
  m !! merkleRootHex.

(** [enqueueScheduledSend]: [false] without a runtime. *)
Definition enqueueScheduledSend (has_runtime : bool) (schedule : CoverSchedule) (destroyed : bool)
    (label : string) (totalChunks : Z) (s : Scheduler)
    : result (TransferError + (RuntimeError + CoverThrow)) bool * Scheduler :=
  if negb has_runtime then (Ok false, s) else
  match buildScheduledSendJob schedule label totalChunks None with
  | Err e => (Err (inl e), s)
  | Ok (job, _) =>
      match runtimeEnqueue schedule destroyed job s with
      | (Err e, s') => (Err (inr e), s')
      | (Ok _, s') => (Ok true, s')
      end
  end.

(** [cancelScheduledTransfer]: an edge without a runtime and an unknown job give
    [false]; what the label or the scheduler throw is thrown on. *)
Definition cancelScheduledTransfer (W : World) (has_runtime : bool) (schedule : CoverSchedule)
    (destroyed : bool) (channelLabel merkleRootHex : bytes) (s : Scheduler)
    : result (LabelError + (RuntimeError + CoverThrow)) bool * Scheduler :=
  if negb has_runtime then (Ok false, s) else
  match compileChannelMessageLabel channelLabel (RootHex merkleRootHex) with
  | Err e => (Err (inl e), s)
  | Ok label =>
      match runtimeCancel W schedule destroyed (String.string_of_list_byte label) s with
      | (Err e, s') => (Err (inr e), s')
      | (Ok not_found, s') => (Ok false, s')
      | (Ok _, s') => (Ok true, s')
      end
  end.

(** ** Receipts: bounded, first in first out, and the drain job fits a lane *)

Lemma shift_to_bound_spec l : exists dropped, l = dropped ++ shift_to_bound l /\
  blen (shift_to_bound l) = Z.min (blen l) MAX_PENDING_SCHEDULED_RECEIPTS.
Proof.
  induction l as [|x l (d & Hd & Hl)]; [by exists []|]. cbn [shift_to_bound].
  destruct (Z.ltb_spec MAX_PENDING_SCHEDULED_RECEIPTS (blen (x :: l))) as [Hlt|Hge].
  - exists (x :: d). split; [cbn; by rewrite <- Hd|]. rewrite Hl. rewrite blen_cons in *.
    unfold MAX_PENDING_SCHEDULED_RECEIPTS in *. lia.
  - exists []. split; [done|lia].
Qed.

Lemma ensure_pending sch ds label st s : pending (ensureReceiptDrainJob sch ds label st s).1 = pending st.
Proof.
  unfold ensureReceiptDrainJob. destruct (_ || _); [done|]. destruct (_ <=? 0); [done|].
  by destruct (runtimeEnqueue sch ds _ s) as [[]].
Qed.

(** The drain job always fits the lane it is declared for: with a fresh label the
    scheduler takes it. *)
Lemma drain_job_accepted sch label st s : schedule_ok sch -> label <> ""%string ->
  jobs_get label (cs_jobs s) = None -> drainJobActive st = false -> pending st <> [] ->
  drainJobActive (ensureReceiptDrainJob sch false label st s).1 = true /\
  exists r j, cs_store (ensureReceiptDrainJob sch false label st s).2 !! r = Some j /\
    rt_job j = drainJob label (Z.min (blen (pending st)) (slotsPerLane sch)).
Proof.
  intros Hs Hl Hj Ha Hp. unfold ensureReceiptDrainJob. rewrite Ha, bool_decide_false by done. cbn [orb].
  change (cellsPerLanePerCycle sch) with (slotsPerLane sch).
  assert (0 < blen (pending st)) as Hlen.
  { destruct (pending st); [done|]. rewrite blen_cons. pose proof (blen_nonneg l). lia. }
  destruct Hs as (_ & Hf & Hd & _ & _ & Hsafe & _).
  assert (1 <= slotsPerLane sch) as Hcap by (unfold slotsPerLane; nia).
  rewrite (proj2 (Z.leb_gt _ 0)) by lia. set (declared := Z.min _ _).
  unfold runtimeEnqueue, assertLive. cbn [negb require]. unfold enqueue, mrequire, mbind, M_bind, lift. cbn [drainJob job_id declaredCellCount job_priority].
  rewrite bool_decide_false by done. cbn [negb require]. cbn [get_this].
  rewrite bool_decide_true by done. cbn [require].
  assert (isSafeInteger declared = true) as ->.
  { apply isSafeInteger_spec. unfold MAX_SAFE_INTEGER in *. lia. }
  cbn [require]. rewrite (proj2 (Z.ltb_ge declared 1)), (proj2 (Z.ltb_ge _ declared)) by lia.
  cbn [orb negb require]. unfold modify_this, sortQueue, get_this, mbind, M_bind. cbn -[drainJob].
  split; [done|]. exists (length (cs_store s)). eexists. by rewrite lookup_app_r, Nat.sub_diag by lia.
Qed.

(** Scheduled receipts are never lost below the bound: queueing keeps the most
    recent 4096 receipts in order, drops only the oldest beyond that, refuses
    malformed ones and edges without a runtime, and the drain job hands out the
    oldest remaining receipt first, one per slot, a dummy when none is left. *)
Theorem receipts_fifo_bounded sch destroyed label merkleRoot token st s :
  let '(ok, (st', s')) := queueScheduledReceipt sch destroyed true label merkleRoot token st s in
  let entry := {| psr_merkleRoot := merkleRoot; psr_token := token |} in
  (ok = true <-> blen merkleRoot = 64 /\ blen token = 64) /\
  (ok = false -> st' = st /\ s' = s) /\
  (ok = true -> exists dropped, pending st ++ [entry] = dropped ++ pending st' /\
     blen (pending st') = Z.min (blen (pending st) + 1) 4096) /\
  match drainNextCell st' with
  | (Some content, st'') => exists e, pending st' = e :: pending st'' /\
      content = receipt (psr_merkleRoot e) (psr_token e)
  | (None, st'') => pending st' = [] /\ st'' = st'
  end.
Proof.
  unfold queueScheduledReceipt. cbn [negb].
  destruct (negb (blen merkleRoot =? 64) || negb (blen token =? 64)) eqn:E.
  - split_and!; try done.
    + split; [done|]. intros [Hm Ht]. by rewrite Hm, Ht in E.
    + unfold drainNextCell. destruct (pending st) as [|e l]; [done|]. by exists e.
  - apply orb_false_iff in E as [E1%negb_false_iff%Z.eqb_eq E2%negb_false_iff%Z.eqb_eq].
    set (entry := {| psr_merkleRoot := merkleRoot; psr_token := token |}).
    destruct (ensureReceiptDrainJob sch destroyed label _ s) as [st' s'] eqn:He.
    assert (pending st' = shift_to_bound (pending st ++ [entry])) as Hp.
    { pose proof (ensure_pending sch destroyed label {| pending := shift_to_bound (pending st ++ [entry]);
        drainJobActive := drainJobActive st; jobSequence := jobSequence st;
        settledCallbacks := settledCallbacks st |} s) as Hp. by rewrite He in Hp. }
    split_and!; try done.
    + intros _. rewrite Hp. destruct (shift_to_bound_spec (pending st ++ [entry])) as (d & Hd & Hl).
      exists d. split; [done|]. rewrite Hl, blen_app. done.
    + unfold drainNextCell. destruct (pending st') as [|e l]; [done|]. by exists e.
Qed.

(** ** One pass over a message *)

Lemma nextRealIndex_spec acked rest :
  exists skipped, (forall x, x ∈ skipped -> x ∈ acked) /\
    match nextRealIndex acked rest with
    | (Some i, rest') => rest = skipped ++ i :: rest' /\ i ∉ acked
    | (None, rest') => rest = skipped /\ rest' = []
    end.
Proof.
  induction rest as [|i rest (sk & Hsk & IH)]; [exists []; split; [set_solver|done]|]. cbn [nextRealIndex].
  case_bool_decide as Hi.
  - exists (i :: sk). split; [set_solver|]. destruct (nextRealIndex acked rest) as [[k|] rest'].
    + destruct IH as [-> ?]. by rewrite app_comm_cons.
    + by destruct IH as [-> ->].
  - exists []. split; [set_solver|done].
Qed.

(** The indices offered by a run of [nextRealIndex] calls, each with the
    acknowledgements known at that slot. *)
Fixpoint offered (acks : list (gset Z)) (rest : list Z) : list (option Z) * list Z :=
  match acks with
  | [] => ([], rest)
  | acked :: acks' =>
      let '(o, rest') := nextRealIndex acked rest in
      let '(os, rest'') := offered acks' rest' in (o :: os, rest'')
  end.

Lemma offered_spec acks rest :
  let '(os, rest') := offered acks rest in
  exists passed, rest = passed ++ rest' /\ omap id os `sublist_of` passed /\
    (forall x, x ∈ passed -> x ∈ omap id os \/ exists acked, acked ∈ acks /\ x ∈ acked) /\
    (None ∈ os -> rest' = []) /\ (length rest < length acks -> None ∈ os)%nat.
Proof.
  revert rest. induction acks as [|acked acks IH]; intros rest.
  { exists []. split_and!; try done; [set_solver|set_solver|cbn; lia]. }
  cbn [offered]. destruct (nextRealIndex_spec acked rest) as (sk & Hsk & Hn).
  destruct (nextRealIndex acked rest) as [o rest1]. specialize (IH rest1).
  destruct (offered acks rest1) as [os rest']. destruct IH as (p & Hp & Hsub & Hcov & Hnone & Hlen).
  destruct o as [i|].
  - destruct Hn as [-> Hi]. exists (sk ++ i :: p). split_and!.
    + rewrite Hp, <- app_assoc. done.
    + cbn. apply sublist_inserts_l. by constructor.
    + intros x Hx. apply elem_of_app in Hx as [Hx|[->|Hx]%elem_of_cons].
      * right. exists acked. split; [by left|auto].
      * left. cbn. by left.
      * destruct (Hcov x Hx) as [?|(a & ? & ?)]; [left; cbn; by right|right; exists a; split; [by right|done]].
    + intros [|Hin]%elem_of_cons; [done|auto].
    + rewrite length_app. cbn. intros Hl. right. apply Hlen. lia.
  - destruct Hn as [-> ->]. exists sk.
    assert (p = [] /\ rest' = []) as [-> ->] by (by symmetry in Hp; apply app_eq_nil in Hp).
    split_and!; try done.
    + by rewrite app_nil_r.
    + cbn. apply sublist_nil_r in Hsub as ->. apply sublist_nil_l.
    + intros x Hx. right. exists acked. split; [by left|auto].
    + intros _. by left.
Qed.

(** A scheduled message is sent in one pass that ends: over the slots of the
    job, whatever acknowledgements arrive in between, every chunk index is
    offered at most once and in order, no chunk is skipped unless it was
    acknowledged, and after at most one slot more than there are chunks the job
    only asks for dummies. *)
Theorem send_pass_offers_once label sch total job indices acks :
  buildScheduledSendJob sch label total None = Ok (job, indices) ->
  let '(os, rest) := offered acks indices in
  omap id os `sublist_of` indices /\ NoDup (omap id os) /\
  (None ∈ os -> forall i, 0 <= i < total -> i ∈ omap id os \/ exists acked, acked ∈ acks /\ i ∈ acked) /\
  (0 <= total < blen acks -> None ∈ os) /\
  (forall acked, None ∈ os -> nextRealIndex acked rest = (None, [])) /\
  declaredCellCount job <= slotsPerLane sch.
Proof.
  unfold buildScheduledSendJob. intros H. binds H. apply require_ok, negb_true_iff, Z.ltb_ge in E.
  injection H as <- <-. set (indices := Z.of_nat <$> seq 0 (Z.to_nat total)).
  pose proof (offered_spec acks indices) as Hspec. destruct (offered acks indices) as [os rest].
  destruct Hspec as (p & Hp & Hsub & Hcov & Hnone & Hlen).
  assert (omap id os `sublist_of` indices) as Hsub'.
  { rewrite Hp. etrans; [exact Hsub|]. by apply sublist_inserts_r. }
  assert (NoDup indices) as Hnd.
  { unfold indices. apply NoDup_fmap_2; [intros x y; lia|apply NoDup_seq]. }
  split_and!; try done.
  - by eapply sublist_NoDup.
  - intros Hn i Hi. apply Hcov. specialize (Hnone Hn). subst rest. rewrite app_nil_r in Hp. rewrite <- Hp.
    apply list_elem_of_fmap. exists (Z.to_nat i). split; [lia|]. apply elem_of_seq. lia.
  - intros Hl. apply Hlen. unfold indices. rewrite length_fmap, length_seq. unfold blen in Hl. lia.
  - intros acked Hn. by rewrite (Hnone Hn).
Qed.

(** ** Cancelling a message that is on the wire *)

(** The job of a message has no [cancelCell]: once it has been admitted to a lane,
    cancelling the transfer throws and changes nothing, while the comment of
    [cancelScheduledTransfer] announces a CANCEL cell in the job's next slot. *)
Theorem admitted_transfer_cancel_throws W sch channelLabel rootHex label total job indices r j s :
  compileChannelMessageLabel channelLabel (RootHex rootHex) = Ok label ->
  buildScheduledSendJob sch (String.string_of_list_byte label) total None = Ok (job, indices) ->
  jobs_get (job_id job) (cs_jobs s) = Some r -> cs_store s !! r = Some j -> rt_job j = job ->
  rt_settled j = false -> rt_everAdmitted j = true ->
  cancelScheduledTransfer W true sch false channelLabel rootHex s = (Err (inr (inr requires_cancelCell)), s).
Proof.
  intros Hl Hb Hg Hr Hj Hs He. unfold buildScheduledSendJob in Hb. binds Hb. injection Hb as <- _.
  cbn [job_id] in Hg. unfold cancelScheduledTransfer. cbn [negb]. rewrite Hl.
  unfold runtimeCancel, assertLive. cbn [negb require].
  unfold CoverScheduler.cancel, mbind, M_bind, get_this. rewrite Hg. cbn [deref].
  unfold deref. cbn [mbind option_bind fmap option_fmap option_map]. rewrite Hr. cbn.
  rewrite Hs, He, Hj. done.
Qed.
