(* ===== verification/Concrete.v ===== *)
(** * A concrete module and backend

    A small executable stand-in for the cryptographic module and for an
    ML-KEM-768 backend.  It satisfies every hypothesis that the theorems make
    about them (totality, correctness of the KEM and of the AEAD, commuting
    Diffie-Hellman), which shows these hypotheses can hold together, and it
    makes the models run.  It has no cryptographic strength. *)

From stdpp Require Import gmap.
From S2P Require Import Prelude Bytes Constants Crypto Cpace X25519 Merkle MlKem MlKemWasm PqRecord.
From S2P Require Import PqFrame Handshake.
Local Open Scope Z_scope.

Definition xor_bytes (a b : bytes) : bytes :=
  zip_with (fun x y => byte_of (Z.lxor (u8 x) (u8 y))) a b.

Lemma xor_bytes_comm a : forall b, xor_bytes a b = xor_bytes b a.
Proof.
  induction a as [|x a IH]; intros [|y b]; cbn; try done. rewrite Z.lxor_comm. f_equal. apply IH.
Qed.

#[export] Instance concrete_crypto : LibCrypto := {|
  _hkdf_sha512_extract salt ikm := (0, salt ++ ikm);
  _hkdf_sha512_expand n prk info := (0, info ++ prk);
  _encrypt_chachapoly_symmetric pt key nonce aad := (0, pt ++ region 16 key);
  _decrypt_chachapoly_symmetric ct key nonce aad :=
    if bytesEqual (slice_from ct (blen ct - 16)) (region 16 key)
    then (0, slice ct 0 (blen ct - 16)) else (-1, []);
  _x25519_keypair e := (0, (region 32 e, region 32 e));
  _x25519_dh sk pk := (0, xor_bytes sk pk);
|}.

#[export] Instance concrete_hkdf_total : HkdfTotal concrete_crypto.
Proof. by split. Qed.

#[export] Instance concrete_aead : AeadCorrect concrete_crypto.
Proof.
  split. intros pt key nonce aad c [= <-]. pose proof (blen_nonneg pt).
  assert (blen (pt ++ region 16 key) = blen pt + 16) as Hl by (rewrite blen_app, blen_region; lia).
  change crypto_aead_chacha20poly1305_ietf_ABYTES with 16.
  rewrite region_id by done. cbn [_decrypt_chachapoly_symmetric concrete_crypto]. rewrite Hl.
  replace (blen pt + 16 - 16) with (blen pt) by lia.
  rewrite slice_from_app by done. rewrite bytesEqual_refl.
  eexists. split; [done|]. rewrite slice_app_l by done. by apply region_id.
Qed.

#[export] Instance concrete_dh_commutes : DhCommutes concrete_crypto.
Proof.
  split. intros e1 e2 kp1 kp2 [= <-] [= <-]. cbn [x_secretKey x_publicKey].
  unfold x25519Dh. rewrite !blen_region by done. cbn -[region xor_bytes].
  by rewrite xor_bytes_comm.
Qed.

#[export] Instance concrete_dh_total : DhTotal concrete_crypto.
Proof.
  split.
  - intros e. by eexists.
  - intros e1 e2 kp1 kp2 [= <-] [= <-]. cbn [x_secretKey x_publicKey].
    unfold x25519Dh. rewrite !blen_region by done. by eexists.
Qed.

(** The secret key holds the public key; the shared secret mixes both. *)
#[export] Instance concrete_backend : MlKemBackend := {|
  backend_suite := ML_KEM_768_SUITE;
  generateKeyPair coins :=
    Some {| kp_public := region 1184 coins; kp_secret := region 2400 (region 1184 coins) |};
  encapsulate coins pk :=
    Some (region 1088 coins, region 32 (xor_bytes (region 1088 coins) (region 1184 pk)));
  decapsulate ct sk := Some (region 32 (xor_bytes ct (region 1184 sk)));
|}.

Lemma region_region n m l : 0 <= n <= m -> region n (region m l) = region n l.
Proof. intros. unfold region. apply resize_resize. lia. Qed.

#[export] Instance concrete_mlkem_correct : MlKemCorrect concrete_backend.
Proof.
  split. intros coins kp coins' ct ss [= <-] [= <- <-]. cbn [kp_public kp_secret decapsulate
    concrete_backend]. by rewrite !region_region by lia.
Qed.

#[export] Instance concrete_mlkem_total : MlKemTotal concrete_backend.
Proof.
  split.
  - intros coins _. eexists. split; [done|]. cbn [kp_public kp_secret].
    rewrite !blen_region by done. done.
  - intros coins' kp coins _ _. eexists _, _. split; [done|]. by rewrite !blen_region.
Qed.

#[export] Instance concrete_sha512 : Sha512 := {|
  crypto_hash_sha512 x := (0, region 64 x);
  subtle_digest_sha512 x := region 64 x;
|}.

#[export] Instance concrete_sha512_correct : Sha512Correct concrete_sha512.
Proof. split; [done|]. intros x. by apply blen_region. Qed.

(** ** A WebAssembly module: a bump allocator and the backend above *)

Definition bump (m : gmap Z bytes) : Z := 1 + foldr Z.max 0 (map fst (map_to_list m)).

Lemma foldr_max_ge l : 0 <= foldr Z.max 0 l /\ forall x, x ∈ l -> x <= foldr Z.max 0 l.
Proof.
  induction l as [|y l [IH0 IH]]; cbn [foldr]; (split; [lia|]).
  - by intros x ?%elem_of_nil.
  - intros x [->|Hx%IH]%elem_of_cons; lia.
Qed.

#[export] Instance concrete_wasm : WasmModule := {|
  _malloc m n := bump m;
  stale m p := [];
  is_export name := true;
  call_keypair name coins := (0, (region 1184 coins, region 2400 (region 1184 coins)));
  call_encaps name pk coins :=
    (0, (region 1088 coins, region 32 (xor_bytes (region 1088 coins) (region 1184 pk))));
  call_decaps name ct sk := (0, region 32 (xor_bytes ct (region 1184 sk)));
|}.

#[export] Instance concrete_malloc : MallocFresh concrete_wasm.
Proof.
  split. intros m n _. destruct (m !! _malloc m n) eqn:E; [|done]. exfalso.
  apply elem_of_map_to_list in E. cbn [_malloc concrete_wasm] in E.
  assert (bump m ∈ map fst (map_to_list m)) as H by (apply list_elem_of_fmap; by eexists (_, _)).
  apply foldr_max_ge in H. unfold bump in H. lia.
Qed.

#[export] Instance concrete_native : MlKemNative ML_KEM_768_SUITE.
Proof.
  split.
  - intros coins _. eexists _, _. split; [done|]. by rewrite !blen_region.
  - intros coins' pk sk coins _ _. eexists _, _. split; [done|]. by rewrite !blen_region.
  - intros coins pk sk coins' ct ss [= <- <-] [= <- <-]. cbn [call_decaps concrete_wasm].
    by rewrite !region_region by lia.
Qed.

(** ** CPace and identities *)

Lemma xor_byte_assoc x y z :
  byte_of (Z.lxor (u8 (byte_of (Z.lxor x y))) z) = byte_of (Z.lxor x (u8 (byte_of (Z.lxor y z)))).
Proof.
  apply u8_inj. rewrite !u8_byte_of. change 256 with (2 ^ 8). apply Z.bits_inj'. intros n Hn.
  rewrite !Z.testbit_mod_pow2, !Z.lxor_spec, !Z.testbit_mod_pow2, !Z.lxor_spec by lia.
  destruct (n <? 8); cbn [andb]; [|done]. by rewrite xorb_assoc.
Qed.

Lemma xor_bytes_assoc a : forall b c, xor_bytes (xor_bytes a b) c = xor_bytes a (xor_bytes b c).
Proof.
  induction a as [|x a IH]; intros [|y b] [|z c]; cbn; try done. f_equal; [apply xor_byte_assoc|apply IH].
Qed.

Lemma blen_xor a b : blen a = blen b -> blen (xor_bytes a b) = blen a.
Proof. unfold blen, xor_bytes. rewrite length_zip_with. lia. Qed.

#[export] Instance concrete_cpace : CpaceModule := {|
  sha512_state := bytes;
  _sha512_init := (0, []);
  _sha512_update s d := (0, s ++ d);
  _sha512_final s := (0, region 64 s);
  _cpace_ristretto255_from_hash h := region 32 h;
  _cpace_ristretto255_scalarmult s p := (0, xor_bytes s p);
  _cpace_ristretto255_scalar_random e := e;
|}.

#[export] Instance concrete_streaming : Sha512Streaming concrete_cpace := {|
  absorbed x := x;
  sha512 x := region 64 x;
  init_absorbed := eq_refl;
  update_absorbed x y := eq_refl;
  final_absorbed x := eq_refl;
|}.

#[export] Instance concrete_cpace_group : CpaceGroup.
Proof.
  assert (forall e, blen (random_scalar e) = 32) as Hs by (intros e; by apply blen_region).
  split; [by eexists|]. intros s e e' Y Y' HY HY'. injection HY as <-. injection HY' as <-.
  exists (xor_bytes (xor_bytes (random_scalar e) (random_scalar e')) (generator_of s)).
  cbn [_cpace_ristretto255_scalarmult concrete_cpace].
  rewrite !region_id by (rewrite blen_xor; rewrite ?Hs, ?blen_generator; done).
  rewrite !xor_bytes_assoc. split; [done|].
  by rewrite <- xor_bytes_assoc, (xor_bytes_comm (random_scalar e')), xor_bytes_assoc.
Qed.

(** A signature starts with the key that made it. *)
#[export] Instance concrete_identity : IdentityModule := {|
  _verify message publicKey signature := if bytesEqual (slice signature 0 32) publicKey then 0 else -1;
  subtle_digest_sha256 x := region 32 x;
|}.
