(* ===== verification/Witnesses.v ===== *)
(** * Runs of the models

    Every theorem that has hypotheses, applied at a concrete input: machines
    built by their constructors over the module of [Concrete], records and
    frames made by the encoders. *)

From Stdlib Require Import String.
From stdpp Require Import relations.
From S2P Require Import Prelude Bytes Constants Crypto X25519 Ratchet RatchetKeys RatchetChain.
From S2P Require Import RatchetSession WireFrames MlKem MlKemWasm PqRecord PqMachine PqInvariant.
From S2P Require Import PqSafety PqSnapshot PqProtocol PqRecovery PqFrame PqMessageKey.
From S2P Require Import RoomPolicy Merkle ChunkCrypto Proto Cpace Handshake HandshakeConfirm HandshakeRun.
From S2P Require Import Concrete.
Local Open Scope Z_scope.
Local Open Scope list_scope.

Definition get {E A} (d : A) (r : result E A) : A := match r with Ok a => a | Err _ => d end.

(** ** Healing machines *)

Definition w_binding : bytes := zeros 32.
Definition w_root : bytes := region 32 (text "root").
Definition w_machine (turn : PqHealingTurn) : machine :=
  Machine ML_KEM_768_SUITE w_binding w_root 0 0 0 turn Idle None None false false.
Definition w_coins : bytes := zeros 64.
Definition w_coins' : bytes := zeros 32.

Lemma w_new turn : new_machine ML_KEM_768_SUITE w_binding w_root turn 0 0 0 = Ok (w_machine turn).
Proof. reflexivity. Qed.

Lemma w_reachable turn : reachable (Cfg (w_machine turn) None).
Proof.
  exists (Cfg (w_machine turn) None). split; [|done]. split; [done|].
  exists ML_KEM_768_SUITE, w_binding, w_root, turn, 0, 0, 0. apply w_new.
Qed.

(** A machine whose [prepareOffer] waits for the backend. *)
Lemma w_reachable_busy :
  reachable (Cfg (set_busy true (w_machine local)) (Some k_prepareOffer)).
Proof.
  exists (Cfg (w_machine local) None). split.
  - split; [done|]. exists ML_KEM_768_SUITE, w_binding, w_root, local, 0, 0, 0. apply w_new.
  - apply rtc_once, (step_start call_prepareOffer). reflexivity.
Qed.

Lemma w_machine_inv turn : machine_inv (w_machine turn).
Proof. eapply new_machine_inv, w_new. Qed.

Lemma reachable_machine_invariant_witness :
  cfg_inv (Cfg (set_busy true (w_machine local)) (Some k_prepareOffer)).
Proof. apply reachable_machine_invariant, w_reachable_busy. Defined.

Lemma failed_call_is_atomic_witness :
  run_op do_commitPreparedAdvance (w_machine local) =
    (Err (PqHealingError invalid_state), w_machine local) /\
  (forall o e m', run_op o (w_machine local) = (Err e, m') -> m' = w_machine local).
Proof. split; [reflexivity|]. apply (failed_call_is_atomic (w_machine local)), w_machine_inv. Defined.

Lemma epoch_counters_lockstep_witness :
  exists n, 0 <= n /\ advanced_by n (w_machine local)
    (mach (Cfg (set_busy true (w_machine local)) (Some k_prepareOffer))).
Proof.
  apply (epoch_counters_lockstep (Cfg (w_machine local) None)); [apply w_reachable|].
  apply rtc_once, (step_start call_prepareOffer). reflexivity.
Defined.

(** The offer that [w_machine local] prepares. *)
Definition w_offer : bytes := get [] (fst (prepareOffer w_coins (w_machine local))).
Definition w_offer_decoded : DecodedOffer :=
  get {| offer_header := {| senderCounter := 0; fromEpoch := 0; toEpoch := 0 |};
         offer_bytes := []; publicKey := [] |}
    (decodeOffer w_offer ML_KEM_768_SUITE (Some w_binding)).
Definition w_accepted : machine := set_phase (InboundOffer w_offer_decoded) (w_machine remote).

Lemma w_offer_decodes : decodeOffer w_offer ML_KEM_768_SUITE (Some w_binding) = Ok w_offer_decoded.
Proof. vm_compute. reflexivity. Qed.
Lemma w_accepts : acceptAuthenticatedOffer w_offer (w_machine remote) = (Ok tt, w_accepted).
Proof. vm_compute. reflexivity. Qed.

Lemma offer_accepted_at_most_once_witness :
  acceptAuthenticatedOffer w_offer (w_machine remote) = (Ok tt, w_accepted) /\
  acceptAuthenticatedOffer w_offer w_accepted <> (Ok tt, w_accepted).
Proof.
  split; [apply w_accepts|].
  apply (offer_accepted_at_most_once (Cfg (w_machine remote) None) w_offer w_offer_decoded tt
           w_accepted (Cfg w_accepted None) w_offer w_offer_decoded).
  - apply w_reachable.
  - apply w_offer_decodes.
  - apply w_accepts.
  - done.
  - apply w_offer_decodes.
  - reflexivity.
Defined.

Lemma w_accepted_inv : machine_inv w_accepted.
Proof.
  assert (reachable (Cfg w_accepted None)) as [H _]%reachable_inv; [|by apply H].
  destruct (w_reachable remote) as (c0 & H0 & Hs). exists c0. split; [done|].
  eapply rtc_r; [done|]. by apply (step_op (do_acceptAuthenticatedOffer w_offer) (Cfg (w_machine remote) None) (Ok tt)), w_accepts.
Qed.

Lemma clone_is_identity_witness : clone w_accepted = (Ok w_accepted, w_accepted).
Proof. apply clone_is_identity; [apply w_accepted_inv|split; reflexivity]. Defined.

Definition w_snapshot : PqHealingSnapshot :=
  {| s_formatVersion := 1; s_parameterSet := 768; s_binding := w_binding; s_rootKey := w_root;
     s_epoch := 0; s_localCounter := 0; s_remoteCounter := 0; s_nextOfferer := remote;
     s_phase := snap_inbound_offer w_offer; s_lastInboundOffer := None;
     s_lastInboundAdvance := None |}.

Lemma restore_is_faithful_witness :
  restore w_snapshot ML_KEM_768_SUITE w_binding = Ok w_accepted /\
  snapshot w_accepted = (Ok w_snapshot, w_accepted).
Proof.
  assert (restore w_snapshot ML_KEM_768_SUITE w_binding = Ok w_accepted) as H
    by (vm_compute; reflexivity).
  split; [exact H|]. apply (restore_is_faithful _ _ _ _ H).
Defined.

(** ** Two machines *)

Definition w_offering : machine :=
  snd (prepareOffer w_coins (w_machine local)).
Definition w_dispatched : machine := snd (markOfferDispatched w_offering).

Lemma w_prepares : prepareOffer w_coins (w_machine local) = (Ok w_offer, w_offering).
Proof. vm_compute. reflexivity. Qed.
Lemma w_dispatches :
  copyPendingOutboundRecord w_offering = (Ok w_offer, w_offering) /\
  markOfferDispatched w_offering = (Ok tt, w_dispatched).
Proof. split; vm_compute; reflexivity. Qed.

Lemma w_initial : wreachable (Node (w_machine local) [], Node (w_machine remote) []).
Proof.
  eexists. split; [|done].
  exists ML_KEM_768_SUITE, w_binding, w_root, 0, 0, 0, (w_machine local), (w_machine remote).
  split; [apply w_new|]. split; [apply w_new|]. by left.
Qed.

(** The offer is in flight. *)
Lemma w_in_flight :
  wreachable (Node w_dispatched [MOffer w_offer], Node (w_machine remote) []).
Proof.
  destruct w_initial as (w0 & H0 & Hs). exists w0. split; [done|].
  eapply rtc_r; [eapply rtc_r; [done|]|]; apply wstep_l.
  - eapply act_prepareOffer, w_prepares.
  - by eapply act_dispatchOffer; apply w_dispatches.
Qed.

Lemma healing_roots_agree_witness :
  trafficBlocked (w_machine remote) = false /\ trafficBlocked w_dispatched = true /\
  m_rootKey w_dispatched = m_rootKey (w_machine remote).
Proof.
  split; [reflexivity|]. split; [vm_compute; reflexivity|].
  apply (healing_roots_agree (Node w_dispatched [MOffer w_offer]) (Node (w_machine remote) []));
    [apply w_in_flight|]. by right.
Defined.

Lemma healing_recovers_witness :
  exists x' y', rtc wstep (Node w_dispatched [MOffer w_offer], Node (w_machine remote) []) (x', y') /\
    settled (x', y') /\
    m_epoch (nm x') = m_epoch (nm y') /\ m_rootKey (nm x') = m_rootKey (nm y').
Proof. apply healing_recovers, w_in_flight. Defined.

Lemma healing_exchange_completes_witness :
  exists p q : machine, exchange w_coins w_coins' (w_machine local) (w_machine remote) = Ok (p, q) /\
    m_epoch p = 1 /\ m_epoch q = 1 /\ m_rootKey p = m_rootKey q.
Proof.
  destruct (healing_exchange_completes (Node (w_machine local) []) (Node (w_machine remote) [])
    w_coins w_coins') as (p & q & H & _ & _ & _ & _ & H1 & H2 & H3 & _);
    [apply w_initial|reflexivity|reflexivity|reflexivity|by vm_compute|reflexivity|reflexivity|].
  exists p, q. split; [exact H|]. split; [exact H1|]. split; [exact H2|exact H3].
Defined.

(** ** Records *)

Lemma offer_codec_canonical_witness :
  encodeOffer ML_KEM_768_SUITE w_binding 0 0 (publicKey w_offer_decoded) = Ok w_offer.
Proof.
  apply (offer_codec_canonical ML_KEM_768_SUITE w_binding w_offer w_offer_decoded);
    [reflexivity|reflexivity|apply w_offer_decodes].
Defined.

Definition w_advance : bytes :=
  get [] (encodeAdvance ML_KEM_768_SUITE w_binding 0 w_offer_decoded (zeros 1088)).
Definition w_advance_decoded : DecodedAdvance :=
  {| advance_header := {| senderCounter := 0; fromEpoch := 0; toEpoch := 1 |};
     advance_bytes := w_advance; advance_offer := w_offer_decoded; ciphertext := zeros 1088 |}.

Lemma advance_codec_canonical_witness :
  decodeAdvance w_advance ML_KEM_768_SUITE (Some w_binding) = Ok w_advance_decoded.
Proof.
  apply (advance_codec_canonical ML_KEM_768_SUITE w_binding w_advance w_advance_decoded);
    [reflexivity|reflexivity|].
  split_and!; [vm_compute; reflexivity|apply w_offer_decodes|reflexivity..].
Defined.

Definition w_ack : PqHealingAdvanceAcknowledgement := {| ack_epoch := 1; advanceCounter := 0 |}.
Definition w_ack_record : bytes := get [] (encodePqHealingAck w_ack ML_KEM_768_SUITE w_binding).

Lemma ack_codec_canonical_witness :
  decodePqHealingAck w_ack_record ML_KEM_768_SUITE w_binding = Ok w_ack.
Proof.
  apply (ack_codec_canonical ML_KEM_768_SUITE w_binding w_ack_record w_ack);
    [reflexivity|reflexivity|vm_compute; reflexivity].
Defined.

(** ** Control frames *)

Definition w_direction : string := "initiator-to-responder".
Definition w_nonce : bytes := zeros 12.
Definition w_frame : bytes :=
  get [] (sealPqControlFrame ML_KEM_768_SUITE w_root w_binding w_direction 1 w_ack_record w_nonce).

Lemma w_sealed :
  sealPqControlFrame ML_KEM_768_SUITE w_root w_binding w_direction 1 w_ack_record w_nonce
  = Ok w_frame.
Proof. reflexivity. Qed.

Lemma control_frame_roundtrip_witness :
  blen w_frame = WIRE_CHUNK_FRAME_LEN /\
  openPqControlFrame ML_KEM_768_SUITE w_root w_binding w_direction 1 w_frame = Ok w_ack_record.
Proof.
  apply (control_frame_roundtrip ML_KEM_768_SUITE w_root w_binding w_direction 1 w_ack_record w_nonce);
    [reflexivity|apply w_sealed].
Defined.

Lemma w_opens :
  blen w_frame = WIRE_CHUNK_FRAME_LEN /\
  openPqControlFrame ML_KEM_768_SUITE w_root w_binding w_direction 1 w_frame = Ok w_ack_record.
Proof. split; vm_compute; reflexivity. Qed.

Lemma control_frame_open_sound_witness :
  exists key nonce plaintext ct,
    w_frame = cell_header FRAME_TYPE_PQ_CONTROL w_binding (get_u64 w_frame CTRL_COUNTER_OFFSET) 0
                1 nonce ++ ct /\
    blen w_frame = WIRE_CHUNK_FRAME_LEN /\
    deriveFrameKey ML_KEM_768_SUITE w_root w_binding w_direction 1 = Ok key /\
    aeadOpen key nonce ct (slice w_frame 0 PQ_CONTROL_FRAME_HEADER_BYTES) = Ok plaintext /\
    plaintext = padded w_ack_record /\
    inspectControlRecord w_ack_record ML_KEM_768_SUITE w_binding =
      Ok {| icr_counter := get_u64 w_frame CTRL_COUNTER_OFFSET; icr_keyEpoch := 1 |}.
Proof. exact (control_frame_open_sound _ _ _ _ _ _ _ (proj2 w_opens)). Defined.

(** The frame of epoch 1 is refused in epoch 2. *)
Lemma control_frame_header_refused_witness :
  openPqControlFrame ML_KEM_768_SUITE w_root w_binding w_direction 2 w_frame = cfail epoch_mismatch.
Proof.
  refine (proj2 (proj2 (control_frame_header_refused ML_KEM_768_SUITE w_root w_binding w_direction 2
    w_frame (proj1 w_opens) _ _)) _ _ _ _); vm_compute; done || congruence.
Defined.

Lemma frame_key_info_injective_witness :
  parameterSet ML_KEM_768_SUITE = parameterSet ML_KEM_768_SUITE /\ w_direction = w_direction /\
  w_binding = w_binding /\ 1 = 1.
Proof.
  apply (frame_key_info_injective ML_KEM_768_SUITE ML_KEM_768_SUITE w_direction w_direction
    w_binding w_binding 1 1 1 1 1 1); try reflexivity; by vm_compute.
Defined.

(** ** Wire frames *)

Definition w_header : RatchetHeader := {| h_dhPub := zeros 32; h_N := 7; h_PN := 3 |}.
Definition w_chunk : bytes := get [] (packChunkFrameHeader w_header w_nonce 5) ++ text "cell".

Lemma w_chunk_parses : exists p, parseChunkFrameHeader w_chunk = Ok p.
Proof. eexists. vm_compute. reflexivity. Qed.

Lemma chunk_frame_canonical_witness : exists p out,
  packChunkFrameHeader (pf_header p) (pf_nonce p) (pf_pqEpoch p) = Ok out /\
  w_chunk = out ++ pf_ciphertext p.
Proof.
  destruct w_chunk_parses as (p & Hp). exists p.
  destruct (chunk_frame_canonical w_chunk p Hp) as (out & H1 & H2 & _). by exists out.
Defined.

(** ** Ratchets *)

Definition w_keypair : X25519KeyPair := {| x_publicKey := region 32 []; x_secretKey := region 32 [] |}.

Lemma three_dh_agrees_witness :
  deriveInteractive3dhSecret (zeros 32) (zeros 32) (zeros 32) (zeros 32) true =
  deriveInteractive3dhSecret (zeros 32) (zeros 32) (zeros 32) (zeros 32) false.
Proof. apply (three_dh_agrees [] [] [] [] w_keypair w_keypair w_keypair w_keypair); reflexivity. Defined.

Definition w_chain : bytes := zeros 32.
Definition w_pub : bytes := zeros 32.
Definition w_receiver : RatchetState :=
  {| rootSuite := MLKEM768; rootKey := zeros 32; sendingChainKey := None;
     receivingChainKey := Some w_chain; dhSelfPub := region 32 [byte_of 1]; dhSelfSec := region 32 [byte_of 1];
     dhRemotePub := Some w_pub; Ns := 0; Nr := 0; PN := 0; skipped := [] |}.
Definition w_sender : RatchetState :=
  {| rootSuite := MLKEM768; rootKey := zeros 32; sendingChainKey := Some w_chain;
     receivingChainKey := None; dhSelfPub := w_pub; dhSelfSec := w_pub;
     dhRemotePub := Some (region 32 [byte_of 1]); Ns := 0; Nr := 0; PN := 0; skipped := [] |}.

Lemma w_fresh : fresh_receiver w_chain w_pub w_receiver.
Proof. split_and!; try done. apply NoDup_nil_2. Qed.
Lemma w_receiving : receiving_from w_chain w_pub w_receiver.
Proof. apply fresh_receiving, w_fresh. Qed.

Lemma decrypt_current_chain_witness :
  outcome w_chain w_pub 2 w_receiver (ratchetDecrypt (current_header w_pub 2 0) [] w_receiver).
Proof. apply decrypt_current_chain; [apply w_receiving|lia|lia]. Defined.

Lemma message_key_used_once_witness :
  (deliver [] [current_header w_pub 2 0; current_header w_pub 0 0; current_header w_pub 2 0]
     w_receiver).1 !! 2%nat = Some (Err AlreadyConsumed).
Proof.
  apply (message_key_used_once w_chain w_pub w_receiver [] (current_header w_pub 2 0)
    [current_header w_pub 0 0; current_header w_pub 2 0] 1 (current_header w_pub 2 0)).
  - apply w_receiving.
  - split_and!; [reflexivity|done|done].
  - repeat constructor; done.
  - vm_compute. reflexivity.
  - reflexivity.
  - reflexivity.
Defined.

Definition w_sent : list (bytes * RatchetHeader) := get [] (fst (send_n 3 w_sender)).

Lemma out_of_order_delivery_witness : exists k0 h0 k1 h1 k2 h2,
  w_sent = [(k0, h0); (k1, h1); (k2, h2)] /\
  (deliver [] [h2; h0] w_receiver).1 = [Ok k2; Ok k0].
Proof.
  exists (nth 0 w_sent.*1 []), (nth 0 w_sent.*2 w_header), (nth 1 w_sent.*1 []),
    (nth 1 w_sent.*2 w_header), (nth 2 w_sent.*1 []), (nth 2 w_sent.*2 w_header).
  split; [vm_compute; reflexivity|].
  apply (out_of_order_delivery w_chain w_pub w_sender w_receiver 3 w_sent (snd (send_n 3 w_sender))
    [(nth 2 w_sent.*1 [], nth 2 w_sent.*2 w_header); (nth 0 w_sent.*1 [], nth 0 w_sent.*2 w_header)] []).
  - split_and!; reflexivity || done.
  - reflexivity.
  - done.
  - done.
  - vm_compute. reflexivity.
  - apply w_fresh.
  - intros x [->|[->|[]%elem_of_nil]%elem_of_cons]%elem_of_cons.
    + right. right. left.
    + left.
  - vm_compute. repeat constructor; by intros ?%list_elem_of_singleton || by intros ?%elem_of_nil.
Defined.

Definition w_ratchet : RatchetState :=
  get w_receiver (initRatchet (zeros 32) true (Some w_pub) MLKEM768 []).

Lemma skipped_keys_bounded_witness :
  blen (skipped (after_calls [call_encrypt; call_decrypt (current_header w_pub 5 0) []] w_ratchet))
    <= MAX_SKIP_SESSION.
Proof.
  apply (skipped_keys_bounded (zeros 32) true (Some w_pub) MLKEM768 [] w_ratchet). reflexivity.
Defined.

Lemma persisted_ratchet_faithful_witness :
  deserializeRatchet (serializeRatchet (after_calls [call_encrypt] w_ratchet)) =
  after_calls [call_encrypt] w_ratchet.
Proof.
  apply (persisted_ratchet_faithful (zeros 32) true (Some w_pub) MLKEM768 []). reflexivity.
Defined.

(** The bootstrap gives the pair of states that a DH step needs. *)
Lemma bootstrap_agrees_witness : exists b0 a b ck ck',
  initRatchet (zeros 32) false None MLKEM768 [byte_of 1] = Ok b0 /\
  initRatchet (zeros 32) true (Some (dhSelfPub b0)) MLKEM768 [byte_of 2] = Ok a /\
  primeResponderRatchet (dhSelfPub a) [byte_of 3] b0 = (Ok tt, b) /\
  sending_on ck (dhSelfPub a) a /\ Ns a = 0 /\ fresh_receiver ck (dhSelfPub a) b /\
  paired b a ck' /\ Ns b = 0.
Proof. apply bootstrap_agrees. Defined.

(** The two ends after the bootstrap: the responder has stepped last. *)
Definition w_b0 : RatchetState :=
  get w_receiver (initRatchet (zeros 32) false None MLKEM768 [byte_of 1]).
Definition w_a : RatchetState :=
  get w_receiver (initRatchet (zeros 32) true (Some (dhSelfPub w_b0)) MLKEM768 [byte_of 2]).
Definition w_b : RatchetState := snd (primeResponderRatchet (dhSelfPub w_a) [byte_of 3] w_b0).
Definition w_ck : bytes := default [] (sendingChainKey w_b).

Lemma w_paired : paired w_b w_a w_ck.
Proof.
  split.
  - exists [byte_of 3]. eexists. split; [reflexivity|]. split; vm_compute; reflexivity.
  - exists [byte_of 2]. eexists. split; [reflexivity|]. split; vm_compute; reflexivity.
  - vm_compute. reflexivity.
  - exists (get [] (x25519Dh (dhSelfSec w_b) (dhSelfPub w_a))). split; vm_compute; reflexivity.
  - split_and!; [reflexivity|vm_compute; done|vm_compute; reflexivity].
Qed.

Lemma w_a_inv : ratchet_inv w_a.
Proof.
  eapply (initRatchet_inv (zeros 32) true (Some (dhSelfPub w_b0)) MLKEM768 [byte_of 2]). reflexivity.
Qed.

(** The initiator receives the responder's second message first. *)
Lemma dh_step_agrees_witness : exists a' ck',
  ratchetDecrypt (current_header (dhSelfPub w_b) 1 0) [byte_of 4] w_a = (Ok (nth_key w_ck 1), a') /\
  receiving_from w_ck (dhSelfPub w_b) a' /\ paired a' w_b ck'.
Proof.
  destruct (dh_step_agrees w_b w_a w_ck (current_header (dhSelfPub w_b) 1 0) [byte_of 4])
    as (a' & ck' & H1 & H2 & _ & H3 & _).
  - apply w_paired.
  - apply w_a_inv.
  - split_and!; [reflexivity|done|done].
  - done.
  - vm_compute. done.
  - vm_compute. congruence.
  - intros n _. change (keys (skipped w_a)) with (@nil string). apply not_elem_of_nil.
  - exists a', ck'. split; [exact H1|]. split; [exact H2|exact H3].
Defined.

(** ** Message keys and policies *)

Definition w_context : PqMessageKeyContext :=
  {| ctx_rootKey := zeros 32; ctx_rootSuite := root_suite_string RATCHET_ROOT_SUITE;
     ctx_binding := w_binding; ctx_epoch := 3 |}.
Definition w_info : bytes := get [] (encodeInfo w_context (current_header w_pub 1 0)).

Lemma message_key_info_injective_witness :
  exists h', encodeInfo w_context h' = Ok w_info /\ current_header w_pub 1 0 = h'.
Proof.
  exists (current_header w_pub 1 0). split; [vm_compute; reflexivity|].
  apply (message_key_info_injective w_context w_context (current_header w_pub 1 0)
    (current_header w_pub 1 0) w_info); vm_compute; reflexivity.
Defined.

Lemma combine_consumes_key_witness :
  snd (combinePqMessageKey {| v_buffer := 0; v_byteOffset := 0; v_byteLength := 32 |}
         {| v_buffer := 1; v_byteOffset := 0; v_byteLength := 32 |} (zeros 32) w_context
         (current_header w_pub 1 0)) = zeros 32.
Proof.
  pose proof (combine_consumes_key {| v_buffer := 0; v_byteOffset := 0; v_byteLength := 32 |}
    {| v_buffer := 1; v_byteOffset := 0; v_byteLength := 32 |} (zeros 32) w_context
    (current_header w_pub 1 0)) as [_ H].
  by apply H.
Defined.

Definition w_policy : bytes := get [] (encodeRoomPolicyV1 DEFAULT_ROOM_POLICY_V1).

Lemma room_policy_canonical_witness : encodeRoomPolicyV1 DEFAULT_ROOM_POLICY_V1 = Ok w_policy.
Proof. apply (room_policy_canonical w_policy). vm_compute. reflexivity. Defined.

Lemma room_policies_equal_spec_witness : exists b,
  roomPoliciesEqualV1 DEFAULT_ROOM_POLICY_V1 DEFAULT_ROOM_POLICY_V1 = Ok b /\ (b = true <-> DEFAULT_ROOM_POLICY_V1 = DEFAULT_ROOM_POLICY_V1).
Proof.
  apply (room_policies_equal_spec DEFAULT_ROOM_POLICY_V1 DEFAULT_ROOM_POLICY_V1);
    vm_compute; reflexivity.
Defined.

(** ** Messages *)

Lemma get_ok {E A} (d : A) (r : result E A) : is_ok r = true -> r = Ok (get d r).
Proof. by destruct r. Qed.

Definition w_small : list bytes := [text "one"; text "two"; text "three"].
Definition w_small_root : bytes := get [] (getMerkleRoot (tree_of w_small)).
Definition w_small_proof : bytes :=
  get [] (getMerkleProof (tree_of w_small) (hashMerkleLeaf (text "two")) 0 []).

Lemma merkle_proof_verifies_witness : exists root proof,
  getMerkleRoot (tree_of w_small) = Ok root /\
  getMerkleProof (tree_of w_small) (hashMerkleLeaf (text "two")) 0 [] = Ok proof /\
  verifyMerkleProof (text "two") root proof = Ok true.
Proof.
  destruct (merkle_proof_verifies w_small (text "two")) as (root & proof & H1 & H2 & H3 & _).
  - apply list_elem_of_further, list_elem_of_here.
  - by exists root, proof.
Defined.

Lemma merkle_proof_sound_witness : text "two" ∈ w_small \/
  collides (message_inputs w_small) (item_inputs (Z.to_nat (blen w_small_proof / ARTIFACT_BYTES)) (text "two") w_small_proof).
Proof.
  apply (merkle_proof_sound w_small (text "two") w_small_root w_small_proof); vm_compute; reflexivity.
Defined.

Lemma twin_chunks_root_from_proof_witness : exists root proof,
  getMerkleRoot (tree_of [text "x"; text "x"]) = Ok root /\
  getMerkleProof (tree_of [text "x"; text "x"]) (hashMerkleLeaf (text "x")) 0 [] = Ok proof /\
  getMerkleRootFromProof (text "x") proof = Ok (hashMerkleLeaf (text "x")).
Proof.
  destruct (twin_chunks_root_from_proof (text "x")) as (root & proof & H1 & H2 & _ & H3 & _).
  by exists root, proof.
Defined.

(** A one-chunk message, received in epoch 3. *)
Definition w_c : bytes := zeros CHUNK_LEN.
Definition w_mroot : bytes := hashMerkleLeaf w_c.
Definition w_mheader : RatchetHeader := current_header w_pub 1 0.
Definition w_mk : bytes := get [] (fst (ratchetDecrypt w_mheader [] w_receiver)).
Definition w_live : receiver := {| ratchet := w_receiver; cache := [] |}.
Definition w_resolver : option PqMessageKeyContextResolver := Some (fun _ => Ok (Some w_context)).
Definition w_cacheK : string := get EmptyString (messageCacheKey w_pub 1 (Some 3)).

Definition w_field : bytes := get [] (getMerkleProof (tree_of [w_c]) w_mroot PROOF_LEN []).
Definition w_plain : bytes := zeros METADATA_LEN ++ w_field ++ w_c.
Definition w_mframe : bytes :=
  get [] (sealChunk w_mk w_mheader w_plain w_mroot (Some w_context) (zeros 12)).
Definition w_sent_chunk : sent_chunk := {|
  sc_chunk := w_c; sc_metadata := zeros METADATA_LEN; sc_noise := []; sc_field := w_field;
  sc_nonce := zeros 12; sc_frame := w_mframe |}.

Lemma w_msealed : sealed_of [w_c] w_mroot w_mk w_mheader (Some w_context) w_sent_chunk.
Proof.
  split_and!.
  - apply list_elem_of_here.
  - apply blen_zeros. done.
  - apply blen_zeros. done.
  - apply get_ok. reflexivity.
  - apply get_ok. reflexivity.
Qed.

Lemma w_receiver_inv : ratchet_inv w_receiver.
Proof.
  split; [|done]. split; try done.
  - apply NoDup_nil_2.
  - intros k Hk. by apply elem_of_nil in Hk.
Qed.

Lemma message_delivered_witness : exists key,
  receive_all [w_mframe; w_mframe] w_mroot w_resolver [] w_live =
    ([Ok (delivered w_sent_chunk true); Ok (delivered w_sent_chunk false)],
     {| ratchet := snd (ratchetDecrypt w_mheader [] w_receiver); cache := map_set w_cacheK key [] |}).
Proof.
  destruct (message_delivered [w_c] w_mroot w_mk w_mheader (Some w_context) w_resolver w_cacheK [] w_live
    (snd (ratchetDecrypt w_mheader [] w_receiver)) w_sent_chunk [w_sent_chunk]) as (key & _ & H).
  - done.
  - vm_compute. reflexivity.
  - vm_compute. reflexivity.
  - repeat constructor; apply w_msealed.
  - reflexivity.
  - reflexivity.
  - apply w_receiver_inv.
  - reflexivity.
  - vm_compute. reflexivity.
  - exists key. exact H.
Defined.

(** Nothing of this frame is a chunk frame. *)
Lemma unauthenticated_frame_rolls_back_witness :
  let '(r, st') := decryptMessageChunk (zeros 69) w_mroot w_resolver [] w_live in
  (st' = w_live /\ forall d, r = Ok d -> stateAdvanced d = false) \/
  committed (zeros 69) w_mroot w_resolver [] w_live r st'.
Proof. apply (unauthenticated_frame_rolls_back (zeros 69) w_mroot w_resolver [] w_live), w_receiver_inv. Defined.

Definition w_mkey : bytes := get [] (chunk_key w_mk w_mheader (Some w_context)).

Lemma w_decrypts : decryptMessageChunk (sc_frame w_sent_chunk) w_mroot w_resolver [] w_live =
  (Ok (delivered w_sent_chunk true),
   {| ratchet := snd (ratchetDecrypt w_mheader [] w_receiver); cache := map_set w_cacheK w_mkey [] |}).
Proof.
  refine (deliver_first [w_c] w_mroot w_mk w_mheader (Some w_context) w_resolver MLKEM768 w_cacheK [] w_mkey
    _ _ _ _ _ _ w_sent_chunk w_live (snd (ratchetDecrypt w_mheader [] w_receiver))
    w_msealed w_receiver_inv eq_refl eq_refl _);
    [done|vm_compute; reflexivity|vm_compute; reflexivity|reflexivity|reflexivity|vm_compute; reflexivity
    |vm_compute; reflexivity].
Qed.

Lemma accepted_chunk_is_genuine_witness : exists pt key,
  decrypted (delivered w_sent_chunk true) = Some pt /\
  receiveWithKey (sc_frame w_sent_chunk) w_mroot key = Ok (0, Some pt) /\
  (slice pt CHUNK_START DECRYPTED_LEN ∈ [w_c] \/
   collides (message_inputs [w_c]) (cell_inputs (frame_cell (sc_frame w_sent_chunk) w_mroot key))).
Proof.
  apply (accepted_chunk_is_genuine [w_c] w_mroot (sc_frame w_sent_chunk) w_resolver [] w_live
    (delivered w_sent_chunk true)
    {| ratchet := snd (ratchetDecrypt w_mheader [] w_receiver); cache := map_set w_cacheK w_mkey [] |}).
  - vm_compute. reflexivity.
  - apply w_decrypts.
  - reflexivity.
Defined.

(** ** The WebAssembly backend *)

Definition w_heap : heap := {| live := ∅; returned := [] |}.

Lemma kem_calls_leave_no_trace_witness :
  clean [pub 1184; sec 2400; sec 64] w_heap
    (snd (wasm_generateKeyPair ML_KEM_768_SUITE None w_heap)) /\
  live (snd (wasm_generateKeyPair ML_KEM_768_SUITE None w_heap)) = ∅.
Proof.
  assert (clean [pub 1184; sec 2400; sec 64] w_heap
    (snd (wasm_generateKeyPair ML_KEM_768_SUITE None w_heap))) as H.
  { apply (kem_calls_leave_no_trace ML_KEM_768_SUITE [] [] [] None w_heap). }
  split; [exact H|]. destruct H as [H _]. exact H.
Defined.

Lemma wasm_backend_correct_witness :
  MlKemCorrect (wasm_backend ML_KEM_768_SUITE w_heap) /\ MlKemTotal (wasm_backend ML_KEM_768_SUITE w_heap).
Proof.
  apply (wasm_backend_correct ML_KEM_768_SUITE true w_heap).
  - intros canonical [= <-]. split; [apply concrete_native|]. apply (bool_decide_unpack _). vm_compute. exact I.
  - reflexivity.
Defined.

(** ** Handshake *)

Definition w_id (name : string) : X25519KeyPair :=
  {| x_publicKey := region 32 (text name); x_secretKey := region 32 (text name) |}.
Definition w_ed (name : string) : bytes := region 32 (text name).
Definition w_channel : bytes := buildChannelInput
  {| ci_channelId := text "main"; ci_ikInitiator := w_ed "edA"; ci_ikResponder := w_ed "edB";
     ci_fpInitiator := text "fpA"; ci_fpResponder := text "fpB"; ci_pqMode := hybrid_mlkem768 |}.
Definition w_params (role : bool) (self selfEd peerEd : string) : HandshakeCoreParams := {|
  hp_mode := pin; hp_pqMode := hybrid_mlkem768; hp_pin := Some (text "4711");
  hp_channelInput := w_channel; hp_amInitiator := role;
  hp_idSelfSec := x_secretKey (w_id self); hp_selfIdentityX25519Pub := x_publicKey (w_id self);
  hp_selfIdentityCrossSignature := region 64 (w_ed selfEd);
  hp_peerIdentityEd25519Pub := w_ed peerEd |}.
Definition w_pI : HandshakeCoreParams := w_params true "alice" "edA" "edB".
Definition w_pR : HandshakeCoreParams := w_params false "bob" "edB" "edA".
Definition w_entropy (name : string) : HandshakeEntropy := {|
  en_sid := text name; en_ek := text name; en_kem := text name; en_scalar := text name;
  en_ratchet := text name; en_prime := text name |}.

Lemma w_honest : honest_pair w_pI w_pR (w_id "alice") (w_id "bob").
Proof.
  split; try reflexivity; try (split; reflexivity).
  - exists (text "alice"). reflexivity.
  - exists (text "bob"). reflexivity.
  - intros _. exists (text "4711"). split; [reflexivity|]. by vm_compute.
  - by vm_compute.
Qed.

Lemma w_kem_ready : kem_ready (pq_suite (hp_pqMode w_pI)) w_heap w_heap (w_entropy "a") (w_entropy "b").
Proof.
  split.
  - reflexivity.
  - apply (bool_decide_unpack _). vm_compute. exact I.
  - apply (bool_decide_unpack _). vm_compute. exact I.
  - do 4 eexists. split; [reflexivity|]. split; [reflexivity|]. by vm_compute.
Qed.

Lemma w_sha256 : forall x, blen (subtle_digest_sha256 x) = 32.
Proof. intros x. by apply blen_region. Qed.

Lemma handshake_completes_witness : exists rI rR,
  linked_ends (pq_suite (hp_pqMode w_pI)) rI rR /\
  rtc lstep (Link (performHandshakeCore w_heap w_pI (w_entropy "a"))
                  (performHandshakeCore w_heap w_pR (w_entropy "b")) [] [])
    (Link (Done (Ok rI)) (Done (Ok rR)) [] []).
Proof.
  destruct (handshake_completes w_pI w_pR (w_id "alice") (w_id "bob") (w_entropy "a") (w_entropy "b")
    w_heap w_heap w_honest w_kem_ready w_sha256) as (rI & rR & Hl & Hr).
  exists rI, rR. split; [exact Hl|]. apply Hr. apply rtc_refl.
Defined.

Lemma key_confirmation_witness : exists evsI rI evsR rR tI vI tR vR,
  resolves evsI (performHandshakeCore w_heap w_pI (w_entropy "a")) (Ok rI) /\
  resolves evsR (performHandshakeCore w_heap w_pR (w_entropy "b")) (Ok rR) /\
  evsI = left_events (conversation tI vI) /\ evsR = right_events (conversation tR vR).
Proof.
  destruct (honest_runs w_pI w_pR (w_id "alice") (w_id "bob") (w_entropy "a") (w_entropy "b")
    w_heap w_heap w_honest w_kem_ready w_sha256) as (rI & rR & t & v & Hl & HI & HR).
  destruct (key_confirmation w_heap w_pI (w_entropy "a") _ rI w_heap w_pR (w_entropy "b") _ rR
    (hn_okI _ _ _ _ w_honest) (hn_okR _ _ _ _ w_honest) eq_refl eq_refl eq_refl HI HR)
    as (tI & vI & tR & vR & HeI & HeR & _).
  exists (left_events (conversation t v)), rI, (right_events (conversation t v)), rR, tI, vI, tR, vR.
  split; [exact HI|]. split; [exact HR|]. split; [exact HeI|exact HeR].
Defined.

Lemma cpace_generator_binds_witness :
  deriveGenerator (text "4711") (zeros 32) w_channel =
    Ok (generator_of (generator_string (text "4711") (zeros 32) w_channel)) /\
  blen (lv_cat [CPACE_DSI_BYTES; text "4711"; zeros (zpad (text "4711"))]) = 128.
Proof.
  destruct (cpace_generator_binds (text "4711") (zeros 32) w_channel) as (H1 & H2 & _);
    [by vm_compute..|]. split; [exact H1|]. apply H2. by vm_compute.
Defined.
