(* ===== verification/CoverWitnesses.v ===== *)
(** * Runs of the cover models

    The theorems on cover traffic, channel labels and scheduled transfers,
    applied at concrete schedules, event sequences and cells. *)

From Stdlib Require Import Strings.Byte.
From Stdlib Require Strings.String.
From stdpp Require Import gmap sorting.
From S2P Require Import Prelude Bytes Constants Crypto WireFrames PqFrame PqMessageKey RoomPolicy CoverCell ChannelLabel CoverGeometry.
From S2P Require Import CoverScheduler CoverInvariant CoverTiming CoverRuntime CoverTransfer.
From S2P Require Import Concrete.
Local Open Scope Z_scope.

(** ** A scheduler that sends *)

(** The clock advances 5 ms per call. *)
Definition v_clock (n : nat) : Z := 5 * Z.of_nat n.
Definition v_world : World :=
  {| w_now := fun n => Some (v_clock n); w_lane := fun _ _ => true;
     w_close := fun _ _ _ => true; w_onResult := fun _ _ => [] |}.
Definition v_job : CoverJob :=
  {| job_id := "job"; job_kind := CoverScheduler.control; declaredCellCount := 1; job_priority := None;
     job_has_cancelCell := false |}.
Definition v_events : list CoverEvent :=
  [Enqueue v_job; Start; TimerFires; TimerFires; TaskResumes 0 (a_cell [byte_of 7]); TaskResumes 0 a_ready].

Lemma v_options : validateSchedulerOptions trace_schedule 49 = Ok tt.
Proof. vm_compute. reflexivity. Qed.
Lemma v_monotone n m : (n <= m)%nat -> v_clock n <= v_clock m.
Proof. unfold v_clock. lia. Qed.

Lemma cover_sends_on_schedule_witness :
  length (sends (cs_log (run v_world trace_schedule 49 v_events initial))) = 1%nat /\
  StronglySorted Z.lt (sent_deadline <$> sends (cs_log (run v_world trace_schedule 49 v_events initial))).
Proof.
  split; [vm_compute; reflexivity|].
  apply (cover_sends_on_schedule v_world trace_schedule 49 v_clock v_events);
    [reflexivity|apply v_monotone|apply v_options].
Defined.

Lemma v_stored : exists j, cs_store (run v_world trace_schedule 49 v_events initial) !! 0%nat = Some j.
Proof. vm_compute. eexists. reflexivity. Qed.

Lemma cover_jobs_accounted_witness :
  exists j, cs_store (run v_world trace_schedule 49 v_events initial) !! 0%nat = Some j /\
    0 <= rt_sentCells j <= declaredCellCount (rt_job j).
Proof.
  destruct v_stored as [j Hj]. exists j. split; [exact Hj|].
  apply (cover_jobs_accounted v_world trace_schedule 49 v_clock v_events 0%nat j);
    [reflexivity|apply v_options|exact Hj].
Defined.

Lemma cover_never_stalls_witness :
  let s := run v_world trace_schedule 49 v_events initial in
  cs_status s = active /\
  (is_Some (cs_timer s) \/ exists k t, cs_tasks s !! k = Some t /\ tk_generation t = cs_generation s).
Proof.
  assert (cs_status (run v_world trace_schedule 49 v_events initial) = active) as Ha
    by (vm_compute; reflexivity).
  split; [exact Ha|].
  apply (cover_never_stalls v_world trace_schedule 49 v_clock v_events);
    [reflexivity|apply v_options|vm_compute; reflexivity|right; left; exact Ha].
Defined.

Lemma slots_on_uniform_grid_witness :
  deadlineMs (slotAt trace_schedule 0 0 200 0) = 25 /\
  deadlineMs (slotAt trace_schedule 0 0 200 0) + 25 <= deadlineMs (slotAt trace_schedule 0 0 200 1).
Proof.
  split; [reflexivity|].
  apply (slots_on_uniform_grid trace_schedule 0 0 200 0 1); [vm_compute; reflexivity|vm_compute; split; congruence|
    vm_compute; split; congruence|lia].
Defined.

(** ** Replay and cells *)

Lemma replay_window_refines_witness :
  (admit_all [3; 1; 3; 2000; 1] fresh_replay).1 = [3; 1; 2000] /\
  NoDup (admit_all [3; 1; 3; 2000; 1] fresh_replay).1.
Proof.
  split; [vm_compute; reflexivity|].
  assert (forall c, c ∈ [3; 1; 3; 2000; 1] -> 0 <= c) as H.
  { intros c Hc. repeat (apply elem_of_cons in Hc as [->|Hc]; [lia|]). by apply elem_of_nil in Hc. }
  apply (replay_window_refines [3; 1; 3; 2000; 1] H).
Defined.

Definition v_binding : bytes := zeros 32.
Definition v_root : bytes := region 32 (text "root").
Definition v_context : PqMessageKeyContext :=
  {| ctx_rootKey := v_root; ctx_binding := v_binding; ctx_rootSuite := root_suite_string MLKEM768;
     ctx_epoch := 1 |}.
Definition v_nonce : bytes := zeros 12.
Definition v_content : CoverCellContent := CoverCell.cancel (zeros 64).
Definition v_runtime : RuntimeState :=
  {| outboundCounter := 0; replay := fresh_replay; destroyed := false |}.
Definition v_frame : bytes :=
  match fst (seal true (Some v_context) v_content v_nonce v_runtime) with Ok f => f | Err _ => [] end.

Lemma v_sealed : seal true (Some v_context) v_content v_nonce v_runtime =
  (Ok v_frame, {| outboundCounter := 1; replay := fresh_replay; destroyed := false |}).
Proof. reflexivity. Qed.

Lemma cover_cell_delivered_once_witness :
  exists rst', processInboundCoverCell false (Some v_context) v_frame v_runtime
    = (Ok (true, dispatch v_content), rst').
Proof.
  destruct (cover_cell_delivered_once true v_context v_content v_nonce v_runtime v_frame _ v_runtime ∅ []
    eq_refl v_sealed eq_refl represents_fresh) as (_ & rst' & H & _).
  - split; [apply not_elem_of_empty|]. intros (x & Hx & _). by apply elem_of_empty in Hx.
  - by exists rst'.
Defined.

Lemma v_opens :
  openCoverCell (ctx_rootSuite v_context) v_root v_binding (outboundDirection true) 1 None v_frame
  = Ok {| opened_content := v_content; opened_counter := 0 |}.
Proof.
  apply (open_sealed _ _ _ _ _ 0 v_content v_nonce v_frame None); [reflexivity..|done].
Qed.

Lemma cover_cell_open_sound_witness : exists key nonce ct,
  v_frame = cell_header FRAME_TYPE_COVER v_binding 0 0 1 nonce ++ ct /\
  deriveCellKey (ctx_rootSuite v_context) v_root v_binding (outboundDirection true) 1 = Ok key.
Proof.
  destruct (cover_cell_open_sound _ _ _ _ _ _ _ _ v_opens) as (key & nonce & ct & H & _ & _ & Hk & _).
  by exists key, nonce, ct.
Defined.

(** ** Schedules of a room policy *)

Definition v_policy : RoomPolicyV1 :=
  {| version := POLICY_FORMAT_VERSION; revision := 1; wireVersion := PROTOCOL_VERSION;
     authMode := RoomPolicy.authMode DEFAULT_ROOM_POLICY_V1; pqMode := hybrid_mlkem768;
     rendezvousMode := RoomPolicy.rendezvousMode DEFAULT_ROOM_POLICY_V1; coverMode := scheduled;
     RoomPolicy.coverCadenceMs := 1000; RoomPolicy.coverLanes := 2;
     RoomPolicy.coverFramesPerCell := 4; RoomPolicy.coverDurationEpochs := 2 |}.

Lemma room_policy_schedules_witness : exists phase,
  deriveCoverPhaseOffsetMs (zeros 64) 1000 = Ok phase /\ 0 <= phase < 1000.
Proof.
  destruct (room_policy_schedules v_policy (zeros 64)) as (phase & Hp & Hr & _);
    [vm_compute; reflexivity|reflexivity|by vm_compute|by exists phase].
Defined.

(** ** Labels and transfers *)

Definition v_hex : bytes := uint8ArrayToHex (zeros 64).
Definition v_label : bytes :=
  match compileChannelMessageLabel (text "chat") (RootHex v_hex) with Ok l => l | Err _ => [] end.
Lemma v_compiled : compileChannelMessageLabel (text "chat") (RootHex v_hex) = Ok v_label.
Proof. vm_compute. reflexivity. Qed.

Lemma label_roundtrip_witness : decompileChannelMessageLabel v_label =
  Ok {| dl_channelLabel := text "chat"; dl_merkleRootHex := v_hex; dl_merkleRoot := root_bytes (RootHex v_hex) |}.
Proof.
  apply (label_roundtrip (text "chat") (RootHex v_hex) v_label (byte_of 116) v_compiled);
    [vm_compute; reflexivity|by vm_compute].
Defined.

Definition v_send_job : CoverJob :=
  {| job_id := String.string_of_list_byte v_label; job_kind := real; declaredCellCount := 2;
     job_priority := None; job_has_cancelCell := false |}.

(** Chunk 1 is acknowledged before the second slot. *)
Definition v_acks : list (gset Z) := [∅; {[1]}; ∅].

Lemma send_pass_offers_once_witness :
  (offered v_acks [0; 1]).1 = [Some 0; None; None] /\ NoDup (omap id (offered v_acks [0; 1]).1).
Proof.
  split; [vm_compute; reflexivity|].
  pose proof (send_pass_offers_once (String.string_of_list_byte v_label) trace_schedule 2 v_send_job [0; 1]
    v_acks eq_refl) as H.
  destruct (offered v_acks [0; 1]) as [os rest]. apply H.
Defined.

(** The message's job is on the wire when its cancellation throws. *)
Definition v_admitted : Scheduler :=
  run v_world trace_schedule 49 [Enqueue v_send_job; Start; TimerFires] initial.
Lemma v_admitted_job : exists j, cs_store v_admitted !! 0%nat = Some j /\ rt_job j = v_send_job /\
  rt_settled j = false /\ rt_everAdmitted j = true.
Proof. vm_compute. eexists. split; [reflexivity|]. split_and!; reflexivity. Qed.

Lemma admitted_transfer_cancel_throws_witness :
  cancelScheduledTransfer v_world true trace_schedule false (text "chat") v_hex v_admitted = (Err (inr (inr requires_cancelCell)), v_admitted).
Proof.
  destruct v_admitted_job as (j & Hj & Hb & Hs & Ha).
  apply (admitted_transfer_cancel_throws v_world trace_schedule (text "chat") v_hex v_label 2 v_send_job
    [0; 1] 0%nat j v_admitted v_compiled eq_refl); [vm_compute; reflexivity|exact Hj|exact Hb|exact Hs|exact Ha].
Defined.
