(* ===== verification/SessionWitnesses.v ===== *)
(** * Concrete runtimes and sessions

    The theorems about the healing runtime, its checkpoints, the metadata and
    the sessions, each applied to values computed with the module and the
    backend of [Concrete]. *)

From Stdlib Require Import String.
From stdpp Require Import gmap relations.
From S2P Require Import Prelude Bytes Constants Crypto X25519 Ratchet RatchetKeys RatchetChain RatchetSession WireFrames.
From S2P Require Import PqMessageKey Merkle ChunkCrypto RoomPolicy MlKem PqRecord PqMachine PqInvariant PqProtocol PqFrame.
From S2P Require Import PqRuntime PqRuntimeInv PqCheckpoint Metadata SessionMessage Session SessionDelivery SessionSnapshot.
From S2P Require Import Concrete Witnesses RatchetWrap RatchetRows RatchetVault RatchetGuard.
Local Open Scope Z_scope.
Local Open Scope list_scope.

(** ** A healing exchange of two runtimes *)

Definition u_dummy : SparsePqHealingState :=
  Sparse {| e_pqMode := hybrid_mlkem768; e_rootSuite := MLKEM768; e_suite := ML_KEM_768_SUITE; e_binding := [];
            e_outboundDirection := ""; e_inboundDirection := "" |}
    (w_machine local) [] None None None None [] 0 0 true.
Definition u_new (turn : PqHealingTurn) (amInitiator : bool) : result RuntimeThrow SparsePqHealingState :=
  new_runtime hybrid_mlkem768 MLKEM768 w_binding w_root turn amInitiator 0.
Definition u_a : SparsePqHealingState := get u_dummy (u_new local true).
Definition u_b : SparsePqHealingState := get u_dummy (u_new remote false).
Definition u_now : Z := PQ_HEAL_AFTER_MS.

(** OFFER, ADVANCE and ACK with the states they leave. *)
Definition frame_of (r : result RuntimeThrow PqHealingControlResult) : bytes :=
  match r with Ok c => default [] (cr_dispatch c) | Err _ => [] end.
Definition u_offer : bytes := get [] (fst (prepareHealingOffer w_coins w_nonce u_now u_a)).
Definition u_a1 : SparsePqHealingState := snd (prepareHealingOffer w_coins w_nonce u_now u_a).
Definition u_advance : bytes := frame_of (fst (acceptControlFrame u_offer u_now w_coins' w_nonce u_b)).
Definition u_b1 : SparsePqHealingState := snd (acceptControlFrame u_offer u_now w_coins' w_nonce u_b).
Definition u_ack : bytes := frame_of (fst (acceptControlFrame u_advance u_now [] w_nonce u_a1)).
Definition u_b2 : SparsePqHealingState := snd (acceptControlFrame u_ack u_now [] w_nonce u_b1).

Definition dispatches (r : result RuntimeThrow PqHealingControlResult) : bool :=
  match r with Ok c => bool_decide (is_Some (cr_dispatch c)) && cr_changed c | Err _ => false end.
Lemma dispatches_frame r : dispatches r = true -> r = Ok {| cr_dispatch := Some (frame_of r); cr_changed := true |}.
Proof. destruct r as [[[f|] []]|]; cbn; done. Qed.
Lemma pair_fst {A D} (p : A * D) x : fst p = x -> p = (x, snd p).
Proof. destruct p. by intros <-. Qed.

Lemma get_pair {E A D} (d : A) (p : result E A * D) a s : p = (Ok a, s) -> p = (Ok (get d (fst p)), s).
Proof. by intros ->. Qed.
Lemma pair_ok_inj {E A D} (a b : A) (s s' : D) : (@Ok E A a, s) = (Ok b, s') -> a = b.
Proof. congruence. Qed.
Lemma u_offers : prepareHealingOffer w_coins w_nonce u_now u_a = (Ok u_offer, u_a1).
Proof. unfold u_a1, u_offer. apply pair_fst, get_ok. vm_compute. reflexivity. Qed.
Lemma u_answers : acceptControlFrame u_offer u_now w_coins' w_nonce u_b =
  (Ok {| cr_dispatch := Some u_advance; cr_changed := true |}, u_b1).
Proof. unfold u_b1, u_advance. apply pair_fst, dispatches_frame. vm_compute. reflexivity. Qed.
Lemma u_acks : acceptControlFrame u_ack u_now [] w_nonce u_b1 =
  (Ok {| cr_dispatch := None; cr_changed := true |}, u_b2).
Proof. unfold u_b2. apply pair_fst. vm_compute. reflexivity. Qed.

Lemma u_a_inv : runtime_inv u_a.
Proof. by apply (new_runtime_inv hybrid_mlkem768 MLKEM768 w_binding w_root local true 0). Qed.
Lemma u_b_inv : runtime_inv u_b.
Proof. by apply (new_runtime_inv hybrid_mlkem768 MLKEM768 w_binding w_root remote false 0). Qed.
Lemma u_b1_inv : runtime_inv u_b1.
Proof. apply (acceptControlFrame_inv u_offer u_now w_coins' w_nonce u_b _ _ u_b_inv eq_refl u_answers). Qed.

Lemma runtime_stays_coherent_witness :
  runtime_inv u_a1 /\ validateCheckpointCoherence u_a1 = Ok tt.
Proof.
  destruct (runtime_stays_coherent u_a1) as (H1 & H2 & _); [|by split].
  exists hybrid_mlkem768, MLKEM768, w_binding, w_root, local, true, 0, u_a. split; [reflexivity|].
  apply rtc_once. apply (rs_offer _ w_coins w_nonce u_now u_offer); [reflexivity|apply u_offers].
Defined.

Lemma duplicate_frame_resends_witness :
  acceptControlFrame u_offer (u_now + 1) [] [] u_b1 =
    (Ok {| cr_dispatch := Some u_advance; cr_changed := false |}, u_b1).
Proof.
  apply (duplicate_frame_resends u_b u_offer u_now w_coins' w_nonce u_advance u_b1 u_b1).
  - apply u_b_inv.
  - apply u_answers.
  - reflexivity.
  - by left.
  - by vm_compute.
Defined.

Lemma duplicate_ack_refused_witness :
  acceptControlFrame u_ack u_now [] [] u_b2 = (Err (RuntimeError unexpected_ack), u_b2).
Proof.
  apply (duplicate_ack_refused u_b1 u_ack u_now [] w_nonce u_b2).
  - apply u_b1_inv.
  - apply u_acks.
  - by vm_compute.
Defined.

(** ** Checkpoints *)

Definition u_key : string := get EmptyString (messageCacheKey w_pub 1 (Some 0)).
Definition u_keys : list (string * bytes) := [(u_key, zeros 32)].
Lemma u_keys_ok : keys_ok u_keys.
Proof.
  split_and!; [vm_compute; discriminate| |by apply NoDup_singleton].
  apply Forall_singleton. split_and!; vm_compute; [reflexivity|discriminate|reflexivity].
Qed.
Definition u_checkpoint : bytes := get [] (fst (serialize u_keys u_b1)).
Lemma u_serialized : serialize u_keys u_b1 = (Ok u_checkpoint, u_b1).
Proof.
  destruct (checkpoint_saved u_b1 u_keys u_b1_inv u_keys_ok) as (out & H & _).
  unfold u_checkpoint. exact (get_pair [] _ _ _ H).
Qed.

(** A runtime that waits for an acknowledgement. *)
Lemma checkpoint_roundtrip_witness : exists out, serialize u_keys u_b1 = (Ok out, u_b1) /\
  restore_runtime out (e_pqMode (st_edge u_b1)) (e_rootSuite (st_edge u_b1))
    (e_binding (st_edge u_b1)) (amInitiator_of (st_edge u_b1))
  = Ok (set_keys (array_sort key_order u_keys) u_b1).
Proof.
  destruct (checkpoint_roundtrip u_b1 u_keys) as (out & H1 & _ & _ & H2).
  - apply u_b1_inv.
  - apply u_keys_ok.
  - exists out. split; [exact H1|exact H2].
Defined.

Lemma u_b1_edge : st_edge u_b1 = st_edge u_b.
Proof. vm_compute. reflexivity. Qed.
Lemma u_restored : exists s1, restore_runtime u_checkpoint hybrid_mlkem768 MLKEM768 w_binding false = Ok s1.
Proof.
  destruct (checkpoint_saved u_b1 u_keys u_b1_inv u_keys_ok) as (out & H1 & _ & _ & H2).
  rewrite u_serialized in H1. pose proof (pair_ok_inj _ _ _ _ H1) as Ho. rewrite <- Ho, u_b1_edge in H2.
  eexists. exact H2.
Qed.

Lemma checkpoint_bound_to_edge_witness : exists s1,
  restore_runtime u_checkpoint hybrid_mlkem768 MLKEM768 w_binding false = Ok s1 /\
  w_binding = e_binding (st_edge u_b1).
Proof.
  destruct u_restored as [s1 H]. exists s1. split; [exact H|].
  destruct (checkpoint_bound_to_edge u_b1 u_keys u_checkpoint hybrid_mlkem768 MLKEM768 w_binding false s1
    u_b1_inv u_keys_ok u_serialized H) as (_ & _ & Hb & _).
  exact Hb.
Defined.

(** ** Metadata *)

Definition u_metadata : Metadata := message_metadata (subtle_digest_sha512 (text "hello")) (blen (text "hello")) 0.
Lemma metadata_roundtrip_witness : exists b, serializeMetadata u_metadata = Ok b /\ deserializeMetadata b = Ok u_metadata.
Proof.
  destruct (metadata_roundtrip u_metadata) as (b & H1 & _ & H2).
  - apply (message_metadata_ok (text "hello") 0); vm_compute; [discriminate|split; [discriminate|reflexivity]].
  - exists b. split; [exact H1|exact H2].
Defined.

Lemma parsed_name_is_safe_witness : exists m, deserializeMetadata (zeros METADATA_LEN) = Ok m.
Proof. destruct (parsed_name_is_safe (zeros METADATA_LEN)) as (m & H & _); [reflexivity|]. by exists m. Defined.

(** One millisecond before 1970. *)
Definition u_old : Metadata := {| md_schemaVersion := 1; md_messageType := 64; md_hash := zeros 64; md_totalSize := 5;
  md_date := Some (-1); md_name := []; md_chunkStartIndex := 0; md_chunkEndIndex := 5; md_chunkIndex := 0 |}.
Lemma date_before_1970_refused_witness : exists b m', serializeMetadata u_old = Ok b /\
  deserializeMetadata b = Ok m' /\ md_date m' = None.
Proof.
  destruct (date_before_1970_refused u_old (-1)) as (b & m' & H1 & H2 & H3 & _).
  - reflexivity.
  - vm_compute. discriminate.
  - reflexivity.
  - vm_compute. split; [discriminate|reflexivity].
  - exists b, m'. split; [exact H1|]. split; [exact H2|exact H3].
Defined.

(** ** Sessions *)

Definition u_sa : Session := MkSession w_b u_a true false.
Definition u_sb : Session := MkSession w_a u_b false false.
Definition u_plaintext : bytes := text "hello".
Definition u_nonce (i : Z) : bytes := be_encode 12 i.
Definition u_msg : EncryptedSessionMessage :=
  get {| em_protocolVersion := 0; em_root := []; em_frames := [] |}
    (fst (encrypt u_plaintext (fun _ => []) (fun _ => []) u_nonce u_sa)).
Definition u_sa1 : Session := snd (encrypt u_plaintext (fun _ => []) (fun _ => []) u_nonce u_sa).

Lemma u_encrypts : encrypt u_plaintext (fun _ => []) (fun _ => []) u_nonce u_sa = (Ok u_msg, u_sa1).
Proof. unfold u_sa1, u_msg. apply pair_fst, get_ok. vm_compute. reflexivity. Qed.

Lemma w_b_inv : ratchet_inv w_b.
Proof.
  apply (preserves_run ratchet_inv (primeResponderRatchet (dhSelfPub w_a) [byte_of 3]) w_b0
    (fst (primeResponderRatchet (dhSelfPub w_a) [byte_of 3] w_b0))).
  - apply primeResponder_inv.
  - eapply (initRatchet_inv (zeros 32) false None MLKEM768 [byte_of 1]). reflexivity.
  - apply surjective_pairing.
Qed.
Lemma u_sa_usable : usable u_sa.
Proof. split; [reflexivity|apply u_a_inv|apply w_b_inv|vm_compute; reflexivity]. Qed.
Lemma u_sb_usable : usable u_sb.
Proof. split; [reflexivity|apply u_b_inv|apply w_a_inv|vm_compute; reflexivity]. Qed.
Lemma u_same_epoch : same_epoch u_sa u_sb.
Proof. split; vm_compute; reflexivity. Qed.

(** The first message of the responder's chain. *)
Definition u_header : RatchetHeader := current_header (dhSelfPub w_b) 0 0.
Definition u_mk : bytes := get [] (fst (ratchetDecrypt u_header [byte_of 4] w_a)).
Definition u_a' : RatchetState := snd (ratchetDecrypt u_header [byte_of 4] w_a).
Definition u_cacheK : string := get EmptyString (messageCacheKey (dhSelfPub w_b) 0 (Some 0)).
Definition u_reversed : list bytes := reverse (em_frames u_msg).

Lemma session_delivers_witness : exists sb',
  decrypt {| em_protocolVersion := PROTOCOL_VERSION; em_root := em_root u_msg; em_frames := u_reversed |} [byte_of 4] u_sb
    = (Ok u_plaintext, sb') /\ se_state sb' = u_a'.
Proof.
  destruct (session_delivers u_plaintext (fun _ => []) (fun _ => []) u_nonce u_sa u_sb u_msg u_sa1 u_mk u_header
    (snd (ratchetEncrypt w_b)) u_cacheK [byte_of 4] u_a' u_reversed) as (key & sb' & H & _ & Hs & _).
  - apply u_sa_usable.
  - apply u_sb_usable.
  - apply u_same_epoch.
  - vm_compute. discriminate.
  - apply u_encrypts.
  - vm_compute. apply NoDup_singleton.
  - apply reverse_Permutation.
  - vm_compute. reflexivity.
  - vm_compute. reflexivity.
  - vm_compute. reflexivity.
  - vm_compute. reflexivity.
  - exists sb'. split; [exact H|exact Hs].
Defined.

Definition u_sb1 : Session := snd (decrypt u_msg [byte_of 4] u_sb).
Lemma u_decrypts : decrypt u_msg [byte_of 4] u_sb = (Ok u_plaintext, u_sb1).
Proof. unfold u_sb1. apply pair_fst. vm_compute. reflexivity. Qed.

Lemma replayed_message_accepted_witness : exists s2, decrypt u_msg [byte_of 9] u_sb1 = (Ok u_plaintext, s2).
Proof.
  destruct (replayed_message_accepted u_msg [byte_of 4] [byte_of 9] u_sb u_plaintext u_sb1) as (s2 & H & _).
  - apply u_sb_usable.
  - vm_compute. reflexivity.
  - apply u_decrypts.
  - exists s2. exact H.
Defined.

(** A forged frame. *)
Definition u_forged : EncryptedSessionMessage := {| em_protocolVersion := PROTOCOL_VERSION; em_root := zeros 64;
  em_frames := em_frames u_msg |}.
Lemma session_atomic_witness : exists e,
  decrypt u_forged [byte_of 4] u_sb = (Err e, snd (decrypt u_forged [byte_of 4] u_sb)) /\
  snd (decrypt u_forged [byte_of 4] u_sb) = u_sb.
Proof.
  assert (decrypt u_forged [byte_of 4] u_sb =
    (Err (SessionError authentication_failed), snd (decrypt u_forged [byte_of 4] u_sb))) as H.
  { apply pair_fst. vm_compute. reflexivity. }
  eexists. split; [exact H|].
  exact (proj2 (session_atomic u_sb _ _ u_sb_usable) u_forged [byte_of 4] H).
Defined.

Lemma u_saveable : saveable u_sb.
Proof.
  assert (keys_ok (active_keys u_sb)) as Hk.
  { split; [vm_compute; discriminate|]. split; [apply Forall_nil_2|apply NoDup_nil_2]. }
  split; [reflexivity|exact u_b_inv|exact w_a_inv|vm_compute; reflexivity|apply Forall_nil_2|exact Hk
    |vm_compute; reflexivity|vm_compute; reflexivity].
Qed.
Lemma session_snapshot_roundtrip_witness : exists out, session_serialize u_sb = (Ok out, u_sb) /\
  restoreSession out = Ok (set_pq (set_keys (array_sort key_order (active_keys u_sb)) (se_pq u_sb)) u_sb).
Proof. apply (session_snapshot_roundtrip u_sb). apply u_saveable. Defined.

(** 257 keys. *)
Definition u_full : Session :=
  set_pq (set_keys ((fun i => (decimal i, zeros 32)) <$> seqZ 0 257) u_b) u_sb.
Lemma full_session_never_saved_witness :
  is_ok (fst (session_serialize (after_session_calls [call_pendingControl] u_full))) = false.
Proof.
  assert (MAX_ACTIVE_RECEIVE_KEYS < blen (active_keys u_full)) as H by (vm_compute; reflexivity).
  exact (full_session_never_saved u_full [call_pendingControl] H).
Defined.

(** * Concrete instances of the theorems on stored ratchets *)


(** A cipher that only appends a tag, and one that opens what is in its table. *)
#[local] Instance x_tag_vault : WebVault := {|
  VaultKey := unit;
  gcm_encrypt _ _ _ pt := pt ++ replicate 16 (byte_of 0);
  gcm_decrypt _ _ _ ct := Some (take (length ct - 16) ct);
  vault_sha256 x := x;
|}.
#[local] Instance x_tag_correct : GcmCorrect x_tag_vault.
Proof.
  split; intros key iv aad pt; cbn.
  - f_equal. rewrite length_app. cbn [length]. by rewrite Nat.add_sub, take_app_length.
  - rewrite blen_app. done.
Qed.

Definition x_table_vault : WebVault := {|
  VaultKey := list (bytes * bytes);
  gcm_encrypt _ _ _ pt := pt ++ replicate 16 (byte_of 0);
  gcm_decrypt table _ aad ct :=
    let pt := take (length ct - 16) ct in if bool_decide ((aad, pt) ∈ table) then Some pt else None;
  vault_sha256 x := x;
|}.

Definition x_key : bytes := replicate 32 (byte_of 7).
Definition x_session : RatchetSession :=
  {| rs_secrets :=
       {| ss_rootSuite := MLKEM768; ss_rootKey := x_key; ss_sendingChainKey := Some x_key; ss_receivingChainKey := None;
          ss_dhSelfPub := x_key; ss_dhSelfSec := x_key; ss_dhRemotePub := Some x_key; ss_Ns := 3; ss_Nr := 1; ss_PN := 0;
          ss_skippedMessageKeys := [{| sk_dhPub := x_key; sk_n := Some 2; sk_messageKey := x_key |}] |};
     rs_roomId := [114; 0x1f600]; rs_peerPublicKey := replicate 64 97; rs_peerId := [112]; rs_edge := Some x_key;
     rs_updatedAt := 5 |}.
Definition x_id : bytes := replicate 16 (byte_of 9).
Definition x_iv (_ : RatchetSecretField) (_ : Z) : bytes := replicate 12 (byte_of 1).

Lemma x_valid : validateMetadata x_session = Ok tt.
Proof. vm_compute. reflexivity. Qed.
Lemma x_empty_ok : vault_ok clear_sessions.
Proof. by split; intros. Qed.

Lemma own_write_reloads_witness : exists v' v'',
  fnSetRatchetSession (V := x_tag_vault) x_session tt 100 x_id x_iv true clear_sessions = (Ok tt, v') /\
  fnGetRatchetSession (V := x_tag_vault) [114; 0x1f600] (replicate 64 97) tt true v' = (Some (stamp x_session 100), v'').
Proof.
  destruct (own_write_reloads (V := x_tag_vault) x_session tt 100 x_id x_iv clear_sessions x_empty_ok x_valid eq_refl eq_refl)
    as (v' & v'' & H1 & H2 & _).
  exists v', v''. split; [exact H1|exact H2].
Defined.

(** The row is read back after the worker wrote it again, and in between the
    database was emptied and refilled. *)
Abbreviation x_write now v := (fnSetRatchetSession (V := x_tag_vault) x_session tt now x_id x_iv true v).
Abbreviation x_read v := (fnGetRatchetSession (V := x_tag_vault) [114; 0x1f600] (replicate 64 97) tt true v).
Definition x_row (v : Vault) : RatchetSession := default x_session (va_rows v !! ([114; 0x1f600], replicate 64 97)).
Lemma x_written now v : is_ok (x_write now v).1 = true -> x_write now v = (Ok tt, (x_write now v).2).
Proof. destruct (x_write now v) as [[[]|] v']; cbn; [done|discriminate]. Qed.
Definition x_v1 : Vault := (x_write 100 clear_sessions).2.
Definition x_v2 : Vault := (x_write 90 (set_rows ∅ x_v1)).2.

Lemma row_never_rolled_back_witness :
  rs_updatedAt (x_row x_v1) < rs_updatedAt (x_row x_v2) \/ x_row x_v1 = x_row x_v2 \/
  exists x y, x <> y /\ vault_sha256 (WebVault := x_tag_vault) x = vault_sha256 (WebVault := x_tag_vault) y.
Proof.
  apply (row_never_rolled_back (V := x_tag_vault) [114; 0x1f600] (replicate 64 97) (x_row x_v1) clear_sessions x_v1 x_v2 (x_row x_v2)
    (x_read x_v2).2).
  - exact x_empty_ok.
  - eapply (passed_written (V := x_tag_vault) _ _ _ _ _ x_session tt 100 x_id x_iv true); [done|done| |vm_compute; reflexivity].
    apply (x_written 100 clear_sessions). vm_compute. reflexivity.
  - eapply rtc_l; [apply (step_tamper (V := x_tag_vault) _ ∅); done|].
    eapply rtc_l; [apply (step_set (V := x_tag_vault) _ x_session tt 90 x_id x_iv true)|]. apply rtc_refl.
  - eapply (passed_read (V := x_tag_vault) _ _ _ _ _ tt true (stamp x_session 101)); [vm_compute; reflexivity|].
    assert ((x_read x_v2).1 = Some (stamp x_session 101)) as H by (vm_compute; reflexivity).
    destruct (x_read x_v2) as [o v]. cbn in H. by rewrite H.
Defined.

(** A table of what one call of [wrapRatchetSession] sealed. *)
Definition x_table : list (bytes * bytes) :=
  let aad field i := match canonicalRatchetAad x_session field x_id i with Ok b => b | Err _ => [] end in
  [(aad RootKey 0, x_key); (aad SendingChainKey 0, x_key); (aad DhSelfSecret 0, x_key); (aad SkippedKey 0, x_key);
   (aad EdgeCryptoState 0, x_key)].
Lemma x_aad field : canonicalRatchetAad x_session field x_id 0 =
  Ok (match canonicalRatchetAad x_session field x_id 0 with Ok b => b | Err _ => [] end).
Proof. destruct (aad_total x_session field x_id 0 x_valid eq_refl) as [b ->]; [done|reflexivity]. Qed.
Lemma x_opened aad pt : (aad, pt) ∈ x_table -> wrapped_plaintext [(x_session, x_id)] aad pt.
Proof.
  unfold x_table. cbv zeta. rewrite !elem_of_cons. intros H.
  enough (exists field, aad = match canonicalRatchetAad x_session field x_id 0 with Ok b => b | Err _ => [] end /\
    secret_at x_session field 0 = Some pt) as (field & -> & Hs).
  { exists x_session, x_id, field, 0. split; [by left|]. split; [apply x_aad|exact Hs]. }
  destruct H as [[= H1 H2]|[[= H1 H2]|[[= H1 H2]|[[= H1 H2]|[[= H1 H2]|[]%not_elem_of_nil]]]]]; rewrite H2.
  - by exists RootKey. - by exists SendingChainKey. - by exists DhSelfSecret. - by exists SkippedKey. - by exists EdgeCryptoState.
Qed.
Definition x_wrapped : RatchetSession :=
  match wrapRatchetSession (V := x_table_vault) x_session [] x_id x_iv with Ok w => w | Err _ => x_session end.

Lemma row_fields_not_mixed_witness : exists id, (x_session, id) ∈ [(x_session, x_id)].
Proof.
  apply (row_fields_not_mixed (V := x_table_vault) _ x_wrapped x_table).
  - intros iv aad ct pt. cbn. destruct (bool_decide _) eqn:H; [|done]. apply bool_decide_eq_true in H. intros [= Hp].
    rewrite Hp in H. apply x_opened in H. exact H.
  - intros s1 s2 id [= -> _]%list_elem_of_singleton [= -> _]%list_elem_of_singleton. done.
  - vm_compute. reflexivity.
Defined.
