(* ===== verification/ReceiveWitnesses.v ===== *)
(** * Concrete edges and transfers

    The theorems about the receive path and the store, each applied to values
    computed with the module and the backend of [Concrete]. *)

From Stdlib Require Import String.
From stdpp Require Import gmap functions.
From S2P Require Import Prelude Bytes Constants Crypto X25519 Ratchet RatchetKeys RatchetChain RatchetSession.
From S2P Require Import WireFrames PqMessageKey Merkle ChunkCrypto RoomPolicy MlKem PqRecord PqMachine PqRuntime.
From S2P Require Import PqRuntimeInv PqCheckpoint Metadata EdgePersist EdgeReceive EdgeRace MessageTypes.
From S2P Require Import ReceiveStore ReceiveLayout ReceiveFile Receive Concrete Witnesses SessionWitnesses.
Local Open Scope Z_scope.
Local Open Scope list_scope.

(** ** A file of five bytes in chunks of two *)

Definition f_file : bytes := [Byte.x01; Byte.x02; Byte.x03; Byte.x04; Byte.x05].
Definition f_chunk (i : Z) : ReceiveChunk :=
  {| rc_schemaVersion := 1; rc_roomId := "r"; rc_fromPeerId := "p"; rc_channelLabel := "c"; rc_timestamp := 1;
     rc_merkleRoot := "m"; rc_hash := "h"; rc_filename := []; rc_messageType := 11; rc_chunkIndex := i;
     rc_mimeType := "t"; rc_leafHash := "l"; rc_realLen := len_at 5 2 i; rc_totalSize := 5;
     rc_data := piece f_file 2 i; rc_opfs := true |}%string.
Definition f_env (opens : bool) : Env := {| ev_opens := opens; ev_lands := None; ev_commit := committed |}.
Definition f_empty : Store := MkStore [] None ∅ None None.
(** The last chunk arrives before OPFS opens. *)
Definition f_store : Store :=
  store_all [(f_chunk 2, f_env false); (f_chunk 0, f_env true); (f_chunk 1, f_env true)] f_empty.
Definition f_read : ReadEnv := {| gv_available := true; gv_sync := true; gv_throws := None; gv_strips := true |}.

Lemma f_genuine i : 0 <= i < 3 -> genuine f_file 2 (f_chunk i).
Proof. intros Hi. split; [exact Hi|]. by split_and!. Qed.
Lemma f_env_ok opens : env_ok (f_env opens).
Proof. by split. Qed.
Lemma f_run : transfer_run f_file 2 f_store.
Proof.
  assert (forall i opens s, 0 <= i < 3 -> transfer_run f_file 2 s ->
    transfer_run f_file 2 (snd (storeReceiveChunkLocked (f_chunk i) (f_env opens) s))) as H.
  { intros i opens s Hi Hs. apply run_store; [done|by apply f_genuine|apply f_env_ok]. }
  apply H; [lia|]. apply H; [lia|]. apply H; [lia|]. apply run_empty.
Qed.

Lemma received_file_is_sent_witness :
  fst (read_file 5 f_read f_store) = Some f_file.
Proof.
  refine (proj2 (received_file_is_sent f_file 2 f_store f_read (fst (read_file 5 f_read f_store))
    (snd (read_file 5 f_read f_store)) _ _ _ f_run _ _ _) eq_refl eq_refl eq_refl); try (by vm_compute).
Defined.

Lemma chunk_counted_once_witness :
  is_ok (fst (storeReceiveChunkLocked (f_chunk 1) (f_env true) f_store)) = true.
Proof.
  refine (proj1 (chunk_counted_once f_file 2 f_store (f_chunk 1) (f_env true)
    (fst (storeReceiveChunkLocked (f_chunk 1) (f_env true) f_store))
    (snd (storeReceiveChunkLocked (f_chunk 1) (f_env true) f_store)) _ _ _ f_run _ (f_env_ok true) _) eq_refl _ eq_refl);
    try (by vm_compute).
Defined.

Lemma completion_covers_file_witness :
  exists u, 0 < u <= CHUNK_LEN /\ [(2, 1); (0, 2); (1, 2)] ≡ₚ (fun i => (i, Z.min u (5 - i * u))) <$> seqZ 0 (ceil_div 5 u).
Proof.
  destruct (completion_covers_file 5 [(2, 1); (0, 2); (1, 2)] 5 eq_refl) as (_ & u & H1 & _ & H2).
  exists u. by split.
Defined.

Lemma file_type_roundtrip_witness : getMessageType (inr (name_of "photo.old.PNG")) = number (code ImagePNG).
Proof.
  destruct (file_type_roundtrip ImagePNG (name_of "photo.old") (name_of "PNG")) as [H _]; [done|done|by vm_compute|].
  exact H.
Defined.

(** ** An established connection *)

Definition e_world : World :=
  MkWorld (fun _ => MkEpc true (Some 0%nat) (Some 0%nat) (Some 0%nat) (Some 0%nat))
    (fun _ => w_receiver) (fun _ => {| ru_state := u_b; ru_keys := 0 |}) (fun _ => []) 1 (Some 0%nat) None.

(** A chunk of a one-chunk message, sealed for the epoch of [u_b]. *)
Definition e_context : PqMessageKeyContext := get w_context (fst (currentMessageContext u_b)).
Definition e_header : RatchetHeader := current_header w_pub 0 0.
Definition e_mk : bytes := get [] (fst (ratchetDecrypt e_header [] w_receiver)).
Definition e_frame : bytes := get [] (sealChunk e_mk e_header w_plain w_mroot (Some e_context) (zeros 12)).
Abbreviation e_job := (DecryptJob e_frame 0 w_mroot []).

Definition value_of (v : result EdgeThrow Value) : DecryptedChunk :=
  match v with Ok (Decrypted d) => d | _ => dropped end.
Definition received (v : result EdgeThrow Value) : bool :=
  match v with Ok (Decrypted d) => ChunkCrypto.chunk_ok d && stateAdvanced d | _ => false end.
Lemma received_value v : received v = true -> v = Ok (Decrypted (value_of v)) /\ stateAdvanced (value_of v) = true.
Proof. destruct v as [[| d |]|]; try done. cbn. by rewrite andb_true_iff; intros [_ ->]. Qed.

Abbreviation e_result := (mutateRatchetDurably 0 e_job stored e_world).
Lemma e_received : received (fst e_result) = true.
Proof. vm_compute. reflexivity. Qed.
Lemma e_live : live_edge e_world 0 0 0 0.
Proof.
  split; try reflexivity.
  - apply w_receiver_inv.
  - apply inv_set_keys, u_b_inv.
  - apply NoDup_nil_2.
Qed.

Lemma received_message_recoverable_witness : exists row, w_row (snd e_result) = Some row /\
  deserializeRatchet (row_secrets row) = w_ratchets (snd e_result) 0%nat.
Proof.
  destruct (received_value _ e_received) as [Hv Ha].
  destruct (received_message_recoverable e_world 0 0 0 0 e_frame w_mroot [] (value_of (fst e_result)) (snd e_result)
    e_live (pair_fst e_result _ Hv) Ha) as (_ & row & out & hdr & key & mk & H1 & _ & H2 & _).
  exists row. by split.
Defined.

(** The same frame, when a healing offer was adopted first. *)
Definition e_heal : HealPending := {| hp_live := 0; hp_ratchet := 0; hp_candidate := u_b; hp_dispatch := None |}.
Definition e_healed : World := snd (finish_heal 0 e_heal e_world).
Lemma e_heals : finish_heal 0 e_heal e_world = (Ok None, e_healed).
Proof. unfold e_healed. apply pair_fst. vm_compute. reflexivity. Qed.
Abbreviation e_late := (mutateRatchetDurably 0 e_job stored e_healed).
Lemma e_late_received : received (fst e_late) = true.
Proof. vm_compute. reflexivity. Qed.

Definition e_parsed : ParsedChunkFrame :=
  get {| pf_header := e_header; pf_pqEpoch := 0; pf_nonce := []; pf_ciphertext := [] |} (parseChunkFrameHeader e_frame).
Lemma e_parses : parseChunkFrameHeader e_frame = Ok e_parsed.
Proof. apply get_ok. vm_compute. reflexivity. Qed.
Lemma e_pub : h_dhPub (pf_header e_parsed) = w_pub.
Proof. vm_compute. reflexivity. Qed.

Lemma late_frame_key_lost_witness : exists m2 key mk,
  ep_cache (w_epcs (snd e_late) 0%nat) = Some m2 /\ frame_key e_frame (pf_header e_parsed) key /\
  map_get key (w_maps (snd e_late) m2) = None /\
  exists out sx, serialize [(key, mk)] (runtime_at e_healed 0) = (Ok out, sx).
Proof.
  destruct (received_value _ e_late_received) as [Hv Ha].
  destruct (late_frame_key_lost e_world 0 0 0 0 e_heal None e_healed e_frame w_mroot [] (value_of (fst e_late))
    (snd e_late) e_parsed w_chain e_live ltac:(cbn; lia) e_heals e_parses) as
    (m2 & key & mk & row & out & sx & H1 & H2 & H3 & _ & _ & _ & H4 & _).
  - rewrite e_pub. apply w_receiving.
  - intros key _. reflexivity.
  - apply (pair_fst e_late _ Hv).
  - exact Ha.
  - exists m2, key, mk. split; [exact H1|]. split; [exact H2|]. split; [exact H3|]. by exists out, sx.
Defined.

(** ** A chunk from the wire to the store *)

Definition r_metadata : Metadata := {|
  md_schemaVersion := 1; md_messageType := 1; md_hash := zeros 64; md_totalSize := 5; md_date := Some 1;
  md_name := []; md_chunkStartIndex := 0; md_chunkEndIndex := 5; md_chunkIndex := 0 |}.
Definition r_plain : bytes := get [] (serializeMetadata r_metadata) ++ w_field ++ w_c.
Definition r_frame : bytes := get [] (sealChunk e_mk e_header r_plain w_mroot (Some e_context) (zeros 12)).
Definition r_start : Rx := MkRx e_world ∅ ∅ (fun _ => MkStore [] None ∅ None None).
Abbreviation r_run := (handleReceiveMessage 0 "r" "p" "c" r_frame w_mroot [] stored
  {| ev_opens := true; ev_lands := None; ev_commit := committed |} false
  {| sg_decrypted := false; sg_token := false; sg_stored := false |} 0 r_start).
Definition r_default : ReceiveMessageResult := dropped_result 0.
Definition real_result (r : result EdgeThrow ReceiveMessageResult) : bool :=
  match r with Ok x => receipt_is_real x | Err _ => false end.
Lemma real_value r : real_result r = true -> r = Ok (get r_default r) /\ receipt_is_real (get r_default r) = true.
Proof. by destruct r. Qed.
Lemma r_real : real_result (fst r_run) = true.
Proof. vm_compute. reflexivity. Qed.

Lemma receipt_means_stored_witness : exists leaf,
  createChunkReceiptToken w_mroot (re_chunkIndex (get r_default (fst r_run))) leaf = Ok (re_chunkHash (get r_default (fst r_run))).
Proof.
  destruct (real_value _ r_real) as [Hr Hreal].
  destruct (receipt_means_stored 0 "r" "p" "c" r_frame w_mroot [] stored
    {| ev_opens := true; ev_lands := None; ev_commit := committed |} false
    {| sg_decrypted := false; sg_token := false; sg_stored := false |} 0 r_start _ (snd r_run)
    (pair_fst r_run _ Hr) Hreal) as (plain & key & _ & H & _).
  eexists. exact H.
Defined.

(** ** A commit that fails *)

Definition x_file : bytes := [Byte.x01; Byte.x02; Byte.x03; Byte.x04; Byte.x05].
Definition x_chunk (i : Z) : ReceiveChunk :=
  {| rc_schemaVersion := 1; rc_roomId := "r"; rc_fromPeerId := "p"; rc_channelLabel := "c"; rc_timestamp := 1;
     rc_merkleRoot := "m"; rc_hash := "h"; rc_filename := []; rc_messageType := 11; rc_chunkIndex := i;
     rc_mimeType := "t"; rc_leafHash := "l"; rc_realLen := len_at 5 2 i; rc_totalSize := 5;
     rc_data := piece x_file 2 i; rc_opfs := true |}%string.
Definition x_read : ReadEnv := {| gv_available := true; gv_sync := true; gv_throws := None; gv_strips := true |}.
Lemma x_genuine i : 0 <= i < 3 -> genuine x_file 2 (x_chunk i) /\ same_manifest (x_chunk 2) (x_chunk i) /\
  receive_bounds (x_chunk i) = true.
Proof.
  intros Hi. assert (i = 0 \/ i = 1 \/ i = 2) as [->|[->| ->]] by lia;
    (split; [split_and!; first [reflexivity|vm_compute; discriminate]|split; vm_compute; reflexivity]).
Qed.
Lemma aborted_commit_corrupts_file_witness : exists s f,
  saved s = 5 /\ fst (read_file 5 x_read s) = Some f /\ f = [Byte.x01; Byte.x02; Byte.x04; Byte.x00; Byte.x00] /\ f <> x_file.
Proof.
  destruct (aborted_commit_corrupts_file x_file 2 (x_chunk 2) [x_chunk 1; x_chunk 0] ∅ x_read
    (store_all ((x_chunk 2, opfs_works aborted) :: ((fun c => (c, opfs_works committed)) <$> [x_chunk 2; x_chunk 1; x_chunk 0]))
       (MkStore [] None ∅ None None))) as [Hs Hf];
    [by vm_compute..| | | |reflexivity|].
  - repeat apply List.Forall_cons; [apply x_genuine; lia..|apply List.Forall_nil].
  - reflexivity.
  - apply perm_swap.
  - destruct (Hf eq_refl) as (f & Hread & -> & _ & _ & Hne).
    do 2 eexists. split; [exact Hs|]. split; [exact Hread|]. split; [by vm_compute|]. apply Hne. by vm_compute.
Defined.
