(* ===== verification/RoomWitnesses.v ===== *)
(** * Runs of the room models

    The theorems of [RoomInviteCodec] and [RoomPins] that have hypotheses,
    applied at concrete invites, attempts, handshakes and vaults. *)

From Stdlib Require Import String.
From stdpp Require Import gmap relations.
From S2P Require Import Prelude Bytes Wordlist RoomInvite RoomInviteCodec Proto Handshake HandshakeConfirm HandshakeRun.
From S2P Require Import RoomPins Concrete Witnesses.
Local Open Scope Z_scope.
Local Open Scope list_scope.

(** ** Invites *)

(** A platform for texts that are already normalized and in lower case. *)
Definition w_platform : InvitePlatform :=
  {| sha256 := fun _ => zeros 32; normalizeNFKD := fun s => s; toLowerCase := fun s => s |}.
Lemma w_plain : PlainText w_platform.
Proof. by split. Qed.
Definition w_words : list Z := join (repeat (units "abandon") 24).

Lemma words_spelling_witness : decodeRoomCapabilityWords (P := w_platform) w_words = Ok (zeros 32).
Proof.
  apply (words_spelling (P := w_platform) (PlainText0 := w_plain)). exists w_words. by vm_compute.
Defined.

(** ** Attempts *)

Definition w_room : list Z := units "room".
Definition w_peer : list Z := repeat 97 64.
Definition w_peer' : list Z := repeat 98 64.
(** Four wrong guesses of one peer and one of another, two of them at a time. *)
Definition w_events : list PinEvent :=
  [enter w_peer 0; enter w_peer' 0; read 0; read 1; fail_at 0 1; fail_at 1 2; store 1; store 0;
   enter w_peer 2; read 2; fail_at 2 3; store 2; enter w_peer 3; read 3; fail_at 3 5; store 3; enter w_peer 505].
Definition w_system (events : list PinEvent) : System := default (MkSystem (MkPins ∅ ∅) [] []) (pin_run w_room events).
Definition w_after : Pins := sy_pins (w_system w_events).
(** A run is given by its result; the state is not computed. *)
Lemma run_ends {A} (x : result PinError A * Pins) a : x.1 = Ok a -> x = (Ok a, x.2).
Proof. by destruct x as [r p]; intros [= ->]. Qed.
Definition is_some {A} (o : option A) : bool := match o with Some _ => true | None => false end.
Lemma run_given events : is_some (pin_run w_room events) = true -> pin_run w_room events = Some (w_system events).
Proof. unfold w_system. by destruct (pin_run w_room events). Qed.
Lemma w_events_run : is_some (pin_run w_room w_events) = true.
Proof. vm_compute. reflexivity. Qed.
Lemma w_clock : clock_forward w_events.
Proof. unfold clock_forward. cbn. repeat constructor; lia. Qed.
Lemma w_flights : forallb (fun k => in_flight (w_system (take k w_events)) <=? 2)%nat (seq 0 18) = true.
Proof. vm_compute. reflexivity. Qed.
Lemma w_two_at_most : at_most_in_flight 2 w_room w_events.
Proof.
  intros k y H. assert (exists k', (k' < 18)%nat /\ take k w_events = take k' w_events) as (k' & Hk & Heq).
  { destruct (decide (k < 18)%nat); [by exists k|]. exists 17%nat. split; [lia|]. by rewrite !take_ge by (cbn; lia). }
  rewrite Heq in H. assert (w_system (take k' w_events) = y) as <- by (unfold w_system; by rewrite H).
  apply Nat.leb_le. apply (proj1 (forallb_forall _ _) w_flights). apply in_seq. lia.
Qed.
Lemma w_let_in : is_some (pin_step w_room (read 4) (w_system w_events)) = true.
Proof. vm_compute. reflexivity. Qed.

Lemma pin_guesses_bounded_witness :
  (forall s, (count_if (fun a => bool_decide (is_Some (recorded a)) && started_within s a) (sy_attempts (w_system w_events)) <= 31)%nat) /\
  5 + pinBackoffMs (blen (failures_of w_peer (w_system w_events))) <= 505 /\
  pinBackoffMs (blen (failures_of w_peer (w_system w_events))) = 500.
Proof.
  destruct (pin_guesses_bounded w_room 2 w_events (w_system w_events) (run_given _ w_events_run) w_clock w_two_at_most) as (H1 & H2 & _).
  split; [exact H1|]. split; [|vm_compute; reflexivity].
  destruct (pin_step w_room (read 4) (w_system w_events)) as [y'|] eqn:Hy; [|pose proof w_let_in as Hn; rewrite Hy in Hn; discriminate Hn].
  apply (H2 4%nat y' (MkAttempt w_peer 505 Running) 5 Hy).
  - assert (default [] (sy_attempts <$> pin_step w_room (read 4) (w_system w_events)) !! 4%nat = Some (MkAttempt w_peer 505 Running)) as H by (vm_compute; reflexivity).
    rewrite Hy in H. exact H.
  - reflexivity.
  - vm_compute. reflexivity.
Defined.

Definition w_failed : Pins := (recordPinFailure w_room w_peer 7 w_after).2.
Lemma pin_buckets_separate_witness :
  bucket w_room w_peer' w_failed = bucket w_room w_peer' w_after /\
  bucket w_room w_peer (clearPinAttempts w_room (Some w_peer) w_after).2 = None.
Proof.
  split.
  - destruct (pin_buckets_separate w_room w_room w_peer w_peer' 7 w_after w_failed) as (H & _).
    apply H; [apply (run_ends (recordPinFailure w_room w_peer 7 w_after) tt); vm_compute; reflexivity|]. discriminate.
  - destruct (pin_buckets_separate w_room w_room w_peer w_peer' 7 w_after (clearPinAttempts w_room (Some w_peer) w_after).2)
      as (_ & H & _).
    apply H, (run_ends (clearPinAttempts w_room (Some w_peer) w_after) tt). vm_compute. reflexivity.
Defined.

(** ** A guess that is broken off *)

Lemma exec_app {A} evs1 evs2 : forall c c' : proto HandshakeError A, exec (evs1 ++ evs2) c = Some c' ->
  exists c1, exec evs1 c = Some c1 /\ exec evs2 c1 = Some c'.
Proof.
  induction evs1 as [|[f|f] evs1 IH]; intros c c' H; [by exists c|..]; destruct c as [r|f' k|k]; cbn in H |- *; try discriminate H.
  - destruct (bytesEqual f f'); [|discriminate H]. by apply IH.
  - by apply IH.
Qed.
(** The responder of the honest handshake has sent its hello and its
    confirmation and waits for the peer's. *)
Lemma w_confirm_sent : exists evs k, length evs = 3%nat /\
  exec evs (performHandshakeCore w_heap w_pR (w_entropy "b")) = Some (Recv k) /\ k None = Done (Err HsTransport).
Proof.
  destruct (honest_runs w_pI w_pR (w_id "alice") (w_id "bob") (w_entropy "a") (w_entropy "b")
    w_heap w_heap w_honest w_kem_ready w_sha256) as (rI & rR & t & v & _ & _ & HR).
  rewrite <- (take_drop 3 (right_events (conversation t v))) in HR. apply exec_app in HR as (c & H & HR).
  apply exec_in in HR as (k & -> & _). exists (take 3 (right_events (conversation t v))), k.
  split; [done|]. split; [exact H|]. exact (proj1 (waits_exec _ _ _ H (waits_core _ _ _))).
Qed.

Lemma broken_guess_not_counted_witness : exists evs k, length evs = 3%nat /\
  exec evs (performHandshakeCore w_heap w_pR (w_entropy "b")) = Some (Recv k) /\ k None = Done (Err HsTransport) /\
  settleHandshake w_room w_peer 8 (Err (A := HandshakeResult) HsTransport) w_after = w_after.
Proof.
  destruct w_confirm_sent as (evs & k & Hl & H & Hk). exists evs, k. split; [exact Hl|]. split; [exact H|].
  destruct (broken_guess_not_counted w_heap w_pR (w_entropy "b")) as [_ Hb].
  destruct (Hb evs k w_room w_peer 8 w_after H) as (outcome & H1 & -> & H2). exact (conj H1 H2).
Defined.

(** ** The vault *)

Definition w_vault0 : PinVault := MkPinVault ∅ 0 ∅.
Definition w_vault1 : PinVault := (vault_put w_room (text "4711") w_vault0).2.
Definition w_vault2 : PinVault := (vault_put w_room (text "0815") w_vault1).2.
Definition w_own : gset nat := {[1%nat]} ∪ ({[0%nat]} ∪ ∅).

Lemma no_pin_left_behind_witness : (exists room, pv_pins w_vault2 !! room = Some 0%nat) \/ exists n, pv_heap w_vault2 !! 0%nat = Some (zeros n).
Proof.
  apply (no_pin_left_behind w_vault2 w_own 0%nat).
  - eapply rtc_l; [exact (step_put w_room (text "4711") w_vault0 ∅)|].
    apply rtc_once. exact (step_put w_room (text "0815") w_vault1 ({[0%nat]} ∪ ∅)).
  - apply elem_of_union_r, elem_of_union_l. by apply elem_of_singleton.
Defined.
