(* ===== verification/InboundWitnesses.v ===== *)
(** * Runs of the inbound frames

    The theorems of [FrameQueueSafety], [InboundFrames], [Mutex] and [Leases]
    applied to concrete queues, edges, a frame that is received to its end, a lane
    that opens, mutexes, gates and inboxes. *)

From Stdlib Require Import String.
From stdpp Require Import gmap functions.
From S2P Require Import Prelude Bytes Constants Crypto Ratchet WireFrames Merkle ChunkCrypto ChannelLabel MlKem Metadata.
From S2P Require Import RoomInvite RatchetWrap EdgePersist MessageTypes ReceiveStore Receive FrameQueue FrameQueueInv.
From S2P Require Import FrameQueueSafety InboundFrames Concrete Witnesses SessionWitnesses ReceiveWitnesses.
From S2P Require Import RoomPolicy Handshake Mutex Leases.
Local Open Scope Z_scope.
Local Open Scope list_scope.

(** ** Queues *)

Definition w_edge : list Z := edgeQueueKey (units "room") (units "peer").
(** Two frames arrive, the first is being handled when the channel is released
    and somebody waits; then the handler ends and the drain stops. *)
Definition q_busy : list QueueEvent :=
  [OpenChannel w_edge; FrameArrives 0 (text "one"); FrameArrives 0 (text "two"); ReceiptArrives 0 (zeros 64)].
Definition q_released : list QueueEvent := q_busy ++ [ChannelReleased 0; WaiterComes 0].
Definition q_over : list QueueEvent := q_released ++ [HandlerEnds w_edge true; DrainGoesOn 0].

Lemma queue_budgets_exact_witness : count_at (qs_frameBytes (queue_run q_busy)) w_edge = 3 /\
  queued_bytes w_edge (queue_run q_busy) = 3.
Proof.
  destruct (queue_budgets_exact q_busy) as (_ & _ & H & _). destruct (H w_edge) as [H1 _].
  rewrite <- H1. split; vm_compute; reflexivity.
Defined.

(** After two turns the queue has nothing to do for its frames. *)
Definition q_done : list QueueEvent :=
  [OpenChannel w_edge; FrameArrives 0 (text "one"); HandlerEnds w_edge true; DrainGoesOn 0].
Lemma q_done_idle : qs_locks (queue_run q_done) = [] /\ qs_ended (queue_run q_done) = [].
Proof. split; vm_compute; reflexivity. Qed.
Lemma queues_drain_witness : hasQueuedEdgeReceiveWork w_edge (queue_run q_done) = false /\
  work (queue_run q_busy) = 7 /\ work (queue_step (queue_run q_busy) (HandlerEnds w_edge true)) < 7.
Proof.
  split.
  - destruct (queues_drain q_done) as [_ H]. apply H. intros turn Ht.
    destruct q_done_idle as [Hl He]. destruct turn; try (exfalso; exact Ht); cbn [queue_step]; unfold finish, resume; rewrite ?Hl, ?He; reflexivity.
  - assert (work (queue_run q_busy) = 7) as Hw by (vm_compute; reflexivity). split; [exact Hw|].
    destruct (queues_drain q_busy) as [H _]. destruct (H (HandlerEnds w_edge true) I) as [E|E].
    + apply (f_equal work) in E. vm_compute in E. discriminate E.
    + cbv zeta in E. lia.
Defined.

Definition q_channel : FrameQueue := default (MkFrameQueue [] [] ∅ false false false 0 0) (qs_frames (queue_run q_over) !! 0%nat).
Lemma released_channel_silent_witness : fq_waiters q_channel = 0%nat /\
  FrameJob 0 (text "two") ∉ jobs [] (queue_run (q_over ++ [FrameArrives 0 (text "late")])).
Proof.
  destruct (released_channel_silent q_over [FrameArrives 0 (text "late")] 0 q_channel) as [_ H].
  - vm_compute. reflexivity.
  - vm_compute. reflexivity.
  - destruct H as (H1 & H2 & _); [vm_compute; reflexivity|]. split; [exact H1|apply H2].
Defined.

(** ** Roles *)

Definition w_lower : list Z := repeat 97 64.
Definition w_upper : list Z := repeat 98 64.
Definition w_edge_of (self peer : list Z) : Edge := MkEdge self peer None false false ∅ ∅.
Lemma one_side_opens_main_witness :
  opens (w_edge_of w_lower w_upper) && opens (w_edge_of w_upper w_lower) = false /\
  accepts 1 (w_edge_of w_upper w_lower) = true.
Proof.
  destruct (one_side_opens_main (w_edge_of w_lower w_upper) (w_edge_of w_upper w_lower) 1 eq_refl eq_refl) as [H _].
  destruct (H eq_refl eq_refl) as (H1 & H2 & _). split; [exact H1|]. rewrite H2. by vm_compute.
Defined.

(** ** One frame *)

Definition i_env (cover : bool) : FrameEnv := {|
  fv_aborted := false; fv_lease := true; fv_gateOpens := true; fv_abortedAtGate := false; fv_leaseAtGate := true;
  fv_abortedReceived := false; fv_cover := cover; fv_open := true; fv_random := []; fv_fileCloses := true;
  fv_coverAtEnd := cover; fv_openAtEnd := true |}.
Abbreviation i_run cover := (processMessage (Some 0%nat) "r" "p" "p" "c" w_mroot r_frame [] stored
  {| ev_opens := true; ev_lands := None; ev_commit := committed |}
  {| sg_decrypted := false; sg_token := false; sg_stored := false |} 0 (i_env cover) r_start).
Lemma triple_of {X Y Z} (x : X * Y * Z) : x = (x.1.1, x.1.2, x.2).
Proof. by destruct x as [[] ?]. Qed.
Lemma i_received : is_ok (fst (handleReceiveMessage 0 "r" "p" "c" r_frame w_mroot [] stored
  {| ev_opens := true; ev_lands := None; ev_commit := committed |} false
  {| sg_decrypted := false; sg_token := false; sg_stored := false |} 0 r_start)) = true.
Proof. vm_compute. reflexivity. Qed.
Lemma every_frame_answered_witness : frames_of (i_run true).1.2 = [] /\
  exists r, frames_of (i_run false).1.2 = [receipt_frame (answer r [])] ++ last_frames (i_env false) (i_run false).1.1 r.
Proof.
  assert (forall cover, exists r, 
    frames_of (i_run cover).1.2 = first_frames (i_env cover) r ++ last_frames (i_env cover) (i_run cover).1.1 r /\
    (cover = true -> frames_of (i_run cover).1.2 = [])) as H.
  { intros cover. destruct (every_frame_answered 0 "r" "p" "p" "c" w_mroot r_frame [] stored
      {| ev_opens := true; ev_lands := None; ev_commit := committed |}
      {| sg_decrypted := false; sg_token := false; sg_stored := false |} 0 (i_env cover) r_start (i_run cover).1.1 (i_run cover).1.2 (i_run cover).2
      (triple_of (i_run cover))) as (res & Hr & H).
    pose proof i_received as Hok. rewrite Hr in Hok. destruct res as [r|e]; [|discriminate Hok].
    destruct H as (H1 & _ & H3 & _). exists r. split; [exact H1|]. intros ->. by apply H3. }
  split; [destruct (H true) as (r & _ & H1); by apply H1|]. destruct (H false) as (r & H1 & _). exists r. exact H1.
Defined.

(** ** A lane that opens *)

Definition i_chunk (i : Z) : Chunk :=
  {| ck_hash := "h"; ck_chunkIndex := i; ck_data := None; ck_mimeType := "t"; ck_realLen := 2; ck_leafHash := toHex (zeros 64) |}.
Definition i_store : Store := MkStore [i_chunk 0; i_chunk 1] None ∅ None None.
Definition i_lane : Lane := {| la_queue := 0; la_main := false; la_cover := true; la_object := true; la_root := zeros 64;
                               la_rootHex := uint8ArrayToHex (zeros 64) |}.
Lemma replay_ignores_cover_witness : length (replayReceipts i_lane true (fun _ => true) i_store) = 2%nat.
Proof.
  destruct (replay_ignores_cover i_lane true (fun _ => true) i_store [zeros 64; zeros 64]) as (Hl & last & H & Hn).
  1-4: reflexivity.
  - discriminate.
  - repeat (apply Forall2_cons_2; [by split_and!|]). apply Forall2_nil_2.
  - discriminate.
  - change i_lane with {| la_queue := la_queue i_lane; la_main := la_main i_lane; la_cover := true; la_object := la_object i_lane;
                          la_root := la_root i_lane; la_rootHex := la_rootHex i_lane |}.
    rewrite H, length_app, Hl. unfold blen in Hn. cbn in Hn |- *. lia.
Defined.

(** * Runs of the mutexes, gates and inboxes

    The theorems of [Mutex] and [Leases] applied to a held mutex, an edge
    that goes while a caller waits, a gate that is reset before its handshake
    ends, and the two flights of a responder. *)

(** ** Mutexes *)

(** Caller 7 holds the lock, 8 waits for it and 9 for idleness. *)
Definition m_held : AsyncMutex := (whenIdle 9 (acquire 8 (acquire 7 new_mutex).2).2).2.
Lemma mutex_refines_line_witness : release m_held = (Some 8%nat, [], MkMutex [] true [9%nat]) /\
  in_line (release m_held).2 (Some 8%nat) [8%nat] /\ (acquire 5 m_held).1 = false.
Proof.
  assert (in_line m_held (Some 7%nat) [7%nat; 8%nat]) as H by (split_and!; [reflexivity|reflexivity|discriminate]).
  destruct (mutex_refines_line m_held (Some 7%nat) [7%nat; 8%nat] H) as (Ha & Hr & _).
  specialize (Ha 5%nat). specialize (Hr 7%nat [8%nat] eq_refl). split_and!; [reflexivity|apply Hr|apply Ha].
Defined.

Definition r_edge : list Z := roomPeerKey (units "room") (units "peer").
(** The edge goes while a caller holds its mutex, a second one comes, and the
    release goes round. *)
Definition r_events : list RegistryEvent :=
  [Enters r_edge 1; EdgeGone r_edge; Leaves 0; Enters r_edge 2; ReleaseGoesOn 0].
Lemma one_critical_section_witness : exists m, rg_mutexes (registry_run r_events) !! 0%nat = Some (r_edge, m) /\
  mx_locked m = true /\ (forall j m', rg_mutexes (registry_run r_events) !! j = Some (r_edge, m') -> isIdle m' = false -> 0%nat = j).
Proof.
  exists (MkMutex [] true [0%nat]). assert (rg_mutexes (registry_run r_events) !! 0%nat = Some (r_edge, MkMutex [] true [0%nat])) as H
    by (vm_compute; reflexivity).
  split_and!; [exact H|reflexivity|]. intros j m' Hj Hm'.
  exact (one_critical_section r_events r_edge 0 j (MkMutex [] true [0%nat]) m' H Hj eq_refl Hm').
Defined.

(** ** Gates *)

Definition g_edge : list Z := gateKey (units "room") (units "peer").
(** The gate is reset before the first handshake ends; the second one succeeds. *)
Definition g_reset : list GateEvent := [Claims g_edge; Resets g_edge].
Definition g_later : list GateEvent := [Opens g_edge 0; Opens g_edge 1].
Lemma stale_lease_inert_witness :
  isRatchetGateOpen g_edge (Some 0%nat) (gate_run (g_reset ++ g_later)) = false /\
  isRatchetGateOpen g_edge (Some 1%nat) (gate_run (g_reset ++ g_later)) = true.
Proof.
  split; [|vm_compute; reflexivity].
  destruct (stale_lease_inert g_reset g_later 0 (MkGate g_edge true gate_rejected)) as (_ & _ & _ & H & _).
  - vm_compute. reflexivity.
  - vm_compute. reflexivity.
  - exact H.
Defined.

(** ** Inboxes *)

Definition f_hello : bytes := byte_of HS_STEP_HELLO :: zeros (hl_length (helloLayout hybrid_mlkem512) - 1).
Definition f_confirm : bytes := byte_of HS_STEP_CONFIRM :: zeros (CONFIRM_LEN - 1).
(** The first flight comes before anybody reads, the second is awaited, and a
    third one closes the channel of the responder. *)
Definition i_events : list InboxEvent :=
  [SetChannel g_edge hybrid_mlkem512 false; Delivers g_edge f_hello 0; Recvs g_edge 0 1; Recvs g_edge 0 2;
   Delivers g_edge f_confirm 0; Delivers g_edge f_confirm 0].
Lemma inbox_hands_in_order_witness : handed 0 (inbox_run i_events no_inboxes).2 = [f_hello; f_confirm] /\
  accepted 0 (inbox_run i_events no_inboxes).2 = handed 0 (inbox_run i_events no_inboxes).2.
Proof.
  split; [vm_compute; reflexivity|].
  destruct (inbox_hands_in_order i_events (inbox_run i_events no_inboxes).1 (inbox_run i_events no_inboxes).2 0
    (MkInbox hybrid_mlkem512 false [] None [])) as (H & _).
  - apply surjective_pairing.
  - vm_compute. reflexivity.
  - rewrite H. apply app_nil_r.
Defined.
