(* ===== verification/SendWitnesses.v ===== *)
(** * Runs of the sender

    The theorems of [Staging], [Acks], [SendPass], [Sending] and [SendPeers]
    applied to a short text, a chunk that a peer has received, and sends whose
    worlds are written out. *)

From Stdlib Require Import String.
From stdpp Require Import gmap functions.
From S2P Require Import Prelude Bytes Constants Crypto Ratchet WireFrames PqMessageKey Merkle ChunkCrypto ChannelLabel Metadata.
From S2P Require Import RoomInvite RatchetWrap EdgePersist MessageTypes ReceiveStore ReceiveLayout ReceiveFile Receive.
From S2P Require Import Concrete Witnesses SessionWitnesses ReceiveWitnesses FrameQueue Staging Acks SendPass Sending SendPeers.
Local Open Scope Z_scope.
Local Open Scope list_scope.

Lemma run_value {S X A} (d : A) (x : result X A * S) : is_ok (fst x) = true -> x = (Ok (get d (fst x)), snd x).
Proof. by destruct x as [[]]. Qed.

(** ** Cutting a text *)

Definition v_tid : list Z := repeat 97 64.
Definition v_message : Message := MText (units "hello").
(** Every draw is 0; [n] bytes of noise. *)
Definition v_env (n : Z) : SplitEnv := MkSplitEnv (fun _ => false) None None 1 (units "name") (fun _ => zeros n) (fun _ => [[]]) (fun _ => [[]])
  (fun _ => true) (fun _ => true) true.
Definition v_sender : Sender := MkSender ∅ [] [] None [].
Definition v_split := splitToChunks v_message v_tid (v_env 4000) 2 4000 d_0_9 1 v_sender.
Lemma v_split_ok : is_ok (fst v_split) = true /\ bool_decide (spr_totalChunks (get nothing_sent (fst v_split)) = 2) = true.
Proof. split; vm_compute; reflexivity. Qed.
Lemma split_cuts_message_witness : exists u cells,
  cut_message (message_bytes v_message) v_tid 4000 2 u cells (get nothing_sent (fst v_split)) v_sender (snd v_split).
Proof.
  destruct v_split_ok as [Hok Hn]. apply bool_decide_eq_true in Hn.
  destruct (split_cuts_message v_message v_tid (v_env 4000) 2 4000 d_0_9 1 1 v_sender (get nothing_sent (fst v_split)) (snd v_split)) as [[Hr _]|(u & cells & _ & H)].
  - reflexivity.
  - intros i. by apply blen_zeros.
  - split; [intros i [H|H]; discriminate H|intros i H; discriminate H].
  - exact (run_value nothing_sent _ Hok).
  - rewrite Hr in Hn. discriminate Hn.
  - by exists u, cells.
Defined.

(** A draw of no bytes is 0, which is below every limit. *)
Lemma zero_drawn range : 0 < range -> first_below (draw_limit range) [[]] <> None.
Proof.
  intros Hr. cbn. assert (range <= 256 ^ bytesNeeded range) as H.
  { unfold bytesNeeded, ceil_div. pose proof (Z.log2_spec range Hr) as [_ H]. pose proof (Z.log2_nonneg range) as Hl.
    set (l := Z.log2 range) in *. pose proof (Z.div_mod (l + 1 + 8 - 1) 8 ltac:(lia)). pose proof (Z.mod_pos_bound (l + 1 + 8 - 1) 8 ltac:(lia)).
    etrans; [apply Z.lt_le_incl, H|]. change 256 with (2 ^ 8). rewrite <- Z.pow_mul_r by lia. apply Z.pow_le_mono_r; lia. }
  assert (0 < draw_limit range) as Hd by (unfold draw_limit; pose proof (Z.div_le_mono range _ range Hr H) as Hq; rewrite Z.div_same in Hq by lia; nia).
  destruct (Z.leb_spec (draw_limit range) 0); [lia|done].
Qed.
Lemma split_completes_witness : exists r s', splitToChunks v_message v_tid (v_env CHUNK_LEN) 3 CHUNK_LEN d_0_9 1 v_sender = (Ok r, s') /\ spr_totalChunks r = 3.
Proof.
  apply (split_completes v_message v_tid (v_env CHUNK_LEN) 3 1 (code Text) (5 + 3 * (CHUNK_LEN + METADATA_LEN + PROOF_LEN + 2048)) v_sender).
  - reflexivity.
  - intros i. by apply blen_zeros.
  - split; try reflexivity; intros; by apply zero_drawn.
  - reflexivity.
  - vm_compute. reflexivity.
  - reflexivity.
  - vm_compute. by split.
  - lia.
  - vm_compute. reflexivity.
  - vm_compute. discriminate.
Defined.

(** ** A cancellation *)

Definition v_transfers : Transfers := snd (beginTransfer (units "room") v_tid (MkTransfers [] [])).
Definition v_selector : TransferSelector := {| sel_transferId := Some v_tid; sel_hashHex := None; sel_merkleRootHex := None |}.
Lemma cancel_hits_one_witness : ts_heap (snd (abortTransfer (units "room") v_selector v_transfers)) !! 0%nat =
  Some (MkActive v_tid (Some (cancelled_with false)) false None None).
Proof.
  destruct (cancel_hits_one (units "room") v_selector v_transfers (Ok 1) (snd (abortTransfer (units "room") v_selector v_transfers))) as [_ H].
  - apply (tr_begin (units "room") v_tid (MkTransfers [] []) (Ok 0%nat)); [apply tr_none|]. vm_compute. reflexivity.
  - vm_compute. reflexivity.
  - destruct (H 1 eq_refl) as (_ & _ & _ & Hheap). etrans; [apply (Hheap 0%nat (MkActive v_tid None false None None)); vm_compute; reflexivity|].
    vm_compute. reflexivity.
Defined.

(** ** A chunk that a peer has received *)

Definition v_token : bytes := uint8ArrayToHex (get [] (createChunkReceiptToken w_mroot 0 (hashMerkleLeaf w_c))).
Definition v_metadata : bytes := get [] (serializeMetadata r_metadata).
Definition v_chunk : NewChunk := MkNewChunk [] (uint8ArrayToHex w_mroot) (uint8ArrayToHex (hashMerkleLeaf w_c)) v_token 0 w_c v_metadata w_field.
Definition v_newChunks : gmap (list Z * Z) NewChunk := {[ (v_tid, 0) := v_chunk ]}.
Definition v_label : bytes := get [] (compileChannelMessageLabel (text "c") (RootBytes w_mroot)).
Definition v_rooms : list (list Z * list RoomMessage) :=
  [(units "room", [{| rm_merkleRootHex := uint8ArrayToHex w_mroot; rm_sha512Hex := text "other"; rm_transferId := v_tid |}])].
Abbreviation v_read := (handleReadReceipt (re_chunkHash (get r_default (fst r_run))) v_label (units "peer") (units "room") v_rooms v_newChunks []).
Lemma v_token_made : createChunkReceiptToken w_mroot 0 (hashMerkleLeaf w_c) = Ok (get [] (createChunkReceiptToken w_mroot 0 (hashMerkleLeaf w_c))).
Proof. vm_compute. reflexivity. Qed.
Lemma v_tokens : tokens_ok v_newChunks.
Proof.
  intros k c H. unfold v_newChunks in H. apply lookup_singleton_Some in H as [<- <-]. split; [reflexivity|]. intros _. exists w_mroot, (get [] (createChunkReceiptToken w_mroot 0 (hashMerkleLeaf w_c))).
  split_and!; [reflexivity..|exact v_token_made].
Qed.
Lemma v_acked : fst v_read = Ok (chunk_acked v_tid 0 true).
Proof. vm_compute. reflexivity. Qed.
Lemma ack_means_stored_witness :
  (exists ed, map_find (Acks.key (units "room") (units "peer") v_tid) (snd v_read) = Some ed /\ 0 ∈ ed_acked ed).
Proof.
  destruct (real_value _ r_real) as [Hr Hreal].
  destruct (ack_means_stored 0 "r" "p" "c" r_frame w_mroot [] stored
    {| ev_opens := true; ev_lands := None; ev_commit := ReceiveStore.committed |} false
    {| sg_decrypted := false; sg_token := false; sg_stored := false |} 0 r_start _ (snd r_run)
    v_label (units "peer") (units "room") v_rooms v_newChunks [] v_tid 0 true (snd v_read)
    (pair_fst r_run _ Hr) Hreal v_tokens (pair_fst v_read _ v_acked)) as (_ & H & _). exact H.
Defined.

(** ** A pass over a message of one chunk *)

(** A room whose peer is connected, and whose gate is open. *)
Definition v_connection : Connection := MkConnection (units "room") (units "peer") (zeros 64) true true None None true.
Definition v_net : NetView := MkNet (fun _ => v_connection) [0%nat] gate_passed (Some (e_mk, e_header, None)) true true (Some true) [].
Definition v_world (now : Z) (complete : bool) : SendPass.World :=
  SendPass.MkWorld now false opened_channel 0 [] complete true sent_ok [] (zeros 12) v_net.
Definition v_cipher : Cipher := MkCipher 0 e_header None.
Definition v_sending (worlds : list SendPass.World) : Sending := MkSending v_newChunks [e_mk] [] (v_world 0 true) worlds.
Definition v_worlds : list SendPass.World := repeat (v_world 0 true) 12.
Definition v_pass := sendChunks v_cipher (tree_of [w_c]) w_mroot [] v_tid v_label 1 [] None (v_sending v_worlds).
Lemma v_root : getMerkleRoot (tree_of [w_c]) = Ok w_mroot.
Proof. vm_compute. reflexivity. Qed.
Lemma v_ready worlds : all_ready w_mroot v_tid [w_c] (v_sending worlds).
Proof.
  intros i c H. change (v_newChunks !! (v_tid, i) = Some c) in H. unfold v_newChunks in H. apply lookup_singleton_Some in H as [[= <-] <-].
  split_and!; [reflexivity..|exists r_metadata; split; [vm_compute; reflexivity|reflexivity]|right]. split_and!.
  - reflexivity.
  - eexists. split; [exact v_token_made|reflexivity].
  - exists []. vm_compute. reflexivity.
Qed.
Lemma v_pass_ends : is_ok (fst v_pass) = true.
Proof. vm_compute. reflexivity. Qed.
Lemma v_usable : stays_usable (v_sending v_worlds).
Proof. unfold stays_usable. repeat constructor. Qed.
Lemma pass_sends_message_witness : exists l, sn_sent (snd v_pass) = l /\ NoDup (sf_index <$> l) /\ 0 ∈ sf_index <$> l.
Proof.
  destruct (pass_sends_message v_cipher w_mroot [] v_tid [w_c] ltac:(vm_compute; discriminate) v_root v_label 1 [] None (v_sending v_worlds)
    (Ok (get tt (fst v_pass))) (snd v_pass) (v_ready v_worlds)) as (l & [_ Hsent _ _ _] & _ & Hnd & _ & _ & _ & Hall).
  - exact (run_value tt v_pass v_pass_ends).
  - exists l. split; [exact Hsent|]. split; [exact Hnd|]. apply Hall; [by destruct (get tt (fst v_pass))|apply v_usable|lia|].
    exists v_chunk, r_metadata. split; [reflexivity|]. split; [vm_compute; reflexivity|exact I].
Defined.

(** ** A send to one peer *)

Definition v_start (complete : bool) (worlds : list SendPass.World) (buffers : list bytes) (cipher : option TransferCipher) : Transfer :=
  MkTransfer (MkSending v_newChunks buffers [] (v_world 0 complete) worlds) 0 1 cipher [].
Abbreviation v_whole := (sendWithReconcile (units "room") (units "peer") v_label 1 (tree_of [w_c]) w_mroot [] v_tid 0 (v_start true v_worlds [text "mine"] None)).
Lemma v_whole_ends : is_ok (fst v_whole) = true /\ is_Some (tr_cipher (snd v_whole)).
Proof. split; [vm_compute; reflexivity|]. eexists. vm_compute. reflexivity. Qed.
Lemma send_cleans_up_witness : confirmed (snd v_whole) /\ bufs (snd v_whole) !! 0%nat = Some (text "mine") /\
  exists l, tr_events (snd v_whole) = l ++ [channel_closed (tr_channel (snd v_whole)); edge_cleared].
Proof.
  destruct v_whole_ends as [Hok [c Hc]].
  destruct (send_cleans_up (units "room") (units "peer") v_label 1 (tree_of [w_c]) w_mroot [] v_tid 0 (v_start true v_worlds [text "mine"] None)
    (Ok (get tt (fst v_whole))) (snd v_whole)) as (_ & H1 & _ & _ & H2 & _ & H3).
  - reflexivity.
  - reflexivity.
  - exact (run_value tt v_whole Hok).
  - discriminate.
  - split; [apply H1; by destruct (get tt (fst v_whole))|]. split; [exact (H2 0%nat (Nat.lt_0_succ 0))|]. rewrite Hc in H3. exact H3.
Defined.

(** The channel died; the peer is there again on the same connection. *)
Definition v_owned : TransferCipher := MkTransferCipher 0 (MkCipher 0 e_header (Some (1%nat, e_context))).
Abbreviation v_resumes := (resume_turn (units "room") (units "peer") (v_start false v_worlds [e_mk; ctx_rootKey e_context] (Some v_owned))).
Lemma v_resumed : fst v_resumes = Ok true.
Proof. vm_compute. reflexivity. Qed.
Lemma resume_drops_context_witness : bufs (snd v_resumes) !! 1%nat = Some (ctx_rootKey e_context) /\
  (tc_epc <$> tr_cipher (snd v_resumes)) = Some 0%nat /\ (ci_context ∘ tc_cipher <$> tr_cipher (snd v_resumes)) = Some None.
Proof.
  destruct (resume_drops_context (units "room") (units "peer") (v_start false v_worlds [e_mk; ctx_rootKey e_context] (Some v_owned)) v_owned 1 e_context
    (snd v_resumes)) as (H1 & c' & H2 & H3).
  - reflexivity.
  - reflexivity.
  - discriminate.
  - cbn. lia.
  - exact (pair_fst v_resumes _ v_resumed).
  - assert (tc_epc <$> tr_cipher (snd v_resumes) = Some 0%nat) as He by (vm_compute; reflexivity).
    split; [exact H1|]. split; [exact He|]. rewrite H2 in *. cbn in He |- *. injection He as He. by rewrite (H3 He).
Defined.

(** A scheduled send whose receiver says nothing for two minutes. *)
Abbreviation v_scheduled := (scheduled_transfer 0 (v_start false (repeat (v_world 0 false) 3 ++ [v_world 200000 false]) [] None)).
Lemma v_unconfirmed : fst v_scheduled = Ok (failed_transfer not_confirmed).
Proof. vm_compute. reflexivity. Qed.
Lemma scheduled_key_dies_early_witness : exists c t2 l, tr_events (snd v_scheduled) = l ++ [job_enqueued 0 c] /\
  bufs (snd v_scheduled) = zero_of <$> bufs t2.
Proof.
  destruct (scheduled_key_dies_early (tree_of [w_c]) w_mroot [] v_tid 0 (v_start false (repeat (v_world 0 false) 3 ++ [v_world 200000 false]) [] None)
    (snd v_scheduled) (pair_fst v_scheduled _ v_unconfirmed)) as (c & t1 & t2 & l & _ & _ & H1 & H2 & _).
  exists c, t2, l. exact (conj H1 H2).
Defined.

(** ** A message to a channel of one peer *)

Definition v_fanout (scheduled : bool) (label : bytes) (split : SplitResult) (targets : list PeerSendTarget) (s : Sender) : PeerSendFanoutResult SendError * Sender :=
  (MkFanout ((fun target => (pt_peerId target, delivered)) <$> targets) (blen targets), s).
Definition v_app : App := MkApp (MkTransfers [] []) v_sender [] false false.
Definition v_room : RoomView := MkRoomView (units "room") [MkChannel (text "main") [units "peer"]] false.
Abbreviation v_sent := (handleSendMessage v_message (text "main") (units "room") [v_room] v_tid 1 4000 d_0_9 1 (v_env 4000) (fun _ x => x)
  (fun _ => v_connection) [0%nat] v_fanout true true v_app).
Lemma v_sent_ok : is_ok (fst v_sent) = true.
Proof. vm_compute. reflexivity. Qed.
Lemma message_settles_witness : (forall i, sd_newChunks (ap_sender (snd v_sent)) !! (v_tid, i) = None) /\
  (0%nat ∉ active_in (units "room") (ap_transfers (snd v_sent))).
Proof.
  destruct (message_settles v_message (text "main") (units "room") [v_room] v_tid 1 4000 d_0_9 1 (v_env 4000) (fun _ x => x)
    (fun _ => v_connection) [0%nat] v_fanout true v_app 0%nat v_transfers (Ok (get None (fst v_sent))) (snd v_sent)) as (a1 & _ & _ & H1 & H2 & _).
  - intros room t Ht. by apply elem_of_nil in Ht.
  - vm_compute. reflexivity.
  - intros point ts s. split; [intros a Ha; exists a; by split_and!|apply keeps_refl].
  - intros scheduled lbl split targets s. apply keeps_refl.
  - exact (run_value None v_sent v_sent_ok).
  - exact (conj H1 H2).
Defined.
